(* ===== verification/_CoqProject ===== *)
-Q . S2P
Prelude.v
Bfc.v
BfcRegions.v
BfcLinks.v
BfcInv.v
BfcOps.v
BfcAlloc.v
BfcDealloc.v
BfcExtend.v
BfcGc.v
BfcProps.v
BfcQueries.v
BfcTheorems.v
Coding.v
TensorShape.v
TensorShapeProofs.v
TensorShapeOps.v
TensorShapeTheorems.v
BCast.v
BCastTheorems.v
Block.v
BlockProofs.v
BlockTheorems.v
Crc32c.v
TableFormat.v
TableBuilder.v
Table.v
TableKeys.v
TableBuilderProofs.v
TableBuilderSpec.v
TableReader.v
TableTheorems.v
InputStream.v
Record.v
RecordProofs.v
RecordTheorems.v
Cancellation.v
CancellationTheorems.v
Hash.v
Counting.v
Cache.v
CacheTable.v
CacheInv.v
CacheMethods.v
CacheSpec.v
CacheTheorems.v
Rendezvous.v
RendezvousInv.v
RendezvousSys.v
RendezvousSpec.v
RendezvousTheorems.v
OrderedCode.v
OrderedCodeTheorems.v
PendingCounts.v
PendingProofs.v
PendingTheorems.v
GraphView.v
Executor.v
ExecutorInv.v
ExecutorSteps.v
ExecutorData.v
ExecutorEnd.v
ExecutorResults.v
ExecutorTheorems.v
FlatRep.v
FlatProofs.v
FlatTheorems.v
EdgeSet.v
Graph.v
GraphInv.v
GraphUpdate.v
GraphSpec.v
GraphTheorems.v
Numbers.v
DeviceName.v
DeviceNameTheorems.v
GraphViewInit.v
ExecutorInit.v
GraphViewProofs.v
ExecutorInitTheorems.v
