(* ===== verification/Prelude.v ===== *)
(** * A verification of core runtime components of TensorFlow

    The program is TensorFlow's C++ runtime (src/tensorflow/core).  This library
    models components of it that carry logic of their own and that other parts
    rely on: the memory allocator of devices, the shapes of tensors and their
    broadcasting, the key/value tables of checkpoints with their checksums,
    coding and block cache, record files and the streams they are read
    through, the order-preserving encoding of keys, the rendezvous through
    which executors exchange tensors, with the cancellation managers it
    registers with, the executor that runs a graph with its pending counts, the
    hash sets of the base library, the graph of nodes and edges that sessions
    build, rewrite and run, and the names of devices and of rendezvous
    channels.

    ** How the source is modelled

    A function of the source is a Rocq function of the same name.  Pure code is
    translated directly; code with state is in the monad [M S A] of this file:
    it takes a state [S] and returns [Done] with a result and the next state,
    [Crash] where the source fails a CHECK, follows a null or freed pointer,
    reads out of bounds or is undefined, or [OutOfFuel] when a loop is cut off.
    Loops are structural or take fuel; the fuel is chosen in the definition that
    starts the loop and the theorems show that it is enough (they conclude
    [Done]).  Integers are [Z] with the reductions of their width written out:
    [u32], [u64], [i32], [i64].  Counters that only grow by one with the life of
    an object are not reduced: the statistics and the ids of allocations of the
    allocator (64 bits), the ids of nodes and edges of a graph (32 bits, where
    the theorems bound the number of edges); nor is the number of slots of a
    flat set, which is below 2^32 for the sizes the theorems allow.  Bytes are [Z] in [0, 256).  Pointers are handles into
    an array or keys of a heap; linked lists are modelled with their links.
    Errors are values of [Status].  Methods that hold a mutex throughout are
    one definition; methods that release it are one definition per critical
    section, and threads interleave critical sections.  Code outside src/, and
    files and platforms, enter as class arguments with documented laws.

    ** The parts

    - Bfc* (common_runtime/bfc_allocator.h and .cc, allocator_retry.cc): the
      best-fit allocator with coalescing.  [Bfc] has the chunks, bins, regions
      and every operation from [AllocateRaw] to the destructor; the
      sub-allocator is a class.  [BfcRegions] to [BfcProps] prove the effect of the
      operations on the invariant [wf]: chunks tile the regions in doubly linked
      chains, free chunks are in the bin of their size, handles resolve.
      [BfcTheorems]: every reachable allocator, with and without garbage
      collection and over any sub-allocator that gives at least what is asked
      for, implements a map of disjoint allocations, serves the best fit and
      never leaves adjacent free chunks; operations return when the loops of
      [Extend] make progress; and the limits of the size arithmetic, where they
      do not.
    - Coding (platform/coding.cc, raw_coding.h): fixed-width integers and
      varints, with their round trips.
    - TensorShape* (framework/tensor_shape.h and .cc, util/overflow.h): the
      packed sixteen-byte representation with all its operations refines lists
      of sizes; validation, construction, protocol buffers and merging.
    - BCast* (util/bcast.h and .cc): broadcasting.  [BCast] has the constructor
      with and without the reduction of dimensions and the batch indices, and
      says which element of an operand an output element reads;
      [BCastTheorems]: the shapes computed read what the rule names.
    - Crc32c (lib/hash/crc32c.cc): the table-driven checksum equals the bitwise
      polynomial division.
    - Block* (lib/io/block_builder.cc, block.cc), TableFormat, TableBuilder*,
      Table, TableKeys, TableReader, TableTheorems (lib/io/format.cc,
      table_builder.cc, table.cc, two_level_iterator.cc): prefix-compressed
      blocks with restarts and table files.  What a builder wrote is read back
      by scans, seeks and point lookups; write errors are reported and kept.
      Compression is a class with the law that it can be undone.
    - Cache* (lib/io/cache.cc): the sharded least-recently-used cache of
      blocks.  [CacheTable] and [CacheInv] state what the links,
      the chained hash table and the reference counts mean; [CacheSpec] has an
      abstract cache and the refinement of every method; [CacheTheorems] states
      what clients get.
    - InputStream*, Record* (lib/io/inputstream_interface.cc,
      random_inputstream.cc, buffered_inputstream.cc, record_writer.cc,
      record_reader.cc): streams are a class with laws; the stream over a file
      and the buffered stream over any stream are instances.  What a record
      writer wrote is read back; a read succeeds exactly on the encoding of a
      record.
    - OrderedCode* (lib/strings/ordered_code.cc): encodings of
      strings, unsigned and signed numbers are instances of [OrderedItem];
      keys of several items compare and read back as their items.
    - PendingCounts, Pending* (common_runtime/pending_counts.h): counts packed
      in bytes refine one automaton per node; the atomic adjustment is a step
      relation of threads.
    - Hash (platform/hash.cc), Cancellation* (framework/cancellation.cc),
      Rendezvous* (framework/local_rendezvous.cc): senders and receivers meet
      under a key.  [RendezvousInv] to [RendezvousSpec] keep an invariant in
      every interleaving of threads; [RendezvousTheorems] shows exactly-once
      completion, order, balance of references, and absence of deadlock.
    - Flat* (lib/gtl/flatrep.h, flatset.h): the open-addressed hash table and the
      set over it.  [FlatProofs] shows that triangular probes visit every slot
      and that every key is found before an empty slot; [FlatTheorems]: the set
      behaves as a set, searches end, and what [clear] breaks.
    - EdgeSet, Graph* (graph/edgeset.h and .cc, graph/graph.h and .cc): the sets
      of edges of a node are proved against the class [FlatSet], which the
      table of [FlatRep] implements with the hash of pointers; nodes and
      edges are objects of an arena that are recycled; [Graph] has every
      operation on them, the names of devices, copies and serialization; the
      registry of ops is a class.  [GraphInv] abstracts a graph to a multigraph
      of ids and states when sets, vectors, counts and free lists agree;
      [GraphInv] and [GraphUpdate] prove the operations; [GraphSpec] is the
      specification of requests and of copies; [GraphTheorems] states what holds
      of every graph that can be built.
    - GraphView, Executor* (common_runtime/entry.h, graph_view.h,
      simple_propagator_state.h and .cc, executor.cc): a step of a graph without
      control flow.  [GraphView] has the values on edges and the items of nodes;
      [Executor] has the state of a step, the functions of [ExecutorState] and
      [SimplePropagatorState] cut at their accesses to shared state, and the
      pool of threads that interleaves them, with kernels, devices and the
      runner free at every action.  [ExecutorInv] states when counts, threads
      and the state agree; [ExecutorSteps] shows that every action is defined
      and keeps that; [ExecutorData] follows values along edges; [ExecutorEnd]
      follows errors and bounds the number of actions; [ExecutorResults]
      compares runs; [ExecutorTheorems]: safety, dataflow, termination,
      exactly one report, the status reported, and independence of schedules.
    - GraphViewInit, ExecutorInit, GraphViewProofs, ExecutorInitTheorems
      (common_runtime/graph_view.cc, immutable_executor_state.h and .cc): the
      view of a graph that a step runs on.  [GraphViewInit] makes the items and
      infers the attributes of allocators; [ExecutorInit] assigns frames,
      creates kernels and lays out inputs and pending counts;
      [GraphViewProofs] follows [Initialize] through the nodes of a graph;
      [ExecutorInitTheorems]: what it makes of a graph is what the executor
      relies on, so that every well-formed graph without cycles and frames
      runs to the end.
    - Numbers (platform/numbers.cc, ConsumeLeadingDigits of str_util.cc): texts,
      printing and parsing of integers against their value.
    - DeviceName* (util/device_name_utils.h and .cc, the keys of
      framework/rendezvous.cc): names of devices with all their functions.
      [DeviceNameTheorems] gives them their meaning as sets of devices, follows
      the parser, and shows patterns, round trips of names and keys, canonical
      names, and the numbers that wrap.
    - Counting: sums and occurrence counts used by the invariants.

    ** Fuel

    The searches of the allocator take the number of bins or chunks; the loops
    of [Extend] the number of doublings of a 64-bit size; table scans the number
    of entries; queue walks and the search of the cancellation callback the
    number of items; walks over children the number of managers; hash chains,
    rehashing and eviction the size of the heap; the growth of the hash table 33
    doublings; searches of flat sets the number of slots, their growth 64
    doublings, with fewer than 2^30 elements; the parser of device names the
    number of characters; the walk that finds frames the number of nodes.

    ** Not modelled

    Kernels, op registration, graph construction from protocol buffers and the
    graph optimizers, the distributed runtime, XLA, MLIR, TensorFlow Lite, the
    client APIs and the platform layer are outside this library: they are
    dominated by external libraries (Eigen, protocol buffers, LLVM, gRPC, CUDA)
    or by glue.  Of the executor, frames and dead tensors of [PropagatorState]
    are not modelled, and the contents of items are records and not bytes.  The
    wrapper of the local rendezvous and its blocking receive only forward calls. *)
From stdpp Require Export base tactics numbers option list gmap sets.
From stdpp Require Import options.

#[global] Open Scope Z_scope.
Set Default Proof Using "Type".

(** ** Machine integers

    A [w]-bit unsigned integer of the source is a [Z] in [0, 2^w); arithmetic
    is done in [Z] and then reduced by [uwrap], exactly where the C++ code
    reduces.  Signed 64-bit values are two's complement. *)
Definition uwrap (w z : Z) : Z := z mod 2 ^ w.

Definition u8 (z : Z) : Z := uwrap 8 z.

Definition u32 (z : Z) : Z := uwrap 32 z.

Definition u64 (z : Z) : Z := uwrap 64 z.

Definition i64 (z : Z) : Z := (z + 2 ^ 63) mod 2 ^ 64 - 2 ^ 63.

Definition i32 (z : Z) : Z := (z + 2 ^ 31) mod 2 ^ 32 - 2 ^ 31.

(** Conversion to a signed integer of [w] bits. *)
Definition swrap (w z : Z) : Z := (z + 2 ^ (w - 1)) mod 2 ^ w - 2 ^ (w - 1).

Definition in_u32 (z : Z) : Prop := 0 <= z < 2 ^ 32.

Definition in_u64 (z : Z) : Prop := 0 <= z < 2 ^ 64.

Definition in_i32 (z : Z) : Prop := - 2 ^ 31 <= z < 2 ^ 31.

Definition in_i64 (z : Z) : Prop := - 2 ^ 63 <= z < 2 ^ 63.

Definition is_byte (z : Z) : Prop := 0 <= z < 256.

#[export] Instance in_u32_dec z : Decision (in_u32 z).
Proof. unfold in_u32. apply _. Defined.

#[export] Instance in_u64_dec z : Decision (in_u64 z).
Proof. unfold in_u64. apply _. Defined.

#[export] Instance in_i64_dec z : Decision (in_i64 z).
Proof. unfold in_i64. apply _. Defined.

#[export] Instance is_byte_dec z : Decision (is_byte z).
Proof. unfold is_byte. apply _. Defined.

Lemma uwrap_small w z : 0 <= z < 2 ^ w -> uwrap w z = z.
Proof. intros. apply Z.mod_small. lia. Qed.

Lemma uwrap_range w z : 0 <= w -> 0 <= uwrap w z < 2 ^ w.
Proof. intros. apply Z.mod_pos_bound. lia. Qed.

Lemma u8_byte z : is_byte (u8 z).
Proof. apply uwrap_range. lia. Qed.

Lemma u64_small z : in_u64 z -> u64 z = z.
Proof. apply uwrap_small. Qed.

Lemma u64_range z : in_u64 (u64 z).
Proof. apply uwrap_range. lia. Qed.

Lemma u32_small z : in_u32 z -> u32 z = z.
Proof. apply uwrap_small. Qed.

Lemma i64_small z : in_i64 z -> i64 z = z.
Proof. unfold in_i64, i64. intros. rewrite Z.mod_small; lia. Qed.

Lemma i32_small z : in_i32 z -> i32 z = z.
Proof. unfold in_i32, i32. intros. rewrite Z.mod_small; lia. Qed.

Lemma i32_range z : in_i32 (i32 z).
Proof. unfold in_i32, i32. pose proof (Z.mod_pos_bound (z + 2 ^ 31) (2 ^ 32)). lia. Qed.

Lemma swrap_small w z : 0 < w -> - 2 ^ (w - 1) <= z < 2 ^ (w - 1) -> swrap w z = z.
Proof.
  intros Hw Hz. unfold swrap. assert (2 ^ w = 2 * 2 ^ (w - 1)).
  { rewrite <-Z.pow_succ_r by lia. f_equal. lia. }
  rewrite Z.mod_small; lia.
Qed.

Lemma i64_range z : in_i64 (i64 z).
Proof. unfold in_i64, i64. pose proof (Z.mod_pos_bound (z + 2 ^ 63) (2 ^ 64)). lia. Qed.

(** ** Outcomes of operations that can abort the process

    [Done] is a normal return, [Crash] is a failed [CHECK], a [LOG(FATAL)] or
    undefined behaviour (a vector index out of range), and [OutOfFuel] is a
    loop that has not finished within the fuel it was given. *)
Inductive outcome (A : Type) : Type :=
| Done (a : A)
| Crash
| OutOfFuel.
Arguments Done {A} a.
Arguments Crash {A}.
Arguments OutOfFuel {A}.

(** State-passing computations over a state [S] that can abort. *)
Definition M (S A : Type) : Type := S -> outcome (A * S).

Definition ret {S A} (a : A) : M S A := fun s => Done (a, s).

Definition bind {S A B} (m : M S A) (k : A -> M S B) : M S B := fun s =>
  match m s with
  | Done (a, s') => k a s'
  | Crash => Crash
  | OutOfFuel => OutOfFuel
  end.

Definition get {S} : M S S := fun s => Done (s, s).

Definition modify {S} (f : S -> S) : M S unit := fun s => Done (tt, f s).

Definition crash {S A} : M S A := fun _ => Crash.

Definition out_of_fuel {S A} : M S A := fun _ => OutOfFuel.

(** [CHECK(b)]: aborts when [b] is false. *)
Definition CHECK {S} (b : bool) : M S unit := fun s => if b then Done (tt, s) else Crash.

Declare Scope tf_monad_scope.
Delimit Scope tf_monad_scope with tfm.
Notation "x <~ m ;; k" := (bind m (fun x => k))
  (at level 100, m at next level, right associativity) : tf_monad_scope.
Notation "m ;;; k" := (bind m (fun _ => k))
  (at level 100, right associativity) : tf_monad_scope.

Section monad_laws.
Context {S A B : Type}.

Lemma bind_Done (m : M S A) (k : A -> M S B) s a s' :
  m s = Done (a, s') -> bind m k s = k a s'.
Proof. unfold bind. by intros ->. Qed.

Lemma bind_ret_l (a : A) (k : A -> M S B) s : bind (ret a) k s = k a s.
Proof. done. Qed.

Lemma bind_inv (m : M S A) (k : A -> M S B) s b s' :
  bind m k s = Done (b, s') -> exists a s1, m s = Done (a, s1) /\ k a s1 = Done (b, s').
Proof. unfold bind. destruct (m s) as [[a s1]| |]; naive_solver. Qed.
End monad_laws.

(** [simpl_eq] reduces the boolean tests of the code to propositions. *)
Ltac bool_to_prop :=
  repeat match goal with
  | H : _ && _ = true |- _ => apply andb_true_iff in H as [? ?]
  | H : _ || _ = false |- _ => apply orb_false_iff in H as [? ?]
  | H : negb _ = true |- _ => apply negb_true_iff in H
  | H : negb _ = false |- _ => apply negb_false_iff in H
  | H : (_ =? _) = true |- _ => apply Z.eqb_eq in H
  | H : (_ =? _) = false |- _ => apply Z.eqb_neq in H
  | H : (_ <? _) = true |- _ => apply Z.ltb_lt in H
  | H : (_ <? _) = false |- _ => apply Z.ltb_ge in H
  | H : (_ <=? _) = true |- _ => apply Z.leb_le in H
  | H : (_ <=? _) = false |- _ => apply Z.leb_gt in H
  end.

(** [lift] runs a computation that does not touch the state. *)
Definition lift {S A} (o : outcome A) : M S A := fun s =>
  match o with
  | Done a => Done (a, s)
  | Crash => Crash
  | OutOfFuel => OutOfFuel
  end.

(** [for (x : l) f(x)]. *)
Fixpoint for_each {S A} (f : A -> M S unit) (l : list A) : M S unit :=
  match l with
  | [] => ret tt
  | x :: l => bind (f x) (fun _ => for_each f l)
  end.

(** ** Status values: the error code without its message *)
Inductive Code : Set :=
| CANCELLED | UNKNOWN | INVALID_ARGUMENT | DEADLINE_EXCEEDED | NOT_FOUND
| ALREADY_EXISTS | PERMISSION_DENIED | RESOURCE_EXHAUSTED | FAILED_PRECONDITION
| ABORTED | OUT_OF_RANGE | UNIMPLEMENTED | INTERNAL | UNAVAILABLE | DATA_LOSS.

Inductive Status : Set :=
| StatusOK
| StatusError (c : Code).

Definition ok (s : Status) : bool :=
  match s with StatusOK => true | StatusError _ => false end.

#[export] Instance Code_eq_dec : EqDecision Code.
Proof. solve_decision. Defined.

#[export] Instance Status_eq_dec : EqDecision Status.
Proof. solve_decision. Defined.

(** [for (x : l) { s = f(x); if (!s.ok()) return s; } return OK]. *)
Fixpoint for_each_status {S A} (f : A -> M S Status) (l : list A) : M S Status :=
  match l with
  | [] => ret StatusOK
  | x :: l => bind (f x) (fun s => if ok s then for_each_status f l else ret s)
  end.

(** ** Bit-level facts shared by the coders *)
Lemma lor_add_disjoint a b : Z.land a b = 0 -> Z.lor a b = a + b.
Proof. intros. rewrite <-Z.lxor_lor by done. by rewrite Z.add_nocarry_lxor. Qed.

Lemma land_shiftl_low a b n : 0 <= n -> 0 <= a < 2 ^ n -> Z.land a (Z.shiftl b n) = 0.
Proof.
  intros Hn Ha. apply Z.bits_inj'. intros i Hi. rewrite Z.land_spec, Z.bits_0.
  destruct (decide (i < n)).
  - rewrite Z.shiftl_spec_low by lia. apply andb_false_r.
  - rewrite <-(Z.mod_small a (2 ^ n)) by lia. rewrite Z.mod_pow2_bits_high by lia. done.
Qed.

Lemma lor_shiftl_add a b n : 0 <= n -> 0 <= a < 2 ^ n -> Z.lor a (Z.shiftl b n) = a + b * 2 ^ n.
Proof.
  intros. rewrite lor_add_disjoint by (by apply land_shiftl_low).
  by rewrite Z.shiftl_mul_pow2 by lia.
Qed.

(** ** Multiples *)
Lemma add_mod_0 a b m : 0 < m -> a mod m = 0 -> b mod m = 0 -> (a + b) mod m = 0.
Proof. intros. rewrite Z.add_mod by lia. rewrite H0, H1. by apply Z.mod_0_l; lia. Qed.

Lemma sub_mod_0 a b m : 0 < m -> a mod m = 0 -> b mod m = 0 -> (a - b) mod m = 0.
Proof. intros. rewrite Zminus_mod, H0, H1. by apply Z.mod_0_l; lia. Qed.

Create HintDb tf.
#[export] Hint Resolve u8_byte u64_range i64_range add_mod_0 sub_mod_0 : tf.
Create Rewrite HintDb tf_rw.
#[export] Hint Rewrite @length_insert @length_app @length_replicate @length_take @length_drop : tf_rw.
