(* ===== verification/Bfc.v ===== *)
(** * The best-fit-with-coalescing allocator: state and operations

    Model of src/tensorflow/core/common_runtime/bfc_allocator.{h,cc} with the
    [RegionManager]/[AllocationRegion] classes of the header and the
    [SharedCounter] and [AllocatorRetry] helpers it uses.

    - a [ChunkHandle] is an index into the vector [chunks_]; pointers and sizes
      are 64-bit values, [nullptr] is 0, [kInvalidChunkHandle] is [SIZE_MAX];
    - a failed [CHECK], [LOG(FATAL)] and a vector access out of range are
      [Crash]; a loop that does not finish within its fuel is [OutOfFuel];
    - the mutex makes every public operation atomic, so operations are
      functions on the allocator state;
    - logging, profiling counters and the [TENSORFLOW_MEM_DEBUG] fields do not
      influence the state and are left out. *)
From S2P Require Import Prelude.
From Stdlib Require Import SpecFloat.
From stdpp Require Import options.
#[local] Open Scope tf_monad_scope.

(** ** The sub-allocator interface (src/tensorflow/core/framework/allocator.h)

    [SubAllocator] is an abstract class; its implementations are device
    specific.  The allocator is parametrised by an implementation (its state,
    [Alloc] and [Free]); [SubAllocatorLaws] states the documented contract. *)
Class SubAllocator := {
  sa_state : Type;
  sa_Alloc : sa_state -> Z -> Z -> option (Z * Z) * sa_state;
  sa_Free : sa_state -> Z -> Z -> sa_state;
  sa_SupportsCoalescing : bool
}.

(** [sa_owned st a]: address [a] is in a block handed out and not yet freed.
    [Alloc] gives at least the bytes asked for, in a fresh block of the user
    address space (the lower half of the 64-bit range); the block size is a
    multiple of 256 when the request is (the allocator [DCHECK]s this). *)
Class SubAllocatorLaws (SA : SubAllocator) := {
  sa_owned : sa_state -> Z -> Prop;
  sa_Alloc_some st al n p r st' :
    sa_Alloc st al n = (Some (p, r), st') -> 0 < n -> n mod 256 = 0 ->
    0 < p /\ n <= r /\ r mod 256 = 0 /\ p + r < 2 ^ 63 /\
    (forall a, p <= a < p + r -> ~ sa_owned st a) /\
    (forall a, sa_owned st' a <-> sa_owned st a \/ p <= a < p + r);
  sa_Alloc_none st al n st' :
    sa_Alloc st al n = (None, st') -> forall a, sa_owned st' a <-> sa_owned st a;
  sa_Free_spec st p n a :
    sa_owned (sa_Free st p n) a <-> sa_owned st a /\ ~ (p <= a < p + n)
}.

(** ** Constants and data *)

Definition kInvalidChunkHandle : Z := 2 ^ 64 - 1.

Definition kInvalidBinNum : Z := -1.

Definition kNumBins : Z := 21.

Definition kMinAllocationBits : Z := 8.

Definition kMinAllocationSize : Z := Z.shiftl 1 kMinAllocationBits.

Record Chunk := mkChunk {
  size : Z;
  requested_size : Z;
  allocation_id : Z;
  ptr : Z;
  prev : Z;
  next : Z;
  bin_num : Z;
  freed_at_count : Z
}.

#[export] Instance Chunk_eq_dec : EqDecision Chunk.
Proof. solve_decision. Defined.

Definition default_chunk : Chunk :=
  mkChunk 0 0 (-1) 0 kInvalidChunkHandle kInvalidChunkHandle kInvalidBinNum 0.

Definition in_use (c : Chunk) : bool := negb (allocation_id c =? -1).

Definition set_size (v : Z) (c : Chunk) : Chunk :=
  mkChunk v (requested_size c) (allocation_id c) (ptr c) (prev c) (next c) (bin_num c)
    (freed_at_count c).

Definition set_requested_size (v : Z) (c : Chunk) : Chunk :=
  mkChunk (size c) v (allocation_id c) (ptr c) (prev c) (next c) (bin_num c) (freed_at_count c).

Definition set_allocation_id (v : Z) (c : Chunk) : Chunk :=
  mkChunk (size c) (requested_size c) v (ptr c) (prev c) (next c) (bin_num c) (freed_at_count c).

Definition set_ptr (v : Z) (c : Chunk) : Chunk :=
  mkChunk (size c) (requested_size c) (allocation_id c) v (prev c) (next c) (bin_num c)
    (freed_at_count c).

Definition set_prev (v : Z) (c : Chunk) : Chunk :=
  mkChunk (size c) (requested_size c) (allocation_id c) (ptr c) v (next c) (bin_num c)
    (freed_at_count c).

Definition set_next (v : Z) (c : Chunk) : Chunk :=
  mkChunk (size c) (requested_size c) (allocation_id c) (ptr c) (prev c) v (bin_num c)
    (freed_at_count c).

Definition set_bin_num (v : Z) (c : Chunk) : Chunk :=
  mkChunk (size c) (requested_size c) (allocation_id c) (ptr c) (prev c) (next c) v
    (freed_at_count c).

Definition set_freed_at_count (v : Z) (c : Chunk) : Chunk :=
  mkChunk (size c) (requested_size c) (allocation_id c) (ptr c) (prev c) (next c) (bin_num c) v.

(** ** [AllocationRegion]: the pointer-to-handle table of one block *)

Record AllocationRegion := mkRegion {
  r_ptr : Z;
  r_memory_size : Z;
  r_end_ptr : Z;
  r_handles : list Z
}.

Definition n_handles_for (memory_size : Z) : nat :=
  Z.to_nat (u64 (memory_size + kMinAllocationSize - 1) / kMinAllocationSize).

Definition AllocationRegion_new (p memory_size : Z) : AllocationRegion :=
  mkRegion p memory_size (u64 (p + memory_size))
    (replicate (n_handles_for memory_size) kInvalidChunkHandle).

(** [std::vector::resize(n, x)] *)
Definition vec_resize {A} (n : nat) (x : A) (l : list A) : list A :=
  take n l ++ replicate (n - length l) x.

Definition extend (sz : Z) (r : AllocationRegion) : AllocationRegion :=
  let ms := u64 (r_memory_size r + sz) in
  mkRegion (r_ptr r) ms (u64 (r_end_ptr r + sz))
    (vec_resize (n_handles_for ms) kInvalidChunkHandle (r_handles r)).

Definition IndexFor (r : AllocationRegion) (p : Z) : nat :=
  Z.to_nat (Z.shiftr (u64 (p - r_ptr r)) kMinAllocationBits).

(** [None]: the index is outside the table. *)
Definition region_get_handle (r : AllocationRegion) (p : Z) : option Z := r_handles r !! IndexFor r p.

Definition region_set_handle (r : AllocationRegion) (p h : Z) : option AllocationRegion :=
  match r_handles r !! IndexFor r p with
  | Some _ => Some (mkRegion (r_ptr r) (r_memory_size r) (r_end_ptr r)
                      (<[IndexFor r p := h]> (r_handles r)))
  | None => None
  end.

(** ** [RegionManager]: regions sorted by end pointer

    [std::upper_bound] with the header's [Comparator] is the first region
    whose end pointer is above [p]. *)
Fixpoint upper_bound (regions : list AllocationRegion) (p : Z) : nat :=
  match regions with
  | [] => 0%nat
  | r :: rs => if p <? r_end_ptr r then 0%nat else S (upper_bound rs p)
  end.

Definition AddAllocationRegion (p memory_size : Z) (rs : list AllocationRegion) :
    list AllocationRegion :=
  let entry := upper_bound rs p in
  take entry rs ++ AllocationRegion_new p memory_size :: drop entry rs.

(** Also returns the extended region, if one was extended. *)
Definition AddOrExtendAllocationRegion (p memory_size : Z) (rs : list AllocationRegion) :
    option AllocationRegion * list AllocationRegion :=
  let entry := upper_bound rs p in
  match entry with
  | O => (None, take entry rs ++ AllocationRegion_new p memory_size :: drop entry rs)
  | S i =>
      match rs !! i with
      | Some preceding =>
          if r_end_ptr preceding =? p then
            let e := extend memory_size preceding in (Some e, <[i := e]> rs)
          else (None, take entry rs ++ AllocationRegion_new p memory_size :: drop entry rs)
      | None => (None, take entry rs ++ AllocationRegion_new p memory_size :: drop entry rs)
      end
  end.

Definition RegionFor (rs : list AllocationRegion) (p : Z) : option (nat * AllocationRegion) :=
  let entry := upper_bound rs p in
  match rs !! entry with
  | Some r => Some (entry, r)
  | None => None
  end.

Definition rm_get_handle (rs : list AllocationRegion) (p : Z) : option Z :=
  '(_, r) ← RegionFor rs p; region_get_handle r p.

Definition rm_set_handle (rs : list AllocationRegion) (p h : Z) : option (list AllocationRegion) :=
  '(i, r) ← RegionFor rs p; r' ← region_set_handle r p h; Some (<[i := r']> rs).

(** ** Allocator state *)

Record AllocatorStats := mkStats {
  num_allocs : Z;
  bytes_in_use : Z;
  peak_bytes_in_use : Z;
  largest_alloc_size : Z;
  bytes_limit : option Z
}.

(** [timing_counter_] is [None] when no [SharedCounter] is attached, and its
    current value otherwise. *)
Record BFCAllocator `{SubAllocator} := mkBFC {
  garbage_collection_ : bool;
  coalesce_regions_ : bool;
  memory_limit_ : Z;
  internal_fragmentation_fraction_ : spec_float;
  curr_region_allocation_bytes_ : Z;
  total_region_allocated_bytes_ : Z;
  started_backpedal_ : bool;
  timing_counter_ : option Z;
  timestamped_chunks_ : list Z;
  safe_frontier_ : Z;
  sub_allocator_ : sa_state;
  region_manager_ : list AllocationRegion;
  chunks_ : list Chunk;
  free_chunks_list_ : Z;
  bins_ : list (list Z);
  next_allocation_id_ : Z;
  stats_ : AllocatorStats
}.

Section setters.
Context `{SA : SubAllocator}.

(** One update function for the parts of the state each group of operations
    writes. *)
Definition with_chunks (v : list Chunk) (s : BFCAllocator) : BFCAllocator :=
  mkBFC _ (garbage_collection_ s) (coalesce_regions_ s) (memory_limit_ s)
    (internal_fragmentation_fraction_ s) (curr_region_allocation_bytes_ s)
    (total_region_allocated_bytes_ s) (started_backpedal_ s) (timing_counter_ s)
    (timestamped_chunks_ s) (safe_frontier_ s) (sub_allocator_ s) (region_manager_ s)
    v (free_chunks_list_ s) (bins_ s) (next_allocation_id_ s) (stats_ s).

Definition with_free_list (v : Z) (s : BFCAllocator) : BFCAllocator :=
  mkBFC _ (garbage_collection_ s) (coalesce_regions_ s) (memory_limit_ s)
    (internal_fragmentation_fraction_ s) (curr_region_allocation_bytes_ s)
    (total_region_allocated_bytes_ s) (started_backpedal_ s) (timing_counter_ s)
    (timestamped_chunks_ s) (safe_frontier_ s) (sub_allocator_ s) (region_manager_ s)
    (chunks_ s) v (bins_ s) (next_allocation_id_ s) (stats_ s).

Definition with_regions (v : list AllocationRegion) (s : BFCAllocator) : BFCAllocator :=
  mkBFC _ (garbage_collection_ s) (coalesce_regions_ s) (memory_limit_ s)
    (internal_fragmentation_fraction_ s) (curr_region_allocation_bytes_ s)
    (total_region_allocated_bytes_ s) (started_backpedal_ s) (timing_counter_ s)
    (timestamped_chunks_ s) (safe_frontier_ s) (sub_allocator_ s) v
    (chunks_ s) (free_chunks_list_ s) (bins_ s) (next_allocation_id_ s) (stats_ s).

Definition with_bins (v : list (list Z)) (s : BFCAllocator) : BFCAllocator :=
  mkBFC _ (garbage_collection_ s) (coalesce_regions_ s) (memory_limit_ s)
    (internal_fragmentation_fraction_ s) (curr_region_allocation_bytes_ s)
    (total_region_allocated_bytes_ s) (started_backpedal_ s) (timing_counter_ s)
    (timestamped_chunks_ s) (safe_frontier_ s) (sub_allocator_ s) (region_manager_ s)
    (chunks_ s) (free_chunks_list_ s) v (next_allocation_id_ s) (stats_ s).

Definition with_stats (nid : Z) (v : AllocatorStats) (s : BFCAllocator) : BFCAllocator :=
  mkBFC _ (garbage_collection_ s) (coalesce_regions_ s) (memory_limit_ s)
    (internal_fragmentation_fraction_ s) (curr_region_allocation_bytes_ s)
    (total_region_allocated_bytes_ s) (started_backpedal_ s) (timing_counter_ s)
    (timestamped_chunks_ s) (safe_frontier_ s) (sub_allocator_ s) (region_manager_ s)
    (chunks_ s) (free_chunks_list_ s) (bins_ s) nid v.

Definition with_timing (tc : option Z) (ts : list Z) (sf : Z) (s : BFCAllocator) : BFCAllocator :=
  mkBFC _ (garbage_collection_ s) (coalesce_regions_ s) (memory_limit_ s)
    (internal_fragmentation_fraction_ s) (curr_region_allocation_bytes_ s)
    (total_region_allocated_bytes_ s) (started_backpedal_ s) tc ts sf
    (sub_allocator_ s) (region_manager_ s)
    (chunks_ s) (free_chunks_list_ s) (bins_ s) (next_allocation_id_ s) (stats_ s).

Definition with_growth (curr total : Z) (bp : bool) (st : sa_state) (s : BFCAllocator) :
    BFCAllocator :=
  mkBFC _ (garbage_collection_ s) (coalesce_regions_ s) (memory_limit_ s)
    (internal_fragmentation_fraction_ s) curr total bp (timing_counter_ s)
    (timestamped_chunks_ s) (safe_frontier_ s) st (region_manager_ s)
    (chunks_ s) (free_chunks_list_ s) (bins_ s) (next_allocation_id_ s) (stats_ s).
End setters.

(** ** Sizes and bins *)

Definition RoundedBytes (bytes : Z) : Z :=
  u64 (kMinAllocationSize * (u64 (bytes + kMinAllocationSize - 1) / kMinAllocationSize)).

(** [63 ^ __builtin_clzll(n)] *)
Definition Log2FloorNonZero (n : Z) : Z := Z.log2 n.

(** The portable loop: [while (n > 0) { r++; n >>= 1; } return r - 1]. *)
Fixpoint Log2FloorNonZeroSlow_loop (fuel : nat) (n r : Z) : option Z :=
  match fuel with
  | O => None
  | S fuel => if 0 <? n then Log2FloorNonZeroSlow_loop fuel (Z.shiftr n 1) (r + 1) else Some (r - 1)
  end.

Definition Log2FloorNonZeroSlow (n : Z) : option Z := Log2FloorNonZeroSlow_loop 65 n 0.

Definition BinNumToSize (index : Z) : Z := u64 (Z.shiftl 256 index).

Definition BinNumForSize (bytes : Z) : Z :=
  let v := Z.shiftr (Z.max bytes 256) kMinAllocationBits in
  Z.min (kNumBins - 1) (Log2FloorNonZero v).

(** ** Ordered sets of handles ([std::set<ChunkHandle, ChunkComparator>]) *)

Section std_set.
Variable lt : Z -> Z -> bool.

Fixpoint set_insert (h : Z) (l : list Z) : list Z :=
  match l with
  | [] => [h]
  | x :: l' => if lt h x then h :: l else if lt x h then x :: set_insert h l' else l
  end.

(** [erase(key)]: the remaining set and the number of elements erased. *)
Fixpoint set_erase (h : Z) (l : list Z) : list Z * Z :=
  match l with
  | [] => ([], 0)
  | x :: l' =>
      if negb (lt h x) && negb (lt x h) then (l', 1)
      else let '(r, n) := set_erase h l' in (x :: r, n)
  end.
End std_set.

(** [erase(iterator)]: removes the element the iterator stands on. *)
Fixpoint iter_erase (h : Z) (l : list Z) : list Z :=
  match l with
  | [] => []
  | x :: l' => if x =? h then l' else x :: iter_erase h l'
  end.

Section bfc.
Context `{SA : SubAllocator}.
Abbreviation B := BFCAllocator.

(** ** Access to chunks, handles and bins *)

Definition lookup_chunk (cs : list Chunk) (h : Z) : option Chunk :=
  if 0 <=? h then cs !! Z.to_nat h else None.

Definition ChunkFromHandle (h : Z) : M B Chunk := fun s =>
  match lookup_chunk (chunks_ s) h with
  | Some c => Done (c, s)
  | None => Crash
  end.

(** [c->field = v] through the pointer [ChunkFromHandle(h)]. *)
Definition update_chunk (h : Z) (f : Chunk -> Chunk) : M B unit := fun s =>
  match lookup_chunk (chunks_ s) h with
  | Some c => Done (tt, with_chunks (<[Z.to_nat h := f c]> (chunks_ s)) s)
  | None => Crash
  end.

Definition get_handle (p : Z) : M B Z := fun s =>
  match rm_get_handle (region_manager_ s) p with
  | Some h => Done (h, s)
  | None => Crash
  end.

Definition set_handle (p h : Z) : M B unit := fun s =>
  match rm_set_handle (region_manager_ s) p h with
  | Some rs => Done (tt, with_regions rs s)
  | None => Crash
  end.

Definition erase (p : Z) : M B unit := set_handle p kInvalidChunkHandle.

Definition BinFromIndex (b : Z) : M B (list Z) := fun s =>
  if 0 <=? b then
    match bins_ s !! Z.to_nat b with
    | Some l => Done (l, s)
    | None => Crash
    end
  else Crash.

Definition set_bin (b : Z) (l : list Z) : M B unit :=
  modify (fun s => with_bins (<[Z.to_nat b := l]> (bins_ s)) s).

Definition chunk_of (s : B) (h : Z) : Chunk := default default_chunk (lookup_chunk (chunks_ s) h).

(** Sort first by size and then use pointer address as a tie breaker. *)
Definition ChunkComparator (s : B) (ha hb : Z) : bool :=
  let a := chunk_of s ha in
  let b := chunk_of s hb in
  if negb (size a =? size b) then size a <? size b else ptr a <? ptr b.

(** ** Chunk slots *)

Definition AllocateChunk : M B Z :=
  s <~ get;;
  if negb (free_chunks_list_ s =? kInvalidChunkHandle) then
    let h := free_chunks_list_ s in
    c <~ ChunkFromHandle h;;
    modify (with_free_list (next c));;;
    ret h
  else
    let h := Z.of_nat (length (chunks_ s)) in
    modify (with_chunks (chunks_ s ++ [default_chunk]));;;
    ret h.

Definition DeallocateChunk (h : Z) : M B unit :=
  update_chunk h (set_allocation_id (-1));;;
  update_chunk h (set_bin_num kInvalidBinNum);;;
  s <~ get;;
  update_chunk h (set_next (free_chunks_list_ s));;;
  modify (with_free_list h).

Definition DeleteChunk (h : Z) : M B unit :=
  c <~ ChunkFromHandle h;;
  erase (ptr c);;;
  DeallocateChunk h.

(** ** Bins *)

Definition InsertFreeChunkIntoBin (h : Z) : M B unit :=
  c <~ ChunkFromHandle h;;
  CHECK (negb (in_use c) && (bin_num c =? kInvalidBinNum));;;
  let b := BinNumForSize (size c) in
  new_bin <~ BinFromIndex b;;
  update_chunk h (set_bin_num b);;;
  s <~ get;;
  set_bin b (set_insert (ChunkComparator s) h new_bin).

Definition RemoveFreeChunkIterFromBin (b h : Z) : M B unit :=
  c <~ ChunkFromHandle h;;
  CHECK (negb (in_use c) && negb (bin_num c =? kInvalidBinNum));;;
  free_chunks <~ BinFromIndex b;;
  set_bin b (iter_erase h free_chunks);;;
  update_chunk h (set_bin_num kInvalidBinNum).

Definition RemoveFreeChunkFromBin (h : Z) : M B unit :=
  c <~ ChunkFromHandle h;;
  CHECK (negb (in_use c) && negb (bin_num c =? kInvalidBinNum));;;
  bin <~ BinFromIndex (bin_num c);;
  s <~ get;;
  let '(bin', n) := set_erase (ChunkComparator s) h bin in
  set_bin (bin_num c) bin';;;
  CHECK (0 <? n);;;
  update_chunk h (set_bin_num kInvalidBinNum).

(** ** Splitting, merging, coalescing *)

Definition SplitChunk (h num_bytes : Z) : M B unit :=
  h_new_chunk <~ AllocateChunk;;
  c <~ ChunkFromHandle h;;
  CHECK (negb (in_use c) && (bin_num c =? kInvalidBinNum));;;
  update_chunk h_new_chunk (set_ptr (u64 (ptr c + num_bytes)));;;
  set_handle (u64 (ptr c + num_bytes)) h_new_chunk;;;
  update_chunk h_new_chunk (set_size (u64 (size c - num_bytes)));;;
  update_chunk h (set_size num_bytes);;;
  update_chunk h_new_chunk (set_allocation_id (-1));;;
  update_chunk h_new_chunk (set_freed_at_count (freed_at_count c));;;
  let h_neighbor := next c in
  update_chunk h_new_chunk (set_prev h);;;
  update_chunk h_new_chunk (set_next h_neighbor);;;
  update_chunk h (set_next h_new_chunk);;;
  (if negb (h_neighbor =? kInvalidChunkHandle) then
     update_chunk h_neighbor (set_prev h_new_chunk)
   else ret tt);;;
  InsertFreeChunkIntoBin h_new_chunk.

(** Merges [h2] into [h1], when [h1->next] is [h2] and [h2->prev] is [h1]. *)
Definition Merge (h1 h2 : Z) : M B unit :=
  c1 <~ ChunkFromHandle h1;;
  c2 <~ ChunkFromHandle h2;;
  CHECK (negb (in_use c1) && negb (in_use c2));;;
  let h3 := next c2 in
  update_chunk h1 (set_next h3);;;
  c2 <~ ChunkFromHandle h2;;
  CHECK (prev c2 =? h1);;;
  (if negb (h3 =? kInvalidChunkHandle) then update_chunk h3 (set_prev h1) else ret tt);;;
  c2 <~ ChunkFromHandle h2;;
  update_chunk h1 (fun c => set_size (u64 (size c + size c2)) c);;;
  update_chunk h1 (fun c => set_freed_at_count (Z.max (freed_at_count c) (freed_at_count c2)) c);;;
  DeleteChunk h2.

Definition TryToCoalesce (h : Z) (ignore_freed_at : bool) : M B Z :=
  c <~ ChunkFromHandle h;;
  if negb ignore_freed_at && (0 <? freed_at_count c) then ret h
  else
    (if negb (next c =? kInvalidChunkHandle) then
       n <~ ChunkFromHandle (next c);;
       if negb (in_use n) then
         if (freed_at_count n =? 0) || ignore_freed_at then
           RemoveFreeChunkFromBin (next c);;;
           Merge h (next c)
         else ret tt
       else ret tt
     else ret tt);;;
    c <~ ChunkFromHandle h;;
    if negb (prev c =? kInvalidChunkHandle) then
      n <~ ChunkFromHandle (prev c);;
      if negb (in_use n) then
        if (freed_at_count n =? 0) || ignore_freed_at then
          RemoveFreeChunkFromBin (prev c);;;
          Merge (prev c) h;;;
          ret (prev c)
        else ret h
      else ret h
    else ret h.

Definition MarkFree (h : Z) : M B unit :=
  c <~ ChunkFromHandle h;;
  CHECK (in_use c && (bin_num c =? kInvalidBinNum));;;
  update_chunk h (set_allocation_id (-1));;;
  s <~ get;;
  (match timing_counter_ s with
   | Some t =>
       modify (with_timing (Some (t + 1)) (timestamped_chunks_ s) (safe_frontier_ s));;;
       update_chunk h (set_freed_at_count (t + 1))
   | None => ret tt
   end);;;
  modify (fun s =>
    let st := stats_ s in
    with_stats (next_allocation_id_ s)
      (mkStats (num_allocs st) (bytes_in_use st - size c) (peak_bytes_in_use st)
         (largest_alloc_size st) (bytes_limit st)) s).

(** ** Finding a chunk *)

(** [double] to [int64]: truncation; out of range is undefined. *)
Definition f64_to_int64 (f : spec_float) : option Z :=
  match f with
  | S754_zero _ => Some 0
  | S754_finite sg m e =>
      let v := Z.shiftl (Zpos m) e in
      let v := if sg then - v else v in
      if decide (in_i64 v) then Some v else None
  | _ => None
  end.

(** [fraction * memory_limit_] in double precision, or 128 MiB by default. *)
Definition kMaxInternalFragmentation (s : B) : option Z :=
  let fr := internal_fragmentation_fraction_ s in
  if SFltb (S754_zero false) fr then
    f64_to_int64 (SFmul 53 1024 fr (binary_normalize 53 1024 (memory_limit_ s) 0 false))
  else Some (Z.shiftl 128 20).

(** The scan of one bin: the first chunk that is old enough and large enough. *)
Fixpoint find_in_bin (l : list Z) (rounded_bytes freed_before : Z) : M B (option Z) :=
  match l with
  | [] => ret None
  | h :: l' =>
      chunk <~ ChunkFromHandle h;;
      if (0 <? freed_before) && (freed_before <? freed_at_count chunk) then
        find_in_bin l' rounded_bytes freed_before
      else if rounded_bytes <=? size chunk then ret (Some h)
      else find_in_bin l' rounded_bytes freed_before
  end.

(** What the body of the search loop does with the chunk [h] of bin [b]. *)
Definition TakeChunk (b h rounded_bytes num_bytes : Z) : M B Z :=
  RemoveFreeChunkIterFromBin b h;;;
  chunk <~ ChunkFromHandle h;;
  s <~ get;;
  match kMaxInternalFragmentation s with
  | None => crash
  | Some kMax =>
      (if (u64 (rounded_bytes * 2) <=? size chunk)
          || (u64 kMax <=? u64 (i64 (size chunk) - rounded_bytes)) then
         SplitChunk h rounded_bytes
       else ret tt);;;
      update_chunk h (set_requested_size num_bytes);;;
      s <~ get;;
      update_chunk h (set_allocation_id (next_allocation_id_ s));;;
      chunk <~ ChunkFromHandle h;;
      modify (fun s =>
        let st := stats_ s in
        let used := bytes_in_use st + size chunk in
        with_stats (next_allocation_id_ s + 1)
          (mkStats (num_allocs st + 1) used (Z.max (peak_bytes_in_use st) used)
             (Z.max (largest_alloc_size st) (size chunk)) (bytes_limit st)) s);;;
      ret (ptr chunk)
  end.

(** [nbins] bins are left to search, from [bin_num] on; the result 0 is [nullptr]. *)
Fixpoint FindChunkPtr_loop (nbins : nat) (bin_num rounded_bytes num_bytes freed_before : Z) :
    M B Z :=
  match nbins with
  | O => ret 0
  | S nbins =>
      b <~ BinFromIndex bin_num;;
      found <~ find_in_bin b rounded_bytes freed_before;;
      match found with
      | Some h => TakeChunk bin_num h rounded_bytes num_bytes
      | None => FindChunkPtr_loop nbins (bin_num + 1) rounded_bytes num_bytes freed_before
      end
  end.

Definition FindChunkPtr (bin_num rounded_bytes num_bytes freed_before : Z) : M B Z :=
  FindChunkPtr_loop (Z.to_nat (kNumBins - bin_num)) bin_num rounded_bytes num_bytes freed_before.
End bfc.

(** ** Single-precision backpedalling

    [bytes * kBackpedalFactor] is computed in binary32: the conversion of
    [bytes] and the product are each rounded to 24 significant bits, to nearest
    even.  [0.9f] is [15099494 * 2^-24]; the values involved are far from the
    subnormal and overflow ranges, so scaling by [2^-24] commutes with rounding. *)
Definition round_f32 (m : Z) : Z :=
  let e := Z.log2 m - 23 in
  if e <=? 0 then m
  else
    let q := Z.shiftr m e in
    let r := m - q * 2 ^ e in
    let half := 2 ^ (e - 1) in
    (if (half <? r) || ((r =? half) && Z.odd q) then q + 1 else q) * 2 ^ e.

Definition kBackpedalFactor_mantissa : Z := 15099494.

Definition backpedal (bytes : Z) : Z :=
  Z.shiftr (round_f32 (round_f32 bytes * kBackpedalFactor_mantissa)) 24.

Section bfc_grow.
Context `{SA : SubAllocator}.
Abbreviation B := BFCAllocator.

(** [while (rounded_bytes > curr) { curr *= 2; increased = true; }] *)
Fixpoint grow_loop (fuel : nat) (rounded_bytes curr : Z) (increased : bool) : option (Z * bool) :=
  match fuel with
  | O => None
  | S fuel =>
      if curr <? rounded_bytes then grow_loop fuel rounded_bytes (u64 (curr * 2)) true
      else Some (curr, increased)
  end.

(** [while (mem_addr == nullptr) { ... }] of the backpedalling branch. *)
Fixpoint backpedal_loop (fuel : nat) (alignment rounded_bytes bytes : Z) (st : sa_state) :
    option (option (Z * Z) * sa_state) :=
  match fuel with
  | O => None
  | S fuel =>
      let bytes := RoundedBytes (backpedal bytes) in
      if bytes <? rounded_bytes then Some (None, st)
      else match sa_Alloc st alignment bytes with
           | (Some m, st') => Some (Some m, st')
           | (None, st') => backpedal_loop fuel alignment rounded_bytes bytes st'
           end
  end.

(** [while (prev_chunk->next != kInvalidChunkHandle)]: the last chunk of the
    chain that starts at [h]. *)
Fixpoint last_chunk (fuel : nat) (h : Z) : M B Z :=
  match fuel with
  | O => out_of_fuel
  | S fuel =>
      c <~ ChunkFromHandle h;;
      if negb (next c =? kInvalidChunkHandle) then last_chunk fuel (next c) else ret h
  end.

(** The second half of [Extend]: record [bytes_received] bytes at [mem_addr]
    as a region and as one free chunk. *)
Definition AddRegionChunk (mem_addr bytes_received : Z) : M B unit :=
  s <~ get;;
  let '(maybe_extended_region, rs) :=
    if coalesce_regions_ s
    then AddOrExtendAllocationRegion mem_addr bytes_received (region_manager_ s)
    else (None, AddAllocationRegion mem_addr bytes_received (region_manager_ s)) in
  modify (with_regions rs);;;
  h <~ AllocateChunk;;
  update_chunk h (set_ptr mem_addr);;;
  update_chunk h (set_size bytes_received);;;
  update_chunk h (set_allocation_id (-1));;;
  update_chunk h (set_prev kInvalidChunkHandle);;;
  update_chunk h (set_next kInvalidChunkHandle);;;
  update_chunk h (set_freed_at_count 0);;;
  c <~ ChunkFromHandle h;;
  set_handle (ptr c) h;;;
  (match maybe_extended_region with
   | Some r =>
       first <~ (match region_get_handle r (r_ptr r) with Some f => ret f | None => crash end);;
       s <~ get;;
       prev <~ last_chunk (S (length (chunks_ s))) first;;
       update_chunk h (set_prev prev);;;
       update_chunk prev (set_next h)
   | None => ret tt
   end);;;
  h' <~ TryToCoalesce h false;;
  InsertFreeChunkIntoBin h'.

Definition Extend (fuel : nat) (alignment rounded_bytes : Z) : M B bool :=
  s <~ get;;
  let available_bytes := u64 (memory_limit_ s - total_region_allocated_bytes_ s) in
  let available_bytes := available_bytes / kMinAllocationSize * kMinAllocationSize in
  if available_bytes <? rounded_bytes then ret false
  else
    match grow_loop fuel rounded_bytes (curr_region_allocation_bytes_ s) false with
    | None => out_of_fuel
    | Some (curr, increased_allocation) =>
        let bytes := Z.min curr available_bytes in
        let '(mem0, st0) := sa_Alloc (sub_allocator_ s) alignment bytes in
        let bp0 := started_backpedal_ s in
        match (match mem0 with
               | None => if negb bp0
                         then backpedal_loop fuel alignment rounded_bytes bytes st0
                         else Some (None, st0)
               | Some m => Some (Some m, st0)
               end) with
        | None => out_of_fuel
        | Some (mem, st) =>
            let bp := bp0 || (match mem0 with None => true | Some _ => false end) in
            match mem with
            | None =>
                modify (with_growth curr (total_region_allocated_bytes_ s) bp st);;;
                ret false
            | Some (mem_addr, bytes_received) =>
                let curr := if increased_allocation then curr else u64 (curr * 2) in
                modify (with_growth curr
                          (u64 (total_region_allocated_bytes_ s + bytes_received)) bp st);;;
                AddRegionChunk mem_addr bytes_received;;;
                ret true
            end
        end
    end.

(** ** Chunks freed under a timing counter *)

(** The first loop of [MergeTimestampedChunks]: drains the queue [ts] into
    the chunks to merge and the chunks to keep waiting. *)
Fixpoint scan_timestamped (required_bytes : Z) (ts : list Z) (to_merge new_ts : list Z) :
    M B (list Z * list Z) :=
  match ts with
  | [] => ret (to_merge, new_ts)
  | h0 :: ts =>
      c <~ ChunkFromHandle h0;;
      h <~ get_handle (ptr c);;
      if h =? kInvalidChunkHandle then scan_timestamped required_bytes ts to_merge new_ts
      else if in_use c || (bin_num c =? kInvalidBinNum) then
        scan_timestamped required_bytes ts to_merge new_ts
      else if freed_at_count c =? 0 then
        scan_timestamped required_bytes ts (to_merge ++ [ptr c]) new_ts
      else
        s <~ get;;
        if freed_at_count c <? safe_frontier_ s then
          update_chunk h0 (set_freed_at_count 0);;;
          scan_timestamped required_bytes ts (to_merge ++ [ptr c]) new_ts
        else if 0 <? required_bytes then
          scan_timestamped required_bytes ts (to_merge ++ [ptr c]) new_ts
        else scan_timestamped required_bytes ts to_merge (new_ts ++ [h])
  end.

Definition push_timestamped (h : Z) : M B unit :=
  modify (fun s => with_timing (timing_counter_ s) (timestamped_chunks_ s ++ [h])
                     (safe_frontier_ s) s).

(** The second loop: merges the candidates in order. *)
Fixpoint merge_candidates (required_bytes : Z) (to_merge : list Z) (satisfied : bool) : M B bool :=
  match to_merge with
  | [] => ret satisfied
  | p :: to_merge =>
      h <~ get_handle p;;
      if h =? kInvalidChunkHandle then merge_candidates required_bytes to_merge satisfied
      else if (required_bytes =? 0) || negb satisfied then
        _ <~ ChunkFromHandle h;;
        RemoveFreeChunkFromBin h;;;
        new_h <~ TryToCoalesce h (0 <? required_bytes);;
        InsertFreeChunkIntoBin new_h;;;
        if 0 <? required_bytes then
          c <~ ChunkFromHandle new_h;;
          (if negb (new_h =? h) && (0 <? freed_at_count c) then push_timestamped new_h
           else ret tt);;;
          merge_candidates required_bytes to_merge
            (if required_bytes <=? size c then true else satisfied)
        else merge_candidates required_bytes to_merge satisfied
      else
        push_timestamped h;;;
        merge_candidates required_bytes to_merge satisfied
  end.

Definition MergeTimestampedChunks (required_bytes : Z) : M B bool :=
  s <~ get;;
  let ts := timestamped_chunks_ s in
  modify (fun s => with_timing (timing_counter_ s) [] (safe_frontier_ s) s);;;
  r <~ scan_timestamped required_bytes ts [] [];;
  let '(to_merge, new_ts_queue) := r in
  modify (fun s => with_timing (timing_counter_ s) new_ts_queue (safe_frontier_ s) s);;;
  merge_candidates required_bytes to_merge (required_bytes =? 0).

(** The compare-and-swap loop leaves the larger of the two counts. *)
Definition SetSafeFrontier (count : Z) : M B unit :=
  modify (fun s =>
    if safe_frontier_ s <? count
    then with_timing (timing_counter_ s) (timestamped_chunks_ s) count s else s).

Definition SetTimingCounter (sc : option Z) : M B unit :=
  modify (fun s => with_timing sc (timestamped_chunks_ s) (safe_frontier_ s) s).

Definition SetInternalFragmentationFraction (fraction : spec_float) : M B unit :=
  modify (fun s =>
    mkBFC _ (garbage_collection_ s) (coalesce_regions_ s) (memory_limit_ s) fraction
      (curr_region_allocation_bytes_ s) (total_region_allocated_bytes_ s) (started_backpedal_ s)
      (timing_counter_ s) (timestamped_chunks_ s) (safe_frontier_ s) (sub_allocator_ s)
      (region_manager_ s) (chunks_ s) (free_chunks_list_ s) (bins_ s) (next_allocation_id_ s)
      (stats_ s)).

(** ** Giving whole free regions back *)

(** Whether some chunk of the chain from [h] is in use. *)
Fixpoint chain_any_use (fuel : nat) (h : Z) : M B bool :=
  match fuel with
  | O => out_of_fuel
  | S fuel =>
      if h =? kInvalidChunkHandle then ret false
      else
        c <~ ChunkFromHandle h;;
        if in_use c then ret true else chain_any_use fuel (next c)
  end.

(** The search loop: pointers of the free regions and their total size. *)
Fixpoint find_free_regions (rs : list AllocationRegion) (ptrs : list Z) (total_free_bytes : Z) :
    M B (list Z * Z) :=
  match rs with
  | [] => ret (ptrs, total_free_bytes)
  | r :: rs =>
      h <~ get_handle (r_ptr r);;
      s <~ get;;
      any_use <~ chain_any_use (S (length (chunks_ s))) h;;
      if any_use then find_free_regions rs ptrs total_free_bytes
      else find_free_regions rs (r_ptr r :: ptrs) (u64 (total_free_bytes + r_memory_size r))
  end.

(** Removes the chain from [h] from the bins and deletes its chunks. *)
Fixpoint delete_chain (fuel : nat) (h : Z) : M B unit :=
  match fuel with
  | O => out_of_fuel
  | S fuel =>
      if h =? kInvalidChunkHandle then ret tt
      else
        c <~ ChunkFromHandle h;;
        (if negb (bin_num c =? kInvalidBinNum) then RemoveFreeChunkFromBin h else ret tt);;;
        c <~ ChunkFromHandle h;;
        DeleteChunk h;;;
        delete_chain fuel (next c)
  end.

(** The iterator is the index [i]; [n] bounds the number of regions left. *)
Fixpoint DeallocateRegions_loop (n : nat) (i : nat) (region_ptrs : list Z) : M B unit :=
  match n with
  | O => ret tt
  | S n =>
      s <~ get;;
      match region_manager_ s !! i with
      | None => ret tt
      | Some r =>
          if negb (bool_decide (r_ptr r ∈ region_ptrs)) then
            DeallocateRegions_loop n (S i) region_ptrs
          else
            h <~ get_handle (r_ptr r);;
            delete_chain (S (length (chunks_ s))) h;;;
            modify (fun s =>
              with_growth (curr_region_allocation_bytes_ s)
                (u64 (total_region_allocated_bytes_ s - r_memory_size r)) (started_backpedal_ s)
                (sa_Free (sub_allocator_ s) (r_ptr r) (r_memory_size r)) s);;;
            modify (fun s => with_regions (delete i (region_manager_ s)) s);;;
            DeallocateRegions_loop n i region_ptrs
      end
  end.

Definition DeallocateRegions (region_ptrs : list Z) : M B unit :=
  s <~ get;; DeallocateRegions_loop (length (region_manager_ s)) 0 region_ptrs.

Definition DeallocateFreeRegions (rounded_bytes : Z) : M B bool :=
  s <~ get;;
  if negb (garbage_collection_ s) then ret false
  else
    r <~ find_free_regions (region_manager_ s) [] 0;;
    let '(free_region_ptrs, total_free_bytes) := r in
    if total_free_bytes =? 0 then ret false
    else
      let available_bytes :=
        u64 (memory_limit_ s - total_region_allocated_bytes_ s + total_free_bytes) in
      if available_bytes <? rounded_bytes then ret false
      else DeallocateRegions free_region_ptrs;;; ret true.

(** ** Allocation and deallocation *)

Definition AddTraceMe (p : Z) : M B unit :=
  h <~ get_handle p;; _ <~ ChunkFromHandle h;; ret tt.

Definition AllocateRawInternal (fuel : nat) (alignment num_bytes freed_before : Z) : M B Z :=
  if num_bytes =? 0 then ret 0
  else
    let rounded_bytes := RoundedBytes num_bytes in
    let bin_num := BinNumForSize rounded_bytes in
    s <~ get;;
    (if negb (bool_decide (timestamped_chunks_ s = []))
     then MergeTimestampedChunks 0;;; ret tt else ret tt);;;
    p <~ FindChunkPtr bin_num rounded_bytes num_bytes freed_before;;
    if negb (p =? 0) then AddTraceMe p;;; ret p
    else
      extended <~ Extend fuel alignment rounded_bytes;;
      p <~ (if (extended : bool) then FindChunkPtr bin_num rounded_bytes num_bytes freed_before
            else ret 0);;
      if negb (p =? 0) then AddTraceMe p;;; ret p
      else
        s <~ get;;
        p <~ (if (freed_before =? 0) && negb (bool_decide (timestamped_chunks_ s = [])) then
                merged <~ MergeTimestampedChunks rounded_bytes;;
                if (merged : bool)
                then FindChunkPtr bin_num rounded_bytes num_bytes freed_before
                else ret 0
              else ret 0);;
        if negb (p =? 0) then AddTraceMe p;;; ret p
        else
          freed <~ DeallocateFreeRegions rounded_bytes;;
          extended <~ (if (freed : bool) then Extend fuel alignment rounded_bytes else ret false);;
          p <~ (if (extended : bool)
                then FindChunkPtr bin_num rounded_bytes num_bytes freed_before else ret 0);;
          if negb (p =? 0) then AddTraceMe p;;; ret p else ret 0.

(** [AllocatorRetry::AllocateRaw]: [waits] lists what other threads did to the
    allocator during each wait on [memory_returned_]; when it is exhausted the
    deadline has passed.  [freed_by i] is the value [freed_by_func] gives the
    [i]-th attempt. *)
Fixpoint retry_AllocateRaw (fuel : nat) (alignment num_bytes : Z) (freed_by : nat -> Z) (i : nat)
    (waits : list (M B unit)) : M B Z :=
  p <~ AllocateRawInternal fuel alignment num_bytes (freed_by i);;
  if negb (p =? 0) then ret p
  else match waits with
       | [] => AllocateRawInternal fuel alignment num_bytes (freed_by (S i))
       | w :: waits => w;;; retry_AllocateRaw fuel alignment num_bytes freed_by (S i) waits
       end.

Definition AllocateRawInternalWithRetry (fuel : nat) (alignment num_bytes : Z)
    (freed_by : nat -> Z) (waits : list (M B unit)) : M B Z :=
  r <~ AllocateRawInternal fuel alignment num_bytes (freed_by 0%nat);;
  if negb (r =? 0) then ret r
  else if num_bytes =? 0 then ret 0
  else retry_AllocateRaw fuel alignment num_bytes freed_by 1 waits.

Definition AllocateRaw (fuel : nat) (alignment num_bytes : Z) (retry_on_failure : bool)
    (freed_by : nat -> Z) (waits : list (M B unit)) : M B Z :=
  if negb retry_on_failure then AllocateRawInternal fuel alignment num_bytes (freed_by 0%nat)
  else AllocateRawInternalWithRetry fuel alignment num_bytes freed_by waits.

Definition DeallocateRawInternal (p : Z) : M B unit :=
  if p =? 0 then ret tt
  else
    h <~ get_handle p;;
    CHECK (negb (h =? kInvalidChunkHandle));;;
    _ <~ ChunkFromHandle h;;
    MarkFree h;;;
    s <~ get;;
    match timing_counter_ s with
    | Some _ => InsertFreeChunkIntoBin h;;; push_timestamped h
    | None => h' <~ TryToCoalesce h false;; InsertFreeChunkIntoBin h'
    end.

(** The notification of waiting allocations carries no state. *)
Definition DeallocateRaw (p : Z) : M B unit := DeallocateRawInternal p.

(** ** Queries *)

Definition chunk_for_ptr (p : Z) : M B Chunk :=
  h <~ get_handle p;; CHECK (negb (h =? kInvalidChunkHandle));;; ChunkFromHandle h.

Definition RequestedSize (p : Z) : M B Z :=
  CHECK (negb (p =? 0));;; c <~ chunk_for_ptr p;; ret (requested_size c).

Definition AllocatedSize (p : Z) : M B Z := c <~ chunk_for_ptr p;; ret (size c).

Definition AllocationId (p : Z) : M B Z := c <~ chunk_for_ptr p;; ret (allocation_id c).

Definition GetStats (s : B) : AllocatorStats := stats_ s.

Definition ClearStats : M B bool :=
  modify (fun s =>
    let st := stats_ s in
    with_stats (next_allocation_id_ s)
      (mkStats 0 (bytes_in_use st) (bytes_in_use st) 0 (bytes_limit st)) s);;;
  ret true.

(** From the largest bin down: the size of its last (largest) chunk. *)
Fixpoint LargestFreeChunk_loop (n : nat) : M B Z :=
  match n with
  | O => ret 0
  | S n =>
      b <~ BinFromIndex (Z.of_nat n);;
      match last b with
      | Some h => c <~ ChunkFromHandle h;; ret (size c)
      | None => LargestFreeChunk_loop n
      end
  end.

Definition LargestFreeChunk : M B Z := LargestFreeChunk_loop (Z.to_nat kNumBins).

(** ** Construction and destruction *)

(** The checks the constructor makes on bin [b]. *)
Definition bin_checks (b : Z) : bool :=
  let bin_size := BinNumToSize b in
  (BinNumForSize bin_size =? b) && (BinNumForSize (u64 (bin_size + 255)) =? b)
  && (BinNumForSize (u64 (u64 (bin_size * 2) - 1)) =? b)
  && (if b + 1 <? kNumBins then negb (BinNumForSize (u64 (bin_size * 2)) =? b) else true).

Definition BFCAllocator_new (sub : sa_state) (total_memory : Z) (allow_growth : bool)
    (garbage_collection : bool) : outcome B :=
  let curr := if allow_growth then RoundedBytes (Z.min total_memory (Z.shiftl 2 20))
              else RoundedBytes total_memory in
  if forallb bin_checks (seqZ 0 kNumBins) then
    Done (mkBFC _ garbage_collection sa_SupportsCoalescing total_memory (S754_zero false)
            curr 0 false None [] 0 sub [] [] kInvalidChunkHandle
            (replicate (Z.to_nat kNumBins) []) 1
            (mkStats 0 0 0 0 (Some (i64 total_memory))))
  else Crash.

(** The destructor returns every region; the result is the sub-allocator's state. *)
Definition BFCAllocator_destroy (s : B) : sa_state :=
  foldl (fun st r => sa_Free st (r_ptr r) (r_memory_size r)) (sub_allocator_ s)
    (region_manager_ s).
End bfc_grow.
