(* ===== verification/BfcRegions.v ===== *)
(** * Size arithmetic of the allocator

    Rounding, bin numbers, and the two loops of [Extend] that compute how many
    bytes to ask for: doubling and backpedalling. *)
From S2P Require Import Prelude Bfc.
From stdpp Require Import options.

(** ** Rounding *)

Lemma RoundedBytes_spec n :
  0 <= n <= 2 ^ 64 - 256 ->
  n <= RoundedBytes n < n + 256 /\ RoundedBytes n mod 256 = 0 /\ RoundedBytes n <= 2 ^ 64 - 256.
Proof.
  intros Hn. unfold RoundedBytes. change kMinAllocationSize with 256.
  rewrite (u64_small (n + 256 - 1)) by (unfold in_u64; lia).
  pose proof (Z.div_mod (n + 256 - 1) 256 ltac:(lia)) as E.
  pose proof (Z.mod_pos_bound (n + 256 - 1) 256 ltac:(lia)) as Hm.
  set (q := (n + 256 - 1) / 256) in *. set (m := (n + 256 - 1) mod 256) in *.
  assert (256 * q <= 2 ^ 64 - 256) by lia.
  rewrite u64_small by (unfold in_u64; lia). split_and!; [lia|lia| |lia].
  rewrite Z.mul_comm. apply Z.mod_mul. lia.
Qed.

Lemma RoundedBytes_mod n : RoundedBytes n mod 256 = 0.
Proof.
  unfold RoundedBytes, u64, uwrap. change kMinAllocationSize with 256. change (2 ^ 64) with (256 * 2 ^ 56).
  rewrite Z.mul_comm, (Z.mul_comm 256 (2 ^ 56)), Zmult_mod_distr_r. apply Z.mod_mul. lia.
Qed.

Lemma RoundedBytes_multiple n : 0 <= n <= 2 ^ 64 - 256 -> n mod 256 = 0 -> RoundedBytes n = n.
Proof.
  intros Hn Hm. destruct (RoundedBytes_spec n Hn) as (H1 & H2 & _).
  assert (E : (RoundedBytes n - n) mod 256 = 0) by (apply sub_mod_0; [lia|done..]).
  rewrite Z.mod_small in E; lia.
Qed.

(** ** The doubling loop *)

Lemma grow_loop_spec fuel : forall rb curr inc,
  0 < curr < 2 ^ 64 -> rb <= 2 ^ 63 -> 2 ^ 63 <= curr * 2 ^ Z.of_nat fuel ->
  exists curr' inc', grow_loop (S fuel) rb curr inc = Some (curr', inc') /\
    rb <= curr' < 2 ^ 64 /\ curr <= curr' /\ (curr mod 256 = 0 -> curr' mod 256 = 0) /\
    (inc' = false -> curr' = curr) /\ (curr' = curr \/ curr' < 2 * rb).
Proof.
  induction fuel as [|fuel IH]; intros rb curr inc Hc Hr Hf; cbn [grow_loop];
    destruct (curr <? rb) eqn:E; bool_to_prop; try (exists curr, inc; split_and!; try done; lia).
  rewrite u64_small by (unfold in_u64; lia).
  destruct (IH rb (curr * 2) true) as (curr' & inc' & R & H1 & H2 & H3 & H4 & H5); [lia|lia| |].
  { rewrite Nat2Z.inj_succ, Z.pow_succ_r in Hf by lia. lia. }
  exists curr', inc'. split_and!; [done|lia|lia|lia| | |lia].
  - intros Hm. apply H3. rewrite Z.mul_mod, Hm by lia. done.
  - intros ->. exfalso. clear -R. revert R. generalize (curr * 2). generalize (S fuel) as n.
    induction n as [|n IH]; intros z; cbn [grow_loop]; [done|]. destruct (z <? rb); [apply IH|done].
Qed.

Lemma grow_loop_fuel fuel rb curr inc :
  (65 <= fuel)%nat -> 0 < curr < 2 ^ 64 -> rb <= 2 ^ 63 ->
  exists curr' inc', grow_loop fuel rb curr inc = Some (curr', inc') /\
    rb <= curr' < 2 ^ 64 /\ curr <= curr' /\ (curr mod 256 = 0 -> curr' mod 256 = 0) /\
    (inc' = false -> curr' = curr) /\ (curr' = curr \/ curr' < 2 * rb).
Proof.
  intros Hf Hc Hr. destruct fuel as [|fuel]; [lia|]. apply grow_loop_spec; [done|done|].
  assert (2 ^ 63 <= 2 ^ Z.of_nat fuel) by (apply Z.pow_le_mono_r; lia). nia.
Qed.

Lemma u64_double_mod n : n mod 256 = 0 -> u64 (n * 2) mod 256 = 0.
Proof.
  intros Hm. unfold u64, uwrap. change (2 ^ 64) with (256 * 2 ^ 56).
  rewrite Z.rem_mul_r, Z.mul_mod, Hm by lia. cbn [Z.mul]. rewrite Z.mod_0_l, Z.add_0_l, Z.mul_comm by lia. apply Z.mod_mul. lia.
Qed.

(** What the loop returns, whatever the fuel. *)
Lemma grow_loop_some fuel : forall rb curr inc curr' inc',
  grow_loop fuel rb curr inc = Some (curr', inc') ->
  rb <= curr' /\ (curr mod 256 = 0 -> curr' mod 256 = 0) /\
  (0 < curr < 2 ^ 64 -> rb <= 2 ^ 63 -> curr <= curr' < 2 ^ 64 /\ (curr' = curr \/ curr' < 2 * rb)).
Proof.
  induction fuel as [|fuel IH]; intros rb curr inc curr' inc' R; [done|]. cbn [grow_loop] in R.
  destruct (curr <? rb) eqn:E; bool_to_prop; [|simplify_eq; split_and!; [lia|done|lia]].
  apply IH in R as (R1 & R2 & R3). split_and!; [done| |].
  - intros Hm. apply R2. by apply u64_double_mod.
  - intros Hc Hr. rewrite u64_small in R3 by (unfold in_u64; lia). destruct R3; lia.
Qed.

(** ** Backpedalling *)

Lemma round_f32_bounds m : 0 < m -> 0 < round_f32 m /\ 2 ^ 24 * round_f32 m <= m * (2 ^ 24 + 1).
Proof.
  intros Hm. unfold round_f32. pose proof (Z.log2_spec m Hm) as [L1 L2].
  set (k := Z.log2 m) in *. destruct (k - 23 <=? 0) eqn:E; bool_to_prop; [lia|].
  rewrite Z.shiftr_div_pow2 by lia. set (e := k - 23) in *.
  assert (0 < 2 ^ e) by (apply Z.pow_pos_nonneg; lia).
  assert (0 < 2 ^ (e - 1)) by (apply Z.pow_pos_nonneg; lia).
  assert (Eh : 2 ^ e = 2 * 2 ^ (e - 1)).
  { replace e with (Z.succ (e - 1)) at 1 by lia. apply Z.pow_succ_r. lia. }
  assert (Em : 2 ^ k = 2 ^ 24 * 2 ^ (e - 1)).
  { rewrite <-Z.pow_add_r by lia. f_equal. lia. }
  pose proof (Z.div_mod m (2 ^ e) ltac:(lia)) as D.
  pose proof (Z.mod_pos_bound m (2 ^ e) ltac:(lia)) as Hr.
  set (q := m / 2 ^ e) in *. set (h := 2 ^ (e - 1)) in *. rewrite Eh in *.
  assert (0 < q) by nia.
  destruct ((h <? m - q * (2 * h)) || _) eqn:C.
  - assert (h <= m - q * (2 * h)).
    { apply orb_true_iff in C as [C|C]; bool_to_prop; lia. }
    split; [nia|]. nia.
  - split; [nia|]. nia.
Qed.

Lemma round_f32_lower m : 0 < m -> m * (2 ^ 24 - 1) <= 2 ^ 24 * round_f32 m.
Proof.
  intros Hm. unfold round_f32. pose proof (Z.log2_spec m Hm) as [L1 L2].
  set (k := Z.log2 m) in *. destruct (k - 23 <=? 0) eqn:E; bool_to_prop; [lia|].
  rewrite Z.shiftr_div_pow2 by lia. set (e := k - 23) in *.
  assert (0 < 2 ^ (e - 1)) by (apply Z.pow_pos_nonneg; lia).
  assert (Eh : 2 ^ e = 2 * 2 ^ (e - 1)).
  { replace e with (Z.succ (e - 1)) at 1 by lia. apply Z.pow_succ_r. lia. }
  assert (Em : 2 ^ k = 2 ^ 24 * 2 ^ (e - 1)).
  { rewrite <-Z.pow_add_r by lia. f_equal. lia. }
  pose proof (Z.div_mod m (2 ^ e) ltac:(lia)) as D.
  pose proof (Z.mod_pos_bound m (2 ^ e) ltac:(lia)) as Hr.
  set (q := m / 2 ^ e) in *. set (h := 2 ^ (e - 1)) in *. rewrite Eh in *.
  destruct ((h <? m - q * (2 * h)) || _) eqn:C; [nia|].
  apply orb_false_iff in C as [C _]. bool_to_prop. nia.
Qed.

Lemma backpedal_bounds b : 5120 <= b -> 0 <= backpedal b /\ 20 * (backpedal b + 255) <= 19 * b.
Proof.
  intros Hb. unfold backpedal, kBackpedalFactor_mantissa.
  destruct (round_f32_bounds b) as [P1 B1]; [lia|].
  destruct (round_f32_bounds (round_f32 b * 15099494)) as [P2 B2]; [lia|].
  rewrite Z.shiftr_div_pow2 by lia.
  pose proof (Z.div_mod (round_f32 (round_f32 b * 15099494)) (2 ^ 24) ltac:(lia)).
  pose proof (Z.mod_pos_bound (round_f32 (round_f32 b * 15099494)) (2 ^ 24) ltac:(lia)).
  split; [apply Z.div_pos; lia|]. lia.
Qed.

(** Above 2304 bytes a step shrinks the request by at least a twentieth. *)
Lemma backpedal_shrinks b :
  2304 < b < 2 ^ 63 -> b mod 256 = 0 ->
  0 <= RoundedBytes (backpedal b) /\ 20 * RoundedBytes (backpedal b) <= 19 * b.
Proof.
  intros Hb Hm. destruct (decide (5120 <= b)) as [Hge|Hlt].
  - destruct (backpedal_bounds b Hge) as [B1 B2].
    destruct (RoundedBytes_spec (backpedal b)) as (R1 & _); [lia|]. lia.
  - assert (Hin : b ∈ [2560; 2816; 3072; 3328; 3584; 3840; 4096; 4352; 4608; 4864]).
    { pose proof (Z.div_mod b 256 ltac:(lia)) as D. rewrite Hm in D.
      assert (Hq : 10 <= b / 256 <= 19) by lia. set (q := b / 256) in *. rewrite !elem_of_cons. lia. }
    assert (Hall : Forall (fun b => 0 <= RoundedBytes (backpedal b) /\
      20 * RoundedBytes (backpedal b) <= 19 * b)
      [2560; 2816; 3072; 3328; 3584; 3840; 4096; 4352; 4608; 4864]).
    { repeat (constructor; [vm_compute; split; discriminate|]). constructor. }
    by eapply Forall_forall in Hall.
Qed.

Lemma RoundedBytes_le n m : 0 <= n <= m -> m <= 2 ^ 64 - 256 -> m mod 256 = 0 -> RoundedBytes n <= m.
Proof.
  intros Hn Hm Hd. destruct (RoundedBytes_spec n) as (R1 & R2 & _); [lia|].
  destruct (decide (RoundedBytes n <= m)) as [|Hgt]; [done|]. exfalso.
  assert (E : (RoundedBytes n - m) mod 256 = 0) by (apply sub_mod_0; [lia|done..]).
  rewrite Z.mod_small in E; lia.
Qed.

(** A factor 0.9, within the error of two roundings. *)
Lemma backpedal_near b : 0 < b -> 89 * b - 100 <= 100 * backpedal b <= 91 * b /\ 0 <= backpedal b.
Proof.
  intros Hb. unfold backpedal, kBackpedalFactor_mantissa.
  destruct (round_f32_bounds b Hb) as [P1 B1]. pose proof (round_f32_lower b Hb) as B1'.
  destruct (round_f32_bounds (round_f32 b * 15099494)) as [P2 B2]; [lia|].
  pose proof (round_f32_lower (round_f32 b * 15099494) ltac:(lia)) as B2'.
  rewrite Z.shiftr_div_pow2 by lia.
  pose proof (Z.div_mod (round_f32 (round_f32 b * 15099494)) (2 ^ 24) ltac:(lia)).
  pose proof (Z.mod_pos_bound (round_f32 (round_f32 b * 15099494)) (2 ^ 24) ltac:(lia)).
  split; [lia|]. apply Z.div_pos; lia.
Qed.

Lemma backpedal_le b : 0 < b < 2 ^ 64 -> b mod 256 = 0 -> RoundedBytes (backpedal b) <= b.
Proof.
  intros Hb Hm. destruct (backpedal_near b) as [H1 H2]; [lia|]. apply RoundedBytes_le; [lia| |done].
  pose proof (Z.div_mod b 256 ltac:(lia)) as D. rewrite Hm in D. lia.
Qed.

(** No step goes below 2304 bytes, and below that sizes stay the same. *)
Lemma backpedal_floor rb b : rb <= 2304 -> rb <= b -> 0 < b < 2 ^ 64 -> b mod 256 = 0 -> rb <= RoundedBytes (backpedal b).
Proof.
  intros Hrb Hle Hb Hm. pose proof (Z.div_mod b 256 ltac:(lia)) as D. rewrite Hm in D.
  destruct (decide (b <= 2304)) as [Hs|Hl].
  - assert (Hin : b ∈ [256; 512; 768; 1024; 1280; 1536; 1792; 2048; 2304]).
    { assert (Hq : 1 <= b / 256 <= 9) by lia. set (q := b / 256) in *. rewrite !elem_of_cons. lia. }
    assert (Hall : Forall (fun b => RoundedBytes (backpedal b) = b) [256; 512; 768; 1024; 1280; 1536; 1792; 2048; 2304]).
    { repeat (constructor; [vm_compute; reflexivity|]). constructor. }
    eapply Forall_forall in Hall; [|exact Hin]. lia.
  - destruct (backpedal_near b) as [H1 H2]; [lia|].
    assert (Hb' : b <= 2 ^ 64 - 256) by lia. destruct (RoundedBytes_spec (backpedal b)) as (R1 & R2 & _); [lia|].
    pose proof (Z.div_mod (RoundedBytes (backpedal b)) 256 ltac:(lia)) as D'. rewrite R2 in D'. lia.
Qed.

(** ** Logarithms *)

Lemma Log2FloorNonZeroSlow_loop_spec fuel : forall n r,
  0 < n < 2 ^ Z.of_nat fuel -> Log2FloorNonZeroSlow_loop (S fuel) n r = Some (r + Z.log2 n).
Proof.
  induction fuel as [|fuel IH]; intros n r Hn; [simpl in Hn; lia|].
  rewrite Nat2Z.inj_succ, Z.pow_succ_r in Hn by lia.
  cbn [Log2FloorNonZeroSlow_loop]. rewrite (proj2 (Z.ltb_lt 0 n)) by lia.
  destruct (decide (n = 1)) as [->|Hne].
  - destruct fuel; simpl; f_equal; lia.
  - rewrite Z.shiftr_div_pow2 by lia. change (2 ^ 1) with 2.
    assert (Hd : 0 < n / 2 < 2 ^ Z.of_nat fuel).
    { split; [apply Z.div_str_pos; lia|apply Z.div_lt_upper_bound; lia]. }
    pose proof (IH (n / 2) (r + 1) Hd) as E. cbn [Log2FloorNonZeroSlow_loop] in E. rewrite E.
    f_equal. change (n / 2) with (n / 2 ^ 1). rewrite <-(Z.shiftr_div_pow2 n 1) by lia. rewrite Z.log2_shiftr by lia.
    assert (1 <= Z.log2 n) by (apply Z.log2_le_pow2; lia). lia.
Qed.

(** * Region manager: the pointer-to-handle map as an abstract function

    The regions of a well-formed manager are disjoint address intervals sorted
    by address.  Under that invariant [RegionFor] finds the region a pointer
    lies in, and [get_handle]/[set_handle] behave as lookup and update of a map
    from 256-byte aligned addresses to handles. *)

Record region_ok (r : AllocationRegion) : Prop := {
  ro_ptr : 0 < r_ptr r;
  ro_size : 0 < r_memory_size r;
  ro_mod : r_memory_size r mod 256 = 0;
  ro_end : r_end_ptr r = r_ptr r + r_memory_size r;
  ro_bound : r_end_ptr r < 2 ^ 63;
  ro_len : length (r_handles r) = Z.to_nat (r_memory_size r / 256)
}.

Definition sorted_regions (rs : list AllocationRegion) : Prop :=
  forall i j ri rj, rs !! i = Some ri -> rs !! j = Some rj -> (i < j)%nat ->
    r_end_ptr ri <= r_ptr rj.

Definition regions_ok (rs : list AllocationRegion) : Prop :=
  Forall region_ok rs /\ sorted_regions rs.

(** [reg rs a b]: the manager has a region covering [a, b). *)
Definition reg (rs : list AllocationRegion) (a b : Z) : Prop :=
  exists i r, rs !! i = Some r /\ r_ptr r = a /\ r_end_ptr r = b.

(** An address a chunk can start at. *)
Definition slot (R : Z -> Z -> Prop) (p : Z) : Prop :=
  exists a b, R a b /\ a <= p < b /\ (p - a) mod 256 = 0.

(** Disjoint intervals inside the address space. *)
Record geometry (R : Z -> Z -> Prop) : Prop := {
  geo_bounds a b : R a b -> 0 < a /\ a < b /\ b < 2 ^ 63 /\ (b - a) mod 256 = 0;
  geo_disjoint a b a' b' : R a b -> R a' b' -> (a = a' /\ b = b') \/ b <= a' \/ b' <= a
}.

Lemma geo_unique R a b a' b' p :
  geometry R -> R a b -> R a' b' -> a <= p < b -> a' <= p < b' -> a = a' /\ b = b'.
Proof. intros G H1 H2. destruct (geo_disjoint _ G _ _ _ _ H1 H2); lia. Qed.

Lemma regions_ok_lookup rs i r : regions_ok rs -> rs !! i = Some r -> region_ok r.
Proof. intros [H _] Hi. by eapply Forall_lookup_1. Qed.

Lemma regions_ok_geometry rs : regions_ok rs -> geometry (reg rs).
Proof.
  intros Hok. split.
  - intros a b (i & r & Hi & <- & <-). destruct (regions_ok_lookup _ _ _ Hok Hi).
    rewrite ro_end0. replace (r_ptr r + r_memory_size r - r_ptr r) with (r_memory_size r) by lia. lia.
  - intros a b a' b' (i & r & Hi & <- & <-) (j & r' & Hj & <- & <-).
    destruct Hok as [_ Hs].
    destruct (lt_eq_lt_dec i j) as [[Hlt| ->]|Hlt].
    + right; left. by eapply Hs.
    + simplify_eq. auto.
    + right; right. by eapply Hs.
Qed.

Lemma upper_bound_le rs p : (upper_bound rs p <= length rs)%nat.
Proof. induction rs as [|r rs IH]; simpl; [lia|]. case_match; lia. Qed.

Lemma upper_bound_before rs p i r :
  rs !! i = Some r -> (i < upper_bound rs p)%nat -> r_end_ptr r <= p.
Proof.
  revert i. induction rs as [|r' rs IH]; intros i Hi Hlt; simpl in *; [lia|].
  case_match; bool_to_prop; [lia|]. destruct i; simplify_eq/=; [lia|]. eapply IH; eauto. lia.
Qed.

Lemma upper_bound_at rs p r : rs !! upper_bound rs p = Some r -> p < r_end_ptr r.
Proof.
  induction rs as [|r' rs IH]; simpl; [done|]. case_match; bool_to_prop; simpl.
  - intros. by simplify_eq.
  - done.
Qed.

Lemma upper_bound_in rs p i r :
  regions_ok rs -> rs !! i = Some r -> r_ptr r <= p < r_end_ptr r -> upper_bound rs p = i.
Proof.
  intros Hok Hi Hp. destruct (lt_eq_lt_dec i (upper_bound rs p)) as [[Hlt|]|Hlt]; [|done|].
  - pose proof (upper_bound_before _ _ _ _ Hi Hlt). lia.
  - pose proof (lookup_lt_Some _ _ _ Hi).
    destruct (lookup_lt_is_Some_2 rs (upper_bound rs p)) as [r' Hr']; [lia|].
    pose proof (upper_bound_at _ _ _ Hr'). destruct Hok as [_ Hs].
    pose proof (Hs _ _ _ _ Hr' Hi Hlt). lia.
Qed.

Lemma IndexFor_eq r p : region_ok r -> r_ptr r <= p < r_end_ptr r ->
  IndexFor r p = Z.to_nat ((p - r_ptr r) / 256).
Proof.
  intros [] Hp. unfold IndexFor, kMinAllocationBits.
  rewrite u64_small by (unfold in_u64; lia). by rewrite Z.shiftr_div_pow2 by lia.
Qed.

Lemma IndexFor_lt r p : region_ok r -> r_ptr r <= p < r_end_ptr r ->
  (IndexFor r p < length (r_handles r))%nat.
Proof.
  intros Hok Hp. rewrite IndexFor_eq by done. destruct Hok. rewrite ro_len0.
  assert ((p - r_ptr r) / 256 < r_memory_size r / 256); [|apply Z2Nat.inj_lt; try lia].
  - Z.div_mod_to_equations. lia.
  - apply Z.div_pos; lia.
  - apply Z.div_pos; lia.
Qed.

Lemma rm_get_handle_eq rs i r p :
  regions_ok rs -> rs !! i = Some r -> r_ptr r <= p < r_end_ptr r ->
  rm_get_handle rs p = r_handles r !! IndexFor r p.
Proof.
  intros Hok Hi Hp. unfold rm_get_handle, RegionFor. rewrite (upper_bound_in _ _ _ _ Hok Hi Hp).
  by rewrite Hi.
Qed.

Lemma rm_get_handle_total rs p :
  regions_ok rs -> slot (reg rs) p -> is_Some (rm_get_handle rs p).
Proof.
  intros Hok (a & b & (i & r & Hi & <- & <-) & Hp & _).
  rewrite (rm_get_handle_eq _ _ _ _ Hok Hi Hp).
  apply lookup_lt_is_Some_2, IndexFor_lt; [by eapply regions_ok_lookup|done].
Qed.

(** Replacing a region by one of the same extent. *)
Definition same_extent (r r' : AllocationRegion) : Prop :=
  r_ptr r' = r_ptr r /\ r_memory_size r' = r_memory_size r /\ r_end_ptr r' = r_end_ptr r /\
  length (r_handles r') = length (r_handles r).

Lemma region_ok_same_extent r r' : same_extent r r' -> region_ok r -> region_ok r'.
Proof. intros (E1 & E2 & E3 & E4) []. split; congruence. Qed.

Lemma insert_same_extent rs i r r' :
  regions_ok rs -> rs !! i = Some r -> same_extent r r' ->
  regions_ok (<[i := r']> rs) /\ (forall a b, reg (<[i := r']> rs) a b <-> reg rs a b).
Proof.
  intros Hok Hi Hext. pose proof (lookup_lt_Some _ _ _ Hi) as Hlt.
  assert (Hl : forall j x, <[i := r']> rs !! j = Some x ->
            exists y, rs !! j = Some y /\ r_ptr x = r_ptr y /\ r_end_ptr x = r_end_ptr y).
  { intros j x. rewrite list_lookup_insert. case_decide as Hd.
    - destruct Hd as [-> _]. intros; simplify_eq. destruct Hext as (?&?&?&?). eauto.
    - eauto. }
  split; [split|].
  - apply Forall_insert; [apply Hok|]. eapply region_ok_same_extent; [done|].
    by eapply regions_ok_lookup.
  - intros j k rj rk Hj Hk Hjk. apply Hl in Hj as (y & Hy & E1 & E2).
    apply Hl in Hk as (z & Hz & E3 & E4). destruct Hok as [_ Hs].
    rewrite E2, E3. by eapply Hs.
  - intros a b. split.
    + intros (j & x & Hj & <- & <-). apply Hl in Hj as (y & Hy & -> & ->). by exists j, y.
    + intros (j & x & Hj & <- & <-). destruct (decide (i = j)) as [->|].
      * exists j, r'. rewrite list_lookup_insert_eq by done. simplify_eq.
        destruct Hext as (?&?&?&?). auto.
      * exists j, x. rewrite list_lookup_insert_ne by done. auto.
Qed.

(** [set_handle] on a slot succeeds and updates exactly that slot. *)
Lemma rm_set_handle_spec rs p h :
  regions_ok rs -> slot (reg rs) p ->
  exists rs', rm_set_handle rs p h = Some rs' /\ regions_ok rs' /\
    (forall a b, reg rs' a b <-> reg rs a b) /\
    (forall q, slot (reg rs) q ->
       rm_get_handle rs' q = if decide (q = p) then Some h else rm_get_handle rs q) /\
    (r_memory_size <$> rs') = (r_memory_size <$> rs).
Proof.
  intros Hok (a & b & (i & r & Hi & <- & <-) & Hp & Hmod).
  pose proof (regions_ok_lookup _ _ _ Hok Hi) as Hr.
  pose proof (IndexFor_lt _ _ Hr Hp) as Hidx.
  destruct (lookup_lt_is_Some_2 _ _ Hidx) as [g0 Hg0].
  set (r' := mkRegion (r_ptr r) (r_memory_size r) (r_end_ptr r)
               (<[IndexFor r p := h]> (r_handles r))).
  assert (Hext : same_extent r r') by (split_and!; try done; apply length_insert).
  destruct (insert_same_extent _ _ _ _ Hok Hi Hext) as [Hok' Hreg].
  exists (<[i := r']> rs). pose proof (lookup_lt_Some _ _ _ Hi) as Hlt. split_and!; [|done|done| |].
  - unfold rm_set_handle, RegionFor. rewrite (upper_bound_in _ _ _ _ Hok Hi Hp), Hi. simpl.
    unfold region_set_handle. by rewrite Hg0.
  - intros q (a' & b' & (j & x & Hj & <- & <-) & Hq & Hqm).
    rewrite (rm_get_handle_eq rs j x) by done. destruct (decide (i = j)) as [->|Hne].
    + simplify_eq. rewrite (rm_get_handle_eq _ j r') by (try apply list_lookup_insert_eq; done).
      unfold r' at 1. change (IndexFor r' q) with (IndexFor x q). simpl.
      case_decide as Hd; [subst; by apply list_lookup_insert_eq|].
      apply list_lookup_insert_ne. rewrite !IndexFor_eq by done. intros E.
      apply Z2Nat.inj in E; [|apply Z.div_pos; lia..]. apply Hd.
      revert Hmod Hqm E. Z.div_mod_to_equations. lia.
    + rewrite (rm_get_handle_eq _ j x) by (try rewrite list_lookup_insert_ne; done).
      case_decide; [|done]. subst. exfalso. apply Hne.
      rewrite <-(upper_bound_in _ _ _ _ Hok Hi Hp). by apply upper_bound_in with x.
  - rewrite list_fmap_insert. simpl. apply list_insert_id. by rewrite list_lookup_fmap, Hi.
Qed.
