(* ===== verification/BfcLinks.v ===== *)
(** * Chunk chains: the doubly linked lists that tile the regions

    The invariant of the chunk structure is local: every live chunk agrees with
    its two neighbours, its region and the handle table.  It is stated over an
    abstract chunk map [ck], handle table [gh] and set of regions [R], so that
    the effect of splitting, merging and growing on it is proved without the
    concrete vectors. *)
From S2P Require Import Prelude Bfc BfcRegions.
From stdpp Require Import options.

Abbreviation inv := kInvalidChunkHandle.
#[global] Opaque kInvalidChunkHandle.

(** A live chunk: its start address maps back to its handle. *)
Definition live (ck : Z -> option Chunk) (gh : Z -> option Z) (R : Z -> Z -> Prop)
    (h : Z) (c : Chunk) : Prop :=
  ck h = Some c /\ slot R (ptr c) /\ gh (ptr c) = Some h.

Record linked (ck : Z -> option Chunk) (gh : Z -> option Z) (R : Z -> Z -> Prop) : Prop := {
  lk_inv : ck inv = None;
  lk_total p : slot R p -> is_Some (gh p);
  lk_handle p h : slot R p -> gh p = Some h -> h <> inv ->
    exists c, ck h = Some c /\ ptr c = p;
  lk_size h c : live ck gh R h c -> 0 < size c /\ size c mod 256 = 0;
  lk_range h c : live ck gh R h c ->
    exists a b, R a b /\ a <= ptr c /\ ptr c + size c <= b /\
      (next c = inv <-> ptr c + size c = b) /\ (prev c = inv <-> ptr c = a);
  lk_next h c : live ck gh R h c -> next c <> inv ->
    exists cn, live ck gh R (next c) cn /\ ptr cn = ptr c + size c /\ prev cn = h;
  lk_prev h c : live ck gh R h c -> prev c <> inv ->
    exists cp, live ck gh R (prev c) cp /\ next cp = h;
  lk_first a b : R a b -> exists h c, live ck gh R h c /\ ptr c = a
}.

Section links.
Context (ck : Z -> option Chunk) (gh : Z -> option Z) (R : Z -> Z -> Prop).
Context (G : geometry R) (L : linked ck gh R).
Abbreviation lv := (live ck gh R).

Lemma live_fun h c c' : lv h c -> lv h c' -> c = c'.
Proof using. intros (H & _) (H' & _). congruence. Qed.

Lemma live_ne_inv h c : lv h c -> h <> inv.
Proof using L. intros (H & _) ->. by rewrite (lk_inv _ _ _ L) in H. Qed.

Lemma live_inj h h' c c' : lv h c -> lv h' c' -> ptr c = ptr c' -> h = h'.
Proof using. intros (_ & _ & H) (_ & _ & H') E. rewrite E in H. congruence. Qed.

(** The chunk a table entry names is live. *)
Lemma handle_live p h : slot R p -> gh p = Some h -> h <> inv -> exists c, lv h c /\ ptr c = p.
Proof using L.
  intros Hp Hg Hn. destruct (lk_handle _ _ _ L _ _ Hp Hg Hn) as (c & Hc & E).
  exists c. split; [|done]. split_and!; [done| |]; by rewrite E.
Qed.

Lemma live_next_prev h c cn : lv h c -> next c <> inv -> lv (next c) cn ->
  ptr cn = ptr c + size c /\ prev cn = h.
Proof using L.
  intros H Hn Hc. destruct (lk_next _ _ _ L _ _ H Hn) as (cn' & H' & ? & ?).
  by rewrite (live_fun _ _ _ Hc H').
Qed.

Lemma live_prev_next h c cp : lv h c -> prev c <> inv -> lv (prev c) cp ->
  next cp = h /\ ptr cp + size cp = ptr c.
Proof using L.
  intros H Hp Hc. destruct (lk_prev _ _ _ L _ _ H Hp) as (cp' & H' & E).
  rewrite (live_fun _ _ _ Hc H'). split; [done|].
  pose proof (live_ne_inv _ _ H) as Hne.
  destruct (lk_next _ _ _ L _ _ H') as (c' & Hc' & E1 & _); [congruence|].
  rewrite E in Hc'. by rewrite (live_fun _ _ _ H Hc').
Qed.

Lemma live_next_ne h c : lv h c -> next c <> h.
Proof using L.
  intros H E. pose proof (live_ne_inv _ _ H).
  destruct (live_next_prev h c c) as [? _]; [done|congruence|by rewrite E|].
  pose proof (lk_size _ _ _ L _ _ H). lia.
Qed.

Lemma live_prev_ne h c : lv h c -> prev c <> h.
Proof using L.
  intros H E. pose proof (live_ne_inv _ _ H).
  destruct (live_prev_next h c c) as [_ ?]; [done|congruence|by rewrite E|].
  pose proof (lk_size _ _ _ L _ _ H). lia.
Qed.

(** Two live chunks that start in the same region are in order: by induction
    on the later start address, through its predecessor. *)
Lemma live_ordered_aux n : forall h1 c1 h2 c2 a b,
  lv h1 c1 -> lv h2 c2 -> R a b -> a <= ptr c1 -> ptr c2 < b ->
  ptr c1 < ptr c2 -> ptr c2 <= a + Z.of_nat n -> ptr c1 + size c1 <= ptr c2.
Proof using G L.
  induction n as [|n IH]; intros h1 c1 h2 c2 a b H1 H2 Hab Ha Hb Hlt Hn; [lia|].
  destruct (lk_range _ _ _ L _ _ H2) as (a2 & b2 & Hab2 & Ha2 & Hb2 & _ & Hp2).
  pose proof (lk_size _ _ _ L _ _ H2) as [Hs2 _].
  destruct (geo_unique R a b a2 b2 (ptr c2)) as [-> ->]; [done..|lia|lia|].
  assert (Hpv : prev c2 <> inv) by (rewrite Hp2; lia).
  destruct (lk_prev _ _ _ L _ _ H2 Hpv) as (cp & Hcp & Ecp).
  destruct (live_prev_next _ _ _ H2 Hpv Hcp) as [_ Ep].
  pose proof (lk_size _ _ _ L _ _ Hcp) as [Hsp _].
  destruct (Z.lt_trichotomy (ptr cp) (ptr c1)) as [Hc|[Hc|Hc]].
  - assert (Hpa : a2 <= ptr cp).
    { destruct (lk_range _ _ _ L _ _ Hcp) as (a3 & b3 & Hab3 & Ha3 & Hb3 & _).
      destruct (geo_disjoint _ G _ _ _ _ Hab3 Hab2) as [[-> _]|[?|?]]; lia. }
    pose proof (IH _ _ _ _ a2 b2 Hcp H1 Hab2 Hpa). lia.
  - rewrite (live_inj _ _ _ _ Hcp H1 Hc) in Hcp.
    rewrite (live_fun _ _ _ H1 Hcp). lia.
  - pose proof (IH _ _ _ _ a2 b2 H1 Hcp Hab2 Ha). lia.
Qed.

Lemma live_ordered h1 c1 h2 c2 :
  lv h1 c1 -> lv h2 c2 -> ptr c1 < ptr c2 -> ptr c1 + size c1 <= ptr c2.
Proof using G L.
  intros H1 H2 Hlt.
  destruct (lk_range _ _ _ L _ _ H1) as (a & b & Hab & Ha & Hb & _).
  destruct (lk_range _ _ _ L _ _ H2) as (a' & b' & Hab' & Ha' & Hb' & _).
  pose proof (lk_size _ _ _ L _ _ H2). pose proof (lk_size _ _ _ L _ _ H1).
  destruct (geo_disjoint _ G _ _ _ _ Hab Hab') as [[<- <-]|[?|?]]; [|lia|lia].
  apply (live_ordered_aux (Z.to_nat (ptr c2 - a)) h1 c1 h2 c2 a b); try done; lia.
Qed.

(** Distinct live chunks occupy disjoint memory. *)
Lemma live_disjoint h1 c1 h2 c2 :
  lv h1 c1 -> lv h2 c2 -> h1 <> h2 ->
  ptr c1 + size c1 <= ptr c2 \/ ptr c2 + size c2 <= ptr c1.
Proof using G L.
  intros H1 H2 Hne. destruct (Z.lt_trichotomy (ptr c1) (ptr c2)) as [?|[?|?]].
  - left. by eapply live_ordered.
  - by destruct Hne; eapply live_inj.
  - right. by eapply live_ordered.
Qed.

(** The chunk whose [next] is a given live handle is its [prev]. *)
Lemma live_next_inj h1 c1 h2 c2 :
  lv h1 c1 -> lv h2 c2 -> next c1 = next c2 -> next c1 <> inv -> h1 = h2.
Proof using L.
  intros H1 H2 E Hn.
  destruct (lk_next _ _ _ L _ _ H1 Hn) as (cn & Hcn & _ & <-).
  destruct (lk_next _ _ _ L _ _ H2) as (cn' & Hcn' & _ & <-); [congruence|].
  rewrite <-E in Hcn'. by rewrite (live_fun _ _ _ Hcn Hcn').
Qed.

Lemma live_prev_inj h1 c1 h2 c2 :
  lv h1 c1 -> lv h2 c2 -> prev c1 = prev c2 -> prev c1 <> inv -> h1 = h2.
Proof using L.
  intros H1 H2 E Hn.
  destruct (lk_prev _ _ _ L _ _ H1 Hn) as (cp & Hcp & <-).
  destruct (lk_prev _ _ _ L _ _ H2) as (cp' & Hcp' & <-); [congruence|].
  rewrite <-E in Hcp'. by rewrite (live_fun _ _ _ Hcp Hcp').
Qed.
End links.

(** ** Changes that do not touch the links *)

(** [c'] has the same extent and neighbours as [c]. *)
Definition same_links (c c' : Chunk) : Prop :=
  size c' = size c /\ ptr c' = ptr c /\ prev c' = prev c /\ next c' = next c.

Lemma linked_ext ck ck' gh R :
  (forall h, option_Forall2 same_links (ck h) (ck' h)) ->
  linked ck gh R -> linked ck' gh R /\
  (forall h c', live ck' gh R h c' <-> exists c, live ck gh R h c /\ same_links c c' /\ ck' h = Some c').
Proof.
  intros E L.
  assert (Hfw : forall h c, ck h = Some c -> exists c', ck' h = Some c' /\ same_links c c').
  { intros h c Hc. pose proof (E h) as Eh. rewrite Hc in Eh. inversion Eh; subst; eauto. }
  assert (Hbw : forall h c', ck' h = Some c' -> exists c, ck h = Some c /\ same_links c c').
  { intros h c Hc. pose proof (E h) as Eh. rewrite Hc in Eh. inversion Eh; subst; eauto. }
  assert (Hlive : forall h c', live ck' gh R h c' <->
            exists c, live ck gh R h c /\ same_links c c' /\ ck' h = Some c').
  { intros h c'. split.
    - intros (H1 & H2 & H3). destruct (Hbw _ _ H1) as (c & Hc & (? & Ep & ? & ?)).
      exists c. split; [|repeat split; congruence]. rewrite Ep in *. by split_and!.
    - intros (c & (H1 & H2 & H3) & (? & Ep & ? & ?) & Hc'). split_and!; [done| |]; by rewrite Ep. }
  assert (Hmap : forall h c, live ck gh R h c -> exists c', live ck' gh R h c' /\ same_links c c').
  { intros h c Hc. destruct (Hfw h c) as (c' & Hc' & Hs); [apply Hc|].
    exists c'. split; [|done]. apply Hlive. eauto. }
  split; [|done]. split.
  - destruct (ck' inv) as [c'|] eqn:Ei; [|done].
    destruct (Hbw _ _ Ei) as (c & Hc & _). by rewrite (lk_inv _ _ _ L) in Hc.
  - apply L.
  - intros p h Hp Hg Hn. destruct (lk_handle _ _ _ L _ _ Hp Hg Hn) as (c & Hc & <-).
    destruct (Hfw _ _ Hc) as (c' & Hc' & (? & Ep & ? & ?)). eauto.
  - intros h c' H. apply Hlive in H as (c & Hc & (-> & _) & _). by eapply lk_size.
  - intros h c' H. apply Hlive in H as (c & Hc & (-> & -> & -> & ->) & _). by eapply lk_range.
  - intros h c' H. apply Hlive in H as (c & Hc & (-> & -> & Ep & ->) & _). intros Hn.
    destruct (lk_next _ _ _ L _ _ Hc Hn) as (cn & Hcn & ? & ?).
    destruct (Hmap _ _ Hcn) as (cn' & Hcn' & (? & Ep' & Ev & ?)).
    exists cn'. split_and!; [done| |]; congruence.
  - intros h c' H. apply Hlive in H as (c & Hc & (? & ? & -> & ?) & _). intros Hn.
    destruct (lk_prev _ _ _ L _ _ Hc Hn) as (cp & Hcp & ?).
    destruct (Hmap _ _ Hcp) as (cp' & Hcp' & (? & ? & ? & En)).
    exists cp'. split; [done|]. congruence.
  - intros a b Hab. destruct (lk_first _ _ _ L _ _ Hab) as (h & c & Hc & ?).
    destruct (Hmap _ _ Hc) as (c' & Hc' & (? & Ep & ?)). exists h, c'. split; [done|]. congruence.
Qed.

(** Regions are compared up to extensional equality. *)
Definition same_regions (R R' : Z -> Z -> Prop) : Prop := forall a b, R a b <-> R' a b.

#[export] Instance same_regions_equiv : Equivalence same_regions.
Proof.
  split.
  - by intros R a b.
  - intros R R' H a b. symmetry. apply H.
  - intros R R' R'' H H' a b. rewrite (H a b). apply H'.
Qed.

#[export] Instance slot_proper : Proper (same_regions ==> eq ==> iff) slot.
Proof. intros R R' H p ? <-. unfold slot. split; intros (a & b & Hab & ?); exists a, b; split; try done; by apply H. Qed.

#[export] Instance live_proper ck gh : Proper (same_regions ==> eq ==> eq ==> iff) (live ck gh).
Proof. intros R R' H h ? <- c ? <-. unfold live. by rewrite H. Qed.

#[export] Instance linked_proper ck gh : Proper (same_regions ==> impl) (linked ck gh).
Proof.
  intros R R' H []. split; intros *; rewrite <-?H; eauto.
  - intros Hl. destruct (lk_range0 _ _ Hl) as (a & b & Hab & ?). exists a, b. split; [by apply H|done].
  - intros Hl Hn. destruct (lk_next0 _ _ Hl Hn) as (cn & Hc & ?). exists cn. split; [by rewrite <-H|done].
  - intros Hl Hn. destruct (lk_prev0 _ _ Hl Hn) as (cn & Hc & ?). exists cn. split; [by rewrite <-H|done].
  - intros Hab. apply H in Hab. destruct (lk_first0 _ _ Hab) as (h & c & Hc & ?).
    exists h, c. split; [by rewrite <-H|done].
Qed.

(** ** Merging a chunk with its successor *)

Section merge.
Context (ck : Z -> option Chunk) (gh : Z -> option Z) (R : Z -> Z -> Prop).
Context (G : geometry R) (L : linked ck gh R).
Context (h1 h2 : Z) (c1 c2 c1' c2' : Chunk).
Context (H1 : live ck gh R h1 c1) (E12 : next c1 = h2) (H2 : live ck gh R h2 c2).
Context (S1 : size c1' = size c1 + size c2 /\ ptr c1' = ptr c1 /\ prev c1' = prev c1 /\
              next c1' = next c2).
Context (S2 : ptr c2' = ptr c2).
Context (ck' : Z -> option Chunk) (gh' : Z -> option Z).
Context (Hck : forall h, ck' h = if decide (h = h1) then Some c1' else
                                 if decide (h = h2) then Some c2' else
                                 if decide (h = next c2) then set_prev h1 <$> ck h else ck h).
Context (Hgh : forall p, slot R p -> gh' p = if decide (p = ptr c2) then Some inv else gh p).

(** What becomes of a chunk that stays live. *)
Definition merged (h : Z) (c : Chunk) : Chunk :=
  if decide (h = h1) then c1' else if decide (h = next c2) then set_prev h1 c else c.

Lemma merge_facts : h1 <> inv /\ h2 <> inv /\ h1 <> h2 /\ next c2 <> h2 /\ next c2 <> h1 /\
  ptr c2 = ptr c1 + size c1 /\ prev c2 = h1.
Proof using G L H1 E12 H2.
  pose proof (live_ne_inv _ _ _ L _ _ H1). pose proof (live_ne_inv _ _ _ L _ _ H2) as Hn2.
  pose proof (live_next_ne _ _ _ L _ _ H1). pose proof (live_next_ne _ _ _ L _ _ H2).
  destruct (live_next_prev _ _ _ L h1 c1 c2) as [Ep Ev]; [done|congruence|by rewrite E12|].
  split_and!; try congruence. intros E3.
  destruct (live_next_prev _ _ _ L h2 c2 c1) as [Ep' _]; [done|congruence|by rewrite E3|].
  pose proof (lk_size _ _ _ L _ _ H1). pose proof (lk_size _ _ _ L _ _ H2). lia.
Qed.

Lemma merged_ptr h c : live ck gh R h c -> ptr (merged h c) = ptr c.
Proof using All.
  intros H. unfold merged. repeat case_decide; subst; simpl; try done.
  rewrite (live_fun _ _ _ _ _ _ H H1). apply S1.
Qed.

Lemma merge_ck_inv : ck' inv = None.
Proof using G L H1 E12 H2 Hck.
  destruct merge_facts as (N1 & N2 & _). rewrite Hck.
  rewrite !(decide_False (P := inv = _)) by congruence.
  rewrite (lk_inv _ _ _ L). by case_decide.
Qed.

Lemma merge_live h c' :
  live ck' gh' R h c' <-> h <> h2 /\ exists c, live ck gh R h c /\ c' = merged h c.
Proof using All.
  destruct merge_facts as (N1 & N2 & N12 & N32 & N31 & Ep & Ev). split.
  - intros (A & B & C). rewrite Hgh in C by done.
    assert (D : ptr c' <> ptr c2).
    { intros D. rewrite decide_True in C by done. injection C as <-.
      by rewrite merge_ck_inv in A. }
    rewrite decide_False in C by done. rewrite Hck in A. unfold merged.
    destruct (decide (h = h1)) as [->|].
    + simplify_eq. eauto.
    + destruct (decide (h = h2)) as [->|]; [simplify_eq; congruence|]. split; [done|].
      destruct (decide (h = next c2)); [|exists c'; by split_and!].
      destruct (ck h) as [c|] eqn:Ec; simplify_eq/=. exists c. by split_and!.
  - intros (Hh & c & Hc & ->). pose proof (merged_ptr _ _ Hc) as Em.
    split_and!.
    + rewrite Hck. unfold merged. destruct Hc as (Hc & _ & _). repeat case_decide; try done.
      by rewrite Hc.
    + rewrite Em. apply Hc.
    + rewrite Em, Hgh by apply Hc. rewrite decide_False; [apply Hc|].
      intros E. by apply Hh, (live_inj _ _ _ _ _ _ _ Hc H2).
Qed.

Lemma linked_merge : linked ck' gh' R.
Proof using All.
  destruct merge_facts as (N1 & N2 & N12 & N32 & N31 & Ep & Ev).
  assert (Hkeep : forall h c, live ck gh R h c -> h <> h2 -> live ck' gh' R h (merged h c)).
  { intros h c Hc Hh. apply merge_live. eauto. }
  pose proof S1 as (Ss & Sp & Sv & Sn).
  split.
  - apply merge_ck_inv.
  - intros p Hp. rewrite Hgh by done. case_decide; [eauto|]. by apply L.
  - intros p h Hp Hg Hn. rewrite Hgh in Hg by done. case_decide as D; [congruence|].
    destruct (handle_live _ _ _ L _ _ Hp Hg Hn) as (c & Hc & <-).
    exists (merged h c). split; [|by apply merged_ptr]. apply Hkeep; [done|].
    intros ->. by rewrite (live_fun _ _ _ _ _ _ Hc H2) in D.
  - intros h c' H. apply merge_live in H as (Hh & c & Hc & ->).
    pose proof (lk_size _ _ _ L _ _ H2). pose proof (lk_size _ _ _ L _ _ H1).
    pose proof (lk_size _ _ _ L _ _ Hc). unfold merged. repeat case_decide; try done.
    rewrite Ss. split; [lia|]. apply add_mod_0; lia.
  - intros h c' H. apply merge_live in H as (Hh & c & Hc & ->). unfold merged.
    destruct (lk_range _ _ _ L _ _ Hc) as (a & b & Hab & Ha & Hb & In & Ip).
    exists a, b.
    destruct (decide (h = h1)) as [->|D1]; [|destruct (decide (h = next c2)) as [->|D3]].
    + rewrite (live_fun _ _ _ _ _ _ Hc H1) in *. rewrite Ss, Sp, Sv, Sn.
      destruct (lk_range _ _ _ L _ _ H2) as (a2 & b2 & Hab2 & Ha2 & Hb2 & In2 & Ip2).
      destruct (lk_size _ _ _ L _ _ H2) as [Z2 _]. destruct (lk_size _ _ _ L _ _ H1) as [Z1 _].
      assert (Hlt : ptr c1 + size c1 <> b) by (rewrite <-In; congruence).
      assert (a = a2 /\ b = b2) as [<- <-].
      { apply (geo_unique R a b a2 b2 (ptr c2)); [done..| |]; clear In Ip In2 Ip2; lia. }
      rewrite In2. clear In In2 Ip2. split_and!; [done|lia|lia|lia|done].
    + simpl. split_and!; [done..|]. split; [congruence|].
      intros E. exfalso. destruct (live_next_prev _ _ _ L h2 c2 c) as [Ep3 Ev3];
        [done|by eapply live_ne_inv|done|].
      apply Ip in E. congruence.
    + done.
  - intros h c' H Hn. apply merge_live in H as (Hh & c & Hc & ->).
    destruct (decide (h = h1)) as [->|D1].
    + assert (Em : merged h1 c = c1') by (unfold merged; by rewrite decide_True by done).
      rewrite Em in Hn |- *. rewrite Sn in Hn. rewrite Sn, Ss, Sp.
      destruct (lk_next _ _ _ L _ _ H2 Hn) as (cn & Hcn & Epn & Evn).
      exists (merged (next c2) cn). split; [by apply Hkeep|].
      rewrite merged_ptr by done. split; [lia|]. unfold merged.
      by rewrite decide_False, decide_True by done.
    + assert (Hnc : next (merged h c) = next c /\ size (merged h c) = size c).
      { unfold merged. rewrite decide_False by done. by case_decide. }
      destruct Hnc as [Hnc Hsc]. rewrite Hnc in Hn |- *. rewrite Hsc, merged_ptr by done.
      destruct (lk_next _ _ _ L _ _ Hc Hn) as (cn & Hcn & Epn & Evn).
      assert (next c <> h2).
      { intros E. apply D1. eapply (live_next_inj _ _ _ L _ _ _ _ Hc H1); congruence. }
      exists (merged (next c) cn). split; [by apply Hkeep|]. rewrite merged_ptr by done.
      split; [done|]. unfold merged. case_decide as D2.
      * rewrite D2 in Hcn. rewrite Sv. by rewrite <-(live_fun _ _ _ _ _ _ Hcn H1).
      * rewrite decide_False; [done|]. intros E3.
        apply Hh. by eapply (live_next_inj _ _ _ L _ _ _ _ Hc H2).
  - intros h c' H Hn. apply merge_live in H as (Hh & c & Hc & ->).
    destruct (decide (h = next c2)) as [E3|D3].
    + assert (Em : prev (merged h c) = h1).
      { unfold merged. by rewrite decide_False, decide_True by congruence. }
      rewrite Em. exists c1'. split; [|congruence].
      pose proof (Hkeep h1 c1 H1 N12) as Hk. unfold merged in Hk. by rewrite decide_True in Hk by done.
    + assert (Hpc : prev (merged h c) = prev c).
      { unfold merged. case_decide; [subst; rewrite (live_fun _ _ _ _ _ _ Hc H1); done|].
        by case_decide. }
      rewrite Hpc in Hn |- *. destruct (lk_prev _ _ _ L _ _ Hc Hn) as (cp & Hcp & Enp).
      assert (prev c <> h2).
      { intros E. rewrite E in Hcp. rewrite (live_fun _ _ _ _ _ _ Hcp H2) in Enp. congruence. }
      assert (prev c <> h1).
      { intros E. rewrite E in Hcp. rewrite (live_fun _ _ _ _ _ _ Hcp H1) in Enp. congruence. }
      exists (merged (prev c) cp). split; [by apply Hkeep|]. unfold merged.
      rewrite decide_False by done. by case_decide.
  - intros a b Hab. destruct (lk_first _ _ _ L _ _ Hab) as (h & c & Hc & <-).
    exists h, (merged h c). split; [|by apply merged_ptr]. apply Hkeep; [done|].
    intros ->. rewrite (live_fun _ _ _ _ _ _ Hc H2) in *.
    destruct (lk_range _ _ _ L _ _ H2) as (a2 & b2 & Hab2 & Ha2 & Hb2 & In2 & Ip2).
    pose proof (lk_size _ _ _ L _ _ H2). destruct (geo_bounds _ G _ _ Hab).
    destruct (geo_unique R (ptr c2) b a2 b2 (ptr c2)) as [E _]; [done..|lia|lia|].
    apply Ip2 in E. congruence.
Qed.
End merge.

(** ** Splitting a chunk *)

Section split.
Context (ck : Z -> option Chunk) (gh : Z -> option Z) (R : Z -> Z -> Prop).
Context (G : geometry R) (L : linked ck gh R).
Context (h hn n : Z) (c c' cn : Chunk).
Context (H : live ck gh R h c) (Hn : 0 < n < size c) (Hm : n mod 256 = 0).
Context (Nn : hn <> inv) (Dn : forall x, ~ live ck gh R hn x).
Context (S1 : size c' = n /\ ptr c' = ptr c /\ prev c' = prev c /\ next c' = hn).
Context (S2 : size cn = size c - n /\ ptr cn = ptr c + n /\ prev cn = h /\ next cn = next c).
Context (ck' : Z -> option Chunk) (gh' : Z -> option Z).
Context (Hck : forall x, ck' x = if decide (x = h) then Some c' else
                                 if decide (x = hn) then Some cn else
                                 if decide (x = next c) then set_prev hn <$> ck x else ck x).
Context (Hgh : forall p, slot R p -> gh' p = if decide (p = ptr c + n) then Some hn else gh p).

Definition splitted (x : Z) (cx : Chunk) : Chunk :=
  if decide (x = h) then c' else if decide (x = next c) then set_prev hn cx else cx.

Lemma split_facts : h <> inv /\ h <> hn /\ next c <> h /\ next c <> hn.
Proof using L H Nn Dn.
  pose proof (live_ne_inv _ _ _ L _ _ H). pose proof (live_next_ne _ _ _ L _ _ H).
  split_and!; [done| |done|].
  - intros E. rewrite E in H. by apply Dn in H.
  - intros E. destruct (lk_next _ _ _ L _ _ H) as (x & Hx & _); [congruence|].
    rewrite E in Hx. by apply Dn in Hx.
Qed.

Lemma split_slot : slot R (ptr c + n).
Proof using G L H Hn Hm.
  destruct (lk_range _ _ _ L _ _ H) as (a & b & Hab & Ha & Hb & _).
  destruct H as (_ & (a' & b' & Hab' & Hp & Hmod) & _).
  destruct (geo_unique R a b a' b' (ptr c)) as [-> ->]; [done..|lia|lia|].
  exists a', b'. split_and!; [done|lia|lia|].
  replace (ptr c + n - a') with (ptr c - a' + n) by lia. by apply add_mod_0.
Qed.

Lemma split_fresh x cx : live ck gh R x cx -> ptr cx <> ptr c + n.
Proof using G L H Hn.
  intros Hx E. pose proof (live_ordered _ _ _ G L _ _ _ _ H Hx). lia.
Qed.

Lemma splitted_ptr x cx : live ck gh R x cx -> ptr (splitted x cx) = ptr cx.
Proof using H S1.
  intros Hx. unfold splitted. destruct (decide (x = h)) as [E|].
  - rewrite E in Hx. rewrite (live_fun _ _ _ _ _ _ Hx H). apply S1.
  - by case_decide.
Qed.

Lemma split_live x cx' :
  live ck' gh' R x cx' <->
  (x = hn /\ cx' = cn) \/ (x <> hn /\ exists cx, live ck gh R x cx /\ cx' = splitted x cx).
Proof using All.
  destruct split_facts as (N1 & N2 & N3 & N4). split.
  - intros (A & B & C). rewrite Hgh in C by done. rewrite Hck in A. unfold splitted.
    destruct (decide (x = h)) as [->|]; [right; simplify_eq; eauto|].
    destruct (decide (x = hn)) as [->|]; [left; by simplify_eq|]. right. split; [done|].
    rewrite decide_False in C by (intros E; rewrite decide_True in C by done; congruence).
    destruct (decide (x = next c)); [|exists cx'; by split_and!].
    destruct (ck x) as [cx|] eqn:Ec; simplify_eq/=. exists cx. by split_and!.
  - intros [[-> ->]|(Hx & cx & Hc & ->)].
    + split_and!.
      * rewrite Hck. by rewrite decide_False, decide_True by done.
      * destruct S2 as (_ & -> & _). apply split_slot.
      * destruct S2 as (_ & -> & _). rewrite Hgh by apply split_slot. by rewrite decide_True.
    + split_and!.
      * rewrite Hck. unfold splitted. destruct Hc as (Hc & _). rewrite (decide_False (P := x = hn)) by done.
        repeat case_decide; try done. by rewrite Hc.
      * rewrite splitted_ptr by done. apply Hc.
      * rewrite splitted_ptr, Hgh by (done || apply Hc).
        rewrite decide_False by (by eapply split_fresh). apply Hc.
Qed.

Lemma linked_split : linked ck' gh' R.
Proof using All.
  destruct split_facts as (N1 & N2 & N3 & N4).
  pose proof S1 as (Ss & Sp & Sv & Sn). pose proof S2 as (Ts & Tp & Tv & Tn).
  assert (Hnew : live ck' gh' R hn cn) by (apply split_live; auto).
  assert (Hkeep : forall x cx, live ck gh R x cx -> live ck' gh' R x (splitted x cx)).
  { intros x cx Hx. apply split_live. right. split; [|eauto]. intros ->. by apply Dn in Hx. }
  assert (Eh : splitted h c = c') by (unfold splitted; by rewrite decide_True).
  pose proof (lk_size _ _ _ L _ _ H) as [Zc Mc].
  destruct (lk_range _ _ _ L _ _ H) as (a & b & Hab & Ha & Hb & In & Ip).
  split.
  - rewrite Hck, !(decide_False (P := inv = _)) by congruence.
    rewrite (lk_inv _ _ _ L). by case_decide.
  - intros p Hp. rewrite Hgh by done. case_decide; [eauto|]. by apply L.
  - intros p x Hp Hg Hx. rewrite Hgh in Hg by done. case_decide as D.
    + simplify_eq. exists cn. split; [apply Hnew|congruence].
    + destruct (handle_live _ _ _ L _ _ Hp Hg Hx) as (cx & Hc & <-).
      exists (splitted x cx). split; [by apply Hkeep|by apply splitted_ptr].
  - intros x cx' Hx. apply split_live in Hx as [[-> ->]|(Hx & cx & Hc & ->)].
    + rewrite Ts. split; [lia|]. by apply sub_mod_0.
    + pose proof (lk_size _ _ _ L _ _ Hc). unfold splitted. repeat case_decide; try done.
      rewrite Ss. split; [lia|done].
  - intros x cx' Hx. apply split_live in Hx as [[-> ->]|(Hx & cx & Hc & ->)].
    + rewrite Ts, Tp, Tn, Tv. exists a, b. rewrite In. clear In Ip.
      split_and!; [done|lia|lia|lia|]. split; [done|lia].
    + unfold splitted. destruct (lk_range _ _ _ L _ _ Hc) as (a' & b' & Hab' & Ha' & Hb' & In' & Ip').
      destruct (decide (x = h)) as [->|]; [|destruct (decide (x = next c)) as [->|]].
      * exists a, b. rewrite Ss, Sp, Sn, Sv. clear In In' Ip'. split_and!; [done| | | |exact Ip];
          clear Ip; [lia|lia|]. split; [done|lia].
      * exists a', b'. simpl. split_and!; try done. split; [done|].
        intros E. apply Ip' in E.
        destruct (live_next_prev _ _ _ L h c cx) as [_ ?]; [done|by eapply live_ne_inv|done|].
        congruence.
      * exists a', b'. split_and!; done.
  - intros x cx' Hx Hnx. apply split_live in Hx as [[-> ->]|(Hx & cx & Hc & ->)].
    + rewrite Tn in Hnx |- *. destruct (lk_next _ _ _ L _ _ H Hnx) as (c3 & Hc3 & E3 & V3).
      exists (splitted (next c) c3). split; [by apply Hkeep|]. rewrite splitted_ptr by done.
      split; [lia|]. unfold splitted. by rewrite decide_False, decide_True.
    + destruct (decide (x = h)) as [->|D].
      * assert (splitted h cx = c') as -> by (unfold splitted; by rewrite decide_True).
        rewrite Sn. exists cn. split_and!; [done|lia|done].
      * assert (Hk : next (splitted x cx) = next cx /\ size (splitted x cx) = size cx).
        { unfold splitted. rewrite decide_False by done. by case_decide. }
        destruct Hk as [Hk1 Hk2]. rewrite Hk1 in Hnx |- *. rewrite Hk2, splitted_ptr by done.
        destruct (lk_next _ _ _ L _ _ Hc Hnx) as (c3 & Hc3 & E3 & V3).
        exists (splitted (next cx) c3). split; [by apply Hkeep|]. rewrite splitted_ptr by done.
        split; [done|]. unfold splitted. destruct (decide (next cx = h)) as [E|].
        -- rewrite Sv. rewrite E in Hc3. by rewrite <-(live_fun _ _ _ _ _ _ Hc3 H).
        -- rewrite decide_False; [done|]. intros E.
           apply D. by eapply (live_next_inj _ _ _ L _ _ _ _ Hc H).
  - intros x cx' Hx Hpx. apply split_live in Hx as [[-> ->]|(Hx & cx & Hc & ->)].
    + rewrite Tv. exists c'. split; [|done]. rewrite <-Eh. by apply Hkeep.
    + destruct (decide (x = next c)) as [E|D].
      * assert (Em : prev (splitted x cx) = hn).
        { unfold splitted. by rewrite decide_False, decide_True by congruence. }
        rewrite Em. exists cn. by rewrite E.
      * assert (Hpc : prev (splitted x cx) = prev cx).
        { unfold splitted. destruct (decide (x = h)) as [->|].
          - by rewrite (live_fun _ _ _ _ _ _ Hc H).
          - by rewrite decide_False. }
        rewrite Hpc in Hpx |- *. destruct (lk_prev _ _ _ L _ _ Hc Hpx) as (cp & Hcp & Ep).
        exists (splitted (prev cx) cp). split; [by apply Hkeep|]. unfold splitted.
        destruct (decide (prev cx = h)) as [E|]; [|by case_decide].
        rewrite E in Hcp. rewrite (live_fun _ _ _ _ _ _ Hcp H) in Ep. congruence.
  - intros a' b' Hab'. destruct (lk_first _ _ _ L _ _ Hab') as (x & cx & Hc & <-).
    exists x, (splitted x cx). split; [by apply Hkeep|by apply splitted_ptr].
Qed.
End split.

(** ** Growing: a new region, or an extended one, covered by one new chunk *)

Section grow_new.
Context (ck : Z -> option Chunk) (gh : Z -> option Z) (R : Z -> Z -> Prop).
Context (L : linked ck gh R).
Context (p r hn : Z) (cn : Chunk).
Context (Nn : hn <> inv) (Dn : forall x, ~ live ck gh R hn x).
Context (Hr : 0 < r /\ r mod 256 = 0).
Context (S : size cn = r /\ ptr cn = p /\ prev cn = inv /\ next cn = inv).
Context (HN : forall a b, R a b -> b <= p \/ p + r <= a).
Context (R' : Z -> Z -> Prop) (HR : forall a b, R' a b <-> R a b \/ (a = p /\ b = p + r)).
Context (ck' : Z -> option Chunk) (gh' : Z -> option Z).
Context (Hck : forall x, ck' x = if decide (x = hn) then Some cn else ck x).
Context (Hgh : forall q, slot R q -> gh' q = gh q).
Context (Hgn : forall q, p <= q < p + r -> (q - p) mod 256 = 0 ->
                 gh' q = Some (if decide (q = p) then hn else inv)).

Lemma grow_new_slot q : slot R' q <-> slot R q \/ (p <= q < p + r /\ (q - p) mod 256 = 0).
Proof using HR.
  split.
  - intros (a & b & Hab & Hq & Hm). apply HR in Hab as [Hab|[-> ->]]; [left; by exists a, b|auto].
  - intros [(a & b & Hab & Hq & Hm)|[Hq Hm]].
    + exists a, b. split; [apply HR; auto|done].
    + exists p, (p + r). split; [apply HR; auto|done].
Qed.

Lemma grow_new_live x c :
  live ck' gh' R' x c <-> (x = hn /\ c = cn) \/ (x <> hn /\ live ck gh R x c).
Proof using All.
  destruct S as (Ss & Sp & Sv & Sn). split.
  - intros (A & B & C). rewrite Hck in A. case_decide as D; [left; by simplify_eq|right].
    split; [done|]. apply grow_new_slot in B as [B|[Bq Bm]].
    + rewrite Hgh in C by done. by split_and!.
    + rewrite Hgn in C by done. case_decide; simplify_eq.
      by rewrite (lk_inv _ _ _ L) in A.
  - intros [[-> ->]|(D & A & B & C)].
    + split_and!.
      * by rewrite Hck, decide_True.
      * apply grow_new_slot. right. rewrite Sp, Z.sub_diag. split; [lia|done].
      * rewrite Sp. rewrite Hgn; [by rewrite decide_True|lia|by rewrite Z.sub_diag].
    + split_and!.
      * by rewrite Hck, decide_False.
      * apply grow_new_slot. auto.
      * by rewrite Hgh.
Qed.

Lemma linked_grow_new : linked ck' gh' R'.
Proof using All.
  assert (Hnew : live ck' gh' R' hn cn) by (apply grow_new_live; auto).
  assert (Hkeep : forall x c, live ck gh R x c -> live ck' gh' R' x c).
  { intros x c Hx. apply grow_new_live. right. split; [|done]. intros ->. by apply Dn in Hx. }
  destruct S as (Ss & Sp & Sv & Sn). split.
  - rewrite Hck, decide_False by done. apply L.
  - intros q Hq. apply grow_new_slot in Hq as [Hq|[Hq Hm]].
    + rewrite Hgh by done. by apply L.
    + rewrite Hgn by done. eauto.
  - intros q x Hq Hg Hx. apply grow_new_slot in Hq as [Hq|[Hq Hm]].
    + rewrite Hgh in Hg by done. destruct (handle_live _ _ _ L _ _ Hq Hg Hx) as (c & Hc & <-).
      exists c. split; [|done]. apply (Hkeep _ _ Hc).
    + rewrite Hgn in Hg by done. case_decide; simplify_eq. exists cn. split; [apply Hnew|done].
  - intros x c Hx. apply grow_new_live in Hx as [[-> ->]|(_ & Hx)]; [by rewrite Ss|by eapply lk_size].
  - intros x c Hx. apply grow_new_live in Hx as [[-> ->]|(_ & Hx)].
    + exists p, (p + r). rewrite Ss, Sp. split_and!; [apply HR; auto|lia|lia|done|done].
    + destruct (lk_range _ _ _ L _ _ Hx) as (a & b & Hab & ?). exists a, b.
      split; [apply HR; auto|done].
  - intros x c Hx Hn. apply grow_new_live in Hx as [[-> ->]|(_ & Hx)]; [done|].
    destruct (lk_next _ _ _ L _ _ Hx Hn) as (cx & Hcx & ?). eauto.
  - intros x c Hx Hn. apply grow_new_live in Hx as [[-> ->]|(_ & Hx)]; [done|].
    destruct (lk_prev _ _ _ L _ _ Hx Hn) as (cx & Hcx & ?). eauto.
  - intros a b Hab. apply HR in Hab as [Hab|[-> ->]]; [|eauto].
    destruct (lk_first _ _ _ L _ _ Hab) as (x & c & Hc & ?). eauto.
Qed.
End grow_new.

Section grow_ext.
Context (ck : Z -> option Chunk) (gh : Z -> option Z) (R : Z -> Z -> Prop).
Context (G : geometry R) (L : linked ck gh R).
Context (a0 p r hn hl : Z) (cn cl : Chunk).
Context (Nn : hn <> inv) (Dn : forall x, ~ live ck gh R hn x).
Context (Hr : 0 < r /\ r mod 256 = 0).
Context (H0 : R a0 p) (Hl : live ck gh R hl cl) (Nl : next cl = inv)
        (El : ptr cl + size cl = p).
Context (S : size cn = r /\ ptr cn = p /\ prev cn = hl /\ next cn = inv).
Context (HN : forall a b, R a b -> b <= p \/ p + r <= a).
Context (R' : Z -> Z -> Prop)
        (HR : forall a b, R' a b <-> (R a b /\ a <> a0) \/ (a = a0 /\ b = p + r)).
Context (ck' : Z -> option Chunk) (gh' : Z -> option Z).
Context (Hck : forall x, ck' x = if decide (x = hl) then Some (set_next hn cl) else
                                 if decide (x = hn) then Some cn else ck x).
Context (Hgh : forall q, slot R q -> gh' q = gh q).
Context (Hgn : forall q, p <= q < p + r -> (q - p) mod 256 = 0 ->
                 gh' q = Some (if decide (q = p) then hn else inv)).

Definition extended (x : Z) (c : Chunk) : Chunk := if decide (x = hl) then set_next hn c else c.

Lemma grow_ext_slot q : slot R' q <-> slot R q \/ (p <= q < p + r /\ (q - p) mod 256 = 0).
Proof using G H0 HR Hr.
  destruct (geo_bounds _ G _ _ H0) as (B1 & B2 & B3 & B4). split.
  - intros (a & b & Hab & Hq & Hm). apply HR in Hab as [[Hab _]|[-> ->]]; [left; by exists a, b|].
    destruct (decide (q < p)); [left; exists a0, p; split_and!; try done; lia|].
    right. split; [lia|]. replace (q - p) with (q - a0 - (p - a0)) by lia. by apply sub_mod_0.
  - intros [(a & b & Hab & Hq & Hm)|[Hq Hm]].
    + destruct (decide (a = a0)) as [->|].
      * exists a0, (p + r). destruct (geo_disjoint _ G _ _ _ _ Hab H0) as [[_ ->]|[?|?]]; [|lia|lia].
        split; [apply HR; auto|]. split; [lia|done].
      * exists a, b. split; [apply HR; auto|done].
    + exists a0, (p + r). split; [apply HR; auto|]. split; [lia|].
      replace (q - a0) with (q - p + (p - a0)) by lia. by apply add_mod_0.
Qed.

Lemma grow_ext_live x c :
  live ck' gh' R' x c <->
  (x = hn /\ c = cn) \/ (x <> hn /\ exists c0, live ck gh R x c0 /\ c = extended x c0).
Proof using All.
  destruct S as (Ss & Sp & Sv & Sn).
  assert (hl <> hn) by (intros E; rewrite E in Hl; by apply Dn in Hl). split.
  - intros (A & B & C). rewrite Hck in A. unfold extended.
    destruct (decide (x = hl)) as [->|]; [right; simplify_eq; eauto|].
    case_decide as D; [left; by simplify_eq|right]. split; [done|]. exists c. split; [|done].
    apply grow_ext_slot in B as [B|[Bq Bm]].
    + rewrite Hgh in C by done. by split_and!.
    + rewrite Hgn in C by done. case_decide; simplify_eq.
      by rewrite (lk_inv _ _ _ L) in A.
  - intros [[-> ->]|(D & c0 & Hc & ->)].
    + split_and!.
      * by rewrite Hck, decide_False, decide_True.
      * apply grow_ext_slot. right. rewrite Sp, Z.sub_diag. split; [lia|done].
      * rewrite Sp. rewrite Hgn; [by rewrite decide_True|lia|by rewrite Z.sub_diag].
    + assert (E : ptr (extended x c0) = ptr c0) by (unfold extended; by case_decide).
      split_and!.
      * rewrite Hck. unfold extended. destruct (decide (x = hl)) as [->|].
        -- by rewrite (live_fun _ _ _ _ _ _ Hc Hl).
        -- rewrite decide_False by done. apply Hc.
      * rewrite E. apply grow_ext_slot. left. apply Hc.
      * rewrite E, Hgh; apply Hc.
Qed.

Lemma linked_grow_ext : linked ck' gh' R'.
Proof using All.
  assert (Nln : hl <> hn) by (intros E; rewrite E in Hl; by apply Dn in Hl).
  assert (Hnew : live ck' gh' R' hn cn) by (apply grow_ext_live; auto).
  assert (Hkeep : forall x c, live ck gh R x c -> live ck' gh' R' x (extended x c)).
  { intros x c Hx. apply grow_ext_live. right. split; [|eauto]. intros ->. by apply Dn in Hx. }
  assert (Hex : forall x c, ptr (extended x c) = ptr c /\ size (extended x c) = size c /\
                            prev (extended x c) = prev c).
  { intros x c. unfold extended. by case_decide. }
  assert (Hen : forall x c, x <> hl -> next (extended x c) = next c).
  { intros x c Hx. unfold extended. by rewrite decide_False. }
  destruct (geo_bounds _ G _ _ H0) as (B1 & B2 & B3 & B4).
  pose proof (live_ne_inv _ _ _ L _ _ Hl) as Nli.
  destruct S as (Ss & Sp & Sv & Sn). split.
  - rewrite Hck, !(decide_False (P := inv = _)) by congruence. apply L.
  - intros q Hq. apply grow_ext_slot in Hq as [Hq|[Hq Hm]].
    + rewrite Hgh by done. by apply L.
    + rewrite Hgn by done. eauto.
  - intros q x Hq Hg Hx. apply grow_ext_slot in Hq as [Hq|[Hq Hm]].
    + rewrite Hgh in Hg by done. destruct (handle_live _ _ _ L _ _ Hq Hg Hx) as (c & Hc & <-).
      exists (extended x c). split; [apply (Hkeep _ _ Hc)|apply Hex].
    + rewrite Hgn in Hg by done. case_decide; simplify_eq. exists cn. split; [apply Hnew|done].
  - intros x c Hx. apply grow_ext_live in Hx as [[-> ->]|(_ & c0 & Hx & ->)]; [by rewrite Ss|].
    destruct (Hex x c0) as (_ & -> & _). by eapply lk_size.
  - intros x c Hx. apply grow_ext_live in Hx as [[-> ->]|(_ & c0 & Hx & ->)].
    + exists a0, (p + r). rewrite Ss, Sp, Sv, Sn.
      split_and!; [apply HR; auto|lia|lia|done|]. split; [done|lia].
    + destruct (Hex x c0) as (-> & -> & ->).
      destruct (lk_range _ _ _ L _ _ Hx) as (a & b & Hab & Ha & Hb & In & Ip).
      pose proof (lk_size _ _ _ L _ _ Hx) as [Zx _].
      destruct (decide (a = a0)) as [->|Da].
      * destruct (geo_disjoint _ G _ _ _ _ Hab H0) as [[_ ->]|[?|?]]; [|clear In Ip; lia..].
        exists a0, (p + r). split_and!; [apply HR; auto|done|clear In Ip; lia| |done].
        split; [|clear In Ip; lia]. intros E. exfalso. destruct (decide (x = hl)) as [->|Dx].
        -- unfold extended in E. by rewrite decide_True in E.
        -- rewrite Hen in E by done. apply In in E. apply Dx.
           destruct (decide (ptr c0 = ptr cl)) as [Epc|Npc]; [by eapply (live_inj ck gh R)|].
           destruct (live_disjoint _ _ _ G L _ _ _ _ Hx Hl Dx); clear In Ip;
             pose proof (lk_size _ _ _ L _ _ Hl); lia.
      * exists a, b. split_and!; [apply HR; auto|done|done| |done]. rewrite Hen; [done|].
        intros ->. rewrite (live_fun _ _ _ _ _ _ Hx Hl) in *.
        destruct (geo_disjoint _ G _ _ _ _ Hab H0) as [[? _]|[?|?]]; clear In Ip;
          pose proof (lk_size _ _ _ L _ _ Hl); lia.
  - intros x c Hx Hn. apply grow_ext_live in Hx as [[-> ->]|(_ & c0 & Hx & ->)]; [done|].
    destruct (Hex x c0) as (-> & -> & Ev).
    destruct (decide (x = hl)) as [->|Dx].
    + rewrite (live_fun _ _ _ _ _ _ Hx Hl). unfold extended. rewrite decide_True by done. simpl.
      exists cn. split_and!; [done|congruence|done].
    + rewrite Hen in Hn |- * by done.
      destruct (lk_next _ _ _ L _ _ Hx Hn) as (cx & Hcx & ? & ?).
      exists (extended (next c0) cx). destruct (Hex (next c0) cx) as (-> & _ & ->).
      split; [by apply Hkeep|done].
  - intros x c Hx Hn. apply grow_ext_live in Hx as [[-> ->]|(_ & c0 & Hx & ->)].
    + rewrite Sv. exists (extended hl cl). split; [by apply Hkeep|]. unfold extended.
      by rewrite decide_True.
    + destruct (Hex x c0) as (_ & _ & Ev). rewrite Ev in Hn |- *.
      destruct (lk_prev _ _ _ L _ _ Hx Hn) as (cx & Hcx & E).
      exists (extended (prev c0) cx). split; [by apply Hkeep|]. rewrite Hen; [done|].
      intros E'. rewrite E' in Hcx. rewrite (live_fun _ _ _ _ _ _ Hcx Hl) in E.
      pose proof (live_ne_inv _ _ _ L _ _ Hx). congruence.
  - intros a b Hab. assert (exists b', R a b') as [b' Hab'].
    { apply HR in Hab as [[Hab _]|[-> _]]; eauto. }
    destruct (lk_first _ _ _ L _ _ Hab') as (x & c & Hc & <-).
    exists x, (extended x c). split; [by apply Hkeep|apply Hex].
Qed.
End grow_ext.
