(* ===== verification/BfcInv.v ===== *)
(** * The allocator invariant and the effect of each internal operation on it

    [wf_core] is the invariant of the chunk structure, [binned T] that of the
    bins while the free chunks in [T] are temporarily in no bin, [acct] that of
    the counters.  Every internal operation is shown to run without aborting
    and to re-establish them; [frame] collects what internal operations keep. *)
From S2P Require Import Prelude Bfc BfcRegions BfcLinks.
From Stdlib Require Import Sorted.
From stdpp Require Import options.
#[local] Open Scope tf_monad_scope.

(** ** Chunk vectors *)

Lemma lookup_chunk_range cs h c : lookup_chunk cs h = Some c -> 0 <= h < Z.of_nat (length cs).
Proof.
  unfold lookup_chunk. case_match; [|done]. bool_to_prop. intros Hl.
  pose proof (lookup_lt_Some _ _ _ Hl). lia.
Qed.

Lemma lookup_chunk_is_Some cs h :
  is_Some (lookup_chunk cs h) <-> 0 <= h < Z.of_nat (length cs).
Proof.
  split; [intros [c Hc]; by eapply lookup_chunk_range|]. intros Hh. unfold lookup_chunk.
  rewrite (proj2 (Z.leb_le _ _)) by lia. apply lookup_lt_is_Some_2. lia.
Qed.

Lemma lookup_chunk_insert cs h c x :
  is_Some (lookup_chunk cs h) ->
  lookup_chunk (<[Z.to_nat h := c]> cs) x = if decide (x = h) then Some c else lookup_chunk cs x.
Proof.
  rewrite lookup_chunk_is_Some. intros Hh. unfold lookup_chunk. destruct (0 <=? x) eqn:E; bool_to_prop.
  - destruct (decide (x = h)) as [->|]; [apply list_lookup_insert_eq; lia|].
    apply list_lookup_insert_ne. lia.
  - rewrite decide_False by lia. done.
Qed.

Lemma lookup_chunk_app cs c x :
  lookup_chunk (cs ++ [c]) x = if decide (x = Z.of_nat (length cs)) then Some c else lookup_chunk cs x.
Proof.
  unfold lookup_chunk. destruct (0 <=? x) eqn:E; bool_to_prop.
  - destruct (decide (x = Z.of_nat (length cs))) as [->|].
    + rewrite lookup_app_r by lia. by rewrite Nat2Z.id, Nat.sub_diag.
    + destruct (decide (x < Z.of_nat (length cs))).
      * by rewrite lookup_app_l by lia.
      * rewrite !lookup_ge_None_2; [done|lia|rewrite length_app; simpl; lia].
  - rewrite decide_False by lia. done.
Qed.

(** Bytes a chunk contributes to [bytes_in_use]. *)
Definition usage (c : Chunk) : Z := if in_use c then size c else 0.

Definition usage_sum (cs : list Chunk) : Z := foldr (fun c z => usage c + z) 0 cs.

Lemma usage_sum_app cs cs' : usage_sum (cs ++ cs') = usage_sum cs + usage_sum cs'.
Proof. induction cs as [|c cs IH]; simpl; [done|]. rewrite IH. lia. Qed.

Lemma usage_sum_insert cs h c c' :
  lookup_chunk cs h = Some c ->
  usage_sum (<[Z.to_nat h := c']> cs) = usage_sum cs - usage c + usage c'.
Proof.
  unfold lookup_chunk. case_match; [|done]. generalize (Z.to_nat h). clear.
  induction cs as [|d cs IH]; intros [|i] Hi; simplify_eq/=; [lia|]. rewrite (IH _ Hi). lia.
Qed.

(** ** Running the monad *)

Section run.
Context `{SA : SubAllocator}.
Abbreviation B := BFCAllocator.

Lemma bind_assoc_s {X Y W} (m : M B X) (k : X -> M B Y) (k' : Y -> M B W) s :
  bind (bind m k) k' s = bind m (fun x => bind (k x) k') s.
Proof. unfold bind. by destruct (m s) as [[]| |]. Qed.

Lemma run_chunk {X} h c (k : Chunk -> M B X) s :
  lookup_chunk (chunks_ s) h = Some c -> bind (ChunkFromHandle h) k s = k c s.
Proof. intros E. unfold bind, ChunkFromHandle. by rewrite E. Qed.

Lemma run_update {X} h c f (k : unit -> M B X) s :
  lookup_chunk (chunks_ s) h = Some c ->
  bind (update_chunk h f) k s = k tt (with_chunks (<[Z.to_nat h := f c]> (chunks_ s)) s).
Proof. intros E. unfold bind, update_chunk. by rewrite E. Qed.

Lemma run_check {X} b (k : unit -> M B X) s : b = true -> bind (CHECK b) k s = k tt s.
Proof. by intros ->. Qed.

Lemma run_get_handle {X} p h (k : Z -> M B X) s :
  rm_get_handle (region_manager_ s) p = Some h -> bind (get_handle p) k s = k h s.
Proof. intros E. unfold bind, get_handle. by rewrite E. Qed.

Lemma run_set_handle {X} p h rs (k : unit -> M B X) s :
  rm_set_handle (region_manager_ s) p h = Some rs ->
  bind (set_handle p h) k s = k tt (with_regions rs s).
Proof. intros E. unfold bind, set_handle. by rewrite E. Qed.

Lemma run_bin {X} b l (k : list Z -> M B X) s :
  0 <= b -> bins_ s !! Z.to_nat b = Some l -> bind (BinFromIndex b) k s = k l s.
Proof.
  intros Hb E. unfold bind, BinFromIndex. rewrite (proj2 (Z.leb_le _ _)) by done. by rewrite E.
Qed.
End run.

(** ** The invariant *)

Section inv.
Context `{SA : SubAllocator} {SL : SubAllocatorLaws SA}.
Abbreviation B := BFCAllocator.

Definition ck (s : B) : Z -> option Chunk := lookup_chunk (chunks_ s).
Definition gh (s : B) : Z -> option Z := rm_get_handle (region_manager_ s).
Definition rg (s : B) : Z -> Z -> Prop := reg (region_manager_ s).
Definition lives (s : B) : Z -> Chunk -> Prop := live (ck s) (gh s) (rg s).

(** The list of dead slots threaded through [next]. *)
Fixpoint freelist (f : Z -> option Chunk) (head : Z) (F : list Z) : Prop :=
  match F with
  | [] => head = inv
  | h :: F => head = h /\ exists c, f h = Some c /\ freelist f (next c) F
  end.

Definition free_ok (f : Z -> option Chunk) (head : Z) (D : Z -> Prop) : Prop :=
  exists F, freelist f head F /\ NoDup F /\ forall h, h ∈ F <-> D h.

Definition dead (s : B) (h : Z) : Prop := is_Some (ck s h) /\ forall c, ~ lives s h c.

Record wf_core (s : B) : Prop := {
  wc_regions : regions_ok (region_manager_ s);
  wc_linked : linked (ck s) (gh s) (rg s);
  wc_len : Z.of_nat (length (chunks_ s)) <= inv;
  wc_free : free_ok (ck s) (free_chunks_list_ s) (dead s);
  wc_dead h c : ck s h = Some c -> (forall c', ~ lives s h c') ->
    allocation_id c = -1 /\ bin_num c = -1
}.

(** The order of the bins: by size, then by address. *)
Definition klt (a b : Chunk) : Prop := size a < size b \/ (size a = size b /\ ptr a < ptr b).

Definition bin_lt (s : B) (x y : Z) : Prop := klt (chunk_of s x) (chunk_of s y).

Record binned (T : gset Z) (s : B) : Prop := {
  bn_len : length (bins_ s) = 21%nat;
  bn_sorted b l : bins_ s !! b = Some l -> StronglySorted (bin_lt s) l;
  bn_mem b l h : bins_ s !! b = Some l ->
    h ∈ l <-> exists c, lives s h c /\ bin_num c = Z.of_nat b;
  bn_num h c : lives s h c -> bin_num c = -1 \/
    (in_use c = false /\ bin_num c = BinNumForSize (size c));
  bn_T h : h ∈ T <-> exists c, lives s h c /\ in_use c = false /\ bin_num c = -1
}.

(** A block in the hands of a client. *)
Definition alloc (s : B) (p sz rq id : Z) : Prop :=
  exists h c, lives s h c /\ in_use c = true /\ ptr c = p /\ size c = sz /\
    requested_size c = rq /\ allocation_id c = id.

Record acct (s : B) : Prop := {
  ac_usage : bytes_in_use (stats_ s) = usage_sum (chunks_ s);
  ac_total : total_region_allocated_bytes_ s =
    foldr (fun r z => r_memory_size r + z) 0 (region_manager_ s);
  ac_owned a b x : rg s a b -> a <= x < b -> sa_owned (sub_allocator_ s) x;
  ac_ids p sz rq id : alloc s p sz rq id -> 0 < id < next_allocation_id_ s /\ 0 < rq <= sz;
  ac_unique p sz rq id p' sz' rq' : alloc s p sz rq id -> alloc s p' sz' rq' id -> p = p';
  ac_next : 0 < next_allocation_id_ s;
  ac_frag : exists k, kMaxInternalFragmentation s = Some k /\ 0 < k < 2 ^ 63;
  ac_gc : garbage_collection_ s = true -> timing_counter_ s = None /\ timestamped_chunks_ s = [];
  ac_ts h : h ∈ timestamped_chunks_ s -> exists c, ck s h = Some c /\ slot (rg s) (ptr c)
}.

Record wf (T : gset Z) (s : B) : Prop := {
  wf_c : wf_core s;
  wf_b : binned T s;
  wf_a : acct s
}.

(** What internal operations on chunks and bins leave as it is. *)
Record frame (s s' : B) : Prop := {
  fr_eq : s' = with_bins (bins_ s') (with_free_list (free_chunks_list_ s')
                 (with_regions (region_manager_ s') (with_chunks (chunks_ s') s)));
  fr_reg a b : rg s' a b <-> rg s a b;
  fr_sizes : (r_memory_size <$> region_manager_ s') = (r_memory_size <$> region_manager_ s);
  fr_usage : usage_sum (chunks_ s') = usage_sum (chunks_ s);
  fr_allocs p sz rq id : alloc s' p sz rq id <-> alloc s p sz rq id;
  fr_slots h c : ck s h = Some c ->
    exists c', ck s' h = Some c' /\ (ptr c' = ptr c \/ slot (rg s) (ptr c'))
}.

Lemma slot_iff R R' p : (forall a b, R a b <-> R' a b) -> slot R p <-> slot R' p.
Proof using. intros E. unfold slot. by setoid_rewrite E. Qed.

Lemma frame_refl s : frame s s.
Proof using. split; try done; [by destruct s|naive_solver]. Qed.

Lemma frame_trans s1 s2 s3 : frame s1 s2 -> frame s2 s3 -> frame s1 s3.
Proof using.
  intros [E1 R1 M1 U1 A1 P1] [E2 R2 M2 U2 A2 P2]. split.
  - rewrite E2. rewrite E1. done.
  - intros a b. by rewrite R2.
  - congruence.
  - congruence.
  - intros p sz rq id. by rewrite A2.
  - intros h c Hc. destruct (P1 _ _ Hc) as (c' & Hc' & Hp).
    destruct (P2 _ _ Hc') as (c'' & Hc'' & Hp'). exists c''. split; [done|].
    destruct Hp' as [->|Hs]; [done|]. right. by rewrite slot_iff; [|intros; symmetry; apply R1].
Qed.

Lemma sum_sizes_fmap (rs rs' : list AllocationRegion) :
  (r_memory_size <$> rs') = (r_memory_size <$> rs) ->
  foldr (fun r z => r_memory_size r + z) 0 rs' = foldr (fun r z => r_memory_size r + z) 0 rs.
Proof using.
  revert rs. induction rs' as [|r' rs' IH]; intros [|r rs] E; simplify_eq/=; [done|].
  rewrite (IH rs); [lia|done].
Qed.

Lemma acct_frame s s' : frame s s' -> acct s -> acct s'.
Proof using.
  intros [E HR HM HU HA HP] [a1 a2 a3 a4 a5 a6 a7 a8 a9].
  assert (Es : stats_ s' = stats_ s /\ total_region_allocated_bytes_ s' = total_region_allocated_bytes_ s
    /\ sub_allocator_ s' = sub_allocator_ s /\ next_allocation_id_ s' = next_allocation_id_ s
    /\ kMaxInternalFragmentation s' = kMaxInternalFragmentation s
    /\ garbage_collection_ s' = garbage_collection_ s /\ timing_counter_ s' = timing_counter_ s
    /\ timestamped_chunks_ s' = timestamped_chunks_ s) by (by rewrite E).
  destruct Es as (e1 & e2 & e3 & e4 & e5 & e6 & e7 & e8).
  split; rewrite ?e1, ?e2, ?e3, ?e4, ?e5, ?e6, ?e7, ?e8; try done.
  - congruence.
  - rewrite a2. symmetry. by apply sum_sizes_fmap.
  - intros a b x Hab. apply HR in Hab. by eapply a3.
  - intros p sz rq id Ha. apply HA in Ha. by eapply a4.
  - intros p sz rq id p' sz' rq' H1 H2. apply HA in H1, H2. by eapply a5.
  - intros h Hh. destruct (a9 h Hh) as (c & Hc & Hs). destruct (HP _ _ Hc) as (c' & Hc' & Hp).
    exists c'. split; [done|]. rewrite slot_iff by (intros; apply HR).
    destruct Hp as [->|?]; done.
Qed.

Lemma wf_lives_free_bin s T h c :
  binned T s -> lives s h c -> bin_num c <> -1 -> in_use c = false /\
    bin_num c = BinNumForSize (size c).
Proof using. intros Hb Hl Hn. by destruct (bn_num _ _ Hb _ _ Hl). Qed.

(** ** Bin numbers *)

Lemma BinNumForSize_range n : 0 <= BinNumForSize n <= 20.
Proof using.
  unfold BinNumForSize, kNumBins, Log2FloorNonZero.
  pose proof (Z.log2_nonneg (Z.shiftr (Z.max n 256) kMinAllocationBits)). lia.
Qed.

Lemma BinNumForSize_mono m n : m <= n -> BinNumForSize m <= BinNumForSize n.
Proof using.
  intros. unfold BinNumForSize, Log2FloorNonZero, kMinAllocationBits.
  apply Z.min_le_compat_l, Z.log2_le_mono. rewrite !Z.shiftr_div_pow2 by lia.
  apply Z.div_le_mono; lia.
Qed.

(** ** The free list *)

Lemma freelist_ext f f' hd F :
  (forall x, x ∈ F -> forall c, f x = Some c -> exists c', f' x = Some c' /\ next c' = next c) ->
  freelist f hd F -> freelist f' hd F.
Proof using.
  revert hd. induction F as [|h F IH]; intros hd HE; simpl; [done|].
  intros (-> & c & Hc & HF). split; [done|].
  destruct (HE h ltac:(set_solver) c Hc) as (c' & Hc' & En).
  exists c'. split; [done|]. rewrite En. apply IH; [|done]. set_solver.
Qed.

Lemma free_ok_ext f f' hd (D D' : Z -> Prop) :
  (forall x, D x -> forall c, f x = Some c -> exists c', f' x = Some c' /\ next c' = next c) ->
  (forall x, D x <-> D' x) -> free_ok f hd D -> free_ok f' hd D'.
Proof using.
  intros HE HD (F & HF & HN & Hm). exists F. split_and!; [|done|].
  - eapply freelist_ext; [|done]. intros x Hx. apply HE. by apply Hm.
  - intros h. by rewrite Hm, HD.
Qed.

Lemma free_ok_push f f' hd h c (D D' : Z -> Prop) :
  free_ok f hd D -> ~ D h -> f' h = Some c -> next c = hd ->
  (forall x, D x -> forall c, f x = Some c -> exists c', f' x = Some c' /\ next c' = next c) ->
  (forall x, D' x <-> x = h \/ D x) -> free_ok f' h D'.
Proof using.
  intros (F & HF & HN & Hm) Hh Hc En HE HD. exists (h :: F). split_and!.
  - simpl. split; [done|]. exists c. split; [done|]. rewrite En. eapply freelist_ext; [|done].
    intros x Hx. apply HE. by apply Hm.
  - constructor; [|done]. by rewrite Hm.
  - intros x. rewrite elem_of_cons, HD, Hm. done.
Qed.

(** ** Updating fields that are not links *)

Lemma core_update s h c c' :
  wf_core s -> lives s h c -> same_links c c' ->
  let s' := with_chunks (<[Z.to_nat h := c']> (chunks_ s)) s in
  wf_core s' /\
  (forall x cx', lives s' x cx' <->
     exists cx, lives s x cx /\ cx' = if decide (x = h) then c' else cx).
Proof using.
  intros W Hl HS s'.
  assert (Hck : forall x, ck s' x = if decide (x = h) then Some c' else ck s x).
  { intros x. apply lookup_chunk_insert. exists c. apply Hl. }
  assert (HE : forall x, option_Forall2 same_links (ck s x) (ck s' x)).
  { intros x. rewrite Hck. case_decide as D.
    - rewrite D. destruct Hl as [-> _]. by constructor.
    - destruct (ck s x); constructor. by repeat split. }
  destruct (linked_ext _ _ (gh s) (rg s) HE (wc_linked _ W)) as [L' Hlv].
  assert (Hlive : forall x cx', lives s' x cx' <->
            exists cx, lives s x cx /\ cx' = if decide (x = h) then c' else cx).
  { intros x cx'. unfold lives. change (gh s') with (gh s). change (rg s') with (rg s).
    rewrite Hlv. split.
    - intros (cx & Hx & _ & Hc). exists cx. split; [done|]. rewrite Hck in Hc.
      case_decide; [congruence|]. destruct Hx as [Hx _]. congruence.
    - intros (cx & Hx & ->). exists cx. split; [done|]. rewrite Hck. case_decide as D.
      + split; [|done]. subst. by rewrite (live_fun _ _ _ _ _ _ Hx Hl).
      + split; [by repeat split|apply Hx]. }
  assert (Hdead : forall x, dead s x <-> dead s' x).
  { intros x. unfold dead. rewrite Hck. split.
    - intros [Hx Hn]. split; [by case_decide|]. intros cx Hcx. apply Hlive in Hcx as (c0 & Hc0 & _).
      by apply Hn in Hc0.
    - intros [Hx Hn]. split.
      + case_decide as D; [|done]. rewrite D. exists c. apply Hl.
      + intros cx Hcx. eapply Hn, Hlive. eauto. }
  split; [|done]. split.
  - apply W.
  - apply L'.
  - simpl. rewrite length_insert. apply W.
  - eapply free_ok_ext; [|apply Hdead|apply W]. intros x [_ Hx] cx Hcx. exists cx.
    split; [|done]. rewrite Hck. case_decide as D; [|done]. subst. by apply Hx in Hl.
  - intros x cx Hcx Hx. rewrite Hck in Hcx. case_decide as D.
    + subst. destruct (Hx c'). apply Hlive. exists c. by rewrite decide_True.
    + eapply (wc_dead _ W); [done|]. intros c0 Hc0. eapply Hx, Hlive. eauto.
Qed.

(** ** The ordered sets *)

Lemma comparator_spec s x y : ChunkComparator s x y = true <-> bin_lt s x y.
Proof using.
  unfold ChunkComparator, bin_lt, klt.
  destruct (size (chunk_of s x) =? size (chunk_of s y)) eqn:E; bool_to_prop; simpl;
    rewrite Z.ltb_lt; lia.
Qed.

Lemma bin_lt_trans s x y z : bin_lt s x y -> bin_lt s y z -> bin_lt s x z.
Proof using. unfold bin_lt, klt. lia. Qed.

Lemma bin_lt_irrefl s x : ~ bin_lt s x x.
Proof using. unfold bin_lt, klt. lia. Qed.

Lemma sorted_ext s s' l :
  (forall x, x ∈ l -> size (chunk_of s' x) = size (chunk_of s x) /\
                      ptr (chunk_of s' x) = ptr (chunk_of s x)) ->
  StronglySorted (bin_lt s) l -> StronglySorted (bin_lt s') l.
Proof using.
  induction l as [|x l IH]; intros HE HS; [constructor|]. inversion HS as [|? ? HS' HF]; subst.
  constructor; [apply IH; [set_solver|done]|]. apply Forall_forall. intros y Hy.
  rewrite Forall_forall in HF. specialize (HF y Hy).
  destruct (HE x) as [E1 E2]; [set_solver|]. destruct (HE y) as [E3 E4]; [set_solver|].
  unfold bin_lt, klt in *. by rewrite E1, E2, E3, E4.
Qed.

Lemma set_insert_spec s h l :
  StronglySorted (bin_lt s) l -> (forall x, x ∈ l -> bin_lt s h x \/ bin_lt s x h) ->
  StronglySorted (bin_lt s) (set_insert (ChunkComparator s) h l) /\
  (forall x, x ∈ set_insert (ChunkComparator s) h l <-> x = h \/ x ∈ l).
Proof using.
  intros HS HT. induction HS as [|x l HS IH HF]; simpl.
  - split; [repeat constructor|set_solver].
  - destruct (ChunkComparator s h x) eqn:E1.
    + apply comparator_spec in E1. split; [|set_solver].
      constructor; [by constructor|]. constructor; [done|].
      eapply Forall_impl; [done|]. intros y Hy. by eapply bin_lt_trans.
    + destruct (HT x) as [Hx|Hx]; [set_solver|apply comparator_spec in Hx; congruence|].
      rewrite (proj2 (comparator_spec s x h)) by done.
      destruct IH as [IH1 IH2]; [set_solver|]. split; [|set_solver].
      constructor; [done|]. apply Forall_forall. intros y [->|Hy]%IH2; [done|].
      by eapply Forall_forall in HF.
Qed.

Lemma sorted_remove s h l l1 l2 :
  StronglySorted (bin_lt s) l -> l = l1 ++ h :: l2 ->
  StronglySorted (bin_lt s) (l1 ++ l2) /\ (forall x, x ∈ l1 ++ l2 <-> x ∈ l /\ x <> h).
Proof using.
  intros HS ->. induction l1 as [|y l1 IH]; simpl in *.
  - inversion HS as [|? ? HS' HF]; subst. split; [done|]. intros x. rewrite elem_of_cons.
    split; [|naive_solver]. intros Hx. split; [auto|]. intros ->.
    eapply Forall_forall in HF; [|done]. by apply bin_lt_irrefl in HF.
  - inversion HS as [|? ? HS' HF]; subst. destruct (IH HS') as [IH1 IH2]. split.
    + constructor; [done|]. apply Forall_forall. intros z Hz. apply IH2 in Hz as [Hz _].
      by eapply Forall_forall in HF.
    + intros x. rewrite !elem_of_cons, IH2. split; [|naive_solver].
      intros [->|[? ?]]; [|auto]. split; [auto|]. intros ->.
      eapply Forall_forall with (x := h) in HF; [|set_solver]. by apply bin_lt_irrefl in HF.
Qed.

Lemma set_erase_spec s h l :
  StronglySorted (bin_lt s) l -> h ∈ l ->
  (forall x, x ∈ l -> x <> h -> bin_lt s h x \/ bin_lt s x h) ->
  exists l', set_erase (ChunkComparator s) h l = (l', 1) /\ StronglySorted (bin_lt s) l' /\
    (forall x, x ∈ l' <-> x ∈ l /\ x <> h).
Proof using.
  intros HS Hh HT.
  assert (exists l1 l2, l = l1 ++ h :: l2 /\
            set_erase (ChunkComparator s) h l = (l1 ++ l2, 1)) as (l1 & l2 & E & ->).
  { clear HS. induction l as [|x l IH]; [by apply not_elem_of_nil in Hh|]. simpl.
    destruct (decide (x = h)) as [->|Hne].
    - exists [], l. split; [done|].
      destruct (ChunkComparator s h h) eqn:Ec; [|done].
      apply comparator_spec in Ec. by apply bin_lt_irrefl in Ec.
    - destruct IH as (l1 & l2 & -> & E2); [set_solver|set_solver|].
      exists (x :: l1), l2. split; [done|]. rewrite E2.
      destruct (HT x) as [Hx|Hx]; [set_solver|done| |]; apply comparator_spec in Hx; rewrite Hx;
        simpl; [done|]. by rewrite andb_false_r. }
  exists (l1 ++ l2). split; [done|]. by apply (sorted_remove s h l).
Qed.

Lemma iter_erase_spec s h l :
  StronglySorted (bin_lt s) l -> h ∈ l ->
  StronglySorted (bin_lt s) (iter_erase h l) /\ (forall x, x ∈ iter_erase h l <-> x ∈ l /\ x <> h).
Proof using.
  intros HS Hh.
  assert (exists l1 l2, l = l1 ++ h :: l2 /\ iter_erase h l = l1 ++ l2) as (l1 & l2 & E & ->).
  { clear HS. induction l as [|x l IH]; [by apply not_elem_of_nil in Hh|]. simpl.
    destruct (Z.eqb_spec x h) as [->|]; [by exists [], l|].
    destruct IH as (l1 & l2 & -> & E2); [set_solver|]. exists (x :: l1), l2. by rewrite E2. }
  by apply (sorted_remove s h l).
Qed.

Lemma lives_chunk_of s h c : lives s h c -> chunk_of s h = c.
Proof using. intros (H & _). unfold chunk_of. unfold ck in H. by rewrite H. Qed.

(** Distinct live chunks are never equivalent in the bin order. *)
Lemma lives_bin_total s x y cx cy :
  lives s x cx -> lives s y cy -> x <> y -> bin_lt s x y \/ bin_lt s y x.
Proof using.
  intros Hx Hy Hne. unfold bin_lt, klt. rewrite (lives_chunk_of _ _ _ Hx), (lives_chunk_of _ _ _ Hy).
  assert (ptr cx <> ptr cy) by (intros E; by apply Hne, (live_inj _ _ _ _ _ _ _ Hx Hy)). lia.
Qed.
End inv.
