(* ===== verification/BfcOps.v ===== *)
(** * Effect of the internal operations of the allocator on its invariant *)
From S2P Require Import Prelude Bfc BfcRegions BfcLinks BfcInv.
From Stdlib Require Import Sorted.
From stdpp Require Import options.
#[local] Open Scope tf_monad_scope.

(** One step of a run; the side conditions are left to the caller. *)
Ltac run :=
  first
    [ rewrite bind_assoc_s
    | erewrite run_chunk by eassumption
    | erewrite run_update by eassumption
    | erewrite run_get_handle by eassumption
    | erewrite run_set_handle by eassumption ].

(** Normal form of states under updates: the chunk vector outermost. *)
Section norm.
Context `{SA : SubAllocator}.
Implicit Types s : BFCAllocator.

Lemma chunks_with_chunks a s : chunks_ (with_chunks a s) = a.
Proof. done. Qed.
Lemma chunks_with_regions a s : chunks_ (with_regions a s) = chunks_ s.
Proof. done. Qed.
Lemma chunks_with_free a s : chunks_ (with_free_list a s) = chunks_ s.
Proof. done. Qed.
Lemma regions_with_chunks a s : region_manager_ (with_chunks a s) = region_manager_ s.
Proof. done. Qed.
Lemma regions_with_free a s : region_manager_ (with_free_list a s) = region_manager_ s.
Proof. done. Qed.
Lemma regions_with_regions a s : region_manager_ (with_regions a s) = a.
Proof. done. Qed.
Lemma free_with_chunks a s : free_chunks_list_ (with_chunks a s) = free_chunks_list_ s.
Proof. done. Qed.
Lemma free_with_regions a s : free_chunks_list_ (with_regions a s) = free_chunks_list_ s.
Proof. done. Qed.
Lemma chunks_twice a b s : with_chunks a (with_chunks b s) = with_chunks a s.
Proof. done. Qed.
Lemma regions_chunks a b s : with_regions a (with_chunks b s) = with_chunks b (with_regions a s).
Proof. done. Qed.
Lemma free_chunks a b s : with_free_list a (with_chunks b s) = with_chunks b (with_free_list a s).
Proof. done. Qed.

Lemma insert_facts cs h c c' :
  lookup_chunk cs h = Some c ->
  exists cs', <[Z.to_nat h := c']> cs = cs' /\
    (forall x, lookup_chunk cs' x = if decide (x = h) then Some c' else lookup_chunk cs x) /\
    length cs' = length cs /\ usage_sum cs' = usage_sum cs - usage c + usage c'.
Proof.
  intros Hc. eexists. split; [done|]. split_and!.
  - intros x. apply lookup_chunk_insert. eauto.
  - apply length_insert.
  - by apply usage_sum_insert.
Qed.
End norm.

Create Rewrite HintDb bfc_st.
#[export] Hint Rewrite @chunks_with_chunks @chunks_with_regions @chunks_with_free
  @regions_with_chunks @regions_with_free @regions_with_regions @free_with_chunks
  @free_with_regions @chunks_twice @regions_chunks @free_chunks : bfc_st.

(** Runs [update_chunk h f] on the chunk known by [Hc], naming the new vector. *)
Tactic Notation "run_upd" constr(Hc) "as" simple_intropattern(p) :=
  match goal with
  | |- context [bind (update_chunk ?h ?f) ?k ?s] =>
      match type of Hc with
      | _ = Some ?c => rewrite (run_update h c f k s Hc)
      end
  | |- context [update_chunk ?h ?f ?s] =>
      match type of Hc with
      | _ = Some ?c => unfold update_chunk at 1; rewrite (Hc : lookup_chunk (chunks_ s) h = Some c)
      end
  end;
  autorewrite with bfc_st;
  match type of Hc with
  | lookup_chunk ?cs ?h = Some ?c =>
      match goal with
      | |- context [<[Z.to_nat h := ?c']> cs] =>
          let E := fresh in let cs1 := fresh "cs" in
          destruct (insert_facts cs h c c' Hc) as (cs1 & E & p); rewrite E; clear E
      end
  end.

Section ops.
Context `{SA : SubAllocator} {SL : SubAllocatorLaws SA}.
Abbreviation B := BFCAllocator.

Lemma in_use_false c : allocation_id c = -1 -> in_use c = false.
Proof using. unfold in_use. intros ->. done. Qed.

Lemma lives_ck s h c : lives s h c -> lookup_chunk (chunks_ s) h = Some c.
Proof using. by intros (H & _). Qed.

Lemma lives_fun s h c c' : lives s h c -> lives s h c' -> c = c'.
Proof using. apply live_fun. Qed.

Lemma bin_exists T s b : binned T s -> 0 <= b <= 20 -> exists l, bins_ s !! Z.to_nat b = Some l.
Proof using. intros Hb Hr. apply lookup_lt_is_Some_2. rewrite (bn_len _ _ Hb). lia. Qed.

(** Updating a chunk that changes neither its links, its allocation nor its
    usage is framed. *)
Lemma frame_update s h c c' bins :
  wf_core s -> lives s h c -> same_links c c' ->
  allocation_id c' = allocation_id c -> requested_size c' = requested_size c ->
  frame s (with_bins bins (with_chunks (<[Z.to_nat h := c']> (chunks_ s)) s)).
Proof using.
  intros W Hl HS Ea Er. destruct (core_update s h c c' W Hl HS) as [W' Hlive].
  destruct HS as (Es & Ep & Ev & En).
  assert (Hu : in_use c' = in_use c) by (unfold in_use; by rewrite Ea).
  split; try done.
  - simpl. rewrite (usage_sum_insert _ _ c) by (by apply lives_ck).
    unfold usage. rewrite Hu, Es. lia.
  - intros p sz rq id. split.
    + intros (x & cx & Hx & H). apply Hlive in Hx as (cx0 & Hx & ->). exists x, cx0.
      split; [done|]. case_decide as D; [|done]. subst. rewrite (lives_fun _ _ _ _ Hx Hl). 
      by rewrite Hu, Es, Ep, Er, Ea in H.
    + intros (x & cx & Hx & H). exists x, (if decide (x = h) then c' else cx).
      split; [apply Hlive; eauto|]. case_decide as D; [|done]. subst.
      rewrite (lives_fun _ _ _ _ Hx Hl) in H. by rewrite Hu, Es, Ep, Er, Ea.
  - intros x cx Hx. unfold ck. simpl.
    rewrite lookup_chunk_insert by (exists c; by apply lives_ck).
    case_decide as D; [|eauto]. subst. exists c'. split; [done|]. left.
    pose proof (lives_ck _ _ _ Hl). unfold ck in Hx. congruence.
Qed.

(** Same live chunks, apart from the bin number of [h]. *)
Definition rebinned (s s' : B) (h b : Z) : Prop :=
  forall x cx', lives s' x cx' <->
    exists cx, lives s x cx /\ cx' = if decide (x = h) then set_bin_num b cx else cx.

Lemma chunk_of_insert s h c c' x bins :
  lives s h c -> size c' = size c -> ptr c' = ptr c ->
  size (chunk_of (with_bins bins (with_chunks (<[Z.to_nat h := c']> (chunks_ s)) s)) x)
    = size (chunk_of s x) /\
  ptr (chunk_of (with_bins bins (with_chunks (<[Z.to_nat h := c']> (chunks_ s)) s)) x)
    = ptr (chunk_of s x).
Proof using.
  intros Hl Es Ep. unfold chunk_of. simpl. pose proof (lives_ck _ _ _ Hl) as Hc.
  rewrite lookup_chunk_insert by eauto. case_decide as D; [|done]. subst. rewrite Hc. done.
Qed.

(** Changing one bin and the bin number of [h] accordingly. *)
Lemma binned_rebin T T' s h c b b' l' :
  wf_core s -> binned T s -> lives s h c -> in_use c = false -> 0 <= b <= 20 ->
  (forall x, x ∈ T' <-> (x <> h /\ x ∈ T) \/ (x = h /\ b' = -1)) ->
  (bin_num c = b /\ b' = -1 \/ bin_num c = -1 /\ b' = b /\ b = BinNumForSize (size c)) ->
  let s' := with_bins (<[Z.to_nat b := l']> (bins_ s))
              (with_chunks (<[Z.to_nat h := set_bin_num b' c]> (chunks_ s)) s) in
  StronglySorted (bin_lt s') l' ->
  (forall l, bins_ s !! Z.to_nat b = Some l ->
     forall x, x ∈ l' <-> (x <> h /\ x ∈ l) \/ (x = h /\ b' = b)) ->
  binned T' s'.
Proof using.
  intros W HB Hl Hu Hb HT Hcase s' HS Hm.
  destruct (core_update s h c (set_bin_num b' c) W Hl) as [W' Hlive]; [by repeat split|].
  change (forall x cx', lives s' x cx' <-> exists cx, lives s x cx /\
            cx' = if decide (x = h) then set_bin_num b' c else cx) in Hlive.
  destruct (bin_exists _ _ b HB Hb) as [l Hlb].
  pose proof (lookup_lt_Some _ _ _ Hlb) as Hlt.
  pose proof (BinNumForSize_range (size c)).
  split.
  - simpl. rewrite length_insert. apply HB.
  - intros i li Hi. simpl in Hi. rewrite list_lookup_insert in Hi. case_decide; simplify_eq; [done|].
    eapply sorted_ext; [|by eapply (bn_sorted _ _ HB)]. intros x Hx. by apply chunk_of_insert with c.
  - intros i li x Hi. simpl in Hi. rewrite list_lookup_insert in Hi. case_decide as D.
    + destruct D as [D _]. simplify_eq. rewrite (Hm l Hlb), (bn_mem _ _ HB _ _ _ Hlb).
      setoid_rewrite Hlive. rewrite Z2Nat.id by lia. split.
      * intros [[Hx (cx & Hcx & E)]|[-> ->]].
        -- exists cx. split; [|done]. exists cx. by rewrite decide_False.
        -- exists (set_bin_num b c). split; [|done]. exists c. by rewrite decide_True.
      * intros (cx' & (cx & Hcx & ->) & E). case_decide as Dx.
        -- right. split; [done|exact E].
        -- left. split; [done|]. eauto.
    + rewrite (bn_mem _ _ HB _ _ _ Hi). setoid_rewrite Hlive.
      assert (Hib : Z.of_nat i <> b) by (intros E; apply D; rewrite <-E, Nat2Z.id in Hlt |- *; done).
      split.
      * intros (cx & Hcx & E). exists cx. split; [|done]. exists cx. split; [done|].
        rewrite decide_False; [done|]. intros ->. rewrite (lives_fun _ _ _ _ Hcx Hl) in E. lia.
      * intros (cx' & (cx & Hcx & ->) & E). case_decide as Dx; [|eauto]. simpl in E. lia.
  - intros x cx' Hx. apply Hlive in Hx as (cx & Hcx & ->). case_decide as Dx.
    + simpl. destruct Hcase as [[_ ->]|(_ & -> & ->)]; [auto|]. right. done.
    + by eapply (bn_num _ _ HB).
  - intros x. rewrite HT. setoid_rewrite Hlive. rewrite (bn_T _ _ HB). split.
    + intros [[Hx (cx & Hcx & E1 & E2)]|[-> ->]].
      * exists cx. split; [|done]. exists cx. by rewrite decide_False.
      * exists (set_bin_num (-1) c). split; [|done]. exists c. by rewrite decide_True.
    + intros (cx' & (cx & Hcx & ->) & E1 & E2). case_decide as Dx.
      * right. done.
      * left. split; [done|]. eauto.
Qed.

Lemma InsertFreeChunkIntoBin_spec T s h :
  wf_core s -> binned T s -> h ∈ T ->
  exists s' b, InsertFreeChunkIntoBin h s = Done (tt, s') /\ wf_core s' /\
    binned (T ∖ {[h]}) s' /\ frame s s' /\ rebinned s s' h b.
Proof using.
  intros W HB Hh. destruct (proj1 (bn_T _ _ HB h) Hh) as (c & Hl & Hu & Hn).
  pose proof (BinNumForSize_range (size c)) as Hr.
  destruct (bin_exists _ _ (BinNumForSize (size c)) HB Hr) as [l Hb].
  pose proof (lives_ck _ _ _ Hl) as Hc.
  set (b := BinNumForSize (size c)) in *.
  destruct (core_update s h c (set_bin_num b c) W Hl) as [W' Hlive]; [by repeat split|].
  set (s1 := with_chunks (<[Z.to_nat h := set_bin_num b c]> (chunks_ s)) s) in *.
  assert (Hnot : h ∉ l).
  { intros Hin. apply (bn_mem _ _ HB _ _ _ Hb) in Hin as (c' & Hc' & E).
    rewrite (lives_fun _ _ _ _ Hc' Hl), Hn in E. lia. }
  destruct (set_insert_spec s1 h l) as [HS Hmem].
  { eapply sorted_ext; [|by eapply (bn_sorted _ _ HB)]. intros x Hx.
    by apply (chunk_of_insert s h c (set_bin_num b c) x (bins_ s)). }
  { intros x Hx. apply (bn_mem _ _ HB _ _ _ Hb) in Hx as Hx'. destruct Hx' as (cx & Hcx & _).
    assert (x <> h) by (intros ->; done).
    apply (lives_bin_total s1 h x (set_bin_num b c) cx); [| |done]; apply Hlive.
    - exists c. by rewrite decide_True.
    - exists cx. by rewrite decide_False. }
  exists (with_bins (<[Z.to_nat b := set_insert (ChunkComparator s1) h l]> (bins_ s)) s1), b.
  split_and!.
  - unfold InsertFreeChunkIntoBin. run. rewrite run_check by (rewrite Hu, Hn; done).
    fold b. erewrite run_bin by (try eassumption; lia). by run.
  - destruct W'. by split.
  - apply (binned_rebin T (T ∖ {[h]}) s h c b b); try done.
    + intros x. rewrite elem_of_difference, elem_of_singleton. split; [naive_solver|].
      intros [[? ?]|[-> ?]]; [done|]. lia.
    + auto.
    + intros l0 Hl0 x. rewrite Hb in Hl0. simplify_eq. rewrite Hmem. split.
      * intros [->|Hx]; [auto|]. left. split; [|done]. intros ->. done.
      * naive_solver.
  - by apply (frame_update s h c).
  - intros x cx'. split.
    + intros Hx. apply Hlive in Hx as (cx & Hcx & ->). exists cx. split; [done|].
      case_decide; [|done]. subst. by rewrite (lives_fun _ _ _ _ Hcx Hl).
    + intros (cx & Hcx & ->). apply Hlive. exists cx. split; [done|]. case_decide; [|done].
      subst. by rewrite (lives_fun _ _ _ _ Hcx Hl).
Qed.

(** The state after [h] has left its bin, whichever way it was removed. *)
Lemma unbin_spec T s h c l l' :
  wf_core s -> binned T s -> lives s h c -> bin_num c <> -1 ->
  bins_ s !! Z.to_nat (bin_num c) = Some l ->
  StronglySorted (bin_lt s) l' -> (forall x, x ∈ l' <-> x ∈ l /\ x <> h) ->
  let s' := with_bins (<[Z.to_nat (bin_num c) := l']> (bins_ s))
              (with_chunks (<[Z.to_nat h := set_bin_num (-1) c]> (chunks_ s)) s) in
  wf_core s' /\ binned (T ∪ {[h]}) s' /\ frame s s' /\ rebinned s s' h (-1).
Proof using.
  intros W HB Hl Hn Hb HS Hm s'.
  destruct (wf_lives_free_bin _ _ _ _ HB Hl Hn) as [Hu Eb].
  pose proof (BinNumForSize_range (size c)) as Hr.
  destruct (core_update s h c (set_bin_num (-1) c) W Hl) as [W' Hlive]; [by repeat split|].
  split_and!.
  - destruct W'. by split.
  - apply (binned_rebin T (T ∪ {[h]}) s h c (bin_num c) (-1)); try done; [lia| |auto| |].
    + intros x. rewrite elem_of_union, elem_of_singleton. split.
      * intros [Hx| ->]; [|auto]. destruct (decide (x = h)) as [->|]; auto.
      * intros [[_ ?]|[-> _]]; auto.
    + eapply sorted_ext; [|done]. intros x Hx. by apply chunk_of_insert with c.
    + intros l0 Hl0 x. rewrite Hb in Hl0. simplify_eq. rewrite Hm. split; [naive_solver|].
      intros [[? ?]|[-> E]]; [done|]. lia.
  - by apply (frame_update s h c).
  - intros x cx'. split.
    + intros Hx. apply Hlive in Hx as (cx & Hcx & ->). exists cx. split; [done|].
      case_decide; [|done]. subst. by rewrite (lives_fun _ _ _ _ Hcx Hl).
    + intros (cx & Hcx & ->). apply Hlive. exists cx. split; [done|]. case_decide; [|done].
      subst. by rewrite (lives_fun _ _ _ _ Hcx Hl).
Qed.

Lemma bin_of_lives T s h c :
  binned T s -> lives s h c -> bin_num c <> -1 ->
  exists l, 0 <= bin_num c /\ bins_ s !! Z.to_nat (bin_num c) = Some l /\ h ∈ l /\
    StronglySorted (bin_lt s) l.
Proof using.
  intros HB Hl Hn. destruct (wf_lives_free_bin _ _ _ _ HB Hl Hn) as [Hu Eb].
  pose proof (BinNumForSize_range (size c)) as Hr.
  destruct (bin_exists _ _ (bin_num c) HB) as [l Hb]; [lia|]. exists l.
  split_and!; [lia|done| |by eapply (bn_sorted _ _ HB)].
  apply (bn_mem _ _ HB _ _ _ Hb). exists c. split; [done|]. lia.
Qed.

Lemma RemoveFreeChunkFromBin_spec T s h c :
  wf_core s -> binned T s -> lives s h c -> bin_num c <> -1 ->
  exists s', RemoveFreeChunkFromBin h s = Done (tt, s') /\ wf_core s' /\
    binned (T ∪ {[h]}) s' /\ frame s s' /\ rebinned s s' h (-1).
Proof using.
  intros W HB Hl Hn. destruct (bin_of_lives _ _ _ _ HB Hl Hn) as (l & H0 & Hb & Hin & HS).
  destruct (wf_lives_free_bin _ _ _ _ HB Hl Hn) as [Hu Eb].
  pose proof (lives_ck _ _ _ Hl) as Hc.
  destruct (set_erase_spec s h l HS Hin) as (l' & He & HS' & Hm).
  { intros x Hx Hne. apply (bn_mem _ _ HB _ _ _ Hb) in Hx as (cx & Hcx & _).
    by apply (lives_bin_total s h x c cx). }
  eexists. split; [|by apply (unbin_spec T s h c l l')].
  unfold RemoveFreeChunkFromBin. run.
  rewrite run_check by (rewrite Hu; unfold kInvalidBinNum; by rewrite (proj2 (Z.eqb_neq _ _)) by done).
  erewrite run_bin by (try eassumption; lia).
  unfold bind at 1, get. rewrite He. cbn [bind set_bin modify].
  unfold CHECK. cbn. unfold update_chunk. cbn. by rewrite Hc.
Qed.

Lemma RemoveFreeChunkIterFromBin_spec T s h c :
  wf_core s -> binned T s -> lives s h c -> bin_num c <> -1 ->
  exists s', RemoveFreeChunkIterFromBin (bin_num c) h s = Done (tt, s') /\ wf_core s' /\
    binned (T ∪ {[h]}) s' /\ frame s s' /\ rebinned s s' h (-1).
Proof using.
  intros W HB Hl Hn. destruct (bin_of_lives _ _ _ _ HB Hl Hn) as (l & H0 & Hb & Hin & HS).
  destruct (wf_lives_free_bin _ _ _ _ HB Hl Hn) as [Hu Eb].
  pose proof (lives_ck _ _ _ Hl) as Hc. destruct (iter_erase_spec s h l HS Hin) as [HS' Hm].
  eexists. split; [|by apply (unbin_spec T s h c l (iter_erase h l))].
  unfold RemoveFreeChunkIterFromBin. run.
  rewrite run_check by (rewrite Hu; unfold kInvalidBinNum; by rewrite (proj2 (Z.eqb_neq _ _)) by done).
  erewrite run_bin by (try eassumption; lia).
  unfold bind at 1, set_bin, modify. unfold update_chunk. cbn. by rewrite Hc.
Qed.

(** [DeallocateChunk] and [DeleteChunk], as functions on the state. *)
Lemma DeleteChunk_run s h c rs' :
  lookup_chunk (chunks_ s) h = Some c -> usage c = 0 ->
  rm_set_handle (region_manager_ s) (ptr c) inv = Some rs' ->
  exists cs' c', DeleteChunk h s =
      Done (tt, with_chunks cs' (with_free_list h (with_regions rs' s))) /\
    (forall x, lookup_chunk cs' x = if decide (x = h) then Some c' else lookup_chunk (chunks_ s) x) /\
    length cs' = length (chunks_ s) /\ usage_sum cs' = usage_sum (chunks_ s) /\
    allocation_id c' = -1 /\ bin_num c' = -1 /\ next c' = free_chunks_list_ s /\ ptr c' = ptr c.
Proof using.
  intros Hc Hu Hrs. unfold DeleteChunk. rewrite (run_chunk _ _ _ _ Hc). unfold erase.
  rewrite (run_set_handle _ _ _ _ _ Hrs). unfold DeallocateChunk.
  run_upd Hc as (L1 & N1 & U1).
  assert (Hc1 := L1 h). rewrite decide_True in Hc1 by done. run_upd Hc1 as (L2 & N2 & U2).
  assert (Hc2 := L2 h). rewrite decide_True in Hc2 by done. unfold bind at 1, get.
  autorewrite with bfc_st.
  run_upd Hc2 as (L3 & N3 & U3). unfold modify. autorewrite with bfc_st.
  eexists _, (set_next (free_chunks_list_ s) (set_bin_num kInvalidBinNum (set_allocation_id (-1) c))).
  split; [done|]. split_and!; try done.
  - intros x. rewrite L3, L2, L1. destruct (decide (x = h)); reflexivity.
  - congruence.
  - rewrite U3, U2, U1, Hu. unfold usage. simpl. lia.
Qed.

(** A free chunk that stays free in the same place may change the links of a
    free chunk or the [prev] of any chunk: usage is unaffected. *)
Lemma run_opt_set_prev s h3 v :
  (h3 <> inv -> is_Some (lookup_chunk (chunks_ s) h3)) ->
  (h3 = inv -> lookup_chunk (chunks_ s) h3 = None) ->
  exists cs', (if negb (h3 =? inv) then update_chunk h3 (set_prev v) else ret tt) s
      = Done (tt, with_chunks cs' s) /\
    (forall x, lookup_chunk cs' x =
       if decide (x = h3) then set_prev v <$> lookup_chunk (chunks_ s) x
       else lookup_chunk (chunks_ s) x) /\
    length cs' = length (chunks_ s) /\ usage_sum cs' = usage_sum (chunks_ s).
Proof using.
  intros H1 H2. destruct (Z.eqb_spec h3 inv) as [E|Hne]; simpl.
  - exists (chunks_ s). split_and!; try done; [by destruct s|].
    intros x. case_decide; [|done]. subst. by rewrite H2.
  - destruct (H1 Hne) as [c Hc]. run_upd Hc as (L1 & N1 & U1). eexists. split_and!; [done| |done|].
    + intros x. rewrite L1. case_decide; [|done]. subst. by rewrite Hc.
    + rewrite U1. unfold usage, in_use. simpl. lia.
Qed.

(** The chunk [Merge] leaves behind. *)
Definition merge_chunk (c1 c2 : Chunk) : Chunk :=
  set_freed_at_count (Z.max (freed_at_count c1) (freed_at_count c2))
    (set_size (size c1 + size c2) (set_next (next c2) c1)).

Lemma lives_bounds s h c : wf_core s -> lives s h c ->
  0 < ptr c /\ 0 < size c /\ ptr c + size c < 2 ^ 63.
Proof using.
  intros W Hl. pose proof (regions_ok_geometry _ (wc_regions _ W)) as G.
  destruct (lk_range _ _ _ (wc_linked _ W) _ _ Hl) as (a & b & Hab & Ha & Hb & _).
  pose proof (lk_size _ _ _ (wc_linked _ W) _ _ Hl). destruct (geo_bounds _ G _ _ Hab). lia.
Qed.

Lemma Merge_run s h1 h2 c1 c2 :
  wf_core s -> lives s h1 c1 -> lives s h2 c2 -> next c1 = h2 ->
  in_use c1 = false -> in_use c2 = false ->
  exists rs' cs' c2',
    Merge h1 h2 s = Done (tt, with_chunks cs' (with_free_list h2 (with_regions rs' s))) /\
    rm_set_handle (region_manager_ s) (ptr c2) inv = Some rs' /\
    (forall x, lookup_chunk cs' x =
       if decide (x = h1) then Some (merge_chunk c1 c2) else
       if decide (x = h2) then Some c2' else
       if decide (x = next c2) then set_prev h1 <$> lookup_chunk (chunks_ s) x
       else lookup_chunk (chunks_ s) x) /\
    length cs' = length (chunks_ s) /\ usage_sum cs' = usage_sum (chunks_ s) /\
    allocation_id c2' = -1 /\ bin_num c2' = -1 /\ next c2' = free_chunks_list_ s /\
    ptr c2' = ptr c2.
Proof using.
  intros W H1 H2 E12 U1 U2.
  pose proof (regions_ok_geometry _ (wc_regions _ W)) as G. pose proof (wc_linked _ W) as L.
  destruct (merge_facts _ _ _ G L h1 h2 c1 c2 H1 E12 H2) as (N1 & N2 & N12 & N32 & N31 & Ep & Ev).
  pose proof (lives_ck _ _ _ H1) as K1. pose proof (lives_ck _ _ _ H2) as K2.
  pose proof (lives_bounds _ _ _ W H1). pose proof (lives_bounds _ _ _ W H2).
  destruct (rm_set_handle_spec (region_manager_ s) (ptr c2) inv) as (rs' & Hrs & _);
    [apply W|apply H2|].
  unfold Merge. rewrite (run_chunk _ _ _ _ K1), (run_chunk _ _ _ _ K2).
  rewrite run_check by (by rewrite U1, U2).
  run_upd K1 as (L1 & M1 & S1).
  assert (K2' := L1 h2). rewrite decide_False in K2' by done.
  rewrite (run_chunk _ c2) by (autorewrite with bfc_st; congruence).
  rewrite run_check by (by apply Z.eqb_eq).
  match goal with |- context [bind _ _ ?s0] =>
    destruct (run_opt_set_prev s0 (next c2) h1) as (cs2 & R2 & L2 & M2 & S2)
  end.
  { intros Hn. autorewrite with bfc_st. rewrite L1. case_decide; [eauto|].
    destruct (lk_next _ _ _ L _ _ H2 Hn) as (c3 & Hc3 & _). exists c3. by apply lives_ck. }
  { intros Hn. autorewrite with bfc_st. rewrite L1, decide_False by congruence.
    rewrite Hn. apply (lk_inv _ _ _ L). }
  rewrite (bind_Done _ _ _ _ _ R2). autorewrite with bfc_st in *.
  assert (K2'' := L2 h2). rewrite decide_False in K2'' by congruence.
  rewrite (run_chunk _ c2) by (autorewrite with bfc_st; congruence).
  assert (K1'' := L2 h1). rewrite decide_False, L1, decide_True in K1'' by congruence.
  run_upd K1'' as (L3 & M3 & S3). cbn beta.
  assert (K3 := L3 h1). rewrite decide_True in K3 by done.
  run_upd K3 as (L4 & M4 & S4).
  assert (Hc1 : set_freed_at_count
      (Z.max (freed_at_count (set_size (u64 (size (set_next (next c2) c1) + size c2))
                (set_next (next c2) c1))) (freed_at_count c2))
      (set_size (u64 (size (set_next (next c2) c1) + size c2)) (set_next (next c2) c1))
      = merge_chunk c1 c2).
  { unfold merge_chunk. simpl. rewrite u64_small by (unfold in_u64; lia). done. }
  rewrite Hc1 in *.
  match goal with |- context [DeleteChunk h2 ?s0] =>
    destruct (DeleteChunk_run s0 h2 c2 rs') as (cs5 & c2' & R5 & L5 & M5 & S5 & Q)
  end.
  { autorewrite with bfc_st. rewrite L4, decide_False, L3, decide_False by congruence. congruence. }
  { unfold usage. by rewrite U2. }
  { done. }
  autorewrite with bfc_st in *. exists rs', cs5, c2'. split_and!; [done|done| | | |apply Q..].
  - intros x. rewrite L5. destruct (decide (x = h2)) as [->|D2].
    { by rewrite (decide_False (P := h2 = h1)). }
    rewrite L4. destruct (decide (x = h1)) as [->|D1]; [done|]. rewrite L3, decide_False by done.
    rewrite L2, L1. by rewrite (decide_False (P := x = h1)).
  - congruence.
  - rewrite S5, S4, S3, S2, S1. unfold usage.
    assert (in_use (merge_chunk c1 c2) = in_use c1) as -> by done.
    assert (forall a, in_use (set_next a c1) = in_use c1) as -> by done.
    assert (forall a b, in_use (set_size a (set_next b c1)) = in_use c1) as -> by done.
    rewrite U1. lia.
Qed.

(** ** Transformations of the set of live chunks

    After an operation the live chunks are the new ones [N] (free, in no bin)
    and the images under [f] of the old ones that survive ([P]). *)
Record transforms (s s' : B) (N : Z -> Chunk -> Prop) (P : Z -> Prop) (f : Z -> Chunk -> Chunk) :
    Prop := {
  tr_live x c' : lives s' x c' <-> N x c' \/ (P x /\ exists c, lives s x c /\ c' = f x c);
  tr_new x c' : N x c' -> in_use c' = false /\ bin_num c' = -1;
  tr_free x c : lives s x c -> in_use (f x c) = in_use c /\ bin_num (f x c) = bin_num c;
  tr_kept x c : lives s x c -> in_use c = true \/ bin_num c <> -1 ->
    P x /\ size (f x c) = size c /\ ptr (f x c) = ptr c /\
    requested_size (f x c) = requested_size c /\ allocation_id (f x c) = allocation_id c
}.

Lemma transforms_binned s s' N P f T T' :
  transforms s s' N P f -> bins_ s' = bins_ s -> binned T s ->
  (forall x, x ∈ T' <-> (P x /\ x ∈ T) \/ exists c', N x c') -> binned T' s'.
Proof using.
  intros TR Eb HB HT.
  assert (Hin : forall x c, lives s x c -> bin_num c <> -1 -> lives s' x (f x c)).
  { intros x c Hc Hn. apply (tr_live _ _ _ _ _ TR). right.
    split; [by eapply (tr_kept _ _ _ _ _ TR); eauto|eauto]. }
  split.
  - rewrite Eb. apply HB.
  - intros b l Hl. rewrite Eb in Hl. eapply sorted_ext; [|by eapply (bn_sorted _ _ HB)].
    intros x Hx. apply (bn_mem _ _ HB _ _ _ Hl) in Hx as (c & Hc & E).
    assert (Hn : bin_num c <> -1) by lia.
    rewrite (lives_chunk_of _ _ _ (Hin _ _ Hc Hn)), (lives_chunk_of _ _ _ Hc).
    destruct (tr_kept _ _ _ _ _ TR _ _ Hc) as (_ & ? & ? & _); auto.
  - intros b l x Hl. rewrite Eb in Hl. rewrite (bn_mem _ _ HB _ _ _ Hl). split.
    + intros (c & Hc & E). exists (f x c). split; [apply Hin; [done|lia]|].
      by rewrite (proj2 (tr_free _ _ _ _ _ TR _ _ Hc)).
    + intros (c' & Hc' & E). apply (tr_live _ _ _ _ _ TR) in Hc' as [HN|(_ & c & Hc & ->)].
      * apply (tr_new _ _ _ _ _ TR) in HN as [_ ?]. lia.
      * exists c. split; [done|]. by rewrite <-(proj2 (tr_free _ _ _ _ _ TR _ _ Hc)).
  - intros x c' Hc'. apply (tr_live _ _ _ _ _ TR) in Hc' as [HN|(_ & c & Hc & ->)].
    + apply (tr_new _ _ _ _ _ TR) in HN as [_ ?]. auto.
    + destruct (tr_free _ _ _ _ _ TR _ _ Hc) as [-> ->].
      destruct (decide (bin_num c = -1)) as [|Hn]; [auto|].
      destruct (tr_kept _ _ _ _ _ TR _ _ Hc) as (_ & -> & _); [auto|]. by eapply (bn_num _ _ HB).
  - intros x. rewrite HT. split.
    + intros [[HP Hx]|[c' HN]].
      * apply (bn_T _ _ HB) in Hx as (c & Hc & E1 & E2). exists (f x c).
        destruct (tr_free _ _ _ _ _ TR _ _ Hc) as [-> ->]. split; [|done].
        apply (tr_live _ _ _ _ _ TR). eauto.
      * exists c'. split; [apply (tr_live _ _ _ _ _ TR); auto|]. by eapply (tr_new _ _ _ _ _ TR).
    + intros (c' & Hc' & E1 & E2). apply (tr_live _ _ _ _ _ TR) in Hc' as [HN|(HP & c & Hc & ->)]; [eauto|].
      left. split; [done|]. apply (bn_T _ _ HB). exists c.
      destruct (tr_free _ _ _ _ _ TR _ _ Hc) as [<- <-]. done.
Qed.

Lemma transforms_alloc s s' N P f p sz rq id :
  transforms s s' N P f -> alloc s' p sz rq id <-> alloc s p sz rq id.
Proof using.
  intros TR. split.
  - intros (x & c' & Hc' & Hu & E). apply (tr_live _ _ _ _ _ TR) in Hc' as [HN|(_ & c & Hc & ->)].
    + apply (tr_new _ _ _ _ _ TR) in HN as [? _]. congruence.
    + rewrite (proj1 (tr_free _ _ _ _ _ TR _ _ Hc)) in Hu. exists x, c.
      destruct (tr_kept _ _ _ _ _ TR _ _ Hc (or_introl Hu)) as (_ & <- & <- & <- & <-). done.
  - intros (x & c & Hc & Hu & E). exists x, (f x c).
    rewrite (proj1 (tr_free _ _ _ _ _ TR _ _ Hc)).
    destruct (tr_kept _ _ _ _ _ TR _ _ Hc (or_introl Hu)) as (HP & -> & -> & -> & ->).
    split; [|done]. apply (tr_live _ _ _ _ _ TR). eauto.
Qed.

Lemma Merge_spec T s h1 h2 c1 c2 :
  wf_core s -> binned T s -> h1 ∈ T -> h2 ∈ T ->
  lives s h1 c1 -> lives s h2 c2 -> next c1 = h2 ->
  exists s', Merge h1 h2 s = Done (tt, s') /\ wf_core s' /\ binned (T ∖ {[h2]}) s' /\ frame s s' /\
    (forall x c', lives s' x c' <->
       x <> h2 /\ exists c, lives s x c /\ c' = merged h1 c2 (merge_chunk c1 c2) x c).
Proof using.
  intros W HB T1 T2 H1 H2 E12.
  assert (Hf : forall h c, h ∈ T -> lives s h c -> in_use c = false /\ bin_num c = -1).
  { intros h c Hh Hl. apply (bn_T _ _ HB) in Hh as (c' & Hc' & ?). by rewrite (lives_fun _ _ _ _ Hl Hc'). }
  destruct (Hf _ _ T1 H1) as [U1 B1]. destruct (Hf _ _ T2 H2) as [U2 B2].
  destruct (Merge_run s h1 h2 c1 c2) as
    (rs' & cs' & c2' & R & Hrs & Lk & Len & Us & A2 & Bn2 & Nx2 & Pt2); try done.
  pose proof (regions_ok_geometry _ (wc_regions _ W)) as G. pose proof (wc_linked _ W) as L.
  destruct (merge_facts _ _ _ G L h1 h2 c1 c2 H1 E12 H2) as (N1 & N2 & N12 & N32 & N31 & Ep & Ev).
  destruct (rm_set_handle_spec (region_manager_ s) (ptr c2) inv) as
    (rs2 & Hrs2 & Rok & Rreg & Rgh & Rsz); [apply W|apply H2|].
  assert (rs2 = rs') as -> by congruence.
  assert (SR : same_regions (rg s) (reg rs')) by (intros a b; symmetry; apply Rreg).
  set (s' := with_chunks cs' (with_free_list h2 (with_regions rs' s))) in *.
  assert (S1 : size (merge_chunk c1 c2) = size c1 + size c2 /\ ptr (merge_chunk c1 c2) = ptr c1 /\
    prev (merge_chunk c1 c2) = prev c1 /\ next (merge_chunk c1 c2) = next c2) by done.
  assert (Lk' : linked (ck s') (gh s') (rg s)).
  { by apply (linked_merge (ck s) (gh s) (rg s) G L h1 h2 c1 c2 (merge_chunk c1 c2) c2'). }
  assert (Hlive : forall x c', lives s' x c' <->
    x <> h2 /\ exists c, lives s x c /\ c' = merged h1 c2 (merge_chunk c1 c2) x c).
  { intros x c'. unfold lives. change (rg s') with (reg rs'). rewrite <-SR.
    by apply (merge_live (ck s) (gh s) (rg s) G L h1 h2 c1 c2 (merge_chunk c1 c2) c2'). }
  assert (TR : transforms s s' (fun _ _ => False) (fun x => x <> h2)
                 (merged h1 c2 (merge_chunk c1 c2))).
  { split; [|done| |].
    - intros x c'. rewrite Hlive. naive_solver.
    - intros x c Hc. unfold merged. destruct (decide (x = h1)) as [->|].
      + rewrite (lives_fun _ _ _ _ Hc H1). done.
      + by case_decide.
    - intros x c Hc Hk. assert (x <> h1).
      { intros ->. rewrite (lives_fun _ _ _ _ Hc H1) in Hk. destruct Hk; congruence. }
      split.
      + intros ->. rewrite (lives_fun _ _ _ _ Hc H2) in Hk. destruct Hk; congruence.
      + unfold merged. rewrite decide_False by done. by case_decide. }
  exists s'. split_and!; [done| | | |done].
  - split.
    + done.
    + change (rg s') with (reg rs'). by rewrite <-SR.
    + simpl. rewrite Len. apply W.
    + apply (free_ok_push (ck s) (ck s') (free_chunks_list_ s) h2 c2' (dead s)).
      * apply W.
      * intros [_ Hd]. by apply Hd in H2.
      * unfold ck. simpl. rewrite Lk. by rewrite decide_False, decide_True.
      * done.
      * intros x [Hx Hd] c Hc. unfold ck. simpl. rewrite Lk.
        rewrite (decide_False (P := x = h1)) by (intros ->; by apply Hd in H1).
        rewrite (decide_False (P := x = h2)) by (intros ->; by apply Hd in H2).
        unfold ck in Hc. rewrite Hc. case_decide; eauto.
      * intros x. unfold dead. split.
        -- intros [Hx Hd]. destruct (decide (x = h2)) as [|Hne]; [auto|]. right. split.
           ++ unfold ck in *. simpl in Hx. rewrite Lk in Hx.
              repeat case_decide; subst; eauto using lives_ck.
              by apply fmap_is_Some in Hx.
           ++ intros c Hc. eapply Hd, Hlive. eauto.
        -- intros Hx. split.
           ++ unfold ck. simpl. rewrite Lk. destruct Hx as [->|[Hx _]].
              ** rewrite decide_False, decide_True by done. eauto.
              ** repeat case_decide; eauto. by apply fmap_is_Some.
           ++ intros c' Hc'. apply Hlive in Hc' as (Hn & c & Hc & _).
              destruct Hx as [|[_ Hd]]; [done|]. by apply Hd in Hc.
    + intros x c' Hc' Hd. unfold ck in Hc'. simpl in Hc'. rewrite Lk in Hc'.
      destruct (decide (x = h1)) as [->|D1].
      { exfalso. eapply Hd, Hlive. split; [done|]. eauto. }
      destruct (decide (x = h2)) as [->|D2]; [by simplify_eq|].
      assert (Hd' : forall c, ~ lives s x c).
      { intros c Hc. eapply Hd, Hlive. eauto. }
      case_decide as D3; [|by eapply (wc_dead _ W)].
      destruct (lookup_chunk (chunks_ s) x) as [c|] eqn:Hc; simplify_eq/=.
      by eapply (wc_dead _ W).
  - eapply transforms_binned; [done|done|done|]. intros x.
    rewrite elem_of_difference, elem_of_singleton. naive_solver.
  - split; try done.
    + intros. by eapply transforms_alloc.
    + intros x c Hc. unfold ck in *. simpl. rewrite Lk.
      destruct (decide (x = h1)) as [->|D1].
      { rewrite (lives_ck _ _ _ H1) in Hc. simplify_eq. eauto. }
      destruct (decide (x = h2)) as [->|D2].
      { rewrite (lives_ck _ _ _ H2) in Hc. simplify_eq. eauto. }
      rewrite Hc. case_decide; eauto.
Qed.
End ops.
