(* ===== verification/BfcAlloc.v ===== *)
(** * Chunk slots, splitting and coalescing *)
From S2P Require Import Prelude Bfc BfcRegions BfcLinks BfcInv BfcOps.
From Stdlib Require Import Sorted.
From stdpp Require Import options.
#[local] Open Scope tf_monad_scope.

(** ** The number of chunks is bounded by the memory the regions cover *)

Lemma sum_sizes_bound rs lo :
  regions_ok rs -> 0 <= lo <= 2 ^ 64 -> (forall i r, rs !! i = Some r -> lo <= r_ptr r) ->
  0 <= foldr (fun r z => r_memory_size r + z) 0 rs <= 2 ^ 64 - lo.
Proof.
  revert lo. induction rs as [|r rs IH]; intros lo [HF HS] Hlo Hmin; simpl; [lia|].
  apply Forall_cons in HF as [Hr HF].
  assert (0 <= foldr (fun r z => r_memory_size r + z) 0 rs <= 2 ^ 64 - r_end_ptr r).
  { destruct Hr. apply IH; [split; [done|]|lia|].
    - intros i j ri rj Hi Hj Hij. by apply (HS (S i) (S j) ri rj Hi Hj); lia.
    - intros i ri Hi. by apply (HS 0%nat (S i) r ri); [done|done|lia]. }
  specialize (Hmin 0%nat r eq_refl). destruct Hr. lia.
Qed.

Lemma length_handles rs :
  Forall region_ok rs ->
  Z.of_nat (length (concat (r_handles <$> rs))) * 256 =
    foldr (fun r z => r_memory_size r + z) 0 rs.
Proof.
  induction rs as [|r rs IH]; intros HF; [done|]. apply Forall_cons in HF as [Hr HF].
  rewrite fmap_cons. cbn [concat foldr].
  rewrite length_app, Nat2Z.inj_add, Z.mul_add_distr_r, IH by done. f_equal. destruct Hr.
  rewrite ro_len, Z2Nat.id by (apply Z.div_pos; lia).
  pose proof (Z.div_mod (r_memory_size r) 256 ltac:(lia)). lia.
Qed.

Lemma elem_of_handles rs p h :
  rm_get_handle rs p = Some h -> h ∈ concat (r_handles <$> rs).
Proof.
  unfold rm_get_handle, RegionFor. destruct (rs !! upper_bound rs p) as [r|] eqn:E; simpl; [|done].
  unfold region_get_handle. intros Hh. apply list_elem_of_lookup_2 in Hh.
  apply list_elem_of_In, in_concat. exists (r_handles r).
  rewrite <-!list_elem_of_In. split; [|done]. apply list_elem_of_fmap. exists r. split; [done|].
  by apply list_elem_of_lookup_2 in E.
Qed.

(** If every slot is live, there are fewer than [SIZE_MAX] slots. *)
Lemma all_live_bound rs (cs : list Chunk) :
  regions_ok rs ->
  (forall i, (i < length cs)%nat -> exists p, rm_get_handle rs p = Some (Z.of_nat i)) ->
  Z.of_nat (length cs) < 2 ^ 60.
Proof.
  intros Hok Hl.
  assert (length (Z.of_nat <$> seq 0 (length cs)) <= length (concat (r_handles <$> rs)))%nat as Hle.
  { apply submseteq_length, NoDup_submseteq.
    - apply NoDup_fmap; [apply _|]. apply NoDup_seq.
    - intros x Hx. apply list_elem_of_fmap in Hx as (i & -> & Hi). apply elem_of_seq in Hi.
      destruct (Hl i) as [p Hp]; [lia|]. by eapply elem_of_handles. }
  rewrite length_fmap, length_seq in Hle.
  pose proof (length_handles rs (proj1 Hok)).
  pose proof (sum_sizes_bound rs 0 Hok ltac:(lia)) as Hs.
  destruct Hs as [_ Hs]; [|lia]. intros i r Hi. destruct (regions_ok_lookup _ _ _ Hok Hi). lia.
Qed.

Section alloc.
Context `{SA : SubAllocator} {SL : SubAllocatorLaws SA}.
Abbreviation B := BFCAllocator.

Lemma inv_value : inv = 2 ^ 64 - 1.
Proof using. done. Qed.

#[export] Instance slot_dec (rs : list AllocationRegion) p : Decision (slot (reg rs) p).
Proof using.
  refine (cast_if (decide (Exists (fun r => (r_ptr r <= p < r_end_ptr r) /\
                                             (p - r_ptr r) mod 256 = 0) rs))).
  - abstract (apply Exists_exists in e as (r & Hr & ? & ?); apply list_elem_of_lookup_1 in Hr as [i Hi];
      exists (r_ptr r), (r_end_ptr r); split; [by exists i, r|done]).
  - abstract (intros (a & b & (i & r & Hi & <- & <-) & ? & ?); apply n, Exists_exists;
      exists r; split; [by eapply list_elem_of_lookup_2|done]).
Defined.

#[export] Instance is_live_dec (s : B) h : Decision (exists c, lives s h c).
Proof using.
  destruct (ck s h) as [c|] eqn:E.
  - refine (cast_if (decide (slot (rg s) (ptr c) /\ gh s (ptr c) = Some h))).
    + abstract (exists c; split_and!; naive_solver).
    + abstract (intros (c' & H1 & H2 & H3); apply n; rewrite E in H1; by simplify_eq).
  - right. abstract (intros (c & H & _); congruence).
Defined.

(** [AllocateChunk] gives a slot that is not live and takes it off the free list. *)
Lemma AllocateChunk_spec s :
  wf_core s ->
  exists h c0 cs' fl', AllocateChunk s = Done (h, with_chunks cs' (with_free_list fl' s)) /\
    (forall x, lookup_chunk cs' x = if decide (x = h) then Some c0 else ck s x) /\
    h <> inv /\ (forall c, ~ lives s h c) /\ allocation_id c0 = -1 /\ bin_num c0 = -1 /\
    free_ok (lookup_chunk cs') fl' (fun x => dead s x /\ x <> h) /\
    usage_sum cs' = usage_sum (chunks_ s) /\ Z.of_nat (length cs') <= inv /\
    (forall c, ck s h = Some c -> c0 = c).
Proof using.
  intros W. pose proof (wc_linked _ W) as L. destruct (wc_free _ W) as (F & HF & HN & HD).
  unfold AllocateChunk. unfold bind at 1, get. destruct F as [|h F]; simpl in HF.
  - rewrite HF, Z.eqb_refl. cbn [negb]. set (n := Z.of_nat (length (chunks_ s))).
    assert (Hall : forall x, is_Some (ck s x) -> exists c, lives s x c).
    { intros x Hx. destruct (decide (exists c, lives s x c)) as [|Hn]; [done|].
      exfalso. apply (not_elem_of_nil x), HD. split; [done|]. naive_solver. }
    assert (Hn : n < 2 ^ 60).
    { apply (all_live_bound (region_manager_ s) (chunks_ s)); [apply W|]. intros i Hi.
      destruct (Hall (Z.of_nat i)) as (c & _ & _ & Hg); [apply lookup_chunk_is_Some; lia|]. eauto. }
    pose proof inv_value as Hinv.
    assert (Hnone : ck s n = None).
    { apply eq_None_not_Some. unfold ck. rewrite lookup_chunk_is_Some. lia. }
    exists n, default_chunk, (chunks_ s ++ [default_chunk]), inv. split_and!; try done.
    + unfold bind, modify. rewrite <-HF. by destruct s.
    + intros x. apply lookup_chunk_app.
    + lia.
    + intros c (Hc & _). congruence.
    + exists []. split_and!; [done|done|]. intros x. rewrite HD. split; [|naive_solver].
      intros [Hx Hd]. destruct (Hall x Hx) as [c Hc]. by apply Hd in Hc.
    + rewrite usage_sum_app. unfold usage_sum at 2. simpl. unfold usage, default_chunk, in_use. simpl. lia.
    + rewrite length_app. simpl. lia.
    + intros c Hc. congruence.
  - destruct HF as (Hh & c & Hc & HF).
    assert (Hd : dead s h) by (apply HD; set_solver). destruct Hd as [_ Hd].
    assert (Hne : h <> inv) by (intros ->; rewrite (lk_inv _ _ _ L) in Hc; done).
    rewrite Hh, (proj2 (Z.eqb_neq _ _)) by done. cbn [negb].
    rewrite (run_chunk _ _ _ _ Hc). apply NoDup_cons in HN as [HhF HN].
    exists h, c, (chunks_ s), (next c). split_and!; try done.
    + intros x. case_decide; [|done]. by subst.
    + by eapply (wc_dead _ W).
    + by eapply (wc_dead _ W).
    + exists F. split_and!; [done|done|]. intros x. rewrite <-HD, elem_of_cons.
      split; [|naive_solver]. intros Hx. split; [auto|]. by intros ->.
    + apply W.
    + intros c' Hc'. congruence.
Qed.

(** The two halves [SplitChunk] makes of [c]. *)
Definition split_low (c : Chunk) (hn n : Z) : Chunk := set_next hn (set_size n c).

Definition split_high (c c0 : Chunk) (h n : Z) : Chunk :=
  mkChunk (size c - n) (requested_size c0) (-1) (ptr c + n) h (next c) (bin_num c0)
    (freed_at_count c).

Lemma SplitChunk_run s h n c :
  wf_core s -> lives s h c -> in_use c = false -> bin_num c = -1 ->
  0 < n < size c -> n mod 256 = 0 ->
  exists hn c0 rs' cs' fl',
    SplitChunk h n s
      = InsertFreeChunkIntoBin hn (with_chunks cs' (with_free_list fl' (with_regions rs' s))) /\
    rm_set_handle (region_manager_ s) (ptr c + n) hn = Some rs' /\
    hn <> inv /\ (forall x, ~ lives s hn x) /\ allocation_id c0 = -1 /\ bin_num c0 = -1 /\
    (forall x, lookup_chunk cs' x =
       if decide (x = h) then Some (split_low c hn n) else
       if decide (x = hn) then Some (split_high c c0 h n) else
       if decide (x = next c) then set_prev hn <$> ck s x else ck s x) /\
    free_ok (lookup_chunk cs') fl' (fun x => dead s x /\ x <> hn) /\
    usage_sum cs' = usage_sum (chunks_ s) /\ Z.of_nat (length cs') <= inv.
Proof using.
  intros W Hl Hu Hb Hn Hm.
  pose proof (regions_ok_geometry _ (wc_regions _ W)) as G. pose proof (wc_linked _ W) as L.
  destruct (AllocateChunk_spec s W) as
    (hn & c0 & cs0 & fl' & R0 & L0 & Nn & Dn & A0 & B0 & F0 & S0 & M0 & _).
  destruct (split_facts _ _ _ L h hn c Hl Nn Dn) as (N1 & N2 & N3 & N4).
  pose proof (lives_bounds _ _ _ W Hl) as Hbd. pose proof (lives_ck _ _ _ Hl) as Kh.
  destruct (rm_set_handle_spec (region_manager_ s) (ptr c + n) hn) as (rs' & Hrs & _);
    [apply W|by apply (split_slot _ _ _ G L h n c)|].
  exists hn, c0, rs'. unfold SplitChunk. rewrite (bind_Done _ _ _ _ _ R0).
  assert (K0 := L0 h). rewrite decide_False in K0 by done. unfold ck in K0. rewrite Kh in K0.
  assert (Z0 := L0 hn). rewrite decide_True in Z0 by done.
  rewrite (run_chunk _ c) by (autorewrite with bfc_st; done).
  rewrite run_check by (by rewrite Hu, Hb).
  rewrite !(u64_small (ptr c + n)), !(u64_small (size c - n)) by (unfold in_u64; lia).
  run_upd Z0 as (L1 & M1 & S1). assert (Z1 := L1 hn). rewrite decide_True in Z1 by done.
  rewrite (run_set_handle _ _ rs') by (by autorewrite with bfc_st). autorewrite with bfc_st.
  run_upd Z1 as (L2 & M2 & S2). assert (Z2 := L2 hn). rewrite decide_True in Z2 by done.
  assert (K2 := L2 h). rewrite decide_False, L1, decide_False, K0 in K2 by done.
  run_upd K2 as (L3 & M3 & S3).
  assert (Z3 := L3 hn). rewrite decide_False, Z2 in Z3 by done.
  run_upd Z3 as (L4 & M4 & S4). assert (Z4 := L4 hn). rewrite decide_True in Z4 by done.
  run_upd Z4 as (L5 & M5 & S5). assert (Z5 := L5 hn). rewrite decide_True in Z5 by done.
  run_upd Z5 as (L6 & M6 & S6). assert (Z6 := L6 hn). rewrite decide_True in Z6 by done.
  run_upd Z6 as (L7 & M7 & S7).
  assert (K7 := L7 h). rewrite decide_False, L6, decide_False, L5, decide_False, L4, decide_False, L3,
    decide_True in K7 by done.
  run_upd K7 as (L8 & M8 & S8).
  assert (HL8 : forall x, lookup_chunk cs7 x = if decide (x = h) then Some (split_low c hn n) else
       if decide (x = hn) then Some (split_high c c0 h n) else ck s x).
  { intros x. rewrite L8. destruct (decide (x = h)); [done|].
    rewrite L7. destruct (decide (x = hn)); [done|].
    rewrite L6, decide_False, L5, decide_False, L4, decide_False, L3, decide_False, L2,
      decide_False, L1, decide_False, L0, decide_False by done. done. }
  match goal with |- context [bind _ _ ?s0] =>
    destruct (run_opt_set_prev s0 (next c) hn) as (cs9 & R9 & L9 & M9 & S9)
  end.
  { intros Hne. autorewrite with bfc_st. rewrite HL8. repeat case_decide; eauto.
    destruct (lk_next _ _ _ L _ _ Hl Hne) as (c3 & Hc3 & _). exists c3. apply Hc3. }
  { intros E. autorewrite with bfc_st. rewrite HL8. rewrite !decide_False by congruence.
    rewrite E. apply (lk_inv _ _ _ L). }
  rewrite (bind_Done _ _ _ _ _ R9). autorewrite with bfc_st in *.
  assert (HL9 : forall x, lookup_chunk cs9 x =
       if decide (x = h) then Some (split_low c hn n) else
       if decide (x = hn) then Some (split_high c c0 h n) else
       if decide (x = next c) then set_prev hn <$> ck s x else ck s x).
  { intros x. rewrite L9, HL8. repeat case_decide; congruence. }
  exists cs9, fl'. split_and!; try done.
  - refine (free_ok_ext _ _ _ _ _ _ (fun x => iff_refl _) F0). intros x [Hx Hxn] cx Hcx. rewrite HL9.
    rewrite L0, decide_False in Hcx by done.
    rewrite (decide_False (P := x = h)) by (intros ->; destruct Hx as [_ Hx]; by apply Hx in Hl).
    rewrite decide_False by done. rewrite Hcx. case_decide; eauto.
  - rewrite S9, S8, S7, S6, S5, S4, S3, S2, S1, S0. unfold usage, in_use. simpl.
    unfold in_use in Hu. rewrite Hu, A0. simpl. lia.
  - congruence.
Qed.

Lemma SplitChunk_spec T s h n c :
  wf_core s -> binned T s -> h ∈ T -> lives s h c -> 0 < n < size c -> n mod 256 = 0 ->
  exists s' hn cn, SplitChunk h n s = Done (tt, s') /\ wf_core s' /\ binned T s' /\ frame s s' /\
    hn <> h /\ hn <> inv /\ (forall x, ~ lives s hn x) /\ in_use cn = false /\
    size cn = size c - n /\ ptr cn = ptr c + n /\ prev cn = h /\ next cn = next c /\
    freed_at_count cn = freed_at_count c /\
    (forall x cx', lives s' x cx' <-> (x = hn /\ cx' = cn) \/ (x <> hn /\
       exists cx, lives s x cx /\ cx' = splitted h hn c (split_low c hn n) x cx)).
Proof using.
  intros W HB HT Hl Hn Hm.
  assert (in_use c = false /\ bin_num c = -1) as [Hu Hb].
  { apply (bn_T _ _ HB) in HT as (c' & Hc' & ?). by rewrite (lives_fun _ _ _ _ Hl Hc'). }
  destruct (SplitChunk_run s h n c W Hl Hu Hb Hn Hm) as
    (hn & c0 & rs' & cs' & fl' & R & Hrs & Nn & Dn & A0 & B0 & Lk & Fk & Us & Len).
  pose proof (regions_ok_geometry _ (wc_regions _ W)) as G. pose proof (wc_linked _ W) as L.
  destruct (split_facts _ _ _ L h hn c Hl Nn Dn) as (N1 & N2 & N3 & N4).
  destruct (rm_set_handle_spec (region_manager_ s) (ptr c + n) hn) as
    (rs2 & Hrs2 & Rok & Rreg & Rgh & Rsz); [apply W|by apply (split_slot _ _ _ G L h n c)|].
  assert (rs2 = rs') as -> by congruence.
  assert (SR : same_regions (rg s) (reg rs')) by (intros a b; symmetry; apply Rreg).
  set (s1 := with_chunks cs' (with_free_list fl' (with_regions rs' s))) in *.
  set (cn := split_high c c0 h n).
  assert (S1 : size (split_low c hn n) = n /\ ptr (split_low c hn n) = ptr c /\
    prev (split_low c hn n) = prev c /\ next (split_low c hn n) = hn) by done.
  assert (S2 : size cn = size c - n /\ ptr cn = ptr c + n /\ prev cn = h /\ next cn = next c) by done.
  assert (Lk1 : linked (ck s1) (gh s1) (rg s)).
  { by apply (linked_split (ck s) (gh s) (rg s) G L h hn n c (split_low c hn n) cn). }
  assert (Hlive : forall x cx', lives s1 x cx' <-> (x = hn /\ cx' = cn) \/ (x <> hn /\
       exists cx, lives s x cx /\ cx' = splitted h hn c (split_low c hn n) x cx)).
  { intros x cx'. unfold lives. change (rg s1) with (reg rs'). rewrite <-SR.
    by apply (split_live (ck s) (gh s) (rg s) G L h hn n c (split_low c hn n) cn). }
  assert (TR : transforms s s1 (fun x cx => x = hn /\ cx = cn) (fun x => x <> hn)
                 (splitted h hn c (split_low c hn n))).
  { split.
    - done.
    - intros x cx [-> ->]. split; [by apply in_use_false|done].
    - intros x cx Hcx. unfold splitted. destruct (decide (x = h)) as [->|].
      + by rewrite (lives_fun _ _ _ _ Hcx Hl).
      + by case_decide.
    - intros x cx Hcx Hk. assert (x <> h).
      { intros ->. rewrite (lives_fun _ _ _ _ Hcx Hl) in Hk. destruct Hk; congruence. }
      split.
      + intros ->. by apply Dn in Hcx.
      + unfold splitted. rewrite decide_False by done. by case_decide. }
  assert (W1 : wf_core s1).
  { split.
    - done.
    - change (rg s1) with (reg rs'). by rewrite <-SR.
    - done.
    - refine (free_ok_ext _ _ _ _ _ _ _ Fk); [intros x _ cx Hcx; by exists cx|].
      intros x. unfold dead at 2. split.
      + intros [[Hx Hd] Hne]. split.
        * unfold ck. simpl. rewrite Lk. repeat case_decide; eauto. by apply fmap_is_Some.
        * intros cx Hcx. apply Hlive in Hcx as [[? _]|(_ & cx0 & Hcx0 & _)]; [done|].
          by apply Hd in Hcx0.
      + intros [Hx Hd]. assert (x <> hn) by (intros ->; eapply Hd, Hlive; auto).
        split; [|done]. split.
        * unfold ck in Hx. simpl in Hx. rewrite Lk in Hx. rewrite (decide_False (P := x = hn)) in Hx by done.
          repeat case_decide; subst; [exists c; apply Hl|by apply fmap_is_Some in Hx|done].
        * intros cx Hcx. eapply Hd, Hlive. eauto.
    - intros x cx Hcx Hd. unfold ck in Hcx. simpl in Hcx. rewrite Lk in Hcx.
      assert (Hd' : forall c, ~ lives s x c).
      { intros c' Hc'. eapply Hd, Hlive. right. split; [|eauto]. intros ->. by apply Dn in Hc'. }
      destruct (decide (x = h)) as [->|D1]; [by apply Hd' in Hl|].
      destruct (decide (x = hn)) as [->|D2]; [exfalso; eapply Hd, Hlive; auto|].
      case_decide as D3; [|by eapply (wc_dead _ W)].
      destruct (ck s x) as [c3|] eqn:Hc; simplify_eq/=. by eapply (wc_dead _ W). }
  assert (B1 : binned (T ∪ {[hn]}) s1).
  { eapply transforms_binned; [done|done|done|]. intros x.
    rewrite elem_of_union, elem_of_singleton. split.
    - intros [Hx| ->]; [|eauto]. left. split; [|done]. intros ->.
      apply (bn_T _ _ HB) in Hx as (c' & Hc' & _). by apply Dn in Hc'.
    - naive_solver. }
  assert (F1 : frame s s1).
  { split; try done.
    - intros. by eapply transforms_alloc.
    - intros x cx Hx. unfold ck. simpl. rewrite Lk.
      destruct (decide (x = h)) as [->|D1].
      { unfold ck in Hx. rewrite (lives_ck _ _ _ Hl) in Hx. simplify_eq. eauto. }
      destruct (decide (x = hn)) as [->|D2].
      { eexists. split; [done|]. right. by apply (split_slot _ _ _ G L h n c). }
      rewrite Hx. case_decide; eauto. }
  destruct (InsertFreeChunkIntoBin_spec (T ∪ {[hn]}) s1 hn W1 B1) as
    (s' & b & R' & W' & B' & F' & RB); [set_solver|].
  assert (Hdiff : (T ∪ {[hn]}) ∖ {[hn]} = T).
  { assert (hn ∉ T); [|set_solver]. intros Hx.
    apply (bn_T _ _ HB) in Hx as (c' & Hc' & _). by apply Dn in Hc'. }
  rewrite Hdiff in B'.
  exists s', hn, (set_bin_num b cn). split_and!; try done.
  - by rewrite R.
  - by eapply frame_trans.
  - intros x cx'. rewrite (RB x cx'). setoid_rewrite Hlive. split.
    + intros (cx & [[-> ->]|(Hx & cx0 & Hcx0 & ->)] & ->).
      * left. by rewrite decide_True.
      * right. rewrite decide_False by done. eauto.
    + intros [[-> ->]|(Hx & cx0 & Hcx0 & ->)].
      * exists cn. rewrite decide_True by done. auto.
      * eexists. rewrite decide_False by done. split; [|done]. eauto.
Qed.
End alloc.

(** * Coalescing a free chunk with its free neighbours *)

Section coalesce.
Context `{SA : SubAllocator} {SL : SubAllocatorLaws SA}.
Abbreviation B := BFCAllocator.

(** No two adjacent free chunks, except around the chunks in [T]. *)
Definition coal (T : gset Z) (s : B) : Prop :=
  forall h c cn, lives s h c -> lives s (next c) cn -> in_use c = false -> in_use cn = false ->
    h ∈ T \/ next c ∈ T.

(** No live chunk carries a free time. *)
Definition unstamped (s : B) : Prop := forall h c, lives s h c -> freed_at_count c = 0.

Definition next_used (s : B) (h : Z) : Prop :=
  forall c cn, lives s h c -> lives s (next c) cn -> in_use cn = true.

Definition prev_used (s : B) (h : Z) : Prop :=
  forall c cp, lives s h c -> lives s (prev c) cp -> in_use cp = true.

Lemma coal_settle s h :
  wf_core s -> coal {[h]} s -> next_used s h -> prev_used s h -> coal ∅ s.
Proof using.
  intros W HC Hn Hp x c cn Hx Hy Hu Hv. destruct (HC _ _ _ Hx Hy Hu Hv) as [E|E];
    apply elem_of_singleton in E.
  - subst. rewrite (Hn _ _ Hx Hy) in Hv. done.
  - pose proof (live_ne_inv _ _ _ (wc_linked _ W) _ _ Hy) as Hne.
    destruct (live_next_prev _ _ _ (wc_linked _ W) x c cn) as [_ Ev]; [done..|].
    rewrite E in Hy. assert (lives s (prev cn) c) as Hx' by (by rewrite Ev).
    rewrite (Hp _ _ Hy Hx') in Hu. done.
Qed.

(** Removing [g] from its bin and merging the pair [h1], [h2] it belongs to. *)
Definition absorbed (h1 h2 : Z) (c1 c2 : Chunk) (x : Z) (c c' : Chunk) : Prop :=
  in_use c' = in_use c /\ ptr c' = ptr c /\
  next c' = (if decide (x = h1) then next c2 else next c) /\
  prev c' = (if decide (x = next c2) then h1 else prev c) /\
  size c' = (if decide (x = h1) then size c1 + size c2 else size c) /\
  freed_at_count c' = (if decide (x = h1) then Z.max (freed_at_count c1) (freed_at_count c2)
                       else freed_at_count c).

Lemma absorb_spec s h1 h2 c1 c2 g h :
  wf_core s -> binned {[h]} s -> lives s h1 c1 -> lives s h2 c2 -> next c1 = h2 ->
  in_use c1 = false -> in_use c2 = false ->
  (g = h1 /\ h = h2 \/ g = h2 /\ h = h1) ->
  exists s', (RemoveFreeChunkFromBin g;;; Merge h1 h2) s = Done (tt, s') /\
    wf_core s' /\ binned {[h1]} s' /\ frame s s' /\
    (forall x c', lives s' x c' -> x <> h2 /\ exists c, lives s x c /\ absorbed h1 h2 c1 c2 x c c') /\
    (forall x c, lives s x c -> x <> h2 -> exists c', lives s' x c' /\ absorbed h1 h2 c1 c2 x c c').
Proof using.
  intros W HB H1 H2 E12 U1 U2 Hg.
  pose proof (regions_ok_geometry _ (wc_regions _ W)) as G.
  destruct (merge_facts _ _ _ G (wc_linked _ W) h1 h2 c1 c2 H1 E12 H2)
    as (N1 & N2 & N12 & N32 & N31 & Ep & Ev).
  set (cg := if decide (g = h1) then c1 else c2).
  assert (Hcg : lives s g cg /\ in_use cg = false /\ g <> h).
  { unfold cg. destruct Hg as [[-> ->]|[-> ->]].
    - by rewrite decide_True.
    - by rewrite decide_False. }
  destruct Hcg as (Hlg & Hug & Hgh).
  assert (Hbg : bin_num cg <> -1).
  { intros E. assert (g ∈ ({[h]} : gset Z)) as Hin by (apply (bn_T _ _ HB); eauto).
    apply elem_of_singleton in Hin. done. }
  destruct (RemoveFreeChunkFromBin_spec {[h]} s g cg W HB Hlg Hbg) as (s1 & R1 & W1 & B1 & F1 & V1).
  set (rb := fun (x : Z) c => if decide (x = g) then set_bin_num (-1) c else c).
  assert (Hl1 : lives s1 h1 (rb h1 c1)) by (apply V1; eauto).
  assert (Hl2 : lives s1 h2 (rb h2 c2)) by (apply V1; eauto).
  assert (Hrb : forall x c, in_use (rb x c) = in_use c /\ ptr (rb x c) = ptr c /\
    next (rb x c) = next c /\ prev (rb x c) = prev c /\ size (rb x c) = size c /\
    freed_at_count (rb x c) = freed_at_count c).
  { intros x c. unfold rb. by case_decide. }
  destruct (Hrb h1 c1) as (r1 & r2 & r3 & r4 & r5 & r6).
  destruct (Hrb h2 c2) as (q1 & q2 & q3 & q4 & q5 & q6).
  destruct (Merge_spec ({[h]} ∪ {[g]}) s1 h1 h2 (rb h1 c1) (rb h2 c2)) as
    (s2 & R2 & W2 & B2 & F2 & V2); [done|done|set_solver|set_solver|done|done|congruence|].
  assert (Habs : forall x c, lives s x c -> x <> h2 ->
            absorbed h1 h2 c1 c2 x c (merged h1 (rb h2 c2) (merge_chunk (rb h1 c1) (rb h2 c2)) x (rb x c))).
  { intros x c Hx Hne. destruct (Hrb x c) as (e1 & e2 & e3 & e4 & e5 & e6).
    unfold absorbed, merged. rewrite q3. destruct (decide (x = h1)) as [->|D1].
    - rewrite (lives_fun _ _ _ _ Hx H1). rewrite (decide_False (P := h1 = next c2)) by congruence.
      unfold merge_chunk. simpl. unfold in_use in *. simpl. split_and!; congruence.
    - destruct (decide (x = next c2)); simpl; [|split_and!; congruence].
      unfold in_use in *. simpl. split_and!; congruence. }
  exists s2. split_and!.
  - by rewrite (bind_Done _ _ _ _ _ R1).
  - done.
  - assert (({[h]} ∪ {[g]}) ∖ {[h2]} = ({[h1]} : gset Z)) as <-; [|done].
    apply set_eq. intros x. destruct Hg as [[-> ->]|[-> ->]]; set_solver.
  - by eapply frame_trans.
  - intros x c' Hx. apply V2 in Hx as (Hne & c & Hc & ->). split; [done|].
    apply V1 in Hc as (c0 & Hc0 & ->). exists c0. split; [done|]. by apply Habs.
  - intros x c Hx Hne. eexists. split; [|by apply Habs]. apply V2. split; [done|].
    eexists. split; [|done]. apply V1. eauto.
Qed.

(** What absorbing does to the coalescing invariant. *)
Lemma absorb_coal s s' h1 h2 c1 c2 g h :
  wf_core s -> wf_core s' -> lives s h1 c1 -> lives s h2 c2 -> next c1 = h2 ->
  in_use c1 = false -> in_use c2 = false -> (g = h1 /\ h = h2 \/ g = h2 /\ h = h1) ->
  (forall x c', lives s' x c' -> x <> h2 /\ exists c, lives s x c /\ absorbed h1 h2 c1 c2 x c c') ->
  unstamped s -> coal {[h]} s ->
  unstamped s' /\ coal {[h1]} s' /\
  (h = h1 -> next_used s' h1) /\ (h = h2 -> prev_used s' h1 /\ (next_used s h2 -> next_used s' h1)).
Proof using.
  intros W W' H1 H2 E12 U1 U2 Hg V HU HC.
  pose proof (regions_ok_geometry _ (wc_regions _ W)) as G. pose proof (wc_linked _ W) as L.
  destruct (merge_facts _ _ _ G L h1 h2 c1 c2 H1 E12 H2) as (N1 & N2 & N12 & N32 & N31 & Ep & Ev).
  assert (Hnext : next_used s h2 -> next_used s' h1).
  { intros Hnu c cn Hc Hn. apply V in Hc as (_ & c0 & Hc0 & A0). apply V in Hn as (_ & n0 & Hn0 & An).
    destruct A0 as (_ & _ & E & _). rewrite decide_True in E by done. rewrite E in Hn0.
    destruct An as (-> & _). by eapply Hnu. }
  split_and!.
  - intros x c' Hx. apply V in Hx as (_ & c & Hc & (_ & _ & _ & _ & _ & ->)).
    rewrite (HU _ _ H1), (HU _ _ H2), (HU _ _ Hc). by case_decide.
  - intros x c' cn' Hx Hn Hu1 Hu2. apply V in Hx as (Hne & c & Hc & A).
    apply V in Hn as (Hnn & n & Hn & An). destruct A as (Ea & _ & En & _). destruct An as (Eb & _).
    rewrite Ea in Hu1. rewrite Eb in Hu2. destruct (decide (x = h1)) as [->|D]; [set_solver|].
    rewrite En in Hn, Hnn |- *. destruct (HC _ _ _ Hc Hn Hu1 Hu2) as [Hi|Hi];
      apply elem_of_singleton in Hi; destruct Hg as [[-> ->]|[-> ->]]; set_solver.
  - intros ->. apply Hnext. intros c cn Hc Hn. rewrite (lives_fun _ _ _ _ Hc H2) in Hn.
    destruct (in_use cn) eqn:Eu; [done|]. exfalso.
    destruct (HC _ _ _ H2 Hn U2 Eu) as [Hi|Hi]; apply elem_of_singleton in Hi; congruence.
  - intros ->. split; [|done]. intros c cp Hc Hp.
    apply V in Hc as (_ & c0 & Hc0 & A0). apply V in Hp as (Hpn & p0 & Hp0 & Ap).
    rewrite (lives_fun _ _ _ _ Hc0 H1) in A0. destruct A0 as (_ & _ & _ & E & _).
    rewrite decide_False in E by congruence. rewrite E in Hp0, Hpn. destruct Ap as (-> & _).
    destruct (in_use p0) eqn:Eu; [done|]. exfalso.
    pose proof (live_ne_inv _ _ _ L _ _ Hp0) as Hpi.
    destruct (live_prev_next _ _ _ L h1 c1 p0) as [Ex _]; [done..|].
    assert (lives s (next p0) c1) as Hn1 by (by rewrite Ex).
    destruct (HC _ _ _ Hp0 Hn1 Eu U1) as [Hi|Hi]; apply elem_of_singleton in Hi; congruence.
Qed.

Lemma lives_in_T s h : binned {[h]} s -> exists c, lives s h c /\ in_use c = false /\ bin_num c = -1.
Proof using. intros HB. apply (bn_T _ _ HB). set_solver. Qed.

(** The chunk of [s'] that [c] has become part of. *)
Record grown_into (ig : bool) (c c' : Chunk) : Prop := {
  gi_start : ptr c' <= ptr c;
  gi_end : ptr c + size c <= ptr c' + size c';
  gi_freed : ig = false -> freed_at_count c = 0 -> freed_at_count c' = 0
}.

Lemma grown_into_refl ig c : grown_into ig c c.
Proof using. split; [lia|lia|done]. Qed.

(** First half of [TryToCoalesce]: the successor. *)
Lemma absorb_next_spec s h c ig :
  wf_core s -> binned {[h]} s -> lives s h c -> in_use c = false ->
  exists s1 c1,
    (if negb (next c =? inv)
      then n <~ ChunkFromHandle (next c);;
           if negb (in_use n)
           then if (freed_at_count n =? 0) || ig
                then RemoveFreeChunkFromBin (next c);;; Merge h (next c) else ret tt
           else ret tt
      else ret tt) s = Done (tt, s1) /\
    wf_core s1 /\ binned {[h]} s1 /\ frame s s1 /\ lives s1 h c1 /\ prev c1 = prev c /\
    ptr c1 = ptr c /\ grown_into ig c c1 /\
    (ig = false -> unstamped s -> coal {[h]} s ->
       unstamped s1 /\ coal {[h]} s1 /\ next_used s1 h).
Proof using.
  intros W HB Hl Hu.
  assert (Hstay : forall (Hn : unstamped s -> ig = false -> next_used s h),
    exists s1 c1, Done (tt, s) = Done (tt, s1) /\
      wf_core s1 /\ binned {[h]} s1 /\ frame s s1 /\ lives s1 h c1 /\
      prev c1 = prev c /\ ptr c1 = ptr c /\ grown_into ig c c1 /\
      (ig = false -> unstamped s -> coal {[h]} s ->
         unstamped s1 /\ coal {[h]} s1 /\ next_used s1 h)).
  { intros Hn. exists s, c. split_and!; auto using frame_refl, grown_into_refl. }
  destruct (Z.eqb_spec (next c) inv) as [En|En]; cbn [negb].
  { apply Hstay. intros _ _ c' cn Hc' Hcn. rewrite (lives_fun _ _ _ _ Hc' Hl), En in Hcn.
    by apply (live_ne_inv _ _ _ (wc_linked _ W)) in Hcn. }
  destruct (lk_next _ _ _ (wc_linked _ W) _ _ Hl En) as (n & Hln & Epn & Evn).
  rewrite (run_chunk (next c) n _ s (lives_ck _ _ _ Hln)).
  destruct (in_use n) eqn:Un; cbn [negb].
  { apply Hstay. intros _ _ c' cn Hc' Hcn. rewrite (lives_fun _ _ _ _ Hc' Hl) in Hcn.
    by rewrite (lives_fun _ _ _ _ Hcn Hln). }
  destruct ((freed_at_count n =? 0) || ig) eqn:Ef.
  2:{ apply Hstay. intros HU ->. rewrite (HU _ _ Hln) in Ef. done. }
  destruct (absorb_spec s h (next c) c n (next c) h) as (s1 & R1 & W1 & B1 & F1 & V1 & V2);
    [done..|auto|].
  destruct (V2 h c Hl) as (c1 & Hc1 & A).
  { intros E. by apply (live_next_ne _ _ _ (wc_linked _ W) h c). }
  destruct A as (_ & Epc & _ & Ev & Es & Efr).
  pose proof (regions_ok_geometry _ (wc_regions _ W)) as G.
  destruct (merge_facts _ _ _ G (wc_linked _ W) h (next c) c n Hl eq_refl Hln)
    as (N1 & N2 & N12 & N32 & N31 & Ep & _).
  rewrite decide_False in Ev by congruence. rewrite decide_True in Es, Efr by done.
  pose proof (lives_bounds _ _ _ W Hln).
  exists s1, c1. split_and!; try done.
  - split; [lia|lia|]. intros -> E0.
    rewrite orb_false_r in Ef. apply Z.eqb_eq in Ef. lia.
  - intros -> HU HC.
    destruct (absorb_coal s s1 h (next c) c n (next c) h) as (HU1 & HC1 & Hx & _); try done; auto.
Qed.

Lemma TryToCoalesce_spec s h ig :
  wf_core s -> binned {[h]} s ->
  exists h' s', TryToCoalesce h ig s = Done (h', s') /\ wf_core s' /\ binned {[h']} s' /\
    frame s s' /\
    (ig = false -> unstamped s -> coal {[h]} s -> unstamped s' /\ coal ∅ s') /\
    (exists c c', lives s h c /\ lives s' h' c' /\ grown_into ig c c').
Proof using.
  intros W HB. destruct (lives_in_T _ _ HB) as (c & Hl & Hu & Hb).
  unfold TryToCoalesce. rewrite (run_chunk _ _ _ _ (lives_ck _ _ _ Hl)).
  destruct (negb ig && (0 <? freed_at_count c)) eqn:Eskip.
  { exists h, s. split_and!; try done; [apply frame_refl| |exists c, c; split_and!; [done..|apply grown_into_refl]].
    intros -> HU. exfalso. rewrite (HU _ _ Hl) in Eskip. done. }
  destruct (absorb_next_spec s h c ig W HB Hl Hu) as
    (s1 & c1 & R1 & W1 & B1 & F1 & Hl1 & Ev1 & Ep1 & Gr1 & HT1).
  rewrite (bind_Done _ _ _ _ _ R1), (run_chunk _ _ _ _ (lives_ck _ _ _ Hl1)).
  assert (U1 : in_use c1 = false).
  { destruct (lives_in_T _ _ B1) as (c' & Hc' & ? & _). by rewrite (lives_fun _ _ _ _ Hl1 Hc'). }
  assert (Hstay : (unstamped s1 -> ig = false -> prev_used s1 h) ->
    exists h' s', Done (h, s1) = Done (h', s') /\ wf_core s' /\ binned {[h']} s' /\ frame s s' /\
      (ig = false -> unstamped s -> coal {[h]} s -> unstamped s' /\ coal ∅ s') /\
      (exists c c', lives s h c /\ lives s' h' c' /\ grown_into ig c c')).
  { intros Hp. exists h, s1. split_and!; try done.
    - intros Hig HU HC. destruct (HT1 Hig HU HC) as (HU1 & HC1 & Hn1). split; [done|].
      by apply (coal_settle s1 h); auto.
    - by exists c, c1. }
  destruct (Z.eqb_spec (prev c1) inv) as [En|En]; cbn [negb].
  { apply Hstay. intros _ _ c' cp Hc' Hcp. rewrite (lives_fun _ _ _ _ Hc' Hl1), En in Hcp.
    by apply (live_ne_inv _ _ _ (wc_linked _ W1)) in Hcp. }
  destruct (lk_prev _ _ _ (wc_linked _ W1) _ _ Hl1 En) as (p & Hlp & Epn).
  rewrite (run_chunk _ _ _ _ (lives_ck _ _ _ Hlp)).
  destruct (in_use p) eqn:Un; cbn [negb].
  { apply Hstay. intros _ _ c' cp Hc' Hcp. rewrite (lives_fun _ _ _ _ Hc' Hl1) in Hcp.
    by rewrite (lives_fun _ _ _ _ Hcp Hlp). }
  destruct ((freed_at_count p =? 0) || ig) eqn:Ef.
  2:{ apply Hstay. intros HU ->. rewrite (HU _ _ Hlp) in Ef. done. }
  destruct (absorb_spec s1 (prev c1) h p c1 (prev c1) h) as (s2 & R2 & W2 & B2 & F2 & V2 & V2');
    [done..|auto|].
  exists (prev c1), s2. split_and!; try done.
  - rewrite <-bind_assoc_s. by rewrite (bind_Done _ _ _ _ _ R2).
  - by eapply frame_trans.
  - intros Hig HU HC. destruct (HT1 Hig HU HC) as (HU1 & HC1 & Hn1).
    destruct (absorb_coal s1 s2 (prev c1) h p c1 (prev c1) h) as (HU2 & HC2 & _ & Hx);
      [done..|auto|done|done|done|].
    destruct (Hx eq_refl) as [Hp2 Hn2]. split; [done|]. apply (coal_settle s2 (prev c1)); auto.
  - destruct (V2' (prev c1) p Hlp) as (p' & Hp' & A).
    { by apply (live_prev_ne _ _ _ (wc_linked _ W1) h c1). }
    destruct A as (_ & Epp & _ & _ & Es & Efr). rewrite decide_True in Es, Efr by done.
    exists c, p'. destruct (live_prev_next _ _ _ (wc_linked _ W1) h c1 p) as [_ ?]; [done..|].
    pose proof (lives_bounds _ _ _ W1 Hlp). destruct Gr1 as [g1 g2 g3].
    split_and!; [done|done|]. split; [lia|lia|]. intros -> E0. rewrite orb_false_r in Ef.
    apply Z.eqb_eq in Ef. rewrite (g3 eq_refl E0) in Efr. lia.
Qed.
End coalesce.
