(* ===== verification/BfcDealloc.v ===== *)
(** * Deallocation, and searching the bins *)
From S2P Require Import Prelude Bfc BfcRegions BfcLinks BfcInv BfcOps BfcAlloc.
From Stdlib Require Import Sorted.
From stdpp Require Import options.
From stdpp Require sorting.
#[local] Open Scope tf_monad_scope.

Section dealloc.
Context `{SA : SubAllocator} {SL : SubAllocatorLaws SA}.
Abbreviation B := BFCAllocator.

Lemma rebinned_coal s s' h b T :
  rebinned s s' h b -> (coal T s -> coal T s') /\ (unstamped s -> unstamped s').
Proof using.
  intros V. split.
  - intros HC x c' cn' Hx Hn U1 U2. apply V in Hx as (c & Hc & ->). apply V in Hn as (cn & Hcn & ->).
    assert (E : next (if decide (x = h) then set_bin_num b c else c) = next c)
      by (by destruct (decide (x = h))).
    rewrite E in Hcn, U2 |- *. apply (HC x c cn); [done|done| |].
    + by destruct (decide (x = h)).
    + by destruct (decide (next c = h)).
  - intros HU x c' Hx. apply V in Hx as (c & Hc & ->). specialize (HU _ _ Hc). by case_decide.
Qed.

(** Changing whether a chunk that is in no bin is in use. *)
Lemma binned_mark T T' s s' h c c' :
  binned T s -> lives s h c -> same_links c c' -> bin_num c = -1 -> bin_num c' = -1 ->
  bins_ s' = bins_ s ->
  (forall x cx', lives s' x cx' <-> exists cx, lives s x cx /\ cx' = if decide (x = h) then c' else cx) ->
  (forall x, x ∈ T' <-> (x <> h /\ x ∈ T) \/ (x = h /\ in_use c' = false)) ->
  binned T' s'.
Proof using.
  intros HB Hl (Es & Ep & _) B1 B2 Eb V HT.
  assert (Hh : lives s' h c') by (apply V; exists c; by rewrite decide_True).
  assert (Ho : forall x cx, lives s x cx -> x <> h -> lives s' x cx).
  { intros x cx Hx Hne. apply V. exists cx. by rewrite decide_False. }
  split.
  - rewrite Eb. apply HB.
  - intros b l Hb. rewrite Eb in Hb. eapply sorted_ext; [|by eapply (bn_sorted _ _ HB)].
    intros x Hx. apply (bn_mem _ _ HB _ _ _ Hb) in Hx as (cx & Hcx & E).
    assert (x <> h) by (intros ->; rewrite (lives_fun _ _ _ _ Hcx Hl) in E; lia).
    by rewrite (lives_chunk_of _ _ _ (Ho _ _ Hcx H)), (lives_chunk_of _ _ _ Hcx).
  - intros b l x Hb. rewrite Eb in Hb. rewrite (bn_mem _ _ HB _ _ _ Hb). split.
    + intros (cx & Hcx & E). exists cx. split; [|done]. apply Ho; [done|].
      intros ->. rewrite (lives_fun _ _ _ _ Hcx Hl) in E. lia.
    + intros (cx' & Hcx & E). apply V in Hcx as (cx & Hcx & ->). case_decide; [lia|]. eauto.
  - intros x cx' Hcx. apply V in Hcx as (cx & Hcx & ->). case_decide; [auto|]. by eapply (bn_num _ _ HB).
  - intros x. rewrite HT. split.
    + intros [[Hne Hx]|[-> Hu]]; [|eauto]. apply (bn_T _ _ HB) in Hx as (cx & Hcx & ?). eauto.
    + intros (cx' & Hcx & E1 & E2). apply V in Hcx as (cx & Hcx & ->). case_decide; [auto|].
      left. split; [done|]. apply (bn_T _ _ HB). eauto.
Qed.

(** A state that differs only in counters has the same chunks. *)
Definition same_chunks (s s' : B) : Prop :=
  chunks_ s' = chunks_ s /\ region_manager_ s' = region_manager_ s /\
  free_chunks_list_ s' = free_chunks_list_ s /\ bins_ s' = bins_ s.

Lemma same_chunks_lives s s' : same_chunks s s' -> lives s' = lives s.
Proof using. intros (E1 & E2 & E3 & E4). unfold lives, ck, gh, rg. by rewrite E1, E2. Qed.

Lemma same_chunks_core s s' : same_chunks s s' -> wf_core s -> wf_core s'.
Proof using.
  intros E [c1 c2 c3 c4 c5]. pose proof (same_chunks_lives _ _ E) as El.
  destruct E as (E1 & E2 & E3 & E4). unfold ck, gh, rg, dead in *.
  split; unfold dead, ck, gh, rg; rewrite ?E1, ?E2, ?E3, ?El; done.
Qed.

Lemma same_chunks_binned T s s' : same_chunks s s' -> binned T s -> binned T s'.
Proof using.
  intros E [b1 b2 b3 b4 b5]. pose proof (same_chunks_lives _ _ E) as El.
  destruct E as (E1 & E2 & E3 & E4).
  assert (Hb : bin_lt s' = bin_lt s) by (unfold bin_lt, chunk_of; by rewrite E1).
  split; rewrite ?E4, ?El, ?Hb; done.
Qed.

Lemma same_chunks_coal T s s' : same_chunks s s' ->
  (coal T s -> coal T s') /\ (unstamped s -> unstamped s').
Proof using. intros E. unfold coal, unstamped. by rewrite (same_chunks_lives _ _ E). Qed.

Lemma same_chunks_alloc s s' : same_chunks s s' -> alloc s' = alloc s.
Proof using. intros E. unfold alloc. by rewrite (same_chunks_lives _ _ E). Qed.

(** Freeing leaves the configuration and the regions' bookkeeping. *)
Record same_conf (s s' : B) : Prop := {
  sc_gc : garbage_collection_ s' = garbage_collection_ s;
  sc_coalesce : coalesce_regions_ s' = coalesce_regions_ s;
  sc_limit : memory_limit_ s' = memory_limit_ s;
  sc_frag : internal_fragmentation_fraction_ s' = internal_fragmentation_fraction_ s;
  sc_curr : curr_region_allocation_bytes_ s' = curr_region_allocation_bytes_ s;
  sc_total : total_region_allocated_bytes_ s' = total_region_allocated_bytes_ s;
  sc_back : started_backpedal_ s' = started_backpedal_ s;
  sc_sub : sub_allocator_ s' = sub_allocator_ s
}.

Lemma frame_same_conf s s' : frame s s' -> same_conf s s'.
Proof using. intros F. by split; rewrite (fr_eq _ _ F). Qed.

Lemma same_conf_trans s1 s2 s3 : same_conf s1 s2 -> same_conf s2 s3 -> same_conf s1 s3.
Proof using. intros [] []. split; congruence. Qed.

Lemma MarkFree_spec s h c :
  wf ∅ s -> lives s h c -> in_use c = true ->
  exists s', MarkFree h s = Done (tt, s') /\ wf {[h]} s' /\
    (forall p sz rq id, alloc s' p sz rq id <-> alloc s p sz rq id /\ p <> ptr c) /\
    (timing_counter_ s' = None <-> timing_counter_ s = None) /\
    (timing_counter_ s = None -> unstamped s -> coal ∅ s -> unstamped s' /\ coal {[h]} s') /\
    (exists c', lives s' h c' /\ ptr c' = ptr c) /\ same_conf s s' /\
    timestamped_chunks_ s' = timestamped_chunks_ s.
Proof using.
  intros [W HB HA] Hl Hu. pose proof (lives_ck _ _ _ Hl) as Hc.
  assert (Hb : bin_num c = -1).
  { destruct (bn_num _ _ HB _ _ Hl) as [|[? _]]; congruence. }
  set (c' := match timing_counter_ s with
             | Some t => set_freed_at_count (t + 1) (set_allocation_id (-1) c)
             | None => set_allocation_id (-1) c end).
  set (tc := match timing_counter_ s with Some t => Some (t + 1) | None => None end).
  assert (HS : same_links c c') by (unfold c'; by destruct (timing_counter_ s)).
  destruct (core_update s h c c' W Hl HS) as [W' V].
  set (s1 := with_chunks (<[Z.to_nat h := c']> (chunks_ s)) s) in *.
  set (st := stats_ s).
  set (s' := with_stats (next_allocation_id_ s)
    (mkStats (num_allocs st) (bytes_in_use st - size c) (peak_bytes_in_use st)
       (largest_alloc_size st) (bytes_limit st))
    (with_timing tc (timestamped_chunks_ s) (safe_frontier_ s) s1)).
  assert (SC : same_chunks s1 s') by done.
  assert (Ea : allocation_id c' = -1) by (unfold c'; by destruct (timing_counter_ s)).
  assert (Hal : forall p sz rq id, alloc s' p sz rq id <-> alloc s p sz rq id /\ p <> ptr c).
  { intros p sz rq id. rewrite (same_chunks_alloc _ _ SC). split.
    - intros (x & cx & Hx & Hux & Hq). apply V in Hx as (cx0 & Hx & ->). case_decide as D.
      + rewrite in_use_false in Hux by done. done.
      + split; [by exists x, cx0|]. destruct Hq as (<- & _). intros E.
        apply D. by apply (live_inj _ _ _ _ _ _ _ Hx Hl).
    - intros [(x & cx & Hx & Hux & Hq) Hne]. exists x, cx. split; [|done]. apply V. exists cx.
      rewrite decide_False; [done|]. intros ->. rewrite (lives_fun _ _ _ _ Hx Hl) in Hq.
      destruct Hq as (<- & _). done. }
  exists s'. split_and!.
  - unfold MarkFree. rewrite (run_chunk _ _ _ _ Hc), run_check by (by rewrite Hu, Hb).
    rewrite (run_update _ c) by done. unfold bind at 1, get. autorewrite with bfc_st.
    cbn [timing_counter_ with_chunks]. unfold s', s1, c', tc.
    destruct (timing_counter_ s) as [t|] eqn:Et.
    + rewrite bind_assoc_s. unfold bind at 1, modify.
      erewrite run_update; [|cbn [chunks_ with_timing with_chunks];
        rewrite lookup_chunk_insert by eauto; by rewrite decide_True].
      cbn [chunks_ with_timing with_chunks]. rewrite list_insert_insert, decide_True by done. done.
    + unfold modify, bind, ret. f_equal. f_equal. unfold with_stats, with_timing. simpl. by rewrite Et.
  - split.
    + by apply (same_chunks_core s1).
    + apply (same_chunks_binned _ s1 s' SC), (binned_mark ∅ {[h]} s s1 h c c'); try done.
      * unfold c'. by destruct (timing_counter_ s).
      * intros x. rewrite in_use_false by done. set_solver.
    + destruct HA as [a1 a2 a3 a4 a5 a6 a7 a8 a9]. split; try done.
      * change (bytes_in_use (stats_ s) - size c = usage_sum (<[Z.to_nat h := c']> (chunks_ s))).
        rewrite (usage_sum_insert _ _ c) by done. unfold usage. rewrite Hu, in_use_false by done. lia.
      * intros p sz rq id Hx. apply Hal in Hx as [Hx _]. by apply (a4 p).
      * intros p sz rq id p' sz' rq' Hx Hy. apply Hal in Hx as [Hx _]. apply Hal in Hy as [Hy _].
        by eapply a5.
      * intros Hgc. destruct (a8 Hgc) as [E1 E2]. simpl. unfold tc. by rewrite E1.
      * intros x Hx. destruct (a9 x Hx) as (cx & Hcx & Hs).
        exists (if decide (x = h) then c' else cx). split.
        -- unfold ck. simpl. rewrite lookup_chunk_insert by eauto. by case_decide.
        -- case_decide; [|done]. subst. destruct HS as (_ & Ep & _). rewrite Ep. apply Hl.
  - done.
  - simpl. unfold tc. by destruct (timing_counter_ s).
  - intros Et HU HC. destruct (same_chunks_coal {[h]} _ _ SC) as [Q1 Q2].
    split; [apply Q2|apply Q1].
    + intros x cx' Hx. apply V in Hx as (cx & Hx & ->). specialize (HU _ _ Hx).
      case_decide; [|done]. subst. unfold c'. rewrite Et. simpl.
      by rewrite (lives_fun _ _ _ _ Hx Hl) in HU.
    + intros x cx' cn' Hx Hn U1 U2. apply V in Hx as (cx & Hx & ->). apply V in Hn as (cn & Hn & ->).
      destruct (decide (x = h)) as [->|D]; [set_solver|].
      destruct (decide (next cx = h)) as [E|D']; [set_solver|].
      by destruct (HC _ _ _ Hx Hn U1 U2).
  - exists c'. split; [|by destruct HS as (_ & ? & _)]. rewrite (same_chunks_lives _ _ SC).
    apply V. exists c. by rewrite decide_True.
  - done.
  - done.
Qed.

Lemma frame_timing s s' : frame s s' -> timing_counter_ s' = timing_counter_ s /\
  timestamped_chunks_ s' = timestamped_chunks_ s /\ safe_frontier_ s' = safe_frontier_ s /\
  garbage_collection_ s' = garbage_collection_ s /\
  next_allocation_id_ s' = next_allocation_id_ s /\ sub_allocator_ s' = sub_allocator_ s /\
  memory_limit_ s' = memory_limit_ s /\ stats_ s' = stats_ s.
Proof using. intros F. by rewrite (fr_eq _ _ F). Qed.

(** Coalescing a chunk in transit and putting the result into a bin. *)
Lemma coalesce_insert_spec s h ig :
  wf {[h]} s ->
  exists h' s', (h' <~ TryToCoalesce h ig;; InsertFreeChunkIntoBin h';;; ret h') s = Done (h', s') /\
    wf ∅ s' /\ frame s s' /\
    (ig = false -> unstamped s -> coal {[h]} s -> unstamped s' /\ coal ∅ s') /\
    (exists c', lives s' h' c') /\
    (h' <~ TryToCoalesce h ig;; InsertFreeChunkIntoBin h') s = Done (tt, s') /\
    (exists c c', lives s h c /\ lives s' h' c' /\ grown_into ig c c').
Proof using.
  intros [W HB HA].
  destruct (TryToCoalesce_spec s h ig W HB) as (h' & s1 & R1 & W1 & B1 & F1 & C1 & G1).
  destruct (InsertFreeChunkIntoBin_spec {[h']} s1 h' W1 B1) as (s2 & b & R2 & W2 & B2 & F2 & V2);
    [set_solver|].
  assert (({[h']} : gset Z) ∖ {[h']} = ∅) as E by set_solver. rewrite E in B2.
  assert (F : frame s s2) by (by eapply frame_trans).
  destruct (rebinned_coal _ _ _ _ ∅ V2) as [Q1 Q2].
  exists h', s2. split_and!.
  - rewrite (bind_Done _ _ _ _ _ R1). by rewrite (bind_Done _ _ _ _ _ R2).
  - split; [done|done|]. by eapply acct_frame.
  - done.
  - intros Hig HU HC. destruct (C1 Hig HU HC). auto.
  - destruct (lives_in_T _ _ B1) as (c & Hc & _). eexists. apply V2. eauto.
  - by rewrite (bind_Done _ _ _ _ _ R1).
  - destruct G1 as (c & c' & H1 & H2 & H3). exists c, (set_bin_num b c').
    split_and!; [done| |by destruct H3; split]. apply V2. exists c'. by rewrite decide_True.
Qed.

Lemma push_timestamped_wf s h c T :
  wf T s -> lives s h c -> garbage_collection_ s = false ->
  exists s', push_timestamped h s = Done (tt, s') /\ wf T s' /\ same_chunks s s'.
Proof using.
  intros [W HB HA] Hl Hg. eexists. split; [done|].
  match goal with |- wf _ ?x /\ _ => assert (SC : same_chunks s x) by done end.
  split; [|done]. split; [by eapply same_chunks_core|by eapply same_chunks_binned|].
  destruct HA as [a1 a2 a3 a4 a5 a6 a7 a8 a9]. split; try done.
  - intros Hgc. simpl in Hgc. congruence.
  - intros x Hx. simpl in Hx. apply elem_of_app in Hx as [Hx|Hx]; [by apply (a9 x)|].
    apply list_elem_of_singleton in Hx as ->. exists c. split; apply Hl.
Qed.

(** The table entry of a block in use. *)
Lemma alloc_handle s p sz rq id :
  wf_core s -> alloc s p sz rq id -> exists h c, gh s p = Some h /\ lives s h c /\ in_use c = true /\
    ptr c = p /\ size c = sz /\ requested_size c = rq /\ allocation_id c = id /\ p <> 0 /\ h <> inv.
Proof using.
  intros W (h & c & Hl & Hu & <- & <- & <- & <-). exists h, c.
  pose proof (lives_bounds _ _ _ W Hl).
  pose proof (live_ne_inv _ _ _ (wc_linked _ W) _ _ Hl). split_and!; try done; [apply Hl|lia].
Qed.

Lemma DeallocateRawInternal_spec s p sz rq id :
  wf ∅ s -> alloc s p sz rq id ->
  exists s', DeallocateRawInternal p s = Done (tt, s') /\ wf ∅ s' /\
    (forall p' sz' rq' id', alloc s' p' sz' rq' id' <-> alloc s p' sz' rq' id' /\ p' <> p) /\
    (timing_counter_ s = None -> unstamped s -> coal ∅ s -> unstamped s' /\ coal ∅ s' /\
       timing_counter_ s' = None /\ timestamped_chunks_ s' = timestamped_chunks_ s) /\
    same_conf s s'.
Proof using.
  intros Hwf Ha. pose proof Hwf as [W HB HA].
  destruct (alloc_handle _ _ _ _ _ W Ha) as (h & c & Hg & Hl & Hu & Ep & _ & _ & _ & Hp & Hh).
  unfold DeallocateRawInternal. rewrite (proj2 (Z.eqb_neq _ _)) by done.
  rewrite (run_get_handle _ _ _ _ Hg), run_check by (by rewrite (proj2 (Z.eqb_neq _ _))).
  rewrite (run_chunk _ _ _ _ (lives_ck _ _ _ Hl)).
  destruct (MarkFree_spec s h c Hwf Hl Hu) as
    (s1 & R1 & Hwf1 & A1 & T1 & C1 & (c1 & Hl1 & Ec1) & SC1 & TS1).
  rewrite (bind_Done _ _ _ _ _ R1). unfold bind at 1, get.
  rewrite Ep in A1. destruct (timing_counter_ s1) as [t|] eqn:Et.
  - destruct Hwf1 as [W1 B1 AC1].
    destruct (InsertFreeChunkIntoBin_spec {[h]} s1 h W1 B1) as (s2 & b & R2 & W2 & B2 & F2 & V2);
      [set_solver|].
    assert (({[h]} : gset Z) ∖ {[h]} = ∅) as E by set_solver. rewrite E in B2.
    rewrite (bind_Done _ _ _ _ _ R2). destruct (frame_timing _ _ F2) as (F2t & _ & _ & F2g & _).
    assert (Hl2 : lives s2 h (set_bin_num b c1)) by (apply V2; exists c1; by rewrite decide_True).
    assert (AC2 : acct s2) by (by eapply acct_frame).
    destruct (push_timestamped_wf s2 h (set_bin_num b c1) ∅) as (s3 & R3 & W3 & SC); [done..| |].
    { destruct (garbage_collection_ s2) eqn:Eg; [|done]. destruct (ac_gc _ AC2 Eg). congruence. }
    exists s3. split_and!; [done|done| | |].
    + intros p' sz' rq' id'. rewrite (same_chunks_alloc _ _ SC), (fr_allocs _ _ F2). apply A1.
    + intros Hn. apply T1 in Hn. congruence.
    + unfold push_timestamped, modify in R3. simplify_eq.
      eapply same_conf_trans; [done|]. eapply same_conf_trans; [by apply frame_same_conf|done].
  - destruct (coalesce_insert_spec s1 h false Hwf1) as (h' & s2 & _ & W2 & F2 & C2 & _ & R2 & _).
    destruct (frame_timing _ _ F2) as (Ft & Fts & _).
    exists s2. split_and!; [done|done| | |].
    + intros p' sz' rq' id'. rewrite (fr_allocs _ _ F2). apply A1.
    + intros Hn HU HC. destruct (C1 Hn HU HC) as [HU1 HC1]. destruct (C2 eq_refl HU1 HC1).
      split_and!; [done|done|congruence|congruence].
    + eapply same_conf_trans; [done|]. by apply frame_same_conf.
Qed.

(** ** Merging chunks whose free times have become safe *)

(** An address where a candidate chunk started: no client holds it. *)
Definition candidate (s : B) (p : Z) : Prop :=
  slot (rg s) p /\ forall sz rq id, ~ alloc s p sz rq id.

Definition queued (s : B) (h : Z) : Prop := exists c, ck s h = Some c /\ slot (rg s) (ptr c).

Lemma candidate_frame s s' p : frame s s' -> candidate s p -> candidate s' p.
Proof using.
  intros F [Hs Hn]. split; [by rewrite slot_iff; [|apply (fr_reg _ _ F)]|].
  intros sz rq id Ha. apply (fr_allocs _ _ F) in Ha. by eapply Hn.
Qed.

Lemma queued_frame s s' h : frame s s' -> queued s h -> queued s' h.
Proof using.
  intros F (c & Hc & Hs). destruct (fr_slots _ _ F _ _ Hc) as (c' & Hc' & E). exists c'.
  split; [done|]. rewrite slot_iff by apply (fr_reg _ _ F). by destruct E as [->|?].
Qed.

Lemma binned_chunk_lives s h c : wf_core s -> ck s h = Some c -> bin_num c <> -1 -> lives s h c.
Proof using.
  intros W Hc Hb. destruct (decide (exists c, lives s h c)) as [(c' & Hl)|Hn].
  - pose proof Hl as (Hc' & _). congruence.
  - destruct (wc_dead _ W h c Hc) as [_ ?]; [naive_solver|done].
Qed.

(** Clearing the free time of a chunk. *)
Lemma reset_freed_spec s h c T v :
  wf T s -> lives s h c ->
  exists s', update_chunk h (set_freed_at_count v) s = Done (tt, s') /\ wf T s' /\ frame s s'.
Proof using.
  intros [W HB HA] Hl.
  destruct (core_update s h c (set_freed_at_count v c) W Hl) as [W' V]; [by repeat split|].
  pose proof (frame_update s h c (set_freed_at_count v c) (bins_ s) W Hl) as F.
  exists (with_chunks (<[Z.to_nat h := set_freed_at_count v c]> (chunks_ s)) s). split.
  { unfold update_chunk. by rewrite (lives_ck _ _ _ Hl). }
  assert (F' : frame s (with_chunks (<[Z.to_nat h := set_freed_at_count v c]> (chunks_ s)) s)).
  { apply F; [by repeat split|done|done]. }
  split; [|done]. split; [done| |by eapply acct_frame].
  eapply (transforms_binned s _ (fun _ _ => False) (fun _ => True)
            (fun x cx => if decide (x = h) then set_freed_at_count v cx else cx)); [|done|done|].
  - split; [|done| |].
    + intros x c'. rewrite V. split.
      * intros (cx & Hcx & ->). right. split; [done|]. exists cx. split; [done|].
        destruct (decide (x = h)) as [->|]; [|done]. by rewrite (lives_fun _ _ _ _ Hcx Hl).
      * intros [[]|(_ & cx & Hcx & ->)]. exists cx. split; [done|].
        destruct (decide (x = h)) as [->|]; [|done]. by rewrite (lives_fun _ _ _ _ Hcx Hl).
    + intros x cx _. by destruct (decide (x = h)).
    + intros x cx _ _. by destruct (decide (x = h)).
  - intros x. naive_solver.
Qed.

Lemma scan_timestamped_spec rb ts : forall s m n,
  wf ∅ s -> (forall h, h ∈ ts -> queued s h) ->
  (forall p, p ∈ m -> candidate s p) -> (forall h, h ∈ n -> queued s h) ->
  exists s' m' n', scan_timestamped rb ts m n s = Done ((m', n'), s') /\ wf ∅ s' /\ frame s s' /\
    (forall p, p ∈ m' -> candidate s' p) /\ (forall h, h ∈ n' -> queued s' h).
Proof using.
  induction ts as [|h0 ts IH]; intros s m n Hwf Hts Hm Hn; cbn [scan_timestamped].
  { exists s, m, n. split_and!; try done. apply frame_refl. }
  destruct (Hts h0) as (c & Hc & Hs); [set_solver|].
  rewrite (run_chunk _ _ _ _ Hc).
  destruct (lk_total _ _ _ (wc_linked _ (wf_c _ _ Hwf)) _ Hs) as [h Hg].
  rewrite (run_get_handle _ _ _ _ Hg).
  assert (Hskip : forall m n, (forall p, p ∈ m -> candidate s p) -> (forall h, h ∈ n -> queued s h) ->
    exists s' m' n', scan_timestamped rb ts m n s = Done ((m', n'), s') /\ wf ∅ s' /\ frame s s' /\
    (forall p, p ∈ m' -> candidate s' p) /\ (forall h, h ∈ n' -> queued s' h)).
  { intros. apply IH; try done. set_solver. }
  destruct (Z.eqb_spec h inv) as [|Hne]; [by apply Hskip|].
  destruct (in_use c || (bin_num c =? kInvalidBinNum)) eqn:Eu; [by apply Hskip|].
  apply orb_false_iff in Eu as [Eu Eb]. apply Z.eqb_neq in Eb.
  pose proof (binned_chunk_lives _ _ _ (wf_c _ _ Hwf) Hc Eb) as Hl.
  assert (h = h0) as -> by (destruct Hl as (_ & _ & Hl); congruence).
  assert (Hcand : candidate s (ptr c)).
  { split; [done|]. intros sz rq id (x & cx & Hx & Hux & Ex & _).
    rewrite (live_inj _ _ _ _ _ _ _ Hx Hl Ex) in Hx. rewrite (lives_fun _ _ _ _ Hx Hl) in Hux. congruence. }
  assert (Hm' : forall p, p ∈ m ++ [ptr c] -> candidate s p).
  { intros p Hp. apply elem_of_app in Hp as [Hp|Hp]; [auto|].
    by apply list_elem_of_singleton in Hp as ->. }
  destruct (freed_at_count c =? 0); [by apply Hskip|]. unfold bind at 1, get.
  destruct (freed_at_count c <? safe_frontier_ s).
  - destruct (reset_freed_spec s h0 c ∅ 0 Hwf Hl) as (s1 & R1 & Hwf1 & F1).
    rewrite (bind_Done _ _ _ _ _ R1).
    destruct (IH s1 (m ++ [ptr c]) n Hwf1) as (s' & m' & n' & R & Hwf' & F & Q1 & Q2).
    + intros x Hx. eapply queued_frame; [done|]. apply Hts. set_solver.
    + intros p Hp. eapply candidate_frame; eauto.
    + intros x Hx. eapply queued_frame; eauto.
    + exists s', m', n'. split_and!; try done. by eapply frame_trans.
  - destruct (0 <? rb); [by apply Hskip|]. apply Hskip; [done|].
    intros x Hx. apply elem_of_app in Hx as [Hx|Hx]; [auto|].
    apply list_elem_of_singleton in Hx as ->. by exists c.
Qed.

Lemma merge_candidates_spec rb m : forall s sat,
  wf ∅ s -> garbage_collection_ s = false -> (forall p, p ∈ m -> candidate s p) ->
  exists s' sat', merge_candidates rb m sat s = Done (sat', s') /\ wf ∅ s' /\
    (forall p sz rq id, alloc s' p sz rq id <-> alloc s p sz rq id) /\
    (exists ts, frame (with_timing (timing_counter_ s) ts (safe_frontier_ s) s) s').
Proof using.
  induction m as [|p m IH]; intros s sat Hwf Hgc Hm; cbn [merge_candidates].
  { exists s, sat. split_and!; try done. exists (timestamped_chunks_ s).
    destruct s. apply frame_refl. }
  destruct (Hm p) as [Hs Hna]; [set_solver|].
  destruct (lk_total _ _ _ (wc_linked _ (wf_c _ _ Hwf)) _ Hs) as [h Hg].
  rewrite (run_get_handle _ _ _ _ Hg).
  destruct (Z.eqb_spec h inv) as [|Hne]; [apply IH; [done..|set_solver]|].
  destruct (handle_live _ _ _ (wc_linked _ (wf_c _ _ Hwf)) _ _ Hs Hg Hne) as (c & Hl & Ep).
  change (live (ck s) (gh s) (rg s) h c) with (lives s h c) in Hl.
  assert (Hu : in_use c = false).
  { destruct (in_use c) eqn:E; [|done]. exfalso. eapply Hna. exists h, c. done. }
  assert (Hb : bin_num c <> -1).
  { intros E. assert (h ∈ (∅ : gset Z)); [|set_solver]. apply (bn_T _ _ (wf_b _ _ Hwf)). eauto. }
  destruct ((rb =? 0) || negb sat).
  2:{ destruct (push_timestamped_wf s h c ∅ Hwf Hl Hgc) as (s1 & R1 & Hwf1 & SC).
      rewrite (bind_Done _ _ _ _ _ R1). unfold push_timestamped, modify in R1. simplify_eq.
      edestruct IH as (s' & sat' & R & Hwf' & A & ts & F); [exact Hwf1|done| |].
      - intros q Hq. apply (Hm q). set_solver.
      - exists s', sat'. split_and!; [done|done|done|]. by exists ts. }
  rewrite (run_chunk _ _ _ _ (lives_ck _ _ _ Hl)).
  destruct (RemoveFreeChunkFromBin_spec ∅ s h c) as (s1 & R1 & W1 & B1 & F1 & V1); [apply Hwf..|done|done|].
  rewrite (bind_Done _ _ _ _ _ R1).
  assert ((∅ : gset Z) ∪ {[h]} = {[h]}) as E0 by set_solver. rewrite E0 in B1.
  assert (Hwf1 : wf {[h]} s1) by (split; [done|done|eapply acct_frame; [done|apply Hwf]]).
  destruct (coalesce_insert_spec s1 h (0 <? rb) Hwf1) as
    (h' & s2 & R2 & Hwf2 & F2 & _ & (c2 & Hl2) & _ & _).
  apply bind_inv in R2 as (x & s1' & R2 & R3). apply bind_inv in R3 as ([] & s1'' & R3 & R4).
  unfold ret in R4. simplify_eq. rewrite (bind_Done _ _ _ _ _ R2), (bind_Done _ _ _ _ _ R3).
  assert (F : frame s s2) by (by eapply frame_trans).
  assert (Hgc2 : garbage_collection_ s2 = false) by (destruct (frame_timing _ _ F) as (_&_&_&->&_); done).
  assert (Hm2 : forall q, q ∈ m -> candidate s2 q).
  { intros q Hq. eapply candidate_frame; [done|]. apply Hm. set_solver. }
  assert (Hfin : forall s3 sat3, wf ∅ s3 -> same_chunks s2 s3 -> garbage_collection_ s3 = false ->
    (exists ts, s3 = with_timing (timing_counter_ s2) ts (safe_frontier_ s2) s2) ->
    exists s' sat', merge_candidates rb m sat3 s3 = Done (sat', s') /\ wf ∅ s' /\
    (forall p sz rq id, alloc s' p sz rq id <-> alloc s p sz rq id) /\
    (exists ts, frame (with_timing (timing_counter_ s) ts (safe_frontier_ s) s) s')).
  { intros s3 sat3 Hwf3 SC Hgc3 [ts3 E3].
    destruct (IH s3 sat3 Hwf3 Hgc3) as (s' & sat' & R & Hwf' & A & ts & F3).
    - intros q Hq. subst s3. by apply Hm2.
    - exists s', sat'. split_and!; [done|done| |].
      + intros q sz rq id. rewrite A, (same_chunks_alloc _ _ SC). apply (fr_allocs _ _ F).
      + exists ts. eapply frame_trans; [|exact F3]. subst s3.
        destruct F as [f1 f2 f3 f4 f5 f6]. split; try done. rewrite f1. done. }
  assert (Hsame : s2 = with_timing (timing_counter_ s2) (timestamped_chunks_ s2) (safe_frontier_ s2) s2)
    by (by destruct s2).
  destruct (0 <? rb).
  - rewrite (run_chunk _ _ _ _ (lives_ck _ _ _ Hl2)).
    destruct (negb (h' =? h) && (0 <? freed_at_count c2)).
    + destruct (push_timestamped_wf s2 h' c2 ∅ Hwf2 Hl2 Hgc2) as (s3 & R3' & Hwf3 & SC).
      rewrite (bind_Done _ _ _ _ _ R3'). unfold push_timestamped, modify in R3'. simplify_eq.
      apply Hfin; [done|done|done|eauto].
    + unfold bind at 1, ret. apply Hfin; [done|done|done|eauto].
  - apply Hfin; [done|done|done|eauto].
Qed.

Lemma MergeTimestampedChunks_spec rb s :
  wf ∅ s -> garbage_collection_ s = false ->
  exists s' sat, MergeTimestampedChunks rb s = Done (sat, s') /\ wf ∅ s' /\
    (forall p sz rq id, alloc s' p sz rq id <-> alloc s p sz rq id) /\
    (exists ts, frame (with_timing (timing_counter_ s) ts (safe_frontier_ s) s) s').
Proof using.
  intros Hwf Hgc. unfold MergeTimestampedChunks. unfold bind at 1, get. unfold bind at 1, modify.
  assert (Hts : forall ts s0, wf ∅ s0 -> garbage_collection_ s0 = false ->
            (forall h, h ∈ ts -> queued s0 h) ->
            wf ∅ (with_timing (timing_counter_ s0) ts (safe_frontier_ s0) s0)).
  { intros ts s0 [W HB HA] Hg0 Hq. assert (SC : same_chunks s0
      (with_timing (timing_counter_ s0) ts (safe_frontier_ s0) s0)) by done.
    split; [by eapply same_chunks_core|by eapply same_chunks_binned|].
    destruct HA as [a1 a2 a3 a4 a5 a6 a7 a8 a9]. split; try done.
    intros Hgc0. simpl in Hgc0. congruence. }
  set (s0 := with_timing (timing_counter_ s) [] (safe_frontier_ s) s).
  assert (Hwf0 : wf ∅ s0) by (apply Hts; [done|done|set_solver]).
  destruct (scan_timestamped_spec rb (timestamped_chunks_ s) s0 [] []) as
    (s1 & m & n & R1 & Hwf1 & F1 & Qm & Qn); [done| |set_solver|set_solver|].
  { intros h Hh. by apply (ac_ts _ (wf_a _ _ Hwf)). }
  rewrite (bind_Done _ _ _ _ _ R1). unfold bind at 1.
  assert (Hg1 : garbage_collection_ s1 = false) by (destruct (frame_timing _ _ F1) as (_&_&_&->&_); done).
  set (s2 := with_timing (timing_counter_ s1) n (safe_frontier_ s1) s1).
  assert (Hwf2 : wf ∅ s2) by (apply Hts; done).
  destruct (merge_candidates_spec rb m s2 (rb =? 0)) as (s' & sat & R & Hwf' & A & ts & F); [done..|].
  exists s', sat. split_and!; [done|done| |].
  - intros p sz rq id. rewrite A. apply (fr_allocs _ _ F1).
  - exists ts. eapply frame_trans; [|exact F].
    destruct F1 as [f1 f2 f3 f4 f5 f6]. split; try done. unfold s2. rewrite f1. done.
Qed.
End dealloc.

(** * Searching the bins: [FindChunkPtr] and the chunk it takes *)

Section find.
Context `{SA : SubAllocator} {SL : SubAllocatorLaws SA}.
Abbreviation B := BFCAllocator.

(** What allocation operations never change. *)
Record config_eq (s s' : B) : Prop := {
  ce_limit : memory_limit_ s' = memory_limit_ s;
  ce_gc : garbage_collection_ s' = garbage_collection_ s;
  ce_coalesce : coalesce_regions_ s' = coalesce_regions_ s;
  ce_frag : internal_fragmentation_fraction_ s' = internal_fragmentation_fraction_ s;
  ce_timing : timing_counter_ s' = timing_counter_ s
}.

#[export] Instance config_eq_preorder : PreOrder config_eq.
Proof using. split; [by split|]. intros s1 s2 s3 [] []. split; congruence. Qed.

Lemma frame_config s s' : frame s s' -> config_eq s s'.
Proof using. intros F. by split; rewrite (fr_eq _ _ F). Qed.

(** Taking a chunk leaves the queue of freed chunks and the regions' bookkeeping. *)
Record same_pool (s s' : B) : Prop := {
  sp_ts : timestamped_chunks_ s' = timestamped_chunks_ s;
  sp_curr : curr_region_allocation_bytes_ s' = curr_region_allocation_bytes_ s;
  sp_total : total_region_allocated_bytes_ s' = total_region_allocated_bytes_ s;
  sp_back : started_backpedal_ s' = started_backpedal_ s
}.

Lemma frame_same_pool s s' : frame s s' -> same_pool s s'.
Proof using. intros F. by split; rewrite (fr_eq _ _ F). Qed.

Lemma same_pool_trans s1 s2 s3 : same_pool s1 s2 -> same_pool s2 s3 -> same_pool s1 s3.
Proof using. intros [] []. split; congruence. Qed.

(** The chunk [h] in transit is cut to [n] bytes when [b] says so. *)
Lemma maybe_split_spec s h c (b : bool) n :
  wf_core s -> binned {[h]} s -> lives s h c -> (b = true -> 0 < n < size c) -> n mod 256 = 0 ->
  exists s' c', (if b then SplitChunk h n else ret tt) s = Done (tt, s') /\
    wf_core s' /\ binned {[h]} s' /\ frame s s' /\ lives s' h c' /\
    ptr c' = ptr c /\ size c' = (if b then n else size c) /\
    (unstamped s -> unstamped s') /\ (coal ∅ s -> coal {[h]} s').
Proof using.
  intros W HB Hl Hn Hm. destruct b.
  2:{ exists s, c. split_and!; try done; [apply frame_refl|].
      intros HC x cx cn Hx Hy U V. by destruct (HC x cx cn Hx Hy U V). }
  destruct (SplitChunk_spec {[h]} s h n c) as
    (s' & hn & cn & R & W' & B' & F & N1 & N2 & Dn & Un & Zn & Pn & Vn & Xn & Fn & V);
    [done|done|set_solver|done|auto|done|].
  destruct (lives_in_T _ _ HB) as (c0 & Hc0 & Hu & _). rewrite (lives_fun _ _ _ _ Hc0 Hl) in Hu.
  exists s', (split_low c hn n). split_and!; try done.
  - apply V. right. split; [done|]. exists c. unfold splitted. by rewrite decide_True.
  - intros HU x cx Hx. apply V in Hx as [[-> ->]|(_ & c1 & Hc1 & ->)].
    + rewrite Fn. by apply (HU h).
    + specialize (HU _ _ Hc1). unfold splitted. destruct (decide (x = h)) as [->|].
      * by rewrite (lives_fun _ _ _ _ Hc1 Hl) in HU.
      * by case_decide.
  - intros HC x cx cy Hx Hy U1 U2. apply V in Hx as [[-> ->]|(Nx & c1 & Hc1 & ->)].
    + rewrite Xn in Hy |- *. apply V in Hy as [[E _]|(_ & c2 & Hc2 & ->)].
      * destruct (split_facts _ _ _ (wc_linked _ W) h hn c Hl N2 Dn) as (_ & _ & _ & ?). congruence.
      * exfalso. unfold splitted in U2.
        destruct (decide (next c = h)) as [E|]; [by apply (live_next_ne _ _ _ (wc_linked _ W)) in Hl|].
        rewrite decide_True in U2 by done. by destruct (HC h c c2 Hl Hc2 Hu U2).
    + destruct (decide (x = h)) as [->|D]; [set_solver|].
      assert (En : next (splitted h hn c (split_low c hn n) x c1) = next c1).
      { unfold splitted. rewrite decide_False by done. by case_decide. }
      rewrite En in Hy |- *. destruct (decide (next c1 = h)) as [E|D2]; [set_solver|].
      assert (Ea : in_use c1 = false).
      { unfold splitted in U1. rewrite decide_False in U1 by done. by case_decide. }
      apply V in Hy as [[E _]|(_ & c2 & Hc2 & ->)].
      * destruct (lk_next _ _ _ (wc_linked _ W) _ _ Hc1) as (z & Hz & _); [congruence|].
        rewrite E in Hz. by apply Dn in Hz.
      * assert (Eb : in_use c2 = false).
        { unfold splitted in U2. rewrite decide_False in U2 by done. by case_decide. }
        by destruct (HC x c1 c2 Hc1 Hc2 Ea Eb).
Qed.

(** The end of [TakeChunk]: the chunk in transit is handed to the client. *)
Lemma hand_out_spec s h c nb :
  wf_core s -> binned {[h]} s -> acct s -> lives s h c -> 0 < nb <= size c ->
  exists s', (update_chunk h (set_requested_size nb);;;
      s <~ get;;
      update_chunk h (set_allocation_id (next_allocation_id_ s));;;
      chunk <~ ChunkFromHandle h;;
      modify (fun s =>
        let st := stats_ s in
        let used := bytes_in_use st + size chunk in
        with_stats (next_allocation_id_ s + 1)
          (mkStats (num_allocs st + 1) used (Z.max (peak_bytes_in_use st) used)
             (Z.max (largest_alloc_size st) (size chunk)) (bytes_limit st)) s);;;
      ret (ptr chunk)) s = Done (ptr c, s') /\ wf ∅ s' /\ config_eq s s' /\
    next_allocation_id_ s' = next_allocation_id_ s + 1 /\
    same_pool s s' /\
    (forall p sz rq id, alloc s' p sz rq id <-> alloc s p sz rq id \/
       (p = ptr c /\ sz = size c /\ rq = nb /\ id = next_allocation_id_ s)) /\
    (unstamped s -> unstamped s') /\ (coal {[h]} s -> coal ∅ s').
Proof using.
  intros W HB HA Hl Hnb. pose proof (lives_ck _ _ _ Hl) as Hc.
  destruct (lives_in_T _ _ HB) as (c0 & Hc0 & Hu & Hb).
  rewrite (lives_fun _ _ _ _ Hc0 Hl) in Hu, Hb. clear c0 Hc0.
  set (id := next_allocation_id_ s).
  set (c' := set_allocation_id id (set_requested_size nb c)).
  assert (HS : same_links c c') by done.
  pose proof HA as [a1 a2 a3 a4 a5 a6 a7 a8 a9].
  assert (Hu' : in_use c' = true).
  { unfold in_use, c'. simpl. rewrite (proj2 (Z.eqb_neq _ _)); [done|]. unfold id. lia. }
  destruct (core_update s h c c' W Hl HS) as [W' V].
  set (s1 := with_chunks (<[Z.to_nat h := c']> (chunks_ s)) s) in *.
  set (st := stats_ s). set (used := bytes_in_use st + size c).
  set (s' := with_stats (id + 1) (mkStats (num_allocs st + 1) used
    (Z.max (peak_bytes_in_use st) used) (Z.max (largest_alloc_size st) (size c)) (bytes_limit st)) s1).
  assert (SC : same_chunks s1 s') by done.
  assert (Hlh : lives s' h c') by (apply V; exists c; by rewrite decide_True).
  assert (Hal : forall p sz rq i, alloc s' p sz rq i <-> alloc s p sz rq i \/
       (p = ptr c /\ sz = size c /\ rq = nb /\ i = id)).
  { intros p sz rq i. rewrite (same_chunks_alloc _ _ SC). split.
    - intros (x & cx & Hx & Hux & Hq). apply V in Hx as (cx0 & Hx & ->). case_decide as D.
      + right. destruct Hq as (<- & <- & <- & <-). done.
      + left. by exists x, cx0.
    - intros [(x & cx & Hx & Hux & Hq)|(-> & -> & -> & ->)].
      + exists x, cx. split; [|done]. apply V. exists cx.
        rewrite decide_False; [done|]. intros ->. rewrite (lives_fun _ _ _ _ Hx Hl) in Hux. congruence.
      + by exists h, c'. }
  exists s'. split_and!; try done.
  - rewrite (run_update _ c) by done. unfold bind at 1, get.
    erewrite run_update; [|autorewrite with bfc_st; rewrite lookup_chunk_insert by eauto;
      by rewrite decide_True].
    autorewrite with bfc_st. rewrite list_insert_insert, decide_True by done.
    erewrite run_chunk; [|autorewrite with bfc_st; rewrite lookup_chunk_insert by eauto;
      by rewrite decide_True]. done.
  - split.
    + by apply (same_chunks_core s1).
    + apply (same_chunks_binned _ s1 s' SC), (binned_mark {[h]} ∅ s s1 h c c'); try done.
      intros x. rewrite Hu'. set_solver.
    + split; try done.
      * change (bytes_in_use (stats_ s) + size c = usage_sum (<[Z.to_nat h := c']> (chunks_ s))).
        rewrite (usage_sum_insert _ _ c) by done. unfold usage. rewrite Hu, Hu'. change (size c') with (size c). lia.
      * intros p sz rq i Hx. change (next_allocation_id_ s') with (id + 1). unfold id.
        apply Hal in Hx as [Hx|(-> & -> & -> & ->)]; [|unfold id; lia].
        destruct (a4 _ _ _ _ Hx). lia.
      * intros p sz rq i p' sz' rq' Hx Hy.
        apply Hal in Hx as [Hx|(Ep & _ & _ & Ei)]; apply Hal in Hy as [Hy|(Ep' & _ & _ & Ei')].
        -- by eapply a5.
        -- destruct (a4 _ _ _ _ Hx). unfold id in *. lia.
        -- destruct (a4 _ _ _ _ Hy). unfold id in *. lia.
        -- congruence.
      * change (next_allocation_id_ s') with (id + 1). unfold id. lia.
      * intros x Hx. destruct (a9 x Hx) as (cx & Hcx & Hs).
        exists (if decide (x = h) then c' else cx). split.
        -- unfold ck. simpl. rewrite lookup_chunk_insert by eauto. by case_decide.
        -- case_decide; [|done]. subst. apply Hl.
  - intros HU x cx Hx. rewrite (same_chunks_lives _ _ SC) in Hx. apply V in Hx as (c0 & Hc0 & ->).
    specialize (HU _ _ Hc0). case_decide; [|done]. subst. by rewrite (lives_fun _ _ _ _ Hc0 Hl) in HU.
  - intros HC x cx cy Hx Hy U1 U2. rewrite (same_chunks_lives _ _ SC) in Hx, Hy.
    apply V in Hx as (c1 & Hc1 & ->). apply V in Hy as (c2 & Hc2 & ->).
    destruct (decide (x = h)) as [->|D]; [congruence|].
    destruct (decide (next c1 = h)) as [E|D2]; [congruence|].
    destruct (HC _ _ _ Hc1 Hc2 U1 U2); set_solver.
Qed.

(** The size of the block handed out for [rb] bytes from a chunk of [n] bytes. *)
Definition taken_size (s : B) (n rb : Z) : Z :=
  let kMax := default 0 (kMaxInternalFragmentation s) in
  if (rb * 2 <=? n) || (kMax <=? n - rb) then rb else n.

Lemma taken_size_bounds s n rb :
  rb <= n -> rb <= taken_size s n rb <= n /\
  (taken_size s n rb = rb \/
   (taken_size s n rb < 2 * rb /\ taken_size s n rb - rb < default 0 (kMaxInternalFragmentation s))).
Proof using.
  intros Hn. unfold taken_size. destruct (_ || _) eqn:E; [lia|]. bool_to_prop. lia.
Qed.

Lemma kMax_frame s s' : frame s s' -> kMaxInternalFragmentation s' = kMaxInternalFragmentation s.
Proof using. intros F. by rewrite (fr_eq _ _ F). Qed.

Lemma TakeChunk_spec s h c rb nb :
  wf ∅ s -> lives s h c -> bin_num c <> -1 -> 0 < nb <= rb -> rb mod 256 = 0 -> rb <= size c ->
  exists s', TakeChunk (bin_num c) h rb nb s = Done (ptr c, s') /\ wf ∅ s' /\ config_eq s s' /\
    next_allocation_id_ s' = next_allocation_id_ s + 1 /\
    same_pool s s' /\
    (forall p sz rq id, alloc s' p sz rq id <-> alloc s p sz rq id \/
       (p = ptr c /\ sz = taken_size s (size c) rb /\ rq = nb /\ id = next_allocation_id_ s)) /\
    (unstamped s -> coal ∅ s -> unstamped s' /\ coal ∅ s').
Proof using.
  intros [W HB HA] Hl Hb Hnb Hm Hsz. pose proof (lives_bounds _ _ _ W Hl) as Hbd.
  destruct (ac_frag _ HA) as (k & Hk & Hk0).
  destruct (RemoveFreeChunkIterFromBin_spec ∅ s h c W HB Hl Hb) as (s1 & R1 & W1 & B1 & F1 & V1).
  assert ((∅ : gset Z) ∪ {[h]} = {[h]}) as E0 by set_solver. rewrite E0 in B1. clear E0.
  set (c1 := set_bin_num (-1) c).
  assert (Hl1 : lives s1 h c1) by (apply V1; exists c; by rewrite decide_True).
  set (b := (rb * 2 <=? size c) || (k <=? size c - rb)).
  assert (Ek : kMaxInternalFragmentation s1 = Some k) by (by rewrite (kMax_frame _ _ F1)).
  assert (Et : taken_size s (size c) rb = if b then rb else size c).
  { unfold taken_size, b. by rewrite Hk. }
  destruct (maybe_split_spec s1 h c1 b rb) as (s2 & c2 & R2 & W2 & B2 & F2 & Hl2 & Ep & Es & HU & HC);
    [done..| |done|].
  { unfold b. intros E. apply orb_true_iff in E as [E|E]; bool_to_prop; change (size c1) with (size c); lia. }
  assert (F : frame s s2) by (by eapply frame_trans).
  destruct (taken_size_bounds s (size c) rb Hsz) as [Htb _].
  change (size c1) with (size c) in Es. rewrite <-Et in Es.
  destruct (hand_out_spec s2 h c2 nb) as (s3 & R3 & W3 & C3 & I3 & T3 & A3 & U3 & Q3);
    [done|done|by eapply acct_frame|done|lia|].
  exists s3. split_and!; try done.
  - unfold TakeChunk. rewrite (bind_Done _ _ _ _ _ R1), (run_chunk _ _ _ _ (lives_ck _ _ _ Hl1)).
    unfold bind at 1, get. rewrite Ek. change (size c1) with (size c).
    rewrite (u64_small (rb * 2)), (u64_small k), (i64_small (size c)), (u64_small (size c - rb))
      by (unfold in_u64, in_i64; lia).
    fold b. rewrite (bind_Done _ _ _ _ _ R2). rewrite Ep in R3. exact R3.
  - transitivity s2; [by apply frame_config|done].
  - rewrite I3. destruct (frame_timing _ _ F) as (_ & _ & _ & _ & -> & _). done.
  - eapply same_pool_trans; [by apply frame_same_pool|done].
  - intros p sz rq id. rewrite A3, (fr_allocs _ _ F), Es, Ep.
    destruct (frame_timing _ _ F) as (_ & _ & _ & _ & -> & _). done.
  - intros HU0 HC0. destruct (rebinned_coal _ _ _ _ ∅ V1) as [Q1 Q2]. auto.
Qed.

(** ** The search *)

Definition eligible (c : Chunk) (rb fb : Z) : Prop :=
  rb <= size c /\ (0 < fb -> freed_at_count c <= fb).

Lemma find_in_bin_spec s l rb fb :
  (forall h, h ∈ l -> is_Some (ck s h)) ->
  exists r, find_in_bin l rb fb s = Done (r, s) /\
    match r with
    | Some h => exists l1 l2, l = l1 ++ h :: l2 /\ eligible (chunk_of s h) rb fb /\
        (forall x, x ∈ l1 -> ~ eligible (chunk_of s x) rb fb)
    | None => forall x, x ∈ l -> ~ eligible (chunk_of s x) rb fb
    end.
Proof using.
  induction l as [|h l IH]; intros Hl; cbn [find_in_bin].
  { exists None. split; [done|]. intros x Hx. by apply not_elem_of_nil in Hx. }
  destruct (Hl h) as [c Hc]; [set_solver|]. rewrite (run_chunk _ _ _ _ Hc).
  assert (Eh : chunk_of s h = c) by (unfold chunk_of; unfold ck in Hc; by rewrite Hc).
  destruct IH as (r & R & Hr); [set_solver|].
  assert (Hskip : ~ eligible c rb fb ->
    exists r, find_in_bin l rb fb s = Done (r, s) /\
      match r with
      | Some h' => exists l1 l2, h :: l = l1 ++ h' :: l2 /\ eligible (chunk_of s h') rb fb /\
          (forall x, x ∈ l1 -> ~ eligible (chunk_of s x) rb fb)
      | None => forall x, x ∈ h :: l -> ~ eligible (chunk_of s x) rb fb
      end).
  { intros Hne. exists r. split; [done|]. destruct r as [h'|].
    - destruct Hr as (l1 & l2 & -> & He & Hm). exists (h :: l1), l2. split_and!; try done.
      intros x [->|Hx]%elem_of_cons; [by rewrite Eh|auto].
    - intros x [->|Hx]%elem_of_cons; [by rewrite Eh|auto]. }
  destruct ((0 <? fb) && (fb <? freed_at_count c)) eqn:E1.
  { apply Hskip. bool_to_prop. unfold eligible. intros [_ H']. specialize (H' ltac:(lia)). lia. }
  destruct (rb <=? size c) eqn:E2; bool_to_prop; [|apply Hskip; unfold eligible; lia].
  exists (Some h). split; [done|]. exists [], l. split_and!; [done| |].
  - rewrite Eh. split; [done|]. intros Hfb. apply andb_false_iff in E1 as [E1|E1]; bool_to_prop; lia.
  - intros x Hx. by apply not_elem_of_nil in Hx.
Qed.

Definition free_chunk (s : B) (c : Chunk) : Prop := exists h, lives s h c /\ in_use c = false.

(** The search from bin [b] takes the first eligible chunk in the bin order,
    or shows that no chunk of these bins is eligible. *)
Lemma FindChunkPtr_loop_spec s rb nb fb n b :
  wf ∅ s -> 0 < nb <= rb -> rb mod 256 = 0 -> 0 <= b -> b + Z.of_nat n = 21 ->
  (exists h c s', FindChunkPtr_loop n b rb nb fb s = Done (ptr c, s') /\
     lives s h c /\ bin_num c <> -1 /\ b <= bin_num c /\ eligible c rb fb /\
     (forall x cx, lives s x cx -> in_use cx = false -> b <= bin_num cx -> eligible cx rb fb ->
        bin_num c < bin_num cx \/ (bin_num c = bin_num cx /\ (x = h \/ klt c cx))) /\
     TakeChunk (bin_num c) h rb nb s = Done (ptr c, s')) \/
  (FindChunkPtr_loop n b rb nb fb s = Done (0, s) /\
     forall x cx, lives s x cx -> in_use cx = false -> b <= bin_num cx -> ~ eligible cx rb fb).
Proof using.
  intros Hwf Hnb Hm. pose proof Hwf as [W HB HA]. revert b.
  assert (Hnum : forall x cx, lives s x cx -> in_use cx = false -> 0 <= bin_num cx <= 20).
  { intros x cx Hx Hu. destruct (bn_num _ _ HB _ _ Hx) as [E|[_ ->]]; [|apply BinNumForSize_range].
    exfalso. assert (x ∈ (∅ : gset Z)); [|set_solver]. apply (bn_T _ _ HB). eauto. }
  induction n as [|n IH]; intros b Hb Hn; cbn [FindChunkPtr_loop].
  { right. split; [done|]. intros x cx Hx Hu Hbx. specialize (Hnum _ _ Hx Hu). lia. }
  destruct (bin_exists ∅ s b HB) as [l El]; [lia|]. rewrite (run_bin _ l) by done.
  assert (Hmem : forall x, x ∈ l <-> exists cx, lives s x cx /\ bin_num cx = b).
  { intros x. rewrite (bn_mem _ _ HB _ _ _ El). by rewrite Z2Nat.id by lia. }
  destruct (find_in_bin_spec s l rb fb) as (r & R & Hr).
  { intros x Hx. apply Hmem in Hx as (cx & Hcx & _). exists cx. apply Hcx. }
  rewrite (bind_Done _ _ _ _ _ R). destruct r as [h|].
  - left. destruct Hr as (l1 & l2 & -> & He & Hl1).
    destruct (proj1 (Hmem h)) as (c & Hc & Ebn); [set_solver|].
    rewrite (lives_chunk_of _ _ _ Hc) in He.
    destruct (TakeChunk_spec s h c rb nb) as (s' & R' & _); [done|done|lia|done|done|apply He|].
    exists h, c, s'. rewrite Ebn in R' |- *. split_and!; try done; [lia|].
    intros x cx Hx Hu Hbx Hex. destruct (decide (bin_num cx = b)) as [E|]; [|lia]. right.
    split; [done|]. assert (Hin : x ∈ l1 ++ h :: l2) by (apply Hmem; eauto).
    apply elem_of_app in Hin as [Hin|Hin].
    { exfalso. apply (Hl1 _ Hin). by rewrite (lives_chunk_of _ _ _ Hx). }
    apply elem_of_cons in Hin as [->|Hin]; [auto|]. right.
    pose proof (bn_sorted _ _ HB _ _ El) as HS. apply sorting.StronglySorted_app_1_r in HS.
    inversion HS as [|? ? _ HF]; subst. eapply Forall_forall in HF; [|exact Hin].
    unfold bin_lt in HF. by rewrite (lives_chunk_of _ _ _ Hx), (lives_chunk_of _ _ _ Hc) in HF.
  - destruct (IH (b + 1)) as [(h & c & s' & R' & Hl & H1 & H2 & He & Hmin & HT)|[R' Hno]]; [lia|lia| |].
    + left. exists h, c, s'. split_and!; try done; [lia|]. intros x cx Hx Hu Hbx Hex.
      destruct (decide (bin_num cx = b)) as [E|]; [|apply Hmin; try done; lia].
      exfalso. apply (Hr x); [apply Hmem; eauto|]. by rewrite (lives_chunk_of _ _ _ Hx).
    + right. split; [done|]. intros x cx Hx Hu Hbx Hex.
      destruct (decide (bin_num cx = b)) as [E|]; [|eapply Hno; try done; lia].
      apply (Hr x); [apply Hmem; eauto|]. by rewrite (lives_chunk_of _ _ _ Hx).
Qed.

(** Searching from the bin of the rounded size: the smallest eligible free
    chunk, the lowest-addressed among equals; or there is none. *)
Lemma FindChunkPtr_spec s rb nb fb :
  wf ∅ s -> 0 < nb <= rb -> rb mod 256 = 0 ->
  (exists c s', FindChunkPtr (BinNumForSize rb) rb nb fb s = Done (ptr c, s') /\
     free_chunk s c /\ eligible c rb fb /\
     (forall cx, free_chunk s cx -> eligible cx rb fb ->
        size c < size cx \/ (size c = size cx /\ ptr c <= ptr cx)) /\
     ptr c <> 0 /\ wf ∅ s' /\ config_eq s s' /\ next_allocation_id_ s' = next_allocation_id_ s + 1 /\
    same_pool s s' /\
     (forall p sz rq id, alloc s' p sz rq id <-> alloc s p sz rq id \/
       (p = ptr c /\ sz = taken_size s (size c) rb /\ rq = nb /\ id = next_allocation_id_ s)) /\
     (unstamped s -> coal ∅ s -> unstamped s' /\ coal ∅ s')) \/
  (FindChunkPtr (BinNumForSize rb) rb nb fb s = Done (0, s) /\
     forall cx, free_chunk s cx -> ~ eligible cx rb fb).
Proof using.
  intros Hwf Hnb Hm. pose proof Hwf as [W HB HA]. pose proof (BinNumForSize_range rb) as Hr.
  assert (Hbin : forall x cx, lives s x cx -> in_use cx = false ->
            bin_num cx = BinNumForSize (size cx) /\ bin_num cx <> -1).
  { intros x cx Hx Hu. destruct (bn_num _ _ HB _ _ Hx) as [E|[_ E]].
    - exfalso. assert (x ∈ (∅ : gset Z)); [|set_solver]. apply (bn_T _ _ HB). eauto.
    - split; [done|]. pose proof (BinNumForSize_range (size cx)). lia. }
  unfold FindChunkPtr.
  destruct (FindChunkPtr_loop_spec s rb nb fb (Z.to_nat (kNumBins - BinNumForSize rb))
              (BinNumForSize rb)) as
    [(h & c & s' & R & Hl & Hb & _ & He & Hmin & HT)|[R Hno]]; [done..|lia|unfold kNumBins; lia| |].
  - left. destruct (wf_lives_free_bin _ _ _ _ HB Hl Hb) as [Hu Ebn].
    destruct (TakeChunk_spec s h c rb nb) as (s'' & R' & W' & C' & I' & T' & A' & Q'); [done..|apply He|].
    assert (s'' = s') as -> by congruence.
    exists c, s'. pose proof (lives_bounds _ _ _ W Hl). split_and!; try done; [by exists h| |lia].
    intros cx (x & Hx & Hux) Hex. destruct (Hbin _ _ Hx Hux) as [Ex _].
    destruct (Hmin x cx) as [Hlt|(Eq & [->|Hk])]; try done.
    + rewrite Ex. by apply BinNumForSize_mono, Hex.
    + left. destruct (decide (size cx <= size c)) as [Hle|]; [|lia].
      apply BinNumForSize_mono in Hle. lia.
    + rewrite (lives_fun _ _ _ _ Hx Hl). lia.
    + unfold klt in Hk. lia.
  - right. split; [done|]. intros cx (x & Hx & Hux) Hex. destruct (Hbin _ _ Hx Hux) as [Ex _].
    apply (Hno x cx); try done. rewrite Ex. by apply BinNumForSize_mono, Hex.
Qed.
End find.
