(* ===== verification/BfcExtend.v ===== *)
(** * Growing the allocator: new and extended regions, [Extend] *)
From S2P Require Import Prelude Bfc BfcRegions BfcLinks BfcInv BfcOps BfcAlloc BfcDealloc.
From Stdlib Require Import Sorted.
From stdpp Require sorting.
From stdpp Require Import options.
#[local] Open Scope tf_monad_scope.

(** ** Region lists *)

Definition before (x y : AllocationRegion) : Prop := r_end_ptr x <= r_ptr y.

Lemma sorted_regions_iff rs : sorted_regions rs <-> StronglySorted before rs.
Proof.
  induction rs as [|r rs IH]; split; intros H.
  - constructor.
  - intros i j ri rj Hi. by rewrite lookup_nil in Hi.
  - constructor.
    + apply IH. intros i j ri rj Hi Hj Hij. by apply (H (S i) (S j) ri rj Hi Hj); lia.
    + apply Forall_lookup. intros i ri Hi. by apply (H 0%nat (S i) r ri); [done|done|lia].
  - inversion H as [|? ? HS HF]; subst. apply IH in HS. intros [|i] [|j] ri rj Hi Hj Hij; simplify_eq/=;
      [lia| |lia|].
    + by eapply (Forall_lookup_1 _ _ _ _ HF).
    + by apply (HS i j); [..|lia].
Qed.

Lemma reg_elem rs a b : reg rs a b <-> exists r, r ∈ rs /\ r_ptr r = a /\ r_end_ptr r = b.
Proof.
  split.
  - intros (i & r & Hi & ?). exists r. split; [by eapply list_elem_of_lookup_2|done].
  - intros (r & Hr & ?). apply list_elem_of_lookup_1 in Hr as [i Hi]. by exists i, r.
Qed.

Lemma rm_get_handle_elem rs r p :
  regions_ok rs -> r ∈ rs -> r_ptr r <= p < r_end_ptr r ->
  rm_get_handle rs p = r_handles r !! IndexFor r p.
Proof. intros Hok Hr. apply list_elem_of_lookup_1 in Hr as [i Hi]. by eapply rm_get_handle_eq. Qed.

Lemma regions_ok_insert l1 l2 r :
  regions_ok (l1 ++ l2) -> region_ok r ->
  (forall x, x ∈ l1 -> before x r) -> (forall x, x ∈ l2 -> before r x) -> regions_ok (l1 ++ r :: l2).
Proof.
  intros [HF HS] Hr H1 H2. apply Forall_app in HF as [HF1 HF2]. split.
  - apply Forall_app. split; [done|]. by constructor.
  - apply sorted_regions_iff. apply sorted_regions_iff in HS.
    apply sorting.StronglySorted_app in HS as (Hc & HS1 & HS2).
    apply sorting.StronglySorted_app. split_and!; [|done|].
    + intros x y Hx [->|Hy]%elem_of_cons; auto.
    + constructor; [done|]. by apply Forall_forall.
Qed.

Lemma regions_ok_remove l1 l2 r : regions_ok (l1 ++ r :: l2) -> regions_ok (l1 ++ l2).
Proof.
  intros [HF HS]. apply Forall_app in HF as [HF1 HF2]. inversion HF2; subst. split.
  - by apply Forall_app.
  - apply sorted_regions_iff. apply sorted_regions_iff in HS.
    apply sorting.StronglySorted_app in HS as (Hc & HS1 & HS2). inversion HS2; subst.
    apply sorting.StronglySorted_app. split_and!; [|done|done]. intros x y Hx Hy. apply Hc; set_solver.
Qed.

(** A removed region does not overlap the others. *)
Lemma regions_ok_apart l1 l2 r x :
  regions_ok (l1 ++ r :: l2) -> x ∈ l1 ++ l2 -> before x r \/ before r x.
Proof.
  intros [_ HS] Hx. apply sorted_regions_iff, sorting.StronglySorted_app in HS as (Hc & _ & HS).
  inversion HS as [|? ? _ HF]; subst. apply elem_of_app in Hx as [Hx|Hx].
  - left. apply Hc; set_solver.
  - right. by eapply Forall_forall in HF.
Qed.

Abbreviation sum_sizes := (foldr (fun r z => r_memory_size r + z) 0).

Lemma sum_sizes_app l1 l2 : sum_sizes (l1 ++ l2) = sum_sizes l1 + sum_sizes l2.
Proof. induction l1 as [|r l1 IH]; simpl; [done|]. rewrite IH. lia. Qed.

Lemma n_handles_for_eq m : 0 < m < 2 ^ 63 -> m mod 256 = 0 -> n_handles_for m = Z.to_nat (m / 256).
Proof.
  intros Hm Hmod. unfold n_handles_for. change kMinAllocationSize with 256.
  rewrite u64_small by (unfold in_u64; lia). f_equal. Z.div_mod_to_equations. lia.
Qed.

Section add_region.
Context (rs : list AllocationRegion) (p r : Z).
Context (Hok : regions_ok rs).
Context (Hb : 0 < p /\ 0 < r /\ r mod 256 = 0 /\ p + r < 2 ^ 63).
Context (HN : forall a b, reg rs a b -> b <= p \/ p + r <= a).

Lemma ub_split :
  (forall x, x ∈ take (upper_bound rs p) rs -> r_end_ptr x <= p) /\
  (forall x, x ∈ drop (upper_bound rs p) rs -> p + r <= r_ptr x).
Proof using Hok HN Hb.
  split; intros x Hx; apply list_elem_of_lookup_1 in Hx as [i Hi].
  - apply lookup_take_Some in Hi as [Hi Hlt]. by eapply upper_bound_before.
  - rewrite lookup_drop in Hi. pose proof (lookup_lt_Some _ _ _ Hi).
    destruct (HN (r_ptr x) (r_end_ptr x)) as [Hle|]; [by exists (upper_bound rs p + i)%nat, x| |done].
    exfalso. destruct (lookup_lt_is_Some_2 rs (upper_bound rs p)) as [y Hy]; [lia|].
    pose proof (upper_bound_at _ _ _ Hy). destruct (regions_ok_lookup _ _ _ Hok Hi).
    destruct (decide (i = 0%nat)) as [->|].
    + rewrite Nat.add_0_r in Hi. simplify_eq. lia.
    + pose proof (proj2 Hok _ _ _ _ Hy Hi ltac:(lia)). destruct (regions_ok_lookup _ _ _ Hok Hy). lia.
Qed.

Lemma region_new_ok : region_ok (AllocationRegion_new p r).
Proof using Hb.
  assert (E : u64 (p + r) = p + r) by (apply u64_small; unfold in_u64; lia).
  split; simpl; rewrite ?E; try lia. rewrite length_replicate. apply n_handles_for_eq; lia.
Qed.

Lemma AddAllocationRegion_spec :
  let rs' := AddAllocationRegion p r rs in
  regions_ok rs' /\ (forall a b, reg rs' a b <-> reg rs a b \/ (a = p /\ b = p + r)) /\
  (forall q, slot (reg rs) q -> rm_get_handle rs' q = rm_get_handle rs q) /\
  (forall q, p <= q < p + r -> rm_get_handle rs' q = Some inv) /\
  sum_sizes rs' = sum_sizes rs + r.
Proof using Hok HN Hb.
  intros rs'. destruct ub_split as [H1 H2]. pose proof region_new_ok as Hn.
  pose proof (take_drop (upper_bound rs p) rs) as Etd.
  assert (Een : r_end_ptr (AllocationRegion_new p r) = p + r).
  { simpl. by rewrite u64_small by (unfold in_u64; lia). }
  assert (Hok' : regions_ok rs').
  { apply regions_ok_insert; [by rewrite Etd|done| |].
    - intros x Hx. by apply H1.
    - intros x Hx. unfold before. rewrite Een. by apply H2. }
  assert (Hel : forall x, x ∈ rs' <-> x ∈ rs \/ x = AllocationRegion_new p r).
  { intros x. rewrite <-Etd at 1. unfold rs', AddAllocationRegion. set_solver. }
  split_and!; [done| | | |].
  - intros a b. rewrite !reg_elem. split.
    + intros (x & Hx & <- & <-). apply Hel in Hx as [Hx| ->]; [eauto|].
      right. split; [done|]. by rewrite Een.
    + intros [(x & Hx & <- & <-)|[-> ->]].
      * exists x. rewrite Hel. auto.
      * exists (AllocationRegion_new p r). rewrite Hel. auto.
  - intros q (a & b & Hab & Hq & _). apply reg_elem in Hab as (x & Hx & <- & <-).
    rewrite !(rm_get_handle_elem _ x); try done. apply Hel. auto.
  - intros q Hq. assert (Hq' : r_ptr (AllocationRegion_new p r) <= q <
      r_end_ptr (AllocationRegion_new p r)) by (rewrite Een; simpl; lia).
    rewrite (rm_get_handle_elem _ (AllocationRegion_new p r)); [|done|apply Hel; auto|done].
    pose proof (IndexFor_lt _ _ Hn Hq') as Hlt. simpl in Hlt |- *. rewrite length_replicate in Hlt.
    by apply lookup_replicate_2.
  - unfold rs', AddAllocationRegion. rewrite sum_sizes_app. simpl.
    assert (E := f_equal sum_sizes Etd). rewrite sum_sizes_app in E. lia.
Qed.

Lemma extend_ok x :
  region_ok x -> r_end_ptr x = p -> region_ok (extend r x) /\ r_end_ptr (extend r x) = p + r /\
  r_memory_size (extend r x) = r_memory_size x + r /\
  (forall q, r_ptr x <= q < p -> r_handles (extend r x) !! IndexFor (extend r x) q
                               = r_handles x !! IndexFor x q) /\
  (forall q, p <= q < p + r -> r_handles (extend r x) !! IndexFor (extend r x) q = Some inv).
Proof using Hb.
  intros [o1 o2 o3 o4 o5 o6] Ex.
  assert (Em : u64 (r_memory_size x + r) = r_memory_size x + r) by (apply u64_small; unfold in_u64; lia).
  assert (Ee : u64 (r_end_ptr x + r) = p + r) by (rewrite u64_small by (unfold in_u64; lia); lia).
  assert (Emod : (r_memory_size x + r) mod 256 = 0) by (apply add_mod_0; lia).
  assert (En : n_handles_for (r_memory_size x + r) = Z.to_nat ((r_memory_size x + r) / 256))
    by (apply n_handles_for_eq; [lia|done]).
  assert (Hle : (length (r_handles x) <= Z.to_nat ((r_memory_size x + r) / 256))%nat).
  { rewrite o6. apply Z2Nat.inj_le; [apply Z.div_pos; lia..|]. apply Z.div_le_mono; lia. }
  assert (Eh : r_handles (extend r x) = r_handles x ++
            replicate (Z.to_nat ((r_memory_size x + r) / 256) - length (r_handles x)) inv).
  { unfold extend. simpl. unfold vec_resize. rewrite Em, En, take_ge by done. done. }
  assert (Hr : region_ok (extend r x)).
  { split; [done| |by simpl; rewrite Em| | |]; try (simpl; rewrite ?Em, ?Ee; lia).
    rewrite Eh, length_app, length_replicate. simpl. rewrite Em. lia. }
  split_and!; [done|done|done| |].
  - intros q Hq. change (IndexFor (extend r x) q) with (IndexFor x q). rewrite Eh, lookup_app_l; [done|].
    apply IndexFor_lt; [by split|lia].
  - intros q Hq. assert (Hlt : (IndexFor (extend r x) q < length (r_handles (extend r x)))%nat).
    { apply IndexFor_lt; [done|]. simpl. rewrite Ee. lia. }
    rewrite Eh in Hlt |- *. rewrite length_app, length_replicate in Hlt.
    assert (Hge : (length (r_handles x) <= IndexFor (extend r x) q)%nat).
    { rewrite IndexFor_eq; [|done|simpl; rewrite Ee; lia]. rewrite o6. simpl.
      apply Z2Nat.inj_le; [apply Z.div_pos; lia..|]. apply Z.div_le_mono; lia. }
    rewrite lookup_app_r by done. apply lookup_replicate_2. lia.
Qed.

Lemma extend_region_spec i x :
  rs !! i = Some x -> r_end_ptr x = p ->
  let rs' := <[i := extend r x]> rs in
  regions_ok rs' /\
  (forall a b, reg rs' a b <-> (reg rs a b /\ a <> r_ptr x) \/ (a = r_ptr x /\ b = p + r)) /\
  (forall q, slot (reg rs) q -> rm_get_handle rs' q = rm_get_handle rs q) /\
  (forall q, p <= q < p + r -> rm_get_handle rs' q = Some inv) /\
  sum_sizes rs' = sum_sizes rs + r.
Proof using Hok HN Hb.
  intros Hi Ex rs'. pose proof (regions_ok_lookup _ _ _ Hok Hi) as Hx.
  destruct (extend_ok x Hx Ex) as (He & Ee & Em & Hold & Hnew).
  destruct (list_elem_of_split_length _ _ _ Hi) as (l1 & l2 & Ers & El).
  assert (Ers' : rs' = l1 ++ extend r x :: l2).
  { unfold rs'. rewrite Ers, El, insert_app_r_alt by lia. by rewrite Nat.sub_diag. }
  assert (Hrem : regions_ok (l1 ++ l2)) by (apply (regions_ok_remove _ _ x); by rewrite <-Ers).
  assert (Hap : forall y, y ∈ l1 ++ l2 -> before y x \/ before x y).
  { intros y. apply regions_ok_apart. by rewrite <-Ers. }
  assert (Hord : (forall y, y ∈ l1 -> before y x) /\ (forall y, y ∈ l2 -> before x y)).
  { destruct Hok as [_ HS]. rewrite Ers in HS. apply sorted_regions_iff in HS.
    apply sorting.StronglySorted_app in HS as (Hc & _ & HS). inversion HS as [|? ? _ HF]; subst. split.
    - intros y Hy. apply Hc; set_solver.
    - intros y Hy. by eapply Forall_forall in HF. }
  assert (Hok' : regions_ok rs').
  { rewrite Ers'. apply regions_ok_insert; [done|done| |].
    - intros y Hy. by apply Hord.
    - intros y Hy. unfold before. rewrite Ee. apply Hord in Hy as Hxy. unfold before in Hxy.
      destruct (HN (r_ptr y) (r_end_ptr y)) as [Hle|]; [| |done].
      + apply reg_elem. exists y. rewrite Ers. set_solver.
      + assert (y ∈ rs) as Hy' by (rewrite Ers; set_solver).
        apply list_elem_of_lookup_1 in Hy' as [j Hj]. destruct (regions_ok_lookup _ _ _ Hok Hj). lia. }
  assert (Hel : forall y, y ∈ rs' <-> y ∈ l1 ++ l2 \/ y = extend r x) by (rewrite Ers'; set_solver).
  assert (Hel0 : forall y, y ∈ rs <-> y ∈ l1 ++ l2 \/ y = x) by (rewrite Ers; set_solver).
  split_and!; [done| | | |].
  - intros a b. rewrite !reg_elem. split.
    + intros (y & Hy & <- & <-). apply Hel in Hy as [Hy| ->]; [|right; by rewrite Ee].
      left. split; [exists y; rewrite Hel0; auto|]. destruct (Hap y Hy) as [Hbf|Hbf]; unfold before in Hbf.
      * assert (y ∈ rs) as Hy' by (rewrite Hel0; auto).
        apply list_elem_of_lookup_1 in Hy' as [j Hj]. destruct (regions_ok_lookup _ _ _ Hok Hj). lia.
      * destruct Hx. lia.
    + intros [[(y & Hy & <- & <-) Hne]|[-> ->]].
      * apply Hel0 in Hy as [Hy| ->]; [|done]. exists y. rewrite Hel. auto.
      * exists (extend r x). rewrite Hel. auto.
  - intros q (a & b & Hab & Hq & _). apply reg_elem in Hab as (y & Hy & <- & <-).
    rewrite (rm_get_handle_elem rs y) by done. apply Hel0 in Hy as [Hy| ->].
    + rewrite (rm_get_handle_elem _ y); [done|done|apply Hel; auto|done].
    + rewrite (rm_get_handle_elem _ (extend r x)); [|done|apply Hel; auto|].
      * apply Hold. lia.
      * rewrite Ee. simpl. lia.
  - intros q Hq. rewrite (rm_get_handle_elem _ (extend r x)); [by apply Hnew|done|apply Hel; auto|].
    rewrite Ee. simpl. destruct Hx. lia.
  - rewrite Ers', Ers, !sum_sizes_app. cbn [foldr]. rewrite Em. lia.
Qed.
End add_region.

(** ** The chain of chunks of a region *)

Section chains.
Context `{SA : SubAllocator} {SL : SubAllocatorLaws SA}.
Abbreviation B := BFCAllocator.

Lemma path_from s a b : wf_core s -> rg s a b -> forall n h c,
  lives s h c -> a <= ptr c < b -> b - ptr c <= Z.of_nat n ->
  exists F, freelist (ck s) h (h :: F) /\ NoDup (h :: F) /\
    (forall x, x ∈ h :: F <-> exists cx, lives s x cx /\ ptr c <= ptr cx < b).
Proof using.
  intros W Hab. pose proof (regions_ok_geometry _ (wc_regions _ W)) as G.
  pose proof (wc_linked _ W) as L.
  induction n as [|n IH]; intros h c Hl Hc Hn; [lia|].
  destruct (lk_range _ _ _ L _ _ Hl) as (a' & b' & Hab' & Ha & Hb & Hnx & _).
  pose proof (lk_size _ _ _ L _ _ Hl) as [Hs _].
  destruct (geo_unique _ a b a' b' (ptr c) G Hab Hab') as [<- <-]; [lia|lia|].
  assert (Hge : forall x cx, lives s x cx -> ptr c <= ptr cx -> x = h \/ ptr c + size c <= ptr cx).
  { intros x cx Hx Hle. destruct (decide (x = h)) as [|Hne]; [auto|]. right.
    pose proof (lk_size _ _ _ L _ _ Hx).
    destruct (live_disjoint _ _ _ G L _ _ _ _ Hl Hx) as [?|?]; [done|lia|lia]. }
  destruct (decide (next c = inv)) as [En|En].
  - exists []. split; [|split; [apply NoDup_singleton|]].
    + split; [done|]. exists c. by destruct Hl.
    + intros x. rewrite list_elem_of_singleton. split.
      * intros ->. exists c. split; [done|lia].
      * intros (cx & Hx & Hr). apply Hnx in En. destruct (Hge x cx Hx); [lia|done|lia].
  - destruct (lk_next _ _ _ L _ _ Hl En) as (cn & Hln & Epn & _).
    assert (ptr c + size c <> b) by (by rewrite <-Hnx).
    destruct (IH (next c) cn Hln) as (F & HF & HN & Hm); [lia|lia|].
    exists (next c :: F). split; [|split].
    + split; [done|]. exists c. split; [by destruct Hl|done].
    + constructor; [|done]. rewrite Hm. intros (cx & Hx & Hr).
      rewrite (lives_fun _ _ _ _ Hx Hl) in Hr. lia.
    + intros x. rewrite elem_of_cons, Hm. split.
      * intros [->|(cx & Hx & Hr)]; [exists c; split; [done|lia]|]. exists cx. split; [done|lia].
      * intros (cx & Hx & Hr). destruct (Hge x cx Hx) as [->|Hge']; [lia|auto|]. right.
        exists cx. split; [done|lia].
Qed.

Lemma NoDup_slots (cs : list Chunk) F :
  NoDup F -> (forall x, x ∈ F -> is_Some (lookup_chunk cs x)) -> (length F <= length cs)%nat.
Proof using.
  intros HN HF. rewrite <-(length_seq (length cs) 0), <-(length_fmap Z.of_nat).
  apply submseteq_length, NoDup_submseteq; [done|]. intros x Hx.
  apply HF, lookup_chunk_is_Some in Hx. apply list_elem_of_fmap. exists (Z.to_nat x).
  rewrite Z2Nat.id by lia. split; [done|]. apply elem_of_seq. lia.
Qed.

(** The handles of a region, in address order. *)
Lemma region_path s a b :
  wf_core s -> rg s a b ->
  exists h F, gh s a = Some h /\ freelist (ck s) h (h :: F) /\ NoDup (h :: F) /\
    (forall x, x ∈ h :: F <-> exists cx, lives s x cx /\ a <= ptr cx < b) /\
    (length (h :: F) <= length (chunks_ s))%nat.
Proof using.
  intros W Hab. pose proof (regions_ok_geometry _ (wc_regions _ W)) as G.
  destruct (geo_bounds _ G _ _ Hab) as (B1 & B2 & _).
  destruct (lk_first _ _ _ (wc_linked _ W) _ _ Hab) as (h & c & Hl & Ep).
  change (live (ck s) (gh s) (rg s) h c) with (lives s h c) in Hl.
  destruct (path_from s a b W Hab (Z.to_nat (b - a)) h c Hl) as (F & HF & HN & Hm); [lia|lia|].
  rewrite Ep in Hm. exists h, F. split_and!; try done.
  - rewrite <-Ep. apply Hl.
  - apply NoDup_slots; [done|]. intros x Hx. apply Hm in Hx as (cx & Hx & _). exists cx. apply Hx.
Qed.

Lemma last_chunk_path (s : B) : forall F h fuel,
  freelist (ck s) h (h :: F) -> (forall x, x ∈ h :: F -> x <> inv) -> (length F < fuel)%nat ->
  exists hl cl, last_chunk fuel h s = Done (hl, s) /\ hl ∈ h :: F /\ ck s hl = Some cl /\ next cl = inv.
Proof using.
  induction F as [|y F IH]; intros h fuel HF Hne Hlt; (destruct fuel as [|fuel]; [simpl in Hlt; lia|]);
    destruct HF as (_ & c & Hc & HF); cbn [last_chunk]; rewrite (run_chunk _ _ _ _ Hc).
  - simpl in HF. rewrite HF, Z.eqb_refl. cbn [negb]. exists h, c. split_and!; try done. set_solver.
  - destruct HF as (Ey & HF). rewrite Ey. assert (HF' : freelist (ck s) y (y :: F)) by done.
    rewrite (proj2 (Z.eqb_neq y inv)) by (apply Hne; set_solver). cbn [negb].
    destruct (IH y fuel) as (hl & cl & R & Hin & Hk & Hn); [done|set_solver|simpl in Hlt; lia|].
    exists hl, cl. split_and!; try done. set_solver.
Qed.

(** The last chunk of the region [a, b), found in a state that agrees on it. *)
Lemma region_last s s' a b fuel :
  wf_core s -> rg s a b -> (forall x c, lives s x c -> ck s' x = Some c) ->
  (length (chunks_ s) <= fuel)%nat ->
  exists h hl cl, gh s a = Some h /\ last_chunk fuel h s' = Done (hl, s') /\ lives s hl cl /\
    next cl = inv /\ ptr cl + size cl = b.
Proof using.
  intros W Hab Hag Hfuel. pose proof (regions_ok_geometry _ (wc_regions _ W)) as G.
  destruct (region_path s a b W Hab) as (h & F & Hg & HF & HN & Hm & Hlen).
  destruct (last_chunk_path s' F h fuel) as (hl & cl & R & Hin & Hk & Hn).
  - eapply freelist_ext; [|exact HF]. intros x Hx c Hc. apply Hm in Hx as (cx & Hx & _).
    exists cx. split; [by apply Hag|]. destruct Hx as [Hx _]. congruence.
  - intros x Hx. apply Hm in Hx as (cx & Hx & _). by apply (live_ne_inv _ _ _ (wc_linked _ W)) in Hx.
  - simpl in Hlen. lia.
  - apply Hm in Hin as (cx & Hx & Hr). rewrite (Hag _ _ Hx) in Hk. simplify_eq.
    exists h, hl, cl. split_and!; try done.
    destruct (lk_range _ _ _ (wc_linked _ W) _ _ Hx) as (a' & b' & Hab' & Ha & Hb & Hnx & _).
    pose proof (lk_size _ _ _ (wc_linked _ W) _ _ Hx) as [Hs _].
    destruct (geo_unique _ a b a' b' (ptr cl) G Hab Hab') as [<- <-]; [lia|lia|]. by apply Hnx.
Qed.
End chains.

(** * [Extend]: recording a new block, and the growth and backpedalling loops *)

Section grow.
Context `{SA : SubAllocator} {SL : SubAllocatorLaws SA}.
Abbreviation B := BFCAllocator.

Definition covered (s : B) (x : Z) : Prop := exists a b, rg s a b /\ a <= x < b.

(** What changes when the [r] bytes at [p] become part of the allocator. *)
Record grown (p r : Z) (s s' : B) : Prop := {
  gr_eq : s' = with_bins (bins_ s') (with_free_list (free_chunks_list_ s')
                 (with_regions (region_manager_ s') (with_chunks (chunks_ s') s)));
  gr_cover x : covered s' x <-> covered s x \/ p <= x < p + r;
  gr_slot q : slot (rg s) q -> slot (rg s') q;
  gr_total : sum_sizes (region_manager_ s') = sum_sizes (region_manager_ s) + r;
  gr_usage : usage_sum (chunks_ s') = usage_sum (chunks_ s);
  gr_allocs q sz rq id : alloc s' q sz rq id <-> alloc s q sz rq id;
  gr_slots h c : ck s h = Some c -> slot (rg s) (ptr c) ->
    exists c', ck s' h = Some c' /\ slot (rg s') (ptr c')
}.

Lemma covered_frame s s' x : frame s s' -> covered s' x <-> covered s x.
Proof using. intros F. unfold covered. by setoid_rewrite (fr_reg _ _ F). Qed.

Lemma grown_frame p r s s' s'' : grown p r s s' -> frame s' s'' -> grown p r s s''.
Proof using.
  intros [g1 g2 g3 g4 g5 g6 g7] F. split.
  - rewrite (fr_eq _ _ F), g1. done.
  - intros x. by rewrite (covered_frame _ _ _ F).
  - intros q Hq. rewrite slot_iff by (intros; apply (fr_reg _ _ F)). auto.
  - rewrite <-g4. apply sum_sizes_fmap, (fr_sizes _ _ F).
  - rewrite <-g5. apply F.
  - intros. rewrite (fr_allocs _ _ F). apply g6.
  - intros h c Hc Hs. destruct (g7 _ _ Hc Hs) as (c' & Hc' & Hs').
    destruct (fr_slots _ _ F _ _ Hc') as (c'' & Hc'' & E). exists c''. split; [done|].
    rewrite slot_iff by (intros; apply (fr_reg _ _ F)). destruct E as [->|?]; done.
Qed.

Lemma AllocateChunk_with_regions s rs h cs fl :
  AllocateChunk s = Done (h, with_chunks cs (with_free_list fl s)) ->
  AllocateChunk (with_regions rs s) = Done (h, with_chunks cs (with_free_list fl (with_regions rs s))).
Proof using.
  unfold AllocateChunk, bind, get, ChunkFromHandle, modify, ret. simpl.
  destruct (negb (free_chunks_list_ s =? inv)); simpl.
  - destruct (lookup_chunk (chunks_ s) (free_chunks_list_ s)); [|done]. intros E. simplify_eq.
    by destruct s; simplify_eq/=.
  - intros E. simplify_eq. by destruct s; simplify_eq/=.
Qed.

(** The state after the new chunk [hn] has been linked in, before coalescing:
    [g] is what happens to the chunks that were there. *)
Lemma link_new_chunk s s5 p r hn cn g :
  wf_core s -> binned ∅ s -> 0 < r ->
  s5 = with_free_list (free_chunks_list_ s5)
         (with_regions (region_manager_ s5) (with_chunks (chunks_ s5) s)) ->
  regions_ok (region_manager_ s5) -> linked (ck s5) (gh s5) (rg s5) ->
  Z.of_nat (length (chunks_ s5)) <= inv -> (forall c, ~ lives s hn c) ->
  (forall x, ck s5 x = if decide (x = hn) then Some cn else g x <$> ck s x) ->
  (forall x cx, lives s5 x cx <-> (x = hn /\ cx = cn) \/
     (x <> hn /\ exists c0, lives s x c0 /\ cx = g x c0)) ->
  (forall x c, ~ (exists c', lives s x c') -> g x c = c) ->
  (forall x c, g x c = c \/ (next c = inv /\ g x c = set_next hn c)) ->
  size cn = r -> ptr cn = p -> allocation_id cn = -1 -> bin_num cn = -1 -> freed_at_count cn = 0 ->
  next cn = inv ->
  free_ok (ck s5) (free_chunks_list_ s5) (fun x => dead s x /\ x <> hn) ->
  (forall x, covered s5 x <-> covered s x \/ p <= x < p + r) ->
  (forall q, slot (rg s) q -> slot (rg s5) q) -> slot (rg s5) p ->
  sum_sizes (region_manager_ s5) = sum_sizes (region_manager_ s) + r ->
  usage_sum (chunks_ s5) = usage_sum (chunks_ s) ->
  wf_core s5 /\ binned {[hn]} s5 /\ grown p r s s5 /\
  (unstamped s -> unstamped s5) /\ (coal ∅ s -> coal {[hn]} s5).
Proof using.
  intros W HB Hr E5 Rok L5 Len Dn Hck V Hg0 Hg Zn Pn An Bn Fn Xn Hfree Hcov Hslot Hp Hsum Hus.
  assert (Hgf : forall x c, size (g x c) = size c /\ ptr (g x c) = ptr c /\
    requested_size (g x c) = requested_size c /\ allocation_id (g x c) = allocation_id c /\
    bin_num (g x c) = bin_num c /\ freed_at_count (g x c) = freed_at_count c /\
    in_use (g x c) = in_use c /\ (next (g x c) = next c \/ next (g x c) = hn)).
  { intros x c. destruct (Hg x c) as [->|[_ ->]]; split_and!; auto. }
  assert (TR : transforms s s5 (fun x cx => x = hn /\ cx = cn) (fun x => x <> hn) g).
  { split; [done| | |].
    - intros x c [-> ->]. split; [by apply in_use_false|done].
    - intros x c _. destruct (Hgf x c) as (_&_&_&_&->&_&->&_). done.
    - intros x c Hx _. destruct (Hgf x c) as (->&->&->&->&_). split_and!; try done.
      intros ->. by apply Dn in Hx. }
  split_and!.
  - split; [done|done|done| |].
    + refine (free_ok_ext _ _ _ _ _ _ _ Hfree); [intros x _ c Hc; by exists c|]. intros x.
      unfold dead at 2. rewrite Hck. split.
      * intros [[Hx Hd] Hne]. rewrite decide_False by done. split; [by apply fmap_is_Some|].
        intros c Hc. apply V in Hc as [[? _]|(_ & c0 & Hc0 & _)]; [done|]. by apply Hd in Hc0.
      * intros [Hx Hd]. destruct (decide (x = hn)) as [->|Hne].
        { exfalso. apply (Hd cn), V. auto. }
        split; [|done]. split; [by apply fmap_is_Some in Hx|]. intros c Hc.
        apply (Hd (g x c)), V. right. eauto.
    + intros x c Hc Hd. rewrite Hck in Hc. destruct (decide (x = hn)) as [->|Hne].
      { exfalso. apply (Hd cn), V. auto. }
      assert (Hnl : forall c', ~ lives s x c').
      { intros c' Hc'. apply (Hd (g x c')), V. right. eauto. }
      apply fmap_Some in Hc as (c0 & Hc0 & ->). rewrite Hg0 by naive_solver.
      by eapply (wc_dead _ W).
  - apply (transforms_binned s s5 _ _ _ ∅ {[hn]} TR); [by rewrite E5|done|]. set_solver.
  - split; try done.
    + assert (Eb : bins_ s5 = bins_ s) by (by rewrite E5). rewrite Eb. etrans; [exact E5|done].
    + intros. by eapply transforms_alloc.
    + intros h c Hc Hs. rewrite Hck. destruct (decide (h = hn)) as [->|].
      * exists cn. by rewrite Pn.
      * exists (g h c). rewrite Hc. split; [done|]. destruct (Hgf h c) as (_ & -> & _). auto.
  - intros HU x c Hx. apply V in Hx as [[-> ->]|(_ & c0 & Hc0 & ->)]; [done|].
    destruct (Hgf x c0) as (_&_&_&_&_&->&_). by eapply HU.
  - intros HC x c c2 Hx Hy U1 U2. apply V in Hx as [[-> ->]|(_ & c0 & Hc0 & ->)]; [set_solver|].
    destruct (Hgf x c0) as (_&_&_&_&_&_&E1&[E2|E2]); [|rewrite E2; set_solver].
    rewrite E1 in U1. rewrite E2 in Hy |- *.
    apply V in Hy as [[-> ->]|(_ & c1 & Hc1 & ->)]; [set_solver|].
    destruct (Hgf (next c0) c1) as (_&_&_&_&_&_&E3&_). rewrite E3 in U2.
    by destruct (HC x c0 c1 Hc0 Hc1 U1 U2).
Qed.

Lemma run_update_again {X} h c f cs s (k : unit -> M B X) :
  is_Some (lookup_chunk cs h) ->
  bind (update_chunk h f) k (with_chunks (<[Z.to_nat h := c]> cs) s)
    = k tt (with_chunks (<[Z.to_nat h := f c]> cs) s).
Proof using.
  intros Hh. rewrite (run_update h c).
  - rewrite chunks_with_chunks, chunks_twice, list_insert_insert, decide_True by done. done.
  - rewrite chunks_with_chunks, lookup_chunk_insert by done. by rewrite decide_True.
Qed.

Definition new_chunk (c0 : Chunk) (p r : Z) : Chunk :=
  mkChunk r (requested_size c0) (-1) p inv inv (bin_num c0) 0.

(** The first part of [AddRegionChunk]: a fresh chunk for [p], entered in the table. *)
Lemma new_chunk_run s rs p r :
  wf_core s -> regions_ok rs -> slot (reg rs) p ->
  exists hn c0 rs2 cs fl,
    (forall k : Z -> M B unit,
      (h <~ AllocateChunk;;
       update_chunk h (set_ptr p);;;
       update_chunk h (set_size r);;;
       update_chunk h (set_allocation_id (-1));;;
       update_chunk h (set_prev inv);;;
       update_chunk h (set_next inv);;;
       update_chunk h (set_freed_at_count 0);;;
       c <~ ChunkFromHandle h;;
       set_handle (ptr c) h;;;
       k h) (with_regions rs s)
      = k hn (with_chunks cs (with_free_list fl (with_regions rs2 s)))) /\
    rm_set_handle rs p hn = Some rs2 /\ bin_num c0 = -1 /\
    hn <> inv /\ (forall c, ~ lives s hn c) /\
    (forall x, lookup_chunk cs x = if decide (x = hn) then Some (new_chunk c0 p r) else ck s x) /\
    free_ok (lookup_chunk cs) fl (fun x => dead s x /\ x <> hn) /\
    usage_sum cs = usage_sum (chunks_ s) /\ Z.of_nat (length cs) <= inv.
Proof using.
  intros W Rok Hp.
  destruct (AllocateChunk_spec s W) as
    (hn & c0 & cs0 & fl & R0 & L0 & Nn & Dn & A0 & B0 & F0 & S0 & M0 & _).
  destruct (rm_set_handle_spec rs p hn Rok Hp) as (rs2 & Hrs & _).
  apply (AllocateChunk_with_regions s rs) in R0.
  assert (Z0 := L0 hn). rewrite decide_True in Z0 by done.
  destruct (insert_facts cs0 hn c0 (new_chunk c0 p r) Z0) as (cs & Ecs & Lcs & Mcs & Scs).
  exists hn, c0, rs2, cs, fl. split_and!; try done.
  - intros k. rewrite (bind_Done _ _ _ _ _ R0).
    rewrite (run_update hn c0) by done. rewrite chunks_with_chunks, chunks_twice.
    rewrite !run_update_again by eauto.
    assert (E : set_freed_at_count 0 (set_next inv (set_prev inv (set_allocation_id (-1)
      (set_size r (set_ptr p c0))))) = new_chunk c0 p r) by done.
    rewrite E, Ecs.
    erewrite run_chunk; [|autorewrite with bfc_st; rewrite Lcs; by rewrite decide_True].
    rewrite (run_set_handle _ _ rs2) by (by autorewrite with bfc_st).
    by autorewrite with bfc_st.
  - intros x. rewrite Lcs, L0. by case_decide.
  - refine (free_ok_ext _ _ _ _ _ _ (fun x => iff_refl _) F0). intros x [Hx Hxn] cx Hcx.
    rewrite Lcs, decide_False by done. eauto.
  - rewrite Scs, S0. unfold usage. rewrite (in_use_false c0), in_use_false by done. lia.
  - congruence.
Qed.

Section add.
Context (s : B) (p r : Z) (W : wf_core s) (HB : binned ∅ s).
Context (Hb : 0 < p /\ 0 < r /\ r mod 256 = 0 /\ p + r < 2 ^ 63).
Context (HN : forall a b, rg s a b -> b <= p \/ p + r <= a).

(** A separate region. *)
Lemma add_new_region :
  exists hn s5,
    (modify (with_regions (AddAllocationRegion p r (region_manager_ s)));;;
     h <~ AllocateChunk;;
     update_chunk h (set_ptr p);;;
     update_chunk h (set_size r);;;
     update_chunk h (set_allocation_id (-1));;;
     update_chunk h (set_prev inv);;;
     update_chunk h (set_next inv);;;
     update_chunk h (set_freed_at_count 0);;;
     c <~ ChunkFromHandle h;;
     set_handle (ptr c) h;;;
     ret tt;;;
     h' <~ TryToCoalesce h false;; InsertFreeChunkIntoBin h') s
    = (h' <~ TryToCoalesce hn false;; InsertFreeChunkIntoBin h') s5 /\
    wf_core s5 /\ binned {[hn]} s5 /\ grown p r s s5 /\
    (unstamped s -> unstamped s5) /\ (coal ∅ s -> coal {[hn]} s5) /\
    exists c, lives s5 hn c /\ size c = r /\ freed_at_count c = 0.
Proof using All.
  destruct (AddAllocationRegion_spec (region_manager_ s) p r (wc_regions _ W) Hb HN) as
    (Rok & Rreg & Rold & Rnew & Rsum).
  set (rs := AddAllocationRegion p r (region_manager_ s)) in *.
  assert (Hslot : slot (reg rs) p).
  { exists p, (p + r). split; [apply Rreg; auto|]. rewrite Z.sub_diag. split; [lia|done]. }
  destruct (new_chunk_run s rs p r W Rok Hslot) as
    (hn & c0 & rs2 & cs & fl & R & Hrs & B0 & Nn & Dn & Lk & Fr & Us & Len).
  destruct (rm_set_handle_spec rs p hn Rok Hslot) as (rs2' & Hrs' & Rok2 & Rreg2 & Rgh2 & Rsz2).
  assert (rs2' = rs2) as -> by congruence. set (cn := new_chunk c0 p r) in *.
  set (s5 := with_chunks cs (with_free_list fl (with_regions rs2 s))) in *.
  assert (Hreg : forall a b, rg s5 a b <-> rg s a b \/ (a = p /\ b = p + r)).
  { intros a b. unfold rg at 1. simpl. by rewrite Rreg2, Rreg. }
  assert (Hold : forall q, slot (rg s) q -> slot (reg rs) q).
  { intros q (a & b & Hab & Hq). exists a, b. split; [apply Rreg; auto|done]. }
  assert (Hnp : forall q, slot (rg s) q -> q <> p).
  { intros q (a & b & Hab & Hq & _) ->. specialize (HN _ _ Hab). lia. }
  assert (Hgh : forall q, slot (rg s) q -> gh s5 q = gh s q).
  { intros q Hq. unfold gh. simpl. rewrite Rgh2 by auto. rewrite decide_False by auto. by apply Rold. }
  assert (Hgn : forall q, p <= q < p + r -> (q - p) mod 256 = 0 ->
            gh s5 q = Some (if decide (q = p) then hn else inv)).
  { intros q Hq Hm. unfold gh. simpl. rewrite Rgh2.
    - case_decide; [done|]. by apply Rnew.
    - exists p, (p + r). split; [apply Rreg; auto|done]. }
  assert (Sn : size cn = r /\ ptr cn = p /\ prev cn = inv /\ next cn = inv) by done.
  assert (V := grow_new_live (ck s) (gh s) (rg s) (wc_linked _ W) p r hn cn Nn Dn
    ltac:(lia) Sn HN (rg s5) Hreg (ck s5) (gh s5) Lk Hgh Hgn).
  assert (L5 := linked_grow_new (ck s) (gh s) (rg s) (wc_linked _ W) p r hn cn Nn Dn
    ltac:(lia) Sn HN (rg s5) Hreg (ck s5) (gh s5) Lk Hgh Hgn).
  destruct (link_new_chunk s s5 p r hn cn (fun _ c => c)) as (W5 & B5 & G5 & U5 & C5); try done.
  - lia.
  - intros x. unfold ck at 1. simpl. rewrite Lk. case_decide; [done|]. by destruct (ck s x).
  - intros x cx. unfold lives. rewrite V. split; [|naive_solver].
    intros [?|[? ?]]; [auto|]. right. eauto.
  - auto.
  - intros x. unfold covered. setoid_rewrite Hreg. naive_solver.
  - intros q (a & b & Hab & Hq). exists a, b. split; [apply Hreg; auto|done].
  - exists p, (p + r). rewrite Hreg, Z.sub_diag. split; [auto|]. split; [lia|done].
  - simpl. rewrite <-Rsum. by apply sum_sizes_fmap.
  - exists hn, s5. split_and!; try done.
    + unfold bind at 1, modify. rewrite R. done.
    + exists cn. split; [|done]. apply V. auto.
Qed.

(** The region that ends where the new block starts is extended. *)
Lemma add_extended_region i x :
  region_manager_ s !! i = Some x -> r_end_ptr x = p ->
  exists hn s5,
    (modify (with_regions (<[i := extend r x]> (region_manager_ s)));;;
     h <~ AllocateChunk;;
     update_chunk h (set_ptr p);;;
     update_chunk h (set_size r);;;
     update_chunk h (set_allocation_id (-1));;;
     update_chunk h (set_prev inv);;;
     update_chunk h (set_next inv);;;
     update_chunk h (set_freed_at_count 0);;;
     c <~ ChunkFromHandle h;;
     set_handle (ptr c) h;;;
     (first <~ (match region_get_handle (extend r x) (r_ptr (extend r x)) with
                | Some f => ret f | None => crash end);;
      s <~ get;;
      prev <~ last_chunk (S (length (chunks_ s))) first;;
      update_chunk h (set_prev prev);;;
      update_chunk prev (set_next h));;;
     h' <~ TryToCoalesce h false;; InsertFreeChunkIntoBin h') s
    = (h' <~ TryToCoalesce hn false;; InsertFreeChunkIntoBin h') s5 /\
    wf_core s5 /\ binned {[hn]} s5 /\ grown p r s s5 /\
    (unstamped s -> unstamped s5) /\ (coal ∅ s -> coal {[hn]} s5) /\
    exists c, lives s5 hn c /\ size c = r /\ freed_at_count c = 0.
Proof using All.
  intros Hi Ex. pose proof (regions_ok_geometry _ (wc_regions _ W)) as G.
  pose proof (regions_ok_lookup _ _ _ (wc_regions _ W) Hi) as Hx.
  destruct (extend_region_spec (region_manager_ s) p r (wc_regions _ W) Hb HN i x Hi Ex) as
    (Rok & Rreg & Rold & Rnew & Rsum).
  destruct (extend_ok p r Hb x Hx Ex) as (_ & _ & _ & Hfirst & _).
  set (rs := <[i := extend r x]> (region_manager_ s)) in *. set (a0 := r_ptr x) in *.
  assert (H0 : rg s a0 p) by (by exists i, x).
  destruct (geo_bounds _ G _ _ H0) as (G1 & G2 & G3 & G4).
  assert (Hin : forall q, p <= q < p + r -> (q - p) mod 256 = 0 -> slot (reg rs) q).
  { intros q Hq Hm. exists a0, (p + r). split; [apply Rreg; auto|]. split; [lia|].
    replace (q - a0) with (q - p + (p - a0)) by lia. by apply add_mod_0. }
  assert (Hslot : slot (reg rs) p) by (apply Hin; [lia|by rewrite Z.sub_diag]).
  destruct (new_chunk_run s rs p r W Rok Hslot) as
    (hn & c0 & rs2 & cs & fl & R & Hrs & B0 & Nn & Dn & Lk & Fr & Us & Len).
  destruct (rm_set_handle_spec rs p hn Rok Hslot) as (rs2' & Hrs' & Rok2 & Rreg2 & Rgh2 & Rsz2).
  assert (rs2' = rs2) as -> by congruence. set (cn0 := new_chunk c0 p r) in *.
  set (s4 := with_chunks cs (with_free_list fl (with_regions rs2 s))) in *.
  assert (Hagree : forall y c, lives s y c -> ck s4 y = Some c).
  { intros y c Hy. unfold ck. simpl. rewrite Lk, decide_False; [by apply lives_ck|].
    intros ->. by apply Dn in Hy. }
  destruct (region_last s s4 a0 p (S (length cs)) W H0 Hagree) as
    (h0 & hl & cl & Hg0 & Rl & Hl & Nl & El).
  { assert (length (chunks_ s) <= length cs)%nat; [|lia]. apply Nat.le_ngt. intros Hlt.
    assert (is_Some (ck s (Z.of_nat (length cs)))) as [y Hy] by (apply lookup_chunk_is_Some; lia).
    assert (is_Some (lookup_chunk cs (Z.of_nat (length cs)))) as Hz.
    { rewrite Lk. case_decide; eauto. }
    apply lookup_chunk_is_Some in Hz. lia. }
  assert (Nhl : hl <> hn) by (intros ->; by apply Dn in Hl).
  set (cn := set_prev hl cn0).
  assert (Zn := Lk hn). rewrite decide_True in Zn by done.
  destruct (insert_facts cs hn cn0 cn Zn) as (cs1 & Ecs1 & Lk1 & M1 & S1).
  assert (Zl := Lk1 hl). rewrite decide_False, Lk, decide_False in Zl by done.
  unfold ck in Zl. rewrite (lives_ck _ _ _ Hl) in Zl.
  destruct (insert_facts cs1 hl cl (set_next hn cl) Zl) as (cs2 & Ecs2 & Lk2 & M2 & S2).
  set (s5 := with_chunks cs2 (with_free_list fl (with_regions rs2 s))).
  assert (Hck : forall y, ck s5 y = if decide (y = hl) then Some (set_next hn cl) else
                                    if decide (y = hn) then Some cn else ck s y).
  { intros y. unfold ck at 1. simpl. rewrite Lk2. case_decide; [done|]. rewrite Lk1.
    case_decide; [done|]. rewrite Lk. by rewrite decide_False. }
  assert (Hreg : forall a b, rg s5 a b <-> (rg s a b /\ a <> a0) \/ (a = a0 /\ b = p + r)).
  { intros a b. unfold rg at 1. simpl. by rewrite Rreg2, Rreg. }
  assert (Hnp : forall q, slot (rg s) q -> q <> p).
  { intros q (a & b & Hab & Hq & _) ->. specialize (HN _ _ Hab). lia. }
  assert (Hsl : forall q, slot (rg s) q -> slot (rg s5) q).
  { intros q Hq. apply (grow_ext_slot (rg s) G a0 p r ltac:(lia) H0 (rg s5) Hreg). auto. }
  assert (Hsl' : forall q, slot (rg s5) q -> slot (reg rs) q).
  { intros q Hq. by rewrite slot_iff; [|intros a b; symmetry; apply Rreg2]. }
  assert (Hgh : forall q, slot (rg s) q -> gh s5 q = gh s q).
  { intros q Hq. unfold gh. simpl. rewrite Rgh2 by auto. rewrite decide_False by auto. by apply Rold. }
  assert (Hgn : forall q, p <= q < p + r -> (q - p) mod 256 = 0 ->
            gh s5 q = Some (if decide (q = p) then hn else inv)).
  { intros q Hq Hm. unfold gh. simpl. rewrite Rgh2 by auto. case_decide; [done|]. by apply Rnew. }
  assert (Sn : size cn = r /\ ptr cn = p /\ prev cn = hl /\ next cn = inv) by done.
  assert (V := grow_ext_live (ck s) (gh s) (rg s) G (wc_linked _ W) a0 p r hn hl cn cl Nn Dn
    ltac:(lia) H0 Hl Nl El Sn HN (rg s5) Hreg (ck s5) (gh s5) Hck Hgh Hgn).
  assert (L5 := linked_grow_ext (ck s) (gh s) (rg s) G (wc_linked _ W) a0 p r hn hl cn cl Nn Dn
    ltac:(lia) H0 Hl Nl El Sn HN (rg s5) Hreg (ck s5) (gh s5) Hck Hgh Hgn).
  (* only [hl], whose [next] is invalid, changes *)
  set (g := fun (y : Z) (c : Chunk) => if decide (y = hl /\ c = cl) then set_next hn c else c).
  assert (Eg : forall y c, lives s y c -> g y c = extended hn hl y c).
  { intros y c Hy. unfold g, extended. destruct (decide (y = hl)) as [->|].
    - rewrite (lives_fun _ _ _ _ Hy Hl). by rewrite decide_True.
    - rewrite decide_False; [done|]. by intros [? _]. }
  destruct (link_new_chunk s s5 p r hn cn g) as (W5 & B5 & G5 & U5 & C5); try done.
  - lia.
  - simpl. lia.
  - intros y. rewrite Hck. destruct (decide (y = hl)) as [->|].
    + rewrite decide_False by done. destruct Hl as [-> _]. simpl. unfold g.
      by rewrite decide_True.
    + case_decide; [done|]. destruct (ck s y); [|done]. simpl. unfold g. rewrite decide_False; [done|].
      by intros [? _].
  - intros y cy. unfold lives. rewrite V. split.
    + intros [?|(? & c1 & Hc1 & ->)]; [auto|]. right. split; [done|]. exists c1.
      split; [done|]. symmetry. by apply Eg.
    + intros [?|(? & c1 & Hc1 & ->)]; [auto|]. right. split; [done|]. exists c1.
      split; [done|]. by apply Eg.
  - intros y c Hn. unfold g. rewrite decide_False; [done|]. intros [-> ->]. eauto.
  - intros y c. unfold g. case_decide as D; [right|by left]. destruct D as [_ ->]. done.
  - refine (free_ok_ext _ _ _ _ _ _ (fun y => iff_refl _) Fr). intros y [[_ Hy] Hyn] cy Hcy.
    unfold ck. simpl. rewrite Lk2, decide_False by (intros ->; by apply Hy in Hl).
    rewrite Lk1, decide_False by done. eauto.
  - intros y. unfold covered. setoid_rewrite Hreg. split.
    + intros (a & b & [[Hab Hne]|[-> ->]] & Hy); [left; eauto|].
      destruct (decide (y < p)); [left; exists a0, p; split; [done|lia]|right; lia].
    + intros [(a & b & Hab & Hy)|Hy].
      * destruct (decide (a = a0)) as [->|]; [|exists a, b; auto].
        destruct (geo_unique _ _ _ _ _ a0 G Hab H0) as [_ ->]; [lia|lia|].
        exists a0, (p + r). split; [auto|lia].
      * exists a0, (p + r). split; [auto|lia].
  - apply (grow_ext_slot (rg s) G a0 p r ltac:(lia) H0 (rg s5) Hreg). right.
    rewrite Z.sub_diag. split; [lia|done].
  - simpl. rewrite <-Rsum. by apply sum_sizes_fmap.
  - simpl. rewrite S2, S1, Us. unfold usage, in_use. simpl. lia.
  - exists hn, s5. split_and!; try done.
    + unfold bind at 1, modify. rewrite R. rewrite !bind_assoc_s.
      assert (Ef : region_get_handle (extend r x) (r_ptr (extend r x)) = Some h0).
      { unfold region_get_handle. change (r_ptr (extend r x)) with a0. rewrite Hfirst by lia.
        rewrite <-Hg0. symmetry. apply rm_get_handle_eq with i; [apply W|done|]. rewrite Ex. unfold a0 in *. lia. }
      rewrite Ef. unfold bind at 1, ret. rewrite bind_assoc_s. unfold bind at 1, get.
      rewrite bind_assoc_s. change (chunks_ s4) with cs.
      rewrite (bind_Done _ _ _ _ _ Rl). rewrite bind_assoc_s.
      rewrite (run_update hn cn0) by exact Zn. change (chunks_ s4) with cs. fold cn.
      unfold s4. rewrite chunks_twice, Ecs1.
      rewrite (run_update hl cl) by exact Zl. by rewrite chunks_with_chunks, chunks_twice, Ecs2.
    + exists cn. split; [|done]. apply V. auto.
Qed.

Lemma AddRegionChunk_spec :
  exists s', AddRegionChunk p r s = Done (tt, s') /\ wf_core s' /\ binned ∅ s' /\ grown p r s s' /\
    (unstamped s -> coal ∅ s -> unstamped s' /\ coal ∅ s') /\
    exists c, free_chunk s' c /\ r <= size c /\ freed_at_count c = 0.
Proof using All.
  assert (exists hn s5, AddRegionChunk p r s
      = (h' <~ TryToCoalesce hn false;; InsertFreeChunkIntoBin h') s5 /\
    wf_core s5 /\ binned {[hn]} s5 /\ grown p r s s5 /\
    (unstamped s -> unstamped s5) /\ (coal ∅ s -> coal {[hn]} s5) /\
    exists c, lives s5 hn c /\ size c = r /\ freed_at_count c = 0)
      as (hn & s5 & -> & W5 & B5 & G5 & U5 & C5 & (c & Hc & Hsz & Hfr)).
  { unfold AddRegionChunk. unfold bind at 1, get. unfold AddOrExtendAllocationRegion.
    destruct (coalesce_regions_ s); [|apply add_new_region].
    destruct (upper_bound (region_manager_ s) p) as [|i] eqn:Eu.
    { pose proof add_new_region as Hnew. unfold AddAllocationRegion in Hnew. by rewrite Eu in Hnew. }
    destruct (region_manager_ s !! i) as [x|] eqn:Ei.
    2:{ pose proof (upper_bound_le (region_manager_ s) p) as Hle.
        apply lookup_ge_None in Ei. lia. }
    destruct (Z.eqb_spec (r_end_ptr x) p) as [Ep|_].
    - by apply add_extended_region.
    - pose proof add_new_region as Hnew. unfold AddAllocationRegion in Hnew. by rewrite Eu in Hnew. }
  destruct (TryToCoalesce_spec s5 hn false W5 B5) as (h' & s6 & R6 & W6 & B6 & F6 & C6 & Hgrow).
  destruct (InsertFreeChunkIntoBin_spec {[h']} s6 h' W6 B6) as (s7 & b & R7 & W7 & B7 & F7 & V7);
    [set_solver|].
  assert (({[h']} : gset Z) ∖ {[h']} = ∅) as E by set_solver. rewrite E in B7.
  exists s7. split_and!; try done.
  - by rewrite (bind_Done _ _ _ _ _ R6).
  - eapply grown_frame; [|done]. by eapply grown_frame.
  - intros HU HC. destruct (C6 eq_refl (U5 HU) (C5 HC)) as [U6 C6'].
    destruct (rebinned_coal _ _ _ _ ∅ V7) as [Q1 Q2]. auto.
  - destruct Hgrow as (c1 & c2 & H1 & H2 & [H3 H4 H5]).
    rewrite (lives_fun _ _ _ _ H1 Hc) in *. destruct (lives_in_T _ _ B6) as (c3 & Hc3 & Hu3 & _).
    rewrite (lives_fun _ _ _ _ Hc3 H2) in Hu3.
    exists (set_bin_num b c2). split; [|split; [simpl; lia|by apply H5]]. exists h'. split; [|done].
    apply V7. exists c2. by rewrite decide_True.
Qed.
End add.
End grow.
