(* ===== verification/BfcGc.v ===== *)
(** * [Extend] and [DeallocateFreeRegions]: the invariant, termination, and the chunk provided *)
From S2P Require Import Prelude Bfc BfcRegions BfcLinks BfcInv BfcOps BfcAlloc BfcDealloc BfcExtend.
From stdpp Require Import options.
From Stdlib Require Import Sorted.
#[local] Open Scope tf_monad_scope.

Section extend.
Context `{SA : SubAllocator} {SL : SubAllocatorLaws SA}.
Abbreviation B := BFCAllocator.

(** The bookkeeping of region sizes has not overflowed. *)
Record growth_safe (s : B) : Prop := {
  gs_curr : 0 < curr_region_allocation_bytes_ s < 2 ^ 64;
  gs_mod : curr_region_allocation_bytes_ s mod 256 = 0;
  gs_total : total_region_allocated_bytes_ s <= memory_limit_ s;
  gs_limit : memory_limit_ s < 2 ^ 63
}.

Definition frees (st : sa_state) (fs : list (Z * Z)) : sa_state :=
  foldl (fun st b => sa_Free st b.1 b.2) st fs.

(** The sub-allocator does not refuse a request within the limit, now or
    after blocks have been given back to it. *)
Definition willing (st : sa_state) (limit : Z) : Prop :=
  forall fs al n, 0 < n -> n mod 256 = 0 -> n <= limit -> (sa_Alloc (frees st fs) al n).1 <> None.

(** The backpedalling loop makes progress, or is not entered. *)
Definition backpedal_safe (s : B) (rb : Z) : Prop :=
  started_backpedal_ s = true \/ 2304 < rb \/ willing (sub_allocator_ s) (memory_limit_ s).

(** Between the two states blocks were only given back. *)
Definition same_lender (s s' : B) : Prop :=
  started_backpedal_ s' = started_backpedal_ s /\
  exists fs, sub_allocator_ s' = frees (sub_allocator_ s) fs.

#[export] Instance same_lender_preorder : PreOrder same_lender.
Proof using.
  split; [intros s; split; [done|by exists []]|].
  intros s1 s2 s3 [E1 [fs1 F1]] [E2 [fs2 F2]]. split; [congruence|].
  exists (fs1 ++ fs2). unfold frees in *. by rewrite foldl_app, <-F1.
Qed.

(** The sub-allocator gives exactly what was asked for. *)
Definition exact : Prop :=
  forall st al n p r st', sa_Alloc st al n = (Some (p, r), st') -> r = n.

(** A bound on the next region size for an allocator that never gives regions
    back: it doubles past the limit at most once when the memory is exhausted
    and once for a backpedalled request. *)
Record growth_inv (s : B) : Prop := {
  gi_safe : growth_safe s;
  gi_limit : memory_limit_ s < 2 ^ 59;
  gi_bound : curr_region_allocation_bytes_ s <= (2 * memory_limit_ s + 512) *
    (if started_backpedal_ s then 2 else 1) *
    (if memory_limit_ s - total_region_allocated_bytes_ s <? 256 then 2 else 1)
}.

(** Sizes of regions are asked for in multiples of 256 bytes. *)
Definition sized (s : B) : Prop := curr_region_allocation_bytes_ s mod 256 = 0.

(** Without garbage collection the bound is kept until the sub-allocator has
    given more than the limit. *)
Definition keeps_growth (s s' : B) : Prop :=
  (sized s -> sized s') /\
  (garbage_collection_ s = false -> total_region_allocated_bytes_ s <= total_region_allocated_bytes_ s' /\
    (growth_inv s -> exact \/ total_region_allocated_bytes_ s' <= memory_limit_ s' -> growth_inv s')).

Lemma keeps_growth_same s s' :
  curr_region_allocation_bytes_ s' = curr_region_allocation_bytes_ s -> total_region_allocated_bytes_ s' = total_region_allocated_bytes_ s ->
  started_backpedal_ s' = started_backpedal_ s -> memory_limit_ s' = memory_limit_ s -> keeps_growth s s'.
Proof using.
  intros E1 E2 E3 E4. split; [unfold sized; by rewrite E1|]. intros _. split; [lia|]. intros [[g1 g2 g3 g4] g5 g6] _.
  split; [split|..]; by rewrite ?E1, ?E2, ?E3, ?E4.
Qed.

Lemma keeps_growth_trans s1 s2 s3 : garbage_collection_ s2 = garbage_collection_ s1 -> memory_limit_ s3 = memory_limit_ s2 ->
  keeps_growth s1 s2 -> keeps_growth s2 s3 -> keeps_growth s1 s3.
Proof using.
  intros Eg El [A1 A2] [B1 B2]. split; [auto|]. intros Hgc. destruct (A2 Hgc) as [A3 A4]. rewrite <-Eg in Hgc. destruct (B2 Hgc) as [B3 B4].
  split; [lia|]. intros Hg Hor. apply B4; [|done]. apply A4; [done|]. destruct Hor; [by left|right]. lia.
Qed.

Lemma same_pool_growth s s' : config_eq s s' -> same_pool s s' -> keeps_growth s s'.
Proof using. intros C [p1 p2 p3 p4]. apply keeps_growth_same; try done. apply C. Qed.

(** Enough fuel for both loops: 65 doublings, or the steps from 2^63 bytes
    down to 2560 at a factor 19/20. *)
Definition enough_fuel : nat := 800.

(** When the loops of [Extend] are sure to end. *)
Record progress (fuel : nat) (s : B) (rb : Z) : Prop := {
  pr_fuel : (enough_fuel <= fuel)%nat;
  pr_safe : growth_safe s;
  pr_back : backpedal_safe s rb
}.

Lemma backpedal_fuel_ok f : (enough_fuel <= f)%nat ->
  2 ^ 63 * 19 ^ Z.of_nat f < 2560 * 20 ^ Z.of_nat f.
Proof using.
  induction 1 as [|f _ IH].
  - apply Z.ltb_lt. vm_compute. reflexivity.
  - rewrite Nat2Z.inj_succ, !Z.pow_succ_r by lia. lia.
Qed.

Definition granted (st st' : sa_state) (al lo hi p r : Z) : Prop :=
  exists n st1, 0 < n /\ n mod 256 = 0 /\ lo <= n /\ (hi < 2 ^ 64 -> n <= hi) /\
    (forall a, sa_owned st1 a <-> sa_owned st a) /\ sa_Alloc st1 al n = (Some (p, r), st').

(** What a request to the sub-allocator left behind. *)
Definition requested (st st' : sa_state) (al lo hi : Z) (mem : option (Z * Z)) : Prop :=
  match mem with
  | None => forall a, sa_owned st' a <-> sa_owned st a
  | Some (p, r) => granted st st' al lo hi p r
  end.

Lemma requested_later st st1 st' al lo hi hi' mem : (forall a, sa_owned st1 a <-> sa_owned st a) -> (hi' < 2 ^ 64 -> hi <= hi') ->
  requested st1 st' al lo hi mem -> requested st st' al lo hi' mem.
Proof using.
  intros Hown Hhi. destruct mem as [[p r]|]; cbn [requested].
  - intros (n & st2 & H1 & H2 & H3 & H4 & H5 & H6). exists n, st2. split_and!; try done; [lia|]. intros a. by rewrite H5.
  - intros H1 a. by rewrite H1.
Qed.

(** What the loop leaves when it ends, and that it ends. *)
Lemma backpedal_loop_some al rb fuel : forall b st mem st', 0 < rb <= b -> b mod 256 = 0 ->
  backpedal_loop fuel al rb b st = Some (mem, st') -> requested st st' al rb b mem.
Proof using.
  induction fuel as [|fuel IH]; intros b st mem st' Hrb Hm R; [done|]. cbn [backpedal_loop] in R.
  pose proof (RoundedBytes_mod (backpedal b)) as Hm'. assert (Hle : b < 2 ^ 64 -> RoundedBytes (backpedal b) <= b) by (intros; apply backpedal_le; [lia|done]).
  set (b' := RoundedBytes (backpedal b)) in *. destruct (b' <? rb) eqn:E; bool_to_prop; [by simplify_eq|].
  destruct (sa_Alloc st al b') as [[[p r]|] st1] eqn:EA.
  - simplify_eq. exists b', st. split_and!; try done; lia.
  - apply (requested_later st st1 st' al rb b'); [exact (sa_Alloc_none _ _ _ _ EA)|done|]. apply (IH b' st1); [lia|done|done].
Qed.

Lemma backpedal_loop_ends al rb fuel : forall b st,
  2304 < rb <= b -> b < 2 ^ 63 -> b mod 256 = 0 ->
  b * 19 ^ Z.of_nat fuel < 2560 * 20 ^ Z.of_nat fuel -> backpedal_loop fuel al rb b st <> None.
Proof using.
  induction fuel as [|fuel IH]; intros b st Hrb Hb Hm Hf.
  { simpl in Hf. pose proof (Z.div_mod b 256 ltac:(lia)) as D. rewrite Hm in D.
    exfalso. assert (b / 256 < 10) by lia. assert (9 < b / 256) by lia. lia. }
  cbn [backpedal_loop]. destruct (backpedal_shrinks b) as [B1 B2]; [lia|done|].
  pose proof (RoundedBytes_mod (backpedal b)) as Hm'. set (b' := RoundedBytes (backpedal b)) in *.
  destruct (b' <? rb) eqn:E; bool_to_prop; [done|]. destruct (sa_Alloc st al b') as [[[p r]|] st1]; [done|].
  apply IH; [lia|lia|done|]. rewrite Nat2Z.inj_succ, !Z.pow_succ_r in Hf by lia.
  pose proof (Z.pow_pos_nonneg 19 (Z.of_nat fuel) ltac:(lia) ltac:(lia)). nia.
Qed.

(** What both outcomes of [Extend] keep. *)
Record extends (s s' : B) : Prop := {
  ex_config : config_eq s s';
  ex_id : next_allocation_id_ s' = next_allocation_id_ s;
  ex_ts : timestamped_chunks_ s' = timestamped_chunks_ s;
  ex_allocs p sz rq id : alloc s' p sz rq id <-> alloc s p sz rq id;
  ex_coal : unstamped s -> coal ∅ s -> unstamped s' /\ coal ∅ s';
  ex_growth : keeps_growth s s'
}.

Lemma total_bound s : wf_core s -> 0 <= sum_sizes (region_manager_ s) <= 2 ^ 64 - 1.
Proof using.
  intros W. apply sum_sizes_bound; [apply W|lia|]. intros i x Hi.
  destruct (regions_ok_lookup _ _ _ (wc_regions _ W) Hi). lia.
Qed.

Lemma grown_acct s0 s s' p r curr bp st :
  acct s0 -> wf_core s0 -> wf_core s' -> same_chunks s0 s ->
  s = with_growth curr (u64 (total_region_allocated_bytes_ s0 + r)) bp st s0 ->
  grown p r s s' -> 0 < r ->
  (forall a, sa_owned (sub_allocator_ s0) a -> sa_owned st a) ->
  (forall a, p <= a < p + r -> sa_owned st a) -> acct s'.
Proof using.
  intros [a1 a2 a3 a4 a5 a6 a7 a8 a9] W0 W' SC Es [g1 g2 g3 g4 g5 g6 g7] Hr Hold Hnew.
  pose proof (same_chunks_alloc _ _ SC) as Eal.
  assert (Erg : rg s = rg s0) by (unfold rg; by destruct SC as (_ & -> & _)).
  destruct SC as (E1 & E2 & E3 & E4).
  pose proof (total_bound _ W') as Hs. pose proof (total_bound _ W0) as Hs0.
  split.
  - rewrite g1, Es. simpl. rewrite a1. rewrite g5, E1. done.
  - rewrite g1, Es. simpl. rewrite a2, g4, E2. apply u64_small. unfold in_u64. rewrite g4, E2 in Hs. lia.
  - intros a b x Hab Hx. rewrite g1, Es. simpl.
    destruct (proj1 (g2 x)) as [(a' & b' & Hab' & Hx')|]; [by exists a, b| |auto].
    rewrite Erg in Hab'. eauto.
  - intros q sz rq id Ha. apply g6 in Ha. rewrite Eal in Ha. rewrite g1, Es. by apply (a4 q).
  - intros q sz rq id q' sz' rq' Ha Hb. apply g6 in Ha, Hb. rewrite Eal in Ha, Hb. by eapply a5.
  - by rewrite g1, Es.
  - by rewrite g1, Es.
  - by rewrite g1, Es.
  - rewrite g1, Es. simpl. intros h Hh. destruct (a9 h Hh) as (c & Hc & Hs').
    apply (g7 h c); [unfold ck; by rewrite E1|by rewrite Erg].
Qed.

(** The request to the sub-allocator, with its backpedalling. *)
Lemma request_some fuel al rb bytes (bp0 : bool) st st0 mem0 mem st' :
  0 < rb <= bytes -> bytes mod 256 = 0 -> sa_Alloc st al bytes = (mem0, st0) ->
  match mem0 with
  | None => if negb bp0 then backpedal_loop fuel al rb bytes st0 else Some (None, st0)
  | Some m => Some (Some m, st0)
  end = Some (mem, st') -> requested st st' al rb bytes mem.
Proof using.
  intros Hrb Hm EA R. destruct mem0 as [[p r]|].
  { simplify_eq. exists bytes, st. split_and!; try done; lia. }
  pose proof (sa_Alloc_none _ _ _ _ EA) as Hown. destruct bp0; cbn [negb] in R; [by simplify_eq|].
  apply (requested_later st st0 st' al rb bytes); [done|done|]. by eapply backpedal_loop_some.
Qed.

Lemma request_ends fuel al rb bytes limit (bp0 : bool) st :
  (enough_fuel <= fuel)%nat -> 0 < rb <= bytes -> bytes <= limit < 2 ^ 63 -> bytes mod 256 = 0 ->
  bp0 = true \/ 2304 < rb \/ willing st limit ->
  let '(mem0, st0) := sa_Alloc st al bytes in
  match mem0 with
  | None => if negb bp0 then backpedal_loop fuel al rb bytes st0 else Some (None, st0)
  | Some m => Some (Some m, st0)
  end <> None.
Proof using.
  intros Hf Hrb Hb Hm Hsafe. destruct (sa_Alloc st al bytes) as [[[p r]|] st0] eqn:EA; [done|]. destruct bp0; [done|]. cbn [negb].
  destruct Hsafe as [?|[Hbig|Hw]]; [done| |].
  - apply backpedal_loop_ends; [lia|lia|done|]. pose proof (backpedal_fuel_ok fuel Hf).
    pose proof (Z.pow_pos_nonneg 19 (Z.of_nat fuel) ltac:(lia) ltac:(lia)). nia.
  - exfalso. apply (Hw [] al bytes); [lia|done|lia|]. unfold frees. simpl. by rewrite EA.
Qed.

(** Blocks granted by the sub-allocator are new to the allocator. *)
Lemma granted_fresh s st' al lo hi p r :
  acct s -> wf_core s -> granted (sub_allocator_ s) st' al lo hi p r ->
  (0 < p /\ 0 < r /\ r mod 256 = 0 /\ p + r < 2 ^ 63) /\
  (forall a b, rg s a b -> b <= p \/ p + r <= a) /\
  (forall a, sa_owned (sub_allocator_ s) a -> sa_owned st' a) /\
  (forall a, p <= a < p + r -> sa_owned st' a) /\ lo <= r.
Proof using.
  intros HA W (n & st1 & Hn & Hm & Hlo & _ & Hown & EA).
  destruct (sa_Alloc_some _ _ _ _ _ _ EA Hn Hm) as (P1 & P2 & P3 & P4 & P5 & P6).
  split_and!; try lia.
  - intros a b Hab. destruct (geo_bounds _ (regions_ok_geometry _ (wc_regions _ W)) _ _ Hab) as (G1 & G2 & _).
    destruct (decide (b <= p)) as [|Hbp]; [by left|]. destruct (decide (p + r <= a)) as [|Hpa]; [by right|].
    exfalso. apply (P5 (Z.max a p)); [lia|]. apply Hown, (ac_owned _ HA a b); [done|lia].
  - intros a Ha. apply P6. left. by apply Hown.
  - intros a Ha. apply P6. by right.
Qed.

(** The arithmetic of a successful [Extend]: [r] bytes were received, for a
    request at the first size when [full]. *)
Lemma growth_step limit total curr rb r avail (st full : bool) :
  0 <= total -> total + r <= limit -> limit < 2 ^ 59 -> avail = (limit - total) / 256 * 256 -> 0 < rb <= avail ->
  rb <= curr -> curr <= 2 * (limit + 256) * (if st then 2 else 1) ->
  (if full then curr `min` avail <= r else st = false) ->
  curr * 2 <= (2 * limit + 512) * (if st || negb full then 2 else 1) *
                (if limit - (total + r) <? 256 then 2 else 1).
Proof using.
  intros Ht Hr Hl Ea Hrb Hc Hb Hf.
  pose proof (Z.div_mod (limit - total) 256 ltac:(lia)).
  pose proof (Z.mod_pos_bound (limit - total) 256 ltac:(lia)).
  destruct full; [|subst st; cbn [orb negb]; destruct (_ <? _); lia]. cbn [negb]. rewrite orb_false_r.
  destruct (decide (curr <= avail)).
  - destruct st, (_ <? _); lia.
  - rewrite (proj2 (Z.ltb_lt _ _)) by lia. destruct st; lia.
Qed.

(** The bound after a successful [Extend]. *)
Lemma grown_growth s s' p r curr (inc : bool) (mem0 : option (Z * Z)) rb avail st' :
  growth_inv s -> memory_limit_ s - total_region_allocated_bytes_ s >= 0 -> 0 <= total_region_allocated_bytes_ s ->
  total_region_allocated_bytes_ s + r <= memory_limit_ s -> 0 < r ->
  avail = (memory_limit_ s - total_region_allocated_bytes_ s) / 256 * 256 -> 0 < rb <= avail -> rb <= curr ->
  curr = curr_region_allocation_bytes_ s \/ curr < 2 * rb -> curr mod 256 = 0 ->
  match mem0 with Some _ => curr `min` avail <= r | None => started_backpedal_ s = false end ->
  let bp := started_backpedal_ s || match mem0 with Some _ => false | None => true end in
  let curr' := if inc then curr else u64 (curr * 2) in
  grown p r (with_growth curr' (u64 (total_region_allocated_bytes_ s + r)) bp st' s) s' -> growth_inv s'.
Proof using.
  intros [_ g5 g6] Hl0 Ht Hr Hr0 Ea Hrb Hcb Hcc Hm Hfull bp curr' Gr.
  pose proof (Z.div_mod (memory_limit_ s - total_region_allocated_bytes_ s) 256 ltac:(lia)).
  pose proof (Z.mod_pos_bound (memory_limit_ s - total_region_allocated_bytes_ s) 256 ltac:(lia)).
  assert (Hcb' : curr <= 2 * (memory_limit_ s + 256) * (if started_backpedal_ s then 2 else 1)).
  { rewrite (proj2 (Z.ltb_ge _ _)) in g6 by lia. destruct (started_backpedal_ s); lia. }
  pose proof (growth_step (memory_limit_ s) (total_region_allocated_bytes_ s) curr rb r avail
    (started_backpedal_ s) (match mem0 with Some _ => true | None => false end) Ht Hr g5 Ea Hrb Hcb Hcb') as Hfin.
  assert (Hfin' : curr * 2 <= (2 * memory_limit_ s + 512) * (if bp then 2 else 1) *
    (if memory_limit_ s - (total_region_allocated_bytes_ s + r) <? 256 then 2 else 1)).
  { unfold bp. destruct mem0; cbn [negb] in Hfin; by apply Hfin. }
  assert (Etot : u64 (total_region_allocated_bytes_ s + r) = total_region_allocated_bytes_ s + r)
    by (apply u64_small; unfold in_u64; lia).
  assert (Edb : u64 (curr * 2) = curr * 2) by (apply u64_small; unfold in_u64; destruct (started_backpedal_ s); lia).
  rewrite (gr_eq _ _ _ _ Gr). unfold curr'. split; [split|..]; simpl; rewrite ?Etot, ?Edb.
  - destruct inc, (started_backpedal_ s); lia.
  - destruct inc; [done|]. rewrite Z.mul_mod, Hm by lia. done.
  - lia.
  - lia.
  - done.
  - destruct inc; lia.
Qed.

Lemma extend_growth s s' al p r curr (inc : bool) mem0 st0 rb avail st' :
  wf_core s -> acct s -> wf_core s' -> 0 <= avail < 2 ^ 64 -> curr mod 256 = 0 -> 0 < rb <= curr `min` avail -> curr `min` avail mod 256 = 0 ->
  (growth_safe s -> avail = (memory_limit_ s - total_region_allocated_bytes_ s) / 256 * 256 /\ avail <= memory_limit_ s - total_region_allocated_bytes_ s) ->
  (0 < curr_region_allocation_bytes_ s < 2 ^ 64 -> rb <= 2 ^ 63 -> curr_region_allocation_bytes_ s <= curr < 2 ^ 64 /\ (curr = curr_region_allocation_bytes_ s \/ curr < 2 * rb)) ->
  sa_Alloc (sub_allocator_ s) al (curr `min` avail) = (mem0, st0) ->
  match mem0 with Some m => m = (p, r) | None => started_backpedal_ s = false end -> 0 < r ->
  granted (sub_allocator_ s) st' al rb (curr `min` avail) p r ->
  let bp := started_backpedal_ s || match mem0 with Some _ => false | None => true end in
  let curr' := if inc then curr else u64 (curr * 2) in
  grown p r (with_growth curr' (u64 (total_region_allocated_bytes_ s + r)) bp st' s) s' -> keeps_growth s s'.
Proof using.
  intros W HA W' Hav Hm Hrb Hbm Hsafe Hc EA Hmem Hr Hres bp curr' Gr.
  pose proof (total_bound _ W) as Hsum. rewrite <-(ac_total _ HA) in Hsum. pose proof (total_bound _ W') as Hsum'.
  assert (Etot : u64 (total_region_allocated_bytes_ s + r) = total_region_allocated_bytes_ s + r).
  { apply u64_small. unfold in_u64. rewrite (gr_total _ _ _ _ Gr) in Hsum'. cbn in Hsum'. rewrite <-(ac_total _ HA) in Hsum'. lia. }
  split.
  { intros _. unfold sized. rewrite (gr_eq _ _ _ _ Gr). unfold curr'. simpl. destruct inc; [done|by apply u64_double_mod]. }
  assert (Et : total_region_allocated_bytes_ s' = total_region_allocated_bytes_ s + r) by (rewrite (gr_eq _ _ _ _ Gr); apply Etot).
  assert (El : memory_limit_ s' = memory_limit_ s) by (by rewrite (gr_eq _ _ _ _ Gr)).
  intros Hgc. rewrite Et, El. split; [lia|]. intros Hg Hor.
  pose proof (gi_safe _ Hg) as Hs. destruct (Hsafe Hs) as [Ea Ha]. pose proof Hs as [G1 G2 G3 G4]. destruct (Hc G1 ltac:(lia)) as [Hc1 Hc2].
  eapply (grown_growth s s' p r curr inc mem0 rb avail st'); try done; try lia.
  - destruct Hor as [Hex|?]; [|done]. destruct Hres as (n & st1 & _ & _ & _ & Hn & _ & En). rewrite (Hex _ _ _ _ _ _ En). specialize (Hn ltac:(lia)). lia.
  - destruct mem0 as [m|]; [|done]. subst m. by destruct (sa_Alloc_some _ _ _ _ _ _ EA) as (_ & ? & _); [lia|done|].
Qed.

(** A failed [Extend] changes only the bookkeeping. *)
Lemma extend_failed s rb curr bp st' : wf ∅ s -> rb <= curr -> curr mod 256 = 0 ->
  (0 < curr_region_allocation_bytes_ s < 2 ^ 64 -> rb <= 2 ^ 63 -> curr_region_allocation_bytes_ s <= curr < 2 ^ 64 /\ (curr = curr_region_allocation_bytes_ s \/ curr < 2 * rb)) ->
  0 < rb -> (growth_safe s -> rb <= memory_limit_ s - total_region_allocated_bytes_ s) -> (forall a, sa_owned st' a <-> sa_owned (sub_allocator_ s) a) ->
  (started_backpedal_ s = true -> bp = true) ->
  let s1 := with_growth curr (total_region_allocated_bytes_ s) bp st' s in
  wf ∅ s1 /\ extends s s1 /\ same_chunks s s1 /\ (growth_safe s -> growth_safe s1).
Proof using.
  intros [W HB HA] Hrc Hm Hc Hrb Hav Hown Hbp s1. assert (SC : same_chunks s s1) by done. split_and!; [| |done|].
  - split; [by eapply same_chunks_core|by eapply same_chunks_binned|].
    destruct HA as [a1 a2 a3 a4 a5 a6 a7 a8 a9]. split; try done. intros a b x Hab Hx. apply Hown. by apply (a3 a b).
  - split; try done. split; [by intros _|]. intros _. split; [done|]. intros [g4 g5 g6] _. pose proof g4 as [G1 G2 G3 G4]. specialize (Hav g4).
    pose proof (total_bound _ W) as Hsum. rewrite <-(ac_total _ HA) in Hsum. destruct (Hc G1 ltac:(lia)) as [Hc1 Hc2].
    split; [split|..]; try done; simpl; [lia|]. destruct (started_backpedal_ s), bp; try (by exfalso; discriminate Hbp); try (specialize (Hbp eq_refl); done); destruct (_ <? 256); lia.
  - intros g4. pose proof g4 as [G1 G2 G3 G4]. specialize (Hav g4). pose proof (total_bound _ W) as Hsum. rewrite <-(ac_total _ HA) in Hsum.
    destruct (Hc G1 ltac:(lia)) as [Hc1 Hc2]. split; try done. simpl. lia.
Qed.

(** [Extend] keeps the invariant whenever it ends, and it ends when both loops
    make progress. *)
Definition extend_result (s : B) (fuel : nat) (rb : Z) (o : outcome (bool * B)) : Prop :=
  (o = OutOfFuel /\ ~ progress fuel s rb) \/
  exists (b : bool) s', o = Done (b, s') /\ wf ∅ s' /\ extends s s' /\
    (if b then exists c, free_chunk s' c /\ rb <= size c /\ freed_at_count c = 0
     else same_chunks s s' /\ (growth_safe s -> growth_safe s') /\ (backpedal_safe s rb -> backpedal_safe s' rb)).

Lemma Extend_spec s fuel al rb : wf ∅ s -> sized s -> 0 < rb -> extend_result s fuel rb (Extend fuel al rb s).
Proof using.
  intros Hwf Hsz Hrb. pose proof Hwf as [W HB HA].
  pose proof (total_bound _ W) as Hsum. rewrite <-(ac_total _ HA) in Hsum.
  unfold Extend. unfold bind at 1, get. cbv zeta. change kMinAllocationSize with 256.
  set (avail := u64 (memory_limit_ s - total_region_allocated_bytes_ s) / 256 * 256).
  assert (Hav : 0 <= avail < 2 ^ 64 /\ avail mod 256 = 0).
  { unfold avail. pose proof (u64_range (memory_limit_ s - total_region_allocated_bytes_ s)) as Hu. unfold in_u64 in Hu.
    split; [|apply Z.mod_mul; lia]. pose proof (Z.div_mod (u64 (memory_limit_ s - total_region_allocated_bytes_ s)) 256 ltac:(lia)). 
    pose proof (Z.mod_pos_bound (u64 (memory_limit_ s - total_region_allocated_bytes_ s)) 256 ltac:(lia)).
    pose proof (Z.div_pos (u64 (memory_limit_ s - total_region_allocated_bytes_ s)) 256). lia. }
  assert (Hsafe : growth_safe s -> avail = (memory_limit_ s - total_region_allocated_bytes_ s) / 256 * 256 /\ avail <= memory_limit_ s - total_region_allocated_bytes_ s).
  { intros [G1 G2 G3 G4]. unfold avail. rewrite u64_small by (unfold in_u64; lia). split; [done|].
    pose proof (Z.div_mod (memory_limit_ s - total_region_allocated_bytes_ s) 256 ltac:(lia)).
    pose proof (Z.mod_pos_bound (memory_limit_ s - total_region_allocated_bytes_ s) 256 ltac:(lia)). lia. }
  destruct (avail <? rb) eqn:Ea; bool_to_prop.
  { right. exists false, s. split; [done|]. split; [done|]. split; [|done]. split; try done. }
  destruct (grow_loop fuel rb (curr_region_allocation_bytes_ s) false) as [[curr inc]|] eqn:Rg.
  2:{ left. split; [done|]. intros [Pf Ps Pb]. destruct (Hsafe Ps). pose proof Ps as [G1 _ _ G4].
      destruct (grow_loop_fuel fuel rb (curr_region_allocation_bytes_ s) false) as (c & i & R & _); [unfold enough_fuel in Pf; lia|done|lia|]. congruence. }
  destruct (grow_loop_some _ _ _ _ _ _ Rg) as (C1 & C2 & C3). specialize (C2 Hsz).
  set (bytes := curr `min` avail).
  assert (Hbytes : rb <= bytes <= avail /\ bytes mod 256 = 0).
  { unfold bytes. split; [lia|]. destruct (Z.min_spec curr avail) as [[_ ->]|[_ ->]]; [done|apply Hav]. }
  pose proof (request_ends fuel al rb bytes (memory_limit_ s) (started_backpedal_ s) (sub_allocator_ s)) as Hend.
  destruct (sa_Alloc (sub_allocator_ s) al bytes) as [mem0 st0] eqn:EA.
  destruct (match mem0 with Some m => Some (Some m, st0) | None => _ end) as [[mem st']|] eqn:Rq.
  2:{ left. split; [done|]. intros [Pf Ps Pb]. destruct (Hsafe Ps). pose proof Ps as [G1 _ _ G4]. apply Hend; try done; lia. }
  right. assert (Hres : requested (sub_allocator_ s) st' al rb bytes mem) by (eapply request_some; [|apply Hbytes|exact EA|exact Rq]; lia).
  set (bp := started_backpedal_ s || match mem0 with Some _ => false | None => true end).
  destruct mem as [[p r]|]; cbn [requested] in Hres.
  - destruct (granted_fresh s st' al rb bytes p r HA W Hres) as (Q1 & Q2 & Q3 & Q4 & Q5).
    set (curr' := if inc then curr else u64 (curr * 2)).
    set (s1 := with_growth curr' (u64 (total_region_allocated_bytes_ s + r)) bp st' s).
    assert (SC : same_chunks s s1) by done. unfold bind at 1, modify. fold s1.
    assert (W1 : wf_core s1) by (by eapply same_chunks_core).
    assert (B1 : binned ∅ s1) by (by eapply same_chunks_binned).
    destruct (AddRegionChunk_spec s1 p r W1 B1 Q1 Q2) as (s2 & R2 & W2 & B2 & Gr & Hc & c & Hf & Hsz' & Hfr).
    rewrite (bind_Done _ _ _ _ _ R2). exists true, s2. split_and!; [done| | |].
    + split; [done|done|]. eapply (grown_acct s s1 s2 p r curr' bp st'); try done. lia.
    + destruct (same_chunks_coal ∅ _ _ SC) as [Q6 Q7]. split.
      * split; by rewrite (gr_eq _ _ _ _ Gr).
      * by rewrite (gr_eq _ _ _ _ Gr).
      * by rewrite (gr_eq _ _ _ _ Gr).
      * intros. rewrite (gr_allocs _ _ _ _ Gr). by rewrite (same_chunks_alloc _ _ SC).
      * intros HU HC. auto.
      * eapply (extend_growth s s2 al p r curr inc mem0 st0 rb avail st'); try done; [apply Hav|lia|apply Hbytes| |lia].
        destruct mem0 as [m|]; [by simplify_eq|]. by destruct (started_backpedal_ s); [cbn in Rq; simplify_eq|].
    + exists c. split_and!; try done. lia.
  - assert (Hm0 : mem0 = None) by (destruct mem0; [|done]; by simplify_eq). subst mem0.
    destruct (extend_failed s rb curr bp st') as (F1 & F2 & F3 & F4); try done.
    { intros Ps. destruct (Hsafe Ps). lia. }
    { unfold bp. by intros ->. }
    exists false. eexists. split; [done|]. split; [done|]. split; [done|]. split; [done|]. split; [done|]. intros _. left. unfold bp. simpl. by rewrite orb_true_r.
Qed.
End extend.

(** * Giving free regions back: [DeallocateFreeRegions] *)

Lemma rm_set_handle_ptrs rs p h rs' :
  rm_set_handle rs p h = Some rs' -> (r_ptr <$> rs') = (r_ptr <$> rs).
Proof.
  unfold rm_set_handle, RegionFor. destruct (rs !! upper_bound rs p) as [r|] eqn:E; simpl; [|done].
  unfold region_set_handle. destruct (r_handles r !! IndexFor r p); simpl; [|done].
  intros. simplify_eq. rewrite list_fmap_insert. simpl. apply list_insert_id.
  by rewrite list_lookup_fmap, E.
Qed.

Section gc.
Context `{SA : SubAllocator} {SL : SubAllocatorLaws SA}.
Abbreviation B := BFCAllocator.

(** [k] is [s] after the free chunks [D] have been deleted one by one. *)
Record deleting (s : B) (D : list Z) (k : B) : Prop := {
  dl_eq : k = with_bins (bins_ k) (with_free_list (free_chunks_list_ k)
                (with_regions (region_manager_ k) (with_chunks (chunks_ k) s)));
  dl_ck x : x ∉ D -> ck k x = ck s x;
  dl_dead x : x ∈ D -> exists c c', ck s x = Some c /\ ck k x = Some c' /\
    allocation_id c' = -1 /\ bin_num c' = -1 /\ ptr c' = ptr c;
  dl_len : length (chunks_ k) = length (chunks_ s);
  dl_usage : usage_sum (chunks_ k) = usage_sum (chunks_ s);
  dl_ok : regions_ok (region_manager_ k);
  dl_reg a b : rg k a b <-> rg s a b;
  dl_ptrs : (r_ptr <$> region_manager_ k) = (r_ptr <$> region_manager_ s);
  dl_sizes : (r_memory_size <$> region_manager_ k) = (r_memory_size <$> region_manager_ s);
  dl_gh q : slot (rg s) q -> (forall x c, x ∈ D -> ck s x = Some c -> ptr c <> q) -> gh k q = gh s q;
  dl_binlen : length (bins_ k) = length (bins_ s);
  dl_bins b l : bins_ s !! b = Some l ->
    exists l', bins_ k !! b = Some l' /\ StronglySorted (bin_lt s) l' /\
      (forall x, x ∈ l' <-> x ∈ l /\ x ∉ D);
  dl_free : free_ok (ck k) (free_chunks_list_ k) (fun x => dead s x \/ x ∈ D)
}.

Lemma deleting_nil T s : wf_core s -> binned T s -> deleting s [] s.
Proof using.
  intros W HB. split; try done.
  - by destruct s.
  - intros x Hx. by apply not_elem_of_nil in Hx.
  - apply W.
  - intros b l Hb. exists l. split_and!; [done|by eapply (bn_sorted _ _ HB)|set_solver].
  - eapply free_ok_ext; [|intros x|apply W]; [eauto|set_solver].
Qed.

(** Members of the bins that are left compare as before. *)
Lemma deleting_sorted s D k l : deleting s D k -> (forall x, x ∈ l -> x ∉ D) ->
  (StronglySorted (bin_lt s) l <-> StronglySorted (bin_lt k) l).
Proof using.
  intros HD Hl. assert (E : forall x, x ∈ l -> chunk_of k x = chunk_of s x).
  { intros x Hx. unfold chunk_of. pose proof (dl_ck _ _ _ HD x (Hl x Hx)) as E. unfold ck in E. by rewrite E. }
  split; apply sorted_ext; intros x Hx; by rewrite E.
Qed.

Lemma RemoveFreeChunkFromBin_deleting s D k x c :
  wf_core s -> binned ∅ s -> deleting s D k -> lives s x c -> in_use c = false -> x ∉ D ->
  exists l', RemoveFreeChunkFromBin x k = Done (tt,
      with_bins (<[Z.to_nat (bin_num c) := l']> (bins_ k))
        (with_chunks (<[Z.to_nat x := set_bin_num (-1) c]> (chunks_ k)) k)) /\
    bin_num c <> -1 /\ StronglySorted (bin_lt s) l' /\ 0 <= bin_num c /\
    exists l0, bins_ s !! Z.to_nat (bin_num c) = Some l0 /\
      (forall y, y ∈ l' <-> y ∈ l0 /\ (y ∉ D) /\ y <> x).
Proof using.
  intros W HB HD Hl Hu Hx.
  assert (Hn : bin_num c <> -1).
  { intros E. assert (x ∈ (∅ : gset Z)); [|set_solver]. apply (bn_T _ _ HB). eauto. }
  destruct (bin_of_lives _ _ _ _ HB Hl Hn) as (l0 & H0 & Hb & Hin & HS).
  destruct (dl_bins _ _ _ HD _ _ Hb) as (l & Hbk & HSl & Hm).
  assert (Hc : lookup_chunk (chunks_ k) x = Some c).
  { pose proof (dl_ck _ _ _ HD x Hx) as E. unfold ck in E. rewrite E. apply Hl. }
  assert (Hco : forall y, y ∉ D -> chunk_of k y = chunk_of s y).
  { intros y Hy. unfold chunk_of. pose proof (dl_ck _ _ _ HD y Hy) as E. unfold ck in E. by rewrite E. }
  destruct (set_erase_spec k x l) as (l' & He & HS' & Hm').
  { apply (deleting_sorted s D k l HD); [|done]. intros y Hy. by apply Hm. }
  { by apply Hm. }
  { intros y Hy Hne. apply Hm in Hy as [Hy HyD]. apply (bn_mem _ _ HB _ _ _ Hb) in Hy as (cy & Hcy & _).
    unfold bin_lt. rewrite !Hco by done. by apply (lives_bin_total s x y c cy). }
  exists l'. split_and!; try done.
  - unfold RemoveFreeChunkFromBin. rewrite (run_chunk _ _ _ _ Hc).
    rewrite run_check by (rewrite Hu; unfold kInvalidBinNum; by rewrite (proj2 (Z.eqb_neq _ _)) by done).
    erewrite run_bin by (try eassumption; lia).
    unfold bind at 1, get. rewrite He. cbn [bind set_bin modify].
    unfold CHECK. cbn. unfold update_chunk. cbn. by rewrite Hc.
  - apply (deleting_sorted s D k l' HD); [|done]. intros y Hy. apply Hm' in Hy as [Hy _]. by apply Hm.
  - exists l0. split; [done|]. intros y. rewrite Hm', Hm. tauto.
Qed.

Lemma delete_step s D k x c :
  wf_core s -> binned ∅ s -> deleting s D k -> lives s x c -> in_use c = false -> x ∉ D ->
  (forall y cy, y ∈ D -> ck s y = Some cy -> lives s y cy) ->
  exists k', (forall K : Z -> M B unit,
    (c <~ ChunkFromHandle x;;
     (if negb (bin_num c =? kInvalidBinNum) then RemoveFreeChunkFromBin x else ret tt);;;
     c <~ ChunkFromHandle x;; DeleteChunk x;;; K (next c)) k = K (next c) k') /\
    deleting s (x :: D) k'.
Proof using.
  intros W HB HD Hl Hu Hx HDl.
  destruct (RemoveFreeChunkFromBin_deleting s D k x c W HB HD Hl Hu Hx) as
    (l' & R1 & Hn & HS' & H0 & l0 & Hl0 & Hm).
  assert (Hc : lookup_chunk (chunks_ k) x = Some c).
  { pose proof (dl_ck _ _ _ HD x Hx) as E. unfold ck in E. rewrite E. apply Hl. }
  set (k1 := with_bins (<[Z.to_nat (bin_num c) := l']> (bins_ k))
        (with_chunks (<[Z.to_nat x := set_bin_num (-1) c]> (chunks_ k)) k)) in *.
  assert (Hc1 : lookup_chunk (chunks_ k1) x = Some (set_bin_num (-1) c)).
  { simpl. rewrite lookup_chunk_insert by eauto. by rewrite decide_True. }
  assert (Hsl : slot (reg (region_manager_ k)) (ptr c)).
  { pose proof (slot_iff (rg k) (rg s) (ptr c) (dl_reg _ _ _ HD)) as E. apply E. apply Hl. }
  destruct (rm_set_handle_spec (region_manager_ k) (ptr c) inv (dl_ok _ _ _ HD) Hsl) as
    (rs' & Hrs & Rok & Rreg & Rgh & Rsz).
  pose proof (rm_set_handle_ptrs _ _ _ _ Hrs) as Rp.
  destruct (DeleteChunk_run k1 x (set_bin_num (-1) c) rs') as
    (cs' & c' & R2 & Lk & Len & Us & Ea & Eb & En & Ep); [done| |done|].
  { unfold usage. change (in_use (set_bin_num (-1) c)) with (in_use c). by rewrite Hu. }
  set (k' := with_chunks cs' (with_free_list x (with_regions rs' k1))) in *.
  assert (Hck : forall y, ck k' y = if decide (y = x) then Some c' else ck k y).
  { intros y. unfold ck. change (chunks_ k') with cs'. rewrite Lk. case_decide; [done|].
    simpl. rewrite lookup_chunk_insert by eauto. by rewrite decide_False. }
  exists k'. split.
  - intros K. rewrite (run_chunk _ _ _ _ Hc). unfold kInvalidBinNum.
    rewrite (proj2 (Z.eqb_neq _ _)) by done. cbn [negb].
    rewrite (bind_Done _ _ _ _ _ R1), (run_chunk _ _ _ _ Hc1), (bind_Done _ _ _ _ _ R2). done.
  - assert (HE : k' = with_bins (bins_ k') (with_free_list (free_chunks_list_ k')
                (with_regions (region_manager_ k') (with_chunks (chunks_ k') s)))).
    { unfold k', k1. by rewrite (dl_eq _ _ _ HD). }
    split; try done.
    + intros y Hy. rewrite Hck, decide_False by set_solver. apply (dl_ck _ _ _ HD). set_solver.
    + intros y Hy. rewrite Hck. destruct (decide (y = x)) as [->|].
      * exists c, c'. split_and!; try done. apply Hl.
      * apply (dl_dead _ _ _ HD). set_solver.
    + change (length cs' = length (chunks_ s)). rewrite Len, <-(dl_len _ _ _ HD). apply length_insert.
    + change (usage_sum cs' = usage_sum (chunks_ s)). rewrite Us, <-(dl_usage _ _ _ HD).
      change (chunks_ k1) with (<[Z.to_nat x:=set_bin_num (-1) c]> (chunks_ k)).
      rewrite (usage_sum_insert _ _ c) by done. unfold usage. rewrite Hu.
      change (in_use (set_bin_num (-1) c)) with (in_use c). rewrite Hu. lia.
    + intros a b. change (reg rs' a b <-> rg s a b). rewrite Rreg. apply (dl_reg _ _ _ HD).
    + change (r_ptr <$> rs' = r_ptr <$> region_manager_ s). rewrite Rp. apply HD.
    + change (r_memory_size <$> rs' = r_memory_size <$> region_manager_ s). rewrite Rsz. apply HD.
    + intros q Hq Hne. change (rm_get_handle rs' q = gh s q). rewrite Rgh.
      * rewrite decide_False; [apply (dl_gh _ _ _ HD); [done|set_solver]|].
        intros ->. by apply (Hne x c); [set_solver|apply Hl|].
      * by apply (slot_iff (rg k) (rg s) q (dl_reg _ _ _ HD)).
    + change (length (<[Z.to_nat (bin_num c) := l']> (bins_ k)) = length (bins_ s)).
      rewrite length_insert. apply HD.
    + intros b l Hb. destruct (dl_bins _ _ _ HD _ _ Hb) as (lk & Hk & HSk & Hmk).
      change (bins_ k') with (<[Z.to_nat (bin_num c) := l']> (bins_ k)).
      destruct (decide (b = Z.to_nat (bin_num c))) as [->|Hne].
      * exists l'. split_and!; [|done|].
        -- apply list_lookup_insert_eq. by eapply lookup_lt_Some.
        -- intros y. rewrite Hm, not_elem_of_cons. simplify_eq. tauto.
      * exists lk. rewrite list_lookup_insert_ne by done. split_and!; [done|done|].
        intros y. rewrite Hmk, not_elem_of_cons. split; [|tauto]. intros [Hy HyD]. split_and!; try done.
        intros ->. apply (bn_mem _ _ HB _ _ _ Hb) in Hy as (cy & Hcy & E).
        rewrite (lives_fun _ _ _ _ Hcy Hl) in E. lia.
    + apply (free_ok_push (ck k) (ck k') (free_chunks_list_ k) x c' (fun y => dead s y \/ y ∈ D)).
      * apply HD.
      * intros [[_ Hd]|?]; [by apply Hd in Hl|done].
      * by rewrite Hck, decide_True.
      * done.
      * intros y Hy cy Hcy. exists cy. rewrite Hck, decide_False; [done|]. intros ->.
        destruct Hy as [[_ Hd]|?]; [by apply Hd in Hl|done].
      * intros y. rewrite elem_of_cons. tauto.
Qed.

Lemma delete_chain_path s : wf_core s -> binned ∅ s -> forall F h D k fuel,
  freelist (ck s) h F -> NoDup F -> deleting s D k -> (forall x, x ∈ F -> x ∉ D) ->
  (forall x, x ∈ F -> exists c, lives s x c /\ in_use c = false) ->
  (forall y cy, y ∈ D -> ck s y = Some cy -> lives s y cy) -> (length F < fuel)%nat ->
  exists k', delete_chain fuel h k = Done (tt, k') /\ deleting s (rev F ++ D) k'.
Proof using.
  intros W HB. induction F as [|x F IH]; intros h D k fuel HF HN HD HFD Hfree HDl Hlt;
    (destruct fuel as [|fuel]; [simpl in Hlt; lia|]); cbn [delete_chain].
  { simpl in HF. rewrite HF, Z.eqb_refl. by exists k. }
  destruct HF as (-> & c & Hc & HF). destruct (Hfree x) as (c' & Hl & Hu); [set_solver|].
  assert (c' = c) as -> by (destruct Hl as [Hl _]; congruence).
  rewrite (proj2 (Z.eqb_neq x inv)) by (by eapply (live_ne_inv _ _ _ (wc_linked _ W))).
  apply NoDup_cons in HN as [Hx HN].
  destruct (delete_step s D k x c) as (k1 & R1 & HD1); [done..|apply HFD; set_solver|done|].
  rewrite R1. destruct (IH (next c) (x :: D) k1 fuel) as (k' & R & HD'); [done|done|done|..].
  - intros y Hy. apply not_elem_of_cons. split; [by intros ->|]. apply HFD. set_solver.
  - intros y Hy. apply Hfree. set_solver.
  - intros y cy Hy Hcy. apply elem_of_cons in Hy as [->|Hy]; [|by apply HDl].
    by rewrite Hc in Hcy; simplify_eq.
  - simpl in Hlt. lia.
  - exists k'. split; [done|]. cbn [rev]. by rewrite <-app_assoc.
Qed.

(** ** Removing an emptied region *)

Section remove_region.
Context (s k : B) (D : list Z) (i : nat) (r : AllocationRegion).
Context (Hwf : wf ∅ s) (HD : deleting s D k).
Context (Hi : region_manager_ s !! i = Some r).
Context (HDm : forall x, x ∈ D <-> exists c, lives s x c /\ r_ptr r <= ptr c < r_end_ptr r).
Context (Hfree : forall x c, lives s x c -> r_ptr r <= ptr c < r_end_ptr r -> in_use c = false).

Definition without_region : B :=
  with_regions (delete i (region_manager_ k))
    (with_growth (curr_region_allocation_bytes_ k)
       (u64 (total_region_allocated_bytes_ k - r_memory_size r)) (started_backpedal_ k)
       (sa_Free (sub_allocator_ k) (r_ptr r) (r_memory_size r)) k).
Abbreviation k' := without_region.

Lemma removed_split : exists l1 r' l2, region_manager_ k = l1 ++ r' :: l2 /\
  region_manager_ k' = l1 ++ l2 /\ r_ptr r' = r_ptr r /\ r_end_ptr r' = r_end_ptr r /\
  r_memory_size r' = r_memory_size r.
Proof using All.
  assert (Ep : (r_ptr <$> region_manager_ k) !! i = Some (r_ptr r))
    by (rewrite (dl_ptrs _ _ _ HD), list_lookup_fmap; by rewrite Hi).
  assert (Es : (r_memory_size <$> region_manager_ k) !! i = Some (r_memory_size r))
    by (rewrite (dl_sizes _ _ _ HD), list_lookup_fmap; by rewrite Hi).
  rewrite list_lookup_fmap in Ep, Es. destruct (region_manager_ k !! i) as [r'|] eqn:E; [|done].
  simplify_eq/=. destruct (list_elem_of_split_length _ _ _ E) as (l1 & l2 & El & Ei).
  exists l1, r', l2. split_and!; try done.
  - unfold k'. simpl. rewrite El, Ei, list.delete_middle. done.
  - destruct (regions_ok_lookup _ _ _ (dl_ok _ _ _ HD) E).
    destruct (regions_ok_lookup _ _ _ (wc_regions _ (wf_c _ _ Hwf)) Hi). congruence.
Qed.

Lemma removed_regions :
  regions_ok (region_manager_ k') /\
  (forall a b, rg k' a b <-> rg s a b /\ a <> r_ptr r) /\
  (forall q, slot (rg k') q -> slot (rg s) q /\ ~ (r_ptr r <= q < r_end_ptr r) /\ gh k' q = gh k q) /\
  sum_sizes (region_manager_ k') = sum_sizes (region_manager_ s) - r_memory_size r.
Proof using All.
  destruct removed_split as (l1 & r' & l2 & E1 & E2 & Ep & Ee & Es).
  pose proof (dl_ok _ _ _ HD) as Hok. rewrite E1 in Hok.
  assert (Hok' : regions_ok (region_manager_ k')) by (rewrite E2; by eapply regions_ok_remove).
  assert (Hap : forall x, x ∈ l1 ++ l2 -> before x r' \/ before r' x).
  { intros x. by apply regions_ok_apart. }
  assert (Hel : forall x, x ∈ region_manager_ k <-> x ∈ l1 ++ l2 \/ x = r')
    by (intros x; rewrite E1; set_solver).
  assert (Hbd : forall x, x ∈ region_manager_ k -> r_ptr x < r_end_ptr x).
  { intros x Hx. apply list_elem_of_lookup_1 in Hx as [j Hj].
    destruct (regions_ok_lookup _ _ _ (dl_ok _ _ _ HD) Hj). lia. }
  assert (Hr' : r_ptr r' < r_end_ptr r') by (apply Hbd, Hel; auto).
  assert (Hreg : forall a b, rg k' a b <-> rg s a b /\ a <> r_ptr r).
  { intros a b. rewrite <-(dl_reg _ _ _ HD). unfold rg. rewrite !reg_elem, E2. split.
    - intros (x & Hx & <- & <-). split; [exists x; split; [apply Hel; auto|done]|].
      pose proof (Hbd x (proj2 (Hel x) (or_introl Hx))).
      destruct (Hap x Hx) as [H'|H']; unfold before in H'; lia.
    - intros [(x & Hx & <- & <-) Hne]. apply Hel in Hx as [Hx| ->]; [by exists x|congruence]. }
  split_and!; [done|done| |].
  - intros q (a & b & Hab & Hq & Hm). split_and!.
    + apply Hreg in Hab as [Hab _]. by exists a, b.
    + unfold rg in Hab. rewrite reg_elem, E2 in Hab. destruct Hab as (x & Hx & <- & <-).
      destruct (Hap x Hx) as [H'|H']; unfold before in H'; lia.
    + unfold rg in Hab. rewrite reg_elem in Hab. destruct Hab as (x & Hx & <- & <-).
      unfold gh. rewrite (rm_get_handle_elem _ x); [|done|done|done].
      rewrite (rm_get_handle_elem _ x); [done|apply HD| |done]. rewrite E2 in Hx. apply Hel. auto.
  - rewrite E2. rewrite <-(sum_sizes_fmap _ _ (dl_sizes _ _ _ HD)), E1, !sum_sizes_app.
    cbn [foldr]. lia.
Qed.

Lemma removed_lives x c :
  lives k' x c <-> lives s x c /\ ~ (r_ptr r <= ptr c < r_end_ptr r).
Proof using All.
  destruct removed_regions as (Rok & Rreg & Rslot & _).
  assert (Hgh : forall q, slot (rg k') q -> gh k' q = gh s q).
  { intros q Hq. destruct (Rslot q Hq) as (S1 & S2 & ->). apply (dl_gh _ _ _ HD); [done|].
    intros y cy Hy Hcy <-. apply S2. apply HDm in Hy as (cy' & (Hy & _) & Hr). simplify_eq. done. }
  split.
  - intros (Hc & Hs & Hg). destruct (Rslot _ Hs) as (S1 & S2 & _). rewrite Hgh in Hg by done.
    split; [|done]. change (ck k' x) with (ck k x) in Hc. destruct (decide (x ∈ D)) as [HxD|HxD].
    + exfalso. apply S2. destruct (dl_dead _ _ _ HD x HxD) as (c1 & c2 & H1 & H2 & _ & _ & E).
      rewrite H2 in Hc. simplify_eq. rewrite E. apply HDm in HxD as (c3 & (H3 & _) & Hr).
      rewrite H1 in H3. by simplify_eq.
    + rewrite (dl_ck _ _ _ HD x HxD) in Hc. by split_and!.
  - intros [(Hc & Hs & Hg) Hr].
    assert (HxD : x ∉ D).
    { intros HxD. apply HDm in HxD as (c1 & (H1 & _) & Hr'). rewrite Hc in H1. by simplify_eq. }
    assert (Hs' : slot (rg k') (ptr c)).
    { destruct Hs as (a & b & Hab & Hq & Hm). exists a, b. split; [|done]. apply Rreg. split; [done|].
      intros ->. apply Hr. destruct (geo_disjoint _ (regions_ok_geometry _ (wc_regions _ (wf_c _ _ Hwf)))
        (r_ptr r) b (r_ptr r) (r_end_ptr r)) as [[_ ->]|[?|?]]; [done|by exists i, r|done|lia|].
      destruct (regions_ok_lookup _ _ _ (wc_regions _ (wf_c _ _ Hwf)) Hi). lia. }
    split_and!; [|done|by rewrite Hgh].
    change (ck k' x) with (ck k x). by rewrite (dl_ck _ _ _ HD x HxD).
Qed.

(** Neighbours are in the same region. *)
Lemma same_side x c y cy :
  lives s x c -> lives s y cy -> next c = y ->
  (r_ptr r <= ptr c < r_end_ptr r <-> r_ptr r <= ptr cy < r_end_ptr r).
Proof using All.
  intros Hx Hy E. pose proof (wf_c _ _ Hwf) as W. pose proof (wc_linked _ W) as L.
  pose proof (regions_ok_geometry _ (wc_regions _ W)) as G.
  pose proof (live_ne_inv _ _ _ L _ _ Hy) as Hne. rewrite <-E in Hy, Hne.
  destruct (live_next_prev _ _ _ L _ _ _ Hx Hne Hy) as [Ep _].
  destruct (lk_range _ _ _ L _ _ Hx) as (a & b & Hab & Ha & Hb & Hn & _).
  pose proof (lk_size _ _ _ L _ _ Hx) as [Hs _].
  assert (ptr c + size c <> b) by (by rewrite <-Hn).
  assert (Hr : rg s (r_ptr r) (r_end_ptr r)) by (by exists i, r).
  destruct (geo_disjoint _ G _ _ _ _ Hab Hr) as [[-> ->]|[?|?]]; lia.
Qed.

Lemma removed_linked : linked (ck k') (gh k') (rg k').
Proof using All.
  destruct removed_regions as (Rok & Rreg & Rslot & _).
  pose proof (wf_c _ _ Hwf) as W. pose proof (wc_linked _ W) as L.
  assert (V : forall x c, live (ck k') (gh k') (rg k') x c <->
            lives s x c /\ ~ (r_ptr r <= ptr c < r_end_ptr r)) by apply removed_lives.
  split.
  - change (ck k' inv) with (ck k inv). destruct (decide (inv ∈ D)) as [Hin|Hin].
    + apply HDm in Hin as (c & Hc & _). by apply (live_ne_inv _ _ _ L) in Hc.
    + rewrite (dl_ck _ _ _ HD _ Hin). apply L.
  - intros q Hq. by apply rm_get_handle_total.
  - intros q h Hq Hg Hne. destruct (Rslot q Hq) as (S1 & S2 & Eg).
    assert (Eg' : gh s q = Some h).
    { rewrite <-Hg, Eg. symmetry. apply (dl_gh _ _ _ HD); [done|].
      intros y cy Hy Hcy <-. apply S2. apply HDm in Hy as (cy' & (Hy & _) & Hr). by simplify_eq. }
    destruct (handle_live _ _ _ L q h S1 Eg' Hne) as (c & Hc & Ec).
    exists c. split; [|done]. assert (lives k' h c) as [? _]; [|done]. apply V. by rewrite Ec.
  - intros h c Hc. apply V in Hc as [Hc _]. by apply (lk_size _ _ _ L h).
  - intros h c Hc. apply V in Hc as [Hc Hr]. destruct (lk_range _ _ _ L _ _ Hc) as (a & b & Hab & H').
    exists a, b. split; [|done]. apply Rreg. split; [done|]. intros ->. apply Hr.
    pose proof (lk_size _ _ _ L _ _ Hc) as [Hs _].
    destruct (geo_disjoint _ (regions_ok_geometry _ (wc_regions _ W)) (r_ptr r) b (r_ptr r) (r_end_ptr r))
      as [[_ <-]|[?|?]]; [done|by exists i, r|lia|lia|].
    destruct (regions_ok_lookup _ _ _ (wc_regions _ W) Hi). lia.
  - intros h c Hc Hn. apply V in Hc as [Hc Hr]. destruct (lk_next _ _ _ L _ _ Hc Hn) as (cn & Hcn & H').
    exists cn. split; [|done]. apply V. split; [done|]. by rewrite <-(same_side h c (next c) cn).
  - intros h c Hc Hn. apply V in Hc as [Hc Hr]. destruct (lk_prev _ _ _ L _ _ Hc Hn) as (cp & Hcp & H').
    exists cp. split; [|done]. apply V. split; [done|]. by rewrite (same_side (prev c) cp h c).
  - intros a b Hab. apply Rreg in Hab as [Hab Hne]. destruct (lk_first _ _ _ L _ _ Hab) as (h & c & Hc & E).
    exists h, c. split; [|done]. apply V. split; [done|]. rewrite E.
    destruct (geo_disjoint _ (regions_ok_geometry _ (wc_regions _ W)) a b (r_ptr r) (r_end_ptr r))
      as [[? _]|[?|?]]; [done|by exists i, r|lia| |lia].
    destruct (geo_bounds _ (regions_ok_geometry _ (wc_regions _ W)) _ _ Hab). lia.
Qed.

Lemma removed_core : wf_core k'.
Proof using All.
  pose proof (wf_c _ _ Hwf) as W. pose proof removed_lives as V.
  assert (Hdead : forall x, dead s x \/ x ∈ D <-> dead k' x).
  { intros x. unfold dead at 2. change (ck k' x) with (ck k x). split.
    - intros [[Hx Hd]|HxD].
      + split; [|intros c Hc; apply V in Hc as [Hc _]; by apply Hd in Hc].
        destruct (decide (x ∈ D)) as [HxD|HxD].
        * destruct (dl_dead _ _ _ HD x HxD) as (? & ? & _ & ? & _). eauto.
        * by rewrite (dl_ck _ _ _ HD x HxD).
      + split; [destruct (dl_dead _ _ _ HD x HxD) as (? & ? & _ & ? & _); eauto|].
        intros c Hc. apply V in Hc as [Hc Hr]. apply Hr. apply HDm in HxD as (c' & Hc' & Hr').
        by rewrite (lives_fun _ _ _ _ Hc Hc').
    - intros [Hx Hd]. destruct (decide (x ∈ D)) as [|HxD]; [auto|]. left.
      rewrite (dl_ck _ _ _ HD x HxD) in Hx. split; [done|]. intros c Hc. apply (Hd c), V.
      split; [done|]. intros Hr. apply HxD, HDm. eauto. }
  split.
  - apply removed_regions.
  - apply removed_linked.
  - change (chunks_ k') with (chunks_ k). rewrite (dl_len _ _ _ HD). apply W.
  - eapply free_ok_ext; [|apply Hdead|apply (dl_free _ _ _ HD)]. intros x _ c Hc. by exists c.
  - intros x c Hc Hn. change (ck k' x) with (ck k x) in Hc. destruct (decide (x ∈ D)) as [HxD|HxD].
    + destruct (dl_dead _ _ _ HD x HxD) as (? & ? & _ & ? & ? & ? & _). simplify_eq. done.
    + rewrite (dl_ck _ _ _ HD x HxD) in Hc. eapply (wc_dead _ W); [done|].
      intros c' Hc'. apply (Hn c'), V. split; [done|]. intros Hr. apply HxD, HDm. eauto.
Qed.

Lemma removed_alloc p sz rq id : alloc k' p sz rq id <-> alloc s p sz rq id.
Proof using All.
  pose proof removed_lives as V. split; intros (h & c & Hc & Hu & H').
  - apply V in Hc as [Hc _]. by exists h, c.
  - exists h, c. split; [|done]. apply V. split; [done|]. intros Hr. rewrite (Hfree _ _ Hc Hr) in Hu. done.
Qed.

Lemma removed_binned : binned ∅ k'.
Proof using All.
  pose proof (wf_b _ _ Hwf) as HB. pose proof removed_lives as V.
  assert (Hbk : forall b l, bins_ k !! b = Some l -> exists l0, bins_ s !! b = Some l0 /\
    StronglySorted (bin_lt s) l /\ (forall x, x ∈ l <-> x ∈ l0 /\ x ∉ D)).
  { intros b l Hb. destruct (lookup_lt_is_Some_2 (bins_ s) b) as [l0 Hl0].
    { rewrite <-(dl_binlen _ _ _ HD). by eapply lookup_lt_Some. }
    destruct (dl_bins _ _ _ HD _ _ Hl0) as (l' & Hl' & H1 & H2). simplify_eq. eauto. }
  split.
  - change (bins_ k') with (bins_ k). rewrite (dl_binlen _ _ _ HD). apply HB.
  - intros b l Hb. destruct (Hbk b l Hb) as (l0 & H0 & HS & Hm).
    assert (Hs : StronglySorted (bin_lt k) l); [|exact Hs].
    apply (deleting_sorted s D k l HD); [|done]. intros x Hx. by apply Hm.
  - intros b l x Hb. destruct (Hbk b l Hb) as (l0 & H0 & HS & Hm). rewrite Hm.
    rewrite (bn_mem _ _ HB _ _ _ H0). split.
    + intros [(c & Hc & E) HxD]. exists c. split; [|done]. apply V. split; [done|].
      intros Hr. apply HxD, HDm. eauto.
    + intros (c & Hc & E). apply V in Hc as [Hc Hr]. split; [eauto|]. intros HxD.
      apply HDm in HxD as (c' & Hc' & Hr'). rewrite (lives_fun _ _ _ _ Hc Hc') in Hr. done.
  - intros h c Hc. apply V in Hc as [Hc _]. by eapply (bn_num _ _ HB).
  - intros h. split; [set_solver|]. intros (c & Hc & Hu & E). apply V in Hc as [Hc _].
    apply (bn_T _ _ HB). eauto.
Qed.

Lemma removed_spec :
  garbage_collection_ s = true ->
  wf ∅ k' /\ extends s k' /\ (growth_safe s -> growth_safe k') /\
  same_lender s k'.
Proof using All.
  intros Hgc. pose proof Hwf as [W HB HA]. pose proof HA as [a1 a2 a3 a4 a5 a6 a7 a8 a9].
  destruct removed_regions as (Rok & Rreg & Rslot & Rsum). pose proof removed_lives as V.
  destruct (regions_ok_lookup _ _ _ (wc_regions _ W) Hi) as [o1 o2 o3 o4 o5 o6].
  pose proof (total_bound _ removed_core) as Hb1. pose proof (total_bound _ W) as Hb2.
  assert (Et : total_region_allocated_bytes_ k' = sum_sizes (region_manager_ k')).
  { change (u64 (total_region_allocated_bytes_ k - r_memory_size r) = sum_sizes (region_manager_ k')).
    assert (E : total_region_allocated_bytes_ k = total_region_allocated_bytes_ s)
      by (by rewrite (dl_eq _ _ _ HD)).
    rewrite E, a2, <-Rsum. apply u64_small. unfold in_u64. lia. }
  assert (Ek : k' = with_regions (delete i (region_manager_ k))
    (with_growth (curr_region_allocation_bytes_ s) (total_region_allocated_bytes_ k')
       (started_backpedal_ s) (sa_Free (sub_allocator_ s) (r_ptr r) (r_memory_size r))
       (with_bins (bins_ k) (with_free_list (free_chunks_list_ k) (with_chunks (chunks_ k) s))))).
  { unfold without_region. by rewrite (dl_eq _ _ _ HD). }
  split_and!.
  - split; [apply removed_core|apply removed_binned|]. split.
    + rewrite Ek. simpl. rewrite a1. by rewrite (dl_usage _ _ _ HD).
    + done.
    + intros a b x Hab Hx. apply Rreg in Hab as [Hab Hne]. rewrite Ek. simpl. apply sa_Free_spec.
      split; [by apply (a3 a b)|]. rewrite <-o4.
      destruct (geo_disjoint _ (regions_ok_geometry _ (wc_regions _ W)) a b (r_ptr r) (r_end_ptr r))
        as [[? _]|[?|?]]; [done|by exists i, r|lia|lia|lia].
    + intros p sz rq id Ha. apply removed_alloc in Ha. rewrite Ek. by apply (a4 p).
    + intros p sz rq id p' sz' rq' Hx Hy. apply removed_alloc in Hx, Hy. by eapply a5.
    + by rewrite Ek.
    + by rewrite Ek.
    + by rewrite Ek.
    + rewrite Ek. simpl. destruct (a8 Hgc) as [_ ->]. intros h Hh. by apply not_elem_of_nil in Hh.
  - split.
    + by split; rewrite Ek.
    + by rewrite Ek.
    + by rewrite Ek.
    + apply removed_alloc.
    + intros HU HC. split.
      * intros h c Hc. apply V in Hc as [Hc _]. by eapply HU.
      * intros h c cn Hc Hn U1 U2. apply V in Hc as [Hc _]. apply V in Hn as [Hn _].
        by apply (HC h c cn).
    + split; [unfold sized; by rewrite Ek|]. intros Hg. congruence.
  - intros [g1 g2 g3 g4]. split; try (by rewrite Ek).
    rewrite Et, Rsum. rewrite Ek. simpl. lia.
  - rewrite Ek. split; [done|]. by exists [(r_ptr r, r_memory_size r)].
Qed.
End remove_region.

Lemma extends_refl s : extends s s.
Proof using. by split. Qed.

Lemma extends_trans s1 s2 s3 : extends s1 s2 -> extends s2 s3 -> extends s1 s3.
Proof using.
  intros [a1 a2 a3 a4 a5 a6] [b1 b2 b3 b4 b5 b6]. split; try congruence.
  - by transitivity s2.
  - intros. by rewrite b4.
  - intros HU HC. destruct (a5 HU HC). auto.
  - eapply keeps_growth_trans; [apply (ce_gc _ _ a1)|apply (ce_limit _ _ b1)|done|done].
Qed.

(** ** The loops *)

(** Every chunk of a region that starts at an address of [ptrs] is free. *)
Definition free_regions (s : B) (ptrs : list Z) : Prop :=
  forall a b h c, rg s a b -> a ∈ ptrs -> lives s h c -> a <= ptr c < b -> in_use c = false.

Lemma delete_region_spec s i r :
  wf ∅ s -> garbage_collection_ s = true -> region_manager_ s !! i = Some r ->
  (forall h c, lives s h c -> r_ptr r <= ptr c < r_end_ptr r -> in_use c = false) ->
  exists h k, gh s (r_ptr r) = Some h /\
    delete_chain (S (length (chunks_ s))) h s = Done (tt, k) /\
    wf ∅ (without_region k i r) /\ extends s (without_region k i r) /\
    (growth_safe s -> growth_safe (without_region k i r)) /\
    same_lender s (without_region k i r) /\
    (forall h c, lives (without_region k i r) h c -> lives s h c) /\
    (forall a b, rg (without_region k i r) a b -> rg s a b) /\
    length (region_manager_ (without_region k i r)) = pred (length (region_manager_ s)).
Proof using.
  intros Hwf Hgc Hi Hfree. pose proof Hwf as [W HB HA].
  assert (Hr : rg s (r_ptr r) (r_end_ptr r)) by (by exists i, r).
  destruct (region_path s _ _ W Hr) as (h & F & Hg & HF & HN & Hm & Hlen).
  destruct (delete_chain_path s W HB (h :: F) h [] s (S (length (chunks_ s)))) as (k & R & HD);
    [done|done|by eapply deleting_nil|set_solver| |set_solver|lia|].
  { intros x Hx. apply Hm in Hx as (c & Hc & Hrc). eauto. }
  rewrite app_nil_r in HD. set (D := rev (h :: F)) in *.
  assert (HDm : forall x, x ∈ D <-> exists c, lives s x c /\ r_ptr r <= ptr c < r_end_ptr r).
  { intros x. unfold D. rewrite <-Hm. rewrite !list_elem_of_In. symmetry. apply in_rev. }
  destruct (removed_spec s k D i r Hwf HD Hi HDm Hfree Hgc) as (W' & E' & G' & S').
  destruct (removed_regions s k D i r Hwf HD Hi HDm Hfree) as (_ & Rreg & _).
  exists h, k. split_and!; try done.
  - intros x c Hc. by apply (removed_lives s k D i r Hwf HD Hi HDm Hfree) in Hc as [Hc _].
  - intros a b Hab. by apply Rreg in Hab as [Hab _].
  - unfold without_region. simpl. assert (El : length (region_manager_ k) = length (region_manager_ s)).
    { rewrite <-(length_fmap r_ptr), (dl_ptrs _ _ _ HD). by rewrite length_fmap. }
    rewrite length_delete, El; [lia|]. apply lookup_lt_is_Some_2. rewrite El. by eapply lookup_lt_Some.
Qed.

Lemma DeallocateRegions_loop_spec ptrs n : forall i s,
  wf ∅ s -> garbage_collection_ s = true -> free_regions s ptrs ->
  exists s', DeallocateRegions_loop n i ptrs s = Done (tt, s') /\ wf ∅ s' /\ extends s s' /\
    (growth_safe s -> growth_safe s') /\ same_lender s s'.
Proof using.
  assert (Hstop : forall s, wf ∅ s -> exists s', Done (tt, s) = Done (tt, s') /\ wf ∅ s' /\ extends s s' /\
    (growth_safe s -> growth_safe s') /\ same_lender s s').
  { intros s Hwf. exists s. split; [done|]. split; [done|]. split; [apply extends_refl|]. done. }
  induction n as [|n IH]; intros i s Hwf Hgc Hfr; cbn [DeallocateRegions_loop]; [by apply Hstop|].
  unfold bind at 1, get. destruct (region_manager_ s !! i) as [r|] eqn:Hi; [|by apply Hstop].
  case_bool_decide as Hin; cbn [negb]; [|by apply IH].
  assert (Hr : rg s (r_ptr r) (r_end_ptr r)) by (by exists i, r).
  destruct (delete_region_spec s i r) as (h & k & Hg & R & W' & E' & G' & S' & V' & Rg' & _); [done..| |].
  { intros h c Hc Hrc. by apply (Hfr (r_ptr r) (r_end_ptr r) h c). }
  rewrite (run_get_handle _ _ _ _ Hg), (bind_Done _ _ _ _ _ R). unfold bind at 1 2, modify.
  fold (without_region k i r).
  destruct (IH i (without_region k i r)) as (s' & R2 & W2 & E2 & G2 & S2).
  - done.
  - by rewrite (ce_gc _ _ (ex_config _ _ E')).
  - intros a b x c Hab Ha Hc. apply (Hfr a b x c); auto.
  - exists s'. split; [exact R2|]. split; [done|]. split; [by eapply extends_trans|].
    split; [auto|]. by etrans.
Qed.

Lemma chain_any_use_path (s : B) : forall F h fuel,
  freelist (ck s) h F -> (forall x, x ∈ F -> x <> inv) -> (length F < fuel)%nat ->
  exists b : bool, chain_any_use fuel h s = Done (b, s) /\
    (b = false -> forall x c, x ∈ F -> ck s x = Some c -> in_use c = false).
Proof using.
  induction F as [|x F IH]; intros h fuel HF Hne Hlt;
    (destruct fuel as [|fuel]; [simpl in Hlt; lia|]); cbn [chain_any_use].
  - simpl in HF. rewrite HF, Z.eqb_refl. exists false. split; [done|]. set_solver.
  - destruct HF as (-> & c & Hc & HF). rewrite (proj2 (Z.eqb_neq x inv)) by (apply Hne; set_solver).
    rewrite (run_chunk _ _ _ _ Hc). destruct (in_use c) eqn:Hu; [by exists true|].
    destruct (IH (next c) fuel) as (b & R & Hb); [done|set_solver|simpl in Hlt; lia|].
    exists b. split; [done|]. intros -> y cy Hy Hcy.
    apply elem_of_cons in Hy as [->|Hy]; [by simplify_eq|by eapply Hb].
Qed.

Lemma find_free_regions_spec s : wf_core s -> forall rs ptrs total,
  (forall r, r ∈ rs -> rg s (r_ptr r) (r_end_ptr r)) -> free_regions s ptrs ->
  exists ptrs' total', find_free_regions rs ptrs total s = Done ((ptrs', total'), s) /\
    free_regions s ptrs'.
Proof using.
  intros W. induction rs as [|r rs IH]; intros ptrs total Hrs Hfr; cbn [find_free_regions].
  { by exists ptrs, total. }
  assert (Hr : rg s (r_ptr r) (r_end_ptr r)) by (apply Hrs; set_solver).
  destruct (region_path s _ _ W Hr) as (h & F & Hg & HF & HN & Hm & Hlen).
  rewrite (run_get_handle _ _ _ _ Hg). unfold bind at 1, get.
  destruct (chain_any_use_path s (h :: F) h (S (length (chunks_ s)))) as (b & R & Hb); [done| |lia|].
  { intros x Hx. apply Hm in Hx as (c & Hc & _). by apply (live_ne_inv _ _ _ (wc_linked _ W)) in Hc. }
  rewrite (bind_Done _ _ _ _ _ R). destruct b.
  { apply IH; [set_solver|done]. }
  apply IH; [set_solver|]. intros a b' x c Hab Ha Hc Hrc. apply elem_of_cons in Ha as [->|Ha].
  - destruct (geo_bounds _ (regions_ok_geometry _ (wc_regions _ W)) _ _ Hr) as (_ & ? & _).
    destruct (geo_bounds _ (regions_ok_geometry _ (wc_regions _ W)) _ _ Hab) as (_ & ? & _).
    destruct (geo_unique _ _ _ _ _ (r_ptr r) (regions_ok_geometry _ (wc_regions _ W)) Hab Hr) as [_ ->];
      [lia|lia|].
    apply (Hb eq_refl x c); [apply Hm; eauto|apply Hc].
  - by apply (Hfr a b' x c).
Qed.

Lemma DeallocateFreeRegions_spec s rb :
  wf ∅ s -> exists (b : bool) s', DeallocateFreeRegions rb s = Done (b, s') /\ wf ∅ s' /\ extends s s' /\
    (growth_safe s -> growth_safe s') /\ same_lender s s'.
Proof using.
  intros Hwf. unfold DeallocateFreeRegions. unfold bind at 1, get.
  assert (Hno : exists (b : bool) s', Done (false, s) = Done (b, s') /\ wf ∅ s' /\ extends s s' /\
    (growth_safe s -> growth_safe s') /\ same_lender s s').
  { exists false, s. split; [done|]. split; [done|]. split; [apply extends_refl|]. done. }
  destruct (garbage_collection_ s) eqn:Hgc; cbn [negb]; [|done].
  destruct (find_free_regions_spec s (wf_c _ _ Hwf) (region_manager_ s) [] 0) as (ptrs & total & R & Hfr).
  { intros r Hr. apply reg_elem. eauto. }
  { intros a b h c _ Ha. by apply not_elem_of_nil in Ha. }
  rewrite (bind_Done _ _ _ _ _ R). destruct (total =? 0); [done|]. cbv zeta.
  destruct (_ <? rb); [done|]. unfold DeallocateRegions. rewrite bind_assoc_s. unfold bind at 1, get.
  destruct (DeallocateRegions_loop_spec ptrs (length (region_manager_ s)) 0 s) as (s' & R' & W' & E' & G' & S');
    [done..|].
  rewrite (bind_Done _ _ _ _ _ R'). exists true, s'. split; [done|]. split; [done|]. split; [done|]. done.
Qed.
End gc.
