(* ===== verification/BfcProps.v ===== *)
(** * The public operations of the allocator *)
From S2P Require Import Prelude Bfc BfcRegions BfcLinks BfcInv BfcOps BfcAlloc BfcDealloc BfcExtend BfcGc.
From stdpp Require Import options.
#[local] Open Scope tf_monad_scope.

Section main.
Context `{SA : SubAllocator} {SL : SubAllocatorLaws SA}.
Abbreviation B := BFCAllocator.

(** No free chunk has a free neighbour; no free times are in play. *)
Record coalesced (s : B) : Prop := {
  co_timing : timing_counter_ s = None;
  co_ts : timestamped_chunks_ s = [];
  co_un : unstamped s;
  co_coal : coal ∅ s
}.

(** Internal reorganisation: the clients' blocks are untouched. *)
Record quiet (s s' : B) : Prop := {
  qu_config : config_eq s s';
  qu_id : next_allocation_id_ s' = next_allocation_id_ s;
  qu_allocs p sz rq id : alloc s' p sz rq id <-> alloc s p sz rq id;
  qu_coal : coalesced s -> coalesced s';
  qu_growth : keeps_growth s s'
}.

#[export] Instance quiet_preorder : PreOrder quiet.
Proof using.
  split; [intros s; by split|].
  intros s1 s2 s3 [a1 a2 a3 a4 a5] [b1 b2 b3 b4 b5]. split; [|congruence| |auto|].
  - by transitivity s2.
  - intros. by rewrite b3.
  - eapply keeps_growth_trans; [apply (ce_gc _ _ a1)|apply (ce_limit _ _ b1)|done|done].
Qed.

Lemma extends_quiet s s' : extends s s' -> quiet s s'.
Proof using.
  intros [e1 e2 e3 e4 e5 e6]. split; try done. intros [c1 c2 c3 c4]. destruct (e5 c3 c4).
  split; [|congruence|done|done]. by rewrite (ce_timing _ _ e1).
Qed.

(** Merging timestamped chunks does not touch the region bookkeeping. *)
Lemma merge_quiet s rb :
  wf ∅ s -> timestamped_chunks_ s <> [] ->
  exists s' (b : bool), MergeTimestampedChunks rb s = Done (b, s') /\ wf ∅ s' /\ quiet s s' /\
    (growth_safe s -> growth_safe s') /\ same_lender s s'.
Proof using.
  intros Hwf Hts.
  assert (Hgc : garbage_collection_ s = false).
  { destruct (garbage_collection_ s) eqn:E; [|done]. by destruct (ac_gc _ (wf_a _ _ Hwf) E). }
  destruct (MergeTimestampedChunks_spec rb s Hwf Hgc) as (s' & b & R & W' & A & ts & F).
  exists s', b. split; [done|]. split; [done|]. split; [|split].
  - split.
    + by split; rewrite (fr_eq _ _ F).
    + by rewrite (fr_eq _ _ F).
    + done.
    + intros [_ ? _ _]. done.
    + apply keeps_growth_same; by rewrite (fr_eq _ _ F).
  - intros [g1 g2 g3 g4]. by split; rewrite (fr_eq _ _ F).
  - rewrite (fr_eq _ _ F). split; [done|by exists []].
Qed.

(** The outcome of an allocation of [nb] bytes. *)
Definition alloc_post (s : B) (nb p : Z) (s' : B) : Prop :=
  (p = 0 /\ quiet s s') \/
  (p <> 0 /\ config_eq s s' /\ (coalesced s -> coalesced s') /\ keeps_growth s s' /\
   next_allocation_id_ s' = next_allocation_id_ s + 1 /\
   exists sz, RoundedBytes nb <= sz /\
     forall q z rq id, alloc s' q z rq id <-> alloc s q z rq id \/
       (q = p /\ z = sz /\ rq = nb /\ id = next_allocation_id_ s)).

Lemma quiet_alloc_post s s1 nb p s' : quiet s s1 -> alloc_post s1 nb p s' -> alloc_post s nb p s'.
Proof using.
  intros Q [[-> Q']|(Hp & C & Hc & Hg & Hid & sz & Hsz & A)]; [left|right].
  - split; [done|]. by transitivity s1.
  - destruct Q as [q1 q2 q3 q4 q5]. split_and!; [done|by transitivity s1|auto| |congruence|].
    { eapply keeps_growth_trans; [apply (ce_gc _ _ q1)|apply (ce_limit _ _ C)|done|done]. }
    exists sz. split; [done|]. intros. rewrite A, q3. by rewrite q2.
Qed.

(** A search, with the trace record of a successful one. *)
Lemma find_stage s nb fb :
  wf ∅ s -> 0 < nb <= 2 ^ 64 - 256 ->
  exists p s', FindChunkPtr (BinNumForSize (RoundedBytes nb)) (RoundedBytes nb) nb fb s = Done (p, s') /\
    wf ∅ s' /\ alloc_post s nb p s' /\
    (p = 0 -> s' = s /\ forall c, free_chunk s c -> ~ eligible c (RoundedBytes nb) fb) /\
    (p <> 0 -> AddTraceMe p s' = Done (tt, s')).
Proof using.
  intros Hwf Hnb. destruct (RoundedBytes_spec nb) as (R1 & R2 & _); [lia|].
  destruct (FindChunkPtr_spec s (RoundedBytes nb) nb fb Hwf) as
    [(c & s' & R & _ & He & _ & Hp & W' & C' & I' & T' & A' & Q')|[R Hno]]; [lia|done| |].
  - exists (ptr c), s'. split; [done|]. split; [done|]. split; [|split].
    + right. split_and!; try done.
      * intros [c1 c2 c3 c4]. destruct (Q' c3 c4). split; try done.
        -- by rewrite (ce_timing _ _ C').
        -- by rewrite (sp_ts _ _ T').
      * by apply same_pool_growth.
      * eexists. split; [|exact A']. by apply taken_size_bounds, He.
    + done.
    + intros _. destruct (alloc_handle s' (ptr c) (taken_size s (size c) (RoundedBytes nb)) nb
        (next_allocation_id_ s)) as (h & ch & Hg & Hl & _); [apply W'|apply A'; auto|].
      unfold AddTraceMe. rewrite (run_get_handle _ _ _ _ Hg), (run_chunk _ _ _ _ (lives_ck _ _ _ Hl)). done.
  - exists 0, s. split_and!; try done; [apply Hwf..|]. left. split; [done|]. reflexivity.
Qed.

Lemma backpedal_safe_eq s s' rb :
  config_eq s s' -> same_lender s s' -> backpedal_safe s rb -> backpedal_safe s' rb.
Proof using.
  unfold backpedal_safe. intros C [-> [fs ->]]. rewrite (ce_limit _ _ C).
  intros [?|[?|Hw]]; [auto|auto|]. right; right. intros fs' al n.
  unfold frees. rewrite <-foldl_app. apply Hw.
Qed.

(** What the stages of an allocation pass on while no chunk has been found. *)
Record pending (fuel : nat) (s0 s : B) (rb : Z) : Prop := {
  pd_wf : wf ∅ s;
  pd_sized : sized s;
  pd_quiet : quiet s0 s;
  pd_progress : progress fuel s0 rb -> progress fuel s rb
}.

Lemma pending_next fuel s0 s s' rb : pending fuel s0 s rb -> wf ∅ s' -> quiet s s' -> (growth_safe s -> growth_safe s') -> same_lender s s' -> pending fuel s0 s' rb.
Proof using.
  intros [Hwf Hsz Q HP] W' Q' G' S'. split; [done|by apply (proj1 (qu_growth _ _ Q'))|by transitivity s|]. intros Hp. destruct (HP Hp) as [p1 p2 p3].
  split; [done|auto|]. eapply backpedal_safe_eq; [apply Q'|done..].
Qed.

(** A finished allocation; or one that ran out of fuel, as it may when [Extend]
    makes no progress. *)
Definition allocated (fuel : nat) (s0 : B) (nb : Z) (o : outcome (Z * B)) : Prop :=
  (o = OutOfFuel /\ ~ progress fuel s0 (RoundedBytes nb)) \/
  exists p s', o = Done (p, s') /\ wf ∅ s' /\ sized s' /\ alloc_post s0 nb p s' /\
    (p = 0 -> backpedal_safe s0 (RoundedBytes nb) -> growth_safe s0 -> (enough_fuel <= fuel)%nat -> backpedal_safe s' (RoundedBytes nb)).

(** A search followed by the rest [K] of the allocation. *)
Lemma search_then fuel s0 s nb fb (K : M B Z) :
  0 < nb <= 2 ^ 64 - 256 -> pending fuel s0 s (RoundedBytes nb) ->
  ((forall c, free_chunk s c -> ~ eligible c (RoundedBytes nb) fb) -> allocated fuel s0 nb (K s)) ->
  allocated fuel s0 nb
    ((p <~ FindChunkPtr (BinNumForSize (RoundedBytes nb)) (RoundedBytes nb) nb fb;;
      if negb (p =? 0) then AddTraceMe p;;; ret p else K) s).
Proof using.
  intros Hnb [Hwf Hsz Q _] HK.
  destruct (find_stage s nb fb Hwf Hnb) as (p & s' & R & W' & P & H0 & H1).
  rewrite (bind_Done _ _ _ _ _ R). destruct (Z.eqb_spec p 0) as [Ep|Ep]; cbn [negb].
  - destruct (H0 Ep) as [-> Hno]. auto.
  - right. exists p, s'. rewrite (bind_Done _ _ _ _ _ (H1 Ep)). split; [done|]. split; [done|].
    split; [|split; [by eapply quiet_alloc_post|done]]. destruct P as [[_ Q']|(_ & _ & _ & Hg & _)]; [by apply (proj1 (qu_growth _ _ Q'))|by apply (proj1 Hg)].
Qed.

Lemma extend_then fuel s0 s al nb fb (K : M B Z) :
  0 < nb <= 2 ^ 64 - 256 -> 0 <= fb -> pending fuel s0 s (RoundedBytes nb) ->
  (forall s', pending fuel s0 s' (RoundedBytes nb) -> allocated fuel s0 nb (K s')) ->
  allocated fuel s0 nb
    ((extended <~ Extend fuel al (RoundedBytes nb);;
      p <~ (if (extended : bool)
            then FindChunkPtr (BinNumForSize (RoundedBytes nb)) (RoundedBytes nb) nb fb else ret 0);;
      if negb (p =? 0) then AddTraceMe p;;; ret p else K) s).
Proof using.
  intros Hnb Hfb Hp HK. pose proof Hp as [Hwf Hsz Q HP]. destruct (RoundedBytes_spec nb) as (R1 & R2 & _); [lia|].
  destruct (Extend_spec s fuel al (RoundedBytes nb) Hwf Hsz) as [[R Hno]|(b & s1 & R & W1 & E1 & Hres)]; [lia| |].
  { left. unfold bind at 1. rewrite R. split; [done|]. auto. }
  assert (Q1 : quiet s0 s1) by (transitivity s; [done|by apply extends_quiet]).
  assert (Hsz1 : sized s1) by (by apply (proj1 (ex_growth _ _ E1))).
  rewrite (bind_Done _ _ _ _ _ R). destruct b.
  - destruct Hres as (c & Hf & Hc & Hfr).
    destruct (find_stage s1 nb fb W1 Hnb) as (p & s' & R' & W' & P & H0 & H1). rewrite (bind_Done _ _ _ _ _ R').
    destruct (Z.eqb_spec p 0) as [Ep|Ep]; cbn [negb].
    + exfalso. destruct (H0 Ep) as [_ Hno]. apply (Hno c Hf). split; [done|]. lia.
    + right. exists p, s'. rewrite (bind_Done _ _ _ _ _ (H1 Ep)). split; [done|]. split; [done|].
      split; [|split; [by eapply quiet_alloc_post|done]]. destruct P as [[_ Q']|(_ & _ & _ & Hg & _)]; [by apply (proj1 (qu_growth _ _ Q'))|by apply (proj1 Hg)].
  - rewrite bind_ret_l. apply HK. destruct Hres as (_ & G1 & B1). split; [done|done|done|]. intros Hp'. destruct (HP Hp') as [p1 p2 p3]. split; auto.
Qed.

Lemma pending_end fuel s0 s nb : pending fuel s0 s (RoundedBytes nb) -> allocated fuel s0 nb (Done (0, s)).
Proof using.
  intros [Hwf Hsz Q HP]. right. exists 0, s. split_and!; try done; [apply Hwf..|by left|]. intros _ Hb Hg Hf. by apply HP.
Qed.

Lemma AllocateRawInternal_spec s fuel al nb fb :
  wf ∅ s -> sized s -> 0 <= nb <= 2 ^ 64 - 256 -> 0 <= fb -> allocated fuel s nb (AllocateRawInternal fuel al nb fb s).
Proof using.
  intros Hwf Hsz Hnb Hfb. unfold AllocateRawInternal. assert (P0 : pending fuel s s (RoundedBytes nb)) by done.
  destruct (Z.eqb_spec nb 0) as [->|Hnz]; [by apply pending_end|].
  cbv zeta. unfold bind at 1, get.
  assert (exists s1, (if negb (bool_decide (timestamped_chunks_ s = []))
     then MergeTimestampedChunks 0;;; ret tt else ret tt) s = Done (tt, s1) /\
     pending fuel s s1 (RoundedBytes nb)) as (s1 & R1 & P1).
  { case_bool_decide as Hts; cbn [negb]; [by exists s|].
    destruct (merge_quiet s 0 Hwf Hts) as (s1 & b & R & W1 & Q1 & G1 & S1).
    exists s1. rewrite (bind_Done _ _ _ _ _ R). split; [done|]. by eapply pending_next. }
  rewrite (bind_Done _ _ _ _ _ R1).
  apply search_then; [lia|done|]. intros _.
  apply extend_then; [lia|done|done|]. intros s2 P2. unfold bind at 1, get.
  assert (HK : forall s3, pending fuel s s3 (RoundedBytes nb) -> allocated fuel s nb
    ((freed <~ DeallocateFreeRegions (RoundedBytes nb);;
      extended <~ (if (freed : bool) then Extend fuel al (RoundedBytes nb) else ret false);;
      p <~ (if (extended : bool)
            then FindChunkPtr (BinNumForSize (RoundedBytes nb)) (RoundedBytes nb) nb fb else ret 0);;
      if negb (p =? 0) then AddTraceMe p;;; ret p else ret 0) s3)).
  { intros s3 P3.
    destruct (DeallocateFreeRegions_spec s3 (RoundedBytes nb) (pd_wf _ _ _ _ P3)) as (b & s4 & R4 & W4 & E4 & G4 & S4).
    assert (P4 : pending fuel s s4 (RoundedBytes nb)) by (eapply pending_next; [done|done|by apply extends_quiet|done|done]).
    rewrite (bind_Done _ _ _ _ _ R4). destruct b.
    - apply extend_then; [lia|done|done|]. intros s5 P5. by apply pending_end.
    - rewrite !bind_ret_l. by apply pending_end. }
  destruct ((fb =? 0) && negb (bool_decide (timestamped_chunks_ s2 = []))) eqn:Em.
  2:{ rewrite bind_ret_l. by apply HK. }
  apply andb_true_iff in Em as [_ Em]. apply negb_true_iff, bool_decide_eq_false in Em.
  rewrite bind_assoc_s.
  destruct (merge_quiet s2 (RoundedBytes nb) (pd_wf _ _ _ _ P2) Em) as (s3 & b & R3 & W3 & Q3 & G3 & S3).
  assert (P3 : pending fuel s s3 (RoundedBytes nb)) by (by eapply pending_next).
  rewrite (bind_Done _ _ _ _ _ R3). destruct b; [|rewrite bind_ret_l; by apply HK].
  apply search_then; [lia|done|]. intros _. by apply HK.
Qed.
End main.

(** * What the allocator promises

    The allocator as a transition system: [BFCAllocator_new] followed by any
    sequence of public operations that respect the clients' obligations.  The
    invariant holds in every reachable state, every operation returns, and the
    clients see the abstract specification [spec_step]: a map of pairwise
    disjoint blocks. *)

(** ** Operations *)

(** [OpAlloc al nb fb] is one attempt of [AllocateRaw] with
    [freed_by_count = fb]; the value of an operation is the pointer returned,
    0 for operations that return none. *)
Inductive op :=
| OpAlloc (alignment num_bytes freed_before : Z)
| OpDealloc (p : Z)
| OpSetSafeFrontier (count : Z)
| OpSetTimingCounter (sc : option Z)
| OpClearStats.

Section props.
Context `{SA : SubAllocator} {SL : SubAllocatorLaws SA}.
Abbreviation B := BFCAllocator.

Definition exec (fuel : nat) (o : op) : M B Z :=
  match o with
  | OpAlloc al nb fb => AllocateRawInternal fuel al nb fb
  | OpDealloc p => DeallocateRaw p;;; ret 0
  | OpSetSafeFrontier n => SetSafeFrontier n;;; ret 0
  | OpSetTimingCounter sc => SetTimingCounter sc;;; ret 0
  | OpClearStats => ClearStats;;; ret 0
  end.

(** What a client must respect: sizes that can be rounded up, freeing only
    blocks it holds, and no free times together with garbage collection. *)
Definition valid (s : B) (o : op) : Prop :=
  match o with
  | OpAlloc al nb fb => 0 <= nb <= 2 ^ 64 - 256 /\ 0 <= fb
  | OpDealloc p => p = 0 \/ exists sz rq id, alloc s p sz rq id
  | OpSetTimingCounter sc => garbage_collection_ s = false
  | OpSetSafeFrontier _ | OpClearStats => True
  end.

(** When an operation is sure to return: only allocations have loops that may
    not end. *)
Definition op_progress (fuel : nat) (s : B) (o : op) : Prop :=
  match o with OpAlloc _ nb _ => progress fuel s (RoundedBytes nb) | _ => True end.

Inductive reachable (fuel : nat) : B -> Prop :=
| reach_init sub total_memory allow_growth garbage_collection s :
    BFCAllocator_new sub total_memory allow_growth garbage_collection = Done s -> reachable fuel s
| reach_step s o r s' :
    reachable fuel s -> valid s o -> exec fuel o s = Done (r, s') -> reachable fuel s'.

(** ** Construction *)

Lemma bin_checks_pass : forallb bin_checks (seqZ 0 kNumBins) = true.
Proof using. vm_compute. reflexivity. Qed.

Lemma new_wf sub total allow gc s :
  BFCAllocator_new sub total allow gc = Done s -> wf ∅ s.
Proof using.
  unfold BFCAllocator_new. rewrite bin_checks_pass. intros E. simplify_eq.
  set (s := mkBFC _ _ _ _ _ _ _ _ _ _ _ _ _ _ _ _ _ _).
  assert (Hlv : forall h c, ~ lives s h c).
  { intros h c (H & _). unfold ck, lookup_chunk in H. simpl in H. by destruct (0 <=? h). }
  assert (Hrg : forall a b, ~ rg s a b) by (intros a b (i & r & Hi & _); done).
  assert (Hck : forall h, ck s h = None) by (intros h; unfold ck, lookup_chunk; simpl; by destruct (0 <=? h)).
  assert (Hsl : forall q, ~ slot (rg s) q) by (intros q (a & b & Hab & _); by apply Hrg in Hab).
  assert (Hal : forall p sz rq id, ~ alloc s p sz rq id) by (intros p sz rq id (h & c & Hc & _); by apply Hlv in Hc).
  split.
  - split.
    + split; [constructor|]. intros i j ri rj Hi. done.
    + split; try (intros; exfalso; naive_solver). apply Hck.
    + simpl. pose proof inv_value. lia.
    + exists []. split_and!; [done|constructor|]. intros h. split; [set_solver|]. intros [[c Hc] _].
      by rewrite Hck in Hc.
    + intros h c Hc. by rewrite Hck in Hc.
  - assert (Hb : forall b l, bins_ s !! b = Some l -> l = []).
    { intros b l Hb. simpl in Hb. by apply (lookup_replicate (Z.to_nat kNumBins)) in Hb as [? _]. }
    split.
    + done.
    + intros b l Hl. rewrite (Hb _ _ Hl). constructor.
    + intros b l h Hl. rewrite (Hb _ _ Hl). split; [set_solver|]. intros (c & Hc & _). by apply Hlv in Hc.
    + intros h c Hc. by apply Hlv in Hc.
    + intros h. split; [set_solver|]. intros (c & Hc & _). by apply Hlv in Hc.
  - split; try done.
    + intros a b x Hab. by apply Hrg in Hab.
    + intros p sz rq id Ha. by apply Hal in Ha.
    + intros p sz rq id p' sz' rq' Ha. by apply Hal in Ha.
    + exists (Z.shiftl 128 20). split; [done|]. vm_compute. done.
    + intros h Hh. by apply not_elem_of_nil in Hh.
Qed.

Lemma new_sized sub total allow gc s : BFCAllocator_new sub total allow gc = Done s -> sized s.
Proof using.
  unfold BFCAllocator_new. rewrite bin_checks_pass. intros E. simplify_eq. unfold sized. simpl. destruct allow; apply RoundedBytes_mod.
Qed.

Lemma new_growth sub total allow gc s :
  BFCAllocator_new sub total allow gc = Done s -> 0 < total < 2 ^ 59 -> growth_inv s.
Proof using.
  unfold BFCAllocator_new. rewrite bin_checks_pass. intros E Ht. simplify_eq.
  assert (Hc : forall n, 0 < n <= total -> 0 < RoundedBytes n < 2 ^ 64 /\ RoundedBytes n mod 256 = 0 /\
    RoundedBytes n <= 2 * total + 512).
  { intros n Hn. destruct (RoundedBytes_spec n) as (R1 & R2 & _); [lia|]. split_and!; try done; lia. }
  assert (Hm : 0 < total `min` Z.shiftl 2 20 <= total).
  { change (Z.shiftl 2 20) with 2097152. lia. }
  destruct (Hc total ltac:(lia)) as (A1 & A2 & A3). destruct (Hc _ Hm) as (B1 & B2 & B3).
  split; [split|..]; simpl; try lia.
  - by destruct allow.
  - by destruct allow.
  - destruct (total - 0 <? 256), allow; lia.
Qed.

(** ** The clients' view *)

Definition block : Type := Z * Z * Z.

(** The blocks in use: start address to size, requested size and id. *)
Definition blocks (s : B) : gmap Z block :=
  list_to_map ((fun c => (ptr c, (size c, requested_size c, allocation_id c))) <$>
    filter (fun c => in_use c = true) (chunks_ s)).

Lemma in_use_lives s h c : wf_core s -> ck s h = Some c -> in_use c = true -> lives s h c.
Proof using.
  intros W Hc Hu. destruct (decide (exists c', lives s h c')) as [[c' Hl]|Hn].
  - pose proof (lives_ck _ _ _ Hl). unfold ck in Hc. congruence.
  - exfalso. destruct (wc_dead _ W h c Hc) as [E _]; [naive_solver|].
    rewrite in_use_false in Hu by done. done.
Qed.

Lemma elem_of_used s p b :
  wf_core s ->
  (p, b) ∈ (fun c => (ptr c, (size c, requested_size c, allocation_id c))) <$>
    filter (fun c => in_use c = true) (chunks_ s) <-> alloc s p b.1.1 b.1.2 b.2.
Proof using.
  intros W. rewrite list_elem_of_fmap. split.
  - intros (c & E & Hc). apply list_elem_of_filter in Hc as [Hu Hc].
    apply list_elem_of_lookup_1 in Hc as [i Hi].
    assert (Hk : ck s (Z.of_nat i) = Some c).
    { unfold ck, lookup_chunk. rewrite (proj2 (Z.leb_le _ _)) by lia. by rewrite Nat2Z.id. }
    exists (Z.of_nat i), c. simplify_eq/=. split; [by apply in_use_lives|done].
  - intros (h & c & Hl & Hu & <- & E1 & E2 & E3). exists c. destruct b as [[sz rq] id]. simplify_eq/=.
    split; [done|]. apply list_elem_of_filter. split; [done|]. pose proof (lives_ck _ _ _ Hl) as Hc.
    unfold lookup_chunk in Hc. destruct (0 <=? h); [|done]. by eapply list_elem_of_lookup_2.
Qed.

(** One block per start address, and blocks do not overlap. *)
Lemma alloc_apart s p sz rq id p' sz' rq' id' :
  wf_core s -> alloc s p sz rq id -> alloc s p' sz' rq' id' ->
  (p = p' /\ sz = sz' /\ rq = rq' /\ id = id') \/ p + sz <= p' \/ p' + sz' <= p.
Proof using.
  intros W (h & c & Hl & _ & <- & <- & <- & <-) (h' & c' & Hl' & _ & <- & <- & <- & <-).
  destruct (decide (h = h')) as [->|Hne].
  - rewrite (lives_fun _ _ _ _ Hl Hl'). auto.
  - right. by eapply (live_disjoint _ _ _ (regions_ok_geometry _ (wc_regions _ W)) (wc_linked _ W)).
Qed.

Lemma alloc_bounds s p sz rq id :
  wf_core s -> alloc s p sz rq id -> 0 < p /\ 0 < sz /\ p + sz < 2 ^ 63 /\ sz mod 256 = 0.
Proof using.
  intros W (h & c & Hl & _ & <- & <- & _). pose proof (lives_bounds _ _ _ W Hl).
  pose proof (lk_size _ _ _ (wc_linked _ W) _ _ Hl). lia.
Qed.

Lemma blocks_spec s p b : wf_core s -> blocks s !! p = Some b <-> alloc s p b.1.1 b.1.2 b.2.
Proof using.
  intros W. unfold blocks. rewrite <-(elem_of_used s p b W). split.
  - apply elem_of_list_to_map_2.
  - intros Hin. apply elem_of_list_to_map_1'; [|done]. intros b' Hb'.
    apply (elem_of_used s p b W) in Hin. apply (elem_of_used s p b' W) in Hb'.
    destruct b as [[sz rq] id], b' as [[sz' rq'] id']. simpl in *.
    pose proof (alloc_bounds _ _ _ _ _ W Hin). pose proof (alloc_bounds _ _ _ _ _ W Hb').
    destruct (alloc_apart _ _ _ _ _ _ _ _ _ W Hin Hb') as [(_ & -> & -> & ->)|[?|?]]; [done|lia|lia].
Qed.

Lemma blocks_insert s s' p sz nb id :
  wf_core s -> wf_core s' ->
  (forall q z rq i, alloc s' q z rq i <-> alloc s q z rq i \/ (q = p /\ z = sz /\ rq = nb /\ i = id)) ->
  (forall z rq i, ~ alloc s p z rq i) -> blocks s' = <[p := (sz, nb, id)]> (blocks s).
Proof using.
  intros W W' A Hno. apply map_eq. intros q. apply option_eq. intros b.
  rewrite (blocks_spec s' q b W'), A, lookup_insert_Some, (blocks_spec s q b W).
  destruct b as [[z rq] i]. simpl. split.
  - intros [Ha|(-> & -> & -> & ->)]; [|auto]. right. split; [|done]. intros ->. by eapply Hno.
  - intros [[-> E]|[_ Ha]]; [simplify_eq; auto|auto].
Qed.

Lemma blocks_delete s s' p :
  wf_core s -> wf_core s' ->
  (forall q z rq i, alloc s' q z rq i <-> alloc s q z rq i /\ q <> p) ->
  blocks s' = delete p (blocks s).
Proof using.
  intros W W' A. apply map_eq. intros q. apply option_eq. intros b.
  rewrite (blocks_spec s' q b W'), A, lookup_delete_Some, (blocks_spec s q b W).
  split; intros [? ?]; auto.
Qed.

Lemma blocks_same s s' :
  wf_core s -> wf_core s' -> (forall q z rq i, alloc s' q z rq i <-> alloc s q z rq i) ->
  blocks s' = blocks s.
Proof using.
  intros W W' A. apply map_eq. intros q. apply option_eq. intros b.
  by rewrite (blocks_spec s' q b W'), A, (blocks_spec s q b W).
Qed.

(** ** The abstract specification *)

Definition disjoint_block (m : gmap Z block) (p sz : Z) : Prop :=
  forall q sz' rq id, m !! q = Some (sz', rq, id) -> p + sz <= q \/ q + sz' <= p.

Inductive spec_step (m : gmap Z block) : op -> Z -> gmap Z block -> Prop :=
| spec_alloc al nb fb p sz id :
    0 < nb <= sz -> sz mod 256 = 0 -> 0 < p -> p + sz < 2 ^ 63 -> disjoint_block m p sz ->
    (forall q b, m !! q = Some b -> b.2 <> id) ->
    spec_step m (OpAlloc al nb fb) p (<[p := (sz, nb, id)]> m)
| spec_no_memory al nb fb : spec_step m (OpAlloc al nb fb) 0 m
| spec_dealloc p : spec_step m (OpDealloc p) 0 (delete p m)
| spec_frontier n : spec_step m (OpSetSafeFrontier n) 0 m
| spec_counter sc : spec_step m (OpSetTimingCounter sc) 0 m
| spec_clear : spec_step m OpClearStats 0 m.

(** A change of the counters and clocks only. *)
Lemma clock_wf s s' :
  wf ∅ s -> same_chunks s s' -> same_conf s s' -> next_allocation_id_ s' = next_allocation_id_ s ->
  bytes_in_use (stats_ s') = bytes_in_use (stats_ s) ->
  timestamped_chunks_ s' = timestamped_chunks_ s ->
  (garbage_collection_ s = true -> timing_counter_ s' = timing_counter_ s) -> wf ∅ s'.
Proof using.
  intros [W HB [a1 a2 a3 a4 a5 a6 a7 a8 a9]] SC [c1 c2 c3 c4 c5 c6 c7 c8] Ei Eb Et Ec.
  split; [by eapply same_chunks_core|by eapply same_chunks_binned|].
  pose proof (same_chunks_alloc _ _ SC) as Ea. destruct SC as (E1 & E2 & E3 & E4).
  assert (Ek : kMaxInternalFragmentation s' = kMaxInternalFragmentation s)
    by (unfold kMaxInternalFragmentation; by rewrite c3, c4).
  split; unfold rg, ck; rewrite ?Ei, ?Eb, ?Et, ?c1, ?c6, ?c8, ?E1, ?E2, ?Ea, ?Ek; try done.
  intros Hgc. destruct (a8 Hgc) as [H1 H2]. split; [|done]. by rewrite Ec.
Qed.

Lemma conf_growth s s' : same_conf s s' -> keeps_growth s s'.
Proof using.
  intros [c1 c2 c3 c4 c5 c6 c7 c8]. by apply keeps_growth_same.
Qed.

(** The result of an operation, for the transition system and its refinement. *)
Record outcome_ok (s : B) (o : op) (r : Z) (s' : B) : Prop := {
  oo_wf : wf ∅ s';
  oo_gc : garbage_collection_ s' = garbage_collection_ s;
  oo_growth : keeps_growth s s';
  oo_spec : spec_step (blocks s) o r (blocks s')
}.

Lemma alloc_outcome s al nb fb r s' :
  wf ∅ s -> 0 <= nb <= 2 ^ 64 - 256 -> wf ∅ s' -> alloc_post s nb r s' ->
  outcome_ok s (OpAlloc al nb fb) r s'.
Proof using.
  intros Hwf Hnb Hwf' HP. pose proof (wf_c _ _ Hwf) as W. pose proof (wf_c _ _ Hwf') as W'.
  destruct HP as [[-> [q1 q2 q3 q4 q5]]|(Hp & C & Hc & Hg & Hid & sz & Hsz & A)].
  - split; [done|apply q1|done|]. rewrite (blocks_same s s' W W' q3). constructor.
  - assert (Hnew : alloc s' r sz nb (next_allocation_id_ s)) by (apply A; auto).
    destruct (alloc_bounds _ _ _ _ _ W' Hnew) as (B1 & B2 & B3 & B4).
    destruct (ac_ids _ (wf_a _ _ Hwf') _ _ _ _ Hnew) as [_ Hrq].
    assert (Hsep : forall q z rq i, alloc s q z rq i -> r + sz <= q \/ q + z <= r).
    { intros q z rq i Ha. assert (Ha' : alloc s' q z rq i) by (apply A; auto).
      destruct (alloc_apart _ _ _ _ _ _ _ _ _ W' Hnew Ha') as [(_ & _ & _ & <-)|?]; [|done].
      destruct (ac_ids _ (wf_a _ _ Hwf) _ _ _ _ Ha). lia. }
    split; [done|apply C|done|].
    rewrite (blocks_insert s s' r sz nb (next_allocation_id_ s) W W' A).
    + constructor; try done.
      * intros q z rq i Hq. apply (blocks_spec s q _ W) in Hq. by eapply Hsep.
      * intros q b Hq. apply (blocks_spec s q b W) in Hq.
        destruct (ac_ids _ (wf_a _ _ Hwf) _ _ _ _ Hq). lia.
    + intros z rq i Ha. destruct (alloc_bounds _ _ _ _ _ W Ha). destruct (Hsep _ _ _ _ Ha); lia.
Qed.

Lemma exec_spec fuel s o : wf ∅ s -> sized s -> valid s o ->
  (exec fuel o s = OutOfFuel /\ ~ op_progress fuel s o) \/
  exists r s', exec fuel o s = Done (r, s') /\ outcome_ok s o r s'.
Proof using.
  intros Hwf Hsz Hv. pose proof (wf_c _ _ Hwf) as W.
  assert (Hclock : forall s', same_chunks s s' -> same_conf s s' ->
    next_allocation_id_ s' = next_allocation_id_ s -> bytes_in_use (stats_ s') = bytes_in_use (stats_ s) ->
    timestamped_chunks_ s' = timestamped_chunks_ s ->
    (garbage_collection_ s = true -> timing_counter_ s' = timing_counter_ s) ->
    spec_step (blocks s) o 0 (blocks s) -> outcome_ok s o 0 s').
  { intros s' SC Hc E1 E2 E3 E4 Hsp. assert (Hwf' : wf ∅ s') by (by apply (clock_wf s)).
    split; [done|apply Hc|by apply conf_growth|].
    rewrite (blocks_same s s' W (wf_c _ _ Hwf')); [done|].
    intros. by rewrite (same_chunks_alloc _ _ SC). }
  destruct o as [al nb fb|p|n|sc|]; cbn [exec valid op_progress] in *.
  - destruct Hv as (Hnb & Hfb).
    destruct (AllocateRawInternal_spec s fuel al nb fb) as [?|(r & s' & R & W' & _ & HP & _)]; [done..|by left|right].
    exists r, s'. split; [done|]. by apply alloc_outcome.
  - right. unfold DeallocateRaw. destruct (decide (p = 0)) as [->|Hp].
    + exists 0, s. split; [done|]. apply Hclock; try done.
      assert (E : delete 0 (blocks s) = blocks s); [|rewrite <-E at 2; constructor].
      apply delete_id. apply eq_None_not_Some. intros [b Hb]. apply (blocks_spec s 0 b W) in Hb.
      destruct (alloc_bounds _ _ _ _ _ W Hb). lia.
    + destruct Hv as [?|(sz & rq & id & Ha)]; [done|].
      destruct (DeallocateRawInternal_spec s p sz rq id Hwf Ha) as (s' & R & W' & A & _ & SC).
      exists 0, s'. rewrite (bind_Done _ _ _ _ _ R). split; [done|].
      split; [done|apply SC|by apply conf_growth|].
      rewrite (blocks_delete s s' p W (wf_c _ _ W') A). constructor.
  - right. eexists 0, _. split; [done|]. destruct (safe_frontier_ s <? n); apply Hclock; try done; constructor.
  - right. eexists 0, _. split; [done|]. apply Hclock; try done; [congruence|constructor].
  - right. eexists 0, _. split; [done|]. apply Hclock; try done; constructor.
Qed.

Lemma reachable_good fuel s : reachable fuel s -> wf ∅ s /\ sized s.
Proof using.
  intros Hr. induction Hr as [sub total allow gc s E|s o r s' Hr [Hwf Hsz] Hv E].
  - split; [by eapply new_wf|by eapply new_sized].
  - destruct (exec_spec fuel s o Hwf Hsz Hv) as [[E' _]|(r' & s'' & E' & [o1 o2 o3 o4])]; [congruence|].
    rewrite E in E'. simplify_eq. split; [done|by apply (proj1 o3)].
Qed.
End props.
