(* ===== verification/BfcQueries.v ===== *)
(** * Coalescing, tiling, accounting, queries and retries *)
From S2P Require Import Prelude Bfc BfcRegions BfcLinks BfcInv BfcOps BfcAlloc BfcDealloc BfcExtend BfcGc BfcProps.
From Stdlib Require Import Sorted.
From stdpp Require sorting.
From stdpp Require Import options.
#[local] Open Scope tf_monad_scope.

Section queries.
Context `{SA : SubAllocator} {SL : SubAllocatorLaws SA}.
Abbreviation B := BFCAllocator.

(** ** Coalescing *)

Lemma new_coalesced sub total allow gc s :
  BFCAllocator_new sub total allow gc = Done s -> coalesced s.
Proof using.
  unfold BFCAllocator_new. rewrite bin_checks_pass. intros E. simplify_eq.
  assert (Hno : forall s h c, chunks_ s = [] -> ~ lives s h c).
  { intros s h c E (H & _). unfold ck, lookup_chunk in H. rewrite E in H. by destruct (0 <=? h). }
  split; try done.
  - intros h c Hc. exfalso. by eapply Hno, Hc.
  - intros h c cn Hc. exfalso. by eapply Hno, Hc.
Qed.

Lemma exec_coalesced fuel s o r s' :
  wf ∅ s -> sized s -> valid s o ->
  (forall sc, o = OpSetTimingCounter sc -> sc = None) ->
  exec fuel o s = Done (r, s') -> coalesced s -> coalesced s'.
Proof using.
  intros Hwf Hs Hv Ho R Hc.
  assert (Hsame : forall s1, same_chunks s s1 -> timing_counter_ s1 = None ->
    timestamped_chunks_ s1 = timestamped_chunks_ s -> coalesced s1).
  { intros s1 SC E1 E2. destruct Hc as [c1 c2 c3 c4]. destruct (same_chunks_coal ∅ _ _ SC) as [Q1 Q2].
    split; [done|congruence|auto|auto]. }
  destruct o as [al nb fb|p|n|sc|]; cbn [exec valid] in *.
  - destruct Hv as (Hnb & Hfb).
    destruct (AllocateRawInternal_spec s fuel al nb fb) as [[R' _]|(r' & s'' & R' & W' & _ & HP & _)]; [done..|congruence|].
    rewrite R in R'. simplify_eq. destruct HP as [[_ Q]|(_ & _ & Q & _)]; [by apply Q|by apply Q].
  - destruct (decide (p = 0)) as [->|Hp]; [by compute in R; simplify_eq|].
    destruct Hv as [?|(sz & rq & id & Ha)]; [done|].
    destruct (DeallocateRawInternal_spec s p sz rq id Hwf Ha) as (s1 & R1 & W' & A & Q & SC).
    unfold DeallocateRaw in R. rewrite (bind_Done _ _ _ _ _ R1) in R. unfold ret in R. simplify_eq.
    destruct Hc as [c1 c2 c3 c4]. destruct (Q c1 c3 c4) as (q1 & q2 & q3 & q4).
    split; [done|congruence|done|done].
  - unfold bind, SetSafeFrontier, modify, ret in R. simplify_eq.
    destruct (safe_frontier_ s <? n); apply Hsame; try done; apply (co_timing _ Hc).
  - unfold bind, SetTimingCounter, modify, ret in R. simplify_eq. apply Hsame; try done. by apply Ho.
  - cbv beta iota zeta delta [bind ClearStats modify ret] in R. simplify_eq.
    apply Hsame; try done. apply (co_timing _ Hc).
Qed.

(** ** Tiling *)

(** Every address of a region belongs to exactly one chunk. *)
Lemma tiling s x :
  wf_core s -> covered s x ->
  exists h c, lives s h c /\ ptr c <= x < ptr c + size c /\
    forall h' c', lives s h' c' -> ptr c' <= x < ptr c' + size c' -> h' = h.
Proof using.
  intros W (a & b & Hab & Hx). pose proof (regions_ok_geometry _ (wc_regions _ W)) as G.
  pose proof (wc_linked _ W) as L.
  assert (Huniq : forall h c, lives s h c -> ptr c <= x < ptr c + size c ->
    forall h' c', lives s h' c' -> ptr c' <= x < ptr c' + size c' -> h' = h).
  { intros h c Hl Hc h' c' Hl' Hc'. destruct (decide (h' = h)) as [|Hne]; [done|]. exfalso.
    destruct (live_disjoint _ _ _ G L _ _ _ _ Hl' Hl Hne); lia. }
  assert (Hwalk : forall n h c, lives s h c -> a <= ptr c -> ptr c <= x -> x - ptr c <= Z.of_nat n ->
    exists h c, lives s h c /\ ptr c <= x < ptr c + size c).
  { induction n as [|n IH]; intros h c Hl Ha Hle Hn; pose proof (lk_size _ _ _ L _ _ Hl) as [Hs _].
    - exists h, c. split; [done|lia].
    - destruct (decide (x < ptr c + size c)) as [|Hge]; [exists h, c; split; [done|lia]|].
      destruct (lk_range _ _ _ L _ _ Hl) as (a' & b' & Hab' & Ha' & Hb' & Hnx & _).
      destruct (geo_unique _ a b a' b' (ptr c) G Hab Hab') as [<- <-]; [lia|lia|].
      assert (Hne : next c <> inv) by (rewrite Hnx; lia).
      destruct (lk_next _ _ _ L _ _ Hl Hne) as (cn & Hln & Ep & _). apply (IH _ _ Hln); lia. }
  destruct (lk_first _ _ _ L _ _ Hab) as (h & c & Hl & Ep).
  destruct (Hwalk (Z.to_nat (x - a)) h c Hl) as (h' & c' & Hl' & Hc'); [lia|lia|lia|].
  exists h', c'. split_and!; try done; [lia|lia|]. by apply (Huniq h' c').
Qed.

(** ** Accounting *)

Definition block_bytes (m : gmap Z block) : Z :=
  foldr (fun b z => b.2.1.1 + z) 0 (map_to_list m).

Lemma sum_permutation (l l' : list (Z * block)) :
  l ≡ₚ l' -> foldr (fun b z => b.2.1.1 + z) 0 l = foldr (fun b z => b.2.1.1 + z) 0 l'.
Proof using. induction 1; simpl; lia. Qed.

Lemma used_keys_NoDup s : wf_core s ->
  NoDup (((fun c => (ptr c, (size c, requested_size c, allocation_id c))) <$>
    filter (fun c => in_use c = true) (chunks_ s)).*1).
Proof using.
  intros W. rewrite <-list_fmap_compose.
  assert (H : forall i j ci cj, chunks_ s !! i = Some ci -> chunks_ s !! j = Some cj ->
    in_use ci = true -> in_use cj = true -> ptr ci = ptr cj -> i = j).
  { intros i j ci cj Hi Hj Ui Uj E.
    assert (Hk : forall k c, chunks_ s !! k = Some c -> ck s (Z.of_nat k) = Some c).
    { intros k c Hkc. unfold ck, lookup_chunk. rewrite (proj2 (Z.leb_le _ _)) by lia. by rewrite Nat2Z.id. }
    pose proof (in_use_lives s _ _ W (Hk _ _ Hi) Ui) as Li.
    pose proof (in_use_lives s _ _ W (Hk _ _ Hj) Uj) as Lj.
    pose proof (live_inj _ _ _ _ _ _ _ Li Lj E). lia. }
  revert H. generalize (chunks_ s). clear. induction l as [|c l IH]; intros H; [constructor|].
  rewrite filter_cons. case_decide as Hu.
  - rewrite fmap_cons. constructor.
    + intros Hin. apply list_elem_of_fmap in Hin as (c' & E & Hc'). simpl in E.
      apply list_elem_of_filter in Hc' as [Hu' Hc']. apply list_elem_of_lookup_1 in Hc' as [j Hj].
      assert (0%nat = S j) by (by apply (H 0%nat (S j) c c')). done.
    + apply IH. intros i j ci cj Hi Hj U1 U2 E. assert (S i = S j) by (by apply (H (S i) (S j) ci cj)). lia.
  - apply IH. intros i j ci cj Hi Hj U1 U2 E. assert (S i = S j) by (by apply (H (S i) (S j) ci cj)). lia.
Qed.

Lemma block_bytes_usage s : wf_core s -> block_bytes (blocks s) = usage_sum (chunks_ s).
Proof using.
  intros W. unfold block_bytes, blocks.
  rewrite (sum_permutation _ _ (map_to_list_to_map _ (used_keys_NoDup s W))).
  generalize (chunks_ s). clear. induction l as [|c l IH]; [done|].
  rewrite filter_cons. unfold usage_sum in *. cbn [foldr]. unfold usage at 1.
  case_decide as Hu.
  - rewrite fmap_cons. cbn [foldr fst snd]. rewrite IH, Hu. done.
  - rewrite IH. destruct (in_use c); [done|]. lia.
Qed.

(** ** The memory in use is within the memory of the regions *)

Definition sizes_of (s : B) (F : list Z) : Z := foldr (fun x z => size (chunk_of s x) + z) 0 F.

Lemma sizes_of_app s F F' : sizes_of s (F ++ F') = sizes_of s F + sizes_of s F'.
Proof using. unfold sizes_of. induction F as [|x F IH]; simpl; [done|]. rewrite IH. lia. Qed.

Lemma path_sum s a b : wf_core s -> rg s a b -> forall F h c,
  lives s h c -> a <= ptr c < b -> freelist (ck s) h (h :: F) ->
  (forall x, x ∈ F -> exists cx, lives s x cx) -> sizes_of s (h :: F) = b - ptr c.
Proof using.
  intros W Hab. pose proof (wc_linked _ W) as L.
  pose proof (regions_ok_geometry _ (wc_regions _ W)) as G.
  induction F as [|y F IH]; intros h c Hl Hc (_ & c' & Hk & HF) HFl; unfold sizes_of; cbn [foldr];
    rewrite (lives_chunk_of _ _ _ Hl);
    (assert (c' = c) as -> by (destruct Hl as [Hl _]; congruence));
    destruct (lk_range _ _ _ L _ _ Hl) as (a' & b' & Hab' & Ha & Hb & Hnx & _);
    destruct (geo_unique _ a b a' b' (ptr c) G Hab Hab') as [<- <-]; try lia;
    pose proof (lk_size _ _ _ L _ _ Hl) as [Hs _]; try lia.
  - simpl in HF. apply Hnx in HF. lia.
  - destruct HF as (Ey & HF). destruct (HFl y) as [cy Hy]; [set_solver|].
    pose proof (live_ne_inv _ _ _ L _ _ Hy) as Hne.
    assert (Hy' : lives s (next c) cy) by (by rewrite Ey).
    destruct (live_next_prev _ _ _ L _ _ _ Hl ltac:(congruence) Hy') as [Ep _].
    assert (ptr c + size c <> b) by (rewrite <-Hnx; congruence).
    fold (sizes_of s (y :: F)).
    assert (E : sizes_of s (y :: F) = b - ptr cy).
    { apply IH; [done|lia|by split|]. intros x Hx. apply HFl. set_solver. }
    change (size c + sizes_of s (y :: F) = b - ptr c). lia.
Qed.

(** All live handles of the regions [rs], and their total size. *)
Lemma all_paths s rs : wf_core s -> (forall r, r ∈ rs -> r ∈ region_manager_ s) ->
  exists F, (forall x c, lives s x c -> (exists r, r ∈ rs /\ r_ptr r <= ptr c < r_end_ptr r) -> x ∈ F) /\
    (forall x, x ∈ F -> exists c, lives s x c) /\ sizes_of s F = sum_sizes rs.
Proof using.
  intros W. induction rs as [|r rs IH]; intros Hrs.
  { exists []. split_and!; [|set_solver|done]. intros x c _ (r & Hr & _). by apply not_elem_of_nil in Hr. }
  destruct IH as (F & H1 & H2 & H3); [set_solver|].
  assert (Hab : rg s (r_ptr r) (r_end_ptr r)) by (apply reg_elem; exists r; set_solver).
  destruct (region_path s _ _ W Hab) as (h & F' & Hg & HF & HN & Hm & _).
  pose proof (Hrs r ltac:(set_solver)) as Hin. apply list_elem_of_lookup_1 in Hin as [i Hi].
  destruct (regions_ok_lookup _ _ _ (wc_regions _ W) Hi) as [o1 o2 o3 o4 o5 o6].
  exists ((h :: F') ++ F). split_and!.
  - intros x c Hx (r' & Hr' & Hc). apply elem_of_app. apply elem_of_cons in Hr' as [->|Hr'].
    + left. apply Hm. eauto.
    + right. apply (H1 x c); eauto.
  - intros x Hx. apply elem_of_app in Hx as [Hx|Hx]; [|auto]. apply Hm in Hx as (c & Hc & _). eauto.
  - rewrite sizes_of_app, H3. cbn [foldr].
    destruct (lk_first _ _ _ (wc_linked _ W) _ _ Hab) as (h' & c & Hl & Ep).
    assert (h' = h) as -> by (destruct Hl as (_ & _ & Hl); rewrite Ep in Hl; congruence).
    rewrite (path_sum s (r_ptr r) (r_end_ptr r) W Hab F' h c); [lia|done|lia|done|].
    intros x Hx. assert (Hx' : x ∈ h :: F') by set_solver. apply Hm in Hx' as (cx & Hcx & _). eauto.
Qed.

Lemma sizes_submseteq s F F' : (forall x, x ∈ F' -> 0 <= size (chunk_of s x)) ->
  F ⊆+ F' -> sizes_of s F <= sizes_of s F'.
Proof using.
  intros Hp Hs. induction Hs; unfold sizes_of in *; simpl; try lia.
  - assert (foldr (fun x z => size (chunk_of s x) + z) 0 l1 <=
            foldr (fun x z => size (chunk_of s x) + z) 0 l2) by (apply IHHs; set_solver). lia.
  - assert (0 <= size (chunk_of s x)) by (apply Hp; set_solver).
    assert (foldr (fun x z => size (chunk_of s x) + z) 0 l1 <=
            foldr (fun x z => size (chunk_of s x) + z) 0 l2) by (apply IHHs; set_solver). lia.
  - etrans; [apply IHHs1|apply IHHs2; done]. intros x Hx. apply Hp. by eapply elem_of_submseteq.
Qed.

Lemma usage_as_sizes s :
  usage_sum (chunks_ s) =
    sizes_of s (filter (fun x => in_use (chunk_of s x) = true)
                  (Z.of_nat <$> seq 0 (length (chunks_ s)))).
Proof using.
  assert (H : forall l pre, chunks_ s = pre ++ l -> usage_sum l =
    sizes_of s (filter (fun x => in_use (chunk_of s x) = true)
                  (Z.of_nat <$> seq (length pre) (length l)))).
  { induction l as [|c l IH]; intros pre E; [done|]. cbn [usage_sum foldr length seq]. rewrite fmap_cons.
    assert (Hk : ck s (Z.of_nat (length pre)) = Some c).
    { unfold ck, lookup_chunk. rewrite (proj2 (Z.leb_le _ _)) by lia. rewrite Nat2Z.id, E.
      by rewrite lookup_app_r, Nat.sub_diag by done. }
    fold (usage_sum l). rewrite (IH (pre ++ [c])) by (by rewrite <-app_assoc).
    rewrite length_app. cbn [length]. rewrite Nat.add_1_r, filter_cons. unfold usage.
    assert (Ec : chunk_of s (Z.of_nat (length pre)) = c) by (unfold chunk_of; unfold ck in Hk; by rewrite Hk).
    rewrite Ec. case_decide as D.
    - rewrite D. unfold sizes_of at 2. cbn [foldr]. by rewrite Ec.
    - destruct (in_use c); [done|]. lia. }
  apply (H (chunks_ s) []). done.
Qed.

Lemma used_within_regions s : wf ∅ s -> usage_sum (chunks_ s) <= total_region_allocated_bytes_ s.
Proof using.
  intros [W HB HA]. rewrite (ac_total _ HA).
  destruct (all_paths s (region_manager_ s) W) as (F & H1 & H2 & H3); [done|]. rewrite <-H3, usage_as_sizes.
  apply sizes_submseteq.
  - intros x Hx. destruct (H2 x Hx) as [c Hc]. rewrite (lives_chunk_of _ _ _ Hc).
    destruct (lives_bounds _ _ _ W Hc). lia.
  - apply NoDup_submseteq.
    + apply NoDup_filter, NoDup_fmap; [apply _|]. apply NoDup_seq.
    + intros x Hx. apply list_elem_of_filter in Hx as [Hu _]. unfold chunk_of in Hu.
      destruct (lookup_chunk (chunks_ s) x) as [c|] eqn:Hc; [|done]. simpl in Hu.
      pose proof (in_use_lives s x c W Hc Hu) as Hl. apply (H1 x c Hl).
      destruct (lk_range _ _ _ (wc_linked _ W) _ _ Hl) as (a & b & Hab & Ha & Hb & _).
      pose proof (lk_size _ _ _ (wc_linked _ W) _ _ Hl). apply reg_elem in Hab as (r & Hr & <- & <-).
      exists r. split; [done|lia].
Qed.

(** ** Queries *)

Lemma query_block s p sz rq id :
  wf_core s -> alloc s p sz rq id ->
  RequestedSize p s = Done (rq, s) /\ AllocatedSize p s = Done (sz, s) /\
  AllocationId p s = Done (id, s).
Proof using.
  intros W Ha. destruct (alloc_handle _ _ _ _ _ W Ha) as (h & c & Hg & Hl & Hu & E1 & E2 & E3 & E4 & Hp & Hh).
  assert (R : forall {X} (k : Chunk -> M B X), bind (chunk_for_ptr p) k s = k c s).
  { intros X k. unfold chunk_for_ptr. rewrite !bind_assoc_s, (run_get_handle _ _ _ _ Hg), bind_assoc_s.
    rewrite run_check by (by rewrite (proj2 (Z.eqb_neq _ _))). apply run_chunk. by apply lives_ck. }
  unfold RequestedSize, AllocatedSize, AllocationId.
  rewrite run_check by (by rewrite (proj2 (Z.eqb_neq _ _))). rewrite !R. unfold ret.
  split_and!; congruence.
Qed.

(** ** The largest free chunk *)

Lemma last_sorted_max s l h :
  StronglySorted (bin_lt s) l -> last l = Some h ->
  forall x, x ∈ l -> size (chunk_of s x) <= size (chunk_of s h).
Proof using.
  intros HS Hl x Hx. apply last_Some in Hl as [l' ->].
  apply elem_of_app in Hx as [Hx|Hx]; [|by apply list_elem_of_singleton in Hx as ->].
  assert (bin_lt s x h) as H'; [|unfold bin_lt, klt in H'; lia].
  eapply sorting.StronglySorted_app_1_elem_of; [exact HS|done|set_solver].
Qed.

Lemma LargestFreeChunk_loop_spec s n :
  wf ∅ s -> (n <= 21)%nat ->
  (forall h c, lives s h c -> in_use c = false -> bin_num c < Z.of_nat n) ->
  exists z, LargestFreeChunk_loop n s = Done (z, s) /\
    (forall c, free_chunk s c -> size c <= z) /\
    ((z = 0 /\ forall c, ~ free_chunk s c) \/ exists c, free_chunk s c /\ size c = z).
Proof using.
  intros [W HB HA]. induction n as [|n IH]; intros Hn Hlt; cbn [LargestFreeChunk_loop].
  - exists 0. assert (Hno : forall c, ~ free_chunk s c).
    { intros c (h & Hc & Hu). specialize (Hlt _ _ Hc Hu).
      destruct (bn_num _ _ HB _ _ Hc) as [E|[_ E]].
      - assert (h ∈ (∅ : gset Z)); [|set_solver]. apply (bn_T _ _ HB). eauto.
      - pose proof (BinNumForSize_range (size c)). lia. }
    split_and!; [done|naive_solver|auto].
  - destruct (bin_exists ∅ s (Z.of_nat n) HB) as [l El]; [lia|]. rewrite (run_bin _ l) by (done || lia).
    assert (Hmem : forall x, x ∈ l <-> exists cx, lives s x cx /\ bin_num cx = Z.of_nat n).
    { intros x. rewrite (bn_mem _ _ HB _ _ _ El). by rewrite Nat2Z.id. }
    destruct (last l) as [h|] eqn:Ela.
    + assert (Hin : h ∈ l).
      { apply last_Some in Ela as [l' ->]. set_solver. }
      apply Hmem in Hin as (c & Hc & Eb).
      assert (Hu : in_use c = false) by (eapply wf_lives_free_bin; [done|done|lia]).
      rewrite (run_chunk _ _ _ _ (lives_ck _ _ _ Hc)). exists (size c). split; [done|]. split.
      * intros c' (x & Hx & Hux). specialize (Hlt _ _ Hx Hux).
        assert (Ebx : bin_num c' = BinNumForSize (size c')).
        { destruct (bn_num _ _ HB _ _ Hx) as [E|[_ E]]; [|done]. exfalso.
          assert (x ∈ (∅ : gset Z)); [|set_solver]. apply (bn_T _ _ HB). eauto. }
        destruct (wf_lives_free_bin _ _ _ _ HB Hc) as [_ Ebc]; [lia|].
        destruct (decide (bin_num c' = Z.of_nat n)) as [E|Hne].
        -- rewrite <-(lives_chunk_of _ _ _ Hx), <-(lives_chunk_of _ _ _ Hc).
           apply (last_sorted_max s l h); [by eapply (bn_sorted _ _ HB)|done|]. apply Hmem. eauto.
        -- destruct (decide (size c' <= size c)) as [|Hgt]; [done|].
           pose proof (BinNumForSize_mono (size c) (size c')). lia.
      * right. exists c. split; [|done]. by exists h.
    + apply last_None in Ela. subst l. apply IH; [lia|]. intros h c Hc Hu. specialize (Hlt _ _ Hc Hu).
      destruct (decide (bin_num c = Z.of_nat n)) as [E|]; [|lia]. exfalso.
      apply (not_elem_of_nil h), Hmem. eauto.
Qed.

Lemma LargestFreeChunk_spec s :
  wf ∅ s -> exists z, LargestFreeChunk s = Done (z, s) /\
    (forall c, free_chunk s c -> size c <= z) /\
    ((z = 0 /\ forall c, ~ free_chunk s c) \/ exists c, free_chunk s c /\ size c = z).
Proof using.
  intros Hwf. apply LargestFreeChunk_loop_spec; [done|unfold kNumBins; lia|]. intros h c Hc Hu.
  destruct (bn_num _ _ (wf_b _ _ Hwf) _ _ Hc) as [->|[_ ->]]; [unfold kNumBins; lia|].
  pose proof (BinNumForSize_range (size c)). unfold kNumBins. lia.
Qed.

(** ** Retries *)

Definition pool_ok (s : B) : Prop := wf ∅ s /\ growth_inv s /\ garbage_collection_ s = false.

(** What other threads may do while an allocation waits. *)
Definition benign (nb : Z) (w : M B unit) : Prop :=
  forall s, pool_ok s -> backpedal_safe s (RoundedBytes nb) ->
    exists s', w s = Done (tt, s') /\ pool_ok s' /\ backpedal_safe s' (RoundedBytes nb).

(** The block an allocation returns, if any. *)
Definition holds (s : B) (p nb : Z) : Prop :=
  p = 0 \/ exists sz id, alloc s p sz nb id /\ nb <= sz.

Lemma attempt_ok s fuel al nb fb :
  (enough_fuel <= fuel)%nat -> exact -> pool_ok s -> 0 <= nb <= 2 ^ 64 - 256 -> 0 <= fb ->
  backpedal_safe s (RoundedBytes nb) ->
  exists p s', AllocateRawInternal fuel al nb fb s = Done (p, s') /\ pool_ok s' /\ holds s' p nb /\
    (p = 0 -> backpedal_safe s' (RoundedBytes nb)).
Proof using.
  intros Hf Hex (Hwf & Hg & Hgc) Hnb Hfb Hb.
  assert (Hpr : progress fuel s (RoundedBytes nb)) by (split; [done|apply Hg|done]).
  destruct (AllocateRawInternal_spec s fuel al nb fb) as [[_ Hno]|(p & s' & R & W' & _ & HP & HB)]; [done|apply Hg|done|done|done|].
  exists p, s'. split; [done|]. destruct (RoundedBytes_spec nb) as (R1 & _); [lia|].
  destruct HP as [[-> [q1 q2 q3 q4 q5]]|(Hp & C & Hc & Hgr & Hid & sz & Hsz & A)].
  - split_and!; [split_and!; [done|apply (proj2 q5 Hgc); auto|by rewrite (ce_gc _ _ q1)]|by left|intros; by apply HB; [..|apply Hg|]].
  - split_and!; [split_and!; [done|apply (proj2 Hgr Hgc); auto|by rewrite (ce_gc _ _ C)]| |done].
    right. exists sz, (next_allocation_id_ s). split; [apply A; auto|lia].
Qed.

Lemma retry_ok fuel al nb freed_by :
  (enough_fuel <= fuel)%nat -> exact -> 0 <= nb <= 2 ^ 64 - 256 -> (forall i, 0 <= freed_by i) ->
  forall waits i s, pool_ok s -> backpedal_safe s (RoundedBytes nb) -> Forall (benign nb) waits ->
  exists p s', retry_AllocateRaw fuel al nb freed_by i waits s = Done (p, s') /\ pool_ok s' /\ holds s' p nb.
Proof using.
  intros Hf Hex Hnb Hfb. induction waits as [|w waits IH]; intros i s Hs Hb HF; cbn [retry_AllocateRaw];
    destruct (attempt_ok s fuel al nb (freed_by i)) as (p & s1 & R & Hs1 & Hh & Hb1); try done;
    rewrite (bind_Done _ _ _ _ _ R); (destruct (Z.eqb_spec p 0) as [Ep|Ep]; cbn [negb]; [|by exists p, s1]).
  - destruct (attempt_ok s1 fuel al nb (freed_by (S i))) as (p2 & s2 & R2 & Hs2 & Hh2 & _); try done; [auto|].
    by exists p2, s2.
  - apply Forall_cons in HF as [Hw HF]. destruct (Hw s1 Hs1 (Hb1 Ep)) as (s2 & R2 & Hs2 & Hb2).
    rewrite (bind_Done _ _ _ _ _ R2). by apply IH.
Qed.

Lemma AllocateRaw_ok fuel al nb retry freed_by waits s :
  (enough_fuel <= fuel)%nat -> exact -> 0 <= nb <= 2 ^ 64 - 256 -> (forall i, 0 <= freed_by i) ->
  pool_ok s -> backpedal_safe s (RoundedBytes nb) -> Forall (benign nb) waits ->
  exists p s', AllocateRaw fuel al nb retry freed_by waits s = Done (p, s') /\ pool_ok s' /\ holds s' p nb.
Proof using.
  intros Hf Hex Hnb Hfb Hs Hb HF. unfold AllocateRaw, AllocateRawInternalWithRetry.
  destruct (attempt_ok s fuel al nb (freed_by 0%nat)) as (p & s1 & R & Hs1 & Hh & Hb1); try done.
  destruct retry; cbn [negb]; [|by exists p, s1]. rewrite (bind_Done _ _ _ _ _ R).
  destruct (Z.eqb_spec p 0) as [Ep|Ep]; cbn [negb]; [|by exists p, s1].
  destruct (nb =? 0); [exists 0, s1; split_and!; try done; by left|]. by apply retry_ok; auto.
Qed.
End queries.

(** * Two concrete sub-allocators

    [arena]: a list of owned blocks; a request is served right above all of
    them.  It satisfies the sub-allocator contract and is used to instantiate
    the theorems on concrete runs.  [refusing] never gives memory. *)

Definition arena_top (st : list (Z * Z)) : Z := foldr (fun b z => Z.max (b.1 + b.2) z) 4096 st.

Definition arena_owned (st : list (Z * Z)) (a : Z) : Prop :=
  exists b, b ∈ st /\ b.1 <= a < b.1 + b.2.

(** What is left of the block [b] without the addresses [p, p + n). *)
Definition arena_cut (p n : Z) (b : Z * Z) : list (Z * Z) :=
  [(b.1, Z.min (b.1 + b.2) p - b.1); (Z.max b.1 (p + n), b.1 + b.2 - Z.max b.1 (p + n))].

Definition arena_alloc (st : list (Z * Z)) (al n : Z) : option (Z * Z) * list (Z * Z) :=
  let top := arena_top st in
  if top + n <? 2 ^ 62 then (Some (top, n), (top, n) :: st) else (None, st).

Definition arena_free (st : list (Z * Z)) (p n : Z) : list (Z * Z) :=
  if 0 <? n then st ≫= arena_cut p n else st.

#[export] Instance arena : SubAllocator := {|
  sa_state := list (Z * Z);
  sa_Alloc := arena_alloc;
  sa_Free := arena_free;
  sa_SupportsCoalescing := true
|}.

Lemma arena_top_spec st : 4096 <= arena_top st /\ forall b, b ∈ st -> b.1 + b.2 <= arena_top st.
Proof.
  induction st as [|b st [IH1 IH2]]; simpl; [split; [lia|set_solver]|].
  split; [lia|]. intros b' [->|Hb]%elem_of_cons; [lia|]. specialize (IH2 _ Hb). lia.
Qed.

Lemma arena_cut_owned p n b a :
  0 < n -> (exists b', b' ∈ arena_cut p n b /\ b'.1 <= a < b'.1 + b'.2) <->
    b.1 <= a < b.1 + b.2 /\ ~ (p <= a < p + n).
Proof.
  intros Hn. unfold arena_cut. split.
  - intros (b' & Hb & Ha). rewrite elem_of_cons, list_elem_of_singleton in Hb.
    destruct Hb as [->| ->]; simpl in Ha; lia.
  - intros [H1 H2]. destruct (decide (a < p)).
    + eexists. rewrite elem_of_cons. split; [by left|]. simpl. lia.
    + eexists. rewrite elem_of_cons, list_elem_of_singleton. split; [by right|]. simpl. lia.
Qed.

#[export] Instance arena_laws : SubAllocatorLaws arena.
Proof.
  refine {| sa_owned := arena_owned |}; simpl.
  - intros st al n p r st'. unfold arena_alloc. destruct (arena_top_spec st) as [T1 T2].
    destruct (_ <? _) eqn:E; [|done]. bool_to_prop. intros ? Hn Hm. simplify_eq. split_and!; try lia.
    + intros a Ha (b & Hb & Hab). specialize (T2 _ Hb). lia.
    + intros a. unfold arena_owned. setoid_rewrite elem_of_cons. split.
      * intros (b & [->|Hb] & Hab); [by right|left; eauto].
      * intros [(b & Hb & Hab)|Ha]; [eauto|]. eexists. split; [by left|done].
  - intros st al n st'. unfold arena_alloc. destruct (_ <? _); [done|]. intros. by simplify_eq.
  - intros st p n a. unfold arena_free. destruct (0 <? n) eqn:E; bool_to_prop.
    + unfold arena_owned. setoid_rewrite list_elem_of_bind. split.
      * intros (b' & (b & Hb' & Hb) & Ha).
        destruct (proj1 (arena_cut_owned p n b a E)) as [H1 H2]; [eauto|]. split; [eauto|done].
      * intros [(b & Hb & Ha) Hn].
        destruct (proj2 (arena_cut_owned p n b a E)) as (b' & Hb' & Ha'); [done|]. eauto.
    + split; [|tauto]. intros. split; [done|lia].
Defined.

Lemma arena_exact : exact (SA := arena).
Proof.
  intros st al n p r st'. simpl. unfold arena_alloc. destruct (_ <? _); [|done]. intros. by simplify_eq.
Qed.

Lemma arena_free_top st p n : arena_top (arena_free st p n) <= arena_top st.
Proof.
  unfold arena_free. destruct (0 <? n) eqn:E; [|lia]. bool_to_prop.
  induction st as [|b st IH]; [done|]. rewrite bind_cons. unfold arena_cut at 1.
  cbn [arena_top foldr app fst snd] in *. fold (arena_top (st ≫= arena_cut p n)). fold (arena_top st). lia.
Qed.

(** The arena serves every request while its top is low enough. *)
Lemma arena_willing st limit : arena_top st + limit < 2 ^ 62 -> willing (SA := arena) st limit.
Proof.
  intros Ht fs al n Hn _ Hl. simpl. unfold arena_alloc.
  assert (Hle : arena_top (frees (SA := arena) st fs) <= arena_top st).
  { clear. revert st. induction fs as [|f fs IH]; intros st; [reflexivity|]. unfold frees in *. simpl.
    etrans; [apply IH|apply arena_free_top]. }
  rewrite (proj2 (Z.ltb_lt _ _)) by lia. done.
Qed.

#[local] Instance refusing : SubAllocator := {|
  sa_state := unit;
  sa_Alloc st al n := (None, st);
  sa_Free st p n := st;
  sa_SupportsCoalescing := false
|}.

(** ** Concrete states

    An allocator over four kilobytes, before its first allocation and after an
    allocation of 1000 bytes. *)
Definition empty_state : BFCAllocator (H := arena) :=
  mkBFC arena false true 4096 (SpecFloat.S754_zero false) 4096 0 false None [] 0 [] [] []
    kInvalidChunkHandle (replicate 21 []) 1 (mkStats 0 0 0 0 (Some 4096)).

Definition one_block : BFCAllocator (H := arena) :=
  mkBFC arena false true 4096 (SpecFloat.S754_zero false) 8192 4096 false None [] 0 [(4096, 4096)]
    [mkRegion 4096 4096 8192 ([0] ++ replicate 3 kInvalidChunkHandle ++ [1] ++
       replicate 11 kInvalidChunkHandle)]
    [mkChunk 1024 1000 1 4096 kInvalidChunkHandle 1 (-1) 0;
     mkChunk 3072 0 (-1) 5120 0 kInvalidChunkHandle 3 0]
    kInvalidChunkHandle (replicate 3 [] ++ [[1]] ++ replicate 17 []) 2
    (mkStats 1 1024 1024 1024 (Some 4096)).
