(* ===== verification/BfcTheorems.v ===== *)
(** * The properties of the allocator

    Each property is followed by an instance on the arena sub-allocator. *)
From S2P Require Import Prelude Bfc BfcRegions BfcLinks BfcInv BfcOps BfcAlloc BfcDealloc BfcExtend BfcGc BfcProps BfcQueries.
From stdpp Require Import options.
#[local] Open Scope tf_monad_scope.

#[local] Transparent kInvalidChunkHandle.

(** ** The concrete run *)

Lemma empty_new : BFCAllocator_new (SA := arena) [] 4096 false false = Done empty_state.
Proof. reflexivity. Qed.

Lemma empty_reachable : reachable (SA := arena) 800 empty_state.
Proof. apply (reach_init (SA := arena) 800 (@nil (Z * Z)) 4096 false false). apply empty_new. Qed.

Lemma empty_good : wf ∅ empty_state /\ growth_safe empty_state.
Proof.
  split; [by eapply new_wf, empty_new|]. apply gi_safe. by eapply new_growth; [apply empty_new|lia].
Qed.

Lemma empty_pool : pool_ok empty_state.
Proof. split_and!; [apply empty_good..|by eapply new_growth; [apply empty_new|lia]|reflexivity]. Qed.

(** A request the arena can always serve. *)
Lemma arena_back (s : BFCAllocator) rb : arena_top (sub_allocator_ s) + memory_limit_ s < 2 ^ 62 -> backpedal_safe s rb.
Proof. intros Ht. right; right. by apply arena_willing. Qed.

Lemma one_block_run : exec (SA := arena) 800 (OpAlloc 1 1000 0) empty_state = Done (4096, one_block).
Proof. reflexivity. Qed.

Lemma one_block_reachable : reachable (SA := arena) 800 one_block.
Proof.
  apply (reach_step (SA := arena) 800 empty_state (OpAlloc 1 1000 0) 4096);
    [apply empty_reachable|simpl; lia|apply one_block_run].
Qed.

Lemma one_block_pool : pool_ok one_block.
Proof.
  assert (Hpr : op_progress 800 empty_state (OpAlloc 1 1000 0)) by (split; [unfold enough_fuel; lia|apply empty_good|apply arena_back; vm_compute; done]).
  destruct (exec_spec 800 empty_state (OpAlloc 1 1000 0)) as [[E _]|(r & s' & E & [o1 o2 o3 o4])]; [apply empty_good|apply empty_good|simpl; lia|rewrite one_block_run in E; discriminate|].
  rewrite one_block_run in E. injection E as _ <-. split_and!; [apply o1..| |done]. apply (proj2 o3); [done|apply empty_pool|]. left. apply arena_exact.
Qed.

Lemma one_block_good : wf ∅ one_block /\ growth_inv one_block /\ garbage_collection_ one_block = false.
Proof. apply one_block_pool. Qed.

Lemma one_block_blocks : blocks one_block = {[4096 := (1024, 1000, 1)]}.
Proof. reflexivity. Qed.

Lemma one_block_alloc : alloc one_block 4096 1024 1000 1.
Proof.
  apply (blocks_spec one_block 4096 (1024, 1000, 1) (wf_c _ _ (proj1 one_block_good))).
  reflexivity.
Qed.

(** ** Refinement, safety and termination *)

(** C1: the allocator refines the abstract block map.  Whatever the arguments of
    the constructor, with and without garbage collection, over every
    sub-allocator that gives at least the bytes asked for, and after any sequence
    of operations that respect what clients must respect: no [CHECK] fails and no
    handle or index is out of range, and an operation that returns is a step of
    [spec_step]: an allocation adds one block, large enough, a multiple of 256
    bytes and disjoint from all others, or returns null and changes no block, and
    a deallocation removes exactly the block given.  Every operation other than an
    allocation returns; an allocation returns when the loops of [Extend] make
    progress: the bookkeeping of region sizes has not overflowed, and the
    sub-allocator does not refuse, or was refused before, or the rounded request
    exceeds 2304 bytes. *)
Theorem bfc_refines_spec `{SA : SubAllocator} {SL : SubAllocatorLaws SA} fuel s o :
  reachable fuel s -> valid s o ->
  exec fuel o s <> Crash /\
  (forall r s', exec fuel o s = Done (r, s') -> reachable fuel s' /\ spec_step (blocks s) o r (blocks s')) /\
  (op_progress fuel s o -> exists r s', exec fuel o s = Done (r, s')).
Proof.
  intros Hr Hv. destruct (reachable_good fuel s Hr) as (Hwf & Hsz).
  destruct (exec_spec fuel s o Hwf Hsz Hv) as [[R Hno]|(r & s' & R & [_ _ _ Hs])]; rewrite R.
  - split_and!; [done|done|]. intros Hp. by destruct Hno.
  - split_and!; [done| |by eexists _, _]. intros r' s'' E. injection E as <- <-. split; [|done]. by eapply reach_step.
Qed.

Lemma bfc_refines_spec_witness :
  exists r s', exec (SA := arena) 800 (OpDealloc 4096) one_block = Done (r, s') /\
    reachable (SA := arena) 800 s' /\ spec_step (blocks one_block) (OpDealloc 4096) r (blocks s').
Proof.
  destruct (bfc_refines_spec 800 one_block (OpDealloc 4096)) as (_ & Hstep & Hret).
  - apply one_block_reachable.
  - right. exists 1024, 1000, 1. apply one_block_alloc.
  - destruct (Hret I) as (r & s' & E). exists r, s'. split; [exact E|]. exact (Hstep r s' E).
Defined.

(** C2: the invariant.  An allocator without garbage collection and with less
    than 2^59 bytes of memory satisfies, from its construction on, the invariant
    of chunks, bins, counters and region sizes; every operation keeps the
    invariant of chunks, bins and counters and returns, when the backpedalling
    loop makes progress; and the invariant of region sizes is kept too, unless the
    sub-allocator has by then given more than the memory limit, which one that
    gives exactly the bytes asked for never does. *)
Theorem bfc_invariant `{SA : SubAllocator} {SL : SubAllocatorLaws SA} :
  (forall sub total allow, 0 < total < 2 ^ 59 -> exists s, BFCAllocator_new sub total allow false = Done s /\ pool_ok s) /\
  (forall fuel s o, (enough_fuel <= fuel)%nat -> pool_ok s -> valid s o ->
    (forall al nb fb, o = OpAlloc al nb fb -> backpedal_safe s (RoundedBytes nb)) ->
    exists r s', exec fuel o s = Done (r, s') /\ wf ∅ s' /\ spec_step (blocks s) o r (blocks s') /\
      (exact \/ total_region_allocated_bytes_ s' <= memory_limit_ s' -> pool_ok s')).
Proof.
  split.
  - intros sub total allow Ht. destruct (BFCAllocator_new sub total allow false) as [s| |] eqn:E; [|unfold BFCAllocator_new in E; by rewrite bin_checks_pass in E..].
    exists s. split; [done|]. split_and!; [by eapply new_wf|by eapply new_growth|]. unfold BFCAllocator_new in E. rewrite bin_checks_pass in E. by simplify_eq.
  - intros fuel s o Hf (Hwf & Hg & Hgc) Hv Hb.
    destruct (exec_spec fuel s o Hwf (gs_mod _ (gi_safe _ Hg)) Hv) as [[_ []]|(r & s' & R & [o1 o2 o3 o4])].
    + destruct o as [al nb fb| | | |]; try exact I. split; [done|apply Hg|by apply (Hb al nb fb)].
    + exists r, s'. split_and!; [done|done|done|]. intros Hor. split_and!; [done| |congruence]. by apply (proj2 o3 Hgc).
Qed.

Lemma bfc_invariant_witness :
  exists r s', exec (SA := arena) 800 (OpAlloc 1 1000 0) empty_state = Done (r, s') /\ wf ∅ s' /\
    spec_step (blocks empty_state) (OpAlloc 1 1000 0) r (blocks s') /\ pool_ok s'.
Proof.
  destruct (proj2 (bfc_invariant (SA := arena)) 800%nat empty_state (OpAlloc 1 1000 0)) as (r & s' & E & W & S & P).
  - unfold enough_fuel. lia.
  - apply empty_pool.
  - simpl. lia.
  - intros al nb fb E. apply arena_back. vm_compute. done.
  - exists r, s'. split; [exact E|]. split; [exact W|]. split; [exact S|]. apply P. left. apply arena_exact.
Defined.

(** The constructor runs its bin checks without aborting and establishes
    the invariant. *)
Theorem bfc_new_ok `{SA : SubAllocator} {SL : SubAllocatorLaws SA} sub total allow gc :
  0 < total < 2 ^ 59 ->
  exists s, BFCAllocator_new sub total allow gc = Done s /\ wf ∅ s /\ growth_inv s /\ blocks s = ∅.
Proof.
  intros Ht. destruct (BFCAllocator_new sub total allow gc) as [s| |] eqn:E;
    [|unfold BFCAllocator_new in E; by rewrite bin_checks_pass in E..].
  exists s. split_and!; [done|by eapply new_wf|by eapply new_growth|].
  unfold BFCAllocator_new in E. rewrite bin_checks_pass in E. by simplify_eq.
Qed.

Lemma bfc_new_ok_witness :
  exists s, BFCAllocator_new (SA := arena) [] 4096 true true = Done s /\ wf ∅ s /\ growth_inv s /\
    blocks s = ∅.
Proof. apply (bfc_new_ok (SA := arena) (@nil (Z * Z)) 4096 true true). lia. Defined.

(** ** Which chunk is taken *)

(** C34: best fit.  The search from the bin of the rounded size returns null
    exactly when no free chunk is large (and old) enough; otherwise it takes the
    smallest such chunk, the lowest-addressed among equals, and hands out either
    exactly the rounded size or a block that wastes less than the rounded size
    and less than the fragmentation limit. *)
Theorem bfc_best_fit `{SA : SubAllocator} {SL : SubAllocatorLaws SA} s nb rb fb :
  wf ∅ s -> 0 < nb <= rb -> rb mod 256 = 0 ->
  (FindChunkPtr (BinNumForSize rb) rb nb fb s = Done (0, s) /\
     forall c, free_chunk s c -> ~ eligible c rb fb) \/
  (exists c s', FindChunkPtr (BinNumForSize rb) rb nb fb s = Done (ptr c, s') /\ ptr c <> 0 /\ wf ∅ s' /\
     free_chunk s c /\ eligible c rb fb /\
     (forall c', free_chunk s c' -> eligible c' rb fb ->
        size c < size c' \/ (size c = size c' /\ ptr c <= ptr c')) /\
     exists sz, alloc s' (ptr c) sz nb (next_allocation_id_ s) /\ rb <= sz <= size c /\
       (sz = rb \/ (sz < 2 * rb /\ sz - rb < default 0 (kMaxInternalFragmentation s)))).
Proof.
  intros Hwf Hnb Hm. destruct (FindChunkPtr_spec s rb nb fb Hwf Hnb Hm) as
    [(c & s' & R & Hf & He & Hmin & Hp & W' & _ & _ & _ & A & _)|?]; [right|by left].
  exists c, s'. split_and!; try done; [apply W'..|].
  exists (taken_size s (size c) rb). split; [apply A; auto|]. by apply taken_size_bounds, He.
Qed.

Lemma bfc_best_fit_witness :
  (FindChunkPtr (SA := arena) (BinNumForSize 512) 512 300 0 one_block = Done (0, one_block) /\
     forall c, free_chunk one_block c -> ~ eligible c 512 0) \/
  (exists c s', FindChunkPtr (BinNumForSize 512) 512 300 0 one_block = Done (ptr c, s') /\
     ptr c <> 0 /\ wf ∅ s' /\
     free_chunk one_block c /\ eligible c 512 0 /\
     (forall c', free_chunk one_block c' -> eligible c' 512 0 ->
        size c < size c' \/ (size c = size c' /\ ptr c <= ptr c')) /\
     exists sz, alloc s' (ptr c) sz 300 (next_allocation_id_ one_block) /\ 512 <= sz <= size c /\
       (sz = 512 \/ (sz < 2 * 512 /\ sz - 512 < default 0 (kMaxInternalFragmentation one_block)))).
Proof.
  apply (bfc_best_fit one_block 300 512 0); [apply one_block_good|lia|reflexivity].
Defined.

(** C35: coalescing.  While no timing counter is attached, no two free chunks
    are ever neighbours: the constructor establishes this and every operation
    keeps it. *)
Theorem bfc_no_adjacent_free `{SA : SubAllocator} {SL : SubAllocatorLaws SA} fuel s o r s' :
  (enough_fuel <= fuel)%nat -> wf ∅ s -> growth_safe s -> coalesced s -> valid s o ->
  (forall sc, o = OpSetTimingCounter sc -> sc = None) -> exec fuel o s = Done (r, s') ->
  coalesced s' /\
  (forall h c cn, lives s' h c -> lives s' (next c) cn -> in_use c = true \/ in_use cn = true).
Proof.
  intros Hf Hwf Hg Hc Hv Ho R. pose proof (exec_coalesced fuel s o r s' Hwf (gs_mod _ Hg) Hv Ho R Hc) as Hc'.
  split; [done|]. intros h c cn Hl Hn. destruct (in_use c) eqn:E1; [by left|]. destruct (in_use cn) eqn:E2; [by right|].
  by destruct (co_coal _ Hc' h c cn Hl Hn E1 E2).
Qed.

Lemma bfc_no_adjacent_free_witness :
  coalesced one_block /\
  (forall h c cn, lives one_block h c -> lives one_block (next c) cn ->
     in_use c = true \/ in_use cn = true).
Proof.
  apply (bfc_no_adjacent_free 800 empty_state (OpAlloc 1 1000 0) 4096 one_block).
  - unfold enough_fuel. lia.
  - apply empty_good.
  - apply empty_good.
  - eapply new_coalesced, empty_new.
  - simpl. lia.
  - discriminate.
  - apply one_block_run.
Defined.

(** tiling.  In a state that satisfies the invariant every address of every
    region lies in exactly one chunk, and every block in use lies inside memory
    owned from the sub-allocator. *)
Theorem bfc_tiling `{SA : SubAllocator} {SL : SubAllocatorLaws SA} s :
  wf ∅ s ->
  (forall x, covered s x ->
     exists h c, lives s h c /\ ptr c <= x < ptr c + size c /\
       forall h' c', lives s h' c' -> ptr c' <= x < ptr c' + size c' -> h' = h) /\
  (forall p sz rq id x, alloc s p sz rq id -> p <= x < p + sz ->
     covered s x /\ sa_owned (sub_allocator_ s) x).
Proof.
  intros [W HB HA]. split; [intros x; by apply tiling|].
  intros p sz rq id x (h & c & Hl & _ & <- & <- & _) Hx.
  destruct (lk_range _ _ _ (wc_linked _ W) _ _ Hl) as (a & b & Hab & Ha & Hb & _).
  split; [exists a, b; split; [done|lia]|]. apply (ac_owned _ HA a b); [done|lia].
Qed.

Lemma bfc_tiling_witness :
  (forall x, covered one_block x ->
     exists h c, lives one_block h c /\ ptr c <= x < ptr c + size c /\
       forall h' c', lives one_block h' c' -> ptr c' <= x < ptr c' + size c' -> h' = h) /\
  (forall p sz rq id x, alloc one_block p sz rq id -> p <= x < p + sz ->
     covered one_block x /\ sa_owned (sub_allocator_ one_block) x).
Proof. apply (bfc_tiling one_block). apply one_block_good. Defined.

(** ** Accounting and queries *)

(** accounting.  [GetStats().bytes_in_use] is the total size of the blocks
    in use, and it never exceeds the memory obtained from the sub-allocator. *)
Theorem bfc_bytes_in_use `{SA : SubAllocator} {SL : SubAllocatorLaws SA} s :
  wf ∅ s ->
  bytes_in_use (GetStats s) = block_bytes (blocks s) /\
  bytes_in_use (GetStats s) <= total_region_allocated_bytes_ s.
Proof.
  intros Hwf. pose proof Hwf as [W HB HA]. unfold GetStats.
  rewrite (ac_usage _ HA), block_bytes_usage by done. split; [done|]. by apply used_within_regions.
Qed.

Lemma bfc_bytes_in_use_witness :
  bytes_in_use (GetStats one_block) = block_bytes (blocks one_block) /\
  bytes_in_use (GetStats one_block) <= total_region_allocated_bytes_ one_block.
Proof. apply (bfc_bytes_in_use one_block). apply one_block_good. Defined.

(** The queries on a block in use return what was recorded when it was
    allocated, and do not change the state. *)
Theorem bfc_queries `{SA : SubAllocator} {SL : SubAllocatorLaws SA} s p sz rq id :
  wf ∅ s -> blocks s !! p = Some (sz, rq, id) ->
  RequestedSize p s = Done (rq, s) /\ AllocatedSize p s = Done (sz, s) /\
  AllocationId p s = Done (id, s) /\ 0 < rq <= sz.
Proof.
  intros [W HB HA] Hb. apply (blocks_spec s p (sz, rq, id) W) in Hb.
  destruct (query_block s p sz rq id W Hb) as (H1 & H2 & H3). split_and!; try done.
  - by destruct (ac_ids _ HA _ _ _ _ Hb) as [_ [? ?]].
  - by destruct (ac_ids _ HA _ _ _ _ Hb) as [_ [? ?]].
Qed.

Lemma bfc_queries_witness :
  RequestedSize 4096 one_block = Done (1000, one_block) /\
  AllocatedSize 4096 one_block = Done (1024, one_block) /\
  AllocationId 4096 one_block = Done (1, one_block) /\ 0 < 1000 <= 1024.
Proof. apply (bfc_queries one_block 4096 1024 1000 1); [apply one_block_good|reflexivity]. Defined.

(** [LargestFreeChunk] is the size of the largest free chunk, 0 if there is
    none. *)
Theorem bfc_largest_free_chunk `{SA : SubAllocator} {SL : SubAllocatorLaws SA} s :
  wf ∅ s -> exists z, LargestFreeChunk s = Done (z, s) /\ (forall c, free_chunk s c -> size c <= z) /\
    ((z = 0 /\ forall c, ~ free_chunk s c) \/ exists c, free_chunk s c /\ size c = z).
Proof. intros Hwf. by apply LargestFreeChunk_spec. Qed.

Lemma bfc_largest_free_chunk_witness :
  exists z, LargestFreeChunk one_block = Done (z, one_block) /\
    (forall c, free_chunk one_block c -> size c <= z) /\
    ((z = 0 /\ forall c, ~ free_chunk one_block c) \/ exists c, free_chunk one_block c /\ size c = z).
Proof. apply (bfc_largest_free_chunk one_block). apply one_block_good. Defined.

(** ** Garbage collection, free times, growth, retries *)

(** giving regions back.  [DeallocateFreeRegions] always returns and keeps
    the invariant; it never touches a block in use. *)
Theorem bfc_gc_safe `{SA : SubAllocator} {SL : SubAllocatorLaws SA} s rb :
  wf ∅ s -> exists (b : bool) s', DeallocateFreeRegions rb s = Done (b, s') /\ wf ∅ s' /\
    blocks s' = blocks s /\ (forall p sz rq id x, alloc s p sz rq id -> p <= x < p + sz -> covered s' x).
Proof.
  intros Hwf. destruct (DeallocateFreeRegions_spec s rb Hwf) as (b & s' & R & W' & E' & _).
  exists b, s'. split_and!; [done|apply W'..| |].
  - apply blocks_same; [apply Hwf|apply W'|apply E'].
  - intros p sz rq id x Ha Hx. apply (ex_allocs _ _ E') in Ha as (h & c & Hl & _ & <- & <- & _).
    destruct (lk_range _ _ _ (wc_linked _ (wf_c _ _ W')) _ _ Hl) as (a & b' & Hab & Ha' & Hb & _).
    exists a, b'. split; [done|lia].
Qed.

Lemma bfc_gc_safe_witness :
  exists (b : bool) s', DeallocateFreeRegions 512 one_block = Done (b, s') /\ wf ∅ s' /\
    blocks s' = blocks one_block /\
    (forall p sz rq id x, alloc one_block p sz rq id -> p <= x < p + sz -> covered s' x).
Proof. apply (bfc_gc_safe one_block 512). apply one_block_good. Defined.

(** merging chunks whose free times have passed, or aggressively for a
    request, returns, keeps the invariant and leaves every block in use. *)
Theorem bfc_merge_timestamped_safe `{SA : SubAllocator} {SL : SubAllocatorLaws SA} s required :
  wf ∅ s -> garbage_collection_ s = false ->
  exists (b : bool) s', MergeTimestampedChunks required s = Done (b, s') /\ wf ∅ s' /\ blocks s' = blocks s.
Proof.
  intros Hwf Hgc. destruct (MergeTimestampedChunks_spec required s Hwf Hgc) as (s' & b & R & W' & A & _).
  exists b, s'. split; [done|]. split; [done|]. apply blocks_same; [apply Hwf|apply W'|done].
Qed.

Lemma bfc_merge_timestamped_safe_witness :
  exists (b : bool) s', MergeTimestampedChunks 0 one_block = Done (b, s') /\ wf ∅ s' /\
    blocks s' = blocks one_block.
Proof. apply (bfc_merge_timestamped_safe one_block 0); apply one_block_good. Defined.

(** growing.  [Extend] returns within its fuel; when it succeeds there is a
    free chunk for the request that the search accepts, when it fails the chunks
    are unchanged; the blocks in use stay. *)
Theorem bfc_extend `{SA : SubAllocator} {SL : SubAllocatorLaws SA} s fuel al rb :
  wf ∅ s -> 0 < rb -> growth_safe s -> backpedal_safe s rb -> (enough_fuel <= fuel)%nat ->
  exists (b : bool) s', Extend fuel al rb s = Done (b, s') /\ wf ∅ s' /\ blocks s' = blocks s /\
    (if b then exists c, free_chunk s' c /\ forall fb, 0 <= fb -> eligible c rb fb
     else chunks_ s' = chunks_ s).
Proof.
  intros Hwf Hrb Hg Hb Hf. destruct (Extend_spec s fuel al rb Hwf (gs_mod _ Hg) Hrb) as [[_ []]|(b & s' & R & W' & E' & Hres)]; [by split|].
  exists b, s'. split; [done|]. split; [done|]. split; [apply blocks_same; [apply Hwf|apply W'|apply E']|].
  destruct b.
  - destruct Hres as (c & Hc & Hsz & Hfr). exists c. split; [done|]. intros fb Hfb. split; [done|lia].
  - by destruct Hres as ((? & _) & _).
Qed.

Lemma bfc_extend_witness :
  exists (b : bool) s', Extend 800 1 1024 empty_state = Done (b, s') /\ wf ∅ s' /\
    blocks s' = blocks empty_state /\
    (if b then exists c, free_chunk s' c /\ forall fb, 0 <= fb -> eligible c 1024 fb
     else chunks_ s' = chunks_ empty_state).
Proof.
  apply (bfc_extend empty_state 800 1 1024).
  - apply empty_good.
  - lia.
  - apply empty_good.
  - right; right. apply arena_willing. vm_compute. done.
  - unfold enough_fuel. lia.
Defined.

(** [AllocateRaw] with its retry loop: whatever benign operations other
    threads perform during the waits, it returns, and a non-null result is a
    block in use with at least the bytes asked for. *)
Theorem bfc_allocate_raw `{SA : SubAllocator} {SL : SubAllocatorLaws SA} fuel al nb retry freed_by waits s :
  (enough_fuel <= fuel)%nat -> exact -> 0 <= nb <= 2 ^ 64 - 256 -> (forall i, 0 <= freed_by i) ->
  pool_ok s -> backpedal_safe s (RoundedBytes nb) -> Forall (benign nb) waits ->
  exists p s', AllocateRaw fuel al nb retry freed_by waits s = Done (p, s') /\ pool_ok s' /\ holds s' p nb.
Proof. intros. by apply AllocateRaw_ok. Qed.

Lemma bfc_allocate_raw_witness :
  exists p s', AllocateRaw 800 64 3000 true (fun _ => 0) [ret tt] one_block = Done (p, s') /\
    pool_ok s' /\ holds s' p 3000.
Proof.
  apply (bfc_allocate_raw 800 64 3000 true (fun _ => 0) [ret tt] one_block).
  - unfold enough_fuel. lia.
  - apply arena_exact.
  - lia.
  - reflexivity.
  - apply one_block_good.
  - right; left. vm_compute. reflexivity.
  - constructor; [|constructor]. intros s Hs Hb. by exists s.
Defined.

(** ** Sizes *)

(** the portable logarithm agrees with the builtin on 64-bit values, and
    the bins partition the sizes: chunk sizes of bin [b] are at least
    [BinNumToSize b] and, except in the last bin, below [BinNumToSize (b + 1)]. *)
Theorem bfc_bins n :
  256 <= n < 2 ^ 64 ->
  Log2FloorNonZeroSlow n = Some (Log2FloorNonZero n) /\
  0 <= BinNumForSize n < kNumBins /\ BinNumToSize (BinNumForSize n) <= n /\
  (BinNumForSize n < kNumBins - 1 -> n < BinNumToSize (BinNumForSize n + 1)).
Proof.
  intros Hn. split.
  { unfold Log2FloorNonZeroSlow, Log2FloorNonZero.
    rewrite (Log2FloorNonZeroSlow_loop_spec 64); [done|]. change (2 ^ Z.of_nat 64) with (2 ^ 64). lia. }
  pose proof (BinNumForSize_range n) as Hr. unfold BinNumForSize, Log2FloorNonZero in *.
  change kMinAllocationBits with 8 in *. change kNumBins with 21 in *.
  rewrite Z.max_l in * by lia. rewrite Z.shiftr_div_pow2 in * by lia. change (2 ^ 8) with 256 in *.
  assert (Hv : 1 <= n / 256) by (apply Z.div_le_lower_bound; lia).
  destruct (Z.log2_spec (n / 256)) as [L1 L2]; [lia|]. set (k := Z.log2 (n / 256)) in *.
  set (b := Z.min (21 - 1) k) in *.
  assert (Hs : forall i, 0 <= i <= 21 -> BinNumToSize i = 256 * 2 ^ i).
  { intros i Hi. unfold BinNumToSize. rewrite Z.shiftl_mul_pow2 by lia. apply u64_small. unfold in_u64.
    pose proof (Z.pow_le_mono_r 2 i 21 ltac:(lia) ltac:(lia)). pose proof (Z.pow_pos_nonneg 2 i ltac:(lia) ltac:(lia)).
    lia. }
  pose proof (Z.div_mod n 256 ltac:(lia)). pose proof (Z.mod_pos_bound n 256 ltac:(lia)).
  split_and!; [lia|lia| |].
  - rewrite Hs by lia. pose proof (Z.pow_le_mono_r 2 b k ltac:(lia) ltac:(lia)). lia.
  - intros Hb. rewrite Hs by lia. assert (b = k) as -> by lia. rewrite Z.pow_succ_r in L2 by lia.
    rewrite Z.pow_add_r by lia. lia.
Qed.

Lemma bfc_bins_witness :
  Log2FloorNonZeroSlow 5000 = Some (Log2FloorNonZero 5000) /\
  0 <= BinNumForSize 5000 < kNumBins /\ BinNumToSize (BinNumForSize 5000) <= 5000 /\
  (BinNumForSize 5000 < kNumBins - 1 -> 5000 < BinNumToSize (BinNumForSize 5000 + 1)).
Proof. apply (bfc_bins 5000). lia. Defined.

(** ** Where the arithmetic gives out *)

(** C38: requests within 255 bytes of [SIZE_MAX] are rounded to zero bytes. *)
Theorem bfc_rounding_wraps n : 2 ^ 64 - 256 < n < 2 ^ 64 -> RoundedBytes n = 0.
Proof.
  intros Hn. unfold RoundedBytes. change kMinAllocationSize with 256.
  assert (E : u64 (n + 256 - 1) = n + 255 - 2 ^ 64).
  { unfold u64, uwrap. rewrite <-(Z.mod_small (n + 255 - 2 ^ 64) (2 ^ 64)) by lia.
    replace (n + 256 - 1) with (n + 255 - 2 ^ 64 + 1 * 2 ^ 64) by lia. apply Z.mod_add. lia. }
  rewrite E, Z.div_small by lia. done.
Qed.

Lemma bfc_rounding_wraps_witness : RoundedBytes (2 ^ 64 - 1) = 0.
Proof. apply (bfc_rounding_wraps (2 ^ 64 - 1)). lia. Defined.

(** C39: the backpedalling loop does not end, whatever the size it starts from, for
    requests of at most 2304 bytes under a sub-allocator that keeps refusing: the
    next size it tries is never below the request.  So [Extend], and with it the
    allocation, never returns when a small request is the first that is refused. *)
Theorem bfc_backpedal_diverges `{SA : SubAllocator} al rb :
  0 < rb <= 2304 ->
  (forall st b, (forall n, sa_Alloc st al n = (None, st)) -> rb <= b < 2 ^ 64 -> b mod 256 = 0 ->
     forall fuel, backpedal_loop fuel al rb b st = None) /\
  (forall s : BFCAllocator, (forall n, sa_Alloc (sub_allocator_ s) al n = (None, sub_allocator_ s)) -> started_backpedal_ s = false ->
     sized s -> rb <= u64 (memory_limit_ s - total_region_allocated_bytes_ s) / 256 * 256 ->
     forall fuel, Extend fuel al rb s = OutOfFuel).
Proof.
  intros Hrb. assert (Hloop : forall st b, (forall n, sa_Alloc st al n = (None, st)) -> rb <= b < 2 ^ 64 -> b mod 256 = 0 ->
     forall fuel, backpedal_loop fuel al rb b st = None).
  { intros st b Hno Hb Hm fuel. revert b Hb Hm. induction fuel as [|fuel IH]; intros b Hb Hm; [done|]. cbn [backpedal_loop].
    pose proof (backpedal_floor rb b ltac:(lia) ltac:(lia) ltac:(lia) Hm). pose proof (backpedal_le b ltac:(lia) Hm).
    rewrite (proj2 (Z.ltb_ge _ _)) by lia. rewrite Hno. apply IH; [lia|apply RoundedBytes_mod]. }
  split; [exact Hloop|]. intros s Hno Hbp Hsz Hav fuel. unfold Extend, bind at 1, get. cbv zeta. change kMinAllocationSize with 256.
  rewrite (proj2 (Z.ltb_ge _ _)) by done. destruct (grow_loop fuel rb (curr_region_allocation_bytes_ s) false) as [[curr inc]|] eqn:Rg; [|done].
  destruct (grow_loop_some _ _ _ _ _ _ Rg) as (C1 & C2 & _). rewrite Hno, Hbp. cbn [negb]. rewrite Hloop; [done|done| |].
  - pose proof (u64_range (memory_limit_ s - total_region_allocated_bytes_ s)) as Hu. unfold in_u64 in Hu. Z.div_mod_to_equations. lia.
  - destruct (Z.min_spec curr (u64 (memory_limit_ s - total_region_allocated_bytes_ s) / 256 * 256)) as [[_ ->]|[_ ->]]; [by apply C2|apply Z.mod_mul; lia].
Qed.

Lemma bfc_backpedal_diverges_witness :
  exists s, BFCAllocator_new (SA := refusing) tt 4096 true false = Done s /\ forall fuel, Extend fuel 1 256 s = OutOfFuel.
Proof.
  eexists. split; [reflexivity|].
  apply (bfc_backpedal_diverges (SA := refusing) 1 256); [lia|reflexivity|reflexivity|reflexivity|vm_compute; discriminate].
Defined.

(** the next region size doubles without an overflow check; 2^63 becomes 0,
    from where the growth loop never ends. *)
Theorem bfc_growth_overflows rb :
  0 < rb -> u64 (2 ^ 63 * 2) = 0 /\ forall fuel inc, grow_loop fuel rb 0 inc = None.
Proof.
  intros Hrb. split; [done|]. induction fuel as [|fuel IH]; intros inc; [done|]. cbn [grow_loop].
  rewrite (proj2 (Z.ltb_lt _ _)) by done. apply IH.
Qed.

Lemma bfc_growth_overflows_witness :
  u64 (2 ^ 63 * 2) = 0 /\ forall fuel inc, grow_loop fuel 256 0 inc = None.
Proof. apply (bfc_growth_overflows 256). lia. Defined.

(** a sub-allocator that gives more than it is asked for can take the total past
    the limit; the bytes available then wrap around to a number that no limit
    explains. *)
Lemma bfc_limit_wraps limit total : 0 <= limit < total -> total <= 2 ^ 63 -> 2 ^ 63 <= u64 (limit - total).
Proof.
  intros Hl Ht. unfold u64, uwrap. replace (limit - total) with (limit - total + 2 ^ 64 + (-1) * 2 ^ 64) by lia.
  rewrite Z.mod_add by lia. rewrite Z.mod_small; lia.
Qed.
