(* ===== verification/Coding.v ===== *)
(** * Fixed-width and varint byte coding (src/tensorflow/core/platform/coding.cc, raw_coding.h)

    Byte strings are lists of [Z] in [0,256).  A writer returns the bytes it
    appends to its destination, a reader the value and the unread suffix, or
    [None] where the code returns [nullptr]/[false].  The functions on
    little-endian hosts use [memcpy] and on big-endian hosts write the same
    bytes one by one: both branches store the little-endian bytes, which is
    what the definitions below write out. *)
From S2P Require Import Prelude.
From stdpp Require Import options.

Definition EncodeFixed16 (value : Z) : list Z :=
  [Z.land value 255; Z.land (Z.shiftr value 8) 255].

Definition EncodeFixed32 (value : Z) : list Z :=
  [Z.land value 255; Z.land (Z.shiftr value 8) 255;
   Z.land (Z.shiftr value 16) 255; Z.land (Z.shiftr value 24) 255].

Definition EncodeFixed64 (value : Z) : list Z :=
  [Z.land value 255; Z.land (Z.shiftr value 8) 255;
   Z.land (Z.shiftr value 16) 255; Z.land (Z.shiftr value 24) 255;
   Z.land (Z.shiftr value 32) 255; Z.land (Z.shiftr value 40) 255;
   Z.land (Z.shiftr value 48) 255; Z.land (Z.shiftr value 56) 255].

Definition PutFixed16 (dst : list Z) (value : Z) : list Z := dst ++ EncodeFixed16 value.

Definition PutFixed32 (dst : list Z) (value : Z) : list Z := dst ++ EncodeFixed32 value.

Definition PutFixed64 (dst : list Z) (value : Z) : list Z := dst ++ EncodeFixed64 value.

(** The raw readers have no bounds check: reading past the buffer is [None]. *)
Definition DecodeFixed16 (buf : list Z) : option Z :=
  match buf with
  | b0 :: b1 :: _ => Some (Z.lor b0 (Z.shiftl b1 8))
  | _ => None
  end.

Definition DecodeFixed32 (buf : list Z) : option Z :=
  match buf with
  | b0 :: b1 :: b2 :: b3 :: _ =>
      Some (Z.lor (Z.lor (Z.lor b0 (Z.shiftl b1 8)) (Z.shiftl b2 16)) (Z.shiftl b3 24))
  | _ => None
  end.

Definition DecodeFixed64 (buf : list Z) : option Z :=
  lo ← DecodeFixed32 buf;
  hi ← DecodeFixed32 (drop 4 buf);
  Some (Z.lor (Z.shiftl hi 32) lo).

(** [EncodeVarint32]: the five unrolled cases of the source. *)
Definition EncodeVarint32 (v : Z) : list Z :=
  let B := 128 in
  if v <? Z.shiftl 1 7 then [u8 v]
  else if v <? Z.shiftl 1 14 then [u8 (Z.lor v B); u8 (Z.shiftr v 7)]
  else if v <? Z.shiftl 1 21 then
    [u8 (Z.lor v B); u8 (Z.lor (Z.shiftr v 7) B); u8 (Z.shiftr v 14)]
  else if v <? Z.shiftl 1 28 then
    [u8 (Z.lor v B); u8 (Z.lor (Z.shiftr v 7) B); u8 (Z.lor (Z.shiftr v 14) B);
     u8 (Z.shiftr v 21)]
  else
    [u8 (Z.lor v B); u8 (Z.lor (Z.shiftr v 7) B); u8 (Z.lor (Z.shiftr v 14) B);
     u8 (Z.lor (Z.shiftr v 21) B); u8 (Z.shiftr v 28)].

Definition PutVarint32 (dst : list Z) (v : Z) : list Z := dst ++ EncodeVarint32 v.

(** [while (v >= B)]: one unit of fuel per test of the loop. *)
Fixpoint EncodeVarint64_loop (fuel : nat) (v : Z) : option (list Z) :=
  match fuel with
  | O => None
  | S fuel =>
      if v >=? 128 then
        rest ← EncodeVarint64_loop fuel (Z.shiftr v 7);
        Some (u8 (Z.lor (Z.land v 127) 128) :: rest)
      else Some [u8 v]
  end.

(** The callers' buffer has 10 bytes; ten tests are enough for every 64-bit value. *)
Definition EncodeVarint64 (v : Z) : option (list Z) := EncodeVarint64_loop 10 v.

Definition PutVarint64 (dst : list Z) (v : Z) : option (list Z) :=
  bs ← EncodeVarint64 v; Some (dst ++ bs).

Fixpoint VarintLength_loop (fuel : nat) (v len : Z) : option Z :=
  match fuel with
  | O => None
  | S fuel => if v >=? 128 then VarintLength_loop fuel (Z.shiftr v 7) (len + 1) else Some len
  end.

Definition VarintLength (v : Z) : option Z := VarintLength_loop 10 v 1.

(** The [for (shift = 0; shift <= max_shift && p < limit; shift += 7)] loop of
    both pointer readers; [w] is the width of [result]. *)
Fixpoint GetVarint_loop (w max_shift shift result : Z) (p : list Z) : option (Z * list Z) :=
  match p with
  | [] => None
  | byte :: p =>
      if shift <=? max_shift then
        if negb (Z.land byte 128 =? 0) then
          GetVarint_loop w max_shift (shift + 7)
            (Z.lor result (uwrap w (Z.shiftl (Z.land byte 127) shift))) p
        else Some (Z.lor result (uwrap w (Z.shiftl byte shift)), p)
      else None
  end.

Definition GetVarint32PtrFallback (p : list Z) : option (Z * list Z) :=
  GetVarint_loop 32 28 0 0 p.

Definition GetVarint32Ptr (p : list Z) : option (Z * list Z) :=
  match p with
  | result :: p' => if Z.land result 128 =? 0 then Some (result, p') else GetVarint32PtrFallback p
  | [] => GetVarint32PtrFallback p
  end.

Definition GetVarint32 (input : list Z) : option (Z * list Z) := GetVarint32Ptr input.

Definition GetVarint64Ptr (p : list Z) : option (Z * list Z) := GetVarint_loop 64 63 0 0 p.

Definition GetVarint64 (input : list Z) : option (Z * list Z) := GetVarint64Ptr input.

(** ** Arithmetic readings of the byte operations *)

Lemma land_255 v : Z.land v 255 = v mod 2 ^ 8.
Proof. change 255 with (Z.ones 8). by rewrite Z.land_ones. Qed.

Lemma land_127 v : Z.land v 127 = v mod 2 ^ 7.
Proof. change 127 with (Z.ones 7). by rewrite Z.land_ones. Qed.

Lemma lor_128 x : 0 <= x < 128 -> Z.lor x 128 = x + 128.
Proof.
  intros. change 128 with (Z.shiftl 1 7) at 1.
  rewrite lor_shiftl_add by lia. lia.
Qed.

Lemma land_128_low x : 0 <= x < 128 -> Z.land x 128 = 0.
Proof. intros. change 128 with (Z.shiftl 1 7). apply land_shiftl_low; lia. Qed.

Lemma u8_lor_128 v : 0 <= v -> u8 (Z.lor v 128) = v mod 128 + 128.
Proof.
  intros. unfold u8, uwrap. rewrite <-(lor_128 (v mod 128)) by (apply Z.mod_pos_bound; lia).
  apply Z.bits_inj'. intros i Hi. change 256 with (2 ^ 8).
  destruct (decide (i < 8)).
  - rewrite Z.mod_pow2_bits_low, !Z.lor_spec by lia. change 128 with (2 ^ 7) at 2.
    destruct (decide (i = 7)) as [->|].
    + change 128 with (2 ^ 7). rewrite Z.pow2_bits_true by lia. by rewrite !orb_true_r.
    + rewrite Z.mod_pow2_bits_low by lia. done.
  - rewrite Z.mod_pow2_bits_high by lia. rewrite Z.lor_spec. change 128 with (2 ^ 7).
    rewrite Z.mod_pow2_bits_high, Z.pow2_bits_false by lia. done.
Qed.

Lemma land_128_set x : 0 <= x < 128 -> (Z.land (x + 128) 128 =? 0) = false.
Proof.
  intros. apply Z.eqb_neq. rewrite <-lor_128 by lia.
  rewrite Z.land_comm, Z.land_lor_distr_r, (Z.land_comm 128 x), land_128_low by lia. done.
Qed.

Lemma land_127_cont x : 0 <= x < 128 -> Z.land (x + 128) 127 = x.
Proof.
  intros. rewrite land_127. replace (x + 128) with (x + 1 * 2 ^ 7) by lia.
  rewrite Z_mod_plus_full, Z.mod_small; lia.
Qed.

Lemma fixed32_arith b0 b1 b2 b3 :
  is_byte b0 -> is_byte b1 -> is_byte b2 -> is_byte b3 ->
  Z.lor (Z.lor (Z.lor b0 (Z.shiftl b1 8)) (Z.shiftl b2 16)) (Z.shiftl b3 24)
  = b0 + b1 * 2 ^ 8 + b2 * 2 ^ 16 + b3 * 2 ^ 24.
Proof.
  unfold is_byte. intros. rewrite (lor_shiftl_add b0) by lia.
  rewrite (lor_shiftl_add (b0 + b1 * 2 ^ 8)) by lia. rewrite lor_shiftl_add by lia. lia.
Qed.

Lemma byte_digits lo :
  0 <= lo < 2 ^ 32 ->
  lo mod 2 ^ 8 + (lo / 2 ^ 8) mod 2 ^ 8 * 2 ^ 8 + (lo / 2 ^ 16) mod 2 ^ 8 * 2 ^ 16
    + (lo / 2 ^ 24) mod 2 ^ 8 * 2 ^ 24 = lo.
Proof.
  intros. replace (2 ^ 16) with (2 ^ 8 * 2 ^ 8) by done.
  replace (2 ^ 24) with (2 ^ 8 * 2 ^ 8 * 2 ^ 8) by done. rewrite <-!Z.div_div by lia.
  replace (2 ^ 32) with (2 ^ 8 * 2 ^ 8 * 2 ^ 8 * 2 ^ 8) in H by done.
  change (2 ^ 8) with 256 in *. Z.div_mod_to_equations. lia.
Qed.

Lemma DecodeFixed32_split lo rest :
  0 <= lo < 2 ^ 32 -> DecodeFixed32 (EncodeFixed32 lo ++ rest) = Some lo.
Proof.
  intros. unfold DecodeFixed32, EncodeFixed32. simpl. f_equal.
  rewrite !land_255, !Z.shiftr_div_pow2 by lia.
  rewrite fixed32_arith by (apply Z.mod_pos_bound; lia). by apply byte_digits.
Qed.

Lemma low_digit v n k : 0 <= k -> k + 8 <= n ->
  Z.land (Z.shiftr (v mod 2 ^ n) k) 255 = Z.land (Z.shiftr v k) 255.
Proof.
  intros. rewrite !land_255. apply Z.bits_inj'. intros i Hi.
  destruct (decide (i < 8)).
  - rewrite !Z.mod_pow2_bits_low, !Z.shiftr_spec by lia. by rewrite Z.mod_pow2_bits_low by lia.
  - by rewrite !Z.mod_pow2_bits_high by lia.
Qed.

Lemma EncodeFixed64_halves v :
  EncodeFixed64 v = EncodeFixed32 (v mod 2 ^ 32) ++ EncodeFixed32 (Z.shiftr v 32).
Proof.
  unfold EncodeFixed64, EncodeFixed32. simpl. rewrite !Z.shiftr_shiftr by lia.
  rewrite !low_digit by lia.
  pose proof (low_digit v 32 0) as E. rewrite !Z.shiftr_0_r in E. rewrite E by lia. done.
Qed.

Lemma EncodeFixed32_bytes v : Forall is_byte (EncodeFixed32 v).
Proof.
  unfold EncodeFixed32. rewrite !land_255.
  repeat constructor; apply Z.mod_pos_bound; lia.
Qed.

(** ** Lemmas on the varint loops *)

(** The reader accumulates the groups in place: started with the low [shift]
    bits [acc], it returns [acc + v * 2^shift] on the encoding of [v]. *)
Lemma GetVarint_loop_encode w ms fuel : forall v shift acc bs rest,
  0 <= shift <= ms -> ms < w -> 0 <= acc < 2 ^ shift -> 0 <= v -> v * 2 ^ shift < 2 ^ w ->
  (128 <= v -> shift + 7 <= ms) ->
  (forall k, 0 <= k -> 128 <= Z.shiftr v (7 * k) -> shift + 7 * k + 7 <= ms) ->
  EncodeVarint64_loop fuel v = Some bs ->
  GetVarint_loop w ms shift acc (bs ++ rest) = Some (acc + v * 2 ^ shift, rest).
Proof.
  induction fuel as [|fuel IH]; intros v shift acc bs rest Hs Hms Hacc Hv Hlt Hnext Hall E;
    simpl in E; [done|].
  rewrite Z.geb_leb in E. destruct (128 <=? v) eqn:Hb; bool_to_prop.
  - destruct (EncodeVarint64_loop fuel (Z.shiftr v 7)) as [bs'|] eqn:E'; simplify_eq/=.
    assert (Hm : 0 <= v mod 128 < 128) by (apply Z.mod_pos_bound; lia).
    rewrite land_127, lor_128 by (change (2 ^ 7) with 128; lia). change (2 ^ 7) with 128.
    unfold u8. rewrite uwrap_small by lia.
    rewrite (proj2 (Z.leb_le _ _)), land_128_set, land_127_cont by lia. simpl.
    pose proof (Z.shiftr_div_pow2 v 7 ltac:(lia)) as Hsh. change (2 ^ 7) with 128 in Hsh.
    pose proof (Z.div_mod v 128 ltac:(lia)) as Hdm.
    assert (Hp7 : 2 ^ (shift + 7) = 128 * 2 ^ shift) by (rewrite Z.pow_add_r; lia).
    assert (0 < 2 ^ shift) by lia.
    assert (Hdig : Z.shiftl (v mod 128) shift = v mod 128 * 2 ^ shift)
      by (apply Z.shiftl_mul_pow2; lia).
    assert (Hq : 0 <= v / 128) by (apply Z.div_pos; lia).
    rewrite uwrap_small by (rewrite Hdig; nia).
    rewrite lor_shiftl_add by lia.
    rewrite (IH (Z.shiftr v 7) (shift + 7) _ bs' rest).
    + f_equal. f_equal. rewrite Hsh, Hp7. nia.
    + specialize (Hnext Hb). lia.
    + lia.
    + rewrite Hp7. nia.
    + lia.
    + rewrite Hsh, Hp7. nia.
    + intros Hv7. specialize (Hall 1 ltac:(lia)). rewrite Z.mul_1_r in Hall. lia.
    + intros k Hk. rewrite Z.shiftr_shiftr by lia. intros H7.
      specialize (Hall (k + 1) ltac:(lia)). replace (7 * (k + 1)) with (7 + 7 * k) in Hall by lia.
      lia.
    + done.
  - simplify_eq/=. unfold u8. rewrite uwrap_small by lia.
    rewrite (proj2 (Z.leb_le _ _)) by lia. rewrite land_128_low by lia. simpl.
    rewrite uwrap_small by (rewrite Z.shiftl_mul_pow2; lia).
    rewrite lor_shiftl_add by lia. done.
Qed.

(** Seven bits go per test: a value below [2^(7*fuel)] is encoded. *)
Lemma EncodeVarint64_loop_total fuel : forall v,
  0 <= v < 2 ^ (7 * Z.of_nat fuel) -> (0 < fuel)%nat ->
  exists bs, EncodeVarint64_loop fuel v = Some bs /\ (1 <= length bs <= fuel)%nat /\ Forall is_byte bs.
Proof.
  induction fuel as [|fuel IH]; intros v Hv Hf; [lia|]. simpl.
  rewrite Z.geb_leb. destruct (128 <=? v) eqn:Hb; bool_to_prop.
  - assert (Hpow : 2 ^ (7 * Z.of_nat (S fuel)) = 128 * 2 ^ (7 * Z.of_nat fuel)).
    { rewrite Nat2Z.inj_succ. replace (7 * Z.succ (Z.of_nat fuel)) with (7 + 7 * Z.of_nat fuel) by lia.
      rewrite Z.pow_add_r; lia. }
    destruct fuel as [|fuel']; [change (128 * 2 ^ (7 * Z.of_nat 0)) with 128 in Hpow; lia|].
    destruct (IH (Z.shiftr v 7)) as (bs & -> & ? & ?).
    + rewrite Z.shiftr_div_pow2 by lia. change (2 ^ 7) with 128.
      split; [apply Z.div_pos; lia|apply Z.div_lt_upper_bound; lia].
    + lia.
    + eexists; split; [done|]. simpl. split; [lia|]. constructor; [apply u8_byte|done].
  - eexists; split; [done|]. simpl. split; [lia|]. constructor; [apply u8_byte|done].
Qed.

Lemma VarintLength_loop_spec fuel : forall v len bs,
  EncodeVarint64_loop fuel v = Some bs ->
  VarintLength_loop fuel v len = Some (len + Z.of_nat (length bs) - 1).
Proof.
  induction fuel as [|fuel IH]; intros v len bs E; simpl in *; [done|].
  destruct (v >=? 128).
  - destruct (EncodeVarint64_loop fuel (Z.shiftr v 7)) as [bs'|] eqn:E'; simplify_eq/=.
    rewrite (IH _ _ _ E'). f_equal. lia.
  - simplify_eq/=. f_equal. lia.
Qed.

(** The fast path of [GetVarint32Ptr] agrees with the fallback loop. *)
Lemma GetVarint32Ptr_fallback p :
  Forall is_byte p -> GetVarint32Ptr p = GetVarint32PtrFallback p.
Proof.
  intros Hp. destruct p as [|b p]; [done|]. apply Forall_cons in Hp as [Hb _].
  unfold GetVarint32Ptr, GetVarint32PtrFallback. simpl.
  destruct (Z.land b 128 =? 0) eqn:E; [|done]. simpl.
  rewrite Z.shiftl_0_r, uwrap_small by (unfold is_byte in Hb; lia). done.
Qed.

Lemma shiftr_group_bound v w k : 0 <= v < 2 ^ w -> 0 <= k -> 0 <= w ->
  128 <= Z.shiftr v (7 * k) -> 7 * k + 7 < w.
Proof.
  intros Hv Hk Hw H. rewrite Z.shiftr_div_pow2 in H by lia.
  destruct (decide (7 * k + 7 < w)); [done|].
  assert (v / 2 ^ (7 * k) < 128); [|lia].
  apply Z.div_lt_upper_bound; [lia|].
  assert (2 ^ w <= 2 ^ (7 * k) * 128); [|lia].
  change 128 with (2 ^ 7). rewrite <-Z.pow_add_r by lia. apply Z.pow_le_mono_r; lia.
Qed.

(** The unrolled 32-bit encoder writes what the 64-bit loop writes. *)
Lemma EncodeVarint32_loop v : in_u32 v -> EncodeVarint64 v = Some (EncodeVarint32 v).
Proof.
  intros [Hv0 Hv]. unfold EncodeVarint64, EncodeVarint32.
  change (Z.shiftl 1 7) with 128; change (Z.shiftl 1 14) with (2 ^ 14); change (Z.shiftl 1 21) with (2 ^ 21);
  change (Z.shiftl 1 28) with (2 ^ 28).
  assert (Hstep : forall x, 0 <= x -> u8 (Z.lor (Z.land x 127) 128) = u8 (Z.lor x 128)).
  { intros x Hx. pose proof (Z.mod_pos_bound x 128 ltac:(lia)).
    rewrite (u8_lor_128 x), land_127 by lia. change (2 ^ 7) with 128. rewrite lor_128 by lia.
    unfold u8. by rewrite uwrap_small by lia. }
  assert (Hsh : forall k, 0 <= k -> 0 <= Z.shiftr v k) by (intros; apply Z.shiftr_nonneg; lia).
  assert (Hge : forall k, 0 <= k -> (Z.shiftr v k >=? 128) = (2 ^ (k + 7) <=? v)).
  { intros k Hk. rewrite Z.geb_leb. rewrite Z.shiftr_div_pow2 by lia.
    rewrite Z.pow_add_r by lia. assert (0 < 2 ^ k) by lia.
    apply eq_iff_eq_true. rewrite !Z.leb_le. split; intros H'.
    - pose proof (Z.mul_div_le v (2 ^ k)). change (2 ^ 7) with 128. nia.
    - apply Z.div_le_lower_bound; [lia|]. change 128 with (2 ^ 7). lia. }
  pose proof (Hge 0) as H0. rewrite Z.shiftr_0_r in H0. change (0 + 7) with 7 in H0.
  cbn [EncodeVarint64_loop]. rewrite !Z.shiftr_shiftr by lia. simpl (7 + _).
  rewrite H0, !Hge, !Hstep by auto with lia.
  repeat match goal with |- context [2 ^ ?n <=? v] =>
    destruct (Z.leb_spec (2 ^ n) v) end; try (exfalso; lia);
  repeat match goal with |- context [v <? ?n] =>
    destruct (Z.ltb_spec v n) end; try (exfalso; lia); done.
Qed.

(** Every 64-bit value has an encoding of one to ten bytes, which the reader inverts. *)
Lemma EncodeVarint64_spec v : in_u64 v ->
  exists bs, EncodeVarint64 v = Some bs /\ (1 <= length bs <= 10)%nat /\ Forall is_byte bs /\
    forall rest, GetVarint64 (bs ++ rest) = Some (v, rest).
Proof.
  intros [Hv0 Hv1].
  destruct (EncodeVarint64_loop_total 10 v) as (bs & E & Hlen & Hb); [lia|lia|].
  exists bs. split_and!; [done|lia|lia|done|].
  intros rest. unfold GetVarint64, GetVarint64Ptr.
  rewrite (GetVarint_loop_encode 64 63 10 v 0 0 bs rest); try lia; [|intros|done].
  - f_equal. f_equal. lia.
  - pose proof (shiftr_group_bound v 64 k). lia.
Qed.

Lemma EncodeVarint32_length v : (1 <= length (EncodeVarint32 v) <= 5)%nat.
Proof. unfold EncodeVarint32. repeat case_match; simpl; lia. Qed.

Lemma EncodeVarint32_bytes v : Forall is_byte (EncodeVarint32 v).
Proof. unfold EncodeVarint32. repeat case_match; repeat constructor; apply u8_byte. Qed.

(** The 32-bit reader inverts the 32-bit writer. *)
Lemma GetVarint32Ptr_encode v rest :
  in_u32 v -> Forall is_byte rest -> GetVarint32Ptr (EncodeVarint32 v ++ rest) = Some (v, rest).
Proof.
  intros Hv Hrest. pose proof (EncodeVarint32_loop v Hv) as E. destruct Hv as [Hv0 Hv1].
  rewrite GetVarint32Ptr_fallback by (apply Forall_app; split; [apply EncodeVarint32_bytes|done]).
  unfold GetVarint32PtrFallback.
  rewrite (GetVarint_loop_encode 32 28 10 v 0 0 (EncodeVarint32 v) rest); try lia; [|intros|done].
  - f_equal. f_equal. lia.
  - pose proof (shiftr_group_bound v 32 k). lia.
Qed.

(** A first byte below 128 is the whole encoding. *)
Lemma EncodeVarint32_small v : in_u32 v ->
  (v < 128 /\ EncodeVarint32 v = [v]) \/
  (exists b bs, EncodeVarint32 v = b :: bs /\ 128 <= b < 256).
Proof.
  intros [Hv0 Hv]. unfold EncodeVarint32. change (Z.shiftl 1 7) with 128.
  destruct (Z.ltb_spec v 128).
  - left. split; [done|]. unfold u8. rewrite uwrap_small by lia. done.
  - right. pose proof (Z.mod_pos_bound v 128 ltac:(lia)).
    repeat case_match; (eexists _, _; split; [reflexivity|]); rewrite u8_lor_128 by done; lia.
Qed.

(** ** Properties *)

(** the fixed-width coders are inverse: decoding what [PutFixed64] (and
    the two narrower writers) appended gives the value back, whatever follows
    in the buffer, and exactly 8, 4 and 2 bytes are written. *)
Theorem fixed_roundtrip (v : Z) (rest : list Z) (Hv : in_u64 v) :
  DecodeFixed64 (PutFixed64 [] v ++ rest) = Some v /\
  length (EncodeFixed64 v) = 8%nat /\
  DecodeFixed32 (PutFixed32 [] (u32 v) ++ rest) = Some (u32 v) /\
  DecodeFixed16 (PutFixed16 [] (uwrap 16 v) ++ rest) = Some (uwrap 16 v) /\
  Forall is_byte (EncodeFixed64 v).
Proof.
  destruct Hv as [Hv0 Hv1].
  assert (Hhi : 0 <= Z.shiftr v 32 < 2 ^ 32).
  { rewrite Z.shiftr_div_pow2 by lia. split; [apply Z.div_pos; lia|].
    apply Z.div_lt_upper_bound; lia. }
  assert (Hlo : 0 <= v mod 2 ^ 32 < 2 ^ 32) by (apply Z.mod_pos_bound; lia).
  split_and!.
  - unfold PutFixed64. rewrite app_nil_l, EncodeFixed64_halves, <-app_assoc.
    unfold DecodeFixed64. rewrite DecodeFixed32_split by done.
    assert (forall a x, drop 4 (EncodeFixed32 a ++ x) = x) as -> by done.
    rewrite DecodeFixed32_split by done. cbn. f_equal.
    rewrite Z.lor_comm, lor_shiftl_add, Z.shiftr_div_pow2 by lia.
    pose proof (Z.div_mod v (2 ^ 32)). lia.
  - done.
  - apply DecodeFixed32_split. apply uwrap_range. lia.
  - pose proof (uwrap_range 16 v ltac:(lia)) as Hr. revert Hr. generalize (uwrap 16 v).
    intros x Hx. simpl. f_equal. rewrite !land_255, Z.shiftr_div_pow2 by lia.
    rewrite lor_shiftl_add by (try apply Z.mod_pos_bound; lia).
    rewrite (Z.mod_small (x / 2 ^ 8)).
    + pose proof (Z.div_mod x (2 ^ 8)). lia.
    + split; [apply Z.div_pos; lia|apply Z.div_lt_upper_bound; lia].
  - rewrite EncodeFixed64_halves. apply Forall_app. split; apply EncodeFixed32_bytes.
Qed.

Lemma fixed_roundtrip_witness :
  DecodeFixed64 (PutFixed64 [] 81985529216486895 ++ [7]) = Some 81985529216486895.
Proof. apply (fixed_roundtrip 81985529216486895 [7]). unfold in_u64. lia. Defined.

(** varint64 round trip.  Every 64-bit value is encoded, in the number of
    bytes [VarintLength] predicts (at most the ten bytes of the callers'
    buffer), and the reader gives the value back and stops exactly where the
    encoding ends. *)
Theorem varint64_roundtrip (v : Z) (Hv : in_u64 v) :
  exists bs, EncodeVarint64 v = Some bs /\ (length bs <= 10)%nat /\
    VarintLength v = Some (Z.of_nat (length bs)) /\ Forall is_byte bs /\
    forall rest, GetVarint64 (bs ++ rest) = Some (v, rest).
Proof.
  destruct (EncodeVarint64_spec v Hv) as (bs & E & Hlen & Hb & Hget).
  exists bs. split_and!; [done|lia| |done|done].
  unfold VarintLength. rewrite (VarintLength_loop_spec _ _ _ _ E). f_equal. lia.
Qed.

Lemma varint64_roundtrip_witness :
  exists bs, EncodeVarint64 300 = Some bs /\ (length bs <= 10)%nat /\
    VarintLength 300 = Some (Z.of_nat (length bs)) /\ Forall is_byte bs /\
    forall rest, GetVarint64 (bs ++ rest) = Some (300, rest).
Proof. apply (varint64_roundtrip 300). unfold in_u64. lia. Defined.

(** the unrolled 32-bit encoder is the 64-bit loop on 32-bit values, its
    reader (fast path included) inverts it, and it writes at most five bytes. *)
Theorem varint32_equiv_roundtrip (v : Z) (rest : list Z) (Hv : in_u32 v)
    (Hrest : Forall is_byte rest) :
  EncodeVarint64 v = Some (EncodeVarint32 v) /\
  (length (EncodeVarint32 v) <= 5)%nat /\
  GetVarint32 (PutVarint32 [] v ++ rest) = Some (v, rest).
Proof.
  split_and!; [by apply EncodeVarint32_loop|apply EncodeVarint32_length|].
  by apply GetVarint32Ptr_encode.
Qed.

Lemma varint32_equiv_roundtrip_witness :
  EncodeVarint64 16384 = Some (EncodeVarint32 16384) /\
  (length (EncodeVarint32 16384) <= 5)%nat /\
  GetVarint32 (PutVarint32 [] 16384 ++ [1; 2]) = Some (16384, [1; 2]).
Proof.
  apply (varint32_equiv_roundtrip 16384 [1; 2]); [unfold in_u32; lia|].
  repeat constructor; unfold is_byte; lia.
Defined.
