(* ===== verification/TensorShape.v ===== *)
(** * Tensor shapes (src/tensorflow/core/framework/tensor_shape.h, tensor_shape.cc)

    [TensorShape] and [PartialTensorShape] share one representation: sixteen
    bytes of which byte 13 holds the data type, byte 14 the rank (255 for an
    unknown rank), byte 15 the tag, and bytes 0..11 six 16-bit or three 32-bit
    sizes, or the pointer to an out-of-line vector; next to them the cached
    number of elements.  The file models the representation at the level of
    its bytes and every operation on it; [TensorShapeProofs] shows that it
    implements lists of sizes.

    [kIsPartial] is the template parameter.  Operations that [CHECK] are
    computations of [M]; those that return a [Status] return its code.  A read
    or write outside [dims_] is [Crash]. *)
From S2P Require Import Prelude.
From stdpp Require Import options.
#[local] Open Scope tf_monad_scope.

(** ** Overflow-checked multiplication (util/overflow.h) *)
Definition MultiplyWithoutOverflow (x y : Z) : Z :=
  if x <? 0 then -1
  else if y <? 0 then -1
  else if x =? 0 then 0
  else
    let ux := u64 x in
    let uy := u64 y in
    let uxy := u64 (ux * uy) in
    if negb (Z.shiftr (Z.lor ux uy) 32 =? 0) && negb (uxy / ux =? uy) then -1
    else i64 uxy.

(** ** Bytes of the buffer *)
Fixpoint le_bytes (n : nat) (v : Z) : list Z :=
  match n with
  | O => []
  | S n => v mod 256 :: le_bytes n (v / 256)
  end.

Fixpoint le_value (bs : list Z) : Z :=
  match bs with
  | [] => 0
  | b :: bs => b + 256 * le_value bs
  end.

(** An [n]-byte unsigned integer at offset [off]. *)
Definition load (n off : nat) (b : list Z) : Z := le_value (take n (drop off b)).

Definition store (n off : nat) (v : Z) (b : list Z) : list Z :=
  take off b ++ le_bytes n v ++ drop (off + n) b.

(** [TensorShapeRep]: the byte buffer, the vector [as64()->dims_] points to
    (meaningful under the out-of-line tag) and the number of elements. *)
Record TensorShapeRep := mkRep {
  buf : list Z;
  out_of_line : list Z;
  num_elements : Z
}.

Definition REP16 : Z := 0.

Definition REP32 : Z := 1.

Definition REP_OUT_OF_LINE : Z := 2.

Definition MaxDimensions : Z := 254.

Definition kUnknownRank : Z := 255.

Definition kMaxRep16 : Z := 65535 - 1.

Definition kMaxRep32 : Z := 4294967295 - 1.

Definition kUnknownRep16 : Z := 65535.

Definition kUnknownRep32 : Z := 4294967295.

Definition data_type (s : TensorShapeRep) : Z := load 1 13 (buf s).

Definition ndims_byte (s : TensorShapeRep) : Z := load 1 14 (buf s).

Definition tag (s : TensorShapeRep) : Z := load 1 15 (buf s).

Definition set_buf (b : list Z) (s : TensorShapeRep) : TensorShapeRep :=
  mkRep b (out_of_line s) (num_elements s).

Definition set_data_type (dt : Z) (s : TensorShapeRep) : TensorShapeRep :=
  set_buf (store 1 13 (u8 dt) (buf s)) s.

Definition set_ndims_byte (nd : Z) (s : TensorShapeRep) : TensorShapeRep :=
  set_buf (store 1 14 (u8 nd) (buf s)) s.

Definition set_tag (t : Z) (s : TensorShapeRep) : TensorShapeRep :=
  set_buf (store 1 15 (u8 t) (buf s)) s.

Definition set_num_elements (n : Z) (s : TensorShapeRep) : TensorShapeRep :=
  mkRep (buf s) (out_of_line s) n.

Definition set_out_of_line (v : list Z) (s : TensorShapeRep) : TensorShapeRep :=
  mkRep (buf s) v (num_elements s).

(** [as16()->dims_[d]] and [as32()->dims_[d]]; [Crash] outside the arrays. *)
Definition get_dim16 (s : TensorShapeRep) (d : Z) : outcome Z :=
  if (0 <=? d) && (d <? 6) then Done (load 2 (2 * Z.to_nat d) (buf s)) else Crash.

Definition get_dim32 (s : TensorShapeRep) (d : Z) : outcome Z :=
  if (0 <=? d) && (d <? 3) then Done (load 4 (4 * Z.to_nat d) (buf s)) else Crash.

Definition get_dim64 (s : TensorShapeRep) (d : Z) : outcome Z :=
  if 0 <=? d then
    match out_of_line s !! Z.to_nat d with Some v => Done v | None => Crash end
  else Crash.

Definition put_dim16 (d v : Z) : M TensorShapeRep unit := fun s =>
  if (0 <=? d) && (d <? 6)
  then Done (tt, set_buf (store 2 (2 * Z.to_nat d) (uwrap 16 v) (buf s)) s) else Crash.

Definition put_dim32 (d v : Z) : M TensorShapeRep unit := fun s =>
  if (0 <=? d) && (d <? 3)
  then Done (tt, set_buf (store 4 (4 * Z.to_nat d) (u32 v) (buf s)) s) else Crash.

Definition put_dim64 (d v : Z) : M TensorShapeRep unit := fun s =>
  if (0 <=? d) && (d <? Z.of_nat (length (out_of_line s)))
  then Done (tt, set_out_of_line (<[Z.to_nat d := v]> (out_of_line s)) s) else Crash.

(** [ClearAllButDataType] frees the vector and leaves the size bytes alone. *)
Definition ClearAllButDataType (s : TensorShapeRep) : TensorShapeRep :=
  let s := if tag s =? REP_OUT_OF_LINE then set_out_of_line [] s else s in
  set_num_elements 1 (set_ndims_byte 0 (set_tag REP16 s)).

Definition Clear (s : TensorShapeRep) : TensorShapeRep :=
  set_data_type 0 (ClearAllButDataType s).

(** Copying.  [SlowCopyFrom] is reached when either side is out of line. *)
Definition SlowCopyFrom (a b : TensorShapeRep) : TensorShapeRep :=
  if negb (tag b =? REP_OUT_OF_LINE) then
    let a := if tag a =? REP_OUT_OF_LINE then set_out_of_line [] a else a in
    set_buf (buf b) a
  else
    let a := set_data_type (data_type b) (set_ndims_byte (ndims_byte b) a) in
    if tag a =? REP_OUT_OF_LINE then set_out_of_line (out_of_line b) a
    else set_out_of_line (out_of_line b) (set_tag REP_OUT_OF_LINE a).

Definition assign (a b : TensorShapeRep) : TensorShapeRep :=
  let a := set_num_elements (num_elements b) a in
  if negb (tag a =? REP_OUT_OF_LINE) && negb (tag b =? REP_OUT_OF_LINE)
  then set_buf (buf b) a else SlowCopyFrom a b.

(** The copy constructor starts from uninitialised storage [raw]. *)
Definition copy_construct (raw b : TensorShapeRep) : TensorShapeRep :=
  let a := set_num_elements (num_elements b) raw in
  if negb (tag b =? REP_OUT_OF_LINE) then set_buf (buf b) a
  else SlowCopyFrom (set_tag REP16 a) b.

Record TensorShapeProto := mkProto {
  proto_unknown_rank : bool;
  proto_dim : list Z
}.

Section TensorShapeBase.
Variable kIsPartial : bool.

Definition unknown_rank (s : TensorShapeRep) : bool := kIsPartial && (ndims_byte s =? kUnknownRank).

Definition dims (s : TensorShapeRep) : Z :=
  let d := ndims_byte s in
  if kIsPartial && (d =? kUnknownRank) then -1 else d.

Definition dim_size (s : TensorShapeRep) (d : Z) : outcome Z :=
  if unknown_rank s then Done (-1)
  else if tag s =? REP16 then
    match get_dim16 s d with
    | Done dim => Done (if kIsPartial && (dim =? kUnknownRep16) then -1 else dim)
    | Crash => Crash
    | OutOfFuel => OutOfFuel
    end
  else if tag s =? REP32 then
    match get_dim32 s d with
    | Done dim => Done (if kIsPartial && (dim =? kUnknownRep32) then -1 else dim)
    | Crash => Crash
    | OutOfFuel => OutOfFuel
    end
  else get_dim64 s d.

(** [TensorShapeIter]: [begin()] is 0, [end()] is -1 for an unknown rank, the
    test is [!=], and [++d_] overflows an [int] at 2^31 - 1.  A shape of known
    rank has at most 255 sizes, so 256 tests are enough. *)
Definition iter_end (s : TensorShapeRep) : Z := if unknown_rank s then -1 else dims s.

Definition iter_fuel : nat := 256.

Fixpoint iter_sizes (fuel : nat) (s : TensorShapeRep) (d end_ : Z) (acc : list Z) :
    outcome (list Z) :=
  match fuel with
  | O => OutOfFuel
  | S fuel =>
      if d =? end_ then Done acc
      else
        match dim_size s d with
        | Done x =>
            if d =? 2 ^ 31 - 1 then Crash else iter_sizes fuel s (d + 1) end_ (acc ++ [x])
        | Crash => Crash
        | OutOfFuel => OutOfFuel
        end
  end.

(** [AppendTo] and [dim_sizes] run the same loop. *)
Definition AppendTo (s : TensorShapeRep) (vals : list Z) : outcome (list Z) :=
  iter_sizes iter_fuel s 0 (iter_end s) vals.

Definition dim_sizes (s : TensorShapeRep) : outcome (list Z) :=
  iter_sizes iter_fuel s 0 (iter_end s) [].

(** The [for] loop of [RecomputeNumElements] over the sizes. *)
Fixpoint recompute_loop (n : Z) (l : list Z) : option Z :=
  match l with
  | [] => Some n
  | size :: l =>
      if kIsPartial && (size <? 0) then Some (-1)
      else
        let n := MultiplyWithoutOverflow n size in
        if n <? 0 then None else recompute_loop n l
  end.

Definition RecomputeNumElements : M TensorShapeRep Status :=
  s <~ get;;
  if unknown_rank s then modify (set_num_elements (-1));;; ret StatusOK
  else
    l <~ lift (dim_sizes s);;
    match recompute_loop 1 l with
    | None => ret (StatusError INVALID_ARGUMENT)
    | Some n => modify (set_num_elements n);;; ret StatusOK
    end.

Definition can_be_rep32 (vals : list Z) : bool :=
  (Z.of_nat (length vals) <=? 3) && forallb (fun v => negb (v >=? kMaxRep32)) vals.

Fixpoint put_dims32 (d : Z) (vals : list Z) : M TensorShapeRep unit :=
  match vals with
  | [] => ret tt
  | v :: vals =>
      put_dim32 d (if kIsPartial && (v <? 0) then kUnknownRep32 else u32 v);;;
      put_dims32 (d + 1) vals
  end.

Definition UnsafeAddDim (size new_num_elements : Z) : M TensorShapeRep unit :=
  s <~ get;;
  let nd := ndims_byte s in
  (if (tag s =? REP16) && (nd <? 6) && (size <? kMaxRep16) then
     put_dim16 nd (if kIsPartial && (size <? 0) then kUnknownRep16 else uwrap 16 size)
   else if (tag s =? REP32) && (nd <? 3) && (size <? kMaxRep32) then
     put_dim32 nd (if kIsPartial && (size <? 0) then kUnknownRep32 else u32 size)
   else if tag s =? REP_OUT_OF_LINE then
     modify (set_out_of_line (out_of_line s ++ [size]))
   else
     vals0 <~ lift (AppendTo s []);;
     let vals := vals0 ++ [size] in
     if can_be_rep32 vals then modify (set_tag REP32);;; put_dims32 0 vals
     else modify (set_tag REP_OUT_OF_LINE);;; modify (set_out_of_line vals));;;
  modify (set_ndims_byte (nd + 1));;;
  modify (set_num_elements new_num_elements).

Definition AddDim (size : Z) : M TensorShapeRep unit :=
  CHECK (kIsPartial || (size >=? 0));;;
  s <~ get;;
  if unknown_rank s then ret tt
  else
    CHECK (ndims_byte s <? MaxDimensions);;;
    if kIsPartial && ((num_elements s <? 0) || (size <? 0)) then UnsafeAddDim size (-1)
    else
      let new_num_elements := MultiplyWithoutOverflow (num_elements s) size in
      CHECK (0 <=? new_num_elements);;;
      UnsafeAddDim size new_num_elements.

Definition AddDimWithStatus (size : Z) : M TensorShapeRep Status :=
  if negb kIsPartial && (size <? 0) then ret (StatusError INTERNAL)
  else
    s <~ get;;
    if unknown_rank s then ret StatusOK
    else if ndims_byte s >=? MaxDimensions then ret (StatusError INTERNAL)
    else if kIsPartial && ((num_elements s <? 0) || (size <? 0)) then
      UnsafeAddDim size (-1);;; ret StatusOK
    else
      let new_num_elements := MultiplyWithoutOverflow (num_elements s) size in
      if new_num_elements <? 0 then ret (StatusError INTERNAL)
      else UnsafeAddDim size new_num_elements;;; ret StatusOK.

(** [for (auto d : shape) AddDim(d.size)]: reading and adding interleave. *)
Fixpoint AppendShape_loop (fuel : nat) (b : TensorShapeRep) (d end_ : Z) : M TensorShapeRep unit :=
  match fuel with
  | O => out_of_fuel
  | S fuel =>
      if d =? end_ then ret tt
      else
        x <~ lift (dim_size b d);;
        AddDim x;;;
        if d =? 2 ^ 31 - 1 then crash else AppendShape_loop fuel b (d + 1) end_
  end.

Definition AppendShape (b : TensorShapeRep) : M TensorShapeRep unit :=
  AppendShape_loop iter_fuel b 0 (iter_end b).

Fixpoint AppendShapeWithStatus_loop (fuel : nat) (b : TensorShapeRep) (d end_ : Z) :
    M TensorShapeRep Status :=
  match fuel with
  | O => out_of_fuel
  | S fuel =>
      if d =? end_ then ret StatusOK
      else
        x <~ lift (dim_size b d);;
        st <~ AddDimWithStatus x;;
        if ok st then
          if d =? 2 ^ 31 - 1 then crash else AppendShapeWithStatus_loop fuel b (d + 1) end_
        else ret st
  end.

Definition AppendShapeWithStatus (b : TensorShapeRep) : M TensorShapeRep Status :=
  AppendShapeWithStatus_loop iter_fuel b 0 (iter_end b).

(** [vals.insert(vals.begin() + d, size)] and [vals.erase(begin, end)]. *)
Definition vec_insert (d : Z) (size : Z) (vals : list Z) : list Z :=
  take (Z.to_nat d) vals ++ size :: drop (Z.to_nat d) vals.

Definition vec_erase (b e : Z) (vals : list Z) : list Z :=
  take (Z.to_nat b) vals ++ drop (Z.to_nat e) vals.

Definition InsertDim (d size : Z) : M TensorShapeRep unit :=
  s <~ get;;
  CHECK (d >=? 0);;;
  CHECK (d <=? dims s);;;
  CHECK (kIsPartial || (size >=? 0));;;
  CHECK (dims s <? MaxDimensions);;;
  vals <~ lift (AppendTo s []);;
  modify ClearAllButDataType;;;
  for_each AddDim (vec_insert d size vals).

Definition InsertDimWithStatus (d size : Z) : M TensorShapeRep Status :=
  s <~ get;;
  if negb kIsPartial && (size <? 0) then ret (StatusError INTERNAL)
  else if d <? 0 then ret (StatusError INTERNAL)
  else if d >? dims s then ret (StatusError INTERNAL)
  else if dims s >=? MaxDimensions then ret (StatusError INTERNAL)
  else
    vals <~ lift (AppendTo s []);;
    modify ClearAllButDataType;;;
    for_each_status AddDimWithStatus (vec_insert d size vals).

Definition set_dim (d size : Z) : M TensorShapeRep unit :=
  s <~ get;;
  CHECK (d >=? 0);;;
  CHECK (d <? dims s);;;
  CHECK (size >=? 0);;;
  (if (tag s =? REP16) && (size <? kMaxRep16) then
     put_dim16 d (if kIsPartial && (size <? 0) then kUnknownRep16 else uwrap 16 size)
   else if (tag s =? REP32) && (size <? kMaxRep32) then
     put_dim32 d (if kIsPartial && (size <? 0) then kUnknownRep32 else u32 size)
   else if tag s =? REP_OUT_OF_LINE then put_dim64 d size
   else
     vals <~ lift (AppendTo s []);;
     modify ClearAllButDataType;;;
     for_each AddDim (<[Z.to_nat d := size]> vals));;;
  st <~ RecomputeNumElements;;
  CHECK (ok st).

Definition SetDimWithStatus (d size : Z) : M TensorShapeRep Status :=
  s <~ get;;
  if d <? 0 then ret (StatusError INTERNAL)
  else if d >=? dims s then ret (StatusError INTERNAL)
  else if size <? 0 then ret (StatusError INTERNAL)
  else if (tag s =? REP16) && (size <? kMaxRep16) then
    put_dim16 d (if kIsPartial && (size <? 0) then kUnknownRep16 else uwrap 16 size);;;
    RecomputeNumElements
  else if (tag s =? REP32) && (size <? kMaxRep32) then
    put_dim32 d (if kIsPartial && (size <? 0) then kUnknownRep32 else u32 size);;;
    RecomputeNumElements
  else if tag s =? REP_OUT_OF_LINE then put_dim64 d size;;; RecomputeNumElements
  else
    vals <~ lift (AppendTo s []);;
    modify ClearAllButDataType;;;
    st <~ for_each_status AddDimWithStatus (<[Z.to_nat d := size]> vals);;
    if ok st then RecomputeNumElements else ret st.

(** A negative bound counts from the end, -1 being the end itself. *)
Definition range_bound (s : TensorShapeRep) (i : Z) : Z := if i <? 0 then dims s + i + 1 else i.

Definition RemoveDimRange (begin_ end_ : Z) : M TensorShapeRep unit :=
  s <~ get;;
  if unknown_rank s then ret tt
  else
    let b := range_bound s begin_ in
    let e := range_bound s end_ in
    CHECK (b >=? 0);;;
    CHECK (b <=? dims s);;;
    CHECK (e >=? 0);;;
    CHECK (e <=? dims s);;;
    if b >=? e then ret tt
    else
      vals <~ lift (AppendTo s []);;
      modify ClearAllButDataType;;;
      for_each AddDim (vec_erase b e vals);;;
      st <~ RecomputeNumElements;;
      CHECK (ok st).

Definition RemoveDimRangeWithStatus (begin_ end_ : Z) : M TensorShapeRep Status :=
  s <~ get;;
  if unknown_rank s then ret StatusOK
  else
    let b := range_bound s begin_ in
    let e := range_bound s end_ in
    if b <? 0 then ret (StatusError INTERNAL)
    else if b >? dims s then ret (StatusError INTERNAL)
    else if e <? 0 then ret (StatusError INTERNAL)
    else if e >? dims s then ret (StatusError INTERNAL)
    else if b >=? e then ret StatusOK
    else
      vals <~ lift (AppendTo s []);;
      modify ClearAllButDataType;;;
      st <~ for_each_status AddDimWithStatus (vec_erase b e vals);;
      if ok st then RecomputeNumElements else ret st.

Definition RemoveDim (d : Z) : M TensorShapeRep unit :=
  CHECK (d >=? 0);;; RemoveDimRange d (d + 1).

(** The [int64] arguments are converted to the [int] bounds of the range. *)
Definition RemoveDimWithStatus (d : Z) : M TensorShapeRep Status :=
  if d <? 0 then ret (StatusError INTERNAL)
  else RemoveDimRangeWithStatus (i32 d) (i32 (i64 (d + 1))).

Definition RemoveLastDims (n : Z) : M TensorShapeRep unit :=
  s <~ get;; CHECK (n <=? dims s);;; RemoveDimRange (dims s - n) (dims s).

(** The guard is the source's: it refuses [n < dims()]. *)
Definition RemoveLastDimsWithStatus (n : Z) : M TensorShapeRep Status :=
  s <~ get;;
  if n <? dims s then ret (StatusError INTERNAL)
  else RemoveDimRangeWithStatus (i32 (i64 (dims s - n))) (dims s).

(** ** Construction *)
Definition Set16 (d val : Z) : M TensorShapeRep bool :=
  if kIsPartial && (val <? 0) then put_dim16 d 65535;;; ret true
  else put_dim16 d (uwrap 16 val);;; ret false.

Definition kMaxSmall : Z := 0xd744.

Definition InitDims_slow (dim_sizes : list Z) : M TensorShapeRep Status :=
  modify (set_ndims_byte 0);;;
  modify (set_num_elements 1);;;
  for_each_status AddDimWithStatus dim_sizes.

Definition InitDims (dim_sizes : list Z) : M TensorShapeRep Status :=
  let large_size := existsb (fun s => s >? kMaxSmall) dim_sizes in
  if negb kIsPartial && negb large_size && existsb (fun s => s <? 0) dim_sizes then
    ret (StatusError INTERNAL)
  else if large_size then InitDims_slow dim_sizes
  else
    match dim_sizes with
    | [size] =>
        modify (set_ndims_byte 1);;;
        neg <~ Set16 0 size;;
        modify (set_num_elements (if (neg : bool) then -1 else size));;;
        ret StatusOK
    | [size0; size1] =>
        modify (set_ndims_byte 2);;;
        neg0 <~ Set16 0 size0;;
        neg1 <~ Set16 1 size1;;
        modify (set_num_elements (if neg0 || neg1 then -1 else i64 (size0 * size1)));;;
        ret StatusOK
    | [size0; size1; size2] =>
        modify (set_ndims_byte 3);;;
        neg0 <~ Set16 0 size0;;
        neg1 <~ Set16 1 size1;;
        neg2 <~ Set16 2 size2;;
        modify (set_num_elements
                  (if neg0 || neg1 || neg2 then -1 else i64 (size0 * size1 * size2)));;;
        ret StatusOK
    | [size0; size1; size2; size3] =>
        modify (set_ndims_byte 4);;;
        neg0 <~ Set16 0 size0;;
        neg1 <~ Set16 1 size1;;
        neg2 <~ Set16 2 size2;;
        neg3 <~ Set16 3 size3;;
        modify (set_num_elements
                  (if neg0 || neg1 || neg2 || neg3 then -1
                   else i64 (size0 * size1 * size2 * size3)));;;
        ret StatusOK
    | _ => InitDims_slow dim_sizes
    end.

(** The constructors start from uninitialised storage, the state they run in. *)
Definition TensorShapeBase_default : M TensorShapeRep unit :=
  modify (set_tag REP16);;;
  modify (set_data_type 0);;;
  if kIsPartial then modify (set_ndims_byte kUnknownRank);;; modify (set_num_elements (-1))
  else modify (set_ndims_byte 0);;; modify (set_num_elements 1).

Definition TensorShapeBase_datatype (dt : Z) : M TensorShapeRep unit :=
  modify (set_tag REP16);;;
  modify (set_data_type dt);;;
  modify (set_ndims_byte 1);;;
  put_dim16 0 0;;;
  modify (set_num_elements 0).

Definition BuildTensorShapeBase (dim_sizes : list Z) : M TensorShapeRep Status :=
  modify (set_tag REP16);;;
  modify (set_data_type 0);;;
  InitDims dim_sizes.

Definition TensorShapeBase_sizes (dim_sizes : list Z) : M TensorShapeRep unit :=
  modify (set_tag REP16);;;
  modify (set_data_type 0);;;
  st <~ InitDims dim_sizes;;
  CHECK (ok st).

Definition TensorShapeBase_proto (proto : TensorShapeProto) : M TensorShapeRep unit :=
  modify (set_tag REP16);;;
  modify (set_data_type 0);;;
  if kIsPartial && proto_unknown_rank proto then
    modify (set_ndims_byte kUnknownRank);;; modify (set_num_elements (-1))
  else
    modify (set_ndims_byte 0);;;
    modify (set_num_elements 1);;;
    for_each AddDim (proto_dim proto).

Definition BuildTensorShapeBase_proto (proto : TensorShapeProto) : M TensorShapeRep Status :=
  modify (set_tag REP16);;;
  modify (set_data_type 0);;;
  if kIsPartial && proto_unknown_rank proto then
    modify (set_ndims_byte kUnknownRank);;; modify (set_num_elements (-1));;; ret StatusOK
  else
    modify (set_ndims_byte 0);;;
    modify (set_num_elements 1);;;
    for_each_status AddDimWithStatus (proto_dim proto).

(** ** Validity and conversion to the protocol buffer *)
Fixpoint IsValid_loop (num_elements : Z) (l : list Z) : bool :=
  match l with
  | [] => true
  | d :: l =>
      if d <? (if kIsPartial then -1 else 0) then false
      else if d =? -1 then IsValid_loop (-1) l
      else if negb kIsPartial || (num_elements >=? 0) then
        let n := MultiplyWithoutOverflow num_elements d in
        if n <? 0 then false else IsValid_loop n l
      else IsValid_loop num_elements l
  end.

Definition IsValid_proto (proto : TensorShapeProto) : bool :=
  if kIsPartial && proto_unknown_rank proto then Z.of_nat (length (proto_dim proto)) =? 0
  else if Z.of_nat (length (proto_dim proto)) >? MaxDimensions then false
  else IsValid_loop 1 (proto_dim proto).

(** [IsValid()] on a shape; an unknown rank has [dims() = -1]. *)
Definition IsValid (s : TensorShapeRep) : outcome bool :=
  if kIsPartial && unknown_rank s then Done (dims s =? 0)
  else if dims s >? MaxDimensions then Done false
  else
    match dim_sizes s with
    | Done l => Done (IsValid_loop 1 l)
    | Crash => Crash
    | OutOfFuel => OutOfFuel
    end.

Fixpoint IsValidShape_loop (num_elements : Z) (l : list Z) : Status :=
  match l with
  | [] => StatusOK
  | d :: l =>
      if d <? (if kIsPartial then -1 else 0) then StatusError INVALID_ARGUMENT
      else if d =? -1 then IsValidShape_loop (-1) l
      else if negb kIsPartial || (num_elements >=? 0) then
        let n := MultiplyWithoutOverflow num_elements d in
        if n <? 0 then StatusError INVALID_ARGUMENT else IsValidShape_loop n l
      else IsValidShape_loop num_elements l
  end.

Definition IsValidShape (proto : TensorShapeProto) : Status :=
  if kIsPartial && proto_unknown_rank proto then
    if Z.of_nat (length (proto_dim proto)) >? 0 then StatusError INVALID_ARGUMENT else StatusOK
  else if Z.of_nat (length (proto_dim proto)) >? MaxDimensions then StatusError INVALID_ARGUMENT
  else IsValidShape_loop 1 (proto_dim proto).

Fixpoint sizes_from (n : nat) (s : TensorShapeRep) (i : Z) : outcome (list Z) :=
  match n with
  | O => Done []
  | S n =>
      match dim_size s i, sizes_from n s (i + 1) with
      | Done x, Done l => Done (x :: l)
      | OutOfFuel, _ | _, OutOfFuel => OutOfFuel
      | _, _ => Crash
      end
  end.

Definition AsProto (s : TensorShapeRep) : outcome TensorShapeProto :=
  if unknown_rank s then Done (mkProto true [])
  else
    match sizes_from (Z.to_nat (dims s)) s 0 with
    | Done l => Done (mkProto false l)
    | Crash => Crash
    | OutOfFuel => OutOfFuel
    end.

Definition IsFullyDefined (s : TensorShapeRep) : bool := negb kIsPartial || negb (num_elements s =? -1).

(** [MakeShapeHelper], [n] being the length of [dims]. *)
Fixpoint MakeShape_loop (l : list Z) : M TensorShapeRep Status :=
  match l with
  | [] => ret StatusOK
  | dim :: l =>
      s <~ get;;
      if dim <? 0 then
        if negb kIsPartial then ret (StatusError INVALID_ARGUMENT)
        else if dim <? -1 then ret (StatusError INVALID_ARGUMENT)
        else UnsafeAddDim (-1) (-1);;; MakeShape_loop l
      else if num_elements s <? 0 then UnsafeAddDim dim (-1);;; MakeShape_loop l
      else
        let new_num_elements := MultiplyWithoutOverflow (num_elements s) dim in
        if new_num_elements <? 0 then ret (StatusError INVALID_ARGUMENT)
        else UnsafeAddDim dim new_num_elements;;; MakeShape_loop l
  end.

Definition MakeShapeHelper (l : list Z) : M TensorShapeRep Status :=
  modify Clear;;;
  if Z.of_nat (length l) >? MaxDimensions then ret (StatusError INVALID_ARGUMENT)
  else MakeShape_loop l.

(** The element-wise loops that compare two shapes; [from] is the first index. *)
Fixpoint compare_sizes (f : Z -> Z -> bool) (n : nat) (a b : TensorShapeRep) (ia ib : Z) :
    outcome bool :=
  match n with
  | O => Done true
  | S n =>
      match dim_size a ia, dim_size b ib with
      | Done x, Done y => if f x y then compare_sizes f n a b (ia + 1) (ib + 1) else Done false
      | OutOfFuel, _ | _, OutOfFuel => OutOfFuel
      | _, _ => Crash
      end
  end.
End TensorShapeBase.

(** ** [TensorShape] *)
Definition IsSameSize (a b : TensorShapeRep) : outcome bool :=
  if negb (dims false b =? dims false a) then Done false
  else compare_sizes false Z.eqb (Z.to_nat (dims false a)) a b 0 0.

Definition StartsWith (shape prefix : TensorShapeRep) : outcome bool :=
  if dims false shape <? dims false prefix then Done false
  else compare_sizes false Z.eqb (Z.to_nat (dims false prefix)) shape prefix 0 0.

Definition EndsWith (shape suffix : TensorShapeRep) : outcome bool :=
  let suffix_size := dims false suffix in
  if dims false shape <? suffix_size then Done false
  else compare_sizes false Z.eqb (Z.to_nat suffix_size) shape suffix
         (dims false shape - suffix_size) 0.

Fixpoint NumElements_loop (n : Z) (shape : list Z) : option Z :=
  match shape with
  | [] => Some n
  | dim :: shape =>
      let n := MultiplyWithoutOverflow n dim in
      if n <? 0 then None else NumElements_loop n shape
  end.

Definition NumElements (shape : list Z) : Status * option Z :=
  match NumElements_loop 1 shape with
  | None => (StatusError INVALID_ARGUMENT, None)
  | Some n => (StatusOK, Some n)
  end.

(** ** [PartialTensorShape] *)
Definition dims_compatible (dim0 dim1 : Z) : bool :=
  negb ((dim0 >=? 0) && (dim1 >=? 0) && negb (dim0 =? dim1)).

Definition IsIdenticalTo (a b : TensorShapeRep) : outcome bool :=
  if unknown_rank true a || unknown_rank true b then
    Done (eqb (unknown_rank true a) (unknown_rank true b))
  else if negb (dims true a =? dims true b) then Done false
  else compare_sizes true Z.eqb (Z.to_nat (dims true a)) a b 0 0.

Definition IsCompatibleWith (a b : TensorShapeRep) : outcome bool :=
  if unknown_rank true a || unknown_rank true b then Done true
  else if negb (dims true a =? dims true b) then Done false
  else compare_sizes true dims_compatible (Z.to_nat (dims true a)) a b 0 0.

(** The loop of [MergeWith]; the state is [*result], which is not [shape].
    [result_is_this] is the pointer comparison [result == this]. *)
Fixpoint MergeWith_loop (n : nat) (a b : TensorShapeRep) (i : Z) : M TensorShapeRep Status :=
  match n with
  | O => ret StatusOK
  | S n =>
      dim0 <~ lift (dim_size true a i);;
      dim1 <~ lift (dim_size true b i);;
      if (dim0 >=? 0) && (dim1 >=? 0) && negb (dim0 =? dim1) then
        ret (StatusError INVALID_ARGUMENT)
      else
        st <~ AddDimWithStatus true (if dim0 >=? 0 then dim0 else dim1);;
        if ok st then MergeWith_loop n a b (i + 1) else ret st
  end.

Definition MergeWith (result_is_this : bool) (a b : TensorShapeRep) : M TensorShapeRep Status :=
  if unknown_rank true a then modify (fun r => assign r b);;; ret StatusOK
  else if unknown_rank true b then modify (fun r => assign r a);;; ret StatusOK
  else if negb (dims true a =? dims true b) then ret (StatusError INVALID_ARGUMENT)
  else if result_is_this then ret (StatusError INTERNAL)
  else modify Clear;;; MergeWith_loop (Z.to_nat (dims true a)) a b 0.

(** [Concatenate]; the copy of [*this] is made in the storage [raw]. *)
Definition Concatenate (a : TensorShapeRep) (size : Z) : M TensorShapeRep unit :=
  modify (fun raw => copy_construct raw a);;; AddDim true size.

Definition Concatenate_shape (a b : TensorShapeRep) : M TensorShapeRep unit :=
  if unknown_rank true a || unknown_rank true b then TensorShapeBase_default true
  else modify (fun raw => copy_construct raw a);;; AppendShape true b.

(** [AsTensorShape]: the target is assigned only when fully defined. *)
Definition AsTensorShape (a shape : TensorShapeRep) : bool * TensorShapeRep :=
  if IsFullyDefined true a then (true, assign shape a) else (false, shape).

(** [ConcatenateWithStatus(size, out)] on the pair of [*this] and [*out]: the
    source points its local [out] at [*this] and adds the size there. *)
Definition ConcatenateWithStatus (size : Z) : M (TensorShapeRep * TensorShapeRep) Status :=
  fun '(this, out) =>
    match AddDimWithStatus true size this with
    | Done (st, this') => Done (st, (this', out))
    | Crash => Crash
    | OutOfFuel => OutOfFuel
    end.
