(* ===== verification/TensorShapeProofs.v ===== *)
(** * Tensor shapes implement lists of sizes

    The invariant [repr] relates the sixteen-byte representation of
    [TensorShape] to the list of sizes it stands for; the lemmas show that the
    operations keep it. *)
From S2P Require Import Prelude TensorShape.
From stdpp Require Import options.
#[local] Open Scope tf_monad_scope.

(** ** Loads and stores *)
Lemma length_le_bytes n v : length (le_bytes n v) = n.
Proof. revert v. induction n; simpl; auto. Qed.

Lemma le_value_le_bytes n : forall v, 0 <= v < 256 ^ Z.of_nat n -> le_value (le_bytes n v) = v.
Proof.
  induction n as [|n IH]; intros v Hv; simpl; [change (256 ^ Z.of_nat 0) with 1 in Hv; lia|].
  rewrite Nat2Z.inj_succ, Z.pow_succ_r in Hv by lia.
  rewrite IH; [pose proof (Z.div_mod v 256); lia|].
  split; [apply Z.div_pos; lia|apply Z.div_lt_upper_bound; lia].
Qed.

Lemma length_store n off v b : (off + n <= length b)%nat -> length (store n off v b) = length b.
Proof.
  intros. unfold store. rewrite !length_app, length_take, length_le_bytes, length_drop. lia.
Qed.

Lemma load_store_eq n off v b :
  (off + n <= length b)%nat -> 0 <= v < 256 ^ Z.of_nat n -> load n off (store n off v b) = v.
Proof.
  intros. unfold load, store.
  rewrite drop_app_ge by (rewrite length_take; lia). rewrite length_take.
  replace (off - off `min` length b)%nat with 0%nat by lia. rewrite drop_0.
  rewrite take_app_le by (rewrite length_le_bytes; lia).
  rewrite take_ge by (rewrite length_le_bytes; lia). by apply le_value_le_bytes.
Qed.

Lemma load_store_ne n off v n' off' b :
  (off + n <= length b)%nat -> (off' + n' <= off \/ off + n <= off')%nat ->
  load n' off' (store n off v b) = load n' off' b.
Proof.
  intros Hb [Hlo|Hhi]; unfold load, store; f_equal.
  - rewrite drop_app_le by (rewrite length_take; lia).
    rewrite take_app_le by (rewrite length_drop, length_take; lia).
    rewrite skipn_firstn_comm, take_take. f_equal. lia.
  - rewrite !drop_app_ge by (rewrite ?length_take, ?length_le_bytes; lia).
    rewrite length_take, length_le_bytes, drop_drop. f_equal. f_equal. lia.
Qed.

(** ** Multiplication *)
Lemma MultiplyWithoutOverflow_ok x y :
  0 <= x -> 0 <= y -> x * y < 2 ^ 63 -> MultiplyWithoutOverflow x y = x * y.
Proof.
  intros Hx Hy Hxy. unfold MultiplyWithoutOverflow. cbv zeta.
  rewrite !(proj2 (Z.ltb_ge _ _)) by lia.
  destruct (Z.eqb_spec x 0) as [->|Hx0]; [lia|].
  destruct (decide (y = 0)) as [->|Hy0].
  { rewrite !Z.mul_0_r. change (u64 0) with 0. rewrite Zdiv_0_l. by rewrite andb_false_r. }
  assert (x < 2 ^ 63 /\ y < 2 ^ 63) as [Hx63 Hy63] by nia.
  rewrite (u64_small x), (u64_small y) by (unfold in_u64; lia).
  rewrite u64_small by (unfold in_u64; nia).
  rewrite Z.mul_comm, Z.div_mul by lia. rewrite Z.eqb_refl, andb_false_r.
  rewrite i64_small; [done|]. unfold in_i64. nia.
Qed.

Lemma MultiplyWithoutOverflow_overflow x y :
  0 <= x < 2 ^ 63 -> 0 <= y < 2 ^ 63 -> 2 ^ 63 <= x * y -> MultiplyWithoutOverflow x y < 0.
Proof.
  intros Hx Hy Hxy. unfold MultiplyWithoutOverflow. cbv zeta.
  rewrite !(proj2 (Z.ltb_ge _ _)) by lia.
  destruct (Z.eqb_spec x 0) as [->|Hx0]; [lia|].
  rewrite (u64_small x), (u64_small y) by (unfold in_u64; lia).
  destruct (decide (x * y < 2 ^ 64)) as [Hs|Hb].
  - rewrite u64_small by (unfold in_u64; lia).
    destruct (_ && _); [lia|]. unfold i64. rewrite (Zmod_eq_full _ _) by lia.
    replace ((x * y + 2 ^ 63) / 2 ^ 64) with 1; [lia|].
    apply (Z.div_unique_pos _ _ _ (x * y + 2 ^ 63 - 2 ^ 64)); lia.
  - assert (Hshift : Z.shiftr (Z.lor x y) 32 <> 0).
    { rewrite Z.shiftr_lor. intros H0. apply Z.lor_eq_0_iff in H0 as [H1 H2].
      rewrite Z.shiftr_div_pow2 in H1, H2 by lia.
      apply Z.div_small_iff in H1; [|lia]. apply Z.div_small_iff in H2; [|lia]. nia. }
    rewrite (proj2 (Z.eqb_neq _ _) Hshift). simpl.
    destruct (Z.eqb_spec (u64 (x * y) / x) y) as [E|]; simpl; [|lia].
    pose proof (Z.mul_div_le (u64 (x * y)) x ltac:(lia)) as Hd. rewrite E in Hd.
    pose proof (u64_range (x * y)) as [_ ?]. unfold in_u64 in *. lia.
Qed.

(** ** The abstract shape *)
Definition good_size (partial : bool) (x : Z) : Prop := (if partial then -1 else 0) <= x < 2 ^ 63.

(** The number of elements: -1 when a partial shape has an unknown size. *)
Definition elements (partial : bool) (l : list Z) : Z :=
  if partial && existsb (fun x => x <? 0) l then -1 else foldr Z.mul 1 l.

(** The lists a shape can hold: no prefix has 2^63 elements or more. *)
Record valid_sizes (partial : bool) (l : list Z) : Prop := {
  vs_rank : Z.of_nat (length l) <= MaxDimensions;
  vs_sizes : Forall (good_size partial) l;
  vs_fits : forall k, elements partial (take k l) < 2 ^ 63
}.

(** A size as stored in a [w]-bit field. *)
Definition enc (w x : Z) : Z := if x <? 0 then 2 ^ w - 1 else x.

(** [l] in an array of [cap] integers of [n] bytes each, under tag [t], with
    every size below [max]. *)
Definition packed (n cap : nat) (t max : Z) (s : TensorShapeRep) (l : list Z) : Prop :=
  tag s = t /\ (length l <= cap)%nat /\
  forall i x, l !! i = Some x ->
    x < max /\ load n (n * i) (buf s) = enc (8 * Z.of_nat n) x.

Definition stored16 : TensorShapeRep -> list Z -> Prop := packed 2 6 REP16 kMaxRep16.

Definition stored32 : TensorShapeRep -> list Z -> Prop := packed 4 3 REP32 kMaxRep32.

Definition stored64 (s : TensorShapeRep) (l : list Z) : Prop :=
  tag s = REP_OUT_OF_LINE /\ out_of_line s = l.

Definition stored (s : TensorShapeRep) (l : list Z) : Prop :=
  stored16 s l \/ stored32 s l \/ stored64 s l.

(** The bytes hold [l]; nothing is said of the number of elements. *)
Record core (partial : bool) (s : TensorShapeRep) (l : list Z) : Prop := {
  c_buf : length (buf s) = 16%nat;
  c_len : Z.of_nat (length l) <= MaxDimensions;
  c_sizes : Forall (good_size partial) l;
  c_rank : ndims_byte s = Z.of_nat (length l);
  c_stored : stored s l
}.

Record repr (partial : bool) (s : TensorShapeRep) (l : list Z) : Prop := {
  r_core : core partial s l;
  r_valid : valid_sizes partial l;
  r_num : num_elements s = elements partial l
}.

(** A partial shape of unknown rank. *)
Record repr_unknown (s : TensorShapeRep) : Prop := {
  ru_buf : length (buf s) = 16%nat;
  ru_rank : ndims_byte s = kUnknownRank;
  ru_num : num_elements s = -1
}.

Definition represents (partial : bool) (s : TensorShapeRep) (o : option (list Z)) : Prop :=
  match o with
  | Some l => repr partial s l
  | None => partial = true /\ repr_unknown s
  end.

(** ** Number of elements *)
Lemma elements_nonneg_prod l : Forall (fun x => 0 <= x) l -> 0 <= foldr Z.mul 1 l.
Proof. induction 1; simpl; lia. Qed.

Lemma foldr_mul_snoc l x : foldr Z.mul 1 (l ++ [x]) = foldr Z.mul 1 l * x.
Proof. induction l as [|y l IH]; simpl; [lia|]. rewrite IH. lia. Qed.

Lemma existsb_neg_false l : existsb (fun x => x <? 0) l = false -> Forall (fun x => 0 <= x) l.
Proof.
  induction l as [|x l IH]; simpl; intros H; [constructor|].
  apply orb_false_iff in H as [? ?]. bool_to_prop. constructor; auto.
Qed.

Lemma good_nonneg l : Forall (good_size false) l -> existsb (fun x => x <? 0) l = false.
Proof.
  induction 1 as [|x l Hx _ IH]; [done|]. simpl. rewrite IH. unfold good_size in Hx.
  rewrite orb_false_r. apply Z.ltb_ge. lia.
Qed.

Lemma elements_snoc partial l x :
  Forall (good_size partial) l ->
  elements partial (l ++ [x]) =
    if partial && ((elements partial l <? 0) || (x <? 0)) then -1 else elements partial l * x.
Proof.
  intros Hl. unfold elements. rewrite existsb_app. simpl. rewrite orb_false_r.
  destruct partial; simpl.
  - destruct (existsb _ l) eqn:E; simpl; [done|].
    pose proof (elements_nonneg_prod l (existsb_neg_false l E)).
    rewrite (proj2 (Z.ltb_ge (foldr Z.mul 1 l) 0)) by done. simpl.
    by rewrite foldr_mul_snoc.
  - apply foldr_mul_snoc.
Qed.

Lemma elements_range partial l :
  valid_sizes partial l -> (if partial then -1 else 0) <= elements partial l < 2 ^ 63.
Proof.
  intros [_ Hs Hf]. split; [|rewrite <-(take_ge l (length l)) by lia; apply Hf].
  unfold elements. destruct partial; simpl.
  - destruct (existsb _ l) eqn:E; [lia|].
    pose proof (elements_nonneg_prod l (existsb_neg_false l E)). lia.
  - apply elements_nonneg_prod, existsb_neg_false, good_nonneg. done.
Qed.

Lemma elements_prefix_range partial l k :
  valid_sizes partial l -> valid_sizes partial (take k l).
Proof.
  intros [Hr Hs Hf]. split.
  - rewrite length_take. lia.
  - by apply Forall_take.
  - intros k'. rewrite take_take. apply Hf.
Qed.

Lemma valid_nil partial : valid_sizes partial [].
Proof.
  split; [done|constructor|]. intros k. rewrite take_nil. unfold elements. simpl.
  rewrite andb_false_r. done.
Qed.

Lemma valid_snoc partial l x :
  valid_sizes partial (l ++ [x]) <->
  valid_sizes partial l /\ Z.of_nat (length l) < MaxDimensions /\ good_size partial x /\
  elements partial (l ++ [x]) < 2 ^ 63.
Proof.
  split.
  - intros Hv. split_and!.
    + rewrite <-(take_app_length l [x]). by apply elements_prefix_range.
    + pose proof (vs_rank _ _ Hv) as Hr. rewrite length_app in Hr. simpl in Hr. lia.
    + pose proof (vs_sizes _ _ Hv) as Hr. apply Forall_app in Hr as [_ Hr].
      by apply Forall_cons in Hr as [? _].
    + pose proof (elements_range _ _ Hv). lia.
  - intros ([Hr Hs Hf] & Hlen & Hx & He). split.
    + rewrite length_app. simpl. lia.
    + apply Forall_app. split; [done|]. by apply Forall_singleton.
    + intros k. destruct (decide (k <= length l)%nat).
      * rewrite take_app_le by done. apply Hf.
      * rewrite take_ge by (rewrite length_app; simpl; lia). done.
Qed.

(** ** Field accessors *)
Ltac sz := rewrite ?length_store; simpl in *; lia.

Section fields.
Context (s : TensorShapeRep) (Hb : length (buf s) = 16%nat).

Lemma set_ndims_length nd : length (buf (set_ndims_byte nd s)) = 16%nat.
Proof using Hb. simpl. sz. Qed.

Lemma set_tag_length t : length (buf (set_tag t s)) = 16%nat.
Proof using Hb. simpl. sz. Qed.

Lemma set_data_type_length t : length (buf (set_data_type t s)) = 16%nat.
Proof using Hb. simpl. sz. Qed.

Lemma ndims_set_ndims nd : 0 <= nd < 256 -> ndims_byte (set_ndims_byte nd s) = nd.
Proof using Hb.
  intros. unfold ndims_byte. simpl. unfold u8. rewrite uwrap_small by lia.
  apply load_store_eq; [lia|]. change (256 ^ Z.of_nat 1) with 256. lia.
Qed.

Lemma tag_set_tag t : 0 <= t < 256 -> tag (set_tag t s) = t.
Proof using Hb.
  intros. unfold tag. simpl. unfold u8. rewrite uwrap_small by lia.
  apply load_store_eq; [lia|]. change (256 ^ Z.of_nat 1) with 256. lia.
Qed.

Lemma data_type_set_data_type t : 0 <= t < 256 -> data_type (set_data_type t s) = t.
Proof using Hb.
  intros. unfold data_type. simpl. unfold u8. rewrite uwrap_small by lia.
  apply load_store_eq; [lia|]. change (256 ^ Z.of_nat 1) with 256. lia.
Qed.

Lemma tag_set_ndims nd : tag (set_ndims_byte nd s) = tag s.
Proof using Hb. apply load_store_ne; lia. Qed.

Lemma data_type_set_ndims nd : data_type (set_ndims_byte nd s) = data_type s.
Proof using Hb. apply load_store_ne; lia. Qed.

Lemma ndims_set_tag t : ndims_byte (set_tag t s) = ndims_byte s.
Proof using Hb. apply load_store_ne; lia. Qed.

Lemma data_type_set_tag t : data_type (set_tag t s) = data_type s.
Proof using Hb. apply load_store_ne; lia. Qed.

Lemma ndims_set_data_type t : ndims_byte (set_data_type t s) = ndims_byte s.
Proof using Hb. apply load_store_ne; lia. Qed.

Lemma tag_set_data_type t : tag (set_data_type t s) = tag s.
Proof using Hb. apply load_store_ne; lia. Qed.

(** Setting one of the three bytes leaves the size bytes alone. *)
Lemma load_low_set n off nd : (off + n <= 13)%nat ->
  load n off (buf (set_ndims_byte nd s)) = load n off (buf s) /\
  load n off (buf (set_tag nd s)) = load n off (buf s) /\
  load n off (buf (set_data_type nd s)) = load n off (buf s).
Proof using Hb. intros. split_and!; apply load_store_ne; lia. Qed.
End fields.

(** ** Reading a shape *)
Lemma core_known partial s l : core partial s l -> unknown_rank partial s = false.
Proof.
  intros [_ Hl _ Hr _]. unfold unknown_rank. rewrite Hr.
  apply andb_false_iff. right. apply Z.eqb_neq. unfold kUnknownRank, MaxDimensions in *. lia.
Qed.

Lemma core_dims partial s l : core partial s l -> dims partial s = Z.of_nat (length l).
Proof.
  intros Hc. pose proof (core_known _ _ _ Hc) as Hk. unfold unknown_rank in Hk.
  unfold dims. cbv zeta. rewrite Hk. apply Hc.
Qed.

Lemma dec_enc partial w x :
  0 < w -> good_size partial x -> x < 2 ^ w - 2 ->
  (if partial && (enc w x =? 2 ^ w - 1) then -1 else enc w x) = x.
Proof.
  intros Hw Hg Hx. unfold enc, good_size in *. destruct (Z.ltb_spec x 0).
  - destruct partial; [|lia]. rewrite Z.eqb_refl. simpl. lia.
  - rewrite (proj2 (Z.eqb_neq x _)) by lia. by rewrite andb_false_r.
Qed.

Lemma dim_size_core partial s l (i : nat) x :
  core partial s l -> l !! i = Some x -> dim_size partial s (Z.of_nat i) = Done x.
Proof.
  intros Hc Hx. unfold dim_size. rewrite (core_known _ _ _ Hc).
  assert (Hg : good_size partial x) by exact (Forall_lookup_1 _ _ _ _ (c_sizes _ _ _ Hc) Hx).
  pose proof (lookup_lt_Some _ _ _ Hx) as Hlt.
  destruct (c_stored _ _ _ Hc) as [(Ht & Hl & Hs)|[(Ht & Hl & Hs)|(Ht & Hs)]]; rewrite Ht; simpl.
  - unfold get_dim16. rewrite (proj2 (Z.leb_le _ _)), (proj2 (Z.ltb_lt _ _)) by lia.
    cbn [andb]. rewrite Nat2Z.id. destruct (Hs _ _ Hx) as [Hm ->].
    f_equal. apply (dec_enc partial 16); [lia|done|]. unfold kMaxRep16 in Hm. lia.
  - unfold get_dim32. rewrite (proj2 (Z.leb_le _ _)), (proj2 (Z.ltb_lt _ _)) by lia.
    cbn [andb]. rewrite Nat2Z.id. destruct (Hs _ _ Hx) as [Hm ->].
    f_equal. apply (dec_enc partial 32); [lia|done|]. unfold kMaxRep32 in Hm. lia.
  - unfold get_dim64. rewrite (proj2 (Z.leb_le _ _)) by lia. rewrite Nat2Z.id, Hs, Hx. done.
Qed.

Lemma iter_sizes_core partial s l fuel : forall (i : nat) acc,
  core partial s l -> (i <= length l)%nat -> (length l - i < fuel)%nat ->
  iter_sizes partial fuel s (Z.of_nat i) (Z.of_nat (length l)) acc = Done (acc ++ drop i l).
Proof.
  induction fuel as [|fuel IH]; intros i acc Hc Hi Hf; [lia|]. cbn [iter_sizes].
  destruct (Z.eqb_spec (Z.of_nat i) (Z.of_nat (length l))).
  - rewrite drop_ge by lia. by rewrite app_nil_r.
  - destruct (lookup_lt_is_Some_2 l i ltac:(lia)) as [x Hx].
    rewrite (dim_size_core _ _ _ _ _ Hc Hx).
    pose proof (c_len _ _ _ Hc) as Hl. unfold MaxDimensions in Hl.
    rewrite (proj2 (Z.eqb_neq _ _)) by lia.
    replace (Z.of_nat i + 1) with (Z.of_nat (S i)) by lia. rewrite IH by (done || lia).
    rewrite (drop_S l x i Hx). by rewrite <-app_assoc.
Qed.

Lemma iter_end_core partial s l : core partial s l -> iter_end partial s = Z.of_nat (length l).
Proof. intros Hc. unfold iter_end. rewrite (core_known _ _ _ Hc). by apply core_dims. Qed.

Lemma core_fuel partial s l : core partial s l -> (length l - 0 < iter_fuel)%nat.
Proof.
  intros Hc. pose proof (c_len _ _ _ Hc). unfold MaxDimensions, iter_fuel in *. lia.
Qed.

Lemma AppendTo_core partial s l : core partial s l -> AppendTo partial s [] = Done l.
Proof.
  intros Hc. unfold AppendTo. rewrite (iter_end_core _ _ _ Hc).
  apply (iter_sizes_core partial s l iter_fuel 0 []); [done|lia|by eapply core_fuel].
Qed.

Lemma dim_sizes_core partial s l : core partial s l -> dim_sizes partial s = Done l.
Proof. apply AppendTo_core. Qed.

Lemma sizes_from_core partial s l n : forall i,
  core partial s l -> (i + n <= length l)%nat ->
  sizes_from partial n s (Z.of_nat i) = Done (take n (drop i l)).
Proof.
  induction n as [|n IH]; intros i Hc Hi; simpl; [by rewrite take_0|].
  destruct (lookup_lt_is_Some_2 l i ltac:(lia)) as [x Hx].
  rewrite (dim_size_core _ _ _ _ _ Hc Hx).
  replace (Z.of_nat i + 1) with (Z.of_nat (S i)) by lia. rewrite IH by (done || lia).
  by rewrite (drop_S l x i Hx).
Qed.

(** Comparing two shapes compares their lists. *)
Lemma compare_sizes_core partial f a b la lb n : forall ia ib,
  core partial a la -> core partial b lb ->
  (ia + n <= length la)%nat -> (ib + n <= length lb)%nat ->
  compare_sizes partial f n a b (Z.of_nat ia) (Z.of_nat ib)
  = Done (forallb (fun p => f p.1 p.2) (zip (take n (drop ia la)) (take n (drop ib lb)))).
Proof.
  induction n as [|n IH]; intros ia ib Ha Hb Hia Hib; simpl; [done|].
  destruct (lookup_lt_is_Some_2 la ia ltac:(lia)) as [x Hx].
  destruct (lookup_lt_is_Some_2 lb ib ltac:(lia)) as [y Hy].
  rewrite (dim_size_core _ _ _ _ _ Ha Hx), (dim_size_core _ _ _ _ _ Hb Hy).
  rewrite (drop_S la x ia Hx), (drop_S lb y ib Hy). simpl.
  destruct (f x y); [|done]. simpl.
  replace (Z.of_nat ia + 1) with (Z.of_nat (S ia)) by lia.
  replace (Z.of_nat ib + 1) with (Z.of_nat (S ib)) by lia.
  by rewrite IH by (done || lia).
Qed.

(** ** Writing sizes *)
Lemma packed_low n cap t max s s' l :
  (n * cap <= 13)%nat ->
  (forall off, (off + n <= 13)%nat -> load n off (buf s') = load n off (buf s)) ->
  tag s' = tag s -> packed n cap t max s l -> packed n cap t max s' l.
Proof.
  intros Hn Hlow Ht (H1 & H2 & H3). split_and!; [congruence|done|]. intros i x Hx.
  rewrite Hlow; [by apply H3|]. pose proof (lookup_lt_Some _ _ _ Hx). nia.
Qed.

Lemma stored_ndims s l nd n :
  length (buf s) = 16%nat -> stored s l -> stored (set_num_elements n (set_ndims_byte nd s)) l.
Proof.
  intros Hb [H|[H|[H1 H2]]].
  - left. eapply packed_low; [lia| | |exact H].
    + intros off Ho. simpl. by apply load_low_set.
    + by apply tag_set_ndims.
  - right; left. eapply packed_low; [lia| | |exact H].
    + intros off Ho. simpl. by apply load_low_set.
    + by apply tag_set_ndims.
  - right; right. split; [|done]. etransitivity; [by apply tag_set_ndims|done].
Qed.

Lemma uwrap_enc partial w x :
  0 <= w -> good_size partial x -> x < 2 ^ w ->
  uwrap w (if partial && (x <? 0) then 2 ^ w - 1 else uwrap w x) = enc w x.
Proof.
  intros Hw Hg Hx. unfold enc, good_size in *. assert (0 < 2 ^ w) by lia.
  destruct (Z.ltb_spec x 0).
  - destruct partial; [|lia]. simpl. apply uwrap_small. lia.
  - rewrite andb_false_r. rewrite !(uwrap_small w x); lia.
Qed.

Lemma enc_range partial w x : 1 < w -> good_size partial x -> x < 2 ^ w - 2 -> 0 <= enc w x < 2 ^ w.
Proof. intros. unfold enc. destruct (Z.ltb_spec x 0); lia. Qed.

(** The list with position [i] overwritten, or extended when [i] is its length. *)
Definition put_at (i : nat) (x : Z) (l : list Z) : list Z := take i l ++ x :: drop (S i) l.

Lemma put_at_end l x : put_at (length l) x l = l ++ [x].
Proof. unfold put_at. by rewrite take_ge, drop_ge by lia. Qed.

Lemma put_at_insert i l x : (i < length l)%nat -> put_at i x l = <[i := x]> l.
Proof. intros. unfold put_at. by rewrite insert_take_drop. Qed.

Lemma length_put_at i x l : (i <= length l)%nat -> length (put_at i x l) = Nat.max (S i) (length l).
Proof.
  intros. unfold put_at. rewrite length_app. simpl. rewrite length_take, length_drop. lia.
Qed.

Lemma lookup_put_at i x l j y : (i <= length l)%nat -> put_at i x l !! j = Some y ->
  (j = i /\ y = x) \/ (j <> i /\ l !! j = Some y).
Proof.
  intros Hi Hj. unfold put_at in Hj. destruct (decide (j < i)%nat).
  - rewrite lookup_app_l, lookup_take_lt in Hj by (rewrite ?length_take; lia). right. auto with lia.
  - rewrite lookup_app_r in Hj by (rewrite length_take; lia).
    rewrite length_take, Nat.min_l in Hj by lia.
    destruct (decide (j = i)) as [->|].
    + rewrite Nat.sub_diag in Hj. simplify_eq/=. by left.
    + replace (j - i)%nat with (S (j - S i)) in Hj by lia. simpl in Hj.
      rewrite lookup_drop in Hj. replace (S i + (j - S i))%nat with j in Hj by lia. by right.
Qed.

(** Storing one element of a packed array, at the end or inside. *)
Lemma packed_store partial n cap t max s l (i : nat) x :
  length (buf s) = 16%nat -> packed n cap t max s l -> (n * cap <= 13)%nat -> (0 < n)%nat ->
  max <= 2 ^ (8 * Z.of_nat n) - 2 ->
  (i < cap)%nat -> (i <= length l)%nat -> good_size partial x -> x < max ->
  let s' := set_buf (store n (n * i) (enc (8 * Z.of_nat n) x) (buf s)) s in
  length (buf s') = 16%nat /\ packed n cap t max s' (put_at i x l) /\
  ndims_byte s' = ndims_byte s /\ data_type s' = data_type s.
Proof.
  intros Hb (Ht & Hl & Hs) Hn Hn0 Hmax Hi Hil Hg Hx s'.
  assert (He : 0 <= enc (8 * Z.of_nat n) x < 256 ^ Z.of_nat n).
  { change 256 with (2 ^ 8). rewrite <-Z.pow_mul_r by lia. eapply enc_range; [lia|done|lia]. }
  assert (Hoff : (n * i + n <= 13)%nat) by nia.
  split_and!; [simpl; sz| | |]; [split_and!| |].
  - etransitivity; [|exact Ht]. apply load_store_ne; lia.
  - rewrite length_put_at by done. lia.
  - intros j y Hj. apply lookup_put_at in Hj as [[-> ->]|[Hne Hj]]; [| |done].
    + split; [done|]. apply load_store_eq; [lia|done].
    + destruct (Hs _ _ Hj) as [? <-]. split; [done|].
      pose proof (lookup_lt_Some _ _ _ Hj). apply load_store_ne; [lia|]. nia.
  - apply load_store_ne; lia.
  - apply load_store_ne; lia.
Qed.

(** What a write of a size preserves. *)
Definition frame (s s' : TensorShapeRep) : Prop :=
  length (buf s') = 16%nat /\ ndims_byte s' = ndims_byte s /\ data_type s' = data_type s.

Lemma put_dim16_spec partial s l (i : nat) x :
  length (buf s) = 16%nat -> stored16 s l -> (i < 6)%nat -> (i <= length l)%nat ->
  good_size partial x -> x < kMaxRep16 ->
  exists s', put_dim16 (Z.of_nat i) (if partial && (x <? 0) then kUnknownRep16 else uwrap 16 x) s
               = Done (tt, s') /\ frame s s' /\ stored16 s' (put_at i x l).
Proof.
  intros Hb Hs Hi Hil Hg Hx. unfold put_dim16.
  rewrite (proj2 (Z.leb_le _ _)), (proj2 (Z.ltb_lt _ _)) by lia. cbn [andb].
  change kUnknownRep16 with (2 ^ 16 - 1).
  rewrite Nat2Z.id, (uwrap_enc partial 16 x) by (unfold kMaxRep16 in *; (done || lia)).
  eexists. split; [done|].
  destruct (packed_store partial 2 6 REP16 kMaxRep16 s l i x) as (?&?&?&?); try done; lia.
Qed.

Lemma put_dim32_spec partial s l (i : nat) x :
  length (buf s) = 16%nat -> stored32 s l -> (i < 3)%nat -> (i <= length l)%nat ->
  good_size partial x -> x < kMaxRep32 ->
  exists s', put_dim32 (Z.of_nat i) (if partial && (x <? 0) then kUnknownRep32 else u32 x) s
               = Done (tt, s') /\ frame s s' /\ stored32 s' (put_at i x l).
Proof.
  intros Hb Hs Hi Hil Hg Hx. unfold put_dim32, u32.
  rewrite (proj2 (Z.leb_le _ _)), (proj2 (Z.ltb_lt _ _)) by lia. cbn [andb].
  change kUnknownRep32 with (2 ^ 32 - 1).
  rewrite Nat2Z.id, (uwrap_enc partial 32 x) by (unfold kMaxRep32 in *; (done || lia)).
  eexists. split; [done|].
  destruct (packed_store partial 4 3 REP32 kMaxRep32 s l i x) as (?&?&?&?); try done; lia.
Qed.

Lemma put_dims32_spec partial vals : forall rest s l,
  vals = l ++ rest -> length (buf s) = 16%nat -> stored32 s l -> (length vals <= 3)%nat ->
  Forall (good_size partial) rest -> Forall (fun x => x < kMaxRep32) rest ->
  exists s', put_dims32 partial (Z.of_nat (length l)) rest s = Done (tt, s') /\
    frame s s' /\ stored32 s' vals.
Proof.
  induction rest as [|x rest IH]; intros s l -> Hb Hs Hl Hg Hx.
  - exists s. simpl. rewrite app_nil_r. done.
  - apply Forall_cons in Hg as [Hgx Hg]. apply Forall_cons in Hx as [Hxx Hx].
    rewrite length_app in Hl. simpl in Hl.
    destruct (put_dim32_spec partial s l (length l) x) as (s1 & E & (Hb1 & Hn1 & Hd1) & Hs1);
      try done; try lia.
    rewrite put_at_end in Hs1. cbn [put_dims32]. rewrite (bind_Done _ _ _ _ _ E).
    destruct (IH s1 (l ++ [x])) as (s2 & E2 & (Hb2 & Hn2 & Hd2) & Hs2); try done.
    + by rewrite <-app_assoc.
    + rewrite length_app. simpl. lia.
    + rewrite length_app in E2. simpl in E2.
      replace (Z.of_nat (length l + 1)) with (Z.of_nat (length l) + 1) in E2 by lia.
      exists s2. split; [done|]. split; [|done]. split_and!; congruence.
Qed.

Lemma stored32_empty s : tag s = REP32 -> stored32 s [].
Proof. intros. split_and!; [done|simpl; lia|]. intros i x Hx. by rewrite lookup_nil in Hx. Qed.

(** [UnsafeAddDim] before its last two assignments: the sizes are extended. *)
Definition add_size (partial : bool) (size : Z) (s : TensorShapeRep) : outcome (unit * TensorShapeRep) :=
  (let nd := ndims_byte s in
   if (tag s =? REP16) && (nd <? 6) && (size <? kMaxRep16) then
     put_dim16 nd (if partial && (size <? 0) then kUnknownRep16 else uwrap 16 size)
   else if (tag s =? REP32) && (nd <? 3) && (size <? kMaxRep32) then
     put_dim32 nd (if partial && (size <? 0) then kUnknownRep32 else u32 size)
   else if tag s =? REP_OUT_OF_LINE then
     modify (set_out_of_line (out_of_line s ++ [size]))
   else
     vals0 <~ lift (AppendTo partial s []);;
     let vals := vals0 ++ [size] in
     if can_be_rep32 vals then modify (set_tag REP32);;; put_dims32 partial 0 vals
     else modify (set_tag REP_OUT_OF_LINE);;; modify (set_out_of_line vals)) s.

Lemma UnsafeAddDim_add_size partial size n s s1 :
  add_size partial size s = Done (tt, s1) ->
  UnsafeAddDim partial size n s
  = Done (tt, set_num_elements n (set_ndims_byte (ndims_byte s + 1) s1)).
Proof.
  intros E. unfold add_size in E. cbv zeta in E. unfold UnsafeAddDim, bind at 1, get. cbv zeta.
  unfold bind at 1. rewrite E. done.
Qed.

Lemma out_of_line_frame s v : length (buf s) = 16%nat -> frame s (set_out_of_line v s).
Proof. done. Qed.

(** The representation changes when the current one is too narrow. *)
Lemma add_size_upgrade partial s l x :
  core partial s l -> good_size partial x ->
  exists s1, bind (lift (AppendTo partial s [])) (fun vals0 =>
     let vals := vals0 ++ [x] in
     if can_be_rep32 vals then modify (set_tag REP32);;; put_dims32 partial 0 vals
     else modify (set_tag REP_OUT_OF_LINE);;; modify (set_out_of_line vals)) s = Done (tt, s1) /\
    frame s s1 /\ stored s1 (l ++ [x]).
Proof.
  intros Hc Hg. unfold bind at 1. rewrite (AppendTo_core _ _ _ Hc). cbn [lift]. cbv zeta.
  pose proof (c_buf _ _ _ Hc) as Hb. destruct (can_be_rep32 (l ++ [x])) eqn:E.
  - unfold can_be_rep32 in E. bool_to_prop.
    destruct (put_dims32_spec partial (l ++ [x]) (l ++ [x]) (set_tag REP32 s) [])
      as (s1 & E1 & (Hb1 & Hn1 & Hd1) & Hs1).
    + done.
    + by apply set_tag_length.
    + apply stored32_empty, tag_set_tag; [done|]. unfold REP32. lia.
    + lia.
    + apply Forall_app. split; [apply Hc|]. by apply Forall_singleton.
    + apply Forall_forall. intros y Hy. apply list_elem_of_In in Hy.
      rewrite forallb_forall in H0. specialize (H0 y Hy). rewrite Z.geb_leb in H0. bool_to_prop. lia.
    + exists s1. split; [exact E1|]. split; [|by right; left]. split_and!; [done| |].
      * rewrite Hn1. by apply ndims_set_tag.
      * rewrite Hd1. by apply data_type_set_tag.
  - eexists. split; [reflexivity|]. split.
    + split_and!; [by apply set_tag_length|by apply ndims_set_tag|by apply data_type_set_tag].
    + right; right. split; [|done]. apply tag_set_tag; [done|]. unfold REP_OUT_OF_LINE. lia.
Qed.

Lemma add_size_spec partial s l x :
  core partial s l -> Z.of_nat (length l) < MaxDimensions -> good_size partial x ->
  exists s1, add_size partial x s = Done (tt, s1) /\ frame s s1 /\ stored s1 (l ++ [x]).
Proof.
  intros Hc Hl Hg. pose proof (c_buf _ _ _ Hc) as Hb.
  unfold add_size. cbv zeta. rewrite (c_rank _ _ _ Hc).
  destruct (c_stored _ _ _ Hc) as [Hs|[Hs|Hs]]; pose proof (proj1 Hs) as Ht; rewrite Ht; simpl.
  - destruct (Z.ltb_spec (Z.of_nat (length l)) 6), (Z.ltb_spec x kMaxRep16); simpl;
      try by apply add_size_upgrade.
    destruct (put_dim16_spec partial s l (length l) x) as (s1 & E & Hf & Hs1); try done; try lia.
    rewrite put_at_end in Hs1. exists s1. split; [done|]. split; [done|]. by left.
  - destruct (Z.ltb_spec (Z.of_nat (length l)) 3), (Z.ltb_spec x kMaxRep32); simpl;
      try by apply add_size_upgrade.
    destruct (put_dim32_spec partial s l (length l) x) as (s1 & E & Hf & Hs1); try done; try lia.
    rewrite put_at_end in Hs1. exists s1. split; [done|]. split; [done|]. by right; left.
  - eexists. split; [reflexivity|]. split; [by apply out_of_line_frame|].
    right; right. destruct Hs as [_ ->]. done.
Qed.

Lemma UnsafeAddDim_spec partial s l x n :
  core partial s l -> Z.of_nat (length l) < MaxDimensions -> good_size partial x ->
  exists s', UnsafeAddDim partial x n s = Done (tt, s') /\
    core partial s' (l ++ [x]) /\ num_elements s' = n /\ data_type s' = data_type s.
Proof.
  intros Hc Hl Hg. destruct (add_size_spec _ _ _ _ Hc Hl Hg) as (s1 & E & (Hb & Hn & Hd) & Hs).
  rewrite (UnsafeAddDim_add_size _ _ _ _ _ E). eexists. split; [done|].
  pose proof (c_rank _ _ _ Hc) as Hr. unfold MaxDimensions in Hl.
  split; [|split; [done|]].
  - split.
    + by apply set_ndims_length.
    + rewrite length_app. simpl. unfold MaxDimensions. lia.
    + apply Forall_app. split; [apply Hc|]. by apply Forall_singleton.
    + etransitivity; [apply (ndims_set_ndims s1 Hb)|]; rewrite ?length_app; simpl; lia.
    + by apply stored_ndims.
  - rewrite <-Hd. by apply (data_type_set_ndims s1).
Qed.

(** ** The operations that return a status *)

(** What an operation that should produce [l] leaves: a shape that represents
    [l] with the data type unchanged, or an error because [l] is no shape. *)
Definition yields (partial : bool) (s : TensorShapeRep) (l : list Z) (m : M TensorShapeRep Status) : Prop :=
  exists st s', m s = Done (st, s') /\
    if ok st then repr partial s' l /\ data_type s' = data_type s else ~ valid_sizes partial l.

(** Arguments as the callers may pass them: any [int64], not below -1 for a
    partial shape. *)
Definition arg_size (partial : bool) (x : Z) : Prop := in_i64 x /\ (partial = true -> -1 <= x).

Lemma arg_good partial x : arg_size partial x -> negb partial && (x <? 0) = false -> good_size partial x.
Proof.
  intros [Hi Hp] H. unfold good_size, in_i64 in *. destruct partial; simpl in H.
  - specialize (Hp eq_refl). lia.
  - bool_to_prop. lia.
Qed.

Lemma AddDimWithStatus_error_frame partial s x c s' :
  AddDimWithStatus partial x s = Done (StatusError c, s') -> s' = s.
Proof.
  unfold AddDimWithStatus, bind, get, ret. repeat case_match; intros; simplify_eq; done.
Qed.

Lemma AddDimWithStatus_spec partial s l x :
  repr partial s l -> arg_size partial x ->
  yields partial s (l ++ [x]) (AddDimWithStatus partial x).
Proof.
  intros [Hc Hv Hn] Ha. unfold yields, AddDimWithStatus.
  destruct (negb partial && (x <? 0)) eqn:Eneg.
  { exists (StatusError INTERNAL), s. split; [done|]. intros Hbad%valid_snoc.
    destruct Hbad as (_ & _ & Hg & _). bool_to_prop. subst. unfold good_size in Hg. lia. }
  pose proof (arg_good _ _ Ha Eneg) as Hg. unfold bind at 1, get.
  rewrite (core_known _ _ _ Hc), (c_rank _ _ _ Hc), Z.geb_leb.
  destruct (Z.leb_spec MaxDimensions (Z.of_nat (length l))).
  { exists (StatusError INTERNAL), s. split; [done|]. intros Hbad%valid_snoc. lia. }
  pose proof (elements_snoc partial l x (vs_sizes _ _ Hv)) as He. rewrite Hn.
  assert (Hok : forall n, elements partial (l ++ [x]) = n -> n < 2 ^ 63 ->
    exists st s', bind (UnsafeAddDim partial x n) (fun _ => ret StatusOK) s = Done (st, s') /\
    if ok st then repr partial s' (l ++ [x]) /\ data_type s' = data_type s
    else ~ valid_sizes partial (l ++ [x])).
  { intros n Hen Hlt. destruct (UnsafeAddDim_spec partial s l x n) as (s' & E & Hc' & Hn' & Hd'); try done.
    rewrite (bind_Done _ _ _ _ _ E). exists StatusOK, s'. split; [done|]. split; [|done].
    split; [done| |congruence]. apply valid_snoc. split_and!; (done || lia). }
  destruct (partial && _) eqn:Ep; [by apply Hok|].
  pose proof (elements_range _ _ Hv) as Hr.
  assert (0 <= elements partial l /\ 0 <= x) as [? ?].
  { destruct partial; simpl in *; bool_to_prop; [lia|]. unfold good_size in Hg. lia. }
  destruct (decide (elements partial l * x < 2 ^ 63)) as [Hlt|Hge].
  - rewrite MultiplyWithoutOverflow_ok by done. cbv zeta.
    rewrite (proj2 (Z.ltb_ge _ _)) by nia. apply Hok; done.
  - cbv zeta. rewrite (proj2 (Z.ltb_lt (MultiplyWithoutOverflow _ _) 0)).
    + exists (StatusError INTERNAL), s. split; [done|]. intros Hbad%valid_snoc. lia.
    + unfold good_size in Hg. apply MultiplyWithoutOverflow_overflow; lia.
Qed.

Lemma valid_app_l partial l1 l2 : valid_sizes partial (l1 ++ l2) -> valid_sizes partial l1.
Proof. intros Hv. rewrite <-(take_app_length l1 l2). by apply elements_prefix_range. Qed.

Lemma AddDims_spec partial vals : forall s l,
  repr partial s l -> Forall (arg_size partial) vals ->
  yields partial s (l ++ vals) (for_each_status (AddDimWithStatus partial) vals).
Proof.
  induction vals as [|x vals IH]; intros s l Hr Ha.
  - exists StatusOK, s. rewrite app_nil_r. done.
  - apply Forall_cons in Ha as [Hx Ha].
    destruct (AddDimWithStatus_spec _ _ _ _ Hr Hx) as (st & s1 & E & H1).
    unfold yields. cbn [for_each_status]. rewrite (bind_Done _ _ _ _ _ E).
    destruct (ok st) eqn:Hok.
    + destruct H1 as [H1 Hd]. destruct (IH _ _ H1 Ha) as (st2 & s2 & E2 & H2).
      exists st2, s2. split; [done|]. rewrite <-app_assoc in H2. simpl in H2.
      destruct (ok st2); [|done]. destruct H2. split; [done|congruence].
    + exists st, s1. split; [done|]. rewrite Hok. intros Hbad. apply H1.
      eapply (valid_app_l _ _ vals). by rewrite <-app_assoc.
Qed.

Lemma ClearAllButDataType_spec partial s :
  length (buf s) = 16%nat ->
  repr partial (ClearAllButDataType s) [] /\ data_type (ClearAllButDataType s) = data_type s.
Proof.
  intros Hb. unfold ClearAllButDataType.
  set (s0 := if tag s =? REP_OUT_OF_LINE then set_out_of_line [] s else s).
  assert (Hs0 : buf s0 = buf s) by (unfold s0; by case_match).
  assert (Hb0 : length (buf s0) = 16%nat) by congruence.
  pose proof (set_tag_length s0 Hb0 REP16) as Hb1. split; [split; [split| |]|].
  - by apply set_ndims_length.
  - done.
  - constructor.
  - by apply ndims_set_ndims.
  - apply stored_ndims; [done|]. left. split_and!.
    + by apply tag_set_tag.
    + simpl. lia.
    + intros i x Hx. by rewrite lookup_nil in Hx.
  - apply valid_nil.
  - destruct partial; done.
  - etransitivity; [by apply (data_type_set_ndims (set_tag REP16 s0))|].
    rewrite data_type_set_tag by done. unfold data_type. by rewrite Hs0.
Qed.
