(* ===== verification/TensorShapeOps.v ===== *)
(** * Tensor shapes: the remaining operations against lists of sizes

    Recomputing the number of elements, inserting, setting and removing sizes,
    construction from sizes and from protocol buffers, validity tests,
    comparison, merging and copying, each related to the list of sizes. *)
From S2P Require Import Prelude TensorShape TensorShapeProofs.
From stdpp Require Import options.
#[local] Open Scope tf_monad_scope.

(** ** [RecomputeNumElements] *)
Lemma elements_unknown l : existsb (fun x => x <? 0) l = true -> elements true l = -1.
Proof. intros H. unfold elements. by rewrite H. Qed.

Lemma valid_after_unknown l0 x l :
  valid_sizes true l0 -> x < 0 -> Forall (good_size true) (x :: l) ->
  Z.of_nat (length (l0 ++ x :: l)) <= MaxDimensions -> valid_sizes true (l0 ++ x :: l).
Proof.
  intros Hv Hx Hg Hl. split; [done| |].
  - apply Forall_app. split; [apply Hv|done].
  - intros k. destruct (decide (k <= length l0)%nat).
    + rewrite take_app_le by done. apply Hv.
    + rewrite elements_unknown; [lia|]. rewrite take_app_ge by lia.
      destruct (k - length l0)%nat as [|j] eqn:E; [lia|]. rewrite existsb_app. simpl.
      rewrite (proj2 (Z.ltb_lt x 0)) by done. by rewrite orb_true_r.
Qed.

Lemma recompute_loop_spec partial l : forall l0,
  valid_sizes partial l0 -> 0 <= elements partial l0 -> Forall (good_size partial) l ->
  Z.of_nat (length (l0 ++ l)) <= MaxDimensions ->
  match recompute_loop partial (elements partial l0) l with
  | Some n => valid_sizes partial (l0 ++ l) /\ n = elements partial (l0 ++ l)
  | None => ~ valid_sizes partial (l0 ++ l)
  end.
Proof.
  induction l as [|x l IH]; intros l0 Hv Hn Hg Hl; cbn [recompute_loop].
  { by rewrite app_nil_r. }
  destruct (partial && (x <? 0)) eqn:Ep.
  { bool_to_prop. destruct partial; [|done]. split; [by apply valid_after_unknown|].
    rewrite elements_unknown; [done|]. rewrite existsb_app. simpl.
    rewrite (proj2 (Z.ltb_lt x 0)) by done. by rewrite orb_true_r. }
  pose proof (elements_range _ _ Hv) as Hr. apply Forall_cons in Hg as [Hgx Hg].
  assert (0 <= x).
  { unfold good_size in Hgx. destruct partial; simpl in Ep; bool_to_prop; lia. }
  assert (He : elements partial (l0 ++ [x]) = elements partial l0 * x).
  { rewrite elements_snoc by apply Hv. rewrite !(proj2 (Z.ltb_ge _ 0)) by done.
    by rewrite andb_false_r. }
  rewrite (cons_middle x l0 l), app_assoc in Hl |- *. cbv zeta.
  destruct (decide (elements partial l0 * x < 2 ^ 63)) as [Hlt|Hge].
  - rewrite MultiplyWithoutOverflow_ok by done.
    rewrite (proj2 (Z.ltb_ge (_ * _) 0)) by nia.
    rewrite <-He. apply IH; [|rewrite He; nia|done|done].
    apply valid_snoc. split_and!; [done| |done|lia].
    rewrite !length_app in Hl. simpl in Hl. lia.
  - rewrite (proj2 (Z.ltb_lt (MultiplyWithoutOverflow _ _) 0)).
    + intros Hbad%valid_app_l%valid_snoc. lia.
    + unfold good_size in Hgx. apply MultiplyWithoutOverflow_overflow; lia.
Qed.

Lemma core_set_num partial s l n : core partial s l -> core partial (set_num_elements n s) l.
Proof. intros [H1 H2 H3 H4 H5]. split; done. Qed.

Lemma RecomputeNumElements_spec partial s l :
  core partial s l -> yields partial s l (RecomputeNumElements partial).
Proof.
  intros Hc. unfold yields, RecomputeNumElements, bind at 1, get.
  rewrite (core_known _ _ _ Hc). unfold bind at 1. rewrite (dim_sizes_core _ _ _ Hc). cbn [lift].
  pose proof (recompute_loop_spec partial l [] (valid_nil partial)) as H.
  assert (He : elements partial [] = 1) by (by destruct partial).
  rewrite He in H. specialize (H ltac:(lia) (c_sizes _ _ _ Hc) (c_len _ _ _ Hc)).
  destruct (recompute_loop partial 1 l) as [n|].
  - destruct H as [Hv ->]. eexists StatusOK, _. split; [reflexivity|]. split; [|done].
    split; [by apply core_set_num|done|done].
  - eexists (StatusError _), s. split; [reflexivity|done].
Qed.

(** ** Rebuilding a shape from a list *)
Definition rebuild (partial : bool) (vals : list Z) : M TensorShapeRep Status :=
  modify ClearAllButDataType;;; for_each_status (AddDimWithStatus partial) vals.

Lemma rebuild_spec partial s vals :
  length (buf s) = 16%nat -> Forall (arg_size partial) vals ->
  yields partial s vals (rebuild partial vals).
Proof.
  intros Hb Ha. destruct (ClearAllButDataType_spec partial s Hb) as [Hr Hd].
  destruct (AddDims_spec partial vals _ _ Hr Ha) as (st & s' & E & H).
  exists st, s'. split; [exact E|]. by rewrite Hd in H.
Qed.

Lemma good_arg partial x : good_size partial x -> arg_size partial x.
Proof.
  unfold good_size, arg_size, in_i64. intros. destruct partial; split; lia || done.
Qed.

Lemma good_args partial l : Forall (good_size partial) l -> Forall (arg_size partial) l.
Proof. intros H. eapply Forall_impl; [exact H|]. apply good_arg. Qed.

Lemma yields_bind_AppendTo partial s l (k : list Z -> M TensorShapeRep Status) l' :
  core partial s l -> yields partial s l' (k l) ->
  yields partial s l' (bind (lift (AppendTo partial s [])) k).
Proof.
  intros Hc (st & s' & E & H). exists st, s'. split; [|done].
  unfold bind. by rewrite (AppendTo_core _ _ _ Hc).
Qed.

(** Rebuilding and then recomputing: the second step succeeds and changes nothing. *)
Lemma rebuild_recompute_spec partial s vals :
  length (buf s) = 16%nat -> Forall (arg_size partial) vals ->
  yields partial s vals
    (modify ClearAllButDataType;;;
     st <~ for_each_status (AddDimWithStatus partial) vals;;
     if ok st then RecomputeNumElements partial else ret st).
Proof.
  intros Hb Ha. destruct (rebuild_spec partial s vals Hb Ha) as (st & s1 & E & H).
  unfold yields. unfold rebuild, bind at 1, modify in E.
  unfold bind at 1, modify. rewrite (bind_Done _ _ _ _ _ E). destruct (ok st) eqn:Hok.
  - destruct H as [Hr Hd].
    destruct (RecomputeNumElements_spec partial s1 vals (r_core _ _ _ Hr)) as (st2 & s2 & E2 & H2).
    exists st2, s2. split; [done|]. by rewrite Hd in H2.
  - exists st, s1. split; [done|]. by rewrite Hok.
Qed.

Lemma InsertDimWithStatus_spec partial s l d x :
  repr partial s l -> arg_size partial x -> 0 <= d <= Z.of_nat (length l) ->
  yields partial s (vec_insert d x l) (InsertDimWithStatus partial d x).
Proof.
  intros Hr Hx Hd. pose proof (r_core _ _ _ Hr) as Hc. unfold InsertDimWithStatus.
  assert (Hin : x ∈ vec_insert d x l) by (apply elem_of_app; right; left).
  assert (Hlen : length (vec_insert d x l) = S (length l)).
  { unfold vec_insert. rewrite length_app. simpl. rewrite length_take, length_drop. lia. }
  assert (Hbad : forall c, ~ valid_sizes partial (vec_insert d x l) ->
    yields partial s (vec_insert d x l) (ret (StatusError c))).
  { intros c Hb. by exists (StatusError c), s. }
  destruct (negb partial && (x <? 0)) eqn:Eneg.
  { exists (StatusError INTERNAL), s. split; [done|]. intros Hv. apply andb_true_iff in Eneg as [Ep Exn].
    apply negb_true_iff in Ep. subst. apply Z.ltb_lt in Exn.
    pose proof (proj1 (Forall_forall _ _) (vs_sizes _ _ Hv) x Hin) as Hg. unfold good_size in Hg. lia. }
  unfold yields, bind at 1, get.
  rewrite (core_dims _ _ _ Hc), (proj2 (Z.ltb_ge _ _)), Z.gtb_ltb, (proj2 (Z.ltb_ge _ _)), Z.geb_leb by lia.
  destruct (Z.leb_spec MaxDimensions (Z.of_nat (length l))).
  { apply Hbad. intros Hv. pose proof (vs_rank _ _ Hv) as Hk. rewrite Hlen in Hk. lia. }
  apply (yields_bind_AppendTo partial s l (fun vals => rebuild partial (vec_insert d x vals)) _ Hc).
  apply rebuild_spec; [apply Hc|]. unfold vec_insert.
  pose proof (good_args _ _ (c_sizes _ _ _ Hc)) as Hga.
  apply Forall_app. split; [by apply Forall_take|]. constructor; [done|by apply Forall_drop].
Qed.

(** ** Setting a size *)
Lemma core_frame partial s s' l (d : nat) x :
  core partial s l -> frame s s' -> (d < length l)%nat -> good_size partial x ->
  stored s' (<[d := x]> l) -> core partial s' (<[d := x]> l).
Proof.
  intros [H1 H2 H3 H4 H5] (Hb & Hn & Hd) Hlt Hg Hs. split; try done; rewrite ?length_insert; try done.
  - by apply Forall_insert.
  - congruence.
Qed.

Lemma yields_write partial s l s1 (m : M TensorShapeRep unit) (d : nat) x :
  core partial s l -> m s = Done (tt, s1) -> frame s s1 -> (d < length l)%nat ->
  good_size partial x -> stored s1 (<[d := x]> l) ->
  yields partial s (<[d := x]> l) (m;;; RecomputeNumElements partial).
Proof.
  intros Hc E Hf Hlt Hg Hs. pose proof (core_frame _ _ _ _ _ _ Hc Hf Hlt Hg Hs) as Hc1.
  destruct (RecomputeNumElements_spec _ _ _ Hc1) as (st & s' & E2 & H2).
  exists st, s'. split; [by rewrite (bind_Done _ _ _ _ _ E)|].
  destruct Hf as (_ & _ & Hd). by rewrite Hd in H2.
Qed.

Lemma SetDimWithStatus_spec partial s l (d : nat) x :
  repr partial s l -> (d < length l)%nat -> 0 <= x < 2 ^ 63 ->
  yields partial s (<[d := x]> l) (SetDimWithStatus partial (Z.of_nat d) x).
Proof.
  intros Hr Hd Hx. pose proof (r_core _ _ _ Hr) as Hc.
  assert (Hg : good_size partial x) by (unfold good_size; destruct partial; lia).
  unfold yields, SetDimWithStatus, bind at 1, get.
  rewrite (core_dims _ _ _ Hc), (proj2 (Z.ltb_ge (Z.of_nat d) 0)), Z.geb_leb,
    (proj2 (Z.leb_gt _ _)), (proj2 (Z.ltb_ge x 0)) by lia.
  rewrite andb_false_r.
  assert (Hup : yields partial s (<[d := x]> l)
    (vals <~ lift (AppendTo partial s []);;
     modify ClearAllButDataType;;;
     st <~ for_each_status (AddDimWithStatus partial) (<[Z.to_nat (Z.of_nat d) := x]> vals);;
     (if ok st then RecomputeNumElements partial else ret st))).
  { eapply (yields_bind_AppendTo partial s l _ _ Hc). rewrite Nat2Z.id.
    apply rebuild_recompute_spec; [apply Hc|]. apply Forall_insert; [|by apply good_arg].
    apply good_args, Hc. }
  destruct (c_stored _ _ _ Hc) as [Hs|[Hs|Hs]]; pose proof (proj1 Hs) as Ht; rewrite Ht; simpl.
  - destruct (Z.ltb_spec x kMaxRep16); [|done]. simpl.
    pose proof (proj1 (proj2 Hs)) as Hl6.
    destruct (put_dim16_spec partial s l d x) as (s1 & E & Hf & Hs1); try done; try lia; [apply Hc|].
    rewrite (proj2 (Z.ltb_ge x 0)), andb_false_r in E by lia. rewrite put_at_insert in Hs1 by done.
    eapply yields_write; try done. by left.
  - destruct (Z.ltb_spec x kMaxRep32); [|done]. simpl.
    pose proof (proj1 (proj2 Hs)) as Hl3.
    destruct (put_dim32_spec partial s l d x) as (s1 & E & Hf & Hs1); try done; try lia; [apply Hc|].
    rewrite (proj2 (Z.ltb_ge x 0)), andb_false_r in E by lia. rewrite put_at_insert in Hs1 by done.
    eapply yields_write; try done. by right; left.
  - destruct Hs as [_ Hs]. eapply (yields_write partial s l (set_out_of_line (<[d := x]> l) s)); try done.
    + unfold put_dim64. rewrite Hs, (proj2 (Z.leb_le _ _)), (proj2 (Z.ltb_lt _ _)), Nat2Z.id by lia. done.
    + apply out_of_line_frame, Hc.
    + by right; right.
Qed.

(** ** Removing sizes *)
Definition list_bound (l : list Z) (i : Z) : Z := if i <? 0 then Z.of_nat (length l) + i + 1 else i.

(** [RemoveDimRangeWithStatus] returns an error exactly for bounds out of range. *)
Definition bounds_ok (l : list Z) (b e : Z) : bool :=
  (0 <=? list_bound l b) && (list_bound l b <=? Z.of_nat (length l)) &&
  (0 <=? list_bound l e) && (list_bound l e <=? Z.of_nat (length l)).

Definition erase_range (l : list Z) (b e : Z) : list Z :=
  if list_bound l b >=? list_bound l e then l else vec_erase (list_bound l b) (list_bound l e) l.

Lemma RemoveDimRangeWithStatus_ok partial s l b e :
  repr partial s l -> bounds_ok l b e = true ->
  yields partial s (erase_range l b e) (RemoveDimRangeWithStatus partial b e).
Proof.
  intros Hr Hok. pose proof (r_core _ _ _ Hr) as Hc. unfold bounds_ok in Hok. bool_to_prop.
  unfold yields, RemoveDimRangeWithStatus, bind at 1, get. rewrite (core_known _ _ _ Hc).
  unfold range_bound, erase_range. rewrite (core_dims _ _ _ Hc). cbv zeta. fold (list_bound l b) (list_bound l e).
  rewrite !Z.gtb_ltb, !(proj2 (Z.ltb_ge _ _)) by done.
  destruct (_ >=? _).
  - exists StatusOK, s. split; [done|]. done.
  - eapply (yields_bind_AppendTo partial s l _ _ Hc).
    apply rebuild_recompute_spec; [apply Hc|]. unfold vec_erase.
    pose proof (good_args _ _ (c_sizes _ _ _ Hc)).
    apply Forall_app. split; [by apply Forall_take|by apply Forall_drop].
Qed.

Lemma RemoveDimRangeWithStatus_bad partial s l b e :
  repr partial s l -> bounds_ok l b e = false ->
  RemoveDimRangeWithStatus partial b e s = Done (StatusError INTERNAL, s).
Proof.
  intros Hr Hbad. pose proof (r_core _ _ _ Hr) as Hc. unfold bounds_ok in Hbad.
  unfold RemoveDimRangeWithStatus, bind at 1, get. rewrite (core_known _ _ _ Hc).
  unfold range_bound. rewrite (core_dims _ _ _ Hc). cbv zeta. fold (list_bound l b) (list_bound l e).
  rewrite !Z.gtb_ltb. revert Hbad.
  destruct (Z.ltb_spec (list_bound l b) 0), (Z.leb_spec 0 (list_bound l b)); try lia; try done.
  destruct (Z.ltb_spec (Z.of_nat (length l)) (list_bound l b)),
    (Z.leb_spec (list_bound l b) (Z.of_nat (length l))); try lia; try done.
  destruct (Z.ltb_spec (list_bound l e) 0), (Z.leb_spec 0 (list_bound l e)); try lia; try done.
  destruct (Z.ltb_spec (Z.of_nat (length l)) (list_bound l e)),
    (Z.leb_spec (list_bound l e) (Z.of_nat (length l))); try lia; try done.
Qed.

(** ** Appending a shape *)
Lemma AppendShapeWithStatus_loop_spec partial b lb fuel : forall (i : nat) s l,
  core partial b lb -> repr partial s l -> (i <= length lb)%nat -> (length lb - i < fuel)%nat ->
  yields partial s (l ++ drop i lb)
    (AppendShapeWithStatus_loop partial fuel b (Z.of_nat i) (Z.of_nat (length lb))).
Proof.
  induction fuel as [|fuel IH]; intros i s l Hb Hr Hi Hf; [lia|].
  unfold yields. cbn [AppendShapeWithStatus_loop].
  destruct (Z.eqb_spec (Z.of_nat i) (Z.of_nat (length lb))).
  { exists StatusOK, s. rewrite drop_ge, app_nil_r by lia. done. }
  destruct (lookup_lt_is_Some_2 lb i ltac:(lia)) as [x Hx].
  rewrite (dim_size_core _ _ _ _ _ Hb Hx). unfold bind at 1. cbn [lift].
  assert (Ha : arg_size partial x).
  { apply good_arg. exact (Forall_lookup_1 _ _ _ _ (c_sizes _ _ _ Hb) Hx). }
  destruct (AddDimWithStatus_spec _ _ _ _ Hr Ha) as (st & s1 & E & H1).
  rewrite (bind_Done _ _ _ _ _ E), (drop_S lb x i Hx). destruct (ok st) eqn:Hok.
  - destruct H1 as [H1 Hd]. pose proof (c_len _ _ _ Hb) as Hl. unfold MaxDimensions in Hl.
    rewrite (proj2 (Z.eqb_neq _ _)) by lia.
    replace (Z.of_nat i + 1) with (Z.of_nat (S i)) by lia.
    destruct (IH (S i) s1 (l ++ [x])) as (st2 & s2 & E2 & H2); try done; try lia.
    exists st2, s2. split; [done|]. rewrite <-app_assoc, Hd in H2. done.
  - exists st, s1. split; [done|]. rewrite Hok. intros Hv. apply H1.
    eapply (valid_app_l _ _ (drop (S i) lb)). by rewrite <-app_assoc.
Qed.

Lemma AppendShapeWithStatus_spec partial s l b lb :
  repr partial s l -> core partial b lb ->
  yields partial s (l ++ lb) (AppendShapeWithStatus partial b).
Proof.
  intros Hr Hb. unfold AppendShapeWithStatus. rewrite (iter_end_core _ _ _ Hb).
  apply (AppendShapeWithStatus_loop_spec partial b lb iter_fuel 0); try done; [lia|by eapply core_fuel].
Qed.

(** * Tensor shapes: construction, protocol buffers, merging and copying *)

(** ** The fast paths of [InitDims] *)
Lemma prod_bound K l : 0 <= K -> Forall (fun x => 0 <= x <= K) l ->
  0 <= foldr Z.mul 1 l <= K ^ Z.of_nat (length l).
Proof.
  intros HK. induction 1 as [|x l Hx _ IH]; [done|]. cbn [foldr length].
  rewrite Nat2Z.inj_succ, Z.pow_succ_r by lia. nia.
Qed.

Lemma small_valid partial l :
  (length l <= 4)%nat -> Forall (good_size partial) l -> Forall (fun x => x <= kMaxSmall) l ->
  valid_sizes partial l.
Proof.
  intros Hl Hg Hs. split; [unfold MaxDimensions; lia|done|]. intros k. unfold elements.
  destruct (partial && _) eqn:E; [lia|].
  assert (Hnn : Forall (fun x => 0 <= x) (take k l)).
  { destruct partial; [by apply existsb_neg_false|].
    apply existsb_neg_false, good_nonneg. by apply Forall_take. }
  destruct (prod_bound kMaxSmall (take k l)) as [_ Hb]; [done| |].
  { apply Forall_and. split; [done|by apply Forall_take]. }
  eapply Z.le_lt_trans; [exact Hb|].
  eapply Z.le_lt_trans; [apply (Z.pow_le_mono_r _ _ 4); [done|]|done].
  rewrite length_take. lia.
Qed.

Lemma Set16_step partial s l x :
  length (buf s) = 16%nat -> stored16 s l -> (length l < 6)%nat -> good_size partial x ->
  x <= kMaxSmall ->
  exists s', Set16 partial (Z.of_nat (length l)) x s = Done (partial && (x <? 0), s') /\
    frame s s' /\ stored16 s' (l ++ [x]).
Proof.
  intros Hb Hs Hl Hg Hx.
  destruct (put_dim16_spec partial s l (length l) x) as (s' & E & Hf & Hs'); try done.
  { unfold kMaxSmall, kMaxRep16 in *. lia. }
  rewrite put_at_end in Hs'. exists s'. split; [|done]. unfold Set16.
  destruct (partial && (x <? 0)) eqn:En; by rewrite (bind_Done _ _ _ _ _ E).
Qed.

Lemma write_frame_trans s1 s2 s3 : frame s1 s2 -> frame s2 s3 -> frame s1 s3.
Proof. intros (?&?&?) (?&?&?). split_and!; congruence. Qed.

(** Storing all the sizes one after the other, as the fast paths do. *)
Fixpoint Set16s (partial : bool) (i : Z) (l : list Z) : M TensorShapeRep bool :=
  match l with
  | [] => ret false
  | x :: l => n <~ Set16 partial i x;; r <~ Set16s partial (i + 1) l;; ret (n || r)
  end.

Lemma Set16s_spec partial rest : forall s l,
  length (buf s) = 16%nat -> stored16 s l -> (length l + length rest <= 6)%nat ->
  Forall (good_size partial) rest -> Forall (fun x => x <= kMaxSmall) rest ->
  exists s', Set16s partial (Z.of_nat (length l)) rest s
               = Done (partial && existsb (fun x => x <? 0) rest, s') /\
    frame s s' /\ stored16 s' (l ++ rest).
Proof.
  induction rest as [|x rest IH]; intros s l Hb Hs Hl Hg Hx.
  { exists s. rewrite app_nil_r. simpl. by rewrite andb_false_r. }
  apply Forall_cons in Hg as [Hgx Hg]. apply Forall_cons in Hx as [Hxx Hx]. simpl in Hl.
  destruct (Set16_step partial s l x) as (s1 & E1 & Hf1 & Hs1); try done; [lia|].
  destruct (IH s1 (l ++ [x])) as (s2 & E2 & Hf2 & Hs2); try done.
  { apply Hf1. }
  { rewrite length_app. simpl. lia. }
  exists s2. cbn [Set16s]. rewrite (bind_Done _ _ _ _ _ E1).
  rewrite length_app in E2. simpl in E2.
  replace (Z.of_nat (length l) + 1) with (Z.of_nat (length l + 1)) by lia.
  rewrite (bind_Done _ _ _ _ _ E2). rewrite <-app_assoc in Hs2. split; [|split; [|done]].
  - unfold ret. simpl. by destruct partial.
  - by eapply write_frame_trans.
Qed.

(** What the fast paths compute: the rank byte, the sizes, the number of elements. *)
Definition InitDims_fast (partial : bool) (l : list Z) : M TensorShapeRep Status :=
  modify (set_ndims_byte (Z.of_nat (length l)));;;
  neg <~ Set16s partial 0 l;;
  modify (set_num_elements (if (neg : bool) then -1 else foldr Z.mul 1 l));;;
  ret StatusOK.

Lemma InitDims_fast_spec partial s l :
  length (buf s) = 16%nat -> tag s = REP16 -> (length l <= 4)%nat ->
  Forall (good_size partial) l -> Forall (fun x => x <= kMaxSmall) l ->
  yields partial s l (InitDims_fast partial l).
Proof.
  intros Hb Ht Hl Hg Hx. pose proof (small_valid _ _ Hl Hg Hx) as Hv.
  set (s0 := set_ndims_byte (Z.of_nat (length l)) s).
  assert (Hb0 : length (buf s0) = 16%nat) by by apply set_ndims_length.
  destruct (Set16s_spec partial l s0 []) as (s1 & E & (Hb1 & Hn1 & Hd1) & Hs1); try done.
  { split_and!; [by rewrite <-Ht; apply tag_set_ndims|simpl; lia|].
    intros i x Hi. by rewrite lookup_nil in Hi. }
  { simpl. lia. }
  eexists StatusOK, _. split; [|split].
  - unfold InitDims_fast, bind at 1, modify at 1. fold s0. simpl in E.
    rewrite (bind_Done _ _ _ _ _ E). reflexivity.
  - split; [|done|done]. split; try done.
    + apply Hv.
    + simpl. etransitivity; [apply Hn1|]. apply ndims_set_ndims; [done|]. lia.
    + by left.
  - etransitivity; [apply Hd1|]. by apply data_type_set_ndims.
Qed.

Lemma InitDims_slow_spec partial s l :
  length (buf s) = 16%nat -> tag s = REP16 -> Forall (arg_size partial) l ->
  yields partial s l (InitDims_slow partial l).
Proof.
  intros Hb Ht Ha.
  assert (Hr : repr partial (set_num_elements 1 (set_ndims_byte 0 s)) []).
  { split; [|apply valid_nil|by destruct partial]. split.
    - by apply set_ndims_length.
    - done.
    - constructor.
    - by apply ndims_set_ndims.
    - apply stored_ndims; [done|]. left. split_and!; [done|simpl; lia|].
      intros i x Hi. by rewrite lookup_nil in Hi. }
  destruct (AddDims_spec partial l _ _ Hr Ha) as (st & s' & E & H).
  exists st, s'. split; [exact E|]. simpl in H.
  destruct (ok st); [|done]. destruct H as [H1 H2]. split; [done|].
  etransitivity; [exact H2|]. by apply data_type_set_ndims.
Qed.

Lemma yields_ext partial s l (m m' : M TensorShapeRep Status) :
  m s = m' s -> yields partial s l m' -> yields partial s l m.
Proof. intros E (st & s' & E' & H). exists st, s'. split; [congruence|done]. Qed.

Lemma i64_prod_small l : (length l <= 4)%nat -> Forall (fun x => 0 <= x <= kMaxSmall) l ->
  i64 (foldr Z.mul 1 l) = foldr Z.mul 1 l.
Proof.
  intros Hl Hx. apply i64_small. destruct (prod_bound kMaxSmall l) as [? Hb]; [done|done|].
  unfold in_i64. split; [lia|]. eapply Z.le_lt_trans; [exact Hb|].
  eapply Z.le_lt_trans; [apply (Z.pow_le_mono_r _ _ 4); [done|lia]|done].
Qed.

Lemma nonneg_small partial l :
  Forall (good_size partial) l -> Forall (fun x => x <= kMaxSmall) l ->
  partial && existsb (fun x => x <? 0) l = false -> Forall (fun x => 0 <= x <= kMaxSmall) l.
Proof.
  intros Hg Hx E. apply Forall_and. split; [|done].
  destruct partial; [by apply existsb_neg_false|]. by apply existsb_neg_false, good_nonneg.
Qed.

Lemma Set16_flag partial d v s b s' :
  Set16 partial d v s = Done (b, s') -> b = partial && (v <? 0).
Proof.
  unfold Set16, bind, ret. repeat case_match; intros; simplify_eq; done.
Qed.

Ltac run_Set16 :=
  repeat match goal with
  | |- context [Set16 ?p ?d ?v ?s] =>
      let E := fresh "E" in destruct (Set16 p d v s) as [[? ?]| |] eqn:E; try reflexivity;
      apply Set16_flag in E
  end.

(** The unrolled cases are [InitDims_fast]; their product does not overflow. *)
Lemma InitDims_unrolled partial s l :
  (1 <= length l <= 4)%nat -> Forall (good_size partial) l -> Forall (fun x => x <= kMaxSmall) l ->
  InitDims partial l s = InitDims_fast partial l s.
Proof.
  intros Hl Hg Hx. unfold InitDims, InitDims_fast. cbv zeta.
  assert (E1 : existsb (fun s => s >? kMaxSmall) l = false).
  { apply not_true_iff_false. rewrite existsb_exists. intros (x & Hin & Hb).
    rewrite Z.gtb_ltb in Hb. bool_to_prop. apply list_elem_of_In in Hin.
    pose proof (proj1 (Forall_forall _ _) Hx x Hin). simpl in *. lia. }
  assert (E2 : negb partial && existsb (fun s => s <? 0) l = false).
  { destruct partial; [done|]. by apply good_nonneg. }
  rewrite E1. cbn [negb]. rewrite andb_true_r, E2.
  pose proof (nonneg_small _ _ Hg Hx) as Hnn.
  pose proof (i64_prod_small l ltac:(lia)) as Hi.
  destruct l as [|a [|b [|c [|d [|? ?]]]]]; simpl in Hl; try lia;
    cbv [bind modify ret Set16s length Z.of_nat Pos.of_succ_nat Pos.succ Z.add Pos.add foldr];
    run_Set16; subst; simpl in *; rewrite ?orb_false_r, ?orb_assoc in *.
  all: match goal with |- context [if ?b then _ else _] => destruct b eqn:Eb; [done|] end.
  all: do 3 f_equal; try lia.
  all: rewrite ?andb_orb_distrib_r, ?orb_assoc in Hnn; specialize (Hi (Hnn Eb)).
  all: rewrite !Z.mul_1_r, ?Z.mul_assoc in Hi; rewrite Hi; lia.
Qed.

Lemma InitDims_spec partial s l :
  length (buf s) = 16%nat -> tag s = REP16 -> Forall (arg_size partial) l ->
  yields partial s l (InitDims partial l).
Proof.
  intros Hb Ht Ha.
  destruct (negb partial && negb (existsb (fun s => s >? kMaxSmall) l)
              && existsb (fun s => s <? 0) l) eqn:Eneg.
  { exists (StatusError INTERNAL), s. split; [unfold InitDims; cbv zeta; by rewrite Eneg|].
    intros Hv. apply andb_true_iff in Eneg as [Eneg Hneg]. bool_to_prop. subst.
    rewrite (good_nonneg l (vs_sizes _ _ Hv)) in Hneg. done. }
  destruct (existsb (fun s => s >? kMaxSmall) l) eqn:El.
  { eapply yields_ext; [|by apply InitDims_slow_spec]. unfold InitDims. cbv zeta. by rewrite El, Eneg. }
  destruct (decide (1 <= length l <= 4)%nat) as [Hl|Hl].
  - assert (Hx : Forall (fun x => x <= kMaxSmall) l).
    { apply Forall_forall. intros x Hin%list_elem_of_In.
      destruct (Z.leb_spec x kMaxSmall); [done|]. apply not_true_iff_false in El. destruct El.
      apply existsb_exists. exists x. split; [done|]. rewrite Z.gtb_ltb. by apply Z.ltb_lt. }
    assert (Hg : Forall (good_size partial) l).
    { apply Forall_forall. intros x Hin. apply arg_good; [by apply (proj1 (Forall_forall _ _) Ha)|].
      destruct partial; [done|]. simpl in *. apply not_true_iff_false in Eneg.
      apply Z.ltb_ge. destruct (Z.leb_spec 0 x); [done|]. destruct Eneg.
      apply existsb_exists. exists x. split; [by apply list_elem_of_In|]. by apply Z.ltb_lt. }
    eapply yields_ext; [by apply InitDims_unrolled|]. apply InitDims_fast_spec; try done. lia.
  - eapply yields_ext; [|by apply InitDims_slow_spec]. unfold InitDims. cbv zeta. rewrite El, Eneg.
    destruct l as [|a [|b [|c [|d [|? ?]]]]]; simpl in *; try lia; done.
Qed.

(** ** Constructors *)

(** After the tag and data type are set the storage is ready for [InitDims]. *)
Lemma ctor_state s : length (buf s) = 16%nat ->
  let s0 := set_data_type 0 (set_tag REP16 s) in
  length (buf s0) = 16%nat /\ tag s0 = REP16 /\ data_type s0 = 0.
Proof.
  intros Hb s0. pose proof (set_tag_length s Hb REP16) as Hb1. split_and!.
  - by apply set_data_type_length.
  - etransitivity; [by apply tag_set_data_type|]. by apply tag_set_tag.
  - by apply data_type_set_data_type.
Qed.

(** [builds]: from any storage the constructor makes a shape of [l], data type 0. *)
Definition builds (partial : bool) (l : list Z) (m : M TensorShapeRep Status) : Prop :=
  forall raw, length (buf raw) = 16%nat ->
  exists st s', m raw = Done (st, s') /\
    if ok st then repr partial s' l /\ data_type s' = 0 else ~ valid_sizes partial l.

Lemma BuildTensorShapeBase_spec partial l :
  Forall (arg_size partial) l -> builds partial l (BuildTensorShapeBase partial l).
Proof.
  intros Ha raw Hraw. destruct (ctor_state raw Hraw) as (Hb & Ht & Hd).
  destruct (InitDims_spec partial _ l Hb Ht Ha) as (st & s' & E & H).
  exists st, s'. split; [exact E|]. by rewrite Hd in H.
Qed.

Lemma BuildTensorShapeBase_proto_spec partial proto :
  Forall (arg_size partial) (proto_dim proto) -> partial && proto_unknown_rank proto = false ->
  builds partial (proto_dim proto) (BuildTensorShapeBase_proto partial proto).
Proof.
  intros Ha Hu raw Hraw. destruct (ctor_state raw Hraw) as (Hb & Ht & Hd).
  destruct (InitDims_slow_spec partial _ (proto_dim proto) Hb Ht Ha) as (st & s' & E & H).
  exists st, s'. split.
  - unfold BuildTensorShapeBase_proto, bind at 1, modify at 1. unfold bind at 1, modify at 1.
    rewrite Hu. exact E.
  - by rewrite Hd in H.
Qed.

Lemma unknown_ctor s :
  length (buf s) = 16%nat ->
  repr_unknown (set_num_elements (-1) (set_ndims_byte kUnknownRank s)).
Proof.
  intros Hb. split; [by apply set_ndims_length| |done]. by apply ndims_set_ndims.
Qed.

Lemma BuildTensorShapeBase_proto_unknown proto raw :
  length (buf raw) = 16%nat -> proto_unknown_rank proto = true ->
  exists s', BuildTensorShapeBase_proto true proto raw = Done (StatusOK, s') /\ repr_unknown s'.
Proof.
  intros Hraw Hu. destruct (ctor_state raw Hraw) as (Hb & Ht & Hd).
  eexists. split; [|by apply unknown_ctor].
  unfold BuildTensorShapeBase_proto, bind at 1, modify at 1. unfold bind at 1, modify at 1.
  rewrite Hu. reflexivity.
Qed.

(** ** Validity tests *)
Lemma IsValidShape_loop_IsValid partial l : forall n,
  ok (IsValidShape_loop partial n l) = IsValid_loop partial n l.
Proof.
  induction l as [|d l IH]; intros n; [done|]. cbn [IsValidShape_loop IsValid_loop]. cbv zeta.
  repeat case_match; try done; apply IH.
Qed.

(** An unknown size ends the multiplication: only the sizes are checked after it. *)
Lemma IsValid_loop_unknown l : Forall (arg_size true) l -> IsValid_loop true (-1) l = true.
Proof.
  induction 1 as [|x l [_ Hx] _ IH]; [done|]. cbn [IsValid_loop]. specialize (Hx eq_refl).
  rewrite (proj2 (Z.ltb_ge _ _)) by done. simpl. by case_match.
Qed.

Lemma args_good l : Forall (arg_size true) l -> Forall (good_size true) l.
Proof.
  intros H. eapply Forall_impl; [exact H|]. intros x Hx. by apply arg_good.
Qed.

Lemma IsValid_loop_spec partial l : forall l0,
  valid_sizes partial l0 -> 0 <= elements partial l0 -> Forall (arg_size partial) l ->
  Z.of_nat (length (l0 ++ l)) <= MaxDimensions ->
  IsValid_loop partial (elements partial l0) l = true <-> valid_sizes partial (l0 ++ l).
Proof.
  induction l as [|x l IH]; intros l0 Hv Hn Ha Hl; [by rewrite app_nil_r|].
  cbn [IsValid_loop]. apply Forall_cons in Ha as [Hax Ha].
  destruct (Z.ltb_spec x (if partial then -1 else 0)) as [Hbad|Hgood].
  { split; [done|]. rewrite cons_middle, app_assoc. intros Hw%valid_app_l%valid_snoc.
    destruct Hw as (_ & _ & Hg & _). unfold good_size in Hg. lia. }
  destruct (Z.eqb_spec x (-1)) as [->|Hx1].
  { destruct partial; [|lia]. rewrite IsValid_loop_unknown by done. split; [|done]. intros _.
    apply valid_after_unknown; [done|lia| |done]. constructor; [unfold good_size; lia|by apply args_good]. }
  assert (0 <= x) by (destruct partial; lia). destruct Hax as [[_ Hx63] _].
  rewrite Z.geb_leb, (proj2 (Z.leb_le _ _)), orb_true_r by done. cbv zeta.
  assert (He : elements partial (l0 ++ [x]) = elements partial l0 * x).
  { rewrite elements_snoc by apply Hv. rewrite !(proj2 (Z.ltb_ge _ 0)) by done.
    by rewrite andb_false_r. }
  rewrite (cons_middle x l0 l), app_assoc in Hl |- *. pose proof (elements_range _ _ Hv) as Hr.
  destruct (decide (elements partial l0 * x < 2 ^ 63)) as [Hlt|Hge].
  - rewrite MultiplyWithoutOverflow_ok, (proj2 (Z.ltb_ge (_ * _) 0)) by (done || nia).
    rewrite <-He. apply IH; [|rewrite He; nia|done|done].
    apply valid_snoc. split_and!; [done| |unfold good_size; destruct partial; lia|lia].
    rewrite !length_app in Hl. simpl in Hl. lia.
  - rewrite (proj2 (Z.ltb_lt (MultiplyWithoutOverflow _ _) 0)).
    + split; [done|]. intros Hbad%valid_app_l%valid_snoc. lia.
    + apply MultiplyWithoutOverflow_overflow; lia.
Qed.

Lemma IsValid_sizes partial l :
  Forall (arg_size partial) l ->
  (if Z.of_nat (length l) >? MaxDimensions then false else IsValid_loop partial 1 l) = true
  <-> valid_sizes partial l.
Proof.
  intros Ha. rewrite Z.gtb_ltb. destruct (Z.ltb_spec MaxDimensions (Z.of_nat (length l))) as [Hl|Hl].
  - split; [done|]. intros Hv. pose proof (vs_rank _ _ Hv). lia.
  - assert (He : elements partial [] = 1) by (by destruct partial).
    pose proof (IsValid_loop_spec partial l [] (valid_nil partial)) as H. rewrite He in H.
    apply H; (done || lia).
Qed.

(** ** Protocol buffers *)
Lemma AsProto_repr partial s l :
  core partial s l -> AsProto partial s = Done (mkProto false l).
Proof.
  intros Hc. unfold AsProto. rewrite (core_known _ _ _ Hc), (core_dims _ _ _ Hc), Nat2Z.id.
  pose proof (sizes_from_core partial s l (length l) 0 Hc ltac:(lia)) as E.
  rewrite drop_0, take_ge in E by lia. change (Z.of_nat 0) with 0 in E. by rewrite E.
Qed.

(** ** [MakeShape] *)
Lemma Clear_spec partial s : length (buf s) = 16%nat ->
  repr partial (Clear s) [] /\ data_type (Clear s) = 0.
Proof.
  intros Hb. destruct (ClearAllButDataType_spec partial s Hb) as [[[H1 H2 H3 H4 H5] Hv Hn] _].
  unfold Clear. split; [|by apply data_type_set_data_type]. split; [|done|done]. split; try done.
  - by apply set_data_type_length.
  - rewrite <-H4. by apply ndims_set_data_type.
  - left. split_and!; [|simpl; lia|intros i x Hi; by rewrite lookup_nil in Hi].
    rewrite tag_set_data_type by done. unfold ClearAllButDataType.
    set (s0 := if tag s =? REP_OUT_OF_LINE then set_out_of_line [] s else s).
    assert (Hb0 : length (buf s0) = 16%nat) by (unfold s0; by case_match).
    etransitivity; [apply (tag_set_ndims (set_tag REP16 s0)); by apply set_tag_length|].
    by apply tag_set_tag.
Qed.

(** One step of [MakeShape] is a successful [AddDimWithStatus], or an error. *)
Lemma MakeShape_loop_spec partial vals : forall s l,
  repr partial s l -> Forall (arg_size partial) vals ->
  Z.of_nat (length (l ++ vals)) <= MaxDimensions ->
  yields partial s (l ++ vals) (MakeShape_loop partial vals).
Proof.
  induction vals as [|x vals IH]; intros s l Hr Ha Hl.
  { exists StatusOK, s. by rewrite app_nil_r. }
  pose proof Hr as [Hc Hv Hn]. apply Forall_cons in Ha as [Hx Ha].
  rewrite (cons_middle x l vals), app_assoc in Hl |- *.
  assert (Hlt : Z.of_nat (length l) < MaxDimensions) by (rewrite !length_app in Hl; simpl in Hl; lia).
  assert (Hstep : forall n, good_size partial x -> elements partial (l ++ [x]) = n -> n < 2 ^ 63 ->
    yields partial s ((l ++ [x]) ++ vals) (UnsafeAddDim partial x n;;; MakeShape_loop partial vals)).
  { intros n Hg He Hn63. destruct (UnsafeAddDim_spec partial s l x n) as (s1 & E & Hc1 & Hn1 & Hd1); try done.
    destruct (IH s1 (l ++ [x])) as (st & s2 & E2 & H2); [|done|done|].
    - split; [done| |congruence]. apply valid_snoc. split_and!; (done || lia).
    - exists st, s2. rewrite (bind_Done _ _ _ _ _ E), <-Hd1. done. }
  assert (Hbad : forall c, ~ valid_sizes partial (l ++ [x]) ->
    yields partial s ((l ++ [x]) ++ vals) (ret (StatusError c))).
  { intros c Hnv. exists (StatusError c), s. split; [done|]. intros Hw%valid_app_l. done. }
  pose proof (elements_snoc partial l x (vs_sizes _ _ Hv)) as He.
  pose proof (elements_range _ _ Hv) as Hre. destruct Hx as [[_ Hx63] Hxp].
  cbn [MakeShape_loop]. unfold yields, bind at 1, get. rewrite Hn.
  destruct (Z.ltb_spec x 0) as [Hxn|Hxn].
  - destruct partial; simpl.
    + specialize (Hxp eq_refl). rewrite (proj2 (Z.ltb_ge _ _)) by done.
      replace (-1) with x by lia. apply Hstep; [unfold good_size; lia| |lia].
      rewrite He, orb_true_r. simpl. lia.
    + apply Hbad. intros Hw%valid_snoc. destruct Hw as (_ & _ & Hg & _). unfold good_size in Hg. lia.
  - assert (Hg : good_size partial x) by (unfold good_size; destruct partial; lia).
    destruct (Z.ltb_spec (elements partial l) 0) as [Hen|Hen].
    + destruct partial; [|lia]. apply Hstep; [done|by rewrite He|lia].
    + rewrite andb_false_r in He.
      destruct (decide (elements partial l * x < 2 ^ 63)).
      * rewrite MultiplyWithoutOverflow_ok by done. cbv zeta.
        rewrite (proj2 (Z.ltb_ge (_ * _) 0)) by nia. by apply Hstep.
      * cbv zeta. rewrite (proj2 (Z.ltb_lt (MultiplyWithoutOverflow _ _) 0)).
        -- apply Hbad. intros Hw%valid_snoc. lia.
        -- apply MultiplyWithoutOverflow_overflow; lia.
Qed.

Lemma MakeShapeHelper_spec partial l :
  Forall (arg_size partial) l -> builds partial l (MakeShapeHelper partial l).
Proof.
  intros Ha raw Hraw. destruct (Clear_spec partial raw Hraw) as [Hr Hd].
  unfold MakeShapeHelper, bind, modify. rewrite Z.gtb_ltb.
  destruct (Z.ltb_spec MaxDimensions (Z.of_nat (length l))).
  - eexists (StatusError _), _. split; [done|]. intros Hv. pose proof (vs_rank _ _ Hv). lia.
  - destruct (MakeShape_loop_spec partial l _ _ Hr Ha) as (st & s' & E & H'); [done|].
    exists st, s'. split; [exact E|]. by rewrite Hd in H'.
Qed.

(** ** Copying *)
Lemma core_bytes partial s s' l :
  buf s' = buf s -> out_of_line s' = out_of_line s -> core partial s l -> core partial s' l.
Proof.
  intros Eb Eo [H1 H2 H3 H4 H5]. split; try done; unfold ndims_byte, stored, stored16, stored32,
    stored64, packed, tag in *; rewrite ?Eb, ?Eo; done.
Qed.

(** A shape that is not out of line is determined by its bytes. *)
Lemma core_inline partial s s' l :
  buf s' = buf s -> tag s <> REP_OUT_OF_LINE -> core partial s l -> core partial s' l.
Proof.
  intros Eb Ht [H1 H2 H3 H4 H5]. split; [congruence|done|done| |].
  - unfold ndims_byte in *. by rewrite Eb.
  - destruct H5 as [H5|[H5|[H5 _]]]; [left|right; left|done];
      unfold stored16, stored32, packed, tag in *; by rewrite Eb.
Qed.

Lemma SlowCopyFrom_inline a b : tag b <> REP_OUT_OF_LINE -> buf (SlowCopyFrom a b) = buf b.
Proof.
  intros Ht. unfold SlowCopyFrom. rewrite (proj2 (Z.eqb_neq _ _) Ht). done.
Qed.

Lemma SlowCopyFrom_out_of_line partial a b l :
  length (buf a) = 16%nat -> tag b = REP_OUT_OF_LINE -> core partial b l ->
  core partial (SlowCopyFrom a b) l.
Proof.
  intros Ha Ht [H1 H2 H3 H4 H5]. unfold SlowCopyFrom. rewrite Ht, Z.eqb_refl. cbn [negb]. cbv zeta.
  set (a1 := set_data_type (data_type b) (set_ndims_byte (ndims_byte b) a)).
  assert (Hn : 0 <= ndims_byte b < 256) by (unfold MaxDimensions in *; lia).
  pose proof (set_ndims_length a Ha (ndims_byte b)) as Hb1.
  assert (Hb2 : length (buf a1) = 16%nat) by by apply set_data_type_length.
  assert (Hr : ndims_byte a1 = Z.of_nat (length l)).
  { unfold a1. rewrite ndims_set_data_type by done. by rewrite ndims_set_ndims. }
  assert (Hs : out_of_line b = l).
  { destruct H5 as [(H & _)|[(H & _)|[_ H]]]; [| |done]; rewrite Ht in H; done. }
  destruct (Z.eqb_spec (tag a1) REP_OUT_OF_LINE) as [Hta|Hta].
  - split; try done. by right; right.
  - pose proof (set_tag_length a1 Hb2 REP_OUT_OF_LINE) as Hb3. split; try done.
    + etransitivity; [exact (ndims_set_tag a1 Hb2 REP_OUT_OF_LINE)|done].
    + right; right. split; [|done].
      exact (tag_set_tag a1 Hb2 REP_OUT_OF_LINE ltac:(unfold REP_OUT_OF_LINE; lia)).
Qed.

Lemma SlowCopyFrom_num a b : num_elements (SlowCopyFrom a b) = num_elements a.
Proof. unfold SlowCopyFrom. by repeat case_match. Qed.

Lemma SlowCopyFrom_core partial a b l :
  length (buf a) = 16%nat -> core partial b l -> core partial (SlowCopyFrom a b) l.
Proof.
  intros Ha Hc. destruct (decide (tag b = REP_OUT_OF_LINE)) as [Ht|Ht].
  - by apply SlowCopyFrom_out_of_line.
  - by eapply core_inline; [apply SlowCopyFrom_inline| |].
Qed.

Lemma assign_repr partial a b l :
  length (buf a) = 16%nat -> repr partial b l -> repr partial (assign a b) l.
Proof.
  intros Ha [Hc Hv Hn]. unfold assign. cbv zeta. destruct (_ && _) eqn:E.
  - bool_to_prop. split; [|done|done]. by apply (core_inline partial b).
  - split; [|done|by rewrite SlowCopyFrom_num]. by apply SlowCopyFrom_core.
Qed.

Lemma copy_construct_repr partial raw b l :
  length (buf raw) = 16%nat -> repr partial b l -> repr partial (copy_construct raw b) l.
Proof.
  intros Ha [Hc Hv Hn]. unfold copy_construct. cbv zeta. destruct (negb _) eqn:E.
  - apply negb_true_iff, Z.eqb_neq in E. split; [|done|done]. by apply (core_inline partial b).
  - split; [|done|by rewrite SlowCopyFrom_num]. apply SlowCopyFrom_core; [|done].
    by apply (set_tag_length (set_num_elements (num_elements b) raw)).
Qed.

(** ** Merging partial shapes *)
Definition merge_size (x y : Z) : Z := if x >=? 0 then x else y.

Definition compatible (la lb : list Z) : bool :=
  forallb (fun p => dims_compatible p.1 p.2) (zip la lb).

Lemma compatible_spec la lb : length la = length lb ->
  compatible la lb = true <->
  forall i x y, la !! i = Some x -> lb !! i = Some y -> 0 <= x -> 0 <= y -> x = y.
Proof.
  revert lb. induction la as [|x la IH]; intros [|y lb] Hl; simplify_eq/=.
  { split; [|done]. intros _ i x y Hx. by rewrite lookup_nil in Hx. }
  unfold compatible. simpl. rewrite andb_true_iff. fold (compatible la lb). rewrite (IH lb Hl).
  assert (Hc : dims_compatible x y = true <-> (0 <= x -> 0 <= y -> x = y)).
  { unfold dims_compatible. rewrite !Z.geb_leb, negb_true_iff.
    destruct (Z.leb_spec 0 x), (Z.leb_spec 0 y), (Z.eqb_spec x y); simpl; split; lia || done. }
  rewrite Hc. split.
  - intros [H1 H2] [|i] x' y'; [naive_solver|]. simpl. apply H2.
  - intros H. split; [by apply (H 0%nat)|]. intros i. apply (H (S i)).
Qed.

(** The loop of [MergeWith] appends the merged sizes, or stops with an error
    because two sizes differ or because the merged list is no shape. *)
Lemma MergeWith_loop_spec a b la lb n : forall (i : nat) s l,
  core true a la -> core true b lb -> length la = length lb -> repr true s l ->
  (i + n = length la)%nat ->
  exists st s', MergeWith_loop n a b (Z.of_nat i) s = Done (st, s') /\
    if ok st
    then compatible (drop i la) (drop i lb) = true /\
         repr true s' (l ++ zip_with merge_size (drop i la) (drop i lb))
    else compatible (drop i la) (drop i lb) = false \/
         ~ valid_sizes true (l ++ zip_with merge_size (drop i la) (drop i lb)).
Proof.
  induction n as [|n IH]; intros i s l Ha Hb Hlen Hr Hi.
  { exists StatusOK, s. rewrite !drop_ge by lia. by rewrite app_nil_r. }
  destruct (lookup_lt_is_Some_2 la i ltac:(lia)) as [x Hx].
  destruct (lookup_lt_is_Some_2 lb i ltac:(lia)) as [y Hy].
  rewrite (drop_S la x i Hx), (drop_S lb y i Hy). cbn [zip_with].
  unfold compatible. cbn [zip zip_with forallb fst snd]. fold (compatible (drop (S i) la) (drop (S i) lb)).
  cbn [MergeWith_loop]. unfold bind at 1.
  rewrite (dim_size_core _ _ _ _ _ Ha Hx). cbn [lift]. unfold bind at 1.
  rewrite (dim_size_core _ _ _ _ _ Hb Hy). cbn [lift]. unfold dims_compatible.
  destruct (_ && _ && _); cbn [negb andb].
  { eexists (StatusError _), s. split; [done|]. by left. }
  fold (merge_size x y).
  assert (Harg : arg_size true (merge_size x y)).
  { apply good_arg. pose proof (Forall_lookup_1 _ _ _ _ (c_sizes _ _ _ Ha) Hx).
    pose proof (Forall_lookup_1 _ _ _ _ (c_sizes _ _ _ Hb) Hy). unfold merge_size. by case_match. }
  destruct (AddDimWithStatus_spec _ _ _ _ Hr Harg) as (st & s1 & E & H1).
  rewrite (bind_Done _ _ _ _ _ E), (cons_middle _ l), app_assoc. destruct (ok st) eqn:Hst.
  - destruct H1 as [H1 Hd]. replace (Z.of_nat i + 1) with (Z.of_nat (S i)) by lia.
    apply IH; (done || lia).
  - exists st, s1. split; [done|]. rewrite Hst. right. intros Hw%valid_app_l. done.
Qed.
