(* ===== verification/TensorShapeTheorems.v ===== *)
(** * Tensor shapes: the properties

    The packed representation implements lists of sizes (refinement), the
    CHECK-ing and status-returning operations agree, protocol buffers round
    trip, the validity tests decide what can be built, and merging computes
    the common refinement of two partial shapes. *)
From S2P Require Import Prelude TensorShape TensorShapeProofs TensorShapeOps.
From stdpp Require Import options.
#[local] Open Scope tf_monad_scope.

(** ** The mutators as one type of operations *)
Inductive shape_op :=
| OpAddDim (size : Z)
| OpAppendShape (b : TensorShapeRep) (lb : list Z)
| OpInsertDim (d size : Z)
| OpSetDim (d size : Z)
| OpRemoveDim (d : Z)
| OpRemoveDimRange (b e : Z)
| OpRemoveLastDims (n : Z).

Definition run_status (partial : bool) (op : shape_op) : M TensorShapeRep Status :=
  match op with
  | OpAddDim size => AddDimWithStatus partial size
  | OpAppendShape b _ => AppendShapeWithStatus partial b
  | OpInsertDim d size => InsertDimWithStatus partial d size
  | OpSetDim d size => SetDimWithStatus partial d size
  | OpRemoveDim d => RemoveDimWithStatus partial d
  | OpRemoveDimRange b e => RemoveDimRangeWithStatus partial b e
  | OpRemoveLastDims n => RemoveLastDimsWithStatus partial n
  end.

Definition run_check (partial : bool) (op : shape_op) : M TensorShapeRep unit :=
  match op with
  | OpAddDim size => AddDim partial size
  | OpAppendShape b _ => AppendShape partial b
  | OpInsertDim d size => InsertDim partial d size
  | OpSetDim d size => set_dim partial d size
  | OpRemoveDim d => RemoveDim partial d
  | OpRemoveDimRange b e => RemoveDimRange partial b e
  | OpRemoveLastDims n => RemoveLastDims partial n
  end.







Lemma unknown_true partial s : partial = true /\ repr_unknown s -> unknown_rank partial s = true.
Proof. intros [-> [_ H _]]. unfold unknown_rank. by rewrite H. Qed.









(** ** CHECK-ing and status-returning variants *)
Definition agrees {S} (r : outcome (unit * S)) (t : outcome (Status * S)) : Prop :=
  match t with
  | Done (StatusOK, s) => r = Done (tt, s)
  | Done (StatusError _, _) => r = Crash
  | Crash => r = Crash
  | OutOfFuel => r = OutOfFuel
  end.

Definition agree {S} (m : M S unit) (n : M S Status) : Prop := forall s, agrees (m s) (n s).

Lemma agree_bind {S A} (m : M S A) f g :
  (forall a, agree (f a) (g a)) -> agree (bind m f) (bind m g).
Proof. intros H s. unfold bind. destruct (m s) as [[a s']| |]; [apply H|done|done]. Qed.

Lemma agree_check_error {S} (b : bool) (m : M S unit) n c :
  (b = true -> agree m n) -> agree (CHECK b;;; m) (if negb b then ret (StatusError c) else n).
Proof. intros H s. unfold bind, CHECK. destruct b; [by apply H|done]. Qed.

Lemma agree_then {S} (m : M S unit) n (m' : M S unit) n' :
  agree m n -> agree m' n' ->
  agree (m;;; m') (st <~ n;; if ok st then n' else ret st).
Proof.
  intros H H' s. unfold bind. specialize (H s). unfold agrees in H.
  destruct (n s) as [[[|c] s']| |]; rewrite H; simpl; [apply H'|done|done|done].
Qed.

Lemma agree_for_each {S A} (f : A -> M S unit) g l :
  (forall x, agree (f x) (g x)) -> agree (for_each f l) (for_each_status g l).
Proof.
  intros H. induction l as [|x l IH]; [done|]. cbn [for_each for_each_status]. by apply agree_then.
Qed.

Lemma agree_assoc {S A B} (m : M S A) (f : A -> M S B) (g : B -> M S unit) n :
  agree (bind m (fun a => bind (f a) g)) n -> agree (bind (bind m f) g) n.
Proof. intros H s. specialize (H s). unfold bind in *. by destruct (m s) as [[? ?]| |]. Qed.

Lemma agree_checked {S} (n : M S Status) : agree (st <~ n;; CHECK (ok st)) n.
Proof. intros s. unfold bind, CHECK. by destruct (n s) as [[[|c] s']| |]. Qed.

Lemma agree_ok {S} (m : M S unit) : agree m (m;;; ret StatusOK).
Proof. intros s. unfold bind. by destruct (m s) as [[[] s']| |]. Qed.

Lemma AddDim_agree partial x : agree (AddDim partial x) (AddDimWithStatus partial x).
Proof.
  unfold AddDim, AddDimWithStatus.
  replace (negb partial && (x <? 0)) with (negb (partial || (x >=? 0)))
    by (rewrite Z.geb_leb, negb_orb, <-Z.ltb_antisym; done).
  apply agree_check_error. intros _. apply agree_bind. intros s.
  destruct (unknown_rank partial s); [done|].
  replace (ndims_byte s >=? MaxDimensions) with (negb (ndims_byte s <? MaxDimensions))
    by (rewrite Z.geb_leb, Z.leb_antisym; done).
  apply agree_check_error. intros _. destruct (partial && _); [apply agree_ok|]. cbv zeta.
  rewrite (Z.ltb_antisym 0). apply agree_check_error. intros _. apply agree_ok.
Qed.

Lemma AppendShape_agree partial b : agree (AppendShape partial b) (AppendShapeWithStatus partial b).
Proof.
  unfold AppendShape, AppendShapeWithStatus. generalize (iter_end partial b).
  generalize 0. induction iter_fuel as [|fuel IH]; intros d e; [done|].
  cbn [AppendShape_loop AppendShapeWithStatus_loop]. destruct (d =? e); [done|].
  apply agree_bind. intros x. apply agree_then; [apply AddDim_agree|]. by destruct (_ =? _).
Qed.

Lemma InsertDim_agree partial d x : agree (InsertDim partial d x) (InsertDimWithStatus partial d x).
Proof.
  unfold InsertDim, InsertDimWithStatus. apply agree_bind. intros s.
  assert (Hrest : agree
    (vals <~ lift (AppendTo partial s []);; modify ClearAllButDataType;;;
     for_each (AddDim partial) (vec_insert d x vals))
    (vals <~ lift (AppendTo partial s []);; modify ClearAllButDataType;;;
     for_each_status (AddDimWithStatus partial) (vec_insert d x vals))).
  { apply agree_bind. intros vals. apply agree_bind. intros _. apply agree_for_each, AddDim_agree. }
  intros s0. rewrite !Z.geb_leb, Z.gtb_ltb, (Z.ltb_antisym 0 d), (Z.ltb_antisym d),
    (Z.ltb_antisym MaxDimensions), (Z.ltb_antisym 0 x).
  destruct partial, (0 <=? x), (0 <=? d), (d <=? _), (MaxDimensions <=? _); simpl; try done; apply Hrest.
Qed.

Lemma set_dim_agree partial d x : agree (set_dim partial d x) (SetDimWithStatus partial d x).
Proof.
  unfold set_dim, SetDimWithStatus. apply agree_bind. intros s.
  rewrite !Z.geb_leb, (Z.ltb_antisym 0 d), (Z.leb_antisym d (dims _ _)), (Z.ltb_antisym 0 x).
  apply agree_check_error. intros _. apply agree_check_error. intros _.
  apply agree_check_error. intros _.
  destruct (_ && _); [apply agree_bind; intros _; apply agree_checked|].
  destruct (_ && _); [apply agree_bind; intros _; apply agree_checked|].
  destruct (_ =? _); [apply agree_bind; intros _; apply agree_checked|].
  apply agree_assoc, agree_bind. intros vals. apply agree_assoc, agree_bind. intros _.
  apply agree_then; [apply agree_for_each, AddDim_agree|apply agree_checked].
Qed.

Lemma RemoveDimRange_agree partial b e :
  agree (RemoveDimRange partial b e) (RemoveDimRangeWithStatus partial b e).
Proof.
  unfold RemoveDimRange, RemoveDimRangeWithStatus. apply agree_bind. intros s.
  destruct (unknown_rank partial s); [done|]. cbv zeta.
  set (b' := range_bound partial s b). set (e' := range_bound partial s e).
  rewrite !Z.gtb_ltb, !Z.geb_leb, (Z.ltb_antisym 0 b'), (Z.ltb_antisym b' (dims _ _)),
    (Z.ltb_antisym 0 e'), (Z.ltb_antisym e' (dims _ _)).
  do 4 (apply agree_check_error; intros _).
  destruct (_ <=? _); [done|]. apply agree_bind. intros vals. apply agree_bind. intros _.
  apply agree_then; [apply agree_for_each, AddDim_agree|]. apply agree_checked.
Qed.

(** The operations whose two variants have the same guard, on arguments both
    can take: all but the removal of the last dimensions, whose guards are
    opposite, and a removed dimension that fits the [int] of [RemoveDim]. *)
Definition same_guard (op : shape_op) : Prop :=
  match op with
  | OpRemoveDim d => in_i32 d /\ in_i32 (d + 1)
  | OpRemoveLastDims _ => False
  | _ => True
  end.

Lemma op_agree partial op : same_guard op -> agree (run_check partial op) (run_status partial op).
Proof.
  destruct op as [x|b lb|d x|d x|d|b e|n]; cbn [run_check run_status same_guard]; intros Hg; [..|done].
  - apply AddDim_agree.
  - apply AppendShape_agree.
  - apply InsertDim_agree.
  - apply set_dim_agree.
  - unfold RemoveDim, RemoveDimWithStatus. rewrite Z.geb_leb, (Z.ltb_antisym 0 d).
    rewrite (i64_small (d + 1)), !i32_small by (unfold in_i32, in_i64 in *; lia).
    apply agree_check_error. intros _. apply RemoveDimRange_agree.
  - apply RemoveDimRange_agree.
Qed.

(** A concrete shape for the witnesses: [2, 3], data type 1. *)
Definition shape_2_3 : TensorShapeRep :=
  mkRep [2; 0; 3; 0; 0; 0; 0; 0; 0; 0; 0; 0; 0; 1; 2; 0] [] 6.

Lemma shape_2_3_repr partial : repr partial shape_2_3 [2; 3].
Proof.
  assert (Hg : Forall (good_size partial) [2; 3]).
  { repeat apply Forall_cons_2; [| |constructor]; unfold good_size; destruct partial; lia. }
  split; [split| |]; try done.
  - left. split_and!; [done|simpl; lia|]. intros [|[|i]] x Hx; simplify_eq/=; done.
  - apply small_valid; [simpl; lia|done|]. repeat constructor; unfold kMaxSmall; lia.
  - by destruct partial.
Qed.

(** A partial shape of unknown rank as the default constructor leaves it. *)
Definition unknown_shape : TensorShapeRep :=
  mkRep [0; 0; 0; 0; 0; 0; 0; 0; 0; 0; 0; 0; 0; 0; 255; 0] [] (-1).

(** ** Properties *)



(** the CHECK-ing operations and the status-returning ones agree in every
    state, but for the removal of the last dimensions: the first returns the same shape when the second returns OK, and
    aborts when the second returns an error; so do the constructors. *)
Theorem shape_check_agree (partial : bool) :
  (forall op s, same_guard op -> agrees (run_check partial op s) (run_status partial op s)) /\
  (forall l s, agrees (TensorShapeBase_sizes partial l s) (BuildTensorShapeBase partial l s)) /\
  (forall p s, agrees (TensorShapeBase_proto partial p s) (BuildTensorShapeBase_proto partial p s)).
Proof.
  split; [intros op s Hg; by apply op_agree|]. split.
  - intros l. apply agree_bind. intros _. apply agree_bind. intros _. apply agree_checked.
  - intros p. apply agree_bind. intros _. apply agree_bind. intros _. destruct (_ && _).
    + by apply agree_bind.
    + apply agree_bind. intros _. apply agree_bind. intros _. apply agree_for_each, AddDim_agree.
Qed.

(** what can be built.  For sizes as callers may pass them, the factory
    functions from sizes, from a protocol buffer and [MakeShape] all return,
    all succeed exactly when [IsValid] holds of the protocol buffer, which is
    when [IsValidShape] returns OK and when the list is a shape, and build a
    representation of the same list from whatever bytes were there before. *)
Theorem shape_build_valid (partial : bool) (l : list Z) (raw : TensorShapeRep)
    (Hl : Forall (arg_size partial) l) (Hraw : length (buf raw) = 16%nat) :
  (IsValid_proto partial (mkProto false l) = true <-> valid_sizes partial l) /\
  ok (IsValidShape partial (mkProto false l)) = IsValid_proto partial (mkProto false l) /\
  Forall (fun m => exists st s', m raw = Done (st, s') /\ ok st = IsValid_proto partial (mkProto false l) /\
            (ok st = true -> repr partial s' l))
    [BuildTensorShapeBase partial l; BuildTensorShapeBase_proto partial (mkProto false l);
     MakeShapeHelper partial l].
Proof.
  assert (Hv : IsValid_proto partial (mkProto false l) = true <-> valid_sizes partial l).
  { unfold IsValid_proto. simpl. rewrite andb_false_r. by apply IsValid_sizes. }
  split; [done|]. split.
  { unfold IsValidShape, IsValid_proto. simpl. rewrite andb_false_r.
    destruct (_ >? _); [done|]. apply IsValidShape_loop_IsValid. }
  assert (Hb : forall m, builds partial l m -> exists st s', m raw = Done (st, s') /\
     ok st = IsValid_proto partial (mkProto false l) /\ (ok st = true -> repr partial s' l)).
  { intros m Hm. destruct (Hm raw Hraw) as (st & s' & E & H). exists st, s'. split; [done|].
    destruct (ok st).
    - destruct H as [Hr _]. split; [|done]. symmetry. apply Hv, Hr.
    - split; [|done]. symmetry. apply not_true_iff_false. by rewrite Hv. }
  repeat apply Forall_cons_2; [| | |constructor]; apply Hb.
  - by apply BuildTensorShapeBase_spec.
  - apply BuildTensorShapeBase_proto_spec; [done|]. simpl. by rewrite andb_false_r.
  - by apply MakeShapeHelper_spec.
Qed.

Lemma shape_build_valid_witness :
  IsValid_proto true (mkProto false [4; -1; 70000]) = true <-> valid_sizes true [4; -1; 70000].
Proof.
  apply (shape_build_valid true [4; -1; 70000] shape_2_3); [|reflexivity].
  repeat apply Forall_cons_2; [| | |constructor]; (split; [unfold in_i64; lia|lia]).
Defined.

(** protocol buffer round trip.  A shape written with [AsProto] is
    accepted by [IsValid] and read back by [BuildTensorShapeBase] to a shape
    of the same sizes, known or unknown rank alike. *)
Theorem shape_proto_roundtrip (partial : bool) (s raw : TensorShapeRep) (o : option (list Z))
    (Hs : represents partial s o) (Hraw : length (buf raw) = 16%nat) :
  exists p s', AsProto partial s = Done p /\ IsValid_proto partial p = true /\
    BuildTensorShapeBase_proto partial p raw = Done (StatusOK, s') /\ represents partial s' o.
Proof.
  destruct o as [l|]; simpl in Hs.
  - pose proof (good_args _ _ (vs_sizes _ _ (r_valid _ _ _ Hs))) as Ha.
    assert (Hu : partial && false = false) by apply andb_false_r.
    destruct (BuildTensorShapeBase_proto_spec partial (mkProto false l) Ha Hu raw Hraw)
      as (st & s' & E & H). simpl in H.
    exists (mkProto false l), s'. split; [by apply AsProto_repr, Hs|]. split.
    + unfold IsValid_proto. simpl. rewrite Hu. by apply IsValid_sizes, Hs.
    + destruct st; simpl in H; [by destruct H|]. by destruct H; apply Hs.
  - destruct (BuildTensorShapeBase_proto_unknown (mkProto true []) raw Hraw eq_refl) as (s' & E & H).
    exists (mkProto true []), s'. split.
    + unfold AsProto. by rewrite (unknown_true _ _ Hs).
    + destruct Hs as [-> _]. done.
Qed.

Lemma shape_proto_roundtrip_witness :
  exists p s', AsProto false shape_2_3 = Done p /\ IsValid_proto false p = true /\
    BuildTensorShapeBase_proto false p shape_2_3 = Done (StatusOK, s') /\ represents false s' (Some [2; 3]).
Proof.
  apply (shape_proto_roundtrip false shape_2_3 shape_2_3 (Some [2; 3])); [|reflexivity].
  apply shape_2_3_repr.
Defined.

(** [MultiplyWithoutOverflow] is exact: on non-negative 64-bit integers
    the product when it fits in 63 bits and a negative number otherwise; a
    negative argument gives a negative result. *)
Theorem multiply_without_overflow (x y : Z) (Hx : in_i64 x) (Hy : in_i64 y) :
  (0 <= MultiplyWithoutOverflow x y <-> 0 <= x /\ 0 <= y /\ x * y < 2 ^ 63) /\
  (0 <= MultiplyWithoutOverflow x y -> MultiplyWithoutOverflow x y = x * y).
Proof.
  unfold in_i64 in *. destruct (Z.ltb_spec x 0) as [Hxn|Hxn].
  { unfold MultiplyWithoutOverflow. rewrite (proj2 (Z.ltb_lt x 0)) by done. lia. }
  destruct (Z.ltb_spec y 0) as [Hyn|Hyn].
  { unfold MultiplyWithoutOverflow. rewrite (proj2 (Z.ltb_ge x 0)), (proj2 (Z.ltb_lt y 0)) by done. lia. }
  destruct (decide (x * y < 2 ^ 63)).
  - rewrite MultiplyWithoutOverflow_ok by done. nia.
  - pose proof (MultiplyWithoutOverflow_overflow x y). lia.
Qed.

Lemma multiply_without_overflow_witness :
  0 <= MultiplyWithoutOverflow 4294967296 2147483647 <->
  0 <= 4294967296 /\ 0 <= 2147483647 /\ 4294967296 * 2147483647 < 2 ^ 63.
Proof. apply (multiply_without_overflow 4294967296 2147483647); unfold in_i64; lia. Defined.


(** partial shapes.  For two partial shapes of known rank, [MergeWith]
    into separate storage returns; it succeeds only if [IsCompatibleWith]
    holds, which is when the ranks are equal and no position has two different
    known sizes, and then the result has, at each position, the known one of
    the two sizes; the only other failure is a merged list that is no shape. *)
Theorem shape_merge (a b r : TensorShapeRep) (la lb : list Z)
    (Ha : repr true a la) (Hb : repr true b lb) (Hr : length (buf r) = 16%nat) :
  exists st r' c, MergeWith false a b r = Done (st, r') /\ IsCompatibleWith a b = Done c /\
    (c = true <-> length la = length lb /\
       forall i x y, la !! i = Some x -> lb !! i = Some y -> 0 <= x -> 0 <= y -> x = y) /\
    if ok st then c = true /\ repr true r' (zip_with merge_size la lb)
    else c = false \/ ~ valid_sizes true (zip_with merge_size la lb).
Proof.
  pose proof (r_core _ _ _ Ha) as Hca. pose proof (r_core _ _ _ Hb) as Hcb.
  unfold MergeWith, IsCompatibleWith.
  rewrite (core_known _ _ _ Hca), (core_known _ _ _ Hcb), (core_dims _ _ _ Hca), (core_dims _ _ _ Hcb), Nat2Z.id.
  cbn [orb]. destruct (Z.eqb_spec (Z.of_nat (length la)) (Z.of_nat (length lb))) as [Hlen|Hlen]; cbn [negb].
  2: { eexists (StatusError _), r, false. split; [done|]. split; [done|]. split; [|by left].
       split; [done|]. intros [? _]. lia. }
  apply Nat2Z.inj in Hlen.
  pose proof (compare_sizes_core true dims_compatible a b la lb (length la) 0 0 Hca Hcb) as Hcmp.
  rewrite !drop_0, !take_ge in Hcmp by lia. specialize (Hcmp ltac:(lia) ltac:(lia)).
  destruct (Clear_spec true r Hr) as [Hclear _].
  destruct (MergeWith_loop_spec a b la lb (length la) 0 _ _ Hca Hcb Hlen Hclear eq_refl)
    as (st & r' & E & H). rewrite !drop_0 in H.
  exists st, r', (compatible la lb). split; [exact E|]. split; [exact Hcmp|]. split; [|done].
  rewrite (compatible_spec la lb Hlen). naive_solver.
Qed.

Lemma shape_merge_witness :
  exists st r' c, MergeWith false shape_2_3 shape_2_3 unknown_shape = Done (st, r') /\
    IsCompatibleWith shape_2_3 shape_2_3 = Done c /\
    (c = true <-> length [2; 3] = length [2; 3] /\
       forall i x y, [2; 3] !! i = Some x -> [2; 3] !! i = Some y -> 0 <= x -> 0 <= y -> x = y) /\
    if ok st then c = true /\ repr true r' (zip_with merge_size [2; 3] [2; 3])
    else c = false \/ ~ valid_sizes true (zip_with merge_size [2; 3] [2; 3]).
Proof.
  apply (shape_merge shape_2_3 shape_2_3 unknown_shape [2; 3] [2; 3]); [| |reflexivity];
    apply shape_2_3_repr.
Defined.

(** iterating over a partial shape of unknown rank never ends normally:
    the iterator starts at 0, ends at -1 and only goes up, so [dim_sizes] and
    [AppendTo] do not return the empty list; nor does [AppendShape] of such a
    shape to another of unknown rank. *)
Theorem shape_unknown_rank_iteration (b s : TensorShapeRep) (fuel : nat) (d : Z) (acc : list Z)
    (Hb : repr_unknown b) (Hs : repr_unknown s) (Hd : 0 <= d) :
  iter_end true b = -1 /\
  (forall l, iter_sizes true fuel b d (iter_end true b) acc <> Done l) /\
  (forall r, AppendShape_loop true fuel b d (iter_end true b) s <> Done r).
Proof.
  assert (He : iter_end true b = -1) by (unfold iter_end; by rewrite (unknown_true true b)).
  assert (Hx : forall d, dim_size true b d = Done (-1)).
  { intros d'. unfold dim_size. by rewrite (unknown_true true b). }
  split; [done|]. rewrite He. revert d acc Hd. induction fuel as [|fuel IH]; intros d acc Hd; [done|].
  cbn [iter_sizes AppendShape_loop]. rewrite (proj2 (Z.eqb_neq d (-1))), Hx by lia. split.
  - intros l. destruct (_ =? _); [done|]. by apply IH; [lia].
  - intros r. unfold bind at 1. cbn [lift]. unfold bind, AddDim, CHECK, get, ret. cbn [orb].
    unfold bind. rewrite (unknown_true true s) by done. destruct (_ =? _); [done|].
    by apply (IH (d + 1) []); [lia].
Qed.

Lemma shape_unknown_rank_iteration_witness :
  iter_end true unknown_shape = -1 /\
  (forall l, iter_sizes true 1000 unknown_shape 0 (iter_end true unknown_shape) [] <> Done l) /\
  (forall r, AppendShape_loop true 1000 unknown_shape 0 (iter_end true unknown_shape) unknown_shape <> Done r).
Proof.
  apply (shape_unknown_rank_iteration unknown_shape unknown_shape 1000 0 []); [| |lia];
    split; reflexivity.
Defined.

(** ** Where the code departs from its comments *)

(** [RemoveLastDimsWithStatus] refuses every [n] below the rank, which
    [RemoveLastDims] accepts. *)
Lemma RemoveLastDimsWithStatus_refuses partial s l n :
  repr partial s l -> n < Z.of_nat (length l) ->
  RemoveLastDimsWithStatus partial n s = Done (StatusError INTERNAL, s).
Proof.
  intros Hr Hn. unfold RemoveLastDimsWithStatus, bind, get.
  rewrite (core_dims _ _ _ (r_core _ _ _ Hr)). by rewrite (proj2 (Z.ltb_lt _ _)).
Qed.

(** [ConcatenateWithStatus] leaves [*out] alone and extends [*this]. *)
Lemma ConcatenateWithStatus_this this out l x :
  repr true this l -> arg_size true x -> valid_sizes true (l ++ [x]) ->
  exists this', ConcatenateWithStatus x (this, out) = Done (StatusOK, (this', out)) /\
    repr true this' (l ++ [x]).
Proof.
  intros Hr Hx Hv. destruct (AddDimWithStatus_spec _ _ _ _ Hr Hx) as (st & s' & E & H).
  destruct st; simpl in H; [|by destruct H]. exists s'. unfold ConcatenateWithStatus. rewrite E. by destruct H.
Qed.
