(* ===== verification/BCast.v ===== *)
(** * Broadcasting of shapes (src/tensorflow/core/util/bcast.h, bcast.cc)

    [BCastList<N>] aligns the shapes of [N] operands and computes, for each, a
    shape to reshape it to and the number of times to repeat each dimension.
    The members that are arrays of length [N] are the fields of [Operand], of
    which the class has a list; a shape is a list of sizes, the outermost first.
    The loops reverse it, so that index 0 is the innermost dimension. *)
From S2P Require Import Prelude TensorShape.
From stdpp Require Import list options.
#[local] Open Scope Z_scope.

Abbreviation Vec := (list Z).

(** ** [ComputeBatchIndices] *)

(** [for (k = 0; k < n; ++k) out[num + k] = out[k] + incr]; an index outside the
    vector is undefined behaviour. *)
Fixpoint copy_loop (n k num : nat) (incr : Z) (out : Vec) : outcome Vec :=
  match n with
  | O => Done out
  | S n =>
      match out !! k with
      | Some v =>
          if (num + k <? length out)%nat then copy_loop n (S k) num incr (<[(num + k)%nat := i64 (v + incr)]> out)
          else Crash
      | None => Crash
      end
  end.

(** The loop over the dimensions runs from the last to the first: [dims] is the
    list of pairs of [reshape] and [bcast], reversed. *)
Fixpoint batch_loop (dims : list (Z * Z)) (num_output_elements num_input_elements : Z) (out : Vec) : outcome Vec :=
  match dims with
  | [] => Done out
  | (r, b) :: dims =>
      let dim := Z.max r b in
      let incr := if 1 <? b then 0 else num_input_elements in
      match copy_loop (Z.to_nat (i64 ((dim - 1) * num_output_elements))) 0 (Z.to_nat num_output_elements) incr out with
      | Done out => batch_loop dims (i64 (num_output_elements * dim)) (i64 (num_input_elements * r)) out
      | o => o
      end
  end.

Definition ComputeBatchIndices (output_batch_size : Z) (reshape bcast : Vec) : outcome Vec :=
  batch_loop (rev (zip reshape bcast)) 1 1 (replicate (Z.to_nat output_batch_size) 0).

(** ** [BCastList] *)
Record Operand := mkOperand {
  reshape_ : Vec;
  bcast_ : Vec;
  grad_reduce_idx_ : Vec;
  batch_indices_ : Vec
}.

Record BCastList := mkBCast {
  valid_ : bool;
  broadcasting_required_ : bool;
  operands_ : list Operand;
  result_ : Vec;
  output_ : Vec;
  output_batch_size_ : Z
}.

Definition mul_dims (dim1 dim2 : Z) : Z :=
  if negb (dim1 =? 0) && negb (dim2 =? 0) && ((dim1 <? 0) || (dim2 <? 0)) then -1 else i64 (dim1 * dim2).

(** [v.back() = f(v.back())]. *)
Fixpoint set_back (f : Z -> Z) (v : Vec) : Vec :=
  match v with
  | [] => []
  | [x] => [f x]
  | x :: v => x :: set_back f v
  end.

(** One dimension of every operand: which are 1, the common size of the others,
    whether there is one, and whether none is 1.  [None] when two sizes differ.
    The common size is an [int]. *)
Fixpoint find_ones (column : list Z) (output_dim : Z) (output_dim_set none_is_one : bool) :
    option (list bool * Z * bool * bool) :=
  match column with
  | [] => Some ([], output_dim, output_dim_set, none_is_one)
  | d :: column =>
      if d =? 1 then
        '(ones, dim, is_set, none) ← find_ones column output_dim output_dim_set false;
        Some (true :: ones, dim, is_set, none)
      else if negb output_dim_set || (d =? output_dim) then
        '(ones, dim, is_set, none) ← find_ones column (i32 d) true none_is_one;
        Some (false :: ones, dim, is_set, none)
      else None
  end.

Definition push_ones (o : Operand) : Operand :=
  mkOperand (reshape_ o ++ [1]) (bcast_ o ++ [1]) (grad_reduce_idx_ o) (batch_indices_ o).

Definition push_grad (idx : Z) (o : Operand) : Operand :=
  mkOperand (reshape_ o) (bcast_ o) (grad_reduce_idx_ o ++ [idx]) (batch_indices_ o).

(** An operand of size [d] in a dimension where the common size is [output_dim]. *)
Definition extend_last (output_dim idx : Z) (none_is_one : bool) (d : Z) (is_one : bool) (o : Operand) : Operand :=
  let o := mkOperand (set_back (fun r => mul_dims r d) (reshape_ o))
             (set_back (fun b => mul_dims b (if is_one then output_dim else 1)) (bcast_ o))
             (grad_reduce_idx_ o) (batch_indices_ o) in
  if is_one && negb none_is_one then push_grad idx o else o.

Definition push_dim (output_dim idx : Z) (none_is_one : bool) (d : Z) (is_one : bool) (o : Operand) : Operand :=
  let o := mkOperand (reshape_ o ++ [d]) (bcast_ o ++ [if is_one then output_dim else 1])
             (grad_reduce_idx_ o) (batch_indices_ o) in
  if is_one && negb none_is_one then push_grad idx o else o.

(** A step for each operand, its size in the dimension and whether that is 1. *)
Fixpoint each_operand (f : Z -> bool -> Operand -> Operand) (column : list Z) (ones : list bool) (l : list Operand) :
    list Operand :=
  match column, ones, l with
  | d :: column, b :: ones, o :: l => f d b o :: each_operand f column ones l
  | _, _, _ => []
  end.

(** The state of the loop over the dimensions: the object and the two locals
    that survive an iteration. *)
Record LoopState := mkLoop {
  object : BCastList;
  prev_is_one : list bool;
  set_one : bool
}.

Section constructor.
Variable fewer_dims_optimization : bool.
Variable largest_rank : nat.

(** The body of the loop at dimension [j], whose sizes are [column].  [inl] is
    the early return. *)
Definition dim_step (j : nat) (column : list Z) (st : LoopState) : BCastList + LoopState :=
  let o := object st in
  match find_ones column (-1) false true with
  | None => inl (mkBCast false (broadcasting_required_ o) (operands_ o) (result_ o) (output_ o) (output_batch_size_ o))
  | Some (current_is_one, output_dim, output_dim_set, none_is_one) =>
      let dim := if output_dim_set then output_dim else 1 in
      let output := output_ o ++ [dim] in
      let output_batch_size := mul_dims (output_batch_size_ o) dim in
      let idx := Z.of_nat largest_rank - 1 - Z.of_nat j in
      let object ops result := mkBCast (valid_ o) (broadcasting_required_ o) ops result output output_batch_size in
      if negb output_dim_set then
        let ops := if negb fewer_dims_optimization then map push_ones (operands_ o) else operands_ o in
        let result := if negb fewer_dims_optimization then result_ o ++ [1] else result_ o in
        inr (mkLoop (object (map (push_grad idx) ops) result) (prev_is_one st) (set_one st))
      else if fewer_dims_optimization && bool_decide (current_is_one = prev_is_one st) && set_one st then
        inr (mkLoop (object (each_operand (extend_last output_dim idx none_is_one) column current_is_one (operands_ o))
                            (set_back (fun r => mul_dims r output_dim) (result_ o)))
                    current_is_one true)
      else
        inr (mkLoop (object (each_operand (push_dim output_dim idx none_is_one) column current_is_one (operands_ o))
                            (result_ o ++ [output_dim]))
                    current_is_one true)
  end.

(** [copy] are the reversed operands, aligned to [largest_rank]. *)
Fixpoint dims_loop (n j : nat) (copy : list Vec) (st : LoopState) : BCastList + LoopState :=
  match n with
  | O => inr st
  | S n =>
      match dim_step j (map (fun c => nth j c 1) copy) st with
      | inl o => inl o
      | inr st => dims_loop n (S j) copy st
      end
  end.
End constructor.

Definition max_rank (x : list Vec) : nat := fold_left (fun r v => if (r <? length v)%nat then length v else r) x 0%nat.

(** [resize(n, 1)] of a vector that is not longer. *)
Definition one_extend (n : nat) (v : Vec) : Vec := v ++ replicate (n - length v) 1.

Definition empty_operand : Operand := mkOperand [] [] [] [].

Definition reverse_operand (o : Operand) : Operand :=
  mkOperand (rev (reshape_ o)) (rev (bcast_ o)) (rev (grad_reduce_idx_ o)) (batch_indices_ o).

Fixpoint compute_batches (size : Z) (l : list Operand) : outcome (list Operand) :=
  match l with
  | [] => Done []
  | o :: l =>
      match ComputeBatchIndices size (reshape_ o) (bcast_ o) with
      | Done v =>
          match compute_batches size l with
          | Done l => Done (mkOperand (reshape_ o) (bcast_ o) (grad_reduce_idx_ o) v :: l)
          | Crash => Crash
          | OutOfFuel => OutOfFuel
          end
      | Crash => Crash
      | OutOfFuel => OutOfFuel
      end
  end.

(** What follows the loop: the scalar case, the reversals and the batches. *)
Definition finish (return_flattened_batch_indices : bool) (o : BCastList) : outcome BCastList :=
  let scalar := match result_ o with [] => true | _ => false end in
  let result := if scalar then [1] else result_ o in
  let ops := if scalar then map push_ones (operands_ o) else operands_ o in
  let ops := map reverse_operand ops in
  let object ops :=
    mkBCast (valid_ o) (broadcasting_required_ o) ops (rev result) (rev (output_ o)) (output_batch_size_ o) in
  if return_flattened_batch_indices && broadcasting_required_ o && (0 <? output_batch_size_ o) then
    match compute_batches (output_batch_size_ o) ops with
    | Done ops => Done (object ops)
    | Crash => Crash
    | OutOfFuel => OutOfFuel
    end
  else Done (object ops).

Definition BCastList_new (x : list Vec) (fewer_dims_optimization return_flattened_batch_indices : bool) : outcome BCastList :=
  let x0 := nth 0 x [] in
  let all_equal := forallb (fun v => bool_decide (v = x0)) x in
  let largest_rank := max_rank x in
  if all_equal && fewer_dims_optimization then
    let elements := fold_left mul_dims x0 1 in
    Done (mkBCast true false (map (fun _ => mkOperand [elements] [1] [] []) x) [elements] x0 elements)
  else
    let copy := map (fun v => one_extend largest_rank (rev v)) x in
    let start := mkBCast true (negb all_equal) (map (fun _ => empty_operand) x) [] [] 1 in
    match dims_loop fewer_dims_optimization largest_rank largest_rank 0 copy (mkLoop start (map (fun _ => false) x) false) with
    | inl o => Done o
    | inr st => finish return_flattened_batch_indices (object st)
    end.

(** ** [BCast]: two operands *)
Definition BCast (x y : Vec) (fewer_dims_optimization return_flattened_batch_indices : bool) : outcome BCastList :=
  BCastList_new [x; y] fewer_dims_optimization return_flattened_batch_indices.

Definition operand (i : nat) (o : BCastList) : Operand := nth i (operands_ o) empty_operand.

Definition reshape (i : nat) (o : BCastList) : Vec := reshape_ (operand i o).

Definition bcast (i : nat) (o : BCastList) : Vec := bcast_ (operand i o).

Definition grad_reduce_idx (i : nat) (o : BCastList) : Vec := grad_reduce_idx_ (operand i o).

Definition batch_indices (i : nat) (o : BCastList) : Vec := batch_indices_ (operand i o).

(** [CHECK_EQ(vec.size(), NDIMS)]; every element is converted to [IndexType],
    a signed integer of [index_bits] bits. *)
Definition ToIndexArrayType (index_bits : Z) (NDIMS : nat) (vec : Vec) : outcome Vec :=
  if (length vec =? NDIMS)%nat then Done (map (swrap index_bits) vec) else Crash.

(** The index type is [Eigen::DenseIndex], 64 bits wide. *)
Definition ToIndexArray (NDIMS : nat) (vec : Vec) : outcome Vec := ToIndexArrayType 64 NDIMS vec.

(** Sizes that fit the index type are not changed. *)
Lemma ToIndexArrayType_fits index_bits vec :
  0 < index_bits -> Forall (fun d => 0 <= d < 2 ^ (index_bits - 1)) vec ->
  ToIndexArrayType index_bits (length vec) vec = Done vec.
Proof.
  intros Hw Hv. unfold ToIndexArrayType. rewrite Nat.eqb_refl. f_equal.
  rewrite <-(map_id vec) at 2. apply map_ext_in. intros d Hd%list_elem_of_In.
  rewrite Forall_forall in Hv. specialize (Hv d Hd). apply swrap_small; lia.
Qed.

(** [sizes_from] is the loop over [dim_size]. *)
Definition FromShape (shape : TensorShapeRep) : outcome Vec := sizes_from false (Z.to_nat (dims false shape)) shape 0.

(** A [TensorShape] built in fresh storage [raw]. *)
Definition ToShape (vec : Vec) (raw : TensorShapeRep) : outcome TensorShapeRep :=
  match TensorShapeBase_sizes false vec raw with
  | Done (_, s) => Done s
  | Crash => Crash
  | OutOfFuel => OutOfFuel
  end.

(** * Which element of an operand an output element reads

    The specification of broadcasting: a tensor in row-major order is read with
    one index per dimension, the innermost first.  [tile] is the element that
    [reshape] and [broadcast] read, [np_index] the one of the broadcasting rule.
    A list of pairs of a size and a number of repetitions can be shortened
    without changing [tile]. *)

Definition prodZ (l : list Z) : Z := foldr Z.mul 1 l.

(** A dimension of size [r] repeated [b] times has [r * b] positions, and
    position [c] of it reads [c mod r]. *)
Fixpoint tile (l : list (Z * Z)) (i : Z) : Z :=
  match l with
  | [] => 0
  | (r, b) :: l => (i mod (r * b)) mod r + r * tile l (i / (r * b))
  end.

(** The broadcasting rule: a dimension of size 1 is read at 0, another one at
    the output's index.  [x] and [out] are innermost first. *)
Fixpoint np_index_rev (x out : Vec) (i : Z) : Z :=
  match x, out with
  | d :: x, o :: out => (if d =? 1 then 0 else i mod o) + d * np_index_rev x out (i / o)
  | _, _ => 0
  end.

Definition np_index (x out : Vec) (i : Z) : Z := np_index_rev (rev x) (rev out) i.

(** The common size of one dimension of all operands. *)
Definition join_dims (column : list Z) : option Z :=
  match filter (fun d => d <> 1) column with
  | [] => Some 1
  | o :: l => if forallb (fun d => d =? o) l then Some o else None
  end.

(** Size [j] from the innermost dimension on; 1 past the outermost. *)
Definition dim_at (j : nat) (x : Vec) : Z := nth j (rev x) 1.

Definition column (j : nat) (xs : list Vec) : list Z := map (dim_at j) xs.

(** The shape of the result, if the shapes are compatible. *)
Definition np_shape (xs : list Vec) : option Vec :=
  option_map (@rev Z) (mapM (fun j => join_dims (column j xs)) (seq 0 (max_rank xs))).

(** ** Sizes *)
Definition rsize (l : list (Z * Z)) : Z := prodZ (map fst l).

Definition psize (l : list (Z * Z)) : Z := prodZ (map (fun p => p.1 * p.2) l).

Definition all_pos (l : list (Z * Z)) : Prop := Forall (fun p => 0 < p.1 /\ 0 < p.2) l.

Definition nonneg (l : list (Z * Z)) : Prop := Forall (fun p => 0 <= p.1 /\ 0 <= p.2) l.

Lemma prodZ_app a b : prodZ (a ++ b) = prodZ a * prodZ b.
Proof. induction a as [|x a IH]; simpl; [lia|]. rewrite IH. lia. Qed.

Lemma prodZ_pos l : Forall (fun x => 0 < x) l -> 0 < prodZ l.
Proof. induction 1; simpl; nia. Qed.

Lemma prodZ_nonneg l : Forall (fun x => 0 <= x) l -> 0 <= prodZ l.
Proof. induction 1; simpl; nia. Qed.

Lemma rsize_app a b : rsize (a ++ b) = rsize a * rsize b.
Proof. unfold rsize. by rewrite map_app, prodZ_app. Qed.

Lemma psize_app a b : psize (a ++ b) = psize a * psize b.
Proof. unfold psize. by rewrite map_app, prodZ_app. Qed.

Lemma rsize_one r b : rsize [(r, b)] = r.
Proof. unfold rsize, prodZ. simpl. lia. Qed.

Lemma psize_one r b : psize [(r, b)] = r * b.
Proof. unfold psize, prodZ. simpl. lia. Qed.

Lemma psize_pos l : all_pos l -> 0 < psize l.
Proof. intros H. apply prodZ_pos, Forall_map. eapply Forall_impl; [exact H|]. intros []; simpl; nia. Qed.

Lemma rsize_pos l : all_pos l -> 0 < rsize l.
Proof. intros H. apply prodZ_pos, Forall_map. eapply Forall_impl; [exact H|]. intros []; simpl; nia. Qed.

Lemma psize_nonneg l : nonneg l -> 0 <= psize l.
Proof. intros H. apply prodZ_nonneg, Forall_map. eapply Forall_impl; [exact H|]. intros []; simpl; nia. Qed.

Lemma psize_positive l : nonneg l -> 0 < psize l -> all_pos l.
Proof.
  induction 1 as [|[r b] l [Hr Hb] Hl IH]; intros Hp; [constructor|]. unfold psize in *. simpl in *.
  assert (0 <= psize l) by (by apply psize_nonneg). unfold psize, prodZ in *. simpl in *.
  constructor; [simpl; nia|]. apply IH. nia.
Qed.

(** ** [tile] *)
Lemma tile_app l1 : forall l2 i, all_pos l1 -> all_pos l2 ->
  tile (l1 ++ l2) i = tile l1 i + rsize l1 * tile l2 (i / psize l1).
Proof.
  induction l1 as [|[r b] l1 IH]; intros l2 i H1 H2.
  { unfold rsize, psize, prodZ. simpl. rewrite Z.div_1_r. lia. }
  inversion_clear H1 as [|? ? [Hr Hb] H1']. simpl in Hr, Hb. cbn [app tile]. rewrite IH by done.
  pose proof (psize_pos l1 H1'). rewrite Z.div_div by nia.
  assert (psize ((r, b) :: l1) = r * b * psize l1) as -> by done.
  assert (rsize ((r, b) :: l1) = r * rsize l1) as -> by done. lia.
Qed.

(** Positions one period apart read the same element. *)
Lemma tile_period l : forall i q, all_pos l -> tile l (i + q * psize l) = tile l i.
Proof.
  induction l as [|[r b] l IH]; intros i q Hl; [done|]. inversion_clear Hl as [|? ? [Hr Hb] Hl']. simpl in Hr, Hb.
  cbn [tile]. assert (psize ((r, b) :: l) = r * b * psize l) as -> by done.
  replace (i + q * (r * b * psize l)) with (i + q * psize l * (r * b)) by lia.
  rewrite Z_mod_plus_full, Z.div_add, IH by (nia || done). done.
Qed.

Lemma tile_range l : forall i, all_pos l -> 0 <= tile l i < rsize l.
Proof.
  induction l as [|[r b] l IH]; intros i Hl; [done|]. inversion_clear Hl as [|? ? [Hr Hb] Hl']. simpl in Hr, Hb.
  cbn [tile]. assert (rsize ((r, b) :: l) = r * rsize l) as -> by done.
  pose proof (IH (i / (r * b)) Hl'). pose proof (Z.mod_pos_bound (i mod (r * b)) r Hr). nia.
Qed.

Lemma tile_snoc l r b i : all_pos l -> 0 < r -> 0 < b ->
  tile (l ++ [(r, b)]) i = tile l i + rsize l * (((i / psize l) mod (r * b)) mod r).
Proof. intros Hl Hr Hb. rewrite tile_app by (done || by repeat constructor). cbn [tile]. lia. Qed.

Lemma mod_mod_mul i r b : 0 < r -> 0 < b -> (i mod (r * b)) mod r = i mod r.
Proof.
  intros Hr Hb. rewrite Z.rem_mul_r by lia. by rewrite Z.mul_comm, Z_mod_plus_full, Z.mod_mod by lia.
Qed.

(** Two adjacent dimensions that are both repeated, or both not, are one. *)
Lemma tile_merge r1 b1 r2 b2 i : 0 < r1 -> 0 < b1 -> 0 < r2 -> 0 < b2 -> (r1 = 1 /\ r2 = 1 \/ b1 = 1 /\ b2 = 1) ->
  tile [(r1, b1); (r2, b2)] i = tile [(r1 * r2, b1 * b2)] i.
Proof.
  intros Hr1 Hb1 Hr2 Hb2 H. cbn [tile]. rewrite !mod_mod_mul by nia. destruct H as [[-> ->]|[-> ->]].
  - by rewrite !Z.mod_1_r.
  - rewrite !Z.mul_1_r. rewrite Z.rem_mul_r by lia. lia.
Qed.

(** ** Lists of dimensions that read the same *)
Definition equiv_dims (l p : list (Z * Z)) : Prop :=
  rsize l = rsize p /\ psize l = psize p /\ (all_pos p -> forall i, tile l i = tile p i).

Lemma equiv_nil : equiv_dims [] [].
Proof. done. Qed.

Lemma positive_snoc l x : all_pos (l ++ [x]) <-> all_pos l /\ 0 < x.1 /\ 0 < x.2.
Proof. unfold all_pos. rewrite Forall_app, Forall_singleton. done. Qed.

Lemma equiv_positive l p : nonneg l -> equiv_dims l p -> all_pos p -> all_pos l.
Proof. intros Hn (_ & Hp & _) Hpp. apply psize_positive; [done|]. rewrite Hp. by apply psize_pos. Qed.

Lemma equiv_snoc l p x : nonneg l -> equiv_dims l p -> equiv_dims (l ++ [x]) (p ++ [x]).
Proof.
  intros Hn He. pose proof He as (Hr & Hp & Ht). unfold equiv_dims. rewrite !rsize_app, !psize_app, Hr, Hp.
  split_and!; [done|done|]. intros [Hpp [? ?]]%positive_snoc i. destruct x as [r b]; simpl in *.
  rewrite !tile_snoc by (done || by eapply equiv_positive). by rewrite Ht, Hr, Hp.
Qed.

Lemma equiv_one_r l p : nonneg l -> equiv_dims l p -> equiv_dims l (p ++ [(1, 1)]).
Proof.
  intros Hn (Hr & Hp & Ht). unfold equiv_dims. rewrite rsize_app, psize_app, rsize_one, psize_one.
  split_and!; [lia|lia|]. intros [Hpp _]%positive_snoc i. rewrite tile_snoc by (done || lia). rewrite Z.mod_1_r, Ht by done. lia.
Qed.

Lemma equiv_one_l l p : nonneg l -> equiv_dims l p -> equiv_dims (l ++ [(1, 1)]) p.
Proof.
  intros Hn He. pose proof He as (Hr & Hp & Ht). unfold equiv_dims. rewrite rsize_app, psize_app, rsize_one, psize_one.
  split_and!; [lia|lia|]. intros Hpp i. rewrite tile_snoc by (lia || by eapply equiv_positive). rewrite Z.mod_1_r, Ht by done. lia.
Qed.

Lemma equiv_merge l p r1 b1 r2 b2 : nonneg (l ++ [(r1, b1)]) -> equiv_dims (l ++ [(r1, b1)]) p ->
  (r1 = 1 /\ r2 = 1 \/ b1 = 1 /\ b2 = 1) ->
  equiv_dims (l ++ [(r1 * r2, b1 * b2)]) (p ++ [(r2, b2)]).
Proof.
  intros Hn He Hc. pose proof (equiv_snoc _ _ (r2, b2) Hn He) as (Hr & Hp & Ht). unfold equiv_dims.
  rewrite <- Hr, <- Hp. rewrite !rsize_app, !psize_app, !rsize_one, !psize_one. split_and!; [lia|lia|].
  intros Hpp i. rewrite <- Ht by done. apply positive_snoc in Hpp as [Hpp [Hr2 Hb2]]. simpl in Hr2, Hb2.
  pose proof (equiv_positive _ _ Hn He Hpp) as [Hl [Hr1 Hb1]]%positive_snoc. simpl in Hr1, Hb1.
  rewrite <- (assoc_L (++)). cbn [app]. rewrite !tile_app by (done || (repeat constructor; simpl; nia)).
  by rewrite <- tile_merge.
Qed.

(** ** The broadcasting rule as repetitions *)
Definition dims_of (c out : Vec) : list (Z * Z) := zip_with (fun d o => (d, if d =? 1 then o else 1)) c out.

Lemma np_index_tile c : forall out i, Forall2 (fun d o => (d = 1 \/ d = o) /\ 0 < o) c out ->
  np_index_rev c out i = tile (dims_of c out) i.
Proof.
  intros out i H. revert i. induction H as [|d o c out [Hd Ho] _ IH]; intros i; [done|]. cbn.
  rewrite mod_mod_mul by (destruct (Z.eqb_spec d 1); lia).
  destruct (Z.eqb_spec d 1) as [->|].
  - by rewrite Z.mod_1_r, !Z.mul_1_l, IH.
  - assert (d = o) as -> by tauto. by rewrite Z.mul_1_r, IH.
Qed.

Lemma dims_of_psize c : forall out, Forall2 (fun d o => d = 1 \/ d = o) c out -> psize (dims_of c out) = prodZ out.
Proof.
  induction 1 as [|d o c out Hd _ IH]; [done|].
  change (psize (dims_of (d :: c) (o :: out))) with (d * (if d =? 1 then o else 1) * psize (dims_of c out)).
  change (prodZ (o :: out)) with (o * prodZ out). rewrite IH.
  destruct (Z.eqb_spec d 1) as [->|]; [lia|]. assert (d = o) by tauto. lia.
Qed.

Lemma dims_of_rsize c : forall out, length c = length out -> rsize (dims_of c out) = prodZ c.
Proof. unfold rsize. induction c as [|d c IH]; intros [|o out] H; simpl in *; try done. rewrite IH; lia. Qed.

(** * Lemmas on broadcasting: the loop over the dimensions

    For compatible shapes with sizes that fit an [int], every step of the loop
    keeps, for each operand, a list of dimensions that reads the same elements
    as the operand's own dimensions under the broadcasting rule. *)

Lemma mul_dims_small a b : 0 <= a -> 0 <= b -> a * b < 2 ^ 63 -> mul_dims a b = a * b.
Proof.
  intros Ha Hb Hab. unfold mul_dims. rewrite (proj2 (Z.ltb_ge a 0)), (proj2 (Z.ltb_ge b 0)), andb_false_r by done.
  apply i64_small. unfold in_i64. nia.
Qed.

Lemma set_back_snoc f v x : set_back f (v ++ [x]) = v ++ [f x].
Proof.
  induction v as [|y v IH]; [done|]. cbn [app set_back]. rewrite IH. by destruct (v ++ [x]) eqn:E; [destruct v|].
Qed.

(** ** One dimension *)
Definition is_one (d : Z) : bool := d =? 1.

Lemma find_ones_set col : forall dim none, Forall (fun d => - 2 ^ 31 <= d < 2 ^ 31) col ->
  find_ones col dim true none =
  if forallb (fun d => is_one d || (d =? dim)) col
  then Some (map is_one col, dim, true, none && forallb (fun d => negb (is_one d)) col) else None.
Proof.
  induction col as [|d col IH]; intros dim none Hc; simpl; [by rewrite andb_true_r|]. inversion_clear Hc as [|? ? Hd Hc'].
  unfold is_one in *. destruct (Z.eqb_spec d 1) as [->|]; simpl.
  - rewrite IH by done. destruct (forallb (fun d => _ || _) col); simpl; [|done]. by rewrite andb_false_r.
  - destruct (Z.eqb_spec d dim) as [->|]; simpl; [|done]. rewrite i32_small, IH by done. by destruct (forallb (fun d => _ || _) col).
Qed.

Lemma forallb_join o col :
  forallb (fun d => is_one d || (d =? o)) col = forallb (fun d => d =? o) (filter (fun d => d <> 1) col).
Proof.
  induction col as [|d col IH]; [done|]. rewrite filter_cons. unfold is_one in *. simpl.
  destruct (Z.eqb_spec d 1) as [->|]; [by rewrite decide_False by naive_solver|rewrite decide_True by done]. simpl. by rewrite IH.
Qed.

Lemma find_ones_spec col : forall none, Forall (fun d => - 2 ^ 31 <= d < 2 ^ 31) col ->
  find_ones col (-1) false none =
  match join_dims col with
  | None => None
  | Some o =>
      let ones := forallb is_one col in
      Some (map is_one col, if ones then -1 else o, negb ones, none && forallb (fun d => negb (is_one d)) col)
  end.
Proof.
  induction col as [|d col IH]; intros none Hc; simpl; [by rewrite andb_true_r|]. inversion_clear Hc as [|? ? Hd Hc'].
  unfold join_dims in *. rewrite filter_cons. unfold is_one in *. destruct (Z.eqb_spec d 1) as [->|].
  - rewrite decide_False by naive_solver. simpl. rewrite IH by done. destruct (match filter _ _ with [] => _ | _ => _ end); simpl; [|done].
    by rewrite andb_false_r.
  - rewrite decide_True by done. simpl. rewrite find_ones_set, i32_small by done. unfold is_one. rewrite forallb_join.
    by destruct (forallb _ (filter _ _)).
Qed.

Lemma join_member col o d : join_dims col = Some o -> d ∈ col -> d = 1 \/ d = o.
Proof.
  unfold join_dims. intros Hj Hd. destruct (decide (d = 1)); [by left|right].
  assert (d ∈ filter (fun d => d <> 1) col) as Hf by (by apply list_elem_of_filter).
  destruct (filter _ col) as [|e l]; [by apply not_elem_of_nil in Hf|]. destruct (forallb _ l) eqn:E; simplify_eq.
  apply elem_of_cons in Hf as [->|Hl]; [done|]. rewrite forallb_forall in E. apply Z.eqb_eq, E. by apply list_elem_of_In.
Qed.

Lemma join_ones col o : join_dims col = Some o -> forallb is_one col = true -> o = 1.
Proof.
  unfold join_dims. intros Hj Ho. assert (filter (fun d => d <> 1) col = []) as E; [|rewrite E in Hj; by simplify_eq].
  induction col as [|d col IH]; [done|]. simpl in Ho. apply andb_prop in Ho as [Hd Ho]. apply Z.eqb_eq in Hd as ->.
  rewrite filter_cons, decide_False by naive_solver. apply IH; [|done]. by rewrite filter_cons, decide_False in Hj by naive_solver.
Qed.

Lemma join_not_ones col o : join_dims col = Some o -> forallb is_one col = false -> o ∈ col /\ o <> 1.
Proof.
  unfold join_dims. intros Hj Ho. destruct (filter (fun d => d <> 1) col) as [|e l] eqn:E.
  - exfalso. assert (forallb is_one col = true) as H; [|by rewrite Ho in H]. apply forallb_forall. intros d Hd.
    apply Z.eqb_eq. destruct (decide (d = 1)); [done|]. exfalso. assert (d ∈ filter (fun d => d <> 1) col) as Hf
      by (apply list_elem_of_filter; split; [done|by apply list_elem_of_In]). rewrite E in Hf. by apply not_elem_of_nil in Hf.
  - destruct (forallb _ l); simplify_eq. assert (o ∈ filter (fun d => d <> 1) col) as Hf by (rewrite E; left).
    apply list_elem_of_filter in Hf. tauto.
Qed.

(** ** One operand *)
Definition grad_of (rank : nat) (c : Vec) : Vec :=
  concat (imap (fun j d => if is_one d then [Z.of_nat rank - 1 - Z.of_nat j] else []) c).

Lemma grad_of_snoc rank c d :
  grad_of rank (c ++ [d]) = grad_of rank c ++ (if is_one d then [Z.of_nat rank - 1 - Z.of_nat (length c)] else []).
Proof. unfold grad_of. rewrite imap_app, concat_app. simpl. by rewrite Nat.add_0_r, app_nil_r. Qed.

(** Operand [o] after the dimensions [c], with the output's [out], the result's
    [res], every size up to [B]; [p] tells what the last dimension did. *)
Record op_inv (rank : nat) (B : Z) (c out res : Vec) (set p : bool) (o : Operand) : Prop := {
  inv_dims : exists l, reshape_ o = map fst l /\ bcast_ o = map snd l /\ res = map (fun q => q.1 * q.2) l /\
    Forall (fun q => (q.1 = 1 \/ q.2 = 1) /\ 0 <= q.1 <= B /\ 0 <= q.2 <= B) l /\
    equiv_dims l (dims_of c out) /\
    (set = true -> exists l' r b, l = l' ++ [(r, b)] /\ (if p then r = 1 else b = 1));
  inv_grad : grad_reduce_idx_ o = grad_of rank c;
  inv_batch : batch_indices_ o = []
}.

Lemma dims_of_snoc c out d o : length c = length out ->
  dims_of (c ++ [d]) (out ++ [o]) = dims_of c out ++ [(d, if is_one d then o else 1)].
Proof. intros H. unfold dims_of. by rewrite zip_with_app. Qed.

Lemma pair_bound_mono B B' l : B <= B' ->
  Forall (fun q : Z * Z => (q.1 = 1 \/ q.2 = 1) /\ 0 <= q.1 <= B /\ 0 <= q.2 <= B) l ->
  Forall (fun q : Z * Z => (q.1 = 1 \/ q.2 = 1) /\ 0 <= q.1 <= B' /\ 0 <= q.2 <= B') l.
Proof. intros HB H. eapply Forall_impl; [exact H|]. intros []; simpl. lia. Qed.

Lemma pair_nonneg B l : Forall (fun q : Z * Z => (q.1 = 1 \/ q.2 = 1) /\ 0 <= q.1 <= B /\ 0 <= q.2 <= B) l -> nonneg l.
Proof. intros H. eapply Forall_impl; [exact H|]. intros []; simpl. lia. Qed.

Section operand.
Context (rank : nat) (B : Z) (c out res : Vec) (set p : bool) (o : Operand).
Hypothesis Hinv : op_inv rank B c out res set p o.
Hypothesis Hlen : length c = length out.
Hypothesis HB : 1 <= B.

Lemma op_inv_mono B' : B <= B' -> op_inv rank B' c out res set p o.
Proof using All.
  intros HBB. destruct Hinv as [(l & Hr & Hb & Hres & Hl & He & Hlast) Hg Hbt]. split; [|done..].
  exists l. split_and!; try done. by eapply pair_bound_mono.
Qed.

Lemma op_ones_skip idx : idx = Z.of_nat rank - 1 - Z.of_nat (length c) ->
  op_inv rank B (c ++ [1]) (out ++ [1]) res set p (push_grad idx o).
Proof using All.
  intros ->. destruct Hinv as [(l & Hr & Hb & Hres & Hl & He & Hlast) Hg Hbt]. split; [|by simpl; rewrite Hg, grad_of_snoc|done].
  exists l. split_and!; try done. rewrite dims_of_snoc by done. apply equiv_one_r; [by eapply pair_nonneg|done].
Qed.

Lemma op_ones_push idx : idx = Z.of_nat rank - 1 - Z.of_nat (length c) ->
  op_inv rank B (c ++ [1]) (out ++ [1]) (res ++ [1]) set p (push_grad idx (push_ones o)).
Proof using All.
  intros ->. destruct Hinv as [(l & Hr & Hb & Hres & Hl & He & Hlast) Hg Hbt]. split; [|by simpl; rewrite Hg, grad_of_snoc|done].
  exists (l ++ [(1, 1)]). simpl. rewrite !map_app, Hr, Hb, Hres. split_and!; try done.
  - apply Forall_app. split; [done|]. repeat constructor; simpl; lia.
  - rewrite dims_of_snoc by done. apply equiv_snoc; [by eapply pair_nonneg|done].
  - intros _. exists l, 1, 1. split; [done|]. by destruct p.
Qed.

Lemma op_push B' d e idx none : idx = Z.of_nat rank - 1 - Z.of_nat (length c) -> (d = 1 \/ d = e) -> 0 <= d <= B' -> 0 <= e <= B' ->
  B <= B' -> (is_one d = true -> none = false) ->
  op_inv rank B' (c ++ [d]) (out ++ [e]) (res ++ [e]) true (is_one d) (push_dim e idx none d (is_one d) o).
Proof using All.
  intros -> Hd HdB HeB HBB Hnone. destruct Hinv as [(l & Hr & Hb & Hres & Hl & He & Hlast) Hg Hbt].
  assert (Hfields : forall o', reshape_ o' = reshape_ o ++ [d] -> bcast_ o' = bcast_ o ++ [if is_one d then e else 1] ->
    grad_reduce_idx_ o' = grad_of rank (c ++ [d]) -> batch_indices_ o' = [] ->
    op_inv rank B' (c ++ [d]) (out ++ [e]) (res ++ [e]) true (is_one d) o').
  { intros o' Hr' Hb' Hg' Hbt'. split; [|done|done]. exists (l ++ [(d, if is_one d then e else 1)]).
    rewrite !map_app, Hr', Hb', Hr, Hb, Hres. simpl. unfold is_one in *. split_and!; try done.
    - do 2 f_equal. destruct (Z.eqb_spec d 1); lia.
    - apply Forall_app. split; [by eapply pair_bound_mono|]. apply Forall_singleton. simpl. destruct (Z.eqb_spec d 1); lia.
    - rewrite dims_of_snoc by done. apply equiv_snoc; [by eapply pair_nonneg|done].
    - intros _. exists l, d, (if d =? 1 then e else 1). split; [done|]. destruct (Z.eqb_spec d 1); lia. }
  unfold push_dim. destruct (is_one d) eqn:Eo; simpl.
  - rewrite Hnone by done. simpl. apply Hfields; try done. simpl. by rewrite Hg, grad_of_snoc, Eo.
  - apply Hfields; try done. simpl. by rewrite Hg, grad_of_snoc, Eo, app_nil_r.
Qed.

Lemma op_extend B' d e idx none : idx = Z.of_nat rank - 1 - Z.of_nat (length c) -> (d = 1 \/ d = e) -> 0 <= d -> 0 <= e ->
  B * Z.max 1 e <= B' -> B' < 2 ^ 63 -> (is_one d = true -> none = false) -> set = true -> p = is_one d ->
  op_inv rank B' (c ++ [d]) (out ++ [e]) (set_back (fun r => mul_dims r e) res) true (is_one d) (extend_last e idx none d (is_one d) o).
Proof using All.
  intros -> Hd Hd0 He0 HBB HB' Hnone Hset Hp. destruct Hinv as [(l0 & Hr & Hb & Hres & Hl & He & Hlast) Hg Hbt].
  destruct (Hlast Hset) as (l & r & b & -> & Hrb). pose proof (pair_nonneg _ _ Hl) as Hnn.
  apply Forall_app in Hl as [Hl Hq]. inversion_clear Hq as [|? ? (_ & Hrr & Hbb) _]. simpl in Hrr, Hbb.
  assert (Hm : (r = 1 /\ d = 1 \/ b = 1 /\ (if is_one d then e else 1) = 1)).
  { rewrite Hp in Hrb. unfold is_one in *. destruct (Z.eqb_spec d 1); auto. }
  assert (Hcase : mul_dims r d = r * d /\ mul_dims b (if is_one d then e else 1) = b * (if is_one d then e else 1) /\
    mul_dims (r * b) e = r * d * (b * (if is_one d then e else 1)) /\
    0 <= r * d <= B' /\ 0 <= b * (if is_one d then e else 1) <= B' /\
    (r * d = 1 \/ b * (if is_one d then e else 1) = 1)).
  { unfold is_one in *. destruct (Z.eqb_spec d 1) as [->|].
    - rewrite !mul_dims_small; nia.
    - assert (d = e) as -> by tauto. rewrite !mul_dims_small; destruct Hm as [[? ?]|[-> _]]; lia || nia. }
  destruct Hcase as (E1 & E2 & E3 & B1 & B2 & Hor).
  assert (Hfields : forall o', reshape_ o' = set_back (fun r => mul_dims r d) (reshape_ o) ->
    bcast_ o' = set_back (fun b => mul_dims b (if is_one d then e else 1)) (bcast_ o) ->
    grad_reduce_idx_ o' = grad_of rank (c ++ [d]) -> batch_indices_ o' = [] ->
    op_inv rank B' (c ++ [d]) (out ++ [e]) (set_back (fun r => mul_dims r e) res) true (is_one d) o').
  { intros o' Hr' Hb' Hg' Hbt'. split; [|done|done]. exists (l ++ [(r * d, b * (if is_one d then e else 1))]).
    rewrite Hr', Hb', Hr, Hb, Hres, !map_app. simpl. rewrite !set_back_snoc, E1, E2, E3. split_and!; try done.
    - apply Forall_app. split; [eapply pair_bound_mono; [|exact Hl]; nia|]. by apply Forall_singleton.
    - rewrite dims_of_snoc by done. by apply equiv_merge.
    - intros _. do 3 eexists. split; [done|]. rewrite Hp in Hrb. unfold is_one in *. destruct (Z.eqb_spec d 1); lia. }
  unfold extend_last. destruct (is_one d) eqn:Eo; simpl.
  - rewrite Hnone by done. simpl. apply Hfields; try done. simpl. by rewrite Hg, grad_of_snoc, Eo.
  - apply Hfields; try done. simpl. by rewrite Hg, grad_of_snoc, Eo, app_nil_r.
Qed.
End operand.

(** * Lemmas on broadcasting: the constructor

    The invariant of the loop over the dimensions, the early return, and the
    object that is left for compatible shapes. *)

Definition dims_prefix (j : nat) (x : Vec) : Vec := map (fun k => dim_at k x) (seq 0 j).

Lemma dims_prefix_S j x : dims_prefix (S j) x = dims_prefix j x ++ [dim_at j x].
Proof. unfold dims_prefix. by rewrite seq_S, map_app. Qed.

Lemma dims_prefix_length j x : length (dims_prefix j x) = j.
Proof. unfold dims_prefix. by rewrite length_map, length_seq. Qed.

Lemma dim_at_range j x : Forall (fun d => 0 <= d < 2 ^ 31) x -> 0 <= dim_at j x < 2 ^ 31.
Proof.
  intros Hx. unfold dim_at. destruct (nth_in_or_default j (rev x) 1) as [H| ->]; [|done].
  rewrite Forall_forall in Hx. apply Hx. apply list_elem_of_In. by apply in_rev.
Qed.

Lemma column_range j xs : Forall (Forall (fun d => 0 <= d < 2 ^ 31)) xs -> Forall (fun d => 0 <= d < 2 ^ 31) (column j xs).
Proof. intros H. apply Forall_map. eapply Forall_impl; [exact H|]. intros x. apply dim_at_range. Qed.

Lemma aligned_column j rank xs : map (fun c => nth j c 1) (map (fun v => one_extend rank (rev v)) xs) = column j xs.
Proof.
  unfold column. rewrite map_map. apply map_ext. intros v. unfold one_extend, dim_at.
  destruct (le_lt_dec (length (rev v)) j) as [H|H]; [|by rewrite app_nth1].
  rewrite app_nth2, (nth_overflow (rev v)) by lia. rewrite nth_lookup.
  destruct (replicate _ _ !! _) eqn:E; [|done]. by apply lookup_replicate in E as [-> _].
Qed.

Lemma each_operand_inv {A} (P Q : A -> bool -> Operand -> Prop) f (d : A -> Z) xs prev ops :
  Forall3 P xs prev ops ->
  (forall x p o, x ∈ xs -> P x p o -> Q x (is_one (d x)) (f (d x) (is_one (d x)) o)) ->
  Forall3 Q xs (map is_one (map d xs)) (each_operand f (map d xs) (map is_one (map d xs)) ops).
Proof.
  induction 1 as [|x p o xs prev ops HP _ IH]; intros HQ; simpl; constructor.
  - apply (HQ x p o); [left|done].
  - apply IH. intros y q o' Hy. apply HQ. by right.
Qed.

Lemma Forall3_weaken {A B C} (P Q : A -> B -> C -> Prop) xs ys zs :
  Forall3 P xs ys zs -> (forall x y z, x ∈ xs -> P x y z -> Q x y z) -> Forall3 Q xs ys zs.
Proof.
  induction 1 as [|x y z xs ys zs HP _ IH]; intros HQ; constructor; [apply HQ; [left|done]|].
  apply IH. intros x' y' z' Hx. apply HQ. by right.
Qed.

Lemma Forall3_map_r {A B C D} (P : A -> B -> D -> Prop) (f : C -> D) xs ys zs :
  Forall3 (fun x y z => P x y (f z)) xs ys zs -> Forall3 P xs ys (map f zs).
Proof. induction 1; simpl; by constructor. Qed.

(** The previous flags are those of this dimension. *)
Lemma Forall3_flags {A C} (P : A -> bool -> C -> Prop) (g : A -> bool) xs zs :
  Forall3 P xs (map g xs) zs -> Forall3 (fun x p z => p = g x /\ P x p z) xs (map g xs) zs.
Proof.
  revert zs. induction xs as [|x xs IH]; intros zs H; inversion_clear H; simpl; constructor; [done|]. by apply IH.
Qed.

Lemma prodZ_max_ge l : 1 <= prodZ (map (Z.max 1) l).
Proof.
  induction l as [|a l IH]; [unfold prodZ; simpl; lia|]. change (1 <= Z.max 1 a * prodZ (map (Z.max 1) l)).
  pose proof (Z.le_max_l 1 a). nia.
Qed.

Lemma prodZ_bound l : Forall (fun d => 0 <= d) l -> 0 <= prodZ l <= prodZ (map (Z.max 1) l).
Proof.
  induction 1 as [|d l Hd Hl IH]; [done|]. change (0 <= d * prodZ l <= Z.max 1 d * prodZ (map (Z.max 1) l)).
  pose proof (Z.le_max_r 1 d). nia.
Qed.

Section loop.
Context (fewer br : bool) (xs : list Vec) (outs : Vec).
Let rank := max_rank xs.
Hypothesis Hlen : length outs = rank.
Hypothesis Hjoin : forall j, (j < rank)%nat -> join_dims (column j xs) = Some (nth j outs 0).
Hypothesis Hrange : Forall (Forall (fun d => 0 <= d < 2 ^ 31)) xs.
Hypothesis Hbound : prodZ (map (Z.max 1) outs) < 2 ^ 63.

Definition bound (j : nat) : Z := prodZ (map (Z.max 1) (take j outs)).

Record loop_inv (j : nat) (st : LoopState) : Prop := {
  li_valid : valid_ (object st) = true;
  li_required : broadcasting_required_ (object st) = br;
  li_output : output_ (object st) = take j outs;
  li_size : output_batch_size_ (object st) = prodZ (take j outs);
  li_operands : Forall3 (fun x => op_inv rank (bound j) (dims_prefix j x) (take j outs) (result_ (object st)) (set_one st))
                  xs (prev_is_one st) (operands_ (object st))
}.

Lemma outs_range j : (j < rank)%nat -> 0 <= nth j outs 0 < 2 ^ 31.
Proof using All.
  intros Hj. pose proof (Hjoin j Hj) as H. destruct (forallb is_one (column j xs)) eqn:E.
  - apply join_ones in H; [|done]. lia.
  - apply join_not_ones in H as [H _]; [|done]. pose proof (column_range j xs Hrange) as Hc. rewrite Forall_forall in Hc. by apply Hc.
Qed.

Lemma take_outs j : (j < rank)%nat -> take (S j) outs = take j outs ++ [nth j outs 0].
Proof using All.
  intros Hj. rewrite (take_S_r _ _ (nth j outs 0)); [done|]. rewrite nth_lookup.
  destruct (lookup_lt_is_Some_2 outs j) as [v Hv]; [unfold rank in *; lia|]. by rewrite Hv.
Qed.

Lemma bound_S j : (j < rank)%nat -> bound (S j) = bound j * Z.max 1 (nth j outs 0).
Proof using All. intros Hj. unfold bound. rewrite take_outs, map_app, prodZ_app by done. unfold prodZ at 2. simpl. lia. Qed.

Lemma bound_total j : 1 <= bound j < 2 ^ 63.
Proof using All.
  split; [apply prodZ_max_ge|]. eapply Z.le_lt_trans; [|exact Hbound]. unfold bound.
  rewrite <- (take_drop j outs) at 2. rewrite map_app, prodZ_app.
  pose proof (prodZ_max_ge (take j outs)). pose proof (prodZ_max_ge (drop j outs)). nia.
Qed.

Lemma take_outs_nonneg j : (j <= rank)%nat -> Forall (fun d => 0 <= d) (take j outs).
Proof using All.
  induction j as [|j IH]; intros Hj; [constructor|]. rewrite take_outs by lia. apply Forall_app. split; [apply IH; lia|].
  apply Forall_singleton. pose proof (outs_range j). lia.
Qed.

Lemma size_S j : (j < rank)%nat -> mul_dims (prodZ (take j outs)) (nth j outs 0) = prodZ (take (S j) outs).
Proof using All.
  intros Hj. pose proof (outs_range j Hj). pose proof (prodZ_bound _ (take_outs_nonneg j ltac:(lia))) as Hp.
  fold (bound j) in Hp. pose proof (bound_total (S j)) as Hb. rewrite bound_S in Hb by done.
  rewrite mul_dims_small by nia. rewrite take_outs, prodZ_app by done. unfold prodZ at 3. simpl. lia.
Qed.

(** [is_one] of an operand excludes that none is 1. *)
Lemma none_is_one_false j x : x ∈ xs -> is_one (dim_at j x) = true -> true && forallb (fun d => negb (is_one d)) (column j xs) = false.
Proof using All.
  intros Hx H1. simpl. apply not_true_is_false. rewrite forallb_forall. intros H. specialize (H (dim_at j x)).
  rewrite H1 in H. assert (In (dim_at j x) (column j xs)) as Hin by (apply in_map; by apply list_elem_of_In). by specialize (H Hin).
Qed.

Lemma dim_step_inv j st : (j < rank)%nat -> loop_inv j st ->
  exists st', dim_step fewer rank j (column j xs) st = inr st' /\ loop_inv (S j) st'.
Proof using All.
  intros Hj [Hv Hbr Ho Hs Hops]. pose proof (Hjoin j Hj) as HJ. pose proof (outs_range j Hj) as HoR.
  pose proof (size_S j Hj) as Hsz. pose proof (take_outs j Hj) as Ht. pose proof (bound_S j Hj) as HbS.
  pose proof (bound_total j) as Hbj. pose proof (bound_total (S j)) as HbSj.
  assert (Hmem : forall x, x ∈ xs -> (dim_at j x = 1 \/ dim_at j x = nth j outs 0) /\ 0 <= dim_at j x < 2 ^ 31).
  { intros x Hx. rewrite Forall_forall in Hrange. split; [|by apply dim_at_range, Hrange].
    eapply join_member; [exact HJ|]. apply list_elem_of_In, in_map. by apply list_elem_of_In. }
  assert (Hc : Forall (fun d => - 2 ^ 31 <= d < 2 ^ 31) (column j xs)).
  { eapply Forall_impl; [apply (column_range j xs Hrange)|]. simpl. lia. }
  unfold dim_step. rewrite find_ones_spec, HJ by done. cbv beta iota zeta.
  assert (Hdim : (if negb (forallb is_one (column j xs)) then if forallb is_one (column j xs) then -1 else nth j outs 0 else 1) = nth j outs 0).
  { destruct (forallb _ _) eqn:E; [|done]. by rewrite (join_ones _ _ HJ E). }
  rewrite Hdim, Ho, Hs, Hsz, <- Ht. destruct (forallb is_one (column j xs)) eqn:Eones; cbn [negb].
  - pose proof (join_ones _ _ HJ Eones) as E1.
    assert (Hd1 : forall x, x ∈ xs -> dim_at j x = 1).
    { intros x Hx. rewrite forallb_forall in Eones. apply Z.eqb_eq, Eones, in_map. by apply list_elem_of_In. }
    eexists. split; [reflexivity|]. split; simpl; try done. rewrite Ht, E1. apply Forall3_map_r.
    assert (Hb' : bound (S j) = bound j) by (rewrite HbS, E1; lia). rewrite Hb'.
    destruct fewer; simpl; [|apply Forall3_map_r]; eapply Forall3_weaken; [exact Hops| |exact Hops|]; simpl;
      intros x p o Hx Hp; rewrite dims_prefix_S, Hd1 by done.
    + apply op_ones_skip; rewrite ?dims_prefix_length, ?length_take; try done; unfold rank in *; lia.
    + apply op_ones_push; rewrite ?dims_prefix_length, ?length_take; try done; unfold rank in *; lia.
  - destruct (fewer && _ && _) eqn:Eb; eexists; (split; [reflexivity|]); split; simpl; try done; rewrite Ht.
    + apply andb_prop in Eb as [[_ Eprev]%andb_prop Eset]. apply bool_decide_eq_true in Eprev.
      assert (Hfl : prev_is_one st = map (fun x => is_one (dim_at j x)) xs) by (rewrite <- Eprev; apply map_map).
      rewrite Hfl in Hops. apply Forall3_flags in Hops.
      apply (each_operand_inv _ _ _ _ _ _ _ Hops). simpl. intros x p o Hx [Hp Hinv]. rewrite dims_prefix_S.
      destruct (Hmem x Hx). eapply op_extend; try done; rewrite ?dims_prefix_length, ?length_take; try lia; unfold rank in *; try lia.
      intros H1. by apply (none_is_one_false j x).
    + apply (each_operand_inv _ _ _ _ _ _ _ Hops). simpl. intros x p o Hx Hinv. rewrite dims_prefix_S.
      destruct (Hmem x Hx). eapply op_push; try done; rewrite ?dims_prefix_length, ?length_take; try nia; unfold rank in *; try lia.
      intros H1. by apply (none_is_one_false j x).
Qed.

Definition aligned : list Vec := map (fun v => one_extend rank (rev v)) xs.

Lemma dims_loop_inv n : forall j st, (j + n = rank)%nat -> loop_inv j st ->
  exists st', dims_loop fewer rank n j aligned st = inr st' /\ loop_inv rank st'.
Proof using All.
  induction n as [|n IH]; intros j st Hj Hst; simpl; [exists st; by replace rank with j by lia|].
  unfold aligned at 1. rewrite aligned_column. destruct (dim_step_inv j st ltac:(lia) Hst) as (st1 & -> & H1). apply IH; [lia|done].
Qed.

Definition start_state : LoopState :=
  mkLoop (mkBCast true br (map (fun _ => empty_operand) xs) [] [] 1) (map (fun _ => false) xs) false.

Lemma bcast_start_inv : loop_inv 0 start_state.
Proof using All.
  split; simpl; try done. assert (H : forall l : list Vec,
    Forall3 (fun x => op_inv rank (bound 0) (dims_prefix 0 x) [] [] false) l (map (fun _ => false) l) (map (fun _ => empty_operand) l)).
  { intros l. induction l as [|x l IHl]; simpl; constructor; [|done]. split; [|done|done]. exists []. by split_and!. }
  apply H.
Qed.
End loop.

(** * Lemmas on [ComputeBatchIndices]

    The vector that is filled by copying is the table of [tile]. *)

Lemma copy_loop_spec (F : nat -> Z) num incr n : forall k m, (0 < num)%nat -> (n <= m)%nat ->
  (forall i, (i < k + n)%nat -> i64 (F i + incr) = F (num + i)%nat) ->
  copy_loop n k num incr (map F (seq 0 (num + k)) ++ replicate m 0) =
  Done (map F (seq 0 (num + k + n)) ++ replicate (m - n) 0).
Proof.
  induction n as [|n IH]; intros k m Hn Hm HF; simpl; [by rewrite Nat.add_0_r, Nat.sub_0_r|].
  rewrite lookup_app_l by (rewrite length_map, length_seq; lia).
  rewrite list_lookup_fmap, lookup_seq_lt by lia. simpl.
  rewrite (proj2 (Nat.ltb_lt _ _)) by (rewrite length_app, length_map, length_seq, length_replicate; lia).
  rewrite HF by lia. rewrite insert_app_r_alt by (rewrite length_map, length_seq; lia).
  rewrite length_map, length_seq, Nat.sub_diag. destruct m as [|m]; [lia|]. cbn [replicate list_insert insert].
  replace (map F (seq 0 (num + k)) ++ F (num + k)%nat :: replicate m 0)
    with (map F (seq 0 (num + S k)) ++ replicate m 0).
  2:{ rewrite Nat.add_succ_r, seq_S, map_app, <- (assoc_L (++)). done. }
  rewrite IH by (lia || (intros; apply HF; lia)). by replace (num + S k + n)%nat with (num + k + S n)%nat by lia.
Qed.

Definition one_of (p : Z * Z) : Prop := p.1 = 1 \/ p.2 = 1.

(** The table of the first positions. *)
Definition tile_table (l : list (Z * Z)) (n : nat) : Vec := map (fun k => tile l (Z.of_nat k)) (seq 0 n).

Lemma tile_table_snoc l r b : all_pos l -> 0 < r -> 0 < b ->
  tile_table l (Z.to_nat (psize l)) = tile_table (l ++ [(r, b)]) (Z.to_nat (psize l)).
Proof.
  intros Hl Hr Hb. apply map_ext_in. intros k [_ Hk]%in_seq. rewrite tile_snoc by done.
  rewrite Z.div_small by lia. rewrite !Z.mod_0_l by nia. lia.
Qed.

(** Positions one block further read [incr] further. *)
Lemma tile_shift l r b i : all_pos l -> 0 < r -> 0 < b -> one_of (r, b) -> 0 <= i < (r * b - 1) * psize l ->
  tile (l ++ [(r, b)]) (psize l + i) = tile (l ++ [(r, b)]) i + (if 1 <? b then 0 else rsize l).
Proof.
  intros Hl Hr Hb Hor Hi. pose proof (psize_pos l Hl) as Hp. rewrite !tile_snoc by done.
  replace (psize l + i) with (i + 1 * psize l) by lia. rewrite tile_period, Z.div_add by (done || lia).
  assert (0 <= i / psize l < r * b - 1) by (split; [apply Z.div_pos; lia|apply Z.div_lt_upper_bound; lia]).
  rewrite !(Z.mod_small _ (r * b)) by lia. unfold one_of in Hor. simpl in Hor. destruct (Z.ltb_spec 1 b).
  - assert (r = 1) as -> by lia. rewrite !Z.mod_1_r. lia.
  - assert (b = 1) as -> by lia. rewrite !Z.mod_small by lia. lia.
Qed.

Lemma rsize_le_psize l : all_pos l -> rsize l <= psize l.
Proof.
  induction 1 as [|[r b] l [Hr Hb] Hl IH]; [done|]. simpl in Hr, Hb. pose proof (rsize_pos l Hl).
  change (r * rsize l <= r * b * psize l). transitivity (r * psize l); [nia|]. rewrite <- Z.mul_assoc. apply Z.mul_le_mono_nonneg_l; nia.
Qed.

Lemma batch_loop_spec l2 : forall l1, all_pos (l1 ++ l2) -> Forall one_of l2 -> psize (l1 ++ l2) < 2 ^ 63 ->
  batch_loop l2 (psize l1) (rsize l1)
    (tile_table l1 (Z.to_nat (psize l1)) ++ replicate (Z.to_nat (psize (l1 ++ l2)) - Z.to_nat (psize l1)) 0) =
  Done (tile_table (l1 ++ l2) (Z.to_nat (psize (l1 ++ l2)))).
Proof.
  induction l2 as [|[r b] l2 IH]; intros l1 Hpos Hor Hmax.
  { cbn [batch_loop]. rewrite app_nil_r, Nat.sub_diag. by rewrite app_nil_r. }
  inversion_clear Hor as [|? ? Hrb Hor']. pose proof Hpos as [Hl1 Hl2]%Forall_app. inversion_clear Hl2 as [|? ? [Hr Hb] Hl2'].
  simpl in Hr, Hb. pose proof (psize_pos l1 Hl1) as Hp1. pose proof (psize_pos l2 Hl2') as Hp2. pose proof (rsize_pos l1 Hl1) as Hr1.
  pose proof (rsize_le_psize l1 Hl1) as Hle.
  assert (Hps : psize (l1 ++ (r, b) :: l2) = psize l1 * (r * b) * psize l2).
  { rewrite psize_app. change (psize ((r, b) :: l2)) with (r * b * psize l2). lia. }
  assert (Hmaxd : Z.max r b = r * b) by (unfold one_of in Hrb; simpl in Hrb; nia).
  assert (psize l1 * (r * b) <= psize (l1 ++ (r, b) :: l2)) by (rewrite Hps; nia).
  assert (0 <= (r * b - 1) * psize l1) by nia.
  assert (Hsnoc : l1 ++ (r, b) :: l2 = (l1 ++ [(r, b)]) ++ l2) by (by rewrite <- (assoc_L (++))).
  assert (Hl1' : all_pos (l1 ++ [(r, b)])) by (by apply positive_snoc).
  cbn [batch_loop]. rewrite Hmaxd. rewrite (i64_small ((r * b - 1) * psize l1)) by (unfold in_i64; lia).
  rewrite (tile_table_snoc l1 r b) by done. unfold tile_table at 1.
  replace (Z.to_nat (psize l1)) with (Z.to_nat (psize l1) + 0)%nat at 2 by lia.
  rewrite copy_loop_spec; [|lia|rewrite Hps; nia|].
  - assert (Hi1 : psize l1 * (r * b) = psize (l1 ++ [(r, b)])) by (by rewrite psize_app, psize_one).
    assert (Hi2 : rsize l1 * r = rsize (l1 ++ [(r, b)])) by (by rewrite rsize_app, rsize_one).
    rewrite (i64_small (psize l1 * (r * b))), (i64_small (rsize l1 * r)) by (unfold in_i64; nia).
    rewrite Hi1, Hi2. rewrite Hsnoc in *. rewrite <- (IH (l1 ++ [(r, b)])) by done. f_equal.
    unfold tile_table. rewrite <- Hi1. f_equal; [do 2 f_equal; nia|f_equal; nia].
  - intros i Hi. rewrite Nat2Z.inj_add, Z2Nat.id by lia. rewrite tile_shift by (done || lia).
    apply i64_small. unfold in_i64. pose proof (tile_range (l1 ++ [(r, b)]) (Z.of_nat i) Hl1').
    pose proof (rsize_le_psize _ Hl1') as Hle'. rewrite psize_app, psize_one in Hle'. destruct (1 <? b) eqn:E; [lia|].
    rewrite <- (Z.ltb_ge) in *. pose proof (tile_range (l1 ++ [(r, b)]) (psize l1 + Z.of_nat i) Hl1').
    rewrite tile_shift, E in * by (done || lia). lia.
Qed.

Lemma zip_rev_pairs (l : list (Z * Z)) : rev (zip (rev (map fst l)) (rev (map snd l))) = l.
Proof. rewrite <- !map_rev. rewrite zip_fst_snd. apply rev_involutive. Qed.

Lemma ComputeBatchIndices_spec l : all_pos l -> Forall one_of l -> psize l < 2 ^ 63 ->
  ComputeBatchIndices (psize l) (rev (map fst l)) (rev (map snd l)) = Done (tile_table l (Z.to_nat (psize l))).
Proof.
  intros Hp Ho Hm. unfold ComputeBatchIndices. rewrite zip_rev_pairs.
  pose proof (batch_loop_spec l [] Hp Ho Hm) as H. cbn [app] in H. rewrite <- H.
  pose proof (psize_pos l Hp). change (psize []) with 1. change (rsize []) with 1. f_equal.
  change (tile_table [] (Z.to_nat 1)) with [0]. destruct (Z.to_nat (psize l)) as [|n] eqn:E; [lia|]. simpl. by rewrite Nat.sub_0_r.
Qed.
