(* ===== verification/BCastTheorems.v ===== *)
(** * Properties of the broadcasting of shapes *)
From S2P Require Import Prelude TensorShape TensorShapeProofs TensorShapeOps BCast.
From stdpp Require Import list options.
#[local] Open Scope Z_scope.

(** Sizes an [int] holds; -1 is an unknown size. *)
Definition int_sizes (x : Vec) : Prop := Forall (fun d => - 2 ^ 31 <= d < 2 ^ 31) x.

(** Known sizes an [int] holds. *)
Definition known_sizes (x : Vec) : Prop := Forall (fun d => 0 <= d < 2 ^ 31) x.

(** The element of an operand, in row-major order, that output element [i]
    reads after [x.reshape(reshape).broadcast(bcast)]. *)
Definition broadcast_read (reshape bcast : Vec) (i : Z) : Z := tile (rev (zip reshape bcast)) i.

(** The axes, from the outermost on, in which the aligned operand has size 1. *)
Definition unit_axes (rank : nat) (x : Vec) : Vec :=
  map Z.of_nat (filter (fun k => dim_at (rank - 1 - k) x = 1) (seq 0 rank)).

(** ** Shapes of the result *)
Lemma mapM_seq_nth {A} (f : nat -> option A) (d : A) n : forall l, mapM f (seq 0 n) = Some l ->
  length l = n /\ forall j, (j < n)%nat -> f j = Some (nth j l d).
Proof.
  intros l H. apply mapM_Some in H. pose proof (Forall2_length _ _ _ H) as Hl. rewrite length_seq in Hl.
  split; [done|]. intros j Hj. destruct (lookup_lt_is_Some_2 l j) as [v Hv]; [lia|].
  rewrite (nth_lookup_Some _ _ _ _ Hv). eapply Forall2_lookup_lr in H; [exact H| |exact Hv]. by rewrite lookup_seq_lt.
Qed.

Lemma np_shape_join xs out : np_shape xs = Some out ->
  length (rev out) = max_rank xs /\ forall j, (j < max_rank xs)%nat -> join_dims (column j xs) = Some (nth j (rev out) 0).
Proof.
  unfold np_shape. destruct (mapM _ _) as [l|] eqn:E; [|done]. simpl. intros [= <-]. rewrite rev_involutive.
  by apply (mapM_seq_nth _ 0).
Qed.

(** ** The early return *)
Lemma dims_loop_valid fewer xs n : forall j st, Forall int_sizes xs ->
  match dims_loop fewer (max_rank xs) n j (aligned xs) st with
  | inl o => valid_ o = false /\ exists k, (j <= k < j + n)%nat /\ join_dims (column k xs) = None
  | inr st' => valid_ (object st') = valid_ (object st) /\
      exists outs, mapM (fun k => join_dims (column k xs)) (seq j n) = Some outs /\ output_ (object st') = output_ (object st) ++ outs
  end.
Proof.
  induction n as [|n IH]; intros j st Hxs; simpl; [split; [done|]; exists []; by rewrite app_nil_r|].
  unfold aligned at 1. rewrite aligned_column. unfold dim_step.
  assert (Hc : Forall (fun d => - 2 ^ 31 <= d < 2 ^ 31) (column j xs)).
  { apply Forall_map. eapply Forall_impl; [exact Hxs|]. intros x Hx. unfold dim_at.
    destruct (nth_in_or_default j (rev x) 1) as [Hin| ->]; [|lia]. unfold int_sizes in Hx. rewrite Forall_forall in Hx.
    apply Hx, list_elem_of_In. by apply in_rev. }
  rewrite find_ones_spec by done. destruct (join_dims (column j xs)) as [o|] eqn:EJ; cbv beta iota zeta.
  2:{ split; [done|]. exists j. split; [lia|done]. }
  assert (Hnext : forall st1, valid_ (object st1) = valid_ (object st) -> output_ (object st1) = output_ (object st) ++ [o] ->
    match dims_loop fewer (max_rank xs) n (S j) (aligned xs) st1 with
    | inl o => valid_ o = false /\ exists k, (j <= k < j + S n)%nat /\ join_dims (column k xs) = None
    | inr st' => valid_ (object st') = valid_ (object st) /\
        exists outs, (x ← Some o; k ← mapM (fun k => join_dims (column k xs)) (seq (S j) n); mret (x :: k)) = Some outs /\
          output_ (object st') = output_ (object st) ++ outs
    end).
  { intros st1 Hv Ho. specialize (IH (S j) st1 Hxs). destruct (dims_loop _ _ _ _ _ _) as [o'|st'].
    - destruct IH as [? (k & ? & ?)]. split; [done|]. exists k. split; [lia|done].
    - destruct IH as [Hv' (outs & HM & Ho')]. rewrite Hv', Hv. split; [done|]. exists (o :: outs). rewrite HM, Ho', Ho.
      by rewrite <- (assoc_L (++)). }
  assert (Hdim : (if negb (forallb is_one (column j xs)) then if forallb is_one (column j xs) then -1 else o else 1) = o).
  { destruct (forallb _ _) eqn:E; [|done]. by rewrite (join_ones _ _ EJ E). }
  rewrite Hdim. destruct (negb (negb _)); [by apply Hnext|]. destruct (fewer && _ && _); by apply Hnext.
Qed.

(** ** Equal shapes *)
Lemma max_rank_same (x0 : Vec) xs : Forall (fun x => x = x0) xs -> forall r, (r <= length x0)%nat ->
  fold_left (fun r v => if (r <? length v)%nat then length v else r) xs r = match xs with [] => r | _ => length x0 end.
Proof.
  induction 1 as [|x xs -> Hxs IH]; intros r Hr; simpl; [done|]. rewrite IH by (destruct (Nat.ltb_spec r (length x0)); lia).
  destruct xs; [|done]. destruct (Nat.ltb_spec r (length x0)); [done|lia].
Qed.

Lemma join_same d col : Forall (fun e => e = d) col -> col <> [] -> join_dims col = Some d.
Proof.
  intros Hc Hne. unfold join_dims. destruct (decide (d = 1)) as [->|Hd].
  - assert (filter (fun e => e <> 1) col = []) as ->; [|done]. clear Hne.
    induction Hc as [|e col -> _ IH]; [done|]. by rewrite filter_cons, decide_False by naive_solver.
  - destruct Hc as [|e col -> Hc]; [done|]. rewrite filter_cons, decide_True by done.
    assert (forallb (fun e => e =? d) (filter (fun e => e <> 1) col) = true) as ->; [|done].
    apply forallb_forall. intros e He. apply list_elem_of_In, list_elem_of_filter in He as [_ He]. rewrite Forall_forall in Hc.
    apply Z.eqb_eq. by apply Hc.
Qed.

Lemma np_shape_same xs x0 : Forall (fun x => x = x0) xs -> xs <> [] -> np_shape xs = Some x0.
Proof.
  intros Hxs Hne. unfold np_shape, max_rank. rewrite (max_rank_same x0) by (done || lia).
  replace (match xs with [] => 0%nat | _ => length x0 end) with (length x0) by (by destruct xs).
  assert (H : mapM (fun j => join_dims (column j xs)) (seq 0 (length x0)) = Some (rev x0)).
  { apply mapM_Some. apply Forall2_same_length_lookup. split; [by rewrite length_seq, length_rev|].
    intros j a b Ha Hb. apply lookup_seq in Ha as [-> Hj]. simpl. apply join_same; [|by destruct xs].
    apply Forall_map. eapply Forall_impl; [exact Hxs|]. intros x ->. unfold dim_at. by apply nth_lookup_Some. }
  rewrite H. simpl. by rewrite rev_involutive.
Qed.

Lemma np_index_rev_self c : forall i, Forall (fun d => 0 < d) c -> 0 <= i < prodZ c -> np_index_rev c c i = i.
Proof.
  induction c as [|d c IH]; intros i Hc Hi; [unfold prodZ in Hi; simpl in *; lia|]. inversion_clear Hc.
  change (prodZ (d :: c)) with (d * prodZ c) in Hi. simpl. rewrite IH; [|done|].
  - rewrite (Z.div_mod i d) at 3 by lia. destruct (Z.eqb_spec d 1) as [->|]; [rewrite Z.mod_1_r|]; lia.
  - split; [apply Z.div_pos; lia|apply Z.div_lt_upper_bound; lia].
Qed.

(** ** The dimensions of an operand *)
Lemma max_rank_ge (xs : list Vec) : forall r x, x ∈ xs -> (length x <= fold_left (fun r v => if (r <? length v)%nat then length v else r) xs r)%nat.
Proof.
  assert (Hge : forall (l : list Vec) r, (r <= fold_left (fun r v => if (r <? length v)%nat then length v else r) l r)%nat).
  { intros l. induction l as [|v l IH]; intros r; simpl; [lia|]. specialize (IH (if (r <? length v)%nat then length v else r)).
    destruct (Nat.ltb_spec r (length v)); lia. }
  induction xs as [|v xs IH]; intros r x Hx; [by apply not_elem_of_nil in Hx|]. simpl.
  apply elem_of_cons in Hx as [->|Hx]; [|by apply IH].
  etransitivity; [|apply Hge]. destruct (Nat.ltb_spec r (length v)); lia.
Qed.

Lemma dims_prefix_align rank x : (length x <= rank)%nat -> dims_prefix rank x = rev x ++ replicate (rank - length x) 1.
Proof.
  intros Hr. apply list_eq. intros j. unfold dims_prefix. rewrite list_lookup_fmap.
  destruct (le_lt_dec rank j) as [Hj|Hj].
  - rewrite lookup_seq_ge by done. simpl. symmetry. apply lookup_ge_None. rewrite length_app, length_rev, length_replicate. lia.
  - rewrite lookup_seq_lt by done. simpl. unfold dim_at. destruct (le_lt_dec (length x) j) as [Hx|Hx].
    + rewrite nth_overflow by (rewrite length_rev; done). rewrite lookup_app_r, lookup_replicate_2 by (rewrite length_rev; lia). done.
    + rewrite lookup_app_l by (rewrite length_rev; lia). rewrite nth_lookup.
      destruct (lookup_lt_is_Some_2 (rev x) j) as [v ->]; [by rewrite length_rev|done].
Qed.

Lemma np_index_rev_ones c : forall k out i, np_index_rev (c ++ replicate k 1) out i = np_index_rev c out i.
Proof.
  induction c as [|d c IH]; intros k out i; simpl; [|by destruct out; [|rewrite IH]].
  revert out i. induction k as [|k IHk]; intros [|o out] i; simpl; try done. by rewrite IHk.
Qed.

Lemma prodZ_ones k : prodZ (replicate k 1) = 1.
Proof. unfold prodZ. induction k as [|k IH]; simpl; [done|]. rewrite IH. done. Qed.

Lemma prodZ_rev l : prodZ (rev l) = prodZ l.
Proof. induction l as [|x l IH]; [done|]. simpl. rewrite prodZ_app, IH. unfold prodZ. simpl. lia. Qed.

Lemma prodZ_prefix rank x : (length x <= rank)%nat -> prodZ (dims_prefix rank x) = prodZ x.
Proof. intros H. rewrite dims_prefix_align, prodZ_app, prodZ_ones, prodZ_rev by done. lia. Qed.

Lemma unit_axes_spec rank x : rev (grad_of rank (dims_prefix rank x)) = unit_axes rank x.
Proof.
  assert (H : forall j, (j <= rank)%nat ->
    rev (grad_of rank (dims_prefix j x)) = map Z.of_nat (filter (fun k => dim_at (rank - 1 - k) x = 1) (seq (rank - j) j))).
  { induction j as [|j IH]; intros Hj; [done|]. rewrite dims_prefix_S, grad_of_snoc, dims_prefix_length, rev_app_distr, IH by lia.
    replace (seq (rank - S j) (S j)) with ((rank - S j)%nat :: seq (rank - j) j) by (simpl; do 2 f_equal; lia).
    rewrite filter_cons. unfold is_one. replace (rank - 1 - (rank - S j))%nat with j by lia.
    destruct (Z.eqb_spec (dim_at j x) 1); [rewrite decide_True by done|by rewrite decide_False by done].
    simpl. f_equal. lia. }
  rewrite H, Nat.sub_diag by lia. done.
Qed.

(** ** The constructor on compatible shapes *)
Section compatible.
Context (xs : list Vec) (out : Vec) (fewer batches : bool).
Hypothesis Hshape : np_shape xs = Some out.
Hypothesis Hknown : Forall known_sizes xs.
Hypothesis Hbound : prodZ (map (Z.max 1) out) < 2 ^ 63.
Let rank := max_rank xs.
Let all_equal := forallb (fun v => bool_decide (v = nth 0 xs [])) xs.

(** What an operand holds after the loop, with its dimensions [l]. *)
Definition operand_dims (result : Vec) (computed : bool) (x : Vec) (op : Operand) : Prop :=
  exists l, reshape_ op = rev (map fst l) /\ bcast_ op = rev (map snd l) /\ result = rev (map (fun q => q.1 * q.2) l) /\
    Forall one_of l /\ nonneg l /\ equiv_dims l (dims_of (dims_prefix rank x) (rev out)) /\
    grad_reduce_idx_ op = unit_axes rank x /\
    batch_indices_ op = if computed then tile_table l (Z.to_nat (prodZ out)) else [].

Lemma rev_out_bound : prodZ (map (Z.max 1) (rev out)) < 2 ^ 63.
Proof using All. by rewrite map_rev, prodZ_rev. Qed.

Lemma member_dims x : x ∈ xs -> Forall2 (fun d o => d = 1 \/ d = o) (dims_prefix rank x) (rev out).
Proof using All.
  intros Hx. destruct (np_shape_join xs out Hshape) as [Hl Hj]. apply Forall2_same_length_lookup.
  split; [by rewrite dims_prefix_length, Hl|]. intros j d o Hd Ho. unfold dims_prefix in Hd. rewrite list_lookup_fmap in Hd.
  assert (j < rank)%nat as Hjr by (apply lookup_lt_Some in Ho; unfold rank in *; lia).
  rewrite lookup_seq_lt in Hd by done. simpl in Hd. simplify_eq.
  rewrite <- (nth_lookup_Some _ _ 0 _ Ho). eapply join_member; [by apply Hj|]. apply list_elem_of_In, in_map. by apply list_elem_of_In.
Qed.

Lemma dims_psize x l : x ∈ xs -> equiv_dims l (dims_of (dims_prefix rank x) (rev out)) -> psize l = prodZ out.
Proof using All. intros Hx (_ & -> & _). rewrite dims_of_psize by (by apply member_dims). apply prodZ_rev. Qed.

Lemma out_size_bound : prodZ out < 2 ^ 63.
Proof using All.
  destruct (np_shape_join xs out Hshape) as [Hl Hj].
  pose proof (take_outs_nonneg false false xs (rev out) Hl Hj Hknown rev_out_bound (max_rank xs) ltac:(lia)) as Hn.
  rewrite take_ge in Hn by lia. pose proof (prodZ_bound _ Hn). pose proof rev_out_bound. rewrite prodZ_rev in *. lia.
Qed.

Lemma compute_batches_spec result ops : forall ys, (forall x, x ∈ ys -> x ∈ xs) -> 0 < prodZ out ->
  Forall2 (operand_dims result false) ys ops ->
  exists ops', compute_batches (prodZ out) ops = Done ops' /\ Forall2 (operand_dims result true) ys ops'.
Proof using All.
  intros ys Hys Hpos H. induction H as [|x op ys ops (l & Hr & Hb & Hres & Ho & Hn & He & Hg & _) _ IH]; [by exists []|].
  destruct IH as (ops' & HC & HF); [intros; apply Hys; by right|]. simpl.
  pose proof (dims_psize x l (Hys x ltac:(left)) He) as Hps. pose proof out_size_bound.
  pose proof (ComputeBatchIndices_spec l) as HB. rewrite <- Hr, <- Hb, Hps in HB.
  rewrite HB by (done || lia || (apply psize_positive; [done|lia])). rewrite HC. eexists. split; [reflexivity|]. constructor; [|done].
  by exists l.
Qed.
Lemma Forall3_drop_m {A B C} (P : A -> B -> C -> Prop) (Q : A -> C -> Prop) l k m :
  Forall3 P l k m -> (forall x y z, P x y z -> Q x z) -> Forall2 Q l m.
Proof using. induction 1; constructor; eauto. Qed.

Lemma new_slow : all_equal && fewer = false ->
  exists o, BCastList_new xs fewer batches = Done o /\ valid_ o = true /\ broadcasting_required_ o = negb all_equal /\
    output_ o = out /\ output_batch_size_ o = prodZ out /\
    Forall2 (operand_dims (result_ o) (batches && negb all_equal && (0 <? prodZ out))) xs (operands_ o).
Proof using All.
  intros Hslow. destruct (np_shape_join xs out Hshape) as [Hl Hj]. unfold BCastList_new. fold all_equal. rewrite Hslow.
  pose proof (bcast_start_inv false (negb all_equal) xs (rev out) Hl Hj Hknown rev_out_bound) as Hst.
  destruct (dims_loop_inv fewer (negb all_equal) xs (rev out) Hl Hj Hknown rev_out_bound rank 0 _ eq_refl Hst)
    as (st & Hloop & [Hv Hbr Ho Hs Hops]).
  unfold start_state, aligned in Hloop. unfold rank in Hloop at 1. cbv zeta. rewrite Hloop. fold rank in Ho, Hs, Hops.
  rewrite take_ge in Ho, Hs, Hops by (unfold rank; lia). rewrite prodZ_rev in Hs.
  unfold finish. rewrite Hv, Hbr, Ho, Hs, rev_involutive.
  set (result := if match result_ (object st) with [] => true | _ => false end then [1] else result_ (object st)).
  set (ops := map reverse_operand _).
  assert (Hdims : Forall2 (operand_dims (rev result) false) xs ops).
  { unfold ops. apply Forall2_fmap_r. destruct (result_ (object st)) as [|r0 rs] eqn:Er; [apply Forall2_fmap_r|];
      eapply Forall3_drop_m; try exact Hops; intros x p o [(l & Hr & Hb & Hres & Hpair & He & _) Hg Hbt];
      pose proof (pair_nonneg _ _ Hpair) as Hnn;
      (assert (Hone : Forall one_of l) by (eapply Forall_impl; [exact Hpair|]; intros q [Hq _]; exact Hq)).
    - assert (l = []) as -> by (by destruct l). exists ([] ++ [(1, 1)]). unfold result. simpl. rewrite Hr, Hb, Hg. simpl.
      split_and!; try done; [by repeat constructor|by repeat constructor|by apply (equiv_one_l [])|apply unit_axes_spec].
    - exists l. unfold result. cbv iota. rewrite Hres. simpl. rewrite Hr, Hb, Hg. split_and!; try done. apply unit_axes_spec. }
  destruct (batches && negb all_equal && (0 <? prodZ out)) eqn:Eb.
  - apply andb_prop in Eb as [_ Hpos%Z.ltb_lt].
    destruct (compute_batches_spec _ _ xs ltac:(auto) Hpos Hdims) as (ops' & -> & HF). by eexists.
  - by eexists.
Qed.
End compatible.

(** ** Reading through an operand's dimensions *)
Lemma prodZ_pos_inv l : Forall (fun d => 0 <= d) l -> 0 < prodZ l -> Forall (fun d => 0 < d) l.
Proof.
  induction 1 as [|d l Hd Hl IH]; intros Hp; [constructor|]. change (0 < d * prodZ l) in Hp.
  pose proof (prodZ_nonneg l Hl). constructor; [nia|]. apply IH. nia.
Qed.

Lemma out_nonneg xs out : np_shape xs = Some out -> Forall known_sizes xs -> prodZ (map (Z.max 1) out) < 2 ^ 63 ->
  Forall (fun d => 0 <= d) (rev out).
Proof.
  intros Hs Hk Hb. destruct (np_shape_join xs out Hs) as [Hl Hj].
  pose proof (take_outs_nonneg false false xs (rev out) Hl Hj Hk) as Hn. rewrite map_rev, prodZ_rev in Hn.
  specialize (Hn Hb (max_rank xs) ltac:(lia)). by rewrite take_ge in Hn by lia.
Qed.

Lemma operand_reads xs out result computed x op i :
  np_shape xs = Some out -> Forall known_sizes xs -> prodZ (map (Z.max 1) out) < 2 ^ 63 -> x ∈ xs ->
  operand_dims xs out result computed x op -> 0 <= i < prodZ out ->
  exists l, broadcast_read (reshape_ op) (bcast_ op) i = tile l i /\ tile l i = np_index x out i /\
    batch_indices_ op = if computed then tile_table l (Z.to_nat (prodZ out)) else [].
Proof.
  intros Hs Hk Hb Hx (l & Hr & Hbc & _ & _ & Hn & He & _ & Hbt) Hi. exists l.
  unfold broadcast_read. rewrite Hr, Hbc, zip_rev_pairs. split; [done|]. split; [|done].
  pose proof (out_nonneg xs out Hs Hk Hb) as Hon. pose proof (prodZ_pos_inv (rev out) Hon) as Hop. rewrite prodZ_rev in Hop.
  specialize (Hop ltac:(lia)). pose proof (member_dims xs out false false Hs Hk Hb x Hx) as Hm.
  assert (Hm' : Forall2 (fun d o => (d = 1 \/ d = o) /\ 0 < o) (dims_prefix (max_rank xs) x) (rev out)).
  { clear - Hm Hop. induction Hm as [|d o c out' Hd _ IH]; constructor; inversion_clear Hop; auto. }
  pose proof He as (_ & _ & Ht). rewrite Ht.
  - rewrite <- np_index_tile by done. unfold np_index. rewrite dims_prefix_align by (by apply max_rank_ge). apply np_index_rev_ones.
  - clear - Hm'. induction Hm' as [|d o c out' [Hd Ho] _ IH]; [constructor|]. constructor; [|exact IH]. simpl.
    destruct (Z.eqb_spec d 1); lia.
Qed.

Lemma fold_mul_dims l : forall a, 0 <= a -> Forall (fun d => 0 <= d) l -> a * prodZ (map (Z.max 1) l) < 2 ^ 63 ->
  fold_left mul_dims l a = a * prodZ l.
Proof.
  induction l as [|d l IH]; intros a Ha Hl Hb; simpl; [unfold prodZ; simpl; lia|]. inversion_clear Hl as [|? ? Hd Hl'].
  change (prodZ (map (Z.max 1) (d :: l))) with (Z.max 1 d * prodZ (map (Z.max 1) l)) in Hb.
  change (prodZ (d :: l)) with (d * prodZ l). pose proof (prodZ_max_ge l). pose proof (Z.le_max_r 1 d). pose proof (Z.le_max_l 1 d).
  assert (a * d <= a * Z.max 1 d) by nia.
  assert (a * d * prodZ (map (Z.max 1) l) <= a * (Z.max 1 d * prodZ (map (Z.max 1) l))) by nia.
  assert (a * d <= a * d * prodZ (map (Z.max 1) l)) by nia.
  rewrite mul_dims_small, IH by (done || lia || nia). lia.
Qed.

Lemma all_equal_spec (xs : list Vec) : forallb (fun v => bool_decide (v = nth 0 xs [])) xs = true ->
  Forall (fun x => x = nth 0 xs []) xs.
Proof.
  rewrite forallb_forall. intros H. apply Forall_forall. intros x Hx. apply list_elem_of_In in Hx.
  specialize (H x Hx). by apply bool_decide_eq_true in H.
Qed.

(** The operand reads by the broadcasting rule. *)
Definition reads_rule (out result axes : Vec) (x : Vec) (op : Operand) : Prop :=
  prodZ (reshape_ op) = prodZ x /\ zip_with Z.mul (reshape_ op) (bcast_ op) = result /\ grad_reduce_idx_ op = axes /\
  forall i, 0 <= i < prodZ out -> broadcast_read (reshape_ op) (bcast_ op) i = np_index x out i.

Lemma zip_with_rev_pairs l : zip_with Z.mul (rev (map fst l)) (rev (map snd l)) = rev (map (fun q : Z * Z => q.1 * q.2) l).
Proof.
  rewrite <- !map_rev. induction (rev l) as [|[r b] l' IH]; simpl; [done|]. by rewrite IH.
Qed.

Lemma new_fast xs fewer batches out : np_shape xs = Some out -> Forall known_sizes xs -> prodZ (map (Z.max 1) out) < 2 ^ 63 ->
  forallb (fun v => bool_decide (v = nth 0 xs [])) xs && fewer = true ->
  exists o, BCastList_new xs fewer batches = Done o /\ valid_ o = true /\ output_ o = out /\ output_batch_size_ o = prodZ out /\
    prodZ (result_ o) = prodZ out /\ Forall2 (reads_rule out (result_ o) []) xs (operands_ o).
Proof.
  intros Hs Hk Hb Hf. unfold BCastList_new. rewrite Hf. apply andb_prop in Hf as [Heq _]. pose proof (all_equal_spec xs Heq) as Hall.
  set (x0 := nth 0 xs []) in *. assert (out = x0) as ->.
  { destruct xs as [|x1 xs']; [|rewrite (np_shape_same _ x0) in Hs by done; by simplify_eq].
    unfold np_shape in Hs. simpl in Hs. by simplify_eq. }
  assert (Hnn : Forall (fun d => 0 <= d) x0).
  { pose proof (out_nonneg xs x0 Hs Hk Hb) as H. rewrite <- (rev_involutive x0). by apply Forall_rev. }
  pose proof (fold_mul_dims x0 1 ltac:(lia) Hnn ltac:(lia)) as HE. rewrite Z.mul_1_l in HE. rewrite HE.
  eexists. split; [reflexivity|]. simpl. split_and!; try done; [lia|]. apply Forall2_fmap_r, Forall_Forall2_diag.
  eapply Forall_impl; [exact Hall|]. intros x ->. unfold reads_rule. simpl. split_and!; [lia|f_equal; lia|done|].
  intros i Hi. unfold broadcast_read, np_index. simpl.
  assert (Forall (fun d => 0 < d) (rev x0)) by (apply Forall_rev, prodZ_pos_inv; done || lia).
  rewrite np_index_rev_self by (done || by rewrite prodZ_rev).
  rewrite Z.mul_1_r, !Z.mod_small by (rewrite ?Z.mod_small; lia). lia.
Qed.

Lemma Forall2_and_members {A B} (P : A -> B -> Prop) l k : Forall2 P l k -> Forall2 (fun x y => x ∈ l /\ P x y) l k.
Proof.
  induction 1 as [|x y l k HP _ IH]; constructor; [split; [left|done]|].
  eapply Forall2_impl; [exact IH|]. intros a b [? ?]. split; [by right|done].
Qed.

(** ** Shapes of tensors *)
Lemma FromShape_spec s l : repr false s l -> FromShape s = Done l.
Proof.
  intros [Hc _ _]. unfold FromShape. rewrite (core_dims _ _ _ Hc), Nat2Z.id.
  pose proof (sizes_from_core false s l (length l) 0 Hc ltac:(lia)) as H. change (Z.of_nat 0) with 0 in H.
  by rewrite H, drop_0, firstn_all.
Qed.

Lemma ToShape_spec l raw : length (buf raw) = 16%nat -> valid_sizes false l -> exists s, ToShape l raw = Done s /\ repr false s l.
Proof.
  intros Hraw Hv. assert (Ha : Forall (arg_size false) l).
  { eapply Forall_impl; [apply Hv|]. unfold good_size, arg_size, in_i64. simpl. intros x Hx. split; [lia|done]. }
  destruct (BuildTensorShapeBase_spec false l Ha raw Hraw) as (st & s' & E & H).
  unfold ToShape, TensorShapeBase_sizes. unfold BuildTensorShapeBase in E. unfold bind, modify, CHECK in *. rewrite E.
  destruct (ok st); [|done]. exists s'. by destruct H.
Qed.

(** ** Properties *)

(** C14. For compatible shapes whose sizes fit an [int] and whose output has a
    number of elements that fits an [int64], with or without the reduction of
    dimensions, the constructor yields the shape and size of the broadcasting
    rule, and reading an operand through its [reshape] and [bcast] shapes reads,
    at every position of the output, the element the rule names.  The axes to
    sum gradients over are those in which the operand has size 1, or none for
    equal shapes. *)
Theorem bcast_refines (xs : list Vec) (fewer batches : bool) (out : Vec)
    (Hne : xs <> []) (Hshape : np_shape xs = Some out) (Hsizes : Forall known_sizes xs)
    (Hfit : prodZ (map (Z.max 1) out) < 2 ^ 63) :
  exists o, BCastList_new xs fewer batches = Done o /\ valid_ o = true /\ output_ o = out /\
    output_batch_size_ o = prodZ out /\ prodZ (result_ o) = prodZ out /\
    Forall2 (fun x op => exists axes, (axes = unit_axes (max_rank xs) x \/ axes = [] /\ Forall (fun y => y = x) xs) /\
                         reads_rule out (result_ o) axes x op) xs (operands_ o).
Proof.
  destruct (forallb (fun v => bool_decide (v = nth 0 xs [])) xs && fewer) eqn:E.
  - destruct (new_fast xs fewer batches out Hshape Hsizes Hfit E) as (o & H1 & H2 & H3 & H4 & H5 & H6).
    exists o. split_and!; try done. apply andb_prop in E as [Hall%all_equal_spec _].
    eapply Forall2_impl; [by apply Forall2_and_members, H6|]. intros x op [Hx Hr]. exists []. split; [right|done]. split; [done|].
    rewrite Forall_forall in Hall. rewrite (Hall x Hx). by apply Forall_forall.
  - destruct (new_slow xs out fewer batches Hshape Hsizes Hfit E) as (o & H1 & H2 & _ & H3 & H4 & H5).
    exists o. split_and!; try done.
    + destruct xs as [|x xs']; [done|]. inversion H5 as [|? op ? ops (l & _ & _ & Hres & _ & _ & He & _) _]. rewrite Hres, prodZ_rev.
      apply (dims_psize (x :: xs') out fewer batches Hshape Hsizes Hfit x l); [left|done].
    + eapply Forall2_impl; [by apply Forall2_and_members, H5|]. intros x op [Hx Hd]. exists (unit_axes (max_rank xs) x). split; [by left|].
      pose proof Hd as (l & Hr & Hb & Hres & _ & _ & (Hrs & _) & Hg & _). unfold reads_rule. split_and!; [| |done|].
      * rewrite Hr, prodZ_rev. change (prodZ (map fst l)) with (rsize l). rewrite Hrs, dims_of_rsize.
        -- apply prodZ_prefix. by apply max_rank_ge.
        -- rewrite dims_prefix_length. symmetry. by apply np_shape_join.
      * by rewrite Hr, Hb, zip_with_rev_pairs.
      * intros i Hi. destruct (operand_reads xs out _ _ x op i Hshape Hsizes Hfit Hx Hd Hi) as (l' & -> & -> & _). done.
Qed.

(** Three operands, of which the second repeats along two axes. *)
Lemma bcast_refines_witness :
  exists o, BCastList_new [[2; 3; 4]; [4]; [2; 1; 1]] true false = Done o /\ output_ o = [2; 3; 4] /\
    map reshape_ (operands_ o) = [[2; 3; 4]; [1; 1; 4]; [2; 1; 1]].
Proof.
  destruct (bcast_refines [[2; 3; 4]; [4]; [2; 1; 1]] true false [2; 3; 4]) as (o & H & _ & Ho & _).
  - discriminate.
  - reflexivity.
  - repeat constructor; discriminate.
  - reflexivity.
  - exists o. split; [exact H|]. split; [exact Ho|]. vm_compute in H. injection H as <-. reflexivity.
Defined.

(** The constructor returns for shapes of any sizes that fit an [int],
    unknown ones included; the object is valid exactly when in every dimension
    the sizes that are not 1 agree, and its output then has those sizes. *)
Theorem bcast_valid_iff (xs : list Vec) (fewer : bool) (Hne : xs <> []) (Hsizes : Forall int_sizes xs) :
  exists o, BCastList_new xs fewer false = Done o /\
    match np_shape xs with Some out => valid_ o = true /\ output_ o = out | None => valid_ o = false end.
Proof.
  unfold BCastList_new. destruct (_ && fewer) eqn:E.
  - apply andb_prop in E as [Hall%all_equal_spec _]. rewrite (np_shape_same xs (nth 0 xs [])) by done. by eexists.
  - pose proof (dims_loop_valid fewer xs (max_rank xs) 0) as H.
    specialize (H (start_state (negb (forallb (fun v => bool_decide (v = nth 0 xs [])) xs)) xs) Hsizes).
    unfold start_state, aligned in H. unfold np_shape.
    destruct (dims_loop _ _ _ _ _ _) as [o|st]; eexists; (split; [reflexivity|]).
    + destruct H as [Hv (k & Hk & Hn)]. destruct (mapM _ _) as [l|] eqn:EM; [|done].
      apply (mapM_seq_nth _ 0) in EM as [_ EM]. specialize (EM k ltac:(lia)). by rewrite Hn in EM.
    + destruct H as [Hv (outs & -> & Ho)]. simpl in *. by rewrite Ho, Hv.
Qed.

Lemma bcast_valid_iff_witness :
  exists o, BCastList_new [[2; -1; 5]; [3; 5]] false false = Done o /\ valid_ o = false.
Proof.
  destruct (bcast_valid_iff [[2; -1; 5]; [3; 5]] false) as (o & H & Hv).
  - discriminate.
  - repeat constructor; discriminate.
  - exists o. split; [exact H|exact Hv].
Defined.

(** When batch indices are asked for, the shapes differ and the output is
    not empty, the indices of each operand are computed without leaving their
    vector, and are the positions the broadcasting rule names. *)
Theorem bcast_batch_indices (xs : list Vec) (fewer : bool) (out : Vec)
    (Hshape : np_shape xs = Some out) (Hsizes : Forall known_sizes xs)
    (Hfit : prodZ (map (Z.max 1) out) < 2 ^ 63) (Hpos : 0 < prodZ out) (Hdiff : exists x, x ∈ xs /\ x <> nth 0 xs []) :
  exists o, BCastList_new xs fewer true = Done o /\ broadcasting_required_ o = true /\
    Forall2 (fun x op => batch_indices_ op = map (fun k => np_index x out (Z.of_nat k)) (seq 0 (Z.to_nat (prodZ out))))
      xs (operands_ o).
Proof.
  assert (Hall : forallb (fun v => bool_decide (v = nth 0 xs [])) xs = false).
  { destruct Hdiff as (x & Hx & Hne). apply not_true_is_false. intros H%all_equal_spec. rewrite Forall_forall in H. by apply Hne, H. }
  destruct (new_slow xs out fewer true Hshape Hsizes Hfit) as (o & H1 & _ & H2 & _ & _ & H3); [by rewrite Hall|].
  rewrite Hall in H2, H3. rewrite (proj2 (Z.ltb_lt 0 _)) in H3 by done. exists o. split_and!; try done.
  eapply Forall2_impl; [by apply Forall2_and_members, H3|]. intros x op [Hx Hd].
  pose proof Hd as (l & _ & _ & _ & _ & _ & _ & _ & Hbt). simpl in Hbt. rewrite Hbt. apply map_ext_in. intros k [_ Hk]%in_seq.
  destruct (operand_reads xs out _ _ x op (Z.of_nat k) Hshape Hsizes Hfit Hx Hd ltac:(lia)) as (l' & _ & Ht & Hbt').
  rewrite <- Ht. simpl in Hbt'. rewrite Hbt in Hbt'. unfold tile_table in Hbt'. eapply map_ext_in_iff in Hbt'; [exact Hbt'|].
  apply in_seq. lia.
Qed.

Lemma bcast_batch_indices_witness :
  exists o, BCastList_new [[2; 1]; [1; 2]] true true = Done o /\ map batch_indices_ (operands_ o) = [[0; 0; 1; 1]; [0; 1; 0; 1]].
Proof.
  destruct (bcast_batch_indices [[2; 1]; [1; 2]] true [2; 2]) as (o & H & _ & Hf).
  - reflexivity.
  - repeat constructor; discriminate.
  - reflexivity.
  - reflexivity.
  - exists [1; 2]. split; [right; left|discriminate].
  - exists o. split; [exact H|]. inversion Hf as [|? op1 ? l1 E1 Hf1 Ea Eb]. inversion Hf1 as [|? op2 ? l2 E2 Hf2 Ec Ed].
    inversion Hf2. simpl. rewrite E1, E2. reflexivity.
Defined.

(** The common size is kept in an [int]: a size of 2^32 broadcast with 1
    yields an empty output, and compatible shapes that share such a size are
    refused. *)
Theorem bcast_int_truncation :
  (exists o, BCast [2 ^ 32] [1] true false = Done o /\ valid_ o = true /\ output_ o = [0]) /\
  np_shape [[2 ^ 32]; [1]] = Some [2 ^ 32] /\
  (exists o, BCast [2; 2 ^ 32] [1; 2 ^ 32] true false = Done o /\ valid_ o = false) /\
  np_shape [[2; 2 ^ 32]; [1; 2 ^ 32]] = Some [2; 2 ^ 32].
Proof. split_and!; [eexists; split_and!; reflexivity|reflexivity|eexists; split; reflexivity|reflexivity]. Qed.
