(* ===== verification/Block.v ===== *)
(** * Table blocks (src/tensorflow/core/lib/io/block_builder.cc, block.cc)

    A block is a sequence of key/value entries whose keys share a prefix with
    the key before them, followed by the offsets of the restart points, where
    the whole key is stored.  [BlockBuilder] writes blocks and [Iter] reads
    them, forwards or by binary search over the restart points.

    Byte strings are lists of [Z] in [0,256).  A pointer into the block is its
    offset; [StringPiece] is an offset and a length, and [None] is the null
    piece.  The [assert]s of the source are compiled out and not modelled; a
    read past the end of the data is [Crash]. *)
From S2P Require Import Prelude Coding.
From stdpp Require Import options.
#[local] Open Scope tf_monad_scope.

Abbreviation bytes := (list Z).

(** [absl::string_view::compare]: lexicographic on unsigned bytes. *)
Fixpoint bytes_compare (a b : bytes) : comparison :=
  match a, b with
  | [], [] => Eq
  | [], _ :: _ => Lt
  | _ :: _, [] => Gt
  | x :: a, y :: b =>
      match Z.compare x y with
      | Eq => bytes_compare a b
      | c => c
      end
  end.

Definition bytes_lt (a b : bytes) : bool :=
  match bytes_compare a b with Lt => true | _ => false end.

Definition zlen (l : bytes) : Z := Z.of_nat (length l).

Definition uint32_max : Z := 2 ^ 32 - 1.

(** ** [BlockBuilder] *)
Record BlockBuilder := mkBuilder {
  buffer_ : bytes;
  restarts_ : list Z;
  counter_ : Z;
  finished_ : bool;
  last_key_ : bytes
}.

Definition BlockBuilder_new : BlockBuilder := mkBuilder [] [0] 0 false [].

Definition Reset (b : BlockBuilder) : BlockBuilder := mkBuilder [] [0] 0 false [].

Definition CurrentSizeEstimate (b : BlockBuilder) : Z :=
  u64 (zlen (buffer_ b) + Z.of_nat (length (restarts_ b)) * 4 + 4).

Definition empty (b : BlockBuilder) : bool :=
  match buffer_ b with [] => true | _ => false end.

(** The [while] loop that measures the shared prefix. *)
Fixpoint shared_prefix (last key : bytes) : nat :=
  match last, key with
  | x :: last, y :: key => if x =? y then S (shared_prefix last key) else O
  | _, _ => O
  end.

(** [for (const auto r : restarts_) core::PutFixed32(&buffer_, r)]. *)
Fixpoint put_restarts (buf : bytes) (rs : list Z) : bytes :=
  match rs with
  | [] => buf
  | r :: rs => put_restarts (PutFixed32 buf r) rs
  end.

(** [Finish] returns the buffer. *)
Definition Finish : M BlockBuilder bytes :=
  b <~ get;;
  CHECK (Z.of_nat (length (restarts_ b)) <=? uint32_max);;;
  let buf := PutFixed32 (put_restarts (buffer_ b) (restarts_ b))
               (u32 (Z.of_nat (length (restarts_ b)))) in
  modify (fun b => mkBuilder buf (restarts_ b) (counter_ b) true (last_key_ b));;;
  ret buf.

(** The restart branch: the offset is recorded and the counter reset. *)
Definition restart (b : BlockBuilder) : BlockBuilder :=
  mkBuilder (buffer_ b) (restarts_ b ++ [u32 (zlen (buffer_ b))]) 0 (finished_ b) (last_key_ b).

Definition append_entry (shared : nat) (key value : bytes) (b : BlockBuilder) : BlockBuilder :=
  let buf := PutVarint32 (buffer_ b) (u32 (Z.of_nat shared)) in
  let buf := PutVarint32 buf (u32 (zlen key - Z.of_nat shared)) in
  let buf := PutVarint32 buf (u32 (zlen value)) in
  let buf := buf ++ drop shared key in
  let buf := buf ++ take (Z.to_nat (u32 (zlen value))) value in
  mkBuilder buf (restarts_ b) (counter_ b + 1) (finished_ b)
    (take shared (last_key_ b) ++ drop shared key).

Definition Add (block_restart_interval : Z) (key value : bytes) : M BlockBuilder unit :=
  b <~ get;;
  shared <~
    (if counter_ b <? block_restart_interval then ret (shared_prefix (last_key_ b) key)
     else
       CHECK (zlen (buffer_ b) <=? uint32_max);;;
       modify restart;;;
       ret 0%nat);;
  CHECK (Z.of_nat shared <=? uint32_max);;;
  CHECK (zlen key - Z.of_nat shared <=? uint32_max);;;
  CHECK (zlen value <=? uint32_max);;;
  modify (append_entry shared key value).

(** ** [Block] *)
Record Block := mkBlock {
  data_ : bytes;
  size_ : Z;
  restart_offset_ : Z
}.

(** [DecodeFixed32(data_ + size_ - 4)]; reading outside the data is [None]. *)
Definition NumRestarts (data : bytes) (size : Z) : option Z :=
  DecodeFixed32 (drop (Z.to_nat (size - 4)) data).

Definition Block_new (contents : bytes) : outcome Block :=
  let size := zlen contents in
  if size <? 4 then Done (mkBlock contents 0 0)
  else
    let max_restarts_allowed := (size - 4) / 4 in
    match NumRestarts contents size with
    | None => Crash
    | Some n =>
        if n >? max_restarts_allowed then Done (mkBlock contents 0 0)
        else Done (mkBlock contents size (u32 (u64 (size - u32 (1 + n) * 4))))
    end.

(** [DecodeEntry]: [p] is the bytes from [p] to [limit]; the result is the
    three lengths and the bytes from the key delta to [limit]. *)
Definition DecodeEntry (p : bytes) : option (Z * Z * Z * bytes) :=
  match p with
  | b0 :: b1 :: b2 :: p3 =>
      header ←
        (if Z.lor (Z.lor b0 b1) b2 <? 128 then Some (b0, b1, b2, p3)
         else
           '(shared, p) ← GetVarint32Ptr p;
           '(non_shared, p) ← GetVarint32Ptr p;
           '(value_length, p) ← GetVarint32Ptr p;
           Some (shared, non_shared, value_length, p));
      let '(shared, non_shared, value_length, p) := header in
      if u32 (zlen p) <? u32 (non_shared + value_length) then None
      else Some (shared, non_shared, value_length, p)
  | _ => None
  end.

(** [Block::Iter]; [it_data] is [data_]. *)
Record Iter := mkIter {
  it_data : bytes;
  it_restarts : Z;
  it_num_restarts : Z;
  it_current : Z;
  it_restart_index : Z;
  it_key : bytes;
  it_value : option (Z * Z);
  it_status : Status
}.

Definition set_position (current index : Z) (i : Iter) : Iter :=
  mkIter (it_data i) (it_restarts i) (it_num_restarts i) current index (it_key i) (it_value i)
    (it_status i).

Definition set_entry (key : bytes) (value : option (Z * Z)) (i : Iter) : Iter :=
  mkIter (it_data i) (it_restarts i) (it_num_restarts i) (it_current i) (it_restart_index i)
    key value (it_status i).

Definition Iter_new (data : bytes) (restarts num_restarts : Z) : Iter :=
  mkIter data restarts num_restarts restarts num_restarts [] None StatusOK.

Definition Valid (i : Iter) : bool := it_current i <? it_restarts i.

(** The bytes a piece refers to. *)
Definition piece (data : bytes) (v : option (Z * Z)) : bytes :=
  match v with
  | None => []
  | Some (off, len) => take (Z.to_nat len) (drop (Z.to_nat off) data)
  end.

(** [NextEntryOffset]; the difference with a null pointer is undefined. *)
Definition NextEntryOffset (i : Iter) : outcome Z :=
  match it_value i with
  | Some (off, len) => Done (u32 (off + len))
  | None => Crash
  end.

Definition GetRestartPoint (i : Iter) (index : Z) : outcome Z :=
  match DecodeFixed32 (drop (Z.to_nat (it_restarts i + index * 4)) (it_data i)) with
  | Some v => Done v
  | None => Crash
  end.

Definition SeekToRestartPoint (index : Z) : M Iter unit :=
  i <~ get;;
  offset <~ lift (GetRestartPoint i index);;
  modify (fun i => set_entry [] (Some (offset, 0)) (set_position (it_current i) index i)).

Definition CorruptionError (i : Iter) : Iter :=
  mkIter (it_data i) (it_restarts i) (it_num_restarts i) (it_restarts i) (it_num_restarts i) [] None
    (StatusError DATA_LOSS).

(** The bytes from offset [off] to the restart array; none when [off] is past it. *)
Definition upto_restarts (i : Iter) (off : Z) : bytes :=
  take (Z.to_nat (it_restarts i - off)) (drop (Z.to_nat off) (it_data i)).

(** [while (restart_index_ + 1 < num_restarts_ && ...) ++restart_index_]: at
    most [num_restarts_] rounds. *)
Fixpoint advance_restart (fuel : nat) (i : Iter) (index : Z) : outcome Z :=
  match fuel with
  | O => OutOfFuel
  | S fuel =>
      if u32 (index + 1) <? it_num_restarts i then
        match GetRestartPoint i (u32 (index + 1)) with
        | Done r => if r <? it_current i then advance_restart fuel i (u32 (index + 1)) else Done index
        | Crash => Crash
        | OutOfFuel => OutOfFuel
        end
      else Done index
  end.

Definition advance_fuel (i : Iter) : nat := S (Z.to_nat (it_num_restarts i)).

Definition ParseNextKey : M Iter bool :=
  i <~ get;;
  current <~ lift (NextEntryOffset i);;
  if it_restarts i <=? current then
    modify (set_position (it_restarts i) (it_num_restarts i));;; ret false
  else
    modify (set_position current (it_restart_index i));;;
    match DecodeEntry (upto_restarts i current) with
    | None => modify CorruptionError;;; ret false
    | Some (shared, non_shared, value_length, p) =>
        if zlen (it_key i) <? shared then modify CorruptionError;;; ret false
        else
          let off := it_restarts i - zlen p in
          if zlen (it_data i) <? off + non_shared then crash
          else
            let key := take (Z.to_nat shared) (it_key i) ++ piece (it_data i) (Some (off, non_shared)) in
            modify (set_entry key (Some (off + non_shared, value_length)));;;
            i <~ get;;
            index <~ lift (advance_restart (advance_fuel i) i (it_restart_index i));;
            modify (set_position (it_current i) index);;;
            ret true
    end.

Definition Next : M Iter unit := ParseNextKey;;; ret tt.

Definition SeekToFirst : M Iter unit := SeekToRestartPoint 0;;; ParseNextKey;;; ret tt.

(** The binary search of [Seek]; [None] is a corrupted entry. *)
Fixpoint seek_search (fuel : nat) (i : Iter) (target : bytes) (left right : Z) : outcome (option Z) :=
  match fuel with
  | O => OutOfFuel
  | S fuel =>
      if left <? right then
        let mid := u32 (left + right + 1) / 2 in
        match GetRestartPoint i mid with
        | Done region_offset =>
            match DecodeEntry (upto_restarts i region_offset) with
            | None => Done None
            | Some (shared, non_shared, value_length, p) =>
                if negb (shared =? 0) then Done None
                else
                  let off := it_restarts i - zlen p in
                  if zlen (it_data i) <? off + non_shared then Crash
                  else if bytes_lt (piece (it_data i) (Some (off, non_shared))) target
                  then seek_search fuel i target mid right
                  else seek_search fuel i target left (u32 (mid - 1))
            end
        | Crash => Crash
        | OutOfFuel => OutOfFuel
        end
      else Done (Some left)
  end.

(** The linear search. *)
Fixpoint seek_linear (fuel : nat) (target : bytes) : M Iter unit :=
  match fuel with
  | O => out_of_fuel
  | S fuel =>
      more <~ ParseNextKey;;
      if (more : bool) then
        i <~ get;;
        if bytes_lt (it_key i) target then seek_linear fuel target else ret tt
      else ret tt
  end.

(** Each round of the binary search narrows the range; each round of the linear
    search consumes at least three bytes. *)
Definition Seek (target : bytes) : M Iter unit :=
  i <~ get;;
  found <~ lift (seek_search (S (Z.to_nat (it_num_restarts i))) i target 0
                   (u32 (it_num_restarts i - 1)));;
  match found with
  | None => modify CorruptionError
  | Some index =>
      SeekToRestartPoint index;;;
      seek_linear (S (Z.to_nat (it_restarts i))) target
  end.

(** [NewIterator]: the error iterator, the empty one or an [Iter]. *)
Inductive Iterator :=
| ErrorIterator (s : Status)
| EmptyIterator
| BlockIterator (i : Iter).

Definition NewIterator (b : Block) : outcome Iterator :=
  if size_ b <? 4 then Done (ErrorIterator (StatusError DATA_LOSS))
  else
    match NumRestarts (data_ b) (size_ b) with
    | None => Crash
    | Some n =>
        if n =? 0 then Done EmptyIterator
        else Done (BlockIterator (Iter_new (data_ b) (restart_offset_ b) n))
    end.

(** ** Users of a block: all the entries, and a scan with [Next] *)
Fixpoint add_all (interval : Z) (es : list (bytes * bytes)) : M BlockBuilder unit :=
  match es with
  | [] => ret tt
  | (k, v) :: es => Add interval k v;;; add_all interval es
  end.

(** [while (it->Valid()) { use key and value; it->Next(); }]. *)
Fixpoint scan (fuel : nat) : M Iter (list (bytes * bytes)) :=
  match fuel with
  | O => out_of_fuel
  | S fuel =>
      i <~ get;;
      if Valid i then
        Next;;;
        rest <~ scan fuel;;
        ret ((it_key i, piece (it_data i) (it_value i)) :: rest)
      else ret []
  end.
