(* ===== verification/BlockProofs.v ===== *)
(** * Table blocks: layout of a finished block and the reader on it

    [item] is an entry as the builder laid it out.  [built] relates the state
    of the builder to the items written so far, [block_of] a reader to the
    items of its block; the lemmas show that the reader finds each item. *)
From S2P Require Import Prelude Coding Block.
From stdpp Require Import options.
#[local] Open Scope tf_monad_scope.

(** ** Items *)
Record item := mkItem {
  i_shared : nat;
  i_key : bytes;
  i_val : bytes
}.

Definition entry (it : item) : bytes * bytes := (i_key it, i_val it).

Definition header (it : item) : bytes :=
  EncodeVarint32 (Z.of_nat (i_shared it)) ++
  EncodeVarint32 (zlen (i_key it) - Z.of_nat (i_shared it)) ++
  EncodeVarint32 (zlen (i_val it)).

Definition enc (it : item) : bytes := header it ++ drop (i_shared it) (i_key it) ++ i_val it.

Definition body (items : list item) : bytes := concat (map enc items).

Definition off (items : list item) (j : nat) : nat := length (body (take j items)).

(** Every key shares its prefix with the key before it. *)
Fixpoint chain (prev : bytes) (items : list item) : Prop :=
  match items with
  | [] => True
  | it :: items =>
      (i_shared it <= length (i_key it))%nat /\ (i_shared it <= length prev)%nat /\
      take (i_shared it) prev = take (i_shared it) (i_key it) /\ chain (i_key it) items
  end.

Definition item_bytes (it : item) : Prop := Forall is_byte (i_key it) /\ Forall is_byte (i_val it).

(** The key before position [j]. *)
Definition prev_key (items : list item) (j : nat) : bytes :=
  match j with
  | O => []
  | S j => match items !! j with Some it => i_key it | None => [] end
  end.

Lemma body_app a b : body (a ++ b) = body a ++ body b.
Proof. unfold body. by rewrite map_app, concat_app. Qed.

Lemma body_split items j : body items = body (take j items) ++ body (drop j items).
Proof. by rewrite <-body_app, take_drop. Qed.

Lemma drop_body items j : drop (off items j) (body items) = body (drop j items).
Proof. unfold off. rewrite (body_split items j). apply drop_app_length. Qed.

Lemma off_app items x j : (j <= length items)%nat -> off (items ++ [x]) j = off items j.
Proof. intros. unfold off. by rewrite take_app_le by done. Qed.

Lemma off_all items : off items (length items) = length (body items).
Proof. unfold off. by rewrite take_ge by done. Qed.

Lemma off_S items j it : items !! j = Some it -> off items (S j) = (off items j + length (enc it))%nat.
Proof.
  intros H. unfold off. rewrite (take_S_r _ _ _ H), body_app, length_app. unfold body at 2. simpl.
  by rewrite app_nil_r.
Qed.

Lemma off_le items j : (off items j <= length (body items))%nat.
Proof. unfold off. rewrite (body_split items j), length_app. lia. Qed.

Lemma length_enc_pos it : (3 <= length (enc it))%nat.
Proof.
  unfold enc, header. rewrite !length_app.
  pose proof (EncodeVarint32_length (Z.of_nat (i_shared it))).
  pose proof (EncodeVarint32_length (zlen (i_key it) - Z.of_nat (i_shared it))).
  pose proof (EncodeVarint32_length (zlen (i_val it))). lia.
Qed.

Lemma off_lt items j it : items !! j = Some it -> (off items j < length (body items))%nat.
Proof.
  intros H. pose proof (off_S _ _ _ H). pose proof (length_enc_pos it).
  pose proof (off_le items (S j)). lia.
Qed.

Lemma chain_app prev items it :
  chain prev (items ++ [it]) <->
  chain prev items /\ (i_shared it <= length (i_key it))%nat /\
  let p := match last items with Some x => i_key x | None => prev end in
  (i_shared it <= length p)%nat /\ take (i_shared it) p = take (i_shared it) (i_key it).
Proof.
  revert prev. induction items as [|x items IH]; intros prev; simpl; [tauto|].
  rewrite IH. change (match items with [] => Some x | _ :: _ => last items end) with (last (x :: items)).
  rewrite last_cons. destruct (last items); simpl; tauto.
Qed.

Lemma chain_lookup prev items j it :
  chain prev items -> items !! j = Some it ->
  let p := match j with O => prev | S j => prev_key items (S j) end in
  (i_shared it <= length (i_key it))%nat /\ (i_shared it <= length p)%nat /\
  take (i_shared it) p = take (i_shared it) (i_key it).
Proof.
  revert prev j. induction items as [|x items IH]; intros prev j Hc Hj; [by rewrite lookup_nil in Hj|].
  destruct Hc as (H1 & H2 & H3 & Hc). destruct j as [|j]; simplify_eq/=; [done|].
  destruct (IH (i_key x) j Hc Hj) as (? & ? & ?). split; [done|]. by destruct j.
Qed.

Lemma header_bytes it : Forall is_byte (header it).
Proof. unfold header. rewrite !Forall_app. split_and!; apply EncodeVarint32_bytes. Qed.

Lemma enc_bytes it : item_bytes it -> Forall is_byte (enc it).
Proof.
  intros [Hk Hv]. unfold enc. rewrite !Forall_app.
  split_and!; [apply header_bytes|by apply Forall_drop|done].
Qed.

Lemma body_bytes items : Forall item_bytes items -> Forall is_byte (body items).
Proof.
  unfold body. induction 1 as [|it items H _ IH]; [constructor|]. simpl.
  apply Forall_app. split; [by apply enc_bytes|done].
Qed.

(** ** [DecodeEntry] on a written entry *)
Lemma lor_byte_ge a b : 0 <= a -> 0 <= b -> a <= Z.lor a b.
Proof.
  intros. assert (Z.lor a b = a + Z.ldiff b a) as ->.
  { rewrite <-lor_add_disjoint.
    - apply Z.bits_inj'. intros n Hn. rewrite !Z.lor_spec, Z.ldiff_spec.
      by destruct (Z.testbit a n), (Z.testbit b n).
    - apply Z.bits_inj'. intros n Hn. rewrite Z.land_spec, Z.ldiff_spec, Z.bits_0.
      by destruct (Z.testbit a n), (Z.testbit b n). }
  assert (0 <= Z.ldiff b a) by (apply Z.ldiff_nonneg; lia). lia.
Qed.

Lemma three_small a b c :
  0 <= a -> 0 <= b -> 0 <= c -> Z.lor (Z.lor a b) c < 128 -> a < 128 /\ b < 128 /\ c < 128.
Proof.
  intros Ha Hb Hc H.
  pose proof (lor_byte_ge a b Ha Hb). pose proof (lor_byte_ge b a Hb Ha) as Hba. rewrite Z.lor_comm in Hba.
  assert (0 <= Z.lor a b) by lia.
  pose proof (lor_byte_ge (Z.lor a b) c ltac:(lia) Hc) as Hab.
  pose proof (lor_byte_ge c (Z.lor a b) Hc ltac:(lia)) as Hcc. rewrite Z.lor_comm in Hcc. lia.
Qed.

(** The three lengths, by the fast or the slow path. *)
Lemma decode_header a b c rest :
  in_u32 a -> in_u32 b -> in_u32 c -> Forall is_byte rest ->
  DecodeEntry (EncodeVarint32 a ++ EncodeVarint32 b ++ EncodeVarint32 c ++ rest) =
  if u32 (zlen rest) <? u32 (b + c) then None else Some (a, b, c, rest).
Proof.
  intros Ha Hb Hc Hr.
  assert (Hslow : forall p, p = EncodeVarint32 a ++ EncodeVarint32 b ++ EncodeVarint32 c ++ rest ->
    ('(shared, p) ← GetVarint32Ptr p;
     '(non_shared, p) ← GetVarint32Ptr p;
     '(value_length, p) ← GetVarint32Ptr p;
     Some (shared, non_shared, value_length, p)) = Some (a, b, c, rest)).
  { intros p ->. pose proof (EncodeVarint32_bytes b). pose proof (EncodeVarint32_bytes c).
    rewrite GetVarint32Ptr_encode by (rewrite ?Forall_app; auto). cbn [mbind option_bind].
    rewrite GetVarint32Ptr_encode by (rewrite ?Forall_app; auto). cbn [mbind option_bind].
    by rewrite GetVarint32Ptr_encode. }
  remember (EncodeVarint32 a ++ EncodeVarint32 b ++ EncodeVarint32 c ++ rest) as p eqn:Ep.
  assert (Hlen : (3 <= length p)%nat).
  { rewrite Ep, !length_app. pose proof (EncodeVarint32_length a).
    pose proof (EncodeVarint32_length b). pose proof (EncodeVarint32_length c). lia. }
  assert (Hbytes : Forall is_byte p).
  { rewrite Ep, !Forall_app. split_and!; try apply EncodeVarint32_bytes. done. }
  specialize (Hslow p eq_refl).
  destruct p as [|b0 [|b1 [|b2 p3]]]; simpl in Hlen; try lia.
  unfold DecodeEntry. destruct (Z.ltb_spec (Z.lor (Z.lor b0 b1) b2) 128) as [Hfast|].
  2: { rewrite Hslow. done. }
  rewrite !Forall_cons in Hbytes. unfold is_byte in Hbytes.
  destruct (three_small b0 b1 b2) as (Hs0 & Hs1 & Hs2); try lia.
  assert (b0 = a /\ b1 = b /\ b2 = c /\ p3 = rest) as (-> & -> & -> & ->); [|done].
  destruct (EncodeVarint32_small a Ha) as [[_ Ea]|(x & xs & Ea & ?)];
    rewrite Ea in Ep; injection Ep as -> Ep; [|lia].
  destruct (EncodeVarint32_small b Hb) as [[_ Eb]|(x & xs & Eb & ?)];
    rewrite Eb in Ep; injection Ep as -> Ep; [|lia].
  destruct (EncodeVarint32_small c Hc) as [[_ Ec]|(x & xs & Ec & ?)];
    rewrite Ec in Ep; injection Ep as -> Ep; [done|lia].
Qed.

Lemma DecodeEntry_enc it rest :
  item_bytes it -> Forall is_byte rest -> (i_shared it <= length (i_key it))%nat ->
  zlen (enc it ++ rest) < 2 ^ 32 -> in_u32 (Z.of_nat (i_shared it)) ->
  DecodeEntry (enc it ++ rest) =
  Some (Z.of_nat (i_shared it), zlen (i_key it) - Z.of_nat (i_shared it), zlen (i_val it),
        drop (i_shared it) (i_key it) ++ i_val it ++ rest).
Proof.
  intros [Hk Hv] Hr Hs Hlen Hsu. unfold enc, header in *.
  rewrite <-!app_assoc. unfold zlen in *. rewrite !length_app, length_drop in Hlen.
  unfold in_u32 in *. rewrite decode_header; try (unfold in_u32; lia).
  - unfold zlen. rewrite !length_app, length_drop. unfold u32. rewrite !uwrap_small by lia.
    by rewrite (proj2 (Z.ltb_ge _ _)) by lia.
  - rewrite !Forall_app. split_and!; [by apply Forall_drop|done|done].
Qed.

(** ** The builder *)

(** A restart point is the start of the block or of an item that stores its
    whole key. *)
Definition restart_ok (items : list item) (j : nat) : Prop :=
  j = O \/ exists it, items !! j = Some it /\ i_shared it = O.

Record built (b : BlockBuilder) (items : list item) (js : list nat) : Prop := {
  bu_buf : buffer_ b = body items;
  bu_restarts : restarts_ b = map (fun j => Z.of_nat (off items j)) js;
  bu_last : last_key_ b = match last items with Some it => i_key it | None => [] end;
  bu_chain : chain [] items;
  bu_bytes : Forall item_bytes items;
  bu_js : Forall (restart_ok items) js;
  bu_first : js !! O = Some O;
  bu_count : (length js <= S (length items))%nat
}.

(** Room for the entries: an upper bound of the bytes they take. *)
Fixpoint room (es : list (bytes * bytes)) : Z :=
  match es with
  | [] => 8
  | (k, v) :: es => 19 + zlen k + zlen v + room es
  end.

Lemma room_app es k v : room (es ++ [(k, v)]) = room es + 19 + zlen k + zlen v.
Proof. induction es as [|[k' v'] es IH]; simpl; [lia|]. rewrite IH. lia. Qed.

Lemma zlen_nonneg l : 0 <= zlen l.
Proof. unfold zlen. lia. Qed.

Lemma length_enc_le it :
  (i_shared it <= length (i_key it))%nat -> zlen (enc it) <= 15 + zlen (i_key it) + zlen (i_val it).
Proof.
  intros. unfold enc, header, zlen. rewrite !length_app, length_drop.
  pose proof (EncodeVarint32_length (Z.of_nat (i_shared it))).
  pose proof (EncodeVarint32_length (zlen (i_key it) - Z.of_nat (i_shared it))).
  pose proof (EncodeVarint32_length (zlen (i_val it))). unfold zlen in *. lia.
Qed.

Lemma chain_shared_le prev items : chain prev items ->
  Forall (fun it => (i_shared it <= length (i_key it))%nat) items.
Proof.
  revert prev. induction items as [|it items IH]; intros prev Hc; [constructor|].
  destruct Hc as (? & _ & _ & Hc). constructor; [done|]. by eapply IH.
Qed.

Lemma room_body items : Forall (fun it => (i_shared it <= length (i_key it))%nat) items ->
  zlen (body items) + 4 * Z.of_nat (length items) + 8 <= room (map entry items).
Proof.
  induction 1 as [|it items H _ IH]; [done|]. cbn [map room entry body concat].
  fold (body items). pose proof (length_enc_le it H). unfold zlen in *.
  rewrite length_app. cbn [length]. lia.
Qed.

Lemma shared_prefix_spec last key :
  let n := shared_prefix last key in
  (n <= length last)%nat /\ (n <= length key)%nat /\ take n last = take n key.
Proof.
  revert key. induction last as [|x last IH]; intros [|y key]; simpl; try by split_and!; lia || done.
  destruct (Z.eqb_spec x y) as [->|]; [|by split_and!; lia || done].
  destruct (IH key) as (? & ? & E). simpl. rewrite E. split_and!; lia || done.
Qed.

Lemma restart_ok_app items it j : (j <= length items)%nat -> restart_ok items j -> restart_ok (items ++ [it]) j.
Proof.
  intros Hj [->|(x & Hx & Hs)]; [by left|]. right. exists x. split; [|done]. by apply lookup_app_l_Some.
Qed.

Lemma restart_ok_le items j : restart_ok items j -> (j <= length items)%nat.
Proof. intros [->|(x & Hx & _)]; [lia|]. apply lookup_lt_Some in Hx. lia. Qed.

Lemma restarts_app items it js : Forall (restart_ok items) js ->
  map (fun j => Z.of_nat (off (items ++ [it]) j)) js = map (fun j => Z.of_nat (off items j)) js.
Proof.
  intros H. apply list_fmap_ext. intros i j Hj. f_equal. apply off_app.
  apply restart_ok_le. exact (Forall_lookup_1 _ _ _ _ H Hj).
Qed.

(** Writing an entry with [shared] bytes in common. *)
Lemma append_entry_built b items js shared k v :
  built b items js -> Forall is_byte k -> Forall is_byte v ->
  (shared <= length k)%nat -> (shared <= length (last_key_ b))%nat ->
  take shared (last_key_ b) = take shared k ->
  room (map entry items ++ [(k, v)]) < 2 ^ 32 ->
  built (append_entry shared k v b) (items ++ [mkItem shared k v]) js.
Proof.
  intros [Hb Hr Hl Hc Hby Hj Hf Hn] Hk Hv Hs Hs2 Ht Hroom. rewrite room_app in Hroom.
  pose proof (room_body items (chain_shared_le _ _ Hc)) as Hrb.
  pose proof (zlen_nonneg (body items)). pose proof (zlen_nonneg k). pose proof (zlen_nonneg v).
  assert (Hu : forall z, 0 <= z < 2 ^ 32 -> u32 z = z) by (intros; by apply uwrap_small).
  assert (Hz : Z.of_nat shared <= zlen k) by (unfold zlen; lia).
  split; cbn [append_entry buffer_ restarts_ last_key_].
  - unfold PutVarint32. rewrite !Hu by lia. rewrite Hb, body_app.
    change (body [mkItem shared k v]) with (enc (mkItem shared k v) ++ []).
    unfold enc, header. simpl. rewrite (take_ge v) by (unfold zlen; lia).
    rewrite ?app_nil_r, <-!app_assoc. done.
  - rewrite Hr. symmetry. by apply restarts_app.
  - rewrite last_snoc. simpl. rewrite Ht. apply take_drop.
  - apply chain_app. simpl. rewrite <-Hl. done.
  - apply Forall_app. split; [done|]. by apply Forall_singleton.
  - eapply Forall_impl; [exact Hj|]. intros j H'. apply restart_ok_app; [by apply restart_ok_le|done].
  - done.
  - rewrite length_app. simpl. lia.
Qed.

Lemma shared_prefix_nil key : shared_prefix [] key = O.
Proof. by destruct key. Qed.

Lemma Add_spec interval b items js k v :
  built b items js -> Forall is_byte k -> Forall is_byte v ->
  room (map entry items ++ [(k, v)]) < 2 ^ 32 ->
  exists b' shared js', Add interval k v b = Done (tt, b') /\
    built b' (items ++ [mkItem shared k v]) js'.
Proof.
  intros Hbu Hk Hv Hroom. pose proof Hroom as Hroom'. rewrite room_app in Hroom'.
  pose proof (room_body items (chain_shared_le _ _ (bu_chain _ _ _ Hbu))) as Hrb.
  pose proof (zlen_nonneg (body items)). pose proof (zlen_nonneg k). pose proof (zlen_nonneg v).
  assert (Hcheck : forall shared (b0 : BlockBuilder), (shared <= length k)%nat ->
    (CHECK (Z.of_nat shared <=? uint32_max);;;
     CHECK (zlen k - Z.of_nat shared <=? uint32_max);;;
     CHECK (zlen v <=? uint32_max);;;
     modify (append_entry shared k v)) b0 = Done (tt, append_entry shared k v b0)).
  { intros shared b0 Hs. unfold bind, CHECK, modify, uint32_max.
    rewrite !(proj2 (Z.leb_le _ _)) by (unfold zlen in *; lia). done. }
  unfold Add, bind at 1, get. destruct (counter_ b <? interval).
  - destruct (shared_prefix_spec (last_key_ b) k) as (Hp1 & Hp2 & Hp3).
    unfold bind at 1, ret. rewrite Hcheck by done.
    eexists _, _, js. split; [done|]. by apply append_entry_built.
  - assert (E0 : (CHECK (zlen (buffer_ b) <=? uint32_max);;; modify restart;;; ret 0%nat) b
                 = Done (0%nat, restart b)).
    { unfold bind, CHECK. rewrite (bu_buf _ _ _ Hbu).
      by rewrite (proj2 (Z.leb_le _ _)) by (unfold uint32_max; lia). }
    rewrite (bind_Done _ _ _ _ _ E0), Hcheck by lia.
    eexists _, 0%nat, (js ++ [length items]). split; [done|].
    destruct Hbu as [Hb Hr Hl Hc Hby Hj Hf Hn].
    assert (Hbu' : built (append_entry 0 k v b) (items ++ [mkItem 0 k v]) js).
    { apply append_entry_built; try done; lia. }
    assert (Hlast : restart_ok (items ++ [mkItem 0 k v]) (length items)).
    { right. eexists. split; [apply list_lookup_middle; done|done]. }
    destruct Hbu' as [Hb' Hr' Hl' Hc' Hby' Hj' Hf' Hn']. split; try done.
    + cbn [append_entry restart restarts_]. rewrite map_app. f_equal.
      * rewrite Hr. symmetry. by apply restarts_app.
      * simpl. rewrite off_app, off_all by done. rewrite Hb. unfold u32. rewrite uwrap_small by lia. done.
    + apply Forall_app. split; [done|]. by apply Forall_singleton.
    + by rewrite lookup_app_l by (destruct js; simpl in *; [done|lia]).
    + rewrite !length_app. simpl. lia.
Qed.

Lemma built_new : built BlockBuilder_new [] [O].
Proof. split; try done. constructor; [by left|constructor]. Qed.

Lemma add_all_spec interval es : forall b items js,
  built b items js -> Forall (fun e => Forall is_byte e.1 /\ Forall is_byte e.2) es ->
  room (map entry items ++ es) < 2 ^ 32 ->
  exists b' items' js', add_all interval es b = Done (tt, b') /\ built b' items' js' /\
    map entry items' = map entry items ++ es.
Proof.
  induction es as [|[k v] es IH]; intros b items js Hb Hes Hroom.
  { exists b, items, js. by rewrite app_nil_r. }
  apply Forall_cons in Hes as [[Hk Hv] Hes]. simpl in Hk, Hv.
  assert (Hmono : forall l1 l2, room l1 <= room (l1 ++ l2)).
  { induction l1 as [|[k1 v1] l1 IHl]; intros l2; simpl.
    - clear. induction l2 as [|[k2 v2] l2 IHl2]; simpl; [lia|].
      pose proof (zlen_nonneg k2). pose proof (zlen_nonneg v2). lia.
    - specialize (IHl l2). lia. }
  destruct (Add_spec interval b items js k v) as (b1 & sh & js1 & E & Hb1); try done.
  { rewrite cons_middle, app_assoc in Hroom. pose proof (Hmono (map entry items ++ [(k, v)]) es). lia. }
  destruct (IH b1 _ js1 Hb1 Hes) as (b2 & items2 & js2 & E2 & Hb2 & Hm2).
  { rewrite map_app, <-app_assoc. done. }
  exists b2, items2, js2. cbn [add_all]. rewrite (bind_Done _ _ _ _ _ E). split; [done|].
  split; [done|]. rewrite Hm2, map_app, <-app_assoc. done.
Qed.

(** * Table blocks: the iterator on a finished block

    [block_of] states that an iterator reads a block with given items and
    restart points; [before] and [at_item] are its possible positions.  The
    lemmas show what [ParseNextKey], the binary search and the linear search
    do from each of them. *)

(** ** The finished block *)
Definition trailer (items : list item) (js : list nat) : bytes :=
  concat (map (fun j => EncodeFixed32 (Z.of_nat (off items j))) js) ++
  EncodeFixed32 (Z.of_nat (length js)).

Definition contents (items : list item) (js : list nat) : bytes := body items ++ trailer items js.

Lemma length_fixed32s (f : nat -> Z) js :
  length (concat (map (fun j => EncodeFixed32 (f j)) js)) = (4 * length js)%nat.
Proof. induction js as [|j js IH]; [done|]. cbn [map concat]. rewrite length_app, IH. simpl. lia. Qed.

Lemma length_trailer items js : length (trailer items js) = (4 * length js + 4)%nat.
Proof. unfold trailer. rewrite length_app, length_fixed32s. done. Qed.

Lemma put_restarts_concat rs : forall buf,
  put_restarts buf rs = buf ++ concat (map EncodeFixed32 rs).
Proof.
  induction rs as [|r rs IH]; intros buf; simpl; [by rewrite app_nil_r|].
  rewrite IH. unfold PutFixed32. by rewrite <-app_assoc.
Qed.

Lemma Finish_spec b items js :
  built b items js -> room (map entry items) < 2 ^ 32 ->
  exists b', Finish b = Done (contents items js, b').
Proof.
  intros [Hb Hr Hl Hc Hby Hj Hf Hn] Hroom. pose proof (room_body items (chain_shared_le _ _ Hc)).
  pose proof (zlen_nonneg (body items)).
  unfold Finish, bind, get, CHECK. rewrite Hr, length_map.
  rewrite (proj2 (Z.leb_le _ _)) by (unfold uint32_max; lia).
  eexists. unfold modify, ret. f_equal. f_equal. unfold contents, trailer, PutFixed32.
  rewrite put_restarts_concat, Hb, map_map, <-app_assoc. f_equal. f_equal.
  unfold u32. rewrite uwrap_small by lia. done.
Qed.

(** Decoding the [k]-th restart point of the trailer. *)
Lemma decode_fixed32s (f : nat -> Z) js : forall (k j : nat) rest,
  js !! k = Some j -> 0 <= f j < 2 ^ 32 ->
  DecodeFixed32 (drop (4 * k) (concat (map (fun j => EncodeFixed32 (f j)) js) ++ rest)) = Some (f j).
Proof.
  induction js as [|x js IH]; intros k j rest Hk Hj; [by rewrite lookup_nil in Hk|].
  destruct k as [|k]; simplify_eq/=.
  - exact (DecodeFixed32_split (f j) (concat (map (fun j => EncodeFixed32 (f j)) js) ++ rest) Hj).
  - replace (k + S (k + S (k + S (k + 0))))%nat with (3 + 4 * k)%nat by lia. simpl.
    replace (k + (k + (k + (k + 0))))%nat with (4 * k)%nat by lia. by apply IH.
Qed.

(** ** Iterators on the block *)
Record block_of (items : list item) (js : list nat) (i : Iter) : Prop := {
  bo_data : it_data i = contents items js;
  bo_restarts : it_restarts i = zlen (body items);
  bo_num : it_num_restarts i = Z.of_nat (length js);
  bo_index : 0 <= it_restart_index i <= Z.of_nat (length js);
  bo_status : it_status i = StatusOK
}.

Section reader.
Context (items : list item) (js : list nat).
Hypothesis Hchain : chain [] items.
Hypothesis Hbytes : Forall item_bytes items.
Hypothesis Hjs : Forall (restart_ok items) js.
Hypothesis Hfirst : js !! O = Some O.
Hypothesis Hcount : (length js <= S (length items))%nat.
Hypothesis Hroom : room (map entry items) < 2 ^ 32.

Lemma size_bound : zlen (body items) + 4 * Z.of_nat (length items) + 8 < 2 ^ 32.
Proof using All. pose proof (room_body items (chain_shared_le _ _ Hchain)). lia. Qed.

Lemma off_range j : 0 <= Z.of_nat (off items j) <= zlen (body items).
Proof using All. pose proof (off_le items j). unfold zlen. lia. Qed.

Lemma GetRestartPoint_spec i (k j : nat) :
  block_of items js i -> js !! k = Some j ->
  GetRestartPoint i (Z.of_nat k) = Done (Z.of_nat (off items j)).
Proof using All.
  intros [Hd Hr _ _ _] Hk. pose proof size_bound. pose proof (off_range j).
  unfold GetRestartPoint. rewrite Hd, Hr. unfold contents, zlen.
  replace (Z.to_nat (Z.of_nat (length (body items)) + Z.of_nat k * 4))
    with (length (body items) + 4 * k)%nat by lia.
  rewrite <-drop_drop, drop_app_length. unfold trailer.
  rewrite (decode_fixed32s (fun j => Z.of_nat (off items j)) js k j) by (done || lia). done.
Qed.

(** The bytes between an item and the trailer. *)
Lemma upto_restarts_spec i j :
  block_of items js i -> upto_restarts i (Z.of_nat (off items j)) = body (drop j items).
Proof using All.
  intros [Hd Hr _ _ _]. unfold upto_restarts. rewrite Hd, Hr, Nat2Z.id. unfold contents, zlen.
  pose proof (off_le items j).
  rewrite drop_app_le, drop_body by done.
  replace (Z.to_nat _) with (length (body (drop j items))).
  - by rewrite take_app_length.
  - rewrite (body_split items j), length_app. fold (off items j). lia.
Qed.

(** Decoding the item at position [j]. *)
Lemma DecodeEntry_at i j it :
  block_of items js i -> items !! j = Some it ->
  DecodeEntry (upto_restarts i (Z.of_nat (off items j))) =
  Some (Z.of_nat (i_shared it), zlen (i_key it) - Z.of_nat (i_shared it), zlen (i_val it),
        drop (i_shared it) (i_key it) ++ i_val it ++ body (drop (S j) items)).
Proof using All.
  intros Hb Hj. rewrite (upto_restarts_spec _ _ Hb). rewrite (drop_S _ _ _ Hj).
  change (body (it :: drop (S j) items)) with (enc it ++ body (drop (S j) items)).
  pose proof size_bound. pose proof (off_lt items j it Hj) as Ho.
  assert (Hlen : zlen (enc it ++ body (drop (S j) items)) < 2 ^ 32).
  { rewrite (body_split items j), (drop_S _ _ _ Hj) in *.
    change (body (it :: drop (S j) items)) with (enc it ++ body (drop (S j) items)) in *.
    unfold zlen in *. rewrite !length_app in *. lia. }
  destruct (chain_lookup _ _ _ _ Hchain Hj) as (Hs & _ & _).
  pose proof (length_enc_pos it).
  apply DecodeEntry_enc; try done.
  - exact (Forall_lookup_1 _ _ _ _ Hbytes Hj).
  - apply body_bytes. by apply Forall_drop.
  - unfold in_u32. unfold enc, header, zlen in Hlen. rewrite !length_app, length_drop in Hlen.
    split; [lia|].
    assert (Z.of_nat (length (i_key it)) <= room (map entry items)); [|lia].
    clear -Hj. revert j Hj. induction items as [|x l IH]; intros j Hj; [by rewrite lookup_nil in Hj|].
    destruct j as [|j]; simplify_eq/=.
    + assert (0 <= room (map entry l)).
      { clear. induction l as [|y l IH]; simpl; [lia|].
        pose proof (zlen_nonneg (i_key y)). pose proof (zlen_nonneg (i_val y)). lia. }
      pose proof (zlen_nonneg (i_val it)). unfold zlen. lia.
    + specialize (IH j Hj). pose proof (zlen_nonneg (i_key x)). pose proof (zlen_nonneg (i_val x)). lia.
Qed.

(** The key delta and the value as pieces of the block. *)
Lemma pieces_at j it i :
  block_of items js i -> items !! j = Some it ->
  let o := zlen (body items) - zlen (drop (i_shared it) (i_key it) ++ i_val it ++ body (drop (S j) items)) in
  o + (zlen (i_key it) - Z.of_nat (i_shared it)) + zlen (i_val it) = Z.of_nat (off items (S j)) /\
  0 <= o /\ o + (zlen (i_key it) - Z.of_nat (i_shared it)) <= zlen (it_data i) /\
  piece (it_data i) (Some (o, zlen (i_key it) - Z.of_nat (i_shared it))) = drop (i_shared it) (i_key it) /\
  piece (it_data i) (Some (o + (zlen (i_key it) - Z.of_nat (i_shared it)), zlen (i_val it))) = i_val it.
Proof using All.
  intros Hb Hj o. destruct (chain_lookup _ _ _ _ Hchain Hj) as (Hs & _ & _).
  assert (Hsplit : body items = body (take j items) ++ header it ++ drop (i_shared it) (i_key it) ++
                     i_val it ++ body (drop (S j) items)).
  { rewrite (body_split items j), (drop_S _ _ _ Hj). f_equal.
    change (body (it :: drop (S j) items)) with (enc it ++ body (drop (S j) items)).
    unfold enc. by rewrite <-!app_assoc. }
  assert (Ho : o = Z.of_nat (length (body (take j items) ++ header it))).
  { unfold o, zlen. rewrite Hsplit, !length_app. lia. }
  rewrite (bo_data _ _ _ Hb). unfold contents.
  assert (HoS : off items (S j) = (length (body (take j items) ++ header it) +
      length (drop (i_shared it) (i_key it)) + length (i_val it))%nat).
  { rewrite (off_S _ _ _ Hj). unfold off, enc. rewrite !length_app. lia. }
  pose proof (off_le items (S j)) as Hle.
  rewrite length_drop in HoS. rewrite Ho. unfold piece, zlen in *.
  split_and!; try lia.
  - rewrite (length_app (body items)). lia.
  - replace (Z.to_nat (Z.of_nat (length (i_key it)) - Z.of_nat (i_shared it)))
      with (length (drop (i_shared it) (i_key it))) by (rewrite length_drop; lia).
    rewrite Nat2Z.id, Hsplit, (app_assoc (body (take j items))), <-(app_assoc (_ ++ header it)).
    rewrite drop_app_length, <-app_assoc. apply take_app_length.
  - replace (Z.to_nat (Z.of_nat (length (body (take j items) ++ header it)) +
               (Z.of_nat (length (i_key it)) - Z.of_nat (i_shared it))))
      with (length ((body (take j items) ++ header it) ++ drop (i_shared it) (i_key it)))
      by (rewrite (length_app (_ ++ _)), length_drop; lia).
    rewrite Hsplit, Nat2Z.id.
    replace ((body (take j items) ++ header it ++ drop (i_shared it) (i_key it) ++ i_val it ++
              body (drop (S j) items)) ++ trailer items js)
      with (((body (take j items) ++ header it) ++ drop (i_shared it) (i_key it)) ++ i_val it ++
              body (drop (S j) items) ++ trailer items js) by (by rewrite <-!app_assoc).
    rewrite drop_app_length. apply take_app_length.
Qed.

(** Just before item [j]: the next entry starts there and the current key has
    the prefix the item shares. *)
Definition before (i : Iter) (j : nat) : Prop :=
  (exists o l, it_value i = Some (o, l) /\ o + l = Z.of_nat (off items j)) /\
  forall it, items !! j = Some it ->
    (i_shared it <= length (it_key i))%nat /\
    take (i_shared it) (it_key i) = take (i_shared it) (i_key it).

Record at_item (i : Iter) (j : nat) (it : item) : Prop := {
  at_lookup : items !! j = Some it;
  at_current : it_current i = Z.of_nat (off items j);
  at_key : it_key i = i_key it;
  at_value : piece (it_data i) (it_value i) = i_val it;
  at_next : before i (S j)
}.

Lemma advance_restart_spec i fuel : forall index,
  block_of items js i -> 0 <= index <= Z.of_nat (length js) ->
  Z.of_nat (length js) - index < Z.of_nat fuel ->
  exists index', advance_restart fuel i index = Done index' /\ 0 <= index' <= Z.of_nat (length js).
Proof using All.
  induction fuel as [|fuel IH]; intros index Hb Hi Hf; [lia|]. cbn [advance_restart].
  pose proof size_bound. unfold u32. pose proof (zlen_nonneg (body items)).
  rewrite uwrap_small, (bo_num _ _ _ Hb) by lia.
  destruct (Z.ltb_spec (index + 1) (Z.of_nat (length js))) as [Hlt|]; [|by eexists].
  destruct (lookup_lt_is_Some_2 js (Z.to_nat (index + 1)) ltac:(lia)) as [j Hj].
  pose proof (GetRestartPoint_spec i _ j Hb Hj) as E. rewrite Z2Nat.id in E by lia. rewrite E.
  destruct (_ <? _); [|by eexists]. apply IH; (done || lia).
Qed.

Lemma ParseNextKey_item i j it :
  block_of items js i -> before i j -> items !! j = Some it ->
  exists i', ParseNextKey i = Done (true, i') /\ block_of items js i' /\ at_item i' j it.
Proof using All.
  intros Hb [(o & l & Hv & Hol) Hpre] Hj. destruct (Hpre it Hj) as [Hsk Htk].
  pose proof size_bound. pose proof (off_range j). pose proof (off_lt items j it Hj) as Hlt.
  unfold ParseNextKey, bind at 1, get. unfold bind at 1, NextEntryOffset. rewrite Hv. cbn [lift].
  unfold u32. rewrite uwrap_small by lia. rewrite Hol.
  rewrite (bo_restarts _ _ _ Hb), (proj2 (Z.leb_gt _ _)) by (unfold zlen; lia).
  unfold bind at 1, modify at 1. rewrite (DecodeEntry_at i j it Hb Hj).
  rewrite (proj2 (Z.ltb_ge _ _)) by (unfold zlen; lia).
  destruct (pieces_at j it i Hb Hj) as (Hnext & Ho0 & Hod & Hk & Hval). cbv zeta.
  rewrite (proj2 (Z.ltb_ge _ _)) by done. rewrite Hk, Nat2Z.id, Htk, take_drop.
  unfold bind at 1, modify at 1. unfold bind at 1, get. unfold bind at 1.
  set (i1 := set_entry _ _ _).
  assert (Hb1 : block_of items js i1) by (destruct Hb as [? ? ? ? ?]; by split).
  destruct (advance_restart_spec i1 (advance_fuel i1) (it_restart_index i1) Hb1) as (ix & E & Hix).
  { apply Hb1. }
  { pose proof (bo_index _ _ _ Hb1). unfold advance_fuel. rewrite (bo_num _ _ _ Hb1). lia. }
  rewrite E. cbn [lift]. eexists. split; [reflexivity|]. split; [by destruct Hb1; split|].
  split; try done.
  - split.
    + eexists _, _. split; [reflexivity|]. lia.
    + intros it' Hj'. cbn [it_key set_position set_entry i1].
      destruct (chain_lookup _ _ _ _ Hchain Hj') as (_ & H2 & H3). simpl in H2, H3.
      by rewrite Hj in H2, H3.
Qed.

Lemma ParseNextKey_end i :
  block_of items js i -> before i (length items) ->
  exists i', ParseNextKey i = Done (false, i') /\ block_of items js i' /\ Valid i' = false.
Proof using All.
  intros Hb [(o & l & Hv & Hol) _]. pose proof size_bound. pose proof (zlen_nonneg (body items)).
  unfold ParseNextKey, bind at 1, get. unfold bind at 1, NextEntryOffset. rewrite Hv. cbn [lift].
  rewrite off_all in Hol. fold (zlen (body items)) in Hol.
  unfold u32. rewrite uwrap_small by lia. rewrite Hol, (bo_restarts _ _ _ Hb), Z.leb_refl.
  unfold bind, modify, ret. eexists. split; [done|]. split.
  - destruct Hb as [? ? Hn ? ?]. split; try done. simpl. lia.
  - unfold Valid. simpl. rewrite (bo_restarts _ _ _ Hb). apply Z.ltb_irrefl.
Qed.

Lemma at_item_valid i j it : block_of items js i -> at_item i j it -> Valid i = true.
Proof using All.
  intros Hb [Hj Hc _ _ _]. unfold Valid. rewrite Hc, (bo_restarts _ _ _ Hb).
  pose proof (off_lt items j it Hj). apply Z.ltb_lt. unfold zlen. lia.
Qed.

Lemma SeekToRestartPoint_spec i (k j : nat) :
  block_of items js i -> js !! k = Some j ->
  exists i', SeekToRestartPoint (Z.of_nat k) i = Done (tt, i') /\ block_of items js i' /\ before i' j.
Proof using All.
  intros Hb Hk. unfold SeekToRestartPoint, bind, get. rewrite (GetRestartPoint_spec i k j Hb Hk).
  cbn [lift]. unfold modify. eexists. split; [reflexivity|]. split.
  - destruct Hb as [? ? ? ? ?]. split; try done. simpl. apply lookup_lt_Some in Hk. lia.
  - split; [by eexists _, _; split; [reflexivity|lia]|]. intros it Hj.
    assert (Hs : i_shared it = O).
    { destruct (Forall_lookup_1 _ _ _ _ Hjs Hk) as [->|(it' & Hj' & Hs)].
      - destruct (chain_lookup _ _ _ _ Hchain Hj) as (_ & Hle & _). simpl in Hle. lia.
      - congruence. }
    rewrite Hs. split; [lia|done].
Qed.

(** ** Scanning *)
Lemma scan_unfold fuel :
  scan (S fuel) =
  (i <~ get;;
   if Valid i then
     Next;;; rest <~ scan fuel;; ret ((it_key i, piece (it_data i) (it_value i)) :: rest)
   else ret []).
Proof using. done. Qed.

Lemma scan_invalid fuel i : Valid i = false -> scan (S fuel) i = Done ([], i).
Proof using. intros Hv. rewrite scan_unfold. unfold bind, get. by rewrite Hv. Qed.

(** ** Searching *)

(** The binary search ends at a restart point whose key is below the target, or at 0. *)
Definition below (target : bytes) (k : Z) : Prop :=
  k = 0 \/ exists j it, js !! Z.to_nat k = Some j /\ items !! j = Some it /\ bytes_lt (i_key it) target = true.

Lemma seek_search_spec i target fuel : forall lo hi,
  block_of items js i -> 0 <= lo <= hi -> hi < Z.of_nat (length js) ->
  (0 < hi -> items <> []) -> hi - lo < Z.of_nat fuel -> below target lo ->
  exists k, seek_search fuel i target lo hi = Done (Some k) /\
    0 <= k < Z.of_nat (length js) /\ below target k.
Proof using All.
  induction fuel as [|fuel IH]; intros lo hi Hb Hlo Hhi Hne Hf Hbl; [lia|]. cbn [seek_search].
  destruct (Z.ltb_spec lo hi) as [Hlt|]; [|by exists lo; split_and!; (done || lia)].
  pose proof size_bound. pose proof (zlen_nonneg (body items)). unfold u32. rewrite uwrap_small by lia.
  set (mid := (lo + hi + 1) / 2).
  assert (Hmid : lo < mid <= hi).
  { unfold mid. split; [apply Z.lt_le_trans with (lo + 1); [lia|apply Z.div_le_lower_bound; lia]|].
    apply Z.div_le_upper_bound; lia. }
  destruct (lookup_lt_is_Some_2 js (Z.to_nat mid) ltac:(lia)) as [j Hj].
  pose proof (GetRestartPoint_spec i _ j Hb Hj) as E. rewrite Z2Nat.id in E by lia. rewrite E.
  assert (exists it, items !! j = Some it /\ i_shared it = O) as (it & Hit & Hs).
  { destruct (Forall_lookup_1 _ _ _ _ Hjs Hj) as [->|?]; [|done].
    destruct items as [|x l]; [by destruct Hne; [lia|]|]. exists x. split; [done|].
    destruct Hchain as (_ & Hle & _). simpl in Hle. lia. }
  rewrite (DecodeEntry_at i j it Hb Hit).
  replace (Z.of_nat (i_shared it) =? 0) with true by (by rewrite Hs). cbn [negb]. cbv zeta.
  destruct (pieces_at j it i Hb Hit) as (_ & Ho0 & Hod & Hk & _).
  rewrite (bo_restarts _ _ _ Hb). rewrite (proj2 (Z.ltb_ge _ _)) by exact Hod.
  rewrite Hk, Hs, drop_0.
  destruct (bytes_lt (i_key it) target) eqn:Ec.
  - apply IH; try done; try lia. right. by exists j, it.
  - rewrite uwrap_small by lia. apply IH; try done; try lia. intros. apply Hne. lia.
Qed.

(** The linear search stops at the first item whose key is not below the target. *)
Lemma seek_linear_spec target fuel : forall i j,
  block_of items js i -> before i j -> (j <= length items)%nat -> (length items - j < fuel)%nat ->
  exists i', seek_linear fuel target i = Done (tt, i') /\ block_of items js i' /\
    ((exists j' it, (j <= j')%nat /\ at_item i' j' it /\ bytes_lt (i_key it) target = false /\
        forall m x, (j <= m < j')%nat -> items !! m = Some x -> bytes_lt (i_key x) target = true) \/
     (Valid i' = false /\
        forall m x, (j <= m)%nat -> items !! m = Some x -> bytes_lt (i_key x) target = true)).
Proof using All.
  induction fuel as [|fuel IH]; intros i j Hb Hp Hj Hf; [lia|]. cbn [seek_linear].
  destruct (decide (j = length items)) as [->|Hne].
  { destruct (ParseNextKey_end i Hb Hp) as (i1 & E & Hb1 & Hv1). rewrite (bind_Done _ _ _ _ _ E).
    exists i1. split; [done|]. split; [done|]. right. split; [done|].
    intros m x Hm Hx. apply lookup_lt_Some in Hx. lia. }
  destruct (lookup_lt_is_Some_2 items j ltac:(lia)) as [it Hit].
  destruct (ParseNextKey_item i j it Hb Hp Hit) as (i1 & E & Hb1 & Ha1).
  rewrite (bind_Done _ _ _ _ _ E). unfold bind at 1, get. rewrite (at_key _ _ _ Ha1).
  destruct (bytes_lt (i_key it) target) eqn:Ec.
  - destruct (IH i1 (S j) Hb1 (at_next _ _ _ Ha1)) as (i2 & E2 & Hb2 & H2); [lia|lia|].
    exists i2. split; [done|]. split; [done|].
    assert (Hext : forall m x (P : Prop), (j <= m)%nat -> items !! m = Some x ->
       ((S j <= m)%nat -> bytes_lt (i_key x) target = true) -> bytes_lt (i_key x) target = true).
    { intros m x _ Hm Hx H'. destruct (decide (m = j)) as [->|]; [congruence|]. apply H'. lia. }
    destruct H2 as [(j' & it' & Hle & Ha' & Hge & Hall)|[Hv Hall]]; [left|right].
    + exists j', it'. split_and!; try done; [lia|]. intros m x Hm Hx.
      apply (Hext m x True); [lia|done|]. intros. apply (Hall m); [lia|done].
    + split; [done|]. intros m x Hm Hx. apply (Hext m x True); [lia|done|]. intros. by apply (Hall m).
  - exists i1. split; [done|]. split; [done|]. left. exists j, it. split_and!; try done. lia.
Qed.
End reader.
