(* ===== verification/BlockTheorems.v ===== *)
(** * Table blocks: the properties

    A block written by the builder is read back entry by entry in order, and
    [Seek] finds the first entry at or after its target from every state an
    iterator can be in. *)
From S2P Require Import Prelude Coding Block BlockProofs.
From stdpp Require Import options.
#[local] Open Scope tf_monad_scope.

(** ** The order on keys *)
Lemma bytes_compare_trans a : forall b c,
  bytes_lt a b = true -> bytes_lt b c = true -> bytes_lt a c = true.
Proof.
  induction a as [|x a IH]; intros [|y b] [|z c]; unfold bytes_lt; simpl; try done.
  destruct (Z.compare_spec x y) as [->|Hxy|], (Z.compare_spec y z) as [->|Hyz|]; try done.
  - exact (IH b c).
  - intros _ _. by rewrite (proj2 (Z.compare_lt_iff _ _)) by lia.
  - intros _ _. by rewrite (proj2 (Z.compare_lt_iff _ _)) by lia.
Qed.

(** Keys in strictly increasing order, as [Add] requires. *)
Definition sorted_keys (es : list (bytes * bytes)) : Prop :=
  forall m n x y, (m < n)%nat -> es !! m = Some x -> es !! n = Some y -> bytes_lt x.1 y.1 = true.

(** ** Building and opening a block *)
Definition build_block (interval : Z) (es : list (bytes * bytes)) : outcome bytes :=
  match add_all interval es BlockBuilder_new with
  | Done (_, b) =>
      match Finish b with Done (c, _) => Done c | Crash => Crash | OutOfFuel => OutOfFuel end
  | Crash => Crash
  | OutOfFuel => OutOfFuel
  end.

Definition open_block (c : bytes) : outcome Iterator :=
  match Block_new c with
  | Done blk => NewIterator blk
  | Crash => Crash
  | OutOfFuel => OutOfFuel
  end.

Definition entry_bytes (es : list (bytes * bytes)) : Prop :=
  Forall (fun e => Forall is_byte e.1 /\ Forall is_byte e.2) es.

(** The states of an iterator: after any sequence of its operations, [Next]
    only where [Valid] holds. *)
Inductive reached (i0 : Iter) : Iter -> Prop :=
| reached_new : reached i0 i0
| reached_first i i' : reached i0 i -> SeekToFirst i = Done (tt, i') -> reached i0 i'
| reached_seek i i' target : reached i0 i -> Seek target i = Done (tt, i') -> reached i0 i'
| reached_next i i' : reached i0 i -> Valid i = true -> Next i = Done (tt, i') -> reached i0 i'.

(** What a finished block guarantees to its readers. *)
Record good_block (items : list item) (js : list nat) : Prop := {
  gb_chain : chain [] items;
  gb_bytes : Forall item_bytes items;
  gb_js : Forall (restart_ok items) js;
  gb_first : js !! O = Some O;
  gb_count : (length js <= S (length items))%nat;
  gb_room : room (map entry items) < 2 ^ 32
}.

Lemma build_block_spec interval es :
  entry_bytes es -> room es < 2 ^ 32 ->
  exists items js, build_block interval es = Done (contents items js) /\
    map entry items = es /\ good_block items js.
Proof.
  intros Hes Hroom.
  destruct (add_all_spec interval es BlockBuilder_new [] [O] built_new Hes Hroom)
    as (b & items & js & E & Hb & Hm). simpl in Hm.
  destruct (Finish_spec b items js Hb) as (b' & E2); [congruence|].
  exists items, js. split; [unfold build_block; by rewrite E, E2|]. split; [done|].
  destruct Hb as [? ? ? ? ? ? ? ?]. split; (done || congruence).
Qed.

Lemma open_block_spec items js :
  good_block items js ->
  open_block (contents items js) =
  Done (BlockIterator (Iter_new (contents items js) (zlen (body items)) (Z.of_nat (length js)))).
Proof.
  intros [H1 H2 H3 H4 H5 H6]. pose proof (size_bound items js H1 H2 H3 H4 H5 H6) as Hsz.
  pose proof (zlen_nonneg (body items)).
  assert (Hlen : zlen (contents items js) = zlen (body items) + 4 * Z.of_nat (length js) + 4).
  { unfold contents, zlen. rewrite length_app, length_trailer. lia. }
  assert (Hn : NumRestarts (contents items js) (zlen (contents items js)) = Some (Z.of_nat (length js))).
  { unfold NumRestarts. rewrite Hlen.
    replace (Z.to_nat _) with (length (body items ++ concat (map (fun j => EncodeFixed32 (Z.of_nat (off items j))) js)))
      by (rewrite length_app, length_fixed32s; unfold zlen; lia).
    unfold contents, trailer. rewrite app_assoc, drop_app_length.
    rewrite <-(app_nil_r (EncodeFixed32 _)). apply DecodeFixed32_split. lia. }
  unfold open_block, Block_new. cbv zeta. rewrite (proj2 (Z.ltb_ge _ 4)) by lia. rewrite Hn.
  rewrite Z.gtb_ltb, (proj2 (Z.ltb_ge _ _)).
  2: { rewrite Hlen. apply Z.div_le_lower_bound; lia. }
  unfold NewIterator. cbn [size_ data_ restart_offset_].
  rewrite (proj2 (Z.ltb_ge _ 4)) by lia. rewrite Hn.
  assert (0 < length js)%nat by (apply lookup_lt_Some in H4; lia).
  rewrite (proj2 (Z.eqb_neq _ _)) by lia. unfold u32, u64.
  rewrite (uwrap_small 32 (1 + _)) by lia. rewrite (uwrap_small 64) by lia.
  rewrite uwrap_small by lia. do 3 f_equal. lia.
Qed.

Section good.
Context (items : list item) (js : list nat) (Hg : good_block items js).

Definition start : Iter := Iter_new (contents items js) (zlen (body items)) (Z.of_nat (length js)).

(** The invariant of iterators: a valid one is at an item. *)
Definition iter_inv (i : Iter) : Prop :=
  block_of items js i /\ (Valid i = true -> exists j it, at_item items i j it).

Lemma start_inv : iter_inv start.
Proof using Hg.
  split; [split; done || (simpl; lia)|]. unfold Valid. simpl. by rewrite Z.ltb_irrefl.
Qed.

Lemma SeekToFirst_spec i : block_of items js i ->
  exists i', SeekToFirst i = Done (tt, i') /\ block_of items js i' /\
    ((exists it, at_item items i' O it) \/ (items = [] /\ Valid i' = false)).
Proof using Hg.
  intros Hb. destruct Hg as [H1 H2 H3 H4 H5 H6].
  destruct (SeekToRestartPoint_spec items js H1 H2 H3 H4 H5 H6 i O O Hb H4) as (i1 & E & Hb1 & Hp).
  unfold SeekToFirst. change 0 with (Z.of_nat 0). rewrite (bind_Done _ _ _ _ _ E).
  destruct items as [|x l] eqn:Ei.
  - destruct (ParseNextKey_end [] js H1 H2 H3 H4 H5 H6 i1 Hb1 Hp) as (i2 & E2 & Hb2 & Hv2).
    rewrite (bind_Done _ _ _ _ _ E2). exists i2. split; [done|]. split; [done|]. by right.
  - destruct (ParseNextKey_item (x :: l) js H1 H2 H3 H4 H5 H6 i1 O x Hb1 Hp eq_refl) as (i2 & E2 & Hb2 & Ha2).
    rewrite (bind_Done _ _ _ _ _ E2). exists i2. split; [done|]. split; [done|]. left. by exists x.
Qed.

(** [Seek] stops at the first item at or after the target, for sorted keys. *)
Lemma Seek_spec i target : block_of items js i -> 
  exists i', Seek target i = Done (tt, i') /\ block_of items js i' /\
    ((exists j it, at_item items i' j it /\ bytes_lt (i_key it) target = false /\
       (sorted_keys (map entry items) ->
        forall m x, (m < j)%nat -> items !! m = Some x -> bytes_lt (i_key x) target = true)) \/
     (Valid i' = false /\
       (sorted_keys (map entry items) ->
        forall m x, items !! m = Some x -> bytes_lt (i_key x) target = true))).
Proof using Hg.
  intros Hb. destruct Hg as [H1 H2 H3 H4 H5 H6].
  pose proof (size_bound items js H1 H2 H3 H4 H5 H6) as Hsz. pose proof (zlen_nonneg (body items)).
  assert (Hjs : (0 < length js)%nat) by (apply lookup_lt_Some in H4; lia).
  unfold Seek, bind at 1, get. unfold bind at 1, u32.
  rewrite (bo_num _ _ _ Hb), uwrap_small by lia.
  destruct (seek_search_spec items js H1 H2 H3 H4 H5 H6 i target (S (Z.to_nat (Z.of_nat (length js)))) 0
              (Z.of_nat (length js) - 1)) as (k & E & Hk & Hbl); try done; try lia.
  { intros Hpos ->. simpl in H5. lia. }
  { by left. }
  rewrite E. cbn [lift].
  destruct (lookup_lt_is_Some_2 js (Z.to_nat k) ltac:(lia)) as [j Hj].
  destruct (SeekToRestartPoint_spec items js H1 H2 H3 H4 H5 H6 i _ j Hb Hj) as (i1 & E1 & Hb1 & Hp1).
  rewrite Z2Nat.id in E1 by lia. rewrite (bind_Done _ _ _ _ _ E1).
  assert (Hjle : (j <= length items)%nat) by (apply restart_ok_le, (Forall_lookup_1 _ _ _ _ H3 Hj)).
  assert (Hrest : forall m x, sorted_keys (map entry items) -> (m < j)%nat -> items !! m = Some x ->
            bytes_lt (i_key x) target = true).
  { intros m x Hsort Hm Hx. destruct Hbl as [->|(j' & it & Hj' & Hit & Hlt)].
    - change (Z.to_nat 0) with O in Hj. rewrite H4 in Hj. simplify_eq. lia.
    - assert (j' = j) as -> by congruence. eapply bytes_compare_trans; [|exact Hlt].
      apply (Hsort m j (entry x) (entry it)); [done| |]; rewrite list_lookup_fmap; by rewrite ?Hx, ?Hit. }
  destruct (seek_linear_spec items js H1 H2 H3 H4 H5 H6 target (S (Z.to_nat (it_restarts i))) i1 j Hb1 Hp1 Hjle)
    as (i2 & E2 & Hb2 & Hres).
  { rewrite (bo_restarts _ _ _ Hb). unfold zlen. rewrite Nat2Z.id.
    assert (length items <= length (body items))%nat; [|lia]. clear.
    induction items as [|x l IH]; [done|]. change (body (x :: l)) with (enc x ++ body l).
    rewrite length_app. pose proof (length_enc_pos x). simpl. lia. }
  exists i2. split; [done|]. split; [done|].
  destruct Hres as [(j' & it & Hle & Ha & Hge & Hall)|[Hv Hall]]; [left|right].
  - exists j', it. split_and!; try done. intros Hsort m x Hm Hx.
    destruct (decide (m < j)%nat); [by apply (Hrest m)|]. apply (Hall m); [lia|done].
  - split; [done|]. intros Hsort m x Hx. destruct (decide (m < j)%nat); [by apply (Hrest m)|].
    apply (Hall m); [lia|done].
Qed.

Lemma Next_spec i j it : block_of items js i -> at_item items i j it ->
  exists i', Next i = Done (tt, i') /\ block_of items js i' /\
    ((exists it', at_item items i' (S j) it') \/ (S j = length items /\ Valid i' = false)).
Proof using Hg.
  intros Hb Ha. destruct Hg as [H1 H2 H3 H4 H5 H6]. pose proof (lookup_lt_Some _ _ _ (at_lookup _ _ _ _ Ha)).
  unfold Next. destruct (decide (S j = length items)) as [He|Hne].
  - pose proof (at_next _ _ _ _ Ha) as Hn. rewrite He in Hn.
    destruct (ParseNextKey_end items js H1 H2 H3 H4 H5 H6 i Hb Hn) as (i1 & E & Hb1 & Hv1).
    rewrite (bind_Done _ _ _ _ _ E). exists i1. split; [done|]. split; [done|]. by right.
  - destruct (lookup_lt_is_Some_2 items (S j) ltac:(lia)) as [it1 Hj1].
    destruct (ParseNextKey_item items js H1 H2 H3 H4 H5 H6 i (S j) it1 Hb (at_next _ _ _ _ Ha) Hj1)
      as (i1 & E & Hb1 & Ha1).
    rewrite (bind_Done _ _ _ _ _ E). exists i1. split; [done|]. split; [done|]. left. by exists it1.
Qed.

Lemma reached_inv i : reached start i -> iter_inv i.
Proof using Hg.
  induction 1 as [|i i' _ [Hb _] E|i i' target _ [Hb _] E|i i' _ [Hb Hv] Hval E].
  - apply start_inv.
  - destruct (SeekToFirst_spec i Hb) as (i1 & E1 & Hb1 & Hpos). assert (i1 = i') as -> by congruence.
    split; [done|]. intros Hv. destruct Hpos as [[it Ha]|[_ Hv']]; [by exists O, it|congruence].
  - destruct (Seek_spec i target Hb) as (i1 & E1 & Hb1 & Hpos). assert (i1 = i') as -> by congruence.
    split; [done|]. intros Hv. destruct Hpos as [(j & it & Ha & _)|[Hv' _]]; [by exists j, it|congruence].
  - destruct (Hv Hval) as (j & it & Ha).
    destruct (Next_spec i j it Hb Ha) as (i1 & E1 & Hb1 & Hpos). assert (i1 = i') as -> by congruence.
    split; [done|]. intros Hv1. destruct Hpos as [[it' Ha']|[_ Hv']]; [by exists (S j), it'|congruence].
Qed.
End good.

(** The entries at or after [target]. *)
Definition at_or_after (target : bytes) (es : list (bytes * bytes)) : list (bytes * bytes) :=
  filter (fun e => bytes_lt e.1 target = false) es.

Lemma filter_sorted items target (j : nat) :
  (forall m x, (m < j)%nat -> items !! m = Some x -> bytes_lt (i_key x) target = true) ->
  (forall m x, (j <= m)%nat -> items !! m = Some x -> bytes_lt (i_key x) target = false) ->
  at_or_after target (map entry items) = map entry (drop j items).
Proof.
  revert j. induction items as [|x items IH]; intros j Hlo Hhi; [by rewrite drop_nil|].
  unfold at_or_after. cbn [map]. rewrite filter_cons. fold (at_or_after target (map entry items)).
  destruct j as [|j].
  - rewrite decide_True by (by apply (Hhi O)). rewrite (IH O), drop_0; [done| |].
    + intros; lia.
    + intros m y _ Hy. by apply (Hhi (S m)); [lia|].
  - rewrite decide_False.
    + cbn [drop]. apply IH; intros m y Hm Hy; [apply (Hlo (S m))|apply (Hhi (S m))]; (done || lia).
    + unfold entry. simpl. rewrite (Hlo O x); [done|lia|done].
Qed.

(** ** Positions *)

(** The iterator has [l] before it: its entry and the ones after it. *)
Definition blk_pos (items : list item) (js : list nat) (i : Iter) (l : list (bytes * bytes)) : Prop :=
  block_of items js i /\
  ((exists j it, at_item items i j it /\ l = map entry (drop j items)) \/ (l = [] /\ Valid i = false)).

Section positions.
Context (items : list item) (js : list nat) (Hg : good_block items js).

Lemma blk_pos_cons i e l : blk_pos items js i (e :: l) ->
  Valid i = true /\ it_key i = e.1 /\ piece (it_data i) (it_value i) = e.2 /\
  exists i', Next i = Done (tt, i') /\ blk_pos items js i' l.
Proof using Hg.
  intros [Hb [(j & it & Ha & Hl)|[[=] _]]]. pose proof Hg as [H1 H2 H3 H4 H5 H6].
  rewrite (drop_S _ _ _ (at_lookup _ _ _ _ Ha)) in Hl. injection Hl as -> ->.
  split_and!; [by eapply at_item_valid|apply Ha|apply Ha|].
  destruct (Next_spec items js Hg i j it Hb Ha) as (i' & E & Hb' & Hpos). exists i'. split; [done|].
  split; [done|]. destruct Hpos as [[it' Ha']|[Hj Hv]]; [left; by exists (S j), it'|right].
  by rewrite Hj, drop_ge by done.
Qed.

Lemma blk_pos_nil i : blk_pos items js i [] -> Valid i = false.
Proof using.
  intros [Hb [(j & it & Ha & Hl)|[_ ?]]]; [|done].
  by rewrite (drop_S _ _ _ (at_lookup _ _ _ _ Ha)) in Hl.
Qed.

Lemma SeekToFirst_pos i : block_of items js i ->
  exists i', SeekToFirst i = Done (tt, i') /\ blk_pos items js i' (map entry items).
Proof using Hg.
  intros Hb. destruct (SeekToFirst_spec items js Hg i Hb) as (i1 & E & Hb1 & Hpos).
  exists i1. split; [done|]. split; [done|]. destruct Hpos as [[it Ha]|[Hi Hv]]; [left|right; by rewrite Hi].
  by exists O, it.
Qed.

Lemma Seek_pos i target : block_of items js i -> sorted_keys (map entry items) ->
  exists i', Seek target i = Done (tt, i') /\ blk_pos items js i' (at_or_after target (map entry items)).
Proof using Hg.
  intros Hb Hsorted. destruct (Seek_spec items js Hg i target Hb) as (i1 & E1 & Hb1 & Hpos). exists i1.
  split; [done|]. split; [done|]. destruct Hpos as [(j & it & Ha & Hge & Hlo)|[Hv Hlo]]; [left|right].
  - exists j, it. split; [done|]. apply filter_sorted; [by apply Hlo|].
    intros m x Hm Hx. destruct (decide (m = j)) as [->|Hne].
    { rewrite (at_lookup _ _ _ _ Ha) in Hx. by simplify_eq. }
    apply not_true_iff_false. intros Hlt. apply not_true_iff_false in Hge. apply Hge.
    eapply bytes_compare_trans; [|exact Hlt].
    apply (Hsorted j m (entry it) (entry x)); [lia| |]; rewrite list_lookup_fmap;
      [by rewrite (at_lookup _ _ _ _ Ha)|by rewrite Hx].
  - split; [|done]. rewrite (filter_sorted items target (length items)); [by rewrite drop_ge|..].
    + intros m x _. by apply Hlo.
    + intros m x Hm Hx. apply lookup_lt_Some in Hx. lia.
Qed.

Lemma scan_pos l : forall i fuel, blk_pos items js i l -> (length l < fuel)%nat ->
  exists i', scan fuel i = Done (l, i') /\ it_status i' = StatusOK.
Proof using Hg.
  induction l as [|e l IH]; intros i [|fuel] Hp Hf; simpl in Hf; try lia.
  - exists i. split; [by apply scan_invalid, blk_pos_nil|apply Hp].
  - destruct (blk_pos_cons i e l Hp) as (Hv & Hk & Hpv & i1 & E & Hp1).
    destruct (IH i1 fuel Hp1 ltac:(lia)) as (i2 & E2 & Hs). exists i2. split; [|done].
    rewrite scan_unfold. unfold bind at 1, get. rewrite Hv, (bind_Done _ _ _ _ _ E), (bind_Done _ _ _ _ _ E2), Hk, Hpv.
    by destruct e.
Qed.
End positions.

Lemma length_at_or_after target es : (length (at_or_after target es) <= length es)%nat.
Proof. apply length_filter. Qed.

(** ** A concrete block for the witnesses *)
Definition example_entries : list (bytes * bytes) := [([97], [1]); ([97; 98], [2]); ([98], [3; 4])].

Definition example_contents : bytes :=
  [0; 1; 1; 97; 1; 1; 1; 1; 98; 2; 0; 1; 2; 98; 3; 4; 0; 0; 0; 0; 10; 0; 0; 0; 2; 0; 0; 0].

Definition example_iter : Iter := Iter_new example_contents 16 2.

Lemma example_entries_bytes : entry_bytes example_entries.
Proof. repeat constructor; unfold is_byte; simpl; lia. Qed.

Lemma example_entries_sorted : sorted_keys example_entries.
Proof.
  intros m n x y Hmn Hx Hy. pose proof (lookup_lt_Some _ _ _ Hy) as Hn. simpl in Hn.
  destruct n as [|[|[|n]]]; [lia| | |lia]; destruct m as [|[|m]]; try lia; simplify_eq/=; done.
Qed.

(** An iterator at the start of a block whose entry claims wrapping lengths. *)
Definition corrupt_iter : Iter :=
  set_entry [] (Some (0, 0)) (Iter_new [0; 255; 255; 255; 255; 15; 1; 7; 0; 0; 0; 0; 1; 0; 0; 0] 8 1).

(** ** Properties *)

(** block round trip.  Entries of byte strings whose encoding fits in 32
    bits, added with any restart interval, make a block that opens to an
    iterator on which [SeekToFirst] and then [Next] until [Valid] fails yield
    exactly the entries, in order, without an error status.  Nothing aborts
    and every loop ends. *)
Theorem block_roundtrip (interval : Z) (es : list (bytes * bytes))
    (Hes : entry_bytes es) (Hroom : room es < 2 ^ 32) :
  exists c i0 i1 i2, build_block interval es = Done c /\ open_block c = Done (BlockIterator i0) /\
    SeekToFirst i0 = Done (tt, i1) /\ scan (S (length es)) i1 = Done (es, i2) /\
    it_status i2 = StatusOK.
Proof.
  destruct (build_block_spec interval es Hes Hroom) as (items & js & E & <- & Hg).
  pose proof (start_inv items js Hg) as [Hb _].
  destruct (SeekToFirst_pos items js Hg _ Hb) as (i1 & E1 & Hp1).
  destruct (scan_pos items js Hg _ i1 (S (length (map entry items))) Hp1 ltac:(lia)) as (i2 & E2 & Hs).
  eexists _, _, i1, i2. split; [done|]. split; [by apply open_block_spec|]. done.
Qed.

Lemma block_roundtrip_witness :
  exists c i0 i1 i2, build_block 2 example_entries = Done c /\ open_block c = Done (BlockIterator i0) /\
    SeekToFirst i0 = Done (tt, i1) /\ scan (S (length example_entries)) i1 = Done (example_entries, i2) /\
    it_status i2 = StatusOK.
Proof. apply (block_roundtrip 2 example_entries); [apply example_entries_bytes|reflexivity]. Defined.

(** [Seek] on a block of strictly increasing keys, from any state the
    iterator can have reached, returns, and scanning on from there yields
    exactly the entries whose key is not below the target (none when all are),
    without an error status: the binary search over the restart points skips
    nothing. *)
Theorem block_seek (interval : Z) (es : list (bytes * bytes)) (target c : bytes) (i0 i : Iter)
    (Hes : entry_bytes es) (Hroom : room es < 2 ^ 32) (Hsorted : sorted_keys es)
    (Hbuild : build_block interval es = Done c) (Hopen : open_block c = Done (BlockIterator i0))
    (Hi : reached i0 i) :
  exists i1 i2, Seek target i = Done (tt, i1) /\
    scan (S (length es)) i1 = Done (at_or_after target es, i2) /\ it_status i2 = StatusOK.
Proof.
  destruct (build_block_spec interval es Hes Hroom) as (items & js & E & <- & Hg).
  rewrite E in Hbuild. injection Hbuild as <-. rewrite (open_block_spec items js Hg) in Hopen.
  injection Hopen as <-. destruct (reached_inv items js Hg i Hi) as [Hb _].
  destruct (Seek_pos items js Hg i target Hb Hsorted) as (i1 & E1 & Hp1).
  pose proof (length_at_or_after target (map entry items)).
  destruct (scan_pos items js Hg _ i1 (S (length (map entry items))) Hp1 ltac:(lia)) as (i2 & E2 & Hs).
  by exists i1, i2.
Qed.

Lemma block_seek_witness :
  exists i1 i2, Seek [97; 97] example_iter = Done (tt, i1) /\
    scan (S (length example_entries)) i1 = Done (at_or_after [97; 97] example_entries, i2) /\
    it_status i2 = StatusOK.
Proof.
  apply (block_seek 2 example_entries [97; 97] example_contents example_iter example_iter).
  - apply example_entries_bytes.
  - reflexivity.
  - apply example_entries_sorted.
  - reflexivity.
  - reflexivity.
  - apply reached_new.
Defined.

(** the length check of [DecodeEntry] adds the two lengths in 32 bits: an
    entry that claims 2^32 - 1 key bytes and one value byte passes it with any
    number of bytes left, and [ParseNextKey] then reads past the block. *)
Theorem block_entry_overflow (i : Iter) (rest : bytes)
    (Hrest : Forall is_byte rest) (Hlen : zlen rest < 2 ^ 32)
    (Hpos : it_value i = Some (0, 0)) (Hrs : 0 < it_restarts i)
    (Hp : upto_restarts i 0 = EncodeVarint32 0 ++ EncodeVarint32 (2 ^ 32 - 1) ++ EncodeVarint32 1 ++ rest)
    (Hdata : it_restarts i <= zlen (it_data i) < 2 ^ 32) :
  DecodeEntry (upto_restarts i 0) = Some (0, 2 ^ 32 - 1, 1, rest) /\ ParseNextKey i = Crash.
Proof.
  assert (Hd : DecodeEntry (upto_restarts i 0) = Some (0, 2 ^ 32 - 1, 1, rest)).
  { rewrite Hp. rewrite decode_header; try done; try (unfold in_u32; lia).
    change (u32 (2 ^ 32 - 1 + 1)) with 0. rewrite (proj2 (Z.ltb_ge _ 0)); [done|].
    unfold u32. apply uwrap_range. lia. }
  split; [done|]. unfold ParseNextKey, bind at 1, get. unfold bind at 1, NextEntryOffset. rewrite Hpos.
  cbn [lift]. change (u32 (0 + 0)) with 0. rewrite (proj2 (Z.leb_gt _ _)) by lia.
  unfold bind at 1, modify at 1. rewrite Hd. rewrite (proj2 (Z.ltb_ge _ 0)) by apply zlen_nonneg.
  cbv zeta. rewrite (proj2 (Z.ltb_lt _ _)); [done|].
  assert (zlen rest + 7 = it_restarts i); [|lia].
  assert (Hl : length (upto_restarts i 0) = Z.to_nat (it_restarts i)).
  { unfold upto_restarts. rewrite length_take, length_drop. unfold zlen in Hdata. lia. }
  rewrite Hp in Hl. unfold zlen. rewrite !length_app in Hl.
  change (length (EncodeVarint32 0)) with 1%nat in Hl.
  change (length (EncodeVarint32 (2 ^ 32 - 1))) with 5%nat in Hl.
  change (length (EncodeVarint32 1)) with 1%nat in Hl. lia.
Qed.

Lemma block_entry_overflow_witness :
  DecodeEntry (upto_restarts corrupt_iter 0) = Some (0, 2 ^ 32 - 1, 1, [7]) /\
  ParseNextKey corrupt_iter = Crash.
Proof.
  apply (block_entry_overflow corrupt_iter [7]).
  - repeat constructor; lia.
  - reflexivity.
  - reflexivity.
  - reflexivity.
  - reflexivity.
  - split; [done|reflexivity].
Defined.
