(* ===== verification/TableFormat.v ===== *)
(** * Table files: handles, footer and reading a block
    (src/tensorflow/core/lib/io/format.h, format.cc)

    A table file is a sequence of blocks, each followed by a compression type
    byte and a masked checksum, and ends with a footer that locates the index
    block.  The file and the compression library are outside the sources
    modelled here and enter through the classes [RandomAccessFile] and
    [Snappy]. *)
From S2P Require Import Prelude Coding Block Crc32c.
From stdpp Require Import options.

(** ** Interfaces *)

(** [RandomAccessFile::Read(offset, n)]: the status, the bytes, and whether
    they are in the caller's buffer ([data == buf]). *)
Class RandomAccessFile := {
  file_read : Z -> Z -> Status * bytes * bool
}.

(** port::Snappy_*: [None] is the result [false]. *)
Class Snappy := {
  Snappy_Compress : bytes -> option bytes;
  Snappy_GetUncompressedLength : bytes -> option Z;
  Snappy_Uncompress : bytes -> option bytes
}.

(** What the library documents: decompressing what was compressed gives it back. *)
Class SnappyLaws `{Snappy} : Prop := {
  snappy_inverse raw c : Snappy_Compress raw = Some c ->
    Snappy_GetUncompressedLength c = Some (zlen raw) /\ Snappy_Uncompress c = Some raw;
  snappy_bytes raw c : Snappy_Compress raw = Some c -> Forall is_byte raw -> Forall is_byte c
}.

(** A file with the contents [f]: reads inside it succeed and return the bytes. *)
Definition reads_file `{RandomAccessFile} (f : bytes) : Prop :=
  forall off n, 0 <= off -> 0 <= n -> off + n <= zlen f ->
    exists own, file_read off n = (StatusOK, take (Z.to_nat n) (drop (Z.to_nat off) f), own).

(** ** Block handles *)
Record BlockHandle := mkHandle {
  offset_ : Z;
  hsize_ : Z
}.

Definition kMaxEncodedLength : nat := 20.

(** [None] is a loop of the varint writer out of fuel, which does not happen. *)
Definition EncodeTo (dst : bytes) (h : BlockHandle) : option bytes :=
  dst ← PutVarint64 dst (offset_ h);
  PutVarint64 dst (hsize_ h).

(** [None] is the "bad block handle" status. *)
Definition DecodeFrom (input : bytes) : option (BlockHandle * bytes) :=
  '(off, input) ← GetVarint64 input;
  '(size, input) ← GetVarint64 input;
  Some (mkHandle off size, input).

(** ** Footer *)
Record Footer := mkFooter {
  metaindex_handle_ : BlockHandle;
  index_handle_ : BlockHandle
}.

Definition kTableMagicNumber : Z := 0xdb4775248b80fb57.

Definition kEncodedLength : nat := 48.

(** [string::resize]. *)
Definition resize (n : nat) (s : bytes) : bytes := take n s ++ replicate (n - length s) 0.

Definition Footer_EncodeTo (dst : bytes) (f : Footer) : option bytes :=
  dst ← EncodeTo dst (metaindex_handle_ f);
  dst ← EncodeTo dst (index_handle_ f);
  let dst := resize (2 * kMaxEncodedLength) dst in
  let dst := PutFixed32 dst (Z.land kTableMagicNumber 0xffffffff) in
  Some (PutFixed32 dst (Z.shiftr kTableMagicNumber 32)).

(** [Crash] is a read past the end of the input. *)
Definition Footer_DecodeFrom (input : bytes) : outcome (Status * option (Footer * bytes)) :=
  let magic_ptr := drop (kEncodedLength - 8) input in
  match DecodeFixed32 magic_ptr, DecodeFixed32 (drop 4 magic_ptr) with
  | Some magic_lo, Some magic_hi =>
      let magic := Z.lor (Z.shiftl magic_hi 32) magic_lo in
      if negb (magic =? kTableMagicNumber) then Done (StatusError DATA_LOSS, None)
      else
        match DecodeFrom input with
        | None => Done (StatusError DATA_LOSS, None)
        | Some (metaindex, input') =>
            match DecodeFrom input' with
            | None => Done (StatusError DATA_LOSS, None)
            | Some (index, _) => Done (StatusOK, Some (mkFooter metaindex index, drop 8 magic_ptr))
            end
        end
  | _, _ => Crash
  end.

(** ** Reading a block *)
Definition kBlockTrailerSize : Z := 5.

Definition kNoCompression : Z := 0.

Definition kSnappyCompression : Z := 1.

Record BlockContents := mkContents {
  bc_data : bytes;
  cacheable : bool;
  heap_allocated : bool
}.

(** The checksum of a buffer does not depend on its address, so address 0 stands
    for any. *)
Definition crc32c_Value (data : bytes) : Z := Value 0 data.

Definition ReadBlock `{RandomAccessFile, Snappy} (handle : BlockHandle) :
    outcome (Status * option BlockContents) :=
  let n := hsize_ handle in
  if kBlockTrailerSize >? 2 ^ 64 - 1 - n then Done (StatusError DATA_LOSS, None)
  else
    let '(s, contents, own) := file_read (offset_ handle) (n + kBlockTrailerSize) in
    if negb (ok s) then Done (s, None)
    else if negb (zlen contents =? n + kBlockTrailerSize) then Done (StatusError DATA_LOSS, None)
    else
      match DecodeFixed32 (drop (Z.to_nat (n + 1)) contents) with
      | None => Crash
      | Some stored =>
          if negb (crc32c_Value (take (Z.to_nat (n + 1)) contents) =? Unmask stored)
          then Done (StatusError DATA_LOSS, None)
          else
            let data := take (Z.to_nat n) contents in
            match nth (Z.to_nat n) contents 0 with
            | 0 => Done (StatusOK, Some (mkContents data own own))
            | 1 =>
                match Snappy_GetUncompressedLength data, Snappy_Uncompress data with
                | Some ulength, Some u =>
                    if zlen u =? ulength then Done (StatusOK, Some (mkContents u true true)) else Crash
                | _, _ => Done (StatusError DATA_LOSS, None)
                end
            | _ => Done (StatusError DATA_LOSS, None)
            end
      end.

(** ** Round trips *)
Definition handle_ok (h : BlockHandle) : Prop := in_u64 (offset_ h) /\ in_u64 (hsize_ h).

Lemma EncodeTo_spec dst h : handle_ok h ->
  exists e, EncodeTo dst h = Some (dst ++ e) /\ (2 <= length e <= kMaxEncodedLength)%nat /\ Forall is_byte e /\
    (forall rest, DecodeFrom (e ++ rest) = Some (h, rest)).
Proof.
  intros [Ho Hs].
  destruct (EncodeVarint64_spec _ Ho) as (b1 & E1 & L1 & B1 & G1).
  destruct (EncodeVarint64_spec _ Hs) as (b2 & E2 & L2 & B2 & G2).
  exists (b1 ++ b2). unfold EncodeTo, PutVarint64. rewrite E1. cbn [mbind option_bind]. rewrite E2. cbn [mbind option_bind].
  rewrite <-app_assoc. split; [done|]. rewrite length_app. unfold kMaxEncodedLength.
  split; [lia|]. split; [by apply Forall_app|]. intros rest. unfold DecodeFrom.
  rewrite <-app_assoc, G1. cbn [mbind option_bind]. rewrite G2. cbn [mbind option_bind]. by destruct h.
Qed.

(** The encoding of a handle, as a total function. *)
Definition handle_encoding (h : BlockHandle) : bytes := default [] (EncodeTo [] h).

Lemma handle_encoding_spec h : handle_ok h ->
  (forall dst, EncodeTo dst h = Some (dst ++ handle_encoding h)) /\
  (2 <= length (handle_encoding h) <= 20)%nat /\ Forall is_byte (handle_encoding h) /\
  (forall rest, DecodeFrom (handle_encoding h ++ rest) = Some (h, rest)).
Proof.
  intros Hh. destruct (EncodeTo_spec [] h Hh) as (e & E & L & B & D).
  assert (He : handle_encoding h = e) by (unfold handle_encoding; by rewrite E).
  rewrite He. split_and!; try done; unfold kMaxEncodedLength in *; try lia.
  intros dst. destruct (EncodeTo_spec dst h Hh) as (e' & E' & _ & _ & D').
  rewrite E'. do 2 f_equal.
  unfold EncodeTo, PutVarint64 in E, E'. cbn [mbind option_bind app] in E.
  destruct (EncodeVarint64 (offset_ h)) as [b1|]; cbn [mbind option_bind app] in *; [|done].
  destruct (EncodeVarint64 (hsize_ h)) as [b2|]; cbn [mbind option_bind app] in *; [|done].
  simplify_eq. rewrite <-app_assoc in E'. by simplify_list_eq.
Qed.

Lemma handle_encoding_inj h1 h2 : handle_ok h1 -> handle_ok h2 ->
  handle_encoding h1 = handle_encoding h2 -> h1 = h2.
Proof.
  intros H1 H2 E. destruct (handle_encoding_spec h1 H1) as (_ & _ & _ & D1).
  destruct (handle_encoding_spec h2 H2) as (_ & _ & _ & D2).
  specialize (D1 []). rewrite E, D2 in D1. congruence.
Qed.

Lemma Footer_roundtrip f rest :
  handle_ok (metaindex_handle_ f) -> handle_ok (index_handle_ f) ->
  exists e, Footer_EncodeTo [] f = Some e /\ length e = kEncodedLength /\ Forall is_byte e /\
    Footer_DecodeFrom (e ++ rest) = Done (StatusOK, Some (f, rest)).
Proof.
  intros Hm Hi. destruct (handle_encoding_spec _ Hm) as (E1 & L1 & B1 & D1).
  destruct (handle_encoding_spec _ Hi) as (E2 & L2 & B2 & D2).
  set (e1 := handle_encoding (metaindex_handle_ f)) in *.
  set (e2 := handle_encoding (index_handle_ f)) in *.
  set (pad := replicate (40 - length (e1 ++ e2)) 0).
  assert (Hr : resize (2 * kMaxEncodedLength) (e1 ++ e2) = e1 ++ e2 ++ pad).
  { unfold resize. change (2 * kMaxEncodedLength)%nat with 40%nat.
    rewrite take_ge by (rewrite length_app; lia). unfold pad. by rewrite <-app_assoc. }
  set (magic := EncodeFixed32 (Z.land kTableMagicNumber 0xffffffff) ++ EncodeFixed32 (Z.shiftr kTableMagicNumber 32)).
  exists ((e1 ++ e2 ++ pad) ++ magic).
  assert (Hlen : length (e1 ++ e2 ++ pad) = 40%nat).
  { unfold pad. rewrite app_assoc, length_app, length_replicate, !length_app. lia. }
  split_and!.
  - unfold Footer_EncodeTo. rewrite E1. cbn [mbind option_bind app]. rewrite E2. cbn [mbind option_bind].
    unfold PutFixed32. rewrite Hr. unfold magic. by rewrite <-!app_assoc.
  - rewrite length_app, Hlen. done.
  - rewrite !Forall_app. split_and!; try done; [by apply Forall_replicate|].
    apply Forall_app. split; apply EncodeFixed32_bytes.
  - unfold Footer_DecodeFrom. cbv zeta.
    assert (Hd : drop (kEncodedLength - 8) (((e1 ++ e2 ++ pad) ++ magic) ++ rest) = magic ++ rest).
    { rewrite <-app_assoc. change (kEncodedLength - 8)%nat with 40%nat. rewrite <-Hlen. apply drop_app_length. }
    rewrite Hd. cbn [magic app EncodeFixed32 drop].
    change (DecodeFixed32 (magic ++ rest)) with (Some (Z.land kTableMagicNumber 0xffffffff)).
    change (DecodeFixed32 (drop 4 (magic ++ rest))) with (Some (Z.shiftr kTableMagicNumber 32)).
    cbv beta iota. rewrite <-!app_assoc, D1, D2.
    transitivity (Done (StatusOK, Some (mkFooter (metaindex_handle_ f) (index_handle_ f), rest)));
      [reflexivity|]. clear. by destruct f.
Qed.

(** ** Blocks in a file *)

(** A block as [WriteRawBlock] writes it: contents, type byte, masked checksum
    of both. *)
Definition raw_block (type : Z) (payload : bytes) : bytes :=
  payload ++ [type] ++ EncodeFixed32 (Mask (Extend 0 (crc32c_Value payload) [type])).

(** The block at [h] of the file [f] holds [data], perhaps compressed. *)
Definition stored_block `{Snappy} (f : bytes) (h : BlockHandle) (data : bytes) : Prop :=
  exists pre post type payload,
    f = pre ++ raw_block type payload ++ post /\
    offset_ h = zlen pre /\ hsize_ h = zlen payload /\ Forall is_byte payload /\
    ((type = kNoCompression /\ payload = data) \/
     (type = kSnappyCompression /\ Snappy_Compress data = Some payload)).

Lemma length_raw_block type payload : zlen (raw_block type payload) = zlen payload + 5.
Proof. unfold raw_block, zlen. rewrite !length_app. simpl. lia. Qed.

Lemma stored_block_app `{Snappy} f h data more : stored_block f h data -> stored_block (f ++ more) h data.
Proof.
  intros (pre & post & type & payload & -> & H').
  exists pre, (post ++ more), type, payload. rewrite <-!app_assoc. done.
Qed.

Lemma ReadBlock_stored `{RandomAccessFile, Snappy, !SnappyLaws} f h data :
  reads_file f -> zlen f < 2 ^ 63 -> stored_block f h data ->
  exists own heap, ReadBlock h = Done (StatusOK, Some (mkContents data own heap)).
Proof.
  intros Hr Hf (pre & post & type & payload & -> & Ho & Hs & Hb & Hty).
  unfold zlen in Hf. rewrite !length_app in Hf. pose proof (length_raw_block type payload) as Hl.
  unfold zlen in Hl.
  assert (Htb : is_byte type) by (destruct Hty as [[-> _]|[-> _]]; unfold is_byte, kNoCompression, kSnappyCompression; lia).
  destruct (Hr (zlen pre) (zlen payload + 5)) as (own & E).
  { unfold zlen. lia. }
  { unfold zlen. lia. }
  { unfold zlen. rewrite !length_app. lia. }
  assert (Hslice : take (Z.to_nat (zlen payload + 5)) (drop (Z.to_nat (zlen pre)) (pre ++ raw_block type payload ++ post))
                   = raw_block type payload).
  { unfold zlen. rewrite Nat2Z.id, drop_app_length.
    replace (Z.to_nat _) with (length (raw_block type payload)) by lia. apply take_app_length. }
  rewrite Hslice in E. unfold ReadBlock. cbv zeta. rewrite Ho, Hs. unfold kBlockTrailerSize.
  rewrite Z.gtb_ltb, (proj2 (Z.ltb_ge _ _)) by (unfold zlen; lia). rewrite E. cbn [ok negb].
  rewrite length_raw_block, Z.eqb_refl. cbn [negb].
  assert (Hn1 : Z.to_nat (zlen payload + 1) = length (payload ++ [type])) by (unfold zlen; rewrite length_app; simpl; lia).
  assert (Hraw : raw_block type payload = (payload ++ [type]) ++ EncodeFixed32 (Mask (Extend 0 (crc32c_Value payload) [type])))
    by (unfold raw_block; by rewrite <-app_assoc).
  assert (Hcrc : in_u32 (Extend 0 (crc32c_Value payload) [type])).
  { apply Extend_range; [lia| |by apply Forall_singleton]. apply Extend_range; (done || unfold in_u32; lia). }
  rewrite Hn1, Hraw, drop_app_length, take_app_length.
  pose proof (DecodeFixed32_split _ [] (Mask_range (Extend 0 (crc32c_Value payload) [type]))) as Ed.
  rewrite app_nil_r in Ed. rewrite Ed, Unmask_Mask by done.
  unfold crc32c_Value at 1, Value. rewrite <-(Extend_app 0 0 0 0 payload [type])
    by (done || lia || (unfold in_u32; lia) || by apply Forall_singleton).
  rewrite Z.eqb_refl. cbn [negb].
  assert (Htake : take (Z.to_nat (zlen payload)) ((payload ++ [type]) ++ EncodeFixed32 (Mask (Extend 0 (crc32c_Value payload) [type]))) = payload).
  { unfold zlen. rewrite Nat2Z.id, <-app_assoc. apply take_app_length. }
  assert (Hnth : nth (Z.to_nat (zlen payload)) ((payload ++ [type]) ++ EncodeFixed32 (Mask (Extend 0 (crc32c_Value payload) [type]))) 0 = type).
  { unfold zlen. rewrite Nat2Z.id, <-app_assoc. apply (nth_middle payload). }
  rewrite Htake, Hnth. destruct Hty as [[-> ->]|[-> Hc]].
  - by exists own, own.
  - destruct (snappy_inverse _ _ Hc) as [-> ->]. cbv beta iota. rewrite Z.eqb_refl. by exists true, true.
Qed.
