(* ===== verification/TableBuilder.v ===== *)
(** * Writing table files (src/tensorflow/core/lib/io/table_builder.cc)

    The builder collects entries in a data block, writes the block when it is
    large enough and keeps, for every block written, an index entry whose key
    separates it from the next block.  The file is the interface
    [WritableFile]; its appends may fail, and the status is kept in the
    builder. *)
From S2P Require Import Prelude Coding Block Crc32c TableFormat.
From stdpp Require Import options.
#[local] Open Scope tf_monad_scope.

(** [WritableFile::Append]. *)
Class WritableFile (F : Type) := {
  file_append : F -> bytes -> Status * F
}.

(** What a file documents: a successful append adds the bytes at the end. *)
Class WritableFileLaws (F : Type) `{WritableFile F} := {
  file_contents : F -> bytes;
  append_ok f data f' : file_append f data = (StatusOK, f') ->
    file_contents f' = file_contents f ++ data
}.

(** The compression types of table_options.h; the byte written for each is
    [kNoCompression] or [kSnappyCompression]. *)
Inductive CompressionType := NoCompression | SnappyCompression.

Record Options := mkOptions {
  block_size : Z;
  block_restart_interval : Z;
  compression : CompressionType
}.

(** ** Index keys *)
Definition FindShortestSeparator (start limit : bytes) : bytes :=
  let min_length := Nat.min (length start) (length limit) in
  let diff_index := shared_prefix start limit in
  if (min_length <=? diff_index)%nat then start
  else
    let diff_byte := nth diff_index start 0 in
    if (diff_byte <? 255) && (diff_byte + 1 <? nth diff_index limit 0)
    then take diff_index start ++ [u8 (diff_byte + 1)]
    else start.

(** The [for] loop returns at the first byte that is not 0xff. *)
Fixpoint FindShortSuccessor (key : bytes) : bytes :=
  match key with
  | [] => []
  | byte :: rest => if negb (byte =? 255) then [u8 (byte + 1)] else byte :: FindShortSuccessor rest
  end.

Section TableBuilder.
Context {F : Type} `{WritableFile F} `{Snappy}.

Record Rep := mkRep {
  file : F;
  offset : Z;
  status : Status;
  data_block : BlockBuilder;
  index_block : BlockBuilder;
  last_key : bytes;
  num_entries : Z;
  closed : bool;
  pending_index_entry : bool;
  pending_handle : BlockHandle
}.

Definition set_file (f : F) (st : Status) (r : Rep) : Rep :=
  mkRep f (offset r) st (data_block r) (index_block r) (last_key r) (num_entries r) (closed r)
    (pending_index_entry r) (pending_handle r).

Definition set_offset (o : Z) (r : Rep) : Rep :=
  mkRep (file r) o (status r) (data_block r) (index_block r) (last_key r) (num_entries r) (closed r)
    (pending_index_entry r) (pending_handle r).

Definition set_data_block (b : BlockBuilder) (r : Rep) : Rep :=
  mkRep (file r) (offset r) (status r) b (index_block r) (last_key r) (num_entries r) (closed r)
    (pending_index_entry r) (pending_handle r).

Definition set_index_block (b : BlockBuilder) (r : Rep) : Rep :=
  mkRep (file r) (offset r) (status r) (data_block r) b (last_key r) (num_entries r) (closed r)
    (pending_index_entry r) (pending_handle r).

Definition set_last_key (k : bytes) (r : Rep) : Rep :=
  mkRep (file r) (offset r) (status r) (data_block r) (index_block r) k (num_entries r) (closed r)
    (pending_index_entry r) (pending_handle r).

Definition set_num_entries (n : Z) (r : Rep) : Rep :=
  mkRep (file r) (offset r) (status r) (data_block r) (index_block r) (last_key r) n (closed r)
    (pending_index_entry r) (pending_handle r).

Definition set_closed (r : Rep) : Rep :=
  mkRep (file r) (offset r) (status r) (data_block r) (index_block r) (last_key r) (num_entries r) true
    (pending_index_entry r) (pending_handle r).

Definition set_pending (p : bool) (h : BlockHandle) (r : Rep) : Rep :=
  mkRep (file r) (offset r) (status r) (data_block r) (index_block r) (last_key r) (num_entries r) (closed r)
    p h.

(** The constructor; the index block has a restart point at every entry, and the
    handle is the default one, of all ones. *)
Definition Rep_new (f : F) : Rep :=
  mkRep f 0 StatusOK BlockBuilder_new BlockBuilder_new [] 0 false false (mkHandle (2 ^ 64 - 1) (2 ^ 64 - 1)).

Definition index_restart_interval : Z := 1.

Section options.
Variable opts : Options.

(** Running an operation of one of the two block builders. *)
Definition on_data {A} (m : M BlockBuilder A) : M Rep A := fun r =>
  match m (data_block r) with
  | Done (a, b) => Done (a, set_data_block b r)
  | Crash => Crash
  | OutOfFuel => OutOfFuel
  end.

Definition on_index {A} (m : M BlockBuilder A) : M Rep A := fun r =>
  match m (index_block r) with
  | Done (a, b) => Done (a, set_index_block b r)
  | Crash => Crash
  | OutOfFuel => OutOfFuel
  end.

Definition is_ok (r : Rep) : bool := ok (status r).

Definition append (data : bytes) : M Rep unit := fun r =>
  let '(st, f) := file_append (file r) data in Done (tt, set_file f st r).

Definition WriteRawBlock (block_contents : bytes) (type : Z) : M Rep BlockHandle :=
  r <~ get;;
  let handle := mkHandle (offset r) (zlen block_contents) in
  append block_contents;;;
  r <~ get;;
  (if is_ok r then
     let crc := crc32c_Value block_contents in
     let crc := Extend 0 crc [type] in
     append ([type] ++ EncodeFixed32 (Mask crc));;;
     r <~ get;;
     if is_ok r then modify (set_offset (u64 (offset r + (zlen block_contents + kBlockTrailerSize))))
     else ret tt
   else ret tt);;;
  ret handle.

(** The contents to store and their type, for the finished block [raw]. *)
Definition compress_block (raw : bytes) : bytes * Z :=
  match compression opts with
  | NoCompression => (raw, kNoCompression)
  | SnappyCompression =>
      match Snappy_Compress raw with
      | Some compressed =>
          if zlen compressed <? zlen raw - zlen raw / 8 then (compressed, kSnappyCompression)
          else (raw, kNoCompression)
      | None => (raw, kNoCompression)
      end
  end.

(** [WriteBlock] on the bytes its [block->Finish()] returned. *)
Definition WriteFinished (raw : bytes) : M Rep BlockHandle :=
  let '(block_contents, type) := compress_block raw in WriteRawBlock block_contents type.

Definition WriteDataBlock : M Rep BlockHandle :=
  raw <~ on_data Finish;; h <~ WriteFinished raw;; on_data (modify Reset);;; ret h.

Definition WriteIndexBlock : M Rep BlockHandle :=
  raw <~ on_index Finish;; h <~ WriteFinished raw;; on_index (modify Reset);;; ret h.

(** The metaindex block is a local, empty builder. *)
Definition WriteMetaBlock : M Rep BlockHandle :=
  raw <~ lift (match Finish BlockBuilder_new with
               | Done (raw, _) => Done raw
               | Crash => Crash
               | OutOfFuel => OutOfFuel
               end);;
  WriteFinished raw.

Definition Flush : M Rep unit :=
  r <~ get;;
  if negb (is_ok r) then ret tt
  else if empty (data_block r) then ret tt
  else
    h <~ WriteDataBlock;;
    modify (fun r => set_pending (pending_index_entry r) h r);;;
    r <~ get;;
    if is_ok r then modify (fun r => set_pending true (pending_handle r) r) else ret tt.

(** Emitting the index entry of the last block written, under [key]. *)
Definition AddIndexEntry (key : bytes) : M Rep unit :=
  r <~ get;;
  modify (set_last_key key);;;
  match EncodeTo [] (pending_handle r) with
  | None => out_of_fuel
  | Some handle_encoding =>
      on_index (Add index_restart_interval key handle_encoding);;;
      modify (fun r => set_pending false (pending_handle r) r)
  end.

Definition TableBuilder_Add (key value : bytes) : M Rep unit :=
  r <~ get;;
  if negb (is_ok r) then ret tt
  else
    (if (num_entries r >? 0) && (zlen key + zlen value >=? u64 (2 * block_size opts)) then Flush
     else ret tt);;;
    r <~ get;;
    (if pending_index_entry r then AddIndexEntry (FindShortestSeparator (last_key r) key) else ret tt);;;
    modify (set_last_key key);;;
    modify (fun r => set_num_entries (i64 (num_entries r + 1)) r);;;
    on_data (Add (block_restart_interval opts) key value);;;
    r <~ get;;
    if CurrentSizeEstimate (data_block r) >=? block_size opts then Flush else ret tt.

Definition TableBuilder_Finish : M Rep Status :=
  Flush;;;
  modify set_closed;;;
  r <~ get;;
  metaindex <~ (if is_ok r then WriteMetaBlock else ret (mkHandle 0 0));;
  r <~ get;;
  index <~
    (if is_ok r then
       (if pending_index_entry r then AddIndexEntry (FindShortSuccessor (last_key r)) else ret tt);;;
       WriteIndexBlock
     else ret (mkHandle 0 0));;
  r <~ get;;
  (if is_ok r then
     match Footer_EncodeTo [] (mkFooter metaindex index) with
     | None => out_of_fuel
     | Some footer_encoding =>
         append footer_encoding;;;
         r <~ get;;
         if is_ok r then modify (set_offset (u64 (offset r + zlen footer_encoding))) else ret tt
     end
   else ret tt);;;
  r <~ get;;
  ret (status r).

Definition Abandon : M Rep unit := modify set_closed.

Fixpoint table_add_all (es : list (bytes * bytes)) : M Rep unit :=
  match es with
  | [] => ret tt
  | (k, v) :: es => TableBuilder_Add k v;;; table_add_all es
  end.
End options.
End TableBuilder.

#[global] Arguments Rep F : clear implicits.
