(* ===== verification/Table.v ===== *)
(** * Reading table files (src/tensorflow/core/lib/io/table.cc,
    two_level_iterator.cc, iterator.cc)

    [Table_Open] reads the footer and the index block; [BlockReader] turns an
    index value into an iterator over the data block it locates; the two-level
    iterator runs through all data blocks; [InternalGet] looks up one key.
    Tables are modelled without a block cache. *)
From S2P Require Import Prelude Coding Block Crc32c TableFormat.
From stdpp Require Import options.
#[local] Open Scope tf_monad_scope.

(** ** The operations of an iterator, whatever its class *)
Definition on_block {A} (a : A) (m : M Iter A) : M Iterator A := fun it =>
  match it with
  | BlockIterator i =>
      match m i with
      | Done (a, i) => Done (a, BlockIterator i)
      | Crash => Crash
      | OutOfFuel => OutOfFuel
      end
  | _ => Done (a, it)
  end.

Definition iter_Valid (it : Iterator) : bool :=
  match it with BlockIterator i => Valid i | _ => false end.

Definition iter_Seek (target : bytes) : M Iterator unit := on_block tt (Seek target).

Definition iter_SeekToFirst : M Iterator unit := on_block tt SeekToFirst.

Definition iter_Next : M Iterator unit := on_block tt Next.

Definition iter_key (it : Iterator) : bytes :=
  match it with BlockIterator i => it_key i | _ => [] end.

Definition iter_value (it : Iterator) : bytes :=
  match it with BlockIterator i => piece (it_data i) (it_value i) | _ => [] end.

Definition iter_status (it : Iterator) : Status :=
  match it with
  | BlockIterator i => it_status i
  | EmptyIterator => StatusOK
  | ErrorIterator s => s
  end.

(** ** The two-level iterator *)
Record TwoLevelIterator := mkTwoLevel {
  index_iter : Iterator;
  data_iter : option Iterator;
  data_block_handle : bytes;
  tl_status : Status
}.

Definition TwoLevel_new (index : Iterator) : TwoLevelIterator := mkTwoLevel index None [] StatusOK.

Definition tl_Valid (t : TwoLevelIterator) : bool :=
  match data_iter t with None => false | Some d => iter_Valid d end.

Definition tl_key (t : TwoLevelIterator) : bytes :=
  match data_iter t with None => [] | Some d => iter_key d end.

Definition tl_value (t : TwoLevelIterator) : bytes :=
  match data_iter t with None => [] | Some d => iter_value d end.

Definition tl_get_status (t : TwoLevelIterator) : Status :=
  if negb (ok (iter_status (index_iter t))) then iter_status (index_iter t)
  else
    match data_iter t with
    | Some d => if negb (ok (iter_status d)) then iter_status d else tl_status t
    | None => tl_status t
    end.

Definition SaveError (s : Status) (t : TwoLevelIterator) : TwoLevelIterator :=
  if ok (tl_status t) && negb (ok s)
  then mkTwoLevel (index_iter t) (data_iter t) (data_block_handle t) s else t.

Definition SetDataIterator (d : option Iterator) (t : TwoLevelIterator) : TwoLevelIterator :=
  let t := match data_iter t with Some old => SaveError (iter_status old) t | None => t end in
  mkTwoLevel (index_iter t) d (data_block_handle t) (tl_status t).

Definition on_index_iter {A} (m : M Iterator A) : M TwoLevelIterator A := fun t =>
  match m (index_iter t) with
  | Done (a, i) => Done (a, mkTwoLevel i (data_iter t) (data_block_handle t) (tl_status t))
  | Crash => Crash
  | OutOfFuel => OutOfFuel
  end.

(** [if (data_iter_ != nullptr) data_iter_->...]. *)
Definition on_data_iter (m : M Iterator unit) : M TwoLevelIterator unit := fun t =>
  match data_iter t with
  | None => Done (tt, t)
  | Some d =>
      match m d with
      | Done (_, d) => Done (tt, mkTwoLevel (index_iter t) (Some d) (data_block_handle t) (tl_status t))
      | Crash => Crash
      | OutOfFuel => OutOfFuel
      end
  end.

Section two_level.
Variable block_function : bytes -> outcome Iterator.

Definition InitDataBlock : M TwoLevelIterator unit :=
  t <~ get;;
  if negb (iter_Valid (index_iter t)) then modify (SetDataIterator None)
  else
    let handle := iter_value (index_iter t) in
    if (match data_iter t with Some _ => true | None => false end) &&
       match bytes_compare handle (data_block_handle t) with Eq => true | _ => false end
    then ret tt
    else
      iter <~ lift (block_function handle);;
      modify (fun t => mkTwoLevel (index_iter t) (data_iter t) handle (tl_status t));;;
      modify (SetDataIterator (Some iter)).

(** Every round moves the index to its next entry; an entry has at least three
    bytes. *)
Fixpoint SkipEmptyDataBlocksForward_loop (fuel : nat) : M TwoLevelIterator unit :=
  match fuel with
  | O => out_of_fuel
  | S fuel =>
      t <~ get;;
      if negb (tl_Valid t) then
        if negb (iter_Valid (index_iter t)) then modify (SetDataIterator None)
        else
          on_index_iter iter_Next;;;
          InitDataBlock;;;
          on_data_iter iter_SeekToFirst;;;
          SkipEmptyDataBlocksForward_loop fuel
      else ret tt
  end.

Definition skip_fuel (it : Iterator) : nat :=
  match it with BlockIterator i => S (S (Z.to_nat (it_restarts i))) | _ => 1 end.

Definition SkipEmptyDataBlocksForward : M TwoLevelIterator unit :=
  t <~ get;; SkipEmptyDataBlocksForward_loop (skip_fuel (index_iter t)).

Definition tl_Seek (target : bytes) : M TwoLevelIterator unit :=
  on_index_iter (iter_Seek target);;;
  InitDataBlock;;;
  on_data_iter (iter_Seek target);;;
  SkipEmptyDataBlocksForward.

Definition tl_SeekToFirst : M TwoLevelIterator unit :=
  on_index_iter iter_SeekToFirst;;;
  InitDataBlock;;;
  on_data_iter iter_SeekToFirst;;;
  SkipEmptyDataBlocksForward.

(** [Next] dereferences [data_iter_]; its caller checks [Valid]. *)
Definition tl_Next : M TwoLevelIterator unit :=
  t <~ get;;
  match data_iter t with
  | None => crash
  | Some _ => on_data_iter iter_Next;;; SkipEmptyDataBlocksForward
  end.

(** [while (it->Valid()) { use key and value; it->Next(); }]. *)
Fixpoint tl_scan (fuel : nat) : M TwoLevelIterator (list (bytes * bytes)) :=
  match fuel with
  | O => out_of_fuel
  | S fuel =>
      t <~ get;;
      if tl_Valid t then
        tl_Next;;;
        rest <~ tl_scan fuel;;
        ret ((tl_key t, tl_value t) :: rest)
      else ret []
  end.
End two_level.

(** ** Tables *)
Section table.
Context `{RandomAccessFile, Snappy}.

(** [Table::Rep] without the options and the cache. *)
Record TableRep := mkTable {
  metaindex_handle : BlockHandle;
  t_index_block : Block.Block
}.

Definition Table_Open (size : Z) : outcome (Status * option TableRep) :=
  if size <? Z.of_nat kEncodedLength then Done (StatusError DATA_LOSS, None)
  else
    let '(s, footer_input, _) := file_read (size - Z.of_nat kEncodedLength) (Z.of_nat kEncodedLength) in
    if negb (ok s) then Done (s, None)
    else
      match Footer_DecodeFrom footer_input with
      | Done (StatusOK, Some (footer, _)) =>
          match ReadBlock (index_handle_ footer) with
          | Done (StatusOK, Some contents) =>
              match Block_new (bc_data contents) with
              | Done b => Done (StatusOK, Some (mkTable (metaindex_handle_ footer) b))
              | Crash => Crash
              | OutOfFuel => OutOfFuel
              end
          | Done (s, _) => Done (s, None)
          | Crash => Crash
          | OutOfFuel => OutOfFuel
          end
      | Done (s, _) => Done (s, None)
      | Crash => Crash
      | OutOfFuel => OutOfFuel
      end.

Definition BlockReader (index_value : bytes) : outcome Iterator :=
  match DecodeFrom index_value with
  | None => Done (ErrorIterator (StatusError DATA_LOSS))
  | Some (handle, _) =>
      match ReadBlock handle with
      | Done (StatusOK, Some contents) =>
          match Block_new (bc_data contents) with
          | Done b => NewIterator b
          | Crash => Crash
          | OutOfFuel => OutOfFuel
          end
      | Done (s, _) => Done (ErrorIterator s)
      | Crash => Crash
      | OutOfFuel => OutOfFuel
      end
  end.

Definition Table_NewIterator (t : TableRep) : outcome TwoLevelIterator :=
  match NewIterator (t_index_block t) with
  | Done it => Done (TwoLevel_new it)
  | Crash => Crash
  | OutOfFuel => OutOfFuel
  end.

(** [InternalGet]: the status and the entry passed to the saver, if any. *)
Definition InternalGet (t : TableRep) (k : bytes) : outcome (Status * option (bytes * bytes)) :=
  match NewIterator (t_index_block t) with
  | Done iiter =>
      match iter_Seek k iiter with
      | Done (_, iiter) =>
          if iter_Valid iiter then
            match BlockReader (iter_value iiter) with
            | Done block_iter =>
                match iter_Seek k block_iter with
                | Done (_, block_iter) =>
                    let saved := if iter_Valid block_iter
                                 then Some (iter_key block_iter, iter_value block_iter) else None in
                    let s := iter_status block_iter in
                    Done (if ok s then iter_status iiter else s, saved)
                | Crash => Crash
                | OutOfFuel => OutOfFuel
                end
            | Crash => Crash
            | OutOfFuel => OutOfFuel
            end
          else Done (iter_status iiter, None)
      | Crash => Crash
      | OutOfFuel => OutOfFuel
      end
  | Crash => Crash
  | OutOfFuel => OutOfFuel
  end.

Definition ApproximateOffsetOf (t : TableRep) (key : bytes) : outcome Z :=
  match NewIterator (t_index_block t) with
  | Done it =>
      match iter_Seek key it with
      | Done (_, it) =>
          if iter_Valid it then
            match DecodeFrom (iter_value it) with
            | Some (handle, _) => Done (offset_ handle)
            | None => Done (offset_ (metaindex_handle t))
            end
          else Done (offset_ (metaindex_handle t))
      | Crash => Crash
      | OutOfFuel => OutOfFuel
      end
  | Crash => Crash
  | OutOfFuel => OutOfFuel
  end.
End table.
