(* ===== verification/TableKeys.v ===== *)
(** * Keys of the index block

    The order on byte strings and the two functions that shorten index keys:
    the separator of two keys is at or after the first and before the second,
    the successor of a key at or after it. *)
From S2P Require Import Prelude Coding Block BlockProofs BlockTheorems TableFormat TableBuilder.
From stdpp Require Import options.

Lemma bytes_lt_cons x a y b :
  bytes_lt (x :: a) (y :: b) = if x <? y then true else if x =? y then bytes_lt a b else false.
Proof.
  unfold bytes_lt. simpl. destruct (Z.compare_spec x y) as [->|Hlt|Hgt].
  - by rewrite Z.ltb_irrefl, Z.eqb_refl.
  - by rewrite (proj2 (Z.ltb_lt _ _)).
  - rewrite (proj2 (Z.ltb_ge _ _)), (proj2 (Z.eqb_neq _ _)) by lia. done.
Qed.

Lemma bytes_lt_irrefl a : bytes_lt a a = false.
Proof. induction a as [|x a IH]; [done|]. by rewrite bytes_lt_cons, Z.ltb_irrefl, Z.eqb_refl. Qed.

Lemma bytes_lt_nil_r a : bytes_lt a [] = false.
Proof. by destruct a. Qed.

(** [a] is at or before [b]. *)
Definition bytes_le (a b : bytes) : Prop := bytes_lt b a = false.

Lemma bytes_le_refl a : bytes_le a a.
Proof. apply bytes_lt_irrefl. Qed.

Lemma bytes_le_cons x a y b : bytes_le (x :: a) (y :: b) <-> x < y \/ (x = y /\ bytes_le a b).
Proof.
  unfold bytes_le. rewrite bytes_lt_cons.
  destruct (Z.ltb_spec y x), (Z.eqb_spec y x); split; intros; naive_solver lia.
Qed.

(** The order is total and transitive. *)
Lemma bytes_lt_total a : forall b, bytes_lt a b = true \/ a = b \/ bytes_lt b a = true.
Proof.
  induction a as [|x a IH]; intros [|y b]; [by auto|by auto|by auto|]. rewrite !bytes_lt_cons.
  destruct (Z.ltb_spec x y); [by auto|]. destruct (Z.ltb_spec y x); [by auto|].
  assert (x = y) as -> by lia. rewrite Z.eqb_refl. destruct (IH b) as [?|[->|?]]; auto.
Qed.

Lemma bytes_le_lt_trans a b c : bytes_le a b -> bytes_lt b c = true -> bytes_lt a c = true.
Proof.
  intros Hab Hbc. destruct (bytes_lt_total a b) as [?|[->|Hba]]; [|done|].
  - by eapply bytes_compare_trans.
  - unfold bytes_le in Hab. congruence.
Qed.

Lemma bytes_lt_le a b : bytes_lt a b = true -> bytes_le a b.
Proof.
  intros Hab. unfold bytes_le. apply not_true_iff_false. intros Hba.
  pose proof (bytes_compare_trans a b a Hab Hba) as H. by rewrite bytes_lt_irrefl in H.
Qed.

Lemma bytes_le_trans a b c : bytes_le a b -> bytes_le b c -> bytes_le a c.
Proof.
  intros Hab Hbc. destruct (bytes_lt_total b c) as [Hlt|[->|Hcb]]; [|done|].
  - apply bytes_lt_le. by eapply bytes_le_lt_trans.
  - unfold bytes_le in Hbc. congruence.
Qed.

Lemma bytes_lt_le_trans a b c : bytes_lt a b = true -> bytes_le b c -> bytes_lt a c = true.
Proof.
  intros Hab Hbc. destruct (bytes_lt_total b c) as [Hlt|[->|Hcb]]; [|done|].
  - by eapply bytes_compare_trans.
  - unfold bytes_le in Hbc. congruence.
Qed.

(** ** The separator *)
Lemma separator_cons x s l :
  FindShortestSeparator (x :: s) (x :: l) = x :: FindShortestSeparator s l.
Proof.
  unfold FindShortestSeparator. cbn [shared_prefix length Nat.min]. rewrite Z.eqb_refl. cbv zeta.
  cbn [Nat.leb nth take]. destruct (_ <=? _)%nat; [done|]. by destruct (_ && _).
Qed.

Lemma separator_nil_r s : FindShortestSeparator s [] = s.
Proof. unfold FindShortestSeparator. cbv zeta. by destruct s. Qed.

Lemma separator_diff x s y l : x <> y ->
  FindShortestSeparator (x :: s) (y :: l) =
  if (x <? 255) && (x + 1 <? y) then [u8 (x + 1)] else x :: s.
Proof.
  intros Hne. unfold FindShortestSeparator. cbn [shared_prefix]. rewrite (proj2 (Z.eqb_neq _ _) Hne).
  cbv zeta. cbn [length Nat.min Nat.leb nth take app]. done.
Qed.

Lemma separator_spec s : forall l,
  Forall is_byte s -> Forall is_byte l -> bytes_lt s l = true ->
  bytes_le s (FindShortestSeparator s l) /\ bytes_lt (FindShortestSeparator s l) l = true /\
  Forall is_byte (FindShortestSeparator s l) /\
  (length (FindShortestSeparator s l) <= length s)%nat.
Proof.
  induction s as [|x s IH]; intros [|y l] Hs Hl Hlt; [done|by split_and!|by rewrite bytes_lt_nil_r in Hlt|].
  apply Forall_cons in Hs as [Hx Hs]. apply Forall_cons in Hl as [Hy Hl].
  rewrite bytes_lt_cons in Hlt. destruct (Z.eqb_spec x y) as [->|Hne].
  - rewrite Z.ltb_irrefl in Hlt. destruct (IH l Hs Hl Hlt) as (H1 & H2 & H3 & H4).
    rewrite separator_cons. split_and!.
    + apply bytes_le_cons. by right.
    + by rewrite bytes_lt_cons, Z.ltb_irrefl, Z.eqb_refl.
    + by constructor.
    + simpl. lia.
  - destruct (Z.ltb_spec x y) as [Hxy|]; [|done]. rewrite separator_diff by done.
    destruct (_ && _) eqn:E.
    + bool_to_prop. unfold u8. rewrite uwrap_small by (unfold is_byte in *; lia). split_and!.
      * apply bytes_le_cons. left. lia.
      * rewrite bytes_lt_cons. by rewrite (proj2 (Z.ltb_lt _ _)) by lia.
      * apply Forall_singleton. unfold is_byte in *. lia.
      * simpl. lia.
    + split_and!; [apply bytes_le_refl| |by constructor|done].
      rewrite bytes_lt_cons. by rewrite (proj2 (Z.ltb_lt _ _)) by lia.
Qed.

(** ** The successor *)
Lemma successor_spec k : Forall is_byte k ->
  bytes_le k (FindShortSuccessor k) /\ Forall is_byte (FindShortSuccessor k) /\
  (length (FindShortSuccessor k) <= length k)%nat.
Proof.
  induction 1 as [|x k Hx Hk IH]; [by split_and!|]. simpl.
  destruct (Z.eqb_spec x 255) as [->|Hne]; simpl.
  - destruct IH as (H1 & H2 & H3). split_and!; [apply bytes_le_cons; by right|by constructor|lia].
  - unfold u8, is_byte in *. rewrite uwrap_small by lia. split_and!; [apply bytes_le_cons; left; lia| |lia].
    apply Forall_singleton. unfold is_byte. lia.
Qed.
