(* ===== verification/TableBuilderProofs.v ===== *)
(** * Writing table files: the invariant of the builder

    [tb_inv] relates the builder to the data blocks written so far, the
    entries of the current block and the separators in the index block.  The
    lemmas show that every operation returns and, unless an append failed,
    keeps the invariant. *)
From S2P Require Import Prelude Coding Block BlockProofs BlockTheorems Crc32c TableFormat TableBuilder TableKeys.
From stdpp Require Import options.
#[local] Open Scope tf_monad_scope.

(** A data block in the file. *)
Record block_info := mkInfo {
  bi_items : list item;
  bi_js : list nat;
  bi_handle : BlockHandle
}.

Definition bi_entries (b : block_info) : list (bytes * bytes) := map entry (bi_items b).

Definition all_entries (bs : list block_info) : list (bytes * bytes) := concat (map bi_entries bs).

Fixpoint weight (es : list (bytes * bytes)) : Z :=
  match es with
  | [] => 0
  | (k, v) :: es => 64 + zlen k + zlen v + weight es
  end.

Lemma weight_app a b : weight (a ++ b) = weight a + weight b.
Proof. induction a as [|[k v] a IH]; simpl; lia. Qed.

Lemma weight_nonneg es : 0 <= weight es.
Proof.
  induction es as [|[k v] es IH]; simpl; [lia|].
  pose proof (zlen_nonneg k). pose proof (zlen_nonneg v). lia.
Qed.

Lemma room_weight es : room es + 45 * Z.of_nat (length es) <= 8 + weight es.
Proof. induction es as [|[k v] es IH]; cbn [room weight length]; lia. Qed.

Lemma weight_last es e : last es = Some e -> 64 + zlen e.1 <= weight es.
Proof.
  induction es as [|[k v] es IH]; [done|]. rewrite last_cons. intros Hl.
  pose proof (weight_nonneg es). pose proof (zlen_nonneg k). pose proof (zlen_nonneg v).
  destruct (last es) as [e'|]; simplify_eq/=; [|lia]. specialize (IH eq_refl). lia.
Qed.

Section builder.
Context {F : Type} `{WF : WritableFile F} `{WFL : !WritableFileLaws F} `{SN : Snappy} `{SNL : !SnappyLaws}.
Context (opts : Options).

Abbreviation fc r := (file_contents (file r)).

(** ** Writing a block *)

(** Everything but the file, the offset and the status. *)
Definition same_but_file (r r' : Rep F) : Prop :=
  data_block r' = data_block r /\ index_block r' = index_block r /\ last_key r' = last_key r /\
  num_entries r' = num_entries r /\ pending_index_entry r' = pending_index_entry r /\
  pending_handle r' = pending_handle r /\ closed r' = closed r.

Lemma append_spec r data :
  exists r', append data r = Done (tt, r') /\ same_but_file r r' /\ offset r' = offset r /\
    (is_ok r' = true -> fc r' = fc r ++ data).
Proof using WFL.
  unfold append. destruct (file_append (file r) data) as [st f] eqn:E. eexists. split; [done|].
  split; [by split_and!|]. split; [done|]. unfold is_ok. simpl. destruct st; [|done]. intros _.
  by apply append_ok.
Qed.

Lemma compress_block_spec raw : Forall is_byte raw ->
  let '(payload, type) := compress_block opts raw in
  Forall is_byte payload /\ zlen payload <= zlen raw /\
  ((type = kNoCompression /\ payload = raw) \/
   (type = kSnappyCompression /\ Snappy_Compress raw = Some payload)).
Proof using SNL.
  intros Hb. unfold compress_block. destruct (compression opts); [by split_and!; [..|left]|].
  - destruct (Snappy_Compress raw) as [c|] eqn:E; [|by split_and!; [..|left]].
    destruct (Z.ltb_spec (zlen c) (zlen raw - zlen raw / 8)) as [Hlt|]; [|by split_and!; [..|left]].
    split_and!; [by eapply snappy_bytes| |by right].
    pose proof (Z.div_pos (zlen raw) 8 (zlen_nonneg raw) ltac:(lia)). lia.
Qed.

Lemma WriteFinished_spec r raw :
  Forall is_byte raw -> offset r = zlen (fc r) -> zlen (fc r) + zlen raw + 5 < 2 ^ 63 ->
  exists h r', WriteFinished opts raw r = Done (h, r') /\ same_but_file r r' /\ offset_ h = offset r /\
    handle_ok h /\
    (is_ok r' = true ->
       (exists more, fc r' = fc r ++ more) /\ stored_block (fc r') h raw /\
       offset r' = zlen (fc r') /\ zlen (fc r) < zlen (fc r') <= zlen (fc r) + zlen raw + 5).
Proof using WFL SNL.
  intros Hb Ho Hsz. unfold WriteFinished. pose proof (compress_block_spec raw Hb) as Hc.
  destruct (compress_block opts raw) as [payload type]. destruct Hc as (Hpb & Hpl & Hty).
  pose proof (zlen_nonneg (fc r)). pose proof (zlen_nonneg payload).
  unfold WriteRawBlock, bind at 1, get.
  destruct (append_spec r payload) as (r1 & E1 & S1 & O1 & C1).
  rewrite (bind_Done _ _ _ _ _ E1). unfold bind at 1, get.
  assert (Hh : handle_ok (mkHandle (offset r) (zlen payload))).
  { split; unfold in_u64; simpl; lia. }
  destruct (is_ok r1) eqn:Ok1.
  2: { unfold bind, ret. eexists _, r1. split; [done|]. split; [done|]. split; [done|].
       split; [done|]. congruence. }
  cbv zeta. set (tr := [type] ++ _).
  destruct (append_spec r1 tr) as (r2 & E2 & S2 & O2 & C2).
  assert (S12 : same_but_file r r2) by (unfold same_but_file in *; naive_solver congruence).
  unfold bind at 1. rewrite (bind_Done _ _ _ _ _ E2). unfold bind at 1, get.
  destruct (is_ok r2) eqn:Ok2.
  2: { unfold bind, ret. eexists _, r2. split; [done|]. split; [done|]. split; [done|].
       split; [done|]. congruence. }
  unfold bind, modify, ret. eexists _, _. split; [done|]. split; [done|]. split; [done|].
  split; [done|]. intros _. cbn [file set_offset offset].
  assert (Hfc : fc r2 = fc r ++ raw_block type payload).
  { rewrite C2, C1 by done. unfold raw_block, tr. by rewrite <-!app_assoc. }
  pose proof (length_raw_block type payload) as Hrl.
  assert (Hlen : zlen (fc r2) = zlen (fc r) + zlen payload + 5).
  { rewrite Hfc. unfold zlen in *. rewrite length_app. lia. }
  split; [by eexists|]. split; [|split].
  - exists (fc r), [], type, payload. rewrite app_nil_r. split_and!; (done || by rewrite Hfc).
  - rewrite O2, O1, Ho. unfold u64, kBlockTrailerSize. rewrite uwrap_small by lia. lia.
  - lia.
Qed.

(** ** The invariant *)

(** A data block of the file [f]. *)
Record block_good (f : bytes) (b : block_info) : Prop := {
  bg_stored : stored_block f (bi_handle b) (contents (bi_items b) (bi_js b));
  bg_block : good_block (bi_items b) (bi_js b);
  bg_nonempty : bi_items b <> [];
  bg_handle : handle_ok (bi_handle b)
}.

Definition index_entries (seps : list bytes) (bs : list block_info) : list (bytes * bytes) :=
  zip_with (fun sep b => (sep, handle_encoding (bi_handle b))) seps bs.

(** The separator of block [i] is at or after its keys and before all later ones. *)
Definition separates (seps : list bytes) (bs : list block_info) (cur : list (bytes * bytes)) : Prop :=
  forall i sep b, seps !! i = Some sep -> bs !! i = Some b ->
    (forall e, e ∈ bi_entries b -> bytes_le e.1 sep) /\
    (forall j b' e, (i < j)%nat -> bs !! j = Some b' -> e ∈ bi_entries b' -> bytes_lt sep e.1 = true) /\
    (forall e, e ∈ cur -> bytes_lt sep e.1 = true).

Definition offsets_increase (bs : list block_info) (limit : Z) : Prop :=
  (forall i j b b', (i < j)%nat -> bs !! i = Some b -> bs !! j = Some b' ->
     offset_ (bi_handle b) < offset_ (bi_handle b')) /\
  (forall b, b ∈ bs -> offset_ (bi_handle b) < limit).

Record tb_inv (r : Rep F) (bs : list block_info) (seps : list bytes) (cur : list (bytes * bytes)) : Prop := {
  ti_ok : is_ok r = true;
  ti_offset : offset r = zlen (fc r);
  ti_data : exists items js, built (data_block r) items js /\ map entry items = cur;
  ti_index : exists items js, built (index_block r) items js /\ map entry items = index_entries seps bs;
  ti_pending : if pending_index_entry r
               then cur = [] /\ exists bs0 b, bs = bs0 ++ [b] /\ length seps = length bs0 /\
                      pending_handle r = bi_handle b
               else length seps = length bs /\ (cur = [] -> bs = []);
  ti_last : forall e, last (all_entries bs ++ cur) = Some e -> last_key r = e.1;
  ti_blocks : Forall (block_good (fc r)) bs;
  ti_seps : separates seps bs cur;
  ti_offsets : offsets_increase bs (zlen (fc r));
  ti_bytes : entry_bytes (all_entries bs ++ cur);
  ti_file_room : zlen (fc r) + weight cur <= weight (all_entries bs ++ cur);
  ti_index_room : room (index_entries seps bs)
                  + (if pending_index_entry r then 39 + zlen (last_key r) else 0) + weight cur
                  <= 8 + weight (all_entries bs ++ cur)
}.

Lemma block_good_app f more b : block_good f b -> block_good (f ++ more) b.
Proof using. intros [H1 H2 H3 H4]. split; try done. by apply stored_block_app. Qed.

Lemma all_entries_snoc bs b : all_entries (bs ++ [b]) = all_entries bs ++ bi_entries b.
Proof using. unfold all_entries. rewrite map_app, concat_app. simpl. by rewrite app_nil_r. Qed.

Lemma built_contents_bytes b items js : built b items js -> Forall is_byte (contents items js).
Proof using.
  intros Hb. unfold contents, trailer. rewrite !Forall_app. split_and!.
  - apply body_bytes, Hb.
  - clear Hb. induction js as [|j js IH]; [constructor|]. cbn [map concat]. apply Forall_app.
    split; [apply EncodeFixed32_bytes|done].
  - apply EncodeFixed32_bytes.
Qed.

Lemma contents_length items js : zlen (contents items js) = zlen (body items) + 4 * Z.of_nat (length js) + 4.
Proof using. unfold contents, zlen. rewrite length_app, length_trailer. lia. Qed.

Lemma built_good b items js : built b items js -> room (map entry items) < 2 ^ 32 -> good_block items js.
Proof using. intros [? ? ? ? ? ? ? ?] Hr. by split. Qed.

Lemma built_contents_room b items js : built b items js ->
  zlen (contents items js) <= room (map entry items).
Proof using.
  intros Hb. rewrite contents_length. pose proof (room_body items (chain_shared_le _ _ (bu_chain _ _ _ Hb))).
  pose proof (bu_count _ _ _ Hb). lia.
Qed.

Lemma empty_built b items js : built b items js -> empty b = true <-> items = [].
Proof using.
  intros Hb. unfold empty. rewrite (bu_buf _ _ _ Hb). destruct items as [|it items]; [done|].
  change (body (it :: items)) with (enc it ++ body items). pose proof (length_enc_pos it).
  destruct (enc it); simpl in *; [lia|]. done.
Qed.

Lemma last_elem {A} (l : list A) x : last l = Some x -> x ∈ l.
Proof using. intros H. apply last_Some in H as [l' ->]. apply elem_of_app. right. by apply list_elem_of_singleton. Qed.

Lemma index_entries_extra seps bs more : (length seps <= length bs)%nat ->
  index_entries seps (bs ++ more) = index_entries seps bs.
Proof using.
  revert bs. induction seps as [|s seps IH]; intros [|b bs] Hl; simpl in *; try done; [lia|].
  unfold index_entries in *. simpl. f_equal. apply IH. lia.
Qed.

Lemma index_entries_snoc seps bs s b : length seps = length bs ->
  index_entries (seps ++ [s]) (bs ++ [b]) = index_entries seps bs ++ [(s, handle_encoding (bi_handle b))].
Proof using. intros Hl. unfold index_entries. by rewrite zip_with_app. Qed.

Lemma last_app_r {A} (l k : list A) : k <> [] -> last (l ++ k) = last k.
Proof using.
  intros Hk. rewrite last_app. destruct (last k) eqn:E; [done|]. by apply last_None in E.
Qed.

(** ** [Flush] *)
Lemma WriteDataBlock_spec r items js :
  built (data_block r) items js -> room (map entry items) < 2 ^ 32 ->
  offset r = zlen (fc r) -> zlen (fc r) < 2 ^ 62 ->
  exists h r', WriteDataBlock opts r = Done (h, r') /\
    data_block r' = BlockBuilder_new /\ index_block r' = index_block r /\ last_key r' = last_key r /\
    pending_index_entry r' = pending_index_entry r /\ offset_ h = offset r /\ handle_ok h /\
    (is_ok r' = true ->
       (exists more, fc r' = fc r ++ more) /\ stored_block (fc r') h (contents items js) /\
       offset r' = zlen (fc r') /\ zlen (fc r) < zlen (fc r') <= zlen (fc r) + room (map entry items) + 5).
Proof using WFL SNL.
  intros Hb Hroom Ho Hsz. destruct (Finish_spec _ _ _ Hb Hroom) as (b' & E).
  unfold WriteDataBlock, bind at 1, on_data at 1. rewrite E.
  pose proof (built_contents_room _ _ _ Hb) as Hcr.
  set (r0 := set_data_block b' r).
  destruct (WriteFinished_spec r0 (contents items js)) as (h & r1 & E1 & S1 & Hoh & Hh & Hok);
    [by eapply built_contents_bytes|done|simpl; lia|].
  rewrite (bind_Done _ _ _ _ _ E1). unfold bind, on_data, modify, ret. eexists h, _. split; [done|].
  destruct S1 as (S1 & S2 & S3 & S4 & S5 & S6 & S7).
  split_and!; try done. intros Hok1. destruct (Hok Hok1) as (Hm & Hst & Hof & Hlen).
  split_and!; try done; simpl in *; lia.
Qed.

Lemma separates_flush seps bs cur b :
  length seps = length bs -> bi_entries b = cur ->
  separates seps bs cur -> separates seps (bs ++ [b]) [].
Proof using.
  intros Hl Hb Hs i sep b0 Hi Hb0. pose proof (lookup_lt_Some _ _ _ Hi).
  rewrite lookup_app_l in Hb0 by lia. destruct (Hs i sep b0 Hi Hb0) as (H1 & H2 & H3).
  split_and!; [done| |by intros e ?%not_elem_of_nil].
  intros j b' e Hij Hj He. apply lookup_app_Some in Hj as [Hj|[Hle Hj]]; [by eapply H2|].
  apply list_lookup_singleton_Some in Hj as [_ <-]. apply H3. by rewrite <-Hb.
Qed.

Lemma offsets_flush bs b limit limit' :
  offsets_increase bs limit -> offset_ (bi_handle b) = limit -> limit < limit' ->
  offsets_increase (bs ++ [b]) limit'.
Proof using.
  intros [H1 H2] Hb Hlt. split.
  - intros i j b1 b2 Hij Hi Hj. pose proof (lookup_lt_Some _ _ _ Hj) as Hjl. rewrite length_app in Hjl. simpl in Hjl.
    rewrite lookup_app_l in Hi by lia. apply lookup_app_Some in Hj as [Hj|[_ Hj]]; [exact (H1 i j b1 b2 Hij Hi Hj)|].
    apply list_lookup_singleton_Some in Hj as [_ <-]. rewrite Hb. apply H2. by eapply list_elem_of_lookup_2.
  - intros b' Hin. apply elem_of_app in Hin as [Hin|Hin]; [specialize (H2 _ Hin); lia|].
    apply list_elem_of_singleton in Hin as ->. lia.
Qed.

Lemma Flush_spec r bs seps cur :
  tb_inv r bs seps cur -> weight (all_entries bs ++ cur) + 1000 < 2 ^ 32 ->
  exists r', Flush opts r = Done (tt, r') /\
    (is_ok r' = true -> exists bs', tb_inv r' bs' seps [] /\ all_entries bs' = all_entries bs ++ cur) /\
    (is_ok r' = false -> pending_index_entry r' = false /\ data_block r' = BlockBuilder_new).
Proof using WFL SNL.
  intros Hinv Hw. pose proof Hinv as [Hok Hof (items & js & Hbu & Hcur) Hix Hpe Hla Hbs Hse Hos Hby Hfr Hir].
  unfold Flush, bind at 1, get. rewrite Hok. cbn [negb].
  pose proof (empty_built _ _ _ Hbu) as He. destruct (empty (data_block r)).
  { assert (items = []) as -> by (by apply He). simpl in Hcur. subst cur.
    exists r. split; [done|]. split; [|congruence]. intros _. exists bs. by rewrite app_nil_r. }
  assert (Hne : items <> []) by (intros Hi; apply He in Hi; done).
  assert (Hcne : cur <> []) by (by rewrite <-Hcur; destruct items).
  destruct (pending_index_entry r) eqn:Hp; [by destruct Hpe as [-> _]|]. destruct Hpe as [Hpe _].
  pose proof (room_weight cur) as Hrw. rewrite weight_app in Hfr, Hir, Hw.
  pose proof (weight_nonneg (all_entries bs)). pose proof (weight_nonneg cur).
  assert (1 <= length cur)%nat by (destruct cur; [done|simpl; lia]).
  destruct (WriteDataBlock_spec r items js Hbu) as (h & r1 & E1 & Hd1 & Hi1 & Hl1 & Hp1 & Hoh & Hh & Hok1);
    [by rewrite Hcur; lia|done|lia|].
  rewrite (bind_Done _ _ _ _ _ E1). unfold bind at 1, modify at 1. unfold bind at 1, get.
  change (is_ok (set_pending _ _ _)) with (is_ok r1). destruct (is_ok r1) eqn:Ok1.
  2: { exists (set_pending (pending_index_entry r1) h r1). split; [done|]. split; [intros Hx; change (is_ok r1 = true) in Hx; congruence|].
       intros _. simpl. by rewrite Hp1, Hp. }
  destruct (Hok1 eq_refl) as ((more & Hmore) & Hst & Hof1 & Hlen).
  unfold modify. eexists. split; [done|]. split; [|intros Hx; change (is_ok r1 = false) in Hx; congruence]. intros _.
  set (b := mkInfo items js h).
  exists (bs ++ [b]). rewrite all_entries_snoc. change (bi_entries b) with (map entry items). rewrite Hcur.
  split; [|done]. cbn [pending_handle set_pending].
  assert (Hlast : forall e, last cur = Some e -> last_key r = e.1).
  { intros e Hl. apply Hla. by rewrite last_app_r. }
  assert (exists e, last cur = Some e) as [e0 He0].
  { destruct (last cur) eqn:El; [by eexists|]. by apply last_None in El. }
  pose proof (weight_last _ _ He0) as Hwl. rewrite <-(Hlast _ He0) in Hwl. rewrite Hcur in Hlen.
  split.
  - done.
  - done.
  - exists [], [O]. simpl. rewrite Hd1. split; [apply built_new|done].
  - simpl. rewrite Hi1, index_entries_extra by lia. done.
  - simpl. split; [done|]. by exists bs, b.
  - simpl. rewrite all_entries_snoc, app_nil_r. change (bi_entries b) with (map entry items).
    rewrite Hcur, Hl1. done.
  - apply Forall_app. split.
    + simpl. rewrite Hmore. eapply Forall_impl; [exact Hbs|]. intros. by apply block_good_app.
    + apply Forall_singleton. split; simpl; try done. eapply built_good; [done|]. rewrite Hcur. lia.
  - by eapply separates_flush.
  - simpl. eapply offsets_flush; [done| |]; simpl; lia.
  - rewrite all_entries_snoc, app_nil_r. change (bi_entries b) with (map entry items). by rewrite Hcur.
  - simpl. rewrite all_entries_snoc, app_nil_r, weight_app. change (bi_entries b) with (map entry items).
    rewrite Hcur. lia.
  - simpl. rewrite all_entries_snoc, app_nil_r, weight_app, index_entries_extra, Hl1 by lia.
    change (bi_entries b) with (map entry items). rewrite Hcur. lia.
Qed.

(** ** [Add] *)
Lemma on_data_Add_spec (r : Rep F) items js k v :
  built (data_block r) items js -> Forall is_byte k -> Forall is_byte v ->
  room (map entry items ++ [(k, v)]) < 2 ^ 32 ->
  exists b items' js', on_data (Add (block_restart_interval opts) k v) r = Done (tt, set_data_block b r) /\
    built b items' js' /\ map entry items' = map entry items ++ [(k, v)].
Proof using.
  intros Hb Hk Hv Hr. destruct (Add_spec (block_restart_interval opts) _ _ _ k v Hb Hk Hv Hr) as (b & sh & js' & E & Hb').
  unfold on_data. rewrite E. eexists _, _, _. split; [done|]. split; [done|]. by rewrite map_app.
Qed.

Lemma AddIndexEntry_spec (r : Rep F) items js key :
  built (index_block r) items js -> Forall is_byte key -> handle_ok (pending_handle r) ->
  room (map entry items) + 39 + zlen key < 2 ^ 32 ->
  exists b items' js',
    AddIndexEntry key r
    = Done (tt, set_pending false (pending_handle r) (set_index_block b (set_last_key key r))) /\
    built b items' js' /\ map entry items' = map entry items ++ [(key, handle_encoding (pending_handle r))] /\
    room (map entry items') <= room (map entry items) + 39 + zlen key.
Proof using.
  intros Hb Hk Hh Hr. destruct (handle_encoding_spec _ Hh) as (He & Hl & Hbe & _).
  assert (Hroom : room (map entry items ++ [(key, handle_encoding (pending_handle r))])
                  <= room (map entry items) + 39 + zlen key).
  { rewrite room_app. unfold zlen. lia. }
  destruct (Add_spec index_restart_interval _ _ _ key (handle_encoding (pending_handle r)) Hb Hk Hbe)
    as (b & sh & js' & E & Hb'); [lia|].
  unfold AddIndexEntry, bind at 1, get. unfold bind at 1, modify at 1. rewrite (He []). cbn [app].
  unfold bind, on_index. cbn [index_block set_last_key]. rewrite E. unfold modify.
  eexists _, _, _. split; [done|]. split; [done|]. rewrite map_app. split; [done|]. done.
Qed.

Lemma separates_grow seps bs cur k v :
  (forall i sep, seps !! i = Some sep -> bytes_lt sep k = true) ->
  separates seps bs cur -> separates seps bs (cur ++ [(k, v)]).
Proof using.
  intros Hk Hs i sep b Hi Hb. destruct (Hs i sep b Hi Hb) as (H1 & H2 & H3). split_and!; try done.
  intros e He. apply elem_of_app in He as [He|He]; [by apply H3|].
  apply list_elem_of_singleton in He as ->. by eapply Hk.
Qed.

(** Every key already there is before the new one. *)
Lemma sorted_before es k v e : sorted_keys (es ++ [(k, v)]) -> e ∈ es -> bytes_lt e.1 k = true.
Proof using.
  intros Hs He. apply list_elem_of_lookup in He as [i Hi]. pose proof (lookup_lt_Some _ _ _ Hi).
  apply (Hs i (length es) e (k, v)); [done|by apply lookup_app_l_Some|by apply list_lookup_middle].
Qed.

Lemma elem_of_all_entries bs b e : b ∈ bs -> e ∈ bi_entries b -> e ∈ all_entries bs.
Proof using.
  intros Hb He. unfold all_entries. apply list_elem_of_split in Hb as (l1 & l2 & ->). rewrite map_app, concat_app. simpl.
  apply elem_of_app. right. apply elem_of_app. by left.
Qed.

Lemma block_entries_nonempty f b : block_good f b -> exists e, e ∈ bi_entries b.
Proof using.
  intros Hg. pose proof (bg_nonempty _ _ Hg) as Hne. unfold bi_entries.
  destruct (bi_items b) as [|x l]; [done|]. exists (entry x). left.
Qed.

(** The separators are before the new key. *)
Lemma seps_before_key r bs seps cur k v :
  tb_inv r bs seps cur -> sorted_keys ((all_entries bs ++ cur) ++ [(k, v)]) ->
  forall i sep, seps !! i = Some sep -> bytes_lt sep k = true.
Proof using.
  intros Hinv Hsort i sep Hi. pose proof (lookup_lt_Some _ _ _ Hi) as Hlt.
  assert (Hlen : (length seps <= length bs)%nat).
  { pose proof (ti_pending _ _ _ _ Hinv) as Hp. destruct (pending_index_entry r); [|lia].
    destruct Hp as (_ & bs0 & b & -> & Hl & _). rewrite length_app. simpl. lia. }
  destruct (lookup_lt_is_Some_2 bs i ltac:(lia)) as [b Hb].
  destruct (ti_seps _ _ _ _ Hinv i sep b Hi Hb) as (_ & Hlater & Hcur).
  assert (exists e, e ∈ all_entries bs ++ cur /\ bytes_lt sep e.1 = true) as (e & He & Hse).
  { pose proof (ti_pending _ _ _ _ Hinv) as Hp. destruct (pending_index_entry r).
    - destruct Hp as (_ & bs0 & b1 & -> & Hl & _).
      assert (Hb1 : (bs0 ++ [b1]) !! length bs0 = Some b1) by (by apply list_lookup_middle).
      assert (Hg : block_good (fc r) b1).
      { exact (Forall_lookup_1 _ _ _ _ (ti_blocks _ _ _ _ Hinv) Hb1). }
      destruct (block_entries_nonempty _ _ Hg) as [e He]. exists e. split.
      + apply elem_of_app. left. eapply elem_of_all_entries; [|exact He]. apply elem_of_app. right.
        by apply list_elem_of_singleton.
      + apply (Hlater (length bs0) b1); (done || lia).
    - destruct cur as [|e cur].
      + destruct Hp as [_ Hp]. rewrite (Hp eq_refl) in Hb. by rewrite lookup_nil in Hb.
      + exists e. split; [apply elem_of_app; right; left|]. apply Hcur. left. }
  eapply bytes_compare_trans; [exact Hse|]. by eapply sorted_before.
Qed.

(** Adding the entry to the data block when no index entry is pending. *)
Lemma inv_add_data r bs seps cur k v b items js n :
  tb_inv r bs seps cur -> pending_index_entry r = false ->
  sorted_keys ((all_entries bs ++ cur) ++ [(k, v)]) -> Forall is_byte k -> Forall is_byte v ->
  built b items js -> map entry items = cur ++ [(k, v)] ->
  tb_inv (set_data_block b (set_num_entries n (set_last_key k r))) bs seps (cur ++ [(k, v)]).
Proof using.
  intros Hinv Hp Hsort Hk Hv Hb Hm. pose proof (seps_before_key _ _ _ _ _ _ Hinv Hsort) as Hsk.
  destruct Hinv as [Hok Hof _ Hix Hpe Hla Hbs Hse Hos Hby Hfr Hir]. rewrite Hp in *.
  split; simpl; try done.
  - by exists items, js.
  - rewrite Hp. destruct Hpe as [Hpe _]. split; [done|]. by intros [_ ?]%app_nil.
  - intros e. rewrite app_assoc, last_snoc. by intros [= <-].
  - by apply separates_grow.
  - rewrite app_assoc. apply Forall_app. split; [done|]. by apply Forall_singleton.
  - rewrite app_assoc, !weight_app in *. lia.
  - rewrite Hp. rewrite app_assoc, !weight_app in *. lia.
Qed.

(** ** The index entry of the last block *)

(** A pending entry belongs to the last block, whose keys are at or before
    [last_key]. *)
Lemma pending_last r bs seps : tb_inv r bs seps [] -> pending_index_entry r = true ->
  sorted_keys (all_entries bs) ->
  exists bs0 b0 e0, bs = bs0 ++ [b0] /\ length seps = length bs0 /\ pending_handle r = bi_handle b0 /\
    block_good (fc r) b0 /\ e0 ∈ all_entries bs /\ last_key r = e0.1 /\
    (forall e, e ∈ bi_entries b0 -> bytes_le e.1 (last_key r)).
Proof using.
  intros Hinv Hp Hsort. pose proof (ti_pending _ _ _ _ Hinv) as Hpe. rewrite Hp in Hpe.
  destruct Hpe as (_ & bs0 & b0 & -> & Hls & Hph).
  assert (Hg0 : block_good (fc r) b0).
  { apply (Forall_lookup_1 _ _ (length bs0) _ (ti_blocks _ _ _ _ Hinv)). by apply list_lookup_middle. }
  destruct (block_entries_nonempty _ _ Hg0) as [e1 He1].
  destruct (last (bi_entries b0)) as [e0|] eqn:He0.
  2: { apply last_None in He0. rewrite He0 in He1. by apply not_elem_of_nil in He1. }
  rewrite all_entries_snoc in *. apply last_Some in He0 as [l' Hl'].
  pose proof (ti_last _ _ _ _ Hinv e0) as Hlk. rewrite all_entries_snoc, app_nil_r, Hl', app_assoc, last_snoc in Hlk.
  specialize (Hlk eq_refl). rewrite Hl', app_assoc in Hsort. destruct e0 as [k0 v0].
  exists bs0, b0, (k0, v0). split_and!; try done.
  - apply elem_of_app. right. rewrite Hl'. apply elem_of_app. right. by apply list_elem_of_singleton.
  - intros e He. rewrite Hlk, Hl' in *. apply elem_of_app in He as [He|He].
    + apply bytes_lt_le. eapply sorted_before; [exact Hsort|]. apply elem_of_app. by right.
    + apply list_elem_of_singleton in He as ->. apply bytes_le_refl.
Qed.

(** Any key at or after [last_key] that is no longer separates the last block
    from what follows. *)
Lemma separates_pending r bs seps sep : tb_inv r bs seps [] -> pending_index_entry r = true ->
  sorted_keys (all_entries bs) -> bytes_le (last_key r) sep ->
  length (seps ++ [sep]) = length bs /\ separates (seps ++ [sep]) bs [] /\
  index_entries (seps ++ [sep]) bs = index_entries seps bs ++ [(sep, handle_encoding (pending_handle r))] /\
  handle_ok (pending_handle r).
Proof using.
  intros Hinv Hp Hsort Hle.
  destruct (pending_last _ _ _ Hinv Hp Hsort) as (bs0 & b0 & e0 & -> & Hls & Hph & Hg & _ & _ & Hb0).
  rewrite !length_app, Hls, index_entries_snoc, index_entries_extra, Hph by lia.
  split_and!; try done; [|apply Hg]. intros i s' b' Hi Hb'.
  apply lookup_app_Some in Hi as [Hi|[Hge Hi]]; [exact (ti_seps _ _ _ _ Hinv i s' b' Hi Hb')|].
  apply list_lookup_singleton_Some in Hi as [Hi0 <-]. assert (i = length bs0) as -> by lia.
  rewrite list_lookup_middle in Hb' by done. simplify_eq. split_and!.
  - intros e He. eapply bytes_le_trans; [|exact Hle]. by apply Hb0.
  - intros j b1 e Hij Hj%lookup_lt_Some He. rewrite length_app in Hj. simpl in Hj. lia.
  - by intros e ?%not_elem_of_nil.
Qed.

Lemma emit_index r r' bs seps sep : tb_inv r bs seps [] -> pending_index_entry r = true -> same_but_file r r' ->
  sorted_keys (all_entries bs) -> weight (all_entries bs) + 1000 < 2 ^ 32 ->
  bytes_le (last_key r) sep -> (length sep <= length (last_key r))%nat -> Forall is_byte sep ->
  exists b items js,
    AddIndexEntry sep r' = Done (tt, set_pending false (pending_handle r') (set_index_block b (set_last_key sep r'))) /\
    built b items js /\ map entry items = index_entries (seps ++ [sep]) bs /\
    room (index_entries (seps ++ [sep]) bs) <= 8 + weight (all_entries bs).
Proof using.
  intros Hinv Hp (_ & Hsi & _ & _ & _ & Hsp & _) Hsort Hw Hle Hlen Hb.
  destruct (separates_pending _ _ _ _ Hinv Hp Hsort Hle) as (_ & _ & Hie & Hho).
  destruct (ti_index _ _ _ _ Hinv) as (items & js & Hbu & Hm).
  pose proof (ti_index_room _ _ _ _ Hinv) as Hir. rewrite Hp, app_nil_r in Hir. simpl in Hir.
  assert (zlen sep <= zlen (last_key r)) by (unfold zlen; lia).
  destruct (AddIndexEntry_spec r' items js sep) as (b & items' & js' & E & Hbu' & Hm' & Hr');
    [by rewrite Hsi|done|by rewrite Hsp|rewrite Hm; lia|]. rewrite <-Hsp in Hie.
  exists b, items', js'. rewrite Hie, <-Hm, <-Hm'. split_and!; try done. rewrite Hm in Hr'. lia.
Qed.

(** The invariant after [Add] emitted the index entry under the separator of
    the last key and the new one. *)
Lemma inv_add_index r bs seps k v b items js n sep bd ditems djs :
  tb_inv r bs seps [] -> pending_index_entry r = true -> bytes_le (last_key r) sep -> bytes_lt sep k = true ->
  sorted_keys (all_entries bs ++ [(k, v)]) -> sorted_keys (all_entries bs) -> Forall is_byte k -> Forall is_byte v ->
  built b items js -> map entry items = index_entries (seps ++ [sep]) bs ->
  room (index_entries (seps ++ [sep]) bs) <= 8 + weight (all_entries bs) ->
  built bd ditems djs -> map entry ditems = [(k, v)] ->
  tb_inv (set_data_block bd (set_num_entries n (set_last_key k
            (set_pending false (pending_handle r) (set_index_block b (set_last_key sep r))))))
    bs (seps ++ [sep]) [(k, v)].
Proof using.
  intros Hinv Hp Hle Hlt Hsort Hsort' Hk Hv Hb Hm Hroom Hbd Hmd.
  destruct (separates_pending _ _ _ _ Hinv Hp Hsort' Hle) as (Hlen & Hsep & Hie & _).
  assert (Hsk : forall i s', seps !! i = Some s' -> bytes_lt s' k = true).
  { eapply (seps_before_key _ _ _ _ k v Hinv). by rewrite app_nil_r. }
  destruct Hinv as [Hok Hof _ Hix Hpe Hla Hbs Hse Hos Hby Hfr Hir]. rewrite app_nil_r in *.
  split; simpl; try done.
  - by exists ditems, djs.
  - by exists items, js.
  - intros e. rewrite last_snoc. by intros [= <-].
  - apply (separates_grow _ _ [] k v); [|done]. intros i s' Hi.
    apply lookup_app_Some in Hi as [Hi|[_ Hi]]; [by eapply Hsk|].
    by apply list_lookup_singleton_Some in Hi as [_ <-].
  - apply Forall_app. split; [done|]. by apply Forall_singleton.
  - rewrite weight_app. simpl in *. lia.
  - rewrite weight_app. simpl in *. lia.
Qed.
End builder.
