(* ===== verification/TableBuilderSpec.v ===== *)
(** * Writing table files: what [Add] and [Finish] do

    [Add] and [Finish] return on every file.  When no append failed, the file
    then holds a table: data blocks, an empty metaindex block, an index block
    whose keys separate the data blocks, and a footer that locates the last
    two. *)
From S2P Require Import Prelude Coding Block BlockProofs BlockTheorems Crc32c TableFormat TableBuilder TableKeys TableBuilderProofs.
From stdpp Require Import options.
#[local] Open Scope tf_monad_scope.

Lemma sorted_keys_app_l a b : sorted_keys (a ++ b) -> sorted_keys a.
Proof. intros Hs m n x y Hmn Hx Hy. by apply (Hs m n); [|apply lookup_app_l_Some..]. Qed.

Section builder.
Context {F : Type} `{WF : WritableFile F} `{WFL : !WritableFileLaws F} `{SN : Snappy} `{SNL : !SnappyLaws}.
Context (opts : Options).

Abbreviation fc r := (file_contents (file r)).

Lemma not_ok (r : Rep F) : is_ok r = false -> status r <> StatusOK.
Proof using. unfold is_ok. by destruct (status r). Qed.

(** The part of [Add] after the test for an overly large entry, and the part
    after the entry was added to the data block. *)
Definition flush_if_full : M (Rep F) unit :=
  r <~ get;; if CurrentSizeEstimate (data_block r) >=? block_size opts then Flush opts else ret tt.

Definition add_rest (key value : bytes) : M (Rep F) unit :=
  r <~ get;;
  (if pending_index_entry r then AddIndexEntry (FindShortestSeparator (last_key r) key) else ret tt);;;
  modify (set_last_key key);;;
  modify (fun r => set_num_entries (i64 (num_entries r + 1)) r);;;
  on_data (Add (block_restart_interval opts) key value);;;
  flush_if_full.

(** Names the state in which the entry is added to the data block. *)
Ltac at_add x := match goal with |- context[bind (on_data _) _ ?r] => set (x := r) end.

Lemma flush_if_full_spec r bs seps cur :
  tb_inv r bs seps cur -> weight (all_entries bs ++ cur) + 1000 < 2 ^ 32 ->
  exists r', flush_if_full r = Done (tt, r') /\
    (is_ok r' = true -> exists bs' cur', tb_inv r' bs' seps cur' /\
       all_entries bs' ++ cur' = all_entries bs ++ cur).
Proof using WFL SNL.
  intros Hinv Hw. unfold flush_if_full, bind, get.
  destruct (CurrentSizeEstimate (data_block r) >=? block_size opts); [|exists r; naive_solver].
  destruct (Flush_spec opts r bs seps cur Hinv Hw) as (r' & E & Hok & _). exists r'. split; [done|].
  intros H. destruct (Hok H) as (bs' & Hinv' & Hall). exists bs', []. by rewrite app_nil_r.
Qed.

Lemma add_rest_spec r bs seps cur k v :
  tb_inv r bs seps cur -> sorted_keys ((all_entries bs ++ cur) ++ [(k, v)]) ->
  Forall is_byte k -> Forall is_byte v -> weight ((all_entries bs ++ cur) ++ [(k, v)]) + 1000 < 2 ^ 32 ->
  exists r', add_rest k v r = Done (tt, r') /\
    (is_ok r' = true -> exists bs' seps' cur', tb_inv r' bs' seps' cur' /\
       all_entries bs' ++ cur' = (all_entries bs ++ cur) ++ [(k, v)]).
Proof using WFL SNL.
  intros Hinv Hsort Hk Hv Hw. pose proof (weight_nonneg (all_entries bs)). pose proof (weight_nonneg cur).
  destruct (ti_data _ _ _ _ Hinv) as (items & js & Hbu & Hm).
  assert (Hroom : room (map entry items ++ [(k, v)]) < 2 ^ 32).
  { pose proof (room_weight (map entry items ++ [(k, v)])) as Hr.
    rewrite Hm, !weight_app in *. rewrite length_app in Hr. lia. }
  unfold add_rest, bind at 1, get. destruct (pending_index_entry r) eqn:Hp.
  - pose proof (ti_pending _ _ _ _ Hinv) as Hcur. rewrite Hp in Hcur. destruct Hcur as [-> _].
    rewrite app_nil_r in *. pose proof (sorted_keys_app_l _ _ Hsort) as Hsort'.
    destruct (pending_last _ _ _ Hinv Hp Hsort') as (bs0 & b0 & [k0 v0] & Hbs & _ & _ & _ & He0 & Hlk & _).
    assert (Hbk : Forall is_byte (last_key r)).
    { rewrite Hlk. pose proof (ti_bytes _ _ _ _ Hinv) as Hby. rewrite app_nil_r in Hby.
      exact (proj1 (proj1 (Forall_forall _ _) Hby _ He0)). }
    assert (Hlt : bytes_lt (last_key r) k = true) by (rewrite Hlk; by apply (sorted_before _ _ _ _ Hsort)).
    destruct (separator_spec _ k Hbk Hk Hlt) as (Hs1 & Hs2 & Hs3 & Hs4).
    destruct (emit_index r r _ _ _ Hinv Hp ltac:(by split_and!) Hsort' ltac:(rewrite weight_app in Hw; simpl in Hw; unfold zlen in *; lia) Hs1 Hs4 Hs3)
      as (b & iitems & ijs & E & Hib & Him & Hir).
    rewrite (bind_Done _ _ _ _ _ E). unfold bind at 1, modify at 1. unfold bind at 1, modify at 1.
    at_add x. destruct (on_data_Add_spec opts x items js k v Hbu Hk Hv Hroom) as (bd & ditems & djs & E2 & Hbd & Hmd).
    rewrite (bind_Done _ _ _ _ _ E2). rewrite Hm in Hmd.
    assert (Hinv' : tb_inv (set_data_block bd x) bs (seps ++ [FindShortestSeparator (last_key r) k]) [(k, v)])
      by (unfold x; by eapply inv_add_index).
    destruct (flush_if_full_spec _ _ _ _ Hinv' Hw) as (r' & E3 & Hok).
    exists r'. split; [exact E3|]. intros H'. destruct (Hok H') as (bs' & cur' & Hi' & Hall). by eauto.
  - unfold bind at 1, ret at 1. unfold bind at 1, modify at 1. unfold bind at 1, modify at 1.
    at_add x. destruct (on_data_Add_spec opts x items js k v Hbu Hk Hv Hroom) as (bd & ditems & djs & E2 & Hbd & Hmd).
    rewrite (bind_Done _ _ _ _ _ E2). rewrite Hm in Hmd. rewrite <-app_assoc in Hw.
    assert (Hinv' : tb_inv (set_data_block bd x) bs seps (cur ++ [(k, v)])) by (unfold x; by eapply inv_add_data).
    destruct (flush_if_full_spec _ _ _ _ Hinv' Hw) as (r' & E3 & Hok).
    exists r'. split; [exact E3|]. intros H'. destruct (Hok H') as (bs' & cur' & Hi' & Hall).
    exists bs', seps, cur'. by rewrite <-app_assoc.
Qed.

(** After a failed append nothing more is written. *)
Lemma add_rest_failed r k v : is_ok r = false -> pending_index_entry r = false ->
  data_block r = BlockBuilder_new -> Forall is_byte k -> Forall is_byte v -> room [(k, v)] < 2 ^ 32 ->
  exists r', add_rest k v r = Done (tt, r') /\ is_ok r' = false.
Proof using.
  intros Hok Hp Hd Hk Hv Hroom. unfold add_rest, bind at 1, get. rewrite Hp.
  unfold bind at 1, ret at 1. unfold bind at 1, modify at 1. unfold bind at 1, modify at 1.
  at_add x. destruct (on_data_Add_spec opts x [] [O] k v) as (bd & _ & _ & E & _);
    [unfold x; simpl; rewrite Hd; apply built_new|done..|].
  rewrite (bind_Done _ _ _ _ _ E). unfold flush_if_full, bind at 1, get.
  match goal with |- context[(if _ then _ else _) ?x] => exists x end.
  split; [|done]. destruct (_ >=? _); [|done]. unfold Flush, bind at 1, get.
  change (is_ok (set_data_block _ _)) with (is_ok r). by rewrite Hok.
Qed.

Lemma TableBuilder_Add_spec r bs seps cur k v :
  tb_inv r bs seps cur -> sorted_keys ((all_entries bs ++ cur) ++ [(k, v)]) ->
  Forall is_byte k -> Forall is_byte v -> weight ((all_entries bs ++ cur) ++ [(k, v)]) + 1000 < 2 ^ 32 ->
  exists r', TableBuilder_Add opts k v r = Done (tt, r') /\
    (is_ok r' = true -> exists bs' seps' cur', tb_inv r' bs' seps' cur' /\
       all_entries bs' ++ cur' = (all_entries bs ++ cur) ++ [(k, v)]).
Proof using WFL SNL.
  intros Hinv Hsort Hk Hv Hw. pose proof (ti_ok _ _ _ _ Hinv) as Hok.
  pose proof (weight_nonneg (all_entries bs ++ cur)).
  assert (Hw' : weight (all_entries bs ++ cur) + 1000 < 2 ^ 32 /\ room [(k, v)] < 2 ^ 32).
  { pose proof (room_weight [(k, v)]). rewrite weight_app in Hw. simpl in Hw, H |- *.
    pose proof (zlen_nonneg k). pose proof (zlen_nonneg v). simpl in *. lia. }
  destruct Hw' as [Hw' Hr]. unfold TableBuilder_Add. unfold bind at 1, get at 1. rewrite Hok. cbn [negb].
  change (exists r', bind (if (num_entries r >? 0) && (zlen k + zlen v >=? u64 (2 * block_size opts))
                           then Flush opts else ret tt) (fun _ => add_rest k v) r = Done (tt, r') /\
    (is_ok r' = true -> exists bs' seps' cur', tb_inv r' bs' seps' cur' /\
       all_entries bs' ++ cur' = (all_entries bs ++ cur) ++ [(k, v)])).
  destruct (_ && _); [|exact (add_rest_spec r bs seps cur k v Hinv Hsort Hk Hv Hw)].
  destruct (Flush_spec opts r bs seps cur Hinv Hw') as (r1 & E & H1 & H2).
  rewrite (bind_Done _ _ _ _ _ E). destruct (is_ok r1) eqn:Ok1.
  - destruct (H1 eq_refl) as (bs' & Hinv' & Hall).
    rewrite <-Hall, <-(app_nil_r (all_entries bs')) in *. by apply (add_rest_spec r1 bs' seps []).
  - destruct (H2 eq_refl) as [Hp Hd]. destruct (add_rest_failed r1 k v Ok1 Hp Hd Hk Hv Hr) as (r' & E' & Hf).
    exists r'. split; [done|]. congruence.
Qed.

(** Once the status is an error, [Add] does nothing. *)
Lemma TableBuilder_Add_failed (r : Rep F) k v : is_ok r = false -> TableBuilder_Add opts k v r = Done (tt, r).
Proof using. intros Hok. unfold TableBuilder_Add, bind, get. by rewrite Hok. Qed.

Lemma table_add_all_failed es : forall (r : Rep F), is_ok r = false -> table_add_all opts es r = Done (tt, r).
Proof using.
  induction es as [|[k v] es IH]; intros r Hok; [done|]. simpl.
  rewrite (bind_Done _ _ _ _ _ (TableBuilder_Add_failed r k v Hok)). by apply IH.
Qed.

Lemma table_add_all_spec es : forall r bs seps cur,
  tb_inv r bs seps cur -> sorted_keys ((all_entries bs ++ cur) ++ es) -> entry_bytes es ->
  weight ((all_entries bs ++ cur) ++ es) + 1000 < 2 ^ 32 ->
  exists r', table_add_all opts es r = Done (tt, r') /\
    (is_ok r' = true -> exists bs' seps' cur', tb_inv r' bs' seps' cur' /\
       all_entries bs' ++ cur' = (all_entries bs ++ cur) ++ es).
Proof using WFL SNL.
  induction es as [|[k v] es IH]; intros r bs seps cur Hinv Hsort Hby Hw.
  - exists r. split; [done|]. intros _. exists bs, seps, cur. by rewrite !app_nil_r.
  - apply Forall_cons in Hby as [[Hk Hv] Hby].
    change ((k, v) :: es) with ([(k, v)] ++ es) in Hsort, Hw |- *. rewrite app_assoc in Hsort, Hw |- *.
    pose proof (weight_nonneg es) as Hwe.
    destruct (TableBuilder_Add_spec r bs seps cur k v Hinv (sorted_keys_app_l _ _ Hsort) Hk Hv) as (r1 & E & Hok);
      [rewrite weight_app in Hw; lia|].
    simpl. rewrite (bind_Done _ _ _ _ _ E). destruct (is_ok r1) eqn:Ok1.
    + destruct (Hok eq_refl) as (bs' & seps' & cur' & Hinv' & Hall). rewrite <-Hall in Hsort, Hw |- *.
      by apply (IH r1 bs' seps' cur').
    + exists r1. split; [by apply table_add_all_failed|]. congruence.
Qed.

(** ** [Finish] *)
Lemma WriteIndexBlock_spec r items js :
  built (index_block r) items js -> room (map entry items) < 2 ^ 32 ->
  offset r = zlen (fc r) -> zlen (fc r) < 2 ^ 62 ->
  exists h r', WriteIndexBlock opts r = Done (h, r') /\ handle_ok h /\
    (is_ok r' = true ->
       (exists more, fc r' = fc r ++ more) /\ stored_block (fc r') h (contents items js) /\
       offset r' = zlen (fc r') /\ zlen (fc r') <= zlen (fc r) + room (map entry items) + 5).
Proof using WFL SNL.
  intros Hb Hroom Ho Hsz. destruct (Finish_spec _ _ _ Hb Hroom) as (b' & E).
  unfold WriteIndexBlock, bind at 1, on_index at 1. rewrite E.
  pose proof (built_contents_room _ _ _ Hb) as Hcr.
  destruct (WriteFinished_spec opts (set_index_block b' r) (contents items js)) as (h & r1 & E1 & S1 & _ & Hh & Hok);
    [by eapply built_contents_bytes|done|simpl; lia|].
  rewrite (bind_Done _ _ _ _ _ E1). unfold bind, on_index, modify, ret. eexists h, _. split; [done|].
  split; [done|]. intros Hok1. destruct (Hok Hok1) as (Hm & Hst & Hof & Hlen).
  split_and!; try done; simpl in *; lia.
Qed.

(** The last index entry is emitted under the successor of the last key. *)
Lemma last_index_entry r r' bs seps :
  tb_inv r bs seps [] -> same_but_file r r' -> sorted_keys (all_entries bs) ->
  weight (all_entries bs) + 1000 < 2 ^ 32 ->
  exists r2 seps' items js,
    (if pending_index_entry r' then AddIndexEntry (FindShortSuccessor (last_key r')) else ret tt) r' = Done (tt, r2) /\
    file r2 = file r' /\ offset r2 = offset r' /\
    built (index_block r2) items js /\ map entry items = index_entries seps' bs /\
    length seps' = length bs /\ separates seps' bs [] /\ room (map entry items) <= 8 + weight (all_entries bs).
Proof using.
  intros Hinv Hs Hsort Hw. pose proof Hs as (_ & Hsi & Hsl & _ & Hsp & _).
  rewrite Hsp, Hsl. destruct (pending_index_entry r) eqn:Hp.
  - destruct (pending_last _ _ _ Hinv Hp Hsort) as (bs0 & b0 & e0 & Hbs & _ & _ & _ & He0 & Hlk & _).
    assert (Hbk : Forall is_byte (last_key r)).
    { rewrite Hlk. pose proof (ti_bytes _ _ _ _ Hinv) as Hby. rewrite app_nil_r in Hby.
      exact (proj1 (proj1 (Forall_forall _ _) Hby _ He0)). }
    destruct (successor_spec _ Hbk) as (Hs1 & Hs2 & Hs3).
    destruct (emit_index r r' _ _ _ Hinv Hp Hs Hsort Hw Hs1 Hs3 Hs2) as (b & items & js & E & Hb & Hm & Hr).
    destruct (separates_pending _ _ _ _ Hinv Hp Hsort Hs1) as (Hlen & Hsep & _).
    eexists _, _, items, js. split; [exact E|]. rewrite Hm. by split_and!.
  - destruct (ti_index _ _ _ _ Hinv) as (items & js & Hb & Hm).
    pose proof (ti_pending _ _ _ _ Hinv) as Hpe. rewrite Hp in Hpe. destruct Hpe as [Hl _].
    pose proof (ti_index_room _ _ _ _ Hinv) as Hir. rewrite Hp, app_nil_r in Hir. simpl in Hir.
    exists r', seps, items, js. rewrite Hsi, Hm. split_and!; try done; [apply Hinv|lia].
Qed.

(** The file of a finished table. *)
Record table_file (f : bytes) (es : list (bytes * bytes)) (bs : list block_info) (seps : list bytes)
    (iitems : list item) (ijs : list nat) (footer : Footer) : Prop := {
  tf_entries : all_entries bs = es;
  tf_blocks : Forall (block_good f) bs;
  tf_offsets : offsets_increase bs (zlen f);
  tf_index : stored_block f (index_handle_ footer) (contents iitems ijs);
  tf_index_good : good_block iitems ijs;
  tf_index_entries : map entry iitems = index_entries seps bs;
  tf_seps : length seps = length bs /\ separates seps bs [];
  tf_meta : stored_block f (metaindex_handle_ footer) (contents [] [O]);
  tf_footer : exists pre e, f = pre ++ e /\ Footer_EncodeTo [] footer = Some e;
  tf_handles : handle_ok (metaindex_handle_ footer) /\ handle_ok (index_handle_ footer);
  tf_size : zlen f < 2 ^ 62
}.

Lemma WriteMetaBlock_spec r :
  offset r = zlen (fc r) -> zlen (fc r) < 2 ^ 61 ->
  exists h r', WriteMetaBlock opts r = Done (h, r') /\ same_but_file r r' /\ handle_ok h /\
    (is_ok r' = true ->
       (exists more, fc r' = fc r ++ more) /\ stored_block (fc r') h (contents [] [O]) /\
       offset r' = zlen (fc r') /\ zlen (fc r') <= zlen (fc r) + 100).
Proof using WFL SNL.
  intros Ho Hsz. unfold WriteMetaBlock, bind at 1, lift.
  change (match Finish BlockBuilder_new with Done (raw, _) => Done raw | Crash => Crash | OutOfFuel => OutOfFuel end)
    with (Done (contents [] [O])). cbn iota beta.
  assert (Hl : zlen (contents [] [O]) = 8) by done.
  destruct (WriteFinished_spec opts r (contents [] [O])) as (h & r1 & E & Hs & _ & Hh & Hok);
    [apply (built_contents_bytes _ _ _ built_new)|done|lia|].
  exists h, r1. split_and!; try done. intros H1. destruct (Hok H1) as (? & ? & ? & ?). split_and!; try done. lia.
Qed.

(** The end of [Finish], after the metaindex block. *)
Definition finish_rest (metaindex : BlockHandle) : M (Rep F) Status :=
  r <~ get;;
  index <~
    (if is_ok r then
       (if pending_index_entry r then AddIndexEntry (FindShortSuccessor (last_key r)) else ret tt);;;
       WriteIndexBlock opts
     else ret (mkHandle 0 0));;
  r <~ get;;
  (if is_ok r then
     match Footer_EncodeTo [] (mkFooter metaindex index) with
     | None => out_of_fuel
     | Some footer_encoding =>
         append footer_encoding;;;
         r <~ get;;
         if is_ok r then modify (set_offset (u64 (offset r + zlen footer_encoding))) else ret tt
     end
   else ret tt);;;
  r <~ get;;
  ret (status r).

Lemma finish_rest_failed r h : is_ok r = false -> finish_rest h r = Done (status r, r).
Proof using. intros Hok. unfold finish_rest, bind, get, ret. by rewrite !Hok. Qed.

Lemma table_grows f f' more bs h raw : f' = f ++ more ->
  Forall (block_good f) bs -> stored_block f h raw -> Forall (block_good f') bs /\ stored_block f' h raw.
Proof using.
  intros -> Hb Hs. split; [|by apply stored_block_app].
  eapply Forall_impl; [exact Hb|]. intros. by apply block_good_app.
Qed.

Lemma offsets_grow bs limit limit' : offsets_increase bs limit -> limit <= limit' -> offsets_increase bs limit'.
Proof using. intros [H1 H2] Hl. split; [done|]. intros b Hb. specialize (H2 b Hb). lia. Qed.

Lemma finish_rest_spec r r1 hm bs seps :
  tb_inv r bs seps [] -> same_but_file r r1 -> sorted_keys (all_entries bs) ->
  weight (all_entries bs) + 1000 < 2 ^ 32 ->
  (exists more, fc r1 = fc r ++ more) -> stored_block (fc r1) hm (contents [] [O]) -> handle_ok hm ->
  offset r1 = zlen (fc r1) -> zlen (fc r1) <= zlen (fc r) + 100 -> is_ok r1 = true ->
  exists st r', finish_rest hm r1 = Done (st, r') /\
    (st = StatusOK -> exists seps' iitems ijs footer,
       table_file (fc r') (all_entries bs) bs seps' iitems ijs footer).
Proof using WFL SNL.
  intros Hinv Hs Hsort Hw (more & Hmore) Hmeta Hhm Hof Hsz Hok.
  pose proof (ti_file_room _ _ _ _ Hinv) as Hfr. rewrite app_nil_r in Hfr. simpl in Hfr.
  destruct (last_index_entry r r1 bs seps Hinv Hs Hsort Hw)
    as (r2 & seps' & items & js & E2 & Hf2 & Ho2 & Hbu & Hm & Hls & Hsep & Hroom).
  unfold finish_rest, bind at 1, get. rewrite Hok. unfold bind at 1. rewrite (bind_Done _ _ _ _ _ E2).
  destruct (WriteIndexBlock_spec r2 items js Hbu) as (hi & r3 & E3 & Hhi & Hok3);
    [lia|congruence|rewrite Hf2; lia|].
  rewrite E3. destruct (is_ok r3) eqn:Ok3.
  2: { unfold bind, get, ret. rewrite Ok3. eexists _, r3. split; [done|].
       intros Hst. by destruct (not_ok _ Ok3). }
  destruct (Hok3 eq_refl) as ((more3 & Hmore3) & Hst3 & Hof3 & Hl3). rewrite Hf2 in *.
  unfold bind at 1, get. rewrite Ok3.
  destruct (Footer_roundtrip (mkFooter hm hi) [] Hhm Hhi) as (e & Ee & Hle & _). rewrite Ee.
  unfold bind at 1. destruct (append_spec r3 e) as (r4 & E4 & _ & _ & Hc4).
  rewrite (bind_Done _ _ _ _ _ E4). unfold bind at 1, get. destruct (is_ok r4) eqn:Ok4.
  2: { unfold bind, get, ret. eexists _, r4. split; [done|].
       intros Hst. by destruct (not_ok _ Ok4). }
  unfold modify, bind, get, ret. eexists _, _. split; [done|]. intros _. cbn [file set_offset].
  specialize (Hc4 eq_refl). exists seps', items, js, (mkFooter hm hi).
  destruct (table_grows _ _ _ bs hm (contents [] [O]) Hmore3) as [Hb3 Hmeta3];
    [rewrite Hmore; eapply Forall_impl; [exact (ti_blocks _ _ _ _ Hinv)|]; intros; by apply block_good_app|done|].
  destruct (table_grows _ _ _ bs hm (contents [] [O]) Hc4 Hb3 Hmeta3) as [Hb4 Hmeta4].
  assert (Hlen4 : zlen (fc r4) = zlen (fc r3) + 48) by (rewrite Hc4; unfold zlen; rewrite length_app, Hle; unfold kEncodedLength; lia).
  assert (zlen (fc r) <= zlen (fc r3)).
  { rewrite Hmore3, Hmore. unfold zlen. rewrite !length_app. lia. }
  split; try done.
  - eapply offsets_grow; [apply (ti_offsets _ _ _ _ Hinv)|]. lia.
  - cbn [index_handle_]. rewrite Hc4. by apply stored_block_app.
  - eapply built_good; [done|]. lia.
  - by exists (fc r3), e.
  - lia.
Qed.

Lemma TableBuilder_Finish_spec r bs seps cur :
  tb_inv r bs seps cur -> sorted_keys (all_entries bs ++ cur) -> weight (all_entries bs ++ cur) + 1000 < 2 ^ 32 ->
  exists st r', TableBuilder_Finish opts r = Done (st, r') /\
    (st = StatusOK -> exists bs' seps' iitems ijs footer,
       table_file (fc r') (all_entries bs ++ cur) bs' seps' iitems ijs footer).
Proof using WFL SNL.
  intros Hinv Hsort Hw. destruct (Flush_spec opts r bs seps cur Hinv Hw) as (r1 & E1 & Hok1 & _).
  unfold TableBuilder_Finish. rewrite (bind_Done _ _ _ _ _ E1).
  unfold bind at 1, modify at 1. unfold bind at 1, get at 1.
  change (is_ok (set_closed r1)) with (is_ok r1). destruct (is_ok r1) eqn:Ok1.
  2: { unfold bind at 1, ret at 1. pose proof (finish_rest_failed (set_closed r1) (mkHandle 0 0) Ok1) as E.
       eexists _, _. split; [exact E|]. intros Hst. by destruct (not_ok _ Ok1). }
  destruct (Hok1 eq_refl) as (bs' & Hinv1 & Hall). rewrite <-Hall in *.
  pose proof (ti_file_room _ _ _ _ Hinv1) as Hfr. rewrite app_nil_r in Hfr. simpl in Hfr.
  assert (Hinv2 : tb_inv (set_closed r1) bs' seps []) by (by destruct Hinv1).
  destruct (WriteMetaBlock_spec (set_closed r1)) as (hm & r2 & E2 & Hs2 & Hh2 & Hok2);
    [apply Hinv2|simpl; lia|].
  rewrite (bind_Done _ _ _ _ _ E2). destruct (is_ok r2) eqn:Ok2.
  2: { eexists _, _. split; [exact (finish_rest_failed r2 hm Ok2)|].
       intros Hst. by destruct (not_ok _ Ok2). }
  destruct (Hok2 eq_refl) as (Hm & Hst & Hof & Hsz).
  destruct (finish_rest_spec (set_closed r1) r2 hm bs' seps Hinv2 Hs2 Hsort Hw Hm Hst Hh2 Hof Hsz Ok2)
    as (st & r3 & E3 & H3).
  eexists st, r3. split; [exact E3|]. intros ->. destruct (H3 eq_refl) as (? & ? & ? & ? & ?). by eauto 6.
Qed.

(** ** A whole table *)
Definition build_table (es : list (bytes * bytes)) : M (Rep F) Status :=
  table_add_all opts es;;; TableBuilder_Finish opts.

Lemma tb_inv_new f : file_contents f = [] -> tb_inv (Rep_new f) [] [] [].
Proof using.
  intros Hf. split; simpl; try done.
  - by rewrite Hf.
  - exists [], [O]. split; [apply built_new|done].
  - exists [], [O]. split; [apply built_new|done].
  - split; [|by intros b ?%not_elem_of_nil]. intros i j b b' _ Hi. done.
  - constructor.
  - rewrite Hf. done.
Qed.

Lemma TableBuilder_Finish_failed (r : Rep F) : is_ok r = false ->
  TableBuilder_Finish opts r = Done (status r, set_closed r).
Proof using.
  intros Hok. unfold TableBuilder_Finish. unfold bind at 1. unfold Flush, bind at 1, get at 1.
  rewrite Hok. cbn [negb]. unfold ret at 1. unfold bind at 1, modify at 1. unfold bind at 1, get at 1.
  change (is_ok (set_closed r)) with (is_ok r). rewrite Hok. unfold bind at 1, ret at 1.
  exact (finish_rest_failed (set_closed r) (mkHandle 0 0) Hok).
Qed.

Lemma build_table_spec es f :
  file_contents f = [] -> sorted_keys es -> entry_bytes es -> weight es + 1000 < 2 ^ 32 ->
  exists st r, build_table es (Rep_new f) = Done (st, r) /\
    (st = StatusOK -> exists bs seps iitems ijs footer, table_file (fc r) es bs seps iitems ijs footer).
Proof using WFL SNL.
  intros Hf Hsort Hby Hw.
  destruct (table_add_all_spec es _ _ _ _ (tb_inv_new f Hf) Hsort Hby Hw) as (r1 & E1 & Hok1).
  unfold build_table. rewrite (bind_Done _ _ _ _ _ E1). destruct (is_ok r1) eqn:Ok1.
  - destruct (Hok1 eq_refl) as (bs & seps & cur & Hinv & Hall). simpl in Hall. rewrite <-Hall in *.
    by apply (TableBuilder_Finish_spec r1 bs seps cur).
  - exists (status r1), (set_closed r1). split; [by apply TableBuilder_Finish_failed|].
    intros Hst. by destruct (not_ok _ Ok1).
Qed.
End builder.

(** ** Files whose appends succeed *)
Section no_failure.
Context {F : Type} `{WF : WritableFile F} `{SN : Snappy} (opts : Options).
Hypothesis Happend : forall f data, (file_append f data).1 = StatusOK.

Definition keeps_ok {A} (m : M (Rep F) A) : Prop :=
  forall r a r', m r = Done (a, r') -> is_ok r = true -> is_ok r' = true.

Lemma keeps_bind {A B} (m : M (Rep F) A) (k : A -> M (Rep F) B) :
  keeps_ok m -> (forall a, keeps_ok (k a)) -> keeps_ok (bind m k).
Proof using.
  intros Hm Hk r b r' E Hok. unfold bind in E. destruct (m r) as [[a r1]| |] eqn:E1; [|done..].
  by eapply Hk, Hm.
Qed.

Lemma keeps_ret {A} (a : A) : keeps_ok (ret a).
Proof using. intros r x r' E Hok. by injection E as _ <-. Qed.

Lemma keeps_get : keeps_ok get.
Proof using. intros r x r' E Hok. by injection E as _ <-. Qed.

Lemma keeps_modify (f : Rep F -> Rep F) : (forall r, status (f r) = status r) -> keeps_ok (modify f).
Proof using. intros Hf r x r' E Hok. injection E as _ <-. unfold is_ok in *. by rewrite Hf. Qed.

Lemma keeps_fuel {A} : keeps_ok (@out_of_fuel (Rep F) A).
Proof using. done. Qed.

Lemma keeps_lift {A} (o : outcome A) : keeps_ok (lift o).
Proof using. intros r x r' E Hok. unfold lift in E. destruct o; [|done..]. by injection E as _ <-. Qed.

Lemma keeps_on_data {A} (m : M BlockBuilder A) : keeps_ok (on_data m).
Proof using. intros r x r' E Hok. unfold on_data in E. destruct (m _) as [[? ?]| |]; [|done..]. by injection E as _ <-. Qed.

Lemma keeps_on_index {A} (m : M BlockBuilder A) : keeps_ok (on_index m).
Proof using. intros r x r' E Hok. unfold on_index in E. destruct (m _) as [[? ?]| |]; [|done..]. by injection E as _ <-. Qed.

Lemma keeps_append data : keeps_ok (append data).
Proof using Happend.
  intros r x r' E Hok. unfold append in E. pose proof (Happend (file r) data) as Hst.
  destruct (file_append (file r) data) as [st f]. simpl in Hst. subst st. by injection E as _ <-.
Qed.

(** [known] closes the goals about operations already proved. *)
Ltac keeps known := repeat (intros; first
  [ known | apply keeps_bind | apply keeps_get | apply keeps_ret | apply keeps_append | apply keeps_on_data
  | apply keeps_on_index | apply keeps_fuel | apply keeps_modify; intros; reflexivity
  | apply keeps_lift | case_match; try done | assumption ]).

Lemma keeps_write raw : keeps_ok (WriteFinished opts raw).
Proof using Happend. unfold WriteFinished, WriteRawBlock. keeps fail. Qed.

Lemma keeps_Flush : keeps_ok (Flush opts).
Proof using Happend. unfold Flush, WriteDataBlock. keeps ltac:(apply keeps_write). Qed.

Lemma keeps_AddIndexEntry key : keeps_ok (AddIndexEntry key).
Proof using. unfold AddIndexEntry. keeps fail. Qed.

Lemma keeps_Add k v : keeps_ok (TableBuilder_Add opts k v).
Proof using Happend.
  unfold TableBuilder_Add. keeps ltac:(first [apply keeps_Flush | apply keeps_AddIndexEntry]).
Qed.

Lemma keeps_Finish : keeps_ok (TableBuilder_Finish opts).
Proof using Happend.
  unfold TableBuilder_Finish, WriteMetaBlock, WriteIndexBlock.
  keeps ltac:(first [apply keeps_Flush | apply keeps_AddIndexEntry | apply keeps_write]).
Qed.

Lemma keeps_build es : keeps_ok (build_table opts es).
Proof using Happend.
  apply keeps_bind; [|intros; apply keeps_Finish]. induction es as [|[k v] es IH]; [apply keeps_ret|].
  simpl. apply keeps_bind; [apply keeps_Add|done].
Qed.

Lemma Finish_status (r r' : Rep F) st : TableBuilder_Finish opts r = Done (st, r') -> st = status r'.
Proof using.
  unfold TableBuilder_Finish. intros E.
  repeat match type of E with
  | bind get ?k ?x = _ => change (k x x = Done (st, r')) in E; cbv beta in E
  | bind ?m _ _ = _ => unfold bind in E at 1; destruct (m _) as [[? ?]| |]; [|done..]
  end. by injection E as <- <-.
Qed.

Lemma build_table_ok es f st r : build_table opts es (Rep_new f) = Done (st, r) -> st = StatusOK.
Proof using Happend.
  intros E. pose proof (keeps_build es _ _ _ E eq_refl) as Hok. unfold build_table, bind in E.
  destruct (table_add_all opts es (Rep_new f)) as [[? r1]| |]; [|done..].
  apply Finish_status in E as ->. unfold is_ok in Hok. by destruct (status r).
Qed.
End no_failure.
