(* ===== verification/TableReader.v ===== *)
(** * Reading table files: the two-level iterator

    [idx_pos] and [tl_pos] say which blocks and which entries an index
    iterator and a two-level iterator have before them.  The lemmas show how
    [SeekToFirst], [Seek] and [Next] move them on the file of a finished
    table, and what [Open] and [InternalGet] return. *)
From S2P Require Import Prelude Coding Block BlockProofs BlockTheorems Crc32c TableFormat TableBuilder Table TableKeys TableBuilderProofs TableBuilderSpec.
From stdpp Require Import options.
#[local] Open Scope tf_monad_scope.

Lemma bytes_compare_eq a : forall b, bytes_compare a b = Eq <-> a = b.
Proof.
  induction a as [|x a IH]; intros [|y b]; simpl; try done.
  destruct (Z.compare_spec x y) as [->|?|?].
  - rewrite IH. split; [by intros ->|by intros [= ->]].
  - split; [done|intros [= -> ->]; lia].
  - split; [done|intros [= -> ->]; lia].
Qed.

Lemma at_or_after_all target es : (forall e, e ∈ es -> bytes_lt e.1 target = false) -> at_or_after target es = es.
Proof.
  induction es as [|e es IH]; intros Hall; [done|]. unfold at_or_after. rewrite filter_cons, decide_True.
  - f_equal. apply IH. intros e' He'. apply Hall. by right.
  - apply Hall. left.
Qed.

Lemma at_or_after_none target es : (forall e, e ∈ es -> bytes_lt e.1 target = true) -> at_or_after target es = [].
Proof.
  induction es as [|e es IH]; intros Hall; [done|]. unfold at_or_after. rewrite filter_cons, decide_False.
  - apply IH. intros e' He'. apply Hall. by right.
  - rewrite Hall; [done|left].
Qed.

Lemma at_or_after_app target a b : at_or_after target (a ++ b) = at_or_after target a ++ at_or_after target b.
Proof. apply filter_app. Qed.

(** On sorted keys the entries at or after a target are a suffix. *)
Lemma at_or_after_drop target es : sorted_keys es ->
  exists n, at_or_after target es = drop n es /\
    forall i e, es !! i = Some e -> bytes_lt e.1 target = bool_decide (i < n)%nat.
Proof.
  induction es as [|e es IH]; intros Hs; [by exists O|].
  assert (Hs' : sorted_keys es) by (intros m n x y ? ??; apply (Hs (S m) (S n)); [lia|done..]).
  unfold at_or_after. rewrite filter_cons. destruct (decide (bytes_lt e.1 target = false)) as [Hge|Hlt].
  - exists O. assert (Hall : forall i e', (e :: es) !! i = Some e' -> bytes_lt e'.1 target = false).
    { intros [|i] e' Hi; [by simplify_eq/=|]. change (bytes_le target e'.1).
      eapply bytes_le_trans; [exact Hge|]. apply bytes_lt_le. by apply (Hs O (S i)); [lia|..]. }
    split; [|intros i e' Hi; rewrite (Hall i e' Hi); by rewrite bool_decide_eq_false_2 by lia].
    rewrite drop_0. f_equal. apply at_or_after_all. intros x Hx. apply list_elem_of_lookup in Hx as [i Hi]. by apply (Hall (S i)).
  - destruct (IH Hs') as (n & Hd & Hn). exists (S n). split; [exact Hd|]. apply not_false_is_true in Hlt.
    intros [|i] e' Hi.
    { injection Hi as <-. rewrite Hlt. symmetry. apply bool_decide_eq_true_2. lia. }
    rewrite (Hn i e' Hi). apply bool_decide_ext. lia.
Qed.

Lemma sorted_keys_app_r a b : sorted_keys (a ++ b) -> sorted_keys b.
Proof.
  intros Hs m n x y Hmn Hx Hy. apply (Hs (length a + m)%nat (length a + n)%nat); [lia|..];
    by rewrite lookup_app_r, Nat.add_comm, Nat.add_sub by lia.
Qed.

Lemma all_entries_app a b : all_entries (a ++ b) = all_entries a ++ all_entries b.
Proof. unfold all_entries. by rewrite map_app, concat_app. Qed.

Lemma elem_of_all_entries_lookup bs e : e ∈ all_entries bs -> exists i b, bs !! i = Some b /\ e ∈ bi_entries b.
Proof.
  induction bs as [|b bs IH]; [by intros ?%not_elem_of_nil|].
  change (all_entries (b :: bs)) with (bi_entries b ++ all_entries bs).
  intros [He|He]%elem_of_app; [by exists O, b|]. destruct (IH He) as (i & b' & ? & ?). by exists (S i), b'.
Qed.

Section reader.
Context `{RF : RandomAccessFile, SN : Snappy, SNL : !SnappyLaws}.
Context (f : bytes) (es : list (bytes * bytes)) (bs : list block_info) (seps : list bytes)
  (iitems : list item) (ijs : list nat) (footer : Footer).
Hypothesis Hread : reads_file f.
Hypothesis Ht : table_file f es bs seps iitems ijs footer.
Hypothesis Hsort : sorted_keys es.

Abbreviation he b := (handle_encoding (bi_handle b)).

(** ** The index *)
Lemma index_lookup n b : bs !! n = Some b ->
  exists sep, seps !! n = Some sep /\ index_entries seps bs !! n = Some (sep, he b).
Proof using Ht.
  intros Hb. pose proof (lookup_lt_Some _ _ _ Hb). destruct (tf_seps _ _ _ _ _ _ _ Ht) as [Hl _].
  destruct (lookup_lt_is_Some_2 seps n ltac:(lia)) as [sep Hsep]. exists sep. split; [done|].
  unfold index_entries. rewrite lookup_zip_with, Hsep. simpl. by rewrite Hb.
Qed.

Lemma block_at n b : bs !! n = Some b -> block_good f b.
Proof using Ht. apply Forall_lookup_1, (tf_blocks _ _ _ _ _ _ _ Ht). Qed.

Lemma sep_facts n b sep : bs !! n = Some b -> seps !! n = Some sep ->
  (forall e, e ∈ bi_entries b -> bytes_le e.1 sep) /\
  (forall j b' e, (n < j)%nat -> bs !! j = Some b' -> e ∈ bi_entries b' -> bytes_lt sep e.1 = true).
Proof using Ht.
  intros Hb Hs. destruct (tf_seps _ _ _ _ _ _ _ Ht) as [_ Hsep].
  destruct (Hsep n sep b Hs Hb) as (H1 & H2 & _). done.
Qed.

Lemma index_sorted : sorted_keys (map entry iitems).
Proof using Ht.
  rewrite (tf_index_entries _ _ _ _ _ _ _ Ht). intros m n x y Hmn Hx Hy.
  unfold index_entries in Hx, Hy. apply lookup_zip_with_Some in Hx as (s1 & b1 & -> & Hs1 & Hb1).
  apply lookup_zip_with_Some in Hy as (s2 & b2 & -> & Hs2 & Hb2). simpl.
  destruct (block_entries_nonempty _ _ (block_at _ _ Hb2)) as [e He].
  eapply bytes_lt_le_trans; [by apply (proj2 (sep_facts m b1 s1 Hb1 Hs1) n b2 e)|].
  by apply (proj1 (sep_facts n b2 s2 Hb2 Hs2)).
Qed.

(** The index iterator has the entries of the blocks [l] before it. *)
Definition idx_pos (ii : Iter) (l : list block_info) : Prop :=
  exists n, l = drop n bs /\ blk_pos iitems ijs ii (drop n (index_entries seps bs)).

Lemma length_index : length (index_entries seps bs) = length bs.
Proof using Ht.
  unfold index_entries. destruct (tf_seps _ _ _ _ _ _ _ Ht) as [Hl _]. rewrite length_zip_with. lia.
Qed.

Lemma idx_pos_nil ii : idx_pos ii [] -> Valid ii = false.
Proof using Ht.
  intros (n & Hn & Hp). apply (blk_pos_nil iitems ijs). rewrite drop_ge in Hp; [done|].
  rewrite length_index. symmetry in Hn. by apply length_zero_iff_nil in Hn; rewrite length_drop in Hn; lia.
Qed.

Lemma idx_pos_cons ii b l : idx_pos ii (b :: l) ->
  b ∈ bs /\ Valid ii = true /\ piece (it_data ii) (it_value ii) = he b /\ it_status ii = StatusOK /\
  exists ii', Next ii = Done (tt, ii') /\ idx_pos ii' l.
Proof using Ht.
  intros (n & Hn & Hp). assert (Hb : bs !! n = Some b) by (rewrite <-(Nat.add_0_r n), <-lookup_drop, <-Hn; done).
  destruct (index_lookup n b Hb) as (sep & Hs & Hi). rewrite (drop_S _ _ _ Hi) in Hp.
  destruct (blk_pos_cons iitems ijs (tf_index_good _ _ _ _ _ _ _ Ht) _ _ _ Hp) as (Hv & _ & Hpv & ii' & E & Hp').
  split_and!; [by eapply list_elem_of_lookup_2|done|done|apply Hp|]. exists ii'. split; [done|].
  exists (S n). rewrite (drop_S _ _ _ Hb) in Hn. by injection Hn as ->.
Qed.

(** ** Opening *)
Lemma Table_Open_spec : exists blk,
  Table_Open (zlen f) = Done (StatusOK, Some (mkTable (metaindex_handle_ footer) blk)) /\
  NewIterator blk = Done (BlockIterator (start iitems ijs)).
Proof using Hread Ht SNL.
  destruct (tf_footer _ _ _ _ _ _ _ Ht) as (pre & e & Hf & He). pose proof (tf_size _ _ _ _ _ _ _ Ht) as Hsz.
  destruct (tf_handles _ _ _ _ _ _ _ Ht) as [Hm Hi].
  destruct (Footer_roundtrip footer [] Hm Hi) as (e' & He' & Hl & _ & Hd). rewrite He in He'. injection He' as <-.
  pose proof (open_block_spec iitems ijs (tf_index_good _ _ _ _ _ _ _ Ht)) as Ho. unfold open_block in Ho.
  destruct (Block_new (contents iitems ijs)) as [blk| |] eqn:Eb; [|done..]. exists blk. split; [|exact Ho].
  unfold kEncodedLength in *.
  assert (Hlen : zlen f = zlen pre + 48) by (rewrite Hf; unfold zlen; rewrite length_app, Hl; lia).
  pose proof (zlen_nonneg pre). unfold Table_Open, kEncodedLength. rewrite (proj2 (Z.ltb_ge _ _)) by lia.
  destruct (Hread (zlen f - 48) 48) as (own & E); [lia..|]. change (Z.of_nat 48) with 48. rewrite E. cbn [ok negb].
  assert (Hin : take (Z.to_nat 48) (drop (Z.to_nat (zlen f - 48)) f) = e).
  { rewrite Hlen, Hf. replace (Z.to_nat (zlen pre + 48 - 48)) with (length pre) by (unfold zlen; lia).
    rewrite drop_app_length. apply take_ge. lia. }
  rewrite Hin. rewrite app_nil_r in Hd. rewrite Hd.
  destruct (ReadBlock_stored f (index_handle_ footer) (contents iitems ijs) Hread ltac:(lia)) as (o & h & Er);
    [apply Ht|]. rewrite Er. cbn [bc_data]. by rewrite Eb.
Qed.

Lemma BlockReader_spec b : b ∈ bs ->
  BlockReader (he b) = Done (BlockIterator (start (bi_items b) (bi_js b))).
Proof using Hread Ht SNL.
  intros [n Hb]%list_elem_of_lookup. pose proof (block_at n b Hb) as [H1 H2 H3 H4].
  unfold BlockReader. destruct (handle_encoding_spec _ H4) as (_ & _ & _ & Hd).
  specialize (Hd []). rewrite app_nil_r in Hd. rewrite Hd.
  pose proof (tf_size _ _ _ _ _ _ _ Ht).
  destruct (ReadBlock_stored f (bi_handle b) _ Hread ltac:(lia) H1) as (o & h & Er). rewrite Er. cbn [bc_data].
  exact (open_block_spec _ _ H2).
Qed.

Lemma he_inj b b' : b ∈ bs -> b' ∈ bs -> he b = he b' -> b = b'.
Proof using Ht.
  intros [i Hi]%list_elem_of_lookup [j Hj]%list_elem_of_lookup E.
  apply handle_encoding_inj in E; [|by eapply block_at..].
  destruct (tf_offsets _ _ _ _ _ _ _ Ht) as [Ho _].
  destruct (Nat.lt_total i j) as [Hlt|[->|Hlt]]; [|congruence|].
  - specialize (Ho i j b b' Hlt Hi Hj). rewrite E in Ho. lia.
  - specialize (Ho j i b' b Hlt Hj Hi). rewrite E in Ho. lia.
Qed.

(** ** The two-level iterator *)
Abbreviation two ii od h := (mkTwoLevel (BlockIterator ii) od h StatusOK).

(** The data iterator, if there is one, is in the block its handle names. *)
Definition data_ok (od : option Iterator) (h : bytes) : Prop :=
  od = None \/ exists b d, b ∈ bs /\ od = Some (BlockIterator d) /\ block_of (bi_items b) (bi_js b) d /\ h = he b.

(** The iterator has the entries [l] before it. *)
Definition tl_pos (t : TwoLevelIterator) (l : list (bytes * bytes)) : Prop :=
  exists ii od h, t = two ii od h /\
    ((l = [] /\ od = None /\ idx_pos ii []) \/
     (exists b bs' d e l1, od = Some (BlockIterator d) /\ h = he b /\ idx_pos ii (b :: bs') /\
        blk_pos (bi_items b) (bi_js b) d (e :: l1) /\ l = (e :: l1) ++ all_entries bs')).

Lemma SetDataIterator_ok ii od h od' : data_ok od h -> SetDataIterator od' (two ii od h) = two ii od' h.
Proof using.
  intros [->|(b & d & _ & -> & Hd & _)]; [done|]. unfold SetDataIterator, SaveError. simpl.
  by rewrite (bo_status _ _ _ Hd).
Qed.

Lemma InitDataBlock_none ii od h : data_ok od h -> idx_pos ii [] ->
  InitDataBlock BlockReader (two ii od h) = Done (tt, two ii None h).
Proof using Ht.
  intros Hd Hi. unfold InitDataBlock, bind, get. cbn [index_iter iter_Valid]. rewrite (idx_pos_nil ii Hi). cbn [negb].
  unfold modify. by rewrite SetDataIterator_ok.
Qed.

Lemma InitDataBlock_some ii od h b l : data_ok od h -> idx_pos ii (b :: l) ->
  exists d, InitDataBlock BlockReader (two ii od h) = Done (tt, two ii (Some (BlockIterator d)) (he b)) /\
    block_of (bi_items b) (bi_js b) d.
Proof using Hread Ht SNL.
  intros Hd Hi. destruct (idx_pos_cons _ _ _ Hi) as (Hb & Hv & Hpv & _).
  unfold InitDataBlock, bind at 1, get. cbn [index_iter iter_Valid iter_value]. rewrite Hv, Hpv. cbn [negb].
  assert (Hnew : exists d, (iter <~ lift (BlockReader (he b));;
      modify (fun t => mkTwoLevel (index_iter t) (data_iter t) (he b) (tl_status t));;;
      modify (SetDataIterator (Some iter))) (two ii od h) = Done (tt, two ii (Some (BlockIterator d)) (he b)) /\
    block_of (bi_items b) (bi_js b) d).
  { exists (start (bi_items b) (bi_js b)). pose proof Hb as [n Hn]%list_elem_of_lookup.
    split; [|apply (start_inv _ _ (bg_block _ _ (block_at n b Hn)))].
    unfold bind, lift. rewrite BlockReader_spec by done. unfold modify. cbn [index_iter data_iter tl_status].
    destruct Hd as [->|(b0 & d & _ & -> & Hd & _)]; [done|]. unfold SetDataIterator, SaveError. simpl.
    by rewrite (bo_status _ _ _ Hd). }
  cbn [data_iter data_block_handle]. destruct Hd as [->|(b0 & d & Hb0 & -> & Hd & ->)]; [exact Hnew|].
  destruct (bytes_compare (he b) (he b0)) eqn:Ec; [|exact Hnew..].
  apply bytes_compare_eq, he_inj in Ec as ->; [|done..]. by exists d.
Qed.

(** Going to the first entry of the blocks the index has before it. *)
Lemma first_of_rest ii od h l : data_ok od h -> idx_pos ii l ->
  exists t, (InitDataBlock BlockReader;;; on_data_iter iter_SeekToFirst) (two ii od h) = Done (tt, t) /\
    tl_pos t (all_entries l).
Proof using Hread Ht SNL.
  intros Hd Hi. destruct l as [|b l].
  - rewrite (bind_Done _ _ _ _ _ (InitDataBlock_none ii od h Hd Hi)). eexists. split; [done|].
    exists ii, None, h. split; [done|]. by left.
  - destruct (InitDataBlock_some ii od h b l Hd Hi) as (d & E & Hb). rewrite (bind_Done _ _ _ _ _ E).
    destruct (idx_pos_cons _ _ _ Hi) as (Hin & _). apply list_elem_of_lookup in Hin as [n Hn].
    pose proof (block_at n b Hn) as Hg.
    destruct (SeekToFirst_pos _ _ (bg_block _ _ Hg) d Hb) as (d' & E' & Hp).
    unfold on_data_iter, iter_SeekToFirst, on_block. cbn [data_iter]. rewrite E'. eexists. split; [done|].
    eexists ii, _, (he b). split; [done|]. right. change (all_entries (b :: l)) with (bi_entries b ++ all_entries l).
    unfold bi_entries. destruct (map entry (bi_items b)) as [|e l1] eqn:El.
    { apply map_eq_nil in El. by destruct (bg_nonempty _ _ Hg). }
    by exists b, l, d', e, l1.
Qed.

Lemma tl_pos_valid t e l : tl_pos t (e :: l) ->
  tl_Valid t = true /\ tl_key t = e.1 /\ tl_value t = e.2 /\ tl_get_status t = StatusOK.
Proof using Ht.
  intros (ii & od & h & -> & [[[=] _]|(b & bs' & d & e' & l1 & -> & -> & Hi & Hp & [= <- ->])]).
  destruct (idx_pos_cons _ _ _ Hi) as (Hin & _ & _ & Hst & _). apply list_elem_of_lookup in Hin as [n Hn].
  destruct (blk_pos_cons _ _ (bg_block _ _ (block_at n b Hn)) _ _ _ Hp) as (Hv & Hk & Hpv & _).
  unfold tl_Valid, tl_key, tl_value, tl_get_status. simpl. by rewrite Hst, (bo_status _ _ _ (proj1 Hp)).
Qed.

Lemma tl_pos_end t : tl_pos t [] -> tl_Valid t = false /\ tl_get_status t = StatusOK.
Proof using.
  intros (ii & od & h & -> & [(_ & -> & n & _ & Hp)|(b & bs' & d & e' & l1 & _ & _ & _ & _ & [=])]).
  unfold tl_Valid, tl_get_status. simpl. by rewrite (bo_status _ _ _ (proj1 Hp)).
Qed.

Lemma skip_done t l fuel : tl_pos t l ->
  SkipEmptyDataBlocksForward_loop BlockReader (S fuel) t = Done (tt, t).
Proof using Ht.
  intros Hp. cbn [SkipEmptyDataBlocksForward_loop]. unfold bind at 1, get. destruct l as [|e l].
  - rewrite (proj1 (tl_pos_end t Hp)).
    destruct Hp as (ii & od & h & -> & [(_ & -> & Hi)|(b & bs' & d & e' & l1 & _ & _ & _ & _ & [=])]).
    cbn [negb index_iter iter_Valid]. by rewrite (idx_pos_nil ii Hi).
  - by rewrite (proj1 (tl_pos_valid t e l Hp)).
Qed.

Lemma skip_step ii d b l fuel : idx_pos ii (b :: l) -> blk_pos (bi_items b) (bi_js b) d [] ->
  exists t, SkipEmptyDataBlocksForward_loop BlockReader (S (S fuel)) (two ii (Some (BlockIterator d)) (he b))
            = Done (tt, t) /\ tl_pos t (all_entries l).
Proof using Hread Ht SNL.
  intros Hi Hp. destruct (idx_pos_cons _ _ _ Hi) as (Hin & Hv & _ & _ & ii' & En & Hi').
  assert (Hd : data_ok (Some (BlockIterator d)) (he b)) by (right; exists b, d; split_and!; (done || apply Hp)).
  destruct (first_of_rest ii' _ _ l Hd Hi') as (t & E & Ht').
  exists t. split; [|done]. set (n := S fuel). cbn [SkipEmptyDataBlocksForward_loop].
  unfold bind at 1, get. unfold tl_Valid. cbn [data_iter iter_Valid index_iter].
  rewrite (blk_pos_nil _ _ d Hp), Hv. cbn [negb].
  unfold bind at 1, on_index_iter, iter_Next, on_block. cbn [index_iter data_iter data_block_handle tl_status].
  rewrite En. unfold bind in E |- *. destruct (InitDataBlock _ _) as [[[] t1]| |]; [|done..].
  rewrite E. by apply (skip_done _ (all_entries l)).
Qed.

Lemma skip_spec ii d b l l1 : idx_pos ii (b :: l) -> blk_pos (bi_items b) (bi_js b) d l1 ->
  exists t, SkipEmptyDataBlocksForward BlockReader (two ii (Some (BlockIterator d)) (he b)) = Done (tt, t) /\
    tl_pos t (l1 ++ all_entries l).
Proof using Hread Ht SNL.
  intros Hi Hp. unfold SkipEmptyDataBlocksForward, bind at 1, get. cbn [index_iter skip_fuel]. destruct l1 as [|e l1].
  - by apply skip_step.
  - assert (Hp' : tl_pos (two ii (Some (BlockIterator d)) (he b)) ((e :: l1) ++ all_entries l)).
    { eexists ii, _, _. split; [done|]. right. by exists b, l, d, e, l1. }
    eexists. split; [by eapply skip_done|done].
Qed.

Lemma tl_Next_spec t e l : tl_pos t (e :: l) ->
  exists t', tl_Next BlockReader t = Done (tt, t') /\ tl_pos t' l.
Proof using Hread Ht SNL.
  intros (ii & od & h & -> & [[[=] _]|(b & bs' & d & e' & l1 & -> & -> & Hi & Hp & [= <- ->])]).
  destruct (idx_pos_cons _ _ _ Hi) as (Hin & _). apply list_elem_of_lookup in Hin as [n Hn].
  destruct (blk_pos_cons _ _ (bg_block _ _ (block_at n b Hn)) _ _ _ Hp) as (_ & _ & _ & d' & E & Hp').
  unfold tl_Next, bind at 1, get. cbn [data_iter]. unfold bind at 1, on_data_iter, iter_Next, on_block.
  cbn [data_iter]. rewrite E. cbn [index_iter data_block_handle tl_status]. by apply skip_spec.
Qed.

Lemma tl_scan_spec l : forall t fuel, tl_pos t l -> (length l < fuel)%nat ->
  exists t', tl_scan BlockReader fuel t = Done (l, t') /\ tl_pos t' [].
Proof using Hread Ht SNL.
  induction l as [|e l IH]; intros t [|fuel] Hp Hf; simpl in Hf; try lia; cbn [tl_scan]; unfold bind at 1, get.
  - rewrite (proj1 (tl_pos_end t Hp)). by exists t.
  - destruct (tl_pos_valid t e l Hp) as (Hv & Hk & Hpv & _). rewrite Hv, Hk, Hpv.
    destruct (tl_Next_spec t e l Hp) as (t1 & E & Hp1). rewrite (bind_Done _ _ _ _ _ E).
    destruct (IH t1 fuel Hp1 ltac:(lia)) as (t2 & E2 & Hp2). rewrite (bind_Done _ _ _ _ _ E2).
    exists t2. by destruct e.
Qed.

(** ** Seeking *)
Lemma tl_pos_parts t l : tl_pos t l ->
  exists ii od h, t = two ii od h /\ block_of iitems ijs ii /\ data_ok od h.
Proof using Ht.
  intros (ii & od & h & -> & [(_ & -> & n & _ & Hp)|(b & bs' & d & e' & l1 & -> & -> & Hi & Hp & _)]).
  - exists ii, None, h. split_and!; [done|apply Hp|by left].
  - destruct (idx_pos_cons _ _ _ Hi) as (Hin & _). pose proof Hi as (n & _ & Hbp).
    eexists ii, _, _. split_and!; [done|apply Hbp|]. right. exists b, d. split_and!; (done || apply Hp).
Qed.

Lemma tl_SeekToFirst_spec t l : tl_pos t l ->
  exists t', tl_SeekToFirst BlockReader t = Done (tt, t') /\ tl_pos t' es.
Proof using Hread Ht SNL.
  intros Hp. destruct (tl_pos_parts t l Hp) as (ii & od & h & -> & Hb & Hd).
  destruct (SeekToFirst_pos _ _ (tf_index_good _ _ _ _ _ _ _ Ht) ii Hb) as (ii' & E & Hp').
  rewrite (tf_index_entries _ _ _ _ _ _ _ Ht) in Hp'.
  assert (Hi : idx_pos ii' bs) by (by exists O; rewrite !drop_0).
  destruct (first_of_rest ii' od h bs Hd Hi) as (t' & E' & Ht'). rewrite (tf_entries _ _ _ _ _ _ _ Ht) in Ht'.
  exists t'. split; [|done]. unfold tl_SeekToFirst, bind at 1, on_index_iter, iter_SeekToFirst at 1, on_block.
  cbn [index_iter data_iter data_block_handle tl_status]. rewrite E. unfold bind in E' |- *.
  destruct (InitDataBlock _ _) as [[[] t1]| |]; [|done..]. rewrite E'.
  unfold SkipEmptyDataBlocksForward, bind, get.
  destruct (index_iter t') as [| |i]; cbn [skip_fuel]; by eapply skip_done.
Qed.

(** The separators send a target to the block that holds its place. *)
Lemma index_seek ii target : block_of iitems ijs ii ->
  exists ii' l, Seek target ii = Done (tt, ii') /\ idx_pos ii' l /\ it_status ii' = StatusOK /\
    match l with
    | [] => at_or_after target es = []
    | b :: l' => at_or_after target es = at_or_after target (bi_entries b) ++ all_entries l' /\
                 (forall e, e ∈ all_entries l' -> bytes_lt target e.1 = true) /\
                 sorted_keys (bi_entries b)
    end.
Proof using Hsort Ht.
  intros Hb. destruct (Seek_pos _ _ (tf_index_good _ _ _ _ _ _ _ Ht) ii target Hb index_sorted) as (ii' & E & Hp).
  destruct (at_or_after_drop target _ index_sorted) as (n & Hn & Hlt).
  rewrite Hn in Hp. rewrite (tf_index_entries _ _ _ _ _ _ _ Ht) in *.
  exists ii', (drop n bs). split_and!; [done|by exists n|apply Hp|].
  assert (Hbefore : forall e, e ∈ all_entries (take n bs) -> bytes_lt e.1 target = true).
  { intros e (i & b & Hi & He)%elem_of_all_entries_lookup. apply lookup_take_Some in Hi as [Hi Hin].
    destruct (index_lookup i b Hi) as (sep & Hs & Hie).
    eapply bytes_le_lt_trans; [by apply (proj1 (sep_facts i b sep Hi Hs))|].
    specialize (Hlt i _ Hie). simpl in Hlt. by rewrite Hlt, bool_decide_eq_true_2. }
  assert (Hes : es = all_entries (take n bs) ++ all_entries (drop n bs)).
  { rewrite <-all_entries_app, take_drop. symmetry. apply Ht. }
  rewrite Hes in Hsort |- *. rewrite at_or_after_app, (at_or_after_none _ _ Hbefore). cbn [app].
  destruct (drop n bs) as [|b l'] eqn:Ed; [done|].
  assert (Hbn : bs !! n = Some b) by (rewrite <-(Nat.add_0_r n), <-lookup_drop, Ed; done).
  destruct (index_lookup n b Hbn) as (sep & Hs & Hie). specialize (Hlt n _ Hie). simpl in Hlt.
  rewrite bool_decide_eq_false_2 in Hlt by lia.
  assert (Hafter : forall e, e ∈ all_entries l' -> bytes_lt target e.1 = true).
  { intros e (i & b' & Hi & He)%elem_of_all_entries_lookup. eapply bytes_le_lt_trans; [exact Hlt|].
    apply (proj2 (sep_facts n b sep Hbn Hs) (S n + i)%nat b' e); [lia| |done].
    rewrite (drop_S _ _ _ Hbn) in Ed. injection Ed as <-. by rewrite lookup_drop in Hi. }
  change (all_entries (b :: l')) with (bi_entries b ++ all_entries l') in *.
  rewrite at_or_after_app, (at_or_after_all target (all_entries l')); [|intros e He; by apply bytes_lt_le, Hafter].
  split_and!; try done. by eapply sorted_keys_app_l, sorted_keys_app_r.
Qed.

Lemma tl_Seek_spec t l target : tl_pos t l ->
  exists t', tl_Seek BlockReader target t = Done (tt, t') /\ tl_pos t' (at_or_after target es).
Proof using Hread Hsort Ht SNL.
  intros Hp. destruct (tl_pos_parts t l Hp) as (ii & od & h & -> & Hb & Hd).
  destruct (index_seek ii target Hb) as (ii' & bs' & E & Hi & _ & Hes).
  unfold tl_Seek, bind at 1, on_index_iter, iter_Seek at 1, on_block at 1.
  cbn [index_iter data_iter data_block_handle tl_status]. rewrite E. destruct bs' as [|b bs'].
  - rewrite (bind_Done _ _ _ _ _ (InitDataBlock_none ii' od h Hd Hi)).
    assert (Hp' : tl_pos (two ii' None h) []) by (exists ii', None, h; split; [done|by left]).
    rewrite Hes. eexists. split; [|exact Hp']. unfold bind at 1, on_data_iter. cbn [data_iter].
    unfold SkipEmptyDataBlocksForward, bind, get. by eapply skip_done.
  - destruct Hes as (-> & _ & Hsb). destruct (InitDataBlock_some ii' od h b bs' Hd Hi) as (d & Ed & Hbd).
    rewrite (bind_Done _ _ _ _ _ Ed). destruct (idx_pos_cons _ _ _ Hi) as (Hin & _).
    apply list_elem_of_lookup in Hin as [n Hn].
    destruct (Seek_pos _ _ (bg_block _ _ (block_at n b Hn)) d target Hbd Hsb) as (d' & Es & Hps).
    unfold bind at 1, on_data_iter, iter_Seek, on_block. cbn [data_iter]. rewrite Es.
    cbn [index_iter data_block_handle tl_status]. by apply skip_spec.
Qed.

(** ** Looking up one key *)
Lemma head_at_or_after k v l : sorted_keys l -> (k, v) ∈ l -> head (at_or_after k l) = Some (k, v).
Proof using.
  intros Hs [m Hm]%list_elem_of_lookup. destruct (at_or_after_drop k l Hs) as (n & -> & Hn).
  pose proof (Hn m _ Hm) as Hmn. simpl in Hmn. rewrite bytes_lt_irrefl in Hmn. symmetry in Hmn.
  apply bool_decide_eq_false_1 in Hmn. destruct (decide (m = n)) as [->|Hne].
  { by rewrite (drop_S _ _ _ Hm). }
  pose proof (lookup_lt_Some _ _ _ Hm). destruct (lookup_lt_is_Some_2 l n ltac:(lia)) as [e He].
  pose proof (Hn n e He) as Hne'. rewrite bool_decide_eq_false_2 in Hne' by lia.
  pose proof (Hs n m e (k, v) ltac:(lia) He Hm). simpl in *. congruence.
Qed.

Lemma elem_of_at_or_after e target l : e ∈ at_or_after target l <-> bytes_lt e.1 target = false /\ e ∈ l.
Proof using. unfold at_or_after. by rewrite list_elem_of_filter. Qed.

Lemma InternalGet_spec mh blk k : NewIterator blk = Done (BlockIterator (start iitems ijs)) ->
  exists saved, InternalGet (mkTable mh blk) k = Done (StatusOK, saved) /\
    (forall v, (k, v) ∈ es <-> saved = Some (k, v)) /\
    (forall k' v', saved = Some (k', v') -> (k', v') ∈ es /\ bytes_lt k' k = false).
Proof using Hread Hsort Ht SNL.
  intros Hblk. unfold InternalGet. cbn [t_index_block]. rewrite Hblk.
  pose proof (start_inv _ _ (tf_index_good _ _ _ _ _ _ _ Ht)) as [Hb0 _].
  destruct (index_seek _ k Hb0) as (ii & l & E & Hi & Hst & Hes).
  unfold iter_Seek at 1, on_block at 1. rewrite E.
  assert (Hself : forall v, (k, v) ∈ es -> (k, v) ∈ at_or_after k es).
  { intros v Hv. apply elem_of_at_or_after. by rewrite bytes_lt_irrefl. }
  destruct l as [|b l]; cbn [iter_Valid].
  - rewrite (idx_pos_nil ii Hi). exists None. cbn [iter_status]. rewrite Hst. split_and!; [done| |done].
    intros v. split; [|done]. intros Hv%Hself. rewrite Hes in Hv. by apply not_elem_of_nil in Hv.
  - destruct Hes as (Hes & Hafter & Hsb). destruct (idx_pos_cons _ _ _ Hi) as (Hin & Hv & Hpv & _).
    rewrite Hv. cbn [iter_value]. rewrite Hpv, (BlockReader_spec b Hin).
    apply list_elem_of_lookup in Hin as [n Hn]. pose proof (bg_block _ _ (block_at n b Hn)) as Hg.
    destruct (Seek_pos _ _ Hg _ k (proj1 (start_inv _ _ Hg)) Hsb) as (d & Es & Hp).
    unfold iter_Seek, on_block. rewrite Es. exists (head (at_or_after k (bi_entries b))).
    cbn [iter_status iter_Valid iter_key iter_value]. rewrite (bo_status _ _ _ (proj1 Hp)), Hst. cbn [ok].
    split_and!.
    + fold (bi_entries b) in Hp. do 2 f_equal. destruct (at_or_after k (bi_entries b)) as [|e l1].
      * by rewrite (blk_pos_nil _ _ d Hp).
      * destruct (blk_pos_cons _ _ Hg _ _ _ Hp) as (-> & -> & -> & _). by destruct e.
    + intros v. split.
      * intros Hkv%Hself. rewrite Hes in Hkv. apply elem_of_app in Hkv as [Hkv|Hkv].
        -- apply elem_of_at_or_after in Hkv as [_ Hkv]. by apply head_at_or_after.
        -- specialize (Hafter _ Hkv). simpl in Hafter. by rewrite bytes_lt_irrefl in Hafter.
      * intros Hh%head_Some_elem_of. assert (Hx : (k, v) ∈ at_or_after k es) by (rewrite Hes; apply elem_of_app; by left).
        by apply elem_of_at_or_after in Hx as [_ ?].
    + intros k' v' Hh%head_Some_elem_of.
      assert (Hx : (k', v') ∈ at_or_after k es) by (rewrite Hes; apply elem_of_app; by left).
      by apply elem_of_at_or_after in Hx as [? ?].
Qed.

(** ** States of a two-level iterator *)
Inductive tl_reached (t0 : TwoLevelIterator) : TwoLevelIterator -> Prop :=
| tl_reached_new : tl_reached t0 t0
| tl_reached_first t t' : tl_reached t0 t -> tl_SeekToFirst BlockReader t = Done (tt, t') -> tl_reached t0 t'
| tl_reached_seek t t' target : tl_reached t0 t -> tl_Seek BlockReader target t = Done (tt, t') -> tl_reached t0 t'
| tl_reached_next t t' : tl_reached t0 t -> tl_Valid t = true -> tl_Next BlockReader t = Done (tt, t') ->
    tl_reached t0 t'.

Lemma tl_reached_pos t : tl_reached (TwoLevel_new (BlockIterator (start iitems ijs))) t -> exists l, tl_pos t l.
Proof using Hread Hsort Ht SNL.
  induction 1 as [|t t' _ [l Hp] E|t t' target _ [l Hp] E|t t' _ [l Hp] Hv E].
  - exists []. eexists _, _, _. split; [done|]. left. split_and!; [done..|]. exists (length bs).
    rewrite !drop_ge by (rewrite ?length_index; lia). split; [done|].
    pose proof (start_inv _ _ (tf_index_good _ _ _ _ _ _ _ Ht)) as [Hb _]. split; [done|]. right. split; [done|].
    unfold Valid. simpl. apply Z.ltb_irrefl.
  - destruct (tl_SeekToFirst_spec t l Hp) as (t1 & E1 & Hp1). assert (t1 = t') as -> by congruence. by exists es.
  - destruct (tl_Seek_spec t l target Hp) as (t1 & E1 & Hp1). assert (t1 = t') as -> by congruence. by eexists.
  - destruct l as [|e l]; [by rewrite (proj1 (tl_pos_end t Hp)) in Hv|].
    destruct (tl_Next_spec t e l Hp) as (t1 & E1 & Hp1). assert (t1 = t') as -> by congruence. by exists l.
Qed.
End reader.
