(* ===== verification/TableTheorems.v ===== *)
(** * Table files: the properties

    A table written without an error is read back: by a scan, by a seek from
    any state of an iterator, and by single lookups.  The concrete tables at
    the end of the definitions use a file kept in memory and a compression
    library that never compresses. *)
From S2P Require Import Prelude Coding Block BlockProofs BlockTheorems Crc32c TableFormat TableBuilder Table TableKeys TableBuilderProofs TableBuilderSpec TableReader.
From stdpp Require Import options.
#[local] Open Scope tf_monad_scope.

(** ** A file in memory *)
#[global] Instance mem_file : WritableFile bytes := {
  file_append f data := (StatusOK, f ++ data)
}.

#[global] Instance mem_file_laws : WritableFileLaws bytes.
Proof. refine {| file_contents := fun f : bytes => f |}. intros f data f'. by intros [= <-]. Defined.

#[global] Instance no_snappy : Snappy := {
  Snappy_Compress _ := None;
  Snappy_GetUncompressedLength _ := None;
  Snappy_Uncompress _ := None
}.

#[global] Instance no_snappy_laws : SnappyLaws.
Proof. by split. Qed.

Definition mem_reader (f : bytes) : RandomAccessFile := {|
  file_read off n := (StatusOK, take (Z.to_nat n) (drop (Z.to_nat off) f), true)
|}.

Lemma mem_reader_reads f : @reads_file (mem_reader f) f.
Proof. intros off n _ _ _. by exists true. Qed.

(** Two entries in two blocks. *)
Definition tiny_options : Options := mkOptions 1 16 SnappyCompression.

Definition tiny_entries : list (bytes * bytes) := [([97], [1]); ([99], [2; 3])].

Definition tiny_rep : Rep bytes :=
  match build_table tiny_options tiny_entries (Rep_new []) with Done (_, r) => r | _ => Rep_new [] end.

Definition tiny_reader : RandomAccessFile := mem_reader (file_contents (file tiny_rep)).

Definition tiny_table : TableRep :=
  match @Table_Open tiny_reader no_snappy (zlen (file_contents (file tiny_rep))) with
  | Done (_, Some t) => t
  | _ => mkTable (mkHandle 0 0) (mkBlock [] 0 0)
  end.

Definition tiny_iter : TwoLevelIterator :=
  match Table_NewIterator tiny_table with Done it => it | _ => TwoLevel_new EmptyIterator end.

Lemma tiny_entries_bytes : entry_bytes tiny_entries.
Proof. repeat constructor; unfold is_byte; simpl; lia. Qed.

Lemma tiny_entries_sorted : sorted_keys tiny_entries.
Proof.
  intros m n x y Hmn Hx Hy. pose proof (lookup_lt_Some _ _ _ Hy) as Hn. simpl in Hn.
  destruct n as [|[|n]]; [lia| |lia]; destruct m as [|m]; [|lia]; simplify_eq/=; done.
Qed.

Lemma tiny_built : build_table tiny_options tiny_entries (Rep_new []) = Done (StatusOK, tiny_rep).
Proof.
  destruct (build_table_spec tiny_options tiny_entries ([] : bytes)) as (st & r & E & _);
    [done|apply tiny_entries_sorted|apply tiny_entries_bytes|done|].
  unfold tiny_rep. rewrite E. f_equal. f_equal.
  by eapply build_table_ok, E.
Qed.

(** What the theorems below use of a table that was written without an error. *)
Section written.
Context {F : Type} `{WF : WritableFile F} `{WFL : !WritableFileLaws F} `{SN : Snappy} `{SNL : !SnappyLaws}.
Context `{RF : RandomAccessFile} (opts : Options) (es : list (bytes * bytes)) (f0 : F) (r : Rep F).
Hypothesis Hf0 : file_contents f0 = [].
Hypothesis Hsort : sorted_keys es.
Hypothesis Hbytes : entry_bytes es.
Hypothesis Hweight : weight es + 1000 < 2 ^ 32.
Hypothesis Hbuild : build_table opts es (Rep_new f0) = Done (StatusOK, r).
Hypothesis Hread : reads_file (file_contents (file r)).

Lemma written_file : exists bs seps iitems ijs footer,
  table_file (file_contents (file r)) es bs seps iitems ijs footer.
Proof using WFL SNL Hf0 Hsort Hbytes Hweight Hbuild.
  destruct (build_table_spec opts es f0 Hf0 Hsort Hbytes Hweight) as (st & r' & E & H).
  rewrite Hbuild in E. injection E as <- <-. by apply H.
Qed.

Lemma written_open : exists t bs seps iitems ijs footer,
  Table_Open (zlen (file_contents (file r))) = Done (StatusOK, Some t) /\
  Table_NewIterator t = Done (TwoLevel_new (BlockIterator (start iitems ijs))) /\
  NewIterator (t_index_block t) = Done (BlockIterator (start iitems ijs)) /\
  table_file (file_contents (file r)) es bs seps iitems ijs footer.
Proof using All.
  destruct written_file as (bs & seps & iitems & ijs & footer & Ht).
  destruct (Table_Open_spec _ _ _ _ _ _ _ Hread Ht) as (blk & E & En).
  eexists _, bs, seps, iitems, ijs, footer. split; [exact E|]. split; [|done].
  unfold Table_NewIterator. cbn [t_index_block]. by rewrite En.
Qed.
End written.

Lemma tiny_written : exists t (bs : list block_info) (seps : list bytes) iitems ijs (footer : Footer),
  @Table_Open tiny_reader no_snappy (zlen (file_contents (file tiny_rep))) = Done (StatusOK, Some t) /\
  Table_NewIterator t = Done (TwoLevel_new (BlockIterator (start iitems ijs))) /\
  NewIterator (t_index_block t) = Done (BlockIterator (start iitems ijs)) /\
  table_file (file_contents (file tiny_rep)) tiny_entries bs seps iitems ijs footer.
Proof.
  apply (@written_open bytes _ _ _ _ tiny_reader tiny_options tiny_entries [] tiny_rep).
  - done.
  - apply tiny_entries_sorted.
  - apply tiny_entries_bytes.
  - done.
  - apply tiny_built.
  - apply mem_reader_reads.
Qed.

Lemma tiny_opened :
  @Table_Open tiny_reader no_snappy (zlen (file_contents (file tiny_rep))) = Done (StatusOK, Some tiny_table).
Proof.
  destruct tiny_written as (t & _ & _ & _ & _ & _ & E & _).
  unfold tiny_table. by rewrite E.
Qed.

Lemma tiny_iterator : Table_NewIterator tiny_table = Done tiny_iter.
Proof.
  destruct tiny_written as (t & bs & seps & ii & ij & fo & E & En & _).
  unfold tiny_iter, tiny_table. by rewrite E, En.
Qed.

(** ** Properties *)

(** C11: table round trip.  Entries of byte strings in strictly increasing key
    order, of total size below 4 GiB, are added to a new builder on an empty
    file, with any options, and the table is finished.  This returns on every
    file.  If no append fails it returns OK; and if it returns OK then [Open]
    succeeds on any file that reads back the bytes written, and [SeekToFirst]
    and [Next] until [Valid] fails yield exactly the entries in order, with
    status OK. *)
Theorem table_roundtrip {F : Type} `{WritableFile F} `{!WritableFileLaws F} `{Snappy} `{!SnappyLaws}
    (opts : Options) (es : list (bytes * bytes)) (f0 : F)
    (Hf0 : file_contents f0 = []) (Hsort : sorted_keys es) (Hbytes : entry_bytes es)
    (Hweight : weight es + 1000 < 2 ^ 32) :
  exists st r, build_table opts es (Rep_new f0) = Done (st, r) /\
    ((forall f data, (file_append f data).1 = StatusOK) -> st = StatusOK) /\
    (st = StatusOK -> forall RF : RandomAccessFile, reads_file (file_contents (file r)) ->
     exists t it0 it1 it2, Table_Open (zlen (file_contents (file r))) = Done (StatusOK, Some t) /\
       Table_NewIterator t = Done it0 /\ tl_SeekToFirst BlockReader it0 = Done (tt, it1) /\
       tl_scan BlockReader (S (length es)) it1 = Done (es, it2) /\ tl_get_status it2 = StatusOK).
Proof.
  destruct (build_table_spec opts es f0 Hf0 Hsort Hbytes Hweight) as (st & r & E & _). exists st, r.
  split; [done|]. split; [intros Ha; by eapply build_table_ok|]. intros -> RF Hread.
  destruct (written_open opts es f0 r Hf0 Hsort Hbytes Hweight E Hread)
    as (t & bs & seps & iitems & ijs & footer & Eo & Ei & _ & Ht).
  destruct (tl_reached_pos _ _ _ _ _ _ _ Hread Ht Hsort _ (tl_reached_new _)) as [l Hp].
  destruct (tl_SeekToFirst_spec _ _ _ _ _ _ _ Hread Ht _ _ Hp) as (it1 & E1 & Hp1).
  destruct (tl_scan_spec _ _ _ _ _ _ _ Hread Ht _ _ (S (length es)) Hp1 ltac:(lia)) as (it2 & E2 & Hp2).
  eexists t, _, it1, it2. split_and!; try done. exact (proj2 (tl_pos_end _ _ _ _ _ Hp2)).
Qed.

Lemma table_roundtrip_witness :
  exists st r, build_table tiny_options tiny_entries (Rep_new []) = Done (st, r) /\
    ((forall f data : bytes, (file_append f data).1 = StatusOK) -> st = StatusOK) /\
    (st = StatusOK -> forall RF : RandomAccessFile, reads_file (file_contents (file r)) ->
     exists t it0 it1 it2, Table_Open (zlen (file_contents (file r))) = Done (StatusOK, Some t) /\
       Table_NewIterator t = Done it0 /\ tl_SeekToFirst BlockReader it0 = Done (tt, it1) /\
       tl_scan BlockReader (S (length tiny_entries)) it1 = Done (tiny_entries, it2) /\
       tl_get_status it2 = StatusOK).
Proof.
  apply (table_roundtrip tiny_options tiny_entries []).
  - reflexivity.
  - apply tiny_entries_sorted.
  - apply tiny_entries_bytes.
  - reflexivity.
Defined.

(** [Seek] on a table written without an error, from any state the
    two-level iterator can have reached, returns, and scanning on from there
    yields exactly the entries whose key is not below the target, with status
    OK: the separators in the index block send every target to the right data
    block. *)
Theorem table_seek {F : Type} `{WritableFile F} `{!WritableFileLaws F} `{Snappy} `{!SnappyLaws}
    `{RF : RandomAccessFile} (opts : Options) (es : list (bytes * bytes)) (f0 : F) (r : Rep F)
    (t : TableRep) (it0 it : TwoLevelIterator) (target : bytes)
    (Hf0 : file_contents f0 = []) (Hsort : sorted_keys es) (Hbytes : entry_bytes es)
    (Hweight : weight es + 1000 < 2 ^ 32)
    (Hbuild : build_table opts es (Rep_new f0) = Done (StatusOK, r))
    (Hread : reads_file (file_contents (file r)))
    (Hopen : Table_Open (zlen (file_contents (file r))) = Done (StatusOK, Some t))
    (Hnew : Table_NewIterator t = Done it0) (Hit : tl_reached it0 it) :
  exists it1 it2, tl_Seek BlockReader target it = Done (tt, it1) /\
    tl_scan BlockReader (S (length es)) it1 = Done (at_or_after target es, it2) /\ tl_get_status it2 = StatusOK.
Proof.
  destruct (written_open opts es f0 r Hf0 Hsort Hbytes Hweight Hbuild Hread)
    as (t' & bs & seps & iitems & ijs & footer & Eo & Ei & _ & Ht).
  rewrite Hopen in Eo. injection Eo as <-. rewrite Hnew in Ei. injection Ei as ->.
  destruct (tl_reached_pos _ _ _ _ _ _ _ Hread Ht Hsort _ Hit) as [l Hp].
  destruct (tl_Seek_spec _ _ _ _ _ _ _ Hread Ht Hsort _ _ target Hp) as (it1 & E1 & Hp1).
  pose proof (length_at_or_after target es).
  destruct (tl_scan_spec _ _ _ _ _ _ _ Hread Ht _ _ (S (length es)) Hp1 ltac:(lia)) as (it2 & E2 & Hp2).
  exists it1, it2. split_and!; try done. exact (proj2 (tl_pos_end _ _ _ _ _ Hp2)).
Qed.

Lemma table_seek_witness :
  exists it1 it2, tl_Seek (@BlockReader tiny_reader no_snappy) [98] tiny_iter = Done (tt, it1) /\
    tl_scan (@BlockReader tiny_reader no_snappy) (S (length tiny_entries)) it1
    = Done (at_or_after [98] tiny_entries, it2) /\ tl_get_status it2 = StatusOK.
Proof.
  apply (@table_seek bytes _ _ _ _ tiny_reader tiny_options tiny_entries [] tiny_rep tiny_table tiny_iter tiny_iter [98]).
  - reflexivity.
  - apply tiny_entries_sorted.
  - apply tiny_entries_bytes.
  - reflexivity.
  - apply tiny_built.
  - apply mem_reader_reads.
  - apply tiny_opened.
  - apply tiny_iterator.
  - apply tl_reached_new.
Defined.

(** C33: [InternalGet] of any key on a table written without an error returns
    OK.  It passes the pair of the key and a value to the saver exactly when
    the table holds that pair; what it passes otherwise is an entry with a
    later key. *)
Theorem table_get {F : Type} `{WritableFile F} `{!WritableFileLaws F} `{Snappy} `{!SnappyLaws}
    `{RF : RandomAccessFile} (opts : Options) (es : list (bytes * bytes)) (f0 : F) (r : Rep F)
    (t : TableRep) (k : bytes)
    (Hf0 : file_contents f0 = []) (Hsort : sorted_keys es) (Hbytes : entry_bytes es)
    (Hweight : weight es + 1000 < 2 ^ 32)
    (Hbuild : build_table opts es (Rep_new f0) = Done (StatusOK, r))
    (Hread : reads_file (file_contents (file r)))
    (Hopen : Table_Open (zlen (file_contents (file r))) = Done (StatusOK, Some t)) :
  exists saved, InternalGet t k = Done (StatusOK, saved) /\
    (forall v, (k, v) ∈ es <-> saved = Some (k, v)) /\
    (forall k' v', saved = Some (k', v') -> (k', v') ∈ es /\ bytes_lt k' k = false).
Proof.
  destruct (written_open opts es f0 r Hf0 Hsort Hbytes Hweight Hbuild Hread)
    as (t' & bs & seps & iitems & ijs & footer & Eo & _ & Ei & Ht).
  rewrite Hopen in Eo. injection Eo as <-. destruct t as [mh blk].
  exact (InternalGet_spec _ _ _ _ _ _ _ Hread Ht Hsort mh blk k Ei).
Qed.

Lemma table_get_witness :
  exists saved, @InternalGet tiny_reader no_snappy tiny_table [99] = Done (StatusOK, saved) /\
    (forall v, ([99], v) ∈ tiny_entries <-> saved = Some ([99], v)) /\
    (forall k' v', saved = Some (k', v') -> (k', v') ∈ tiny_entries /\ bytes_lt k' [99] = false).
Proof.
  apply (@table_get bytes _ _ _ _ tiny_reader tiny_options tiny_entries [] tiny_rep tiny_table [99]).
  - reflexivity.
  - apply tiny_entries_sorted.
  - apply tiny_entries_bytes.
  - reflexivity.
  - apply tiny_built.
  - apply mem_reader_reads.
  - apply tiny_opened.
Defined.

(** once an append has failed the builder writes nothing more: [Add]
    leaves it as it is, and [Finish] only marks it closed and returns the
    status of the failure. *)
Theorem table_write_error {F : Type} `{WritableFile F} `{Snappy} (opts : Options) (r : Rep F) (k v : bytes)
    (Herr : ok (status r) = false) :
  TableBuilder_Add opts k v r = Done (tt, r) /\
  TableBuilder_Finish opts r = Done (status r, set_closed r).
Proof. split; [by apply TableBuilder_Add_failed|by apply TableBuilder_Finish_failed]. Qed.

Lemma table_write_error_witness :
  TableBuilder_Add tiny_options [97] [1] (set_file [] (StatusError DATA_LOSS) (Rep_new [])) =
    Done (tt, set_file [] (StatusError DATA_LOSS) (Rep_new [])) /\
  TableBuilder_Finish tiny_options (set_file [] (StatusError DATA_LOSS) (Rep_new [])) =
    Done (StatusError DATA_LOSS, set_closed (set_file [] (StatusError DATA_LOSS) (Rep_new []))).
Proof.
  apply (table_write_error tiny_options (set_file [] (StatusError DATA_LOSS) (Rep_new [])) [97] [1]). reflexivity.
Defined.

(** Footer round trip.  The footer of any two handles with 64-bit fields
    is encoded in 48 bytes, the same number for every footer, and decoding
    those bytes followed by anything returns the footer and the rest. *)
Theorem footer_roundtrip (f : Footer) (rest : bytes)
    (Hm : handle_ok (metaindex_handle_ f)) (Hi : handle_ok (index_handle_ f)) :
  exists e, Footer_EncodeTo [] f = Some e /\ length e = kEncodedLength /\
    Footer_DecodeFrom (e ++ rest) = Done (StatusOK, Some (f, rest)).
Proof. destruct (Footer_roundtrip f rest Hm Hi) as (e & H1 & H2 & _ & H3). by exists e. Qed.

Lemma footer_roundtrip_witness :
  exists e, Footer_EncodeTo [] (mkFooter (mkHandle 300 8) (mkHandle 313 24)) = Some e /\
    length e = kEncodedLength /\
    Footer_DecodeFrom (e ++ [1]) = Done (StatusOK, Some (mkFooter (mkHandle 300 8) (mkHandle 313 24), [1])).
Proof.
  apply (footer_roundtrip (mkFooter (mkHandle 300 8) (mkHandle 313 24)) [1]);
    split; unfold in_u64; simpl; lia.
Defined.
