(* ===== verification/InputStream.v ===== *)
(** * Input streams (src/tensorflow/core/lib/io/inputstream_interface.h and .cc,
    random_inputstream.h and .cc, buffered_inputstream.h and .cc)

    The virtual methods of [InputStreamInterface] are a class over the state of
    a stream.  [RandomAccessInputStream] reads a [RandomAccessFile] at a
    position; [BufferedInputStream] reads ahead from any stream.  A method that
    fills [*result] takes its old contents and returns the new ones.  Overflow
    of signed arithmetic is undefined and [Crash]; running out of memory is not
    modelled. *)
From S2P Require Import Prelude Coding Block TableFormat.
From stdpp Require Import list options.
#[local] Open Scope Z_scope.
#[local] Open Scope tf_monad_scope.

Class InputStreamInterface (S : Type) := {
  ReadNBytes : Z -> bytes -> M S (Status * bytes);
  SkipNBytes : Z -> M S Status;
  Tell : S -> Z;
  Reset : M S Status
}.

Definition IsOutOfRange (s : Status) : bool := bool_decide (s = StatusError OUT_OF_RANGE).

(** An [int64] result that must not overflow. *)
Definition checked_i64 {S} (z : Z) : M S Z := if decide (in_i64 z) then ret z else crash.

Definition kMaxSkipSize : Z := 8 * 1024 * 1024.

(** The default [SkipNBytes], which reads and drops. *)
Fixpoint default_skip_loop {S} `{InputStreamInterface S} (fuel : nat) (bytes_to_skip : Z) (unused : bytes) : M S Status :=
  if 0 <? bytes_to_skip then
    match fuel with
    | O => out_of_fuel
    | S fuel =>
        let bytes_to_read := Z.min kMaxSkipSize bytes_to_skip in
        r <~ ReadNBytes bytes_to_read unused;;
        if ok (fst r) then default_skip_loop fuel (bytes_to_skip - bytes_to_read) (snd r) else ret (fst r)
    end
  else ret StatusOK.

Definition default_SkipNBytes {S} `{InputStreamInterface S} (bytes_to_skip : Z) : M S Status :=
  if bytes_to_skip <? 0 then ret (StatusError INVALID_ARGUMENT)
  else default_skip_loop (Datatypes.S (Z.to_nat (bytes_to_skip / kMaxSkipSize))) bytes_to_skip [].

(** ** Reading a file at a position *)
Section RandomAccessInputStream.
Context `{RandomAccessFile}.

Record RandomAccessInputStream := mkRandom { pos_ : Z }.

Definition Random_new : RandomAccessInputStream := mkRandom 0.

(** [pos_ += n]. *)
Definition advance (n : Z) : M RandomAccessInputStream unit :=
  s <~ get;;
  p <~ checked_i64 (pos_ s + n);;
  modify (fun _ => mkRandom p).

Definition Random_ReadNBytes (bytes_to_read : Z) (result : bytes) : M RandomAccessInputStream (Status * bytes) :=
  if bytes_to_read <? 0 then ret (StatusError INVALID_ARGUMENT, result)
  else
    st <~ get;;
    let '(s, data, _) := file_read (u64 (pos_ st)) bytes_to_read in
    (if ok s || IsOutOfRange s then advance (zlen data) else ret tt);;;
    ret (s, data).

Fixpoint Random_skip_loop (fuel : nat) (bytes_to_skip : Z) : M RandomAccessInputStream Status :=
  if 0 <? bytes_to_skip then
    match fuel with
    | O => out_of_fuel
    | S fuel =>
        let bytes_to_read := Z.min kMaxSkipSize bytes_to_skip in
        st <~ get;;
        let '(s, data, _) := file_read (u64 (pos_ st)) bytes_to_read in
        if ok s || IsOutOfRange s then
          advance (zlen data);;;
          if zlen data <? bytes_to_read then ret (StatusError OUT_OF_RANGE)
          else Random_skip_loop fuel (bytes_to_skip - bytes_to_read)
        else ret s
    end
  else ret StatusOK.

(** Whether the last byte to skip can be read. *)
Definition Random_probe (bytes_to_skip : Z) : M RandomAccessInputStream bool :=
  if 0 <? bytes_to_skip then
    st <~ get;;
    p <~ checked_i64 (pos_ st + bytes_to_skip);;
    let '(s, data, _) := file_read (u64 (p - 1)) 1 in
    ret ((ok s || IsOutOfRange s) && (zlen data =? 1))
  else ret false.

Definition Random_SkipNBytes (bytes_to_skip : Z) : M RandomAccessInputStream Status :=
  if bytes_to_skip <? 0 then ret (StatusError INVALID_ARGUMENT)
  else
    found <~ Random_probe bytes_to_skip;;
    if found then advance bytes_to_skip;;; ret StatusOK
    else Random_skip_loop (S (Z.to_nat (bytes_to_skip / kMaxSkipSize))) bytes_to_skip.

Definition Random_Seek (position : Z) : M RandomAccessInputStream Status :=
  modify (fun _ => mkRandom position);;; ret StatusOK.

#[global] Instance Random_stream : InputStreamInterface RandomAccessInputStream := {
  ReadNBytes := Random_ReadNBytes;
  SkipNBytes := Random_SkipNBytes;
  Tell := pos_;
  Reset := Random_Seek 0
}.
End RandomAccessInputStream.

(** ** Reading ahead *)
Section BufferedInputStream.
Context {S : Type} `{InputStreamInterface S}.

Record BufferedInputStream := mkBuffered {
  input_stream_ : S;
  size_ : Z;
  buf_ : bytes;
  bpos_ : Z;
  limit_ : Z;
  file_status_ : Status
}.

Definition Buffered_new (input_stream : S) (buffer_bytes : Z) : BufferedInputStream :=
  mkBuffered input_stream buffer_bytes [] 0 0 StatusOK.

Definition set_pos_limit (p l : Z) (b : BufferedInputStream) : BufferedInputStream :=
  mkBuffered (input_stream_ b) (size_ b) (buf_ b) p l (file_status_ b).
Definition set_buf (d : bytes) (b : BufferedInputStream) : BufferedInputStream :=
  mkBuffered (input_stream_ b) (size_ b) d (bpos_ b) (limit_ b) (file_status_ b).
Definition set_file_status (s : Status) (b : BufferedInputStream) : BufferedInputStream :=
  mkBuffered (input_stream_ b) (size_ b) (buf_ b) (bpos_ b) (limit_ b) s.

(** A call on the underlying stream. *)
Definition on_input {A} (m : M S A) : M BufferedInputStream A := fun b =>
  match m (input_stream_ b) with
  | Done (a, i) => Done (a, mkBuffered i (size_ b) (buf_ b) (bpos_ b) (limit_ b) (file_status_ b))
  | Crash => Crash
  | OutOfFuel => OutOfFuel
  end.

Definition FillBuffer : M BufferedInputStream Status :=
  b <~ get;;
  if negb (ok (file_status_ b)) then modify (set_pos_limit 0 0);;; ret (file_status_ b)
  else
    r <~ on_input (ReadNBytes (size_ b) (buf_ b));;
    modify (set_buf (snd r));;;
    modify (set_pos_limit 0 (zlen (snd r)));;;
    (if ok (fst r) then ret tt else modify (set_file_status (fst r)));;;
    ret (fst r).

(** The bytes of [buf_] from [a] to [b]. *)
Definition slice (d : bytes) (a b : Z) : bytes := take (Z.to_nat (b - a)) (drop (Z.to_nat a) d).

(** The loop of [ReadNBytes]; [s] is the status of the last [FillBuffer]. *)
Fixpoint Buffered_read_loop (fuel : nat) (n : Z) (result : bytes) (s : Status) : M BufferedInputStream (Status * bytes) :=
  if zlen result <? n then
    match fuel with
    | O => out_of_fuel
    | Datatypes.S fuel =>
        b <~ get;;
        s <~ (if bpos_ b =? limit_ b then FillBuffer else ret s);;
        b' <~ get;;
        if (bpos_ b =? limit_ b) && (limit_ b' =? 0) then
          modify (set_file_status s);;; ret (s, result)
        else
          let bytes_to_copy := Z.min (limit_ b' - bpos_ b') (n - zlen result) in
          modify (fun b => set_pos_limit (bpos_ b + bytes_to_copy) (limit_ b) b);;;
          Buffered_read_loop fuel n (result ++ slice (buf_ b') (bpos_ b') (bpos_ b' + bytes_to_copy)) s
    end
  else ret (s, result).

Definition Buffered_ReadNBytes (bytes_to_read : Z) (result : bytes) : M BufferedInputStream (Status * bytes) :=
  if bytes_to_read <? 0 then ret (StatusError INVALID_ARGUMENT, result)
  else
    b <~ get;;
    if (bpos_ b =? limit_ b) && negb (ok (file_status_ b)) && (0 <? bytes_to_read) then ret (file_status_ b, [])
    else
      r <~ Buffered_read_loop (Datatypes.S (Z.to_nat bytes_to_read)) bytes_to_read [] StatusOK;;
      if IsOutOfRange (fst r) && (zlen (snd r) =? bytes_to_read) then ret (StatusOK, snd r) else ret r.

Definition Buffered_SkipNBytes (bytes_to_skip : Z) : M BufferedInputStream Status :=
  if bytes_to_skip <? 0 then ret (StatusError INVALID_ARGUMENT)
  else
    b <~ get;;
    if u64 (bpos_ b + bytes_to_skip) <? limit_ b then
      modify (set_pos_limit (bpos_ b + bytes_to_skip) (limit_ b));;; ret StatusOK
    else
      s <~ on_input (SkipNBytes (i64 (u64 (bytes_to_skip - (limit_ b - bpos_ b)))));;
      modify (set_pos_limit 0 0);;;
      (if IsOutOfRange s then modify (set_file_status s) else ret tt);;;
      ret s.

Definition Buffered_Tell (b : BufferedInputStream) : Z :=
  i64 (u64 (Tell (input_stream_ b) - (limit_ b - bpos_ b))).

Definition Buffered_Reset : M BufferedInputStream Status :=
  s <~ on_input Reset;;
  if negb (ok s) then ret s
  else
    modify (set_pos_limit 0 0);;;
    modify (set_file_status StatusOK);;;
    ret StatusOK.

#[global] Instance Buffered_stream : InputStreamInterface BufferedInputStream := {
  ReadNBytes := Buffered_ReadNBytes;
  SkipNBytes := Buffered_SkipNBytes;
  Tell := Buffered_Tell;
  Reset := Buffered_Reset
}.

Definition Buffered_Seek (position : Z) : M BufferedInputStream Status :=
  if position <? 0 then ret (StatusError INVALID_ARGUMENT)
  else
    b <~ get;;
    let buf_lower_limit := i64 (u64 (Tell (input_stream_ b) - limit_ b)) in
    if position <? buf_lower_limit then
      s <~ Buffered_Reset;;
      if ok s then Buffered_SkipNBytes position else ret s
    else if position <? Buffered_Tell b then
      modify (set_pos_limit (u64 (bpos_ b - (Buffered_Tell b - position))) (limit_ b));;; ret StatusOK
    else Buffered_SkipNBytes (position - Buffered_Tell b).

(** [ReadAll]; the fuel is the number of times the buffer is filled. *)
Fixpoint ReadAll_loop (fuel : nat) (result : bytes) (status : Status) : M BufferedInputStream (Status * bytes) :=
  if ok status then
    match fuel with
    | O => out_of_fuel
    | Datatypes.S fuel =>
        status <~ FillBuffer;;
        b <~ get;;
        if limit_ b =? 0 then ret (status, result)
        else
          modify (set_pos_limit (limit_ b) (limit_ b));;;
          ReadAll_loop fuel (result ++ buf_ b) status
    end
  else ret (status, result).

Definition ReadAll (fuel : nat) : M BufferedInputStream (Status * bytes) :=
  r <~ ReadAll_loop fuel [] StatusOK;;
  if IsOutOfRange (fst r) then modify (set_file_status (fst r));;; ret (StatusOK, snd r) else ret r.

(** [ReadLine]; carriage returns are dropped.  [start_pos] is where the text not
    yet appended begins.  The fuel is the number of characters read. *)
Fixpoint ReadLine_loop (fuel : nat) (include_eol : bool) (start_pos : Z) (result : bytes) : M BufferedInputStream (Status * bytes) :=
  match fuel with
  | O => out_of_fuel
  | Datatypes.S fuel =>
      b <~ get;;
      let refill := bpos_ b =? limit_ b in
      let result := if refill then result ++ slice (buf_ b) start_pos (bpos_ b) else result in
      s <~ (if refill then FillBuffer else ret StatusOK);;
      b <~ get;;
      if refill && (limit_ b =? 0) then
        ret (if IsOutOfRange s && negb (bool_decide (result = [])) then (StatusOK, result) else (s, result))
      else
        let start_pos := if refill then bpos_ b else start_pos in
        match buf_ b !! Z.to_nat (bpos_ b) with
        | None => crash
        | Some c =>
            modify (set_pos_limit (bpos_ b + 1) (limit_ b));;;
            if c =? 10 then
              ret (StatusOK, result ++ slice (buf_ b) start_pos (bpos_ b) ++ (if include_eol then [c] else []))
            else if c =? 13 then
              ReadLine_loop fuel include_eol (bpos_ b + 1) (result ++ slice (buf_ b) start_pos (bpos_ b))
            else ReadLine_loop fuel include_eol start_pos result
        end
  end.

Definition ReadLineHelper (fuel : nat) (include_eol : bool) : M BufferedInputStream (Status * bytes) :=
  b <~ get;; ReadLine_loop fuel include_eol (bpos_ b) [].

Definition ReadLine (fuel : nat) : M BufferedInputStream (Status * bytes) := ReadLineHelper fuel false.

Definition ReadLineAsString (fuel : nat) : M BufferedInputStream bytes := r <~ ReadLineHelper fuel true;; ret (snd r).

Fixpoint SkipLine_loop (fuel : nat) (skipped : bool) : M BufferedInputStream Status :=
  match fuel with
  | O => out_of_fuel
  | Datatypes.S fuel =>
      b <~ get;;
      let refill := bpos_ b =? limit_ b in
      s <~ (if refill then FillBuffer else ret StatusOK);;
      b <~ get;;
      if refill && (limit_ b =? 0) then ret (if IsOutOfRange s && skipped then StatusOK else s)
      else
        match buf_ b !! Z.to_nat (bpos_ b) with
        | None => crash
        | Some c =>
            modify (set_pos_limit (bpos_ b + 1) (limit_ b));;;
            if c =? 10 then ret StatusOK else SkipLine_loop fuel true
        end
  end.

Definition SkipLine (fuel : nat) : M BufferedInputStream Status := SkipLine_loop fuel false.
End BufferedInputStream.

Arguments BufferedInputStream : clear implicits.

(** * Input streams: what a stream over a file promises

    [StreamLaws S f] is the contract between streams and their readers: a
    stream over a file with the contents [f] is at a position, reads return the
    bytes there and move it, and [OUT_OF_RANGE] means that the end of the file
    was reached.  [RandomAccessInputStream] satisfies it, and
    [BufferedInputStream] over any stream that does. *)

Implicit Types (f d : bytes).

(** ** Ranges of a file *)
Definition file_range f (off n : Z) : bytes := take (Z.to_nat n) (drop (Z.to_nat off) f).

(** [OUT_OF_RANGE] when fewer bytes than asked for are left. *)
Definition end_status f (p n : Z) : Status := if p + n <=? zlen f then StatusOK else StatusError OUT_OF_RANGE.

Definition end_pos f (p n : Z) : Z := Z.min (p + n) (zlen f).

Lemma zlen_app d1 d2 : zlen (d1 ++ d2) = zlen d1 + zlen d2.
Proof. unfold zlen. rewrite length_app. lia. Qed.

Lemma range_len f p n : 0 <= p <= zlen f -> 0 <= n -> zlen (file_range f p n) = Z.min n (zlen f - p).
Proof. intros Hp Hn. unfold file_range, zlen in *. rewrite length_take, length_drop. lia. Qed.

Lemma range_app f p n m : 0 <= p -> 0 <= n -> 0 <= m -> file_range f p n ++ file_range f (p + n) m = file_range f p (n + m).
Proof.
  intros Hp Hn Hm. unfold file_range. rewrite !Z2Nat.inj_add by done. by rewrite <-drop_drop, take_take_drop.
Qed.

Lemma range_range f p n a m : 0 <= p -> 0 <= a -> 0 <= m -> a + m <= n -> file_range (file_range f p n) a m = file_range f (p + a) m.
Proof.
  intros Hp Ha Hm Hn. unfold file_range. rewrite skipn_firstn_comm, take_take, drop_drop, Z2Nat.inj_add by done. f_equal. lia.
Qed.

Lemma range_0 f p : file_range f p 0 = [].
Proof. done. Qed.

Lemma range_end f p n : zlen f <= p -> file_range f p n = [].
Proof. intros Hp. unfold file_range, zlen in *. rewrite drop_ge by lia. apply take_nil. Qed.

Lemma range_clip f p n : 0 <= p <= zlen f -> 0 <= n -> file_range f p n = file_range f p (Z.min n (zlen f - p)).
Proof.
  intros Hp Hn. unfold file_range, zlen in *. destruct (Z.le_gt_cases n (Z.of_nat (length f) - p)); [f_equal; lia|].
  rewrite !take_ge by (rewrite length_drop; lia). done.
Qed.

(** ** The contract *)
Class StreamLaws (S : Type) `{InputStreamInterface S} f := {
  at_pos : S -> Z -> Prop;
  at_range s p : at_pos s p -> 0 <= p <= zlen f;
  law_read s p n r : at_pos s p -> 0 <= n ->
    exists s', ReadNBytes n r s = Done ((end_status f p n, file_range f p n), s') /\ at_pos s' (end_pos f p n);
  law_skip s p n : at_pos s p -> 0 <= n -> p + n < 2 ^ 63 ->
    exists s', SkipNBytes n s = Done (end_status f p n, s') /\ at_pos s' (end_pos f p n);
  law_skip_overflow s p n : at_pos s p -> n < 2 ^ 63 -> 2 ^ 63 <= p + n -> SkipNBytes n s = Crash;
  law_tell s p : at_pos s p -> Tell s = p;
  law_reset s p : at_pos s p -> exists s', Reset s = Done (StatusOK, s') /\ at_pos s' 0;
  law_negative s n r : n < 0 ->
    ReadNBytes n r s = Done ((StatusError INVALID_ARGUMENT, r), s) /\ SkipNBytes n s = Done (StatusError INVALID_ARGUMENT, s)
}.

(** The default [SkipNBytes] keeps the contract of [SkipNBytes]. *)
Lemma default_skip_loop_spec {S} `{InputStreamInterface S} f `{!StreamLaws S f} fuel s p n unused : at_pos (f := f) s p -> 0 <= n ->
  n <= kMaxSkipSize * Z.of_nat fuel ->
  exists s', default_skip_loop fuel n unused s = Done (end_status f p n, s') /\ at_pos (f := f) s' (end_pos f p n).
Proof.
  revert s p n unused. induction fuel as [|fuel IH]; intros s p n unused Ha Hn Hf; cbn [default_skip_loop]; pose proof (at_range _ _ Ha) as Hp;
    destruct (Z.ltb_spec 0 n) as [Hn0|Hn0]; try lia.
  2:{ set (k := Z.min kMaxSkipSize n). assert (Hk : 0 < k <= n) by (unfold k, kMaxSkipSize; lia).
      destruct (law_read s p k unused Ha ltac:(lia)) as (s1 & E1 & Ha1). rewrite (bind_Done _ _ _ _ _ E1). cbn [fst snd].
      unfold end_pos in Ha1. unfold end_status at 1.  destruct (Z.leb_spec (p + k) (zlen f)) as [Hle|Hgt]; cbn [ok].
      - rewrite Z.min_l in Ha1 by lia. destruct (IH s1 (p + k) (n - k) (file_range f p k) Ha1 ltac:(lia)) as (s2 & E2 & Ha2).
        { assert (n - k = 0 \/ k = kMaxSkipSize) as [-> | ->] by (unfold k; lia); unfold kMaxSkipSize in *; lia. }
        exists s2. rewrite E2. unfold end_status, end_pos in *. by replace (p + k + (n - k)) with (p + n) in * by lia.
      - rewrite Z.min_r in Ha1 by lia. exists s1. unfold end_status, end_pos. destruct (Z.leb_spec (p + k) (zlen f)); [lia|].
        destruct (Z.leb_spec (p + n) (zlen f)); [lia|]. rewrite Z.min_r by lia. done. }
  all: assert (n = 0) as -> by lia; exists s; unfold end_status, end_pos; destruct (Z.leb_spec (p + 0) (zlen f)); [|lia];
    rewrite Z.min_l by lia; by rewrite Z.add_0_r.
Qed.

Lemma default_skip_spec {S} `{InputStreamInterface S} f `{!StreamLaws S f} s p n : at_pos (f := f) s p -> 0 <= n ->
  exists s', default_SkipNBytes n s = Done (end_status f p n, s') /\ at_pos (f := f) s' (end_pos f p n).
Proof.
  intros Ha Hn. unfold default_SkipNBytes. destruct (Z.ltb_spec n 0); [lia|]. apply default_skip_loop_spec; [done|done|].
  rewrite Nat2Z.inj_succ, Z2Nat.id by (by apply Z.div_pos). pose proof (Z.mul_succ_div_gt n kMaxSkipSize ltac:(done)). lia.
Qed.

(** [RandomAccessFile::Read] on a file with the contents [f]. *)
Definition reads_whole `{RandomAccessFile} f : Prop := forall off n, 0 <= off -> 0 <= n ->
  exists own, file_read off n =
    (if zlen (file_range f off n) =? n then StatusOK else StatusError OUT_OF_RANGE, file_range f off n, own).

(** ** Reading a file at a position *)
Section random.
Context `{RandomAccessFile} f.
Hypothesis Hfile : reads_whole f.
Hypothesis Hsmall : zlen f < 2 ^ 63.

Definition random_at (s : RandomAccessInputStream) (p : Z) : Prop := pos_ s = p /\ 0 <= p <= zlen f.

Lemma file_read_at p n : 0 <= p <= zlen f -> 0 <= n ->
  exists own, file_read (u64 p) n = (end_status f p n, file_range f p n, own).
Proof using Hfile Hsmall.
  intros Hp Hn. rewrite u64_small by (unfold in_u64; lia). destruct (Hfile p n) as (own & ->); [lia|lia|]. exists own.
  rewrite range_len by lia. unfold end_status. do 2 f_equal. destruct (Z.leb_spec (p + n) (zlen f)), (Z.eqb_spec (Z.min n (zlen f - p)) n); lia || done.
Qed.

Lemma end_status_ok p n : ok (end_status f p n) || IsOutOfRange (end_status f p n) = true.
Proof using. unfold end_status. by destruct (_ <=? _). Qed.

Lemma advance_spec p n : 0 <= p -> 0 <= n -> p + n < 2 ^ 63 -> advance n (mkRandom p) = Done (tt, mkRandom (p + n)).
Proof using. intros. unfold advance, bind, get, checked_i64. cbn [pos_]. rewrite decide_True by (unfold in_i64; lia). done. Qed.

Lemma range_advance p n : 0 <= p <= zlen f -> 0 <= n ->
  advance (zlen (file_range f p n)) (mkRandom p) = Done (tt, mkRandom (end_pos f p n)).
Proof using Hsmall.
  intros Hp Hn. rewrite range_len by done. rewrite advance_spec by lia. do 3 f_equal. unfold end_pos. lia.
Qed.

Lemma random_read s p n r : random_at s p -> 0 <= n ->
  exists s', Random_ReadNBytes n r s = Done ((end_status f p n, file_range f p n), s') /\ random_at s' (end_pos f p n).
Proof using Hfile Hsmall.
  intros [<- Hp] Hn. destruct s as [p]. cbn [pos_] in *. exists (mkRandom (end_pos f p n)). unfold Random_ReadNBytes.
  destruct (Z.ltb_spec n 0); [lia|]. unfold bind at 1, get. cbn [pos_]. destruct (file_read_at p n Hp Hn) as (own & ->).
  rewrite end_status_ok, (bind_Done _ _ _ _ _ (range_advance p n Hp Hn)). split; [done|]. split; [done|]. unfold end_pos. lia.
Qed.

Lemma random_skip_loop fuel p n : 0 <= p <= zlen f -> 0 <= n -> n <= kMaxSkipSize * Z.of_nat fuel ->
  Random_skip_loop fuel n (mkRandom p) = Done (end_status f p n, mkRandom (end_pos f p n)).
Proof using Hfile Hsmall.
  revert p n. induction fuel as [|fuel IH]; intros p n Hp Hn Hf; cbn [Random_skip_loop]; destruct (Z.ltb_spec 0 n) as [Hn0|Hn0]; try lia.
  2:{ set (k := Z.min kMaxSkipSize n). assert (Hk : 0 < k <= n) by (unfold k, kMaxSkipSize; lia).
    unfold bind at 1, get. cbn [pos_]. destruct (file_read_at p k Hp ltac:(lia)) as (own & ->).
    rewrite end_status_ok, (bind_Done _ _ _ _ _ (range_advance p k Hp ltac:(lia))). rewrite range_len by lia.
    destruct (Z.ltb_spec (Z.min k (zlen f - p)) k) as [Hs|Hs].
    + unfold end_status, end_pos. destruct (Z.leb_spec (p + n) (zlen f)); [lia|]. unfold ret. do 3 f_equal. lia.
    + rewrite IH; unfold end_pos; [|lia|lia|].
      * rewrite !Z.min_l by lia. unfold end_status. replace (p + k + (n - k)) with (p + n) by lia. done.
      * assert (n - k = 0 \/ k = kMaxSkipSize) as [-> | ->] by (unfold k; lia); unfold kMaxSkipSize in *; lia. }
  all: assert (n = 0) as -> by lia; unfold ret, end_status, end_pos; destruct (Z.leb_spec (p + 0) (zlen f)); [|lia]; do 3 f_equal; lia.
Qed.

Lemma random_skip s p n : random_at s p -> 0 <= n -> p + n < 2 ^ 63 ->
  exists s', Random_SkipNBytes n s = Done (end_status f p n, s') /\ random_at s' (end_pos f p n).
Proof using Hfile Hsmall.
  intros [<- Hp] Hn Hb. destruct s as [p]. cbn [pos_] in *. exists (mkRandom (end_pos f p n)).
  split; [|split; [done|unfold end_pos; lia]]. unfold Random_SkipNBytes. destruct (Z.ltb_spec n 0); [lia|].
  assert (Hloop : Random_skip_loop (S (Z.to_nat (n / kMaxSkipSize))) n (mkRandom p) = Done (end_status f p n, mkRandom (end_pos f p n))).
  { apply random_skip_loop; [done|done|]. rewrite Nat2Z.inj_succ, Z2Nat.id by (by apply Z.div_pos).
    pose proof (Z.mul_succ_div_gt n kMaxSkipSize ltac:(done)). lia. }
  unfold Random_probe. destruct (Z.ltb_spec 0 n) as [Hn0|Hn0]; [|exact Hloop].
  unfold bind at 1, bind at 1, get. cbn [pos_]. unfold bind at 1, checked_i64. rewrite decide_True by (unfold in_i64; lia). unfold ret at 1.
  rewrite u64_small by (unfold in_u64; lia). destruct (Hfile (p + n - 1) 1) as (own & ->); [lia|lia|].
  destruct (Z.le_gt_cases (p + n) (zlen f)) as [Hle|Hgt].
  - rewrite range_len by lia. rewrite Z.min_l by lia. unfold ret at 1. cbn [ok orb andb]. rewrite Z.eqb_refl. cbn [ok orb andb].
    rewrite (bind_Done _ _ _ _ _ (advance_spec p n ltac:(lia) Hn Hb)). unfold end_status, end_pos, ret.
    destruct (Z.leb_spec (p + n) (zlen f)); [|lia]. do 3 f_equal. lia.
  - rewrite range_end by lia. change (zlen [] =? 1) with false. unfold ret at 1. rewrite andb_false_r. exact Hloop.
Qed.

Lemma random_skip_overflow s p n : random_at s p -> n < 2 ^ 63 -> 2 ^ 63 <= p + n -> Random_SkipNBytes n s = Crash.
Proof using Hsmall.
  intros [<- Hp] Hn Hb. unfold Random_SkipNBytes. destruct (Z.ltb_spec n 0); [lia|]. unfold Random_probe.
  destruct (Z.ltb_spec 0 n); [|lia]. unfold bind, get, checked_i64. by rewrite decide_False by (unfold in_i64; lia).
Qed.

#[global] Program Instance random_laws : StreamLaws RandomAccessInputStream f := { at_pos := random_at }.
Next Obligation. intros s p [_ Hp]. exact Hp. Qed.
Next Obligation. apply random_read. Qed.
Next Obligation. apply random_skip. Qed.
Next Obligation. apply random_skip_overflow. Qed.
Next Obligation. intros s p [Hp _]. exact Hp. Qed.
Next Obligation. intros s p [_ Hp]. exists (mkRandom 0). split; [done|]. split; [done|lia]. Qed.
Next Obligation.
  intros s n r Hn. cbn. unfold Random_ReadNBytes, Random_SkipNBytes. destruct (Z.ltb_spec n 0); [done|lia].
Qed.
End random.

(** ** Reading ahead *)
Section buffered.
Context {S : Type} `{InputStreamInterface S} f `{!StreamLaws S f}.

(** The underlying stream is at [q], and [buf_] holds the bytes before it. *)
Record buffered_inv (b : BufferedInputStream S) (p q : Z) : Prop := {
  bi_at : at_pos (f := f) (input_stream_ b) q;
  bi_pos : 0 <= bpos_ b <= limit_ b;
  bi_limit : limit_ b <= q;
  bi_buf : take (Z.to_nat (limit_ b)) (buf_ b) = file_range f (q - limit_ b) (limit_ b);
  bi_tell : p = q - (limit_ b - bpos_ b);
  bi_status : file_status_ b = StatusOK \/ file_status_ b = StatusError OUT_OF_RANGE /\ q = zlen f;
  bi_size : 0 < size_ b
}.

Definition buffered_at (b : BufferedInputStream S) (p : Z) : Prop := exists q, buffered_inv b p q.

Lemma buffered_range b p q : buffered_inv b p q -> 0 <= p <= q /\ q <= zlen f.
Proof using. intros [Ha Hp Hl _ -> _ _]. pose proof (at_range _ _ Ha). lia. Qed.

(** The next bytes are in the buffer. *)
Lemma buffered_slice b p q k : buffered_inv b p q -> 0 <= k <= limit_ b - bpos_ b ->
  slice (buf_ b) (bpos_ b) (bpos_ b + k) = file_range f p k.
Proof using.
  intros [Ha Hp Hl Hb -> _ _] Hk. pose proof (at_range _ _ Ha) as Hq.
  transitivity (file_range (take (Z.to_nat (limit_ b)) (buf_ b)) (bpos_ b) k).
  - unfold slice, file_range. rewrite skipn_firstn_comm, take_take. f_equal. lia.
  - rewrite Hb, range_range by lia. f_equal. lia.
Qed.

Lemma buffered_move b p q k : buffered_inv b p q -> 0 <= bpos_ b + k <= limit_ b ->
  buffered_inv (set_pos_limit (bpos_ b + k) (limit_ b) b) (p + k) q.
Proof using. intros [Ha Hp Hl Hb -> Hs Hz] Hk. split; try done. cbn. lia. Qed.

(** The buffer is dropped. *)
Lemma buffered_clear b p q p0 l0 : buffered_inv (set_pos_limit p0 l0 b) p q -> buffered_inv (set_pos_limit 0 0 b) q q.
Proof using. intros [Ha Hp Hl Hb -> Hs Hz]. split; try done; cbn in *; try lia. Qed.

Lemma FillBuffer_spec b p q : buffered_inv b p q -> bpos_ b = limit_ b ->
  exists s b' q', FillBuffer b = Done (s, b') /\ buffered_inv b' p q' /\ bpos_ b' = 0 /\ limit_ b' = q' - p /\
    (s = StatusOK \/ s = StatusError OUT_OF_RANGE /\ q' = zlen f) /\ (limit_ b' = 0 -> p = zlen f /\ s = StatusError OUT_OF_RANGE) /\
    (limit_ b' = 0 \/ buf_ b' = file_range f p (q' - p)).
Proof using.
  intros Hi He. pose proof Hi as [Ha Hp Hl Hb Ht Hs Hz]. pose proof (at_range _ _ Ha) as Hq. assert (p = q) as -> by lia. clear Ht.
  unfold FillBuffer, bind at 1, get. destruct Hs as [Hs|[Hs Hql]]; rewrite Hs; cbn [ok negb].
  - destruct (law_read _ q (size_ b) (buf_ b) Ha ltac:(lia)) as (i & E & Hi'). unfold bind at 1, on_input. rewrite E. cbn [fst snd].
    exists (end_status f q (size_ b)), (mkBuffered i (size_ b) (file_range f q (size_ b)) 0 (zlen (file_range f q (size_ b)))
      (end_status f q (size_ b))), (end_pos f q (size_ b)). split.
    { unfold bind, modify, end_status. destruct (_ <=? _); cbn; [by rewrite Hs|done]. }
    assert (Hlen : zlen (file_range f q (size_ b)) = end_pos f q (size_ b) - q) by (rewrite range_len by lia; unfold end_pos; lia).
    assert (Hinv : forall fs, fs = StatusOK \/ fs = StatusError OUT_OF_RANGE /\ end_pos f q (size_ b) = zlen f ->
      buffered_inv (mkBuffered i (size_ b) (file_range f q (size_ b)) 0 (zlen (file_range f q (size_ b))) fs) q (end_pos f q (size_ b))).
    { intros fs Hfs. split; try done; cbn; rewrite ?Hlen; unfold end_pos in *; try lia.
      rewrite take_ge by (unfold zlen in *; lia). replace (Z.min (q + size_ b) (zlen f) - (Z.min (q + size_ b) (zlen f) - q)) with q by lia.
      rewrite (range_clip f q (size_ b)) by lia. f_equal. lia. }
    assert (Hbuf : file_range f q (size_ b) = file_range f q (end_pos f q (size_ b) - q)).
    { rewrite (range_clip f q (size_ b)) by lia. f_equal. unfold end_pos. lia. }
    unfold end_status. destruct (Z.leb_spec (q + size_ b) (zlen f)) as [Hle|Hgt]; cbn [ok].
    + split_and!; [apply Hinv; by left|done|exact Hlen|by left| |by right]. cbn. rewrite Hlen. unfold end_pos. lia.
    + assert (Hq' : end_pos f q (size_ b) = zlen f) by (unfold end_pos; lia).
      split_and!; [apply Hinv; by right|done|exact Hlen|by right| |by right]. cbn. rewrite Hlen. unfold end_pos in *. intros. split; [lia|done].
  - eexists _, _, q. split; [done|]. split_and!; [|done|cbn; lia|by right|done|by left].
    apply (buffered_clear b q q (bpos_ b) (limit_ b)). by destruct b.
Qed.

(** The buffer has bytes, or the file is at its end: one round of a loop. *)
Lemma refill_spec b p q s0 : buffered_inv b p q -> (s0 = StatusOK \/ s0 = StatusError OUT_OF_RANGE) ->
  exists s b' q', (if bpos_ b =? limit_ b then FillBuffer else ret s0) b = Done (s, b') /\ buffered_inv b' p q' /\
    (s = StatusOK \/ s = StatusError OUT_OF_RANGE) /\
    (if (bpos_ b =? limit_ b) && (limit_ b' =? 0) then p = zlen f /\ q' = p /\ s = StatusError OUT_OF_RANGE else bpos_ b' < limit_ b').
Proof using.
  intros Hi Hs0. destruct (Z.eqb_spec (bpos_ b) (limit_ b)) as [He|Hne].
  - destruct (FillBuffer_spec b p q Hi He) as (s & b' & q' & E & Hi' & Hp' & Hl' & Hs & Hend & _). exists s, b', q'. split_and!; try done.
    + destruct Hs as [|[]]; auto.
    + cbn [andb]. destruct (Z.eqb_spec (limit_ b') 0) as [H0|H0]; [destruct (Hend H0); split_and!; lia || done|].
      pose proof (bi_pos _ _ _ Hi'). lia.
  - exists s0, b, q. split_and!; try done. cbn [andb]. pose proof (bi_pos _ _ _ Hi). lia.
Qed.

Lemma read_loop_spec fuel b p q n result s : buffered_inv b p q -> zlen result <= n -> n - zlen result <= Z.of_nat fuel ->
  (s = StatusOK \/ s = StatusError OUT_OF_RANGE) ->
  exists s' b', Buffered_read_loop fuel n result s b = Done ((s', result ++ file_range f p (n - zlen result)), b') /\
    buffered_at b' (end_pos f p (n - zlen result)) /\ (s' = StatusOK \/ s' = StatusError OUT_OF_RANGE) /\
    (zlen f < p + (n - zlen result) -> s' = StatusError OUT_OF_RANGE).
Proof using.
  revert b p q result s. induction fuel as [|fuel IH]; intros b p q result s Hi Hr Hf Hs; cbn [Buffered_read_loop];
    destruct (Z.ltb_spec (zlen result) n) as [Hlt|Hge]; try lia.
  2:{ unfold bind at 1, get. destruct (refill_spec b p q s Hi Hs) as (s1 & b1 & q1 & E & Hi1 & Hs1 & Hcase).
      rewrite (bind_Done _ _ _ _ _ E). unfold bind at 1. pose proof (buffered_range _ _ _ Hi1) as Hrange.
      destruct ((bpos_ b =? limit_ b) && (limit_ b1 =? 0)).
      - destruct Hcase as (Hp & Hq1 & ->). rewrite range_end by lia. rewrite app_nil_r. eexists _, _. split; [done|]. split_and!; [|by right|done].
        exists q1. unfold end_pos. rewrite Z.min_r by lia. destruct Hi1 as [Ha1 Hp1 Hl1 Hb1 Ht1 Hst1 Hz1]. split; try done; [cbn; lia|]. right. split; [done|lia].
      - set (k := Z.min (limit_ b1 - bpos_ b1) (n - zlen result)). assert (Hk : 0 < k <= n - zlen result) by (unfold k; lia).
        unfold bind at 1, modify. rewrite (buffered_slice b1 p q1 k Hi1) by (unfold k; pose proof (bi_pos _ _ _ Hi1); lia).
        pose proof (buffered_move b1 p q1 k Hi1 ltac:(unfold k; pose proof (bi_pos _ _ _ Hi1); lia)) as Hi2.
        assert (Hpk : p + k <= q1) by (rewrite (bi_tell _ _ _ Hi1); unfold k; lia).
        assert (Hlen : zlen (result ++ file_range f p k) = zlen result + k) by (rewrite zlen_app, range_len; lia).
        destruct (IH _ _ _ (result ++ file_range f p k) s1 Hi2) as (s' & b' & E' & Hat & Hs' & Hend); [lia|lia|done|].
        exists s', b'. rewrite E', Hlen, <-(assoc_L (++)), range_app by lia. replace (k + (n - (zlen result + k))) with (n - zlen result) by lia.
        rewrite Hlen in Hat, Hend. split_and!; try done; [|intros; apply Hend; lia]. unfold end_pos in *.
        by replace (p + (n - zlen result)) with (p + k + (n - (zlen result + k))) by lia. }
  all: assert (n - zlen result = 0) as -> by lia; rewrite range_0, app_nil_r; exists s, b; split_and!; try done;
    [|intros; pose proof (buffered_range _ _ _ Hi); lia]; exists q; unfold end_pos;
    pose proof (buffered_range _ _ _ Hi); rewrite Z.min_l by lia; by rewrite Z.add_0_r.
Qed.

Lemma buffered_read b p n r : buffered_at b p -> 0 <= n ->
  exists b', Buffered_ReadNBytes n r b = Done ((end_status f p n, file_range f p n), b') /\ buffered_at b' (end_pos f p n).
Proof using.
  intros [q Hi] Hn. pose proof (buffered_range _ _ _ Hi) as Hrange. unfold Buffered_ReadNBytes. destruct (Z.ltb_spec n 0); [lia|].
  unfold bind at 1, get. destruct ((bpos_ b =? limit_ b) && negb (ok (file_status_ b)) && (0 <? n)) eqn:Hc.
  - rewrite !andb_true_iff, Z.eqb_eq, Z.ltb_lt in Hc. destruct Hc as [[He Hok] Hn0]. pose proof Hi as [Ha Hp Hl Hb Ht Hs Hz].
    destruct Hs as [Hs|[Hs Hq]]; rewrite Hs in *; [done|]. exists b. unfold end_status, end_pos. destruct (Z.leb_spec (p + n) (zlen f)); [lia|].
    rewrite range_end by lia. split; [done|]. exists q. by rewrite Z.min_r by lia; replace (zlen f) with p by lia.
  - clear Hc. destruct (read_loop_spec (Datatypes.S (Z.to_nat n)) b p q n [] StatusOK Hi) as (s' & b' & E & Hat & Hs' & Hend);
      [done|change (zlen []) with 0; lia|by left|]. change (zlen []) with 0 in *. rewrite Z.sub_0_r in *. cbn [app] in E.
    rewrite (bind_Done _ _ _ _ _ E). cbn [fst snd]. exists b'. split; [|done]. rewrite range_len by lia. unfold end_status.
    destruct (Z.leb_spec (p + n) (zlen f)) as [Hle|Hgt].
    + rewrite Z.min_l, Z.eqb_refl, andb_true_r by lia. destruct Hs' as [-> | ->]; done.
    + rewrite (Hend Hgt). destruct (Z.eqb_spec (Z.min n (zlen f - p)) n); [lia|]. done.
Qed.

Lemma buffered_small b p : zlen f < 2 ^ 63 -> buffered_at b p -> 0 <= p <= zlen f /\ Buffered_Tell b = p.
Proof using.
  intros Hsmall [q Hi]. pose proof (buffered_range _ _ _ Hi) as Hr. pose proof Hi as [Ha Hp Hl Hb Ht Hs Hz]. split; [lia|].
  unfold Buffered_Tell. rewrite (law_tell _ _ Ha), <-Ht. rewrite u64_small, i64_small; [done|unfold in_i64; lia|unfold in_u64; lia].
Qed.

Lemma buffered_skip b p n : zlen f < 2 ^ 63 -> buffered_at b p -> 0 <= n -> p + n < 2 ^ 63 ->
  exists b', Buffered_SkipNBytes n b = Done (end_status f p n, b') /\ buffered_at b' (end_pos f p n).
Proof using.
  intros Hsmall [q Hi] Hn Hb. pose proof (buffered_range _ _ _ Hi) as Hr. pose proof Hi as [Ha Hp Hl Hbuf Ht Hs Hz].
  unfold Buffered_SkipNBytes. destruct (Z.ltb_spec n 0); [lia|]. unfold bind at 1, get. rewrite u64_small by (unfold in_u64; lia).
  destruct (Z.ltb_spec (bpos_ b + n) (limit_ b)) as [Hin|Hout].
  - eexists. split; [unfold end_status; destruct (Z.leb_spec (p + n) (zlen f)); [done|lia]|]. exists q. unfold end_pos. rewrite Z.min_l by lia.
    apply buffered_move; [done|lia].
  - set (k := n - (limit_ b - bpos_ b)). assert (Hk : 0 <= k /\ q + k = p + n) by (unfold k; lia).
    rewrite u64_small, i64_small by (unfold in_i64, in_u64; lia). destruct (law_skip _ q k Ha ltac:(lia) ltac:(lia)) as (i & E & Hi').
    unfold end_status, end_pos in *. rewrite (proj2 Hk) in *.
    unfold bind at 1, on_input. rewrite E. unfold bind at 1, modify. cbv beta.
    destruct (Z.leb_spec (p + n) (zlen f)) as [Hle|Hgt]; eexists; (split; [done|]).
    + exists (p + n). rewrite Z.min_l in * by lia. split; try done; cbn; try lia.
      destruct Hs as [|[Hs Hq]]; [by left|right]. split; [done|]. lia.
    + exists (zlen f). rewrite Z.min_r in * by lia. split; try done; cbn; try lia. by right.
Qed.

Lemma buffered_skip_overflow b p n : zlen f < 2 ^ 63 -> buffered_at b p -> n < 2 ^ 63 -> 2 ^ 63 <= p + n -> Buffered_SkipNBytes n b = Crash.
Proof using.
  intros Hsmall [q Hi] Hn Hb. pose proof (buffered_range _ _ _ Hi) as Hr. pose proof Hi as [Ha Hp Hl Hbuf Ht Hs Hz].
  unfold Buffered_SkipNBytes. destruct (Z.ltb_spec n 0); [lia|]. unfold bind at 1, get. rewrite u64_small by (unfold in_u64; lia).
  destruct (Z.ltb_spec (bpos_ b + n) (limit_ b)); [lia|]. rewrite u64_small, i64_small by (unfold in_i64, in_u64; lia).
  unfold bind at 1, on_input. by rewrite (law_skip_overflow _ q _ Ha) by lia.
Qed.

Lemma buffered_reset b p : buffered_at b p -> exists b', Buffered_Reset b = Done (StatusOK, b') /\ buffered_at b' 0.
Proof using.
  intros [q Hi]. pose proof Hi as [Ha Hp Hl Hbuf Ht Hs Hz]. destruct (law_reset _ q Ha) as (i & E & Hi').
  eexists. split; [unfold Buffered_Reset, bind, on_input; rewrite E; done|]. exists 0. split; try done. by left.
Qed.

#[global] Program Instance buffered_laws (Hsmall : zlen f < 2 ^ 63) : StreamLaws (BufferedInputStream S) f := { at_pos := buffered_at }.
Next Obligation. intros Hsmall b p Hb. by apply (buffered_small b p). Qed.
Next Obligation. intros Hsmall. apply buffered_read. Qed.
Next Obligation. intros Hsmall b p n. by apply buffered_skip. Qed.
Next Obligation. intros Hsmall b p n. by apply buffered_skip_overflow. Qed.
Next Obligation. intros Hsmall b p Hb. by apply (buffered_small b p). Qed.
Next Obligation. intros Hsmall. apply buffered_reset. Qed.
Next Obligation.
  intros Hsmall s n r Hn. cbn. unfold Buffered_ReadNBytes, Buffered_SkipNBytes. destruct (Z.ltb_spec n 0); [done|lia].
Qed.

Lemma buffered_new i n : at_pos (f := f) i 0 -> 0 < n -> buffered_at (Buffered_new i n) 0.
Proof using. intros Hi Hn. exists 0. split; try done. by left. Qed.

(** [Seek] moves to any position of the file. *)
Lemma buffered_seek b p position : zlen f < 2 ^ 63 -> buffered_at b p -> 0 <= position < 2 ^ 63 ->
  exists b', Buffered_Seek position b = Done (end_status f position 0, b') /\ buffered_at b' (end_pos f position 0).
Proof using.
  intros Hsmall [q Hi] Hpos. pose proof (buffered_range _ _ _ Hi) as Hr. pose proof Hi as [Ha Hp Hl Hbuf Ht Hs Hz].
  destruct (buffered_small b p Hsmall (ex_intro _ q Hi)) as [_ Htell].
  unfold Buffered_Seek. destruct (Z.ltb_spec position 0); [lia|]. unfold bind at 1, get.
  rewrite Htell, (law_tell _ _ Ha), u64_small, i64_small by (unfold in_i64, in_u64; lia).
  destruct (Z.ltb_spec position (q - limit_ b)) as [Hlow|Hlow].
  - destruct (buffered_reset b p (ex_intro _ q Hi)) as (b1 & E1 & Hb1). rewrite (bind_Done _ _ _ _ _ E1). cbn [ok].
    destruct (buffered_skip b1 0 position Hsmall Hb1 ltac:(lia) ltac:(lia)) as (b2 & E2 & Hb2). exists b2. rewrite E2.
    unfold end_status, end_pos in *. by rewrite Z.add_0_r, Z.add_0_l in *.
  - destruct (Z.ltb_spec position p) as [Hin|Hout].
    + eexists. split; [unfold end_status; destruct (Z.leb_spec (position + 0) (zlen f)); [done|lia]|]. exists q.
      rewrite u64_small by (unfold in_u64; lia). unfold end_pos. rewrite Z.min_l by lia.
      replace (bpos_ b - (p - position)) with (bpos_ b + (position - p)) by lia.
      replace (position + 0) with (p + (position - p)) by lia. apply buffered_move; [done|lia].
    + destruct (buffered_skip b p (position - p) Hsmall (ex_intro _ q Hi) ltac:(lia) ltac:(lia)) as (b2 & E2 & Hb2). exists b2. rewrite E2.
      unfold end_status, end_pos in *. by replace (position + 0) with (p + (position - p)) by lia.
Qed.

(** ** Lines *)

(** The text before the next newline, and whether there is one. *)
Fixpoint line_of (d : bytes) : bytes * bool :=
  match d with
  | [] => ([], false)
  | c :: d => if c =? 10 then ([], true) else (c :: fst (line_of d), snd (line_of d))
  end.

Definition no_cr (l : bytes) : bytes := filter (fun c => c <> 13) l.

Lemma slice_snoc d a b c : 0 <= a <= b -> d !! Z.to_nat b = Some c -> slice d a b ++ [c] = slice d a (b + 1).
Proof using.
  intros Hab Hc. unfold slice. replace (Z.to_nat (b + 1 - a)) with (Datatypes.S (Z.to_nat (b - a))) by lia.
  symmetry. apply take_S_r. rewrite lookup_drop. replace (Z.to_nat a + Z.to_nat (b - a))%nat with (Z.to_nat b) by lia. done.
Qed.

Lemma slice_empty d a : slice d a a = [].
Proof using. unfold slice. by rewrite Z.sub_diag. Qed.

(** The next character is in the buffer. *)
Lemma buffered_char b p q : buffered_inv b p q -> bpos_ b < limit_ b ->
  exists c, buf_ b !! Z.to_nat (bpos_ b) = Some c /\ drop (Z.to_nat p) f = c :: drop (Z.to_nat (p + 1)) f.
Proof using.
  intros Hi Hlt. pose proof (buffered_range _ _ _ Hi) as Hr. pose proof (bi_pos _ _ _ Hi) as Hp. pose proof (bi_tell _ _ _ Hi) as Ht.
  pose proof (buffered_slice b p q 1 Hi ltac:(lia)) as Hsl. unfold file_range, slice in Hsl.
  replace (bpos_ b + 1 - bpos_ b) with 1 in Hsl by lia. change (Z.to_nat 1) with 1%nat in Hsl.
  assert (Hlen : (Z.to_nat p < length f)%nat) by (unfold zlen in Hr; lia). apply lookup_lt_is_Some in Hlen as [c Hc].
  pose proof (drop_S _ _ _ Hc) as Hd. rewrite Hd in Hsl. cbn [take] in Hsl. exists c. split.
  - destruct (drop (Z.to_nat (bpos_ b)) (buf_ b)) as [|x l] eqn:Hx; [done|]. injection Hsl as ->.
    rewrite <-(Nat.add_0_r (Z.to_nat (bpos_ b))), <-lookup_drop, Hx. done.
  - rewrite Hd. do 2 f_equal. lia.
Qed.

Lemma ReadLine_loop_spec fuel eol b p q start result : buffered_inv b p q -> 0 <= start <= bpos_ b ->
  let '(l, e) := line_of (drop (Z.to_nat p) f) in
  let text := result ++ slice (buf_ b) start (bpos_ b) ++ no_cr l in
  (length l < fuel)%nat ->
  exists b', ReadLine_loop fuel eol start result b =
    Done (if e then (StatusOK, text ++ (if eol then [10] else [])) else (if decide (text = []) then StatusError OUT_OF_RANGE else StatusOK, text), b') /\
    buffered_at b' (p + zlen l + if e then 1 else 0).
Proof using.
  revert b p q start result. induction fuel as [|fuel IH]; intros b p q start result Hi Hst; destruct (line_of _) as [l e] eqn:Hl; intros text Hfuel; [lia|].
  cbn [ReadLine_loop]. unfold bind at 1, get. destruct (refill_spec b p q StatusOK Hi ltac:(by left)) as (s1 & b1 & q1 & E & Hi1 & Hs1 & Hcase).
  rewrite (bind_Done _ _ _ _ _ E). unfold bind at 1. set (refill := bpos_ b =? limit_ b) in *.
  set (result1 := if refill then result ++ slice (buf_ b) start (bpos_ b) else result).
  pose proof (buffered_range _ _ _ Hi1) as Hr1. destruct (refill && (limit_ b1 =? 0)) eqn:Hend.
  - destruct Hcase as (Hp & Hq1 & ->). apply andb_true_iff in Hend as [Href _]. unfold result1. rewrite Href.
    rewrite drop_ge in Hl by (unfold zlen in Hp; lia). injection Hl as <- <-. exists b1. unfold text. cbn [no_cr]. change (no_cr []) with (@nil Z).
    rewrite app_nil_r. split; [|exists q1; change (zlen []) with 0; by replace (p + 0 + 0) with p by lia].
    cbn [IsOutOfRange]. change (IsOutOfRange (StatusError OUT_OF_RANGE)) with true. cbn [andb].
    destruct (decide (result ++ slice (buf_ b) start (bpos_ b) = [])) as [->|Hne]; [done|]. by rewrite bool_decide_eq_false_2.
  - set (start1 := if refill then bpos_ b1 else start).
    assert (Htext : result1 ++ slice (buf_ b1) start1 (bpos_ b1) = result ++ slice (buf_ b) start (bpos_ b) /\ 0 <= start1 <= bpos_ b1).
    { unfold result1, start1. destruct refill; [rewrite slice_empty, app_nil_r; pose proof (bi_pos _ _ _ Hi1); by split; [|lia]|].
      injection E as <- <-. by split. }
    destruct Htext as [Htext Hst1]. destruct (buffered_char b1 p q1 Hi1 Hcase) as (c & Hc & Hd). rewrite Hc. unfold bind at 1, modify.
    pose proof (buffered_move b1 p q1 1 Hi1 ltac:(pose proof (bi_pos _ _ _ Hi1); lia)) as Hi2. set (b2 := set_pos_limit (bpos_ b1 + 1) (limit_ b1) b1) in *.
    rewrite Hd in Hl. cbn [line_of] in Hl. destruct (Z.eqb_spec c 10) as [Hc10|Hc10].
    + injection Hl as <- <-. exists b2. unfold text. change (no_cr []) with (@nil Z). rewrite app_nil_r.
      split; [|exists q1; change (zlen []) with 0; by replace (p + 0 + 1) with (p + 1) by lia]. unfold ret. do 3 f_equal.
      by rewrite Hc10, (assoc_L (++)), Htext.
    + destruct (line_of (drop (Z.to_nat (p + 1)) f)) as [l2 e2] eqn:Hl2. cbn [fst snd] in Hl. injection Hl as <- <-.
      assert (Hz : p + zlen (c :: l2) = p + 1 + zlen l2) by (unfold zlen; simpl; lia). rewrite Hz.
      destruct (Z.eqb_spec c 13) as [->|Hc13].
      * pose proof (IH b2 (p + 1) q1 (bpos_ b1 + 1) (result1 ++ slice (buf_ b1) start1 (bpos_ b1)) Hi2 ltac:(cbn; pose proof (bi_pos _ _ _ Hi1); lia)) as IH'.
        rewrite Hl2 in IH'. destruct (IH' ltac:(simpl in Hfuel; lia)) as (b' & E' & Hat). exists b'. rewrite E'. split; [|done].
        change (bpos_ b2) with (bpos_ b1 + 1). rewrite slice_empty, Htext. cbn [app]. unfold text, no_cr. rewrite filter_cons_False by naive_solver.
        by rewrite <-!(assoc_L (++)).
      * pose proof (IH b2 (p + 1) q1 start1 result1 Hi2 ltac:(cbn; lia)) as IH'. rewrite Hl2 in IH'.
        destruct (IH' ltac:(simpl in Hfuel; lia)) as (b' & E' & Hat). exists b'. rewrite E'. split; [|done].
        change (bpos_ b2) with (bpos_ b1 + 1). change (buf_ b2) with (buf_ b1). rewrite <-(slice_snoc _ _ _ c) by (lia || done).
        assert (Ht2 : result1 ++ (slice (buf_ b1) start1 (bpos_ b1) ++ [c]) ++ no_cr l2 = text).
        { unfold text, no_cr. rewrite filter_cons_True by done. rewrite !(assoc_L (++)), Htext. by rewrite <-!(assoc_L (++)). }
        by rewrite Ht2.
Qed.

Lemma SkipLine_loop_spec fuel b p q skipped : buffered_inv b p q ->
  let '(l, e) := line_of (drop (Z.to_nat p) f) in
  (length l < fuel)%nat ->
  exists b', SkipLine_loop fuel skipped b =
    Done (if e || skipped || negb (bool_decide (l = [])) then StatusOK else StatusError OUT_OF_RANGE, b') /\
    buffered_at b' (p + zlen l + if e then 1 else 0).
Proof using.
  revert b p q skipped. induction fuel as [|fuel IH]; intros b p q skipped Hi; destruct (line_of _) as [l e] eqn:Hl; intros Hfuel; [lia|].
  cbn [SkipLine_loop]. unfold bind at 1, get. destruct (refill_spec b p q StatusOK Hi ltac:(by left)) as (s1 & b1 & q1 & E & Hi1 & Hs1 & Hcase).
  rewrite (bind_Done _ _ _ _ _ E). unfold bind at 1. destruct ((bpos_ b =? limit_ b) && (limit_ b1 =? 0)) eqn:Hend.
  - destruct Hcase as (Hp & Hq1 & ->). rewrite drop_ge in Hl by (unfold zlen in Hp; lia). injection Hl as <- <-. exists b1.
    split; [by destruct skipped|]. exists q1. change (zlen []) with 0. by replace (p + 0 + 0) with p by lia.
  - destruct (buffered_char b1 p q1 Hi1 Hcase) as (c & Hc & Hd). rewrite Hc. unfold bind at 1, modify.
    pose proof (buffered_move b1 p q1 1 Hi1 ltac:(pose proof (bi_pos _ _ _ Hi1); lia)) as Hi2.
    rewrite Hd in Hl. cbn [line_of] in Hl. destruct (Z.eqb_spec c 10) as [Hc10|Hc10].
    + injection Hl as <- <-. eexists. split; [done|]. exists q1. change (zlen []) with 0. by replace (p + 0 + 1) with (p + 1) by lia.
    + destruct (line_of (drop (Z.to_nat (p + 1)) f)) as [l2 e2] eqn:Hl2. cbn [fst snd] in Hl. injection Hl as <- <-.
      pose proof (IH _ (p + 1) q1 true Hi2) as IH'. rewrite Hl2 in IH'. destruct (IH' ltac:(simpl in Hfuel; lia)) as (b' & E' & Hat).
      exists b'. rewrite E'. rewrite orb_true_r. cbn [orb negb]. rewrite bool_decide_eq_false_2 by done. rewrite orb_true_r. split; [done|].
      by replace (p + zlen (c :: l2)) with (p + 1 + zlen l2) by (unfold zlen; simpl; lia).
Qed.

(** ** The whole file *)
Lemma ReadAll_loop_spec fuel b q result : buffered_inv b q q -> bpos_ b = limit_ b -> zlen f - q < Z.of_nat fuel ->
  exists b', ReadAll_loop fuel result StatusOK b = Done ((StatusError OUT_OF_RANGE, result ++ file_range f q (zlen f - q)), b') /\ buffered_at b' (zlen f).
Proof using.
  revert b q result. induction fuel as [|fuel IH]; intros b q result Hi He Hf; [pose proof (buffered_range _ _ _ Hi); lia|].
  cbn [ReadAll_loop ok]. destruct (FillBuffer_spec b q q Hi He) as (s & b1 & q1 & E & Hi1 & Hp1 & Hl1 & Hs & Hend & Hbuf).
  rewrite (bind_Done _ _ _ _ _ E). unfold bind at 1, get. destruct (Z.eqb_spec (limit_ b1) 0) as [H0|H0].
  - destruct (Hend H0) as [-> ->]. exists b1. rewrite Z.sub_diag, range_0, app_nil_r. split; [done|]. by exists q1.
  - unfold bind at 1, modify. pose proof (buffered_range _ _ _ Hi) as Hr0. pose proof (buffered_range _ _ _ Hi1) as Hr1.
    destruct Hbuf as [|Hbuf]; [done|]. pose proof (buffered_move b1 q q1 (limit_ b1) Hi1 ltac:(lia)) as Hi2. rewrite Hp1, Z.add_0_l in Hi2.
    replace (q + limit_ b1) with q1 in Hi2 by lia. rewrite Hbuf. destruct Hs as [-> | [-> Hq1]].
    + destruct (IH _ q1 (result ++ file_range f q (q1 - q)) Hi2 eq_refl) as (b' & E' & Hat).
      { pose proof (bi_pos _ _ _ Hi1). lia. }
      exists b'. rewrite E', <-(assoc_L (++)). split; [|done].
      pose proof (range_app f q (q1 - q) (zlen f - q1) ltac:(lia) ltac:(lia) ltac:(lia)) as Happ.
      replace (q + (q1 - q)) with q1 in Happ by lia. rewrite Happ. by replace (q1 - q + (zlen f - q1)) with (zlen f - q) by lia.
    + subst q1. eexists. split; [by destruct fuel|]. by exists (zlen f).
Qed.

(** [ReadAll] with nothing buffered reads what is left. *)
Lemma ReadAll_spec fuel b q : buffered_inv b q q -> bpos_ b = limit_ b -> zlen f - q < Z.of_nat fuel ->
  exists b', ReadAll fuel b = Done ((StatusOK, file_range f q (zlen f - q)), b') /\ buffered_at b' (zlen f).
Proof using.
  intros Hi He Hf. destruct (ReadAll_loop_spec fuel b q [] Hi He Hf) as (b' & E & q' & Hi'). unfold ReadAll.
  rewrite (bind_Done _ _ _ _ _ E). cbn [fst snd app]. change (IsOutOfRange (StatusError OUT_OF_RANGE)) with true. eexists. split; [done|].
  exists q'. pose proof (buffered_range _ _ _ Hi'). destruct Hi' as [Ha Hp Hl Hb Ht Hs Hz]. split; try done. right. split; [done|lia].
Qed.
End buffered.
