(* ===== verification/Record.v ===== *)
(** * Record files (src/tensorflow/core/lib/io/record_writer.h and .cc,
    record_reader.h and .cc)

    A record file is a sequence of records, each a length with its masked
    checksum and data with its masked checksum.  Files and streams enter through
    their interfaces.  Compression is not modelled: the options are those of
    [NONE].  A method that fills [*record] or [*offset] takes the old and returns
    the new contents. *)
From S2P Require Import Prelude Coding Block Crc32c TableFormat TableBuilder InputStream.
From stdpp Require Import options.
#[local] Open Scope tf_monad_scope.

Definition kHeaderSize : Z := 8 + 4.
Definition kFooterSize : Z := 4.

(** ** The writer *)

(** [WritableFile::Flush]. *)
Class FlushableFile (F : Type) := { file_flush : F -> Status * F }.

Definition MaskedCrc (data : bytes) : Z := Mask (crc32c_Value data).

Definition PopulateHeader (n : Z) : bytes := EncodeFixed64 n ++ EncodeFixed32 (MaskedCrc (EncodeFixed64 n)).

Definition PopulateFooter (data : bytes) : bytes := EncodeFixed32 (MaskedCrc data).

Section RecordWriter.
Context {F : Type} `{WritableFile F} `{FlushableFile F}.

Record RecordWriter := mkWriter { dest_ : option F }.

Definition RecordWriter_new (dest : F) : RecordWriter := mkWriter (Some dest).

(** [dest_->Append(data)]. *)
Definition append (data : bytes) : M RecordWriter Status := fun w =>
  match dest_ w with
  | None => Crash
  | Some f => let '(s, f) := file_append f data in Done (s, mkWriter (Some f))
  end.

Definition WriteRecord (data : bytes) : M RecordWriter Status :=
  w <~ get;;
  match dest_ w with
  | None => ret (StatusError FAILED_PRECONDITION)
  | Some _ =>
      s <~ append (PopulateHeader (zlen data));;
      if negb (ok s) then ret s
      else
        s <~ append data;;
        if negb (ok s) then ret s else append (PopulateFooter data)
  end.

(** Without compression [Close] does nothing. *)
Definition Close : M RecordWriter Status :=
  w <~ get;;
  match dest_ w with None => ret StatusOK | Some _ => ret StatusOK end.

Definition Flush : M RecordWriter Status := fun w =>
  match dest_ w with
  | None => Done (StatusError FAILED_PRECONDITION, w)
  | Some f => let '(s, f) := file_flush f in Done (s, mkWriter (Some f))
  end.
End RecordWriter.

Arguments RecordWriter : clear implicits.

(** ** The reader *)
Record Stats := mkStats { file_size : Z; data_size : Z; entries : Z }.

Section RecordReader.
Context {S : Type} `{InputStreamInterface S}.

Record RecordReader := mkReader {
  input_stream : S;
  last_read_failed_ : bool;
  cached_metadata_ : option Stats
}.

Definition set_failed (b : bool) (r : RecordReader) : RecordReader := mkReader (input_stream r) b (cached_metadata_ r).

Definition on_stream {A} (m : M S A) : M RecordReader A := fun r =>
  match m (input_stream r) with
  | Done (a, i) => Done (a, mkReader i (last_read_failed_ r) (cached_metadata_ r))
  | Crash => Crash
  | OutOfFuel => OutOfFuel
  end.

(** The offset is only used in messages. *)
Definition ReadChecksummed (n : Z) (result : bytes) : M RecordReader (Status * bytes) :=
  if n >=? 2 ^ 64 - 1 - 4 then ret (StatusError DATA_LOSS, result)
  else
    let expected := n + 4 in
    r <~ on_stream (ReadNBytes (i64 expected) result);;
    let '(s, result) := r in
    if negb (ok s) then ret (s, result)
    else if negb (zlen result =? expected) then
      ret (StatusError (if bool_decide (result = []) then OUT_OF_RANGE else DATA_LOSS), result)
    else
      match DecodeFixed32 (drop (Z.to_nat n) result) with
      | None => crash
      | Some masked_crc =>
          if negb (Unmask masked_crc =? crc32c_Value (take (Z.to_nat n) result)) then ret (StatusError DATA_LOSS, result)
          else ret (StatusOK, take (Z.to_nat n) result)
      end.

(** The loop of [GetMetadata] with its counters; [None] is an error, whose
    status is returned.  The fuel is the number of records. *)
Fixpoint metadata_loop (fuel : nat) (record : bytes) (data_size entries : Z) : M RecordReader (Status * (Z * Z)) :=
  match fuel with
  | O => out_of_fuel
  | Datatypes.S fuel =>
      r <~ ReadChecksummed 8 record;;
      let '(s, record) := r in
      if negb (ok s) then ret (if IsOutOfRange s then StatusOK else s, (data_size, entries))
      else
        match DecodeFixed64 record with
        | None => crash
        | Some length =>
            s <~ on_stream (SkipNBytes (i64 (u64 (length + kFooterSize))));;
            if negb (ok s) then ret (s, (data_size, entries))
            else metadata_loop fuel record (i64 (data_size + length)) (i64 (entries + 1))
        end
  end.

(** [None] is a null pointer. *)
Definition GetMetadata (fuel : nat) (md : option Stats) : M RecordReader (Status * option Stats) :=
  match md with
  | None => ret (StatusError INVALID_ARGUMENT, None)
  | Some md =>
      r <~ get;;
      match cached_metadata_ r with
      | Some stats => ret (StatusOK, Some stats)
      | None =>
          s <~ on_stream Reset;;
          if negb (ok s) then ret (s, Some md)
          else
            m <~ metadata_loop fuel [] 0 0;;
            let '(s, (data_size, entries)) := m in
            if negb (ok s) then ret (s, Some md)
            else
              let stats := mkStats (i64 (u64 (data_size + u64 ((kHeaderSize + kFooterSize) * entries)))) data_size entries in
              modify (fun r => mkReader (input_stream r) (last_read_failed_ r) (Some stats));;;
              ret (StatusOK, Some stats)
      end
  end.

Definition PositionInputStream (offset : Z) : M RecordReader Status :=
  r <~ get;;
  let curr_pos := Tell (input_stream r) in
  let desired_pos := i64 offset in
  if (desired_pos <? curr_pos) || (curr_pos <? 0) || ((curr_pos =? desired_pos) && last_read_failed_ r) then
    modify (set_failed false);;;
    s <~ on_stream Reset;;
    if negb (ok s) then ret s else on_stream (SkipNBytes desired_pos)
  else if curr_pos <? desired_pos then on_stream (SkipNBytes (desired_pos - curr_pos))
  else ret StatusOK.

(** A read that failed. *)
Definition fail_read {A} (a : A) : M RecordReader A := modify (set_failed true);;; ret a.

Definition truncated (s : Status) : Status := if IsOutOfRange s then StatusError DATA_LOSS else s.

Definition ReadRecord (offset : Z) (record : bytes) : M RecordReader (Status * Z * bytes) :=
  s <~ PositionInputStream offset;;
  if negb (ok s) then ret (s, offset, record)
  else
    r <~ ReadChecksummed 8 record;;
    let '(s, record) := r in
    if negb (ok s) then fail_read (s, offset, record)
    else
      match DecodeFixed64 record with
      | None => crash
      | Some length =>
          r <~ ReadChecksummed length record;;
          let '(s, record) := r in
          if negb (ok s) then fail_read (truncated s, offset, record)
          else ret (StatusOK, u64 (offset + (kHeaderSize + length + kFooterSize)), record)
      end.

Fixpoint skip_records (n : nat) (offset num_skipped : Z) (record : bytes) : M RecordReader (Status * Z * Z) :=
  match n with
  | O => ret (StatusOK, offset, num_skipped)
  | Datatypes.S n =>
      r <~ ReadChecksummed 8 record;;
      let '(s, record) := r in
      if negb (ok s) then fail_read (s, offset, num_skipped)
      else
        match DecodeFixed64 record with
        | None => crash
        | Some length =>
            s <~ on_stream (SkipNBytes (i64 (u64 (length + kFooterSize))));;
            if negb (ok s) then fail_read (truncated s, offset, num_skipped)
            else skip_records n (u64 (offset + (kHeaderSize + length + kFooterSize))) (num_skipped + 1) record
        end
  end.

(** [num_skipped] is left as it is when the stream cannot be positioned. *)
Definition SkipRecords (offset num_to_skip num_skipped : Z) : M RecordReader (Status * Z * Z) :=
  s <~ PositionInputStream offset;;
  if negb (ok s) then ret (s, offset, num_skipped)
  else skip_records (Z.to_nat num_to_skip) offset 0 [].

(** ** The sequential reader *)
Record SequentialRecordReader := mkSequential { underlying_ : RecordReader; seq_offset_ : Z }.

Definition on_underlying {A} (m : Z -> M RecordReader (A * Z)) : M SequentialRecordReader A := fun q =>
  match m (seq_offset_ q) (underlying_ q) with
  | Done ((a, offset), u) => Done (a, mkSequential u offset)
  | Crash => Crash
  | OutOfFuel => OutOfFuel
  end.

Definition Sequential_ReadRecord (record : bytes) : M SequentialRecordReader (Status * bytes) :=
  on_underlying (fun offset => r <~ ReadRecord offset record;; let '(s, offset, record) := r in ret ((s, record), offset)).

Definition Sequential_SkipRecords (num_to_skip num_skipped : Z) : M SequentialRecordReader (Status * Z) :=
  on_underlying (fun offset => r <~ SkipRecords offset num_to_skip num_skipped;; let '(s, offset, n) := r in ret ((s, n), offset)).

Definition TellOffset (q : SequentialRecordReader) : Z := seq_offset_ q.

Definition SeekOffset (offset : Z) : M SequentialRecordReader Status :=
  q <~ get;;
  if offset <? seq_offset_ q then ret (StatusError INVALID_ARGUMENT)
  else modify (fun q => mkSequential (underlying_ q) offset);;; ret StatusOK.
End RecordReader.

Arguments RecordReader : clear implicits.
Arguments SequentialRecordReader : clear implicits.

(** ** The streams of a reader without compression *)
Inductive Stream := Plain (s : RandomAccessInputStream) | Buffer (b : BufferedInputStream RandomAccessInputStream).

(** Calls through the pointer to the interface. *)
Definition dispatch `{RandomAccessFile} {A} (m : M RandomAccessInputStream A) (mb : M (BufferedInputStream RandomAccessInputStream) A) : M Stream A := fun s =>
  match s with
  | Plain s => match m s with Done (a, s) => Done (a, Plain s) | Crash => Crash | OutOfFuel => OutOfFuel end
  | Buffer b => match mb b with Done (a, b) => Done (a, Buffer b) | Crash => Crash | OutOfFuel => OutOfFuel end
  end.

#[export] Instance Stream_interface `{RandomAccessFile} : InputStreamInterface Stream := {
  ReadNBytes n r := dispatch (ReadNBytes n r) (ReadNBytes n r);
  SkipNBytes n := dispatch (SkipNBytes n) (SkipNBytes n);
  Tell s := match s with Plain s => Tell s | Buffer b => Tell b end;
  Reset := dispatch Reset Reset
}.

Definition RecordReader_new `{RandomAccessFile} (buffer_size : Z) : RecordReader Stream :=
  mkReader (if 0 <? buffer_size then Buffer (Buffered_new Random_new buffer_size) else Plain Random_new) false None.

Definition SequentialRecordReader_new `{RandomAccessFile} (buffer_size : Z) : SequentialRecordReader Stream :=
  mkSequential (RecordReader_new buffer_size) 0.
