(* ===== verification/RecordProofs.v ===== *)
(** * Record files: what the reader does on any file

    [record_at f off data]: the bytes at [off] are the encoding of [data].  The
    lemmas are proved against [StreamLaws], for any stream over the file. *)
From S2P Require Import Prelude Coding Block Crc32c TableFormat TableBuilder InputStream Record.
From stdpp Require Import list options.
#[local] Open Scope Z_scope.
#[local] Open Scope tf_monad_scope.

Implicit Types (f d data : bytes).

(** ** Encoded integers and checksums *)
Lemma lor_high a b k : 0 <= k -> 0 <= a < 2 ^ k -> Z.lor a (b * 2 ^ k) = a + b * 2 ^ k.
Proof. intros Hk Ha. rewrite <-(lor_shiftl_add a b k) by done. by rewrite Z.shiftl_mul_pow2. Qed.

(** Rotating left by [k] and right by [32 - k]. *)
Lemma rotate r k : in_u32 r -> 0 < k < 32 ->
  Z.lor (Z.shiftr r (32 - k)) (u32 (Z.shiftl r k)) = r / 2 ^ (32 - k) + r mod 2 ^ (32 - k) * 2 ^ k.
Proof.
  intros Hr Hk. rewrite Z.shiftr_div_pow2, Z.shiftl_mul_pow2 by lia. assert (Hp : 2 ^ 32 = 2 ^ (32 - k) * 2 ^ k) by (rewrite <-Z.pow_add_r by lia; f_equal; lia).
  assert (H1 : 0 < 2 ^ (32 - k)) by lia. assert (H2 : 0 < 2 ^ k) by lia. unfold u32, uwrap. rewrite Hp, Z.mul_mod_distr_r by lia.
  unfold in_u32 in Hr. apply lor_high; [lia|]. split; [apply Z.div_pos; lia|]. apply Z.div_lt_upper_bound; lia.
Qed.

Lemma Mask_Unmask m : in_u32 m -> Mask (Unmask m) = m.
Proof.
  intros Hm. unfold Unmask. set (r := u32 (m - kMaskDelta)). assert (Hr : in_u32 r) by (apply uwrap_range; lia).
  pose proof (rotate r 15 Hr ltac:(lia)) as E1. change (32 - 15) with 17 in E1. rewrite E1. set (c := r / 2 ^ 17 + r mod 2 ^ 17 * 2 ^ 15).
  pose proof (Z.div_mod r (2 ^ 17) ltac:(lia)) as Hdm. pose proof (Z.mod_pos_bound r (2 ^ 17) ltac:(lia)) as Hmod.
  assert (Hdiv : 0 <= r / 2 ^ 17 < 2 ^ 15) by (unfold in_u32 in Hr; split; [apply Z.div_pos; lia|apply Z.div_lt_upper_bound; lia]).
  assert (Hc : in_u32 c) by (unfold in_u32, c; lia). unfold Mask. pose proof (rotate c 17 Hc ltac:(lia)) as E2. change (32 - 17) with 15 in E2. rewrite E2.
  assert (c / 2 ^ 15 = r mod 2 ^ 17) as -> by (symmetry; apply (Z.div_unique_pos c _ _ (r / 2 ^ 17)); unfold c; lia).
  assert (c mod 2 ^ 15 = r / 2 ^ 17) as -> by (symmetry; apply (Z.mod_unique_pos c _ (r mod 2 ^ 17)); unfold c; lia).
  replace (r mod 2 ^ 17 + r / 2 ^ 17 * 2 ^ 17) with r by lia. unfold r, u32, uwrap. rewrite Zplus_mod_idemp_l.
  replace (m - kMaskDelta + kMaskDelta) with m by lia. by apply Z.mod_small.
Qed.

Lemma fixed32_encode_decode w : length w = 4%nat -> Forall is_byte w -> exists m, in_u32 m /\ DecodeFixed32 w = Some m /\ EncodeFixed32 m = w.
Proof.
  intros Hl Hb. destruct w as [|b0 [|b1 [|b2 [|b3 [|]]]]]; try done. rewrite !Forall_cons in Hb. destruct Hb as (H0 & H1 & H2 & H3 & _).
  cbn [DecodeFixed32]. rewrite fixed32_arith by done. unfold is_byte in *. eexists. split; [|split; [done|]]; [unfold in_u32; lia|].
  unfold EncodeFixed32. rewrite !land_255, !Z.shiftr_div_pow2 by lia. set (m := _ + _).
  assert (E1 : m / 2 ^ 8 = b1 + b2 * 2 ^ 8 + b3 * 2 ^ 16) by (symmetry; apply (Z.div_unique_pos m _ _ b0); unfold m; lia).
  assert (E2 : m / 2 ^ 16 = b2 + b3 * 2 ^ 8) by (symmetry; apply (Z.div_unique_pos m _ _ (b0 + b1 * 2 ^ 8)); unfold m; lia).
  assert (E3 : m / 2 ^ 24 = b3) by (symmetry; apply (Z.div_unique_pos m _ _ (b0 + b1 * 2 ^ 8 + b2 * 2 ^ 16)); unfold m; lia).
  rewrite E1, E2, E3. f_equal; [symmetry; apply (Z.mod_unique_pos _ _ (b1 + b2 * 2 ^ 8 + b3 * 2 ^ 16)); unfold m; lia|].
  f_equal; [symmetry; apply (Z.mod_unique_pos _ _ (b2 + b3 * 2 ^ 8)); lia|].
  f_equal; [symmetry; apply (Z.mod_unique_pos _ _ b3); lia|]. f_equal. apply Z.mod_small. lia.
Qed.

Lemma fixed64_encode_decode w : length w = 8%nat -> Forall is_byte w -> exists m, in_u64 m /\ DecodeFixed64 w = Some m /\ EncodeFixed64 m = w.
Proof.
  intros Hl Hb. rewrite <-(take_drop 4 w) in Hb |- *. apply Forall_app in Hb as [Hb1 Hb2].
  destruct (fixed32_encode_decode (take 4 w)) as (lo & Hlo & D1 & E1); [rewrite length_take; lia|done|].
  destruct (fixed32_encode_decode (drop 4 w)) as (hi & Hhi & D2 & E2); [rewrite length_drop; lia|done|].
  rewrite <-E1, <-E2. unfold in_u32 in *. exists (lo + hi * 2 ^ 32). split; [unfold in_u64; lia|].
  assert (Hm : (lo + hi * 2 ^ 32) mod 2 ^ 32 = lo) by (symmetry; apply (Z.mod_unique_pos _ _ hi); lia).
  assert (Hd : Z.shiftr (lo + hi * 2 ^ 32) 32 = hi) by (rewrite Z.shiftr_div_pow2 by lia; symmetry; apply (Z.div_unique_pos _ _ _ lo); lia).
  split; [|by rewrite EncodeFixed64_halves, Hm, Hd]. unfold DecodeFixed64. rewrite DecodeFixed32_split by done.
  assert (forall a x, drop 4 (EncodeFixed32 a ++ x) = x) as -> by done. rewrite <-(app_nil_r (EncodeFixed32 hi)), DecodeFixed32_split by done.
  cbn [mbind option_bind]. f_equal. rewrite Z.lor_comm, lor_shiftl_add by lia. lia.
Qed.

Lemma crc_range d : Forall is_byte d -> in_u32 (crc32c_Value d).
Proof. intros Hd. apply Extend_range; [done|unfold in_u32; lia|done]. Qed.

(** The checksum test compares the stored footer. *)
Lemma footer_test data w : Forall is_byte data -> Forall is_byte w -> length w = 4%nat ->
  exists m, DecodeFixed32 w = Some m /\ (Unmask m =? crc32c_Value data) = bool_decide (w = PopulateFooter data).
Proof.
  intros Hd Hw Hl. destruct (fixed32_encode_decode w Hl Hw) as (m & Hm & D & E). exists m. split; [done|]. unfold PopulateFooter, MaskedCrc.
  destruct (Z.eqb_spec (Unmask m) (crc32c_Value data)) as [Heq|Hne]; symmetry.
  - apply bool_decide_eq_true_2. by rewrite <-Heq, Mask_Unmask.
  - apply bool_decide_eq_false_2. intros Hw'. apply Hne. rewrite <-(Unmask_Mask (crc32c_Value data)) by (by apply crc_range). f_equal.
    assert (Hsome : Some m = Some (Mask (crc32c_Value data))); [|congruence].
    rewrite <-D, Hw', <-(app_nil_r (EncodeFixed32 _)). apply DecodeFixed32_split. apply Mask_range.
Qed.

(** ** Records in a file *)
Definition encoding data : bytes := PopulateHeader (zlen data) ++ data ++ PopulateFooter data.

Definition record_at f (off : Z) data : Prop := file_range f off (16 + zlen data) = encoding data.

Lemma header_len n : zlen (PopulateHeader n) = 12.
Proof. done. Qed.

Lemma footer_len d : zlen (PopulateFooter d) = 4.
Proof. done. Qed.

Lemma encoding_len data : zlen (encoding data) = 16 + zlen data.
Proof. unfold encoding. rewrite !zlen_app, header_len, footer_len. lia. Qed.

Lemma zlen_ge_0 d : 0 <= zlen d.
Proof. unfold zlen. lia. Qed.

Lemma range_bytes f p n : Forall is_byte f -> Forall is_byte (file_range f p n).
Proof. intros Hf. unfold file_range. by apply Forall_take, Forall_drop. Qed.

Lemma app_inj_len d1 d2 d3 d4 : zlen d1 = zlen d3 -> d1 ++ d2 = d3 ++ d4 -> d1 = d3 /\ d2 = d4.
Proof. unfold zlen. intros Hl. apply app_inj_1. lia. Qed.

(** The four parts of a record. *)
Lemma record_at_parts f off data : 0 <= off -> record_at f off data <->
  off + 16 + zlen data <= zlen f /\ file_range f off 8 = EncodeFixed64 (zlen data) /\
  file_range f (off + 8) 4 = PopulateFooter (file_range f off 8) /\
  file_range f (off + 12) (zlen data) = data /\ file_range f (off + 12 + zlen data) 4 = PopulateFooter data.
Proof.
  intros Hoff. pose proof (zlen_ge_0 data) as Hd. unfold record_at, encoding, PopulateHeader.
  assert (Hsplit : file_range f off (16 + zlen data) =
    (file_range f off 8 ++ file_range f (off + 8) 4) ++ file_range f (off + 12) (zlen data) ++ file_range f (off + 12 + zlen data) 4).
  { rewrite !range_app by lia. f_equal. lia. }
  split.
  - intros Heq. pose proof (f_equal zlen Heq) as Hlen. change (zlen (_ ++ _ ++ _)) with (zlen (encoding data)) in Hlen. rewrite encoding_len in Hlen.
    assert (Hle : off <= zlen f).
    { destruct (Z.le_gt_cases off (zlen f)); [done|]. rewrite range_end in Hlen by lia. change (zlen []) with 0 in Hlen. lia. }
    rewrite range_len in Hlen by lia. assert (Hin : off + 16 + zlen data <= zlen f) by lia. split; [done|].
    rewrite Hsplit in Heq. apply app_inj_len in Heq as [Hh Ht]; [|rewrite !zlen_app, !range_len by lia; rewrite !Z.min_l by lia; done].
    apply app_inj_len in Hh as [H1 H2]; [|rewrite range_len by lia; rewrite Z.min_l by lia; done].
    apply app_inj_len in Ht as [H3 H4]; [|rewrite range_len by lia; lia]. rewrite H1. done.
  - intros (Hin & H1 & H2 & H3 & H4). rewrite Hsplit, H2, H3, H4, H1. done.
Qed.

(** What [ReadChecksummed] makes of the bytes at [p]. *)
Definition checked_status f (p n : Z) : Status :=
  if n >=? 2 ^ 64 - 1 - 4 then StatusError DATA_LOSS
  else if 2 ^ 63 <=? n + 4 then StatusError INVALID_ARGUMENT
  else if zlen f <? p + (n + 4) then StatusError OUT_OF_RANGE
  else if decide (file_range f (p + n) 4 = PopulateFooter (file_range f p n)) then StatusOK
  else StatusError DATA_LOSS.

Section reader.
Context {S : Type} `{InputStreamInterface S} f `{!StreamLaws S f}.
Hypothesis Hsmall : zlen f < 2 ^ 63.
Hypothesis Hbytes : Forall is_byte f.

Implicit Types (r : RecordReader S).

Definition reader_at r (p : Z) : Prop := at_pos (f := f) (input_stream r) p.

Lemma i64_big n : 2 ^ 63 <= n < 2 ^ 64 -> i64 n < 0.
Proof using.
  intros Hn. unfold i64. assert ((n + 2 ^ 63) mod 2 ^ 64 = n - 2 ^ 63) as ->; [|lia].
  symmetry. apply (Z.mod_unique_pos _ _ 1); lia.
Qed.

Lemma ReadChecksummed_spec r p n result : reader_at r p -> 0 <= n < 2 ^ 64 ->
  exists res r', ReadChecksummed n result r = Done ((checked_status f p n, res), r') /\
    last_read_failed_ r' = last_read_failed_ r /\ cached_metadata_ r' = cached_metadata_ r /\ (exists p', reader_at r' p') /\
    (checked_status f p n = StatusOK -> res = file_range f p n /\ reader_at r' (p + (n + 4))) /\
    (checked_status f p n = StatusError OUT_OF_RANGE -> res = file_range f p (n + 4)).
Proof using Hsmall Hbytes.
  intros Ha Hn. unfold ReadChecksummed, checked_status. destruct (Z.geb_spec n (2 ^ 64 - 1 - 4)) as [Hbig|Hbig].
  { exists result, r. split_and!; try done. by exists p. }
  pose proof (at_range _ _ Ha) as Hp. destruct (Z.leb_spec (2 ^ 63) (n + 4)) as [Hneg|Hpos].
  - destruct (law_negative (input_stream r) (i64 (n + 4)) result) as [E _]; [apply i64_big; lia|].
    exists result, r. split_and!; try done; [|by exists p]. unfold bind, on_stream. rewrite E. by destruct r.
  - rewrite i64_small by (unfold in_i64; lia). destruct (law_read _ p (n + 4) result Ha ltac:(lia)) as (i & E & Hi).
    unfold bind at 1, on_stream. rewrite E. unfold end_status, end_pos in *. set (r1 := mkReader i _ _).
    destruct (Z.ltb_spec (zlen f) (p + (n + 4))) as [Hend|Hin]; destruct (Z.leb_spec (p + (n + 4)) (zlen f)); try lia; cbn [ok negb].
    { exists (file_range f p (n + 4)), r1. split_and!; try done. by exists (Z.min (p + (n + 4)) (zlen f)). }
    rewrite Z.min_l in Hi by lia. rewrite range_len by lia. rewrite Z.min_l by lia. rewrite Z.eqb_refl. cbn [negb].
    rewrite <-(range_app f p n 4) by lia.
    assert (Hln : length (file_range f p n) = Z.to_nat n) by (pose proof (range_len f p n); unfold zlen in *; lia).
    rewrite <-Hln, drop_app_length, take_app_length.
    destruct (footer_test (file_range f p n) (file_range f (p + n) 4)) as (m & -> & ->).
    { by apply range_bytes. } { by apply range_bytes. } { pose proof (range_len f (p + n) 4). unfold zlen in *. lia. }
    destruct (decide (file_range f (p + n) 4 = PopulateFooter (file_range f p n))) as [Heq|Hne].
    + rewrite bool_decide_eq_true_2 by done. cbn [negb]. eexists _, r1. split; [done|]. split_and!; try done. by exists (p + (n + 4)).
    + rewrite bool_decide_eq_false_2 by done. cbn [negb]. eexists _, r1. split; [done|]. split_and!; try done. by exists (p + (n + 4)).
Qed.

Lemma Position_spec r p off : reader_at r p -> 0 <= off < 2 ^ 63 ->
  exists r', PositionInputStream off r = Done (end_status f off 0, r') /\ cached_metadata_ r' = cached_metadata_ r /\ reader_at r' (end_pos f off 0).
Proof using Hsmall.
  intros Ha Hoff. pose proof (at_range _ _ Ha) as Hp. unfold PositionInputStream, bind at 1, get. rewrite (law_tell _ _ Ha), i64_small by (unfold in_i64; lia).
  destruct ((off <? p) || (p <? 0) || ((p =? off) && last_read_failed_ r)) eqn:Hc.
  - clear Hc. unfold bind at 1, modify. destruct (law_reset _ p Ha) as (i & E & Hi). unfold bind at 1, on_stream at 1. cbn [input_stream set_failed].
    rewrite E. cbn [ok negb]. destruct (law_skip _ 0 off Hi ltac:(lia) ltac:(lia)) as (i2 & E2 & Hi2). unfold on_stream. cbn [input_stream]. rewrite E2.
    unfold end_status, end_pos in *. rewrite Z.add_0_r, Z.add_0_l in *. eexists. split; [done|]. done.
  - rewrite !orb_false_iff, Z.ltb_ge in Hc. destruct Hc as [[Hc _] _]. destruct (Z.ltb_spec p off) as [Hlt|Hge].
    + destruct (law_skip _ p (off - p) Ha ltac:(lia) ltac:(lia)) as (i2 & E2 & Hi2). unfold on_stream. rewrite E2.
      unfold end_status, end_pos in *. replace (p + (off - p)) with (off + 0) in * by lia. eexists. split; [done|]. done.
    + assert (p = off) as -> by lia. exists r. unfold end_status, end_pos. rewrite Z.add_0_r, Z.min_l by lia.
      destruct (Z.leb_spec off (zlen f)); [done|lia].
Qed.

(** What [ReadRecord] makes of the bytes at [off]. *)
Definition read_status (off : Z) : Status :=
  if zlen f <? off then StatusError OUT_OF_RANGE
  else match checked_status f off 8 with
       | StatusOK => truncated (checked_status f (off + 12) (default 0 (DecodeFixed64 (file_range f off 8))))
       | s => s
       end.

Lemma header_decode off : 0 <= off -> off + 12 <= zlen f ->
  exists n, in_u64 n /\ DecodeFixed64 (file_range f off 8) = Some n /\ file_range f off 8 = EncodeFixed64 n.
Proof using Hbytes.
  intros Hoff Hin. destruct (fixed64_encode_decode (file_range f off 8)) as (n & Hn & D & E); [|by apply range_bytes|by exists n].
  pose proof (range_len f off 8). unfold zlen in *. lia.
Qed.

Lemma checked_ok p n : checked_status f p n = StatusOK ->
  n + 4 < 2 ^ 63 /\ p + (n + 4) <= zlen f /\ file_range f (p + n) 4 = PopulateFooter (file_range f p n).
Proof using.
  unfold checked_status. destruct (n >=? _); [done|]. destruct (Z.leb_spec (2 ^ 63) (n + 4)); [done|].
  destruct (Z.ltb_spec (zlen f) (p + (n + 4))); [done|]. destruct (decide _); [|done]. intros _; split_and!; [lia|lia|done].
Qed.

(** A record that is read is there. *)
Lemma read_ok_record off n : 0 <= off -> checked_status f off 8 = StatusOK -> file_range f off 8 = EncodeFixed64 n ->
  in_u64 n -> checked_status f (off + 12) n = StatusOK -> record_at f off (file_range f (off + 12) n) /\ zlen (file_range f (off + 12) n) = n.
Proof using.
  intros Hoff (_ & Hin1 & Hf1)%checked_ok HE Hn (_ & Hin2 & Hf2)%checked_ok. unfold in_u64 in Hn.
  assert (Hl : zlen (file_range f (off + 12) n) = n) by (rewrite range_len by lia; lia). split; [|done].
  apply record_at_parts; [done|]. rewrite Hl. split_and!; try done; lia.
Qed.

Lemma record_status off data : 0 <= off -> record_at f off data ->
  read_status off = StatusOK /\ DecodeFixed64 (file_range f off 8) = Some (zlen data) /\ file_range f (off + 12) (zlen data) = data.
Proof using Hsmall.
  intros Hoff (Hin & H1 & H2 & H3 & H4)%record_at_parts; [|done]. pose proof (zlen_ge_0 data) as Hd.
  assert (HD : DecodeFixed64 (file_range f off 8) = Some (zlen data)).
  { rewrite H1. destruct (fixed_roundtrip (zlen data) [] ltac:(unfold in_u64; lia)) as [HD _]. unfold PutFixed64 in HD. by rewrite app_nil_l, app_nil_r in HD. }
  split_and!; [|done|done]. unfold read_status, checked_status. rewrite HD. change (default 0 (Some (zlen data))) with (zlen data).
  destruct (Z.ltb_spec (zlen f) off); [lia|]. destruct (Z.ltb_spec (zlen f) (off + (8 + 4))); [lia|]. rewrite (decide_True (P := file_range f (off + 8) 4 = _)) by done.
  cbn [Z.geb Z.leb]. destruct (Z.geb_spec (zlen data) (2 ^ 64 - 1 - 4)); [lia|]. destruct (Z.leb_spec (2 ^ 63) (zlen data + 4)); [lia|].
  destruct (Z.ltb_spec (zlen f) (off + 12 + (zlen data + 4))); [lia|]. rewrite decide_True by (by rewrite H3). done.
Qed.

Lemma ReadRecord_spec r p off record : reader_at r p -> 0 <= off < 2 ^ 63 ->
  exists off' rec' r' p', ReadRecord off record r = Done ((read_status off, off', rec'), r') /\ reader_at r' p' /\ cached_metadata_ r' = cached_metadata_ r /\
    (read_status off = StatusOK -> record_at f off rec' /\ off' = off + (16 + zlen rec')) /\
    (read_status off <> StatusOK -> off' = off) /\ (off = zlen f -> rec' = []).
Proof using Hsmall Hbytes.
  intros Ha Hoff. destruct (Position_spec r p off Ha Hoff) as (r1 & E1 & Hc1 & Ha1). unfold ReadRecord. rewrite (bind_Done _ _ _ _ _ E1).
  unfold end_status, end_pos in *. rewrite Z.add_0_r in *. unfold read_status.
  destruct (Z.leb_spec off (zlen f)) as [Hle|Hgt]; destruct (Z.ltb_spec (zlen f) off); try lia; cbn [ok negb].
  2:{ eexists _, _, r1, _. split; [done|]. split_and!; [done|done|done|done|lia]. }
  rewrite Z.min_l in Ha1 by lia.
  destruct (ReadChecksummed_spec r1 off 8 record Ha1 ltac:(lia)) as (res & r2 & E2 & _ & Hc2 & (p2 & Hp2) & Hok & Hoor).
  rewrite (bind_Done _ _ _ _ _ E2). cbv beta iota. destruct (checked_status f off 8) as [|code] eqn:Hst; cbn [ok negb].
  - destruct (Hok eq_refl) as [-> Ha2]. destruct (checked_ok _ _ Hst) as (_ & Hin & _). destruct (header_decode off ltac:(lia) ltac:(lia)) as (n & Hn & D & HE).
    rewrite D. change (default 0 (Some n)) with n. replace (off + (8 + 4)) with (off + 12) in Ha2 by lia.
    destruct (ReadChecksummed_spec r2 (off + 12) n (file_range f off 8) Ha2 ltac:(unfold in_u64 in Hn; lia)) as (res & r3 & E3 & _ & Hc3 & (p3 & Hp3) & Hok3 & _).
    rewrite (bind_Done _ _ _ _ _ E3). cbv beta iota. unfold in_u64 in Hn. destruct (checked_status f (off + 12) n) as [|code] eqn:Hst3; cbn [ok negb].
    + destruct (Hok3 eq_refl) as [-> Ha3]. destruct (read_ok_record off n ltac:(lia) Hst HE Hn Hst3) as [Hrec Hlen]. destruct (checked_ok _ _ Hst3) as (_ & Hin3 & _).
      eexists _, _, r3, _. split; [done|]. split_and!; [done|congruence| |done|lia]. intros _. split; [done|]. rewrite Hlen, u64_small by (unfold in_u64, kHeaderSize, kFooterSize; lia).
      unfold kHeaderSize, kFooterSize. lia.
    + eexists _, _, _, p3. split; [done|]. split_and!; [done|cbn; congruence| |done|lia]. intros Ht. exfalso. unfold truncated in Ht. by destruct (IsOutOfRange _) in Ht.
  - eexists _, _, _, p2. split; [done|]. split_and!; [done|cbn; congruence|done|done|]. intros ->.
    rewrite Hoor; [by rewrite range_end|]. revert Hst. unfold checked_status. destruct (Z.ltb_spec (zlen f) (zlen f + (8 + 4))); [|lia]. change (8 >=? 2 ^ 64 - 1 - 4) with false. change (2 ^ 63 <=? 8 + 4) with false. intros [= ->]. done.
Qed.

(** ** Skipping *)

(** A skip either moves the stream or overflows. *)
Lemma stream_skip r p n : reader_at r p -> n < 2 ^ 63 ->
  (exists s r', on_stream (SkipNBytes n) r = Done (s, r') /\ cached_metadata_ r' = cached_metadata_ r /\ exists p', reader_at r' p') \/
  on_stream (SkipNBytes n) r = Crash.
Proof using.
  intros Ha Hn. unfold on_stream. destruct (Z.lt_ge_cases n 0) as [Hneg|Hpos].
  - left. destruct (law_negative (input_stream r) n [] Hneg) as [_ ->]. eexists _, _. split; [done|]. split; [done|]. by exists p.
  - destruct (Z.lt_ge_cases (p + n) (2 ^ 63)) as [Hlt|Hge]; [left|right; by rewrite (law_skip_overflow _ p n Ha)].
    destruct (law_skip _ p n Ha Hpos Hlt) as (i & -> & Hi). eexists _, _. split; [done|]. split; [done|]. by eexists.
Qed.

Lemma i64_bound z : i64 z < 2 ^ 63.
Proof using. pose proof (i64_range z) as Hr. unfold in_i64 in Hr. lia. Qed.

(** After the header of a record, or not. *)
Lemma read_header r p record : reader_at r p ->
  exists s res r', ReadChecksummed 8 record r = Done ((s, res), r') /\ (exists p', reader_at r' p') /\ cached_metadata_ r' = cached_metadata_ r /\
    (s = StatusOK -> exists n, in_u64 n /\ DecodeFixed64 res = Some n).
Proof using Hsmall Hbytes.
  intros Ha. destruct (ReadChecksummed_spec r p 8 record Ha ltac:(lia)) as (res & r2 & E2 & _ & Hc2 & Hp2 & Hok & _).
  eexists _, res, r2. split; [done|]. split_and!; try done. intros Hst. destruct (Hok Hst) as [-> _]. destruct (checked_ok _ _ Hst) as (_ & Hin & _).
  destruct (header_decode p) as (n & Hn & D & _); [pose proof (at_range _ _ Ha); lia|lia|]. by exists n.
Qed.

(** The reader stays on the file whatever is called, unless a skip overflows. *)
Lemma skip_records_keeps n r p off k record : reader_at r p ->
  (exists a r', skip_records n off k record r = Done (a, r') /\ cached_metadata_ r' = cached_metadata_ r /\ exists p', reader_at r' p') \/
  skip_records n off k record r = Crash.
Proof using Hsmall Hbytes.
  revert r p off k record. induction n as [|n IH]; intros r p off k record Ha; cbn [skip_records]; [left; eexists _, r; split; [done|]; split; [done|]; by exists p|].
  destruct (read_header r p record Ha) as (s & res & r1 & E1 & (p1 & Ha1) & Hc1 & Hok). rewrite (bind_Done _ _ _ _ _ E1). cbv beta iota.
  destruct s as [|code]; cbn [ok negb]; [|left; eexists _, _; split; [done|]; split; [done|]; by exists p1].
  destruct (Hok eq_refl) as (len & Hlen & ->). destruct (stream_skip r1 p1 (i64 (u64 (len + kFooterSize))) Ha1 (i64_bound _)) as [(s & r2 & E2 & Hc2 & p2 & Ha2)|E2].
  - rewrite (bind_Done _ _ _ _ _ E2). destruct (ok s); cbn [negb]; [|left; eexists _, _; split; [done|]; split; [cbn; congruence|]; by exists p2].
    destruct (IH r2 p2 (u64 (off + (kHeaderSize + len + kFooterSize))) (k + 1) res Ha2) as [(a & r' & E & Hc & Hp)|E]; [left|by right].
    exists a, r'. split; [done|]. split; [congruence|done].
  - right. unfold bind at 1. by rewrite E2.
Qed.

Lemma metadata_keeps fuel r p record (d e : Z) : reader_at r p -> forall a r', metadata_loop fuel record d e r = Done (a, r') -> exists p', reader_at r' p'.
Proof using Hsmall Hbytes.
  revert r p record d e. induction fuel as [|fuel IH]; intros r p record d e Ha a r'; cbn [metadata_loop]; [done|].
  destruct (read_header r p record Ha) as (s & res & r1 & E1 & (p1 & Ha1) & _ & Hok). rewrite (bind_Done _ _ _ _ _ E1). cbv beta iota.
  destruct s as [|code]; cbn [ok negb]; [|intros [= _ <-]; by exists p1].
  destruct (Hok eq_refl) as (len & Hlen & ->). destruct (stream_skip r1 p1 (i64 (u64 (len + kFooterSize))) Ha1 (i64_bound _)) as [(s & r2 & E2 & _ & p2 & Ha2)|E2].
  - rewrite (bind_Done _ _ _ _ _ E2). destruct (ok s); cbn [negb]; [|intros [= _ <-]; by exists p2]. by apply (IH r2 p2).
  - unfold bind at 1. by rewrite E2.
Qed.

(** ** Consecutive records *)
Fixpoint records_at (off : Z) (ds : list bytes) : Prop :=
  match ds with
  | [] => True
  | d :: ds => record_at f off d /\ records_at (off + (16 + zlen d)) ds
  end.

Definition encodings (ds : list bytes) : bytes := concat (map encoding ds).

Lemma encodings_cons d ds : zlen (encodings (d :: ds)) = 16 + zlen d + zlen (encodings ds).
Proof using. unfold encodings. cbn [map concat]. rewrite zlen_app, encoding_len. lia. Qed.

Lemma range_prefix p d1 d2 : 0 <= p -> file_range f p (zlen (d1 ++ d2)) = d1 ++ d2 ->
  file_range f p (zlen d1) = d1 /\ file_range f (p + zlen d1) (zlen d2) = d2.
Proof using.
  intros Hp Heq. pose proof (zlen_ge_0 d1). pose proof (zlen_ge_0 d2). pose proof (f_equal zlen Heq) as Hlen. rewrite zlen_app in *. rewrite <-range_app in Heq by lia.
  apply app_inj_len; [|done]. destruct (Z.le_gt_cases p (zlen f)).
  - rewrite range_len in * by lia. lia.
  - rewrite range_end in Hlen by lia. change (zlen []) with 0 in Hlen. assert (zlen d1 = 0) as -> by lia. done.
Qed.

Lemma records_at_intro off ds : 0 <= off -> file_range f off (zlen (encodings ds)) = encodings ds -> records_at off ds.
Proof using.
  revert off. induction ds as [|d ds IH]; intros off Hoff Heq; [done|]. unfold encodings in Heq. cbn [map concat] in Heq.
  apply range_prefix in Heq as [H1 H2]; [|done]. rewrite encoding_len in *. pose proof (zlen_ge_0 d). split; [done|]. apply IH; [lia|done].
Qed.

Lemma ReadRecord_at r p off d record : reader_at r p -> 0 <= off -> record_at f off d ->
  exists r' p', ReadRecord off record r = Done ((StatusOK, off + (16 + zlen d), d), r') /\ reader_at r' p'.
Proof using Hsmall Hbytes.
  intros Ha Hoff Hrec. pose proof Hrec as (Hin & _)%record_at_parts; [|done]. pose proof (zlen_ge_0 d).
  destruct (record_status off d Hoff Hrec) as (Hst & HD & Hdata).
  destruct (ReadRecord_spec r p off record Ha ltac:(lia)) as (off' & rec' & r' & p' & E & Ha' & _ & Hok & _). rewrite Hst in *.
  destruct (Hok eq_refl) as [Hrec' ->]. destruct (record_status off rec' Hoff Hrec') as (_ & HD' & Hdata').
  rewrite HD in HD'. injection HD' as Hl. rewrite <-Hl in Hdata'. exists r', p'. rewrite E. split; [|done]. congruence.
Qed.

Lemma skip_records_at ds r off k record : reader_at r off -> records_at off ds -> 0 <= k ->
  exists r' res, (forall m, skip_records (length ds + m) off k record r =
      skip_records m (off + zlen (encodings ds)) (k + Z.of_nat (length ds)) res r') /\ reader_at r' (off + zlen (encodings ds)).
Proof using Hsmall Hbytes.
  revert r off k record. induction ds as [|d ds IH]; intros r off k record Ha Hrec Hk.
  - exists r, record. change (zlen (encodings [])) with 0. change (Z.of_nat (length [])) with 0. rewrite !Z.add_0_r. by split.
  - destruct Hrec as [Hd Hrec]. pose proof (at_range _ _ Ha) as Hp. pose proof (zlen_ge_0 d). pose proof Hd as (Hin & _)%record_at_parts; [|lia].
    destruct (record_status off d ltac:(lia) Hd) as (Hst & HD & Hdata). unfold read_status in Hst. destruct (Z.ltb_spec (zlen f) off); [lia|].
    destruct (checked_status f off 8) as [|code] eqn:Hcs; [|done].
    destruct (ReadChecksummed_spec r off 8 record Ha ltac:(lia)) as (res & r1 & E1 & _ & _ & _ & Hok & _). rewrite Hcs in *. destruct (Hok eq_refl) as [-> Ha1].
    destruct (law_skip _ (off + (8 + 4)) (zlen d + 4) Ha1 ltac:(lia) ltac:(lia)) as (i & E2 & Hi).
    unfold end_status, end_pos in *. destruct (Z.leb_spec (off + (8 + 4) + (zlen d + 4)) (zlen f)); [|lia]. rewrite Z.min_l in Hi by lia.
    set (r2 := mkReader i (last_read_failed_ r1) (cached_metadata_ r1)).
    destruct (IH r2 (off + (16 + zlen d)) (k + 1) (file_range f off 8)) as (r' & res & E & Ha'); [|done|lia|].
    { unfold reader_at. cbn [input_stream r2]. by replace (off + (16 + zlen d)) with (off + (8 + 4) + (zlen d + 4)) by lia. }
    exists r', res. rewrite encodings_cons. replace (off + (16 + zlen d + zlen (encodings ds))) with (off + (16 + zlen d) + zlen (encodings ds)) by lia.
    split; [|done]. intros m. cbn [length Nat.add skip_records]. rewrite (bind_Done _ _ _ _ _ E1). cbv beta iota. cbn [ok negb]. rewrite HD.
    unfold kFooterSize, kHeaderSize. rewrite (u64_small (zlen d + 4)), i64_small by (unfold in_i64, in_u64; lia).
    unfold bind at 1, on_stream. rewrite E2. cbn [ok negb]. fold r2. rewrite u64_small by (unfold in_u64; lia).
    replace (off + (8 + 4 + zlen d + 4)) with (off + (16 + zlen d)) by lia. rewrite E. f_equal. lia.
Qed.

Lemma metadata_at ds r off record (d0 e0 : Z) : reader_at r off -> records_at off ds -> 0 <= d0 -> 0 <= e0 ->
  d0 + zlen (encodings ds) < 2 ^ 63 -> e0 + Z.of_nat (length ds) < 2 ^ 63 ->
  exists r' res, (forall fuel, metadata_loop (length ds + fuel) record d0 e0 r =
      metadata_loop fuel res (d0 + (zlen (encodings ds) - 16 * Z.of_nat (length ds))) (e0 + Z.of_nat (length ds)) r') /\
    reader_at r' (off + zlen (encodings ds)).
Proof using Hsmall Hbytes.
  revert r off record d0 e0. induction ds as [|d ds IH]; intros r off record d0 e0 Ha Hrec Hd0 He0 Hb1 Hb2.
  - exists r, record. change (zlen (encodings [])) with 0. change (Z.of_nat (length [])) with 0. rewrite !Z.add_0_r. split; [|done].
    intros fuel. f_equal; lia.
  - destruct Hrec as [Hd Hrec]. pose proof (at_range _ _ Ha) as Hp. pose proof (zlen_ge_0 d). pose proof (zlen_ge_0 (encodings ds)).
    pose proof Hd as (Hin & _)%record_at_parts; [|lia]. rewrite encodings_cons in *.
    destruct (record_status off d ltac:(lia) Hd) as (Hst & HD & Hdata). unfold read_status in Hst. destruct (Z.ltb_spec (zlen f) off); [lia|].
    destruct (checked_status f off 8) as [|code] eqn:Hcs; [|done].
    destruct (ReadChecksummed_spec r off 8 record Ha ltac:(lia)) as (res & r1 & E1 & _ & _ & _ & Hok & _). rewrite Hcs in *. destruct (Hok eq_refl) as [-> Ha1].
    destruct (law_skip _ (off + (8 + 4)) (zlen d + 4) Ha1 ltac:(lia) ltac:(lia)) as (i & E2 & Hi).
    unfold end_status, end_pos in *. destruct (Z.leb_spec (off + (8 + 4) + (zlen d + 4)) (zlen f)); [|lia]. rewrite Z.min_l in Hi by lia.
    set (r2 := mkReader i (last_read_failed_ r1) (cached_metadata_ r1)). cbn [length] in Hb2.
    destruct (IH r2 (off + (16 + zlen d)) (file_range f off 8) (d0 + zlen d) (e0 + 1)) as (r' & res & E & Ha'); [|done|lia|lia|lia|lia|].
    { unfold reader_at. cbn [input_stream r2]. by replace (off + (16 + zlen d)) with (off + (8 + 4) + (zlen d + 4)) by lia. }
    exists r', res. replace (off + (16 + zlen d + zlen (encodings ds))) with (off + (16 + zlen d) + zlen (encodings ds)) by lia.
    split; [|done]. intros m. cbn [length Nat.add metadata_loop]. rewrite (bind_Done _ _ _ _ _ E1). cbv beta iota. cbn [ok negb]. rewrite HD.
    unfold kFooterSize. rewrite (u64_small (zlen d + 4)), i64_small by (unfold in_i64, in_u64; lia).
    unfold bind at 1, on_stream. rewrite E2. cbn [ok negb]. fold r2. rewrite !i64_small by (unfold in_i64; lia).
    rewrite E. f_equal; lia.
Qed.
End reader.
