(* ===== verification/RecordTheorems.v ===== *)
(** * Record files and input streams: theorems

    What was written is read back, whatever the buffering; a record is returned
    exactly when its bytes are intact; a buffered stream is a cursor in the
    file; and two places where the code does not do what its comments say. *)
From S2P Require Import Prelude Coding Block Crc32c TableFormat TableBuilder InputStream Record RecordProofs.
From stdpp Require Import list options.
#[local] Open Scope Z_scope.
#[local] Open Scope tf_monad_scope.

Implicit Types (f d data : bytes) (ds : list bytes).

(** ** The streams of a reader *)
Section stream.
Context `{RandomAccessFile} f.
Hypothesis Hfile : reads_whole f.
Hypothesis Hsmall : zlen f < 2 ^ 63.

#[local] Instance plain_laws : StreamLaws RandomAccessInputStream f := random_laws f Hfile Hsmall.
#[local] Instance buffer_laws : StreamLaws (BufferedInputStream RandomAccessInputStream) f := buffered_laws f Hsmall.

Definition stream_at (s : Stream) (p : Z) : Prop :=
  match s with Plain s => at_pos (f := f) s p | Buffer b => at_pos (f := f) b p end.

#[global] Program Instance stream_laws : StreamLaws Stream f := { at_pos := stream_at }.
Next Obligation. intros [s|b] p Ha; [exact (at_range s p Ha)|exact (at_range b p Ha)]. Qed.
Next Obligation.
  intros [s|b] p n r Ha Hn; [destruct (law_read s p n r Ha Hn) as (s' & E & Ha'); exists (Plain s')|destruct (law_read b p n r Ha Hn) as (b' & E & Ha'); exists (Buffer b')];
    (split; [|done]); unfold ReadNBytes at 1, Stream_interface, dispatch; by rewrite E.
Qed.
Next Obligation.
  intros [s|b] p n Ha Hn Hb; [destruct (law_skip s p n Ha Hn Hb) as (s' & E & Ha'); exists (Plain s')|destruct (law_skip b p n Ha Hn Hb) as (b' & E & Ha'); exists (Buffer b')];
    (split; [|done]); unfold SkipNBytes at 1, Stream_interface, dispatch; by rewrite E.
Qed.
Next Obligation.
  intros [s|b] p n Ha Hn Hb; unfold SkipNBytes at 1, Stream_interface, dispatch; [by rewrite (law_skip_overflow s p n Ha Hn Hb)|by rewrite (law_skip_overflow b p n Ha Hn Hb)].
Qed.
Next Obligation. intros [s|b] p Ha; [exact (law_tell s p Ha)|exact (law_tell b p Ha)]. Qed.
Next Obligation.
  intros [s|b] p Ha; [destruct (law_reset s p Ha) as (s' & E & Ha'); exists (Plain s')|destruct (law_reset b p Ha) as (b' & E & Ha'); exists (Buffer b')];
    (split; [|done]); unfold Reset at 1, Stream_interface, dispatch; by rewrite E.
Qed.
Next Obligation.
  intros [s|b] n r Hn; unfold ReadNBytes at 1, SkipNBytes at 1, Stream_interface, dispatch;
    [destruct (law_negative s n r Hn) as [-> ->]|destruct (law_negative b n r Hn) as [-> ->]]; done.
Qed.

Lemma new_at buffer_size : reader_at f (RecordReader_new buffer_size) 0.
Proof using.
  unfold reader_at, RecordReader_new. cbn [input_stream]. pose proof (zlen_ge_0 f).
  assert (Hr : random_at f Random_new 0) by (split; [done|lia]). destruct (Z.ltb_spec 0 buffer_size); [|exact Hr].
  by apply buffered_new.
Qed.
End stream.

(** ** Writing *)
Section writer.
Context {F : Type} `{WritableFileLaws F}.

Fixpoint write_all ds : M (RecordWriter F) (list Status) :=
  match ds with
  | [] => ret []
  | d :: ds => s <~ WriteRecord d;; ss <~ write_all ds;; ret (s :: ss)
  end.

Lemma WriteRecord_spec file d w : WriteRecord d (mkWriter (Some file)) = Done (StatusOK, w) ->
  exists file', w = mkWriter (Some file') /\ file_contents file' = file_contents file ++ encoding d.
Proof using.
  unfold WriteRecord, bind, get, append, ret. cbn [dest_].
  destruct (file_append file (PopulateHeader (zlen d))) as [[|c1] f1] eqn:E1; cbn [ok negb]; [|done]. cbn [dest_].
  destruct (file_append f1 d) as [[|c2] f2] eqn:E2; cbn [ok negb]; [|done]. cbn [dest_].
  destruct (file_append f2 (PopulateFooter d)) as [s3 f3] eqn:E3. intros [= -> <-]. exists f3. split; [done|].
  rewrite (append_ok _ _ _ E3), (append_ok _ _ _ E2), (append_ok _ _ _ E1). unfold encoding. by rewrite <-!(assoc_L (++)).
Qed.

Lemma write_all_spec ds file ss w : write_all ds (mkWriter (Some file)) = Done (ss, w) -> Forall (eq StatusOK) ss ->
  exists file', w = mkWriter (Some file') /\ file_contents file' = file_contents file ++ encodings ds.
Proof using.
  revert file ss. induction ds as [|d ds IH]; intros file ss E Hok; cbn [write_all] in E.
  - injection E as <- <-. exists file. split; [done|]. unfold encodings. cbn. by rewrite app_nil_r.
  - apply bind_inv in E as (s & w1 & E1 & E). apply bind_inv in E as (ss' & w2 & E2 & E). injection E as <- <-.
    apply Forall_cons in Hok as [<- Hok]. destruct (WriteRecord_spec file d w1 E1) as (f1 & -> & Hf1).
    destruct (IH f1 ss' E2 Hok) as (f2 & -> & Hf2). exists f2. split; [done|]. rewrite Hf2, Hf1. unfold encodings. cbn [map concat].
    by rewrite <-(assoc_L (++)).
Qed.

Lemma encodings_bytes ds : Forall (Forall is_byte) ds -> Forall is_byte (encodings ds).
Proof using.
  unfold encodings. induction 1 as [|d ds Hd _ IH]; [constructor|]. cbn [map concat]. apply Forall_app. split; [|done].
  unfold encoding, PopulateHeader, PopulateFooter. rewrite !Forall_app. split_and!; try done; try apply EncodeFixed32_bytes.
  rewrite EncodeFixed64_halves. apply Forall_app. split; apply EncodeFixed32_bytes.
Qed.
End writer.

(** ** Reading in order *)
Section sequential.
Context {S : Type} `{InputStreamInterface S} f `{!StreamLaws S f}.
Hypothesis Hsmall : zlen f < 2 ^ 63.
Hypothesis Hbytes : Forall is_byte f.

Fixpoint read_n (n : nat) : M (SequentialRecordReader S) (list (Status * bytes)) :=
  match n with
  | O => ret []
  | Datatypes.S n => r <~ Sequential_ReadRecord [];; rs <~ read_n n;; ret (r :: rs)
  end.

Lemma read_n_app n m q rs q' : read_n n q = Done (rs, q') ->
  forall rs' q'', read_n m q' = Done (rs', q'') -> read_n (n + m) q = Done (rs ++ rs', q'').
Proof using.
  revert q rs. induction n as [|n IH]; intros q rs E rs' q'' E'; cbn [read_n Nat.add] in *; [by injection E as <- <-|].
  apply bind_inv in E as (r & q1 & E1 & E). apply bind_inv in E as (rs1 & q2 & E2 & E). injection E as <- <-.
  by rewrite (bind_Done _ _ _ _ _ E1), (bind_Done _ _ _ _ _ (IH q1 rs1 E2 rs' q'' E')).
Qed.

Lemma Sequential_ReadRecord_run q s off record u : ReadRecord (seq_offset_ q) [] (underlying_ q) = Done ((s, off, record), u) ->
  Sequential_ReadRecord [] q = Done ((s, record), mkSequential u off).
Proof using. intros E. unfold Sequential_ReadRecord, on_underlying, bind. by rewrite E. Qed.

Lemma read_n_records ds r p off : reader_at f r p -> 0 <= off -> records_at f off ds ->
  exists r' p', read_n (length ds) (mkSequential r off) = Done (map (pair StatusOK) ds, mkSequential r' (off + zlen (encodings ds))) /\ reader_at f r' p'.
Proof using Hsmall Hbytes.
  revert r p off. induction ds as [|d ds IH]; intros r p off Ha Hoff Hrec.
  - exists r, p. change (zlen (encodings [])) with 0. by rewrite Z.add_0_r.
  - destruct Hrec as [Hd Hrec]. pose proof (zlen_ge_0 d). destruct (ReadRecord_at f Hsmall Hbytes r p off d [] Ha Hoff Hd) as (r1 & p1 & E1 & Ha1).
    destruct (IH r1 p1 (off + (16 + zlen d)) Ha1 ltac:(lia) Hrec) as (r2 & p2 & E2 & Ha2). exists r2, p2. cbn [length read_n map].
    rewrite (bind_Done _ _ _ _ _ (Sequential_ReadRecord_run (mkSequential r off) _ _ _ _ E1)), (bind_Done _ _ _ _ _ E2), encodings_cons.
    by replace (off + (16 + zlen d + zlen (encodings ds))) with (off + (16 + zlen d) + zlen (encodings ds)) by lia.
Qed.

(** At the end of the file, or inside a header. *)
Lemma short_status off : 0 <= off -> zlen f < off + 12 -> read_status f off = StatusError OUT_OF_RANGE.
Proof using.
  intros Hoff Hend. unfold read_status, checked_status. destruct (zlen f <? off); [done|].
  change (8 >=? 2 ^ 64 - 1 - 4) with false. change (2 ^ 63 <=? 8 + 4) with false. destruct (Z.ltb_spec (zlen f) (off + (8 + 4))); [done|lia].
Qed.

Lemma read_n_end k r p off : reader_at f r p -> 0 <= off < 2 ^ 63 -> zlen f < off + 12 ->
  exists rs q, read_n k (mkSequential r off) = Done (rs, q) /\ Forall (fun x => fst x = StatusError OUT_OF_RANGE) rs /\ length rs = k /\
    (off = zlen f -> rs = replicate k (StatusError OUT_OF_RANGE, [])).
Proof using Hsmall Hbytes.
  intros Ha Hoff Hend. revert r p Ha. induction k as [|k IH]; intros r p Ha; [by eexists [], _|].
  destruct (ReadRecord_spec f Hsmall Hbytes r p off [] Ha ltac:(lia)) as (off' & rec' & r1 & p1 & E & Ha1 & _ & _ & Hne & Hnil).
  rewrite short_status in * by lia. rewrite Hne in E by done. destruct (IH r1 p1 Ha1) as (rs & q & E' & Hall & Hlen & Hrep).
  exists ((StatusError OUT_OF_RANGE, rec') :: rs), q. cbn [read_n].
  rewrite (bind_Done _ _ _ _ _ (Sequential_ReadRecord_run (mkSequential r off) _ _ _ _ E)), (bind_Done _ _ _ _ _ E'). split_and!; try done.
  - by constructor.
  - simpl. lia.
  - intros Hz. rewrite (Hnil Hz), (Hrep Hz). done.
Qed.
End sequential.

(** ** Theorems *)

(** A file in memory, which keeps the laws of files. *)
Definition memory_file f : RandomAccessFile :=
  {| file_read off n := (if zlen (file_range f off n) =? n then StatusOK else StatusError OUT_OF_RANGE, file_range f off n, true) |}.

Lemma memory_file_reads f : @reads_whole (memory_file f) f.
Proof. intros off n _ _. by exists true. Qed.

#[local] Instance memory_writable : WritableFile bytes := {| file_append f data := (StatusOK, f ++ data) |}.
#[local] Program Instance memory_writable_laws : WritableFileLaws bytes := {| file_contents f := f |}.
Next Obligation. intros f data f' [= <-]. done. Qed.

(** C25. What a record writer wrote is read back: when every [WriteRecord] on an
    empty file reported success, a sequential reader with any buffer size returns
    the records in order, and then [OUT_OF_RANGE] as often as it is asked. *)
Theorem record_roundtrip {F} `{WritableFileLaws F} `{RandomAccessFile} (file file' : F) ds ss (buffer_size : Z) :
  file_contents file = [] -> Forall (Forall is_byte) ds ->
  write_all ds (RecordWriter_new file) = Done (ss, RecordWriter_new file') -> Forall (eq StatusOK) ss ->
  reads_whole (file_contents file') -> zlen (file_contents file') < 2 ^ 63 ->
  forall k, exists q, read_n (length ds + k) (SequentialRecordReader_new buffer_size) =
    Done (map (pair StatusOK) ds ++ replicate k (StatusError OUT_OF_RANGE, []), q).
Proof.
  intros Hempty Hbytes Hw Hss Hfile Hsmall k. destruct (write_all_spec ds file ss _ Hw Hss) as (f1 & [= <-] & Hc). rewrite Hempty in Hc.
  cbn [app] in Hc. set (f := file_contents file') in *. assert (Hfb : Forall is_byte f) by (rewrite Hc; by apply encodings_bytes).
  pose proof (new_at f Hfile Hsmall buffer_size) as Ha.
  assert (Hrec : records_at f 0 ds) by (apply records_at_intro; [done|]; unfold file_range; rewrite drop_0, Hc; apply take_ge; unfold zlen; lia).
  destruct (read_n_records f Hsmall Hfb ds _ _ 0 Ha ltac:(lia) Hrec) as (r1 & p1 & E1 & Ha1). rewrite Z.add_0_l, <-Hc in E1. pose proof (zlen_ge_0 f).
  destruct (read_n_end f Hsmall Hfb k r1 p1 (zlen f) Ha1 ltac:(lia) ltac:(lia)) as (rs & q & E2 & _ & _ & Hrs). exists q.
  unfold SequentialRecordReader_new. rewrite (read_n_app _ _ _ _ _ E1 _ _ E2). by rewrite Hrs.
Qed.

Definition demo_records : list bytes := [[104; 105]; []; [7]].

Lemma record_roundtrip_witness : exists q, @read_n Stream (@Stream_interface (memory_file (encodings demo_records))) 4 (@SequentialRecordReader_new (memory_file (encodings demo_records)) 5) =
  Done ([(StatusOK, [104; 105]); (StatusOK, []); (StatusOK, [7]); (StatusError OUT_OF_RANGE, [])], q).
Proof.
  apply (@record_roundtrip bytes memory_writable memory_writable_laws (memory_file (encodings demo_records)) [] (encodings demo_records) demo_records
    [StatusOK; StatusOK; StatusOK] 5).
  - reflexivity.
  - repeat constructor; lia.
  - reflexivity.
  - repeat constructor.
  - apply memory_file_reads.
  - reflexivity.
Defined.

(** Calls of a reader in any order and at any offsets. *)
Inductive reader_call := CRead (off : Z) | CSkip (off num : Z) | CMetadata (fuel : nat) (md : Stats).

Definition reader_run {S} `{InputStreamInterface S} (cl : reader_call) : M (RecordReader S) unit :=
  match cl with
  | CRead off => ReadRecord off [];;; ret tt
  | CSkip off num => SkipRecords off num 0;;; ret tt
  | CMetadata fuel md => GetMetadata fuel (Some md);;; ret tt
  end.

Fixpoint reader_runs {S} `{InputStreamInterface S} (cs : list reader_call) : M (RecordReader S) unit :=
  match cs with
  | [] => ret tt
  | cl :: cs => reader_run cl;;; reader_runs cs
  end.

Definition call_ok (cl : reader_call) : Prop :=
  match cl with CRead off => 0 <= off < 2 ^ 63 | CSkip off _ => 0 <= off < 2 ^ 63 | CMetadata _ _ => True end.

Section calls.
Context {S : Type} `{InputStreamInterface S} f `{!StreamLaws S f}.
Hypothesis Hsmall : zlen f < 2 ^ 63.
Hypothesis Hbytes : Forall is_byte f.

Lemma reader_run_keeps cl r p r' : reader_at f r p -> call_ok cl -> reader_run cl r = Done (tt, r') -> exists p', reader_at f r' p'.
Proof using Hsmall Hbytes.
  intros Ha Hcl E. destruct cl as [off|off num|fuel md]; cbn [reader_run call_ok] in *.
  - destruct (ReadRecord_spec f Hsmall Hbytes r p off [] Ha Hcl) as (off' & rec' & r1 & p1 & E1 & Ha1 & _).
    rewrite (bind_Done _ _ _ _ _ E1) in E. injection E as <-. eauto.
  - destruct (Position_spec f Hsmall r p off Ha Hcl) as (r1 & E1 & _ & Ha1). apply bind_inv in E as (a & r2 & E2 & E). injection E as <-.
    unfold SkipRecords in E2. rewrite (bind_Done _ _ _ _ _ E1) in E2. destruct (ok _); cbn [negb] in E2; [|injection E2 as _ <-; eauto].
    destruct (skip_records_keeps f Hsmall Hbytes (Z.to_nat num) r1 _ off 0 [] Ha1) as [(a' & r3 & E3 & _ & Hp)|E3]; [|by rewrite E3 in E2].
    rewrite E3 in E2. by injection E2 as _ <-.
  - apply bind_inv in E as (a & r2 & E2 & E). injection E as <-. unfold GetMetadata, bind at 1, get in E2.
    destruct (cached_metadata_ r); [injection E2 as _ <-; eauto|]. destruct (law_reset _ p Ha) as (i & E1 & Hi).
    unfold bind at 1, on_stream in E2. rewrite E1 in E2. cbn [ok negb] in E2. apply bind_inv in E2 as ([s [ds e]] & r3 & E3 & E2).
    destruct (metadata_keeps f Hsmall Hbytes fuel (mkReader i (last_read_failed_ r) (cached_metadata_ r)) 0 [] 0 0 Hi _ _ E3) as (p3 & Hp3).
    cbv beta iota in E2. destruct (ok s); cbn [negb] in E2; [|injection E2 as _ <-; eauto]. unfold bind, modify, ret in E2. injection E2 as _ <-.
    exists p3. exact Hp3.
Qed.

Lemma reader_runs_keep cs r p r' : reader_at f r p -> Forall call_ok cs -> reader_runs cs r = Done (tt, r') -> exists p', reader_at f r' p'.
Proof using Hsmall Hbytes.
  revert r p. induction cs as [|cl cs IH]; intros r p Ha Hcs E; cbn [reader_runs] in E; [injection E as <-; eauto|].
  apply Forall_cons in Hcs as [Hcl Hcs]. apply bind_inv in E as ([] & r1 & E1 & E). destruct (reader_run_keeps cl r p r1 Ha Hcl E1) as (p1 & Ha1). eauto.
Qed.
End calls.

(** A record is read exactly when it is there, whatever the reader did
    before: [ReadRecord] at an offset of any file returns, and reports success
    if and only if the bytes at the offset are the encoding of the record it
    returns, both checksums included; then the new offset is just after it.
    Otherwise the offset is kept. *)
Theorem record_read_iff `{RandomAccessFile} f (buffer_size : Z) cs r off record :
  reads_whole f -> Forall is_byte f -> zlen f < 2 ^ 63 -> Forall call_ok cs ->
  reader_runs cs (RecordReader_new buffer_size) = Done (tt, r) -> 0 <= off < 2 ^ 63 ->
  exists s off' rec' r', ReadRecord off record r = Done ((s, off', rec'), r') /\
    (s = StatusOK <-> record_at f off rec') /\ (forall data, record_at f off data -> s = StatusOK /\ rec' = data) /\
    (s = StatusOK -> off' = off + (16 + zlen rec')) /\ (s <> StatusOK -> off' = off).
Proof.
  intros Hfile Hbytes Hsmall Hcs Hr Hoff. pose proof (new_at f Hfile Hsmall buffer_size) as Ha0.
  destruct (reader_runs_keep f Hsmall Hbytes cs _ 0 r Ha0 Hcs Hr) as (p & Ha).
  destruct (ReadRecord_spec f Hsmall Hbytes r p off record Ha Hoff) as (off' & rec' & r' & p' & E & _ & _ & Hok & Hne & _).
  exists (read_status f off), off', rec', r'. split; [exact E|]. split_and!; [| |intros Hs; apply (Hok Hs)|exact Hne].
  - split; [intros Hs; apply (Hok Hs)|]. intros Hrec. by apply (record_status f Hsmall off rec'); [lia|].
  - intros data Hrec. destruct (ReadRecord_at f Hsmall Hbytes r p off data record Ha ltac:(lia) Hrec) as (r1 & p1 & E1 & _).
    rewrite E in E1. by injection E1 as -> _ -> _.
Qed.

Lemma record_read_iff_witness : let f := encodings demo_records in
  exists s off' rec' r', @ReadRecord _ (@Stream_interface (memory_file f)) 18 [] (@RecordReader_new (memory_file f) 3) = Done ((s, off', rec'), r') /\
    (forall data, record_at f 18 data -> s = StatusOK /\ rec' = data).
Proof.
  intros f. destruct (@record_read_iff (memory_file f) f 3 [] (@RecordReader_new (memory_file f) 3) 18 [] (memory_file_reads f)) as (s & off' & rec' & r' & E & _ & H2 & _).
  - apply encodings_bytes. repeat constructor; lia.
  - reflexivity.
  - constructor.
  - reflexivity.
  - lia.
  - exists s, off', rec', r'. split; [exact E|exact H2].
Defined.

(** On a written file [SkipRecords] and [GetMetadata] agree with the
    records: skipping [n] of them stops after the first [n], or at the end with
    [OUT_OF_RANGE] and the number skipped when there are fewer; the metadata are
    the number of records, the bytes of their data and the size of the file. *)
Theorem record_skip_metadata `{RandomAccessFile} ds (buffer_size num : Z) (md : Stats) (fuel : nat) :
  let f := encodings ds in reads_whole f -> Forall (Forall is_byte) ds -> zlen f < 2 ^ 63 -> 0 <= num -> (length ds < fuel)%nat ->
  (exists r, SkipRecords 0 num 0 (RecordReader_new buffer_size) =
     Done ((if num <=? Z.of_nat (length ds) then StatusOK else StatusError OUT_OF_RANGE, zlen (encodings (take (Z.to_nat num) ds)), Z.min num (Z.of_nat (length ds))), r)) /\
  (exists r, GetMetadata fuel (Some md) (RecordReader_new buffer_size) =
     Done ((StatusOK, Some (mkStats (zlen f) (zlen f - 16 * Z.of_nat (length ds)) (Z.of_nat (length ds)))), r)).
Proof.
  intros f Hfile Hb Hsmall Hnum Hfuel. assert (Hbytes : Forall is_byte f) by (by apply encodings_bytes). pose proof (new_at f Hfile Hsmall buffer_size) as Ha.
  assert (Hrec : forall n, records_at f 0 (take n ds)).
  { intros n. apply records_at_intro; [done|]. unfold file_range. rewrite drop_0. unfold f, encodings. rewrite <-(take_drop n ds) at 2.
    rewrite map_app, concat_app. apply take_app_length'. unfold zlen. lia. }
  split.
  - destruct (Position_spec f Hsmall _ 0 0 Ha ltac:(lia)) as (r1 & E1 & _ & Ha1). unfold SkipRecords. rewrite (bind_Done _ _ _ _ _ E1).
    unfold end_status, end_pos in *. pose proof (zlen_ge_0 f). destruct (Z.leb_spec (0 + 0) (zlen f)); [|lia]. rewrite Z.min_l in Ha1 by lia. cbn [ok negb].
    destruct (skip_records_at f Hsmall Hbytes (take (Z.to_nat num) ds) r1 0 0 [] Ha1 (Hrec _) ltac:(lia)) as (r2 & res & E2 & Ha2).
    rewrite Z.add_0_l in *. destruct (Z.leb_spec num (Z.of_nat (length ds))) as [Hle|Hgt].
    + exists r2. specialize (E2 0%nat). rewrite length_take, Nat.add_0_r, Nat.min_l in E2 by lia. rewrite E2. cbn [skip_records]. unfold ret. do 4 f_equal. lia.
    + rewrite take_ge in * by lia. assert (exists m, Z.to_nat num = (length ds + Datatypes.S m)%nat) as [m ->] by (exists (Z.to_nat num - length ds - 1)%nat; lia).
      rewrite E2. cbn [skip_records].
      destruct (ReadChecksummed_spec f Hsmall Hbytes r2 (zlen f) 8 res Ha2 ltac:(lia)) as (res2 & r3 & E3 & _). fold f.
      assert (Hst : checked_status f (zlen f) 8 = StatusError OUT_OF_RANGE).
      { unfold checked_status. destruct (Z.ltb_spec (zlen f) (zlen f + (8 + 4))); [done|lia]. }
      rewrite Hst in E3. rewrite (bind_Done _ _ _ _ _ E3). cbv beta iota. cbn [ok negb]. eexists. unfold fail_read, bind, modify, ret. do 4 f_equal. lia.
  - specialize (Hrec (length ds)). rewrite take_ge in Hrec by lia. unfold GetMetadata, bind at 1, get. cbn [cached_metadata_ RecordReader_new].
    destruct (law_reset _ 0 Ha) as (i & E1 & Hi). unfold bind at 1, on_stream. rewrite E1. cbn [ok negb]. set (r1 := mkReader i _ _).
    pose proof (zlen_ge_0 f). assert (Hlen : 16 * Z.of_nat (length ds) <= zlen f).
    { unfold f. clear. induction ds as [|d ds IH]; [done|]. rewrite encodings_cons. pose proof (zlen_ge_0 d). simpl. lia. }
    destruct (metadata_at f Hsmall Hbytes ds r1 0 [] 0 0 Hi Hrec ltac:(lia) ltac:(lia) ltac:(unfold f in Hsmall; lia) ltac:(lia)) as (r2 & res & E2 & Ha2).
    rewrite !Z.add_0_l in *. fold f in E2, Ha2. assert (exists m, fuel = (length ds + Datatypes.S m)%nat) as [m ->] by (exists (fuel - length ds - 1)%nat; lia).
    unfold bind at 1. rewrite E2. cbn [metadata_loop].
    destruct (ReadChecksummed_spec f Hsmall Hbytes r2 (zlen f) 8 res Ha2 ltac:(lia)) as (res2 & r3 & E3 & _).
    assert (Hst : checked_status f (zlen f) 8 = StatusError OUT_OF_RANGE).
    { unfold checked_status. destruct (Z.ltb_spec (zlen f) (zlen f + (8 + 4))); [done|lia]. }
    rewrite Hst in E3. rewrite (bind_Done _ _ _ _ _ E3). cbv beta iota. cbn [ok negb]. unfold ret at 1. change (IsOutOfRange (StatusError OUT_OF_RANGE)) with true.
    cbv beta iota. cbn [ok negb]. eexists. unfold bind, modify, ret, kHeaderSize, kFooterSize. do 5 f_equal.
    rewrite (u64_small ((8 + 4 + 4) * _)) by (unfold in_u64; lia). rewrite u64_small, i64_small by (unfold in_i64, in_u64; lia). lia.
Qed.

Lemma record_skip_metadata_witness : let f := encodings demo_records in
  (exists r, @SkipRecords _ (@Stream_interface (memory_file f)) 0 2 0 (@RecordReader_new (memory_file f) 0) = Done ((StatusOK, 34, 2), r)) /\
  (exists r, @GetMetadata _ (@Stream_interface (memory_file f)) 4 (Some (mkStats 0 0 0)) (@RecordReader_new (memory_file f) 0) = Done ((StatusOK, Some (mkStats 51 3 3)), r)).
Proof.
  intros f. apply (@record_skip_metadata (memory_file f) demo_records 0 2 (mkStats 0 0 0) 4 (memory_file_reads f)).
  - repeat constructor; lia.
  - reflexivity.
  - lia.
  - simpl. lia.
Defined.

(** A file that ends inside the header of a record is read as if it ended
    before it: after the records, a reader reports [OUT_OF_RANGE], the end of
    the file, for ever, although bytes are left, and never [DATA_LOSS]. *)
Theorem record_truncated_header `{RandomAccessFile} ds (junk : bytes) (buffer_size : Z) (k : nat) :
  let f := encodings ds ++ junk in reads_whole f -> Forall (Forall is_byte) ds -> Forall is_byte junk -> zlen f < 2 ^ 63 -> 0 < zlen junk < 12 ->
  exists rs q, read_n (length ds + k) (SequentialRecordReader_new buffer_size) = Done (map (pair StatusOK) ds ++ rs, q) /\
    length rs = k /\ Forall (fun x => fst x = StatusError OUT_OF_RANGE) rs.
Proof.
  intros f Hfile Hb Hj Hsmall Hjunk. assert (Hbytes : Forall is_byte f) by (apply Forall_app; split; [by apply encodings_bytes|done]).
  pose proof (new_at f Hfile Hsmall buffer_size) as Ha. pose proof (zlen_ge_0 (encodings ds)).
  assert (Hlen0 : zlen f = zlen (encodings ds) + zlen junk) by (unfold f; by rewrite zlen_app).
  assert (Hrec : records_at f 0 ds) by (apply records_at_intro; [done|]; unfold file_range; rewrite drop_0; apply take_app_length'; unfold zlen; lia).
  destruct (read_n_records f Hsmall Hbytes ds _ _ 0 Ha ltac:(lia) Hrec) as (r1 & p1 & E1 & Ha1). rewrite Z.add_0_l in E1.
  destruct (read_n_end f Hsmall Hbytes k r1 p1 (zlen (encodings ds)) Ha1 ltac:(lia)) as (rs & q & E2 & Hall & Hlen & _); [lia|].
  exists rs, q. unfold SequentialRecordReader_new. by rewrite (read_n_app _ _ _ _ _ E1 _ _ E2).
Qed.

Lemma record_truncated_header_witness : let f := encodings [[7]] ++ [1; 2; 3] in
  exists rs q, @read_n _ (@Stream_interface (memory_file f)) 2 (@SequentialRecordReader_new (memory_file f) 0) = Done ([(StatusOK, [7])] ++ rs, q) /\
    length rs = 1%nat /\ Forall (fun x => fst x = StatusError OUT_OF_RANGE) rs.
Proof.
  intros f. apply (@record_truncated_header (memory_file f) [[7]] [1; 2; 3] 0 1 (memory_file_reads f)).
  - repeat constructor; lia.
  - repeat constructor; lia.
  - reflexivity.
  - split; reflexivity.
Defined.

(** ** Buffered streams *)
Inductive stream_call := SRead (n : Z) | SSkip (n : Z) | SSeek (n : Z) | STell | SLine (eol : bool) | SSkipLine | SReset.
Inductive stream_reply := PBytes (s : Status) (d : bytes) | PStatus (s : Status) | PTell (p : Z).

Definition stream_run {S} `{InputStreamInterface S} (fuel : nat) (cl : stream_call) : M (BufferedInputStream S) stream_reply :=
  match cl with
  | SRead n => r <~ Buffered_ReadNBytes n [];; ret (PBytes (fst r) (snd r))
  | SSkip n => s <~ Buffered_SkipNBytes n;; ret (PStatus s)
  | SSeek n => s <~ Buffered_Seek n;; ret (PStatus s)
  | STell => b <~ get;; ret (PTell (Buffered_Tell b))
  | SLine eol => r <~ ReadLineHelper fuel eol;; ret (PBytes (fst r) (snd r))
  | SSkipLine => s <~ SkipLine fuel;; ret (PStatus s)
  | SReset => s <~ Buffered_Reset;; ret (PStatus s)
  end.

Fixpoint stream_runs {S} `{InputStreamInterface S} (fuel : nat) (cs : list stream_call) : M (BufferedInputStream S) (list stream_reply) :=
  match cs with
  | [] => ret []
  | cl :: cs => r <~ stream_run fuel cl;; rs <~ stream_runs fuel cs;; ret (r :: rs)
  end.

(** A cursor in a file: the reply and the next position. *)
Definition cursor_step f (cl : stream_call) (p : Z) : stream_reply * Z :=
  match cl with
  | SRead n => (PBytes (end_status f p n) (file_range f p n), end_pos f p n)
  | SSkip n => (PStatus (end_status f p n), end_pos f p n)
  | SSeek n => (PStatus (end_status f n 0), end_pos f n 0)
  | STell => (PTell p, p)
  | SLine eol =>
      let '(l, e) := line_of (drop (Z.to_nat p) f) in
      (PBytes (if e || negb (bool_decide (no_cr l = [])) then StatusOK else StatusError OUT_OF_RANGE) (no_cr l ++ (if e && eol then [10] else [])),
       p + zlen l + if e then 1 else 0)
  | SSkipLine =>
      let '(l, e) := line_of (drop (Z.to_nat p) f) in
      (PStatus (if e || negb (bool_decide (l = [])) then StatusOK else StatusError OUT_OF_RANGE), p + zlen l + if e then 1 else 0)
  | SReset => (PStatus StatusOK, 0)
  end.

Fixpoint cursor_steps f (cs : list stream_call) (p : Z) : list stream_reply :=
  match cs with
  | [] => []
  | cl :: cs => fst (cursor_step f cl p) :: cursor_steps f cs (snd (cursor_step f cl p))
  end.

(** Counts and positions are [int64]s that are not negative; a skip stays in range. *)
Definition stream_ok f (cl : stream_call) : Prop :=
  match cl with SRead n => 0 <= n | SSkip n => 0 <= n < 2 ^ 63 - zlen f | SSeek n => 0 <= n < 2 ^ 63 | _ => True end.

Section cursor.
Context {S : Type} `{InputStreamInterface S} f `{!StreamLaws S f}.
Hypothesis Hsmall : zlen f < 2 ^ 63.

Lemma line_len d : (length (fst (line_of d)) <= length d)%nat.
Proof using. induction d as [|c d IH]; [done|]. cbn [line_of]. destruct (c =? 10); simpl; lia. Qed.

Lemma stream_run_cursor cl b p fuel : buffered_at f b p -> stream_ok f cl -> (length f < fuel)%nat ->
  exists b', stream_run fuel cl b = Done (fst (cursor_step f cl p), b') /\ buffered_at f b' (snd (cursor_step f cl p)).
Proof using Hsmall.
  intros Hb Hcl Hfuel. pose proof (buffered_small f b p Hsmall Hb) as [Hp Htell]. destruct cl as [n|n|n| |eol| |]; cbn [stream_run cursor_step stream_ok fst snd] in *.
  - destruct (buffered_read f b p n [] Hb Hcl) as (b' & E & Hb'). exists b'. by rewrite (bind_Done _ _ _ _ _ E).
  - destruct (buffered_skip f b p n Hsmall Hb ltac:(lia) ltac:(lia)) as (b' & E & Hb'). exists b'. by rewrite (bind_Done _ _ _ _ _ E).
  - destruct (buffered_seek f b p n Hsmall Hb Hcl) as (b' & E & Hb'). exists b'. by rewrite (bind_Done _ _ _ _ _ E).
  - exists b. unfold bind, get, ret. by rewrite Htell.
  - destruct Hb as [q Hi]. pose proof (bi_pos _ _ _ _ Hi) as Hpos. pose proof (ReadLine_loop_spec f fuel eol b p q (bpos_ b) [] Hi ltac:(lia)) as Hline.
    pose proof (line_len (drop (Z.to_nat p) f)) as Hlen. rewrite length_drop in Hlen.
    destruct (line_of (drop (Z.to_nat p) f)) as [l e]. cbn [fst snd] in *. destruct (Hline ltac:(lia)) as (b' & E & Hb'). exists b'. split; [|done].
    unfold bind at 1, ReadLineHelper, bind at 1, get. rewrite E. cbn [app]. rewrite slice_empty. cbn [app].
    destruct e; [by destruct eol|]. cbn [orb andb]. rewrite app_nil_r. unfold ret. do 3 f_equal. cbn [fst].
    destruct (decide (no_cr l = [])) as [->|Hne]; [done|]. by rewrite bool_decide_eq_false_2.
  - destruct Hb as [q Hi]. pose proof (SkipLine_loop_spec f fuel b p q false Hi) as Hline.
    pose proof (line_len (drop (Z.to_nat p) f)) as Hlen. rewrite length_drop in Hlen.
    destruct (line_of (drop (Z.to_nat p) f)) as [l e]. cbn [fst snd] in *. destruct (Hline ltac:(lia)) as (b' & E & Hb'). exists b'. split; [|done].
    unfold bind at 1, SkipLine. rewrite E. by rewrite orb_false_r.
  - destruct (buffered_reset f b p Hb) as (b' & E & Hb'). exists b'. by rewrite (bind_Done _ _ _ _ _ E).
Qed.

Lemma stream_runs_cursor cs b p fuel : buffered_at f b p -> Forall (stream_ok f) cs -> (length f < fuel)%nat ->
  exists b', stream_runs fuel cs b = Done (cursor_steps f cs p, b').
Proof using Hsmall.
  revert b p. induction cs as [|cl cs IH]; intros b p Hb Hcs Hfuel; [by exists b|]. apply Forall_cons in Hcs as [Hcl Hcs].
  destruct (stream_run_cursor cl b p fuel Hb Hcl Hfuel) as (b1 & E1 & Hb1). destruct (IH b1 _ Hb1 Hcs Hfuel) as (b2 & E2).
  exists b2. cbn [stream_runs cursor_steps]. by rewrite (bind_Done _ _ _ _ _ E1), (bind_Done _ _ _ _ _ E2).
Qed.
End cursor.

(** C28. A buffered stream over a file is a cursor in the file, whatever the size
    of its buffer: reads, skips, seeks in both directions, positions and lines,
    in any order, answer as if every byte were read from the file at the current
    position, and [OUT_OF_RANGE] is reported exactly when the file ends. *)
Theorem buffered_stream_cursor `{RandomAccessFile} f (buffer_bytes : Z) cs fuel :
  reads_whole f -> zlen f < 2 ^ 63 -> 0 < buffer_bytes -> Forall (stream_ok f) cs -> (length f < fuel)%nat ->
  exists b, stream_runs fuel cs (Buffered_new Random_new buffer_bytes) = Done (cursor_steps f cs 0, b).
Proof.
  intros Hfile Hsmall Hb Hcs Hfuel. apply (@stream_runs_cursor _ _ f (random_laws f Hfile Hsmall) Hsmall); [|done|done].
  apply buffered_new; [|done]. split; [done|]. pose proof (zlen_ge_0 f). lia.
Qed.

(** A file of two lines with a carriage return, read through three bytes. *)
Lemma buffered_stream_cursor_witness : let f := [97; 98; 13; 10; 99; 100; 101] in
  exists b, @stream_runs _ (@Random_stream (memory_file f)) 8 [SRead 1; SLine false; STell; SSeek 1; SRead 4; SSkip 9; SSeek 5; SLine true; SLine true]
    (Buffered_new Random_new 3) =
  Done ([PBytes StatusOK [97]; PBytes StatusOK [98]; PTell 4; PStatus StatusOK; PBytes StatusOK [98; 13; 10; 99]; PStatus (StatusError OUT_OF_RANGE);
         PStatus StatusOK; PBytes StatusOK [100; 101]; PBytes (StatusError OUT_OF_RANGE) []], b).
Proof.
  intros f. apply (@buffered_stream_cursor (memory_file f) f 3 [SRead 1; SLine false; STell; SSeek 1; SRead 4; SSkip 9; SSeek 5; SLine true; SLine true] 8 (memory_file_reads f)).
  - reflexivity.
  - lia.
  - rewrite !Forall_cons. change (zlen f) with 7. cbn [stream_ok]. change (zlen f) with 7. split_and!; try done. all: lia.
  - simpl. lia.
Defined.

(** [ReadAll] drops what is buffered: on a fresh stream it returns the whole
    file, but after a read it returns neither the file nor the rest of it.  Here
    one byte of eight was read and the buffer has four. *)
Theorem read_all_drops_buffer : let f := [1; 2; 3; 4; 5; 6; 7; 8] in
  let fresh : BufferedInputStream RandomAccessInputStream := Buffered_new Random_new 4 in
  (exists b, @ReadAll _ (@Random_stream (memory_file f)) 9 fresh = Done ((StatusOK, f), b)) /\
  (exists b, (@Buffered_ReadNBytes _ (@Random_stream (memory_file f)) 1 [];;; @ReadAll _ (@Random_stream (memory_file f)) 9) fresh =
     Done ((StatusOK, [5; 6; 7; 8]), b)).
Proof. split; eexists; reflexivity. Qed.
