(* ===== verification/Cancellation.v ===== *)
(** * Cancellation managers (src/tensorflow/core/framework/cancellation.h,
    cancellation.cc)

    A manager keeps callbacks by token and a doubly linked list of child
    managers.  Managers are addressed by their location in a store, as the
    sibling pointers of the source need it; [None] is the null pointer, and
    following a pointer to no manager is [Crash].

    The methods take the manager's mutex once or twice and run callbacks in
    between; each critical section is one definition here.  A callback is a
    value of the type [CB]; running it is up to the client. *)
From S2P Require Import Prelude.
From stdpp Require Import options.
From stdpp Require Import functions list gmap options.
#[local] Open Scope tf_monad_scope.

Section cancellation.
Context {CB : Type}.

(** [CancellationManager::State]; [cancelled_notification] tells whether it has
    been notified. *)
Record State := mkState {
  cancelled_notification : bool;
  callbacks : gmap Z CB;
  first_child : option Z
}.

Record CancellationManager := mkCM {
  is_cancelling_ : bool;
  is_cancelled_ : bool;
  next_cancellation_token_ : Z;
  parent_ : option Z;
  is_removed_from_parent_ : bool;
  prev_sibling_ : option Z;
  next_sibling_ : option Z;
  state_ : option State
}.

Definition kInvalidToken : Z := -1.

Abbreviation CMs := (gmap Z CancellationManager).

Definition cm_at (c : Z) : M CMs CancellationManager := fun s =>
  match s !! c with Some m => Done (m, s) | None => Crash end.

Definition cm_set (c : Z) (m : CancellationManager) : M CMs unit := modify (<[c := m]>).

Definition with_flags (cancelling cancelled : bool) (m : CancellationManager) : CancellationManager :=
  mkCM cancelling cancelled (next_cancellation_token_ m) (parent_ m) (is_removed_from_parent_ m)
    (prev_sibling_ m) (next_sibling_ m) (state_ m).

Definition with_token (n : Z) (m : CancellationManager) : CancellationManager :=
  mkCM (is_cancelling_ m) (is_cancelled_ m) n (parent_ m) (is_removed_from_parent_ m)
    (prev_sibling_ m) (next_sibling_ m) (state_ m).

Definition with_state (st : option State) (m : CancellationManager) : CancellationManager :=
  mkCM (is_cancelling_ m) (is_cancelled_ m) (next_cancellation_token_ m) (parent_ m)
    (is_removed_from_parent_ m) (prev_sibling_ m) (next_sibling_ m) st.

Definition with_links (removed : bool) (p n : option Z) (m : CancellationManager) : CancellationManager :=
  mkCM (is_cancelling_ m) (is_cancelled_ m) (next_cancellation_token_ m) (parent_ m) removed p n (state_ m).

(** The constructor without a parent. *)
Definition CM_new : CancellationManager := mkCM false false 0 None false None None None.

Definition State_new : State := mkState false ∅ None.

(** [if (!state_) state_ = make_unique<State>()]. *)
Definition ensure_state (m : CancellationManager) : State := default State_new (state_ m).

(** [RegisterChild]: true if this manager is cancelled already. *)
Definition RegisterChild (p child : Z) : M CMs bool :=
  m <~ cm_at p;;
  if is_cancelled_ m || is_cancelling_ m then
    c <~ cm_at child;;
    cm_set child (with_links true (prev_sibling_ c) (next_sibling_ c) c);;;
    ret true
  else
    let st := ensure_state m in
    let current_head := first_child st in
    cm_set p (with_state (Some (mkState (cancelled_notification st) (callbacks st) (Some child))) m);;;
    c <~ cm_at child;;
    cm_set child (with_links (is_removed_from_parent_ c) None current_head c);;;
    match current_head with
    | None => ret tt
    | Some h =>
        hd <~ cm_at h;;
        cm_set h (with_links (is_removed_from_parent_ hd) (Some child) (next_sibling_ hd) hd)
    end;;;
    ret false.

(** The constructor with a parent; [c] is the location of the new manager. *)
Definition CM_new_child (c p : Z) : M CMs unit :=
  cm_set c (mkCM false false 0 (Some p) false None None None);;;
  cancelled <~ RegisterChild p c;;
  m <~ cm_at c;;
  cm_set c (with_flags (is_cancelling_ m) cancelled m).

(** The loop over the children in [StartCancel]: each is taken off the list and
    pushed to the front of [children_to_cancel]. *)
Fixpoint collect_children (fuel : nat) (child : option Z) (acc : list Z) : M CMs (list Z) :=
  match child with
  | None => ret acc
  | Some c =>
      match fuel with
      | O => out_of_fuel
      | S fuel =>
          m <~ cm_at c;;
          cm_set c (with_links true (prev_sibling_ m) (next_sibling_ m) m);;;
          collect_children fuel (next_sibling_ m) (c :: acc)
      end
  end.

(** The first critical section of [StartCancel]: [None] is the early return;
    otherwise the callbacks, the children and whether there is a notification.
    A list of siblings has no more members than there are managers. *)
Definition StartCancel_begin (c : Z) : M CMs (option (gmap Z CB * list Z * bool)) :=
  m <~ cm_at c;;
  if is_cancelled_ m || is_cancelling_ m then ret None
  else
    match state_ m with
    | None => cm_set c (with_flags true (is_cancelled_ m) m);;; ret (Some (∅, [], false))
    | Some st =>
        cm_set c (with_state (Some (mkState (cancelled_notification st) ∅ (first_child st)))
                    (with_flags true (is_cancelled_ m) m));;;
        s <~ get;;
        children <~ collect_children (size s) (first_child st) [];;
        m <~ cm_at c;;
        match state_ m with
        | None => crash
        | Some st' => cm_set c (with_state (Some (mkState (cancelled_notification st') (callbacks st') None)) m)
        end;;;
        ret (Some (callbacks st, children, true))
    end.

(** The second critical section of [StartCancel], and the notification after it. *)
Definition StartCancel_end (c : Z) : M CMs unit :=
  m <~ cm_at c;;
  cm_set c (with_flags false true m).

Definition StartCancel_notify (c : Z) : M CMs unit :=
  m <~ cm_at c;;
  match state_ m with
  | None => crash
  | Some st => cm_set c (with_state (Some (mkState true (callbacks st) (first_child st))) m)
  end.

Definition get_cancellation_token (c : Z) : M CMs Z :=
  m <~ cm_at c;;
  cm_set c (with_token (i64 (next_cancellation_token_ m + 1)) m);;;
  ret (next_cancellation_token_ m).

Definition RegisterCallback (c token : Z) (callback : CB) : M CMs bool :=
  m <~ cm_at c;;
  let should_register := negb (is_cancelled_ m) && negb (is_cancelling_ m) in
  (if should_register then
     let st := ensure_state m in
     cm_set c (with_state (Some (mkState (cancelled_notification st) (<[token := callback]> (callbacks st))
                                   (first_child st))) m)
   else ret tt);;;
  ret should_register.

Definition erase_callback (token : Z) (m : CancellationManager) : CancellationManager :=
  match state_ m with
  | None => m
  | Some st => with_state (Some (mkState (cancelled_notification st) (delete token (callbacks st)) (first_child st))) m
  end.

Definition TryDeregisterCallback (c token : Z) : M CMs bool :=
  m <~ cm_at c;;
  if is_cancelled_ m || is_cancelling_ m then ret false
  else cm_set c (erase_callback token m);;; ret true.

(** The critical section of [DeregisterCallback]: its result, or [None] when it
    waits for [cancelled_notification] and then returns false. *)
Definition DeregisterCallback_begin (c token : Z) : M CMs (option bool) :=
  m <~ cm_at c;;
  if is_cancelled_ m then ret (Some false)
  else if is_cancelling_ m then
    match state_ m with Some _ => ret None | None => ret (Some false) end
  else cm_set c (erase_callback token m);;; ret (Some true).

(** Taking [child], whose record is [c], out of the list of [p]. *)
Definition unlink_child (p : Z) (c : CancellationManager) : M CMs unit :=
  match prev_sibling_ c with
  | None =>
      m <~ cm_at p;;
      match state_ m with
      | None => crash
      | Some st =>
          cm_set p (with_state (Some (mkState (cancelled_notification st) (callbacks st) (next_sibling_ c))) m)
      end
  | Some b =>
      m <~ cm_at b;;
      cm_set b (with_links (is_removed_from_parent_ m) (prev_sibling_ m) (next_sibling_ c) m)
  end;;;
  match next_sibling_ c with
  | None => ret tt
  | Some a =>
      m <~ cm_at a;;
      cm_set a (with_links (is_removed_from_parent_ m) (prev_sibling_ c) (next_sibling_ m) m)
  end.

(** The critical section of [DeregisterChild]: whether it then waits.  Without a
    [state_], [&state_->cancelled_notification] dereferences a null pointer. *)
Definition DeregisterChild_begin (p child : Z) : M CMs bool :=
  c <~ cm_at child;;
  (if negb (is_removed_from_parent_ c) then
     unlink_child p c;;;
     c <~ cm_at child;;
     cm_set child (with_links true (prev_sibling_ c) (next_sibling_ c) c)
   else ret tt);;;
  m <~ cm_at p;;
  if is_cancelling_ m then
    match state_ m with None => crash | Some _ => ret true end
  else ret false.

Definition IsCancelled (c : Z) : M CMs bool := m <~ cm_at c;; ret (is_cancelled_ m).

Definition IsCancelling (c : Z) : M CMs bool := m <~ cm_at c;; ret (is_cancelling_ m).
End cancellation.

#[global] Arguments State CB : clear implicits.
#[global] Arguments CancellationManager CB : clear implicits.

Abbreviation CMs CB := (gmap Z (CancellationManager CB)).

(** * Cancellation managers: the lists of children

    Children of a manager form a doubly linked list through [prev_sibling_] and
    [next_sibling_], headed by [first_child].  [forest s L] says that the lists
    are [L p], without repetition, and hold exactly the managers with parent [p]
    that are not yet removed from it.  Every operation keeps it. *)

Section forest.
Context {CB : Type}.
Implicit Types (s : CMs CB) (m : CancellationManager CB) (p c : Z) (l : list Z) (L : Z -> list Z).

(** The fields of a manager that its parent's mutex protects. *)
Record link := mkLink {
  l_parent : option Z;
  l_removed : bool;
  l_prev : option Z;
  l_next : option Z
}.

Definition link_of m : link := mkLink (parent_ m) (is_removed_from_parent_ m) (prev_sibling_ m) (next_sibling_ m).

Definition view s : gmap Z link := link_of <$> s.

(** A segment of siblings [l] from [h]: [prev] precedes it, [lst] is the last
    one and [e] follows. *)
Fixpoint dseg (V : gmap Z link) p (prev h : option Z) l (lst e : option Z) : Prop :=
  match l with
  | [] => h = e /\ prev = lst
  | c :: l => h = Some c /\ exists n, V !! c = Some (mkLink (Some p) false prev n) /\ dseg V p (Some c) n l lst e
  end.

Definition head_of m : option Z := first_child (ensure_state m).

Definition stopped m : bool := is_cancelled_ m || is_cancelling_ m.

Record lists (V : gmap Z link) (H : gmap Z (option Z * bool)) L : Prop := {
  fo_list p h b : H !! p = Some (h, b) -> exists lst, dseg V p None h (L p) lst None;
  fo_none p : H !! p = None -> L p = [];
  fo_nodup p : NoDup (L p);
  fo_mem c p pr n : V !! c = Some (mkLink (Some p) false pr n) -> c ∈ L p /\ is_Some (H !! p);
  fo_stopped p h : H !! p = Some (h, true) -> L p = [];
  fo_dom c : is_Some (V !! c) <-> is_Some (H !! c)
}.

(** Head of the list of children, and whether the manager takes no more. *)
Definition top_of m : option Z * bool := (head_of m, stopped m).

Definition tops s : gmap Z (option Z * bool) := top_of <$> s.

Definition forest s L : Prop := lists (view s) (tops s) L.

Lemma dseg_app V p prev h l1 l2 lst e : dseg V p prev h (l1 ++ l2) lst e <->
  exists lst1 mid, dseg V p prev h l1 lst1 mid /\ dseg V p lst1 mid l2 lst e.
Proof.
  revert prev h. induction l1 as [|c l1 IH]; intros prev h; simpl.
  - naive_solver.
  - setoid_rewrite IH. naive_solver.
Qed.

Lemma dseg_ext V V' p prev h l lst e : (forall c, c ∈ l -> V' !! c = V !! c) ->
  dseg V p prev h l lst e -> dseg V' p prev h l lst e.
Proof.
  revert prev h. induction l as [|c l IH]; intros prev h HV; simpl; [done|]. intros (-> & n & Hc & Hl). split; [done|].
  exists n. rewrite HV by left. split; [done|]. apply IH; [|done]. intros y Hy. apply HV. by right.
Qed.

Lemma dseg_elem V p prev h l lst e c : dseg V p prev h l lst e -> c ∈ l -> exists pr n, V !! c = Some (mkLink (Some p) false pr n).
Proof.
  revert prev h. induction l as [|x l IH]; intros prev h; [by intros _ ?%not_elem_of_nil|].
  simpl. intros (_ & n & Hx & Hl) [->|Hc]%elem_of_cons; [by eauto|by eapply IH].
Qed.

Lemma dseg_insert V p prev h l lst e c x : c ∉ l -> dseg V p prev h l lst e -> dseg (<[c := x]> V) p prev h l lst e.
Proof. intros Hc. apply dseg_ext. intros y Hy. apply lookup_insert_ne. by intros ->. Qed.

Section in_forest.
Context V H L (Hf : lists V H L).

Lemma forest_elem c p : c ∈ L p -> exists pr n, V !! c = Some (mkLink (Some p) false pr n).
Proof using Hf.
  intros Hc. destruct (H !! p) as [[h b]|] eqn:Hp.
  - destruct (fo_list _ _ _ Hf p h b Hp) as [lst Hl]. by eapply dseg_elem.
  - rewrite (fo_none _ _ _ Hf p Hp) in Hc. by apply not_elem_of_nil in Hc.
Qed.

Lemma forest_one_parent c p p' : c ∈ L p -> c ∈ L p' -> p = p'.
Proof using Hf. intros (? & ? & H1)%forest_elem (? & ? & H2)%forest_elem. congruence. Qed.

(** A change of the list of [p] only. *)
Lemma lists_update V' H' p h b l :
  (exists lst, dseg V' p None h l lst None) -> NoDup l -> (b = true -> l = []) -> H' !! p = Some (h, b) ->
  (forall p', p' <> p -> H' !! p' = H !! p' \/ (H !! p' = None /\ exists b', H' !! p' = Some (None, b'))) ->
  (forall c p', p' <> p -> c ∈ L p' -> V' !! c = V !! c) ->
  (forall c p' pr n, V' !! c = Some (mkLink (Some p') false pr n) ->
     p' = p /\ c ∈ l \/ p' <> p /\ exists pr' n', V !! c = Some (mkLink (Some p') false pr' n')) ->
  (forall c, is_Some (V' !! c) <-> is_Some (H' !! c)) ->
  lists V' H' (<[p := l]> L).
Proof using Hf.
  intros Hl Hnd Hb Hp HH Hsame Hmem Hdom. destruct Hf as [H1 H2 H3 H4 H5 H6].
  assert (Hother : forall p', p' <> p -> H !! p' = None -> L p' = []) by (intros; by apply H2).
  split; try done.
  - intros p' h' b' Hp'. destruct (decide (p = p')) as [<-|Hne]; [rewrite fn_lookup_insert; by simplify_eq|].
    rewrite fn_lookup_insert_ne by done. destruct (HH p' ltac:(done)) as [He|(He & b1 & He')].
    + rewrite He in Hp'. destruct (H1 p' h' b' Hp') as [lst Hlst]. exists lst. eapply dseg_ext; [|exact Hlst].
      intros c. by apply Hsame.
    + rewrite (H2 p' He). rewrite Hp' in He'. injection He' as -> ->. by exists None.
  - intros p' Hp'. destruct (decide (p = p')) as [<-|Hne]; [congruence|]. rewrite fn_lookup_insert_ne by done.
    destruct (HH p' ltac:(done)) as [He|(He & b1 & He')]; [|congruence]. apply H2. congruence.
  - intros p'. destruct (decide (p = p')) as [<-|Hne]; [by rewrite fn_lookup_insert|by rewrite fn_lookup_insert_ne].
  - intros c p' pr n Hc. destruct (Hmem c p' pr n Hc) as [[-> Hin]|[Hne (pr' & n' & Hc')]].
    + rewrite fn_lookup_insert. split; [done|by eexists].
    + rewrite fn_lookup_insert_ne by done. destruct (H4 c p' pr' n' Hc') as [Hin Hs]. split; [done|].
      destruct (HH p' Hne) as [->|(He & _)]; [done|]. rewrite He in Hs. by destruct Hs.
  - intros p' h' Hp'. destruct (decide (p = p')) as [<-|Hne].
    + rewrite fn_lookup_insert. apply Hb. congruence.
    + rewrite fn_lookup_insert_ne by done. destruct (HH p' ltac:(done)) as [He|(He & b1 & He')].
      * apply (H5 p' h'). congruence.
      * by apply H2.
Qed.
End in_forest.

(** ** Changing neighbours *)
Definition set_prev (x : option Z) (k : link) : link := mkLink (l_parent k) (l_removed k) x (l_next k).

Definition set_next (x : option Z) (k : link) : link := mkLink (l_parent k) (l_removed k) (l_prev k) x.

Definition at_opt (f : link -> link) (x : option Z) (V : gmap Z link) : gmap Z link :=
  match x with Some a => alter f a V | None => V end.

Lemma at_opt_ne f x V c : x <> Some c -> at_opt f x V !! c = V !! c.
Proof. intros Hne. destruct x as [a|]; [|done]. apply lookup_alter_ne. congruence. Qed.

Lemma at_opt_some f x V c : is_Some (at_opt f x V !! c) <-> is_Some (V !! c).
Proof. destruct x as [a|]; [apply lookup_alter_is_Some|done]. Qed.

(** The parent and the flag of a node stay. *)
Lemma at_opt_owner f x V c (p : option Z) r pr n : (forall k, l_parent (f k) = l_parent k /\ l_removed (f k) = l_removed k) ->
  at_opt f x V !! c = Some (mkLink p r pr n) -> exists pr' n', V !! c = Some (mkLink p r pr' n').
Proof.
  intros Hf Hc. destruct (decide (x = Some c)) as [->|Hne]; [|rewrite at_opt_ne in Hc by done; eauto].
  simpl in Hc. rewrite lookup_alter_eq in Hc. destruct (V !! c) as [[p' r' pr' n']|]; [|done]. simpl in Hc.
  destruct (Hf (mkLink p' r' pr' n')) as [H1 H2]. injection Hc as Hc. rewrite Hc in H1, H2. simpl in *. subst. eauto.
Qed.

Lemma dseg_set_prev V p prev prev' h l lst : NoDup l -> dseg V p prev h l lst None ->
  exists lst', dseg (at_opt (set_prev prev') h V) p prev' h l lst' None.
Proof.
  intros Hnd Hl. destruct l as [|a l]; [destruct Hl as [-> _]; by exists prev'|].
  destruct Hl as (-> & n & Ha & Hl). apply NoDup_cons in Hnd as [Hal _]. exists lst. split; [done|]. exists n.
  cbn [at_opt]. rewrite lookup_alter_eq, Ha. split; [done|]. eapply dseg_ext; [|exact Hl].
  intros x Hx. apply lookup_alter_ne. by intros ->.
Qed.

Lemma dseg_set_next V p prev h l b lst e e' : NoDup (l ++ [b]) -> dseg V p prev h (l ++ [b]) lst e ->
  dseg (at_opt (set_next e') (Some b) V) p prev h (l ++ [b]) (Some b) e'.
Proof.
  intros (_ & Hlb & _)%NoDup_app (lst1 & mid & Hl & -> & n & Hb & _)%dseg_app. apply dseg_app. exists lst1, (Some b). split.
  - eapply dseg_ext; [|exact Hl]. intros x Hx. apply at_opt_ne. intros [= <-]. apply (Hlb b Hx). left.
  - split; [done|]. exists e'. cbn [at_opt]. by rewrite lookup_alter_eq, Hb.
Qed.

Lemma dseg_last V p prev h l b lst e : dseg V p prev h (l ++ [b]) lst e -> lst = Some b.
Proof. intros (lst1 & mid & _ & _ & n & _ & _ & H)%dseg_app. done. Qed.

Lemma dseg_at_opt f x V p prev h l lst e : (forall c, x = Some c -> c ∉ l) -> dseg V p prev h l lst e ->
  dseg (at_opt f x V) p prev h l lst e.
Proof. intros Hx. apply dseg_ext. intros c Hc. apply at_opt_ne. intros ->. by apply (Hx c). Qed.

(** ** The operations on lists *)
Section list_ops.
Context V H L (Hf : lists V H L).

(** A change of what else is known of a manager. *)
Lemma lists_same p h b b' : H !! p = Some (h, b) -> (b' = true -> L p = []) -> lists V (<[p := (h, b')]> H) L.
Proof using Hf.
  intros Hp Hb. pose proof Hf as [H1 H2 H3 H4 H5 H6].
  assert (Hs : forall q, is_Some (<[p := (h, b')]> H !! q) <-> is_Some (H !! q)).
  { intros q. rewrite lookup_insert_is_Some'. split; [|by right]. intros [<-|]; [by rewrite Hp|done]. }
  split; try done.
  - intros q h' b0 [[<- [= <- <-]]|[_ Hq]]%lookup_insert_Some; [by apply (H1 p h b)|by eapply H1].
  - intros q [Hq _]%lookup_insert_None. by apply H2.
  - intros c q pr n Hc. rewrite Hs. by eapply H4.
  - intros q h' [[<- [= _ Ht]]|[_ Hq]]%lookup_insert_Some; [by apply Hb|by eapply H5].
  - intros c. by rewrite Hs.
Qed.

(** A manager in no list. *)
Lemma lists_add c k b : V !! c = None -> (forall p pr n, k <> mkLink (Some p) false pr n) ->
  lists (<[c := k]> V) (<[c := (None, b)]> H) L.
Proof using Hf.
  intros Hc Hk. pose proof Hf as [H1 H2 H3 H4 H5 H6].
  assert (HcH : H !! c = None) by (apply eq_None_not_Some; rewrite <-H6, Hc; by intros [? ?]).
  assert (Hs : forall q, is_Some (H !! q) -> is_Some (<[c := (None, b)]> H !! q)) by (intros; rewrite lookup_insert_is_Some'; by right).
  split.
  - intros q h' b0 [[<- [= <- <-]]|[_ Hq]]%lookup_insert_Some; [rewrite (H2 c HcH); by exists None|].
    destruct (H1 q h' b0 Hq) as [lst Hl]. exists lst. apply dseg_insert; [|done]. intros (? & ? & Hx)%(forest_elem _ _ _ Hf). congruence.
  - intros q [Hq _]%lookup_insert_None. by apply H2.
  - done.
  - intros x q pr n [[<- ->]|[_ Hx]]%lookup_insert_Some; [by destruct (Hk q pr n)|].
    destruct (H4 x q pr n Hx) as [? ?]. split; [done|by apply Hs].
  - intros q h' [[<- _]|[_ Hq]]%lookup_insert_Some; [by apply H2|by eapply H5].
  - intros x. rewrite !lookup_insert_is_Some'. by rewrite H6.
Qed.

Lemma lists_push c p h : H !! p = Some (h, false) -> V !! c = None ->
  lists (at_opt (set_prev (Some c)) h (<[c := mkLink (Some p) false None h]> V))
    (<[p := (Some c, false)]> (<[c := (None, false)]> H)) (<[p := c :: L p]> L).
Proof using Hf.
  intros Hp Hc. pose proof Hf as [H1 H2 H3 H4 H5 H6]. destruct (H1 p h false Hp) as [lst Hl].
  assert (Hnc : forall q, c ∉ L q) by (intros q (? & ? & Hx)%(forest_elem _ _ _ Hf); congruence).
  assert (Hhc : h <> Some c).
  { intros ->. destruct (L p) as [|x l] eqn:E; [by destruct Hl|]. destruct Hl as [[= <-] _]. apply (Hnc p). rewrite E. left. }
  assert (Hhp : forall x, h = Some x -> x ∈ L p).
  { intros x ->. destruct (L p) as [|y l]; [by destruct Hl|]. destruct Hl as [[= <-] _]. left. }
  set (V1 := <[c := mkLink (Some p) false None h]> V).
  eapply (lists_update V H L Hf _ _ p (Some c) false (c :: L p)).
  - destruct (dseg_set_prev V1 p None (Some c) h (L p) lst (H3 p)) as [lst' Hl']; [by apply dseg_insert|].
    exists lst'. split; [done|]. exists h. rewrite at_opt_ne by done. unfold V1. by rewrite lookup_insert_eq.
  - by constructor.
  - done.
  - by rewrite lookup_insert_eq.
  - intros q Hq. rewrite lookup_insert_ne by done. destruct (decide (c = q)) as [<-|Hne].
    + right. rewrite lookup_insert_eq. split; [|by eexists]. apply eq_None_not_Some. rewrite <-H6, Hc. by intros [? ?].
    + left. by rewrite lookup_insert_ne.
  - intros x q Hq Hx. rewrite at_opt_ne.
    + unfold V1. rewrite lookup_insert_ne; [done|]. intros <-. by apply (Hnc q).
    + intros ->. apply Hq. eapply (forest_one_parent _ _ _ Hf x); [done|by apply Hhp].
  - intros x q pr n (pr' & n' & Hx)%at_opt_owner; [|done].
    apply lookup_insert_Some in Hx as [[<- [= <- _ _]]|[Hne Hx]]; [left; split; [done|left]|].
    destruct (decide (q = p)) as [->|Hqp]; [|right; eauto]. left. split; [done|]. right. by destruct (H4 x p pr' n' Hx).
  - intros x. rewrite at_opt_some. unfold V1. rewrite !lookup_insert_is_Some', <-H6.
    split; [intros [<-|]; by auto|intros [<-|[]]; [|by auto..]]. right. apply H6. by rewrite Hp.
Qed.

Lemma lists_remove c p h b pr n l1 l2 : H !! p = Some (h, b) -> V !! c = Some (mkLink (Some p) false pr n) ->
  L p = l1 ++ c :: l2 ->
  lists (<[c := mkLink (Some p) true pr n]> (at_opt (set_prev pr) n (at_opt (set_next n) pr V)))
    (<[p := (match pr with Some _ => h | None => n end, b)]> H) (<[p := l1 ++ l2]> L).
Proof using Hf.
  intros Hp Hc HL. pose proof Hf as [H1 H2 H3 H4 H5 H6]. destruct (H1 p h b Hp) as [lst Hl]. pose proof (H3 p) as Hnd.
  rewrite HL in Hl, Hnd. apply dseg_app in Hl as (pr' & mid & Hl1 & -> & n' & Hc' & Hl2). rewrite Hc in Hc'.
  injection Hc' as <- <-. pose proof Hnd as (Hnd1 & Hd12 & [Hc2 Hnd2]%NoDup_cons)%NoDup_app.
  assert (Hc1 : c ∉ l1) by (intros Hin; apply (Hd12 c Hin); left).
  assert (Hpr : forall x, pr = Some x -> x ∈ l1).
  { intros x ->. destruct l1 as [|y l1 _] using rev_ind; [by destruct Hl1|]. pose proof (dseg_last _ _ _ _ _ _ _ _ Hl1) as [= ->].
    apply elem_of_app. right. left. }
  assert (Hn : forall x, n = Some x -> x ∈ l2).
  { intros x ->. destruct l2 as [|y l2]; [by destruct Hl2|]. destruct Hl2 as [[= <-] _]. left. }
  set (V1 := at_opt (set_next n) pr V). set (V2 := at_opt (set_prev pr) n V1).
  assert (Hd : forall x, x ∈ l1 -> x ∉ l2) by (intros x Hx Hx2; apply (Hd12 x Hx); by right).
  eapply (lists_update V H L Hf _ _ p (match pr with Some _ => h | None => n end) b (l1 ++ l2)).
  - destruct (dseg_set_prev V1 p (Some c) pr n l2 lst Hnd2) as [lst' Hl2'].
    { apply dseg_at_opt; [|done]. intros x Hx. by apply Hd, Hpr. }
    exists lst'. apply dseg_insert; [by rewrite elem_of_app; intros [?|?]|].
    destruct l1 as [|y l1 _] using rev_ind.
    + destruct Hl1 as [_ <-]. done.
    + pose proof (dseg_last _ _ _ _ _ _ _ _ Hl1) as ->. apply dseg_app. exists (Some y), n. split; [|done].
      apply dseg_at_opt; [intros x Hx Hx1; by apply (Hd x Hx1), Hn|]. by eapply dseg_set_next.
  - apply NoDup_app. split_and!; done.
  - intros ->. pose proof (H5 p h Hp) as He. rewrite HL in He. by destruct l1.
  - by rewrite lookup_insert_eq.
  - intros q Hq. left. by rewrite lookup_insert_ne.
  - intros x q Hq Hx. assert (HxL : x ∉ L p) by (intros HxL; apply Hq; by eapply (forest_one_parent _ _ _ Hf x)).
    rewrite HL, elem_of_app, elem_of_cons in HxL. rewrite lookup_insert_ne by naive_solver.
    unfold V2, V1. rewrite !at_opt_ne; naive_solver.
  - intros x q pr' n' [[<- [=]]|[Hne Hx]]%lookup_insert_Some.
    apply at_opt_owner in Hx as (pr1 & n1 & Hx); [|done]. apply at_opt_owner in Hx as (pr2 & n2 & Hx); [|done].
    destruct (decide (q = p)) as [->|Hqp]; [|right; eauto]. left. split; [done|]. destruct (H4 x p _ _ Hx) as [Hin _].
    rewrite HL in Hin. rewrite elem_of_app, elem_of_cons in Hin. rewrite elem_of_app. naive_solver.
  - intros x. rewrite !lookup_insert_is_Some'. unfold V2, V1. rewrite !at_opt_some, H6.
    split; (intros [<-|]; [|by right]); right; [apply H6; by rewrite Hc|by rewrite Hp].
Qed.

Lemma lists_clear V' p h b : H !! p = Some (h, b) -> (forall c, c ∉ L p -> V' !! c = V !! c) ->
  (forall c, c ∈ L p -> exists k, V' !! c = Some k /\ l_removed k = true) ->
  lists V' (<[p := (None, true)]> H) (<[p := []]> L).
Proof using Hf.
  intros Hp Hout Hin. pose proof Hf as [H1 H2 H3 H4 H5 H6].
  assert (Hdom : forall x, is_Some (V' !! x) <-> is_Some (V !! x)).
  { intros x. destruct (decide (x ∈ L p)) as [Hx|Hx]; [|by rewrite Hout].
    destruct (Hin x Hx) as (k & -> & _). destruct (forest_elem _ _ _ Hf x p Hx) as (pr & n & ->). by split; eexists. }
  eapply (lists_update V H L Hf _ _ p None true []).
  - by exists None.
  - constructor.
  - done.
  - by rewrite lookup_insert_eq.
  - intros q Hq. left. by rewrite lookup_insert_ne.
  - intros x q Hq Hx. apply Hout. intros HxL. apply Hq. by eapply (forest_one_parent _ _ _ Hf x).
  - intros x q pr n Hx. destruct (decide (x ∈ L p)) as [HxL|HxL].
    + destruct (Hin x HxL) as (k & Hk & Hr). rewrite Hk in Hx. by simplify_eq.
    + rewrite Hout in Hx by done. right. split; [|eauto]. intros ->. by destruct (H4 x p pr n Hx).
  - intros x. rewrite lookup_insert_is_Some', Hdom, H6. split; [by right|]. intros [<-|]; [by rewrite Hp|done].
Qed.
End list_ops.

(** Reading a list off the links. *)
Fixpoint siblings (fuel : nat) s (h : option Z) : list Z :=
  match h, fuel with
  | Some c, S fuel => match s !! c with Some m => c :: siblings fuel s (next_sibling_ m) | None => [] end
  | _, _ => []
  end.

Definition children s p : list Z :=
  match s !! p with Some m => siblings (size s) s (head_of m) | None => [] end.

Lemma siblings_dseg s p l : forall fuel prev h lst, dseg (view s) p prev h l lst None -> (length l <= fuel)%nat ->
  siblings fuel s h = l.
Proof.
  induction l as [|c l IH]; intros fuel prev h lst Hl Hlen.
  - destruct Hl as [-> _]. by destruct fuel.
  - destruct Hl as (-> & n & Hc & Hl). destruct fuel as [|fuel]; [simpl in Hlen; lia|]. cbn [siblings].
    unfold view in Hc. rewrite lookup_fmap in Hc. destruct (s !! c) as [m|]; [|done]. injection Hc as _ _ _ <-.
    f_equal. eapply IH; [exact Hl|simpl in Hlen; lia].
Qed.

Lemma forest_length s L p : forest s L -> (length (L p) <= size s)%nat.
Proof.
  intros Hf. rewrite <-size_dom, <-(size_list_to_set (C := gset Z) (L p) (fo_nodup _ _ _ Hf p)). apply subseteq_size.
  intros c Hc%elem_of_list_to_set. destruct (forest_elem _ _ _ Hf c p Hc) as (pr & n & Hv). apply elem_of_dom.
  unfold view in Hv. rewrite lookup_fmap in Hv. by destruct (s !! c).
Qed.

Lemma tops_lookup s p m : s !! p = Some m -> tops s !! p = Some (head_of m, stopped m).
Proof. intros Hp. unfold tops. by rewrite lookup_fmap, Hp. Qed.

Lemma view_lookup s c m : s !! c = Some m -> view s !! c = Some (link_of m).
Proof. intros Hc. unfold view. by rewrite lookup_fmap, Hc. Qed.

Lemma view_insert s c m : view (<[c := m]> s) = <[c := link_of m]> (view s).
Proof. apply fmap_insert. Qed.

Lemma tops_insert s c m : tops (<[c := m]> s) = <[c := top_of m]> (tops s).
Proof. apply fmap_insert. Qed.

Lemma children_forest s L p : forest s L -> children s p = L p.
Proof.
  intros Hf. unfold children. destruct (s !! p) as [m|] eqn:Hp.
  - destruct (fo_list _ _ _ Hf p _ _ (tops_lookup s p m Hp)) as [lst Hl]. eapply siblings_dseg; [exact Hl|].
    by apply forest_length.
  - by rewrite (fo_none _ _ _ Hf p) by (unfold tops; by rewrite lookup_fmap, Hp).
Qed.

(** ** The operations on managers *)
Lemma view_state s p m st : s !! p = Some m -> view (<[p := with_state st m]> s) = view s.
Proof. intros Hp. rewrite view_insert. apply insert_id. by rewrite (view_lookup s p m Hp). Qed.

Lemma tops_links s c m r a b : s !! c = Some m -> tops (<[c := with_links r a b m]> s) = tops s.
Proof. intros Hc. rewrite tops_insert. apply insert_id. by rewrite (tops_lookup s c m Hc). Qed.

Lemma alter_lookup {A} (f : A -> A) (V : gmap Z A) b k : V !! b = Some k -> alter f b V = <[b := f k]> V.
Proof.
  intros Hb. apply map_eq. intros x. destruct (decide (b = x)) as [<-|Hne].
  - by rewrite lookup_alter_eq, lookup_insert_eq, Hb.
  - by rewrite lookup_alter_ne, lookup_insert_ne.
Qed.

(** Other state of a manager changes. *)
Lemma forest_same s L p m m' : forest s L -> s !! p = Some m -> link_of m' = link_of m -> head_of m' = head_of m ->
  (stopped m' = true -> stopped m = true) -> forest (<[p := m']> s) L.
Proof.
  intros Hf Hp Hl Hh Hs. unfold forest. rewrite view_insert, tops_insert, Hl.
  rewrite (insert_id (view s)) by (by apply view_lookup). unfold top_of. rewrite Hh.
  eapply lists_same; [done|by apply tops_lookup|]. intros Hst. eapply fo_stopped; [done|].
  rewrite (tops_lookup s p m Hp). by rewrite Hs.
Qed.

Lemma forest_new s L c : forest s L -> s !! c = None -> forest (<[c := CM_new]> s) L.
Proof.
  intros Hf Hc. unfold forest. rewrite view_insert, tops_insert. apply lists_add; [done| |done].
  unfold view. by rewrite lookup_fmap, Hc.
Qed.

(** [&first_child] and the sibling pointers after a child registers. *)
Lemma CM_new_child_spec s L c p m : forest s L -> s !! c = None -> s !! p = Some m ->
  exists s', CM_new_child c p s = Done (tt, s') /\
    forest s' (if stopped m then L else <[p := c :: L p]> L) /\
    exists mc, s' !! c = Some mc /\ parent_ mc = Some p /\ is_cancelled_ mc = stopped m /\ is_cancelling_ mc = false.
Proof.
  intros Hf Hc Hp. assert (Hcp : c <> p) by congruence. unfold CM_new_child, RegisterChild, cm_set.
  unfold bind at 1, modify at 1. unfold bind at 1 2, cm_at at 1. rewrite lookup_insert_ne, Hp by done. fold (stopped m).
  assert (Hvc : view s !! c = None) by (unfold view; by rewrite lookup_fmap, Hc).
  destruct (stopped m) eqn:Hst.
  - unfold bind, cm_at, modify, ret. rewrite lookup_insert_eq. cbv beta iota. rewrite lookup_insert_eq, !insert_insert_eq.
    eexists. split; [done|]. split; [|eexists; rewrite lookup_insert_eq; by split_and!].
    unfold forest. rewrite view_insert, tops_insert. by apply lists_add.
  - set (m0 := mkCM false false 0 (Some p) false None None None). cbv zeta. fold (head_of m).
    set (mp := with_state _ m). unfold bind at 1, modify at 1. unfold bind at 1, cm_at at 1.
    rewrite lookup_insert_ne, lookup_insert_eq by done. unfold bind at 1, modify at 1.
    set (mc := with_links _ _ _ m0). set (s1 := <[c := mc]> (<[p := mp]> (<[c := m0]> s))).
    assert (Hv1 : view s1 = <[c := mkLink (Some p) false None (head_of m)]> (view s)).
    { unfold s1. rewrite !view_insert, (insert_insert_ne _ c p), insert_insert_eq by done.
      apply insert_id. rewrite lookup_insert_ne by done. by rewrite (view_lookup s p m Hp). }
    assert (Ht1 : tops s1 = <[p := (Some c, false)]> (<[c := (None, false)]> (tops s))).
    { unfold s1. rewrite !tops_insert. rewrite (insert_insert_ne _ c p), insert_insert_eq by done.
      unfold top_of, mp. change (stopped (with_state _ m)) with (stopped m). by rewrite Hst. }
    pose proof (lists_push _ _ _ Hf c p (head_of m)) as Hpush. rewrite (tops_lookup s p m Hp), Hst in Hpush.
    specialize (Hpush eq_refl Hvc). rewrite <-Hv1, <-Ht1 in Hpush. destruct (head_of m) as [h|] eqn:Hh.
    + assert (exists hd, s1 !! h = Some hd /\ h <> c) as (hd & Hhd & Hhc).
      { destruct (fo_list _ _ _ Hf p _ _ (tops_lookup s p m Hp)) as [lst Hl]. rewrite Hh in Hl.
        destruct (L p) as [|x l] eqn:E; [by destruct Hl|]. destruct Hl as ([= <-] & n & Hx & _).
        assert (h <> c) by congruence. unfold s1. rewrite lookup_insert_ne by done. unfold view in Hx. rewrite lookup_fmap in Hx.
        destruct (s !! h) as [hd|] eqn:Hs; [|done].
        destruct (decide (p = h)) as [<-|]; [rewrite lookup_insert_eq; by eexists|]. rewrite !lookup_insert_ne by done. by eexists. }
      unfold bind, cm_at, modify, ret. rewrite Hhd, lookup_insert_ne by done. unfold s1 at 1. rewrite lookup_insert_eq.
      eexists. split; [done|]. split; [|eexists; rewrite lookup_insert_eq; by split_and!].
      set (hd' := with_links _ _ _ hd). set (s2 := <[h := hd']> s1).
      assert (Hf2 : forest s2 (<[p := c :: L p]> L)).
      { unfold forest, s2. rewrite view_insert. unfold hd' at 2. rewrite tops_links by done. cbn [at_opt] in Hpush.
        by rewrite (alter_lookup _ _ h (link_of hd)) in Hpush by (by apply view_lookup). }
      eapply (forest_same s2 _ c mc); try done. unfold s2. rewrite lookup_insert_ne by done. by apply lookup_insert_eq.
    + unfold bind, cm_at, modify, ret. unfold s1 at 1. rewrite lookup_insert_eq.
      eexists. split; [done|]. split; [|eexists; rewrite lookup_insert_eq; by split_and!].
      eapply (forest_same s1 _ c mc); try done. by apply lookup_insert_eq.
Qed.

(** Taking the children off their list marks each of them. *)
Lemma collect_spec p l : forall fuel prev h acc s lst, dseg (view s) p prev h l lst None -> NoDup l -> (length l <= fuel)%nat ->
  exists s', collect_children fuel h acc s = Done (rev l ++ acc, s') /\ tops s' = tops s /\
    (forall c, c ∉ l -> s' !! c = s !! c) /\
    (forall c m, c ∈ l -> s !! c = Some m -> s' !! c = Some (with_links true (prev_sibling_ m) (next_sibling_ m) m)).
Proof.
  induction l as [|c l IH]; intros fuel prev h acc s lst Hl Hnd Hlen.
  - destruct Hl as [-> _]. exists s. split_and!; try done; [by destruct fuel|]. by intros c m ?%not_elem_of_nil.
  - destruct Hl as (-> & n & Hc & Hl). destruct fuel as [|fuel]; [simpl in Hlen; lia|]. apply NoDup_cons in Hnd as [Hcl Hnd].
    unfold view in Hc. rewrite lookup_fmap in Hc. destruct (s !! c) as [m|] eqn:Hm; [|done]. injection Hc as _ _ _ Hn.
    cbn [collect_children]. unfold bind at 1, cm_at. rewrite Hm. unfold bind at 1, cm_set, modify.
    set (s1 := <[c := with_links true (prev_sibling_ m) (next_sibling_ m) m]> s).
    destruct (IH fuel (Some c) (next_sibling_ m) (c :: acc) s1 lst) as (s' & E & Ht & Hout & Hin).
    { rewrite Hn. unfold s1. rewrite view_insert. by apply dseg_insert. }
    { done. }
    { simpl in Hlen. lia. }
    exists s'. simpl rev. rewrite <-(assoc_L (++)). split_and!; [done| | |].
    + rewrite Ht. by apply tops_links.
    + intros x Hx. rewrite not_elem_of_cons in Hx. rewrite Hout by naive_solver. unfold s1. rewrite lookup_insert_ne; naive_solver.
    + intros x mx [->|Hx]%elem_of_cons Hmx.
      * rewrite Hout by done. unfold s1. rewrite lookup_insert_eq. congruence.
      * apply Hin; [done|]. unfold s1. rewrite lookup_insert_ne; [done|]. by intros <-.
Qed.

Lemma forest_some s L c x : forest s L -> x ∈ L c -> is_Some (s !! x).
Proof.
  intros Hf Hx. destruct (forest_elem _ _ _ Hf x c Hx) as (? & ? & Hv). unfold view in Hv. rewrite lookup_fmap in Hv.
  destruct (s !! x); [by eexists|done].
Qed.

(** The first critical section of [StartCancel] with a [state_]. *)
Lemma StartCancel_begin_state s L p m st : forest s L -> s !! p = Some m -> stopped m = false -> state_ m = Some st ->
  exists s' mp, StartCancel_begin p s = Done (Some (callbacks st, rev (L p), true), s') /\
    forest s' (<[p := []]> L) /\ s' !! p = Some mp /\ is_cancelling_ mp = true /\ is_Some (state_ mp) /\
    forall c mc, c ∈ L p -> s' !! c = Some mc -> is_removed_from_parent_ mc = true.
Proof.
  intros Hf Hp Hst Hs. pose proof (tops_lookup s p m Hp) as Htp. destruct (fo_list _ _ _ Hf p _ _ Htp) as [lst Hl].
  unfold head_of, ensure_state in Hl. rewrite Hs in Hl. cbn [default] in Hl.
  unfold StartCancel_begin, bind at 1, cm_at at 1. rewrite Hp. fold (stopped m). rewrite Hst, Hs.
  set (m1 := with_flags true (is_cancelled_ m) m).
  set (m2 := with_state (Some (mkState (cancelled_notification st) ∅ (first_child st))) m1).
  unfold cm_set, bind at 1, modify at 1. set (s1 := <[p := m2]> s). unfold bind at 1, get.
  assert (H1 : s1 !! p = Some m2) by apply lookup_insert_eq.
  assert (Hv1 : view s1 = view s).
  { unfold s1. rewrite view_insert. apply insert_id. by rewrite (view_lookup s p m Hp). }
  destruct (collect_spec p (L p) (size s1) None (first_child st) [] s1 lst) as (s2 & E & Ht & Hout & Hin).
  { by rewrite Hv1. }
  { apply Hf. }
  { unfold s1. rewrite map_size_insert_Some by done. by apply (forest_length s L p). }
  rewrite app_nil_r in E. rewrite (bind_Done _ _ _ _ _ E).
  assert (Hin1 : forall c, c ∈ L p -> exists mc, s2 !! c = Some mc /\ is_removed_from_parent_ mc = true).
  { intros c Hc. assert (exists mc1, s1 !! c = Some mc1) as [mc1 Hmc1]; [|rewrite (Hin c mc1 Hc Hmc1); by eexists].
    destruct (forest_some s L p c Hf Hc) as [mc Hmc]. unfold s1.
    destruct (decide (p = c)) as [<-|]; [rewrite lookup_insert_eq|rewrite lookup_insert_ne by done]; by eexists. }
  assert (exists r a b, s2 !! p = Some (with_links r a b m2)) as (r & a & b & Hp2).
  { destruct (decide (p ∈ L p)) as [Hin'|Hno]; [rewrite (Hin p m2 Hin' H1); by eauto|].
    rewrite Hout, H1 by done. exists (is_removed_from_parent_ m2), (prev_sibling_ m2), (next_sibling_ m2). by destruct m. }
  unfold bind, cm_at, modify, ret. rewrite Hp2. cbn [state_ with_links with_state m2]. set (m3 := with_state _ (with_links _ _ _ _)).
  exists (<[p := m3]> s2), m3. split_and!; [done| |by rewrite lookup_insert_eq|done|by eexists|].
  - unfold forest. rewrite tops_insert, Ht. unfold s1, m3. rewrite tops_insert, insert_insert_eq. rewrite view_state by done.
    change (top_of (with_state _ (with_links r a b m2))) with (@None Z, is_cancelled_ m || true). rewrite orb_true_r.
    eapply (lists_clear _ _ _ Hf); [exact Htp| |].
    + intros c Hc. rewrite <-Hv1. unfold view. by rewrite !lookup_fmap, Hout by done.
    + intros c Hc. destruct (Hin1 c Hc) as (mc & Hmc & Hr). rewrite (view_lookup s2 c mc Hmc). by eexists.
  - intros c mc Hc [[<- <-]|[Hne Hmc]]%lookup_insert_Some.
    + destruct (Hin1 p Hc) as (mc & Hmc & Hr). rewrite Hp2 in Hmc. by injection Hmc as <-.
    + destruct (Hin1 c Hc) as (mc0 & Hmc0 & Hr). congruence.
Qed.

Lemma StartCancel_begin_fresh s L p m : forest s L -> s !! p = Some m -> stopped m = false -> state_ m = None ->
  let m1 := with_flags true (is_cancelled_ m) m in
  StartCancel_begin p s = Done (Some (∅, [], false), <[p := m1]> s) /\ forest (<[p := m1]> s) (<[p := []]> L) /\ L p = [].
Proof.
  intros Hf Hp Hst Hs m1. pose proof (tops_lookup s p m Hp) as Htp. destruct (fo_list _ _ _ Hf p _ _ Htp) as [lst Hl].
  assert (Hhead : head_of m = None) by (unfold head_of, ensure_state; by rewrite Hs). rewrite Hhead in *.
  assert (HLp : L p = []) by (destruct (L p); [done|by destruct Hl]). split_and!; [| |done].
  - unfold StartCancel_begin, bind at 1, cm_at at 1. rewrite Hp. fold (stopped m). by rewrite Hst, Hs.
  - unfold forest. rewrite view_insert, tops_insert. change (link_of m1) with (link_of m).
    rewrite (insert_id (view s)) by (by apply view_lookup). change (top_of m1) with (head_of m, is_cancelled_ m || true).
    rewrite orb_true_r, Hhead. eapply (lists_clear _ _ _ Hf); [exact Htp|done|]. rewrite HLp. by intros c ?%not_elem_of_nil.
Qed.

(** [DeregisterChild]: the unlinking of [c]. *)
Lemma filter_absent c (l : list Z) : c ∉ l -> filter (fun x => x <> c) l = l.
Proof.
  induction l as [|x l IH]; intros Hc; [done|]. rewrite not_elem_of_cons in Hc.
  rewrite filter_cons_True by naive_solver. by rewrite IH by naive_solver.
Qed.

Lemma filter_middle c (l1 l2 : list Z) : NoDup (l1 ++ c :: l2) -> filter (fun x => x <> c) (l1 ++ c :: l2) = l1 ++ l2.
Proof.
  intros (_ & Hd & [Hc2 _]%NoDup_cons)%NoDup_app. rewrite filter_app, filter_cons_False by naive_solver.
  rewrite !filter_absent; [done..|]. intros Hc1. apply (Hd c Hc1). left.
Qed.

Lemma unlink_child_spec s L p c m mc l1 l2 : forest s L -> s !! p = Some m -> s !! c = Some mc -> parent_ mc = Some p ->
  is_removed_from_parent_ mc = false -> L p = l1 ++ c :: l2 ->
  exists s1, unlink_child p mc s = Done (tt, s1) /\
    view s1 = at_opt (set_prev (prev_sibling_ mc)) (next_sibling_ mc) (at_opt (set_next (next_sibling_ mc)) (prev_sibling_ mc) (view s)) /\
    tops s1 = <[p := (match prev_sibling_ mc with Some _ => head_of m | None => next_sibling_ mc end, stopped m)]> (tops s).
Proof.
  intros Hf Hp Hc Hpar Hrem HL. pose proof (tops_lookup s p m Hp) as Htp. destruct (fo_list _ _ _ Hf p _ _ Htp) as [lst Hl].
  rewrite HL in Hl. apply dseg_app in Hl as (pr & mid & Hl1 & -> & n & Hvc & Hl2). rewrite (view_lookup s c mc Hc) in Hvc.
  injection Hvc as _ _ Hpr Hn. unfold unlink_child. rewrite Hpr, Hn in *.
  assert (Hsome : forall x, x ∈ l1 ++ c :: l2 -> is_Some (s !! x)) by (intros x Hx; eapply forest_some; [done|by rewrite HL]).
  assert (exists s0, (match pr with
      | None => m <~ cm_at p;; match state_ m with
          | None => crash
          | Some st => cm_set p (with_state (Some (mkState (cancelled_notification st) (callbacks st) n)) m)
          end
      | Some b => m <~ cm_at b;; cm_set b (with_links (is_removed_from_parent_ m) (prev_sibling_ m) n m)
      end) s = Done (tt, s0) /\ view s0 = at_opt (set_next n) pr (view s) /\
      tops s0 = <[p := (match pr with Some _ => head_of m | None => n end, stopped m)]> (tops s)) as (s0 & E0 & Hv0 & Ht0).
  { destruct pr as [b|].
    - assert (Hb : b ∈ l1 ++ c :: l2).
      { destruct l1 as [|y l1 _] using rev_ind; [by destruct Hl1|]. pose proof (dseg_last _ _ _ _ _ _ _ _ Hl1) as [= ->].
        apply elem_of_app. left. apply elem_of_app. right. left. }
      destruct (Hsome b Hb) as [mb Hmb]. unfold bind, cm_at, cm_set, modify. rewrite Hmb. eexists. split; [done|].
      rewrite view_insert, tops_links by done. cbn [at_opt]. rewrite (alter_lookup _ _ b (link_of mb)) by (by apply view_lookup).
      split; [done|]. by rewrite insert_id.
    - assert (l1 = []) as ->.
      { destruct l1 as [|y l1 _] using rev_ind; [done|]. by pose proof (dseg_last _ _ _ _ _ _ _ _ Hl1). }
      destruct Hl1 as [Hh _]. unfold bind, cm_at, cm_set, modify. rewrite Hp.
      unfold head_of, ensure_state in Hh. destruct (state_ m) as [st|]; [|done]. eexists. split; [done|].
      rewrite view_state by done. split; [done|]. by rewrite tops_insert. }
  rewrite (bind_Done _ _ _ _ _ E0). destruct n as [a|]; [|by exists s0].
  assert (Ha : a ∈ l1 ++ c :: l2).
  { destruct l2 as [|y l2]; [by destruct Hl2|]. destruct Hl2 as [[= <-] _]. apply elem_of_app. right. right. left. }
  assert (is_Some (s0 !! a)) as [ma Hma].
  { destruct (Hsome a Ha) as [ma0 Hma0]. assert (Hv : is_Some (view s0 !! a)).
    { rewrite Hv0, at_opt_some. rewrite (view_lookup s a ma0 Hma0). by eexists. }
    unfold view in Hv. rewrite lookup_fmap in Hv. destruct (s0 !! a); [by eexists|by destruct Hv]. }
  unfold bind, cm_at, cm_set, modify. rewrite Hma. eexists. split; [done|]. rewrite view_insert, tops_links by done.
  split; [|done]. rewrite <-Hv0. cbn [at_opt]. by rewrite (alter_lookup _ _ a (link_of ma)) by (by apply view_lookup).
Qed.

Lemma unlinked_neighbours s L p c m mc l1 l2 : forest s L -> s !! p = Some m -> s !! c = Some mc -> parent_ mc = Some p ->
  is_removed_from_parent_ mc = false -> L p = l1 ++ c :: l2 -> next_sibling_ mc <> Some c /\ prev_sibling_ mc <> Some c.
Proof.
  intros Hf Hp Hc Hpar Hrem HL. destruct (fo_list _ _ _ Hf p _ _ (tops_lookup s p m Hp)) as [lst Hl].
  pose proof (fo_nodup _ _ _ Hf p) as Hnd. rewrite HL in Hl, Hnd.
  apply dseg_app in Hl as (pr & mid & Hl1 & -> & n & Hvc & Hl2). rewrite (view_lookup s c mc Hc) in Hvc.
  injection Hvc as _ _ Hpr Hn. rewrite Hpr, Hn. apply NoDup_app in Hnd as (_ & Hd & [Hc2 _]%NoDup_cons). split; intros ->.
  - destruct l2 as [|y l2]; [by destruct Hl2|]. destruct Hl2 as [[= <-] _]. apply Hc2. left.
  - destruct l1 as [|y l1 _] using rev_ind; [by destruct Hl1|]. pose proof (dseg_last _ _ _ _ _ _ _ _ Hl1) as [= ->].
    apply (Hd y); [apply elem_of_app; right; left|left].
Qed.

Lemma lists_ext V H L L' : (forall q, L' q = L q) -> lists V H L -> lists V H L'.
Proof. intros HL [H1 H2 H3 H4 H5 H6]. split; try done; intros; rewrite HL; eauto. Qed.

Lemma DeregisterChild_spec s L p c m mc : forest s L -> s !! p = Some m -> s !! c = Some mc -> parent_ mc = Some p ->
  if is_cancelling_ m && negb (bool_decide (is_Some (state_ m))) then DeregisterChild_begin p c s = Crash
  else exists s' mc', DeregisterChild_begin p c s = Done (is_cancelling_ m, s') /\
    forest s' (<[p := filter (fun x => x <> c) (L p)]> L) /\ s' !! c = Some mc' /\ is_removed_from_parent_ mc' = true.
Proof.
  intros Hf Hp Hc Hpar. pose proof (view_lookup s c mc Hc) as Hvc. unfold link_of in Hvc. rewrite Hpar in Hvc.
  destruct (is_removed_from_parent_ mc) eqn:Hrem.
  - assert (Hnc : c ∉ L p) by (intros (? & ? & Hx)%(forest_elem _ _ _ Hf); congruence).
    assert (Hf' : forest s (<[p := filter (fun x => x <> c) (L p)]> L)).
    { eapply lists_ext; [|exact Hf]. intros q. rewrite filter_absent by done.
      destruct (decide (p = q)) as [<-|]; [by rewrite fn_lookup_insert|by rewrite fn_lookup_insert_ne]. }
    destruct (is_cancelling_ m) eqn:Hcan; destruct (state_ m) as [st|] eqn:Hst; simpl; [eexists s, mc| |eexists s, mc..].
    all: unfold DeregisterChild_begin, bind, cm_at, ret; rewrite Hc, Hrem; cbn [negb]; rewrite Hp, Hcan, ?Hst; done.
  - destruct (fo_mem _ _ _ Hf c p _ _ Hvc) as [Hin _]. pose proof Hin as (l1 & l2 & HL)%list_elem_of_split.
    assert (Hnst : stopped m = false).
    { destruct (stopped m) eqn:Hst; [|done]. pose proof (tops_lookup s p m Hp) as Ht. rewrite Hst in Ht.
      rewrite (fo_stopped _ _ _ Hf p _ Ht) in Hin. by apply not_elem_of_nil in Hin. }
    apply orb_false_iff in Hnst as [Hcd Hcan]. rewrite Hcan. cbn [andb].
    destruct (unlink_child_spec s L p c m mc l1 l2 Hf Hp Hc Hpar Hrem HL) as (s1 & E1 & Hv1 & Ht1).
    pose proof (fo_nodup _ _ _ Hf p) as Hnd. rewrite HL in Hnd. rewrite HL, filter_middle by done.
    pose proof (lists_remove _ _ _ Hf c p _ _ _ _ l1 l2 (tops_lookup s p m Hp) Hvc HL) as Hl.
    rewrite <-Hv1, <-Ht1 in Hl.
    assert (Hvc1 : view s1 !! c = view s !! c).
    { rewrite Hv1. pose proof (unlinked_neighbours s L p c m mc l1 l2 Hf Hp Hc Hpar Hrem HL) as [Hn1 Hn2]. by rewrite !at_opt_ne. }
    rewrite Hvc in Hvc1. unfold view in Hvc1. rewrite lookup_fmap in Hvc1. destruct (s1 !! c) as [mc1|] eqn:Hc1; [|done].
    injection Hvc1 as Hq1 Hq2 Hq3 Hq4.
    unfold DeregisterChild_begin, bind at 1, cm_at at 1. rewrite Hc, Hrem. cbn [negb]. unfold bind at 1.
    rewrite (bind_Done _ _ _ _ _ E1). unfold bind at 1, cm_at at 1. rewrite Hc1. unfold cm_set, modify.
    set (s2 := <[c := with_links true (prev_sibling_ mc1) (next_sibling_ mc1) mc1]> s1).
    assert (Hf2 : forest s2 (<[p := l1 ++ l2]> L)).
    { unfold forest, s2. rewrite view_insert, tops_links by done. unfold link_of. simpl. by rewrite Hq1, Hq3, Hq4. }
    assert (exists m2, s2 !! p = Some m2 /\ is_cancelling_ m2 = false) as (m2 & Hm2 & Hcan2).
    { assert (Ht2 : tops s2 !! p = Some (match prev_sibling_ mc with Some _ => head_of m | None => next_sibling_ mc end, stopped m)).
      { unfold s2. rewrite tops_links by done. by rewrite Ht1, lookup_insert_eq. }
      unfold tops in Ht2. rewrite lookup_fmap in Ht2. destruct (s2 !! p) as [m2|]; [|done]. exists m2. split; [done|].
      injection Ht2 as _ Hst2. unfold stopped in Hst2. rewrite Hcd, Hcan in Hst2. by apply orb_false_iff in Hst2 as [_ ?]. }
    unfold bind, cm_at, ret. rewrite Hm2, Hcan2. eexists s2, _. split_and!; [done|done|apply lookup_insert_eq|done].
Qed.
End forest.
