(* ===== verification/CancellationTheorems.v ===== *)
(** * Cancellation managers: theorems

    [cm_step] is one critical section of any method on any manager.  In every
    state reached by such steps the children of a manager are the managers
    created with it as a parent that no section has removed since, in a list
    that the methods read and update as a list.  A parent outlives its children,
    as cancellation.h asks. *)
From S2P Require Import Prelude Cancellation.
From stdpp Require Import functions list gmap options.
#[local] Open Scope Z_scope.
#[local] Open Scope tf_monad_scope.

Section managers.
Context {CB : Type}.
Implicit Types (s : CMs CB) (m : CancellationManager CB) (p c : Z) (L : Z -> list Z).

Inductive cm_step : CMs CB -> CMs CB -> Prop :=
| cs_new s c : s !! c = None -> cm_step s (<[c := CM_new]> s)
| cs_child s c p s' : s !! c = None -> is_Some (s !! p) -> CM_new_child c p s = Done (tt, s') -> cm_step s s'
| cs_cancel s p res s' : StartCancel_begin p s = Done (res, s') -> cm_step s s'
| cs_end s p m s' : s !! p = Some m -> is_cancelling_ m = true -> StartCancel_end p s = Done (tt, s') -> cm_step s s'
| cs_notify s p s' : StartCancel_notify p s = Done (tt, s') -> cm_step s s'
| cs_token s p t s' : get_cancellation_token p s = Done (t, s') -> cm_step s s'
| cs_register s p t cb b s' : RegisterCallback p t cb s = Done (b, s') -> cm_step s s'
| cs_deregister s p t b s' : DeregisterCallback_begin p t s = Done (b, s') -> cm_step s s'
| cs_try s p t b s' : TryDeregisterCallback p t s = Done (b, s') -> cm_step s s'
| cs_remove s p c m mc b s' : s !! p = Some m -> s !! c = Some mc -> parent_ mc = Some p ->
    DeregisterChild_begin p c s = Done (b, s') ->
    cm_step s s'.

Inductive cm_reachable : CMs CB -> Prop :=
| cr_empty : cm_reachable ∅
| cr_step s s' : cm_reachable s -> cm_step s s' -> cm_reachable s'.

Lemma forest_empty : forest (CB := CB) ∅ (fun _ => []).
Proof.
  split; try done; intros; unfold view, tops in *; rewrite ?fmap_empty, ?lookup_empty in *; try done. constructor.
Qed.

(** An operation that reads one manager and sets it. *)
Lemma forest_set s L p m m' : forest s L -> s !! p = Some m -> link_of m' = link_of m -> head_of m' = head_of m ->
  (stopped m' = true -> stopped m = true) -> exists L', forest (<[p := m']> s) L'.
Proof. intros. exists L. by eapply forest_same. Qed.

Lemma erase_callback_same t m : link_of (erase_callback t m) = link_of m /\ head_of (erase_callback t m) = head_of m /\
  stopped (erase_callback t m) = stopped m.
Proof. unfold erase_callback, head_of, ensure_state. by destruct (state_ m) as [st|] eqn:E; simpl; rewrite ?E. Qed.

Lemma cm_step_forest s s' L : forest s L -> cm_step s s' -> exists L', forest s' L'.
Proof.
  intros Hf Hst. destruct Hst as [s c Hc|s c p s' Hc [m Hp] E|s p res s' E|s p m s' Hp Hcan E|s p s' E|s p t s' E
    |s p t cb b s' E|s p t b s' E|s p t b s' E|s p c m mc b s' Hp Hc Hpar E].
  - exists L. by apply forest_new.
  - destruct (CM_new_child_spec s L c p m Hf Hc Hp) as (s1 & E1 & Hf1 & _). rewrite E1 in E. injection E as <-. eauto.
  - destruct (s !! p) as [m0|] eqn:Hp0; [|unfold StartCancel_begin, bind, cm_at in E; by rewrite Hp0 in E].
    destruct (stopped m0) eqn:Hs.
    + exists L. unfold StartCancel_begin, bind, cm_at in E. rewrite Hp0 in E. fold (stopped m0) in E. rewrite Hs in E. by injection E as _ <-.
    + destruct (state_ m0) as [st|] eqn:Hst.
      * destruct (StartCancel_begin_state s L p m0 st Hf Hp0 Hs Hst) as (s2 & mp & E2 & Hf2 & _). rewrite E2 in E. injection E as _ <-. eauto.
      * destruct (StartCancel_begin_fresh s L p m0 Hf Hp0 Hs Hst) as (E2 & Hf2 & _). rewrite E2 in E. injection E as _ <-. eauto.
  - unfold StartCancel_end, bind, cm_at, cm_set, modify in E. rewrite Hp in E. injection E as <-.
    eapply forest_set; try done. intros _. unfold stopped. rewrite Hcan. apply orb_true_r.
  - unfold StartCancel_notify, bind, cm_at, cm_set, modify in E. destruct (s !! p) as [m|] eqn:Hp; [|done].
    destruct (state_ m) as [st|] eqn:Hst; [|done]. injection E as <-. eapply forest_set; try done.
    unfold head_of, ensure_state. simpl. by rewrite Hst.
  - unfold get_cancellation_token, bind, cm_at, cm_set, modify, ret in E. destruct (s !! p) as [m|] eqn:Hp; [|done].
    injection E as _ <-. by eapply forest_set.
  - unfold RegisterCallback, bind, cm_at, cm_set, modify, ret in E. destruct (s !! p) as [m|] eqn:Hp; [|done].
    destruct (_ && _); injection E as _ <-; [by eapply forest_set|eauto].
  - unfold DeregisterCallback_begin, bind, cm_at, cm_set, modify, ret in E. destruct (s !! p) as [m|] eqn:Hp; [|done].
    destruct (erase_callback_same t m) as (H1 & H2 & H3).
    destruct (is_cancelled_ m); [injection E as _ <-; eauto|].
    destruct (is_cancelling_ m); [destruct (state_ m); injection E as _ <-; eauto|]. injection E as _ <-.
    eapply forest_set; try done. by rewrite H3.
  - unfold TryDeregisterCallback, bind, cm_at, cm_set, modify, ret in E. destruct (s !! p) as [m|] eqn:Hp; [|done].
    destruct (erase_callback_same t m) as (H1 & H2 & H3).
    destruct (is_cancelled_ m || is_cancelling_ m); injection E as _ <-; [eauto|]. eapply forest_set; try done. by rewrite H3.
  - pose proof (DeregisterChild_spec s L p c m mc Hf Hp Hc Hpar) as H. destruct (_ && _); [congruence|].
    destruct H as (s1 & mc' & E1 & Hf1 & _). rewrite E1 in E. injection E as _ <-. eauto.
Qed.

Lemma cm_reachable_forest s : cm_reachable s -> exists L, forest s L.
Proof. induction 1 as [|s s' _ [L IH] Hst]; [exists (fun _ => []); apply forest_empty|by eapply cm_step_forest]. Qed.

Lemma children_update s s' L p l : forest s L -> forest s' (<[p := l]> L) ->
  forall q, children s' q = if q =? p then l else children s q.
Proof.
  intros Hf Hf' q. rewrite (children_forest s' _ q Hf'), (children_forest s _ q Hf).
  destruct (Z.eqb_spec q p) as [->|Hne]; [by rewrite fn_lookup_insert|by rewrite fn_lookup_insert_ne].
Qed.

Lemma children_elem s L p c : forest s L ->
  c ∈ L p <-> exists mc, s !! c = Some mc /\ parent_ mc = Some p /\ is_removed_from_parent_ mc = false.
Proof.
  intros Hf. split.
  - intros (pr & n & Hc)%(forest_elem _ _ _ Hf). unfold view in Hc. rewrite lookup_fmap in Hc.
    destruct (s !! c) as [mc|]; [|done]. injection Hc as ? ? _ _. by exists mc.
  - intros (mc & Hc & Hp & Hr). pose proof (view_lookup s c mc Hc) as Hv. unfold link_of in Hv. rewrite Hp, Hr in Hv.
    by destruct (fo_mem _ _ _ Hf c p _ _ Hv).
Qed.

(** C37. The children of a manager are those created with it as parent and not
    removed since, each once; a manager that is cancelling or cancelled has
    none.  [StartCancel] takes all callbacks and all children (to be cancelled
    oldest first) and refuses further ones; a new child goes to the front, or
    is born cancelled; [DeregisterChild] takes out that child alone, and fails
    exactly when the parent is cancelling without a [state_]. *)
Theorem cancellation_children s p m : cm_reachable s -> s !! p = Some m ->
  NoDup (children s p) /\
  (forall c, c ∈ children s p <->
     exists mc, s !! c = Some mc /\ parent_ mc = Some p /\ is_removed_from_parent_ mc = false) /\
  (stopped m = true -> children s p = [] /\ StartCancel_begin p s = Done (None, s)) /\
  (stopped m = false -> exists s' mp,
     StartCancel_begin p s
     = Done (Some (callbacks (ensure_state m), rev (children s p), bool_decide (is_Some (state_ m))), s') /\
     (forall q, children s' q = if q =? p then [] else children s q) /\ s' !! p = Some mp /\ is_cancelling_ mp = true) /\
  (forall c, s !! c = None -> exists s' mc, CM_new_child c p s = Done (tt, s') /\
     (forall q, children s' q = if (q =? p) && negb (stopped m) then c :: children s p else children s q) /\
     s' !! c = Some mc /\ is_cancelled_ mc = stopped m) /\
  (forall c mc, s !! c = Some mc -> parent_ mc = Some p ->
     if is_cancelling_ m && negb (bool_decide (is_Some (state_ m))) then DeregisterChild_begin p c s = Crash
     else exists s', DeregisterChild_begin p c s = Done (is_cancelling_ m, s') /\
       forall q, children s' q = if q =? p then filter (fun x => x <> c) (children s p) else children s q).
Proof.
  intros [L Hf]%cm_reachable_forest Hp. pose proof (children_forest s L p Hf) as Hch. rewrite Hch. split_and!.
  - apply Hf.
  - intros c. by apply children_elem.
  - intros Hst. pose proof (tops_lookup s p m Hp) as Ht. rewrite Hst in Ht. split; [by eapply fo_stopped|].
    unfold StartCancel_begin, bind, cm_at. rewrite Hp. fold (stopped m). by rewrite Hst.
  - intros Hst. unfold ensure_state. destruct (state_ m) as [st|] eqn:Hs.
    + destruct (StartCancel_begin_state s L p m st Hf Hp Hst Hs) as (s' & mp & E & Hf' & Hp' & Hc' & _).
      exists s', mp. rewrite bool_decide_eq_true_2 by (by eexists). split_and!; try done. by eapply children_update.
    + destruct (StartCancel_begin_fresh s L p m Hf Hp Hst Hs) as (E & Hf' & HLp). rewrite HLp.
      eexists _, _. rewrite bool_decide_eq_false_2 by (by intros [? ?]).
      split_and!; [exact E|by eapply children_update|by rewrite lookup_insert_eq|done].
  - intros c Hc. destruct (CM_new_child_spec s L c p m Hf Hc Hp) as (s' & E & Hf' & mc & Hmc & _ & Hcan & _).
    exists s', mc. split_and!; try done. intros q. destruct (stopped m); cbn [negb].
    + rewrite andb_false_r. by rewrite (children_forest s' L q Hf'), (children_forest s L q Hf).
    + rewrite andb_true_r. by apply (children_update s s' L).
  - intros c mc Hc Hpar. pose proof (DeregisterChild_spec s L p c m mc Hf Hp Hc Hpar) as H. destruct (_ && _); [done|].
    destruct H as (s' & mc' & E & Hf' & _). exists s'. split; [done|]. by apply (children_update s s' L).
Qed.
End managers.

(** ** Concrete managers *)
Definition run_cms {A} (m : M (CMs unit) A) (s : CMs unit) : CMs unit :=
  match m s with Done (_, s') => s' | _ => s end.

(** A manager is cancelled while it has neither callbacks nor children, and a
    child is created before the cancellation ends. *)
Definition late_child : CMs unit :=
  run_cms (CM_new_child 2 1) (run_cms (StartCancel_begin 1) (<[1 := CM_new]> ∅)).

Lemma late_child_reachable : cm_reachable late_child.
Proof.
  eapply cr_step; [eapply cr_step; [eapply cr_step; [apply cr_empty|apply (cs_new ∅ 1); reflexivity]|]|].
  - eapply (cs_cancel _ 1). vm_compute. reflexivity.
  - eapply (cs_child _ 2 1); vm_compute; [reflexivity|by eexists|reflexivity].
Qed.

(** Destroying a child that was created while its parent was being
    cancelled dereferences a null pointer when the parent never had a callback
    or a child: [DeregisterChild] takes the address of the notification in
    [state_], which does not exist ([DeregisterCallback] tests for it). *)
Theorem deregister_child_null : exists (s : CMs unit) p c mc,
  cm_reachable s /\ s !! c = Some mc /\ parent_ mc = Some p /\ is_cancelled_ mc = true /\
  DeregisterChild_begin p c s = Crash.
Proof.
  exists late_child, 1, 2. eexists. split; [apply late_child_reachable|]. by vm_compute.
Qed.

(** A parent with two children. *)
Definition family : CMs unit :=
  run_cms (CM_new_child 3 1) (run_cms (CM_new_child 2 1) (<[1 := CM_new]> ∅)).

Lemma family_reachable : cm_reachable family.
Proof.
  eapply cr_step; [eapply cr_step; [eapply cr_step; [apply cr_empty|apply (cs_new ∅ 1); reflexivity]|]|].
  - eapply (cs_child _ 2 1); vm_compute; [reflexivity|by eexists|reflexivity].
  - eapply (cs_child _ 3 1); vm_compute; [reflexivity|by eexists|reflexivity].
Qed.

Lemma cancellation_children_witness :
  children family 1 = [3; 2] /\ exists m, family !! 1 = Some m /\ stopped m = false /\ exists s' mp,
     StartCancel_begin 1 family
     = Done (Some (callbacks (ensure_state m), rev (children family 1), bool_decide (is_Some (state_ m))), s') /\
     (forall q, children s' q = if q =? 1 then [] else children family q) /\ s' !! 1 = Some mp /\ is_cancelling_ mp = true.
Proof.
  split; [vm_compute; reflexivity|]. destruct (family !! 1) as [m|] eqn:Hp; [|discriminate Hp].
  exists m. assert (Hs : stopped m = false) by (injection Hp as <-; reflexivity).
  split; [reflexivity|]. split; [exact Hs|].
  exact (proj1 (proj2 (proj2 (proj2 (cancellation_children family 1 m family_reachable Hp)))) Hs).
Defined.
