(* ===== verification/Hash.v ===== *)
(** * Hashing of byte strings (src/tensorflow/core/platform/hash.h, hash.cc) *)
From S2P Require Import Prelude Coding.
From stdpp Require Import options.

(** The 64-bit hash.  [word64] is [DecodeFixed64] of eight bytes. *)
Definition hash_m : Z := 0xc6a4a7935bd1e995.

Definition word64 (b0 b1 b2 b3 b4 b5 b6 b7 : Z) : Z :=
  default 0 (DecodeFixed64 [b0; b1; b2; b3; b4; b5; b6; b7]).

(** One round of the loop over words. *)
Definition mix64 (h k : Z) : Z :=
  let k := u64 (k * hash_m) in
  let k := Z.lxor k (Z.shiftr k 47) in
  let k := u64 (k * hash_m) in
  u64 (Z.lxor h k * hash_m).

(** The [switch] over the last bytes, which falls through to the first. *)
Fixpoint xor_bytes (shift : Z) (h : Z) (data : list Z) : Z :=
  match data with
  | [] => h
  | b :: data => xor_bytes (shift + 8) (Z.lxor h (Z.shiftl (Z.land b 255) shift)) data
  end.

Definition tail64 (h : Z) (data : list Z) : Z :=
  match data with
  | [] => h
  | _ => u64 (xor_bytes 0 h data * hash_m)
  end.

Fixpoint Hash64_loop (h : Z) (data : list Z) : Z :=
  match data with
  | b0 :: b1 :: b2 :: b3 :: b4 :: b5 :: b6 :: b7 :: rest =>
      Hash64_loop (mix64 h (word64 b0 b1 b2 b3 b4 b5 b6 b7)) rest
  | _ => tail64 h data
  end.

Definition Hash64_seed (data : list Z) (seed : Z) : Z :=
  let h := Z.lxor seed (u64 (Z.of_nat (length data) * hash_m)) in
  let h := Hash64_loop h data in
  let h := Z.lxor h (Z.shiftr h 47) in
  let h := u64 (h * hash_m) in
  Z.lxor h (Z.shiftr h 47).

Definition Hash64 (data : list Z) : Z := Hash64_seed data 0xDECAFCAFFE.

(** The 32-bit hash. *)
Definition hash32_m : Z := 0x5bd1e995.

Definition mix32 (h k : Z) : Z :=
  let k := u32 (k * hash32_m) in
  let k := Z.lxor k (Z.shiftr k 24) in
  let k := u32 (k * hash32_m) in
  Z.lxor (u32 (h * hash32_m)) k.

Definition tail32 (h : Z) (data : list Z) : Z :=
  match data with
  | [] => h
  | _ => u32 (xor_bytes 0 h data * hash32_m)
  end.

Fixpoint Hash32_loop (h : Z) (data : list Z) : Z :=
  match data with
  | b0 :: b1 :: b2 :: b3 :: rest => Hash32_loop (mix32 h (default 0 (DecodeFixed32 [b0; b1; b2; b3]))) rest
  | _ => tail32 h data
  end.

Definition Hash32 (data : list Z) (seed : Z) : Z :=
  let h := u32 (Z.lxor seed (Z.of_nat (length data))) in
  let h := Hash32_loop h data in
  let h := Z.lxor h (Z.shiftr h 13) in
  let h := u32 (h * hash32_m) in
  Z.lxor h (Z.shiftr h 15).

(** The values of hash_test.cc. *)
Example Hash64_empty : Hash64_seed [] 0xbc9f1d34 = 0x4c61ea3eeda4cb87.
Proof. reflexivity. Qed.

Example Hash64_three : Hash64_seed [0xe2; 0x99; 0xa5] 0xbc9f1d34 = 0x02167564e4d06430.
Proof. reflexivity. Qed.

Example Hash64_words :
  Hash64_seed [0x01; 0xc0; 0x00; 0x00; 0x00; 0x00; 0x00; 0x00; 0x00; 0x00; 0x00; 0x00;
    0x00; 0x00; 0x00; 0x00; 0x14; 0x00; 0x00; 0x00; 0x00; 0x00; 0x04; 0x00;
    0x00; 0x00; 0x00; 0x14; 0x00; 0x00; 0x00; 0x18; 0x28; 0x00; 0x00; 0x00;
    0x00; 0x00; 0x00; 0x00; 0x02; 0x00; 0x00; 0x00; 0x00; 0x00; 0x00; 0x00] 0x12345678 = 0xce196580c97aff1e.
Proof. reflexivity. Qed.

Example Hash32_four : Hash32 [0xe1; 0x80; 0xb9; 0x32] 0xbc9f1d34 = 0x16174eb3.
Proof. reflexivity. Qed.
