(* ===== verification/Counting.v ===== *)
(** * Sums over lists and over maps of lists

    Conservation invariants count occurrences: [zsum] adds a weight over a
    list, [msum] over all the lists of a map, and [occ x] is the weight that
    counts [x]. *)
From S2P Require Import Prelude.
From stdpp Require Import options.

Section zsum.
Context {A : Type}.
Implicit Types (f g : A -> Z) (l : list A).

Definition zsum f l : Z := foldr (fun x acc => f x + acc) 0 l.

Lemma zsum_cons f x l : zsum f (x :: l) = f x + zsum f l.
Proof. done. Qed.

Lemma zsum_app f l k : zsum f (l ++ k) = zsum f l + zsum f k.
Proof. induction l as [|x l IH]; [done|]. simpl. unfold zsum in *. simpl. lia. Qed.

#[global] Instance zsum_perm f : Proper ((≡ₚ) ==> eq) (zsum f).
Proof. induction 1; rewrite ?zsum_cons; lia. Qed.

Lemma zsum_ext f g l : (forall x, x ∈ l -> f x = g x) -> zsum f l = zsum g l.
Proof.
  induction l as [|x l IH]; intros Hfg; [done|]. rewrite !zsum_cons, IH.
  - rewrite Hfg; [done|left].
  - intros y Hy. apply Hfg. by right.
Qed.

Lemma zsum_nonneg f l : (forall x, 0 <= f x) -> 0 <= zsum f l.
Proof. intros Hf. induction l as [|x l IH]; [done|]. rewrite zsum_cons. specialize (Hf x). lia. Qed.

Lemma zsum_elem f l x : (forall y, 0 <= f y) -> x ∈ l -> f x <= zsum f l.
Proof.
  intros Hf [l1 [l2 ->]]%list_elem_of_split. rewrite zsum_app, zsum_cons.
  pose proof (zsum_nonneg f l1 Hf). pose proof (zsum_nonneg f l2 Hf). lia.
Qed.

Lemma zsum_0 f l : (forall x, x ∈ l -> f x = 0) -> zsum f l = 0.
Proof. intros Hf. rewrite (zsum_ext f (fun _ => 0)) by done. clear. induction l; [done|]. by rewrite zsum_cons. Qed.
End zsum.

Lemma zsum_map {A B} (f : B -> Z) (g : A -> B) l : zsum f (map g l) = zsum (fun x => f (g x)) l.
Proof. induction l as [|x l IH]; [done|]. cbn [map]. rewrite !zsum_cons. lia. Qed.

Lemma zsum_concat {A} (f : A -> Z) (ls : list (list A)) : zsum f (concat ls) = zsum (zsum f) ls.
Proof. induction ls as [|l ls IH]; [done|]. cbn [concat]. rewrite zsum_app, zsum_cons. lia. Qed.

(** Replacing one element of a list. *)
Lemma zsum_insert {A} (f : A -> Z) (l : list A) i x y : l !! i = Some x ->
  zsum f (<[i := y]> l) = zsum f l - f x + f y.
Proof.
  intros Hi. rewrite insert_take_drop by (by eapply lookup_lt_Some).
  rewrite <-(take_drop_middle l i x Hi) at 3. rewrite !zsum_app, !zsum_cons. lia.
Qed.

(** ** Occurrences *)
Definition occ {A} `{EqDecision A} (x y : A) : Z := if decide (y = x) then 1 else 0.

Lemma occ_nonneg {A} `{EqDecision A} (x y : A) : 0 <= occ x y.
Proof. unfold occ. destruct (decide _); lia. Qed.

Lemma occ_self {A} `{EqDecision A} (x : A) : occ x x = 1.
Proof. unfold occ. by rewrite decide_True. Qed.

Lemma occ_other {A} `{EqDecision A} (x y : A) : y <> x -> occ x y = 0.
Proof. intros. unfold occ. by rewrite decide_False. Qed.

Lemma occ_elem {A} `{EqDecision A} (x : A) l : x ∈ l <-> 0 < zsum (occ x) l.
Proof.
  split.
  - intros Hx. pose proof (zsum_elem (occ x) l x (occ_nonneg x) Hx) as H. rewrite occ_self in H. lia.
  - intros Hz. destruct (decide (x ∈ l)) as [|Hn]; [done|]. rewrite zsum_0 in Hz; [lia|].
    intros y Hy. apply occ_other. by intros ->.
Qed.

Lemma occ_not_elem {A} `{EqDecision A} (x : A) l : x ∉ l -> zsum (occ x) l = 0.
Proof. intros Hn. apply zsum_0. intros y Hy. apply occ_other. by intros ->. Qed.

Lemma occ_NoDup {A} `{EqDecision A} (l : list A) : (forall x, zsum (occ x) l <= 1) -> NoDup l.
Proof.
  induction l as [|x l IH]; intros Hl; constructor.
  - intros Hx%occ_elem. specialize (Hl x). rewrite zsum_cons, occ_self in Hl. lia.
  - apply IH. intros y. specialize (Hl y). rewrite zsum_cons in Hl. pose proof (occ_nonneg y x). lia.
Qed.

(** ** Maps of lists *)
Section msum.
Context {A : Type}.
Implicit Types (f g : A -> Z) (L : gmap Z (list A)).

Definition msum f L : Z := zsum (fun kl => zsum f kl.2) (map_to_list L).

Lemma msum_empty f : msum f ∅ = 0.
Proof. done. Qed.

Lemma msum_new f L k l : L !! k = None -> msum f (<[k := l]> L) = zsum f l + msum f L.
Proof. intros Hk. unfold msum. by rewrite map_to_list_insert. Qed.

Lemma msum_delete f L k l : L !! k = Some l -> msum f L = zsum f l + msum f (delete k L).
Proof.
  intros Hk. unfold msum. by rewrite <-(map_to_list_delete L k l Hk).
Qed.

Lemma msum_insert f L k l : msum f (<[k := l]> L) = msum f L - zsum f (default [] (L !! k)) + zsum f l.
Proof.
  destruct (L !! k) as [l0|] eqn:Hk; simpl.
  - rewrite <-insert_delete_eq, msum_new by apply lookup_delete_eq. rewrite (msum_delete f L k l0 Hk). lia.
  - rewrite msum_new by done. lia.
Qed.

Lemma msum_delete_default f L k : msum f (delete k L) = msum f L - zsum f (default [] (L !! k)).
Proof.
  destruct (L !! k) as [l0|] eqn:Hk; simpl.
  - rewrite (msum_delete f L k l0 Hk). lia.
  - rewrite delete_id by done. lia.
Qed.

Lemma msum_ext f g L : (forall k l x, L !! k = Some l -> x ∈ l -> f x = g x) -> msum f L = msum g L.
Proof.
  intros Hfg. apply zsum_ext. intros [k l] Hin%elem_of_map_to_list. apply zsum_ext. intros x Hx. by eapply Hfg.
Qed.

Lemma msum_nonneg f L : (forall x, 0 <= f x) -> 0 <= msum f L.
Proof. intros Hf. apply zsum_nonneg. intros [k l]. by apply zsum_nonneg. Qed.

Lemma msum_lookup f L k l : (forall x, 0 <= f x) -> L !! k = Some l -> zsum f l <= msum f L.
Proof. intros Hf Hk. rewrite (msum_delete f L k l Hk). pose proof (msum_nonneg f (delete k L) Hf). lia. Qed.

Lemma msum_0 f L : (forall k l x, L !! k = Some l -> x ∈ l -> f x = 0) -> msum f L = 0.
Proof.
  intros Hf. rewrite (msum_ext f (fun _ => 0)) by done. apply zsum_0. intros x _. by apply zsum_0.
Qed.
End msum.

(** A positive sum has a positive term. *)
Lemma zsum_pos {A} (f : A -> Z) l : 0 < zsum f l -> exists x, x ∈ l /\ 0 < f x.
Proof.
  induction l as [|x l IH]; [done|]. rewrite zsum_cons. intros Hz. destruct (decide (0 < f x)) as [Hx|Hx].
  - exists x. split; [left|done].
  - destruct IH as (y & Hy & ?); [lia|]. exists y. split; [by right|done].
Qed.

Lemma msum_pos {A} (f : A -> Z) (L : gmap Z (list A)) : 0 < msum f L -> exists k l x, L !! k = Some l /\ x ∈ l /\ 0 < f x.
Proof.
  intros ([k l] & Hin%elem_of_map_to_list & (x & Hx & ?)%zsum_pos)%zsum_pos. by exists k, l, x.
Qed.

(** ** Sums over the values of a map *)
Section gsum.
Context {A : Type}.
Implicit Types (f : A -> Z) (m : gmap Z A).

Definition gsum f m : Z := zsum (fun kv => f kv.2) (map_to_list m).

Lemma gsum_new f m k x : m !! k = None -> gsum f (<[k := x]> m) = f x + gsum f m.
Proof. intros Hk. unfold gsum. by rewrite map_to_list_insert. Qed.

Lemma gsum_delete f m k x : m !! k = Some x -> gsum f m = f x + gsum f (delete k m).
Proof. intros Hk. unfold gsum. by rewrite <-(map_to_list_delete m k x Hk). Qed.

Lemma gsum_insert f m k x y : m !! k = Some x -> gsum f (<[k := y]> m) = gsum f m - f x + f y.
Proof.
  intros Hk. rewrite <-insert_delete_eq, gsum_new by apply lookup_delete_eq. rewrite (gsum_delete f m k x Hk). lia.
Qed.

Lemma gsum_nonneg f m : (forall x, 0 <= f x) -> 0 <= gsum f m.
Proof. intros Hf. apply zsum_nonneg. intros [k x]. apply Hf. Qed.
End gsum.

(** A sum over the keys of one map of values looked up in another with the same keys. *)
Lemma msum_keys {A B} (f : A -> Z) (L : gmap Z (list A)) (m : gmap Z B) (es : list (Z * B)) :
  (forall k, is_Some (m !! k) <-> is_Some (L !! k)) -> es ≡ₚ map_to_list m ->
  zsum (fun kv => zsum f (default [] (L !! kv.1))) es = msum f L.
Proof.
  intros Hdom ->. unfold msum.
  assert (Hperm : (map_to_list m).*1 ≡ₚ (map_to_list L).*1).
  { apply NoDup_Permutation; [apply NoDup_fst_map_to_list..|]. intros k.
    rewrite !list_elem_of_fmap. split.
    - intros ([k' b] & -> & Hin%elem_of_map_to_list). destruct (proj1 (Hdom k') ltac:(by eexists)) as [l Hl].
      exists (k', l). split; [done|]. by apply elem_of_map_to_list.
    - intros ([k' l] & -> & Hin%elem_of_map_to_list). destruct (proj2 (Hdom k') ltac:(by eexists)) as [b Hb].
      exists (k', b). split; [done|]. by apply elem_of_map_to_list. }
  transitivity (zsum (fun k => zsum f (default [] (L !! k))) ((map_to_list m).*1)).
  { rewrite zsum_map. done. }
  rewrite Hperm, zsum_map. apply zsum_ext. intros [k l] Hin%elem_of_map_to_list. simpl. by rewrite Hin.
Qed.
