(* ===== verification/Cache.v ===== *)
(** * The cache of table blocks (src/tensorflow/core/lib/io/cache.h, cache.cc)

    A shard of the cache is a hash table with chained buckets over entries that
    are also on one of two circular doubly linked lists: [lru_] for entries that
    only the cache refers to, oldest first, and [in_use_] for entries that
    clients hold.  Entries live in a heap addressed by locations; the dummy heads
    of the two lists are at [lru_addr] and [in_use_addr].  Following a pointer to
    nothing is [Crash], so that freed entries are noticed.

    Values and deleters are pointers.  The calls of deleters are recorded in
    [deleted].  Every method holds the shard's mutex throughout and is one
    definition.  The asserts of the source are compiled out. *)
From S2P Require Import Prelude Coding.
From stdpp Require Import options.
#[local] Open Scope tf_monad_scope.

Record LRUHandle := mkHandle {
  value : Z;
  deleter : Z;
  next_hash : option Z;
  next : option Z;
  prev : option Z;
  charge : Z;
  key : list Z;
  in_cache : bool;
  refs : Z;
  hash : Z
}.

Record HandleTable := mkTable {
  length_ : Z;
  elems_ : Z;
  list_ : list (option Z)
}.

(** A call of a deleter. *)
Record deletion := mkDeletion {
  d_entry : Z;
  d_deleter : Z;
  d_key : list Z;
  d_value : Z
}.

Record LRUCache := mkCache {
  capacity_ : Z;
  usage_ : Z;
  table_ : HandleTable;
  heap : gmap Z LRUHandle;
  next_loc : Z;
  deleted : list deletion
}.

Definition lru_addr : Z := 0.
Definition in_use_addr : Z := 1.

Definition set_next_hash (x : option Z) (e : LRUHandle) : LRUHandle :=
  mkHandle (value e) (deleter e) x (next e) (prev e) (charge e) (key e) (in_cache e) (refs e) (hash e).
Definition set_next (x : option Z) (e : LRUHandle) : LRUHandle :=
  mkHandle (value e) (deleter e) (next_hash e) x (prev e) (charge e) (key e) (in_cache e) (refs e) (hash e).
Definition set_prev (x : option Z) (e : LRUHandle) : LRUHandle :=
  mkHandle (value e) (deleter e) (next_hash e) (next e) x (charge e) (key e) (in_cache e) (refs e) (hash e).
Definition set_in_cache (b : bool) (e : LRUHandle) : LRUHandle :=
  mkHandle (value e) (deleter e) (next_hash e) (next e) (prev e) (charge e) (key e) b (refs e) (hash e).
Definition set_refs (n : Z) (e : LRUHandle) : LRUHandle :=
  mkHandle (value e) (deleter e) (next_hash e) (next e) (prev e) (charge e) (key e) (in_cache e) n (hash e).

Definition with_heap (m : gmap Z LRUHandle) (c : LRUCache) : LRUCache :=
  mkCache (capacity_ c) (usage_ c) (table_ c) m (next_loc c) (deleted c).
Definition with_table (t : HandleTable) (c : LRUCache) : LRUCache :=
  mkCache (capacity_ c) (usage_ c) t (heap c) (next_loc c) (deleted c).
Definition with_usage (n : Z) (c : LRUCache) : LRUCache :=
  mkCache (capacity_ c) n (table_ c) (heap c) (next_loc c) (deleted c).

Definition entry_at (x : Z) : M LRUCache LRUHandle := fun c =>
  match heap c !! x with Some e => Done (e, c) | None => Crash end.

Definition update (x : Z) (f : LRUHandle -> LRUHandle) : M LRUCache unit :=
  e <~ entry_at x;; modify (fun c => with_heap (<[x := f e]> (heap c)) c).

Definition deref (p : option Z) : M LRUCache Z := match p with Some x => ret x | None => crash end.

(** ** The hash table *)

(** The slots that [FindPointer] can return the address of. *)
Inductive slot := Bucket (i : nat) | NextHash (x : Z).

Definition read_slot (p : slot) : M LRUCache (option Z) :=
  match p with
  | Bucket i => c <~ get;; match list_ (table_ c) !! i with Some v => ret v | None => crash end
  | NextHash x => e <~ entry_at x;; ret (next_hash e)
  end.

Definition write_slot (p : slot) (v : option Z) : M LRUCache unit :=
  match p with
  | Bucket i =>
      c <~ get;;
      let t := table_ c in
      if bool_decide (i < length (list_ t))%nat
      then modify (with_table (mkTable (length_ t) (elems_ t) (<[i := v]> (list_ t)))) else crash
  | NextHash x => update x (set_next_hash v)
  end.

Definition bucket (h len : Z) : nat := Z.to_nat (Z.land h (u32 (len - 1))).

Fixpoint find_loop (fuel : nat) (k : list Z) (h : Z) (p : slot) : M LRUCache slot :=
  v <~ read_slot p;;
  match v with
  | None => ret p
  | Some x =>
      match fuel with
      | O => out_of_fuel
      | S fuel =>
          e <~ entry_at x;;
          if negb (hash e =? h) || negb (bool_decide (k = key e)) then find_loop fuel k h (NextHash x) else ret p
      end
  end.

(** A chain has no more entries than there are. *)
Definition FindPointer (k : list Z) (h : Z) : M LRUCache slot :=
  c <~ get;; find_loop (size (heap c)) k h (Bucket (bucket h (length_ (table_ c)))).

Definition table_Lookup (k : list Z) (h : Z) : M LRUCache (option Z) :=
  p <~ FindPointer k h;; read_slot p.

(** [while (new_length < elems_) new_length *= 2]; it ends within 32 rounds
    unless [elems_] exceeds [2^31], where the doubling wraps to 0. *)
Fixpoint new_length_loop (fuel : nat) (n elems : Z) : outcome Z :=
  if n <? elems then
    match fuel with
    | O => OutOfFuel
    | S fuel => new_length_loop fuel (u32 (n * 2)) elems
    end
  else Done n.

(** Moving one bucket to the new array. *)
Fixpoint rehash_chain (fuel : nat) (n : Z) (h : option Z) (l : list (option Z)) : M LRUCache (list (option Z)) :=
  match h with
  | None => ret l
  | Some x =>
      match fuel with
      | O => out_of_fuel
      | S fuel =>
          e <~ entry_at x;;
          let i := bucket (hash e) n in
          match l !! i with
          | None => crash
          | Some v => update x (set_next_hash v);;; rehash_chain fuel n (next_hash e) (<[i := Some x]> l)
          end
      end
  end.

Fixpoint rehash (n : Z) (old : list (option Z)) (l : list (option Z)) : M LRUCache (list (option Z)) :=
  match old with
  | [] => ret l
  | h :: old =>
      c <~ get;;
      l <~ rehash_chain (size (heap c)) n h l;;
      rehash n old l
  end.

Definition Resize : M LRUCache unit :=
  c <~ get;;
  let t := table_ c in
  new_length <~ lift (new_length_loop 33 4 (elems_ t));;
  l <~ rehash new_length (list_ t) (replicate (Z.to_nat new_length) None);;
  modify (with_table (mkTable new_length (elems_ t) l)).

Definition table_Insert (x : Z) : M LRUCache (option Z) :=
  e <~ entry_at x;;
  ptr <~ FindPointer (key e) (hash e);;
  old <~ read_slot ptr;;
  nh <~ match old with None => ret None | Some o => eo <~ entry_at o;; ret (next_hash eo) end;;
  update x (set_next_hash nh);;;
  write_slot ptr (Some x);;;
  match old with
  | None =>
      modify (fun c => with_table (mkTable (length_ (table_ c)) (u32 (elems_ (table_ c) + 1)) (list_ (table_ c))) c);;;
      c <~ get;;
      if length_ (table_ c) <? elems_ (table_ c) then Resize else ret tt
  | Some _ => ret tt
  end;;;
  ret old.

Definition table_Remove (k : list Z) (h : Z) : M LRUCache (option Z) :=
  ptr <~ FindPointer k h;;
  result <~ read_slot ptr;;
  match result with
  | None => ret tt
  | Some x =>
      e <~ entry_at x;;
      write_slot ptr (next_hash e);;;
      modify (fun c => with_table (mkTable (length_ (table_ c)) (u32 (elems_ (table_ c) - 1)) (list_ (table_ c))) c)
  end;;;
  ret result.

(** ** A shard *)
Definition LRU_Remove (x : Z) : M LRUCache unit :=
  e <~ entry_at x;;
  n <~ deref (next e);;
  update n (set_prev (prev e));;;
  e <~ entry_at x;;
  p <~ deref (prev e);;
  update p (set_next (next e)).

Definition LRU_Append (list x : Z) : M LRUCache unit :=
  update x (set_next (Some list));;;
  l <~ entry_at list;;
  update x (set_prev (prev l));;;
  p <~ deref (prev l);;
  update p (set_next (Some x));;;
  update list (set_prev (Some x)).

Definition Ref (x : Z) : M LRUCache unit :=
  e <~ entry_at x;;
  (if (refs e =? 1) && in_cache e then LRU_Remove x;;; LRU_Append in_use_addr x else ret tt);;;
  e <~ entry_at x;;
  update x (set_refs (u32 (refs e + 1))).

Definition free (x : Z) : M LRUCache unit := modify (fun c => with_heap (delete x (heap c)) c).

Definition call_deleter (x : Z) (e : LRUHandle) : M LRUCache unit :=
  modify (fun c => mkCache (capacity_ c) (usage_ c) (table_ c) (heap c) (next_loc c)
                     (deleted c ++ [mkDeletion x (deleter e) (key e) (value e)])).

Definition Unref (x : Z) : M LRUCache unit :=
  e <~ entry_at x;;
  update x (set_refs (u32 (refs e - 1)));;;
  e <~ entry_at x;;
  if refs e =? 0 then call_deleter x e;;; free x
  else if in_cache e && (refs e =? 1) then LRU_Remove x;;; LRU_Append lru_addr x
  else ret tt.

Definition cache_Lookup (k : list Z) (h : Z) : M LRUCache (option Z) :=
  e <~ table_Lookup k h;;
  match e with Some x => Ref x | None => ret tt end;;;
  ret e.

Definition cache_Release (x : Z) : M LRUCache unit := Unref x.

Definition FinishErase (e : option Z) : M LRUCache bool :=
  match e with
  | Some x =>
      LRU_Remove x;;;
      update x (set_in_cache false);;;
      h <~ entry_at x;;
      modify (fun c => with_usage (u64 (usage_ c - charge h)) c);;;
      Unref x;;;
      ret true
  | None => ret false
  end.

(** The entries of [lru_] are evicted, oldest first, while [over] says so; each
    round frees one, so there are no more rounds than entries. *)
Fixpoint evict (fuel : nat) (over : LRUCache -> bool) : M LRUCache unit :=
  c <~ get;;
  l <~ entry_at lru_addr;;
  if over c && negb (bool_decide (next l = Some lru_addr)) then
    match fuel with
    | O => out_of_fuel
    | S fuel =>
        x <~ deref (next l);;
        e <~ entry_at x;;
        r <~ table_Remove (key e) (hash e);;
        FinishErase r;;;
        evict fuel over
    end
  else ret tt.

Definition over_capacity (c : LRUCache) : bool := capacity_ c <? usage_ c.

(** [malloc]; the pointers are not initialised. *)
Definition new_entry (e : LRUHandle) : M LRUCache Z := fun c =>
  Done (next_loc c, mkCache (capacity_ c) (usage_ c) (table_ c) (<[next_loc c := e]> (heap c)) (next_loc c + 1) (deleted c)).

Definition cache_Insert (k : list Z) (h v chg del : Z) : M LRUCache Z :=
  c <~ get;;
  x <~ new_entry (mkHandle v del None None None chg k false 1 h);;
  (if 0 <? capacity_ c then
     e <~ entry_at x;;
     update x (set_refs (u32 (refs e + 1)));;;
     update x (set_in_cache true);;;
     LRU_Append in_use_addr x;;;
     modify (fun c => with_usage (u64 (usage_ c + chg)) c);;;
     old <~ table_Insert x;;
     FinishErase old;;;
     ret tt
   else update x (set_next None));;;
  c <~ get;;
  evict (size (heap c)) over_capacity;;;
  ret x.

Definition cache_Erase (k : list Z) (h : Z) : M LRUCache unit :=
  r <~ table_Remove k h;; FinishErase r;;; ret tt.

Definition cache_Prune : M LRUCache unit :=
  c <~ get;; evict (size (heap c)) (fun _ => true).

Definition TotalCharge (c : LRUCache) : Z := usage_ c.

(** A dummy head; only its links are used. *)
Definition dummy (x : Z) : LRUHandle := mkHandle 0 0 None (Some x) (Some x) 0 [] false 0 0.

(** The constructor, with [HandleTable] resized to 4 buckets, and [SetCapacity]. *)
Definition LRUCache_new (capacity : Z) : LRUCache :=
  mkCache capacity 0 (mkTable 4 0 (replicate 4 None)) {[ lru_addr := dummy lru_addr; in_use_addr := dummy in_use_addr ]} 2 [].

(** The destructor drops the cache's references. *)
Fixpoint delete_loop (fuel : nat) (x : Z) : M LRUCache unit :=
  if x =? lru_addr then ret tt
  else
    match fuel with
    | O => out_of_fuel
    | S fuel =>
        e <~ entry_at x;;
        n <~ deref (next e);;
        update x (set_in_cache false);;;
        Unref x;;;
        delete_loop fuel n
    end.

Definition LRUCache_delete : M LRUCache unit :=
  c <~ get;;
  l <~ entry_at lru_addr;;
  n <~ deref (next l);;
  delete_loop (size (heap c)) n.

(** ** The sharded cache *)
Definition kNumShardBits : Z := 4.
Definition kNumShards : Z := Z.shiftl 1 kNumShardBits.

(** The hash of the cache, similar to murmur. *)
Definition cache_m : Z := 0xc6a4a793.

Definition cache_round (h w : Z) : Z :=
  let h := u32 (h + w) in
  let h := u32 (h * cache_m) in
  Z.lxor h (Z.shiftr h 16).

(** The bytes after the last word, from the last. *)
Fixpoint add_bytes (shift h : Z) (data : list Z) : Z :=
  match data with
  | [] => h
  | b :: data => u32 (add_bytes (shift + 8) h data + Z.shiftl (u8 b) shift)
  end.

Definition cache_tail (h : Z) (data : list Z) : Z :=
  match data with
  | [] => h
  | _ => let h := u32 (add_bytes 0 h data * cache_m) in Z.lxor h (Z.shiftr h 24)
  end.

Fixpoint cache_words (h : Z) (data : list Z) : Z :=
  match data with
  | b0 :: b1 :: b2 :: b3 :: rest => cache_words (cache_round h (default 0 (DecodeFixed32 [b0; b1; b2; b3]))) rest
  | _ => cache_tail h data
  end.

Definition cache_Hash (data : list Z) (seed : Z) : Z :=
  cache_words (u32 (Z.lxor seed (u64 (Z.of_nat (length data) * cache_m)))) data.

Definition HashSlice (s : list Z) : Z := cache_Hash s 0.

Definition Shard (h : Z) : nat := Z.to_nat (Z.shiftr h (32 - kNumShardBits)).

Record ShardedLRUCache := mkSharded {
  shard_ : list LRUCache;
  last_id_ : Z
}.

(** A handle is the address of an entry; the first component is the shard whose heap it points into. *)
Definition Handle : Type := nat * Z.

Definition NewLRUCache (capacity : Z) : ShardedLRUCache :=
  let per_shard := Z.quot (u64 (capacity + (kNumShards - 1))) kNumShards in
  mkSharded (replicate (Z.to_nat kNumShards) (LRUCache_new per_shard)) 0.

Definition on_shard {A} (i : nat) (m : M LRUCache A) : M ShardedLRUCache A := fun s =>
  match shard_ s !! i with
  | None => Crash
  | Some c =>
      match m c with
      | Done (a, c') => Done (a, mkSharded (<[i := c']> (shard_ s)) (last_id_ s))
      | Crash => Crash
      | OutOfFuel => OutOfFuel
      end
  end.

Definition Insert (k : list Z) (v chg del : Z) : M ShardedLRUCache Handle :=
  let h := HashSlice k in
  x <~ on_shard (Shard h) (cache_Insert k h v chg del);;
  ret (Shard h, x).

Definition Lookup (k : list Z) : M ShardedLRUCache (option Handle) :=
  let h := HashSlice k in
  r <~ on_shard (Shard h) (cache_Lookup k h);;
  ret (match r with Some x => Some (Shard h, x) | None => None end).

(** The shard is found again from the hash in the entry. *)
Definition Release (handle : Handle) : M ShardedLRUCache unit :=
  let '(i, x) := handle in
  e <~ on_shard i (entry_at x);;
  if bool_decide (Shard (hash e) = i) then on_shard i (cache_Release x) else crash.

Definition Erase (k : list Z) : M ShardedLRUCache unit :=
  let h := HashSlice k in on_shard (Shard h) (cache_Erase k h).

Definition Value (handle : Handle) : M ShardedLRUCache Z :=
  let '(i, x) := handle in e <~ on_shard i (entry_at x);; ret (value e).

Definition NewId : M ShardedLRUCache Z := fun s =>
  let id := u64 (last_id_ s + 1) in Done (id, mkSharded (shard_ s) id).

Fixpoint prune_shards (n i : nat) : M ShardedLRUCache unit :=
  match n with
  | O => ret tt
  | S n => on_shard i cache_Prune;;; prune_shards n (S i)
  end.

Definition Prune : M ShardedLRUCache unit := prune_shards (Z.to_nat kNumShards) 0.

Definition SumCharge (s : ShardedLRUCache) : Z := foldl (fun total c => u64 (total + TotalCharge c)) 0 (shard_ s).

(** The destructor: the shards are destroyed, the last first. *)
Fixpoint delete_shards (n : nat) : M ShardedLRUCache unit :=
  match n with
  | O => ret tt
  | S n => on_shard n LRUCache_delete;;; delete_shards n
  end.

Definition ShardedLRUCache_delete : M ShardedLRUCache unit := delete_shards (Z.to_nat kNumShards).
