(* ===== verification/CacheTable.v ===== *)
(** * The block cache: circular lists and the hash table

    A heap is seen through four maps: the [next] and [prev] pointers of the
    lists, the [next_hash] pointers of the buckets, and the entries without
    pointers.  [ring N P hd l]: from the dummy [hd] the pointers lead through
    [l] and back, and likewise backwards. *)
From S2P Require Import Prelude Coding Cache.
From stdpp Require Import list gmap options.
#[local] Open Scope Z_scope.
#[local] Open Scope tf_monad_scope.

(** ** Views of the heap *)
Definition core (e : LRUHandle) : LRUHandle :=
  mkHandle (value e) (deleter e) None None None (charge e) (key e) (in_cache e) (refs e) (hash e).

Abbreviation ptrs := (gmap Z (option Z)).

Definition nexts (m : gmap Z LRUHandle) : ptrs := next <$> m.
Definition prevs (m : gmap Z LRUHandle) : ptrs := prev <$> m.
Definition hashes (m : gmap Z LRUHandle) : ptrs := next_hash <$> m.
Definition cores (m : gmap Z LRUHandle) : gmap Z LRUHandle := core <$> m.

Section views.
Context (m : gmap Z LRUHandle) (x : Z) (e : LRUHandle) (Hx : m !! x = Some e).

Lemma view_set_next v : nexts (<[x := set_next v e]> m) = <[x := v]> (nexts m) /\
  prevs (<[x := set_next v e]> m) = prevs m /\ hashes (<[x := set_next v e]> m) = hashes m /\
  cores (<[x := set_next v e]> m) = cores m.
Proof using Hx.
  unfold nexts, prevs, hashes, cores. rewrite !fmap_insert. split; [done|].
  split_and!; apply insert_id; by rewrite lookup_fmap, Hx.
Qed.

Lemma view_set_prev v : nexts (<[x := set_prev v e]> m) = nexts m /\
  prevs (<[x := set_prev v e]> m) = <[x := v]> (prevs m) /\ hashes (<[x := set_prev v e]> m) = hashes m /\
  cores (<[x := set_prev v e]> m) = cores m.
Proof using Hx.
  unfold nexts, prevs, hashes, cores. rewrite !fmap_insert.
  split_and!; try done; apply insert_id; by rewrite lookup_fmap, Hx.
Qed.

Lemma view_set_next_hash v : nexts (<[x := set_next_hash v e]> m) = nexts m /\
  prevs (<[x := set_next_hash v e]> m) = prevs m /\ hashes (<[x := set_next_hash v e]> m) = <[x := v]> (hashes m) /\
  cores (<[x := set_next_hash v e]> m) = cores m.
Proof using Hx.
  unfold nexts, prevs, hashes, cores. rewrite !fmap_insert.
  split_and!; try done; apply insert_id; by rewrite lookup_fmap, Hx.
Qed.

(** A change of the entry itself. *)
Lemma view_set_core f : (forall e, next (f e) = next e /\ prev (f e) = prev e /\ next_hash (f e) = next_hash e) ->
  nexts (<[x := f e]> m) = nexts m /\ prevs (<[x := f e]> m) = prevs m /\ hashes (<[x := f e]> m) = hashes m /\
  cores (<[x := f e]> m) = <[x := core (f e)]> (cores m).
Proof using Hx.
  intros Hf. destruct (Hf e) as (H1 & H2 & H3). unfold nexts, prevs, hashes, cores. rewrite !fmap_insert, H1, H2, H3.
  split_and!; try done; apply insert_id; by rewrite lookup_fmap, Hx.
Qed.
End views.

Lemma view_some {A} (f : LRUHandle -> A) (m : gmap Z LRUHandle) x v : (f <$> m) !! x = Some v -> exists e, m !! x = Some e /\ f e = v.
Proof. rewrite lookup_fmap. by intros (e & -> & ?)%fmap_Some; eauto. Qed.

Lemma update_spec x f c e : heap c !! x = Some e -> update x f c = Done (tt, with_heap (<[x := f e]> (heap c)) c).
Proof. intros Hx. unfold update, bind, entry_at, modify. by rewrite Hx. Qed.

(** ** Segments *)
Implicit Types (N P : ptrs) (l : list Z).

Fixpoint seg N P (a : Z) l (b : Z) : Prop :=
  match l with
  | [] => N !! a = Some (Some b) /\ P !! b = Some (Some a)
  | x :: l => N !! a = Some (Some x) /\ P !! x = Some (Some a) /\ seg N P x l b
  end.

Lemma seg_app N P a l1 e l2 b : seg N P a (l1 ++ e :: l2) b <-> seg N P a l1 e /\ seg N P e l2 b.
Proof. revert a. induction l1 as [|x l1 IH]; intros a; simpl; [naive_solver|]. rewrite IH. naive_solver. Qed.

Lemma seg_ext N P N' P' a l b : (forall x, x ∈ a :: l -> N' !! x = N !! x) -> (forall x, x ∈ l ++ [b] -> P' !! x = P !! x) ->
  seg N P a l b -> seg N' P' a l b.
Proof.
  revert a. induction l as [|y l IH]; intros a HN HP; simpl.
  - rewrite HN, HP by left. done.
  - rewrite HN, HP by left. intros (? & ? & Hs). split_and!; try done. apply IH; [| |done].
    + intros x Hx. apply HN. by right.
    + intros x Hx. apply HP. by right.
Qed.

(** The last node before [b] and the first after [a]. *)
Lemma seg_last N P a l b : seg N P a l b -> P !! b = Some (Some (default a (list.last l))).
Proof.
  revert a. induction l as [|y l IH]; intros a; [by intros [_ ?]|]. intros (_ & _ & Hs). rewrite (IH y Hs).
  destruct l as [|z l]; [done|]. change (list.last (y :: z :: l)) with (list.last (z :: l)).
  destruct (list.last (z :: l)) as [w|] eqn:E; [done|by apply last_None in E].
Qed.

Lemma seg_first N P a l b : seg N P a l b -> N !! a = Some (Some (default b (list.head l))).
Proof. destruct l as [|y l]; [by intros [? _]|by intros (? & _)]. Qed.

(** Joining two segments around a removed node. *)
Lemma seg_join N P a l1 e l2 b p n : seg N P a l1 e -> seg N P e l2 b ->
  P !! e = Some (Some p) -> N !! e = Some (Some n) -> NoDup (a :: l1 ++ l2) -> NoDup (l1 ++ l2 ++ [b]) ->
  seg (<[p := Some n]> N) (<[n := Some p]> P) a (l1 ++ l2) b.
Proof.
  intros H1 H2 Hp Hn Ha Hb. pose proof (seg_last _ _ _ _ _ H1) as Hp'. rewrite Hp in Hp'. injection Hp' as ->.
  pose proof (seg_first _ _ _ _ _ H2) as Hn'. rewrite Hn in Hn'. injection Hn' as ->.
  destruct l1 as [|y l1 _] using rev_ind; simpl in *.
  - destruct l2 as [|z l2]; simpl in *.
    + by rewrite !lookup_insert_eq.
    + rewrite !lookup_insert_eq. destruct H2 as (_ & _ & H2). split_and!; try done.
      apply NoDup_cons in Ha as [Ha _]. apply NoDup_cons in Hb as [Hb _].
      eapply seg_ext; [| |exact H2]; intros x Hx; apply lookup_insert_ne; by intros <-.
  - rewrite last_snoc. simpl. apply seg_app in H1 as [H1 [_ _]]. rewrite <-(assoc_L (++)) in Ha, Hb |- *. simpl in *.
    apply seg_app. rewrite NoDup_cons, NoDup_app in Ha. destruct Ha as (Ha & _ & Hd & Hl2).
    rewrite NoDup_app in Hb. destruct Hb as (_ & Hd' & Hl2'). apply NoDup_cons in Hl2 as [Hy _]. apply NoDup_cons in Hl2' as [Hy' Hb].
    split.
    + eapply seg_ext; [| |exact H1].
      * intros x Hx. apply lookup_insert_ne. intros <-. apply elem_of_cons in Hx as [->|Hx]; [|by apply (Hd y Hx); left].
        apply Ha. apply elem_of_app. right. left.
      * intros x Hx. apply lookup_insert_ne. intros <-. apply elem_of_app in Hx as [Hx|Hx%list_elem_of_singleton].
        -- apply (Hd' _ Hx). right. destruct l2; simpl; left.
        -- apply Hy'. rewrite <-Hx. destruct l2; simpl; left.
    + destruct l2 as [|z l2]; simpl in *; rewrite !lookup_insert_eq; [done|].
      destruct H2 as (_ & _ & H2). split_and!; try done. apply NoDup_cons in Hb as [Hb _].
      eapply seg_ext; [| |exact H2]; intros x Hx; apply lookup_insert_ne; intros <-; [|done]. apply Hy. done.
Qed.

(** ** Rings *)
Definition ring N P (hd : Z) l : Prop := seg N P hd l hd /\ NoDup (hd :: l).

Lemma ring_ext N P N' P' hd l : (forall x, x ∈ hd :: l -> N' !! x = N !! x /\ P' !! x = P !! x) ->
  ring N P hd l -> ring N' P' hd l.
Proof.
  intros Hx [Hs Hnd]. split; [|done]. eapply seg_ext; [| |exact Hs]; intros x Hin; apply Hx; [done|].
  apply elem_of_app in Hin as [Hin|Hin%list_elem_of_singleton]; [by right|subst; left].
Qed.

Lemma ring_next N P hd l x : ring N P hd l -> x ∈ hd :: l -> exists n, N !! x = Some (Some n) /\ n ∈ hd :: l.
Proof.
  intros [Hs _]. assert (Hgen : forall a b, seg N P a l b -> x ∈ a :: l -> exists n, N !! x = Some (Some n) /\ (n = b \/ n ∈ l)).
  { clear Hs. induction l as [|y l IH]; intros a b Hs Hx.
    - apply list_elem_of_singleton in Hx as ->. destruct Hs as [Hs _]. eauto.
    - destruct Hs as (Hn & _ & Hs). apply elem_of_cons in Hx as [->|Hx]; [exists y; split; [done|right; left]|].
      destruct (IH y b Hs Hx) as (n & ? & [?|?]); exists n; (split; [done|]); [by left|right; by right]. }
  intros Hx. destruct (Hgen hd hd Hs Hx) as (n & Hn & [Hin|Hin]); exists n; (split; [done|]); [subst; left|by right].
Qed.

Lemma ring_remove N P hd l1 x l2 : ring N P hd (l1 ++ x :: l2) ->
  exists p n, P !! x = Some (Some p) /\ N !! x = Some (Some n) /\ p ∈ hd :: l1 ++ l2 /\ n ∈ hd :: l1 ++ l2 /\
    ring (<[p := Some n]> N) (<[n := Some p]> P) hd (l1 ++ l2).
Proof.
  intros [Hs Hnd]. apply seg_app in Hs as [H1 H2]. pose proof (seg_last _ _ _ _ _ H1) as Hp.
  pose proof (seg_first _ _ _ _ _ H2) as Hn.
  assert (Hnd' : NoDup (hd :: l1 ++ l2)).
  { eapply sublist_NoDup; [exact Hnd|]. apply sublist_skip, sublist_app; [reflexivity|apply sublist_cons; reflexivity]. }
  eexists _, _. split_and!; [exact Hp|exact Hn| | |split; [|done]].
  - destruct (list.last l1) as [y|] eqn:E; [|left]. apply last_Some in E as [l' ->]. right. simpl.
    apply elem_of_app. left. apply elem_of_app. right. left.
  - destruct l2 as [|y l2]; [left|]. right. apply elem_of_app. right. left.
  - eapply seg_join; try done. apply NoDup_cons in Hnd' as [Hh Hnd']. rewrite (assoc_L (++)). apply NoDup_app.
    split_and!; [done| |by apply NoDup_singleton]. intros y Hy ->%list_elem_of_singleton. done.
Qed.

Lemma ring_append N P hd l x : ring N P hd l -> x ∉ hd :: l ->
  exists q, P !! hd = Some (Some q) /\ q ∈ hd :: l /\
    ring (<[q := Some x]> (<[x := Some hd]> N)) (<[hd := Some x]> (<[x := Some q]> P)) hd (l ++ [x]).
Proof.
  intros [Hs Hnd] Hx. rewrite not_elem_of_cons in Hx. destruct Hx as [Hxh Hxl]. pose proof (seg_last _ _ _ _ _ Hs) as Hq.
  set (q := default hd (list.last l)) in *. exists q. apply NoDup_cons in Hnd as [Hh Hnd].
  assert (Hq' : q ∈ hd :: l).
  { unfold q. destruct (list.last l) as [y|] eqn:E; [|left]. apply last_Some in E as [l' ->]. right. apply elem_of_app. right. left. }
  assert (Hqx : q <> x) by (intros ->; apply elem_of_cons in Hq' as [?|?]; congruence).
  split_and!; [done|done|]. split.
  - apply seg_app. split.
    + destruct l as [|y l _] using rev_ind.
      * simpl. unfold q. simpl. rewrite lookup_insert_eq, lookup_insert_ne by done. by rewrite lookup_insert_eq.
      * unfold q in *. rewrite last_snoc in *. cbn [default from_option id] in *. apply seg_app in Hs as [Hs1 Hs2].
        apply NoDup_app in Hnd as (Hnd1 & Hd & _). apply seg_app. split.
        -- assert (Hy : forall z, z ∈ l -> z <> y) by (intros z Hz ->; apply (Hd y Hz); left).
           eapply seg_ext; [| |exact Hs1]; intros z Hz.
           ++ apply elem_of_cons in Hz as [->|Hz]; rewrite !lookup_insert_ne; try done.
              ** intros ->. apply Hh. apply elem_of_app. right. left.
              ** intros ->. apply Hxl. apply elem_of_app. by left.
              ** intros ->. by apply (Hy z).
           ++ assert (Hz' : z ∈ l ++ [y]) by done. rewrite !lookup_insert_ne; [done| |]; intros <-; done.
        -- simpl. rewrite lookup_insert_eq, lookup_insert_ne by done. by rewrite lookup_insert_eq.
    + simpl. rewrite lookup_insert_ne by done. by rewrite !lookup_insert_eq.
  - apply NoDup_cons. split; [rewrite elem_of_app, list_elem_of_singleton; by intros [?|?]|].
    apply NoDup_app. split_and!; [done| |by apply NoDup_singleton]. by intros y Hy ->%list_elem_of_singleton.
Qed.

(** ** The operations on lists *)

(** Everything but the list pointers. *)
Record same_entries (c c' : LRUCache) : Prop := {
  se_capacity : capacity_ c' = capacity_ c;
  se_usage : usage_ c' = usage_ c;
  se_table : table_ c' = table_ c;
  se_next : next_loc c' = next_loc c;
  se_deleted : deleted c' = deleted c;
  se_cores : cores (heap c') = cores (heap c);
  se_hashes : hashes (heap c') = hashes (heap c)
}.

Lemma same_entries_refl c : same_entries c c.
Proof. done. Qed.

Lemma same_entries_trans c1 c2 c3 : same_entries c1 c2 -> same_entries c2 c3 -> same_entries c1 c3.
Proof. intros [] []. split; congruence. Qed.

Lemma view_dom {A} (f : LRUHandle -> A) (m m' : gmap Z LRUHandle) x : cores m' = cores m -> is_Some (m' !! x) <-> is_Some ((f <$> m) !! x).
Proof.
  intros Hc. rewrite lookup_fmap, fmap_is_Some. assert (H : cores m' !! x = cores m !! x) by (by rewrite Hc).
  unfold cores in H. rewrite !lookup_fmap in H. destruct (m' !! x), (m !! x); try done; by split; intros [? ?].
Qed.

Lemma LRU_Remove_spec c hd l1 x l2 : ring (nexts (heap c)) (prevs (heap c)) hd (l1 ++ x :: l2) ->
  exists c' p n, LRU_Remove x c = Done (tt, c') /\ same_entries c c' /\ p ∈ hd :: l1 ++ l2 /\ n ∈ hd :: l1 ++ l2 /\
    nexts (heap c') = <[p := Some n]> (nexts (heap c)) /\ prevs (heap c') = <[n := Some p]> (prevs (heap c)) /\
    ring (nexts (heap c')) (prevs (heap c')) hd (l1 ++ l2).
Proof.
  intros Hr. pose proof Hr as [_ Hnd]. destruct (ring_remove _ _ _ _ _ _ Hr) as (p & n & Hp & Hn & Hpin & Hnin & Hr').
  assert (Hxne : forall y, y ∈ hd :: l1 ++ l2 -> y <> x).
  { intros y Hy ->. rewrite NoDup_cons, NoDup_app in Hnd. destruct Hnd as (Hh & _ & Hd & [Hx2 _]%NoDup_cons).
    rewrite elem_of_app, elem_of_cons in Hh. rewrite elem_of_cons, elem_of_app in Hy. naive_solver (left). }
  assert (Hpn : forall y, y ∈ hd :: l1 ++ l2 -> is_Some (nexts (heap c) !! y)).
  { intros y Hy. destruct (ring_next _ _ _ _ y Hr) as (z & Hz & _); [|by rewrite Hz; eexists].
    rewrite elem_of_cons, elem_of_app in Hy |- *. rewrite elem_of_cons. naive_solver. }
  unfold nexts in Hn. apply view_some in Hn as (ex & Hx & Hnx). unfold prevs in Hp. apply view_some in Hp as (ex' & Hx' & Hpx).
  rewrite Hx in Hx'. injection Hx' as <-.
  destruct (Hpn n Hnin) as [vn Hvn]. unfold nexts in Hvn. apply view_some in Hvn as (en & Hen & _).
  unfold LRU_Remove, bind at 1, entry_at at 1. rewrite Hx, Hnx. unfold bind at 1, deref at 1, ret at 1.
  rewrite (bind_Done _ _ _ _ _ (update_spec _ _ _ _ Hen)). set (m1 := <[n := set_prev (prev ex) en]> (heap c)).
  destruct (view_set_prev (heap c) n en Hen (prev ex)) as (A1 & A2 & A3 & A4). fold m1 in A1, A2, A3, A4.
  assert (Hx1 : m1 !! x = Some ex) by (unfold m1; rewrite lookup_insert_ne; [done|by apply Hxne]).
  unfold bind at 1, entry_at at 1. cbn [heap with_heap]. rewrite Hx1, Hpx. unfold bind at 1, deref at 1, ret at 1.
  assert (is_Some (m1 !! p)) as [ep Hep].
  { apply (view_dom next (heap c) m1); [done|]. by apply Hpn. }
  rewrite (update_spec _ _ (with_heap m1 c) ep Hep). cbn [heap with_heap].
  destruct (view_set_next m1 p ep Hep (next ex)) as (B1 & B2 & B3 & B4). rewrite Hnx, Hpx in *.
  eexists _, p, n. split; [done|]. cbn [heap with_heap]. rewrite B1, B2, A1, A2.
  split_and!; try done. split; try done; cbn [heap with_heap]; congruence.
Qed.

Lemma LRU_Append_spec c hd l x : ring (nexts (heap c)) (prevs (heap c)) hd l -> x ∉ hd :: l -> is_Some (heap c !! x) ->
  exists c' q, LRU_Append hd x c = Done (tt, c') /\ same_entries c c' /\ q ∈ hd :: l /\
    nexts (heap c') = <[q := Some x]> (<[x := Some hd]> (nexts (heap c))) /\
    prevs (heap c') = <[hd := Some x]> (<[x := Some q]> (prevs (heap c))) /\
    ring (nexts (heap c')) (prevs (heap c')) hd (l ++ [x]).
Proof.
  intros Hr Hx [ex Hex]. destruct (ring_append _ _ _ _ _ Hr Hx) as (q & Hq & Hqin & Hr').
  pose proof Hx as Hx'. rewrite not_elem_of_cons in Hx'. destruct Hx' as [Hxh _].
  assert (Hqx : q <> x) by (by intros ->).
  unfold LRU_Append. rewrite (bind_Done _ _ _ _ _ (update_spec _ _ _ _ Hex)). set (m1 := <[x := set_next (Some hd) ex]> (heap c)).
  destruct (view_set_next (heap c) x ex Hex (Some hd)) as (A1 & A2 & A3 & A4). fold m1 in A1, A2, A3, A4.
  pose proof Hq as Hq0. unfold prevs in Hq0. apply view_some in Hq0 as (eh & Hh & Hph).
  unfold bind at 1, entry_at at 1. cbn [heap with_heap].
  assert (Hh1 : m1 !! hd = Some eh) by (unfold m1; by rewrite lookup_insert_ne). rewrite Hh1, Hph.
  assert (Hx1 : m1 !! x = Some (set_next (Some hd) ex)) by apply lookup_insert_eq.
  rewrite (bind_Done _ _ _ _ _ (update_spec x _ (with_heap m1 c) _ Hx1)). cbn [heap with_heap].
  set (m2 := <[x := _]> m1). destruct (view_set_prev m1 x _ Hx1 (Some q)) as (B1 & B2 & B3 & B4). fold m2 in B1, B2, B3, B4.
  unfold bind at 1, deref, ret at 1.
  assert (Hd2 : forall y, y ∈ hd :: l -> is_Some (m2 !! y)).
  { intros y Hy. apply (view_dom next (heap c) m2); [congruence|]. destruct (ring_next _ _ _ _ y Hr Hy) as (z & Hz & _).
    unfold nexts in Hz. rewrite Hz. by eexists. }
  destruct (Hd2 q Hqin) as [eq Heq]. rewrite (bind_Done _ _ _ _ _ (update_spec q _ (with_heap m2 c) _ Heq)). cbn [heap with_heap].
  set (m3 := <[q := _]> m2). destruct (view_set_next m2 q _ Heq (Some x)) as (C1 & C2 & C3 & C4). fold m3 in C1, C2, C3, C4.
  assert (is_Some (m3 !! hd)) as [eh3 Hh3].
  { apply (view_dom next (heap c) m3); [congruence|]. destruct (ring_next _ _ _ _ hd Hr ltac:(left)) as (z & Hz & _).
    unfold nexts in Hz. rewrite Hz. by eexists. }
  rewrite (update_spec hd _ (with_heap m3 c) _ Hh3). cbn [heap with_heap].
  destruct (view_set_prev m3 hd _ Hh3 (Some x)) as (D1 & D2 & D3 & D4).
  eexists _, q. split; [done|]. cbn [heap with_heap]. rewrite D1, D2, C1, C2, B1, B2, A1, A2.
  split_and!; try done. split; try done; cbn [heap with_heap]; congruence.
Qed.

(** * The block cache: the hash table

    [tinv c B]: bucket [i] of the table of [c] is the chain [B !! i], whose
    entries hash there; no entry is in two chains, and no two entries have the
    same hash and key.  The operations of [HandleTable] act on the chains as on
    lists. *)

Implicit Types (NH : ptrs) (C : gmap Z LRUHandle) (B : list (list Z)).

Fixpoint chain NH (h : option Z) l : Prop :=
  match l with
  | [] => h = None
  | x :: l => h = Some x /\ exists n, NH !! x = Some n /\ chain NH n l
  end.

(** The chains [B] of an array of [n] buckets. *)
Record buckets NH C (n : Z) (hs : list (option Z)) B : Prop := {
  bk_chains : Forall2 (chain NH) hs B;
  bk_index i l x : B !! i = Some l -> x ∈ l -> exists e, C !! x = Some e /\ bucket (hash e) n = i
}.

Definition power (n : Z) : Prop := exists k, 2 <= k <= 31 /\ n = 2 ^ k.

Definition same_key (e e' : LRUHandle) : Prop := hash e = hash e' /\ key e = key e'.

Record tinv (c : LRUCache) B : Prop := {
  ti_buckets : buckets (hashes (heap c)) (cores (heap c)) (length_ (table_ c)) (list_ (table_ c)) B;
  ti_length : length_ (table_ c) = Z.of_nat (length (list_ (table_ c)));
  ti_power : power (length_ (table_ c));
  ti_nodup : NoDup (concat B);
  ti_elems : elems_ (table_ c) = Z.of_nat (length (concat B));
  ti_bound : elems_ (table_ c) <= 2 ^ 31;
  ti_keys x y ex ey : x ∈ concat B -> y ∈ concat B -> cores (heap c) !! x = Some ex -> cores (heap c) !! y = Some ey ->
    same_key ex ey -> x = y
}.

(** Everything but the chains. *)
Record same_lists (c c' : LRUCache) : Prop := {
  sl_capacity : capacity_ c' = capacity_ c;
  sl_usage : usage_ c' = usage_ c;
  sl_next : next_loc c' = next_loc c;
  sl_deleted : deleted c' = deleted c;
  sl_cores : cores (heap c') = cores (heap c);
  sl_nexts : nexts (heap c') = nexts (heap c);
  sl_prevs : prevs (heap c') = prevs (heap c)
}.

Lemma same_lists_trans c1 c2 c3 : same_lists c1 c2 -> same_lists c2 c3 -> same_lists c1 c3.
Proof. intros [] []. split; congruence. Qed.

(** ** Chains *)
Lemma chain_ext NH NH' h l : (forall x, x ∈ l -> NH' !! x = NH !! x) -> chain NH h l -> chain NH' h l.
Proof.
  revert h. induction l as [|x l IH]; intros h HN; simpl; [done|]. intros (-> & n & Hx & Hl). split; [done|].
  exists n. rewrite HN by left. split; [done|]. apply IH; [|done]. intros y Hy. apply HN. by right.
Qed.

Lemma chain_insert NH h l x v : x ∉ l -> chain NH h l -> chain (<[x := v]> NH) h l.
Proof. intros Hx. apply chain_ext. intros y Hy. apply lookup_insert_ne. by intros ->. Qed.

Lemma chain_head NH h l : chain NH h l -> h = list.head l.
Proof. destruct l; simpl; [done|by intros [-> _]]. Qed.

(** The pointer to the rest of a chain. *)
Lemma nh_chain_app NH h l1 l2 : chain NH h (l1 ++ l2) ->
  chain NH (match list.last l1 with None => h | Some y => default None (NH !! y) end) l2.
Proof.
  revert h. induction l1 as [|x l1 IH]; intros h; [done|]. intros (_ & n & Hx & Hl). specialize (IH n Hl).
  destruct l1 as [|z l1]; [simpl; by rewrite Hx|]. change (list.last (x :: z :: l1)) with (list.last (z :: l1)).
  destruct (list.last (z :: l1)) as [y|] eqn:E; [done|by apply last_None in E].
Qed.

(** Redirecting the pointer after [l1]. *)
Lemma chain_redirect NH h l1 y l2 l2' v : chain NH h (l1 ++ [y] ++ l2) -> NoDup (l1 ++ [y]) -> y ∉ l2' ->
  chain NH v l2' -> chain (<[y := v]> NH) h (l1 ++ [y] ++ l2').
Proof.
  intros Hc Hnd Hy Hv. revert h Hc. induction l1 as [|x l1 IH]; intros h; simpl.
  - intros (-> & n & Hn & _). split; [done|]. exists v. rewrite lookup_insert_eq. split; [done|]. by apply chain_insert.
  - intros (-> & n & Hn & Hl). apply NoDup_cons in Hnd as [Hx Hnd]. split; [done|]. exists n.
    rewrite lookup_insert_ne; [split; [done|by apply IH]|]. intros ->. apply Hx. apply elem_of_app. right. left.
Qed.

Lemma concat_insert_perm B i (l l' : list Z) : B !! i = Some l -> concat (<[i := l']> B) ++ l ≡ₚ concat B ++ l'.
Proof.
  intros Hi. rewrite insert_take_drop by (by eapply lookup_lt_Some). rewrite <-(take_drop_middle B i l Hi) at 3.
  rewrite !concat_app. cbn [concat]. solve_Permutation.
Qed.

Lemma concat_elem B i (l : list Z) x : B !! i = Some l -> x ∈ l -> x ∈ concat B.
Proof. intros Hi Hx. rewrite list_elem_of_In, in_concat. exists l. rewrite <-!list_elem_of_In. split; [by eapply list_elem_of_lookup_2|done]. Qed.

Lemma elem_concat B x : x ∈ concat B -> exists i l, B !! i = Some l /\ x ∈ l.
Proof.
  rewrite list_elem_of_In, in_concat. intros (l & Hl%list_elem_of_In & Hx%list_elem_of_In).
  apply list_elem_of_lookup_1 in Hl as [i Hi]. eauto.
Qed.

Lemma NoDup_concat_in B i (l : list Z) : NoDup (concat B) -> B !! i = Some l -> NoDup l.
Proof.
  intros Hnd Hi. rewrite <-(take_drop_middle B i l Hi), concat_app in Hnd. cbn [concat] in Hnd.
  apply NoDup_app in Hnd as (_ & _ & Hnd). by apply NoDup_app in Hnd as (Hnd & _ & _).
Qed.

Lemma NoDup_concat_disjoint B i j (l l' : list Z) x : NoDup (concat B) -> B !! i = Some l -> B !! j = Some l' ->
  x ∈ l -> x ∈ l' -> i = j.
Proof.
  intros Hnd Hi Hj Hx Hx'. destruct (decide (i = j)) as [|Hne]; [done|exfalso].
  assert (Hp : l ++ l' ++ concat (<[j := []]> (<[i := []]> B)) ≡ₚ concat B).
  { pose proof (concat_insert_perm B i l [] Hi) as P1. rewrite app_nil_r in P1.
    assert (Hj' : <[i := []]> B !! j = Some l') by (by rewrite list_lookup_insert_ne).
    pose proof (concat_insert_perm (<[i := []]> B) j l' [] Hj') as P2. rewrite app_nil_r in P2. rewrite <-P1, <-P2. solve_Permutation. }
  rewrite <-Hp in Hnd. apply NoDup_app in Hnd as (_ & Hd & _). apply (Hd x Hx). apply elem_of_app. by left.
Qed.

Lemma bucket_range h n : power n -> (bucket h n < Z.to_nat n)%nat.
Proof.
  intros (k & Hk & ->). unfold bucket. replace (u32 (2 ^ k - 1)) with (Z.ones k).
  - rewrite Z.land_ones by lia. pose proof (Z.mod_pos_bound h (2 ^ k) ltac:(lia)). lia.
  - rewrite Z.ones_equiv. unfold u32. rewrite uwrap_small; [lia|]. split; [lia|].
    pose proof (Z.pow_le_mono_r 2 k 31 ltac:(lia) ltac:(lia)). lia.
Qed.

(** ** Slots *)
Definition slot_of (i : nat) l : slot := match list.last l with None => Bucket i | Some y => NextHash y end.

Definition matches (k : list Z) (h : Z) (e : LRUHandle) : Prop := hash e = h /\ key e = k.

Lemma cores_lookup (m : gmap Z LRUHandle) x e : m !! x = Some e -> cores m !! x = Some (core e).
Proof. intros Hx. unfold cores. by rewrite lookup_fmap, Hx. Qed.

Lemma hashes_lookup (m : gmap Z LRUHandle) x e : m !! x = Some e -> hashes m !! x = Some (next_hash e).
Proof. intros Hx. unfold hashes. by rewrite lookup_fmap, Hx. Qed.

Section table.
Context c B (Hinv : tinv c B).

Lemma table_entry_in x : x ∈ concat B -> exists e, heap c !! x = Some e.
Proof using Hinv.
  intros (i & l & Hi & Hx)%elem_concat. destruct (bk_index _ _ _ _ _ (ti_buckets _ _ Hinv) i l x Hi Hx) as (e & He & _).
  unfold cores in He. apply view_some in He as (e' & He' & _). eauto.
Qed.

Lemma bucket_chain i l : B !! i = Some l -> exists h, list_ (table_ c) !! i = Some h /\ chain (hashes (heap c)) h l.
Proof using Hinv. intros Hi. by apply (Forall2_lookup_r _ _ _ _ _ (bk_chains _ _ _ _ _ (ti_buckets _ _ Hinv)) Hi). Qed.

Lemma chain_length i l : B !! i = Some l -> (length l <= size (heap c))%nat.
Proof using Hinv.
  intros Hi. pose proof (NoDup_concat_in _ _ _ (ti_nodup _ _ Hinv) Hi) as Hnd.
  rewrite <-size_dom, <-(size_list_to_set (C := gset Z) l Hnd). apply subseteq_size. intros x Hx%elem_of_list_to_set.
  apply elem_of_dom. destruct (table_entry_in x (concat_elem _ _ _ _ Hi Hx)) as [e He]. eauto.
Qed.

Lemma read_slot_spec i l1 l2 : B !! i = Some (l1 ++ l2) -> read_slot (slot_of i l1) c = Done (list.head l2, c).
Proof using Hinv.
  intros Hi. destruct (bucket_chain i _ Hi) as (h & Hh & Hc). pose proof (nh_chain_app _ _ _ _ Hc) as Hc2. unfold slot_of.
  destruct (list.last l1) as [y|] eqn:E.
  - assert (Hy : y ∈ l1 ++ l2) by (apply last_Some in E as [l' ->]; apply elem_of_app; left; apply elem_of_app; right; left).
    destruct (table_entry_in y (concat_elem _ _ _ _ Hi Hy)) as [e He]. rewrite (hashes_lookup _ _ _ He) in Hc2.
    simpl in Hc2. unfold read_slot, bind, entry_at, ret. rewrite He. by rewrite (chain_head _ _ _ Hc2).
  - unfold read_slot, bind, get, ret. rewrite Hh. by rewrite (chain_head _ _ _ Hc2).
Qed.

Lemma find_loop_spec k h i l2 : forall fuel l1, B !! i = Some (l1 ++ l2) -> (length l2 <= fuel)%nat ->
  exists m1 m2, l2 = m1 ++ m2 /\ find_loop fuel k h (slot_of i l1) c = Done (slot_of i (l1 ++ m1), c) /\
    (forall y e, y ∈ m1 -> heap c !! y = Some e -> ~ matches k h e) /\
    match m2 with [] => True | x :: _ => exists e, heap c !! x = Some e /\ matches k h e end.
Proof using Hinv.
  induction l2 as [|x l2 IH]; intros fuel l1 Hi Hf.
  - exists [], []. rewrite (app_nil_r l1). split_and!; try done; [|by intros y e ?%not_elem_of_nil].
    destruct fuel; cbn [find_loop]; by rewrite (bind_Done _ _ _ _ _ (read_slot_spec i l1 [] Hi)).
  - destruct fuel as [|fuel]; [simpl in Hf; lia|]. cbn [find_loop].
    rewrite (bind_Done _ _ _ _ _ (read_slot_spec i l1 (x :: l2) Hi)). cbn [list.head].
    assert (Hx : x ∈ l1 ++ x :: l2) by (apply elem_of_app; right; left).
    destruct (table_entry_in x (concat_elem _ _ _ _ Hi Hx)) as [e He]. unfold bind at 1, entry_at. rewrite He.
    destruct (decide (matches k h e)) as [Hm|Hm].
    + exists [], (x :: l2). rewrite (app_nil_r l1). destruct Hm as [Hm1 Hm2].
      split_and!; [done| |by intros y e' ?%not_elem_of_nil|by exists e].
      rewrite Hm1, Z.eqb_refl, bool_decide_eq_true_2 by done. done.
    + destruct (IH fuel (l1 ++ [x])) as (m1 & m2 & -> & E & Hm1 & Hm2).
      { by rewrite <-(assoc_L (++)). }
      { simpl in Hf. lia. }
      assert (Hs : slot_of i (l1 ++ [x]) = NextHash x) by (unfold slot_of; by rewrite last_snoc).
      exists (x :: m1), m2. rewrite Hs in E. split_and!; [done| | |done].
      * replace (negb (hash e =? h) || negb (bool_decide (k = key e))) with true.
        -- rewrite E. by rewrite <-(assoc_L (++)).
        -- symmetry. apply orb_true_iff. rewrite !negb_true_iff. destruct (Z.eqb_spec (hash e) h); [|by left]. right.
           apply bool_decide_eq_false_2. intros ->. by apply Hm.
      * intros y e' [->|Hy]%elem_of_cons He'; [congruence|by eapply Hm1].
Qed.

(** What [FindPointer] returns. *)
Lemma FindPointer_spec k h : let i := bucket h (length_ (table_ c)) in
  exists l1 l2, B !! i = Some (l1 ++ l2) /\ FindPointer k h c = Done (slot_of i l1, c) /\
    match l2 with
    | [] => forall y e, y ∈ concat B -> heap c !! y = Some e -> ~ matches k h e
    | x :: _ => exists e, heap c !! x = Some e /\ matches k h e
    end.
Proof using Hinv.
  intros i. assert (Hi : (i < length B)%nat).
  { rewrite <-(Forall2_length _ _ _ (bk_chains _ _ _ _ _ (ti_buckets _ _ Hinv))). unfold i.
    pose proof (bucket_range h _ (ti_power _ _ Hinv)) as Hb. rewrite (ti_length _ _ Hinv) in Hb at 2. lia. }
  apply lookup_lt_is_Some in Hi as [l Hl].
  destruct (find_loop_spec k h i l (size (heap c)) [] Hl (chain_length i l Hl)) as (m1 & m2 & -> & E & Hm1 & Hm2).
  exists m1, m2. split_and!; [done|exact E|]. destruct m2 as [|x m2]; [|done]. rewrite app_nil_r in Hl.
  intros y e (j & l' & Hj & Hy)%elem_concat He Hm.
  destruct (bk_index _ _ _ _ _ (ti_buckets _ _ Hinv) j l' y Hj Hy) as (e' & He' & Hb).
  rewrite (cores_lookup _ _ _ He) in He'. injection He' as <-. simpl in Hb. destruct Hm as [Hh Hk].
  rewrite Hh in Hb. fold i in Hb. subst j. assert (l' = m1) by congruence. subst l'. by apply (Hm1 y e Hy He).
Qed.

End table.

(** Redirecting the slot after [l1] in bucket [i]. *)
Lemma write_slot_spec c B i l1 l2 l2' v :
  buckets (hashes (heap c)) (cores (heap c)) (length_ (table_ c)) (list_ (table_ c)) B -> NoDup (concat B) ->
  B !! i = Some (l1 ++ l2) -> chain (hashes (heap c)) v l2' -> (forall y, y ∈ l1 -> y ∉ l2') ->
  (forall y, y ∈ l2' -> exists e, cores (heap c) !! y = Some e /\ bucket (hash e) (length_ (table_ c)) = i) ->
  exists c', write_slot (slot_of i l1) v c = Done (tt, c') /\ same_lists c c' /\
    length_ (table_ c') = length_ (table_ c) /\ elems_ (table_ c') = elems_ (table_ c) /\
    length (list_ (table_ c')) = length (list_ (table_ c)) /\
    buckets (hashes (heap c')) (cores (heap c')) (length_ (table_ c')) (list_ (table_ c')) (<[i := l1 ++ l2']> B).
Proof.
  intros [Hch Hix] Hnd Hi Hv Hd Hb.
  assert (Hix' : forall j l x, <[i := l1 ++ l2']> B !! j = Some l -> x ∈ l ->
    exists e, cores (heap c) !! x = Some e /\ bucket (hash e) (length_ (table_ c)) = j).
  { intros j l x Hj Hx. apply list_lookup_insert_Some in Hj as [(<- & <- & _)|[Hne Hj]]; [|by eapply Hix].
    apply elem_of_app in Hx as [Hx|Hx]; [|by apply Hb]. eapply (Hix i); [exact Hi|]. apply elem_of_app. by left. }
  destruct (Forall2_lookup_r _ _ _ _ _ Hch Hi) as (h & Hh & Hc).
  unfold slot_of. destruct (list.last l1) as [y|] eqn:E.
  - apply last_Some in E as [l0 ->]. assert (Hy : y ∈ (l0 ++ [y]) ++ l2) by (apply elem_of_app; left; apply elem_of_app; right; left).
    destruct (Hix i _ y Hi Hy) as (e' & He' & _). unfold cores in He'. apply view_some in He' as (e & He & _).
    unfold write_slot. rewrite (update_spec _ _ _ _ He). eexists. split; [done|].
    destruct (view_set_next_hash (heap c) y e He v) as (A1 & A2 & A3 & A4). cbn [heap with_heap table_]. rewrite A3, A4.
    split_and!; try done. split; [|done]. apply Forall2_same_length_lookup. split; [rewrite length_insert; by eapply Forall2_length|].
    intros j h' l Hh' Hl. apply list_lookup_insert_Some in Hl as [(<- & <- & _)|[Hne Hl]].
    + rewrite Hh in Hh'. injection Hh' as <-. rewrite <-(assoc_L (++)) in Hc |- *. eapply chain_redirect; [exact Hc| | |done].
      * pose proof (NoDup_concat_in _ _ _ Hnd Hi) as Hn. by apply NoDup_app in Hn as (? & _ & _).
      * apply Hd. apply elem_of_app. right. left.
    + apply chain_insert; [|by eapply Forall2_lookup_lr]. intros Hyl. apply Hne.
      by apply (NoDup_concat_disjoint B i j _ _ y Hnd Hi Hl Hy).
  - apply last_None in E as ->. unfold write_slot, bind, get. rewrite bool_decide_eq_true_2 by (by eapply lookup_lt_Some).
    unfold modify. eexists. split; [done|]. cbn [heap with_table table_ list_ length_ elems_].
    split_and!; try done; [by rewrite length_insert|]. split; [|done]. by apply Forall2_insert.
Qed.

(** ** Lookup and removal *)
Lemma elems_pos c B : tinv c B -> 0 <= elems_ (table_ c).
Proof. intros Hinv. rewrite (ti_elems _ _ Hinv). lia. Qed.

Lemma table_Lookup_spec c B k h : tinv c B ->
  exists r, table_Lookup k h c = Done (r, c) /\
    match r with
    | None => forall y e, y ∈ concat B -> heap c !! y = Some e -> ~ matches k h e
    | Some x => x ∈ concat B /\ exists e, heap c !! x = Some e /\ matches k h e
    end.
Proof.
  intros Hinv. destruct (FindPointer_spec c B Hinv k h) as (l1 & l2 & Hi & E & Hm).
  unfold table_Lookup. rewrite (bind_Done _ _ _ _ _ E), (read_slot_spec c B Hinv _ _ _ Hi). eexists. split; [done|].
  destruct l2 as [|x l2]; cbn [list.head]; [done|]. split; [|done]. eapply concat_elem; [exact Hi|].
  apply elem_of_app. right. left.
Qed.

(** The entries other than a removed one. *)
Lemma tinv_remove c c' B i l1 x l2 : tinv c B -> B !! i = Some (l1 ++ x :: l2) -> same_lists c c' ->
  length_ (table_ c') = length_ (table_ c) -> elems_ (table_ c') = elems_ (table_ c) - 1 ->
  length (list_ (table_ c')) = length (list_ (table_ c)) ->
  buckets (hashes (heap c')) (cores (heap c')) (length_ (table_ c')) (list_ (table_ c')) (<[i := l1 ++ l2]> B) ->
  tinv c' (<[i := l1 ++ l2]> B) /\ concat B ≡ₚ x :: concat (<[i := l1 ++ l2]> B).
Proof.
  intros Hinv Hi [_ _ _ _ Hcores _ _] Hl He Hlen Hb. pose proof Hinv as [H1 H2 H3 H4 H5 H6 H7].
  assert (Hp : concat B ≡ₚ x :: concat (<[i := l1 ++ l2]> B)).
  { pose proof (concat_insert_perm B i _ (l1 ++ l2) Hi) as Hp. apply (Permutation_app_inv_r (l1 ++ l2)). rewrite <-Hp. solve_Permutation. }
  split; [|done]. assert (Hin : forall y, y ∈ concat (<[i := l1 ++ l2]> B) -> y ∈ concat B) by (intros y Hy; rewrite Hp; by right).
  pose proof H4 as Hnd. rewrite Hp in Hnd. apply NoDup_cons in Hnd as [_ Hnd].
  split; try done.
  - congruence.
  - congruence.
  - rewrite He, H5, Hp. simpl. lia.
  - lia.
  - rewrite Hcores. intros y z ey ez Hy Hz. by apply H7; apply Hin.
Qed.

Lemma table_Remove_spec c B k h : tinv c B ->
  exists r c', table_Remove k h c = Done (r, c') /\ same_lists c c' /\
    match r with
    | None => c' = c /\ forall y e, y ∈ concat B -> heap c !! y = Some e -> ~ matches k h e
    | Some x => exists B', tinv c' B' /\ concat B ≡ₚ x :: concat B' /\ exists e, heap c !! x = Some e /\ matches k h e
    end.
Proof.
  intros Hinv. destruct (FindPointer_spec c B Hinv k h) as (l1 & l2 & Hi & E & Hm).
  unfold table_Remove. rewrite (bind_Done _ _ _ _ _ E), (bind_Done _ _ _ _ _ (read_slot_spec c B Hinv _ _ _ Hi)).
  destruct l2 as [|x l2]; cbn [list.head]; [by exists None, c|].
  destruct Hm as (e & He & Hm). unfold bind at 2, entry_at.
  assert (Hinx : forall y, y ∈ l2 -> y ∈ l1 ++ x :: l2) by (intros y Hy; apply elem_of_app; right; by right).
  destruct (write_slot_spec c B _ l1 (x :: l2) l2 (next_hash e) (ti_buckets _ _ Hinv) (ti_nodup _ _ Hinv) Hi) as
    (c1 & E1 & Hs1 & Hl1 & He1 & Hlen1 & Hb1).
  { destruct (bucket_chain c B Hinv _ _ Hi) as (p & _ & Hc). apply nh_chain_app in Hc as (_ & n & Hn & Hc).
    rewrite (hashes_lookup _ _ _ He) in Hn. by injection Hn as <-. }
  { intros y Hy Hy2. pose proof (NoDup_concat_in _ _ _ (ti_nodup _ _ Hinv) Hi) as (_ & Hd & _)%NoDup_app. apply (Hd y Hy). by right. }
  { intros y Hy. by apply (bk_index _ _ _ _ _ (ti_buckets _ _ Hinv) _ _ y Hi), Hinx. }
  unfold bind at 1. rewrite He, (bind_Done _ _ _ _ _ E1). unfold modify, ret. eexists (Some x), _. split; [done|].
  pose proof (elems_pos c B Hinv) as Hpos. pose proof (ti_bound _ _ Hinv) as Hbd.
  assert (0 < elems_ (table_ c)).
  { rewrite (ti_elems _ _ Hinv). assert (Hx : x ∈ concat B) by (eapply concat_elem; [exact Hi|]; apply elem_of_app; right; left).
    destruct (concat B); [by apply not_elem_of_nil in Hx|simpl; lia]. }
  set (c2 := with_table _ c1). assert (Hs2 : same_lists c c2) by (destruct Hs1; by split).
  split; [done|]. exists (<[bucket h (length_ (table_ c)) := l1 ++ l2]> B).
  destruct (tinv_remove c c2 B _ l1 x l2 Hinv Hi Hs2) as [Ht Hp]; try done.
  - unfold c2. simpl. rewrite He1. unfold u32. rewrite uwrap_small; lia.
  - split_and!; [done|done|by exists e].
Qed.

(** ** Growing *)
Lemma new_length_spec elems : elems <= 2 ^ 31 -> forall fuel k, 2 <= k <= 31 -> 31 - k <= Z.of_nat fuel ->
  exists n, new_length_loop fuel (2 ^ k) elems = Done n /\ power n.
Proof.
  intros He. induction fuel as [|fuel IH]; intros k Hk Hf; cbn [new_length_loop].
  - assert (k = 31) as -> by lia. destruct (Z.ltb_spec (2 ^ 31) elems); [lia|]. exists (2 ^ 31). split; [done|]. by exists 31.
  - destruct (Z.ltb_spec (2 ^ k) elems) as [Hlt|]; [|exists (2 ^ k); split; [done|by exists k]].
    assert (k < 31) by (apply (Z.pow_lt_mono_r_iff 2); lia).
    replace (u32 (2 ^ k * 2)) with (2 ^ (k + 1)); [apply IH; lia|].
    rewrite Z.pow_add_r by lia. unfold u32. rewrite uwrap_small; [done|].
    pose proof (Z.pow_le_mono_r 2 k 30 ltac:(lia) ltac:(lia)). lia.
Qed.

(** Moving one chain to the new buckets. *)
Lemma rehash_chain_spec n l : power n -> forall fuel h ls Bs c,
  chain (hashes (heap c)) h l -> buckets (hashes (heap c)) (cores (heap c)) n ls Bs -> length ls = Z.to_nat n ->
  NoDup (l ++ concat Bs) -> (forall x, x ∈ l -> is_Some (heap c !! x)) -> (length l <= fuel)%nat ->
  exists c' ls' Bs', rehash_chain fuel n h ls c = Done (ls', c') /\ same_lists c c' /\ table_ c' = table_ c /\
    buckets (hashes (heap c')) (cores (heap c')) n ls' Bs' /\ length ls' = length ls /\ concat Bs' ≡ₚ l ++ concat Bs /\
    (forall y, y ∉ l -> hashes (heap c') !! y = hashes (heap c) !! y).
Proof.
  intros Hpow. induction l as [|x l IH]; intros fuel h ls Bs c Hc Hb Hlen Hnd Hin Hf.
  - simpl in Hc. subst h. exists c, ls, Bs. split_and!; try done. by destruct fuel.
  - destruct Hc as (-> & nh & Hx & Hc). destruct fuel as [|fuel]; [simpl in Hf; lia|].
    destruct (Hin x ltac:(left)) as [e He]. cbn [rehash_chain]. unfold bind at 1, entry_at. rewrite He. cbv zeta.
    set (i := bucket (hash e) n). assert (Hi : (i < length ls)%nat) by (rewrite Hlen; by apply bucket_range).
    apply lookup_lt_is_Some in Hi as [v Hv]. rewrite Hv. destruct (Forall2_lookup_l _ _ _ _ _ (bk_chains _ _ _ _ _ Hb) Hv) as (b & Hbi & Hcb).
    rewrite (bind_Done _ _ _ _ _ (update_spec _ _ _ _ He)). set (c1 := with_heap _ c).
    destruct (view_set_next_hash (heap c) x e He v) as (A1 & A2 & A3 & A4).
    rewrite (hashes_lookup _ _ _ He) in Hx. injection Hx as <-. simpl in Hnd. apply NoDup_cons in Hnd as [Hxn Hnd].
    rewrite elem_of_app in Hxn.
    assert (Hxb : forall j b', Bs !! j = Some b' -> x ∉ b') by (intros j b' Hj Hxb; apply Hxn; right; by eapply concat_elem).
    assert (Hp : concat (<[i := x :: b]> Bs) ≡ₚ x :: concat Bs).
    { pose proof (concat_insert_perm Bs i b (x :: b) Hbi) as Hp. apply (Permutation_app_inv_r b). rewrite Hp. solve_Permutation. }
    destruct (IH fuel (next_hash e) (<[i := Some x]> ls) (<[i := x :: b]> Bs) c1) as (c' & ls' & Bs' & E & Hs & Ht & Hb' & Hl' & Hp' & Hy').
    { unfold c1. cbn [heap with_heap]. rewrite A3. apply chain_insert; [naive_solver|done]. }
    { unfold c1. cbn [heap with_heap]. rewrite A3, A4. split.
      - apply Forall2_insert.
        + eapply Forall2_impl; [|]. 2: { intros h' b' Hh'. exact Hh'. }
          apply Forall2_same_length_lookup. split; [by eapply Forall2_length, Hb|]. intros j h' b' Hh' Hb'.
          apply chain_insert; [by eapply Hxb|]. by eapply (Forall2_lookup_lr _ _ _ _ _ _ (bk_chains _ _ _ _ _ Hb)).
        + split; [done|]. exists v. rewrite lookup_insert_eq. split; [done|]. apply chain_insert; [by eapply Hxb|done].
      - intros j b' y Hj Hy. apply list_lookup_insert_Some in Hj as [(<- & <- & _)|[Hne Hj]]; [|by eapply (bk_index _ _ _ _ _ Hb)].
        apply elem_of_cons in Hy as [->|Hy]; [|by eapply (bk_index _ _ _ _ _ Hb)]. exists (core e). by rewrite (cores_lookup _ _ _ He). }
    { by rewrite length_insert. }
    { rewrite Hp. rewrite <-Permutation_middle. apply NoDup_cons. split; [by rewrite elem_of_app|done]. }
    { intros y Hy. unfold c1. cbn [heap with_heap]. destruct (Hin y ltac:(by right)) as [ey Hey].
      destruct (decide (x = y)) as [<-|]; [rewrite lookup_insert_eq|rewrite lookup_insert_ne by done]; by eexists. }
    { simpl in Hf. lia. }
    exists c', ls', Bs'. split_and!; try done.
    + eapply same_lists_trans; [|exact Hs]. split; try done; unfold c1; cbn [heap with_heap]; congruence.
    + rewrite Hl'. apply length_insert.
    + rewrite Hp', Hp. solve_Permutation.
    + intros y Hy. rewrite not_elem_of_cons in Hy. rewrite Hy' by naive_solver. unfold c1. cbn [heap with_heap].
      rewrite A3. apply lookup_insert_ne. naive_solver.
Qed.

Lemma rehash_spec n : power n -> forall old OB ls Bs c,
  Forall2 (chain (hashes (heap c))) old OB -> buckets (hashes (heap c)) (cores (heap c)) n ls Bs -> length ls = Z.to_nat n ->
  NoDup (concat OB ++ concat Bs) -> (forall x, x ∈ concat OB -> is_Some (heap c !! x)) ->
  exists c' ls' Bs', rehash n old ls c = Done (ls', c') /\ same_lists c c' /\ table_ c' = table_ c /\
    buckets (hashes (heap c')) (cores (heap c')) n ls' Bs' /\ length ls' = length ls /\ concat Bs' ≡ₚ concat OB ++ concat Bs.
Proof.
  intros Hpow. induction old as [|h old IH]; intros OB ls Bs c Hch Hb Hlen Hnd Hin.
  - inversion Hch; subst. by exists c, ls, Bs.
  - inversion Hch as [|? l ? OB' Hc Hch']; subst. cbn [concat] in *. cbn [rehash]. unfold bind at 1, get.
    rewrite <-(assoc_L (++)) in Hnd. pose proof Hnd as (Hndl & Hdl & Hndr)%NoDup_app.
    destruct (rehash_chain_spec n l Hpow (size (heap c)) h ls Bs c) as (c1 & ls1 & Bs1 & E1 & Hs1 & Ht1 & Hb1 & Hl1 & Hp1 & Hy1); try done.
    { apply NoDup_app. split_and!; [done| |by apply NoDup_app in Hndr as (_ & _ & ?)].
      intros y Hy Hy'. apply (Hdl y Hy). apply elem_of_app. by right. }
    { intros x Hx. apply Hin. apply elem_of_app. by left. }
    { rewrite <-size_dom, <-(size_list_to_set (C := gset Z) l Hndl). apply subseteq_size. intros x Hx%elem_of_list_to_set.
      apply elem_of_dom, Hin, elem_of_app. by left. }
    rewrite (bind_Done _ _ _ _ _ E1).
    destruct (IH OB' ls1 Bs1 c1) as (c2 & ls2 & Bs2 & E2 & Hs2 & Ht2 & Hb2 & Hl2 & Hp2).
    { apply Forall2_same_length_lookup. split; [by eapply Forall2_length|]. intros j h' l' Hh' Hl'.
      eapply chain_ext; [|by eapply (Forall2_lookup_lr _ _ _ _ _ _ Hch')]. intros y Hy. apply Hy1. intros Hyl.
      apply (Hdl y Hyl). apply elem_of_app. left. by eapply concat_elem. }
    { done. }
    { congruence. }
    { rewrite Hp1. rewrite (assoc_L (++)), (Permutation_app_comm (concat OB') l), <-(assoc_L (++)). done. }
    { intros x Hx. apply (view_dom core (heap c) (heap c1)); [apply Hs1|]. rewrite lookup_fmap, fmap_is_Some. apply Hin, elem_of_app. by right. }
    exists c2, ls2, Bs2. split_and!; try done.
    + by eapply same_lists_trans.
    + congruence.
    + congruence.
    + rewrite Hp2, Hp1. solve_Permutation.
Qed.

Lemma Resize_spec c B : tinv c B ->
  exists c' B', Resize c = Done (tt, c') /\ same_lists c c' /\ tinv c' B' /\ concat B' ≡ₚ concat B.
Proof.
  intros Hinv. pose proof Hinv as [H1 H2 H3 H4 H5 H6 H7]. unfold Resize, bind at 1, get. cbv zeta.
  destruct (new_length_spec (elems_ (table_ c)) H6 33 2 ltac:(lia) ltac:(lia)) as (n & E & Hpow).
  change (2 ^ 2) with 4 in E. unfold bind at 1, lift. rewrite E.
  assert (Hconcat : concat (replicate (Z.to_nat n) ([] : list Z)) = []) by (induction (Z.to_nat n); done).
  destruct (rehash_spec n Hpow (list_ (table_ c)) B (replicate (Z.to_nat n) None) (replicate (Z.to_nat n) []) c)
    as (c1 & ls & Bs & E1 & Hs1 & Ht1 & Hb1 & Hl1 & Hp1).
  { apply H1. }
  { split; [by apply Forall2_replicate|]. intros i l x [-> _]%lookup_replicate ?%not_elem_of_nil. done. }
  { by rewrite length_replicate. }
  { by rewrite Hconcat, app_nil_r. }
  { intros x Hx. by destruct (table_entry_in c B Hinv x Hx) as [e ->]; eexists. }
  rewrite (bind_Done _ _ _ _ _ E1). unfold modify. eexists _, Bs. split; [done|]. rewrite Hconcat, app_nil_r in Hp1.
  split_and!; [destruct Hs1; by split| |done]. rewrite length_replicate in Hl1.
  assert (Hn : 0 <= n) by (destruct Hpow as (k & Hk & ->); lia).
  split; cbn [table_ with_table heap list_ length_ elems_]; try done.
  - rewrite Hl1. lia.
  - by rewrite Hp1.
  - by rewrite Hp1.
  - intros x y ex ey. rewrite Hp1, (sl_cores _ _ Hs1). apply H7.
Qed.

(** ** Insertion *)
Section insert.
Context (c : LRUCache) B (x : Z) (e : LRUHandle).
Hypothesis Hinv : tinv c B.
Hypothesis Hx : heap c !! x = Some e.
Hypothesis Hnew : x ∉ concat B.

#[local] Abbreviation i := (bucket (hash e) (length_ (table_ c))).

(** The slot is made to point to [x], which continues with [l2]. *)
Lemma link_spec l1 l2 l2' nh : B !! i = Some (l1 ++ l2) -> chain (hashes (heap c)) nh l2' -> (forall y, y ∈ l2' -> y ∈ l2) ->
  exists c', (update x (set_next_hash nh);;; write_slot (slot_of i l1) (Some x)) c = Done (tt, c') /\ same_lists c c' /\
    length_ (table_ c') = length_ (table_ c) /\ elems_ (table_ c') = elems_ (table_ c) /\
    length (list_ (table_ c')) = length (list_ (table_ c)) /\
    buckets (hashes (heap c')) (cores (heap c')) (length_ (table_ c')) (list_ (table_ c')) (<[i := l1 ++ x :: l2']> B).
Proof using Hinv Hx Hnew.
  intros Hi Hnh Hsub. pose proof Hinv as [H1 H2 H3 H4 H5 H6 H7].
  rewrite (bind_Done _ _ _ _ _ (update_spec _ _ _ _ Hx)). set (c1 := with_heap _ c).
  destruct (view_set_next_hash (heap c) x e Hx nh) as (A1 & A2 & A3 & A4).
  assert (Hxin : forall j l, B !! j = Some l -> x ∉ l) by (intros j l Hj Hxl; apply Hnew; by eapply concat_elem).
  assert (Hl12 : forall y, y ∈ l2' -> y ∈ l1 ++ l2) by (intros y Hy; apply elem_of_app; right; by apply Hsub).
  pose proof (NoDup_concat_in _ _ _ H4 Hi) as (_ & Hd & _)%NoDup_app.
  destruct (write_slot_spec c1 B i l1 l2 (x :: l2') (Some x)) as (c2 & E2 & Hs2 & Hl2 & He2 & Hlen2 & Hb2); try done.
  - unfold c1. cbn [heap with_heap table_]. rewrite A3, A4. split; [|apply H1].
    apply Forall2_same_length_lookup. split; [by eapply Forall2_length, H1|]. intros j h' l' Hh' Hl'.
    apply chain_insert; [by eapply Hxin|]. by eapply (Forall2_lookup_lr _ _ _ _ _ _ (bk_chains _ _ _ _ _ H1)).
  - unfold c1. cbn [heap with_heap]. rewrite A3. split; [done|]. exists nh. rewrite lookup_insert_eq. split; [done|].
    apply chain_insert; [|done]. intros Hxl. by apply (Hxin _ _ Hi), Hl12.
  - intros y Hy [->|Hy']%elem_of_cons; [apply (Hxin _ _ Hi), elem_of_app; by left|]. apply (Hd y Hy). by apply Hsub.
  - unfold c1. cbn [heap with_heap table_]. rewrite A4. intros y [->|Hy]%elem_of_cons.
    + exists (core e). by rewrite (cores_lookup _ _ _ Hx).
    + by apply (bk_index _ _ _ _ _ H1 i _ y Hi), Hl12.
  - exists c2. split_and!; try done. eapply same_lists_trans; [|exact Hs2]. split; try done; unfold c1; cbn [heap with_heap]; congruence.
Qed.

(** The keys stay distinct. *)
Lemma insert_keys c' B' R : same_lists c c' -> concat B' ≡ₚ x :: R -> (forall y, y ∈ R -> y ∈ concat B) ->
  (forall y ey, y ∈ R -> heap c !! y = Some ey -> ~ matches (key e) (hash e) ey) ->
  forall y z ey ez, y ∈ concat B' -> z ∈ concat B' -> cores (heap c') !! y = Some ey -> cores (heap c') !! z = Some ez ->
    same_key ey ez -> y = z.
Proof using Hinv Hx.
  intros Hs Hp HR Hno y z ey ez. rewrite Hp, (sl_cores _ _ Hs), !elem_of_cons. intros Hy Hz Hey Hez Hk.
  assert (Hxe : forall w ew, w ∈ R -> cores (heap c) !! w = Some ew -> ~ same_key (core e) ew).
  { intros w ew Hw Hew [Hk1 Hk2]. unfold cores in Hew. apply view_some in Hew as (ew' & Hew' & <-).
    apply (Hno w ew' Hw Hew'). by split. }
  pose proof (cores_lookup _ _ _ Hx) as Hcx. destruct Hy as [->|Hy], Hz as [->|Hz]; [done| | |].
  - assert (ey = core e) as -> by congruence. by destruct (Hxe z ez Hz Hez).
  - assert (ez = core e) as -> by congruence. destruct (Hxe y ey Hy Hey). destruct Hk. by split.
  - by eapply (ti_keys _ _ Hinv); eauto.
Qed.

Lemma table_Insert_spec : elems_ (table_ c) < 2 ^ 31 ->
  exists old c' B', table_Insert x c = Done (old, c') /\ same_lists c c' /\ tinv c' B' /\
    match old with
    | None => concat B' ≡ₚ x :: concat B /\
        forall y ey, y ∈ concat B -> heap c !! y = Some ey -> ~ matches (key e) (hash e) ey
    | Some o => exists R eo, concat B ≡ₚ o :: R /\ concat B' ≡ₚ x :: R /\ heap c !! o = Some eo /\
        matches (key e) (hash e) eo
    end.
Proof using Hinv Hx Hnew.
  intros Hbound. pose proof Hinv as [H1 H2 H3 H4 H5 H6 H7].
  destruct (FindPointer_spec c B Hinv (key e) (hash e)) as (l1 & l2 & Hi & E & Hm).
  unfold table_Insert, bind at 1, entry_at at 1. rewrite Hx.
  rewrite (bind_Done _ _ _ _ _ E), (bind_Done _ _ _ _ _ (read_slot_spec c B Hinv _ _ _ Hi)).
  destruct l2 as [|o l2]; cbn [list.head].
  - unfold bind at 1, ret at 1. destruct (link_spec l1 [] [] None Hi) as (c1 & E1 & Hs1 & Hl1 & He1 & Hlen1 & Hb1); try done.
    apply bind_inv in E1 as (u & c0 & Eu & Ew). rewrite (bind_Done _ _ _ _ _ Eu), (bind_Done _ _ _ _ _ Ew).
    unfold bind at 1, bind at 1, modify at 1. set (c2 := with_table _ c1). unfold bind at 1, get.
    assert (Hp : concat (<[i := l1 ++ [x]]> B) ≡ₚ x :: concat B).
    { pose proof (concat_insert_perm B i _ (l1 ++ [x]) Hi) as Hp. apply (Permutation_app_inv_r l1).
      rewrite app_nil_r in Hp. rewrite Hp. solve_Permutation. }
    assert (Hs2 : same_lists c c2) by (destruct Hs1; by split).
    assert (He2 : elems_ (table_ c2) = elems_ (table_ c) + 1).
    { unfold c2. simpl. rewrite He1. unfold u32. rewrite uwrap_small; [done|]. pose proof (elems_pos c B Hinv). lia. }
    assert (Ht2 : tinv c2 (<[i := l1 ++ [x]]> B)).
    { split; try done.
      - unfold c2. cbn [table_ with_table length_ list_]. congruence.
      - unfold c2. cbn [table_ with_table length_]. by rewrite Hl1.
      - rewrite Hp. by constructor.
      - rewrite He2, Hp, H5. simpl. lia.
      - lia.
      - by apply (insert_keys c2 _ (concat B) Hs2 Hp). }
    destruct (length_ (table_ c2) <? elems_ (table_ c2)).
    + destruct (Resize_spec c2 _ Ht2) as (c3 & B3 & E3 & Hs3 & Ht3 & Hp3). rewrite E3.
      exists None, c3, B3. split_and!; [done|by eapply same_lists_trans|done|by rewrite Hp3|done].
    + by exists None, c2, (<[i := l1 ++ [x]]> B).
  - destruct Hm as (eo & Heo & Hm). unfold bind at 1, bind at 1, entry_at at 1. rewrite Heo. unfold ret at 1.
    assert (Hch : chain (hashes (heap c)) (next_hash eo) l2).
    { destruct (bucket_chain c B Hinv _ _ Hi) as (p & _ & Hc). apply nh_chain_app in Hc as (_ & n & Hn & Hc).
      rewrite (hashes_lookup _ _ _ Heo) in Hn. by injection Hn as <-. }
    destruct (link_spec l1 (o :: l2) l2 (next_hash eo) Hi Hch) as (c1 & E1 & Hs1 & Hl1 & He1 & Hlen1 & Hb1); [by intros; right|].
    apply bind_inv in E1 as (u & c0 & Eu & Ew). rewrite (bind_Done _ _ _ _ _ Eu), (bind_Done _ _ _ _ _ Ew).
    set (R := concat (<[i := l1 ++ l2]> B)).
    assert (HpR : concat B ≡ₚ o :: R).
    { pose proof (concat_insert_perm B i _ (l1 ++ l2) Hi) as Hp. apply (Permutation_app_inv_r (l1 ++ l2)). unfold R.
      rewrite <-Hp. solve_Permutation. }
    assert (Hp : concat (<[i := l1 ++ x :: l2]> B) ≡ₚ x :: R).
    { pose proof (concat_insert_perm B i _ (l1 ++ x :: l2) Hi) as Hp. rewrite HpR in Hp.
      apply (Permutation_app_inv_r (l1 ++ o :: l2)). rewrite Hp. solve_Permutation. }
    assert (HR : forall y, y ∈ R -> y ∈ concat B) by (intros y Hy; rewrite HpR; by right).
    pose proof H4 as Hnd. rewrite HpR in Hnd. apply NoDup_cons in Hnd as [HoR HndR].
    exists (Some o), c1, (<[i := l1 ++ x :: l2]> B). split_and!; [done|done| |by exists R, eo].
    split; try done.
    + congruence.
    + by rewrite Hl1.
    + rewrite Hp. constructor; [|done]. intros HxR. by apply Hnew, HR.
    + rewrite He1, H5, HpR, Hp. done.
    + lia.
    + apply (insert_keys c1 _ R Hs1 Hp HR). intros y ey Hy Hey Hmy. apply HoR.
      replace o with y; [done|]. eapply (H7 y o (core ey) (core eo)); [by apply HR|rewrite HpR; left|by apply cores_lookup..|].
      destruct Hm, Hmy. split; simpl; congruence.
Qed.
End insert.
