(* ===== verification/CacheInv.v ===== *)
(** * The block cache: the invariant of a shard

    [U] are the entries on [lru_], oldest first, [I] those on [in_use_] and [D]
    those that left the cache while clients held them; [held] are the handles
    that clients hold.  [facts] is what holds of the entries, [CInv] adds the
    lists and the table. *)
From S2P Require Import Prelude Coding Counting Cache CacheTable.
From stdpp Require Import list gmap options.
#[local] Open Scope Z_scope.
#[local] Open Scope tf_monad_scope.

Implicit Types (C : gmap Z LRUHandle) (U I D held : list Z) (c : LRUCache).

Definition charge_of C (x : Z) : Z := match C !! x with Some e => charge e | None => 0 end.

Definition count held (x : Z) : Z := zsum (occ x) held.

Definition times_deleted (ds : list deletion) (x : Z) : Z := zsum (fun d => occ x (d_entry d)) ds.

Record facts C (usage nl : Z) (ds : list deletion) U I D held : Prop := {
  fa_nodup : NoDup (lru_addr :: in_use_addr :: U ++ I ++ D);
  fa_dom x : is_Some (C !! x) <-> x ∈ lru_addr :: in_use_addr :: U ++ I ++ D;
  fa_fresh x : x ∈ lru_addr :: in_use_addr :: U ++ I ++ D -> x < nl;
  fa_start : 2 <= nl;
  fa_entry x e : C !! x = Some e -> x ∈ U ++ I ++ D ->
    refs e = (if in_cache e then 1 else 0) + count held x /\ 0 <= charge e /\ (in_cache e = true <-> x ∈ U ++ I);
  fa_unused x : x ∈ U -> count held x = 0;
  fa_used x : x ∈ I ++ D -> 1 <= count held x;
  fa_held x : x ∈ held -> x ∈ I ++ D;
  fa_usage : usage = zsum (charge_of C) (U ++ I);
  fa_deleted x : times_deleted ds x + (if decide (is_Some (C !! x)) then 1 else 0) = if decide (0 <= x < nl) then 1 else 0
}.

Record rings c U I : Prop := {
  ri_lru : ring (nexts (heap c)) (prevs (heap c)) lru_addr U;
  ri_use : ring (nexts (heap c)) (prevs (heap c)) in_use_addr I;
  ri_nodup : NoDup (lru_addr :: in_use_addr :: U ++ I)
}.

Record CInv c U I D held : Prop := {
  cv_facts : facts (cores (heap c)) (usage_ c) (next_loc c) (deleted c) U I D held;
  cv_rings : rings c U I;
  cv_table : exists B, tinv c B /\ concat B ≡ₚ U ++ I;
  cv_bound : usage_ c < 2 ^ 64
}.

(** ** Lists *)
Definition without (x : Z) (l : list Z) : list Z := filter (fun y => y <> x) l.

Lemma without_elem x y l : y ∈ without x l <-> y ∈ l /\ y <> x.
Proof. unfold without. rewrite list_elem_of_filter. tauto. Qed.

Lemma without_absent x l : x ∉ l -> without x l = l.
Proof.
  unfold without. induction l as [|y l IH]; intros Hx; [done|]. rewrite not_elem_of_cons in Hx.
  rewrite filter_cons_True by naive_solver. by rewrite IH by naive_solver.
Qed.

Lemma without_split x l1 l2 : NoDup (l1 ++ x :: l2) -> without x (l1 ++ x :: l2) = l1 ++ l2.
Proof.
  intros (_ & Hd & [Hx2 _]%NoDup_cons)%NoDup_app. unfold without. rewrite filter_app, filter_cons_False by naive_solver.
  fold (without x l1) (without x l2). rewrite !without_absent; [done|done|]. intros Hx. apply (Hd x Hx). left.
Qed.

Lemma without_perm x l : NoDup l -> x ∈ l -> l ≡ₚ x :: without x l.
Proof.
  intros Hnd (l1 & l2 & ->)%list_elem_of_split. rewrite without_split by done. by rewrite Permutation_middle.
Qed.

Lemma rings_same c c' U I : nexts (heap c') = nexts (heap c) -> prevs (heap c') = prevs (heap c) -> rings c U I -> rings c' U I.
Proof. intros H1 H2 [R1 R2 R3]. split; by rewrite ?H1, ?H2. Qed.

Lemma not_in_other U I x : NoDup (lru_addr :: in_use_addr :: U ++ I) ->
  (x ∈ lru_addr :: U -> x ∈ in_use_addr :: I -> False).
Proof.
  intros [H1 [H2 (_ & Hd & _)%NoDup_app]%NoDup_cons]%NoDup_cons. rewrite !elem_of_cons in *. rewrite !elem_of_app in *.
  intros [->|Hx] [Hy|Hy]; naive_solver.
Qed.

(** Taking an entry off its list. *)
Lemma rings_remove c U I x : rings c U I -> x ∈ U ++ I ->
  exists c', LRU_Remove x c = Done (tt, c') /\ same_entries c c' /\ rings c' (without x U) (without x I).
Proof.
  intros [R1 R2 R3] Hx. pose proof (not_in_other U I) as Hno. pose proof R3 as Hnd.
  apply NoDup_cons in Hnd as [N1 Hnd]. apply NoDup_cons in Hnd as [N2 Hnd]. pose proof Hnd as (NU & Hd & NI)%NoDup_app.
  rewrite elem_of_cons, elem_of_app in N1. rewrite elem_of_app in N2.
  assert (Hnd' : NoDup (lru_addr :: in_use_addr :: without x U ++ without x I)).
  { eapply sublist_NoDup; [exact R3|]. do 2 apply sublist_skip. apply sublist_app; unfold without; apply sublist_filter. }
  apply elem_of_app in Hx as [Hx|Hx].
  - assert (HxI : x ∉ I) by (intros HxI; by apply (Hd x)). rewrite (without_absent x I HxI) in *.
    pose proof Hx as (l1 & l2 & ->)%list_elem_of_split. rewrite without_split in * by done.
    destruct (LRU_Remove_spec c lru_addr l1 x l2 R1) as (c' & p & n & E & Hs & Hp & Hn & HN & HP & Hr).
    exists c'. split_and!; try done. split; [done| |done]. eapply ring_ext; [|exact R2]. intros y Hy. rewrite HN, HP.
    assert (Hne : forall z, z ∈ lru_addr :: l1 ++ l2 -> z <> y).
    { intros z Hz ->. apply (Hno y R3); [|done]. rewrite elem_of_cons, elem_of_app in Hz |- *. rewrite elem_of_cons. naive_solver. }
    by rewrite !lookup_insert_ne by (by apply Hne).
  - assert (HxU : x ∉ U) by (intros HxU; by apply (Hd x)). rewrite (without_absent x U HxU) in *.
    pose proof Hx as (l1 & l2 & ->)%list_elem_of_split. rewrite without_split in * by done.
    destruct (LRU_Remove_spec c in_use_addr l1 x l2 R2) as (c' & p & n & E & Hs & Hp & Hn & HN & HP & Hr).
    exists c'. split_and!; try done. split; [|done|done]. eapply ring_ext; [|exact R1]. intros y Hy. rewrite HN, HP.
    assert (Hne : forall z, z ∈ in_use_addr :: l1 ++ l2 -> z <> y).
    { intros z Hz ->. apply (Hno y R3); [done|]. rewrite elem_of_cons, elem_of_app in Hz |- *. rewrite elem_of_cons. naive_solver. }
    by rewrite !lookup_insert_ne by (by apply Hne).
Qed.

(** Putting an entry at the end of a list; [b] tells which. *)
Lemma rings_append c U I x (b : bool) : rings c U I -> x ∉ lru_addr :: in_use_addr :: U ++ I -> is_Some (heap c !! x) ->
  exists c', LRU_Append (if b then lru_addr else in_use_addr) x c = Done (tt, c') /\ same_entries c c' /\
    rings c' (if b then U ++ [x] else U) (if b then I else I ++ [x]).
Proof.
  intros [R1 R2 R3] Hx Hs. pose proof (not_in_other U I) as Hno. rewrite !not_elem_of_cons, not_elem_of_app in Hx.
  destruct Hx as (X1 & X2 & X3 & X4).
  assert (Hnd' : NoDup (lru_addr :: in_use_addr :: (if b then U ++ [x] else U) ++ (if b then I else I ++ [x]))).
  { assert (Hp : (if b then U ++ [x] else U) ++ (if b then I else I ++ [x]) ≡ₚ x :: U ++ I) by (destruct b; solve_Permutation).
    rewrite Hp. rewrite !NoDup_cons, !elem_of_cons in *. rewrite !elem_of_app in *. naive_solver. }
  destruct b.
  - destruct (LRU_Append_spec c lru_addr U x R1) as (c' & q & E & Hse & Hq & HN & HP & Hr);
      [by rewrite not_elem_of_cons|done|]. exists c'. split_and!; try done. split; [done| |done].
    eapply ring_ext; [|exact R2]. intros y Hy. rewrite HN, HP.
    assert (Hyx : x <> y) by (intros ->; apply elem_of_cons in Hy as [?|?]; congruence).
    assert (Hne : forall z, z ∈ lru_addr :: U -> z <> y) by (intros z Hz ->; by eapply Hno).
    rewrite !lookup_insert_ne; try done; apply Hne; [left|done].
  - destruct (LRU_Append_spec c in_use_addr I x R2) as (c' & q & E & Hse & Hq & HN & HP & Hr);
      [by rewrite not_elem_of_cons|done|]. exists c'. split_and!; try done. split; [|done|done].
    eapply ring_ext; [|exact R1]. intros y Hy. rewrite HN, HP.
    assert (Hyx : x <> y) by (intros ->; apply elem_of_cons in Hy as [?|?]; congruence).
    assert (Hne : forall z, z ∈ in_use_addr :: I -> z <> y) by (intros z Hz ->; by eapply Hno).
    rewrite !lookup_insert_ne; try done; apply Hne; [left|done].
Qed.

(** ** Facts after a change of one entry *)
Lemma facts_change C usage nl ds U I D held x C' usage' ds' U' I' D' held' :
  facts C usage nl ds U I D held -> x ∈ U ++ I ++ D ->
  (forall y, y <> x -> C' !! y = C !! y) -> NoDup (lru_addr :: in_use_addr :: U' ++ I' ++ D') ->
  (forall y, y <> x -> (y ∈ U' <-> y ∈ U) /\ (y ∈ I' <-> y ∈ I) /\ (y ∈ D' <-> y ∈ D)) ->
  (forall y, y <> x -> count held' y = count held y) ->
  (is_Some (C' !! x) <-> x ∈ U' ++ I' ++ D') ->
  (forall e, C' !! x = Some e -> refs e = (if in_cache e then 1 else 0) + count held' x /\ 0 <= charge e /\ (in_cache e = true <-> x ∈ U' ++ I')) ->
  (x ∈ U' -> count held' x = 0) -> (x ∈ I' ++ D' -> 1 <= count held' x) -> (x ∈ held' -> x ∈ I' ++ D') ->
  usage' = zsum (charge_of C') (U' ++ I') ->
  times_deleted ds' x + (if decide (is_Some (C' !! x)) then 1 else 0) = 1 ->
  (forall y, y <> x -> times_deleted ds' y = times_deleted ds y) ->
  facts C' usage' nl ds' U' I' D' held'.
Proof.
  intros [F1 F2 F3 F4 F5 F6 F7 F8 F9 F10] Hx HC Hnd Hl Hcnt Hdx Hex Hux Hidx Hhx Husage Hdel Hdy.
  assert (Hall : forall y, y <> x -> y ∈ U' ++ I' ++ D' <-> y ∈ U ++ I ++ D).
  { intros y Hy. destruct (Hl y Hy) as (A1 & A2 & A3). rewrite !elem_of_app, A1, A2, A3. done. }
  assert (Hxl : x <> lru_addr /\ x <> in_use_addr).
  { apply NoDup_cons in F1 as [N1 [N2 _]%NoDup_cons]. split; intros ->; [apply N1; by right|done]. }
  split; try done.
  - intros y. destruct (decide (y = x)) as [->|Hy].
    + rewrite Hdx, !elem_of_cons. naive_solver.
    + rewrite HC, F2, !elem_of_cons, Hall by done. done.
  - intros y. rewrite !elem_of_cons. intros Hy. apply F3. rewrite !elem_of_cons.
    destruct (decide (y = x)) as [->|Hne]; [by right; right|]. by rewrite <-Hall.
  - intros y e Hy Hin. destruct (decide (y = x)) as [->|Hne]; [by apply Hex|].
    rewrite HC in Hy by done. rewrite Hall in Hin by done. destruct (F5 y e Hy Hin) as (A1 & A2 & A3).
    rewrite Hcnt by done. split_and!; try done. rewrite A3, !elem_of_app. destruct (Hl y Hne) as (B1 & B2 & _). by rewrite B1, B2.
  - intros y Hy. destruct (decide (y = x)) as [->|Hne]; [by apply Hux|]. rewrite Hcnt by done. by apply F6, Hl.
  - intros y Hy. destruct (decide (y = x)) as [->|Hne]; [by apply Hidx|]. rewrite Hcnt by done. apply F7.
    destruct (Hl y Hne) as (_ & B2 & B3). by rewrite elem_of_app, <-B2, <-B3, <-elem_of_app.
  - intros y Hy. destruct (decide (y = x)) as [->|Hne]; [by apply Hhx|].
    assert (Hy' : y ∈ held) by (apply occ_elem; apply occ_elem in Hy; unfold count in Hcnt; by rewrite <-Hcnt).
    destruct (Hl y Hne) as (_ & B2 & B3). rewrite elem_of_app, B2, B3, <-elem_of_app. by apply F8.
  - intros y. destruct (decide (y = x)) as [->|Hne]; [|by rewrite Hdy, HC].
    rewrite Hdel. assert (x ∈ lru_addr :: in_use_addr :: U ++ I ++ D) as Hxin by (by right; right).
    pose proof (F10 x) as H10. rewrite (decide_True (P := is_Some (C !! x))) in H10 by (by apply F2).
    assert (0 <= times_deleted ds x) by (apply zsum_nonneg; intros; apply occ_nonneg).
    destruct (decide (0 <= x < nl)); lia.
Qed.

Lemma charge_sum C C' x l : (forall y, y <> x -> C' !! y = C !! y) -> (x ∈ l -> charge_of C' x = charge_of C x) ->
  zsum (charge_of C') l = zsum (charge_of C) l.
Proof.
  intros HC Hx. apply zsum_ext. intros y Hy. destruct (decide (y = x)) as [->|Hne]; [by apply Hx|].
  unfold charge_of. by rewrite HC.
Qed.

Lemma count_cons held x y : count (x :: held) y = occ y x + count held y.
Proof. done. Qed.

Lemma count_le held x : count held x <= Z.of_nat (length held).
Proof.
  induction held as [|y held IH]; [done|]. rewrite count_cons. simpl. unfold occ. destruct (decide _); lia.
Qed.

Lemma count_perm held held' x : held ≡ₚ held' -> count held x = count held' x.
Proof. intros Hp. unfold count. by rewrite Hp. Qed.

Section facts.
Context C (usage nl : Z) (ds : list deletion) U I D held (Hf : facts C usage nl ds U I D held).

Lemma facts_get x : x ∈ U ++ I ++ D -> exists e, C !! x = Some e.
Proof using Hf. intros Hx. apply (fa_dom _ _ _ _ _ _ _ _ Hf). by right; right. Qed.

Lemma facts_sep x : (x ∈ U -> x ∉ I ++ D) /\ (x ∈ I -> x ∉ D) /\ (x ∈ U ++ I ++ D -> x <> lru_addr /\ x <> in_use_addr).
Proof using Hf.
  pose proof (fa_nodup _ _ _ _ _ _ _ _ Hf) as [N1 [N2 (_ & H1 & (_ & H2 & _)%NoDup_app)%NoDup_app]%NoDup_cons]%NoDup_cons.
  split_and!; [by apply H1|by apply H2|]. intros Hx. split; intros ->; [apply N1; by right|done].
Qed.

Lemma facts_lists : NoDup U /\ NoDup I /\ NoDup D.
Proof using Hf.
  pose proof (fa_nodup _ _ _ _ _ _ _ _ Hf) as [_ [_ (? & _ & (? & _ & ?)%NoDup_app)%NoDup_app]%NoDup_cons]%NoDup_cons. done.
Qed.

(** The references after a use of [x]: it is pinned. *)
Lemma facts_ref x e : x ∈ U ++ I -> C !! x = Some e ->
  facts (<[x := set_refs (refs e + 1) e]> C) usage nl ds (without x U) (if decide (x ∈ U) then I ++ [x] else I) D (x :: held).
Proof using Hf.
  intros Hx He. pose proof Hf as [F1 F2 F3 F4 F5 F6 F7 F8 F9 F10]. destruct (facts_sep x) as (S1 & S2 & S3).
  destruct facts_lists as (NU & NI & ND).
  assert (Hin : x ∈ U ++ I ++ D) by (rewrite !elem_of_app in *; tauto). destruct (F5 x e He Hin) as (A1 & A2 & A3).
  assert (Hic : in_cache e = true) by (by apply A3). rewrite Hic in A1.
  assert (Hp : without x U ++ (if decide (x ∈ U) then I ++ [x] else I) ≡ₚ U ++ I).
  { destruct (decide (x ∈ U)) as [HU|HU]; [|by rewrite without_absent].
    rewrite (without_perm x U NU HU) at 2. solve_Permutation. }
  assert (Hpin : forall y, y <> x -> (y ∈ (if decide (x ∈ U) then I ++ [x] else I) <-> y ∈ I)).
  { intros y Hy. destruct (decide (x ∈ U)); [|done]. rewrite elem_of_app, list_elem_of_singleton. tauto. }
  assert (HxI : x ∈ (if decide (x ∈ U) then I ++ [x] else I)).
  { destruct (decide (x ∈ U)) as [HU|HU]; [apply elem_of_app; right; left|]. apply elem_of_app in Hx as [?|?]; done. }
  eapply (facts_change C usage nl ds U I D held x); try done.
  - intros y Hy. by rewrite lookup_insert_ne.
  - by rewrite (assoc_L (++)), Hp, <-(assoc_L (++)).
  - intros y Hy. rewrite without_elem, Hpin by done. tauto.
  - intros y Hy. rewrite count_cons, occ_other by done. lia.
  - rewrite lookup_insert_eq. split; [|by eexists]. intros _. rewrite !elem_of_app. tauto.
  - rewrite lookup_insert_eq. intros e' [= <-]. cbn [refs in_cache charge set_refs]. rewrite count_cons, occ_self, Hic. split_and!; [lia|done|].
    split; [|done]. intros _. rewrite elem_of_app. tauto.
  - rewrite without_elem. tauto.
  - intros _. rewrite count_cons, occ_self. pose proof (zsum_nonneg (occ x) held (occ_nonneg x)). unfold count. lia.
  - intros _. apply elem_of_app. by left.
  - rewrite F9, Hp. symmetry. apply (charge_sum C _ x); [intros y Hy; by rewrite lookup_insert_ne|].
    intros _. unfold charge_of. by rewrite lookup_insert_eq, He.
  - rewrite lookup_insert_eq, decide_True by (by eexists). pose proof (F10 x) as H10.
    rewrite (decide_True (P := is_Some (C !! x))) in H10 by (by rewrite He).
    assert (0 <= times_deleted ds x) by (apply zsum_nonneg; intros; apply occ_nonneg). destruct (decide (0 <= x < nl)); lia.
Qed.

Lemma alive_once x : x ∈ U ++ I ++ D -> times_deleted ds x = 0.
Proof using Hf.
  intros Hx. pose proof (fa_deleted _ _ _ _ _ _ _ _ Hf x) as H10. destruct (facts_get x Hx) as [e He].
  rewrite (decide_True (P := is_Some (C !! x))) in H10 by (by rewrite He).
  assert (0 <= times_deleted ds x) by (apply zsum_nonneg; intros; apply occ_nonneg). destruct (decide (0 <= x < nl)); lia.
Qed.

Lemma times_deleted_snoc d x : times_deleted (ds ++ [d]) x = times_deleted ds x + occ x (d_entry d).
Proof. unfold times_deleted. rewrite zsum_app, zsum_cons. change (zsum _ []) with 0. lia. Qed.

(** One handle fewer, with others left. *)
Lemma facts_unref x e held' : x ∈ I ++ D -> C !! x = Some e -> held ≡ₚ x :: held' -> 1 <= count held' x ->
  facts (<[x := set_refs (refs e - 1) e]> C) usage nl ds U I D held'.
Proof using Hf.
  intros Hx He Hp Hc. pose proof Hf as [F1 F2 F3 F4 F5 F6 F7 F8 F9 F10]. destruct (facts_sep x) as (S1 & S2 & S3).
  assert (Hin : x ∈ U ++ I ++ D) by (apply elem_of_app; by right). destruct (F5 x e He Hin) as (A1 & A2 & A3).
  rewrite (count_perm held (x :: held') x Hp), count_cons, occ_self in A1.
  eapply (facts_change C usage nl ds U I D held x); try done.
  - intros y Hy. by rewrite lookup_insert_ne.
  - intros y Hy. rewrite (count_perm held (x :: held') y Hp), count_cons, occ_other by done. lia.
  - rewrite lookup_insert_eq. by split; [|by eexists].
  - rewrite lookup_insert_eq. intros e' [= <-]. cbn [refs in_cache charge set_refs]. split_and!; [lia|done|done].
  - intros HU. by apply S1 in HU.
  - rewrite F9. symmetry. apply (charge_sum C _ x); [intros y Hy; by rewrite lookup_insert_ne|].
    intros _. unfold charge_of. by rewrite lookup_insert_eq, He.
  - rewrite lookup_insert_eq, decide_True by (by eexists). by rewrite alive_once.
Qed.

(** The last handle of a cached entry: it can be evicted, after the others. *)
Lemma facts_idle x e held' : x ∈ I -> C !! x = Some e -> held ≡ₚ x :: held' -> count held' x = 0 ->
  facts (<[x := set_refs (refs e - 1) e]> C) usage nl ds (U ++ [x]) (without x I) D held'.
Proof using Hf.
  intros Hx He Hp Hc. pose proof Hf as [F1 F2 F3 F4 F5 F6 F7 F8 F9 F10]. destruct (facts_sep x) as (S1 & S2 & S3).
  destruct facts_lists as (NU & NI & ND).
  assert (Hin : x ∈ U ++ I ++ D) by (rewrite !elem_of_app; tauto). destruct (F5 x e He Hin) as (A1 & A2 & A3).
  rewrite (count_perm held (x :: held') x Hp), count_cons, occ_self in A1.
  assert (Hic : in_cache e = true) by (apply A3, elem_of_app; tauto). rewrite Hic in A1.
  assert (Hperm : (U ++ [x]) ++ without x I ≡ₚ U ++ I).
  { rewrite (without_perm x I NI Hx) at 2. solve_Permutation. }
  eapply (facts_change C usage nl ds U I D held x); try done.
  - intros y Hy. by rewrite lookup_insert_ne.
  - by rewrite (assoc_L (++)), Hperm, <-(assoc_L (++)).
  - intros y Hy. rewrite without_elem, elem_of_app, list_elem_of_singleton. tauto.
  - intros y Hy. rewrite (count_perm held (x :: held') y Hp), count_cons, occ_other by done. lia.
  - rewrite lookup_insert_eq. split; [|by eexists]. intros _. rewrite !elem_of_app, list_elem_of_singleton. tauto.
  - rewrite lookup_insert_eq. intros e' [= <-]. cbn [refs in_cache charge set_refs]. rewrite Hic. split_and!; [lia|done|].
    split; [|done]. intros _. rewrite !elem_of_app, list_elem_of_singleton. tauto.
  - rewrite elem_of_app, without_elem. intros [[_ ?]|HD]; [done|]. by apply S2 in HD.
  - intros Hh. apply occ_elem in Hh. unfold count in Hc. lia.
  - rewrite F9, Hperm. symmetry. apply (charge_sum C _ x); [intros y Hy; by rewrite lookup_insert_ne|].
    intros _. unfold charge_of. by rewrite lookup_insert_eq, He.
  - rewrite lookup_insert_eq, decide_True by (by eexists). by rewrite alive_once.
Qed.

(** The last handle of an entry that left the cache: it is deleted. *)
Lemma facts_free x held' d : x ∈ D -> held ≡ₚ x :: held' -> count held' x = 0 -> d_entry d = x ->
  facts (delete x C) usage nl (ds ++ [d]) U I (without x D) held'.
Proof using Hf.
  intros Hx Hp Hc Hd. pose proof Hf as [F1 F2 F3 F4 F5 F6 F7 F8 F9 F10]. destruct (facts_sep x) as (S1 & S2 & S3).
  assert (HxU : x ∉ U) by (intros HU; apply (S1 HU), elem_of_app; by right). assert (HxI : x ∉ I) by (by intros HI; apply S2 in HI).
  assert (Hin : x ∈ U ++ I ++ D) by (rewrite !elem_of_app; tauto).
  eapply (facts_change C usage nl ds U I D held x); try done.
  - intros y Hy. by rewrite lookup_delete_ne.
  - eapply sublist_NoDup; [exact F1|]. do 2 apply sublist_skip. do 2 (apply sublist_app; [reflexivity|]). apply sublist_filter.
  - intros y Hy. rewrite without_elem. tauto.
  - intros y Hy. rewrite (count_perm held (x :: held') y Hp), count_cons, occ_other by done. lia.
  - rewrite lookup_delete_eq, !elem_of_app, without_elem. split; [by intros [? ?]|tauto].
  - by rewrite lookup_delete_eq.
  - rewrite elem_of_app, without_elem. tauto.
  - intros Hh. apply occ_elem in Hh. unfold count in Hc. lia.
  - rewrite F9. symmetry. apply (charge_sum C _ x); [intros y Hy; by rewrite lookup_delete_ne|].
    rewrite elem_of_app. tauto.
  - rewrite lookup_delete_eq, decide_False by (by intros [? ?]). rewrite times_deleted_snoc, alive_once, Hd, occ_self by done. done.
  - intros y Hy. rewrite times_deleted_snoc, Hd, occ_other by done. lia.
Qed.

(** An entry in use leaves the cache. *)
Lemma facts_detach x e : x ∈ I -> C !! x = Some e ->
  facts (<[x := set_refs (refs e - 1) (set_in_cache false e)]> C) (usage - charge e) nl ds U (without x I) (x :: D) held.
Proof using Hf.
  intros Hx He. pose proof Hf as [F1 F2 F3 F4 F5 F6 F7 F8 F9 F10]. destruct (facts_sep x) as (S1 & S2 & S3).
  destruct facts_lists as (NU & NI & ND).
  assert (HxU : x ∉ U) by (intros HU; apply (S1 HU), elem_of_app; by left).
  assert (Hin : x ∈ U ++ I ++ D) by (rewrite !elem_of_app; tauto). destruct (F5 x e He Hin) as (A1 & A2 & A3).
  assert (Hic : in_cache e = true) by (apply A3, elem_of_app; tauto). rewrite Hic in A1.
  eapply (facts_change C usage nl ds U I D held x); try done.
  - intros y Hy. by rewrite lookup_insert_ne.
  - assert (Hperm : U ++ without x I ++ x :: D ≡ₚ U ++ I ++ D); [|by rewrite Hperm].
    rewrite (without_perm x I NI Hx) at 2. solve_Permutation.
  - intros y Hy. rewrite without_elem, elem_of_cons. tauto.
  - rewrite lookup_insert_eq. split; [|by eexists]. intros _. rewrite !elem_of_app, elem_of_cons. tauto.
  - rewrite lookup_insert_eq. intros e' [= <-]. cbn [refs in_cache charge set_refs set_in_cache]. split_and!; [lia|done|].
    split; [done|]. rewrite elem_of_app, without_elem. tauto.
  - intros _. apply F7, elem_of_app. by left.
  - intros _. apply elem_of_app. right. left.
  - assert (Hsum : zsum (charge_of C) (U ++ I) = charge e + zsum (charge_of C) (U ++ without x I)).
    { rewrite (without_perm x I NI Hx) at 1. rewrite !zsum_app, zsum_cons. unfold charge_of at 2. rewrite He. lia. }
    rewrite F9, Hsum, (charge_sum C (<[x := _]> C) x); [lia|intros y Hy; by rewrite lookup_insert_ne|].
    rewrite elem_of_app, without_elem. tauto.
  - rewrite lookup_insert_eq, decide_True by (by eexists). by rewrite alive_once.
Qed.

(** An entry that only the cache refers to leaves it and is deleted. *)
Lemma facts_drop x e d : x ∈ U -> C !! x = Some e -> d_entry d = x ->
  facts (delete x C) (usage - charge e) nl (ds ++ [d]) (without x U) I D held.
Proof using Hf.
  intros Hx He Hd. pose proof Hf as [F1 F2 F3 F4 F5 F6 F7 F8 F9 F10]. destruct (facts_sep x) as (S1 & S2 & S3).
  destruct facts_lists as (NU & NI & ND). pose proof (S1 Hx) as HxID. rewrite not_elem_of_app in HxID.
  assert (Hin : x ∈ U ++ I ++ D) by (rewrite !elem_of_app; tauto).
  eapply (facts_change C usage nl ds U I D held x); try done.
  - intros y Hy. by rewrite lookup_delete_ne.
  - eapply sublist_NoDup; [exact F1|]. do 2 apply sublist_skip. apply sublist_app; [|reflexivity]. apply sublist_filter.
  - intros y Hy. rewrite without_elem. tauto.
  - rewrite lookup_delete_eq, !elem_of_app, without_elem. split; [by intros [? ?]|tauto].
  - by rewrite lookup_delete_eq.
  - rewrite without_elem. tauto.
  - rewrite elem_of_app. tauto.
  - exact (F8 x).
  - assert (Hsum : zsum (charge_of C) (U ++ I) = charge e + zsum (charge_of C) (without x U ++ I)).
    { rewrite (without_perm x U NU Hx) at 1. rewrite !zsum_app, zsum_cons. unfold charge_of at 1. rewrite He. lia. }
    rewrite F9, Hsum, (charge_sum C (delete x C) x); [lia|intros y Hy; by rewrite lookup_delete_ne|].
    rewrite elem_of_app, without_elem. tauto.
  - rewrite lookup_delete_eq, decide_False by (by intros [? ?]). rewrite times_deleted_snoc, alive_once, Hd, occ_self by done. done.
  - intros y Hy. rewrite times_deleted_snoc, Hd, occ_other by done. lia.
Qed.

(** A new entry, in the cache or not. *)
Lemma facts_new e (b : bool) : in_cache e = b -> refs e = (if b then 2 else 1) -> 0 <= charge e ->
  facts (<[nl := e]> C) (if b then usage + charge e else usage) (nl + 1) ds U (if b then I ++ [nl] else I)
    (if b then D else nl :: D) (nl :: held).
Proof using Hf.
  intros Hb Hr Hch. pose proof Hf as [F1 F2 F3 F4 F5 F6 F7 F8 F9 F10].
  assert (Hn : nl ∉ lru_addr :: in_use_addr :: U ++ I ++ D) by (intros Hn; specialize (F3 nl Hn); lia).
  assert (HnC : C !! nl = None) by (apply eq_None_not_Some; by rewrite F2).
  assert (Hp : U ++ (if b then I ++ [nl] else I) ++ (if b then D else nl :: D) ≡ₚ nl :: U ++ I ++ D) by (destruct b; solve_Permutation).
  assert (Hcnt : count held nl = 0).
  { apply occ_not_elem. intros Hh%F8. apply Hn. right; right. apply elem_of_app. by right. }
  rewrite !not_elem_of_cons, !not_elem_of_app in Hn. destruct Hn as (N1 & N2 & N3 & N4 & N5).
  assert (Hl : forall y, y <> nl -> (y ∈ (if b then I ++ [nl] else I) <-> y ∈ I) /\ (y ∈ (if b then D else nl :: D) <-> y ∈ D)).
  { intros y Hy. destruct b; rewrite ?elem_of_app, ?list_elem_of_singleton, ?elem_of_cons; tauto. }
  assert (Hall : forall y, y ∈ U ++ (if b then I ++ [nl] else I) ++ (if b then D else nl :: D) <-> y = nl \/ y ∈ U ++ I ++ D).
  { intros y. rewrite Hp, elem_of_cons. done. }
  split.
  - rewrite Hp. rewrite !NoDup_cons, !elem_of_cons, !elem_of_app in *. naive_solver.
  - intros y. rewrite lookup_insert_is_Some', F2, !elem_of_cons, Hall. naive_solver.
  - intros y. rewrite !elem_of_cons, Hall. intros Hy. destruct (decide (y = nl)) as [->|Hne]; [lia|].
    assert (y < nl); [|lia]. apply F3. rewrite !elem_of_cons. naive_solver.
  - lia.
  - intros y ey Hy Hin. destruct (decide (y = nl)) as [->|Hne].
    + rewrite lookup_insert_eq in Hy. injection Hy as <-. rewrite count_cons, occ_self, Hcnt, Hb, Hr.
      split_and!; [destruct b; lia|done|]. rewrite elem_of_app. destruct b; rewrite ?elem_of_app, ?list_elem_of_singleton; naive_solver.
    + rewrite lookup_insert_ne in Hy by done. rewrite count_cons, occ_other by done. rewrite Hall in Hin.
      destruct (F5 y ey Hy ltac:(naive_solver)) as (A1 & A2 & A3). split_and!; [lia|done|]. rewrite A3, !elem_of_app.
      destruct (Hl y Hne) as [-> _]. done.
  - intros y Hy. rewrite count_cons, occ_other, (F6 y Hy) by (by intros <-). done.
  - intros y Hy. rewrite count_cons. destruct (decide (y = nl)) as [->|Hne]; [rewrite occ_self; lia|].
    rewrite occ_other by done. assert (1 <= count held y); [|lia]. apply F7. rewrite elem_of_app in *. destruct (Hl y Hne) as [<- <-]. done.
  - intros y [->|Hy]%elem_of_cons; [apply elem_of_app; destruct b; [left; apply elem_of_app; right|right]; left|].
    specialize (F8 y Hy). destruct (decide (y = nl)) as [->|Hne]; [rewrite elem_of_app in F8; tauto|].
    rewrite elem_of_app in *. destruct (Hl y Hne) as [-> ->]. done.
  - assert (Hsum : zsum (charge_of (<[nl := e]> C)) (U ++ I) = zsum (charge_of C) (U ++ I)).
    { apply (charge_sum C _ nl); [intros y Hy; by rewrite lookup_insert_ne|]. rewrite elem_of_app. tauto. }
    destruct b; [|by rewrite Hsum]. rewrite (assoc_L (++)), zsum_app, Hsum, zsum_cons, F9. change (zsum _ []) with 0.
    unfold charge_of at 3. rewrite lookup_insert_eq. lia.
  - intros y. specialize (F10 y). destruct (decide (y = nl)) as [->|Hne].
    + rewrite lookup_insert_eq, (decide_True (P := is_Some (Some e))) by (by eexists). rewrite HnC in F10.
      rewrite (decide_False (P := is_Some None)) in F10 by (by intros [? ?]). rewrite (decide_False (P := 0 <= nl < nl)) in F10 by lia.
      rewrite decide_True by lia. lia.
    + rewrite lookup_insert_ne by done. rewrite F10. destruct (decide (0 <= y < nl)), (decide (0 <= y < nl + 1)); lia.
Qed.
End facts.
