(* ===== verification/CacheMethods.v ===== *)
(** * The block cache: the operations keep the invariant *)
From S2P Require Import Prelude Coding Counting Cache CacheTable CacheInv.
From stdpp Require Import list gmap options.
#[local] Open Scope Z_scope.
#[local] Open Scope tf_monad_scope.

Implicit Types (U I D held : list Z) (c : LRUCache).

(** What an entry was inserted with. *)
Definition data (e : LRUHandle) := (value e, deleter e, charge e, key e, hash e).

(** Entries of the later state that are not new had the same data before. *)
Definition keeps c c' : Prop := next_loc c <= next_loc c' /\
  forall y e', heap c' !! y = Some e' -> y < next_loc c -> exists e, heap c !! y = Some e /\ data e' = data e.

Lemma keeps_refl c : keeps c c.
Proof. split; [lia|eauto]. Qed.

Lemma keeps_trans c1 c2 c3 : keeps c1 c2 -> keeps c2 c3 -> keeps c1 c3.
Proof.
  intros [L1 H1] [L2 H2]. split; [lia|]. intros y e3 He3 Hy. destruct (H2 y e3 He3 ltac:(lia)) as (e2 & He2 & D2).
  destruct (H1 y e2 He2 Hy) as (e1 & He1 & D1). exists e1. split; [done|congruence].
Qed.

Lemma keeps_cores c c' : next_loc c' = next_loc c ->
  (forall y e', cores (heap c') !! y = Some e' -> exists e, cores (heap c) !! y = Some e /\ data e' = data e) -> keeps c c'.
Proof.
  intros Hn Hc. split; [lia|]. intros y e' He' _. destruct (Hc y (core e') (cores_lookup _ _ _ He')) as (e & He & Hd).
  unfold cores in He. apply view_some in He as (e0 & He0 & <-). by exists e0.
Qed.

Lemma keeps_same_entries c c' : same_entries c c' -> keeps c c'.
Proof. intros [_ _ _ Hn _ Hc _]. apply keeps_cores; [done|]. rewrite Hc. eauto. Qed.

Lemma keeps_same_lists c c' : same_lists c c' -> keeps c c'.
Proof. intros [_ _ Hn _ Hc _ _]. apply keeps_cores; [done|]. rewrite Hc. eauto. Qed.

Definition hash_key (e : LRUHandle) := (hash e, key e).

(** The table depends on the chains and on the hashes and keys. *)
Lemma tinv_frame c c' B : tinv c B -> table_ c' = table_ c ->
  (forall x, x ∈ concat B -> hashes (heap c') !! x = hashes (heap c) !! x /\
     hash_key <$> cores (heap c') !! x = hash_key <$> cores (heap c) !! x) -> tinv c' B.
Proof.
  intros [H1 H2 H3 H4 H5 H6 H7] Ht Hx.
  assert (Hget : forall x e', x ∈ concat B -> cores (heap c') !! x = Some e' ->
    exists e, cores (heap c) !! x = Some e /\ hash e = hash e' /\ key e = key e').
  { intros x e' Hin He'. destruct (Hx x Hin) as [_ Hk]. rewrite He' in Hk. simpl in Hk.
    destruct (cores (heap c) !! x) as [e|]; [|done]. injection Hk as Hk1 Hk2. eauto. }
  split; rewrite ?Ht; try done.
  - split.
    + apply Forall2_same_length_lookup. split; [by eapply Forall2_length, H1|]. intros i h l Hh Hl.
      eapply chain_ext; [|by eapply (Forall2_lookup_lr _ _ _ _ _ _ (bk_chains _ _ _ _ _ H1))].
      intros x Hxl. apply Hx. by eapply concat_elem.
    + intros i l x Hl Hxl. destruct (bk_index _ _ _ _ _ H1 i l x Hl Hxl) as (e & He & Hb).
      destruct (Hx x (concat_elem _ _ _ _ Hl Hxl)) as [_ Hk]. rewrite He in Hk.
      destruct (cores (heap c') !! x) as [e'|]; [|done]. injection Hk as Hk1 Hk2. exists e'. split; [done|congruence].
  - intros x y ex ey Hxin Hyin Hex Hey [Hk1 Hk2]. destruct (Hget x ex Hxin Hex) as (e1 & He1 & ? & ?).
    destruct (Hget y ey Hyin Hey) as (e2 & He2 & ? & ?). eapply H7; eauto. split; congruence.
Qed.

Lemma tinv_same_entries c c' B : tinv c B -> same_entries c c' -> tinv c' B.
Proof. intros Ht [_ _ Htab _ _ Hc Hh]. apply (tinv_frame c); [done|done|]. rewrite Hc, Hh. done. Qed.

(** A change of an entry that keeps its pointers, hash and key. *)
Definition pure_change (f : LRUHandle -> LRUHandle) : Prop :=
  forall e, next (f e) = next e /\ prev (f e) = prev e /\ next_hash (f e) = next_hash e /\ data (f e) = data e.

Lemma update_pure c x e f : pure_change f -> heap c !! x = Some e ->
  let c' := with_heap (<[x := f e]> (heap c)) c in
  update x f c = Done (tt, c') /\ nexts (heap c') = nexts (heap c) /\ prevs (heap c') = prevs (heap c) /\
  hashes (heap c') = hashes (heap c) /\ cores (heap c') = <[x := core (f e)]> (cores (heap c)).
Proof.
  intros Hf Hx c'. destruct (view_set_core (heap c) x e Hx f) as (A1 & A2 & A3 & A4).
  { intros e'. by destruct (Hf e') as (? & ? & ? & _). }
  split_and!; try done. by apply update_spec.
Qed.

Lemma pure_set_refs n : pure_change (set_refs n).
Proof. done. Qed.

Lemma pure_set_in_cache b : pure_change (set_in_cache b).
Proof. done. Qed.

Lemma tinv_pure c c' B x e f : tinv c B -> pure_change f -> heap c !! x = Some e -> table_ c' = table_ c ->
  hashes (heap c') = hashes (heap c) -> cores (heap c') = <[x := core (f e)]> (cores (heap c)) -> tinv c' B.
Proof.
  intros Ht Hf Hx Htab Hh Hc. apply (tinv_frame c); [done|done|]. intros y Hy. rewrite Hh, Hc. split; [done|].
  destruct (decide (x = y)) as [<-|Hne]; [|by rewrite lookup_insert_ne].
  rewrite lookup_insert_eq, (cores_lookup _ _ _ Hx). destruct (Hf e) as (_ & _ & _ & Hd). unfold data in Hd. simpl.
  unfold hash_key. simpl. congruence.
Qed.

Lemma keeps_pure c c' x e f : pure_change f -> heap c !! x = Some e -> next_loc c' = next_loc c ->
  cores (heap c') = <[x := core (f e)]> (cores (heap c)) -> keeps c c'.
Proof.
  intros Hf Hx Hn Hc. apply keeps_cores; [done|]. rewrite Hc. intros y e' [[<- <-]|[Hne He']]%lookup_insert_Some; [|eauto].
  rewrite (cores_lookup _ _ _ Hx). exists (core e). split; [done|]. destruct (Hf e) as (_ & _ & _ & Hd). exact Hd.
Qed.

(** ** Ref *)
Definition small held : Prop := Z.of_nat (length held) < 2 ^ 32 - 2.

Lemma refs_range C usage nl ds U I D held x e : facts C usage nl ds U I D held -> small held -> C !! x = Some e -> x ∈ U ++ I ++ D ->
  1 <= refs e < 2 ^ 32 - 1.
Proof.
  intros Hf Hs He Hx. destruct (fa_entry _ _ _ _ _ _ _ _ Hf x e He Hx) as (A1 & _ & A3). unfold small in Hs.
  pose proof (count_le held x). assert (0 <= count held x) by (apply zsum_nonneg, occ_nonneg).
  destruct (in_cache e) eqn:Hic; [lia|]. split; [|lia]. rewrite A1. destruct (decide (x ∈ U ++ I)) as [Hin|Hn]; [by apply A3 in Hin|].
  rewrite (assoc_L (++)), elem_of_app in Hx. destruct Hx as [|HD]; [done|].
  assert (1 <= count held x); [|lia]. apply (fa_used _ _ _ _ _ _ _ _ Hf). apply elem_of_app. by right.
Qed.

Lemma entry_core c c' x e : cores (heap c') = cores (heap c) -> heap c !! x = Some e -> exists e', heap c' !! x = Some e' /\ core e' = core e.
Proof. intros Hc Hx. pose proof (cores_lookup _ _ _ Hx) as H. rewrite <-Hc in H. unfold cores in H. by apply view_some in H. Qed.

Lemma Ref_spec c U I D held x : CInv c U I D held -> small held -> x ∈ U ++ I ->
  exists c', Ref x c = Done (tt, c') /\ keeps c c' /\ capacity_ c' = capacity_ c /\ usage_ c' = usage_ c /\ deleted c' = deleted c /\ elems_ (table_ c') = elems_ (table_ c) /\
    CInv c' (without x U) (if decide (x ∈ U) then I ++ [x] else I) D (x :: held).
Proof.
  intros [Hf Hr (B & Ht & HB) Hub] Hs Hx. assert (Hin : x ∈ U ++ I ++ D) by (rewrite !elem_of_app in *; tauto).
  destruct (facts_get _ _ _ _ _ _ _ _ Hf x Hin) as [ec Hec]. pose proof Hec as Hec'. unfold cores in Hec'.
  apply view_some in Hec' as (e & He & <-). pose proof (refs_range _ _ _ _ _ _ _ _ x _ Hf Hs Hec Hin) as Hrange. simpl in Hrange.
  destruct (fa_entry _ _ _ _ _ _ _ _ Hf x _ Hec Hin) as (A1 & _ & A3). simpl in A1, A3.
  assert (Hic : in_cache e = true) by (by apply A3). rewrite Hic in A1.
  assert (Hmid : exists c2, (if (refs e =? 1) && in_cache e then LRU_Remove x;;; LRU_Append in_use_addr x else ret tt) c = Done (tt, c2) /\
    same_entries c c2 /\ rings c2 (without x U) (if decide (x ∈ U) then I ++ [x] else I)).
  { rewrite Hic, andb_true_r. destruct (facts_sep _ _ _ _ _ _ _ _ Hf x) as (S1 & S2 & S3). destruct (decide (x ∈ U)) as [HU|HU].
    - rewrite (fa_unused _ _ _ _ _ _ _ _ Hf x HU) in A1. rewrite A1. simpl.
      destruct (rings_remove c U I x Hr Hx) as (c1 & E1 & Hs1 & Hr1).
      rewrite (without_absent x I) in Hr1 by (intros HI; apply (S1 HU), elem_of_app; by left).
      destruct (rings_append c1 (without x U) I x false Hr1) as (c2 & E2 & Hs2 & Hr2).
      + rewrite !not_elem_of_cons, not_elem_of_app, without_elem. destruct (S3 Hin). split_and!; try done; [tauto|].
        intros HI. apply (S1 HU), elem_of_app. by left.
      + destruct (entry_core c c1 x e (se_cores _ _ Hs1) He) as (e1 & He1 & _). by eexists.
      + exists c2. rewrite (bind_Done _ _ _ _ _ E1). split_and!; [done|by eapply same_entries_trans|done].
    - rewrite (without_absent x U HU). assert (HI : x ∈ I) by (rewrite elem_of_app in Hx; tauto).
      assert (1 <= count held x) by (apply (fa_used _ _ _ _ _ _ _ _ Hf); apply elem_of_app; by left).
      destruct (Z.eqb_spec (refs e) 1); [lia|]. by exists c. }
  destruct Hmid as (c2 & E2 & Hs2 & Hr2). destruct (entry_core c c2 x e (se_cores _ _ Hs2) He) as (e2 & He2 & Hce2).
  unfold Ref, bind at 1, entry_at at 1. rewrite He, (bind_Done _ _ _ _ _ E2). unfold bind at 1, entry_at at 1. rewrite He2.
  destruct (update_pure c2 x e2 (set_refs (u32 (refs e2 + 1))) (pure_set_refs _) He2) as (E3 & V1 & V2 & V3 & V4).
  assert (Hre : refs e2 = refs e) by (change (refs (core e2) = refs (core e)); by rewrite Hce2).
  assert (Hu : u32 (refs e2 + 1) = refs e + 1) by (unfold u32; rewrite uwrap_small; lia).
  set (c3 := with_heap _ c2) in *. exists c3. destruct Hs2 as [T1 T2 T3 T4 T5 T6 T7]. split_and!; try done.
  - eapply keeps_trans; [by apply keeps_same_entries|]. by eapply (keeps_pure c2 c3 x e2 _ (pure_set_refs _)).
  - change (table_ c3) with (table_ c2). by rewrite T3.
  - split.
    + change (usage_ c3) with (usage_ c2). change (next_loc c3) with (next_loc c2). change (deleted c3) with (deleted c2).
      rewrite T2, T4, T5, V4, T6, Hu. change (core (set_refs (refs e + 1) e2)) with (set_refs (refs e + 1) (core e2)). rewrite Hce2.
      exact (facts_ref _ _ _ _ _ _ _ _ Hf x (core e) Hx Hec).
    + by eapply rings_same.
    + exists B. split; [|rewrite HB].
      * eapply (tinv_pure c2 c3 B x e2 _ ltac:(by eapply tinv_same_entries) (pure_set_refs _)); try done.
      * destruct (facts_lists _ _ _ _ _ _ _ _ Hf) as (NU & _ & _). destruct (decide (x ∈ U)) as [HU|HU]; [|by rewrite without_absent].
        rewrite (without_perm x U NU HU) at 1. solve_Permutation.
    + change (usage_ c3) with (usage_ c2). by rewrite T2.
Qed.

(** ** Unref *)

(** The lists after one of the handles of [x] is given back. *)
Definition released U I D (rest : list Z) (x : Z) : list Z * list Z * list Z :=
  if decide (1 <= count rest x) then (U, I, D)
  else if decide (x ∈ I) then (U ++ [x], without x I, D)
  else (U, I, without x D).

Definition deletion_of (x : Z) (e : LRUHandle) : deletion := mkDeletion x (deleter e) (key e) (value e).

(** [x] is freed; it is on no list and in no bucket. *)
Definition freed c (x : Z) (e : LRUHandle) : LRUCache :=
  mkCache (capacity_ c) (usage_ c) (table_ c) (delete x (heap c)) (next_loc c) (deleted c ++ [deletion_of x e]).

Lemma free_spec c x e : (call_deleter x e;;; free x) c = Done (tt, freed c x e).
Proof. done. Qed.

Lemma rings_freed c x e U I : rings c U I -> x ∉ lru_addr :: in_use_addr :: U ++ I -> rings (freed c x e) U I.
Proof.
  intros [R1 R2 R3] Hx. rewrite !not_elem_of_cons, not_elem_of_app in Hx. destruct Hx as (X1 & X2 & X3 & X4).
  assert (Hy : forall y, x <> y -> nexts (heap (freed c x e)) !! y = nexts (heap c) !! y /\ prevs (heap (freed c x e)) !! y = prevs (heap c) !! y).
  { intros y Hy. unfold nexts, prevs, freed. cbn [heap]. by rewrite !lookup_fmap, lookup_delete_ne. }
  split; [| |done]; (eapply ring_ext; [|done]); intros y Hin; apply Hy; intros <-; apply elem_of_cons in Hin as [?|?]; congruence.
Qed.

Lemma tinv_freed c x e B : tinv c B -> x ∉ concat B -> tinv (freed c x e) B.
Proof.
  intros Ht Hx. apply (tinv_frame c); [done|done|]. intros y Hy. assert (x <> y) by (by intros ->).
  unfold hashes, cores, freed. cbn [heap]. by rewrite !lookup_fmap, lookup_delete_ne.
Qed.

Lemma cores_freed c x e : cores (heap (freed c x e)) = delete x (cores (heap c)).
Proof. unfold cores, freed. cbn [heap]. by rewrite fmap_delete. Qed.

Lemma keeps_freed c x e : keeps c (freed c x e).
Proof.
  split; [simpl; lia|]. intros y e' He' _. unfold freed in He'. cbn [heap] in He'. apply lookup_delete_Some in He' as [_ He']. eauto.
Qed.

Section unref.
Context c U I D held (x : Z) (rest : list Z).
Hypothesis Hinv : CInv c U I D held.
Hypothesis Hsmall : small held.
Hypothesis Hheld : held ≡ₚ x :: rest.

Lemma held_entry : exists e, heap c !! x = Some e /\ x ∈ I ++ D /\ 1 <= refs e < 2 ^ 32 - 1 /\
  refs e = (if in_cache e then 1 else 0) + 1 + count rest x /\ (in_cache e = true <-> x ∈ I).
Proof using Hinv Hsmall Hheld.
  destruct Hinv as [Hf _ _ _]. assert (Hx : x ∈ held) by (rewrite Hheld; left). apply (fa_held _ _ _ _ _ _ _ _ Hf) in Hx.
  assert (Hin : x ∈ U ++ I ++ D) by (apply elem_of_app; by right).
  destruct (facts_get _ _ _ _ _ _ _ _ Hf x Hin) as [ec Hec]. pose proof Hec as Hec'. unfold cores in Hec'.
  apply view_some in Hec' as (e & He & <-). pose proof (refs_range _ _ _ _ _ _ _ _ x _ Hf Hsmall Hec Hin) as Hrange.
  destruct (fa_entry _ _ _ _ _ _ _ _ Hf x _ Hec Hin) as (A1 & _ & A3). simpl in *.
  rewrite (count_perm held (x :: rest) x Hheld), count_cons, occ_self in A1. exists e. split_and!; try done; try lia.
  destruct (facts_sep _ _ _ _ _ _ _ _ Hf x) as (S1 & S2 & S3). rewrite A3, elem_of_app.
  split; [|by right]. intros [HU|]; [by apply S1 in HU|done].
Qed.

Lemma Unref_spec : let '(U', I', D') := released U I D rest x in
  exists c', Unref x c = Done (tt, c') /\ keeps c c' /\ CInv c' U' I' D' rest /\ capacity_ c' = capacity_ c /\ usage_ c' = usage_ c /\
    elems_ (table_ c') = elems_ (table_ c).
Proof using Hinv Hsmall Hheld.
  destruct held_entry as (e & He & HID & Hrange & Href & Hic). pose proof Hinv as [Hf Hr (B & Ht & HB) Hub].
  assert (Hce : cores (heap c) !! x = Some (core e)) by (by apply cores_lookup).
  destruct (facts_sep _ _ _ _ _ _ _ _ Hf x) as (S1 & S2 & S3).
  assert (HxU : x ∉ U) by (intros HU; by apply S1 in HU).
  assert (Hin : x ∈ U ++ I ++ D) by (apply elem_of_app; by right). destruct (S3 Hin) as [X1 X2].
  unfold Unref, bind at 1, entry_at at 1. rewrite He.
  destruct (update_pure c x e (set_refs (u32 (refs e - 1))) (pure_set_refs _) He) as (E1 & V1 & V2 & V3 & V4).
  assert (Hu : u32 (refs e - 1) = refs e - 1) by (unfold u32; rewrite uwrap_small; lia). rewrite Hu in *.
  set (c1 := with_heap _ c) in *. set (e1 := set_refs (refs e - 1) e) in *. rewrite (bind_Done _ _ _ _ _ E1).
  assert (He1 : heap c1 !! x = Some e1) by apply lookup_insert_eq. unfold bind at 1, entry_at at 1. rewrite He1.
  change (refs e1) with (refs e - 1). change (in_cache e1) with (in_cache e).
  assert (Hk1 : keeps c c1) by (by eapply (keeps_pure c c1 x e _ (pure_set_refs _))).
  assert (Ht1 : tinv c1 B) by (by eapply (tinv_pure c c1 B x e _ Ht (pure_set_refs _))).
  assert (Hr1 : rings c1 U I) by (by eapply rings_same).
  change (core e1) with (set_refs (refs (core e) - 1) (core e)) in V4.
  assert (Hc0 : 0 <= count rest x) by (apply zsum_nonneg, occ_nonneg).
  unfold released. destruct (decide (1 <= count rest x)) as [Hc|Hc].
  - assert (2 <= refs e) by (rewrite Href; destruct (in_cache e); lia). destruct (Z.eqb_spec (refs e - 1) 0); [lia|].
    replace (in_cache e && (refs e - 1 =? 1)) with false.
    + exists c1. split_and!; try done. split; [|done|by exists B|done]. rewrite V4. by apply (facts_unref _ _ _ _ _ _ _ _ Hf x (core e)).
    + symmetry. apply andb_false_iff. destruct (in_cache e); [|by left]. right. apply Z.eqb_neq. lia.
  - assert (Hc' : count rest x = 0) by lia. rewrite Hc' in Href. destruct (decide (x ∈ I)) as [HI|HI].
    + assert (Hi : in_cache e = true) by (by apply Hic). rewrite Hi in *. destruct (Z.eqb_spec (refs e - 1) 0); [lia|].
      rewrite (proj2 (Z.eqb_eq (refs e - 1) 1)) by lia. simpl.
      destruct (rings_remove c1 U I x Hr1) as (c2 & E2 & Hs2 & Hr2); [apply elem_of_app; by right|].
      rewrite (without_absent x U HxU) in Hr2.
      destruct (rings_append c2 U (without x I) x true Hr2) as (c3 & E3 & Hs3 & Hr3).
      * rewrite !not_elem_of_cons, not_elem_of_app, without_elem. split_and!; try done. tauto.
      * destruct (entry_core c1 c2 x e1 (se_cores _ _ Hs2) He1) as (e2 & He2 & _). by eexists.
      * exists c3. rewrite (bind_Done _ _ _ _ _ E2). pose proof (same_entries_trans _ _ _ Hs2 Hs3) as Hs. clear Hs2 Hs3.
        split_and!; [done|by eapply keeps_trans; [exact Hk1|apply keeps_same_entries]| |by rewrite (se_capacity _ _ Hs)|by rewrite (se_usage _ _ Hs)|by rewrite (se_table _ _ Hs)].
        split; [|done| |by rewrite (se_usage _ _ Hs)].
        -- rewrite (se_cores _ _ Hs), (se_usage _ _ Hs), (se_next _ _ Hs), (se_deleted _ _ Hs), V4.
           by apply (facts_idle _ _ _ _ _ _ _ _ Hf x (core e)).
        -- exists B. split; [by eapply tinv_same_entries|]. rewrite HB. destruct (facts_lists _ _ _ _ _ _ _ _ Hf) as (_ & NI & _).
           rewrite (without_perm x I NI HI) at 1. solve_Permutation.
    + assert (Hi : in_cache e = false) by (destruct (in_cache e); [by destruct HI; apply Hic|done]). rewrite Hi in *.
      rewrite (proj2 (Z.eqb_eq (refs e - 1) 0)) by lia.
      assert (HD : x ∈ D) by (apply elem_of_app in HID as [?|?]; done).
      rewrite free_spec. eexists. split; [done|]. split_and!; try done.
      * eapply keeps_trans; [exact Hk1|apply keeps_freed].
      * split.
        -- rewrite cores_freed, V4, delete_insert_eq. by apply (facts_free _ _ _ _ _ _ _ _ Hf x).
        -- apply rings_freed; [done|]. rewrite !not_elem_of_cons, not_elem_of_app. done.
        -- exists B. split; [|done]. apply tinv_freed; [done|]. rewrite HB, elem_of_app. tauto.
        -- done.
Qed.
End unref.

(** ** Leaving the cache *)
Definition erased U I D (x : Z) : list Z * list Z * list Z :=
  (without x U, without x I, if decide (x ∈ U) then D else x :: D).

Section erase.
Context c U I D held (x : Z) (B : list (list Z)).
Hypothesis Hf : facts (cores (heap c)) (usage_ c) (next_loc c) (deleted c) U I D held.
Hypothesis Hr : rings c U I.
Hypothesis Ht : tinv c B.
Hypothesis HB : U ++ I ≡ₚ x :: concat B.
Hypothesis Hub : usage_ c < 2 ^ 64.
Hypothesis Hsmall : small held.

Lemma erase_perm : concat B ≡ₚ without x U ++ without x I /\ x ∉ concat B.
Proof using Hf HB.
  destruct (facts_sep _ _ _ _ _ _ _ _ Hf x) as (S1 & S2 & S3). destruct (facts_lists _ _ _ _ _ _ _ _ Hf) as (NU & NI & _).
  assert (Hnd : NoDup (U ++ I)).
  { pose proof (fa_nodup _ _ _ _ _ _ _ _ Hf) as [_ [_ Hnd]%NoDup_cons]%NoDup_cons. rewrite (assoc_L (++)) in Hnd. by apply NoDup_app in Hnd as (? & _ & _). }
  assert (Hx : x ∈ U ++ I) by (rewrite HB; left).
  rewrite HB in Hnd. apply NoDup_cons in Hnd as [Hnx _]. split; [|done].
  apply (Permutation_cons_inv (a := x)). rewrite <-HB. apply elem_of_app in Hx as [HU|HI].
  - rewrite (without_absent x I) by (intros HI; apply (S1 HU), elem_of_app; by left). rewrite (without_perm x U NU HU) at 1. done.
  - rewrite (without_absent x U) by (intros HU; apply (S1 HU), elem_of_app; by left). rewrite (without_perm x I NI HI) at 1. solve_Permutation.
Qed.

Lemma charge_le e : heap c !! x = Some e -> 0 <= charge e <= usage_ c.
Proof using Hf HB.
  intros He. assert (Hx : x ∈ U ++ I) by (rewrite HB; left). assert (Hin : x ∈ U ++ I ++ D) by (rewrite !elem_of_app in *; tauto).
  destruct (fa_entry _ _ _ _ _ _ _ _ Hf x _ (cores_lookup _ _ _ He) Hin) as (_ & Hch & _). simpl in Hch. split; [done|].
  rewrite (fa_usage _ _ _ _ _ _ _ _ Hf), HB, zsum_cons. unfold charge_of at 1. rewrite (cores_lookup _ _ _ He). simpl.
  assert (0 <= zsum (charge_of (cores (heap c))) (concat B)); [|lia].
  rewrite (zsum_ext _ (fun y => Z.max 0 (charge_of (cores (heap c)) y))); [apply zsum_nonneg; lia|].
  intros y Hy. assert (Hy' : y ∈ U ++ I) by (rewrite HB; by right). assert (Hyin : y ∈ U ++ I ++ D) by (rewrite !elem_of_app in *; tauto).
  unfold charge_of. destruct (cores (heap c) !! y) as [ey|] eqn:Hey; [|done].
  destruct (fa_entry _ _ _ _ _ _ _ _ Hf y ey Hey Hyin) as (_ & ? & _). lia.
Qed.

Lemma FinishErase_spec : let '(U', I', D') := erased U I D x in
  exists c' e, heap c !! x = Some e /\ FinishErase (Some x) c = Done (true, c') /\ keeps c c' /\ CInv c' U' I' D' held /\
    capacity_ c' = capacity_ c /\ usage_ c' = usage_ c - charge e /\ elems_ (table_ c') = elems_ (table_ c).
Proof using Hf Hr Ht HB Hub Hsmall.
  destruct erase_perm as [Hperm Hxn]. assert (Hx : x ∈ U ++ I) by (rewrite HB; left).
  assert (Hin : x ∈ U ++ I ++ D) by (rewrite !elem_of_app in *; tauto).
  destruct (facts_get _ _ _ _ _ _ _ _ Hf x Hin) as [ec Hec]. pose proof Hec as Hec'. unfold cores in Hec'.
  apply view_some in Hec' as (e & He & <-). pose proof (refs_range _ _ _ _ _ _ _ _ x _ Hf Hsmall Hec Hin) as Hrange. simpl in Hrange.
  destruct (fa_entry _ _ _ _ _ _ _ _ Hf x _ Hec Hin) as (A1 & _ & A3). simpl in A1, A3.
  assert (Hic : in_cache e = true) by (by apply A3). rewrite Hic in A1. pose proof (charge_le e He) as Hch.
  destruct (facts_sep _ _ _ _ _ _ _ _ Hf x) as (S1 & S2 & S3). destruct (S3 Hin) as [X1 X2].
  destruct (rings_remove c U I x Hr Hx) as (c1 & E1 & Hs1 & Hr1). destruct (entry_core c c1 x e (se_cores _ _ Hs1) He) as (e1 & He1 & Hce1).
  destruct (update_pure c1 x e1 (set_in_cache false) (pure_set_in_cache _) He1) as (E2 & V1 & V2 & V3 & V4). set (c2 := with_heap _ c1) in *.
  set (e2 := set_in_cache false e1) in *. assert (He2 : heap c2 !! x = Some e2) by apply lookup_insert_eq.
  assert (Hfe : charge e2 = charge e /\ refs e2 = refs e).
  { split; [change (charge (core e1) = charge (core e))|change (refs (core e1) = refs (core e))]; by rewrite Hce1. }
  destruct Hfe as [Hchg Hrefs]. destruct Hs1 as [T1 T2 T3 T4 T5 T6 T7].
  set (c3 := with_usage (u64 (usage_ c2 - charge e2)) c2).
  assert (Hus : usage_ c3 = usage_ c - charge e).
  { unfold c3. cbn [usage_ with_usage]. change (usage_ c2) with (usage_ c1). rewrite T2, Hchg. unfold u64. rewrite uwrap_small; lia. }
  destruct (update_pure c3 x e2 (set_refs (u32 (refs e2 - 1))) (pure_set_refs _) He2) as (E4 & W1 & W2 & W3 & W4).
  assert (Hu : u32 (refs e2 - 1) = refs e - 1) by (unfold u32; rewrite uwrap_small; lia). rewrite Hu in *.
  set (c4 := with_heap _ c3) in *. set (e4 := set_refs (refs e - 1) e2) in *. assert (He4 : heap c4 !! x = Some e4) by apply lookup_insert_eq.
  assert (Ht2 : tinv c2 B) by (eapply (tinv_pure c1 c2 B x e1 _ ltac:(by eapply tinv_same_entries) (pure_set_in_cache _)); done).
  assert (Ht3 : tinv c3 B) by (by apply (tinv_frame c2)).
  assert (Ht4 : tinv c4 B) by (by eapply (tinv_pure c3 c4 B x e2 _ Ht3 (pure_set_refs _))).
  assert (Hr4 : rings c4 (without x U) (without x I)) by (apply (rings_same c1); [rewrite W1; exact V1|rewrite W2; exact V2|done]).
  assert (Hk4 : keeps c c4).
  { eapply keeps_trans; [by apply (keeps_same_entries c c1)|]. eapply keeps_trans; [by eapply (keeps_pure c1 c2 x e1 _ (pure_set_in_cache false))|].
    by eapply (keeps_pure c2 c4 x e2 _ (pure_set_refs _)). }
  assert (Hrun : FinishErase (Some x) c = (((if refs e - 1 =? 0 then call_deleter x e4;;; free x else ret tt);;; ret true) c4)).
  { unfold FinishErase. rewrite (bind_Done _ _ _ _ _ E1), (bind_Done _ _ _ _ _ E2). unfold bind at 1, entry_at. rewrite He2.
    unfold bind at 1, modify. fold c3. unfold Unref. unfold bind at 1, bind at 1, entry_at at 1. change (heap c3) with (heap c2). rewrite He2, Hu.
    rewrite (bind_Done _ _ _ _ _ E4). unfold bind at 1, entry_at. rewrite He4. change (in_cache e4) with false. simpl.
    change (refs e4) with (refs e - 1). unfold bind. by destruct (refs e - 1 =? 0). }
  assert (HC4 : cores (heap c4) = <[x := set_refs (refs (core e) - 1) (set_in_cache false (core e))]> (cores (heap c))).
  { rewrite W4. change (cores (heap c3)) with (cores (heap c2)). rewrite V4, T6, insert_insert_eq. f_equal.
    change (set_refs (refs e - 1) (set_in_cache false (core e1)) = set_refs (refs (core e) - 1) (set_in_cache false (core e))). by rewrite Hce1. }
  unfold erased. rewrite Hrun. destruct (decide (x ∈ U)) as [HU|HU].
  - rewrite (fa_unused _ _ _ _ _ _ _ _ Hf x HU) in A1. rewrite (proj2 (Z.eqb_eq (refs e - 1) 0)) by lia.
    rewrite (bind_Done _ _ _ _ _ (free_spec c4 x e4)). exists (freed c4 x e4), e. split_and!; try done.
    + eapply keeps_trans; [exact Hk4|apply keeps_freed].
    + rewrite (without_absent x I) in * by (intros HI; apply (S1 HU), elem_of_app; by left). split.
      * rewrite cores_freed, HC4, delete_insert_eq. change (usage_ (freed c4 x e4)) with (usage_ c3). rewrite Hus.
        change (next_loc (freed c4 x e4)) with (next_loc c1). rewrite T4. change (deleted (freed c4 x e4)) with (deleted c1 ++ [deletion_of x e4]).
        rewrite T5. by apply (facts_drop _ _ _ _ _ _ _ _ Hf x (core e)).
      * apply rings_freed; [done|]. rewrite !not_elem_of_cons, not_elem_of_app, without_elem. split_and!; try done; [tauto|].
        intros HI. apply (S1 HU), elem_of_app. by left.
      * exists B. split; [by apply tinv_freed|done].
      * change (usage_ (freed c4 x e4)) with (usage_ c3). lia.
    + change (table_ (freed c4 x e4)) with (table_ c1). by rewrite T3.
  - assert (HI : x ∈ I) by (rewrite elem_of_app in Hx; tauto).
    assert (1 <= count held x) by (apply (fa_used _ _ _ _ _ _ _ _ Hf), elem_of_app; by left).
    destruct (Z.eqb_spec (refs e - 1) 0); [lia|]. exists c4, e. rewrite (without_absent x U HU) in *. split_and!; try done.
    + split; [|done|by exists B|change (usage_ c4) with (usage_ c3); lia].
      rewrite HC4. change (usage_ c4) with (usage_ c3). rewrite Hus. change (next_loc c4) with (next_loc c1). rewrite T4.
      change (deleted c4) with (deleted c1). rewrite T5. by apply (facts_detach _ _ _ _ _ _ _ _ Hf x (core e)).
    + change (table_ c4) with (table_ c1). by rewrite T3.
Qed.
End erase.

(** * The block cache: the methods of a shard *)


(** ** Finding entries *)
Lemma facts_of_same_lists c c' U I D held : same_lists c c' ->
  facts (cores (heap c)) (usage_ c) (next_loc c) (deleted c) U I D held ->
  facts (cores (heap c')) (usage_ c') (next_loc c') (deleted c') U I D held.
Proof. intros [_ -> -> -> -> _ _]. done. Qed.

Lemma rings_of_same_lists c c' U I : same_lists c c' -> rings c U I -> rings c' U I.
Proof. intros [_ _ _ _ _ H1 H2]. by apply rings_same. Qed.

Lemma cached_entry c U I D held x : CInv c U I D held -> x ∈ U ++ I -> exists e, heap c !! x = Some e.
Proof.
  intros [Hf _ _ _] Hx. assert (Hin : x ∈ U ++ I ++ D) by (rewrite !elem_of_app in *; tauto).
  destruct (facts_get _ _ _ _ _ _ _ _ Hf x Hin) as [ec Hec]. unfold cores in Hec. apply view_some in Hec as (e & He & _). eauto.
Qed.

(** Two cached entries with one key are the same. *)
Lemma cached_unique c U I D held x y ex ey : CInv c U I D held -> x ∈ U ++ I -> y ∈ U ++ I ->
  heap c !! x = Some ex -> heap c !! y = Some ey -> hash ex = hash ey -> key ex = key ey -> x = y.
Proof.
  intros [_ _ (B & Ht & HB) _] Hx Hy Hex Hey Hh Hk. rewrite <-HB in Hx, Hy.
  apply (ti_keys _ _ Ht x y (core ex) (core ey) Hx Hy); [by apply cores_lookup..|]. by split.
Qed.

Lemma cache_Lookup_spec c U I D held k h : CInv c U I D held -> small held ->
  exists r c', cache_Lookup k h c = Done (r, c') /\ keeps c c' /\ capacity_ c' = capacity_ c /\ usage_ c' = usage_ c /\
    elems_ (table_ c') = elems_ (table_ c) /\
    match r with
    | None => c' = c /\ forall y e, y ∈ U ++ I -> heap c !! y = Some e -> ~ matches k h e
    | Some x => x ∈ U ++ I /\ (exists e, heap c !! x = Some e /\ matches k h e) /\
        CInv c' (without x U) (if decide (x ∈ U) then I ++ [x] else I) D (x :: held)
    end.
Proof.
  intros Hinv Hs. pose proof Hinv as [Hf Hr (B & Ht & HB) Hub].
  destruct (table_Lookup_spec c B k h Ht) as (r & E & Hres). unfold cache_Lookup. rewrite (bind_Done _ _ _ _ _ E).
  destruct r as [x|].
  - rewrite HB in Hres. destruct Hres as [Hx Hm].
    destruct (Ref_spec c U I D held x Hinv Hs Hx) as (c' & E' & Hk & Hcap & Hus & _ & Hel & Hinv').
    exists (Some x), c'. rewrite (bind_Done _ _ _ _ _ E'). by split_and!.
  - exists None, c. split_and!; try done; [apply keeps_refl|]. intros y e Hy. apply Hres. by rewrite HB.
Qed.

(** ** Removing by key *)
Lemma remove_finish c U I D held k h : CInv c U I D held -> small held ->
  exists r b c', (r <~ table_Remove k h;; FinishErase r) c = Done (b, c') /\ keeps c c' /\ capacity_ c' = capacity_ c /\
    elems_ (table_ c') <= elems_ (table_ c) /\
    match r with
    | None => c' = c /\ forall y e, y ∈ U ++ I -> heap c !! y = Some e -> ~ matches k h e
    | Some x => x ∈ U ++ I /\ exists e, heap c !! x = Some e /\ matches k h e /\ usage_ c' = usage_ c - charge e /\
        let '(U', I', D') := erased U I D x in CInv c' U' I' D' held
    end.
Proof.
  intros Hinv Hs. pose proof Hinv as [Hf Hr (B & Ht & HB) Hub].
  destruct (table_Remove_spec c B k h Ht) as (r & c1 & E & Hsl & Hres). destruct r as [x|].
  - destruct Hres as (B' & Ht' & HB' & e & He & Hm).
    assert (HUI : U ++ I ≡ₚ x :: concat B') by (by rewrite <-HB, HB').
    pose proof (FinishErase_spec c1 U I D held x B' (facts_of_same_lists _ _ _ _ _ _ Hsl Hf) (rings_of_same_lists _ _ _ _ Hsl Hr) Ht' HUI) as Hfe.
    rewrite (sl_usage _ _ Hsl) in Hfe. specialize (Hfe Hub Hs). destruct (erased U I D x) as [[U' I'] D'] eqn:Her.
    destruct Hfe as (c' & e1 & He1 & E' & Hk & Hinv' & Hcap & Hus & Hel).
    destruct (entry_core c c1 x e (sl_cores _ _ Hsl) He) as (e2 & He2 & Hce2). rewrite He1 in He2. injection He2 as ->.
    assert (Hchg : charge e2 = charge e) by (change (charge (core e2) = charge (core e)); by rewrite Hce2).
    exists (Some x), true, c'. rewrite (bind_Done _ _ _ _ _ E). split_and!; try done.
    + eapply keeps_trans; [by apply (keeps_same_lists c c1)|done].
    + by rewrite Hcap, (sl_capacity _ _ Hsl).
    + rewrite Hel, (ti_elems _ _ Ht'), (ti_elems _ _ Ht), HB'. simpl. lia.
    + rewrite HUI. left.
    + exists e. split_and!; [done|apply Hm..| |by rewrite Her]. by rewrite Hus, Hchg.
  - destruct Hres as [-> Hno]. exists None, false, c. rewrite (bind_Done _ _ _ _ _ E). split_and!; try done; [apply keeps_refl|].
    intros y e Hy. apply Hno. by rewrite HB.
Qed.

(** ** Eviction *)
Lemma lru_head c U I : rings c U I -> exists l, heap c !! lru_addr = Some l /\ next l = Some (default lru_addr (list.head U)).
Proof. intros [[Hs _] _ _]. pose proof (seg_first _ _ _ _ _ Hs) as Hn. unfold nexts in Hn. by apply view_some in Hn. Qed.

Lemma evict_spec (over : LRUCache -> bool) : (forall c c', capacity_ c' = capacity_ c -> usage_ c' = usage_ c -> over c' = over c) ->
  forall U fuel c I D held, CInv c U I D held -> small held -> (length U <= fuel)%nat ->
  exists c' k, evict fuel over c = Done (tt, c') /\ keeps c c' /\ capacity_ c' = capacity_ c /\ elems_ (table_ c') <= elems_ (table_ c) /\
    CInv c' (drop k U) I D held /\ usage_ c' = usage_ c - zsum (charge_of (cores (heap c))) (take k U) /\
    (k <= length U)%nat /\ (drop k U = [] \/ over c' = false) /\
    forall j, (j < k)%nat -> exists cj, capacity_ cj = capacity_ c /\ over cj = true /\
      usage_ cj = usage_ c - zsum (charge_of (cores (heap c))) (take j U).
Proof.
  intros Hover. induction U as [|x U IH]; intros fuel c I D held Hinv Hs Hf.
  - destruct (lru_head c [] I (cv_rings _ _ _ _ _ Hinv)) as (l & Hl & Hn). exists c, 0%nat.
    assert (E : evict fuel over c = Done (tt, c)).
    { destruct fuel; cbn [evict]; unfold bind at 1, get, bind at 1, entry_at; rewrite Hl, Hn;
        rewrite bool_decide_eq_true_2 by done; simpl; by rewrite andb_false_r. }
    split_and!; try done; [apply keeps_refl|simpl; lia|by left|intros; lia].
  - destruct fuel as [|fuel]; [simpl in Hf; lia|]. destruct (lru_head c (x :: U) I (cv_rings _ _ _ _ _ Hinv)) as (l & Hl & Hn). simpl in Hn.
    pose proof (fa_nodup _ _ _ _ _ _ _ _ (cv_facts _ _ _ _ _ Hinv)) as Hnd.
    assert (Hx0 : x <> lru_addr). { apply NoDup_cons in Hnd as [Hn0 _]. intros ->. apply Hn0. right. left. }
    cbn [evict]. unfold bind at 1, get. unfold bind at 1, entry_at at 1. rewrite Hl, Hn.
    rewrite bool_decide_eq_false_2 by congruence. cbn [negb]. rewrite andb_true_r. destruct (over c) eqn:Ho.
    + unfold bind at 1, deref, ret at 1. destruct (cached_entry c (x :: U) I D held x Hinv ltac:(left)) as [e He].
      unfold bind at 1, entry_at at 1. rewrite He.
      destruct (remove_finish c (x :: U) I D held (key e) (hash e) Hinv Hs) as (r & b & c1 & E1 & Hk1 & Hcap1 & Hel1 & Hres).
      destruct r as [y|]; [|destruct Hres as [_ Hno]; destruct (Hno x e ltac:(left) He); done].
      destruct Hres as (Hy & ey & Hey & [Hm1 Hm2] & Hus & Hinv1).
      assert (y = x) as -> by (exact (cached_unique c (x :: U) I D held y x ey e Hinv Hy ltac:(left) Hey He Hm1 Hm2)).
      assert (ey = e) as -> by congruence. unfold erased in Hinv1. rewrite decide_True in Hinv1 by left.
      assert (HxU : (x ∉ U) /\ x ∉ I).
      { apply NoDup_cons in Hnd as [_ Hnd]. apply NoDup_cons in Hnd as [_ Hnd]. simpl in Hnd. apply NoDup_cons in Hnd as [Hnd _].
        rewrite !elem_of_app in Hnd. tauto. }
      assert (Hwo : without x (x :: U) = U) by (unfold without; rewrite filter_cons_False by naive_solver; apply without_absent; tauto).
      rewrite Hwo, without_absent in Hinv1 by naive_solver.
      destruct (IH fuel c1 I D held Hinv1 Hs ltac:(simpl in Hf; lia)) as (c2 & k & E2 & Hk2 & Hcap2 & Hel2 & Hinv2 & Hus2 & Hkl & Hend & Hj).
      apply bind_inv in E1 as (r1 & c0 & Er & Ef).
      assert (Hsame : forall j, zsum (charge_of (cores (heap c1))) (take j U) = zsum (charge_of (cores (heap c))) (take j U)).
      { intros j. apply zsum_ext. intros z Hz. assert (HzU : z ∈ U) by (by apply (subseteq_take j)).
        destruct (cached_entry c1 U I D held z Hinv1 ltac:(apply elem_of_app; by left)) as [ez Hez].
        assert (Hzl : z < next_loc c).
        { apply (fa_fresh _ _ _ _ _ _ _ _ (cv_facts _ _ _ _ _ Hinv)). right; right. apply elem_of_app. left. by right. }
        destruct (proj2 Hk1 z ez Hez Hzl) as (ez0 & Hez0 & Hd). unfold charge_of.
        rewrite (cores_lookup _ _ _ Hez), (cores_lookup _ _ _ Hez0). simpl. unfold data in Hd. congruence. }
      assert (Hcx : charge_of (cores (heap c)) x = charge e) by (unfold charge_of; by rewrite (cores_lookup _ _ _ He)).
      exists c2, (S k). rewrite (bind_Done _ _ _ _ _ Er), (bind_Done _ _ _ _ _ Ef), E2. cbn [drop take].
      split_and!; try done.
      * by eapply keeps_trans.
      * congruence.
      * lia.
      * rewrite zsum_cons, Hcx, Hus2, Hus, Hsame. lia.
      * simpl. lia.
      * intros [|j] Hlt; [exists c; simpl; split_and!; try done; change (zsum _ []) with 0; lia|].
        destruct (Hj j ltac:(lia)) as (cj & J1 & J2 & J3). exists cj. cbn [take]. rewrite zsum_cons, Hcx, J3, Hus, Hsame.
        split_and!; [congruence|done|lia].
    + exists c, 0%nat. cbn [drop take]. change (zsum _ []) with 0. split_and!; try done; [apply keeps_refl|lia|simpl; lia|by right|intros; lia].
Qed.

(** ** Insertion *)

(** The shard with a new entry [e] that is on no list yet. *)
Definition allocated c (e : LRUHandle) : LRUCache :=
  mkCache (capacity_ c) (usage_ c) (table_ c) (<[next_loc c := e]> (heap c)) (next_loc c + 1) (deleted c).

Section alloc.
Context c U I D held (e : LRUHandle) (Hinv : CInv c U I D held).

Lemma fresh_not_in : next_loc c ∉ lru_addr :: in_use_addr :: U ++ I ++ D.
Proof using Hinv. intros Hn. apply (fa_fresh _ _ _ _ _ _ _ _ (cv_facts _ _ _ _ _ Hinv)) in Hn. lia. Qed.

Lemma fresh_lists : next_loc c ∉ lru_addr :: in_use_addr :: U ++ I.
Proof using Hinv.
  pose proof fresh_not_in as Hn. intros Hin. apply Hn. rewrite !elem_of_cons, !elem_of_app in *. tauto.
Qed.

Lemma rings_allocated : rings (allocated c e) U I.
Proof using Hinv.
  pose proof fresh_lists as Hx. destruct (cv_rings _ _ _ _ _ Hinv) as [R1 R2 R3].
  rewrite !not_elem_of_cons, not_elem_of_app in Hx. destruct Hx as (X1 & X2 & X3 & X4).
  assert (Hy : forall y, next_loc c <> y -> nexts (heap (allocated c e)) !! y = nexts (heap c) !! y /\ prevs (heap (allocated c e)) !! y = prevs (heap c) !! y).
  { intros y Hy. unfold nexts, prevs, allocated. cbn [heap]. by rewrite !lookup_fmap, lookup_insert_ne. }
  split; [| |done]; (eapply ring_ext; [|done]); intros y Hin; apply Hy; intros <-; apply elem_of_cons in Hin as [?|?]; congruence.
Qed.

Lemma tinv_allocated B : tinv c B -> concat B ≡ₚ U ++ I -> tinv (allocated c e) B /\ next_loc c ∉ concat B.
Proof using Hinv.
  intros Ht HB. pose proof fresh_lists as Hx. rewrite !not_elem_of_cons in Hx. destruct Hx as (_ & _ & Hx). rewrite <-HB in Hx.
  split; [|done]. apply (tinv_frame c); [done|done|]. intros y Hy. assert (next_loc c <> y) by (by intros <-).
  unfold hashes, cores, allocated. cbn [heap]. by rewrite !lookup_fmap, lookup_insert_ne.
Qed.

Lemma keeps_allocated : keeps c (allocated c e).
Proof using.
  split; [simpl; lia|]. intros y e' He' Hy. unfold allocated in He'. cbn [heap] in He'. rewrite lookup_insert_ne in He' by lia. eauto.
Qed.

Lemma cores_allocated : cores (heap (allocated c e)) = <[next_loc c := core e]> (cores (heap c)).
Proof using. unfold cores, allocated. cbn [heap]. by rewrite fmap_insert. Qed.
End alloc.

(** The lists after an insertion that replaces [old]. *)
Definition inserted U I D (x : Z) (old : option Z) : list Z * list Z * list Z :=
  match old with None => (U, I ++ [x], D) | Some o => erased U (I ++ [x]) D o end.

Definition link_entry (x chg : Z) : M LRUCache unit :=
  e <~ entry_at x;;
  update x (set_refs (u32 (refs e + 1)));;;
  update x (set_in_cache true);;;
  LRU_Append in_use_addr x;;;
  modify (fun c => with_usage (u64 (usage_ c + chg)) c);;;
  old <~ table_Insert x;;
  FinishErase old;;;
  ret tt.

Section insert.
Context c U I D held (k : list Z) (h v chg del : Z).
Hypothesis Hinv : CInv c U I D held.
Hypothesis Hsmall : Z.of_nat (length held) < 2 ^ 32 - 3.
Hypothesis Hchg : 0 <= chg.
Hypothesis Husage : usage_ c + chg < 2 ^ 64.
Hypothesis Helems : elems_ (table_ c) < 2 ^ 31.

#[local] Abbreviation x := (next_loc c).
#[local] Abbreviation e0 := (mkHandle v del None None None chg k false 1 h).

Lemma small_cons : small (x :: held).
Proof using Hsmall. unfold small. simpl. lia. Qed.

(** The new entry on [in_use_] and counted. *)
Lemma linked : exists c5 e5, (e <~ entry_at x;; update x (set_refs (u32 (refs e + 1)));;; update x (set_in_cache true);;;
    LRU_Append in_use_addr x;;; modify (fun c => with_usage (u64 (usage_ c + chg)) c)) (allocated c e0) = Done (tt, c5) /\
  heap c5 !! x = Some e5 /\ key e5 = k /\ hash e5 = h /\ keeps c c5 /\ capacity_ c5 = capacity_ c /\ table_ c5 = table_ c /\
  hashes (heap c5) = <[x := None]> (hashes (heap c)) /\ data e5 = data e0 /\
  facts (cores (heap c5)) (usage_ c5) (next_loc c5) (deleted c5) U (I ++ [x]) D (x :: held) /\ rings c5 U (I ++ [x]) /\
  usage_ c5 = usage_ c + chg /\ next_loc c5 = x + 1.
Proof using Hinv Hsmall Hchg Husage.
  assert (Hx0 : heap (allocated c e0) !! x = Some e0) by apply lookup_insert_eq.
  unfold bind at 1, entry_at at 1. rewrite Hx0. change (u32 (refs e0 + 1)) with 2.
  rewrite (bind_Done _ _ _ _ _ (update_spec _ _ _ _ Hx0)).
  set (c2 := with_heap _ (allocated c e0)). assert (Hx2 : heap c2 !! x = Some (set_refs 2 e0)) by apply lookup_insert_eq.
  rewrite (bind_Done _ _ _ _ _ (update_spec _ _ _ _ Hx2)). set (e3 := set_in_cache true (set_refs 2 e0)).
  assert (Hc3 : with_heap (<[x := e3]> (heap c2)) c2 = allocated c e3).
  { unfold c2, with_heap, allocated. cbn [heap capacity_ usage_ table_ next_loc deleted]. by rewrite !insert_insert_eq. }
  rewrite Hc3. destruct (rings_append (allocated c e3) U I x false (rings_allocated _ _ _ _ _ e3 Hinv) (fresh_lists _ _ _ _ _ Hinv))
    as (c4 & E4 & Hs4 & Hr4); [unfold allocated; cbn [heap]; rewrite lookup_insert_eq; by eexists|].
  rewrite (bind_Done _ _ _ _ _ E4). unfold modify. set (c5 := with_usage _ c4). destruct Hs4 as [T1 T2 T3 T4 T5 T6 T7].
  assert (He3 : heap (allocated c e3) !! x = Some e3) by apply lookup_insert_eq.
  destruct (entry_core (allocated c e3) c4 x e3 T6 He3) as (e4 & He4 & Hce4).
  assert (Hus : usage_ c5 = usage_ c + chg).
  { unfold c5. cbn [usage_ with_usage]. rewrite T2. change (usage_ (allocated c e3)) with (usage_ c). unfold u64. rewrite uwrap_small; [done|].
    assert (0 <= usage_ c); [|lia]. rewrite (fa_usage _ _ _ _ _ _ _ _ (cv_facts _ _ _ _ _ Hinv)).
    rewrite (zsum_ext _ (fun y => Z.max 0 (charge_of (cores (heap c)) y))); [apply zsum_nonneg; lia|].
    intros y Hy. unfold charge_of. destruct (cores (heap c) !! y) as [ey|] eqn:Hey; [|done].
    destruct (fa_entry _ _ _ _ _ _ _ _ (cv_facts _ _ _ _ _ Hinv) y ey Hey) as (_ & ? & _); [rewrite !elem_of_app in *; tauto|lia]. }
  assert (Hd4 : data e4 = data e0) by (change (data (core e4) = data (core e3)); by rewrite Hce4).
  exists c5, e4. split_and!; try done.
  - unfold data in Hd4. simpl in Hd4. congruence.
  - unfold data in Hd4. simpl in Hd4. congruence.
  - eapply keeps_trans; [apply (keeps_allocated c e3)|]. apply keeps_cores; [exact T4|].
    change (heap c5) with (heap c4). rewrite T6. eauto.
  - change (heap c5) with (heap c4). rewrite T7. unfold hashes, allocated. cbn [heap]. by rewrite fmap_insert.
  - rewrite Hus. change (heap c5) with (heap c4). change (next_loc c5) with (next_loc c4). change (deleted c5) with (deleted c4).
    rewrite T6, T4, T5, cores_allocated. exact (facts_new _ _ _ _ _ _ _ _ (cv_facts _ _ _ _ _ Hinv) (core e3) true eq_refl eq_refl Hchg).
  - by apply (rings_same c4).
Qed.

Lemma link_entry_spec : exists old c', link_entry x chg (allocated c e0) = Done (tt, c') /\ keeps c c' /\ capacity_ c' = capacity_ c /\
  elems_ (table_ c') <= 2 ^ 31 /\ (forall e, heap c' !! x = Some e -> data e = data e0) /\
  (let '(U', I', D') := inserted U I D x old in CInv c' U' I' D' (x :: held)) /\
  match old with
  | None => (forall y e, y ∈ U ++ I -> heap c !! y = Some e -> ~ matches k h e) /\ usage_ c' = usage_ c + chg
  | Some o => o ∈ U ++ I /\ exists e, heap c !! o = Some e /\ matches k h e /\ usage_ c' = usage_ c + chg - charge e
  end.
Proof using Hinv Hsmall Hchg Husage Helems.
  destruct linked as (c5 & e5 & E5 & He5 & Hk5 & Hh5 & Hkeep & Hcap & Htab & Hhs & Hd5 & Hf5 & Hr5 & Hus & Hnl).
  pose proof Hinv as [Hf Hr (B & Ht & HB) Hub]. destruct (tinv_allocated _ _ _ _ _ e0 Hinv B Ht HB) as [_ Hfresh].
  assert (Hold : forall y, y < x -> forall e', heap c5 !! y = Some e' -> exists e, heap c !! y = Some e /\ data e' = data e).
  { intros y Hy e' He'. by apply (proj2 Hkeep). }
  assert (Hlt : forall y, y ∈ U ++ I -> y < x).
  { intros y Hy. apply (fa_fresh _ _ _ _ _ _ _ _ Hf). rewrite !elem_of_cons, !elem_of_app in *. tauto. }
  assert (Hget5 : forall y, y ∈ U ++ I -> exists e e', heap c !! y = Some e /\ heap c5 !! y = Some e' /\ data e' = data e).
  { intros y Hy. assert (Hin : y ∈ U ++ (I ++ [x]) ++ D) by (rewrite !elem_of_app in *; tauto).
    destruct (facts_get _ _ _ _ _ _ _ _ Hf5 y Hin) as [ec Hec]. unfold cores in Hec. apply view_some in Hec as (e' & He' & _).
    destruct (Hold y (Hlt y Hy) e' He') as (e & He & Hd). eauto. }
  assert (Ht5 : tinv c5 B).
  { apply (tinv_frame c); [done|done|]. intros y Hy. split; [rewrite Hhs, lookup_insert_ne; [done|by intros <-]|].
    rewrite HB in Hy. destruct (Hget5 y Hy) as (e & e' & He & He' & Hd).
    rewrite (cores_lookup _ _ _ He), (cores_lookup _ _ _ He'). unfold data in Hd. unfold hash_key. simpl. congruence. }
  assert (Hel5 : elems_ (table_ c5) < 2 ^ 31) by (by rewrite Htab).
  destruct (table_Insert_spec c5 B x e5 Ht5 He5 Hfresh Hel5) as (old & c6 & B' & E6 & Hs6 & Ht6 & Hres).
  rewrite Hk5, Hh5 in Hres. exists old.
  assert (Hrun : link_entry x chg (allocated c e0) = ((FinishErase old;;; ret tt) c6)).
  { unfold link_entry. unfold bind at 1 in E5. unfold bind at 1. destruct (entry_at x (allocated c e0)) as [[e s]| |]; [|done..].
    apply bind_inv in E5 as (u1 & s1 & A1 & E5). apply bind_inv in E5 as (u2 & s2 & A2 & E5). apply bind_inv in E5 as (u3 & s3 & A3 & A4).
    rewrite (bind_Done _ _ _ _ _ A1), (bind_Done _ _ _ _ _ A2), (bind_Done _ _ _ _ _ A3), (bind_Done _ _ _ _ _ A4), (bind_Done _ _ _ _ _ E6). done. }
  rewrite Hrun. pose proof (facts_of_same_lists _ _ _ _ _ _ Hs6 Hf5) as Hf6. pose proof (rings_of_same_lists _ _ _ _ Hs6 Hr5) as Hr6.
  assert (Hk6 : keeps c c6) by (eapply keeps_trans; [exact Hkeep|by apply keeps_same_lists]).
  assert (Hus6 : usage_ c6 = usage_ c + chg) by (by rewrite (sl_usage _ _ Hs6)).
  assert (Hx6 : forall c7, keeps c6 c7 -> forall e, heap c7 !! x = Some e -> data e = data e0).
  { intros c7 Hk7 e He. destruct (proj2 (keeps_trans _ _ _ (keeps_same_lists _ _ Hs6) Hk7) x e He ltac:(lia)) as (e' & He' & ->). congruence. }
  destruct old as [o|]; unfold inserted.
  - destruct Hres as (R & eo & HR & HR' & Heo & Hm).
    assert (HUI : U ++ (I ++ [x]) ≡ₚ o :: concat B') by (rewrite HR', (assoc_L (++)), <-HB, HR; solve_Permutation).
    pose proof (FinishErase_spec c6 U (I ++ [x]) D (x :: held) o B' Hf6 Hr6 Ht6 HUI ltac:(lia) small_cons) as Hfe.
    destruct (erased U (I ++ [x]) D o) as [[U' I'] D'] eqn:Her. destruct Hfe as (c7 & e7 & He7 & E7 & Hk7 & Hinv7 & Hcap7 & Hus7 & Hel7).
    assert (HoUI : o ∈ U ++ I) by (rewrite <-HB, HR; left). destruct (Hget5 o HoUI) as (e & e' & He & He' & Hd).
    assert (e' = eo) as -> by congruence. destruct (entry_core c5 c6 o eo (sl_cores _ _ Hs6) Heo) as (e7' & He7' & Hce7).
    assert (e7' = e7) as -> by congruence. assert (Hd7 : data e7 = data e).
    { rewrite <-Hd. change (data (core e7) = data (core eo)). by rewrite Hce7. }
    exists c7. rewrite (bind_Done _ _ _ _ _ E7). split_and!; try done.
    + by eapply keeps_trans.
    + by rewrite Hcap7, (sl_capacity _ _ Hs6).
    + rewrite Hel7. apply Ht6.
    + by apply Hx6.
    + exists e. unfold data in Hd7, Hd. destruct Hm as [Hm1 Hm2]. split_and!; [done|split; congruence|]. rewrite Hus7, Hus6. congruence.
  - destruct Hres as [HB' Hno]. exists c6. split_and!; try done.
    + by rewrite (sl_capacity _ _ Hs6).
    + apply Ht6.
    + apply Hx6, keeps_refl.
    + split; [done|done| |lia]. exists B'. split; [done|]. rewrite HB', HB. solve_Permutation.
    + intros y e Hy He [Hm1 Hm2]. destruct (Hget5 y Hy) as (e1 & e' & He1 & He' & Hd). assert (e1 = e) as -> by congruence.
      apply (Hno y e'); [by rewrite HB|done|]. unfold data in Hd. split; congruence.
Qed.
End insert.

(** ** The public methods *)
Definition room c held (chg : Z) : Prop :=
  Z.of_nat (length held) < 2 ^ 32 - 3 /\ 0 <= chg /\ usage_ c + chg < 2 ^ 64 /\ elems_ (table_ c) < 2 ^ 31.

Lemma heap_fuel c U I D held : CInv c U I D held -> (length U <= size (heap c))%nat.
Proof.
  intros Hinv. destruct (facts_lists _ _ _ _ _ _ _ _ (cv_facts _ _ _ _ _ Hinv)) as (NU & _ & _).
  rewrite <-size_dom, <-(size_list_to_set (C := gset Z) U NU). apply subseteq_size. intros x Hx%elem_of_list_to_set. apply elem_of_dom.
  destruct (cached_entry c U I D held x Hinv ltac:(apply elem_of_app; by left)) as [e He]. eauto.
Qed.

Lemma over_capacity_ext c c' : capacity_ c' = capacity_ c -> usage_ c' = usage_ c -> over_capacity c' = over_capacity c.
Proof. unfold over_capacity. by intros -> ->. Qed.

(** Nothing was evicted needlessly: with the last evicted entry the capacity was exceeded. *)
Definition needed c c' (U : list Z) (n : nat) : Prop :=
  match n with
  | O => True
  | S j => exists y, U !! j = Some y /\ capacity_ c < usage_ c' + charge_of (cores (heap c)) y
  end.

Lemma evict_capacity c U I D held : CInv c U I D held -> small held ->
  exists c' n, evict (size (heap c)) over_capacity c = Done (tt, c') /\ keeps c c' /\ capacity_ c' = capacity_ c /\
    elems_ (table_ c') <= elems_ (table_ c) /\ CInv c' (drop n U) I D held /\ (drop n U = [] \/ usage_ c' <= capacity_ c) /\ needed c c' U n.
Proof.
  intros Hinv Hs. destruct (evict_spec over_capacity over_capacity_ext U (size (heap c)) c I D held Hinv Hs (heap_fuel _ _ _ _ _ Hinv))
    as (c' & n & E & Hk & Hcap & Hel & Hinv' & Hus & Hn & Hend & Hj). exists c', n. split_and!; try done.
  - destruct Hend as [|Ho]; [by left|right]. unfold over_capacity in Ho. apply Z.ltb_ge in Ho. lia.
  - destruct n as [|j]; [done|]. destruct (Hj j ltac:(lia)) as (cj & J1 & J2 & J3). unfold over_capacity in J2. apply Z.ltb_lt in J2.
    assert (j < length U)%nat as [y Hy]%lookup_lt_is_Some by lia. exists y. split; [done|].
    rewrite (take_S_r U j y Hy), zsum_app, zsum_cons in Hus. change (zsum _ []) with 0 in Hus. lia.
Qed.

Lemma cache_Insert_spec c U I D held k h v chg del : CInv c U I D held -> room c held chg ->
  let x := next_loc c in
  exists old c1 c' n, cache_Insert k h v chg del c = Done (x, c') /\ keeps c c1 /\ keeps c1 c' /\ capacity_ c1 = capacity_ c /\ capacity_ c' = capacity_ c /\
    elems_ (table_ c') <= 2 ^ 31 /\ (forall e, heap c1 !! x = Some e -> data e = (v, del, chg, k, h)) /\
    (let '(U', I', D') := if 0 <? capacity_ c then inserted U I D x old else (U, I, x :: D) in
     CInv c1 U' I' D' (x :: held) /\ CInv c' (drop n U') I' D' (x :: held) /\
     (drop n U' = [] \/ usage_ c' <= capacity_ c) /\ needed c1 c' U' n) /\
    (0 < capacity_ c ->
     match old with
     | None => forall y e, y ∈ U ++ I -> heap c !! y = Some e -> ~ matches k h e
     | Some o => o ∈ U ++ I /\ exists e, heap c !! o = Some e /\ matches k h e
     end).
Proof.
  intros Hinv (Hlen & Hchg & Hus & Hel) x. set (e0 := mkHandle v del None None None chg k false 1 h).
  assert (Hs : small (x :: held)) by (unfold small; simpl; lia).
  unfold cache_Insert, bind at 1, get. unfold bind at 1, new_entry. fold e0. change (mkCache _ _ _ _ _ _) with (allocated c e0). fold x.
  destruct (Z.ltb_spec 0 (capacity_ c)) as [Hcap0|Hcap0].
  - destruct (link_entry_spec c U I D held k h v chg del Hinv Hlen Hchg Hus Hel) as (old & c1 & E1 & Hk1 & Hcap1 & Hel1 & Hxd & Hinv1 & Hold).
    fold x e0 in E1, Hinv1. unfold link_entry in E1. rewrite (bind_Done _ _ _ _ _ E1). unfold bind at 1, get.
    destruct (inserted U I D x old) as [[U' I'] D'] eqn:Ei.
    destruct (evict_capacity c1 U' I' D' (x :: held) Hinv1 Hs) as (c' & n & E' & Hk' & Hcap' & Hel' & Hinv' & Hend & Hneed).
    exists old, c1, c', n. rewrite (bind_Done _ _ _ _ _ E'), Ei. rewrite Hcap1 in Hend.
    split_and!; try done; [congruence|lia|]. intros _. destruct old as [o|]; [|by destruct Hold].
    destruct Hold as (Ho & e & He & Hm & _). split; [done|by exists e].
  - assert (Hx0 : heap (allocated c e0) !! x = Some e0) by apply lookup_insert_eq.
    rewrite (bind_Done _ _ _ _ _ (update_spec _ _ _ _ Hx0)). set (e1 := set_next None e0).
    assert (Hc1 : with_heap (<[x := e1]> (heap (allocated c e0))) (allocated c e0) = allocated c e1).
    { unfold with_heap, allocated. cbn [heap capacity_ usage_ table_ next_loc deleted]. by rewrite insert_insert_eq. }
    rewrite Hc1. unfold bind at 1, get. set (c1 := allocated c e1). pose proof Hinv as [Hf Hr (B & Ht & HB) Hub].
    assert (Hinv1 : CInv c1 U I (x :: D) (x :: held)).
    { split.
      - unfold c1. rewrite cores_allocated. exact (facts_new _ _ _ _ _ _ _ _ Hf (core e1) false eq_refl eq_refl Hchg).
      - by eapply rings_allocated.
      - exists B. split; [|done]. by eapply tinv_allocated.
      - done. }
    destruct (evict_capacity c1 U I (x :: D) (x :: held) Hinv1 Hs) as (c' & n & E' & Hk' & Hcap' & Hel' & Hinv' & Hend & Hneed).
    exists None, c1, c', n. rewrite (bind_Done _ _ _ _ _ E'). split_and!; try done; [apply keeps_allocated| | |lia].
    + pose proof (ti_bound _ _ Ht). change (table_ c1) with (table_ c) in Hel'. lia.
    + intros e He. unfold c1, allocated in He. cbn [heap] in He. fold x in He. rewrite lookup_insert_eq in He. by injection He as <-.
Qed.

Lemma cache_Erase_spec c U I D held k h : CInv c U I D held -> small held ->
  exists r c', cache_Erase k h c = Done (tt, c') /\ keeps c c' /\ capacity_ c' = capacity_ c /\
    match r with
    | None => c' = c /\ forall y e, y ∈ U ++ I -> heap c !! y = Some e -> ~ matches k h e
    | Some x => x ∈ U ++ I /\ (exists e, heap c !! x = Some e /\ matches k h e) /\
        let '(U', I', D') := erased U I D x in CInv c' U' I' D' held
    end.
Proof.
  intros Hinv Hs. destruct (remove_finish c U I D held k h Hinv Hs) as (r & b & c' & E & Hk & Hcap & _ & Hres). exists r, c'.
  apply bind_inv in E as (r1 & c1 & E1 & E2). unfold cache_Erase. rewrite (bind_Done _ _ _ _ _ E1), (bind_Done _ _ _ _ _ E2).
  split_and!; try done. destruct r as [x|]; [|done]. destruct Hres as (Hx & e & He & Hm & _ & Hinv'). split_and!; eauto.
Qed.

Lemma cache_Prune_spec c U I D held : CInv c U I D held -> small held ->
  exists c', cache_Prune c = Done (tt, c') /\ keeps c c' /\ capacity_ c' = capacity_ c /\ CInv c' [] I D held.
Proof.
  intros Hinv Hs. unfold cache_Prune, bind, get.
  destruct (evict_spec (fun _ => true) (fun _ _ _ _ => eq_refl) U (size (heap c)) c I D held Hinv Hs (heap_fuel _ _ _ _ _ Hinv))
    as (c' & n & E & Hk & Hcap & _ & Hinv' & _ & _ & [Hend|?] & _); [|done]. exists c'. rewrite Hend in Hinv'. done.
Qed.
