(* ===== verification/CacheSpec.v ===== *)
(** * The block cache: the abstract cache of a shard

    The abstract shard is what cache.h promises: entries in order of use, the
    unused ones apart from those that clients have pinned, and the entries that
    left the cache while pinned.  No pointers, no buckets, no reference counts.
    The methods of [Cache] implement it. *)
From S2P Require Import Prelude Coding Counting Cache CacheTable CacheInv CacheMethods.
From stdpp Require Import list gmap options.
#[local] Open Scope Z_scope.
#[local] Open Scope tf_monad_scope.

(** ** The abstract shard *)
Record item := mkItem { it_id : Z; it_value : Z; it_deleter : Z; it_charge : Z; it_key : list Z }.

Record shard := mkShard {
  s_cap : Z;
  s_idle : list item;
  s_busy : list item;
  s_gone : list item;
  s_pins : list Z;
  s_next : Z
}.

Definition ids (l : list item) : list Z := map it_id l.
Definition charges (l : list item) : Z := zsum it_charge l.
Definition cached (s : shard) : list item := s_idle s ++ s_busy s.
Definition alive (s : shard) : list item := s_idle s ++ s_busy s ++ s_gone s.
Definition drop_id (x : Z) (l : list item) : list item := filter (fun it => it_id it <> x) l.
Definition find_key (k : list Z) (l : list item) : option item := List.find (fun it => bool_decide (it_key it = k)) l.

(** The oldest unused entries are dropped while their charges exceed the capacity; [busy] is the charge of the pinned ones. *)
Fixpoint trim (cap busy : Z) (idle : list item) : list item :=
  match idle with
  | [] => []
  | _ :: rest => if cap <? charges idle + busy then trim cap busy rest else idle
  end.

Definition shard_new (cap : Z) : shard := mkShard cap [] [] [] [] 2.

Definition shard_lookup (k : list Z) (s : shard) : option Z * shard :=
  match find_key k (cached s) with
  | None => (None, s)
  | Some it =>
      let x := it_id it in
      (Some x, mkShard (s_cap s) (drop_id x (s_idle s)) (if decide (x ∈ ids (s_idle s)) then s_busy s ++ [it] else s_busy s)
                 (s_gone s) (x :: s_pins s) (s_next s))
  end.

(** One pin fewer; [None] when there is none. *)
Fixpoint unpin (x : Z) (pins : list Z) : option (list Z) :=
  match pins with
  | [] => None
  | y :: pins => if decide (y = x) then Some pins else cons y <$> unpin x pins
  end.

Definition shard_release (x : Z) (s : shard) : option shard :=
  match unpin x (s_pins s) with
  | None => None
  | Some pins =>
      Some (if decide (x ∈ pins) then mkShard (s_cap s) (s_idle s) (s_busy s) (s_gone s) pins (s_next s)
            else if decide (x ∈ ids (s_busy s)) then
              mkShard (s_cap s) (s_idle s ++ filter (fun it => it_id it = x) (s_busy s)) (drop_id x (s_busy s)) (s_gone s) pins (s_next s)
            else mkShard (s_cap s) (s_idle s) (s_busy s) (drop_id x (s_gone s)) pins (s_next s))
  end.

Definition shard_erase (k : list Z) (s : shard) : shard :=
  match find_key k (cached s) with
  | None => s
  | Some it =>
      let x := it_id it in
      mkShard (s_cap s) (drop_id x (s_idle s)) (drop_id x (s_busy s))
        (if decide (x ∈ ids (s_idle s)) then s_gone s else it :: s_gone s) (s_pins s) (s_next s)
  end.

Definition shard_add (it : item) (s : shard) : shard :=
  mkShard (s_cap s) (s_idle s) (s_busy s ++ [it]) (s_gone s) (it_id it :: s_pins s) (s_next s + 1).

Definition shard_insert (k : list Z) (v chg del : Z) (s : shard) : Z * shard :=
  let x := s_next s in
  let it := mkItem x v del chg k in
  let s1 := if 0 <? s_cap s then shard_add it (shard_erase k s)
            else mkShard (s_cap s) (s_idle s) (s_busy s) (it :: s_gone s) (x :: s_pins s) (x + 1) in
  (x, mkShard (s_cap s1) (trim (s_cap s1) (charges (s_busy s1)) (s_idle s1)) (s_busy s1) (s_gone s1) (s_pins s1) (s_next s1)).

Definition shard_prune (s : shard) : shard := mkShard (s_cap s) [] (s_busy s) (s_gone s) (s_pins s) (s_next s).

(** What a client must not exceed: the width of the reference counts, of the total charge and of the bucket count. *)
Definition pins_ok (s : shard) : bool := Z.of_nat (length (s_pins s)) <? 2 ^ 32 - 3.
Definition insert_ok (chg : Z) (s : shard) : bool :=
  pins_ok s && (0 <=? chg) && (charges (cached s) + chg <? 2 ^ 64) && (Z.of_nat (length (cached s)) <? 2 ^ 31).

(** ** What the concrete shard represents *)
Definition it_data (it : item) := (it_value it, it_deleter it, it_charge it, it_key it, HashSlice (it_key it)).

Record represents (i : nat) (c : LRUCache) (s : shard) : Prop := {
  rp_inv : CInv c (ids (s_idle s)) (ids (s_busy s)) (ids (s_gone s)) (s_pins s);
  rp_data it : it ∈ alive s -> exists e, heap c !! it_id it = Some e /\ data e = it_data it;
  rp_shard it : it ∈ alive s -> Shard (HashSlice (it_key it)) = i;
  rp_cap : capacity_ c = s_cap s;
  rp_next : next_loc c = s_next s;
  rp_pins : Z.of_nat (length (s_pins s)) <= 2 ^ 32 - 3
}.

(** ** Locations are only taken by insertions *)
Definition same_next {A} (m : M LRUCache A) : Prop := forall c a c', m c = Done (a, c') -> next_loc c' = next_loc c.

Lemma same_next_ret {A} (a : A) : same_next (ret a).
Proof. intros c b c' [= _ <-]. done. Qed.

Lemma same_next_bind {A B} (m : M LRUCache A) (k : A -> M LRUCache B) : same_next m -> (forall a, same_next (k a)) -> same_next (bind m k).
Proof. intros Hm Hk c b c' (a & c1 & E1 & E2)%bind_inv. rewrite (Hk a c1 b c' E2). by apply (Hm c a). Qed.

Lemma same_next_get : same_next get.
Proof. intros c b c' [= _ <-]. done. Qed.

Lemma same_next_modify f : (forall c, next_loc (f c) = next_loc c) -> same_next (modify f).
Proof. intros Hf c b c' [= _ <-]. done. Qed.

Lemma same_next_crash {A} : same_next (crash : M LRUCache A).
Proof. done. Qed.

Lemma same_next_fuel {A} : same_next (out_of_fuel : M LRUCache A).
Proof. done. Qed.

Lemma same_next_lift {A} (o : outcome A) : same_next (lift o).
Proof. intros c b c' H. unfold lift in H. destruct o; [by injection H as _ <-|done..]. Qed.

Lemma same_next_entry x : same_next (entry_at x).
Proof. intros c b c' H. unfold entry_at in H. destruct (heap c !! x); [by injection H as _ <-|done]. Qed.

Create HintDb same_next.
#[export] Hint Resolve same_next_ret same_next_get same_next_crash same_next_fuel same_next_lift same_next_entry : same_next.
#[export] Hint Extern 3 (same_next (modify _)) => (apply same_next_modify; done) : same_next.

Ltac same_next :=
  repeat match goal with
  | |- same_next (bind _ _) => apply same_next_bind; [|intros ?]
  | |- same_next (match ?b with _ => _ end) => destruct b
  | |- same_next (update _ _) => unfold update
  | |- same_next (deref _) => unfold deref
  | |- same_next (read_slot _) => unfold read_slot
  | |- same_next (write_slot _ _) => unfold write_slot
  | |- same_next _ => solve [eauto with same_next nocore]
  end.

Lemma same_next_find fuel k h p : same_next (find_loop fuel k h p).
Proof. revert p. induction fuel as [|fuel IH]; intros p; cbn [find_loop]; same_next. Qed.

Lemma same_next_FindPointer k h : same_next (FindPointer k h).
Proof. unfold FindPointer. same_next. apply same_next_find. Qed.
#[export] Hint Resolve same_next_FindPointer : same_next.

Lemma same_next_rehash_chain fuel n h l : same_next (rehash_chain fuel n h l).
Proof. revert h l. induction fuel as [|fuel IH]; intros h l; cbn [rehash_chain]; same_next. Qed.

Lemma same_next_rehash n old l : same_next (rehash n old l).
Proof. revert l. induction old as [|h old IH]; intros l; cbn [rehash]; same_next. apply same_next_rehash_chain. Qed.

Lemma same_next_Resize : same_next Resize.
Proof. unfold Resize. same_next. apply same_next_rehash. Qed.
#[export] Hint Resolve same_next_Resize : same_next.

Lemma same_next_table_Insert x : same_next (table_Insert x).
Proof. unfold table_Insert. same_next. Qed.

Lemma same_next_table_Remove k h : same_next (table_Remove k h).
Proof. unfold table_Remove. same_next. Qed.

Lemma same_next_Remove x : same_next (LRU_Remove x).
Proof. unfold LRU_Remove. same_next. Qed.

Lemma same_next_Append l x : same_next (LRU_Append l x).
Proof. unfold LRU_Append. same_next. Qed.
#[export] Hint Resolve same_next_table_Insert same_next_table_Remove same_next_Remove same_next_Append : same_next.

Lemma same_next_Ref x : same_next (Ref x).
Proof. unfold Ref. same_next. Qed.

Lemma same_next_Unref x : same_next (Unref x).
Proof. unfold Unref, call_deleter, free. same_next. Qed.
#[export] Hint Resolve same_next_Ref same_next_Unref : same_next.

Lemma same_next_Lookup k h : same_next (cache_Lookup k h).
Proof. unfold cache_Lookup, table_Lookup. same_next. Qed.

Lemma same_next_FinishErase e : same_next (FinishErase e).
Proof. unfold FinishErase. same_next. Qed.
#[export] Hint Resolve same_next_FinishErase : same_next.

Lemma same_next_evict fuel over : same_next (evict fuel over).
Proof. induction fuel as [|fuel IH]; cbn [evict]; same_next. Qed.
#[export] Hint Resolve same_next_evict : same_next.

Lemma same_next_Erase k h : same_next (cache_Erase k h).
Proof. unfold cache_Erase. same_next. Qed.

Lemma same_next_Prune : same_next cache_Prune.
Proof. unfold cache_Prune. same_next. Qed.

Lemma next_Insert k h v chg del c x c' : cache_Insert k h v chg del c = Done (x, c') -> next_loc c' = next_loc c + 1.
Proof.
  unfold cache_Insert, bind at 1, get. unfold bind at 1, new_entry. set (c1 := mkCache _ _ _ _ _ _). intros E.
  transitivity (next_loc c1); [|done]. revert E. match goal with |- ?m c1 = _ -> _ => assert (Hm : same_next m) by same_next end.
  by apply Hm.
Qed.

(** ** Lists of items *)
Lemma ids_app l1 l2 : ids (l1 ++ l2) = ids l1 ++ ids l2.
Proof. apply map_app. Qed.

Lemma ids_elem x l : x ∈ ids l <-> exists it, it ∈ l /\ it_id it = x.
Proof. unfold ids. rewrite list_elem_of_fmap. naive_solver. Qed.

Lemma ids_drop_id x l : ids (drop_id x l) = without x (ids l).
Proof.
  unfold ids, drop_id, without. induction l as [|it l IH]; [done|]. rewrite filter_cons. cbn [map]. rewrite filter_cons.
  destruct (decide _); cbn [map]; by rewrite IH.
Qed.

Lemma drop_id_elem x it l : it ∈ drop_id x l <-> it ∈ l /\ it_id it <> x.
Proof. unfold drop_id. rewrite list_elem_of_filter. tauto. Qed.

Lemma drop_id_sub x l : drop_id x l ⊆ l.
Proof. intros it Hit. by apply drop_id_elem in Hit as [? _]. Qed.

Lemma find_key_some k l it : find_key k l = Some it -> it ∈ l /\ it_key it = k.
Proof.
  unfold find_key. intros [Hin Hk]%List.find_some. apply list_elem_of_In in Hin. by apply bool_decide_eq_true in Hk.
Qed.

Lemma find_key_none k l it : find_key k l = None -> it ∈ l -> it_key it <> k.
Proof.
  unfold find_key. intros Hn Hin%list_elem_of_In. pose proof (List.find_none _ _ Hn it Hin) as Hb. by apply bool_decide_eq_false in Hb.
Qed.

Lemma unpin_perm x pins rest : unpin x pins = Some rest -> pins ≡ₚ x :: rest.
Proof.
  revert rest. induction pins as [|y pins IH]; [done|]. intros rest. cbn [unpin]. destruct (decide (y = x)) as [->|Hne]; [by intros [= ->]|].
  destruct (unpin x pins) as [r|]; [|done]. intros [= <-]. rewrite (IH r eq_refl). by constructor.
Qed.

Lemma count_elem l x : 1 <= count l x <-> x ∈ l.
Proof. unfold count. rewrite occ_elem. lia. Qed.

Lemma trim_drop cap b idle n : (forall it, it ∈ idle -> 0 <= it_charge it) ->
  (drop n idle = [] \/ charges (drop n idle) + b <= cap) ->
  match n with O => True | S j => exists it, idle !! j = Some it /\ cap < charges (drop n idle) + b + it_charge it end ->
  trim cap b idle = drop n idle.
Proof.
  revert n. induction idle as [|it idle IH]; intros n Hpos Hend Hneed; [by rewrite drop_nil|]. cbn [trim].
  destruct n as [|j]; cbn [drop] in *; [destruct Hend as [|Hend]; [done|]; destruct (Z.ltb_spec cap (charges (it :: idle) + b)); [lia|done]|].
  assert (Hpos' : forall it', it' ∈ idle -> 0 <= it_charge it') by (intros; apply Hpos; by right).
  assert (Hpos0 : 0 <= it_charge it) by (apply Hpos; left).
  destruct Hneed as (y & Hy & Hneed). assert (Hover : cap < charges (it :: idle) + b).
  { unfold charges in *. rewrite zsum_cons. destruct j as [|j]; [injection Hy as ->; rewrite drop_0 in Hneed; lia|]. cbn in Hy.
    assert (Hmid : zsum it_charge (drop (S j) idle) + it_charge y <= zsum it_charge idle); [|lia].
    rewrite <-(take_drop j idle) at 2. rewrite zsum_app, (drop_S _ _ _ Hy), zsum_cons.
    assert (0 <= zsum it_charge (take j idle)); [|lia].
    rewrite (zsum_ext _ (fun z => Z.max 0 (it_charge z))); [apply zsum_nonneg; lia|].
    intros z Hz. apply subseteq_take in Hz. specialize (Hpos' z Hz). lia. }
  destruct (Z.ltb_spec cap (charges (it :: idle) + b)); [|lia]. apply IH; [done|done|]. destruct j as [|j]; [done|]. eauto.
Qed.

(** ** The methods refine the abstract ones *)
Section refinement.
Context (i : nat) (c : LRUCache) (s : shard) (Hrep : represents i c s).

Lemma rep_small : small (s_pins s).
Proof using Hrep. unfold small. pose proof (rp_pins _ _ _ Hrep). lia. Qed.

Lemma alive_bound it : it ∈ alive s -> it_id it < next_loc c.
Proof using Hrep.
  intros Hit. apply (fa_fresh _ _ _ _ _ _ _ _ (cv_facts _ _ _ _ _ (rp_inv _ _ _ Hrep))). right; right.
  rewrite <-!ids_app. apply ids_elem. eauto.
Qed.

(** The data of the entries that stay are kept. *)
Lemma data_kept c' s' it : keeps c c' -> CInv c' (ids (s_idle s')) (ids (s_busy s')) (ids (s_gone s')) (s_pins s') ->
  it ∈ alive s' -> it ∈ alive s -> exists e, heap c' !! it_id it = Some e /\ data e = it_data it.
Proof using Hrep.
  intros [_ Hk] Hinv' Hit' Hit. assert (Hid : it_id it ∈ ids (s_idle s') ++ ids (s_busy s') ++ ids (s_gone s')).
  { rewrite <-!ids_app. apply ids_elem. eauto. }
  destruct (facts_get _ _ _ _ _ _ _ _ (cv_facts _ _ _ _ _ Hinv') _ Hid) as [ec Hec]. unfold cores in Hec. apply view_some in Hec as (e' & He' & _).
  destruct (Hk _ _ He' (alive_bound it Hit)) as (e & He & Hd). destruct (rp_data _ _ _ Hrep it Hit) as (e0 & He0 & Hd0).
  exists e'. split; [done|congruence].
Qed.

Lemma represents_step c' s' : keeps c c' -> CInv c' (ids (s_idle s')) (ids (s_busy s')) (ids (s_gone s')) (s_pins s') ->
  alive s' ⊆ alive s -> next_loc c' = next_loc c -> capacity_ c' = capacity_ c -> s_cap s' = s_cap s -> s_next s' = s_next s ->
  Z.of_nat (length (s_pins s')) <= 2 ^ 32 - 3 -> represents i c' s'.
Proof using Hrep.
  intros Hk Hinv' Hsub Hn Hcap Hcap' Hn' Hp. split; try done.
  - intros it Hit. by apply (data_kept c' s'); auto.
  - intros it Hit. by apply (rp_shard _ _ _ Hrep), Hsub.
  - rewrite Hcap, Hcap'. apply (rp_cap _ _ _ Hrep).
  - rewrite Hn, Hn'. apply (rp_next _ _ _ Hrep).
Qed.

Lemma cached_alive it : it ∈ cached s -> it ∈ alive s.
Proof using. unfold cached, alive. rewrite !elem_of_app. tauto. Qed.

Lemma find_hit k x e : x ∈ ids (s_idle s) ++ ids (s_busy s) -> heap c !! x = Some e -> matches k (HashSlice k) e ->
  exists it, find_key k (cached s) = Some it /\ it_id it = x /\ it ∈ cached s.
Proof using Hrep.
  intros Hx He [Hm1 Hm2]. rewrite <-ids_app in Hx. pose proof Hx as (it0 & Hit0 & Hid0)%ids_elem.
  destruct (rp_data _ _ _ Hrep it0 (cached_alive it0 Hit0)) as (e0 & He0 & Hd0). rewrite Hid0, He in He0. injection He0 as <-.
  assert (Hk0 : it_key it0 = k) by (unfold data, it_data in Hd0; congruence).
  destruct (find_key k (cached s)) as [it|] eqn:Hf; [|by destruct (find_key_none _ _ _ Hf Hit0)].
  destruct (find_key_some _ _ _ Hf) as [Hit Hk]. exists it. split_and!; try done.
  destruct (rp_data _ _ _ Hrep it (cached_alive it Hit)) as (e1 & He1 & Hd1). unfold data, it_data in Hd1.
  apply (cached_unique c _ _ _ _ _ _ e1 e (rp_inv _ _ _ Hrep)); try done; try congruence.
  - rewrite <-ids_app. apply ids_elem. eauto.
  - by rewrite <-ids_app.
Qed.

Lemma find_miss k : (forall y e, y ∈ ids (s_idle s) ++ ids (s_busy s) -> heap c !! y = Some e -> ~ matches k (HashSlice k) e) ->
  find_key k (cached s) = None.
Proof using Hrep.
  intros Hno. destruct (find_key k (cached s)) as [it|] eqn:Hf; [|done]. destruct (find_key_some _ _ _ Hf) as [Hit Hk].
  destruct (rp_data _ _ _ Hrep it (cached_alive it Hit)) as (e & He & Hd). unfold data, it_data in Hd.
  destruct (Hno (it_id it) e); [rewrite <-ids_app; apply ids_elem; eauto|done|split; congruence].
Qed.

Lemma Lookup_refines k : pins_ok s = true ->
  exists c', cache_Lookup k (HashSlice k) c = Done (fst (shard_lookup k s), c') /\ represents i c' (snd (shard_lookup k s)).
Proof using Hrep.
  intros Hp%Z.ltb_lt. destruct (cache_Lookup_spec c _ _ _ _ k (HashSlice k) (rp_inv _ _ _ Hrep) rep_small)
    as (r & c' & E & Hk & Hcap & _ & _ & Hres). pose proof (same_next_Lookup _ _ _ _ _ E) as Hn.
  exists c'. rewrite E. unfold shard_lookup. destruct r as [x|].
  - destruct Hres as (Hx & (e & He & Hm) & Hinv'). destruct (find_hit k x e Hx He Hm) as (it & -> & <- & Hit). split; [done|].
    apply represents_step; try done; cbn [snd s_idle s_busy s_gone s_pins length]; [|intros y|lia].
    + rewrite ids_drop_id. destruct (decide _); [by rewrite ids_app|done].
    + unfold alive. cbn [s_idle s_busy s_gone]. unfold cached in Hit. rewrite !elem_of_app, drop_id_elem in *.
      destruct (decide _); rewrite ?elem_of_app, ?list_elem_of_singleton; naive_solver.
  - destruct Hres as [-> Hno]. by rewrite (find_miss k Hno).
Qed.

Lemma filter_id_item it : it ∈ s_busy s -> filter (fun y => it_id y = it_id it) (s_busy s) = [it].
Proof using Hrep.
  intros Hit. destruct (facts_lists _ _ _ _ _ _ _ _ (cv_facts _ _ _ _ _ (rp_inv _ _ _ Hrep))) as (_ & NI & _).
  apply list_elem_of_split in Hit as (l1 & l2 & Hl). rewrite Hl in NI |- *. rewrite ids_app in NI.
  apply NoDup_app in NI as (_ & N1 & [N2 _]%NoDup_cons).
  assert (Hnil : forall l, it_id it ∉ ids l -> filter (fun y => it_id y = it_id it) l = []).
  { intros l Hl'. destruct (filter _ l) as [|z l'] eqn:Hfl; [done|]. destruct Hl'. apply ids_elem. exists z.
    assert (Hz : z ∈ filter (fun y => it_id y = it_id it) l) by (rewrite Hfl; left). apply list_elem_of_filter in Hz. tauto. }
  rewrite filter_app, filter_cons_True, !Hnil; [done|done| |done]. intros Hin. apply (N1 _ Hin). left.
Qed.

Lemma Release_refines x s' : shard_release x s = Some s' ->
  exists c', cache_Release x c = Done (tt, c') /\ represents i c' s'.
Proof using Hrep.
  unfold shard_release. destruct (unpin x (s_pins s)) as [rest|] eqn:Hu; [|done]. intros [= Hs']. apply unpin_perm in Hu.
  pose proof (Unref_spec c _ _ _ _ x rest (rp_inv _ _ _ Hrep) rep_small Hu) as Hspec.
  pose proof (rp_pins _ _ _ Hrep) as Hp. rewrite Hu in Hp. cbn [length] in Hp.
  destruct (released _ _ _ rest x) as [[U' I'] D'] eqn:Hr. destruct Hspec as (c' & E & Hk & Hinv' & Hcap & _).
  pose proof (same_next_Unref _ _ _ _ E) as Hn. exists c'. split; [done|]. unfold released in Hr.
  assert (Hdec : (if decide (1 <= count rest x) then true else false) = (if decide (x ∈ rest) then true else false)).
  { pose proof (count_elem rest x). destruct (decide (1 <= _)), (decide (x ∈ rest)); tauto. }
  destruct (decide (1 <= count rest x)), (decide (x ∈ rest)); try done; subst s'.
  - injection Hr as <- <- <-. apply represents_step; try done; cbn [s_pins]; lia.
  - destruct (decide (x ∈ ids (s_busy s))) as [Hb|Hb]; injection Hr as <- <- <-.
    + pose proof Hb as (it & Hit & Hid)%ids_elem. subst x. rewrite (filter_id_item it Hit).
      apply represents_step; try done; cbn [s_idle s_busy s_gone s_pins]; [by rewrite ids_app, ids_drop_id| |lia].
      intros y. unfold alive. cbn [s_idle s_busy s_gone]. rewrite !elem_of_app, drop_id_elem, list_elem_of_singleton. naive_solver.
    + apply represents_step; try done; cbn [s_idle s_busy s_gone s_pins]; [by rewrite ids_drop_id| |lia].
      intros y. unfold alive. cbn [s_idle s_busy s_gone]. rewrite !elem_of_app, drop_id_elem. tauto.
Qed.

(** Erasing, on the lists of both levels. *)
Lemma erase_lists k it : find_key k (cached s) = Some it ->
  erased (ids (s_idle s)) (ids (s_busy s)) (ids (s_gone s)) (it_id it) =
    (ids (s_idle (shard_erase k s)), ids (s_busy (shard_erase k s)), ids (s_gone (shard_erase k s))) /\
  alive (shard_erase k s) ⊆ alive s.
Proof using.
  intros Hf. destruct (find_key_some _ _ _ Hf) as [Hit _]. unfold shard_erase, erased, alive. rewrite Hf. cbn [s_idle s_busy s_gone].
  rewrite !ids_drop_id. split; [by destruct (decide _)|]. intros y. unfold cached in Hit. rewrite !elem_of_app, !drop_id_elem in *.
  destruct (decide _); rewrite ?elem_of_cons; naive_solver.
Qed.

Lemma Erase_refines k : exists c', cache_Erase k (HashSlice k) c = Done (tt, c') /\ represents i c' (shard_erase k s).
Proof using Hrep.
  destruct (cache_Erase_spec c _ _ _ _ k (HashSlice k) (rp_inv _ _ _ Hrep) rep_small) as (r & c' & E & Hk & Hcap & Hres).
  pose proof (same_next_Erase _ _ _ _ _ E) as Hn. exists c'. split; [done|]. destruct r as [x|].
  - destruct Hres as (Hx & (e & He & Hm) & Hinv'). destruct (find_hit k x e Hx He Hm) as (it & Hf & <- & Hit).
    destruct (erase_lists k it Hf) as [Heq Hsub]. rewrite Heq in Hinv'. pose proof (rp_pins _ _ _ Hrep).
    assert (Hsp : s_pins (shard_erase k s) = s_pins s /\ s_cap (shard_erase k s) = s_cap s /\ s_next (shard_erase k s) = s_next s)
      by (unfold shard_erase; by rewrite Hf). destruct Hsp as (Hsp & ? & ?).
    apply represents_step; rewrite ?Hsp; done.
  - destruct Hres as [-> Hno]. unfold shard_erase. by rewrite (find_miss k Hno).
Qed.

Lemma Prune_refines : exists c', cache_Prune c = Done (tt, c') /\ represents i c' (shard_prune s).
Proof using Hrep.
  destruct (cache_Prune_spec c _ _ _ _ (rp_inv _ _ _ Hrep) rep_small) as (c' & E & Hk & Hcap & Hinv').
  pose proof (same_next_Prune _ _ _ E) as Hn. exists c'. split; [done|]. pose proof (rp_pins _ _ _ Hrep).
  apply represents_step; try done. intros y. unfold alive, shard_prune. cbn [s_idle s_busy s_gone]. rewrite !elem_of_app. set_solver.
Qed.
End refinement.

(** ** Charges *)
Lemma charge_item i c s it : represents i c s -> it ∈ alive s -> charge_of (cores (heap c)) (it_id it) = it_charge it /\ 0 <= it_charge it.
Proof.
  intros Hrep Hit. destruct (rp_data _ _ _ Hrep it Hit) as (e & He & Hd). unfold charge_of. rewrite (cores_lookup _ _ _ He). simpl.
  assert (Hch : charge e = it_charge it) by (unfold data, it_data in Hd; congruence). split; [done|]. rewrite <-Hch.
  assert (Hin : it_id it ∈ ids (s_idle s) ++ ids (s_busy s) ++ ids (s_gone s)) by (rewrite <-!ids_app; apply ids_elem; eauto).
  exact (proj1 (proj2 (fa_entry _ _ _ _ _ _ _ _ (cv_facts _ _ _ _ _ (rp_inv _ _ _ Hrep)) _ _ (cores_lookup _ _ _ He) Hin))).
Qed.

Lemma usage_total i c s : represents i c s -> usage_ c = charges (cached s).
Proof.
  intros Hrep. rewrite (fa_usage _ _ _ _ _ _ _ _ (cv_facts _ _ _ _ _ (rp_inv _ _ _ Hrep))), <-ids_app. unfold ids, charges. rewrite zsum_map.
  apply zsum_ext. intros it Hit. eapply charge_item; [done|]. by apply cached_alive.
Qed.

Lemma elems_cached i c s : represents i c s -> elems_ (table_ c) = Z.of_nat (length (cached s)).
Proof.
  intros Hrep. destruct (cv_table _ _ _ _ _ (rp_inv _ _ _ Hrep)) as (B & Ht & HB). rewrite (ti_elems _ _ Ht), HB, <-ids_app.
  unfold ids. by rewrite length_map.
Qed.

(** ** Insertion *)
Definition trimmed (s : shard) : shard :=
  mkShard (s_cap s) (trim (s_cap s) (charges (s_busy s)) (s_idle s)) (s_busy s) (s_gone s) (s_pins s) (s_next s).

Lemma evicted_represents i c1 c' s1 n : represents i c1 s1 -> keeps c1 c' -> next_loc c' = next_loc c1 -> capacity_ c' = capacity_ c1 ->
  CInv c' (drop n (ids (s_idle s1))) (ids (s_busy s1)) (ids (s_gone s1)) (s_pins s1) ->
  (drop n (ids (s_idle s1)) = [] \/ usage_ c' <= capacity_ c1) -> needed c1 c' (ids (s_idle s1)) n -> represents i c' (trimmed s1).
Proof.
  intros Hrep Hk Hn Hcap Hinv' Hend Hneed.
  set (s2 := mkShard (s_cap s1) (drop n (s_idle s1)) (s_busy s1) (s_gone s1) (s_pins s1) (s_next s1)).
  assert (Hdrop : drop n (ids (s_idle s1)) = ids (drop n (s_idle s1))) by (symmetry; apply map_drop || apply fmap_drop). rewrite Hdrop in *.
  pose proof (rp_pins _ _ _ Hrep) as Hp.
  assert (Hrep2 : represents i c' s2).
  { apply (represents_step i c1 s1 Hrep c' s2); try done. intros y. unfold alive, s2. cbn [s_idle s_busy s_gone].
    rewrite !elem_of_app. intros [Hy|?]; [left|by right]. by apply subseteq_drop in Hy. }
  replace (trimmed s1) with s2; [done|]. unfold trimmed, s2. f_equal. symmetry.
  pose proof (usage_total _ _ _ Hrep2) as Hus. unfold cached, charges, s2 in Hus. cbn [s_idle s_busy] in Hus. rewrite zsum_app in Hus.
  pose proof (rp_cap _ _ _ Hrep) as Hc. apply trim_drop.
  - intros it Hit. eapply charge_item; [exact Hrep|]. unfold alive. apply elem_of_app. by left.
  - destruct Hend as [Hend|Hend]; [left; by apply fmap_nil_inv in Hend|right; unfold charges; lia].
  - destruct n as [|j]; [done|]. destruct Hneed as (y & Hy & Hover). unfold ids in Hy. apply list_lookup_fmap_Some in Hy as (it & -> & Hit).
    exists it. split; [done|]. assert (Hal : it ∈ alive s1).
    { unfold alive. apply elem_of_app. left. by eapply list_elem_of_lookup_2. }
    destruct (charge_item _ _ _ _ Hrep Hal) as [Hch _]. unfold charges. lia.
Qed.

Definition placed (k : list Z) (v chg del : Z) (s : shard) : shard :=
  let it := mkItem (s_next s) v del chg k in
  if 0 <? s_cap s then shard_add it (shard_erase k s)
  else mkShard (s_cap s) (s_idle s) (s_busy s) (it :: s_gone s) (s_next s :: s_pins s) (s_next s + 1).

Lemma erase_same k s : s_pins (shard_erase k s) = s_pins s /\ s_cap (shard_erase k s) = s_cap s /\ s_next (shard_erase k s) = s_next s.
Proof. unfold shard_erase. by destruct (find_key k (cached s)). Qed.

(** The new entry on the lists of both levels. *)
Lemma placed_lists i c s k v chg del old : represents i c s ->
  (0 < capacity_ c ->
   match old with
   | None => forall y e, y ∈ ids (s_idle s) ++ ids (s_busy s) -> heap c !! y = Some e -> ~ matches k (HashSlice k) e
   | Some o => o ∈ ids (s_idle s) ++ ids (s_busy s) /\ exists e, heap c !! o = Some e /\ matches k (HashSlice k) e
   end) ->
  let s1 := placed k v chg del s in
  (if 0 <? capacity_ c then inserted (ids (s_idle s)) (ids (s_busy s)) (ids (s_gone s)) (s_next s) old
   else (ids (s_idle s), ids (s_busy s), s_next s :: ids (s_gone s))) = (ids (s_idle s1), ids (s_busy s1), ids (s_gone s1)) /\
  alive s1 ⊆ mkItem (s_next s) v del chg k :: alive s.
Proof.
  intros Hrep Hold s1. unfold s1, placed. rewrite <-(rp_cap _ _ _ Hrep). destruct (Z.ltb_spec 0 (capacity_ c)) as [Hc|Hc]; [specialize (Hold Hc)|].
  - unfold shard_add, alive. cbn [s_idle s_busy s_gone it_id]. rewrite ids_app. destruct old as [o|].
    + destruct Hold as (Ho & e & He & Hm). destruct (find_hit i c s Hrep k o e Ho He Hm) as (it & Hf & <- & Hit).
      destruct (erase_lists s k it Hf) as [Heq Hsub]. unfold erased in Heq. injection Heq as H1 H2 H3.
      assert (Hne : s_next s ∉ [it_id it]).
      { rewrite list_elem_of_singleton, <-(rp_next _ _ _ Hrep). pose proof (alive_bound i c s Hrep it (cached_alive s it Hit)). lia. }
      assert (Hwo : without (it_id it) [s_next s] = [s_next s]) by (apply without_absent; rewrite list_elem_of_singleton in *; congruence).
      unfold inserted, erased. unfold without at 2. rewrite filter_app. fold (without (it_id it) (ids (s_busy s))) (without (it_id it) [s_next s]).
      rewrite Hwo, H1, H2, H3. split; [done|]. unfold alive in Hsub. intros y Hy. specialize (Hsub y). rewrite !elem_of_app, list_elem_of_singleton in *.
      rewrite elem_of_cons, !elem_of_app. naive_solver.
    + assert (Hse : shard_erase k s = s) by (unfold shard_erase; by rewrite (find_miss i c s Hrep k Hold)). rewrite Hse. split; [done|].
      intros y. rewrite elem_of_cons, !elem_of_app, list_elem_of_singleton. tauto.
  - split; [done|]. unfold alive. cbn [s_idle s_busy s_gone]. intros y. rewrite elem_of_cons, !elem_of_app, elem_of_cons. tauto.
Qed.

Lemma placed_represents i c c1 s k v chg del : represents i c s -> Shard (HashSlice k) = i -> Z.of_nat (length (s_pins s)) < 2 ^ 32 - 3 ->
  let s1 := placed k v chg del s in keeps c c1 -> next_loc c1 = s_next s + 1 -> capacity_ c1 = capacity_ c ->
  (forall e, heap c1 !! s_next s = Some e -> data e = (v, del, chg, k, HashSlice k)) ->
  alive s1 ⊆ mkItem (s_next s) v del chg k :: alive s ->
  CInv c1 (ids (s_idle s1)) (ids (s_busy s1)) (ids (s_gone s1)) (s_next s :: s_pins s) -> represents i c1 s1.
Proof.
  intros Hrep Hi Hp s1 Hk Hn Hcap Hd Hsub Hinv. destruct (erase_same k s) as (Hp1 & Hc1 & Hn1).
  assert (Hpins : s_pins s1 = s_next s :: s_pins s) by (unfold s1, placed, shard_add; destruct (0 <? s_cap s); cbn; congruence).
  split; rewrite ?Hpins; try done.
  - intros it Hit. pose proof (Hsub it Hit) as Hin. apply elem_of_cons in Hin as [->|Hin].
    + assert (Hid : s_next s ∈ ids (s_idle s1) ++ ids (s_busy s1) ++ ids (s_gone s1)).
      { rewrite <-!ids_app. apply ids_elem. by eexists. }
      destruct (facts_get _ _ _ _ _ _ _ _ (cv_facts _ _ _ _ _ Hinv) _ Hid) as [ec Hec]. unfold cores in Hec. apply view_some in Hec as (e & He & _).
      exists e. split; [done|]. by apply Hd.
    + apply (data_kept i c s Hrep c1 s1); try done. by rewrite Hpins.
  - intros it Hit. apply Hsub, elem_of_cons in Hit as [->|Hit]; [done|]. by apply (rp_shard _ _ _ Hrep).
  - rewrite Hcap, (rp_cap _ _ _ Hrep). unfold s1, placed, shard_add. destruct (0 <? s_cap s); cbn; congruence.
  - rewrite Hn. unfold s1, placed, shard_add. destruct (0 <? s_cap s); cbn; congruence.
  - simpl. lia.
Qed.

Lemma Insert_refines i c s k v chg del : represents i c s -> Shard (HashSlice k) = i -> insert_ok chg s = true ->
  exists c', cache_Insert k (HashSlice k) v chg del c = Done (fst (shard_insert k v chg del s), c') /\
    represents i c' (snd (shard_insert k v chg del s)).
Proof.
  intros Hrep Hi Hok. unfold insert_ok, pins_ok in Hok. rewrite !andb_true_iff, !Z.ltb_lt, Z.leb_le in Hok. destruct Hok as [[[Hp Hchg] Hus] Hel].
  rewrite <-(usage_total _ _ _ Hrep) in Hus. rewrite <-(elems_cached _ _ _ Hrep) in Hel.
  destruct (cache_Insert_spec c _ _ _ _ k (HashSlice k) v chg del (rp_inv _ _ _ Hrep) ltac:(done)) as
    (old & c1 & c' & n & E & Hk1 & Hk' & Hcap1 & Hcap' & _ & Hxd & Hlists & Hold). pose proof (next_Insert _ _ _ _ _ _ _ _ E) as Hn'.
  rewrite (rp_next _ _ _ Hrep) in *. destruct (placed_lists i c s k v chg del old Hrep Hold) as [Heq Hsub]. rewrite Heq in Hlists.
  destruct Hlists as (Hinv1 & Hinv' & Hend & Hneed). exists c'. split; [done|].
  assert (Hn1 : next_loc c1 = s_next s + 1).
  { assert (s_next s < next_loc c1); [|destruct Hk' as [Hk' _]; lia].
    apply (fa_fresh _ _ _ _ _ _ _ _ (cv_facts _ _ _ _ _ Hinv1)). right; right. apply elem_of_app. right.
    apply (fa_held _ _ _ _ _ _ _ _ (cv_facts _ _ _ _ _ Hinv1)). left. }
  assert (Hpl : s_pins (placed k v chg del s) = s_next s :: s_pins s).
  { destruct (erase_same k s) as (Hp1 & _). unfold placed, shard_add. destruct (0 <? s_cap s); cbn; congruence. }
  apply (evicted_represents i c1 c' (placed k v chg del s) n); rewrite ?Hpl; try done; try congruence.
  apply (placed_represents i c c1 s k v chg del); done.
Qed.

(** ** Construction *)
Lemma new_facts cap : let c := LRUCache_new cap in facts (cores (heap c)) (usage_ c) (next_loc c) (deleted c) [] [] [] [].
Proof.
  assert (Hdom : forall x, is_Some (cores (heap (LRUCache_new cap)) !! x) <-> x ∈ [lru_addr; in_use_addr]).
  { intros x. unfold cores. rewrite lookup_fmap, fmap_is_Some. cbn [heap LRUCache_new].
    rewrite lookup_insert_is_Some, lookup_singleton_is_Some, !elem_of_cons, elem_of_nil. destruct (decide (lru_addr = x)); naive_solver. }
  split; try done; try (intros x Hx; by apply elem_of_nil in Hx).
  - apply NoDup_cons. split; [by rewrite list_elem_of_singleton|]. apply NoDup_singleton.
  - intros x. cbn [app next_loc LRUCache_new]. rewrite !elem_of_cons, elem_of_nil. unfold lru_addr, in_use_addr. lia.
  - intros x e _ Hx. by apply elem_of_nil in Hx.
  - intros x. cbn [next_loc deleted LRUCache_new]. change (times_deleted [] x) with 0.
    destruct (decide (is_Some _)) as [H|H]; rewrite Hdom, !elem_of_cons, elem_of_nil in H; unfold lru_addr, in_use_addr in H;
      destruct (decide (0 <= x < 2)); lia.
Qed.

Lemma new_represents i cap : represents i (LRUCache_new cap) (shard_new cap).
Proof.
  split; try done; try (intros it Hit; by apply elem_of_nil in Hit).
  split; [apply new_facts| | |done].
  - split; [split; [done|apply NoDup_singleton]..|]. apply NoDup_cons. split; [by rewrite list_elem_of_singleton|]. apply NoDup_singleton.
  - exists (replicate 4 []). split; [|done]. split; try done.
    + split; [by repeat constructor|]. intros j l x Hl Hx. apply lookup_replicate in Hl as [-> _]. by apply elem_of_nil in Hx.
    + by exists 2.
    + constructor.
    + intros x y ex ey Hx. by apply elem_of_nil in Hx.
Qed.

(** ** Destruction *)
Lemma seg_nth N P a l b j x : seg N P a l b -> l !! j = Some x -> N !! x = Some (Some (default b (l !! S j))).
Proof.
  revert a j. induction l as [|y l IH]; intros a j; [done|]. intros (_ & _ & Hs) Hj. destruct j as [|j]; [|by apply (IH y j)].
  injection Hj as ->. destruct l; apply Hs.
Qed.

Lemma occ_once (x : Z) l : NoDup l -> zsum (occ x) l = if decide (x ∈ l) then 1 else 0.
Proof.
  induction l as [|y l IH]; [done|]. intros [Hy Hnd]%NoDup_cons. rewrite zsum_cons, IH by done. unfold occ.
  destruct (decide (y = x)) as [->|Hne]; destruct (decide (x ∈ l)), (decide (x ∈ _ :: l)) as [Hc|Hc]; try done;
    rewrite elem_of_cons in Hc; naive_solver.
Qed.

Lemma delete_loop_spec U fuel c : (length U <= fuel)%nat -> NoDup U -> lru_addr ∉ U ->
  (forall j x, U !! j = Some x -> exists e, heap c !! x = Some e /\ refs e = 1 /\ next e = Some (default lru_addr (U !! S j))) ->
  exists c', delete_loop fuel (default lru_addr (list.head U)) c = Done (tt, c') /\
    next_loc c' = next_loc c /\ forall y, times_deleted (deleted c') y = times_deleted (deleted c) y + zsum (occ y) U.
Proof.
  revert fuel c. induction U as [|x U IH]; intros fuel c Hf Hnd Hlru Hlink.
  - exists c. split_and!; [by destruct fuel|done|]. intros y. change (zsum _ []) with 0. lia.
  - destruct fuel as [|fuel]; [simpl in Hf; lia|]. destruct (Hlink 0%nat x eq_refl) as (e & He & Hr & Hn).
    apply NoDup_cons in Hnd as [Hx Hnd]. apply not_elem_of_cons in Hlru as [Hx0 Hlru]. change (default lru_addr (list.head (x :: U))) with x. cbn [delete_loop].
    destruct (Z.eqb_spec x lru_addr); [done|]. unfold bind at 1, entry_at at 1. rewrite He. unfold bind at 1, deref. rewrite Hn. unfold ret at 1.
    rewrite (bind_Done _ _ _ _ _ (update_spec _ _ _ _ He)). set (e1 := set_in_cache false e). set (c1 := with_heap _ c).
    assert (He1 : heap c1 !! x = Some e1) by apply lookup_insert_eq. unfold Unref. unfold bind at 1, bind at 1, entry_at at 1. rewrite He1.
    rewrite (bind_Done _ _ _ _ _ (update_spec _ _ _ _ He1)). set (e2 := set_refs _ e1). set (c2 := with_heap _ c1).
    assert (He2 : heap c2 !! x = Some e2) by apply lookup_insert_eq. unfold bind at 1, entry_at at 1. rewrite He2.
    assert (Hr2 : refs e2 = 0) by (unfold e2, e1; simpl; by rewrite Hr). rewrite Hr2. cbn [Z.eqb]. rewrite free_spec.
    destruct (IH fuel (freed c2 x e2)) as (c' & E & Hnl & Hd); [simpl in Hf; lia|done|done| |].
    + intros j y Hj. destruct (Hlink (S j) y Hj) as (ey & Hey & Hry & Hny). exists ey. split_and!; try done.
      assert (x <> y) by (intros <-; apply Hx; by eapply list_elem_of_lookup_2). unfold freed, c2, c1. cbn [heap with_heap].
      by rewrite lookup_delete_ne, !lookup_insert_ne.
    + exists c'. replace (default lru_addr ((x :: U) !! 1%nat)) with (default lru_addr (list.head U)) by (by destruct U).
      split_and!; [done|by rewrite Hnl|]. intros y. rewrite Hd. unfold freed. cbn [deleted]. rewrite times_deleted_snoc, zsum_cons. simpl. lia.
Qed.

(** With no handle left, the destructor deletes what remains. *)
Lemma delete_all i c s : represents i c s -> s_pins s = [] ->
  exists c', LRUCache_delete c = Done (tt, c') /\ next_loc c' = s_next s /\
    forall x, times_deleted (deleted c') x = if decide (2 <= x < s_next s) then 1 else 0.
Proof.
  intros Hrep Hp. pose proof (rp_inv _ _ _ Hrep) as Hinv. rewrite Hp in Hinv. pose proof Hinv as [Hf Hr _ _].
  assert (Hempty : ids (s_busy s) ++ ids (s_gone s) = []).
  { destruct (ids (s_busy s) ++ ids (s_gone s)) as [|x l] eqn:Hl; [done|]. pose proof (fa_used _ _ _ _ _ _ _ _ Hf x) as Hu.
    rewrite Hl in Hu. specialize (Hu ltac:(left)). change (count [] x) with 0 in Hu. lia. }
  apply app_eq_nil in Hempty as [Hb Hg]. rewrite Hb, Hg in *. set (U := ids (s_idle s)) in *.
  destruct (lru_head c U [] Hr) as (l & Hl & Hn). destruct (facts_lists _ _ _ _ _ _ _ _ Hf) as (NU & _).
  assert (Hlru : lru_addr ∉ U). { pose proof (fa_nodup _ _ _ _ _ _ _ _ Hf) as [Hn0 _]%NoDup_cons. intros HU. apply Hn0. right. rewrite !elem_of_app. tauto. }
  destruct (delete_loop_spec U (size (heap c)) c (heap_fuel _ _ _ _ _ Hinv) NU Hlru) as (c' & E & Hnl & Hd).
  - intros j x Hj. assert (Hx : x ∈ U) by (by eapply list_elem_of_lookup_2). assert (Hin : x ∈ U ++ [] ++ []) by (apply elem_of_app; by left).
    destruct (cached_entry c U [] [] [] x Hinv ltac:(apply elem_of_app; by left)) as [e He]. exists e. split; [done|].
    destruct (fa_entry _ _ _ _ _ _ _ _ Hf x _ (cores_lookup _ _ _ He) Hin) as (A1 & _ & A3). simpl in A1, A3.
    assert (Hic : in_cache e = true) by (apply A3, elem_of_app; by left). rewrite Hic in A1. change (count [] x) with 0 in A1.
    split; [lia|]. pose proof (seg_nth _ _ _ _ _ _ _ (proj1 (ri_lru _ _ _ Hr)) Hj) as Hnx. unfold nexts in Hnx. apply view_some in Hnx as (e' & He' & Hne).
    congruence.
  - exists c'. unfold LRUCache_delete, bind, get, entry_at, deref. rewrite Hl, Hn. unfold ret. split_and!; [done|by rewrite Hnl, (rp_next _ _ _ Hrep)|].
    intros x. rewrite Hd. pose proof (fa_deleted _ _ _ _ _ _ _ _ Hf x) as Hdel. rewrite (rp_next _ _ _ Hrep) in Hdel.
    pose proof (fa_dom _ _ _ _ _ _ _ _ Hf x) as Hdom. rewrite !app_nil_r in Hdom. pose proof (fa_fresh _ _ _ _ _ _ _ _ Hf x) as Hfr. rewrite (rp_next _ _ _ Hrep), !app_nil_r in Hfr.
    pose proof (fa_nodup _ _ _ _ _ _ _ _ Hf) as [N1 [N2 _]%NoDup_cons]%NoDup_cons. rewrite !app_nil_r in N1, N2.
    pose proof (fa_start _ _ _ _ _ _ _ _ Hf) as Hst. rewrite (rp_next _ _ _ Hrep) in Hst.
    assert (Hpos : 0 <= times_deleted (deleted c) x) by (apply zsum_nonneg; intros; apply occ_nonneg).
    rewrite (occ_once x U NU). rewrite !elem_of_cons in Hdom, Hfr. unfold lru_addr, in_use_addr in *.
    assert (HU01 : x ∈ U -> x <> 0 /\ x <> 1) by (intros HU; split; intros ->; [apply N1; by right|by apply N2]).
    destruct (decide (is_Some _)) as [Hs|Hs]; rewrite Hdom in Hs; destruct (decide (x ∈ U)); try tauto;
      destruct (decide (0 <= x < s_next s)), (decide (2 <= x < s_next s)); try lia; naive_solver lia.
Qed.
