(* ===== verification/CacheTheorems.v ===== *)
(** * The block cache: what clients of the sharded cache can rely on

    A client is a sequence of calls.  The abstract cache runs the calls on
    abstract shards and rejects calls that break the rules of cache.h: releasing
    or reading a handle that is not held, or exceeding the widths of the
    counters.  The concrete cache answers every accepted sequence in the same
    way, never touches freed memory, and deletes every entry exactly once. *)
From S2P Require Import Prelude Coding Crc32c Counting Cache CacheTable CacheInv CacheMethods CacheSpec.
From stdpp Require Import list gmap options.
#[local] Open Scope Z_scope.
#[local] Open Scope tf_monad_scope.

Inductive call :=
  | CInsert (k : list Z) (v chg del : Z)
  | CLookup (k : list Z)
  | CRelease (h : Handle)
  | CValue (h : Handle)
  | CErase (k : list Z)
  | CNewId
  | CPrune
  | CTotalCharge.

Inductive reply := RHandle (h : Handle) | RFound (h : option Handle) | RNumber (n : Z) | RNothing.

Definition do_call (cl : call) : M ShardedLRUCache reply :=
  match cl with
  | CInsert k v chg del => h <~ Cache.Insert k v chg del;; ret (RHandle h)
  | CLookup k => r <~ Cache.Lookup k;; ret (RFound r)
  | CRelease h => Release h;;; ret RNothing
  | CValue h => v <~ Value h;; ret (RNumber v)
  | CErase k => Erase k;;; ret RNothing
  | CNewId => n <~ NewId;; ret (RNumber n)
  | CPrune => Prune;;; ret RNothing
  | CTotalCharge => s <~ get;; ret (RNumber (SumCharge s))
  end.

Fixpoint do_calls (cs : list call) : M ShardedLRUCache (list reply) :=
  match cs with
  | [] => ret []
  | cl :: cs => r <~ do_call cl;; rs <~ do_calls cs;; ret (r :: rs)
  end.

(** ** The abstract cache *)
Record cache := mkAbstract { c_shards : list shard; c_last : Z }.

Definition cache_new (capacity : Z) : cache :=
  mkAbstract (replicate 16 (shard_new (Z.quot (u64 (capacity + 15)) 16))) 0.

Definition place (k : list Z) : nat := Shard (HashSlice k).

Definition at_shard {A} (i : nat) (f : shard -> option (A * shard)) (a : cache) : option (A * cache) :=
  match c_shards a !! i with
  | None => None
  | Some s => match f s with
              | None => None
              | Some (r, s') => Some (r, mkAbstract (<[i := s']> (c_shards a)) (c_last a))
              end
  end.

Definition call_shard (cl : call) : option (nat * (shard -> option (reply * shard))) :=
  match cl with
  | CInsert k v chg del =>
      Some (place k, fun s => if insert_ok chg s
                              then Some (RHandle (place k, fst (shard_insert k v chg del s)), snd (shard_insert k v chg del s)) else None)
  | CLookup k =>
      Some (place k, fun s => if pins_ok s
                              then Some (RFound (pair (place k) <$> fst (shard_lookup k s)), snd (shard_lookup k s)) else None)
  | CRelease (i, x) => Some (i, fun s => pair RNothing <$> shard_release x s)
  | CValue (i, x) =>
      Some (i, fun s => match List.find (fun it => it_id it =? x) (s_busy s ++ s_gone s) with
                        | Some it => Some (RNumber (it_value it), s)
                        | None => None
                        end)
  | CErase k => Some (place k, fun s => Some (RNothing, shard_erase k s))
  | _ => None
  end.

Definition step (cl : call) (a : cache) : option (reply * cache) :=
  match call_shard cl with
  | Some (i, f) => at_shard i f a
  | None =>
      Some (match cl with
            | CPrune => (RNothing, mkAbstract (map shard_prune (c_shards a)) (c_last a))
            | CTotalCharge => (RNumber (foldl (fun n s => u64 (n + charges (cached s))) 0 (c_shards a)), a)
            | _ => let id := u64 (c_last a + 1) in (RNumber id, mkAbstract (c_shards a) id)
            end)
  end.

Fixpoint steps (cs : list call) (a : cache) : option (list reply * cache) :=
  match cs with
  | [] => Some ([], a)
  | cl :: cs =>
      match step cl a with
      | None => None
      | Some (r, a) => match steps cs a with None => None | Some (rs, a) => Some (r :: rs, a) end
      end
  end.

(** ** The simulation *)
Record simulates (s : ShardedLRUCache) (a : cache) : Prop := {
  si_count : length (shard_ s) = 16%nat;
  si_abstract : length (c_shards a) = 16%nat;
  si_each i c sh : shard_ s !! i = Some c -> c_shards a !! i = Some sh -> represents i c sh;
  si_last : last_id_ s = c_last a
}.

Lemma u32_bound z : 0 <= u32 z < 2 ^ 32.
Proof. by apply uwrap_range. Qed.

Lemma cache_round_range h w : 0 <= cache_round h w < 2 ^ 32.
Proof.
  unfold cache_round. set (x := u32 _). assert (0 <= x < 2 ^ 32) by apply u32_bound.
  apply lxor_range; [lia|done|]. rewrite Z.shiftr_div_pow2 by lia. split; [apply Z.div_pos; lia|].
  apply Z.div_lt_upper_bound; lia.
Qed.

Lemma cache_tail_range h l : 0 <= h < 2 ^ 32 -> 0 <= cache_tail h l < 2 ^ 32.
Proof.
  intros Hh. destruct l as [|b l]; [done|]. unfold cache_tail. set (x := u32 _). assert (0 <= x < 2 ^ 32) by apply u32_bound.
  apply lxor_range; [lia|done|]. rewrite Z.shiftr_div_pow2 by lia. split; [apply Z.div_pos; lia|].
  apply Z.div_lt_upper_bound; lia.
Qed.

Lemma cache_words_range n l h : (length l <= n)%nat -> 0 <= h < 2 ^ 32 -> 0 <= cache_words h l < 2 ^ 32.
Proof.
  revert l h. induction n as [|n IH]; intros l h Hn Hh; destruct l as [|b0 [|b1 [|b2 [|b3 l]]]]; cbn [cache_words];
    try (by apply cache_tail_range); simpl in Hn; try lia. apply IH; [lia|]. apply cache_round_range.
Qed.

Lemma place_range k : (place k < 16)%nat.
Proof.
  unfold place, Shard, HashSlice, cache_Hash. set (h := cache_words _ k).
  assert (Hh : 0 <= h < 2 ^ 32) by (eapply cache_words_range; [done|apply u32_bound]). change (32 - kNumShardBits) with 28.
  rewrite Z.shiftr_div_pow2 by lia. assert (h / 2 ^ 28 < 16) by (apply Z.div_lt_upper_bound; lia). lia.
Qed.

Lemma new_simulates capacity : simulates (NewLRUCache capacity) (cache_new capacity).
Proof.
  split; try done. intros i c sh Hc Hs. unfold NewLRUCache, cache_new in *. cbn [shard_ c_shards] in *.
  apply lookup_replicate in Hc as [-> _]. apply lookup_replicate in Hs as [-> _]. apply new_represents.
Qed.

Lemma simulates_get s a i : simulates s a -> (i < 16)%nat -> exists c sh, shard_ s !! i = Some c /\ c_shards a !! i = Some sh /\ represents i c sh.
Proof.
  intros Hsim Hi. assert (Hc : (i < length (shard_ s))%nat) by (by rewrite (si_count _ _ Hsim)). apply lookup_lt_is_Some in Hc as [c Hc].
  assert (Hs : (i < length (c_shards a))%nat) by (by rewrite (si_abstract _ _ Hsim)). apply lookup_lt_is_Some in Hs as [sh Hs].
  exists c, sh. split_and!; try done. by eapply si_each.
Qed.

Lemma simulates_set s a i c' sh' : simulates s a -> represents i c' sh' ->
  simulates (mkSharded (<[i := c']> (shard_ s)) (last_id_ s)) (mkAbstract (<[i := sh']> (c_shards a)) (c_last a)).
Proof.
  intros [H1 H2 H3 H4] Hrep. split; cbn [shard_ c_shards last_id_ c_last]; rewrite ?length_insert; try done.
  intros j c sh Hc Hs. apply list_lookup_insert_Some in Hc as [(<- & <- & Hj)|[Hne Hc]]; [|].
  - rewrite list_lookup_insert_eq in Hs by lia. by injection Hs as <-.
  - rewrite list_lookup_insert_ne in Hs by done. by apply H3.
Qed.

(** Running a method on one shard. *)
Lemma on_shard_sim {A} s a i (m : M LRUCache A) c sh r c' sh' : simulates s a -> shard_ s !! i = Some c -> c_shards a !! i = Some sh ->
  m c = Done (r, c') -> represents i c' sh' ->
  exists s', on_shard i m s = Done (r, s') /\ simulates s' (mkAbstract (<[i := sh']> (c_shards a)) (c_last a)).
Proof.
  intros Hsim Hc Hs E Hrep. eexists. unfold on_shard. rewrite Hc, E. split; [done|]. by apply simulates_set.
Qed.

Lemma on_shard_read s i c x e : shard_ s !! i = Some c -> heap c !! x = Some e -> on_shard i (entry_at x) s = Done (e, s).
Proof. intros Hc He. unfold on_shard, entry_at. rewrite Hc, He, list_insert_id by done. by destruct s. Qed.

Lemma pinned_item i c sh x : represents i c sh -> x ∈ s_pins sh ->
  exists it e, it ∈ s_busy sh ++ s_gone sh /\ it_id it = x /\ heap c !! x = Some e /\ Shard (hash e) = i.
Proof.
  intros Hrep Hx. apply (fa_held _ _ _ _ _ _ _ _ (cv_facts _ _ _ _ _ (rp_inv _ _ _ Hrep))) in Hx. rewrite <-ids_app in Hx.
  apply ids_elem in Hx as (it & Hit & Hid). assert (Hal : it ∈ alive sh) by (unfold alive; apply elem_of_app; by right).
  destruct (rp_data _ _ _ Hrep it Hal) as (e & He & Hd). exists it, e. rewrite <-Hid. split_and!; try done.
  rewrite <-(rp_shard _ _ _ Hrep it Hal). f_equal. unfold data, it_data in Hd. congruence.
Qed.

Lemma Release_sim s a i x sh' c sh : simulates s a -> shard_ s !! i = Some c -> c_shards a !! i = Some sh -> shard_release x sh = Some sh' ->
  exists s', Release (i, x) s = Done (tt, s') /\ simulates s' (mkAbstract (<[i := sh']> (c_shards a)) (c_last a)).
Proof.
  intros Hsim Hc Hs Hrel. pose proof (si_each _ _ Hsim i c sh Hc Hs) as Hrep.
  assert (Hx : x ∈ s_pins sh).
  { unfold shard_release in Hrel. destruct (unpin x (s_pins sh)) as [rest|] eqn:Hu; [|done]. rewrite (unpin_perm _ _ _ Hu). left. }
  destruct (pinned_item i c sh x Hrep Hx) as (it & e & _ & _ & He & Hi). unfold Release.
  rewrite (bind_Done _ _ _ _ _ (on_shard_read s i c x e Hc He)), bool_decide_eq_true_2 by done.
  destruct (Release_refines i c sh Hrep x sh' Hrel) as (c' & E & Hrep'). by eapply on_shard_sim.
Qed.

Lemma Value_sim s a i x it c sh : simulates s a -> shard_ s !! i = Some c -> c_shards a !! i = Some sh ->
  List.find (fun it => it_id it =? x) (s_busy sh ++ s_gone sh) = Some it -> Value (i, x) s = Done (it_value it, s).
Proof.
  intros Hsim Hc Hs Hf. pose proof (si_each _ _ Hsim i c sh Hc Hs) as Hrep. apply List.find_some in Hf as [Hit Hid].
  apply list_elem_of_In in Hit. apply Z.eqb_eq in Hid. subst x.
  destruct (rp_data _ _ _ Hrep it ltac:(unfold alive; apply elem_of_app; by right)) as (e & He & Hd). unfold Value.
  rewrite (bind_Done _ _ _ _ _ (on_shard_read s i c _ e Hc He)). unfold ret. unfold data, it_data in Hd. congruence.
Qed.

Lemma shard_call_sim s a cl i f c sh r sh' : simulates s a -> call_shard cl = Some (i, f) -> shard_ s !! i = Some c -> c_shards a !! i = Some sh ->
  f sh = Some (r, sh') -> exists s', do_call cl s = Done (r, s') /\ simulates s' (mkAbstract (<[i := sh']> (c_shards a)) (c_last a)).
Proof.
  intros Hsim Hcl Hc Hs Hf. pose proof (si_each _ _ Hsim i c sh Hc Hs) as Hrep.
  destruct cl as [k v chg del|k|[j x]|[j x]|k| | |]; try done; injection Hcl as <- <-; cbn [do_call].
  - destruct (insert_ok chg sh) eqn:Hok; [|done]. injection Hf as <- <-.
    destruct (Insert_refines (place k) c sh k v chg del Hrep eq_refl Hok) as (c' & E & Hrep').
    destruct (on_shard_sim s a _ _ _ _ _ _ _ Hsim Hc Hs E Hrep') as (s' & E' & Hsim'). exists s'. split; [|done].
    unfold Cache.Insert. fold (place k). unfold bind. by rewrite E'.
  - destruct (pins_ok sh) eqn:Hok; [|done]. injection Hf as <- <-.
    destruct (Lookup_refines (place k) c sh Hrep k Hok) as (c' & E & Hrep').
    destruct (on_shard_sim s a _ _ _ _ _ _ _ Hsim Hc Hs E Hrep') as (s' & E' & Hsim'). exists s'. split; [|done].
    unfold Cache.Lookup. fold (place k). unfold bind. rewrite E'. unfold ret. by destruct (fst (shard_lookup k sh)).
  - destruct (shard_release x sh) as [sh1|] eqn:Hrel; [|done]. injection Hf as <- <-.
    destruct (Release_sim s a _ _ _ _ _ Hsim Hc Hs Hrel) as (s' & E' & Hsim'). exists s'. split; [|done]. by rewrite (bind_Done _ _ _ _ _ E').
  - destruct (List.find _ _) as [it|] eqn:Hfi; [|done]. injection Hf as <- <-. exists s.
    rewrite (bind_Done _ _ _ _ _ (Value_sim s a _ _ _ _ _ Hsim Hc Hs Hfi)). split; [done|]. rewrite list_insert_id by done. by destruct a.
  - injection Hf as <- <-. destruct (Erase_refines (place k) c sh Hrep k) as (c' & E & Hrep').
    destruct (on_shard_sim s a _ _ _ _ _ _ _ Hsim Hc Hs E Hrep') as (s' & E' & Hsim'). exists s'. split; [|done].
    unfold Erase. fold (place k). by rewrite (bind_Done _ _ _ _ _ E').
Qed.

(** [Prune] goes through the shards in order. *)
Lemma prune_sim n i s a : simulates s a -> (i + n = 16)%nat ->
  exists s', prune_shards n i s = Done (tt, s') /\
    simulates s' (mkAbstract (take i (c_shards a) ++ map shard_prune (drop i (c_shards a))) (c_last a)).
Proof.
  revert i s a. induction n as [|n IH]; intros i s a Hsim Hin.
  - exists s. split; [done|]. rewrite drop_ge, take_ge by (rewrite (si_abstract _ _ Hsim); lia). cbn [map]. rewrite app_nil_r. by destruct a.
  - destruct (simulates_get s a i Hsim ltac:(lia)) as (c & sh & Hc & Hs & Hrep).
    destruct (Prune_refines i c sh Hrep) as (c' & E & Hrep'). destruct (on_shard_sim s a _ _ _ _ _ _ _ Hsim Hc Hs E Hrep') as (s1 & E1 & Hsim1).
    destruct (IH (S i) s1 _ Hsim1 ltac:(lia)) as (s2 & E2 & Hsim2). exists s2. cbn [prune_shards]. rewrite (bind_Done _ _ _ _ _ E1). split; [done|].
    cbn [c_shards c_last] in Hsim2. assert (Hi : (i < length (c_shards a))%nat) by (rewrite (si_abstract _ _ Hsim); lia).
    rewrite drop_insert_lt in Hsim2 by lia. rewrite (take_S_r _ i (shard_prune sh)) in Hsim2 by (by apply list_lookup_insert_eq).
    rewrite take_insert_ge in Hsim2 by lia. rewrite (drop_S _ _ _ Hs). cbn [map]. by rewrite <-(assoc_L (++)) in Hsim2.
Qed.

Lemma foldl_usage l l' n : Forall2 (fun c sh => usage_ c = charges (cached sh)) l l' ->
  foldl (fun t c => u64 (t + TotalCharge c)) n l = foldl (fun t sh => u64 (t + charges (cached sh))) n l'.
Proof.
  intros Hl. revert n. induction Hl as [|c sh l l' Hc _ IH]; intros n; [done|]. cbn [foldl]. unfold TotalCharge at 2. rewrite Hc. apply IH.
Qed.

Lemma step_sim s a cl r a' : simulates s a -> step cl a = Some (r, a') -> exists s', do_call cl s = Done (r, s') /\ simulates s' a'.
Proof.
  intros Hsim Hstep. unfold step in Hstep. destruct (call_shard cl) as [[i f]|] eqn:Hcl.
  - unfold at_shard in Hstep. destruct (c_shards a !! i) as [sh|] eqn:Hs; [|done]. destruct (f sh) as [[r1 sh']|] eqn:Hf; [|done].
    injection Hstep as <- <-. assert (Hi : (i < 16)%nat) by (rewrite <-(si_abstract _ _ Hsim); by eapply lookup_lt_Some).
    destruct (simulates_get s a i Hsim Hi) as (c & sh1 & Hc & Hs1 & _). rewrite Hs in Hs1. injection Hs1 as <-. by eapply shard_call_sim.
  - destruct cl as [| |[]|[]| | | |]; try done; injection Hstep as <- <-; cbn [do_call].
    + eexists. unfold NewId, bind, ret. rewrite (si_last _ _ Hsim). split; [done|]. destruct Hsim. by split.
    + destruct (prune_sim 16 0 s a Hsim eq_refl) as (s' & E & Hsim'). exists s'. unfold Prune. change (Z.to_nat kNumShards) with 16%nat.
      rewrite (bind_Done _ _ _ _ _ E). split; [done|]. by rewrite take_0, drop_0 in Hsim'.
    + exists s. unfold bind, get, ret, SumCharge. split; [|done]. do 3 f_equal. apply foldl_usage.
      apply Forall2_same_length_lookup. split; [by rewrite (si_count _ _ Hsim), (si_abstract _ _ Hsim)|].
      intros i c sh Hc Hs. eapply usage_total. by eapply si_each.
Qed.

Lemma steps_sim cs s a rs a' : simulates s a -> steps cs a = Some (rs, a') -> exists s', do_calls cs s = Done (rs, s') /\ simulates s' a'.
Proof.
  revert s a rs a'. induction cs as [|cl cs IH]; intros s a rs a' Hsim Hst; cbn [steps do_calls] in *; [injection Hst as <- <-; by exists s|].
  destruct (step cl a) as [[r a1]|] eqn:H1; [|done]. destruct (steps cs a1) as [[rs1 a2]|] eqn:H2; [|done]. injection Hst as <- <-.
  destruct (step_sim s a cl r a1 Hsim H1) as (s1 & E1 & Hsim1). destruct (IH s1 a1 rs1 a2 Hsim1 H2) as (s2 & E2 & Hsim2).
  exists s2. by rewrite (bind_Done _ _ _ _ _ E1), (bind_Done _ _ _ _ _ E2).
Qed.

(** ** Deletion *)
Lemma deleted_alive i c sh x : represents i c sh -> 2 <= x < s_next sh ->
  times_deleted (deleted c) x = if decide (x ∈ ids (alive sh)) then 0 else 1.
Proof.
  intros Hrep Hx. pose proof (cv_facts _ _ _ _ _ (rp_inv _ _ _ Hrep)) as Hf. pose proof (fa_deleted _ _ _ _ _ _ _ _ Hf x) as Hd.
  pose proof (fa_dom _ _ _ _ _ _ _ _ Hf x) as Hdom. rewrite <-!ids_app in Hdom. fold (alive sh) in Hdom.
  rewrite (rp_next _ _ _ Hrep) in Hd. rewrite (decide_True (P := 0 <= x < s_next sh)) in Hd by lia.
  rewrite !elem_of_cons in Hdom. unfold lru_addr, in_use_addr in Hdom.
  destruct (decide (is_Some _)) as [H|H]; rewrite Hdom in H; destruct (decide (x ∈ ids (alive sh))); try lia; naive_solver lia.
Qed.

Lemma delete_shards_sim n s a : simulates s a -> (n <= 16)%nat -> Forall (fun sh => s_pins sh = []) (c_shards a) ->
  exists s', delete_shards n s = Done (tt, s') /\ length (shard_ s') = 16%nat /\
    (forall i, (n <= i)%nat -> shard_ s' !! i = shard_ s !! i) /\
    forall i c sh x, (i < n)%nat -> shard_ s' !! i = Some c -> c_shards a !! i = Some sh ->
      next_loc c = s_next sh /\ times_deleted (deleted c) x = if decide (2 <= x < s_next sh) then 1 else 0.
Proof.
  intros Hsim Hn Hp. assert (Hgen : forall s0, length (shard_ s0) = 16%nat -> (forall i, (i < n)%nat -> shard_ s0 !! i = shard_ s !! i) ->
    exists s', delete_shards n s0 = Done (tt, s') /\ length (shard_ s') = 16%nat /\ (forall i, (n <= i)%nat -> shard_ s' !! i = shard_ s0 !! i) /\
    forall i c sh x, (i < n)%nat -> shard_ s' !! i = Some c -> c_shards a !! i = Some sh ->
      next_loc c = s_next sh /\ times_deleted (deleted c) x = if decide (2 <= x < s_next sh) then 1 else 0); [|apply Hgen; [by apply (si_count _ _ Hsim)|done]].
  induction n as [|n IH]; intros s0 Hlen Hsame; [exists s0; split_and!; [done|done|done|intros; lia]|].
  destruct (simulates_get s a n Hsim ltac:(lia)) as (c & sh & Hc & Hs & Hrep).
  destruct (delete_all n c sh Hrep (Forall_lookup_1 _ _ _ _ Hp Hs)) as (c' & E & Hnl & Hdel). cbn [delete_shards].
  rewrite <-(Hsame n) in Hc by lia. unfold bind, on_shard. rewrite Hc, E. set (s1 := mkSharded _ _).
  assert (Hl1 : length (shard_ s1) = 16%nat) by (unfold s1; cbn [shard_]; by rewrite length_insert).
  destruct (IH ltac:(lia) s1 Hl1) as (s' & E' & Hl' & Hge & Hlt).
  { intros i Hi. unfold s1. cbn [shard_]. rewrite list_lookup_insert_ne by lia. apply Hsame. lia. }
  exists s'. split_and!; try done.
  - intros i Hi. rewrite Hge by lia. unfold s1. cbn [shard_]. by rewrite list_lookup_insert_ne by lia.
  - intros i ci shi x Hi Hci Hshi. destruct (decide (i = n)) as [->|Hne]; [|apply (Hlt i ci shi x); [lia|done|done]].
    rewrite Hge in Hci by lia. unfold s1 in Hci. cbn [shard_] in Hci. rewrite list_lookup_insert_eq in Hci by (rewrite Hlen; lia).
    injection Hci as <-. assert (shi = sh) as -> by congruence. by split.
Qed.

(** ** What is held stays found *)
Definition leaves (k : list Z) (h : Handle) (cl : call) : Prop :=
  match cl with CInsert k' _ _ _ => k' <> k | CErase k' => k' <> k | CRelease h' => h' <> h | _ => True end.

Definition shard_busy (sh : shard) (k : list Z) (x v : Z) : Prop :=
  exists it, it ∈ s_busy sh /\ it_id it = x /\ it_key it = k /\ it_value it = v.

Lemma ids_inj l it it' : NoDup (ids l) -> it ∈ l -> it' ∈ l -> it_id it = it_id it' -> it = it'.
Proof.
  intros Hnd (i & Hi)%list_elem_of_lookup (j & Hj)%list_elem_of_lookup Heq. assert (i = j) as ->; [|congruence].
  apply (NoDup_lookup (ids l) i j (it_id it) Hnd); unfold ids; [|rewrite Heq]; by apply map_lookup_Some_2 || rewrite list_lookup_fmap, ?Hi, ?Hj.
Qed.

Lemma alive_nodup i c sh : represents i c sh -> NoDup (ids (alive sh)).
Proof.
  intros Hrep. pose proof (fa_nodup _ _ _ _ _ _ _ _ (cv_facts _ _ _ _ _ (rp_inv _ _ _ Hrep))) as [_ [_ Hnd]%NoDup_cons]%NoDup_cons.
  unfold alive. by rewrite !ids_app.
Qed.

Lemma erase_busy sh k k' x v : NoDup (ids (alive sh)) -> k' <> k -> shard_busy sh k x v -> shard_busy (shard_erase k' sh) k x v.
Proof.
  intros Hnd Hk (it & Hit & <- & <- & <-). unfold shard_erase. destruct (find_key k' (cached sh)) as [it'|] eqn:Hf; [|by exists it].
  destruct (find_key_some _ _ _ Hf) as [Hit' Hk']. exists it. cbn [s_busy]. rewrite drop_id_elem. split_and!; try done.
  intros Heq. assert (it = it') as ->; [|done]. apply (ids_inj (alive sh)); try done; [|by apply cached_alive].
  unfold alive. rewrite !elem_of_app. tauto.
Qed.

Lemma insert_busy sh k k' x v v' chg del : NoDup (ids (alive sh)) -> k' <> k -> shard_busy sh k x v ->
  shard_busy (snd (shard_insert k' v' chg del sh)) k x v.
Proof.
  intros Hnd Hk Hb. unfold shard_insert. cbn [snd]. destruct (0 <? s_cap sh); [|done].
  destruct (erase_busy sh k k' x v Hnd Hk Hb) as (it & Hit & ?). exists it. split; [|done]. cbn [s_busy shard_add]. apply elem_of_app. by left.
Qed.

Lemma insert_new_busy sh k v chg del : 0 < s_cap sh -> shard_busy (snd (shard_insert k v chg del sh)) k (fst (shard_insert k v chg del sh)) v.
Proof.
  intros Hc. unfold shard_insert. cbn [fst snd]. destruct (Z.ltb_spec 0 (s_cap sh)); [|lia].
  eexists. split; [cbn [s_busy shard_add]; apply elem_of_app; right; by apply list_elem_of_singleton|done].
Qed.

Lemma release_busy sh sh' k x x' v : x' <> x -> shard_release x' sh = Some sh' -> shard_busy sh k x v -> shard_busy sh' k x v.
Proof.
  intros Hx Hr (it & Hit & <- & ?). unfold shard_release in Hr. destruct (unpin x' (s_pins sh)) as [pins|]; [|done]. injection Hr as <-. exists it.
  destruct (decide (x' ∈ pins)); [done|]. destruct (decide (x' ∈ ids (s_busy sh))); [|done]. cbn [s_busy]. by rewrite drop_id_elem.
Qed.

Lemma lookup_busy sh k k' x v : shard_busy sh k x v -> shard_busy (snd (shard_lookup k' sh)) k x v.
Proof.
  intros (it & Hit & ?). unfold shard_lookup. destruct (find_key k' (cached sh)) as [it'|]; [|by exists it]. exists it. split; [|done].
  cbn [snd s_busy]. destruct (decide _); [apply elem_of_app; by left|done].
Qed.

Definition cache_busy (a : cache) (k : list Z) (x v : Z) : Prop := exists sh, c_shards a !! place k = Some sh /\ shard_busy sh k x v.

Lemma shard_call_busy cl i f sh r sh' k x v : call_shard cl = Some (i, f) -> f sh = Some (r, sh') -> i = place k -> leaves k (i, x) cl ->
  NoDup (ids (alive sh)) -> shard_busy sh k x v -> shard_busy sh' k x v.
Proof.
  intros Hcl Hf Hi Hl Hnd Hb. destruct cl as [k' v' chg del|k'|[j y]|[j y]|k'| | |]; try done; injection Hcl as <- <-; cbn [leaves] in Hl.
  - destruct (insert_ok chg sh); [|done]. injection Hf as <- <-. by apply insert_busy.
  - destruct (pins_ok sh); [|done]. injection Hf as <- <-. by apply lookup_busy.
  - destruct (shard_release y sh) as [sh1|] eqn:Hr; [|done]. injection Hf as <- <-. eapply release_busy; [|done|done]. by intros ->.
  - destruct (List.find _ _); [|done]. by injection Hf as <- <-.
  - injection Hf as <- <-. by apply erase_busy.
Qed.

Lemma step_busy s a cl r a' k x v : simulates s a -> step cl a = Some (r, a') -> leaves k (place k, x) cl -> cache_busy a k x v -> cache_busy a' k x v.
Proof.
  intros Hsim Hstep Hl (sh & Hsh & Hb). unfold step in Hstep. destruct (call_shard cl) as [[i f]|] eqn:Hcl.
  - unfold at_shard in Hstep. destruct (c_shards a !! i) as [shi|] eqn:Hs; [|done]. destruct (f shi) as [[r1 sh']|] eqn:Hf; [|done].
    injection Hstep as <- <-. unfold cache_busy. cbn [c_shards]. destruct (decide (i = place k)) as [->|Hne].
    + exists sh'. rewrite list_lookup_insert_eq by (by eapply lookup_lt_Some). split; [done|]. assert (shi = sh) as -> by congruence.
      eapply shard_call_busy; try done. destruct (simulates_get s a (place k) Hsim (place_range k)) as (c & sh1 & _ & Hs1 & Hrep).
      assert (sh1 = sh) as -> by congruence. by eapply alive_nodup.
    + exists sh. by rewrite list_lookup_insert_ne.
  - destruct cl as [| |[]|[]| | | |]; try done; injection Hstep as <- <-; [by exists sh| |by exists sh].
    exists (shard_prune sh). cbn [c_shards]. split; [|done]. change (map shard_prune (c_shards a)) with (shard_prune <$> c_shards a).
    by rewrite list_lookup_fmap, Hsh.
Qed.

Lemma steps_busy cs s a rs a' k x v : simulates s a -> steps cs a = Some (rs, a') -> Forall (leaves k (place k, x)) cs ->
  cache_busy a k x v -> cache_busy a' k x v.
Proof.
  revert s a rs. induction cs as [|cl cs IH]; intros s a rs Hsim Hst Hl Hb; cbn [steps] in Hst; [by injection Hst as <- <-|].
  destruct (step cl a) as [[r a1]|] eqn:H1; [|done]. destruct (steps cs a1) as [[rs1 a2]|] eqn:H2; [|done]. injection Hst as <- <-.
  apply Forall_cons in Hl as [Hl1 Hl]. destruct (step_sim s a cl r a1 Hsim H1) as (s1 & _ & Hsim1).
  apply (IH s1 a1 rs1 Hsim1 H2 Hl). exact (step_busy s a cl r a1 k x v Hsim H1 Hl1 Hb).
Qed.

(** A busy entry is what its key finds. *)
Lemma busy_found s a k x v r a' : simulates s a -> cache_busy a k x v -> step (CLookup k) a = Some (r, a') ->
  r = RFound (Some (place k, x)) /\ step (CValue (place k, x)) a' = Some (RNumber v, a').
Proof.
  intros Hsim (sh & Hsh & it & Hit & <- & Hk & <-) Hstep. destruct (simulates_get s a (place k) Hsim (place_range k)) as (c & sh1 & _ & Hs1 & Hrep).
  assert (sh1 = sh) as -> by congruence. unfold step in Hstep. cbn [call_shard] in Hstep. unfold at_shard in Hstep. rewrite Hsh in Hstep.
  cbv beta in Hstep.
  destruct (pins_ok sh); [|done]. apply (inj Some), pair_equal_spec in Hstep as [Hr Ha'].
  destruct (rp_data _ _ _ Hrep it) as (e & He & Hd); [unfold alive; rewrite !elem_of_app; tauto|]. unfold data, it_data in Hd.
  destruct (find_hit (place k) c sh Hrep k (it_id it) e) as (it' & Hf & Hid & _); [|done|split; congruence|].
  { rewrite <-ids_app. apply ids_elem. exists it. split; [apply elem_of_app; by right|done]. }
  unfold shard_lookup in Hr, Ha'. rewrite Hf in Hr, Ha'. cbn [fst snd] in Hr, Ha'. rewrite Hid in Hr, Ha'. split; [by rewrite <-Hr|].
  rewrite <-Ha'. unfold step. cbn [call_shard]. unfold at_shard. cbn [c_shards c_last].
  rewrite list_lookup_insert_eq by (by eapply lookup_lt_Some). cbn [s_busy s_gone]. set (l := (if decide _ then _ else _) ++ _).
  destruct (List.find _ l) as [y|] eqn:Hy.
  - apply List.find_some in Hy as [Hy Hyx]. apply list_elem_of_In in Hy. apply Z.eqb_eq in Hyx.
    assert (y = it) as ->; [|by rewrite list_insert_insert_eq].
    apply (ids_inj (alive sh)); [by eapply alive_nodup| | |done]; unfold alive; rewrite !elem_of_app; [|tauto].
    unfold l in Hy. rewrite elem_of_app in Hy. destruct (decide (it_id it ∈ ids (s_idle sh))) as [Hi|Hi]; [|tauto].
    destruct (find_key_some _ _ _ Hf) as [Hc _]. unfold cached in Hc. rewrite elem_of_app in Hc. rewrite elem_of_app, list_elem_of_singleton in Hy.
    destruct Hy as [[?| ->]|?]; tauto.
  - pose proof (List.find_none _ _ Hy it) as Hn. cbv beta in Hn. rewrite Z.eqb_refl in Hn. discriminate Hn. apply list_elem_of_In. unfold l.
    rewrite elem_of_app. left. destruct (decide _); [apply elem_of_app; by left|done].
Qed.

(** ** Sequences of calls *)
Lemma steps_app cs1 cs2 a rs1 a1 rs2 a2 : steps cs1 a = Some (rs1, a1) -> steps cs2 a1 = Some (rs2, a2) ->
  steps (cs1 ++ cs2) a = Some (rs1 ++ rs2, a2).
Proof.
  revert a rs1. induction cs1 as [|cl cs1 IH]; intros a rs1 H1 H2; cbn [steps app] in *; [by injection H1 as <- <-|].
  destruct (step cl a) as [[r b]|]; [|done]. destruct (steps cs1 b) as [[rs b1]|] eqn:Hs; [|done]. injection H1 as <- <-.
  by rewrite (IH b rs Hs H2).
Qed.

(** Shards keep their capacity. *)
Lemma shard_call_cap cl i f sh r sh' : call_shard cl = Some (i, f) -> f sh = Some (r, sh') -> s_cap sh' = s_cap sh.
Proof.
  intros Hcl Hf. destruct cl as [k v chg del|k|[j y]|[j y]|k| | |]; try done; injection Hcl as <- <-.
  - destruct (insert_ok chg sh); [|done]. injection Hf as <- <-. destruct (erase_same k sh) as (_ & Hc & _).
    unfold shard_insert. cbn [snd s_cap]. destruct (0 <? s_cap sh); [exact Hc|done].
  - destruct (pins_ok sh); [|done]. injection Hf as <- <-. unfold shard_lookup. by destruct (find_key k (cached sh)).
  - unfold shard_release in Hf. destruct (unpin y (s_pins sh)); [|done]. injection Hf as <- <-.
    destruct (decide _); [done|]. by destruct (decide _).
  - destruct (List.find _ _); [|done]. by injection Hf as <- <-.
  - injection Hf as <- <-. by destruct (erase_same k sh) as (_ & Hc & _).
Qed.

Lemma step_caps cl a r a' : step cl a = Some (r, a') -> s_cap <$> c_shards a' = s_cap <$> c_shards a.
Proof.
  intros Hstep. unfold step in Hstep. destruct (call_shard cl) as [[i f]|] eqn:Hcl.
  - unfold at_shard in Hstep. destruct (c_shards a !! i) as [sh|] eqn:Hs; [|done]. destruct (f sh) as [[r1 sh']|] eqn:Hf; [|done].
    injection Hstep as <- <-. cbn [c_shards]. rewrite list_fmap_insert, (shard_call_cap _ _ _ _ _ _ Hcl Hf).
    apply list_insert_id. by rewrite list_lookup_fmap, Hs.
  - destruct cl as [| |[]|[]| | | |]; try done; injection Hstep as <- <-; try done. cbn [c_shards].
    change (map shard_prune (c_shards a)) with (shard_prune <$> c_shards a). rewrite <-list_fmap_compose. by apply list_fmap_ext.
Qed.

Lemma steps_caps cs a rs a' : steps cs a = Some (rs, a') -> s_cap <$> c_shards a' = s_cap <$> c_shards a.
Proof.
  revert a rs. induction cs as [|cl cs IH]; intros a rs Hst; cbn [steps] in Hst; [by injection Hst as <- <-|].
  destruct (step cl a) as [[r b]|] eqn:H1; [|done]. destruct (steps cs b) as [[rs1 b1]|] eqn:H2; [|done]. injection Hst as <- <-.
  by rewrite (IH b rs1 H2), (step_caps _ _ _ _ H1).
Qed.

Lemma new_cap cs capacity rs a i sh : 0 < capacity <= 2 ^ 64 - 16 -> steps cs (cache_new capacity) = Some (rs, a) ->
  c_shards a !! i = Some sh -> 0 < s_cap sh.
Proof.
  intros Hcap Hst Hs. assert (Hc : (s_cap <$> c_shards a) !! i = Some (s_cap sh)) by (by rewrite list_lookup_fmap, Hs).
  rewrite (steps_caps _ _ _ _ Hst) in Hc. unfold cache_new in Hc. cbn [c_shards] in Hc. rewrite fmap_replicate in Hc.
  apply lookup_replicate in Hc as [-> _]. cbn [s_cap shard_new]. unfold u64. rewrite uwrap_small by lia.
  rewrite Z.quot_div_nonneg by lia. apply Z.div_str_pos. lia.
Qed.

(** The entry that an insertion returns is busy. *)
Lemma insert_cached a k v chg del h b : (forall sh, c_shards a !! place k = Some sh -> 0 < s_cap sh) ->
  step (CInsert k v chg del) a = Some (RHandle h, b) -> exists x, h = (place k, x) /\ cache_busy b k x v.
Proof.
  intros Hcap Hstep. unfold step in Hstep. cbn [call_shard] in Hstep. unfold at_shard in Hstep.
  destruct (c_shards a !! place k) as [sh|] eqn:Hs; [|done]. cbv beta in Hstep. destruct (insert_ok chg sh); [|done].
  apply (inj Some), pair_equal_spec in Hstep as [Hr Hb]. exists (fst (shard_insert k v chg del sh)). split; [congruence|]. rewrite <-Hb.
  exists (snd (shard_insert k v chg del sh)). cbn [c_shards]. rewrite list_lookup_insert_eq by (by eapply lookup_lt_Some).
  split; [done|]. apply insert_new_busy. by apply Hcap.
Qed.

(** ** The properties *)

(** C24. The cache implements the abstract cache: every sequence of calls that
    the abstract cache accepts is answered by the sharded cache, from its
    construction on, with the same replies.  No call touches a freed entry,
    follows a null pointer or loops.  In particular lookups find an entry by its
    key while it is cached, an insertion replaces the entry with its key and
    evicts unpinned entries, the least recently released first, while the shard
    exceeds its capacity. *)
Theorem cache_refines capacity cs rs a : steps cs (cache_new capacity) = Some (rs, a) ->
  exists s, do_calls cs (NewLRUCache capacity) = Done (rs, s).
Proof. intros Hst. destruct (steps_sim cs _ _ rs a (new_simulates capacity) Hst) as (s & E & _). by exists s. Qed.

(** Two entries fit in a shard; the keys are of shard 4.  The third insertion
    evicts [10], as [1] was looked up later. *)
Definition demo_calls : list call :=
  [CInsert [1] 101 1 7; CRelease (4%nat, 2); CInsert [10] 110 1 7; CRelease (4%nat, 3); CLookup [1]; CRelease (4%nat, 2);
   CInsert [19] 119 1 7; CLookup [10]; CLookup [1]; CValue (4%nat, 2); CErase [1]; CLookup [1]; CRelease (4%nat, 2); CTotalCharge; CNewId].

Definition demo_replies : list reply :=
  [RHandle (4%nat, 2); RNothing; RHandle (4%nat, 3); RNothing; RFound (Some (4%nat, 2)); RNothing;
   RHandle (4%nat, 4); RFound None; RFound (Some (4%nat, 2)); RNumber 101; RNothing; RFound None; RNothing; RNumber 1; RNumber 1].

Definition demo_cache : cache :=
  mkAbstract (<[4%nat := mkShard 2 [] [mkItem 4 119 7 1 [19]] [] [4] 5]> (replicate 16 (shard_new 2))) 1.

Lemma cache_refines_witness : exists s, do_calls demo_calls (NewLRUCache 32) = Done (demo_replies, s).
Proof. apply (cache_refines 32 demo_calls demo_replies demo_cache). reflexivity. Defined.

(** No entry is deleted twice or while it is cached or held, and none is
    leaked: in every shard the deleter has been called once for every entry that
    was inserted and is neither cached nor held, and never for the others; what
    clients hold is never deleted; and once nothing is held, the destructor of
    the cache leaves every entry deleted exactly once. *)
Theorem cache_deleted_once capacity cs rs a : steps cs (cache_new capacity) = Some (rs, a) ->
  exists s, do_calls cs (NewLRUCache capacity) = Done (rs, s) /\
    (forall i c sh x, shard_ s !! i = Some c -> c_shards a !! i = Some sh -> 2 <= x < next_loc c ->
       times_deleted (deleted c) x = (if decide (x ∈ ids (alive sh)) then 0 else 1) /\
       (x ∈ s_pins sh -> times_deleted (deleted c) x = 0)) /\
    (Forall (fun sh => s_pins sh = []) (c_shards a) ->
     exists s', ShardedLRUCache_delete s = Done (tt, s') /\
       forall i c x, shard_ s' !! i = Some c -> 2 <= x < next_loc c -> times_deleted (deleted c) x = 1).
Proof.
  intros Hst. destruct (steps_sim cs _ _ rs a (new_simulates capacity) Hst) as (s & E & Hsim). exists s. split_and!; [done| |].
  - intros i c sh x Hc Hs Hx. pose proof (si_each _ _ Hsim i c sh Hc Hs) as Hrep. rewrite (rp_next _ _ _ Hrep) in Hx.
    pose proof (deleted_alive i c sh x Hrep Hx) as Hd. split; [done|]. intros Hp.
    destruct (pinned_item i c sh x Hrep Hp) as (it & e & Hit & Hid & _). rewrite Hd, decide_True; [done|]. apply ids_elem. exists it.
    split; [unfold alive; apply elem_of_app; by right|done].
  - intros Hp. destruct (delete_shards_sim 16 s a Hsim ltac:(lia) Hp) as (s' & E' & Hl & _ & Hall). exists s'. split; [done|].
    intros i c x Hc Hx. assert (Hi : (i < 16)%nat) by (rewrite <-Hl; by eapply lookup_lt_Some).
    destruct (simulates_get s a i Hsim Hi) as (c0 & sh & _ & Hs & _). destruct (Hall i c sh x Hi Hc Hs) as [Hn Hd].
    rewrite Hd, decide_True; [done|lia].
Qed.

Definition demo_released : cache :=
  mkAbstract (<[4%nat := mkShard 2 [mkItem 4 119 7 1 [19]] [] [] [] 5]> (replicate 16 (shard_new 2))) 1.

Lemma demo_release : steps (demo_calls ++ [CRelease (4%nat, 4)]) (cache_new 32) = Some (demo_replies ++ [RNothing], demo_released).
Proof. reflexivity. Qed.

Lemma cache_deleted_once_witness : exists s, do_calls (demo_calls ++ [CRelease (4%nat, 4)]) (NewLRUCache 32) = Done (demo_replies ++ [RNothing], s) /\
  exists s', ShardedLRUCache_delete s = Done (tt, s') /\
    forall i c x, shard_ s' !! i = Some c -> 2 <= x < next_loc c -> times_deleted (deleted c) x = 1.
Proof.
  destruct (cache_deleted_once 32 _ _ _ demo_release) as (s & E & _ & Hdel).
  exists s. split; [exact E|]. apply Hdel. repeat constructor.
Defined.

(** What a client holds stays findable: after an insertion of [k] that
    returned [h], and calls that neither insert nor erase [k] nor release [h],
    whatever else they insert, evict or prune, a lookup of [k] returns [h], and
    its value is the inserted one. *)
Theorem cache_held_found capacity cs1 k v chg del cs2 rs1 rs2 h a1 a2 : 0 < capacity <= 2 ^ 64 - 16 ->
  steps cs1 (cache_new capacity) = Some (rs1, a1) -> steps (CInsert k v chg del :: cs2) a1 = Some (RHandle h :: rs2, a2) ->
  Forall (leaves k h) cs2 -> step (CLookup k) a2 <> None ->
  exists s, do_calls (cs1 ++ CInsert k v chg del :: cs2 ++ [CLookup k; CValue h]) (NewLRUCache capacity) =
    Done (rs1 ++ RHandle h :: rs2 ++ [RFound (Some h); RNumber v], s).
Proof.
  intros Hcap H1 H2 Hl Hp. destruct (steps_sim cs1 _ _ rs1 a1 (new_simulates capacity) H1) as (s1 & _ & Hsim1).
  pose proof H2 as Hins. cbn [steps] in Hins. destruct (step (CInsert k v chg del) a1) as [[r b]|] eqn:Hi; [|done].
  destruct (steps cs2 b) as [[rs b']|] eqn:Hs; [|done]. injection Hins as -> -> ->.
  destruct (step_sim s1 a1 _ _ _ Hsim1 Hi) as (s2 & _ & Hsim2). destruct (steps_sim cs2 s2 b rs2 a2 Hsim2 Hs) as (s3 & _ & Hsim3).
  destruct (insert_cached a1 k v chg del h b) as (x & -> & Hb); [|done|].
  { intros sh Hsh. exact (new_cap cs1 capacity rs1 a1 (place k) sh Hcap H1 Hsh). }
  pose proof (steps_busy cs2 s2 b rs2 a2 k x v Hsim2 Hs Hl Hb) as Hb2. destruct (step (CLookup k) a2) as [[r a3]|] eqn:Hlk; [|done].
  destruct (busy_found s3 a2 k x v r a3 Hsim3 Hb2 Hlk) as [-> Hv].
  assert (Hfin : steps [CLookup k; CValue (place k, x)] a2 = Some ([RFound (Some (place k, x)); RNumber v], a3)).
  { cbn [steps]. by rewrite Hlk, Hv. }
  pose proof (steps_app _ _ _ _ _ _ _ H1 (steps_app (CInsert k v chg del :: cs2) _ _ _ _ _ _ H2 Hfin)) as Hall.
  destruct (steps_sim _ _ _ _ _ (new_simulates capacity) Hall) as (s & E & _). by exists s.
Qed.

(** While the handle of [1] is held, the shard is filled, overfilled and pruned. *)
Lemma cache_held_found_witness : exists s,
  do_calls ([CNewId] ++ CInsert [1] 101 1 7 :: [CInsert [10] 110 1 7; CRelease (4%nat, 3); CInsert [19] 119 1 7; CPrune] ++ [CLookup [1]; CValue (4%nat, 2)])
    (NewLRUCache 32) =
  Done ([RNumber 1] ++ RHandle (4%nat, 2) :: [RHandle (4%nat, 3); RNothing; RHandle (4%nat, 4); RNothing] ++ [RFound (Some (4%nat, 2)); RNumber 101], s).
Proof.
  apply (cache_held_found 32 [CNewId] [1] 101 1 7 [CInsert [10] 110 1 7; CRelease (4%nat, 3); CInsert [19] 119 1 7; CPrune] [RNumber 1]
    [RHandle (4%nat, 3); RNothing; RHandle (4%nat, 4); RNothing] (4%nat, 2) (mkAbstract (replicate 16 (shard_new 2)) 1)
    (mkAbstract (<[4%nat := mkShard 2 [] [mkItem 2 101 7 1 [1]; mkItem 4 119 7 1 [19]] [] [4; 2] 5]> (replicate 16 (shard_new 2))) 1)).
  - lia.
  - reflexivity.
  - reflexivity.
  - repeat constructor; discriminate.
  - discriminate.
Defined.
