(* ===== verification/Rendezvous.v ===== *)
(** * The local rendezvous (src/tensorflow/core/framework/local_rendezvous.h,
    local_rendezvous.cc)

    A rendezvous matches sends and receives under the hash of a key.  Each key
    has a queue of [Item]s, linked through their [next] pointers, with [head]
    and [tail]; an item is a sent value or a waiting callback.  Items live in a
    store addressed by locations, as [new] and [delete] do.

    Every method does its work under the mutex and calls back afterwards.  The
    critical sections are the definitions here; what a thread still has to do
    after one is a list of [task]s.  The state [Sys] also holds the cancellation
    managers, the references that receives take on the owner, and the calls made
    to the clients' [done] closures.  The wait for the mutexes themselves is not
    modelled: a section runs as one step, and the nested section of the
    cancellation manager inside [RecvAsync] is part of it.

    [Tensor] is abstract.  The statistics counter of dead values and the
    reference an item holds on its device context, which lasts exactly as long
    as the item, carry no further state. *)
From S2P Require Import Prelude Coding Cancellation Hash.
From stdpp Require Import options.
#[local] Open Scope tf_monad_scope.

(** [Rendezvous::Args]; pointers are locations. *)
Record Args := mkArgs {
  device_context : option Z;
  alloc_attrs : Z;
  cancellation_manager : option Z
}.

Definition Args_new : Args := mkArgs None 0 None.

(** A waiter of an item: the client's [done] closure and, when [RecvAsync]
    wrapped it, the manager and token it deregisters before calling [done]. *)
Record Waiter := mkWaiter {
  w_done : Z;
  w_cancel : option (Z * Z)
}.

(** The order in which a [FlatMap] is traversed is not specified. *)
Record IterOrder := mkOrder {
  entries : forall A, gmap Z A -> list (Z * A);
  entries_perm : forall A m, entries A m ≡ₚ map_to_list m
}.

Definition some_order : IterOrder := mkOrder (fun A m => map_to_list m) (fun A m => Permutation_refl _).

Section rendezvous.
Context {Tensor : Type} (Tensor_new : Tensor).

(** The union in [Item], selected by its type. *)
Inductive ItemState :=
| kSend (value : Tensor) (is_dead : bool)
| kRecv (waiter : Waiter) (cancellation_token : Z).

Record Item := mkItem {
  args : Args;
  item_state : ItemState;
  item_next : option Z
}.

Record ItemQueue := mkQueue {
  q_head : option Z;
  q_tail : option Z
}.

Record Rdv := mkRdv {
  table_ : gmap Z ItemQueue;
  status_ : Status;
  items : gmap Z Item;
  next_item : Z
}.

Definition is_recv (st : ItemState) : bool :=
  match st with kSend _ _ => false | kRecv _ _ => true end.

Definition set_table (t : gmap Z ItemQueue) (r : Rdv) : Rdv := mkRdv t (status_ r) (items r) (next_item r).

Definition set_items (m : gmap Z Item) (r : Rdv) : Rdv := mkRdv (table_ r) (status_ r) m (next_item r).

Definition item_at (x : Z) : M Rdv Item := fun r =>
  match items r !! x with Some it => Done (it, r) | None => Crash end.

Definition set_queue (k : Z) (q : ItemQueue) : M Rdv unit := modify (fun r => set_table (<[k := q]> (table_ r)) r).

Definition erase (k : Z) : M Rdv unit := modify (fun r => set_table (delete k (table_ r)) r).

Definition set_next (x : Z) (n : option Z) : M Rdv unit :=
  it <~ item_at x;;
  modify (fun r => set_items (<[x := mkItem (args it) (item_state it) n]> (items r)) r).

(** [new Item] and [delete item]. *)
Definition new_item (a : Args) (st : ItemState) : M Rdv Z := fun r =>
  Done (next_item r, mkRdv (table_ r) (status_ r) (<[next_item r := mkItem a st None]> (items r)) (next_item r + 1)).

Definition delete_item (x : Z) : M Rdv unit :=
  _ <~ item_at x;;
  modify (fun r => set_items (delete x (items r)) r).

(** [&table_[key_hash]], which inserts an empty queue when there is none. *)
Definition table_entry (k : Z) : M Rdv ItemQueue :=
  r <~ get;;
  match table_ r !! k with
  | Some q => ret q
  | None => set_queue k (mkQueue None None);;; ret (mkQueue None None)
  end.

Definition push_back (k : Z) (q : ItemQueue) (item : Z) : M Rdv unit :=
  match q_head q with
  | None => set_queue k (mkQueue (Some item) (Some item))
  | Some _ =>
      match q_tail q with
      | None => crash
      | Some t => set_next t (Some item);;; set_queue k (mkQueue (q_head q) (Some item))
      end
  end.

(** [queue->head == nullptr || queue->head->type == ...]. *)
Definition empty_or (recv : bool) (q : ItemQueue) : M Rdv bool :=
  match q_head q with
  | None => ret true
  | Some x => it <~ item_at x;; ret (eqb (is_recv (item_state it)) recv)
  end.

(** Consuming the first item; the queue is deleted with its last element. *)
Definition pop_front (k : Z) (q : ItemQueue) : M Rdv Z :=
  match q_head q with
  | None => crash
  | Some x =>
      it <~ item_at x;;
      match item_next it with
      | None => erase k
      | Some n => set_queue k (mkQueue (Some n) (q_tail q))
      end;;;
      ret x
  end.

(** ** What threads do outside the mutex *)
Inductive task :=
| TSend (key : list Z) (a : Args) (v : Tensor) (dead : bool)
| TRecv (key : list Z) (a : Args) (done : Z)
| TAbort (st : Status)
| TStartCancel (c : Z)
| TCallback (token key_hash : Z)
| TCancelEnd (c : Z)
| TCancelNotify (c : Z)
| TInvoke (w : Waiter) (st : Status) (sa ra : Args) (v : Tensor) (dead : bool)
| TDone (d : Z) (st : Status) (sa ra : Args) (v : Tensor) (dead : bool)
| TUnref
| TDelete (x : Z).

(** A call of a client's [done] closure. *)
Record event := mkEvent {
  ev_done : Z;
  ev_status : Status;
  ev_send_args : Args;
  ev_recv_args : Args;
  ev_value : Tensor;
  ev_dead : bool
}.

Record Sys := mkSys {
  rdv : Rdv;
  cms : CMs (Z * Z);
  owner_refs : Z;
  calls : list event
}.

Definition on_rdv {A} (m : M Rdv A) : M Sys A := fun s =>
  match m (rdv s) with
  | Done (a, r) => Done (a, mkSys r (cms s) (owner_refs s) (calls s))
  | Crash => Crash
  | OutOfFuel => OutOfFuel
  end.

Definition on_cms {A} (m : M (CMs (Z * Z)) A) : M Sys A := fun s =>
  match m (cms s) with
  | Done (a, c) => Done (a, mkSys (rdv s) c (owner_refs s) (calls s))
  | Crash => Crash
  | OutOfFuel => OutOfFuel
  end.

(** Whether [rc_owner_] is set. *)
Variable rc_owner : bool.

Definition owner_Ref : M Sys unit :=
  modify (fun s => mkSys (rdv s) (cms s) (if rc_owner then owner_refs s + 1 else owner_refs s) (calls s)).

Definition unref : list task := if rc_owner then [TUnref] else [].

Definition KeyHash (k : list Z) : Z := Hash64 k.

(** [Send]: the status it returns and what it does after unlocking. *)
Definition Send (key : list Z) (send_args : Args) (val : Tensor) (is_dead : bool) : M Rdv (Status * list task) :=
  let key_hash := KeyHash key in
  r <~ get;;
  if negb (ok (status_ r)) then ret (status_ r, [])
  else
    queue <~ table_entry key_hash;;
    enqueue <~ empty_or false queue;;
    if (enqueue : bool) then
      item <~ new_item send_args (kSend val is_dead);;
      push_back key_hash queue item;;;
      ret (StatusOK, [])
    else
      item <~ pop_front key_hash queue;;
      it <~ item_at item;;
      match item_state it with
      | kSend _ _ => crash
      | kRecv waiter _ =>
          ret (StatusOK, [TInvoke waiter StatusOK send_args (args it) val is_dead; TDelete item])
      end.

Definition RecvAsync (key : list Z) (recv_args : Args) (done : Z) : M Sys (list task) :=
  let key_hash := KeyHash key in
  s <~ get;;
  if negb (ok (status_ (rdv s))) then
    ret [TDone done (status_ (rdv s)) Args_new recv_args Tensor_new false]
  else
    queue <~ on_rdv (table_entry key_hash);;
    enqueue <~ on_rdv (empty_or true queue);;
    if (enqueue : bool) then
      match cancellation_manager recv_args with
      | Some cm =>
          owner_Ref;;;
          token <~ on_cms (get_cancellation_token cm);;
          registered <~ on_cms (RegisterCallback cm token (token, key_hash));;
          if (registered : bool) then
            item <~ on_rdv (new_item recv_args (kRecv (mkWaiter done (Some (cm, token))) token));;
            on_rdv (push_back key_hash queue item);;;
            ret []
          else
            ret (unref ++ [TDone done (StatusError CANCELLED) Args_new recv_args Tensor_new false])
      | None =>
          item <~ on_rdv (new_item recv_args (kRecv (mkWaiter done None) kInvalidToken));;
          on_rdv (push_back key_hash queue item);;;
          ret []
      end
    else
      item <~ on_rdv (pop_front key_hash queue);;
      it <~ on_rdv (item_at item);;
      match item_state it with
      | kSend v dead => ret [TDone done StatusOK (args it) recv_args v dead; TDelete item]
      | kRecv _ _ => crash
      end.

(** Removing the item [x] after [prev] from the queue. *)
Definition unlink (k : Z) (q : ItemQueue) (prev : option Z) (x : Z) (it : Item) : M Rdv unit :=
  match q_head q with
  | None => crash
  | Some h =>
      hd <~ item_at h;;
      match item_next hd with
      | None => erase k
      | Some _ =>
          let tail := if bool_decide (q_tail q = Some x) then prev else q_tail q in
          if x =? h then set_queue k (mkQueue (item_next it) tail)
          else
            match prev with
            | None => crash
            | Some p => set_next p (item_next it);;; set_queue k (mkQueue (q_head q) tail)
            end
      end
  end.

(** The search of the cancellation callback for an item with its token. *)
Fixpoint cancel_search (fuel : nat) (k token : Z) (q : ItemQueue) (prev curr : option Z) : M Rdv (option Z) :=
  match curr with
  | None => ret None
  | Some x =>
      match fuel with
      | O => out_of_fuel
      | S fuel =>
          it <~ item_at x;;
          match item_state it with
          | kSend _ _ => crash
          | kRecv _ cancellation_token =>
              if cancellation_token =? token then unlink k q prev x it;;; ret (Some x)
              else cancel_search fuel k token q (Some x) (item_next it)
          end
      end
  end.

(** The critical section of the callback that [RecvAsync] registers. *)
Definition cancel_locked (token key_hash : Z) : M Rdv (option Z) :=
  queue <~ table_entry key_hash;;
  recvs <~ match q_head queue with
           | None => ret false
           | Some x => it <~ item_at x;; ret (is_recv (item_state it))
           end;;
  if (recvs : bool) then
    r <~ get;;
    cancel_search (size (items r)) key_hash token queue None (q_head queue)
  else ret None.

Definition CancelCallback (token key_hash : Z) : M Rdv (list task) :=
  found <~ cancel_locked token key_hash;;
  match found with
  | None => ret unref
  | Some item =>
      it <~ item_at item;;
      match item_state it with
      | kSend _ _ => crash
      | kRecv waiter _ =>
          ret ([TInvoke waiter (StatusError CANCELLED) Args_new (args it) Tensor_new false; TDelete item] ++ unref)
      end
  end.

(** The waiter of an item: a wrapped one deregisters its cancellation first. *)
Definition InvokeWaiter (w : Waiter) (st : Status) (sa ra : Args) (v : Tensor) (dead : bool) : M Sys (list task) :=
  match w_cancel w with
  | None => ret [TDone (w_done w) st sa ra v dead]
  | Some (cm, token) =>
      deregistered <~ on_cms (TryDeregisterCallback cm token);;
      ret ((if (deregistered : bool) then unref else []) ++ [TDone (w_done w) st sa ra v dead])
  end.

(** The items of a queue, from its head; a queue holds no more items than there are. *)
Fixpoint walk (fuel : nat) (curr : option Z) : M Rdv (list (Z * Item)) :=
  match curr with
  | None => ret []
  | Some x =>
      match fuel with
      | O => out_of_fuel
      | S fuel => it <~ item_at x;; rest <~ walk fuel (item_next it);; ret ((x, it) :: rest)
      end
  end.

Definition abort_item (status : Status) (x : Z * Item) : list task :=
  match item_state (x.2) with
  | kSend _ _ => [TDelete x.1]
  | kRecv waiter _ => [TInvoke waiter status Args_new Args_new Tensor_new false; TDelete x.1]
  end.

Fixpoint abort_queues (status : Status) (qs : list (Z * ItemQueue)) : M Rdv (list task) :=
  match qs with
  | [] => ret []
  | (_, q) :: qs =>
      r <~ get;;
      l <~ walk (size (items r)) (q_head q);;
      rest <~ abort_queues status qs;;
      ret (concat (map (abort_item status) l) ++ rest)
  end.

(** [StartAbort]; the items of the table it took are its own. *)
Definition StartAbort (o : IterOrder) (status : Status) : M Rdv (list task) :=
  CHECK (negb (ok status));;;
  r <~ get;;
  modify (fun r => mkRdv ∅ (if ok (status_ r) then status else status_ r) (items r) (next_item r));;;
  abort_queues status (entries o _ (table_ r)).

(** The destructor. *)
Definition LocalRendezvous_delete (o : IterOrder) : M Rdv (list task) :=
  r <~ get;;
  if bool_decide (table_ r = ∅) then ret [] else StartAbort o (StatusError CANCELLED).

(** ** One step of a thread *)
Definition run (o : IterOrder) (t : task) : M Sys (list task) :=
  match t with
  | TSend key a v dead => r <~ on_rdv (Send key a v dead);; ret r.2
  | TRecv key a done => RecvAsync key a done
  | TAbort st => on_rdv (StartAbort o st)
  | TStartCancel c =>
      started <~ on_cms (StartCancel_begin c);;
      match started with
      | None => ret []
      | Some (cbs, children, notify) =>
          ret (map (fun x => TCallback x.2.1 x.2.2) (entries o _ cbs) ++ map TStartCancel children
               ++ [TCancelEnd c] ++ (if (notify : bool) then [TCancelNotify c] else []))
      end
  | TCallback token k => on_rdv (CancelCallback token k)
  | TCancelEnd c => on_cms (StartCancel_end c);;; ret []
  | TCancelNotify c => on_cms (StartCancel_notify c);;; ret []
  | TInvoke w st sa ra v dead => InvokeWaiter w st sa ra v dead
  | TDone d st sa ra v dead =>
      modify (fun s => mkSys (rdv s) (cms s) (owner_refs s) (calls s ++ [mkEvent d st sa ra v dead]));;; ret []
  | TUnref => modify (fun s => mkSys (rdv s) (cms s) (owner_refs s - 1) (calls s));;; ret []
  | TDelete x => on_rdv (delete_item x);;; ret []
  end.

(** ** Threads *)
Record World := mkWorld {
  sys : Sys;
  threads : list (list task);
  next_done : Z
}.

Definition Rdv_new : Rdv := mkRdv ∅ StatusOK ∅ 0.

Definition World_new : World := mkWorld (mkSys Rdv_new ∅ 0 []) [] 0.

(** The calls that clients make. *)
Definition client_call (w : World) (t : task) : Prop :=
  match t with
  | TSend _ _ _ _ => True
  | TAbort st => ok st = false
  | TStartCancel c => is_Some (cms (sys w) !! c)
  | _ => False
  end.

(** A step of the world: a client starts a call in a thread of its own (each
    receive with a closure of its own, fewer than 2^63 in all), creates a
    cancellation manager, or some thread takes its next step. *)
Inductive step : World -> World -> Prop :=
| step_call w t : client_call w t ->
    step w (mkWorld (sys w) (threads w ++ [[t]]) (next_done w))
| step_recv w key a : next_done w < 2 ^ 63 - 1 ->
    (forall c, cancellation_manager a = Some c -> is_Some (cms (sys w) !! c)) ->
    step w (mkWorld (sys w) (threads w ++ [[TRecv key a (next_done w)]]) (next_done w + 1))
| step_manager w c : cms (sys w) !! c = None ->
    step w (mkWorld (mkSys (rdv (sys w)) (<[c := CM_new]> (cms (sys w))) (owner_refs (sys w)) (calls (sys w)))
              (threads w) (next_done w))
| step_run w i o t ts new s : threads w !! i = Some (t :: ts) -> run o t (sys w) = Done (new, s) ->
    step w (mkWorld s (<[i := new ++ ts]> (threads w)) (next_done w)).

Inductive reachable : World -> Prop :=
| reachable_new : reachable World_new
| reachable_step w w' : reachable w -> step w w' -> reachable w'.
End rendezvous.

#[global] Arguments ItemState Tensor : clear implicits.
#[global] Arguments Item Tensor : clear implicits.
#[global] Arguments Rdv Tensor : clear implicits.
#[global] Arguments Sys Tensor : clear implicits.
#[global] Arguments task Tensor : clear implicits.
#[global] Arguments event Tensor : clear implicits.
#[global] Arguments World Tensor : clear implicits.
