(* ===== verification/RendezvousInv.v ===== *)
(** * The local rendezvous: queues of items

    [rep r L] says that the linked queues of [r] hold the items [L !! k], in
    that order, under each key [k].  The lemmas show what the operations on
    queues do to [L]; they change the [next] pointers of items but not their
    contents. *)
From S2P Require Import Prelude Coding Cancellation Hash Counting Rendezvous.
From stdpp Require Import options.
#[local] Open Scope tf_monad_scope.

Section queue.
Context {Tensor : Type} (Tensor_new : Tensor).
Implicit Types (r : Rdv Tensor) (L : gmap Z (list Z)) (q : ItemQueue) (l : list Z).

(** An item without its pointer. *)
Definition content (it : Item Tensor) : Args * ItemState Tensor := (args it, item_state it).

Definition item_contents r : gmap Z (Args * ItemState Tensor) := content <$> items r.

(** The [next] pointers lead from [h] through [l] to [e]. *)
Fixpoint lseg (m : gmap Z (Item Tensor)) (h : option Z) (l : list Z) (e : option Z) : Prop :=
  match l with
  | [] => h = e
  | x :: l => h = Some x /\ exists it, m !! x = Some it /\ lseg m (item_next it) l e
  end.

Definition q_rep (m : gmap Z (Item Tensor)) (q : ItemQueue) (l : list Z) : Prop :=
  lseg m (q_head q) l None /\ (l <> [] -> q_tail q = last l).

(** Items of a queue are all sent values or all waiters. *)
Definition same_kind r l : Prop :=
  forall x y cx cy, x ∈ l -> y ∈ l -> item_contents r !! x = Some cx -> item_contents r !! y = Some cy ->
    is_recv cx.2 = is_recv cy.2.

Record rep r L : Prop := {
  rep_dom k : is_Some (table_ r !! k) <-> is_Some (L !! k);
  rep_queue k q l : table_ r !! k = Some q -> L !! k = Some l -> q_rep (items r) q l;
  rep_once x : msum (occ x) L <= 1;
  rep_kind k l : L !! k = Some l -> same_kind r l;
  rep_fresh x : next_item r <= x -> items r !! x = None
}.

Lemma lseg_app m h l1 l2 e : lseg m h (l1 ++ l2) e <-> exists mid, lseg m h l1 mid /\ lseg m mid l2 e.
Proof.
  revert h. induction l1 as [|x l1 IH]; intros h; simpl.
  - split; [by exists h|by intros (mid & -> & ?)].
  - setoid_rewrite IH. naive_solver.
Qed.

Lemma lseg_ext m m' h l e : (forall x, x ∈ l -> m' !! x = m !! x) -> lseg m h l e -> lseg m' h l e.
Proof.
  revert h. induction l as [|x l IH]; intros h Hm; simpl; [done|]. intros (-> & it & Hx & Hl). split; [done|].
  exists it. rewrite Hm by left. split; [done|]. apply IH; [|done]. intros y Hy. apply Hm. by right.
Qed.

Lemma lseg_insert m x it h l e : x ∉ l -> lseg m h l e -> lseg (<[x := it]> m) h l e.
Proof. intros Hx. apply lseg_ext. intros y Hy. apply lookup_insert_ne. by intros ->. Qed.

Lemma lseg_elem m h l e x : lseg m h l e -> x ∈ l -> is_Some (m !! x).
Proof.
  revert h. induction l as [|y l IH]; intros h; [by intros _ ?%not_elem_of_nil|].
  simpl. intros (_ & it & Hy & Hl) [->|Hx]%elem_of_cons; [by eexists|by eapply IH].
Qed.

Lemma contents_lookup r x it : items r !! x = Some it -> item_contents r !! x = Some (content it).
Proof. intros Hx. unfold item_contents. by rewrite lookup_fmap, Hx. Qed.

Lemma contents_lookup_inv r x c : item_contents r !! x = Some c -> exists it, items r !! x = Some it /\ content it = c.
Proof. unfold item_contents. rewrite lookup_fmap. by intros (it & -> & ?)%fmap_Some; eauto. Qed.

Section rep.
Context r L (Hrep : rep r L).

Lemma rep_NoDup k l : L !! k = Some l -> NoDup l.
Proof using Hrep.
  intros Hk. apply occ_NoDup. intros x. pose proof (msum_lookup (occ x) L k l (occ_nonneg x) Hk).
  pose proof (rep_once _ _ Hrep x). lia.
Qed.

Lemma rep_elem k l x : L !! k = Some l -> x ∈ l -> is_Some (item_contents r !! x).
Proof using Hrep.
  intros Hk Hx. destruct (proj2 (rep_dom _ _ Hrep k) ltac:(eauto)) as [q Hq].
  destruct (rep_queue _ _ Hrep k q l Hq Hk) as [Hc _].
  destruct (lseg_elem _ _ _ _ _ Hc Hx) as [it Hit]. rewrite (contents_lookup _ _ _ Hit). by eexists.
Qed.

Lemma rep_other k k' l l' x : L !! k = Some l -> L !! k' = Some l' -> x ∈ l -> x ∈ l' -> k = k'.
Proof using Hrep.
  intros Hk Hk' Hx Hx'. destruct (decide (k = k')) as [|Hne]; [done|exfalso].
  pose proof (rep_once _ _ Hrep x) as Ho. rewrite (msum_delete _ L k l Hk) in Ho.
  pose proof (msum_lookup (occ x) (delete k L) k' l' (occ_nonneg x)) as Hl.
  rewrite lookup_delete_ne in Hl by done. specialize (Hl Hk').
  apply occ_elem in Hx, Hx'. lia.
Qed.
End rep.

(** Rebuilding [rep] after a change at one key. *)
Lemma rep_update r r' L k q l :
  rep r L -> table_ r' = <[k := q]> (table_ r) -> next_item r <= next_item r' ->
  (forall x, next_item r' <= x -> items r' !! x = None) ->
  (forall k' l' x, k' <> k -> L !! k' = Some l' -> x ∈ l' -> items r' !! x = items r !! x) ->
  q_rep (items r') q l -> same_kind r' l ->
  (forall x, zsum (occ x) l <= zsum (occ x) (default [] (L !! k)) + (if decide (next_item r <= x) then 1 else 0)) ->
  rep r' (<[k := l]> L).
Proof.
  intros Hrep Ht Hn Hf Hsame Hq Hk Hocc. split.
  - intros k'. rewrite Ht. destruct (decide (k = k')) as [->|Hne].
    + rewrite !lookup_insert_eq. split; eauto.
    + rewrite !lookup_insert_ne by done. apply Hrep.
  - intros k' q' l'. rewrite Ht. destruct (decide (k = k')) as [->|Hne].
    + rewrite !lookup_insert_eq. by intros [= <-] [= <-].
    + rewrite !lookup_insert_ne by done. intros Hq' Hl'.
      destruct (rep_queue _ _ Hrep k' q' l' Hq' Hl') as [H1 H2]. split; [|done].
      eapply lseg_ext; [|exact H1]. intros x Hx. by apply (Hsame k' l').
  - intros x. rewrite msum_insert. specialize (Hocc x). pose proof (rep_once _ _ Hrep x).
    destruct (decide (next_item r <= x)) as [Hx|]; [|lia].
    assert (msum (occ x) L = 0); [|lia]. apply msum_0. intros k' l' y Hl' Hy. apply occ_other. intros ->.
    destruct (rep_elem _ _ Hrep k' l' x Hl' Hy) as [c Hc].
    apply contents_lookup_inv in Hc as (it & Hit & _). by rewrite (rep_fresh _ _ Hrep) in Hit.
  - intros k' l' Hl'. destruct (decide (k = k')) as [->|Hne].
    + rewrite lookup_insert_eq in Hl'. by injection Hl' as <-.
    + rewrite lookup_insert_ne in Hl' by done. intros x y cx cy Hx Hy Hcx Hcy.
      apply (rep_kind _ _ Hrep k' l' Hl' x y cx cy Hx Hy).
      * unfold item_contents in *. rewrite lookup_fmap in *. by rewrite <-(Hsame k' l' x).
      * unfold item_contents in *. rewrite lookup_fmap in *. by rewrite <-(Hsame k' l' y).
  - done.
Qed.

Lemma rep_erase r L k : rep r L -> rep (set_table (delete k (table_ r)) r) (delete k L).
Proof.
  intros [H1 H2 H3 H4 H5]. split.
  - intros k'. simpl. destruct (decide (k = k')) as [->|Hne].
    + rewrite !lookup_delete_eq. by split; intros [? ?].
    + by rewrite !lookup_delete_ne.
  - intros k' q' l' Hq Hl. simpl in *. apply lookup_delete_Some in Hq as [_ Hq]. apply lookup_delete_Some in Hl as [_ Hl].
    by apply (H2 k').
  - intros x. rewrite msum_delete_default. specialize (H3 x).
    pose proof (zsum_nonneg (occ x) (default [] (L !! k)) (occ_nonneg x)). lia.
  - intros k' l' Hl. apply lookup_delete_Some in Hl as [_ Hl]. by apply (H4 k').
  - done.
Qed.

(** ** [table_[key_hash]] *)
Lemma table_entry_spec r L k : rep r L ->
  exists q r', table_entry k r = Done (q, r') /\ rep r' (<[k := default [] (L !! k)]> L) /\
    table_ r' !! k = Some q /\ q_rep (items r') q (default [] (L !! k)) /\
    items r' = items r /\ status_ r' = status_ r /\ next_item r' = next_item r.
Proof.
  intros Hrep. unfold table_entry, bind at 1, get. destruct (table_ r !! k) as [q|] eqn:Hq.
  - destruct (proj1 (rep_dom _ _ Hrep k) ltac:(eauto)) as [l Hl]. rewrite Hl. simpl.
    exists q, r. rewrite insert_id by done. split_and!; try done. by apply Hrep with k.
  - destruct (L !! k) as [l|] eqn:Hl.
    { destruct (proj2 (rep_dom _ _ Hrep k) ltac:(eauto)) as [q Hq']. congruence. }
    unfold set_queue, bind, modify, ret. eexists _, _. split; [done|]. simpl.
    assert (Hqr : q_rep (items r) (mkQueue None None) []) by (split_and!; done).
    split_and!; try done; [|apply lookup_insert_eq].
    eapply (rep_update r _ L k (mkQueue None None) []); try done.
    + apply Hrep.
    + intros x y cx cy Hx. by apply not_elem_of_nil in Hx.
    + intros x. rewrite Hl. simpl. destruct (decide _); lia.
Qed.

Lemma empty_or_spec r q l b : q_rep (items r) q l ->
  exists e, empty_or b q r = Done (e, r) /\
    match l with
    | [] => e = true
    | x :: _ => exists c, item_contents r !! x = Some c /\ e = eqb (is_recv c.2) b
    end.
Proof.
  intros [Hc _]. unfold empty_or. destruct l as [|x l]; simpl in Hc; [rewrite Hc; by exists true|].
  destruct Hc as (-> & it & Hx & _). unfold bind, item_at. rewrite Hx.
  eexists. split; [done|]. exists (content it). split; [by apply contents_lookup|done].
Qed.

(** ** Appending a new item *)
Lemma q_rep_singleton m x it : m !! x = Some it -> item_next it = None -> q_rep m (mkQueue (Some x) (Some x)) [x].
Proof. intros Hx Hn. split; [|done]. split; [done|]. by exists it. Qed.

(** The last item is linked to the new one. *)
Lemma q_rep_snoc m q l t it x itx :
  q_rep m q l -> last l = Some t -> m !! t = Some it -> NoDup (l ++ [x]) -> item_next itx = None ->
  q_rep (<[t := mkItem (args it) (item_state it) (Some x)]> (<[x := itx]> m)) (mkQueue (q_head q) (Some x)) (l ++ [x]).
Proof.
  intros [Hc _] [l0 ->]%last_Some Hit Hnd Hnx. apply NoDup_app in Hnd as (Hnd & Hx & _).
  apply NoDup_app in Hnd as (_ & Ht & _). apply lseg_app in Hc as (mid & Hl0 & -> & it' & _).
  assert (Htx : t <> x).
  { intros ->. apply (Hx x); [apply elem_of_app; right|]; by apply list_elem_of_singleton. }
  split; [|intros _; simpl; by rewrite last_snoc]. simpl. rewrite <-(assoc_L (++)). apply lseg_app. exists (Some t). split.
  - apply lseg_insert; [|apply lseg_insert; [|done]].
    + intros Hin. apply (Ht t Hin). by apply list_elem_of_singleton.
    + intros Hin. apply (Hx x); [apply elem_of_app; by left|by apply list_elem_of_singleton].
  - simpl. split; [done|]. eexists. split; [apply lookup_insert_eq|]. split; [done|].
    exists itx. by rewrite lookup_insert_ne, lookup_insert_eq.
Qed.

Section push.
Context r L (Hrep : rep r L) (k : Z) q l (a : Args) (st : ItemState Tensor).
Hypothesis Hq : table_ r !! k = Some q.
Hypothesis Hl : L !! k = Some l.
Hypothesis Hkind : forall x c, x ∈ l -> item_contents r !! x = Some c -> is_recv c.2 = is_recv st.

Abbreviation x := (next_item r).

Lemma new_not_elem k' l' y : L !! k' = Some l' -> y ∈ l' -> y <> x.
Proof using Hrep.
  intros Hl' Hy ->. destruct (rep_elem _ _ Hrep k' l' x Hl' Hy) as [c Hcx].
  apply contents_lookup_inv in Hcx as (it & Hit & _). by rewrite (rep_fresh _ _ Hrep) in Hit.
Qed.

Lemma same_kind_snoc r' : item_contents r' = <[x := (a, st)]> (item_contents r) -> same_kind r' (l ++ [x]).
Proof using Hrep Hl Hkind.
  intros Hm. assert (Hone : forall y cy, y ∈ l ++ [x] -> item_contents r' !! y = Some cy -> is_recv cy.2 = is_recv st).
  { intros y cy Hy Hcy. rewrite Hm in Hcy. apply elem_of_app in Hy as [Hy|Hy%list_elem_of_singleton].
    - rewrite lookup_insert_ne in Hcy by (symmetry; by eapply new_not_elem). by eapply Hkind.
    - subst y. rewrite lookup_insert_eq in Hcy. by injection Hcy as <-. }
  intros y z cy cz Hy Hz Hcy Hcz. by rewrite (Hone y cy Hy Hcy), (Hone z cz Hz Hcz).
Qed.

(** Rebuilding [rep] once the new item is linked. *)
Lemma rep_push m q' : content <$> m = <[x := (a, st)]> (item_contents r) -> q_rep m q' (l ++ [x]) ->
  (forall y, y <> x -> y ∉ l -> m !! y = items r !! y) ->
  rep (mkRdv (<[k := q']> (table_ r)) (status_ r) m (x + 1)) (<[k := l ++ [x]]> L).
Proof using Hrep Hl Hkind.
  intros Hm Hqr Hsame. eapply (rep_update r _ L k q' (l ++ [x])); try done; simpl.
  - lia.
  - intros y Hy. rewrite Hsame; [apply (rep_fresh _ _ Hrep); lia|lia|].
    intros Hyl. destruct (rep_elem _ _ Hrep k l y Hl Hyl) as [c Hc].
    apply contents_lookup_inv in Hc as (it & Hit & _). rewrite (rep_fresh _ _ Hrep) in Hit; [done|lia].
  - intros k' l' y Hk' Hl' Hy. apply Hsame; [by eapply new_not_elem|]. intros Hyl.
    apply Hk'. by eapply (rep_other _ _ Hrep k' k l' l).
  - by apply same_kind_snoc.
  - intros y. rewrite Hl. simpl. rewrite zsum_app, zsum_cons. unfold zsum at 2. simpl.
    destruct (decide (y = x)) as [->|Hne]; [rewrite occ_self, decide_True by lia; lia|].
    rewrite occ_other by done. destruct (decide _); lia.
Qed.

Lemma push_new_spec :
  exists r', (y <~ new_item a st;; push_back k q y) r = Done (tt, r') /\
    rep r' (<[k := l ++ [x]]> L) /\
    item_contents r' = <[x := (a, st)]> (item_contents r) /\
    status_ r' = status_ r /\ next_item r' = x + 1.
Proof using Hrep Hq Hl Hkind.
  pose proof (rep_queue _ _ Hrep k q l Hq Hl) as Hqr. pose proof Hqr as (Hc & Ht).
  assert (Hx : items r !! x = None) by (by apply (rep_fresh _ _ Hrep)).
  unfold bind at 1, new_item, push_back. destruct (decide (l = [])) as [El|Hne].
  - assert (Hhd : q_head q = None) by (by rewrite El in Hc). rewrite Hhd. unfold set_queue, modify. eexists. split; [done|]. unfold item_contents. simpl. rewrite fmap_insert.
    split_and!; try done. eapply rep_push; simpl.
    + by rewrite fmap_insert.
    + rewrite El. eapply q_rep_singleton; [apply lookup_insert_eq|done].
    + intros y Hy _. by rewrite lookup_insert_ne.
  - assert (exists h0, q_head q = Some h0) as [h0 Hh0].
    { clear -Hc Hne. destruct l; [done|]. destruct Hc as [-> _]. by eexists. }
    rewrite Hh0, (Ht Hne). destruct (last l) as [t|] eqn:Hlast; [|by apply last_None in Hlast].
    assert (Htl : t ∈ l) by (apply last_Some in Hlast as [l0 ->]; apply elem_of_app; right; by apply list_elem_of_singleton).
    destruct (lseg_elem _ _ _ _ _ Hc Htl) as [it Hit].
    assert (Htx : t <> x) by (by eapply new_not_elem).
    unfold bind at 1, set_next, bind at 1, item_at. cbn [items]. rewrite lookup_insert_ne, Hit by done.
    unfold modify at 1, set_queue, modify. eexists. split; [done|].
    unfold item_contents. cbn [status_ next_item items table_ set_table set_items].
    assert (Hm : content <$> <[t := mkItem (args it) (item_state it) (Some x)]> (<[x := mkItem a st None]> (items r))
                 = <[x := (a, st)]> (item_contents r)).
    { unfold item_contents. rewrite !fmap_insert. change (content (mkItem a st None)) with (a, st).
      rewrite insert_insert_ne by done. f_equal. apply insert_id. by rewrite lookup_fmap, Hit. }
    split_and!; try done. eapply rep_push; try done.
    + rewrite <-Hh0. apply q_rep_snoc; try done. apply NoDup_app.
      split_and!; [by eapply rep_NoDup| |by apply NoDup_singleton].
      intros y Hy ->%list_elem_of_singleton. by eapply new_not_elem.
    + intros y Hyx Hyl. cbn [items set_items]. rewrite !lookup_insert_ne; [done..|]. by intros <-.
Qed.
End push.

(** ** Removing items *)

(** The queue of a key that has become [l]; an empty one is erased. *)
Definition put (k : Z) (l : list Z) (L : gmap Z (list Z)) : gmap Z (list Z) :=
  match l with [] => delete k L | _ => <[k := l]> L end.

Lemma msum_put f k l L : msum f (put k l L) = msum f L - zsum f (default [] (L !! k)) + zsum f l.
Proof. destruct l; [|apply msum_insert]. cbn [put]. rewrite msum_delete_default. change (zsum f []) with 0. lia. Qed.

Lemma q_rep_tail m q x it l : q_rep m q (x :: l) -> m !! x = Some it -> l <> [] ->
  q_rep m (mkQueue (item_next it) (q_tail q)) l.
Proof.
  intros [(_ & it' & Hx & Hc) Ht] Hit Hne. simplify_eq. split; [done|].
  intros _. simpl. rewrite Ht by done. by destruct l.
Qed.

Lemma same_kind_sub r l l' : same_kind r l -> (forall x, x ∈ l' -> x ∈ l) -> same_kind r l'.
Proof. intros Hs Hin x y cx cy Hx Hy. apply Hs; by apply Hin. Qed.

(** Replacing the queue of [k] by one with a part of its items. *)
Lemma rep_shrink r r' L k q l l0 : rep r L -> L !! k = Some l0 -> l <> [] ->
  table_ r' = <[k := q]> (table_ r) -> next_item r' = next_item r -> item_contents r' = item_contents r ->
  (forall x, x ∉ l0 -> items r' !! x = items r !! x) ->
  q_rep (items r') q l -> (forall x, zsum (occ x) l <= zsum (occ x) l0) -> rep r' (put k l L).
Proof.
  intros Hrep Hk Hne Ht Hn Hc Hsame Hq Hocc. destruct l as [|x l]; [done|]. cbn [put].
  assert (Hsub : forall y, y ∈ x :: l -> y ∈ l0).
  { intros y Hy%occ_elem. apply occ_elem. specialize (Hocc y). lia. }
  eapply (rep_update r r' L k q (x :: l)); try done.
  - lia.
  - intros y Hy. assert (Hnone : item_contents r' !! y = None).
    { rewrite Hc. unfold item_contents. rewrite lookup_fmap, (rep_fresh _ _ Hrep) by lia. done. }
    unfold item_contents in Hnone. rewrite lookup_fmap in Hnone. by destruct (items r' !! y).
  - intros k' l' y Hk' Hl' Hy. apply Hsame. intros Hy0. apply Hk'. by eapply (rep_other _ _ Hrep k' k).
  - intros y z cy cz Hy Hz. rewrite Hc.
    exact (same_kind_sub r l0 (x :: l) (rep_kind _ _ Hrep k l0 Hk) Hsub y z cy cz Hy Hz).
  - intros y. rewrite Hk. change (default [] (Some l0)) with l0. specialize (Hocc y). destruct (decide _); lia.
Qed.

Lemma pop_front_spec r L k q x l : rep r L -> table_ r !! k = Some q -> L !! k = Some (x :: l) ->
  exists r', pop_front k q r = Done (x, r') /\ rep r' (put k l L) /\
    items r' = items r /\ status_ r' = status_ r /\ next_item r' = next_item r.
Proof.
  intros Hrep Hq Hl. pose proof (rep_queue _ _ Hrep k q _ Hq Hl) as Hqr. pose proof Hqr as [(Hh & it & Hx & Hc) _].
  unfold pop_front. rewrite Hh. unfold bind at 1, item_at. rewrite Hx. destruct l as [|y l]; simpl in Hc.
  - rewrite Hc. unfold bind, erase, modify, ret. eexists. split; [done|]. split; [|done]. by apply rep_erase.
  - pose proof Hc as [Hy _]. rewrite Hy. unfold bind, set_queue, modify, ret. eexists. split; [done|]. split; [|done].
    eapply (rep_shrink r _ L k (mkQueue (Some y) (q_tail q)) (y :: l) (x :: y :: l)); try done.
    + rewrite <-Hy. by eapply q_rep_tail.
    + intros z. rewrite !zsum_cons. pose proof (occ_nonneg z x). lia.
Qed.

(** The item before the removed one is linked past it. *)
Lemma q_rep_unlink m q l1 p x l2 itp itx :
  q_rep m q ((l1 ++ [p]) ++ x :: l2) -> NoDup ((l1 ++ [p]) ++ x :: l2) -> m !! p = Some itp -> m !! x = Some itx ->
  q_rep (<[p := mkItem (args itp) (item_state itp) (item_next itx)]> m)
    (mkQueue (q_head q) (if bool_decide (q_tail q = Some x) then Some p else q_tail q)) ((l1 ++ [p]) ++ l2).
Proof.
  intros [Hc Ht] Hnd Hp Hx. specialize (Ht ltac:(by destruct l1)).
  rewrite <-(assoc_L (++)) in Hc, Hnd |- *. apply lseg_app in Hc as (mid & Hl1 & -> & it' & Hp' & Hn & it'' & Hx' & Hl2).
  simplify_eq. apply NoDup_app in Hnd as (_ & Hd1 & Hnd). apply NoDup_cons in Hnd as [Hp2 Hnd].
  apply NoDup_cons in Hnd as [Hx2 _]. split.
  - simpl. apply lseg_app. exists (Some p). split.
    + apply lseg_insert; [|done]. intros Hin. apply (Hd1 p Hin). left.
    + split; [done|]. eexists. split; [apply lookup_insert_eq|]. apply lseg_insert; [|done].
      intros Hin. apply Hp2. by right.
  - intros _. cbn [q_tail]. rewrite Ht, (assoc_L (++) l1 [p] l2). destruct l2 as [|y l2].
    + rewrite last_snoc, bool_decide_eq_true_2 by done. by rewrite app_nil_r, last_snoc.
    + change (x :: y :: l2) with ([x] ++ (y :: l2)). rewrite (assoc_L (++)), !last_app.
      destruct (last (y :: l2)) as [z|] eqn:E; [|by apply last_None in E].
      rewrite bool_decide_eq_false_2; [done|]. intros [= ->]. apply Hx2.
      apply last_Some in E as [l' ->]. apply elem_of_app. right. by apply list_elem_of_singleton.
Qed.
End queue.

(** * The local rendezvous: cancelling and aborting

    What the cancellation callback and [StartAbort] do to the queues. *)

Section ops.
Context {Tensor : Type} (Tensor_new : Tensor).
Implicit Types (r : Rdv Tensor) (L : gmap Z (list Z)) (q : ItemQueue) (l : list Z).

(** The token under which the item [x] can be cancelled. *)
Definition token_of r (x : Z) : option Z :=
  match item_contents r !! x with
  | Some (_, kRecv _ t) => Some t
  | _ => None
  end.

Definition waits r l : Prop := forall x, x ∈ l -> exists a w t, item_contents r !! x = Some (a, kRecv w t).

Lemma occ_remove (y x : Z) l1 l2 : zsum (occ y) (l1 ++ l2) <= zsum (occ y) (l1 ++ x :: l2).
Proof. rewrite !zsum_app, zsum_cons. pose proof (occ_nonneg y x). lia. Qed.

Lemma unlink_spec r L k q l1 x l2 it :
  rep r L -> table_ r !! k = Some q -> L !! k = Some (l1 ++ x :: l2) -> items r !! x = Some it ->
  exists r', unlink k q (last l1) x it r = Done (tt, r') /\ rep r' (put k (l1 ++ l2) L) /\
    item_contents r' = item_contents r /\ status_ r' = status_ r /\ next_item r' = next_item r.
Proof.
  intros Hrep Hq Hl Hx. pose proof (rep_queue _ _ Hrep k q _ Hq Hl) as Hqr.
  pose proof (rep_NoDup _ _ Hrep k _ Hl) as Hnd. pose proof Hqr as [Hc Ht]. unfold unlink.
  destruct l1 as [|h l1]; cbn [app] in *.
  - destruct Hc as (Hh & it' & Hx' & Hc). simplify_eq. rewrite Hh. unfold bind, item_at. rewrite Hx. cbn [last].
    destruct l2 as [|y l2].
    + simpl in Hc. rewrite Hc. unfold erase, modify. eexists. split; [done|]. split; [|done]. by apply rep_erase.
    + pose proof Hc as [Hy _]. rewrite Hy, Z.eqb_refl. unfold set_queue, modify. eexists. split; [done|]. split; [|done].
      assert (Htl : q_tail q <> Some x).
      { rewrite Ht by done. change (x :: y :: l2) with ([x] ++ y :: l2). rewrite last_app.
        destruct (last (y :: l2)) as [z|] eqn:E; [|by apply last_None in E]. intros [= ->].
        apply NoDup_cons in Hnd as [Hn _]. apply Hn. apply last_Some in E as [l' ->].
        apply elem_of_app. right. by apply list_elem_of_singleton. }
      rewrite bool_decide_eq_false_2 by done.
      eapply (rep_shrink r _ L k (mkQueue (Some y) (q_tail q)) (y :: l2) (x :: y :: l2)); try done.
      * rewrite <-Hy. by eapply q_rep_tail.
      * intros z. apply (occ_remove z x []).
  - destruct Hc as (Hh & ith & Hhh & Hc). rewrite Hh. unfold bind at 1, item_at at 1. rewrite Hhh.
    assert (exists n, item_next ith = Some n) as [n ->] by (destruct l1; destruct Hc as [-> _]; by eexists).
    destruct (exists_last (l := h :: l1) ltac:(done)) as (l0 & p & El).
    change (h :: l1 ++ x :: l2) with ((h :: l1) ++ x :: l2) in *. rewrite El in *. rewrite last_snoc.
    rewrite (proj2 (Z.eqb_neq _ _)).
    2: { intros ->. apply NoDup_app in Hnd as (_ & Hd & _). apply (Hd h); [rewrite <-El; left|left]. }
    assert (Hpx : p ∈ (l0 ++ [p]) ++ x :: l2).
    { apply elem_of_app. left. apply elem_of_app. right. by apply list_elem_of_singleton. }
    destruct (lseg_elem _ _ _ _ _ (proj1 Hqr) Hpx) as [itp Hp]. unfold bind at 1, set_next, bind at 1, item_at.
    rewrite Hp. unfold modify, set_queue, modify. eexists. split; [done|].
    assert (Hcont : content <$> <[p := mkItem (args itp) (item_state itp) (item_next it)]> (items r) = item_contents r).
    { rewrite fmap_insert. apply insert_id. unfold item_contents. by rewrite lookup_fmap, Hp. }
    split; [|done]. rewrite <-Hh.
    change (h :: l1 ++ l2) with ((h :: l1) ++ l2). rewrite El.
    eapply (rep_shrink r _ L k); try done.
    + by destruct l0.
    + intros z Hz. simpl. rewrite lookup_insert_ne; [done|]. intros <-. by apply Hz.
    + by apply q_rep_unlink.
    + intros z. apply occ_remove.
Qed.

Lemma cancel_search_spec r L k q token l2 : forall l1 fuel h,
  rep r L -> table_ r !! k = Some q -> L !! k = Some (l1 ++ l2) -> waits r l2 -> (length l2 <= fuel)%nat ->
  lseg (items r) h l2 None ->
  exists found r', cancel_search fuel k token q (last l1) h r = Done (found, r') /\
    item_contents r' = item_contents r /\ status_ r' = status_ r /\ next_item r' = next_item r /\
    match found with
    | None => r' = r /\ (forall x, x ∈ l2 -> token_of r x <> Some token)
    | Some x => exists m1 m2, l2 = m1 ++ x :: m2 /\ token_of r x = Some token /\
                  (forall y, y ∈ m1 -> token_of r y <> Some token) /\ rep r' (put k (l1 ++ m1 ++ m2) L)
    end.
Proof.
  induction l2 as [|x l2 IH]; intros l1 fuel h Hrep Hq Hl Hw Hf Hh.
  { simpl in Hh. subst h. exists None, r. destruct fuel; cbn [cancel_search]; split_and!; try done;
      by intros ? ?%not_elem_of_nil. }
  destruct fuel as [|fuel]; [simpl in Hf; lia|].
  destruct Hh as (-> & it & Hx & Hn). destruct (Hw x ltac:(left)) as (a & w & t & Hcx).
  pose proof (contents_lookup _ _ _ Hx) as Hcx'. rewrite Hcx in Hcx'. unfold content in Hcx'. injection Hcx' as _ Hst.
  assert (Htok : token_of r x = Some t) by (unfold token_of; by rewrite Hcx).
  cbn [cancel_search]. unfold bind at 1, item_at. rewrite Hx, <-Hst. destruct (Z.eqb_spec t token) as [->|Hne].
  - destruct (unlink_spec r L k q l1 x l2 it Hrep Hq Hl Hx) as (r' & E & Hrep' & Hc' & Hs' & Hn').
    exists (Some x), r'. rewrite (bind_Done _ _ _ _ _ E).
    split_and!; try done. exists [], l2. split_and!; try done. by intros y ?%not_elem_of_nil.
  - destruct (IH (l1 ++ [x]) fuel (item_next it)) as (found & r' & E & Hc' & Hs' & Hn' & Hres); try done.
    { by rewrite <-(assoc_L (++)). }
    { intros y Hy. apply Hw. by right. }
    { simpl in Hf. lia. }
    rewrite last_snoc in E. exists found, r'. split_and!; try done. destruct found as [y|].
    + destruct Hres as (m1 & m2 & -> & Hy & Hm1 & Hr'). exists (x :: m1), m2. split_and!; try done.
      * intros z [->|Hz]%elem_of_cons; [rewrite Htok; congruence|by apply Hm1].
      * by rewrite <-(assoc_L (++)) in Hr'.
    + destruct Hres as [-> Hall]. split; [done|]. intros z [->|Hz]%elem_of_cons; [rewrite Htok; congruence|by apply Hall].
Qed.

(** A queue is no longer than the number of items. *)
Lemma rep_length r L k l : rep r L -> L !! k = Some l -> (length l <= size (items r))%nat.
Proof.
  intros Hrep Hk. rewrite <-size_dom.
  rewrite <-(size_list_to_set (C := gset Z) l (rep_NoDup _ _ Hrep k l Hk)).
  apply subseteq_size. intros x Hx%elem_of_list_to_set. apply elem_of_dom.
  destruct (rep_elem _ _ Hrep k l x Hk Hx) as [c (it & Hit & _)%contents_lookup_inv]. by eexists.
Qed.

(** ** The cancellation callback *)
Lemma cancel_locked_spec r L token k : rep r L ->
  exists found r' L', cancel_locked token k r = Done (found, r') /\ rep r' L' /\
    item_contents r' = item_contents r /\ status_ r' = status_ r /\ next_item r' = next_item r /\
    let l := default [] (L !! k) in
    match found with
    | None => L' = <[k := l]> L /\ (forall x, x ∈ l -> token_of r x <> Some token)
    | Some x => exists m1 m2, l = m1 ++ x :: m2 /\ token_of r x = Some token /\
                  (forall y, y ∈ m1 -> token_of r y <> Some token) /\ L' = put k (m1 ++ m2) (<[k := l]> L)
    end.
Proof.
  intros Hrep. destruct (table_entry_spec r L k Hrep) as (q & r1 & E & Hrep1 & Hq & Hqr & Hi & Hs & Hn).
  set (l := default [] (L !! k)) in *. unfold cancel_locked. rewrite (bind_Done _ _ _ _ _ E).
  assert (Hc1 : item_contents r1 = item_contents r) by (unfold item_contents; by rewrite Hi).
  assert (Htok : forall x, token_of r1 x = token_of r x) by (intros; unfold token_of; by rewrite Hc1).
  assert (Hl1 : <[k := l]> L !! k = Some l) by apply lookup_insert_eq.
  destruct (empty_or_spec r1 q l true Hqr) as (e & Ee & He). pose proof Hqr as [Hc _].
  destruct l as [|x l0] eqn:El.
  - simpl in Hc. rewrite Hc. unfold bind at 1, ret at 1. exists None, r1, (<[k := []]> L).
    split_and!; try done. by intros ? ?%not_elem_of_nil.
  - pose proof Hc as (Hh & it & Hx & _). rewrite Hh. unfold bind at 1, bind at 1, item_at at 1. rewrite Hx.
    unfold ret at 1. destruct (is_recv (item_state it)) eqn:Er.
    + unfold bind at 1, get. rewrite <-Hh.
      assert (Hw : waits r1 (x :: l0)).
      { intros y Hy. destruct (rep_elem _ _ Hrep1 k _ y Hl1 Hy) as [[a st] Hcy].
        pose proof (rep_kind _ _ Hrep1 k _ Hl1 x y _ _ ltac:(left) Hy (contents_lookup _ _ _ Hx) Hcy) as Hk.
        simpl in Hk. rewrite Er in Hk. destruct st as [|w t]; [done|]. by exists a, w, t. }
      destruct (cancel_search_spec r1 (<[k := x :: l0]> L) k q token (x :: l0) [] (size (items r1)) (q_head q))
        as (found & r2 & E2 & Hc2 & Hs2 & Hn2 & Hres); try done; [by eapply rep_length|].
      cbn [last app] in E2. rewrite E2. destruct found as [y|].
      * destruct Hres as (m1 & m2 & Hm & Hty & Hm1 & Hrep2). exists (Some y), r2, (put k (m1 ++ m2) (<[k := x :: l0]> L)).
        split_and!; try congruence; try done. exists m1, m2. rewrite <-Htok. setoid_rewrite <-Htok. done.
      * destruct Hres as [-> Hall]. exists None, r1, (<[k := x :: l0]> L). split_and!; try done.
        intros y Hy. rewrite <-Htok. by apply Hall.
    + unfold ret. exists None, r1, (<[k := x :: l0]> L). split_and!; try done.
      intros y Hy Hty. rewrite <-Htok in Hty. unfold token_of in Hty.
      destruct (item_contents r1 !! y) as [[a st]|] eqn:Hcy; [|done].
      pose proof (rep_kind _ _ Hrep1 k _ Hl1 x y _ _ ltac:(left) Hy (contents_lookup _ _ _ Hx) Hcy) as Hk.
      simpl in Hk. rewrite Er in Hk. by destruct st.
Qed.

(** ** Aborting *)
Lemma walk_spec r l : forall fuel h, lseg (items r) h l None -> (length l <= fuel)%nat ->
  exists its, walk fuel h r = Done (its, r) /\ its.*1 = l /\ Forall (fun x => items r !! x.1 = Some x.2) its.
Proof.
  induction l as [|x l IH]; intros fuel h Hl Hf.
  - simpl in Hl. subst h. exists []. by destruct fuel.
  - destruct Hl as (-> & it & Hx & Hl). destruct fuel as [|fuel]; [simpl in Hf; lia|].
    destruct (IH fuel (item_next it) Hl ltac:(simpl in Hf; lia)) as (its & E & Hfst & Hall).
    exists ((x, it) :: its). cbn [walk]. unfold bind at 1, item_at. rewrite Hx, (bind_Done _ _ _ _ _ E).
    split; [done|]. split; [by rewrite fmap_cons, Hfst|by constructor].
Qed.

Lemma rep_clear r L st : rep r L -> rep (mkRdv ∅ st (items r) (next_item r)) ∅.
Proof.
  intros Hrep. split; simpl.
  - intros k. by rewrite !lookup_empty.
  - intros k q l Hq. by rewrite lookup_empty in Hq.
  - intros x. rewrite msum_empty. lia.
  - intros k l Hl. by rewrite lookup_empty in Hl.
  - apply Hrep.
Qed.
End ops.

(** * The local rendezvous: the invariant of the running system

    Every item is in exactly one queue or about to be deleted by one thread;
    every [done] closure has been called, is waiting in a queue, or is carried
    by one thread; and every reference taken on the owner belongs to a callback
    that is registered, about to run, or about to be dropped.  [effect]
    describes what an operation on the rendezvous does to these counts. *)

Section inv.
Context {Tensor : Type} (Tensor_new : Tensor) (rc_owner : bool).
Implicit Types (r : Rdv Tensor) (L : gmap Z (list Z)) (q : ItemQueue) (l : list Z) (t : task Tensor).

Abbreviation unref := (@unref Tensor rc_owner).

(** ** What is counted *)

(** The closures and waiters a task carries, and the item it deletes. *)
Definition t_done (d : Z) t : Z :=
  match t with
  | TRecv _ _ d' | TDone d' _ _ _ _ _ => occ d d'
  | TInvoke w _ _ _ _ _ => occ d (w_done w)
  | _ => 0
  end.

Definition t_waiter (f : Waiter -> Z) t : Z :=
  match t with TInvoke w _ _ _ _ _ => f w | _ => 0 end.

Definition t_del (x : Z) t : Z :=
  match t with TDelete y => occ x y | _ => 0 end.

Definition t_ref t : Z :=
  match t with TCallback _ _ | TUnref => 1 | _ => 0 end.

Definition t_recv t : Z :=
  match t with TRecv _ _ _ => 1 | _ => 0 end.

(** The waiter of an item. *)
Definition i_waiter (f : Waiter -> Z) r (x : Z) : Z :=
  match item_contents r !! x with Some (_, kRecv w _) => f w | _ => 0 end.

Definition present r (x : Z) : Z :=
  match item_contents r !! x with Some _ => 1 | None => 0 end.

Definition drained L : Prop := forall k l, L !! k = Some l -> l = [].

(** What [Send] and [StartAbort] leave to do. *)
Definition waiter_task t : Prop :=
  match t with TInvoke _ _ _ _ _ _ | TDelete _ => True | _ => False end.

Record effect r L r' L' (new : list (task Tensor)) (added : list Waiter) : Prop := {
  ef_rep : rep r' L';
  ef_items x : msum (occ x) L' + zsum (t_del x) new - present r' x = msum (occ x) L - present r x;
  ef_waiters f : msum (i_waiter f r') L' + zsum (t_waiter f) new = msum (i_waiter f r) L + zsum f added;
  ef_status : status_ r' = status_ r
}.

Lemma effect_refl r L : rep r L -> effect r L r L [] [].
Proof. intros Hrep. split; try done; intros; change (zsum _ []) with 0; lia. Qed.

Lemma effect_trans r L r1 L1 r2 L2 n1 n2 a1 a2 :
  effect r L r1 L1 n1 a1 -> effect r1 L1 r2 L2 n2 a2 -> effect r L r2 L2 (n1 ++ n2) (a1 ++ a2).
Proof.
  intros [H1 H2 H3 H4] [K1 K2 K3 K4]. split; [done| | |congruence].
  - intros x. specialize (H2 x). specialize (K2 x). rewrite zsum_app. lia.
  - intros f. specialize (H3 f). specialize (K3 f). rewrite !zsum_app. lia.
Qed.

Lemma same_contents r r' : item_contents r' = item_contents r ->
  (forall x, present r' x = present r x) /\ (forall f x, i_waiter f r' x = i_waiter f r x).
Proof. intros H. unfold present, i_waiter. by rewrite H. Qed.

Lemma effect_entry r L k : rep r L ->
  exists q r', table_entry k r = Done (q, r') /\ effect r L r' (<[k := default [] (L !! k)]> L) [] [] /\
    table_ r' !! k = Some q /\ q_rep (items r') q (default [] (L !! k)) /\ item_contents r' = item_contents r.
Proof.
  intros Hrep. destruct (table_entry_spec r L k Hrep) as (q & r' & E & Hrep' & Hq & Hqr & Hi & Hs & Hn).
  assert (Hc : item_contents r' = item_contents r) by (unfold item_contents; by rewrite Hi).
  destruct (same_contents r r' Hc) as [Hp Hw]. exists q, r'. split_and!; try done. split; try done.
  - intros x. rewrite msum_insert, Hp. change (zsum _ []) with 0. lia.
  - intros f. rewrite msum_insert, (msum_ext (i_waiter f r') (i_waiter f r)) by (intros; apply Hw).
    rewrite (zsum_ext (i_waiter f r') (i_waiter f r)) by (intros; apply Hw). change (zsum _ []) with 0.
    change (zsum f []) with 0. lia.
Qed.

(** Taking one item off its queue. *)
Lemma effect_remove r L r' k m1 x m2 a st new :
  rep r L -> L !! k = Some (m1 ++ x :: m2) -> rep r' (put k (m1 ++ m2) L) ->
  item_contents r' = item_contents r -> status_ r' = status_ r -> item_contents r !! x = Some (a, st) ->
  (forall y, zsum (t_del y) new = occ y x) ->
  (forall f, zsum (t_waiter f) new = match st with kRecv w _ => f w | kSend _ _ => 0 end) ->
  effect r L r' (put k (m1 ++ m2) L) new [].
Proof.
  intros Hrep Hk Hrep' Hc Hs Hx Hd Hw. destruct (same_contents r r' Hc) as [Hp Hi].
  assert (Hm : forall f, msum f (put k (m1 ++ m2) L) = msum f L - f x).
  { intros f. rewrite msum_put, Hk. change (default [] (Some (m1 ++ x :: m2))) with (m1 ++ x :: m2).
    rewrite !zsum_app, zsum_cons. lia. }
  split; try done.
  - intros y. rewrite Hm, Hp, Hd. lia.
  - intros f. rewrite (msum_ext (i_waiter f r') (i_waiter f r)) by (intros; apply Hi).
    rewrite Hm, Hw. change (zsum f []) with 0. unfold i_waiter at 2. rewrite Hx. destruct st; lia.
Qed.

(** Appending a new item. *)
Lemma effect_push r L k q l a st : rep r L -> table_ r !! k = Some q -> L !! k = Some l ->
  (forall x c, x ∈ l -> item_contents r !! x = Some c -> is_recv c.2 = is_recv st) ->
  exists r', (y <~ new_item a st;; push_back k q y) r = Done (tt, r') /\
    effect r L r' (<[k := l ++ [next_item r]]> L) [] (match st with kRecv w _ => [w] | kSend _ _ => [] end).
Proof.
  intros Hrep Hq Hl Hkind.
  destruct (push_new_spec r L Hrep k q l a st Hq Hl Hkind) as (r' & E & Hrep' & Hc & Hs & Hn).
  exists r'. split; [done|]. assert (Hx : item_contents r !! next_item r = None).
  { unfold item_contents. by rewrite lookup_fmap, (rep_fresh _ _ Hrep). }
  assert (Hm : forall f, msum f (<[k := l ++ [next_item r]]> L) = msum f L + f (next_item r)).
  { intros f. rewrite msum_insert, Hl. change (default [] (Some l)) with l. rewrite zsum_app, zsum_cons.
    change (zsum f []) with 0. lia. }
  split; try done.
  - intros y. rewrite Hm. change (zsum _ []) with 0. unfold present. rewrite Hc.
    destruct (decide (y = next_item r)) as [->|Hne]; [rewrite lookup_insert_eq, Hx, occ_self; lia|].
    rewrite lookup_insert_ne, occ_other by done. lia.
  - intros f. rewrite Hm. change (zsum (t_waiter f) []) with 0.
    rewrite (msum_ext (i_waiter f r') (i_waiter f r)).
    + unfold i_waiter at 2. rewrite Hc, lookup_insert_eq. destruct st; [change (zsum f []) with 0; lia|].
      rewrite zsum_cons. change (zsum f []) with 0. lia.
    + intros k' l' y Hl' Hy. unfold i_waiter. rewrite Hc. destruct (decide (y = next_item r)) as [->|Hne].
      * destruct (rep_elem _ _ Hrep k' l' _ Hl' Hy) as [c Hcy]. congruence.
      * by rewrite lookup_insert_ne.
Qed.

(** ** The operations *)
Lemma waiter_tasks_done new d : Forall waiter_task new ->
  zsum (t_done d) new = zsum (t_waiter (fun w => occ d (w_done w))) new.
Proof. intros H. apply zsum_ext. intros t Ht. rewrite Forall_forall in H. specialize (H t Ht). by destruct t. Qed.

Lemma waiter_tasks_0 new : Forall waiter_task new -> zsum t_ref new = 0 /\ zsum t_recv new = 0.
Proof.
  intros H. rewrite Forall_forall in H. split; apply zsum_0; intros t Ht; specialize (H t Ht); by destruct t.
Qed.

(** The kind of the items of a queue is that of its first one. *)
Lemma queue_kind r L k l x c : rep r L -> L !! k = Some l -> head l = Some x -> item_contents r !! x = Some c ->
  forall y cy, y ∈ l -> item_contents r !! y = Some cy -> is_recv cy.2 = is_recv c.2.
Proof.
  intros Hrep Hl Hh Hx y cy Hy Hcy. eapply (rep_kind _ _ Hrep k l Hl y x); try done.
  destruct l; [done|]. simplify_eq/=. left.
Qed.

(** The two cases of [Send] (with [b] false) and [RecvAsync] (true): a new item is
    appended, or the first item, of the other kind, is taken. *)
Lemma queue_cases r L k b : rep r L ->
  exists q r1 L1 e, table_entry k r = Done (q, r1) /\ empty_or b q r1 = Done (e, r1) /\ effect r L r1 L1 [] [] /\
    if (e : bool) then
      forall a st, is_recv st = b -> exists r2 L2, (y <~ new_item a st;; push_back k q y) r1 = Done (tt, r2) /\
        effect r L r2 L2 [] (match st with kRecv w _ => [w] | kSend _ _ => [] end)
    else
      exists x it r2 L2, pop_front k q r1 = Done (x, r2) /\ items r2 !! x = Some it /\
        is_recv (item_state it) = negb b /\
        forall new, (forall y, zsum (t_del y) new = occ y x) ->
          (forall f, zsum (t_waiter f) new = match item_state it with kRecv w _ => f w | kSend _ _ => 0 end) ->
          effect r L r2 L2 new [].
Proof.
  intros Hrep. destruct (effect_entry r L k Hrep) as (q & r1 & E & Hef & Hq & Hqr & Hc).
  set (l := default [] (L !! k)) in *. set (L1 := <[k := l]> L) in *.
  assert (Hl1 : L1 !! k = Some l) by apply lookup_insert_eq. pose proof (ef_rep _ _ _ _ _ _ Hef) as Hrep1.
  destruct (empty_or_spec r1 q l b Hqr) as (e & Ee & He). exists q, r1, L1, e. split_and!; try done. destruct e.
  - intros a st Hst. destruct (effect_push r1 L1 k q l a st Hrep1 Hq Hl1) as (r2 & E2 & Hef2).
    { intros x c Hx Hcx. destruct l as [|h l0]; [by apply not_elem_of_nil in Hx|].
      destruct He as (ch & Hch & Heq). symmetry in Heq. apply eqb_prop in Heq.
      by rewrite (queue_kind r1 L1 _ _ h ch Hrep1 Hl1 eq_refl Hch x c Hx Hcx), Heq. }
    eexists r2, _. split; [done|]. exact (effect_trans _ _ _ _ _ _ _ _ _ _ Hef Hef2).
  - destruct l as [|x l0]; [done|]. destruct He as ([ax stx] & Hx & Heq).
    destruct (pop_front_spec r1 L1 k q x l0 Hrep1 Hq Hl1) as (r2 & E2 & Hrep2 & Hi2 & Hs2 & _).
    assert (Hc2 : item_contents r2 = item_contents r1) by (unfold item_contents; by rewrite Hi2).
    pose proof Hx as Hx2. rewrite <-Hc2 in Hx2. apply contents_lookup_inv in Hx2 as (it & Hit & Hcit).
    unfold content in Hcit. injection Hcit as <- <-.
    exists x, it, r2, (put k l0 L1). split_and!; try done.
    { simpl in Heq. by destruct (is_recv (item_state it)), b. }
    intros new Hd Hw. apply (effect_trans _ _ _ _ _ _ [] new [] [] Hef).
    by apply (effect_remove r1 L1 r2 k [] x l0 (args it) (item_state it)).
Qed.

Lemma Send_effect r L key a v dead : rep r L ->
  exists st new r' L', Send key a v dead r = Done ((st, new), r') /\ effect r L r' L' new [] /\
    Forall waiter_task new /\ (ok (status_ r) = false -> L' = L) /\ st = status_ r.
Proof.
  intros Hrep. unfold Send, bind at 1, get. destruct (ok (status_ r)) eqn:Ok; cbn [negb].
  2: { exists (status_ r), [], r, L. split_and!; try done. by apply effect_refl. }
  assert (Hst : status_ r = StatusOK) by (by destruct (status_ r)). rewrite Hst.
  destruct (queue_cases r L (KeyHash key) false Hrep) as (q & r1 & L1 & e & E & Ee & Hef & He).
  rewrite (bind_Done _ _ _ _ _ E), (bind_Done _ _ _ _ _ Ee). destruct e.
  - destruct (He a (kSend v dead) eq_refl) as (r2 & L2 & E2 & Hef2).
    apply bind_inv in E2 as (x & r3 & E3 & E4). rewrite (bind_Done _ _ _ _ _ E3), (bind_Done _ _ _ _ _ E4).
    by exists StatusOK, [], r2, L2.
  - destruct He as (x & it & r2 & L2 & E2 & Hit & Hk & Hef2). rewrite (bind_Done _ _ _ _ _ E2).
    unfold bind at 1, item_at. rewrite Hit. destruct (item_state it) as [|w tok]; [done|].
    eexists _, _, r2, L2. split; [done|]. split_and!; try done; [|by repeat constructor].
    apply Hef2; intros; rewrite !zsum_cons; change (zsum _ []) with 0; cbn [t_del t_waiter]; lia.
Qed.

Lemma CancelCallback_effect r L token k : rep r L ->
  exists new r' L', CancelCallback Tensor_new rc_owner token k r = Done (new ++ unref, r') /\
    effect r L r' L' new [] /\ Forall waiter_task new /\ (drained L -> drained L').
Proof.
  intros Hrep. destruct (cancel_locked_spec r L token k Hrep) as (found & r' & L' & E & Hrep' & Hc & Hs & Hn & Hres).
  unfold CancelCallback. rewrite (bind_Done _ _ _ _ _ E). set (l := default [] (L !! k)) in *. cbv zeta in Hres.
  destruct (same_contents r r' Hc) as [Hp Hi]. destruct found as [x|].
  - destruct Hres as (m1 & m2 & Hl & Htok & Hm1 & ->).
    unfold token_of in Htok. destruct (item_contents r !! x) as [[a [|w t]]|] eqn:Hx; [done| |done].
    assert (Hx' := Hx). rewrite <-Hc in Hx'. apply contents_lookup_inv in Hx' as (it & Hit & Hcit).
    unfold content in Hcit. injection Hcit as <- Hst. unfold bind at 1, item_at. rewrite Hit, Hst.
    exists [TInvoke w (StatusError CANCELLED) Args_new (args it) Tensor_new false; TDelete x], r', (put k (m1 ++ m2) (<[k := l]> L)).
    destruct (effect_entry r L k Hrep) as (q0 & r0 & _ & Hef & _ & _ & Hc0). fold l in Hef.
    split_and!; [done| |by repeat constructor|].
    + apply (effect_trans r L r0 (<[k := l]> L) r' _ [] _ [] []); [done|].
      eapply (effect_remove r0 _ r' k m1 x m2 (args it) (kRecv w t)); try done.
      * apply Hef.
      * by rewrite lookup_insert_eq, Hl.
      * by rewrite Hc0.
      * rewrite Hs. symmetry. apply Hef.
      * by rewrite Hc0.
      * intros y. rewrite !zsum_cons. change (zsum _ []) with 0. cbn [t_del t_waiter]. lia.
      * intros f. rewrite !zsum_cons. change (zsum _ []) with 0. cbn [t_del t_waiter]. lia.
    + intros Hd. unfold l in Hl. destruct (L !! k) as [l0|] eqn:Hl0; [|by destruct m1].
      simpl in Hl. rewrite (Hd k l0 Hl0) in Hl. by destruct m1.
  - destruct Hres as [-> _]. exists [], r', (<[k := l]> L). split_and!; try done.
    + split; try done.
      * intros y. rewrite msum_insert, Hp. fold l. change (zsum _ []) with 0. lia.
      * intros f. rewrite msum_insert. rewrite (msum_ext (i_waiter f r') (i_waiter f r)) by (intros; apply Hi).
        fold l. change (zsum (t_waiter f) []) with 0. change (zsum f []) with 0. lia.
    + intros Hd k' l'. destruct (decide (k = k')) as [->|Hne].
      * rewrite lookup_insert_eq. intros [= <-]. unfold l. destruct (L !! k') eqn:Hl'; [by apply (Hd k')|done].
      * rewrite lookup_insert_ne by done. apply Hd.
Qed.

(** What [StartAbort] does with one item. *)
Definition abort_of r (st : Status) (x : Z) : list (task Tensor) :=
  match item_contents r !! x with
  | Some (_, kSend _ _) => [TDelete x]
  | Some (_, kRecv w _) => [TInvoke w st Args_new Args_new Tensor_new false; TDelete x]
  | None => []
  end.

Lemma abort_items_spec r st its : Forall (fun x => items r !! x.1 = Some x.2) its ->
  concat (map (abort_item Tensor_new st) its) = concat (map (abort_of r st) its.*1).
Proof.
  induction 1 as [|[x it] its Hx _ IH]; [done|]. cbn [map concat fmap list_fmap]. rewrite IH. f_equal.
  unfold abort_item, abort_of. simpl in *. by rewrite (contents_lookup _ _ _ Hx).
Qed.

Lemma waiter_task_abort r st x : Forall waiter_task (abort_of r st x).
Proof. unfold abort_of. destruct (item_contents r !! x) as [[a []]|]; by repeat constructor. Qed.

Lemma abort_queues_spec r L st qs :
  (forall k q, (k, q) ∈ qs -> exists l, L !! k = Some l /\ lseg (items r) (q_head q) l None /\ (length l <= size (items r))%nat) ->
  exists new, abort_queues Tensor_new st qs r = Done (new, r) /\ Forall waiter_task new /\
    forall g, zsum g new = zsum (fun kq => zsum (fun x => zsum g (abort_of r st x)) (default [] (L !! kq.1))) qs.
Proof.
  induction qs as [|[k q] qs IH]; intros Hqs.
  - exists []. by split_and!.
  - destruct (Hqs k q) as (l & Hl & Hseg & Hlen); [left|].
    destruct IH as (new & E & Hnew & Hsum); [intros k' q' Hin; apply Hqs; by right|].
    destruct (walk_spec r l (size (items r)) (q_head q) Hseg Hlen) as (its & Ew & Hfst & Hits).
    cbn [abort_queues]. unfold bind at 1, get. rewrite (bind_Done _ _ _ _ _ Ew), (bind_Done _ _ _ _ _ E).
    rewrite (abort_items_spec r st its Hits), Hfst. eexists. split; [done|]. split.
    + apply Forall_app. split; [|done]. clear. induction l as [|x l IH]; [constructor|].
      cbn [map concat]. apply Forall_app. split; [apply waiter_task_abort|done].
    + intros g. rewrite zsum_app, Hsum, zsum_cons, zsum_concat, zsum_map. cbn [fst]. by rewrite Hl.
Qed.

Lemma StartAbort_effect o r L st : rep r L -> ok st = false ->
  exists new r', StartAbort Tensor_new o st r = Done (new, r') /\ rep r' ∅ /\ Forall waiter_task new /\
    item_contents r' = item_contents r /\ ok (status_ r') = false /\
    (forall x, zsum (t_del x) new = msum (occ x) L) /\
    (forall f, zsum (t_waiter f) new = msum (i_waiter f r) L).
Proof.
  intros Hrep Hst. unfold StartAbort, CHECK, bind at 1. rewrite Hst. cbn [negb].
  unfold bind at 1, get. unfold bind at 1, modify.
  set (r1 := mkRdv ∅ (if ok (status_ r) then st else status_ r) (items r) (next_item r)).
  assert (Hrep1 : rep r1 ∅) by (eapply rep_clear; exact Hrep).
  pose proof (entries_perm o _ (table_ r)) as Hperm.
  destruct (abort_queues_spec r1 L st (entries o _ (table_ r))) as (new & E & Hnew & Hsum).
  { intros k q Hin. rewrite Hperm in Hin. apply elem_of_map_to_list in Hin.
    destruct (proj1 (rep_dom _ _ Hrep k) ltac:(by eexists)) as [l Hl]. exists l. split; [done|].
    split; [apply (rep_queue _ _ Hrep k q l Hin Hl)|by apply (rep_length r L k l)]. }
  assert (Hkeys : forall g, zsum g new = msum (fun x => zsum g (abort_of r st x)) L).
  { intros g. rewrite Hsum. rewrite (msum_keys _ L (table_ r) _ (rep_dom _ _ Hrep) Hperm). done. }
  exists new, r1. split_and!; try done.
  - simpl. destruct (ok (status_ r)) eqn:Ok; done.
  - intros y. rewrite Hkeys. apply msum_ext. intros k l x Hl Hx. unfold abort_of.
    destruct (rep_elem _ _ Hrep k l x Hl Hx) as [[a [|w t]] ->]; rewrite !zsum_cons; change (zsum _ []) with 0;
      cbn [t_del]; lia.
  - intros f. rewrite Hkeys. apply msum_ext. intros k l x Hl Hx. unfold abort_of, i_waiter.
    destruct (rep_elem _ _ Hrep k l x Hl Hx) as [[a [|w t]] ->]; rewrite !zsum_cons; change (zsum _ []) with 0;
      cbn [t_waiter]; lia.
Qed.

(** Deleting an item that is in no queue. *)
Lemma delete_effect r L x : rep r L -> msum (occ x) L = 0 -> present r x = 1 ->
  exists r', delete_item x r = Done (tt, r') /\ rep r' L /\ status_ r' = status_ r /\
    item_contents r' = delete x (item_contents r).
Proof.
  intros Hrep Hx Hp. unfold present in Hp.
  destruct (item_contents r !! x) as [c|] eqn:Hc; [|done]. apply contents_lookup_inv in Hc as (it & Hit & _).
  unfold delete_item, bind, item_at, modify. rewrite Hit. eexists. split; [done|].
  assert (Hnot : forall k l, L !! k = Some l -> x ∉ l).
  { intros k l Hl Hin%occ_elem. pose proof (msum_lookup (occ x) L k l (occ_nonneg x) Hl). lia. }
  assert (Hcd : item_contents (set_items (delete x (items r)) r) = delete x (item_contents r)).
  { unfold item_contents. simpl. by rewrite fmap_delete. }
  split_and!; [|done|done]. destruct Hrep as [H1 H2 H3 H4 H5]. split; try done; simpl.
  - intros k q l Hq Hl. destruct (H2 k q l Hq Hl) as [Hs Ht]. split; [|done]. eapply lseg_ext; [|exact Hs].
    intros y Hy. rewrite lookup_delete_ne; [done|]. intros ->. by eapply Hnot.
  - intros k l Hl y z cy cz Hy Hz Hcy Hcz. rewrite Hcd in Hcy, Hcz.
    apply lookup_delete_Some in Hcy as [_ Hcy]. apply lookup_delete_Some in Hcz as [_ Hcz]. exact (H4 k l Hl y z cy cz Hy Hz Hcy Hcz).
  - intros y Hy. apply lookup_delete_None. right. by apply H5.
Qed.
End inv.
