(* ===== verification/RendezvousSys.v ===== *)
(** * The local rendezvous: every step keeps the invariant

    [SInv] collects the counts of [RendezvousInv] for a whole state; [T] gives
    the total of a weight over the tasks of all threads.  Each lemma takes one
    task: it runs without aborting and the invariant holds again with the task
    replaced by what it left to do. *)
From S2P Require Import Prelude Coding Cancellation Hash Counting Rendezvous RendezvousInv.
From stdpp Require Import options.
#[local] Open Scope tf_monad_scope.

Section sys.
Context {Tensor : Type} (Tensor_new : Tensor) (rc_owner : bool).
Implicit Types (r : Rdv Tensor) (L : gmap Z (list Z)) (t : task Tensor) (s : Sys Tensor) (T : (task Tensor -> Z) -> Z).

Abbreviation unref := (@unref Tensor rc_owner).
Abbreviation CM := (CancellationManager (Z * Z)).

(** The callbacks of a manager, and whether it accepts more. *)
Definition cbs (m : CM) : gmap Z (Z * Z) :=
  match state_ m with Some st => callbacks st | None => ∅ end.

Definition active (m : CM) : bool := negb (is_cancelled_ m) && negb (is_cancelling_ m).

Definition registered (c : CMs (Z * Z)) : Z := gsum (fun m => Z.of_nat (size (cbs m))) c.

(** Counts the waiters wrapped with the manager and token [ct]. *)
Definition is_token (ct : Z * Z) (w : Waiter) : Z :=
  match w_cancel w with Some ct' => occ ct ct' | None => 0 end.

(** The waiters with the manager and token [ct] that are queued or about to be called. *)
Definition waiters s L T (ct : Z * Z) : Z :=
  msum (i_waiter (is_token ct) (rdv s)) L + T (t_waiter (is_token ct)).

(** A manager whose token [u] is used by [W u] waiters, while [pending] receives
    have not started and [n] were made. *)
Record cm_inv (n pending : Z) (m : CM) (W : Z -> Z) : Prop := {
  ci_tokens u : next_cancellation_token_ m <= u -> W u = 0;
  ci_active u : active m = true -> W u = if decide (is_Some (cbs m !! u)) then 1 else 0;
  ci_inactive : active m = false -> cbs m = ∅;
  ci_child st : state_ m = Some st -> first_child st = None;
  ci_bound : 0 <= next_cancellation_token_ m /\ next_cancellation_token_ m + pending <= n
}.

Record SInv s L T (n : Z) : Prop := {
  si_rep : rep (rdv s) L;
  si_drained : ok (status_ (rdv s)) = false -> drained L;
  si_items x : msum (occ x) L + T (t_del x) = present (rdv s) x;
  si_done d : zsum (fun e => occ d (ev_done e)) (calls s)
              + msum (i_waiter (fun w => occ d (w_done w)) (rdv s)) L + T (t_done d)
              = if decide (0 <= d < n) then 1 else 0;
  si_refs : owner_refs s = if rc_owner then registered (cms s) + T t_ref else 0;
  si_none c u : cms s !! c = None -> waiters s L T (c, u) = 0;
  si_cm c m : cms s !! c = Some m -> cm_inv n (T t_recv) m (fun u => waiters s L T (c, u))
}.

(** What a task needs of the managers it refers to. *)
Definition task_ok (c : CMs (Z * Z)) t : Prop :=
  match t with
  | TRecv _ a _ => forall x, cancellation_manager a = Some x -> is_Some (c !! x)
  | TAbort st => ok st = false
  | TStartCancel x => is_Some (c !! x)
  | TCancelEnd x => exists m, c !! x = Some m /\ active m = false
  | TCancelNotify x => exists m st, c !! x = Some m /\ state_ m = Some st
  | TUnref => rc_owner = true
  | _ => True
  end.

(** The totals after [t] is replaced by [new] in its thread. *)
Definition advance T t (new : list (task Tensor)) : (task Tensor -> Z) -> Z := fun f => T f - f t + zsum f new.

Definition nonneg (f : task Tensor -> Z) : Prop := forall t, 0 <= f t.

Lemma cm_inv_ext n p m W W' : (forall u, W' u = W u) -> cm_inv n p m W -> cm_inv n p m W'.
Proof. intros HW [H1 H2 H3 H4 H5]. split; try done; intros; rewrite HW; auto. Qed.

Lemma unref_0 : (forall f, zsum (t_waiter f) unref = 0) /\ (forall x, zsum (t_del x) unref = 0) /\
  (forall d, zsum (t_done d) unref = 0) /\ zsum t_recv unref = 0 /\
  zsum t_ref unref = if rc_owner then 1 else 0.
Proof. unfold Rendezvous.unref. by destruct rc_owner. Qed.

(** ** Operations on the rendezvous alone *)
Lemma SInv_effect s L T n t r' L' new extra :
  SInv s L T n -> effect (rdv s) L r' L' new [] -> Forall waiter_task new ->
  (ok (status_ (rdv s)) = false -> drained L -> drained L') ->
  (forall f, t_waiter f t = 0) -> (forall x, t_del x t = 0) -> (forall d, t_done d t = 0) -> t_recv t = 0 ->
  (forall f, zsum (t_waiter f) extra = 0) -> (forall x, zsum (t_del x) extra = 0) ->
  (forall d, zsum (t_done d) extra = 0) -> zsum t_recv extra = 0 ->
  (rc_owner = true -> zsum t_ref extra = t_ref t) ->
  SInv (mkSys r' (cms s) (owner_refs s) (calls s)) L' (advance T t (new ++ extra)) n.
Proof.
  intros [H1 H2 H3 H4 H5 H6 H7] [E1 E2 E3 E4] Hnew Hdr Tw Td To Tr Xw Xd Xo Xr Xf.
  destruct (waiter_tasks_0 new Hnew) as [N1 N2].
  assert (HW : forall ct, waiters (mkSys r' (cms s) (owner_refs s) (calls s)) L' (advance T t (new ++ extra)) ct
                          = waiters s L T ct).
  { intros ct. unfold waiters, advance. simpl. rewrite zsum_app, Tw, Xw. specialize (E3 (is_token ct)).
    change (zsum (is_token ct) []) with 0 in E3. lia. }
  assert (HR : advance T t (new ++ extra) t_recv = T t_recv).
  { unfold advance. rewrite zsum_app, N2, Xr, Tr. lia. }
  split; simpl.
  - done.
  - rewrite E4. intros Hs. by apply Hdr, H2.
  - intros x. unfold advance. rewrite zsum_app, Td, Xd. specialize (E2 x). specialize (H3 x). lia.
  - intros d. unfold advance. rewrite zsum_app, To, Xo, (waiter_tasks_done new d Hnew).
    specialize (E3 (fun w => occ d (w_done w))). specialize (H4 d). change (zsum _ []) with 0 in E3. lia.
  - rewrite H5. destruct rc_owner eqn:Er; [|done]. unfold advance. rewrite zsum_app, N1, Xf by done. lia.
  - intros c u Hc. rewrite HW. by apply H6.
  - intros c m Hc. rewrite HR. eapply cm_inv_ext; [|by apply H7]. intros u. apply HW.
Qed.

Definition runs (o : IterOrder) s L T n t : Prop :=
  exists new s' L', run Tensor_new rc_owner o t s = Done (new, s') /\ SInv s' L' (advance T t new) n /\
    Forall (task_ok (cms s')) new /\ (forall t', task_ok (cms s) t' -> task_ok (cms s') t').

Lemma waiter_tasks_ok c new : Forall (@waiter_task Tensor) new -> Forall (task_ok c) new.
Proof. intros H. eapply Forall_impl; [exact H|]. by intros []. Qed.

Lemma unref_ok c : Forall (task_ok c) unref.
Proof. unfold Rendezvous.unref. destruct rc_owner eqn:E; [|constructor]. constructor; [exact E|constructor]. Qed.

Lemma runs_send o s L T n key a v dead : SInv s L T n -> runs o s L T n (TSend key a v dead).
Proof.
  intros Hinv. destruct (Send_effect (rdv s) L key a v dead (si_rep _ _ _ _ Hinv)) as (st & new & r' & L' & E & Hef & Hnew & Hdr & _).
  exists new, (mkSys r' (cms s) (owner_refs s) (calls s)), L'. split_and!.
  - cbn [run]. unfold bind, on_rdv, ret. by rewrite E.
  - rewrite <-(app_nil_r new). eapply SInv_effect; try done. intros Hs Hd. by rewrite Hdr.
  - by apply waiter_tasks_ok.
  - done.
Qed.

Lemma runs_callback o s L T n token k : SInv s L T n -> runs o s L T n (TCallback token k).
Proof.
  intros Hinv. destruct (CancelCallback_effect Tensor_new rc_owner (rdv s) L token k (si_rep _ _ _ _ Hinv))
    as (new & r' & L' & E & Hef & Hnew & Hdr).
  destruct unref_0 as (U1 & U2 & U3 & U4 & U5).
  exists (new ++ unref), (mkSys r' (cms s) (owner_refs s) (calls s)), L'. split_and!.
  - cbn [run]. unfold on_rdv. by rewrite E.
  - eapply SInv_effect; try done. intros Hr. by rewrite U5, Hr.
  - apply Forall_app. split; [by apply waiter_tasks_ok|apply unref_ok].
  - done.
Qed.

Lemma runs_abort o s L T n st : SInv s L T n -> ok st = false -> runs o s L T n (TAbort st).
Proof.
  intros [H1 H2 H3 H4 H5 H6 H7] Hst.
  destruct (StartAbort_effect Tensor_new o (rdv s) L st H1 Hst) as (new & r' & E & Hrep & Hnew & Hc & Hs & Hd & Hw).
  destruct (same_contents _ _ Hc) as [Hp _]. destruct (waiter_tasks_0 new Hnew) as [N1 N2].
  set (s' := mkSys r' (cms s) (owner_refs s) (calls s)).
  assert (HW : forall ct, waiters s' ∅ (advance T (TAbort st) new) ct = waiters s L T ct).
  { intros ct. unfold waiters, advance. simpl. rewrite msum_empty, Hw. lia. }
  assert (HR : advance T (TAbort st) new t_recv = T t_recv) by (unfold advance; rewrite N2; simpl; lia).
  exists new, s', ∅. split_and!; [cbn [run]; unfold on_rdv; by rewrite E| |by apply waiter_tasks_ok|done].
  split; simpl.
  - done.
  - intros _ k l Hl. by rewrite lookup_empty in Hl.
  - intros x. unfold advance. rewrite msum_empty, Hd, Hp. simpl. specialize (H3 x). lia.
  - intros d. unfold advance. rewrite msum_empty, (waiter_tasks_done new d Hnew), Hw. simpl. specialize (H4 d). lia.
  - rewrite H5. destruct rc_owner; [|done]. unfold advance. rewrite N1. simpl. lia.
  - intros c u Hcm. rewrite HW. by apply H6.
  - intros c m Hcm. rewrite HR. eapply cm_inv_ext; [|by apply H7]. intros u. apply HW.
Qed.

Lemma runs_delete o s L T n x : SInv s L T n -> (forall f, nonneg f -> f (TDelete x) <= T f) ->
  runs o s L T n (TDelete x).
Proof.
  intros [H1 H2 H3 H4 H5 H6 H7] HT.
  assert (Hge : 1 <= T (t_del x)).
  { pose proof (HT (t_del x)) as H. simpl in H. rewrite occ_self in H. apply H.
    intros []; simpl; (apply occ_nonneg || lia). }
  assert (Hx : msum (occ x) L = 0 /\ present (rdv s) x = 1).
  { pose proof (msum_nonneg (occ x) L (occ_nonneg x)). specialize (H3 x).
    assert (present (rdv s) x <= 1) by (unfold present; destruct (item_contents (rdv s) !! x); lia). lia. }
  destruct Hx as [Hx0 Hx1]. destruct (delete_effect (rdv s) L x H1 Hx0 Hx1) as (r' & E & Hrep & Hs & Hc).
  set (s' := mkSys r' (cms s) (owner_refs s) (calls s)).
  assert (Hi : forall f, msum (i_waiter f r') L = msum (i_waiter f (rdv s)) L).
  { intros f. apply msum_ext. intros k l y Hl Hy. unfold i_waiter. rewrite Hc.
    rewrite lookup_delete_ne; [done|]. intros <-. apply occ_elem in Hy.
    pose proof (msum_lookup (occ x) L k l (occ_nonneg x) Hl). lia. }
  assert (HW : forall ct, waiters s' L (advance T (TDelete x) []) ct = waiters s L T ct).
  { intros ct. unfold waiters, advance. simpl. rewrite Hi. change (zsum _ []) with 0. lia. }
  assert (HR : advance T (TDelete x) [] t_recv = T t_recv) by (unfold advance; change (zsum _ []) with 0; simpl; lia).
  exists [], s', L. split_and!; [cbn [run]; unfold bind, on_rdv, ret; by rewrite E| |constructor|done].
  split; simpl.
  - done.
  - rewrite Hs. done.
  - intros y. unfold advance, present. rewrite Hc. change (zsum _ []) with 0. cbn [t_del].
    specialize (H3 y). unfold present in H3, Hx1. destruct (decide (y = x)) as [->|Hne].
    + rewrite lookup_delete_eq, occ_self. lia.
    + rewrite lookup_delete_ne by done. rewrite occ_other by done. lia.
  - intros d. unfold advance. rewrite Hi. change (zsum (t_done d) []) with 0. simpl. specialize (H4 d). lia.
  - rewrite H5. destruct rc_owner; [|done]. unfold advance. change (zsum _ []) with 0. simpl. lia.
  - intros c u Hcm. rewrite HW. by apply H6.
  - intros c m Hcm. rewrite HR. eapply cm_inv_ext; [|by apply H7]. intros u. apply HW.
Qed.

(** ** Calls of closures and references *)
Lemma runs_done o s L T n d st sa ra v dead : SInv s L T n -> runs o s L T n (TDone d st sa ra v dead).
Proof.
  intros [H1 H2 H3 H4 H5 H6 H7]. eexists [], _, L. split_and!; [done| |constructor|done].
  assert (HT : forall f, f (TDone d st sa ra v dead) = 0 -> advance T (TDone d st sa ra v dead) [] f = T f).
  { intros f Hf. unfold advance. rewrite Hf. change (zsum f []) with 0. lia. }
  split; simpl; try done.
  - intros x. by rewrite HT.
  - intros d'. unfold advance. change (zsum (t_done d') []) with 0. rewrite zsum_app, zsum_cons. cbn [t_done ev_done].
    change (zsum (fun e => occ d' (ev_done e)) []) with 0. specialize (H4 d'). lia.
  - by rewrite HT.
  - intros c u Hc. unfold waiters. rewrite HT by done. by apply H6.
  - intros c m Hc. rewrite HT by done. eapply cm_inv_ext; [|by apply H7]. intros u. unfold waiters. by rewrite HT.
Qed.

Lemma runs_unref o s L T n : SInv s L T n -> rc_owner = true -> runs o s L T n TUnref.
Proof.
  intros [H1 H2 H3 H4 H5 H6 H7] Hr. eexists [], _, L. split_and!; [done| |constructor|done].
  assert (HT : forall f, f TUnref = 0 -> advance T TUnref [] f = T f).
  { intros f Hf. unfold advance. rewrite Hf. change (zsum f []) with 0. lia. }
  split; simpl; try done.
  - intros x. by rewrite HT.
  - intros d'. by rewrite HT.
  - rewrite H5, Hr. unfold advance. change (zsum t_ref []) with 0. cbn [t_ref]. lia.
  - intros c u Hc. unfold waiters. rewrite HT by done. by apply H6.
  - intros c m Hc. rewrite HT by done. eapply cm_inv_ext; [|by apply H7]. intros u. unfold waiters. by rewrite HT.
Qed.

(** ** Steps of a cancellation manager *)

(** Managers stay, stay cancelled and keep their state. *)
Lemma task_ok_update (cs : CMs (Z * Z)) (c : Z) (m m' : CM) t : cs !! c = Some m ->
  (active m = false -> active m' = false) -> (forall st, state_ m = Some st -> is_Some (state_ m')) ->
  task_ok cs t -> task_ok (<[c := m']> cs) t.
Proof.
  intros Hc Ha Hs. assert (Hdom : forall x, is_Some (cs !! x) -> is_Some (<[c := m']> cs !! x)).
  { intros x Hx. destruct (decide (c = x)) as [->|Hne]; [rewrite lookup_insert_eq; by eexists|].
    by rewrite lookup_insert_ne. }
  destruct t; simpl; try done.
  - intros Hx y Hy. by apply Hdom, Hx.
  - apply Hdom.
  - intros (m0 & Hm0 & Ha0). destruct (decide (c = c0)) as [->|Hne].
    + rewrite lookup_insert_eq. exists m'. split; [done|]. apply Ha. congruence.
    + rewrite lookup_insert_ne by done. by exists m0.
  - intros (m0 & st0 & Hm0 & Hs0). destruct (decide (c = c0)) as [->|Hne].
    + rewrite lookup_insert_eq. assert (m0 = m) as -> by congruence. destruct (Hs st0 Hs0) as [st' Hst'].
      by exists m', st'.
    + rewrite lookup_insert_ne by done. by exists m0, st0.
Qed.

(** A step that changes one manager and leaves the queues. *)
Lemma SInv_manager s L T n t new c m m' :
  SInv s L T n -> cms s !! c = Some m ->
  (forall x, t_del x t = zsum (t_del x) new) -> (forall d, t_done d t = zsum (t_done d) new) ->
  t_recv t = zsum t_recv new ->
  (rc_owner = true -> Z.of_nat (size (cbs m)) + t_ref t = Z.of_nat (size (cbs m')) + zsum t_ref new) ->
  (forall c' u, c' <> c -> t_waiter (is_token (c', u)) t = zsum (t_waiter (is_token (c', u))) new) ->
  cm_inv n (T t_recv) m' (fun u => waiters s L T (c, u) - t_waiter (is_token (c, u)) t + zsum (t_waiter (is_token (c, u))) new) ->
  SInv (mkSys (rdv s) (<[c := m']> (cms s)) (owner_refs s) (calls s)) L (advance T t new) n.
Proof.
  intros [H1 H2 H3 H4 H5 H6 H7] Hc Hd Ho Hr Hf Hw Hm'. split; simpl; try done.
  - intros x. unfold advance. rewrite Hd. specialize (H3 x). lia.
  - intros d. unfold advance. rewrite Ho. specialize (H4 d). lia.
  - rewrite H5. destruct rc_owner; [|done]. unfold registered, advance. rewrite (gsum_insert _ _ _ _ _ Hc).
    specialize (Hf eq_refl). lia.
  - intros c' u Hc'. destruct (decide (c = c')) as [->|Hne]; [by rewrite lookup_insert_eq in Hc'|].
    rewrite lookup_insert_ne in Hc' by done. unfold waiters, advance. rewrite (Hw c' u) by done.
    specialize (H6 c' u Hc'). unfold waiters in H6. simpl. lia.
  - intros c' m0 Hc'. assert (HR : advance T t new t_recv = T t_recv) by (unfold advance; lia). rewrite HR.
    destruct (decide (c = c')) as [->|Hne].
    + rewrite lookup_insert_eq in Hc'. injection Hc' as <-. eapply cm_inv_ext; [|exact Hm']. intros u.
      unfold waiters, advance. simpl. lia.
    + rewrite lookup_insert_ne in Hc' by done. eapply cm_inv_ext; [|by apply (H7 c' m0)]. intros u.
      unfold waiters, advance. simpl. rewrite (Hw c' u) by done. lia.
Qed.

Lemma runs_cancel_end o s L T n c : SInv s L T n -> task_ok (cms s) (TCancelEnd c) -> runs o s L T n (TCancelEnd c).
Proof.
  intros Hinv (m & Hc & Ha). destruct (si_cm _ _ _ _ Hinv c m Hc) as [C1 C2 C3 C4 C5].
  set (m' := with_flags false true m).
  exists [], (mkSys (rdv s) (<[c := m']> (cms s)) (owner_refs s) (calls s)), L. split_and!.
  - cbn [run]. unfold bind at 1, on_cms, StartCancel_end, bind at 1, cm_at. rewrite Hc. done.
  - eapply (SInv_manager s L T n _ [] c m m'); try done.
    eapply cm_inv_ext; [|split; [exact C1| |exact (fun _ => C3 Ha)|exact C4|exact C5]].
    + intros u. change (zsum _ []) with 0. simpl. lia.
    + intros u Hx. done.
  - constructor.
  - intros t'. eapply task_ok_update; [exact Hc|done|]. intros st Hst. by exists st.
Qed.

Lemma runs_cancel_notify o s L T n c : SInv s L T n -> task_ok (cms s) (TCancelNotify c) ->
  runs o s L T n (TCancelNotify c).
Proof.
  intros Hinv (m & st & Hc & Hst). destruct (si_cm _ _ _ _ Hinv c m Hc) as [C1 C2 C3 C4 C5].
  set (m' := with_state (Some (mkState true (callbacks st) (first_child st))) m).
  assert (Hcbs : cbs m' = cbs m) by (unfold cbs; by rewrite Hst).
  exists [], (mkSys (rdv s) (<[c := m']> (cms s)) (owner_refs s) (calls s)), L. split_and!.
  - cbn [run]. unfold bind at 1, on_cms, StartCancel_notify, bind at 1, cm_at. rewrite Hc, Hst. done.
  - eapply (SInv_manager s L T n _ [] c m m'); try done; [by rewrite Hcbs|].
    eapply cm_inv_ext; [|split; [exact C1| | | |exact C5]].
    + intros u. change (zsum _ []) with 0. simpl. lia.
    + rewrite Hcbs. exact C2.
    + rewrite Hcbs. exact C3.
    + intros st' [= <-]. simpl. by apply C4.
  - constructor.
  - intros t'. eapply task_ok_update; [exact Hc|done|]. intros; by eexists.
Qed.

(** The callbacks taken from a manager that is cancelled. *)
Lemma callback_tasks (o : IterOrder) (cb : gmap Z (Z * Z)) :
  let new := map (fun x => TCallback (Tensor := Tensor) x.2.1 x.2.2) (entries o _ cb) in
  zsum t_ref new = Z.of_nat (size cb) /\ (forall f, zsum (t_waiter f) new = 0) /\ (forall x, zsum (t_del x) new = 0) /\
  (forall d, zsum (t_done d) new = 0) /\ zsum t_recv new = 0 /\ (forall cs, Forall (task_ok cs) new).
Proof.
  intros new. unfold new. split_and!; intros; rewrite ?zsum_map; simpl; try (apply zsum_0; done).
  - rewrite (entries_perm o _ cb). rewrite <-length_map_to_list.
    induction (map_to_list cb) as [|x l IH]; [done|]. rewrite zsum_cons, IH. simpl. lia.
  - apply Forall_forall. by intros t (x & -> & _)%list_elem_of_fmap.
Qed.

Lemma collect_none fuel acc : collect_children (CB := Z * Z) fuel None acc = ret acc.
Proof. by destruct fuel. Qed.

Section start_cancel.
Context (o : IterOrder) s L T (n c : Z) (m : CM) (Hinv : SInv s L T n) (Hc : cms s !! c = Some m).

Lemma runs_cancel_again : active m = false -> runs o s L T n (TStartCancel c).
Proof using Hinv Hc.
  intros Ha. exists [], s, L. split_and!; try done.
  - cbn [run]. unfold bind at 1, on_cms, StartCancel_begin, bind at 1, cm_at. rewrite Hc.
    unfold active in Ha. rewrite <-negb_orb in Ha. apply negb_false_iff in Ha. rewrite Ha. by destruct s.
  - pose proof (SInv_manager s L T n (TStartCancel c) [] c m m Hinv Hc) as H. rewrite insert_id in H by done.
    destruct s. apply H; try done. eapply cm_inv_ext; [|by apply (si_cm _ _ _ _ Hinv c m)].
    intros u. change (zsum _ []) with 0. simpl. lia.
Qed.

Lemma runs_cancel_state st : active m = true -> state_ m = Some st -> runs o s L T n (TStartCancel c).
Proof using Hinv Hc.
  intros Ha Hst. pose proof (si_cm _ _ _ _ Hinv c m Hc) as [C1 C2 C3 C4 C5]. pose proof (C4 st Hst) as Hfc.
  set (m' := with_state (Some (mkState (cancelled_notification st) ∅ None)) (with_flags true (is_cancelled_ m) m)).
  destruct (callback_tasks o (callbacks st)) as (K1 & K2 & K3 & K4 & K5 & K6).
  set (cb := map _ _) in *. assert (Hm' : active m' = false) by (unfold active; apply andb_false_r).
  exists (cb ++ [] ++ [TCancelEnd c; TCancelNotify c]), (mkSys (rdv s) (<[c := m']> (cms s)) (owner_refs s) (calls s)), L.
  split_and!.
  - cbn [run]. unfold bind at 1, on_cms, StartCancel_begin, bind at 1, cm_at. rewrite Hc.
    unfold active in Ha. rewrite <-negb_orb in Ha. apply negb_true_iff in Ha. rewrite Ha, Hst, Hfc.
    unfold cm_set. unfold bind at 1, modify at 1. unfold bind at 1, get at 1. unfold bind at 1. rewrite collect_none.
    unfold ret at 1. unfold bind at 1. rewrite lookup_insert_eq. cbn [state_ with_state].
    unfold bind, modify, ret. by rewrite insert_insert_eq.
  - eapply (SInv_manager s L T n _ _ c m m'); try done.
    + intros x. rewrite !zsum_app, K3. done.
    + intros d. rewrite !zsum_app, K4. done.
    + rewrite !zsum_app, K5. done.
    + intros _. rewrite !zsum_app, K1. change (cbs m') with (∅ : gmap Z (Z * Z)). rewrite map_size_empty.
      unfold cbs. rewrite Hst, !zsum_cons. change (zsum t_ref []) with 0. simpl. lia.
    + intros c' u _. rewrite !zsum_app, K2. done.
    + eapply cm_inv_ext; [|split; [exact C1| | | |exact C5]].
      * intros u. rewrite !zsum_app, K2. rewrite !zsum_cons. change (zsum _ []) with 0. simpl. lia.
      * intros u. by rewrite Hm'.
      * done.
      * by intros st' [= <-].
  - apply Forall_app. split; [apply K6|]. repeat constructor; simpl; rewrite lookup_insert_eq; by eauto.
  - intros t'. eapply task_ok_update; [exact Hc|congruence|]. intros; by eexists.
Qed.

Lemma runs_cancel_fresh : active m = true -> state_ m = None -> runs o s L T n (TStartCancel c).
Proof using Hinv Hc.
  intros Ha Hst. pose proof (si_cm _ _ _ _ Hinv c m Hc) as [C1 C2 C3 C4 C5].
  set (m' := with_flags true (is_cancelled_ m) m). assert (Hm' : active m' = false) by (unfold active; apply andb_false_r).
  assert (Hcbs : cbs m' = ∅) by (unfold cbs; simpl; by rewrite Hst).
  exists [TCancelEnd c], (mkSys (rdv s) (<[c := m']> (cms s)) (owner_refs s) (calls s)), L. split_and!.
  - cbn [run]. unfold bind at 1, on_cms, StartCancel_begin, bind at 1, cm_at. rewrite Hc.
    unfold active in Ha. rewrite <-negb_orb in Ha. apply negb_true_iff in Ha. rewrite Ha, Hst.
    unfold cm_set, bind, modify, ret. pose proof (entries_perm o (Z * Z) ∅) as Hp. rewrite map_to_list_empty in Hp.
    apply Permutation_nil_r in Hp. by rewrite Hp.
  - eapply (SInv_manager s L T n _ _ c m m'); try done.
    eapply cm_inv_ext; [|split; [exact C1| | | |exact C5]].
    + intros u. rewrite zsum_cons. change (zsum _ []) with 0. simpl. lia.
    + intros u. by rewrite Hm'.
    + done.
    + simpl. by rewrite Hst.
  - repeat constructor. simpl. rewrite lookup_insert_eq. by eauto.
  - intros t'. eapply task_ok_update; [exact Hc|congruence|]. intros st'. by rewrite Hst.
Qed.
End start_cancel.

Lemma runs_start_cancel o s L T n c : SInv s L T n -> is_Some (cms s !! c) -> runs o s L T n (TStartCancel c).
Proof.
  intros Hinv [m Hc]. destruct (active m) eqn:Ha; [|by eapply runs_cancel_again].
  destruct (state_ m) as [st|] eqn:Hst; [by eapply runs_cancel_state|by eapply runs_cancel_fresh].
Qed.

(** ** Calling a waiter *)
Lemma occ_pair (c u u' : Z) : occ (c, u') (c, u) = occ u' u.
Proof.
  destruct (decide (u = u')) as [->|Hne]; [by rewrite !occ_self|]. by rewrite !occ_other by congruence.
Qed.

Lemma is_token_nonneg ct w : 0 <= is_token ct w.
Proof. unfold is_token. destruct (w_cancel w); [apply occ_nonneg|lia]. Qed.

Lemma erase_callback_spec u (m : CM) : cbs (erase_callback u m) = delete u (cbs m) /\
  active (erase_callback u m) = active m /\
  next_cancellation_token_ (erase_callback u m) = next_cancellation_token_ m /\
  (forall st, state_ m = Some st -> is_Some (state_ (erase_callback u m))) /\
  (forall st', state_ (erase_callback u m) = Some st' -> exists st, state_ m = Some st /\ first_child st' = first_child st).
Proof.
  unfold erase_callback, cbs. destruct (state_ m) as [st|] eqn:Hst; simpl.
  - split_and!; try done. intros st' [= <-]. by exists st.
  - rewrite Hst, delete_empty. split_and!; by try done.
Qed.

Section invoke.
Context (o : IterOrder) s L T (n : Z) (w : Waiter) (st : Status) (sa ra : Args) (v : Tensor) (dead : bool).
Hypothesis Hinv : SInv s L T n.
Hypothesis HT : forall f, nonneg f -> f (TInvoke w st sa ra v dead) <= T f.

Abbreviation t := (TInvoke w st sa ra v dead).
Abbreviation d := (TDone (w_done w) st sa ra v dead).

Lemma invoke_plain : w_cancel w = None -> runs o s L T n t.
Proof using Hinv.
  intros Hw. exists [d], s, L. split_and!; [|  |by repeat constructor|done].
  { cbn [run]. unfold InvokeWaiter. by rewrite Hw. }
  destruct Hinv as [H1 H2 H3 H4 H5 H6 H7].
  assert (HTf : forall f, f t = f d -> advance T t [d] f = T f).
  { intros f Hf. unfold advance. rewrite zsum_cons, Hf. change (zsum f []) with 0. lia. }
  assert (HW : forall ct, waiters s L (advance T t [d]) ct = waiters s L T ct).
  { intros ct. unfold waiters. rewrite HTf; [done|]. simpl. unfold is_token. by rewrite Hw. }
  split; try done.
  - intros x. by rewrite HTf.
  - intros x. by rewrite HTf.
  - by rewrite HTf.
  - intros c u Hc. rewrite HW. by apply H6.
  - intros c m Hc. rewrite HTf by done. eapply cm_inv_ext; [|by apply H7]. intros u. apply HW.
Qed.

Section wrapped.
Context (c u : Z) (Hw : w_cancel w = Some (c, u)).

Lemma invoke_waiter c' u' : t_waiter (is_token (c', u')) t = occ (c', u') (c, u).
Proof using Hw. simpl. unfold is_token. by rewrite Hw. Qed.

Lemma invoke_manager : exists m, cms s !! c = Some m /\ 1 <= waiters s L T (c, u) /\ u < next_cancellation_token_ m.
Proof using Hinv HT Hw.
  assert (Hone : 1 <= waiters s L T (c, u)).
  { unfold waiters. pose proof (HT (t_waiter (is_token (c, u)))) as H. rewrite invoke_waiter, occ_self in H.
    assert (0 <= msum (i_waiter (is_token (c, u)) (rdv s)) L).
    { apply msum_nonneg. intros x. unfold i_waiter.
      destruct (item_contents (rdv s) !! x) as [[a [|w' tk]]|]; (apply is_token_nonneg || lia). }
    assert (1 <= T (t_waiter (is_token (c, u)))); [|lia]. apply H. intros []; simpl; (apply is_token_nonneg || lia). }
  destruct (cms s !! c) as [m|] eqn:Hc.
  2: { rewrite (si_none _ _ _ _ Hinv c u Hc) in Hone. lia. }
  exists m. split_and!; try done. destruct (Z.lt_ge_cases u (next_cancellation_token_ m)) as [|Hge]; [done|].
  pose proof (ci_tokens _ _ _ _ (si_cm _ _ _ _ Hinv c m Hc) u Hge) as H. simpl in H. lia.
Qed.

Lemma invoke_cancelled m : cms s !! c = Some m -> u < next_cancellation_token_ m -> active m = false -> runs o s L T n t.
Proof using Hinv Hw.
  intros Hc Hu Ha. pose proof (si_cm _ _ _ _ Hinv c m Hc) as [C1 C2 C3 C4 C5].
  exists [d], s, L. split_and!; [| |by repeat constructor|done].
  - cbn [run]. unfold InvokeWaiter. rewrite Hw. unfold bind at 1, on_cms, TryDeregisterCallback, bind at 1, cm_at.
    rewrite Hc. unfold active in Ha. rewrite <-negb_orb in Ha. apply negb_false_iff in Ha. rewrite Ha. by destruct s.
  - pose proof (SInv_manager s L T n t [d] c m m Hinv Hc) as H. rewrite insert_id in H by done.
    destruct s. apply H; try done.
    + intros d'. rewrite zsum_cons. change (zsum _ []) with 0. simpl. lia.
    + intros c' u' Hne. rewrite invoke_waiter. by rewrite occ_other by congruence.
    + split; try done.
      * intros u' Hge. rewrite invoke_waiter, zsum_cons. change (zsum _ []) with 0. rewrite (C1 u' Hge).
        rewrite occ_other by (intros [= ->]; lia). done.
      * intros u'. by rewrite Ha.
Qed.

Lemma invoke_active m : cms s !! c = Some m -> 1 <= waiters s L T (c, u) -> u < next_cancellation_token_ m ->
  active m = true -> runs o s L T n t.
Proof using Hinv Hw.
  intros Hc Hone Hu Ha. pose proof (si_cm _ _ _ _ Hinv c m Hc) as [C1 C2 C3 C4 C5].
  destruct (erase_callback_spec u m) as (Hcbs & Hact & Hn & Hst & Hst'). set (m' := erase_callback u m) in *.
  pose proof (C2 u Ha) as Hcb. destruct (decide (is_Some (cbs m !! u))) as [[cb Hu']|]; [|lia].
  destruct unref_0 as (U1 & U2 & U3 & U4 & U5).
  assert (Hwn : forall c' u', zsum (t_waiter (is_token (c', u'))) (unref ++ [d]) = 0).
  { intros c' u'. by rewrite zsum_app, U1. }
  exists (unref ++ [d]), (mkSys (rdv s) (<[c := m']> (cms s)) (owner_refs s) (calls s)), L. split_and!.
  - cbn [run]. unfold InvokeWaiter. rewrite Hw. unfold bind at 1, on_cms, TryDeregisterCallback, bind at 1, cm_at.
    rewrite Hc. unfold active in Ha. rewrite <-negb_orb in Ha. apply negb_true_iff in Ha. by rewrite Ha.
  - eapply (SInv_manager s L T n t _ c m m'); try done.
    + intros x. by rewrite zsum_app, U2.
    + intros d'. rewrite zsum_app, U3, zsum_cons. change (zsum _ []) with 0. simpl. lia.
    + by rewrite zsum_app, U4.
    + intros Hr. rewrite zsum_app, U5, Hr, Hcbs, map_size_delete, Hu'.
      assert (size (cbs m) <> 0%nat) by (apply map_size_ne_0_lookup; by exists u, cb).
      rewrite zsum_cons. change (zsum t_ref []) with 0. simpl. lia.
    + intros c' u' Hne. rewrite invoke_waiter, Hwn. by rewrite occ_other by congruence.
    + split.
      * intros u'. rewrite invoke_waiter, Hwn, Hn. intros Hge. rewrite occ_other by (intros [= ->]; lia).
        rewrite (C1 u' Hge). done.
      * intros u' _. rewrite invoke_waiter, Hwn, Hcbs, (C2 u' Ha). destruct (decide (u' = u)) as [->|Hne].
        -- rewrite occ_self, lookup_delete_eq. rewrite decide_True by (by exists cb).
           by rewrite decide_False by (by intros [? ?]).
        -- rewrite occ_other by congruence. rewrite lookup_delete_ne by done. destruct (decide _); lia.
      * by rewrite Hact, Ha.
      * intros st' H'. destruct (Hst' st' H') as (st0 & H0 & ->). by apply C4.
      * by rewrite Hn.
  - apply Forall_app. split; [apply unref_ok|by repeat constructor].
  - intros t'. eapply task_ok_update; [exact Hc|by rewrite Hact|done].
Qed.
End wrapped.

Lemma runs_invoke : runs o s L T n t.
Proof using Hinv HT.
  destruct (w_cancel w) as [[c u]|] eqn:Hw; [|by apply invoke_plain].
  destruct (invoke_manager c u Hw) as (m & Hc & Hone & Hu).
  destruct (active m) eqn:Ha; [by eapply invoke_active|by eapply invoke_cancelled].
Qed.
End invoke.

(** ** Receives *)
Lemma effect_extra r L r' L' new added (extra : list (task Tensor)) : effect r L r' L' new added ->
  (forall x, zsum (t_del x) extra = 0) -> (forall f, zsum (t_waiter f) extra = 0) ->
  effect r L r' L' (new ++ extra) added.
Proof.
  intros [E1 E2 E3 E4] Xd Xw. split; try done; intros; rewrite zsum_app, ?Xd, ?Xw; [specialize (E2 x)|specialize (E3 f)]; lia.
Qed.

Lemma cm_inv_pending n p m W : cm_inv n p m W -> cm_inv n (p - 1) m W.
Proof. intros [H1 H2 H3 H4 H5]. split; try done. lia. Qed.

Section recv.
Context (o : IterOrder) s L T (n : Z) (key : list Z) (a : Args) (d : Z).
Hypothesis Hinv : SInv s L T n.
Hypothesis HT : forall f, nonneg f -> f (TRecv key a d) <= T f.
Hypothesis Hn : n < 2 ^ 63.
Hypothesis Hcm : forall c, cancellation_manager a = Some c -> is_Some (cms s !! c).

Abbreviation t := (TRecv (Tensor := Tensor) key a d).
Abbreviation k := (KeyHash key).

(** What is to be shown of each outcome. *)
Lemma SInv_recv r' L' cms' refs' new added :
  effect (rdv s) L r' L' new added -> (ok (status_ (rdv s)) = false -> L' = L) ->
  (forall f, zsum (t_waiter f) new = 0) -> zsum t_recv new = 0 ->
  (forall x, zsum (t_done x) new + zsum (fun w => occ x (w_done w)) added = occ x d) ->
  refs' = (if rc_owner then owner_refs s - registered (cms s) + registered cms' + zsum t_ref new else owner_refs s) ->
  (forall c, cms' !! c = None -> cms s !! c = None /\ forall u, zsum (is_token (c, u)) added = 0) ->
  (forall c m, cms' !! c = Some m ->
     cm_inv n (T t_recv - 1) m (fun u => waiters s L T (c, u) + zsum (is_token (c, u)) added)) ->
  SInv (mkSys r' cms' refs' (calls s)) L' (advance T t new) n.
Proof using Hinv.
  intros [E1 E2 E3 E4] Hdr Nw Nr Nd Hrefs Hnone Hms. destruct Hinv as [H1 H2 H3 H4 H5 H6 H7].
  assert (HW : forall ct, waiters (mkSys r' cms' refs' (calls s)) L' (advance T t new) ct
                          = waiters s L T ct + zsum (is_token ct) added).
  { intros ct. unfold waiters, advance. simpl. specialize (E3 (is_token ct)). rewrite Nw in *. lia. }
  split; simpl; try done.
  - rewrite E4. intros Hs. rewrite Hdr by done. by apply H2.
  - intros x. unfold advance. specialize (E2 x). specialize (H3 x). simpl. lia.
  - intros x. unfold advance. specialize (E3 (fun w => occ x (w_done w))). rewrite Nw in E3. specialize (H4 x).
    specialize (Nd x). cbn [t_done]. lia.
  - rewrite Hrefs, H5. destruct rc_owner; [|done]. unfold advance. simpl. lia.
  - intros c u Hc. rewrite HW. destruct (Hnone c Hc) as [Hc' ->]. rewrite (H6 c u Hc'). lia.
  - intros c m Hc. replace (advance T t new t_recv) with (T t_recv - 1) by (unfold advance; rewrite Nr; simpl; lia).
    eapply cm_inv_ext; [|by apply Hms]. intros u. apply HW.
Qed.

(** The outcomes that leave the managers alone. *)
Lemma recv_same_managers r' L' new added :
  effect (rdv s) L r' L' new added -> (ok (status_ (rdv s)) = false -> L' = L) ->
  (forall f, zsum (t_waiter f) new = 0) -> zsum t_recv new = 0 -> zsum t_ref new = 0 ->
  (forall x, zsum (t_done x) new + zsum (fun w => occ x (w_done w)) added = occ x d) ->
  (forall ct, zsum (is_token ct) added = 0) ->
  SInv (mkSys r' (cms s) (owner_refs s) (calls s)) L' (advance T t new) n.
Proof using Hinv.
  intros Hef Hdr Nw Nr Nf Nd Na. eapply SInv_recv; try done.
  - rewrite Nf. destruct rc_owner; lia.
  - intros c m Hc. eapply cm_inv_ext; [|by apply cm_inv_pending, (si_cm _ _ _ _ Hinv c m Hc)].
    intros u. rewrite Na. lia.
Qed.

Lemma recv_aborted : ok (status_ (rdv s)) = false -> runs o s L T n t.
Proof using Hinv.
  intros Hs. set (td := TDone d (status_ (rdv s)) Args_new a Tensor_new false).
  exists [td], s, L. split_and!; [| |by repeat constructor|done].
  - cbn [run]. unfold RecvAsync, bind at 1, get. by rewrite Hs.
  - pose proof (effect_extra _ _ _ _ [] [] [td] (effect_refl (rdv s) L (si_rep _ _ _ _ Hinv)) (fun _ => eq_refl) (fun _ => eq_refl)) as Hef.
    assert (Es : s = mkSys (rdv s) (cms s) (owner_refs s) (calls s)) by (clear; by destruct s).
    rewrite Es at 1. apply (recv_same_managers (rdv s) L [td] [] Hef); try done.
    intros x. rewrite zsum_cons. change (zsum _ []) with 0. simpl. lia.
Qed.

Lemma token_bound c m : cms s !! c = Some m -> 0 <= next_cancellation_token_ m /\ next_cancellation_token_ m + 1 < 2 ^ 63
  /\ next_cancellation_token_ m + T t_recv <= n.
Proof using Hinv HT Hn.
  intros Hc. pose proof (ci_bound _ _ _ _ (si_cm _ _ _ _ Hinv c m Hc)) as [H1 H2]. pose proof (HT t_recv) as H3.
  simpl in H3. assert (1 <= T t_recv) by (apply H3; intros []; simpl; lia). lia.
Qed.

(** The manager after a token was taken and, if possible, the callback registered. *)
Definition registered_cm (m : CM) : CM :=
  let m1 := with_token (next_cancellation_token_ m + 1) m in
  if active m then
    with_state (Some (mkState (cancelled_notification (ensure_state m1))
      (<[next_cancellation_token_ m := (next_cancellation_token_ m, k)]> (callbacks (ensure_state m1)))
      (first_child (ensure_state m1)))) m1
  else m1.

Lemma register_spec c m cs : cs !! c = Some m -> 0 <= next_cancellation_token_ m -> next_cancellation_token_ m + 1 < 2 ^ 63 ->
  exists cs1, get_cancellation_token c cs = Done (next_cancellation_token_ m, cs1) /\
    RegisterCallback c (next_cancellation_token_ m) (next_cancellation_token_ m, k) cs1
    = Done (active m, <[c := registered_cm m]> cs).
Proof using.
  intros Hc H0 H1. exists (<[c := with_token (next_cancellation_token_ m + 1) m]> cs). split.
  - unfold get_cancellation_token, bind, cm_at, cm_set, modify, ret. rewrite Hc.
    rewrite i64_small by (unfold in_i64; lia). done.
  - unfold RegisterCallback, bind, cm_at, cm_set, modify, ret, registered_cm. rewrite lookup_insert_eq. cbv zeta.
    change (negb (is_cancelled_ (with_token (next_cancellation_token_ m + 1) m)) &&
            negb (is_cancelling_ (with_token (next_cancellation_token_ m + 1) m))) with (active m).
    destruct (active m); [by rewrite insert_insert_eq|done].
Qed.

Lemma registered_cm_cbs m : cbs (registered_cm m) =
  if active m then <[next_cancellation_token_ m := (next_cancellation_token_ m, k)]> (cbs m) else cbs m.
Proof using. unfold registered_cm, cbs, ensure_state. destruct (active m); [|done]. simpl. by destruct (state_ m). Qed.

Lemma registered_cm_state m st : state_ m = Some st -> is_Some (state_ (registered_cm m)).
Proof using. unfold registered_cm. intros Hst. destruct (active m); [by eexists|by exists st]. Qed.

Lemma registered_cm_active m : active (registered_cm m) = active m.
Proof using. unfold registered_cm. destruct (active m) eqn:E; exact E. Qed.

Lemma registered_cm_inv c m added : cms s !! c = Some m ->
  (forall u, zsum (is_token (c, u)) added = if active m then occ u (next_cancellation_token_ m) else 0) ->
  cm_inv n (T t_recv - 1) (registered_cm m) (fun u => waiters s L T (c, u) + zsum (is_token (c, u)) added).
Proof using Hinv HT Hn.
  intros Hc Ha. pose proof (si_cm _ _ _ _ Hinv c m Hc) as [C1 C2 C3 C4 C5]. destruct (token_bound c m Hc) as (B1 & B2 & B3).
  assert (Hnext : next_cancellation_token_ (registered_cm m) = next_cancellation_token_ m + 1)
    by (unfold registered_cm; by destruct (active m)).
  split.
  - intros u. rewrite Hnext, Ha. intros Hu. rewrite C1 by lia. destruct (active m); [|done]. rewrite occ_other; lia.
  - intros u. rewrite registered_cm_active, registered_cm_cbs, Ha. intros Hact. rewrite (C2 u Hact), Hact.
    destruct (decide (u = next_cancellation_token_ m)) as [->|Hne].
    + pose proof (C1 (next_cancellation_token_ m) ltac:(lia)) as Hz. rewrite (C2 _ Hact) in Hz.
      rewrite Hz, occ_self, lookup_insert_eq. by rewrite decide_True by (by eexists).
    + rewrite lookup_insert_ne by done. rewrite occ_other by done. destruct (decide _); lia.
  - rewrite registered_cm_active, registered_cm_cbs. intros Hact. rewrite Hact. by apply C3.
  - intros st. unfold registered_cm, ensure_state. destruct (active m); [|by apply C4]. simpl.
    destruct (state_ m) as [st0|] eqn:Hst; simpl; intros [= <-]; [|done]. simpl. by apply C4.
  - rewrite Hnext. lia.
Qed.

Lemma registered_size c m : cms s !! c = Some m ->
  registered (<[c := registered_cm m]> (cms s)) = registered (cms s) + if active m then 1 else 0.
Proof using Hinv HT Hn.
  intros Hc. pose proof (si_cm _ _ _ _ Hinv c m Hc) as [C1 C2 C3 C4 C5]. unfold registered.
  rewrite (gsum_insert _ _ _ _ _ Hc), registered_cm_cbs. destruct (active m) eqn:Ha; [|lia].
  pose proof (C1 (next_cancellation_token_ m) ltac:(lia)) as Hz. rewrite (C2 _ eq_refl) in Hz.
  destruct (decide _) as [|Hnone]; [lia|]. apply eq_None_not_Some in Hnone.
  rewrite map_size_insert_None by done. lia.
Qed.

Lemma is_token_one ct x : zsum (is_token ct) [mkWaiter d (Some x)] = occ ct x.
Proof using. rewrite zsum_cons. change (zsum _ []) with 0. unfold is_token. simpl. lia. Qed.

(** The waiter wants the manager [c] and must be queued. *)
Section manager.
Variables (c : Z) (m : CM) (q : ItemQueue) (r1 : Rdv Tensor) (L1 : gmap Z (list Z)).
Hypothesis Ha : cancellation_manager a = Some c.
Hypothesis Hc : cms s !! c = Some m.
Hypothesis Hs : ok (status_ (rdv s)) = true.
Hypothesis Eq : table_entry k (rdv s) = Done (q, r1).
Hypothesis Ee : empty_or true q r1 = Done (true, r1).

#[local] Abbreviation u := (next_cancellation_token_ m).
#[local] Abbreviation cms' := (<[c := registered_cm m]> (cms s)).
#[local] Abbreviation refs' := (if rc_owner then owner_refs s + 1 else owner_refs s).

Lemma recv_manager_run new s' :
  (if active m
   then item <~ on_rdv (new_item a (kRecv (mkWaiter d (Some (c, u))) u));; on_rdv (push_back k q item);;; ret []
   else ret (unref ++ [TDone d (StatusError CANCELLED) Args_new a Tensor_new false]))
    (mkSys r1 cms' refs' (calls s)) = Done (new, s') ->
  run Tensor_new rc_owner o t s = Done (new, s').
Proof using Hinv HT Hn Ha Hc Hs Eq Ee.
  destruct (token_bound c m Hc) as (B1 & B2 & _). destruct (register_spec c m (cms s) Hc B1 B2) as (cs1 & Et & Er).
  intros <-. cbn [run]. unfold RecvAsync, bind at 1, get. rewrite Hs. cbn [negb].
  unfold bind at 1, on_rdv at 1. rewrite Eq. unfold bind at 1, on_rdv at 1. cbn [rdv]. rewrite Ee, Ha.
  unfold bind at 1, owner_Ref, modify. cbn [rdv cms owner_refs calls].
  unfold bind at 1, on_cms at 1. cbn [cms]. rewrite Et. unfold bind at 1, on_cms at 1. cbn [cms]. by rewrite Er.
Qed.

Lemma recv_manager_inv r2 L2 new added :
  effect (rdv s) L r2 L2 new added ->
  (forall f, zsum (t_waiter f) new = 0) -> zsum t_recv new = 0 ->
  (forall x, zsum (t_done x) new + zsum (fun w => occ x (w_done w)) added = occ x d) ->
  (forall ct, zsum (is_token ct) added = if active m then occ ct (c, u) else 0) ->
  zsum t_ref new = (if active m then 0 else if rc_owner then 1 else 0) ->
  SInv (mkSys r2 cms' refs' (calls s)) L2 (advance T t new) n.
Proof using Hinv HT Hn Hc Hs.
  intros Hef Nw Nr Nd Na Nf. eapply SInv_recv; try done.
  - congruence.
  - rewrite (registered_size c m Hc), Nf. destruct rc_owner, (active m); lia.
  - intros c' [Hc' Hne]%lookup_insert_None. split; [done|]. intros x. rewrite Na.
    destruct (active m); [|done]. apply occ_other. congruence.
  - intros c' m' Hc'. destruct (decide (c = c')) as [<-|Hne].
    + rewrite lookup_insert_eq in Hc'. injection Hc' as <-. apply registered_cm_inv; [done|]. intros x. rewrite Na.
      destruct (active m); [apply occ_pair|done].
    + rewrite lookup_insert_ne in Hc' by done. eapply cm_inv_ext; [|by apply cm_inv_pending, (si_cm _ _ _ _ Hinv c' m')].
      intros x. rewrite Na. destruct (active m); [|lia]. rewrite occ_other by congruence. lia.
Qed.

Lemma recv_manager_tasks t' : task_ok (cms s) t' -> task_ok cms' t'.
Proof using Hc. eapply task_ok_update; [exact Hc|by rewrite registered_cm_active|]. intros st. apply registered_cm_state. Qed.

Lemma recv_registered : active m = true ->
  (forall a st, is_recv st = true -> exists r2 L2, (y <~ new_item a st;; push_back k q y) r1 = Done (tt, r2) /\
     effect (rdv s) L r2 L2 [] (match st with kRecv w _ => [w] | kSend _ _ => [] end)) ->
  runs o s L T n t.
Proof using Hinv HT Hn Ha Hc Hs Eq Ee.
  intros Hact Hpush. set (w := mkWaiter d (Some (c, u))).
  destruct (Hpush a (kRecv w u) eq_refl) as (r2 & L2 & E2 & Hef2). apply bind_inv in E2 as (x & r3 & E3 & E4).
  eexists [], _, L2. split_and!; [|eapply (recv_manager_inv r2 L2 [] [w]); try done|constructor|apply recv_manager_tasks].
  - apply recv_manager_run. rewrite Hact. fold w. unfold bind at 1, on_rdv at 1. cbn [rdv]. rewrite E3.
    unfold bind at 1, on_rdv at 1. cbn [rdv]. by rewrite E4.
  - intros x'. rewrite zsum_cons. change (zsum _ []) with 0. simpl. lia.
  - intros ct. rewrite Hact. apply is_token_one.
  - by rewrite Hact.
Qed.

Lemma recv_cancelled : active m = false -> effect (rdv s) L r1 L1 [] [] -> runs o s L T n t.
Proof using Hinv HT Hn Ha Hc Hs Eq Ee.
  intros Hact Hef. destruct unref_0 as (U1 & U2 & U3 & U4 & U5).
  set (td := TDone d (StatusError CANCELLED) Args_new a Tensor_new false).
  assert (Hef' : effect (rdv s) L r1 L1 (unref ++ [td]) []).
  { apply (effect_extra _ _ _ _ [] [] (unref ++ [td]) Hef); intros; by rewrite zsum_app, ?U1, ?U2. }
  eexists (unref ++ [td]), _, L1.
  split_and!; [|eapply (recv_manager_inv r1 L1 (unref ++ [td]) []); try done| |apply recv_manager_tasks].
  - apply recv_manager_run. by rewrite Hact.
  - intros f. by rewrite zsum_app, U1.
  - by rewrite zsum_app, U4.
  - intros x'. rewrite zsum_app, U3, zsum_cons. change (zsum _ []) with 0.
    change (zsum (fun w => occ x' (w_done w)) []) with 0. simpl. lia.
  - intros ct. by rewrite Hact.
  - rewrite Hact, zsum_app, U5, zsum_cons. change (zsum t_ref []) with 0. simpl. destruct rc_owner; lia.
  - apply Forall_app. split; [apply unref_ok|by repeat constructor].
Qed.
End manager.

Lemma runs_recv : runs o s L T n t.
Proof using Hinv HT Hn Hcm.
  destruct (ok (status_ (rdv s))) eqn:Hs; [|by apply recv_aborted].
  destruct (queue_cases (rdv s) L k true (si_rep _ _ _ _ Hinv)) as (q & r1 & L1 & e & E & Ee & Hef & He).
  destruct e.
  - destruct (cancellation_manager a) as [c|] eqn:Ha.
    { destruct (Hcm c eq_refl) as [m Hc]. destruct (active m) eqn:Hact; [by eapply recv_registered|by eapply recv_cancelled]. }
    set (w := mkWaiter d None). destruct (He a (kRecv w kInvalidToken) eq_refl) as (r2 & L2 & E2 & Hef2).
    apply bind_inv in E2 as (x & r3 & E3 & E4).
    eexists [], _, L2. split_and!; [|eapply (recv_same_managers r2 L2 [] [w]); try done| |done].
    + cbn [run]. unfold RecvAsync, bind at 1, get. rewrite Hs. cbn [negb].
      unfold bind at 1, on_rdv at 1. rewrite E. unfold bind at 1, on_rdv at 1. cbn [rdv]. rewrite Ee, Ha. fold w.
      unfold bind at 1, on_rdv at 1. cbn [rdv]. rewrite E3. unfold bind at 1, on_rdv at 1. cbn [rdv]. by rewrite E4.
    + congruence.
    + intros x'. rewrite zsum_cons. change (zsum _ []) with 0. simpl. lia.
    + constructor.
  - destruct He as (x & it & r2 & L2 & E2 & Hit & Hk & Hef2). destruct (item_state it) as [v dead|] eqn:Hst; [|done].
    set (new := [TDone d StatusOK (args it) a v dead; TDelete x]).
    eexists new, _, L2. split_and!; [|eapply (recv_same_managers r2 L2 new []); try done| |done].
    + cbn [run]. unfold RecvAsync, bind at 1, get. rewrite Hs. cbn [negb].
      unfold bind at 1, on_rdv at 1. rewrite E. unfold bind at 1, on_rdv at 1. cbn [rdv]. rewrite Ee.
      unfold bind at 1, on_rdv at 1. cbn [rdv]. rewrite E2. unfold bind at 1, on_rdv at 1, item_at. cbn [rdv].
      rewrite Hit, Hst. done.
    + apply Hef2; intros; unfold new; rewrite !zsum_cons; change (zsum _ []) with 0; cbn [t_del t_waiter]; lia.
    + congruence.
    + intros x'. unfold new. rewrite !zsum_cons. change (zsum _ []) with 0. simpl. lia.
    + by repeat constructor.
Qed.
End recv.
End sys.
