(* ===== verification/RendezvousSpec.v ===== *)
(** * The local rendezvous: every reachable state keeps the invariant

    [WInv] is the invariant of [RendezvousSys] with the totals taken over the
    threads of a world; it holds in every reachable world. *)
From S2P Require Import Prelude Coding Cancellation Hash Counting Rendezvous RendezvousInv RendezvousSys.
From stdpp Require Import options.
#[local] Open Scope tf_monad_scope.

Section world.
Context {Tensor : Type} (Tensor_new : Tensor) (rc_owner : bool).
Implicit Types (L : gmap Z (list Z)) (t : task Tensor) (s : Sys Tensor) (w : World Tensor).

#[local] Abbreviation step := (step Tensor_new rc_owner).
#[local] Abbreviation reachable := (reachable Tensor_new rc_owner).
#[local] Abbreviation SInv := (SInv rc_owner).
#[local] Abbreviation task_ok := (task_ok (Tensor := Tensor) rc_owner).

Definition totals (ths : list (list (task Tensor))) : (task Tensor -> Z) -> Z := fun f => zsum (zsum f) ths.

Record WInv w L : Prop := {
  wi_sys : SInv (sys w) L (totals (threads w)) (next_done w);
  wi_next : 0 <= next_done w < 2 ^ 63;
  wi_tasks : Forall (Forall (task_ok (cms (sys w)))) (threads w)
}.

(** The invariant depends on the values of the totals only. *)
Lemma SInv_totals s L T T' n : (forall f, T' f = T f) -> SInv s L T n -> SInv s L T' n.
Proof.
  intros HT [H1 H2 H3 H4 H5 H6 H7].
  assert (HW : forall ct, waiters s L T' ct = waiters s L T ct) by (intros; unfold waiters; by rewrite HT).
  split; try done; intros; rewrite ?HT, ?HW; auto.
  eapply cm_inv_ext; [intros u; apply HW|auto].
Qed.

Lemma totals_app ths ts f : totals (ths ++ [ts]) f = totals ths f + zsum f ts.
Proof. unfold totals. rewrite zsum_app, zsum_cons. change (zsum _ []) with 0. lia. Qed.

Lemma totals_step ths i t ts new f : ths !! i = Some (t :: ts) ->
  totals (<[i := new ++ ts]> ths) f = advance (totals ths) t new f.
Proof. intros Hi. unfold totals, advance. rewrite (zsum_insert _ _ _ _ _ Hi), zsum_app, zsum_cons. lia. Qed.

Lemma totals_ge ths i t ts f : ths !! i = Some (t :: ts) -> nonneg f -> f t <= totals ths f.
Proof.
  intros Hi Hf. unfold totals. transitivity (zsum f (t :: ts)).
  - rewrite zsum_cons. pose proof (zsum_nonneg f ts Hf). lia.
  - apply (zsum_elem (zsum f)); [intros l; by apply zsum_nonneg|by eapply list_elem_of_lookup_2].
Qed.

(** ** A step of a thread *)
Lemma run_task w L i t ts o : WInv w L -> threads w !! i = Some (t :: ts) ->
  runs Tensor_new rc_owner o (sys w) L (totals (threads w)) (next_done w) t.
Proof.
  intros [Hs Hn Hok] Hi. pose proof (fun f => totals_ge _ _ _ _ f Hi) as HT.
  pose proof (Forall_lookup_1 _ _ _ _ Hok Hi) as [Ht _]%Forall_cons_1.
  destruct t; simpl in Ht.
  - by apply runs_send.
  - apply runs_recv; try done; lia.
  - by apply runs_abort.
  - by apply runs_start_cancel.
  - by apply runs_callback.
  - by apply runs_cancel_end.
  - by apply runs_cancel_notify.
  - by apply runs_invoke.
  - by apply runs_done.
  - by apply runs_unref.
  - by apply runs_delete.
Qed.

(** A new thread with one task that carries nothing. *)
Lemma SInv_call s L ths t n : SInv s L (totals ths) n ->
  (forall f, t_waiter f t = 0) -> (forall x, t_del x t = 0) -> (forall d, t_done d t = 0) -> t_recv t = 0 -> t_ref t = 0 ->
  SInv s L (totals (ths ++ [[t]])) n.
Proof.
  intros [H1 H2 H3 H4 H5 H6 H7] Tw Td To Tr Tf.
  assert (HT : forall f, f t = 0 -> totals (ths ++ [[t]]) f = totals ths f).
  { intros f Hf. rewrite totals_app, zsum_cons, Hf. change (zsum f []) with 0. lia. }
  assert (HW : forall ct, waiters s L (totals (ths ++ [[t]])) ct = waiters s L (totals ths) ct)
    by (intros; unfold waiters; by rewrite HT).
  split; try done; intros; rewrite ?HT, ?HW by done; auto.
  eapply cm_inv_ext; [intros u; apply HW|auto].
Qed.

(** A new thread with a receive and its closure. *)
Lemma SInv_new_recv s L ths key a n : 0 <= n -> SInv s L (totals ths) n ->
  SInv s L (totals (ths ++ [[TRecv key a n]])) (n + 1).
Proof.
  intros Hn [H1 H2 H3 H4 H5 H6 H7]. set (ths' := ths ++ [[TRecv key a n]]).
  assert (HT : forall f, totals ths' f = totals ths f + f (TRecv key a n)).
  { intros f. unfold ths'. rewrite totals_app, zsum_cons. change (zsum f []) with 0. lia. }
  assert (HW : forall ct, waiters s L (totals ths') ct = waiters s L (totals ths) ct).
  { intros. unfold waiters. rewrite HT. cbn [t_waiter]. lia. }
  split; try done.
  - intros x. rewrite HT. cbn [t_del]. specialize (H3 x). lia.
  - intros d. rewrite HT. cbn [t_done]. specialize (H4 d). unfold occ at 3.
    destruct (decide (n = d)), (decide (0 <= d < n)), (decide (0 <= d < n + 1)); lia.
  - rewrite H5, HT. cbn [t_ref]. destruct rc_owner; lia.
  - intros c u Hc. rewrite HW. auto.
  - intros c m Hc. rewrite HT. cbn [t_recv]. eapply cm_inv_ext; [intros u; apply HW|].
    destruct (H7 c m Hc) as [C1 C2 C3 C4 C5]. split; try done. lia.
Qed.

(** The closures of the receives that have not started are distinct, so there
    are no more than were made. *)
Definition recv_done t : option Z := match t with TRecv _ _ d => Some d | _ => None end.

Lemma recv_dones (l : list (task Tensor)) d : zsum t_recv l = Z.of_nat (length (omap recv_done l)) /\
  zsum (occ d) (omap recv_done l) <= zsum (t_done d) l.
Proof.
  induction l as [|t l [IH1 IH2]]; [done|]. rewrite !zsum_cons. cbn [omap list_omap].
  pose proof (occ_nonneg d) as Ho. destruct t; cbn [recv_done t_recv t_done length]; rewrite ?zsum_cons; split; try lia.
  all: match goal with |- _ <= occ _ ?x + _ => specialize (Ho x) end; lia.
Qed.

Lemma pending_bound s L ths n : 0 <= n -> SInv s L (totals ths) n -> 0 <= totals ths t_recv <= n.
Proof.
  intros Hn Hinv. unfold totals. rewrite <-zsum_concat.
  pose proof (fun d => proj2 (recv_dones (concat ths) d)) as Hl. destruct (recv_dones (concat ths) 0) as [-> _].
  set (l := omap recv_done (concat ths)) in *. split; [lia|].
  assert (Hd : forall d, zsum (occ d) l <= if decide (0 <= d < n) then 1 else 0).
  { intros d. rewrite <-(si_done _ _ _ _ _ Hinv d). unfold totals. rewrite <-zsum_concat. specialize (Hl d).
    pose proof (zsum_nonneg (fun e => occ d (ev_done e)) (calls s) (fun e => occ_nonneg _ _)).
    assert (0 <= msum (i_waiter (fun y => occ d (w_done y)) (rdv s)) L); [|lia]. apply msum_nonneg.
    intros x. unfold i_waiter. destruct (item_contents _ !! x) as [[? []]|]; try done. apply occ_nonneg. }
  assert (Hnd : NoDup l).
  { apply occ_NoDup. intros d. specialize (Hd d). destruct (decide _); lia. }
  assert (Hsub : l ⊆+ seqZ 0 n).
  { apply NoDup_submseteq; [done|]. intros d Hin%occ_elem. apply elem_of_seqZ. specialize (Hd d).
    destruct (decide _); lia. }
  apply submseteq_length in Hsub. rewrite length_seqZ in Hsub. lia.
Qed.

(** A new cancellation manager. *)
Lemma SInv_new_manager s L ths n c : 0 <= n -> cms s !! c = None -> SInv s L (totals ths) n ->
  SInv (mkSys (rdv s) (<[c := CM_new]> (cms s)) (owner_refs s) (calls s)) L (totals ths) n.
Proof.
  intros Hn Hc Hinv. pose proof (pending_bound _ _ _ _ Hn Hinv) as Hp. destruct Hinv as [H1 H2 H3 H4 H5 H6 H7].
  split; simpl; try done.
  - rewrite H5. unfold registered. rewrite gsum_new by done. done.
  - intros c' u [Hc' _]%lookup_insert_None. by apply H6.
  - intros c' m Hm. destruct (decide (c = c')) as [<-|Hne].
    + rewrite lookup_insert_eq in Hm. injection Hm as <-. split; simpl; try done; [intros; by apply H6..|lia].
    + rewrite lookup_insert_ne in Hm by done. by apply H7.
Qed.

(** ** Every step keeps the invariant *)
Lemma task_ok_new_manager cs c t : cs !! c = None -> task_ok cs t -> task_ok (<[c := CM_new]> cs) t.
Proof.
  intros Hc. assert (Hne : forall x m, cs !! x = Some m -> <[c := CM_new]> cs !! x = Some m).
  { intros x m Hx. rewrite lookup_insert_ne; [done|]. intros ->. congruence. }
  destruct t; simpl; try done.
  - intros Ha x Hx. destruct (Ha x Hx) as [m Hm]. eauto.
  - intros [m Hm]. eauto.
  - intros (m & Hm & ?). eauto.
  - intros (m & st & Hm & ?). eauto.
Qed.

Lemma Forall_tasks_impl cs cs' (ths : list (list (task Tensor))) : (forall t, task_ok cs t -> task_ok cs' t) ->
  Forall (Forall (task_ok cs)) ths -> Forall (Forall (task_ok cs')) ths.
Proof. intros H Hf. eapply Forall_impl; [exact Hf|]. intros l Hl. by eapply Forall_impl. Qed.

Lemma WInv_new : WInv World_new ∅.
Proof.
  split; [|done|constructor]. split; simpl; try done.
  - split; simpl; try done. intros k. by rewrite !lookup_empty.
  - intros d. rewrite msum_empty. change (totals [] _) with 0. change (zsum _ []) with 0.
    destruct (decide _); lia.
  - by destruct rc_owner.
Qed.

Lemma WInv_step w w' L : WInv w L -> step w w' -> exists L', WInv w' L'.
Proof.
  intros Hw Hst. pose proof Hw as [Hs Hn Hok]. destruct Hst as [w t Hc|w key a Hlt Ha|w c Hc|w i o t ts new s Hi Hrun].
  - exists L. split; simpl; [|done|].
    + destruct t; try done; by apply SInv_call.
    + apply Forall_app. split; [done|]. repeat constructor. by destruct t.
  - exists L. split; simpl; [|lia|].
    + apply SInv_new_recv; [lia|done].
    + apply Forall_app. split; [done|]. by repeat constructor.
  - exists L. split; simpl; [|done|].
    + apply SInv_new_manager; [lia|done..].
    + eapply Forall_tasks_impl; [|done]. intros t. by apply task_ok_new_manager.
  - destruct (run_task w L i t ts o Hw Hi) as (new' & s' & L' & E & Hinv & Hnew & Hmono).
    rewrite Hrun in E. injection E as <- <-. exists L'. split; simpl; [|done|].
    + eapply SInv_totals; [|exact Hinv]. intros f. by apply totals_step.
    + apply Forall_insert; [by eapply Forall_tasks_impl|]. apply Forall_app. split; [done|].
      pose proof (Forall_lookup_1 _ _ _ _ Hok Hi) as [_ Hts]%Forall_cons_1.
      by eapply Forall_impl.
Qed.

Lemma reachable_WInv w : reachable w -> exists L, WInv w L.
Proof.
  induction 1 as [|w w' _ [L IH] Hst]; [exists ∅; apply WInv_new|]. by eapply WInv_step.
Qed.
End world.

(** * The local rendezvous: queues of values and waiters

    The abstract rendezvous keeps, under each key, a list of what was sent or of
    who waits, oldest first.  [queue_of] reads that list off the linked items;
    the lemmas show that the methods act on it as [spec_send], [spec_recv],
    [spec_cancel] and [spec_abort] say, and that what they leave to call is
    what these list, apart from the deletion of items. *)

Section spec.
Context {Tensor : Type} (Tensor_new : Tensor) (rc_owner : bool).
Implicit Types (r : Rdv Tensor) (L : gmap Z (list Z)) (q : ItemQueue) (k : Z).

#[local] Abbreviation entry := (Args * ItemState Tensor)%type.
#[local] Abbreviation unref := (@unref Tensor rc_owner).
#[local] Abbreviation CM := (CancellationManager (Z * Z)).

(** ** The abstract operations *)
Definition spec_send (st : Status) (a : Args) (v : Tensor) (dead : bool) (l : list entry) : list entry * list (task Tensor) :=
  if negb (ok st) then (l, [])
  else
    match l with
    | (ra, kRecv w _) :: l' => (l', [TInvoke w StatusOK a ra v dead])
    | _ => (l ++ [(a, kSend v dead)], [])
    end.

Definition spec_recv (st : Status) (manager : option CM) (a : Args) (d : Z) (l : list entry) : list entry * list (task Tensor) :=
  if negb (ok st) then (l, [TDone d st Args_new a Tensor_new false])
  else
    match l with
    | (sa, kSend v dead) :: l' => (l', [TDone d StatusOK sa a v dead])
    | _ =>
        match cancellation_manager a, manager with
        | Some c, Some m =>
            let token := next_cancellation_token_ m in
            if active m then (l ++ [(a, kRecv (mkWaiter d (Some (c, token))) token)], [])
            else (l, unref ++ [TDone d (StatusError CANCELLED) Args_new a Tensor_new false])
        | _, _ => (l ++ [(a, kRecv (mkWaiter d None) kInvalidToken)], [])
        end
    end.

Fixpoint spec_cancel (token : Z) (l : list entry) : list entry * list (task Tensor) :=
  match l with
  | (ra, kRecv w u) :: l' =>
      if u =? token then (l', [TInvoke w (StatusError CANCELLED) Args_new ra Tensor_new false])
      else let res := spec_cancel token l' in ((ra, kRecv w u) :: res.1, res.2)
  | _ => (l, [])
  end.

Definition spec_abort (st : Status) (c : entry) : list (task Tensor) :=
  match c.2 with
  | kSend _ _ => []
  | kRecv w _ => [TInvoke w st Args_new Args_new Tensor_new false]
  end.

(** ** The abstraction *)
Definition queue_of r k : list entry :=
  match table_ r !! k with
  | None => []
  | Some q =>
      match walk (size (items r)) (q_head q) r with
      | Done (l, _) => map (fun x => content x.2) l
      | _ => []
      end
  end.

Definition qset k (l : list entry) (Q : Z -> list entry) : Z -> list entry := fun k' => if k' =? k then l else Q k'.

(** What clients can see of the remaining work. *)
Definition visible (t : task Tensor) : bool := match t with TDelete _ => false | _ => true end.

Definition entries_of r (l : list Z) : list entry := omap (fun x => item_contents r !! x) l.

Lemma entries_of_app r l1 l2 : entries_of r (l1 ++ l2) = entries_of r l1 ++ entries_of r l2.
Proof. apply omap_app. Qed.

Lemma entries_of_ext r r' l : (forall x, x ∈ l -> item_contents r' !! x = item_contents r !! x) ->
  entries_of r' l = entries_of r l.
Proof.
  unfold entries_of. induction l as [|x l IH]; intros Hl; [done|]. cbn [omap list_omap]. rewrite Hl by left.
  rewrite IH; [done|]. intros y Hy. apply Hl. by right.
Qed.

Lemma queue_of_rep r L k : rep r L -> queue_of r k = entries_of r (default [] (L !! k)).
Proof.
  intros Hrep. unfold queue_of. destruct (table_ r !! k) as [q|] eqn:Hq.
  - destruct (proj1 (rep_dom _ _ Hrep k) ltac:(by eexists)) as [l Hl]. rewrite Hl. cbn [default].
    destruct (rep_queue _ _ Hrep k q l Hq Hl) as [Hseg _].
    destruct (walk_spec r l _ _ Hseg (rep_length r L k l Hrep Hl)) as (its & -> & <- & Hits).
    clear -Hits. induction Hits as [|[x it] its Hx _ IH]; [done|]. unfold entries_of in *.
    simpl in *. rewrite (contents_lookup _ _ _ Hx). by rewrite IH.
  - destruct (L !! k) as [l|] eqn:Hl; [|done].
    destruct (proj2 (rep_dom _ _ Hrep k) ltac:(by eexists)) as [q Hq']. congruence.
Qed.

(** A change at one key. *)
Lemma queue_of_change r r' L L' k l : rep r L -> rep r' L' ->
  (forall k', k' <> k -> L' !! k' = L !! k') -> default [] (L' !! k) = l ->
  (forall k' l' x, L !! k' = Some l' -> x ∈ l' -> item_contents r' !! x = item_contents r !! x) ->
  forall k', queue_of r' k' = qset k (entries_of r' l) (queue_of r) k'.
Proof.
  intros Hrep Hrep' HL Hl Hc k'. rewrite (queue_of_rep r' L' k' Hrep'). unfold qset.
  destruct (Z.eqb_spec k' k) as [->|Hne]; [by rewrite Hl|]. rewrite HL by done.
  rewrite (queue_of_rep r L k' Hrep). destruct (L !! k') as [l'|] eqn:Hk'; [|done].
  apply entries_of_ext. intros x. by eapply Hc.
Qed.

Lemma put_ne k k' l L : k' <> k -> put k l L !! k' = L !! k'.
Proof. intros Hne. destruct l; [by apply lookup_delete_ne|by apply lookup_insert_ne]. Qed.

Lemma put_eq k l L : default [] (put k l L !! k) = l.
Proof. destruct l; cbn [put]; [by rewrite lookup_delete_eq|by rewrite lookup_insert_eq]. Qed.

(** [table_[k]] leaves the queues as they are. *)
Lemma queue_of_entry r L k : rep r L ->
  exists q r1, table_entry k r = Done (q, r1) /\ rep r1 (<[k := default [] (L !! k)]> L) /\ table_ r1 !! k = Some q /\
    q_rep (items r1) q (default [] (L !! k)) /\ item_contents r1 = item_contents r /\ status_ r1 = status_ r /\
    forall k', queue_of r1 k' = queue_of r k'.
Proof.
  intros Hrep. destruct (table_entry_spec r L k Hrep) as (q & r1 & E & Hrep1 & Hq & Hqr & Hi & Hs & _).
  assert (Hc : item_contents r1 = item_contents r) by (unfold item_contents; by rewrite Hi).
  exists q, r1. split_and!; try done. intros k'.
  rewrite (queue_of_rep _ _ k' Hrep1), (queue_of_rep _ _ k' Hrep). rewrite (entries_of_ext r r1) by (intros; by rewrite Hc).
  destruct (decide (k = k')) as [<-|Hne]; [by rewrite lookup_insert_eq|by rewrite lookup_insert_ne].
Qed.

(** The two branches of [Send] and [RecvAsync]: [b] tells whether the queue is
    extended with a waiter. *)
Lemma queue_branch r L k (b : bool) : rep r L ->
  exists q r1 e, table_entry k r = Done (q, r1) /\ empty_or b q r1 = Done (e, r1) /\ status_ r1 = status_ r /\
    (forall k', queue_of r1 k' = queue_of r k') /\
    if (e : bool) then
      match queue_of r k with [] => True | c :: _ => is_recv c.2 = b end /\
      forall a st, is_recv st = b -> exists r2, (y <~ new_item a st;; push_back k q y) r1 = Done (tt, r2) /\
        status_ r2 = status_ r /\ forall k', queue_of r2 k' = qset k (queue_of r k ++ [(a, st)]) (queue_of r) k'
    else exists x it rest r2, queue_of r k = content it :: rest /\ is_recv (item_state it) = negb b /\
      pop_front k q r1 = Done (x, r2) /\ items r2 !! x = Some it /\ status_ r2 = status_ r /\
      forall k', queue_of r2 k' = qset k rest (queue_of r) k'.
Proof.
  intros Hrep. destruct (queue_of_entry r L k Hrep) as (q & r1 & E & Hrep1 & Hq & Hqr & Hc1 & Hs1 & Hsame).
  set (l := default [] (L !! k)) in *. set (L1 := <[k := l]> L) in *.
  assert (Hl1 : L1 !! k = Some l) by apply lookup_insert_eq.
  assert (Hql : queue_of r k = entries_of r1 l) by (rewrite <-Hsame, (queue_of_rep _ _ k Hrep1), Hl1; done).
  assert (Hqset : forall l' k', qset k l' (queue_of r1) k' = qset k l' (queue_of r) k') by (intros; unfold qset; by rewrite Hsame).
  destruct (empty_or_spec r1 q l b Hqr) as (e & Ee & He). exists q, r1, e. split_and!; try done. destruct e.
  - assert (Hkind : forall x c, x ∈ l -> item_contents r1 !! x = Some c -> is_recv c.2 = b).
    { intros x c Hx Hcx. destruct l as [|h l0]; [by apply not_elem_of_nil in Hx|].
      destruct He as (ch & Hch & Heq). symmetry in Heq. apply eqb_prop in Heq. rewrite <-Heq.
      by apply (rep_kind _ _ Hrep1 k _ Hl1 x h c ch Hx ltac:(left)). }
    split.
    + rewrite Hql. destruct l as [|h l0]; [done|]. destruct He as (ch & Hch & Heq). unfold entries_of.
      cbn [omap list_omap]. rewrite Hch. apply (Hkind h); [left|done].
    + intros a st <-. destruct (push_new_spec r1 L1 Hrep1 k q l a st Hq Hl1 Hkind) as (r2 & E2 & Hrep2 & Hc2 & Hs2 & _).
      assert (Hne : forall k' l' x, L1 !! k' = Some l' -> x ∈ l' -> item_contents r2 !! x = item_contents r1 !! x).
      { intros k' l' x Hl' Hx. rewrite Hc2, lookup_insert_ne; [done|]. intros <-.
        destruct (rep_elem _ _ Hrep1 k' l' _ Hl' Hx) as [c (it & Hit & _)%contents_lookup_inv].
        by rewrite (rep_fresh _ _ Hrep1) in Hit. }
      exists r2. split_and!; [done|congruence|]. intros k'.
      rewrite (queue_of_change r1 r2 L1 _ k (l ++ [next_item r1]) Hrep1 Hrep2); [|by intros; rewrite lookup_insert_ne|by rewrite lookup_insert_eq|done].
      rewrite Hqset, Hql, entries_of_app, (entries_of_ext r1 r2 l) by (intros x Hx; by apply (Hne k l)).
      unfold entries_of at 2. cbn [omap list_omap]. by rewrite Hc2, lookup_insert_eq.
  - destruct l as [|x l0]; [done|]. destruct He as (c & Hx & Heq).
    destruct (pop_front_spec r1 L1 k q x l0 Hrep1 Hq Hl1) as (r2 & E2 & Hrep2 & Hi2 & Hs2 & _).
    assert (Hc2 : item_contents r2 = item_contents r1) by (unfold item_contents; by rewrite Hi2).
    pose proof Hx as (it & Hit & <-)%contents_lookup_inv. exists x, it, (entries_of r1 l0), r2.
    split_and!; try done.
    + rewrite Hql. unfold entries_of. cbn [omap list_omap]. by rewrite Hx.
    + simpl in Heq. by destruct (is_recv (item_state it)), b.
    + by rewrite Hi2.
    + congruence.
    + intros k'. rewrite (queue_of_change r1 r2 L1 _ k l0 Hrep1 Hrep2), Hqset;
        [|by intros; rewrite put_ne|apply put_eq|by intros; rewrite Hc2].
      by rewrite (entries_of_ext r1 r2) by (intros; by rewrite Hc2).
Qed.

(** ** The operations *)
Lemma qset_same k (Q : Z -> list entry) : forall k', Q k' = qset k (Q k) Q k'.
Proof. intros k'. unfold qset. by destruct (Z.eqb_spec k' k) as [->|]. Qed.

Lemma Send_spec r L key a v dead : rep r L ->
  let res := spec_send (status_ r) a v dead (queue_of r (KeyHash key)) in
  exists new r', Send key a v dead r = Done ((status_ r, new), r') /\ status_ r' = status_ r /\
    List.filter visible new = res.2 /\ forall k', queue_of r' k' = qset (KeyHash key) res.1 (queue_of r) k'.
Proof.
  intros Hrep. unfold spec_send, Send, bind at 1, get. destruct (ok (status_ r)) eqn:Ok; cbn [negb fst snd].
  2: { exists [], r. split_and!; try done. apply qset_same. }
  assert (Hst : status_ r = StatusOK) by (by destruct (status_ r)).
  destruct (queue_branch r L (KeyHash key) false Hrep) as (q & r1 & e & E & Ee & Hs & _ & He).
  rewrite (bind_Done _ _ _ _ _ E), (bind_Done _ _ _ _ _ Ee), Hst. destruct e.
  - destruct He as [Hhd He]. destruct (He a (kSend v dead) eq_refl) as (r2 & E2 & Hs2 & Hq2).
    apply bind_inv in E2 as (x & r3 & E3 & E4). rewrite (bind_Done _ _ _ _ _ E3), (bind_Done _ _ _ _ _ E4).
    exists [], r2. rewrite Hs2. split_and!; try done; destruct (queue_of r (KeyHash key)) as [|[? []] ?]; done.
  - destruct He as (x & it & rest & r2 & Hq & Hk & E2 & Hit & Hs2 & Hq2). rewrite (bind_Done _ _ _ _ _ E2).
    unfold bind at 1, item_at. rewrite Hit, Hq. unfold content. destruct (item_state it) as [|w tok]; [done|].
    eexists _, r2. split; [done|]. by rewrite Hs2.
Qed.

Lemma RecvAsync_spec s L key a d : rep (rdv s) L ->
  (forall c, cancellation_manager a = Some c -> is_Some (cms s !! c)) ->
  let r := rdv s in
  let manager := c ← cancellation_manager a; cms s !! c in
  let res := spec_recv (status_ r) manager a d (queue_of r (KeyHash key)) in
  exists new s', RecvAsync Tensor_new rc_owner key a d s = Done (new, s') /\ status_ (rdv s') = status_ r /\
    List.filter visible new = res.2 /\ forall k', queue_of (rdv s') k' = qset (KeyHash key) res.1 (queue_of r) k'.
Proof.
  intros Hrep Hcm r manager. cbv zeta. unfold spec_recv, RecvAsync, bind at 1, get. fold r.
  destruct (ok (status_ r)) eqn:Ok; cbn [negb fst snd].
  2: { eexists _, s. split; [done|]. split_and!; try done. apply qset_same. }
  destruct (queue_branch r L (KeyHash key) true Hrep) as (q & r1 & e & E & Ee & Hs & Hq1 & He).
  unfold bind at 1, on_rdv at 1. fold r. rewrite E. unfold bind at 1, on_rdv at 1. cbn [rdv]. rewrite Ee. destruct e.
  - destruct He as [Hhd He]. set (l := queue_of r (KeyHash key)) in *.
    assert (Hl : forall A (x : A) f, match l with (sa, kSend v dead) :: l' => f sa v dead l' | _ => x end = x).
    { intros A x f. destruct l as [|[? []] ?]; done. }
    rewrite Hl. unfold manager. destruct (cancellation_manager a) as [c|] eqn:Ha; cbn [mbind option_bind].
    + destruct (Hcm c eq_refl) as [m Hm]. rewrite Hm. unfold bind at 1, owner_Ref, modify. cbn [rdv cms owner_refs calls].
      unfold bind at 1, on_cms at 1, get_cancellation_token, bind at 1, cm_at, bind at 1, cm_set, modify, ret. cbn [cms].
      rewrite Hm. unfold bind at 1, on_cms at 1, RegisterCallback, bind at 1, cm_at. cbn [cms]. rewrite lookup_insert_eq.
      cbv zeta. set (m1 := with_token _ m). change (negb (is_cancelled_ m1) && negb (is_cancelling_ m1)) with (active m).
      destruct (active m).
      * destruct (He a (kRecv (mkWaiter d (Some (c, next_cancellation_token_ m))) (next_cancellation_token_ m)) eq_refl)
          as (r2 & E2 & Hs2 & Hq2). apply bind_inv in E2 as (x & r3 & E3 & E4).
        unfold bind at 1, cm_set, modify. cbn [rdv]. unfold ret at 1, bind at 1, on_rdv at 1. cbn [rdv]. rewrite E3.
        unfold bind at 1, on_rdv at 1. cbn [rdv]. rewrite E4. by eexists _, _.
      * unfold bind at 1, ret at 1, ret at 1. eexists _, _. split; [done|]. split_and!; try done.
        -- cbn [snd]. unfold Rendezvous.unref. by destruct rc_owner.
        -- intros k'. cbn [fst rdv]. rewrite Hq1. apply qset_same.
    + destruct (He a (kRecv (mkWaiter d None) kInvalidToken) eq_refl) as (r2 & E2 & Hs2 & Hq2).
      apply bind_inv in E2 as (x & r3 & E3 & E4). unfold bind at 1, on_rdv at 1. cbn [rdv]. rewrite E3.
      unfold bind at 1, on_rdv at 1. cbn [rdv]. rewrite E4. by eexists _, _.
  - destruct He as (x & it & rest & r2 & Hq & Hk & E2 & Hit & Hs2 & Hq2).
    unfold bind at 1, on_rdv at 1. cbn [rdv]. rewrite E2. unfold bind at 1, on_rdv at 1, item_at. cbn [rdv].
    rewrite Hit, Hq. unfold content. destruct (item_state it) as [v dead|]; [|done]. by eexists _, _.
Qed.

Lemma spec_cancel_found r (m1 m2 : list Z) x a w token : waits r (m1 ++ x :: m2) ->
  (forall y, y ∈ m1 -> token_of r y <> Some token) -> item_contents r !! x = Some (a, kRecv w token) ->
  spec_cancel token (entries_of r (m1 ++ x :: m2))
  = (entries_of r (m1 ++ m2), [TInvoke w (StatusError CANCELLED) Args_new a Tensor_new false]).
Proof.
  intros Hw Hm1 Hx. induction m1 as [|y m1 IH]; unfold entries_of in *; cbn [app omap list_omap].
  - rewrite Hx. cbn [spec_cancel]. by rewrite Z.eqb_refl.
  - destruct (Hw y ltac:(left)) as (a' & w' & u & Hy). pose proof (Hm1 y ltac:(left)) as Hne.
    unfold token_of in Hne. rewrite Hy in *. cbn [spec_cancel]. destruct (Z.eqb_spec u token) as [->|_]; [done|].
    rewrite IH; [done|intros z Hz; apply Hw; by right|intros z Hz; apply Hm1; by right].
Qed.

Lemma spec_cancel_none r (l : list Z) token : (forall y, y ∈ l -> token_of r y <> Some token) ->
  spec_cancel token (entries_of r l) = (entries_of r l, []).
Proof.
  unfold entries_of. induction l as [|y l IH]; intros Hl; [done|]. cbn [omap list_omap].
  pose proof (Hl y ltac:(left)) as Hne. unfold token_of in Hne.
  assert (IH' := IH (fun z Hz => Hl z (list_elem_of_further _ _ _ Hz))).
  destruct (item_contents r !! y) as [[a [|w u]]|]; [done| |done]. cbn [spec_cancel].
  destruct (Z.eqb_spec u token) as [->|_]; [done|]. by rewrite IH'.
Qed.

Lemma CancelCallback_spec r L token k : rep r L ->
  let res := spec_cancel token (queue_of r k) in
  exists new r', CancelCallback Tensor_new rc_owner token k r = Done (new, r') /\ status_ r' = status_ r /\
    List.filter visible new = res.2 ++ unref /\ forall k', queue_of r' k' = qset k res.1 (queue_of r) k'.
Proof.
  intros Hrep. cbv zeta. destruct (cancel_locked_spec r L token k Hrep) as (found & r' & L' & E & Hrep' & Hc & Hs & Hn & Hres).
  rewrite (queue_of_rep r L k Hrep). cbv zeta in Hres. set (l := default [] (L !! k)) in *.
  assert (Hu : List.filter visible unref = unref) by (unfold Rendezvous.unref; by destruct rc_owner).
  unfold CancelCallback. rewrite (bind_Done _ _ _ _ _ E). destruct found as [x|].
  - destruct Hres as (m1 & m2 & Hl & Htok & Hm1 & ->).
    unfold token_of in Htok. destruct (item_contents r !! x) as [[a [|w t]]|] eqn:Hx; [done| |done]. injection Htok as ->.
    assert (Hx' := Hx). rewrite <-Hc in Hx'. apply contents_lookup_inv in Hx' as (it & Hit & Hcit).
    unfold content in Hcit. injection Hcit as <- Hst. unfold bind at 1, item_at. rewrite Hit, Hst.
    assert (Hk : L !! k = Some l) by (unfold l in *; destruct (L !! k); [done|by destruct m1]).
    assert (Hw : waits r l).
    { intros y Hy. destruct (rep_elem _ _ Hrep k l y Hk Hy) as [[a' st'] Hcy].
      assert (Hxl : x ∈ l) by (rewrite Hl; apply elem_of_app; right; left).
      pose proof (rep_kind _ _ Hrep k l Hk x y _ _ Hxl Hy Hx Hcy) as Hkind. destruct st' as [|w' t']; [done|eauto]. }
    rewrite Hl in *. rewrite (spec_cancel_found r m1 m2 x (args it) w token) by done.
    eexists _, r'. split; [done|]. split_and!; [done|cbn; by rewrite Hu|]. intros k'. rewrite insert_id in Hrep' by done.
    rewrite (queue_of_change r r' L _ k (m1 ++ m2) Hrep Hrep');
      [|by intros; rewrite put_ne|apply put_eq|by intros; rewrite Hc].
    by rewrite (entries_of_ext r r') by (intros; by rewrite Hc).
  - destruct Hres as [-> Hall]. rewrite spec_cancel_none by done. exists unref, r'. split_and!; try done. intros k'.
    rewrite (queue_of_change r r' L _ k l Hrep Hrep');
      [|by intros; rewrite lookup_insert_ne|by rewrite lookup_insert_eq|by intros; rewrite Hc].
    by rewrite (entries_of_ext r r') by (intros; by rewrite Hc).
Qed.

(** The waiters of all queues, in the order in which the table is traversed. *)
Definition aborted (st : Status) r (keys : list Z) : list (task Tensor) :=
  concat (map (fun k => concat (map (spec_abort st) (queue_of r k))) keys).

Lemma abort_items_visible st (its : list (Z * Item Tensor)) :
  List.filter visible (concat (map (abort_item Tensor_new st) its))
  = concat (map (spec_abort st) (map (fun x => content x.2) its)).
Proof.
  induction its as [|[x it] its IH]; [done|]. cbn [map concat]. rewrite List.filter_app, IH. f_equal.
  unfold abort_item, spec_abort, content. cbn [snd]. by destruct (item_state it).
Qed.

Lemma walk_items r r' fuel h : items r' = items r -> forall l, walk fuel h r = Done (l, r) -> walk fuel h r' = Done (l, r').
Proof.
  intros Hi. revert h. induction fuel as [|fuel IH]; intros [x|] l; cbn [walk]; try done; try (by intros [= <-]).
  unfold bind at 1 2 3 4, item_at. rewrite Hi. destruct (items r !! x) as [it|]; [|done].
  destruct (walk fuel (item_next it) r) as [[l' r1]| |] eqn:E; [|done..]. intros [= <- ->]. by rewrite (IH _ _ E).
Qed.

Lemma StartAbort_spec (o : IterOrder) r L st : rep r L -> ok st = false ->
  exists new r', StartAbort Tensor_new o st r = Done (new, r') /\
    status_ r' = (if ok (status_ r) then st else status_ r) /\
    List.filter visible new = aborted st r (entries o _ (table_ r)).*1 /\ forall k, queue_of r' k = [].
Proof.
  intros Hrep Hst. unfold StartAbort, CHECK, bind at 1. rewrite Hst. cbn [negb]. unfold bind at 1, get, bind at 1, modify.
  set (r1 := mkRdv ∅ (if ok (status_ r) then st else status_ r) (items r) (next_item r)).
  assert (Hqs : forall k q, (k, q) ∈ entries o _ (table_ r) -> table_ r !! k = Some q).
  { intros k q Hin. rewrite (entries_perm o) in Hin. by apply elem_of_map_to_list in Hin. }
  assert (exists new, abort_queues Tensor_new st (entries o _ (table_ r)) r1 = Done (new, r1) /\
    List.filter visible new = aborted st r (entries o _ (table_ r)).*1) as (new & E & Hnew); [|by exists new, r1].
  induction (entries o _ (table_ r)) as [|[k q] qs IH]; [by exists []|].
  pose proof (Hqs k q ltac:(left)) as Hq. destruct IH as (new & E & Hnew); [intros k' q' ?; apply Hqs; by right|].
  destruct (proj1 (rep_dom _ _ Hrep k) ltac:(by eexists)) as [l Hl]. destruct (rep_queue _ _ Hrep k q l Hq Hl) as [Hseg _].
  destruct (walk_spec r l _ _ Hseg (rep_length r L k l Hrep Hl)) as (its & Ew & _ & _).
  cbn [abort_queues]. unfold bind at 1, get. change (size (items r1)) with (size (items r)).
  rewrite (bind_Done _ _ _ _ _ (walk_items r r1 _ _ eq_refl _ Ew)), (bind_Done _ _ _ _ _ E). eexists. split; [done|].
  rewrite List.filter_app, abort_items_visible, Hnew. unfold aborted. cbn [fmap list_fmap map concat fst]. f_equal.
  unfold queue_of at 1. by rewrite Hq, Ew.
Qed.

Lemma delete_spec (o : IterOrder) r L : rep r L ->
  exists new r', LocalRendezvous_delete Tensor_new o r = Done (new, r') /\
    List.filter visible new = aborted (StatusError CANCELLED) r (entries o _ (table_ r)).*1 /\ forall k, queue_of r' k = [].
Proof.
  intros Hrep. unfold LocalRendezvous_delete, bind, get. destruct (bool_decide_reflect (table_ r = ∅)) as [He|_].
  - exists [], r. split_and!; [done| |].
    + pose proof (entries_perm o _ (table_ r)) as Hp. rewrite He, map_to_list_empty in Hp.
      apply Permutation_nil_r in Hp. by rewrite He, Hp.
    + intros k. unfold queue_of. by rewrite He, lookup_empty.
  - destruct (StartAbort_spec o r L (StatusError CANCELLED) Hrep eq_refl) as (new & r' & E & _ & Hv & Hq). by exists new, r'.
Qed.
End spec.
