(* ===== verification/RendezvousTheorems.v ===== *)
(** * The local rendezvous: theorems about every reachable state

    In every interleaving of the clients' calls: the critical sections run
    without touching freed items and every call completes; each [done] closure
    is called exactly once; the references on the owner and the items balance;
    and the queues behave first-in first-out.  The last theorem is a defect:
    tokens are unique per cancellation manager only, and the callback looks for
    the token alone. *)
From S2P Require Import Prelude Coding Cancellation Hash Counting Rendezvous RendezvousInv RendezvousSys RendezvousSpec.
From Stdlib Require Import Relation_Operators Wellfounded.
From stdpp Require Import options.
#[local] Open Scope tf_monad_scope.

Section theorems.
Context {Tensor : Type} (Tensor_new : Tensor) (rc_owner : bool).
Implicit Types (L : gmap Z (list Z)) (t : task Tensor) (s : Sys Tensor) (w : World Tensor).

#[local] Abbreviation step := (step Tensor_new rc_owner).
#[local] Abbreviation reachable := (reachable Tensor_new rc_owner).
#[local] Abbreviation SInv := (SInv rc_owner).

(** A step of a thread that is running. *)
Definition thread_step w w' : Prop :=
  exists i o t ts new s, threads w !! i = Some (t :: ts) /\ run Tensor_new rc_owner o t (sys w) = Done (new, s) /\
    w' = mkWorld s (<[i := new ++ ts]> (threads w)) (next_done w).

(** No thread has work left. *)
Definition idle w : Prop := Forall (fun ts => ts = []) (threads w).

Definition times_called (d : Z) s : Z := zsum (fun e => occ d (ev_done e)) (calls s).

(** ** Every call completes *)

(** What a task leaves to do has a lower rank. *)
Definition rank t : nat :=
  match t with
  | TStartCancel _ => 3
  | TSend _ _ _ _ | TRecv _ _ _ | TAbort _ | TCallback _ _ => 2
  | TInvoke _ _ _ _ _ _ => 1
  | _ => 0
  end.

Definition lower n (new : list (task Tensor)) : Prop := Forall (fun t => (rank t < n)%nat) new.

Lemma lower_visible n new : (0 < n)%nat -> lower n (List.filter visible new) -> lower n new.
Proof.
  intros Hn. induction new as [|t new IH]; [constructor|]. cbn [List.filter]. unfold lower in *.
  destruct (visible t) eqn:Hv; [intros [? ?]%Forall_cons_1; constructor; auto|].
  intros Hl. constructor; [by destruct t|auto].
Qed.

Lemma lower_unref n : (0 < n)%nat -> lower n (unref rc_owner).
Proof. intros Hn. unfold unref. destruct rc_owner; [by repeat constructor|constructor]. Qed.

Lemma lower_send st a v dead l : lower 2 (spec_send (Tensor := Tensor) st a v dead l).2.
Proof. unfold spec_send. destruct (negb (ok st)), l as [|[? []] ?]; repeat constructor. Qed.

Lemma lower_recv st m a d l : lower 2 (spec_recv Tensor_new rc_owner st m a d l).2.
Proof.
  unfold spec_recv. destruct (negb (ok st)), l as [|[? []] ?], (cancellation_manager a), m as [m|]; cbv zeta;
    try destruct (active m); first [by repeat constructor|apply Forall_app; split; [apply lower_unref; lia|by repeat constructor]].
Qed.

Lemma lower_cancel token l : lower 2 (spec_cancel Tensor_new token l).2.
Proof.
  induction l as [|[a [v dead|w u]] l IH]; cbn [spec_cancel]; [constructor..|].
  destruct (u =? token); [by repeat constructor|exact IH].
Qed.

Lemma lower_aborted st r keys : lower 2 (aborted Tensor_new st r keys).
Proof.
  unfold aborted, lower. apply Forall_concat, Forall_fmap, Forall_true. intros k.
  apply Forall_concat, Forall_fmap, Forall_true. intros [a []]; repeat constructor.
Qed.

Lemma lower_callbacks (o : IterOrder) (cb : gmap Z (Z * Z)) c (notify : bool) :
  lower 3 (map (fun x => TCallback x.2.1 x.2.2) (entries o _ cb) ++ map TStartCancel []
           ++ [TCancelEnd c] ++ (if notify then [TCancelNotify c] else [])).
Proof.
  apply Forall_app. split; [apply Forall_fmap, Forall_true; intros; simpl; lia|]. destruct notify; by repeat constructor.
Qed.

Lemma run_start_cancel_lower o s L T n c new s' : SInv s L T n -> run Tensor_new rc_owner o (TStartCancel c) s = Done (new, s') ->
  lower 3 new.
Proof.
  intros Hinv. cbn [run]. unfold bind at 1, on_cms, StartCancel_begin, bind at 1, cm_at at 1.
  destruct (cms s !! c) as [m|] eqn:Hc; [|done].
  destruct (is_cancelled_ m || is_cancelling_ m); [by intros [= <- _]; constructor|].
  destruct (state_ m) as [st|] eqn:Hst.
  - rewrite (ci_child _ _ _ _ (si_cm _ _ _ _ _ Hinv c m Hc) st Hst). unfold cm_set.
    unfold bind at 1, modify at 1. unfold bind at 1, get at 1. unfold bind at 1. rewrite collect_none.
    unfold ret at 1. unfold bind at 1, cm_at. rewrite lookup_insert_eq. cbn [state_ with_state].
    unfold bind, modify, ret. intros [= <- _]. apply (lower_callbacks o (callbacks st) c true).
  - unfold cm_set, bind, modify, ret. intros [= <- _]. apply (lower_callbacks o ∅ c false).
Qed.

Lemma run_lower w L i t ts o new s : WInv rc_owner w L -> threads w !! i = Some (t :: ts) ->
  run Tensor_new rc_owner o t (sys w) = Done (new, s) -> lower (rank t) new.
Proof.
  intros [Hinv _ Hok] Hi E. pose proof (si_rep _ _ _ _ _ Hinv) as Hrep.
  pose proof (Forall_lookup_1 _ _ _ _ Hok Hi) as [Ht _]%Forall_cons_1.
  destruct t; cbn [rank]; [| | |by eapply run_start_cancel_lower| |cbn [run] in E..].
  1, 2, 3, 4: apply lower_visible; [lia|].
  - destruct (Send_spec (rdv (sys w)) L key a v dead Hrep) as (new' & r' & E' & _ & Hv & _).
    cbn [run] in E. unfold bind, on_rdv, ret in E. rewrite E' in E. injection E as <- _. simpl. rewrite Hv. apply lower_send.
  - destruct (RecvAsync_spec Tensor_new rc_owner (sys w) L key a done Hrep Ht) as (new' & r' & E' & _ & Hv & _).
    cbn [run] in E. rewrite E' in E. injection E as <- _. rewrite Hv. apply lower_recv.
  - destruct (StartAbort_spec Tensor_new o (rdv (sys w)) L st Hrep Ht) as (new' & r' & E' & _ & Hv & _).
    cbn [run] in E. unfold on_rdv in E. rewrite E' in E. injection E as <- _. rewrite Hv. apply lower_aborted.
  - destruct (CancelCallback_spec Tensor_new rc_owner (rdv (sys w)) L token key_hash Hrep) as (new' & r' & E' & _ & Hv & _).
    cbn [run] in E. unfold on_rdv in E. rewrite E' in E. injection E as <- _. rewrite Hv.
    apply Forall_app. split; [apply lower_cancel|apply lower_unref; lia].
  - apply bind_inv in E as (? & ? & _ & [= <- _]). constructor.
  - apply bind_inv in E as (? & ? & _ & [= <- _]). constructor.
  - unfold InvokeWaiter in E. destruct (w_cancel w0) as [[c u]|]; [|injection E as <- _; by repeat constructor].
    apply bind_inv in E as ([] & ? & _ & [= <- _]); [|by repeat constructor].
    apply Forall_app. split; [apply lower_unref; lia|by repeat constructor].
  - injection E as <- _. constructor.
  - injection E as <- _. constructor.
  - apply bind_inv in E as (? & ? & _ & [= <- _]). constructor.
Qed.

(** The number of tasks of each rank, ordered lexicographically, decreases. *)
Definition is_rank (j : nat) t : Z := if decide (rank t = j) then 1 else 0.

Definition of_rank (j : nat) w : nat := Z.to_nat (totals (threads w) (is_rank j)).

Definition measure w : nat * (nat * (nat * nat)) := (of_rank 3 w, (of_rank 2 w, (of_rank 1 w, of_rank 0 w))).

#[local] Abbreviation lex := (slexprod _ _ lt (slexprod _ _ lt (slexprod _ _ lt lt))).

Lemma of_rank_step w L i t ts o new s j : WInv rc_owner w L -> threads w !! i = Some (t :: ts) ->
  run Tensor_new rc_owner o t (sys w) = Done (new, s) -> (rank t <= j)%nat ->
  let w' := mkWorld s (<[i := new ++ ts]> (threads w)) (next_done w) in
  (of_rank j w' + (if decide (rank t = j) then 1 else 0) = of_rank j w)%nat.
Proof.
  intros Hinv Hi E Hj w'. pose proof (run_lower w L i t ts o new s Hinv Hi E) as Hl.
  assert (Hnn : nonneg (is_rank j)) by (intros ?; unfold is_rank; destruct (decide _); lia).
  pose proof (totals_ge _ _ _ _ (is_rank j) Hi Hnn) as Hge.
  unfold of_rank, w'. cbn [threads]. rewrite (totals_step _ _ _ _ new _ Hi). unfold advance.
  rewrite (zsum_0 _ new); [change (is_rank j t) with (if decide (rank t = j) then 1 else 0) in *; destruct (decide (rank t = j)); lia|].
  intros t' Ht'. unfold lower in Hl. rewrite Forall_forall in Hl. specialize (Hl t' Ht'). unfold is_rank.
  rewrite decide_False; [done|lia].
Qed.

Lemma measure_step w w' : reachable w -> thread_step w w' -> lex (measure w') (measure w).
Proof.
  intros [L Hw]%reachable_WInv (i & o & t & ts & new & s & Hi & E & ->).
  pose proof (fun j => of_rank_step w L i t ts o new s j Hw Hi E) as Hj. cbv zeta in Hj. unfold measure.
  set (w' := mkWorld _ _ _) in *. pose proof (Hj 3%nat) as H3. pose proof (Hj 2%nat) as H2.
  pose proof (Hj 1%nat) as H1. pose proof (Hj 0%nat) as H0. clear Hj.
  destruct (rank t) as [|[|[|[|n]]]] eqn:Hr; [| | | |by destruct t].
  all: simpl in *; try specialize (H3 ltac:(lia)); try specialize (H2 ltac:(lia)); try specialize (H1 ltac:(lia));
    try specialize (H0 ltac:(lia)).
  - replace (of_rank 3 w') with (of_rank 3 w) by lia. replace (of_rank 2 w') with (of_rank 2 w) by lia.
    replace (of_rank 1 w') with (of_rank 1 w) by lia. do 3 right. lia.
  - replace (of_rank 3 w') with (of_rank 3 w) by lia. replace (of_rank 2 w') with (of_rank 2 w) by lia.
    do 2 right. left. lia.
  - replace (of_rank 3 w') with (of_rank 3 w) by lia. right. left. lia.
  - left. lia.
Qed.

Lemma thread_steps_terminate w : reachable w -> Acc (fun w2 w1 => thread_step w1 w2) w.
Proof.
  assert (Hwf : well_founded lex) by (repeat apply wf_slexprod; apply lt_wf).
  remember (measure w) as x eqn:Hx. revert w Hx. induction (Hwf x) as [x _ IH]. intros w -> Hw. constructor. intros w' Hst.
  apply (IH (measure w')); [by apply measure_step|done|]. eapply reachable_step; [exact Hw|].
  destruct Hst as (i & o & t & ts & new & s & Hi & E & ->). by eapply step_run.
Qed.

(** ** The counts of an idle world *)
Lemma idle_totals w f : idle w -> totals (threads w) f = 0.
Proof. intros Hi. apply zsum_0. intros l Hl. unfold idle in Hi. rewrite Forall_forall in Hi. by rewrite (Hi l Hl). Qed.

Lemma i_waiter_nonneg f (r : Rdv Tensor) x : (forall y, 0 <= f y) -> 0 <= i_waiter f r x.
Proof. intros Hf. unfold i_waiter. by destruct (item_contents r !! x) as [[? []]|]. Qed.

Lemma totals_nonneg ths f : nonneg f -> 0 <= totals (Tensor := Tensor) ths f.
Proof. intros Hf. apply zsum_nonneg. intros l. by apply zsum_nonneg. Qed.

Lemma t_done_nonneg d : nonneg (t_done (Tensor := Tensor) d).
Proof. intros []; simpl; (apply occ_nonneg || lia). Qed.

Lemma queued_entry (r : Rdv Tensor) L d : rep r L -> 0 < msum (i_waiter (fun y => occ d (w_done y)) r) L ->
  exists k a y u, (a, kRecv y u) ∈ queue_of r k /\ w_done y = d.
Proof.
  intros Hrep (k & l & x & Hl & Hx & Hpos)%msum_pos. unfold i_waiter in Hpos.
  destruct (item_contents r !! x) as [[a [|y u]]|] eqn:Hc; [done| |done]. exists k, a, y, u. split.
  - rewrite (queue_of_rep r L k Hrep), Hl. apply list_elem_of_omap. by exists x.
  - unfold occ in Hpos. destruct (decide _); [done|lia].
Qed.

Lemma drained_count f L : drained L -> msum f L = 0.
Proof. intros Hd. apply msum_0. intros k l x Hl Hx. rewrite (Hd k l Hl) in Hx. by apply not_elem_of_nil in Hx. Qed.

(** ** Theorems *)

(** C27. In every reachable state of the rendezvous each pending piece of work
    runs without aborting (no null or freed item is touched, no loop runs away),
    and the threads cannot run forever: whatever the schedule, every [Send],
    [RecvAsync], [StartAbort] and cancellation completes. *)
Theorem rendezvous_completes w : reachable w ->
  Acc (fun w2 w1 => thread_step w1 w2) w /\
  forall i t ts o, threads w !! i = Some (t :: ts) -> exists new s, run Tensor_new rc_owner o t (sys w) = Done (new, s).
Proof.
  intros Hw. split; [by apply thread_steps_terminate|]. intros i t ts o Hi. apply reachable_WInv in Hw as [L HL].
  destruct (run_task Tensor_new rc_owner w L i t ts o HL Hi) as (new & s & _ & E & _). by exists new, s.
Qed.

(** C13. Each receive's [done] closure is called at most once, never before the
    receive was made; once no thread has work left it has been called exactly
    once or still waits in a queue, and after an abort it has been called. *)
Theorem rendezvous_exactly_once w d : reachable w ->
  let s := sys w in
  (0 <= times_called d s <= if decide (0 <= d < next_done w) then 1 else 0) /\
  (idle w -> 0 <= d < next_done w ->
     times_called d s = 1 \/
     times_called d s = 0 /\ exists k a y u, (a, kRecv y u) ∈ queue_of (rdv s) k /\ w_done y = d) /\
  (idle w -> 0 <= d < next_done w -> ok (status_ (rdv s)) = false -> times_called d s = 1).
Proof.
  intros [L [Hinv _ _]]%reachable_WInv s. pose proof (si_done _ _ _ _ _ Hinv d) as Hd. fold s in Hd. fold (times_called d s) in Hd.
  assert (H0 : 0 <= times_called d s) by (apply zsum_nonneg; intros; apply occ_nonneg).
  assert (H1 : 0 <= msum (i_waiter (fun y => occ d (w_done y)) (rdv s)) L)
    by (apply msum_nonneg; intros; apply i_waiter_nonneg; intros; apply occ_nonneg).
  pose proof (totals_nonneg (threads w) _ (t_done_nonneg d)) as H2. split_and!; [done|lia| |].
  - intros Hi Hr. rewrite (idle_totals w _ Hi), decide_True in Hd by done.
    destruct (decide (times_called d s = 1)) as [|Hne]; [by left|right]. split; [lia|].
    apply (queued_entry _ L); [apply Hinv|lia].
  - intros Hi Hr Hs. rewrite (idle_totals w _ Hi), decide_True in Hd by done.
    rewrite (drained_count _ L) in Hd by (by apply (si_drained _ _ _ _ _ Hinv)). lia.
Qed.

(** The references that receives take on the rendezvous are those of the
    callbacks that are registered with a manager or are about to run or to be
    dropped, so that an idle rendezvous holds one per registered callback; and
    an idle rendezvous has allocated exactly the items in its queues, none of
    them twice. *)
Theorem rendezvous_balance w : reachable w ->
  let s := sys w in
  owner_refs s = (if rc_owner then registered (cms s) + totals (threads w) t_ref else 0) /\ 0 <= owner_refs s /\
  (idle w -> owner_refs s = (if rc_owner then registered (cms s) else 0) /\
     exists L, rep (rdv s) L /\ forall x, msum (occ x) L = if decide (is_Some (items (rdv s) !! x)) then 1 else 0).
Proof.
  intros [L [Hinv _ _]]%reachable_WInv s. pose proof (si_refs _ _ _ _ _ Hinv) as Hr. fold s in Hr. rewrite Hr. split_and!.
  - done.
  - destruct rc_owner; [|done]. assert (0 <= registered (cms s)) by (apply gsum_nonneg; lia).
    assert (0 <= totals (threads w) t_ref); [|lia]. apply totals_nonneg. intros []; simpl; lia.
  - intros Hi. rewrite (idle_totals w _ Hi). split; [destruct rc_owner; lia|]. exists L. split; [apply Hinv|]. intros x.
    pose proof (si_items _ _ _ _ _ Hinv x) as Hx. rewrite (idle_totals w _ Hi) in Hx. fold s in Hx.
    rewrite Z.add_0_r in Hx. rewrite Hx. unfold present, item_contents. rewrite lookup_fmap.
    destruct (items (rdv s) !! x); [by rewrite decide_True by (by eexists)|by rewrite decide_False by (by intros [? ?])].
Qed.

(** The type invariant of local_rendezvous.h: the items under a key are all
    sent values or all waiters.  The methods read the union of an item at the
    type of the first item of its queue, so they never read the wrong member. *)
Theorem rendezvous_kinds w k x y : reachable w ->
  x ∈ queue_of (rdv (sys w)) k -> y ∈ queue_of (rdv (sys w)) k -> is_recv x.2 = is_recv y.2.
Proof.
  intros [L [Hinv _ _]]%reachable_WInv. pose proof (si_rep _ _ _ _ _ Hinv) as Hrep. rewrite (queue_of_rep _ L k Hrep).
  destruct (L !! k) as [l|] eqn:Hl; [|by intros ?%not_elem_of_nil]. cbn [default].
  intros (i & Hi & Hx)%list_elem_of_omap (j & Hj & Hy)%list_elem_of_omap. by apply (rep_kind _ _ Hrep k l Hl i j).
Qed.

(** C26. In every reachable state the linked queues implement one first-in
    first-out list per key: [Send] hands its value to the oldest waiter or is
    appended, [RecvAsync] takes the oldest value or is appended with the token
    of its manager (or cancelled at once), the cancellation callback takes the
    first waiter with its token out of the list, and [StartAbort] and
    the destructor empty every list and call every waiter.  Other keys are untouched, and the clients' calls are
    those of the abstract operations. *)
Theorem rendezvous_fifo w key a v dead d token o st : reachable w ->
  (forall c, cancellation_manager a = Some c -> is_Some (cms (sys w) !! c)) -> ok st = false ->
  let s := sys w in let r := rdv s in let k := KeyHash key in let Q := queue_of r in
  (let res := spec_send (status_ r) a v dead (Q k) in
   exists new r', Send key a v dead r = Done ((status_ r, new), r') /\ status_ r' = status_ r /\
     List.filter visible new = res.2 /\ forall k', queue_of r' k' = qset k res.1 Q k') /\
  (let res := spec_recv Tensor_new rc_owner (status_ r) (c ← cancellation_manager a; cms s !! c) a d (Q k) in
   exists new s', RecvAsync Tensor_new rc_owner key a d s = Done (new, s') /\ status_ (rdv s') = status_ r /\
     List.filter visible new = res.2 /\ forall k', queue_of (rdv s') k' = qset k res.1 Q k') /\
  (let res := spec_cancel Tensor_new token (Q k) in
   exists new r', CancelCallback Tensor_new rc_owner token k r = Done (new, r') /\ status_ r' = status_ r /\
     List.filter visible new = res.2 ++ unref rc_owner /\ forall k', queue_of r' k' = qset k res.1 Q k') /\
  (exists new r', StartAbort Tensor_new o st r = Done (new, r') /\
     status_ r' = (if ok (status_ r) then st else status_ r) /\
     List.filter visible new = aborted Tensor_new st r (entries o _ (table_ r)).*1 /\ forall k', queue_of r' k' = []) /\
  (exists new r', LocalRendezvous_delete Tensor_new o r = Done (new, r') /\
     List.filter visible new = aborted Tensor_new (StatusError CANCELLED) r (entries o _ (table_ r)).*1 /\
     forall k', queue_of r' k' = []).
Proof.
  intros [L [Hinv _ _]]%reachable_WInv Ha Hst. pose proof (si_rep _ _ _ _ _ Hinv) as Hrep. cbv zeta. split_and!.
  - by eapply Send_spec.
  - by eapply RecvAsync_spec.
  - by eapply CancelCallback_spec.
  - by eapply StartAbort_spec.
  - by eapply delete_spec.
Qed.

(** ** Traces *)

(** A schedule: what clients do and which thread takes its next step. *)
Inductive action :=
| ACall (t : task Tensor)
| ARecv (key : list Z) (a : Args)
| AManager (c : Z)
| ARun (i : nat).

Definition callable w t : bool :=
  match t with
  | TSend _ _ _ _ => true
  | TAbort st => negb (ok st)
  | TStartCancel c => bool_decide (is_Some (cms (sys w) !! c))
  | _ => false
  end.

Definition act (x : action) w : option (World Tensor) :=
  match x with
  | ACall t => if callable w t then Some (mkWorld (sys w) (threads w ++ [[t]]) (next_done w)) else None
  | ARecv key a =>
      if (next_done w <? 2 ^ 63 - 1) &&
         match cancellation_manager a with Some c => bool_decide (is_Some (cms (sys w) !! c)) | None => true end
      then Some (mkWorld (sys w) (threads w ++ [[TRecv key a (next_done w)]]) (next_done w + 1)) else None
  | AManager c =>
      match cms (sys w) !! c with
      | Some _ => None
      | None => Some (mkWorld (mkSys (rdv (sys w)) (<[c := CM_new]> (cms (sys w))) (owner_refs (sys w)) (calls (sys w)))
                        (threads w) (next_done w))
      end
  | ARun i =>
      match threads w !! i with
      | Some (t :: ts) =>
          match run Tensor_new rc_owner some_order t (sys w) with
          | Done (new, s) => Some (mkWorld s (<[i := new ++ ts]> (threads w)) (next_done w))
          | _ => None
          end
      | _ => None
      end
  end.

Fixpoint schedule (xs : list action) w : option (World Tensor) :=
  match xs with
  | [] => Some w
  | x :: xs => match act x w with Some w' => schedule xs w' | None => None end
  end.

Lemma act_step x w w' : act x w = Some w' -> step w w'.
Proof.
  destruct x as [t|key a|c|i]; cbn [act].
  - destruct (callable w t) eqn:Hc; [|done]. intros [= <-]. constructor. destruct t; try done; simpl in *.
    + by apply negb_true_iff in Hc.
    + by apply bool_decide_eq_true in Hc.
  - destruct (_ && _) eqn:Hb; [|done]. intros [= <-]. apply andb_prop in Hb as [Hn Ha]. apply Z.ltb_lt in Hn.
    constructor; [done|]. intros c Hc. rewrite Hc in Ha. by apply bool_decide_eq_true in Ha.
  - destruct (cms (sys w) !! c) eqn:Hc; [done|]. intros [= <-]. by constructor.
  - destruct (threads w !! i) as [[|t ts]|] eqn:Hi; [done| |done].
    destruct (run _ _ _ _ _) as [[new s]| |] eqn:E; [|done..]. intros [= <-]. by eapply step_run.
Qed.

Lemma schedule_reachable xs : forall w w', reachable w -> schedule xs w = Some w' -> reachable w'.
Proof.
  induction xs as [|x xs IH]; intros w w' Hw; cbn [schedule]; [by intros [= <-]|].
  destruct (act x w) as [w1|] eqn:E; [|done]. apply IH. eapply reachable_step; [exact Hw|by apply act_step in E].
Qed.
End theorems.

(** Two receives of one key with different managers, the second of which is cancelled. *)
Definition with_manager (c : Z) : Args := mkArgs None 0 (Some c).

Definition two_managers : list (action (Tensor := unit)) :=
  [AManager 1; AManager 2; ARecv [107] (with_manager 1); ARun 0; ARecv [107] (with_manager 2); ARun 1;
   ACall (TStartCancel 2); ARun 2; ARun 2; ARun 2; ARun 2; ARun 2; ARun 2; ARun 2; ARun 2; ARun 2].

(** The world a schedule leads to. *)
Definition after (xs : list (action (Tensor := unit))) : World unit := default World_new (schedule tt true xs World_new).

Lemma after_reachable xs : is_Some (schedule tt true xs World_new) -> reachable tt true (after xs).
Proof.
  intros [w Hw]. unfold after. rewrite Hw. eapply schedule_reachable; [constructor|exact Hw].
Qed.

Lemma two_managers_reachable : reachable tt true (after two_managers).
Proof. apply after_reachable. exists (after two_managers). vm_compute. reflexivity. Qed.

Lemma two_managers_idle : idle (after two_managers).
Proof. vm_compute. repeat constructor. Qed.

(** Tokens are unique within a cancellation manager only, but the callback
    that a receive registers looks for its token alone.  So cancelling one
    manager can cancel the receive of another: two receives of one key with the
    managers 1 and 2 both get token 0; cancelling manager 2 calls the closure of
    the first receive with [CANCELLED], although manager 1 is active, and leaves
    the second waiting, although manager 2 is cancelled and nothing will cancel
    it again. *)
Theorem cancel_other_manager : exists w, reachable tt true w /\ idle w /\
  (exists m, cms (sys w) !! 1 = Some m /\ active m = true) /\
  (exists m, cms (sys w) !! 2 = Some m /\ is_cancelled_ m = true /\ cbs m = ∅) /\
  calls (sys w) = [mkEvent 0 (StatusError CANCELLED) Args_new (with_manager 1) tt false] /\
  queue_of (rdv (sys w)) (KeyHash [107]) = [(with_manager 2, kRecv (mkWaiter 1 (Some (2, 0))) 0)].
Proof.
  exists (after two_managers). split_and!; [apply two_managers_reachable|apply two_managers_idle| | | |].
  - eexists. split; vm_compute; reflexivity.
  - eexists. split_and!; vm_compute; reflexivity.
  - vm_compute. reflexivity.
  - vm_compute. reflexivity.
Qed.

(** A state with a thread at work. *)
Definition receiving : list (action (Tensor := unit)) := [AManager 1; ARecv [107] (with_manager 1)].

Lemma receiving_reachable : reachable tt true (after receiving).
Proof. apply after_reachable. exists (after receiving). vm_compute. reflexivity. Qed.

Lemma rendezvous_completes_witness :
  exists new s, run tt true some_order (TRecv [107] (with_manager 1) 0) (sys (after receiving)) = Done (new, s).
Proof.
  destruct (rendezvous_completes tt true (after receiving) receiving_reachable) as [_ H].
  apply (H 0%nat _ [] some_order). vm_compute. reflexivity.
Defined.

Lemma rendezvous_exactly_once_witness :
  0 <= 1 < next_done (after two_managers) /\
  (times_called 1 (sys (after two_managers)) = 1 \/
   times_called 1 (sys (after two_managers)) = 0 /\
   exists k a y u, (a, kRecv y u) ∈ queue_of (rdv (sys (after two_managers))) k /\ w_done y = 1).
Proof.
  destruct (rendezvous_exactly_once tt true (after two_managers) 1 two_managers_reachable) as (_ & H & _).
  assert (Hd : 0 <= 1 < next_done (after two_managers)) by (vm_compute; split; [discriminate|reflexivity]).
  split; [exact Hd|]. exact (H two_managers_idle Hd).
Defined.

Lemma rendezvous_balance_witness : 0 <= owner_refs (sys (after two_managers)).
Proof. exact (proj1 (proj2 (rendezvous_balance tt true (after two_managers) two_managers_reachable))). Defined.

Lemma rendezvous_fifo_witness : exists new r',
  Send [107] Args_new tt false (rdv (sys (after two_managers))) = Done ((status_ (rdv (sys (after two_managers))), new), r') /\
  status_ r' = status_ (rdv (sys (after two_managers))) /\
  List.filter visible new = [TInvoke (mkWaiter 1 (Some (2, 0))) StatusOK Args_new (with_manager 2) tt false].
Proof.
  destruct (rendezvous_fifo tt true (after two_managers) [107] Args_new tt false 0 0 some_order (StatusError CANCELLED)
    two_managers_reachable (fun c H => ltac:(discriminate H)) eq_refl) as ((new & r' & E & Hs & Hv & _) & _).
  exists new, r'. split_and!; [exact E|exact Hs|]. rewrite Hv. vm_compute. reflexivity.
Defined.

(** Two waiters under one key. *)
Definition two_waiters : list (action (Tensor := unit)) :=
  [AManager 1; AManager 2; ARecv [107] (with_manager 1); ARun 0; ARecv [107] (with_manager 2); ARun 1].

Definition waiter_entry (c d : Z) : Args * ItemState unit := (with_manager c, kRecv (mkWaiter d (Some (c, 0))) 0).

Lemma two_waiters_queue : queue_of (rdv (sys (after two_waiters))) (KeyHash [107]) = [waiter_entry 1 0; waiter_entry 2 1].
Proof. vm_compute. reflexivity. Qed.

Lemma two_waiters_reachable : reachable tt true (after two_waiters).
Proof. apply after_reachable. exists (after two_waiters). vm_compute. reflexivity. Qed.

Lemma rendezvous_kinds_witness : is_recv (waiter_entry 1 0).2 = is_recv (waiter_entry 2 1).2.
Proof.
  apply (rendezvous_kinds tt true (after two_waiters) (KeyHash [107]) (waiter_entry 1 0) (waiter_entry 2 1) two_waiters_reachable).
  - rewrite two_waiters_queue. left.
  - rewrite two_waiters_queue. right. left.
Defined.
