(* ===== verification/OrderedCode.v ===== *)
(** * Order-preserving encoding of keys (src/tensorflow/core/lib/strings/ordered_code.h, ordered_code.cc)

    Strings, unsigned and signed numbers are appended to a byte string so that
    comparing byte strings compares the sequences of items.  A pair of pointers
    is the list of bytes between them; a [StringPiece] that is read is the bytes
    left, and [None] is the result [false].  [DCHECK]s are compiled out; the
    lengths of the C arrays are kept, and an index outside is [None]. *)
From S2P Require Import Prelude Coding Block TableKeys.
From stdpp Require Import options.

Definition kEscape1 : Z := 0.
Definition kNullCharacter : Z := 255.
Definition kSeparator : Z := 1.
Definition kEscape2 : Z := 255.
Definition kFFCharacter : Z := 0.
Definition kEscape1_Separator : bytes := [kEscape1; kSeparator].

Definition IsSpecialByte (c : Z) : bool := u8 (c + 1) <? 2.

(** The bytes before the first special one of the first [limit], and the rest
    with what is left of [limit]. *)
Fixpoint SkipToNextSpecialByte (limit : nat) (s : bytes) : bytes * bytes * nat :=
  match limit, s with
  | S limit, c :: rest =>
      if IsSpecialByte c then ([], s, S limit)
      else let '(run, rest, limit) := SkipToNextSpecialByte limit rest in (c :: run, rest, limit)
  | _, _ => ([], s, O)
  end.

(** ** Strings *)
Fixpoint EncodeStringFragment_loop (fuel : nat) (dest s : bytes) : option bytes :=
  match fuel with
  | O => None
  | S fuel =>
      match SkipToNextSpecialByte (length s) s with
      | (run, c :: rest, S _) =>
          if c =? kEscape1
          then EncodeStringFragment_loop fuel (dest ++ run ++ [kEscape1; kNullCharacter]) rest
          else EncodeStringFragment_loop fuel (dest ++ run ++ [kEscape2; kFFCharacter]) rest
      | (run, _, _) => Some (dest ++ run)
      end
  end.

(** Every round takes a special byte. *)
Definition EncodeStringFragment (dest s : bytes) : option bytes := EncodeStringFragment_loop (S (length s)) dest s.

Definition WriteString (dest s : bytes) : option bytes :=
  dest ← EncodeStringFragment dest s;
  Some (dest ++ kEscape1_Separator).

(** [if (result) result->append(...)]. *)
Definition append_result (result : option bytes) (d : bytes) : option bytes :=
  match result with Some r => Some (r ++ d) | None => None end.

(** [limit] counts the bytes that may be scanned: all but the last. *)
Fixpoint ReadString_loop (fuel limit : nat) (src : bytes) (result : option bytes) : option (bytes * option bytes) :=
  match fuel with
  | O => None
  | S fuel =>
      match SkipToNextSpecialByte limit src with
      | (run, c :: next :: rest, S limit) =>
          let result := append_result result run in
          if c =? kEscape1 then
            if next =? kSeparator then Some (rest, result)
            else if next =? kNullCharacter
            then ReadString_loop fuel (limit - 1) rest (append_result result [0])
            else None
          else if next =? kFFCharacter then ReadString_loop fuel (limit - 1) rest (append_result result [255])
          else None
      | _ => None
      end
  end.

Definition ReadString (src : bytes) (result : option bytes) : option (bytes * option bytes) :=
  ReadString_loop (S (length src)) (length src - 1) src result.

(** ** Unsigned numbers *)

(** The bytes of [buf] that were filled, the last first. *)
Fixpoint WriteNum_loop (fuel : nat) (val : Z) (buf : bytes) : option bytes :=
  if 0 <? val then
    match fuel with
    | O => None
    | S fuel => WriteNum_loop fuel (Z.shiftr val 8) (Z.land val 255 :: buf)
    end
  else Some buf.

Definition WriteNumIncreasing (dest : bytes) (val : Z) : option bytes :=
  buf ← WriteNum_loop 8 val [];
  Some (dest ++ (zlen buf :: buf)).

Fixpoint load_bytes (tmp : Z) (s : bytes) : Z :=
  match s with
  | [] => tmp
  | c :: s => load_bytes (Z.lor (u64 (Z.shiftl tmp 8)) (u8 c)) s
  end.

Definition ReadNumIncreasing (src : bytes) : option (Z * bytes) :=
  match src with
  | [] => None
  | b :: rest =>
      let len := u8 b in
      if (zlen src <? len + 1) || (8 <? len) then None
      else Some (load_bytes 0 (take (Z.to_nat len) rest), drop (Z.to_nat len) rest)
  end.

(** ** Signed numbers *)
Definition kMaxSigned64Length : nat := 10.

Definition kLengthToHeaderBits : list (Z * Z) :=
  [(0, 0); (0x80, 0); (0xc0, 0); (0xe0, 0); (0xf0, 0); (0xf8, 0); (0xfc, 0); (0xfe, 0); (0xff, 0); (0xff, 0x80); (0xff, 0xc0)].

Definition kLengthToMask : list Z :=
  [0; 0x80; 0xc000; 0xe00000; 0xf0000000; 0xf800000000; 0xfc0000000000; 0xfe000000000000; 0xff00000000000000; 0x8000000000000000; 0].

Definition kBitsToLength : list nat :=
  [1; 1; 1; 1; 1; 1; 1; 2; 2; 2; 2; 2; 2; 2; 3; 3; 3; 3; 3; 3; 3; 4;
   4; 4; 4; 4; 4; 4; 5; 5; 5; 5; 5; 5; 5; 6; 6; 6; 6; 6; 6; 6; 7; 7;
   7; 7; 7; 7; 7; 8; 8; 8; 8; 8; 8; 8; 9; 9; 9; 9; 9; 9; 9; 10]%nat.

Definition Log2Floor64 (n : Z) : Z := if n =? 0 then -1 else Z.log2 n.

Definition SignedEncodingLength (n : Z) : option nat :=
  kBitsToLength !! Z.to_nat (Log2Floor64 (u64 (if n <? 0 then Z.lnot n else n)) + 1).

Definition StoreBigEndian64 (v : Z) : bytes :=
  map (fun i => Z.land (Z.shiftr v (56 - 8 * i)) 255) [0; 1; 2; 3; 4; 5; 6; 7].

Definition LoadBigEndian64 (src : bytes) : option Z :=
  match src with
  | b0 :: b1 :: b2 :: b3 :: b4 :: b5 :: b6 :: b7 :: _ =>
      Some (fold_left (fun r '(i, c) => Z.lor r (u64 (Z.shiftl (u8 c) (56 - 8 * i))))
              [(0, b0); (1, b1); (2, b2); (3, b3); (4, b4); (5, b5); (6, b6); (7, b7)] 0)
  | _ => None
  end.

Definition WriteSignedNumIncreasing (dest : bytes) (val : Z) : option bytes :=
  let x := u64 (if val <? 0 then Z.lnot val else val) in
  if x <? 64 then Some (dest ++ [u8 (Z.lxor 0x80 val)])
  else
    let sign_byte := if val <? 0 then 255 else 0 in
    let buf := sign_byte :: sign_byte :: StoreBigEndian64 (u64 val) in
    len ← SignedEncodingLength x;
    '(h0, h1) ← kLengthToHeaderBits !! len;
    match drop (10 - len) buf with
    | b0 :: b1 :: rest => Some (dest ++ Z.lxor b0 h0 :: Z.lxor b1 h1 :: rest)
    | _ => None
    end.

(** The length of 8 bytes and more, from the second and third byte. *)
Definition long_length (flip second third : Z) : option nat :=
  let second_byte := Z.lxor second flip in
  if 0x80 <=? second_byte then
    if second_byte <? 0xc0 then Some 9%nat
    else if (second_byte =? 0xc0) && (Z.lxor third flip <? 0x80) then Some 10%nat
    else None
  else Some 8%nat.

Definition ReadSignedNumIncreasing (src : bytes) : option (Z * bytes) :=
  match src with
  | [] => None
  | b :: _ =>
      let xor_mask := if Z.land b 0x80 =? 0 then 2 ^ 64 - 1 else 0 in
      let flip := Z.land xor_mask 255 in
      let first_byte := Z.lxor b flip in
      r ← (if negb (first_byte =? 255) then
             let len := Z.to_nat (7 - Log2Floor64 (Z.lxor first_byte 255)) in
             if (length src <? len)%nat then None else Some (len, load_bytes xor_mask (take len src))
           else if (length src <? 8)%nat then None
           else
             match src with
             | _ :: second :: third :: _ =>
                 len ← long_length flip second third;
                 if (length src <? len)%nat then None
                 else x ← LoadBigEndian64 (drop (len - 8) src); Some (len, x)
             | _ => None
             end);
      let '(len, x) := r in
      mask ← kLengthToMask !! len;
      Some (i64 (Z.lxor x mask), drop len src)
  end.

(** * Big-endian byte strings

    The [n] low bytes of an integer, the highest first, and how their order as
    byte strings, their concatenation, their value and their exclusive or follow
    the integers.  Shared by the lemmas on the key encoding. *)

Fixpoint be (n : nat) (z : Z) : bytes :=
  match n with
  | O => []
  | S n => (z / 2 ^ (8 * Z.of_nat n)) mod 256 :: be n z
  end.

(** [x] sorts below [y] whatever follows them. *)
Definition diverge (x y : bytes) : Prop := forall rx ry, bytes_lt (x ++ rx) (y ++ ry) = true.

Lemma diverge_cons c x y : diverge x y -> diverge (c :: x) (c :: y).
Proof. intros H rx ry. simpl. by rewrite bytes_lt_cons, Z.ltb_irrefl, Z.eqb_refl. Qed.

Lemma diverge_head c d x y : c < d -> diverge (c :: x) (d :: y).
Proof. intros H rx ry. simpl. rewrite bytes_lt_cons. by rewrite (proj2 (Z.ltb_lt c d) H). Qed.

Lemma diverge_app p x y : diverge x y -> diverge (p ++ x) (p ++ y).
Proof. intros H. induction p; simpl; [done|by apply diverge_cons]. Qed.

Lemma diverge_extend x y sx sy : diverge x y -> diverge (x ++ sx) (y ++ sy).
Proof. intros H rx ry. rewrite <- !(assoc_L (++)). apply H. Qed.

Lemma pow8_pos n : 0 < 2 ^ (8 * Z.of_nat n).
Proof. apply Z.pow_pos_nonneg; lia. Qed.

Lemma pow8_S n : 2 ^ (8 * Z.of_nat (S n)) = 256 * 2 ^ (8 * Z.of_nat n).
Proof. rewrite Nat2Z.inj_succ, <- Zmult_succ_r_reverse, Z.pow_add_r by lia. lia. Qed.

Lemma be_length n z : length (be n z) = n.
Proof. induction n; simpl; [done|by rewrite IHn]. Qed.

Lemma be_bytes n z : Forall is_byte (be n z).
Proof. induction n; constructor; [apply Z.mod_pos_bound; lia|done]. Qed.

Lemma be_mod n m z : (n <= m)%nat -> be n (z mod 2 ^ (8 * Z.of_nat m)) = be n z.
Proof.
  induction n as [|n IH]; intros Hm; simpl; [done|]. rewrite IH by lia. f_equal.
  replace (8 * Z.of_nat m) with (8 * Z.of_nat n + (8 + 8 * Z.of_nat (m - S n))) by lia.
  rewrite Z.pow_add_r, Z.rem_mul_r by (try apply Z.pow_nonzero; try apply Z.pow_pos_nonneg; lia).
  pose proof (pow8_pos n).
  rewrite (Z.mul_comm (2 ^ (8 * Z.of_nat n))), Z.div_add, (Z.div_small (z mod _)) by (try lia; apply Z.mod_pos_bound; lia).
  rewrite Z.add_0_l, Z.pow_add_r by lia. change (2 ^ 8) with 256.
  rewrite Z.rem_mul_r by (try lia; apply Z.pow_pos_nonneg; lia).
  by rewrite (Z.mul_comm 256), Z_mod_plus_full, Z.mod_mod by lia.
Qed.

Lemma be_cong n x y : x mod 2 ^ (8 * Z.of_nat n) = y mod 2 ^ (8 * Z.of_nat n) -> be n x = be n y.
Proof. intros H. by rewrite <- (be_mod n n x), H, be_mod. Qed.

Lemma be_app n m z : be (n + m) z = be n (z / 2 ^ (8 * Z.of_nat m)) ++ be m z.
Proof.
  induction n as [|n IH]; simpl; [done|]. rewrite IH. do 2 f_equal.
  rewrite Z.div_div by (apply Z.pow_nonzero || apply Z.pow_pos_nonneg; lia).
  rewrite <- Z.pow_add_r by lia. do 2 f_equal. lia.
Qed.

Lemma be_snoc n z : be (S n) z = be n (z / 256) ++ [z mod 256].
Proof. rewrite <- Nat.add_1_r, be_app. simpl be at 2. change (8 * Z.of_nat 0) with 0. by rewrite Z.div_1_r. Qed.

Lemma be_drop n m z : drop n (be (n + m) z) = be m z.
Proof. rewrite be_app, drop_app_length'; [done|by rewrite be_length]. Qed.

Lemma be_diverge n : forall x y, 0 <= x -> x < y -> y < 2 ^ (8 * Z.of_nat n) -> diverge (be n x) (be n y).
Proof.
  induction n as [|n IH]; intros x y Hx Hlt Hy; [change (2 ^ _) with 1 in Hy; lia|]. simpl.
  pose proof (pow8_pos n) as Hp. rewrite pow8_S in Hy.
  set (p := 2 ^ (8 * Z.of_nat n)) in *.
  pose proof (Z.div_mod x p ltac:(lia)). pose proof (Z.div_mod y p ltac:(lia)).
  pose proof (Z.mod_pos_bound x p Hp). pose proof (Z.mod_pos_bound y p Hp).
  rewrite !Z.mod_small by (split; [apply Z.div_pos; lia|apply Z.div_lt_upper_bound; lia]).
  destruct (Z.lt_ge_cases (x / p) (y / p)); [by apply diverge_head|].
  assert (x / p = y / p) as Hq by (pose proof (Z.div_le_mono x y p Hp ltac:(lia)); lia).
  rewrite Hq. apply diverge_cons. rewrite <- (be_mod n n x), <- (be_mod n n y) by lia.
  fold p. apply IH; fold p; lia || (rewrite Hq in *; lia).
Qed.

(** A shorter string below the leading bytes of a longer one, and above them. *)
Lemma be_diverge_long n d x y :
  0 <= x -> (x + 1) * 2 ^ (8 * Z.of_nat d) <= y -> y < 2 ^ (8 * Z.of_nat (n + d)) -> diverge (be n x) (be (n + d) y).
Proof.
  intros Hx Hlt Hy. rewrite be_app. rewrite <- (app_nil_r (be n x)). apply diverge_extend, be_diverge; [done| |].
  - pose proof (pow8_pos d). pose proof (Z.div_le_lower_bound y (2 ^ (8 * Z.of_nat d)) (x + 1) ltac:(lia) ltac:(lia)). lia.
  - apply Z.div_lt_upper_bound; [apply pow8_pos|]. rewrite <- Z.pow_add_r by lia. by replace (_ + _) with (8 * Z.of_nat (n + d)) by lia.
Qed.

Lemma be_diverge_short n d x y :
  0 <= x -> x < y * 2 ^ (8 * Z.of_nat d) -> y < 2 ^ (8 * Z.of_nat n) -> diverge (be (n + d) x) (be n y).
Proof.
  intros Hx Hlt Hy. rewrite be_app. rewrite <- (app_nil_r (be n y)). pose proof (pow8_pos d).
  apply diverge_extend, be_diverge; [apply Z.div_pos; lia|apply Z.div_lt_upper_bound; lia|done].
Qed.

(** ** Values *)
Fixpoint be_val (s : bytes) : Z :=
  match s with
  | [] => 0
  | c :: s => c * 2 ^ (8 * zlen s) + be_val s
  end.

Lemma be_val_be n z : be_val (be n z) = z mod 2 ^ (8 * Z.of_nat n).
Proof.
  induction n as [|n IH]; [symmetry; apply Z.mod_1_r|]. simpl. unfold zlen. rewrite IH, be_length, pow8_S.
  rewrite (Z.mul_comm 256), Z.rem_mul_r by (try lia; pose proof (pow8_pos n); lia). lia.
Qed.

(** ** Exclusive or *)
Lemma mod_pow_lxor a b k : 0 <= k -> Z.lxor a b mod 2 ^ k = Z.lxor (a mod 2 ^ k) (b mod 2 ^ k).
Proof.
  intros Hk. apply Z.bits_inj'; intros i Hi. rewrite Z.lxor_spec.
  destruct (Z.lt_ge_cases i k); [by rewrite !Z.mod_pow2_bits_low, Z.lxor_spec by lia|by rewrite !Z.mod_pow2_bits_high by lia].
Qed.

Lemma div_pow_lxor a b k : 0 <= k -> Z.lxor a b / 2 ^ k = Z.lxor (a / 2 ^ k) (b / 2 ^ k).
Proof. intros Hk. rewrite <- !Z.shiftr_div_pow2 by done. apply Z.shiftr_lxor. Qed.

Lemma be_lxor n a b : be n (Z.lxor a b) = zip_with Z.lxor (be n a) (be n b).
Proof. induction n; simpl; [done|]. rewrite IHn. f_equal. rewrite div_pow_lxor by lia. by apply (mod_pow_lxor _ _ 8). Qed.

Lemma zip_with_lxor_zero s : zip_with Z.lxor s (replicate (length s) 0) = s.
Proof. induction s; simpl; [done|]. by rewrite Z.lxor_0_r, IHs. Qed.

(** * Lemmas on the order-preserving encoding of keys

    A reference encoding of each kind of item, that the writers produce it, that
    it orders byte strings whatever follows, and that the readers take it back.
    [OrderedCoding] is the interface of one kind of item. *)

(** ** Strings *)
Definition esc (c : Z) : bytes := if c =? 0 then [0; 255] else if c =? 255 then [255; 0] else [c].

Definition str_enc (s : bytes) : bytes := flat_map esc s ++ [0; 1].

Definition plain (c : Z) : Prop := IsSpecialByte c = false.

Lemma special_iff c : is_byte c -> IsSpecialByte c = true <-> c = 0 \/ c = 255.
Proof.
  unfold IsSpecialByte, u8, uwrap, is_byte. intros Hc. rewrite Z.ltb_lt.
  destruct (decide (c = 255)) as [->|]; [change ((255 + 1) mod 2 ^ 8) with 0; lia|].
  rewrite Z.mod_small by lia. lia.
Qed.

Lemma span_special s : Forall is_byte s ->
  exists run, Forall plain run /\ (s = run \/ exists c t, s = run ++ c :: t /\ (c = 0 \/ c = 255)).
Proof.
  induction 1 as [|c s Hc Hs (run & Hr & IH)]; [exists []; auto|].
  destruct (IsSpecialByte c) eqn:E.
  - exists []. split; [done|]. right. exists c, s. by split; [|apply special_iff].
  - exists (c :: run). split; [by constructor|]. destruct IH as [->|(d & t & -> & Hd)]; [by left|right]. by exists d, t.
Qed.

Lemma esc_plain run : Forall is_byte run -> Forall plain run -> flat_map esc run = run.
Proof.
  induction 1 as [|c run Hc Hr IH]; inversion_clear 1 as [|? ? Hp]; simpl; [done|]. rewrite IH by done. unfold esc.
  pose proof (special_iff c Hc) as Hs. unfold plain in Hp. rewrite Hp in Hs.
  destruct (Z.eqb_spec c 0); [naive_solver|]. destruct (Z.eqb_spec c 255); naive_solver.
Qed.

Lemma Skip_run run c t limit : Forall plain run -> c = 0 \/ c = 255 -> (length run < limit)%nat ->
  SkipToNextSpecialByte limit (run ++ c :: t) = (run, c :: t, (limit - length run)%nat).
Proof.
  intros Hr Hc. revert limit. induction Hr as [|d run Hd Hr IH]; intros [|limit] Hl; simpl in *; try lia.
  - by destruct Hc; subst.
  - unfold plain in Hd. rewrite Hd, IH by lia. done.
Qed.

Lemma Skip_all run : Forall plain run -> SkipToNextSpecialByte (length run) run = (run, [], 0%nat).
Proof. induction 1 as [|d run Hd Hr IH]; simpl; [done|]. unfold plain in Hd. by rewrite Hd, IH. Qed.

Lemma EncodeStringFragment_loop_spec fuel : forall dest s, Forall is_byte s -> (length s < fuel)%nat ->
  EncodeStringFragment_loop fuel dest s = Some (dest ++ flat_map esc s).
Proof.
  induction fuel as [|fuel IH]; intros dest s Hs Hf; [lia|]. simpl.
  destruct (span_special s Hs) as (run & Hr & [->|(c & t & -> & Hc)]); [by rewrite Skip_all, esc_plain|].
  apply Forall_app in Hs as [Hrb Ht]. inversion_clear Ht as [|? ? Hcb Htb]. rewrite length_app in *. simpl in Hf.
  rewrite Skip_run by (done || simpl; lia). replace (_ - _)%nat with (S (length t)) by (simpl; lia).
  rewrite flat_map_app, esc_plain by done.
  destruct Hc as [->| ->]; simpl; rewrite IH by (done || lia); by rewrite <- !(assoc_L (++)).
Qed.

Lemma WriteString_spec dest s : Forall is_byte s -> WriteString dest s = Some (dest ++ str_enc s).
Proof.
  intros Hs. unfold WriteString, EncodeStringFragment. rewrite EncodeStringFragment_loop_spec by (done || lia).
  simpl. unfold str_enc. by rewrite (assoc_L (++)).
Qed.

Lemma ReadString_loop_spec fuel : forall s rest limit result, Forall is_byte s ->
  (length s < fuel)%nat -> limit = (length (str_enc s ++ rest) - 1)%nat ->
  ReadString_loop fuel limit (str_enc s ++ rest) result = Some (rest, append_result result s).
Proof.
  induction fuel as [|fuel IH]; intros s rest limit result Hs Hf ->; [lia|]. simpl.
  destruct (span_special s Hs) as (run & Hr & [->|(c & t & -> & Hc)]).
  - unfold str_enc. rewrite esc_plain, <- (assoc_L (++)) by done. simpl.
    rewrite Skip_run by (auto || rewrite length_app; simpl; lia).
    rewrite length_app. simpl. by replace (_ - _ - _)%nat with (S (length rest)) by lia.
  - apply Forall_app in Hs as [Hrb Ht]. inversion_clear Ht as [|? ? Hcb Htb]. rewrite length_app in Hf. simpl in Hf.
    assert (exists d, esc c = [c; d] /\ append_result (append_result result run) [c] = append_result result (run ++ [c]) /\
              (c = 0 /\ d = 255 \/ c = 255 /\ d = 0)) as (d & Hd & Happ & Hcd).
    { destruct Hc as [->| ->]; eexists; (split; [reflexivity|]); (split; [|by auto]);
        destruct result; simpl; by rewrite <- ?(assoc_L (++)). }
    assert (str_enc (run ++ c :: t) ++ rest = run ++ c :: d :: (str_enc t ++ rest)) as Hsrc.
    { unfold str_enc. rewrite flat_map_app, esc_plain by done. simpl. rewrite Hd. by rewrite <- !(assoc_L (++)). }
    rewrite Hsrc, Skip_run by (done || rewrite length_app; simpl; lia).
    rewrite length_app. simpl length. replace (_ - _ - _)%nat with (S (length (str_enc t ++ rest))) by lia.
    assert (append_result (append_result (append_result result run) [c]) t = append_result result (run ++ c :: t)) as Hres.
    { destruct result; simpl; by rewrite <- ?(assoc_L (++)). }
    rewrite <- Hres. destruct Hcd as [[-> ->]|[-> ->]]; simpl; apply IH; done || lia.
Qed.

Lemma str_enc_length s : (length s + 2 <= length (str_enc s))%nat.
Proof.
  unfold str_enc. rewrite length_app. simpl. induction s as [|c s IH]; simpl; [lia|]. rewrite length_app.
  assert (1 <= length (esc c))%nat by (unfold esc; repeat case_match; simpl; lia). lia.
Qed.

Lemma ReadString_spec s rest result : Forall is_byte s ->
  ReadString (str_enc s ++ rest) result = Some (rest, append_result result s).
Proof.
  intros Hs. apply ReadString_loop_spec; [done| |done]. pose proof (str_enc_length s). rewrite length_app. lia.
Qed.

Lemma esc_head c : exists t, esc c = c :: t.
Proof. unfold esc. destruct (Z.eqb_spec c 0) as [->|]; [by eexists|]. destruct (Z.eqb_spec c 255) as [->|]; by eexists. Qed.

Lemma str_enc_diverge s : forall t, Forall is_byte t -> bytes_lt s t = true -> diverge (str_enc s) (str_enc t).
Proof.
  unfold str_enc. induction s as [|c s IH]; intros [|d t] Ht Hlt; [done| |done|]; inversion_clear Ht as [|? ? Hd Ht'].
  - simpl. unfold esc. unfold is_byte in Hd. destruct (Z.eqb_spec d 0) as [->|]; [apply diverge_cons, diverge_head; lia|].
    destruct (Z.eqb_spec d 255); apply diverge_head; lia.
  - rewrite bytes_lt_cons in Hlt. simpl. rewrite <- !(assoc_L (++)). destruct (Z.ltb_spec c d).
    + destruct (esc_head c) as [? ->], (esc_head d) as [? ->]. by apply diverge_head.
    + destruct (Z.eqb_spec c d) as [->|]; [|done]. by apply diverge_app, IH.
Qed.

(** ** Unsigned numbers *)

(** The number of bytes of [v] without leading zeros. *)
Definition num_len (v : Z) : nat := if v =? 0 then 0%nat else Z.to_nat (Z.log2 v / 8 + 1).

Definition num_enc (v : Z) : bytes := Z.of_nat (num_len v) :: be (num_len v) v.

Lemma num_len_bounds v : 0 < v -> 2 ^ (8 * (Z.of_nat (num_len v) - 1)) <= v < 2 ^ (8 * Z.of_nat (num_len v)).
Proof.
  intros Hv. unfold num_len. rewrite (proj2 (Z.eqb_neq v 0)) by lia.
  pose proof (Z.log2_nonneg v). pose proof (Z.log2_spec v Hv) as [Hlo Hhi].
  pose proof (Z.div_mod (Z.log2 v) 8 ltac:(lia)). pose proof (Z.mod_pos_bound (Z.log2 v) 8 ltac:(lia)).
  rewrite Z2Nat.id by (assert (0 <= Z.log2 v / 8) by (apply Z.div_pos; lia); lia). split.
  - etransitivity; [apply Z.pow_le_mono_r|exact Hlo]; lia.
  - eapply Z.lt_le_trans; [exact Hhi|]. apply Z.pow_le_mono_r; lia.
Qed.

Lemma num_len_le v k : 0 <= v < 2 ^ (8 * Z.of_nat k) -> (num_len v <= k)%nat.
Proof.
  intros Hv. destruct (decide (v = 0)) as [->|]; [unfold num_len; simpl; lia|].
  pose proof (num_len_bounds v ltac:(lia)) as [Hlo _].
  destruct (Z.lt_ge_cases (Z.of_nat k) (Z.of_nat (num_len v))); [|lia].
  assert (2 ^ (8 * Z.of_nat k) <= 2 ^ (8 * (Z.of_nat (num_len v) - 1))) by (apply Z.pow_le_mono_r; lia). lia.
Qed.

Lemma num_len_step v : 0 < v -> num_len v = S (num_len (v / 256)).
Proof.
  intros Hv. unfold num_len. rewrite (proj2 (Z.eqb_neq v 0)) by lia.
  destruct (Z.eqb_spec (v / 256) 0) as [H0|Hn].
  - assert (v < 256) by (pose proof (Z.div_mod v 256); pose proof (Z.mod_pos_bound v 256); lia).
    assert (Z.log2 v < 8) by (apply Z.log2_lt_pow2; lia). pose proof (Z.log2_nonneg v). by rewrite Z.div_small by lia.
  - assert (256 <= v) by (destruct (Z.lt_ge_cases v 256); [rewrite Z.div_small in Hn; lia|lia]).
    assert (8 <= Z.log2 v) by (apply Z.log2_le_pow2; lia).
    replace (v / 256) with (Z.shiftr v 8) by (by rewrite Z.shiftr_div_pow2).
    rewrite Z.log2_shiftr, Z.max_r by lia. rewrite <- Z2Nat.inj_succ by (pose proof (Z.div_pos (Z.log2 v - 8) 8); lia).
    f_equal. replace (Z.log2 v) with (Z.log2 v - 8 + 1 * 8) at 1 by lia. rewrite Z.div_add by lia. lia.
Qed.

Lemma WriteNum_loop_spec fuel : forall v buf, 0 <= v < 2 ^ (8 * Z.of_nat fuel) ->
  WriteNum_loop fuel v buf = Some (be (num_len v) v ++ buf).
Proof.
  induction fuel as [|fuel IH]; intros v buf Hv; simpl.
  { change (2 ^ _) with 1 in Hv. by assert (v = 0) as -> by lia. }
  destruct (Z.ltb_spec 0 v); [|by assert (v = 0) as -> by lia].
  rewrite pow8_S in Hv. rewrite Z.shiftr_div_pow2 by lia. change (2 ^ 8) with 256.
  rewrite IH by (split; [apply Z.div_pos; lia|apply Z.div_lt_upper_bound; lia]).
  rewrite (num_len_step v), be_snoc, <- (assoc_L (++)) by done. by rewrite land_255.
Qed.

Lemma WriteNumIncreasing_spec dest v : in_u64 v -> WriteNumIncreasing dest v = Some (dest ++ num_enc v).
Proof.
  intros Hv. unfold WriteNumIncreasing. rewrite WriteNum_loop_spec by exact Hv. simpl.
  unfold zlen. by rewrite app_nil_r, be_length.
Qed.

Lemma load_bytes_spec s : forall tmp, in_u64 tmp -> Forall is_byte s ->
  load_bytes tmp s = u64 (tmp * 2 ^ (8 * zlen s) + be_val s).
Proof.
  induction s as [|c s IH]; intros tmp Ht Hs; simpl.
  { rewrite u64_small; change (2 ^ (8 * zlen [])) with 1; [lia|]. unfold in_u64 in *; lia. }
  inversion_clear Hs as [|? ? Hc Hs'].
  assert (Z.lor (u64 (Z.shiftl tmp 8)) (u8 c) = u64 (tmp * 256 + c)) as ->.
  { unfold u8, u64, uwrap. rewrite (Z.mod_small c) by exact Hc. rewrite Z.shiftl_mul_pow2 by lia.
    change (2 ^ 64) with (2 ^ 8 * 2 ^ 56). rewrite (Z.mul_comm tmp), Z.mul_mod_distr_l by lia.
    rewrite Z.lor_comm, (Z.mul_comm (2 ^ 8)), <- Z.shiftl_mul_pow2, lor_shiftl_add by (exact Hc || lia).
    rewrite (Z.rem_mul_r (tmp * 256 + c)) by lia. change (2 ^ 8) with 256.
    rewrite (Z.add_comm (tmp * 256)), Z_mod_plus_full, Z_div_plus_full, (Z.mod_small c), (Z.div_small c) by (exact Hc || lia).
    rewrite Z.add_0_l. ring. }
  rewrite IH by (apply u64_range || done). unfold zlen. simpl length.
  unfold u64, uwrap. rewrite pow8_S. rewrite <- Z.add_mod_idemp_l, Z.mul_mod_idemp_l, Z.add_mod_idemp_l by lia. f_equal. lia.
Qed.

Lemma ReadNumIncreasing_spec v rest : in_u64 v -> ReadNumIncreasing (num_enc v ++ rest) = Some (v, rest).
Proof.
  intros Hv. pose proof (num_len_le v 8 Hv) as Hn. unfold ReadNumIncreasing, num_enc. simpl.
  assert (u8 (Z.of_nat (num_len v)) = Z.of_nat (num_len v)) as -> by (apply Z.mod_small; lia).
  rewrite (proj2 (Z.ltb_ge 8 _)) by lia. rewrite (proj2 (Z.ltb_ge (zlen _) _)) by
    (unfold zlen; simpl; rewrite length_app, be_length; lia). simpl. rewrite Nat2Z.id.
  rewrite take_app_length', drop_app_length' by (by rewrite be_length).
  rewrite load_bytes_spec by (apply be_bytes || unfold in_u64; lia). rewrite be_val_be, Z.mul_0_l, Z.add_0_l.
  destruct (decide (v = 0)) as [->|]; [done|]. unfold in_u64 in Hv.
  pose proof (num_len_bounds v ltac:(lia)). rewrite Z.mod_small by lia. by rewrite u64_small.
Qed.

Lemma num_enc_diverge v w : 0 <= v -> v < w -> diverge (num_enc v) (num_enc w).
Proof.
  intros Hv Hlt. unfold num_enc. pose proof (num_len_bounds w ltac:(lia)) as [Hlo Hhi].
  pose proof (num_len_le v (num_len w) ltac:(lia)) as Hle.
  destruct (decide (num_len v = num_len w)) as [->|]; [|apply diverge_head; lia].
  apply diverge_cons, be_diverge; lia.
Qed.

(** * Lemmas on the encoding of signed numbers

    [n] bytes hold the numbers of [- 2 ^ (7 n - 1), 2 ^ (7 n - 1)): the number in
    two's complement of [8 n] bits, with its top [n] bits flipped. *)

#[local] Ltac Zify.zify_post_hook ::= Z.to_euclidean_division_equations.

Definition magnitude (v : Z) : Z := if v <? 0 then Z.lnot v else v.

Definition signed_len (v : Z) : nat := Z.to_nat ((Log2Floor64 (magnitude v) + 1) / 7 + 1).

Definition header (n : nat) : Z := 2 ^ (8 * Z.of_nat n) - 2 ^ (7 * Z.of_nat n).

Definition raw (n : nat) (v : Z) : Z := Z.lxor v (header n).

Definition signed_enc (v : Z) : bytes := be (signed_len v) (raw (signed_len v) v).

Definition fits (n : nat) (v : Z) : Prop := - 2 ^ (7 * Z.of_nat n - 1) <= v < 2 ^ (7 * Z.of_nat n - 1).

(** ** Lengths *)
Lemma magnitude_range v : in_i64 v -> 0 <= magnitude v < 2 ^ 63.
Proof. unfold magnitude, in_i64, Z.lnot. destruct (Z.ltb_spec v 0); lia. Qed.

Lemma fits_magnitude n v : fits n v <-> magnitude v < 2 ^ (7 * Z.of_nat n - 1).
Proof.
  unfold fits, magnitude, Z.lnot. pose proof (Z.pow_nonneg 2 (7 * Z.of_nat n - 1)). destruct (Z.ltb_spec v 0); lia.
Qed.

Lemma signed_len_spec v : in_i64 v -> (1 <= signed_len v <= 10)%nat /\ fits (signed_len v) v /\
  (signed_len v = 1%nat \/ ~ fits (signed_len v - 1) v).
Proof.
  intros Hv. pose proof (magnitude_range v Hv) as Hm. rewrite !fits_magnitude. unfold signed_len, Log2Floor64.
  destruct (Z.eqb_spec (magnitude v) 0) as [->|Hn0]; [split_and!; [compute; lia|compute; lia|reflexivity|by left]|].
  pose proof (Z.log2_nonneg (magnitude v)). pose proof (Z.log2_spec (magnitude v) ltac:(lia)) as [Hlo Hhi].
  assert (Z.log2 (magnitude v) < 63) by (apply Z.log2_lt_pow2; lia).
  set (l := Z.log2 (magnitude v)) in *. assert (0 <= (l + 1) / 7 <= 9) as Hq by lia.
  rewrite Z2Nat.id by lia. split_and!; [lia|lia| |].
  - eapply Z.lt_le_trans; [exact Hhi|]. apply Z.pow_le_mono_r; lia.
  - destruct (Z.eq_dec ((l + 1) / 7) 0) as [->|]; [by left|right]. rewrite Nat2Z.inj_sub, Z2Nat.id by lia.
    apply Z.le_ngt. etransitivity; [|exact Hlo]. apply Z.pow_le_mono_r; lia.
Qed.

Lemma kBitsToLength_spec k : (k < 64)%nat -> kBitsToLength !! k = Some (Z.to_nat (Z.of_nat k / 7 + 1)).
Proof. intros Hk. do 64 (destruct k as [|k]; [reflexivity|]). lia. Qed.

Lemma SignedEncodingLength_spec v : in_i64 v -> SignedEncodingLength (u64 (magnitude v)) = Some (signed_len v).
Proof.
  intros Hv. pose proof (magnitude_range v Hv) as Hm. rewrite u64_small by (unfold in_u64; lia).
  unfold SignedEncodingLength. rewrite (proj2 (Z.ltb_ge (magnitude v) 0)), u64_small by (unfold in_u64; lia).
  assert (-1 <= Log2Floor64 (magnitude v) < 63) as Hl.
  { unfold Log2Floor64. destruct (Z.eqb_spec (magnitude v) 0); [lia|].
    pose proof (Z.log2_nonneg (magnitude v)). assert (Z.log2 (magnitude v) < 63) by (apply Z.log2_lt_pow2; lia). lia. }
  rewrite kBitsToLength_spec by lia. by rewrite Z2Nat.id by lia.
Qed.

(** ** The flipped bits *)
Lemma header_alt n : header n = Z.shiftl (2 ^ Z.of_nat n - 1) (7 * Z.of_nat n).
Proof. unfold header. rewrite Z.shiftl_mul_pow2, Z.mul_sub_distr_r, <- Z.pow_add_r by lia. f_equal; [f_equal; lia|lia]. Qed.

Lemma header_nonneg n : 0 <= header n.
Proof. unfold header. pose proof (Z.pow_le_mono_r 2 (7 * Z.of_nat n) (8 * Z.of_nat n)). lia. Qed.

Lemma lxor_header n m : 0 <= m < 2 ^ (7 * Z.of_nat n) -> Z.lxor m (header n) = m + header n.
Proof. intros Hm. rewrite header_alt. symmetry. apply Z.add_nocarry_lxor, land_shiftl_low; lia. Qed.

Lemma pow7_half n : (1 <= n)%nat -> 2 ^ (7 * Z.of_nat n) = 2 * 2 ^ (7 * Z.of_nat n - 1).
Proof. intros Hn. rewrite <- Z.pow_succ_r by lia. f_equal. lia. Qed.

Lemma raw_spec n v : (1 <= n)%nat -> fits n v -> raw n v = if v <? 0 then v - header n else v + header n.
Proof.
  intros Hn Hv. unfold raw, fits in *. pose proof (pow7_half n Hn). destruct (Z.ltb_spec v 0).
  - rewrite <- (Z.lnot_involutive v) at 1. rewrite <- Z.lnot_lxor_l, lxor_header by (unfold Z.lnot; lia). unfold Z.lnot. lia.
  - apply lxor_header. lia.
Qed.

(** The bytes as a number. *)
Definition image (n : nat) (v : Z) : Z := if v <? 0 then v + 2 ^ (7 * Z.of_nat n) else v + header n.

Lemma image_raw n v : (1 <= n)%nat -> fits n v -> raw n v = image n v - (if v <? 0 then 2 ^ (8 * Z.of_nat n) else 0).
Proof. intros Hn Hv. rewrite raw_spec by done. unfold image, header. destruct (v <? 0); lia. Qed.

Lemma be_image n v : (1 <= n)%nat -> fits n v -> be n (raw n v) = be n (image n v).
Proof.
  intros Hn Hv. rewrite image_raw by done. apply be_cong. destruct (v <? 0); [|by rewrite Z.sub_0_r].
  rewrite <- (Z_mod_plus_full (image n v) (-1)). f_equal.
Qed.

Lemma image_range n v : (1 <= n)%nat -> fits n v -> 0 <= image n v < 2 ^ (8 * Z.of_nat n).
Proof.
  intros Hn Hv. unfold image, header, fits in *. pose proof (pow7_half n Hn).
  pose proof (Z.pow_le_mono_r 2 (7 * Z.of_nat n) (8 * Z.of_nat n)). destruct (Z.ltb_spec v 0); lia.
Qed.

(** ** Writing *)
Lemma StoreBigEndian64_spec v : StoreBigEndian64 (u64 v) = be 8 v.
Proof. rewrite <- (be_mod 8 8 v) by lia. unfold StoreBigEndian64. simpl. rewrite !land_255, !Z.shiftr_div_pow2 by lia. reflexivity. Qed.

Lemma sign_bytes v : in_i64 v ->
  let s := if v <? 0 then 255 else 0 in s :: s :: StoreBigEndian64 (u64 v) = be 10 v.
Proof.
  intros Hv. rewrite StoreBigEndian64_spec. unfold in_i64 in Hv.
  assert (forall k, 64 <= k -> v / 2 ^ k = if v <? 0 then -1 else 0) as Hd.
  { intros k Hk. pose proof (Z.pow_le_mono_r 2 64 k ltac:(lia) Hk). destruct (Z.ltb_spec v 0); [|apply Z.div_small; lia].
    symmetry. apply (Z.div_unique _ _ _ (v + 2 ^ k)); lia. }
  change (be 10 v) with ((v / 2 ^ 72) mod 256 :: (v / 2 ^ 64) mod 256 :: be 8 v).
  rewrite !Hd by lia. by destruct (v <? 0).
Qed.

Lemma kLengthToHeaderBits_spec n : (2 <= n <= 10)%nat ->
  exists h0 h1, kLengthToHeaderBits !! n = Some (h0, h1) /\ be n (header n) = h0 :: h1 :: replicate (n - 2) 0.
Proof. intros Hn. do 11 (destruct n as [|n]; [try lia; do 2 eexists; split; reflexivity|]). lia. Qed.

Lemma WriteSignedNumIncreasing_spec dest v : in_i64 v -> WriteSignedNumIncreasing dest v = Some (dest ++ signed_enc v).
Proof.
  intros Hv. pose proof (signed_len_spec v Hv) as (Hn & _ & _). pose proof (magnitude_range v Hv) as Hm.
  unfold WriteSignedNumIncreasing. fold (magnitude v). pose proof (SignedEncodingLength_spec v Hv) as HL.
  rewrite sign_bytes by done. unfold signed_enc. set (n := signed_len v) in *.
  destruct (Z.ltb_spec (u64 (magnitude v)) 64) as [Hx|Hx]; rewrite u64_small in Hx by (unfold in_u64; lia).
  - assert (n = 1%nat) as ->.
    { unfold n, signed_len, Log2Floor64. destruct (Z.eqb_spec (magnitude v) 0); [done|].
      pose proof (Z.log2_nonneg (magnitude v)). assert (Z.log2 (magnitude v) < 6) by (apply Z.log2_lt_pow2; lia). lia. }
    unfold raw. simpl be. change (header 1) with 128. change (2 ^ _) with 1. by rewrite Z.div_1_r, Z.lxor_comm.
  - assert (2 <= n)%nat as Hn2.
    { unfold n, signed_len, Log2Floor64. destruct (Z.eqb_spec (magnitude v) 0); [lia|].
      assert (6 <= Z.log2 (magnitude v)) by (apply Z.log2_le_pow2; lia). lia. }
    assert (drop (10 - n) (be 10 v) = be n v) as Hdrop.
    { replace (be 10 v) with (be (10 - n + n) v) by (f_equal; lia). apply be_drop. }
    rewrite HL. unfold mbind, option_bind.
    destruct (kLengthToHeaderBits_spec n ltac:(lia)) as (h0 & h1 & -> & Hh). rewrite Hdrop. unfold raw. rewrite be_lxor, Hh.
    pose proof (be_length n v) as Hlen. clearbody n. clear HL Hx Hm Hdrop Hh.
    destruct (be n v) as [|b0 [|b1 r]]; cbn [length zip_with] in *; [lia|lia|].
    replace (n - 2)%nat with (length r) by lia. by rewrite zip_with_lxor_zero.
Qed.

(** ** Order *)
Lemma signed_enc_image v : in_i64 v -> signed_enc v = be (signed_len v) (image (signed_len v) v).
Proof. intros Hv. apply signed_len_spec in Hv as (Hn & Hf & _). apply be_image; [lia|done]. Qed.

(** The first byte tells the sign. *)
Lemma image_head n v : (1 <= n)%nat -> fits n v ->
  exists b t, be n (image n v) = b :: t /\ (v < 0 -> 0 <= b < 128) /\ (0 <= v -> 128 <= b < 256).
Proof.
  intros Hn Hv. pose proof (image_range n v Hn Hv) as Hr. destruct n as [|n]; [lia|].
  do 2 eexists. split; [reflexivity|]. rewrite pow8_S in Hr. pose proof (pow8_pos n) as Hp.
  rewrite Z.mod_small by (split; [apply Z.div_pos; lia|apply Z.div_lt_upper_bound; lia]).
  unfold image, header, fits in *. pose proof (pow7_half (S n) ltac:(lia)).
  assert (2 ^ (7 * Z.of_nat (S n)) <= 128 * 2 ^ (8 * Z.of_nat n)).
  { change 128 with (2 ^ 7). rewrite <- Z.pow_add_r by lia. apply Z.pow_le_mono_r; lia. }
  rewrite pow8_S in *. set (p := 2 ^ (8 * Z.of_nat n)) in *. set (q := 2 ^ (7 * Z.of_nat (S n))) in *.
  destruct (Z.ltb_spec v 0); (split; [intros _|lia]) || (split; [lia|intros _]); split.
  - apply Z.div_pos; lia.
  - apply Z.div_lt_upper_bound; lia.
  - apply Z.div_le_lower_bound; lia.
  - apply Z.div_lt_upper_bound; lia.
Qed.

Lemma image_pos_long n d v w : (1 <= n)%nat -> (1 <= d)%nat -> fits n v -> 0 <= v -> 0 <= w -> fits (n + d) w ->
  diverge (be n (image n v)) (be (n + d) (image (n + d) w)).
Proof.
  intros Hn Hd Hv Hv0 Hw0 Hw. pose proof (image_range n v Hn Hv). pose proof (image_range (n + d) w ltac:(lia) Hw).
  apply be_diverge_long; [lia| |lia]. unfold image, fits in *.
  rewrite (proj2 (Z.ltb_ge v 0)), (proj2 (Z.ltb_ge w 0)) by lia. unfold header.
  transitivity ((2 ^ (8 * Z.of_nat n) - 2 ^ (7 * Z.of_nat n - 1)) * 2 ^ (8 * Z.of_nat d)).
  - apply Z.mul_le_mono_nonneg_r; [pose proof (pow8_pos d); lia|]. pose proof (pow7_half n Hn). lia.
  - rewrite Z.mul_sub_distr_r, <- !Z.pow_add_r by lia.
    replace (8 * Z.of_nat n + 8 * Z.of_nat d) with (8 * Z.of_nat (n + d)) by lia.
    pose proof (Z.pow_le_mono_r 2 (7 * Z.of_nat (n + d)) (7 * Z.of_nat n - 1 + 8 * Z.of_nat d) ltac:(lia) ltac:(lia)). lia.
Qed.

Lemma image_neg_short n d v w : (1 <= n)%nat -> (1 <= d)%nat -> fits (n + d) v -> v < 0 -> w < 0 -> fits n w ->
  diverge (be (n + d) (image (n + d) v)) (be n (image n w)).
Proof.
  intros Hn Hd Hv Hv0 Hw0 Hw. pose proof (image_range n w Hn Hw). pose proof (image_range (n + d) v ltac:(lia) Hv).
  apply be_diverge_short; [lia| |lia]. unfold image, fits in *.
  rewrite (proj2 (Z.ltb_lt v 0)), (proj2 (Z.ltb_lt w 0)) by lia.
  eapply Z.lt_le_trans with (2 ^ (7 * Z.of_nat n - 1) * 2 ^ (8 * Z.of_nat d)).
  - rewrite <- Z.pow_add_r by lia.
    pose proof (Z.pow_le_mono_r 2 (7 * Z.of_nat (n + d)) (7 * Z.of_nat n - 1 + 8 * Z.of_nat d) ltac:(lia) ltac:(lia)). lia.
  - apply Z.mul_le_mono_nonneg_r; [pose proof (pow8_pos d); lia|]. pose proof (pow7_half n Hn). lia.
Qed.

Lemma fits_mono n m v : (n <= m)%nat -> fits n v -> fits m v.
Proof. unfold fits. intros Hnm. pose proof (Z.pow_le_mono_r 2 (7 * Z.of_nat n - 1) (7 * Z.of_nat m - 1)). lia. Qed.

(** Numbers further from zero on the same side take at least as many bytes. *)
Lemma signed_len_mono v w : in_i64 v -> in_i64 w -> magnitude v <= magnitude w -> (signed_len v <= signed_len w)%nat.
Proof.
  intros Hv Hw Hm. pose proof (signed_len_spec v Hv) as (Hn & _ & Hmin). pose proof (signed_len_spec w Hw) as (Hk & Hf & _).
  destruct (le_lt_dec (signed_len v) (signed_len w)) as [|Hlt]; [done|]. destruct Hmin as [|Hmin]; [lia|].
  destruct Hmin. apply (fits_mono (signed_len w)); [lia|]. rewrite fits_magnitude in *. lia.
Qed.

Lemma signed_enc_diverge v w : in_i64 v -> in_i64 w -> v < w -> diverge (signed_enc v) (signed_enc w).
Proof.
  intros Hv Hw Hlt. rewrite !signed_enc_image by done.
  pose proof (signed_len_spec v Hv) as (Hn & Hfv & _). pose proof (signed_len_spec w Hw) as (Hk & Hfw & _).
  pose proof (signed_len_mono v w Hv Hw) as Hvw. pose proof (signed_len_mono w v Hw Hv) as Hwv. unfold magnitude, Z.lnot in Hvw, Hwv.
  set (n := signed_len v) in *. set (k := signed_len w) in *.
  assert (n = k -> image n v < image k w -> diverge (be n (image n v)) (be k (image k w))) as Hsame.
  { intros <- Hi. pose proof (image_range n v). pose proof (image_range n w). apply be_diverge; tauto || lia. }
  destruct (Z.ltb_spec v 0), (Z.ltb_spec w 0); [| |lia|].
  - destruct (decide (n = k)) as [E|]; [apply Hsame; [done|]; rewrite <- E|].
    + unfold image. rewrite !(proj2 (Z.ltb_lt _ 0)) by lia. lia.
    + replace n with (k + (n - k))%nat by lia. apply image_neg_short; try lia; [by replace (k + _)%nat with n by lia|done].
  - destruct (image_head n v ltac:(lia) Hfv) as (b & t & -> & Hb & _), (image_head k w ltac:(lia) Hfw) as (c & u & -> & _ & Hc).
    apply diverge_head. lia.
  - destruct (decide (n = k)) as [E|]; [apply Hsame; [done|]; rewrite <- E|].
    + unfold image. rewrite !(proj2 (Z.ltb_ge _ 0)) by lia. lia.
    + replace k with (n + (k - n))%nat by lia. apply image_pos_long; try lia; [done|by replace (n + _)%nat with k by lia].
Qed.

(** ** Reading *)
Lemma LoadBigEndian64_step a c k k' : is_byte c -> 0 <= k <= 56 -> k' = k + 8 ->
  Z.lor (a * 2 ^ k') (u64 (Z.shiftl (u8 c) k)) = (a * 256 + c) * 2 ^ k.
Proof.
  intros Hc Hk ->. unfold is_byte in Hc. unfold u8, uwrap. rewrite (Z.mod_small c) by lia.
  rewrite Z.shiftl_mul_pow2, u64_small by (try lia; unfold in_u64; change (2 ^ 64) with (2 ^ (8 + 56));
    pose proof (Z.pow_le_mono_r 2 k 56); pose proof (Z.pow_pos_nonneg 2 k); change (2 ^ (8 + 56)) with (256 * 2 ^ 56); nia).
  rewrite Z.lor_comm, <- (Z.shiftl_mul_pow2 a), lor_shiftl_add by
    (rewrite ?Z.pow_add_r by lia; pose proof (Z.pow_pos_nonneg 2 k); nia).
  rewrite Z.pow_add_r by lia. ring.
Qed.

Lemma LoadBigEndian64_spec s rest : length s = 8%nat -> Forall is_byte s -> LoadBigEndian64 (s ++ rest) = Some (be_val s).
Proof.
  intros Hl Hs. do 8 (destruct s as [|? s]; [done|]). destruct s; [|done].
  repeat match goal with H : Forall _ (_ :: _) |- _ => inversion_clear H end.
  cbn [app LoadBigEndian64 fold_left]. f_equal. change 0 with (0 * 2 ^ 64) at 1.
  rewrite (LoadBigEndian64_step _ _ 56 64) by (done || lia). rewrite (LoadBigEndian64_step _ _ 48 56) by (done || lia).
  rewrite (LoadBigEndian64_step _ _ 40 48) by (done || lia). rewrite (LoadBigEndian64_step _ _ 32 40) by (done || lia).
  rewrite (LoadBigEndian64_step _ _ 24 32) by (done || lia). rewrite (LoadBigEndian64_step _ _ 16 24) by (done || lia).
  rewrite (LoadBigEndian64_step _ _ 8 16) by (done || lia). rewrite (LoadBigEndian64_step _ _ 0 8) by (done || lia).
  cbn [be_val]. unfold zlen. cbn [length].
  repeat match goal with |- context [2 ^ ?k] => let p := eval vm_compute in (2 ^ k) in change (2 ^ k) with p end. ring.
Qed.

Lemma kLengthToMask_spec n : (1 <= n <= 10)%nat -> kLengthToMask !! n = Some (u64 (header n)).
Proof. intros Hn. do 11 (destruct n as [|n]; [try lia; reflexivity|]). lia. Qed.

(** Flipping the header bits again leaves the number. *)
Lemma unmask n v : in_i64 v -> i64 (Z.lxor (u64 (raw n v)) (u64 (header n))) = v.
Proof.
  intros Hv. unfold u64, uwrap. rewrite <- mod_pow_lxor by lia. unfold raw.
  rewrite Z.lxor_assoc, Z.lxor_nilpotent, Z.lxor_0_r. unfold i64. rewrite Z.add_mod_idemp_l by lia. apply i64_small, Hv.
Qed.

Lemma lxor_255 b : is_byte b -> Z.lxor b 255 = 255 - b.
Proof.
  intros Hb. unfold is_byte in Hb. assert (Z.lxor b (-1) mod 2 ^ 8 = Z.lxor b 255) as <-.
  { rewrite mod_pow_lxor by lia. by rewrite (Z.mod_small b). }
  rewrite Z.lxor_m1_r. unfold Z.lnot. change (2 ^ 8) with 256. lia.
Qed.

(** The bytes of a negative number are those of its complement, inverted. *)
Lemma image_lnot n v : v < 0 -> be n (image n v) = map (fun c => 255 - c) (be n (image n (Z.lnot v))).
Proof.
  intros Hv. assert (forall z, be n (Z.lnot z) = map (fun c => 255 - c) (be n z)) as Hnot.
  { intros z. induction n as [|k IH]; simpl; [done|]. rewrite IH. f_equal.
    assert (-1 / 2 ^ (8 * Z.of_nat k) = -1) as Hm.
    { symmetry. pose proof (pow8_pos k). apply (Z.div_unique _ _ _ (2 ^ (8 * Z.of_nat k) - 1)); lia. }
    rewrite <- Z.lxor_m1_r, div_pow_lxor by lia. change (- (1)) with (-1). rewrite Hm. change 256 with (2 ^ 8).
    rewrite mod_pow_lxor by lia. change (-1 mod 2 ^ 8) with 255. apply lxor_255, Z.mod_pos_bound. lia. }
  rewrite <- Hnot. apply be_cong. unfold image, Z.lnot, header.
  rewrite (proj2 (Z.ltb_lt v 0)), (proj2 (Z.ltb_ge _ 0)) by lia.
  rewrite <- (Z_mod_plus_full _ (-1)). f_equal. lia.
Qed.

Definition sign_flip (v : Z) : Z := if v <? 0 then 255 else 0.

Lemma image_flip n v : be n (image n v) = map (fun c => Z.lxor c (sign_flip v)) (be n (image n (magnitude v))).
Proof.
  unfold sign_flip, magnitude. destruct (Z.ltb_spec v 0).
  - rewrite image_lnot by done. apply map_ext_Forall. eapply Forall_impl; [apply be_bytes|]. intros c Hc. by rewrite lxor_255.
  - rewrite <- map_id at 1. apply map_ext. intros c. by rewrite Z.lxor_0_r.
Qed.

Lemma lxor_flip c f : Z.lxor (Z.lxor c f) f = c.
Proof. by rewrite Z.lxor_assoc, Z.lxor_nilpotent, Z.lxor_0_r. Qed.

Lemma image_short n m : (1 <= n <= 7)%nat -> 0 <= m -> fits n m ->
  exists f t, be n (image n m) = f :: t /\ f <> 255 /\ Z.to_nat (7 - Log2Floor64 (Z.lxor f 255)) = n.
Proof.
  intros Hn Hm Hf. pose proof (image_range n m ltac:(lia) Hf) as Hr. unfold fits in Hf.
  pose proof (pow7_half n ltac:(lia)) as H7. unfold image, header in *. rewrite (proj2 (Z.ltb_ge m 0)) in * by done.
  destruct n as [|n]; [lia|]. set (x := m + _) in *. do 2 eexists. split; [reflexivity|].
  pose proof (pow8_S n) as H8. pose proof (pow8_pos n) as Hp.
  assert (2 ^ (7 * Z.of_nat (S n)) = 2 ^ (7 - Z.of_nat n) * 2 ^ (8 * Z.of_nat n)) as H7'.
  { rewrite <- Z.pow_add_r by lia. f_equal. lia. }
  assert (2 ^ (7 * Z.of_nat (S n) - 1) = 2 ^ (6 - Z.of_nat n) * 2 ^ (8 * Z.of_nat n)) as H7''.
  { rewrite <- Z.pow_add_r by lia. f_equal. lia. }
  set (p := 2 ^ (8 * Z.of_nat n)) in *. set (q := x / p).
  assert (256 - 2 ^ (7 - Z.of_nat n) <= q) by (apply Z.div_le_lower_bound; lia).
  assert (q < 256 - 2 ^ (6 - Z.of_nat n)) by (apply Z.div_lt_upper_bound; lia).
  pose proof (Z.pow_pos_nonneg 2 (6 - Z.of_nat n) ltac:(lia) ltac:(lia)).
  pose proof (Z.pow_le_mono_r 2 (7 - Z.of_nat n) 7 ltac:(lia) ltac:(lia)). change (2 ^ 7) with 128 in *.
  rewrite Z.mod_small by lia. split; [lia|]. rewrite lxor_255 by (unfold is_byte; lia).
  unfold Log2Floor64. rewrite (proj2 (Z.eqb_neq _ 0)) by lia.
  rewrite (Z.log2_unique (255 - q) (6 - Z.of_nat n)); [lia|lia|].
  replace (Z.succ (6 - Z.of_nat n)) with (7 - Z.of_nat n) by lia. lia.
Qed.

Lemma image_long n m : (8 <= n <= 10)%nat -> 0 <= m < 2 ^ 63 -> fits n m ->
  exists s t r, be n (image n m) = 255 :: s :: t :: r /\ long_length 0 s t = Some n.
Proof.
  intros Hn Hm Hf. unfold image. rewrite (proj2 (Z.ltb_ge m 0)) by lia. unfold fits in Hf.
  do 8 (destruct n as [|n]; [lia|]). unfold long_length.
  destruct n as [|[|[|n]]]; [| | |lia]; cbn [be]; do 3 eexists; (split; [f_equal|rewrite ?Z.lxor_0_r]);
    repeat match goal with |- context [2 ^ ?k] => let p := eval vm_compute in (2 ^ k) in change (2 ^ k) with p end;
    repeat match goal with |- context [header ?k] => let p := eval vm_compute in (header k) in change (header k) with p end;
    repeat match type of Hf with context [2 ^ ?k] => let p := eval vm_compute in (2 ^ k) in change (2 ^ k) with p in Hf end; try lia.
  - by rewrite (proj2 (Z.leb_gt 128 _)) by lia.
  - assert (65408 <= (m + 4713143110832790437888) / 72057594037927936 < 65472) by lia.
    rewrite (proj2 (Z.leb_le 128 _)) by lia. by rewrite (proj2 (Z.ltb_lt _ 192)) by lia.
  - assert ((m + 1207745227993911763402752) / 18446744073709551616 = 65472) as -> by lia.
    change (65472 mod 256) with 192. simpl. by rewrite (proj2 (Z.ltb_lt _ 128)) by lia.
Qed.

Lemma long_length_flip f s t : long_length f (Z.lxor s f) (Z.lxor t f) = long_length 0 s t.
Proof. unfold long_length. by rewrite !lxor_flip, !Z.lxor_0_r. Qed.

Lemma sign_bit b : is_byte b -> (Z.land b 0x80 =? 0) = (b <? 128).
Proof.
  unfold is_byte. intros Hb. destruct (Z.ltb_spec b 128); [by rewrite land_128_low by lia|].
  replace b with (b - 128 + 128) by lia. apply land_128_set. lia.
Qed.

(** The mask the reader extends the sign with, and the one it inverts bytes with. *)
Definition sign_mask (v : Z) : Z := if v <? 0 then 2 ^ 64 - 1 else 0.

Lemma sign_mask_flip v : Z.land (sign_mask v) 255 = sign_flip v.
Proof. unfold sign_mask, sign_flip. by destruct (v <? 0). Qed.

Lemma read_sign n v f t : (1 <= n)%nat -> fits n v -> be n (image n (magnitude v)) = f :: t ->
  (if Z.land (Z.lxor f (sign_flip v)) 0x80 =? 0 then 2 ^ 64 - 1 else 0) = sign_mask v.
Proof.
  intros Hn Hv Hf. destruct (image_head n v Hn Hv) as (b & u & Hb & Hneg & Hpos). rewrite image_flip, Hf in Hb. simpl in Hb.
  simplify_eq. unfold sign_mask. destruct (Z.ltb_spec v 0).
  - rewrite sign_bit, (proj2 (Z.ltb_lt _ 128)) by (unfold is_byte; lia). done.
  - rewrite sign_bit, (proj2 (Z.ltb_ge _ 128)) by (unfold is_byte; lia). done.
Qed.

Lemma load_short n v : (1 <= n)%nat -> fits n v -> load_bytes (sign_mask v) (be n (image n v)) = u64 (raw n v).
Proof.
  intros Hn Hv. rewrite load_bytes_spec by (apply be_bytes || (unfold sign_mask, in_u64; destruct (v <? 0); lia)).
  unfold zlen. rewrite be_val_be, be_length, Z.mod_small by (by apply image_range). rewrite image_raw by done.
  unfold sign_mask, u64, uwrap. destruct (v <? 0); [|f_equal; lia].
  rewrite <- (Z_mod_plus_full (_ - _) (2 ^ (8 * Z.of_nat n))). f_equal. lia.
Qed.

Lemma load_long n v rest : (8 <= n)%nat -> fits n v ->
  LoadBigEndian64 (drop (n - 8) (be n (image n v) ++ rest)) = Some (u64 (raw n v)).
Proof.
  intros Hn Hv. rewrite drop_app_le by (rewrite be_length; lia).
  replace (be n (image n v)) with (be ((n - 8) + 8) (image n v)) by (f_equal; lia). rewrite be_drop.
  rewrite LoadBigEndian64_spec by (apply be_length || apply be_bytes). rewrite be_val_be, image_raw by (done || lia).
  f_equal. change (8 * Z.of_nat 8) with 64. unfold u64, uwrap. destruct (v <? 0); [|f_equal; lia].
  replace (8 * Z.of_nat n) with (8 * Z.of_nat (n - 8) + 64) by lia. rewrite Z.pow_add_r by lia.
  rewrite <- (Z_mod_plus_full (_ - _) (2 ^ (8 * Z.of_nat (n - 8)))). f_equal. lia.
Qed.

Lemma ReadSignedNumIncreasing_spec v rest : in_i64 v -> ReadSignedNumIncreasing (signed_enc v ++ rest) = Some (v, rest).
Proof.
  intros Hv. rewrite signed_enc_image by done. pose proof (signed_len_spec v Hv) as (Hn & Hf & _).
  pose proof (magnitude_range v Hv) as Hm. set (n := signed_len v) in *. clearbody n.
  assert (fits n (magnitude v)) as Hfm by (rewrite fits_magnitude in *; unfold magnitude in *; repeat case_match; lia || done).
  pose proof (load_short n v ltac:(lia) Hf) as Hshort. pose proof (load_long n v rest) as Hlong.
  pose proof (unmask n v Hv) as Hun. pose proof (kLengthToMask_spec n Hn) as Hmask. pose proof (read_sign n v) as Hsign.
  pose proof (image_flip n v) as Hflip. pose proof (be_length n (image n v)) as Hlen.
  assert ((length (be n (image n v) ++ rest) <? n)%nat = false) as Hll by (rewrite length_app, Hlen; apply Nat.ltb_ge; lia).
  unfold ReadSignedNumIncreasing. destruct (le_lt_dec n 7) as [H7|H8].
  - destruct (image_short n (magnitude v) ltac:(lia) ltac:(lia) Hfm) as (f & t & Hft & Hne & Hl).
    assert (exists u, be n (image n v) = Z.lxor f (sign_flip v) :: u) as [u Hu] by (rewrite Hflip, Hft; by eexists).
    rewrite Hu in *. cbn [app] in *. rewrite (Hsign f t), sign_mask_flip, lxor_flip by (done || lia).
    rewrite (proj2 (Z.eqb_neq f 255)), Hl, Hll by done. cbn [negb].
    rewrite app_comm_cons, take_app_length', Hshort by (by rewrite Hlen). unfold mbind, option_bind.
    by rewrite Hmask, Hun, drop_app_length' by (by rewrite Hlen).
  - destruct (image_long n (magnitude v) ltac:(lia) ltac:(lia) Hfm) as (s & t & r & Hft & Hl).
    rewrite <- (long_length_flip (sign_flip v)) in Hl.
    assert (exists u, be n (image n v) = Z.lxor 255 (sign_flip v) :: Z.lxor s (sign_flip v) :: Z.lxor t (sign_flip v) :: u)
      as [u Hu] by (rewrite Hflip, Hft; by eexists).
    rewrite Hu in *. cbn [app] in *. rewrite (Hsign _ _ ltac:(lia) Hf Hft), sign_mask_flip, lxor_flip.
    pose proof (proj1 (Nat.ltb_ge _ _) Hll) as Hl8. apply (Nat.le_trans 8) in Hl8; [|lia]. apply Nat.ltb_ge in Hl8.
    cbn [negb Z.eqb Pos.eqb]. unfold mbind, option_bind. rewrite Hl, Hll, Hlong by (done || lia).
    rewrite Hl8, Hmask, Hun, !app_comm_cons. by rewrite drop_app_length' by (by rewrite Hlen).
Qed.
