(* ===== verification/OrderedCodeTheorems.v ===== *)
(** * Keys of several items, and their properties

    [OrderedItem] is what one kind of item promises; keys are sequences of items,
    and the theorems on them use nothing else of the three encodings. *)
From S2P Require Import Prelude Coding Block TableKeys TableReader OrderedCode.
From stdpp Require Import options.

(** ** One kind of item *)
Class OrderedItem {A : Type} (valid : A -> Prop) (cmp : A -> A -> comparison)
    (write : bytes -> A -> option bytes) (read : bytes -> option (A * bytes)) (enc : A -> bytes) : Prop := {
  item_write : forall dest a, valid a -> write dest a = Some (dest ++ enc a);
  item_read : forall a rest, valid a -> read (enc a ++ rest) = Some (a, rest);
  item_order : forall a b, valid a -> valid b -> cmp a b = Lt -> diverge (enc a) (enc b);
  item_eq : forall a b, cmp a b = Eq -> a = b;
  item_opp : forall a b, cmp b a = CompOpp (cmp a b)
}.

(** [ReadString] into an empty string. *)
Definition ReadString_new (src : bytes) : option (bytes * bytes) :=
  '(rest, r) ← ReadString src (Some []); s ← r; Some (s, rest).

Lemma bytes_compare_opp a : forall b, bytes_compare b a = CompOpp (bytes_compare a b).
Proof.
  induction a as [|x a IH]; intros [|y b]; simpl; try done. rewrite (Z.compare_antisym x y).
  destruct (x ?= y); simpl; [apply IH|done|done].
Qed.

#[export] Instance string_item :
  OrderedItem (Forall is_byte) bytes_compare WriteString ReadString_new str_enc.
Proof.
  split.
  - intros dest s Hs. by apply WriteString_spec.
  - intros s rest Hs. unfold ReadString_new. by rewrite ReadString_spec.
  - intros s t _ Ht Hlt. apply str_enc_diverge; [done|]. unfold bytes_lt. by rewrite Hlt.
  - intros s t. apply bytes_compare_eq.
  - intros s t. apply bytes_compare_opp.
Qed.

#[export] Instance num_item :
  OrderedItem in_u64 Z.compare WriteNumIncreasing ReadNumIncreasing num_enc.
Proof.
  split.
  - intros dest v Hv. by apply WriteNumIncreasing_spec.
  - intros v rest Hv. by apply ReadNumIncreasing_spec.
  - intros v w Hv _ Hlt. apply num_enc_diverge; [apply Hv|exact Hlt].
  - intros v w. apply Z.compare_eq.
  - intros v w. apply Z.compare_antisym.
Qed.

#[export] Instance signed_item :
  OrderedItem in_i64 Z.compare WriteSignedNumIncreasing ReadSignedNumIncreasing signed_enc.
Proof.
  split.
  - intros dest v Hv. by apply WriteSignedNumIncreasing_spec.
  - intros v rest Hv. by apply ReadSignedNumIncreasing_spec.
  - intros v w Hv Hw Hlt. by apply signed_enc_diverge.
  - intros v w. apply Z.compare_eq.
  - intros v w. apply Z.compare_antisym.
Qed.

(** ** Keys *)
Inductive item :=
  | Str (s : bytes)
  | Num (v : Z)
  | Signed (v : Z).

Inductive kind := KStr | KNum | KSigned.

Definition kind_of (i : item) : kind := match i with Str _ => KStr | Num _ => KNum | Signed _ => KSigned end.

Definition valid_item (i : item) : Prop :=
  match i with Str s => Forall is_byte s | Num v => in_u64 v | Signed v => in_i64 v end.

(** Items of one kind by their order; the kinds of keys that are compared agree. *)
Definition item_compare (i j : item) : comparison :=
  match i, j with
  | Str s, Str t => bytes_compare s t
  | Num v, Num w | Signed v, Signed w => v ?= w
  | _, _ => Eq
  end.

Fixpoint items_compare (a b : list item) : comparison :=
  match a, b with
  | i :: a, j :: b => match item_compare i j with Eq => items_compare a b | c => c end
  | [], [] => Eq
  | [], _ => Lt
  | _, [] => Gt
  end.

Definition write_item (dest : bytes) (i : item) : option bytes :=
  match i with
  | Str s => WriteString dest s
  | Num v => WriteNumIncreasing dest v
  | Signed v => WriteSignedNumIncreasing dest v
  end.

Fixpoint write_items (dest : bytes) (l : list item) : option bytes :=
  match l with
  | [] => Some dest
  | i :: l => dest ← write_item dest i; write_items dest l
  end.

Definition read_item (k : kind) (src : bytes) : option (item * bytes) :=
  match k with
  | KStr => '(s, src) ← ReadString_new src; Some (Str s, src)
  | KNum => '(v, src) ← ReadNumIncreasing src; Some (Num v, src)
  | KSigned => '(v, src) ← ReadSignedNumIncreasing src; Some (Signed v, src)
  end.

Fixpoint read_items (ks : list kind) (src : bytes) : option (list item * bytes) :=
  match ks with
  | [] => Some ([], src)
  | k :: ks => '(i, src) ← read_item k src; '(l, src) ← read_items ks src; Some (i :: l, src)
  end.

Definition enc_item (i : item) : bytes :=
  match i with Str s => str_enc s | Num v => num_enc v | Signed v => signed_enc v end.

Lemma write_item_spec dest i : valid_item i -> write_item dest i = Some (dest ++ enc_item i).
Proof. intros Hi. destruct i; simpl; by rewrite item_write. Qed.

Lemma read_item_spec i rest : valid_item i -> read_item (kind_of i) (enc_item i ++ rest) = Some (i, rest).
Proof.
  intros Hi. destruct i as [s|v|v]; cbn [kind_of enc_item read_item].
  - by rewrite (item_read (read := ReadString_new) s).
  - by rewrite (item_read (read := ReadNumIncreasing) v).
  - by rewrite (item_read (read := ReadSignedNumIncreasing) v).
Qed.

Lemma enc_item_order i j : valid_item i -> valid_item j -> item_compare i j = Lt -> diverge (enc_item i) (enc_item j).
Proof. destruct i, j; try done; simpl; intros Hi Hj; by apply (item_order _ _ Hi Hj). Qed.

Lemma item_compare_opp i j : item_compare j i = CompOpp (item_compare i j).
Proof. destruct i, j; try done; simpl; apply item_opp. Qed.

Lemma item_compare_eq i j : kind_of i = kind_of j -> item_compare i j = Eq -> i = j.
Proof. destruct i, j; try done; simpl; intros _ H; f_equal; by apply item_eq. Qed.

Lemma write_items_spec l : forall dest, Forall valid_item l ->
  write_items dest l = Some (dest ++ flat_map enc_item l).
Proof.
  induction l as [|i l IH]; intros dest Hl; simpl; [by rewrite app_nil_r|]. inversion_clear Hl.
  rewrite write_item_spec by done. simpl. rewrite IH by done. by rewrite (assoc_L (++)).
Qed.

Lemma bytes_compare_app p : forall x y, bytes_compare (p ++ x) (p ++ y) = bytes_compare x y.
Proof. induction p; intros x y; simpl; [done|]. by rewrite Z.compare_refl. Qed.

Lemma diverge_compare x y rx ry : diverge x y -> bytes_compare (x ++ rx) (y ++ ry) = Lt.
Proof. intros H. specialize (H rx ry). unfold bytes_lt in H. by destruct (bytes_compare _ _). Qed.

Lemma enc_items_compare a : forall b, map kind_of a = map kind_of b -> Forall valid_item a -> Forall valid_item b ->
  bytes_compare (flat_map enc_item a) (flat_map enc_item b) = items_compare a b.
Proof.
  induction a as [|i a IH]; intros [|j b] Hk Ha Hb; try done. inversion_clear Ha. inversion_clear Hb. simpl in *.
  injection Hk as Hk Hks. destruct (item_compare i j) eqn:Hc.
  - apply item_compare_eq in Hc as ->; [|done]. rewrite bytes_compare_app. by apply IH.
  - by apply diverge_compare, enc_item_order.
  - rewrite bytes_compare_opp, diverge_compare; [done|]. apply enc_item_order; try done. by rewrite item_compare_opp, Hc.
Qed.

(** ** Properties *)

(** C29. Byte strings written from two sequences of items of the same kinds
    (strings, unsigned and signed 64-bit numbers) compare as the sequences do,
    item by item: the promise of the header of the module. *)
Theorem ordered_code_order a b :
  map kind_of a = map kind_of b -> Forall valid_item a -> Forall valid_item b ->
  exists x y, write_items [] a = Some x /\ write_items [] b = Some y /\ bytes_compare x y = items_compare a b.
Proof.
  intros Hk Ha Hb. exists (flat_map enc_item a), (flat_map enc_item b).
  rewrite !write_items_spec by done. split_and!; [done|done|by apply enc_items_compare].
Qed.

(** The first items decide, and a number below zero sorts before the others. *)
Lemma ordered_code_order_witness :
  exists x y, write_items [] [Str [97; 0]; Signed (-300); Num 7] = Some x /\
              write_items [] [Str [97; 0]; Signed 64; Num 0] = Some y /\ bytes_compare x y = Lt.
Proof.
  apply (ordered_code_order [Str [97; 0]; Signed (-300); Num 7] [Str [97; 0]; Signed 64; Num 0]); [reflexivity|..];
    repeat constructor; compute; discriminate.
Defined.

(** C31. Items are appended to the destination and are read back, in order and
    with their kinds, from any byte string that starts with them; what follows
    them is left. *)
Theorem ordered_code_roundtrip dest l rest : Forall valid_item l ->
  exists x, write_items dest l = Some (dest ++ x) /\ read_items (map kind_of l) (x ++ rest) = Some (l, rest).
Proof.
  intros Hl. exists (flat_map enc_item l). split; [by apply write_items_spec|].
  induction Hl as [|i l Hi Hl IH]; simpl; [done|]. rewrite <- (assoc_L (++)), read_item_spec by done. simpl. by rewrite IH.
Qed.

Lemma ordered_code_roundtrip_witness :
  exists x, write_items [9] [Num (2 ^ 64 - 1); Str [255; 0; 1]; Signed (- 2 ^ 63)] = Some ([9] ++ x) /\
    read_items [KNum; KStr; KSigned] (x ++ [5]) = Some ([Num (2 ^ 64 - 1); Str [255; 0; 1]; Signed (- 2 ^ 63)], [5]).
Proof.
  apply (ordered_code_roundtrip [9] [Num (2 ^ 64 - 1); Str [255; 0; 1]; Signed (- 2 ^ 63)] [5]).
  repeat constructor; compute; discriminate.
Defined.
