(* ===== verification/PendingCounts.v ===== *)
(** * Pending counts of the executor (src/tensorflow/core/common_runtime/pending_counts.h)

    One iteration of a frame keeps, for every node, how many inputs it still
    waits for, how many of those that arrived are dead, and whether it started.
    The counts are bytes at offsets that a [Layout] hands out: one byte with bit
    fields for nodes with small counts, 8 bytes for others.  Bit fields are laid
    out from the lowest bit on, integers are little endian; [DCHECK]s are
    compiled out.  A byte outside the array is undefined behaviour. *)
From S2P Require Import Prelude.
From stdpp Require Import list options.
#[local] Open Scope Z_scope.
#[local] Open Scope tf_monad_scope.

Inductive NodeState := PENDING_NOTREADY | PENDING_READY | STARTED | COMPLETED.

#[export] Instance NodeState_eq_dec : EqDecision NodeState.
Proof. solve_decision. Defined.

Definition kMaxCountForPackedCounts : Z := 7.

(** ** Handles *)
Record Handle := mkHandle {
  byte_offset_ : Z;
  is_large_ : bool
}.

#[export] Instance Handle_eq_dec : EqDecision Handle.
Proof. solve_decision. Defined.

Definition sizeof_LargeCounts : Z := 8.

(** A signed bit field of 31 bits. *)
Definition i31 (z : Z) : Z := (z + 2 ^ 30) mod 2 ^ 31 - 2 ^ 30.

Definition int32 (z : Z) : Z := (z + 2 ^ 31) mod 2 ^ 32 - 2 ^ 31.

(** [Layout::CreateHandle]: a handle, and the next offset. *)
Definition CreateHandle (max_pending_count max_dead_count next_offset : Z) : Handle * Z :=
  if (kMaxCountForPackedCounts <? max_pending_count) || (kMaxCountForPackedCounts <? max_dead_count) then
    let B := sizeof_LargeCounts in
    let offset := Z.quot (next_offset + B - 1) B * B in
    let byte_offset := i31 offset in
    (mkHandle byte_offset true, int32 (byte_offset + B))
  else (mkHandle (i31 next_offset) false, int32 (next_offset + 1)).

(** ** Counts: the fields of [PackedCounts] and of [LargeCounts]

    [padding] is the bit of [PackedCounts] that no field uses. *)
Record Counts := mkCounts {
  pending_ : Z;
  dead_ : Z;
  has_started : bool;
  padding : bool
}.

#[export] Instance Counts_eq_dec : EqDecision Counts.
Proof. solve_decision. Defined.

Definition bit (b : bool) (k : Z) : Z := if b then 2 ^ k else 0.

Definition decode_packed (c : Z) : Counts :=
  mkCounts (c mod 8) (c / 8 mod 8) (Z.testbit c 6) (Z.testbit c 7).

Definition encode_packed (c : Counts) : Z :=
  pending_ c mod 8 + 8 * (dead_ c mod 8) + bit (has_started c) 6 + bit (padding c) 7.

Fixpoint le_word (bs : list Z) : Z :=
  match bs with
  | [] => 0
  | b :: bs => b + 256 * le_word bs
  end.

Fixpoint le_split (n : nat) (v : Z) : list Z :=
  match n with
  | O => []
  | S n => v mod 256 :: le_split n (v / 256)
  end.

Definition decode_large (bs : list Z) : Counts :=
  let hi := le_word (drop 4 bs) in
  mkCounts (le_word (take 4 bs)) (hi mod 2 ^ 31) (Z.testbit hi 31) false.

Definition encode_large (c : Counts) : list Z :=
  le_split 4 (u32 (pending_ c)) ++ le_split 4 (dead_ c mod 2 ^ 31 + bit (has_started c) 31).

(** ** The object *)
Record PendingCounts := mkPending {
  num_bytes_ : Z;
  bytes_ : list Z
}.

(** [new char[]] returns the bytes [raw] at [addr]. *)
Definition PendingCounts_new (next_offset addr : Z) (raw : list Z) : outcome PendingCounts :=
  if (sizeof_LargeCounts <=? next_offset) && negb (addr mod sizeof_LargeCounts =? 0) then Crash
  else Done (mkPending next_offset raw).

Definition PendingCounts_copy (other : PendingCounts) (addr : Z) : outcome PendingCounts :=
  if (sizeof_LargeCounts <=? num_bytes_ other) && negb (addr mod sizeof_LargeCounts =? 0) then Crash
  else Done (mkPending (num_bytes_ other) (bytes_ other)).

Definition width (h : Handle) : Z := if is_large_ h then sizeof_LargeCounts else 1.

Definition in_range (h : Handle) (p : PendingCounts) : bool :=
  (0 <=? byte_offset_ h) && (byte_offset_ h + width h <=? Z.of_nat (length (bytes_ p))).

(** [Large(h)->load()] and [Packed(h)->load()]. *)
Definition load (h : Handle) : M PendingCounts Counts := fun p =>
  if in_range h p then
    let bs := take (Z.to_nat (width h)) (drop (Z.to_nat (byte_offset_ h)) (bytes_ p)) in
    Done (if is_large_ h then decode_large bs else decode_packed (nth 0 bs 0), p)
  else Crash.

Definition store (h : Handle) (c : Counts) : M PendingCounts unit := fun p =>
  if in_range h p then
    let off := Z.to_nat (byte_offset_ h) in
    let bs := if is_large_ h then encode_large c else [encode_packed c] in
    Done (tt, mkPending (num_bytes_ p) (take off (bytes_ p) ++ bs ++ drop (off + Z.to_nat (width h)) (bytes_ p)))
  else Crash.

(** Assignments to a field keep the bits it has. *)
Definition trunc_pending (h : Handle) (v : Z) : Z := if is_large_ h then u32 v else v mod 8.

Definition trunc_dead (h : Handle) (v : Z) : Z := if is_large_ h then v mod 2 ^ 31 else v mod 8.

Definition NodeStateForStruct (c : Counts) : NodeState :=
  if has_started c then if pending_ c =? 0 then STARTED else COMPLETED
  else if pending_ c =? 0 then PENDING_READY else PENDING_NOTREADY.

Definition notready (c : Counts) : bool := bool_decide (NodeStateForStruct c = PENDING_NOTREADY).

(** ** Operations *)
Definition set_initial_count (h : Handle) (pending_count : Z) : M PendingCounts unit :=
  c <~ load h;;
  store h (mkCounts (trunc_pending h pending_count) 0 false (padding c)).

Definition node_state (h : Handle) : M PendingCounts NodeState :=
  c <~ load h;; ret (NodeStateForStruct c).

Definition mark_started (h : Handle) : M PendingCounts unit :=
  c <~ load h;;
  store h (mkCounts (pending_ c) (dead_ c) true (padding c)).

Definition mark_completed (h : Handle) : M PendingCounts unit :=
  c <~ load h;;
  store h (mkCounts 1 (dead_ c) (has_started c) (padding c)).

Definition pending (h : Handle) : M PendingCounts Z :=
  c <~ load h;;
  ret (if notready c then int32 (pending_ c) else 0).

Definition decrement_pending (h : Handle) (v : Z) : M PendingCounts Z :=
  c <~ load h;;
  let c := mkCounts (trunc_pending h (pending_ c - v)) (dead_ c) (has_started c) (padding c) in
  store h c;;;
  ret (int32 (pending_ c)).

Definition mark_live (h : Handle) : M PendingCounts unit :=
  c <~ load h;;
  if notready c then
    let p := if is_large_ h then u32 (Z.land (pending_ c) (Z.lnot 1)) else Z.land (pending_ c) 6 in
    store h (mkCounts p (dead_ c) (has_started c) (padding c))
  else ret tt.

Definition dead_count (h : Handle) : M PendingCounts Z :=
  c <~ load h;; ret (int32 (dead_ c)).

Definition increment_dead_count (h : Handle) : M PendingCounts unit :=
  c <~ load h;;
  if notready c then store h (mkCounts (pending_ c) (trunc_dead h (dead_ c + 1)) (has_started c) (padding c)) else ret tt.

Record AdjustResult := mkAdjust {
  any_dead : bool;
  any_pending : bool
}.

#[export] Instance AdjustResult_eq_dec : EqDecision AdjustResult.
Proof. solve_decision. Defined.

(** The body shared by [adjust_for_activation_shared] and its atomic version. *)
Definition adjust (h : Handle) (increment_dead : bool) (val : Counts) : Counts :=
  let dead := if increment_dead && notready val then trunc_dead h (dead_ val + 1) else dead_ val in
  mkCounts (trunc_pending h (pending_ val - 1)) dead (has_started val) (padding val).

Definition adjust_result (val : Counts) : AdjustResult :=
  mkAdjust (negb (dead_ val =? 0)) (negb (pending_ val =? 0)).

Definition adjust_for_activation (h : Handle) (increment_dead : bool) : M PendingCounts AdjustResult :=
  val <~ load h;;
  store h (adjust h increment_dead val);;;
  ret (adjust_result (adjust h increment_dead val)).

(** ** [adjust_for_activation_atomic]: steps of several threads on one counter

    A thread has loaded [old_val] or has returned.  A [compare_exchange_weak]
    that fails, which it may do at any time, loads the value again. *)
Inductive thread :=
  | Entered (increment_dead : bool)
  | Looping (increment_dead : bool) (old_val : Counts)
  | Returned (increment_dead : bool) (ret : AdjustResult).

Record shared := mkShared {
  cell : Counts;
  threads : list thread
}.

Inductive cas_step (h : Handle) : shared -> shared -> Prop :=
  | step_load s i b :
      threads s !! i = Some (Entered b) ->
      cas_step h s (mkShared (cell s) (<[i := Looping b (cell s)]> (threads s)))
  | step_cas_fail s i b old :
      threads s !! i = Some (Looping b old) ->
      cas_step h s (mkShared (cell s) (<[i := Looping b (cell s)]> (threads s)))
  | step_cas_ok s i b old :
      threads s !! i = Some (Looping b old) -> old = cell s ->
      cas_step h s (mkShared (adjust h b old) (<[i := Returned b (adjust_result (adjust h b old))]> (threads s))).
