(* ===== verification/PendingProofs.v ===== *)
(** * Lemmas on pending counts: bytes, layout and the abstract nodes *)
From S2P Require Import Prelude PendingCounts.
From stdpp Require Import list options.
#[local] Open Scope Z_scope.
#[local] Open Scope tf_monad_scope.

(** ** Encoding *)

(** Counts a handle can hold. *)
Definition fits (h : Handle) (c : Counts) : Prop :=
  0 <= pending_ c < (if is_large_ h then 2 ^ 32 else 8) /\ 0 <= dead_ c < (if is_large_ h then 2 ^ 31 else 8) /\
  (is_large_ h = true -> padding c = false).

Lemma bit_range b k : 0 <= k -> 0 <= bit b k <= 2 ^ k.
Proof. intros Hk. unfold bit. pose proof (Z.pow_nonneg 2 k). destruct b; lia. Qed.

Lemma testbit_small x k : 0 <= x < 2 ^ k -> Z.testbit x k = false.
Proof. intros Hx. destruct (Z.eq_dec x 0) as [->|]; [apply Z.bits_0|]. apply Z.bits_above_log2; [lia|]. apply Z.log2_lt_pow2; lia. Qed.

Lemma testbit_top x b k : 0 <= k -> 0 <= x < 2 ^ k -> Z.testbit (x + bit b k) k = b.
Proof.
  intros Hk Hx. destruct b; simpl; [|rewrite Z.add_0_r; by apply testbit_small].
  rewrite <- (Z.mul_1_l (2 ^ k)). apply Z.testbit_true; [done|].
  rewrite Z.div_add, Z.div_small by lia. done.
Qed.

Lemma packed_roundtrip c : 0 <= pending_ c < 8 -> 0 <= dead_ c < 8 -> decode_packed (encode_packed c) = c.
Proof.
  intros Hp Hd. destruct c as [p d s x]. simpl in *.
  assert (Hall : forallb (fun p => forallb (fun d => forallb (fun s => forallb (fun x =>
    bool_decide (decode_packed (encode_packed (mkCounts p d s x)) = mkCounts p d s x)) [true; false]) [true; false])
    [0; 1; 2; 3; 4; 5; 6; 7]) [0; 1; 2; 3; 4; 5; 6; 7] = true) by reflexivity.
  rewrite forallb_forall in Hall. specialize (Hall p). rewrite forallb_forall in Hall. specialize (fun H => Hall H d).
  assert (Hin : forall z, 0 <= z < 8 -> In z [0; 1; 2; 3; 4; 5; 6; 7]) by (intros z Hz; simpl; lia).
  specialize (Hall (Hin p Hp) (Hin d Hd)). rewrite forallb_forall in Hall. specialize (Hall s).
  rewrite forallb_forall in Hall. specialize (fun H => Hall H x).
  assert (Hb : forall b, In b [true; false]) by (intros []; simpl; auto). specialize (Hall (Hb s) (Hb x)).
  by apply bool_decide_eq_true in Hall.
Qed.

Lemma le_split_length n : forall v, length (le_split n v) = n.
Proof. induction n; intros v; simpl; [done|by rewrite IHn]. Qed.

Lemma le_word_split n : forall v, 0 <= v < 256 ^ Z.of_nat n -> le_word (le_split n v) = v.
Proof.
  induction n as [|n IH]; intros v Hv; simpl; [change (256 ^ Z.of_nat 0) with 1 in Hv; lia|].
  rewrite Nat2Z.inj_succ, Z.pow_succ_r in Hv by lia.
  rewrite IH by (split; [apply Z.div_pos; lia|apply Z.div_lt_upper_bound; lia]). rewrite (Z.div_mod v 256) at 3 by lia. lia.
Qed.

Lemma large_roundtrip c : 0 <= pending_ c < 2 ^ 32 -> 0 <= dead_ c < 2 ^ 31 -> padding c = false ->
  decode_large (encode_large c) = c.
Proof.
  intros Hp Hd Hx. destruct c as [p d s x]. simpl in *. subst x. unfold decode_large, encode_large. simpl pending_. simpl dead_. simpl has_started.
  rewrite drop_app_length', take_app_length' by (by rewrite le_split_length).
  rewrite u32_small by (unfold in_u32; lia). rewrite (Z.mod_small d) by done.
  pose proof (bit_range s 31 ltac:(lia)). rewrite !le_word_split by (change (256 ^ Z.of_nat 4) with (2 ^ 32); lia).
  rewrite testbit_top by lia. f_equal. destruct s; simpl; [|by rewrite Z.add_0_r, Z.mod_small].
  change (2 ^ 31) with (1 * 2 ^ 31) at 1. by rewrite Z_mod_plus_full, Z.mod_small.
Qed.

Lemma encode_large_length c : length (encode_large c) = 8%nat.
Proof. unfold encode_large. by rewrite length_app, !le_split_length. Qed.

(** ** Loads and stores *)
Definition disjoint_handles (h k : Handle) : Prop :=
  byte_offset_ h + width h <= byte_offset_ k \/ byte_offset_ k + width k <= byte_offset_ h.

Definition span (h : Handle) (l : list Z) : list Z := take (Z.to_nat (width h)) (drop (Z.to_nat (byte_offset_ h)) l).

Lemma width_pos h : 1 <= width h.
Proof. unfold width, sizeof_LargeCounts. destruct (is_large_ h); lia. Qed.

Lemma store_spec h c p : in_range h p = true ->
  exists p', store h c p = Done (tt, p') /\ num_bytes_ p' = num_bytes_ p /\ length (bytes_ p') = length (bytes_ p) /\
    span h (bytes_ p') = (if is_large_ h then encode_large c else [encode_packed c]) /\
    forall k, in_range k p = true -> disjoint_handles h k -> span k (bytes_ p') = span k (bytes_ p).
Proof.
  intros Hr. unfold store. rewrite Hr. eexists. split; [reflexivity|]. split; [done|].
  unfold in_range in *. apply andb_prop in Hr as [H0%Z.leb_le H1%Z.leb_le]. pose proof (width_pos h) as Hw.
  set (bs := if is_large_ h then encode_large c else [encode_packed c]). simpl.
  assert (Hb : length bs = Z.to_nat (width h)).
  { unfold bs, width, sizeof_LargeCounts. destruct (is_large_ h); [apply encode_large_length|done]. }
  split_and!.
  - rewrite !length_app, length_take, length_drop, Hb. lia.
  - unfold span. rewrite drop_app_length' by (rewrite length_take; lia). by rewrite take_app_length'.
  - intros k Hk Hd. apply andb_prop in Hk as [Hk0%Z.leb_le Hk1%Z.leb_le]. pose proof (width_pos k) as Hwk.
    unfold span. apply list_eq. intros i. destruct (le_lt_dec (Z.to_nat (width k)) i) as [Hi|Hi].
    { rewrite !lookup_take_ge by done. done. }
    rewrite !lookup_take_lt, !lookup_drop by done. destruct Hd as [Hd|Hd].
    + rewrite lookup_app_r by (rewrite length_take; lia). rewrite lookup_app_r by (rewrite length_take; lia).
      rewrite lookup_drop, length_take, Hb. f_equal. lia.
    + rewrite lookup_app_l by (rewrite length_take; lia). by rewrite lookup_take_lt by lia.
Qed.

(** The counts at a handle. *)
Definition counts_at (h : Handle) (l : list Z) : Counts :=
  if is_large_ h then decode_large (span h l) else decode_packed (nth 0 (span h l) 0).

Lemma load_spec h p : in_range h p = true -> load h p = Done (counts_at h (bytes_ p), p).
Proof. intros Hr. unfold load. by rewrite Hr. Qed.

Lemma store_counts h c p : in_range h p = true -> fits h c ->
  exists p', store h c p = Done (tt, p') /\ counts_at h (bytes_ p') = c /\ num_bytes_ p' = num_bytes_ p /\
    (forall k, in_range k p' = in_range k p) /\
    forall k, in_range k p = true -> disjoint_handles h k -> counts_at k (bytes_ p') = counts_at k (bytes_ p).
Proof.
  intros Hr (Hp & Hd & Hx). destruct (store_spec h c p Hr) as (p' & Hs & Hn & Hl & Hh & Hk). exists p'.
  split_and!; [done| |done|by intros k; unfold in_range; rewrite Hl|].
  - unfold counts_at. rewrite Hh. destruct (is_large_ h); [apply large_roundtrip|apply packed_roundtrip]; auto.
  - intros k Hkr Hd'. unfold counts_at. by rewrite (Hk k Hkr Hd').
Qed.

(** ** Layout *)
Fixpoint create_handles (maxima : list (Z * Z)) (next_offset : Z) : list Handle * Z :=
  match maxima with
  | [] => ([], next_offset)
  | (p, d) :: maxima =>
      let '(h, next_offset) := CreateHandle p d next_offset in
      let '(hs, next_offset) := create_handles maxima next_offset in (h :: hs, next_offset)
  end.

(** Within [lo, hi), large ones aligned. *)
Definition placed (lo hi : Z) (h : Handle) : Prop :=
  lo <= byte_offset_ h /\ byte_offset_ h + width h <= hi /\ (is_large_ h = true -> byte_offset_ h mod 8 = 0).

Lemma CreateHandle_spec p d next : 0 <= next < 2 ^ 30 - 16 ->
  exists h next', CreateHandle p d next = (h, next') /\ placed next next' h /\ next' <= next + 16 /\
    is_large_ h = (7 <? p) || (7 <? d).
Proof.
  intros Hn. unfold CreateHandle, kMaxCountForPackedCounts, sizeof_LargeCounts.
  assert (Hi31 : forall z, 0 <= z < 2 ^ 30 -> i31 z = z) by (intros z Hz; unfold i31; rewrite Z.mod_small; lia).
  assert (Hi32 : forall z, 0 <= z < 2 ^ 31 -> int32 z = z) by (intros z Hz; unfold int32; rewrite Z.mod_small; lia).
  destruct (_ || _) eqn:E; do 2 eexists; (split; [reflexivity|]).
  - rewrite Z.quot_div_nonneg by lia. set (q := (next + 8 - 1) / 8).
    assert (next <= q * 8 <= next + 7) by (unfold q; pose proof (Z.div_mod (next + 8 - 1) 8); pose proof (Z.mod_pos_bound (next + 8 - 1) 8); lia).
    unfold placed, width, sizeof_LargeCounts. simpl. rewrite Hi31, Hi32 by (rewrite ?Hi31; lia). split_and!; try lia.
    intros _. by rewrite Z.mul_comm, Z.mul_mod, Z.mod_same, Z.mul_0_l by lia.
  - unfold placed, width. simpl. rewrite Hi31, Hi32 by lia. split_and!; try lia.
Qed.

Lemma create_handles_spec maxima : forall next, 0 <= next -> next + 16 * Z.of_nat (length maxima) < 2 ^ 30 ->
  exists hs next', create_handles maxima next = (hs, next') /\ next <= next' /\ length hs = length maxima /\
    Forall (placed next next') hs /\
    (forall i j h k, hs !! i = Some h -> hs !! j = Some k -> i <> j -> disjoint_handles h k) /\
    Forall2 (fun m h => is_large_ h = (7 <? m.1) || (7 <? m.2)) maxima hs.
Proof.
  induction maxima as [|[p d] maxima IH]; intros next H0 Hb; [by exists [], next|]. simpl length in Hb.
  destruct (CreateHandle_spec p d next ltac:(lia)) as (h & next1 & E & (Hlo & Hhi & Hal) & H16 & Hlg).
  pose proof (width_pos h) as Hw.
  destruct (IH next1 ltac:(lia) ltac:(lia)) as (hs & next2 & E2 & Hn2 & Hl & Hpl & Hdis & Hlgs).
  exists (h :: hs), next2. simpl. rewrite E, E2. split_and!; try done; [lia|by rewrite Hl| | |by constructor].
  - constructor; [unfold placed; split_and!; try lia; done|]. eapply Forall_impl; [exact Hpl|].
    intros k (? & ? & ?). unfold placed. split_and!; try lia; done.
  - assert (Hfirst : forall j k, hs !! j = Some k -> disjoint_handles h k).
    { intros j k Hk. rewrite Forall_lookup in Hpl. destruct (Hpl j k Hk). left. lia. }
    intros i j a b Ha Hb' Hij. destruct i as [|i], j as [|j]; simpl in Ha, Hb'.
    + done.
    + injection Ha as <-. by apply (Hfirst j).
    + injection Hb' as <-. apply or_comm. by apply (Hfirst i).
    + apply (Hdis i j); auto.
Qed.

(** ** The abstract nodes *)
Inductive node :=
  | NotReady (p d : Z)
  | Ready (d : Z)
  | Started (d : Z)
  | Completed (d : Z).

Definition node_of (c : Counts) : node :=
  match NodeStateForStruct c with
  | PENDING_NOTREADY => NotReady (pending_ c) (dead_ c)
  | PENDING_READY => Ready (dead_ c)
  | STARTED => Started (dead_ c)
  | COMPLETED => Completed (dead_ c)
  end.

Inductive op :=
  | SetInitial (n : Z)
  | MarkStarted
  | MarkCompleted
  | Decrement (v : Z)
  | MarkLive
  | IncrementDead
  | Adjust (increment_dead : bool)
  | GetState
  | GetPending
  | GetDead.

Inductive answer :=
  | AUnit
  | AInt (z : Z)
  | AState (s : NodeState)
  | AAdjust (r : AdjustResult).

(** The largest counts of a node; those of large handles are read as [int]s. *)
Definition limit (large : bool) : Z := if large then 2 ^ 31 - 1 else 7.

(** [n] inputs left of a node with [d] dead ones. *)
Definition waiting (n d : Z) : node := if n =? 0 then Ready d else NotReady n d.

Definition dead_of (a : node) : Z := match a with NotReady _ d | Ready d | Started d | Completed d => d end.

Definition state_of (a : node) : NodeState :=
  match a with NotReady _ _ => PENDING_NOTREADY | Ready _ => PENDING_READY | Started _ => STARTED | Completed _ => COMPLETED end.

(** What an operation promises; [None] where the source requires otherwise. *)
Definition abs_op (large : bool) (o : op) (a : option node) : option (node * answer) :=
  match o, a with
  | SetInitial n, _ => if (0 <=? n) && (n <=? limit large) then Some (waiting n 0, AUnit) else None
  | MarkStarted, Some (Ready d) => Some (Started d, AUnit)
  | MarkCompleted, Some (Started d) => Some (Completed d, AUnit)
  | Decrement v, Some (NotReady p d) => if (0 <=? v) && (v <=? p) then Some (waiting (p - v) d, AInt (p - v)) else None
  | MarkLive, Some (NotReady p d) => Some (waiting (p - p mod 2) d, AUnit)
  | MarkLive, Some a => Some (a, AUnit)
  | IncrementDead, Some (NotReady p d) => if d <? limit large then Some (NotReady p (d + 1), AUnit) else None
  | IncrementDead, Some a => Some (a, AUnit)
  | Adjust b, Some (NotReady p d) =>
      let d' := if b then d + 1 else d in
      if d' <=? limit large then Some (waiting (p - 1) d', AAdjust (mkAdjust (0 <? d') (1 <? p))) else None
  | GetState, Some a => Some (a, AState (state_of a))
  | GetPending, Some a => Some (a, AInt (match a with NotReady p _ => p | _ => 0 end))
  | GetDead, Some a => Some (a, AInt (dead_of a))
  | _, _ => None
  end.

Definition run_op (o : op) (h : Handle) : M PendingCounts answer :=
  match o with
  | SetInitial n => set_initial_count h n;;; ret AUnit
  | MarkStarted => mark_started h;;; ret AUnit
  | MarkCompleted => mark_completed h;;; ret AUnit
  | Decrement v => r <~ decrement_pending h v;; ret (AInt r)
  | MarkLive => mark_live h;;; ret AUnit
  | IncrementDead => increment_dead_count h;;; ret AUnit
  | Adjust b => r <~ adjust_for_activation h b;; ret (AAdjust r)
  | GetState => r <~ node_state h;; ret (AState r)
  | GetPending => r <~ pending h;; ret (AInt r)
  | GetDead => r <~ dead_count h;; ret (AInt r)
  end.

(** Counts that stand for a node. *)
Record stands (h : Handle) (c : Counts) (a : node) : Prop := {
  st_node : node_of c = a;
  st_pending : 0 <= pending_ c <= limit (is_large_ h);
  st_dead : 0 <= dead_ c <= limit (is_large_ h);
  st_padding : is_large_ h = true -> padding c = false
}.

(** What an operation stores, if anything, and what it answers. *)
Definition effect (o : op) (h : Handle) (c : Counts) : option Counts * answer :=
  match o with
  | SetInitial n => (Some (mkCounts (trunc_pending h n) 0 false (padding c)), AUnit)
  | MarkStarted => (Some (mkCounts (pending_ c) (dead_ c) true (padding c)), AUnit)
  | MarkCompleted => (Some (mkCounts 1 (dead_ c) (has_started c) (padding c)), AUnit)
  | Decrement v =>
      let c := mkCounts (trunc_pending h (pending_ c - v)) (dead_ c) (has_started c) (padding c) in
      (Some c, AInt (int32 (pending_ c)))
  | MarkLive =>
      (if notready c then
         Some (mkCounts (if is_large_ h then u32 (Z.land (pending_ c) (Z.lnot 1)) else Z.land (pending_ c) 6)
                 (dead_ c) (has_started c) (padding c))
       else None, AUnit)
  | IncrementDead =>
      (if notready c then Some (mkCounts (pending_ c) (trunc_dead h (dead_ c + 1)) (has_started c) (padding c)) else None, AUnit)
  | Adjust b => (Some (adjust h b c), AAdjust (adjust_result (adjust h b c)))
  | GetState => (None, AState (NodeStateForStruct c))
  | GetPending => (None, AInt (if notready c then int32 (pending_ c) else 0))
  | GetDead => (None, AInt (int32 (dead_ c)))
  end.

Lemma run_op_effect o h p : in_range h p = true ->
  run_op o h p =
  let '(w, r) := effect o h (counts_at h (bytes_ p)) in
  match w with
  | Some c => match store h c p with Done (_, p') => Done (r, p') | Crash => Crash | OutOfFuel => OutOfFuel end
  | None => Done (r, p)
  end.
Proof.
  intros Hr. pose proof (load_spec h p Hr) as Hl.
  destruct o; unfold run_op, set_initial_count, mark_started, mark_completed, decrement_pending, mark_live, increment_dead_count,
    adjust_for_activation, node_state, pending, dead_count, bind; rewrite Hl; cbn -[store]; try done;
    try (destruct (notready _); [|done]); match goal with |- context [store h ?c p] => by destruct (store h c p) as [[? ?]| |] end.
Qed.

Lemma notready_node c : notready c = match node_of c with NotReady _ _ => true | _ => false end.
Proof. unfold notready, node_of. by destruct (NodeStateForStruct c). Qed.

Lemma node_of_waiting p d x : 0 <= p -> node_of (mkCounts p d false x) = waiting p d.
Proof. intros Hp. unfold node_of, NodeStateForStruct, waiting. simpl. by destruct (p =? 0). Qed.

Lemma node_of_inv c :
  match node_of c with
  | NotReady p d => has_started c = false /\ pending_ c = p /\ dead_ c = d /\ p <> 0
  | Ready d => has_started c = false /\ pending_ c = 0 /\ dead_ c = d
  | Started d => has_started c = true /\ pending_ c = 0 /\ dead_ c = d
  | Completed d => has_started c = true /\ pending_ c <> 0 /\ dead_ c = d
  end.
Proof. unfold node_of, NodeStateForStruct. destruct (has_started c), (Z.eqb_spec (pending_ c) 0); auto. Qed.

Lemma limit_range large : 7 <= limit large < 2 ^ 31.
Proof. unfold limit. destruct large; lia. Qed.

Lemma trunc_pending_small h v : 0 <= v <= limit (is_large_ h) -> trunc_pending h v = v.
Proof.
  unfold trunc_pending, limit. destruct (is_large_ h); intros Hv; [apply u32_small; unfold in_u32; lia|apply Z.mod_small; lia].
Qed.

Lemma trunc_dead_small h v : 0 <= v <= limit (is_large_ h) -> trunc_dead h v = v.
Proof. unfold trunc_dead, limit. destruct (is_large_ h); intros Hv; apply Z.mod_small; lia. Qed.

Lemma int32_small v large : 0 <= v <= limit large -> int32 v = v.
Proof. pose proof (limit_range large). intros. unfold int32. rewrite Z.mod_small; lia. Qed.

Lemma land_lnot_1 p : Z.land p (Z.lnot 1) = p - p mod 2.
Proof.
  rewrite <- Z.ldiff_land. change 1 with (Z.ones 1). rewrite Z.ldiff_ones_r by lia. rewrite Z.shiftl_mul_pow2, Z.shiftr_div_pow2 by lia.
  change (2 ^ 1) with 2. rewrite (Z.div_mod p 2) at 2 by lia. lia.
Qed.

Lemma land_6 p : 0 <= p < 8 -> Z.land p 6 = p - p mod 2.
Proof.
  intros Hp. assert (p = 0 \/ p = 1 \/ p = 2 \/ p = 3 \/ p = 4 \/ p = 5 \/ p = 6 \/ p = 7) as H by lia.
  by repeat (destruct H as [->|H]); [..|subst].
Qed.

(** A waiting node with new counts. *)
Lemma stands_waiting h p d x : 0 <= p <= limit (is_large_ h) -> 0 <= d <= limit (is_large_ h) ->
  (is_large_ h = true -> x = false) -> stands h (mkCounts p d false x) (waiting p d).
Proof. intros Hp Hd Hx. split; try done. apply node_of_waiting. lia. Qed.

Lemma waiting_pos p d : 0 < p -> waiting p d = NotReady p d.
Proof. intros Hp. unfold waiting. by rewrite (proj2 (Z.eqb_neq p 0)) by lia. Qed.

Lemma effect_spec o h c a a' r :
  match a with Some a => stands h c a | None => is_large_ h = true -> padding c = false end ->
  abs_op (is_large_ h) o a = Some (a', r) ->
  (effect o h c).2 = r /\ stands h (default c (effect o h c).1) a'.
Proof.
  intros Ha Hop. pose proof (limit_range (is_large_ h)) as HL.
  destruct o; simpl in Hop.
  1:{ destruct (_ && _) eqn:E in Hop; [|done]. bool_to_prop. simplify_eq. simpl. split; [done|]. rewrite trunc_pending_small by lia.
      apply stands_waiting; [lia|lia|]. destruct a as [a|]; [apply Ha|done]. }
  all: destruct a as [a|]; [|done]; destruct Ha as [Hn Hp Hd Hx]; pose proof (node_of_inv c) as Hinv; rewrite Hn in Hinv;
    unfold effect; rewrite ?notready_node, ?Hn.
  - destruct a; simplify_eq. destruct Hinv as (Hs & Hp0 & Hd0). simpl. split; [done|]. split; simpl; try done.
    unfold node_of, NodeStateForStruct. simpl. by rewrite Hp0, Hd0.
  - destruct a; simplify_eq. destruct Hinv as (Hs & Hp0 & Hd0). simpl. split; [done|]. split; simpl; try done; [|lia].
    unfold node_of, NodeStateForStruct. simpl. by rewrite Hs, Hd0.
  - destruct a; try done. destruct (_ && _) eqn:E in Hop; [|done]. bool_to_prop. simplify_eq. destruct Hinv as (Hs & Hp0 & Hd0 & Hne). simpl.
    rewrite Hs, Hp0, Hd0, trunc_pending_small, (int32_small _ (is_large_ h)) by lia. split; [done|]. apply stands_waiting; lia || done.
  - destruct a; simplify_eq; simpl; (split; [done|]); [|by split..]. destruct Hinv as (Hs & Hp0 & Hd0 & Hne). rewrite Hs, Hp0, Hd0.
    pose proof (Z.mod_pos_bound p 2 ltac:(lia)). pose proof (Z.mod_le p 2 ltac:(lia) ltac:(lia)).
    replace (if is_large_ h then _ else _) with (p - p mod 2); [apply stands_waiting; lia || done|].
    unfold limit in *. destruct (is_large_ h); [|by rewrite land_6 by lia]. rewrite land_lnot_1. symmetry. apply u32_small. unfold in_u32. lia.
  - destruct a; simpl; simplify_eq; try (by split; [done|split]). destruct (_ <? _) eqn:E in Hop; [|done]. bool_to_prop. simplify_eq.
    destruct Hinv as (Hs & Hp0 & Hd0 & Hne). simpl. split; [done|]. rewrite Hs, Hp0, Hd0, trunc_dead_small by lia.
    rewrite <- (waiting_pos p) by lia. apply stands_waiting; lia || done.
  - destruct a; try done. destruct (_ <=? _) eqn:E in Hop; [|done]. bool_to_prop. simplify_eq. destruct Hinv as (Hs & Hp0 & Hd0 & Hne).
    unfold adjust. rewrite notready_node, Hn, Hs, Hp0, Hd0, andb_true_r, trunc_pending_small by lia. cbn [fst snd default].
    assert ((if increment_dead then trunc_dead h (d + 1) else d) = if increment_dead then d + 1 else d) as ->
      by (destruct increment_dead; [apply trunc_dead_small; lia|done]).
    split; [|apply stands_waiting; [lia|destruct increment_dead; lia|done]]. unfold adjust_result. simpl. do 2 f_equal.
    + destruct (Z.ltb_spec 0 (if increment_dead then d + 1 else d)), (Z.eqb_spec (if increment_dead then d + 1 else d) 0); try done;
        destruct increment_dead; lia.
    + destruct (Z.ltb_spec 1 p), (Z.eqb_spec (p - 1) 0); done || lia.
  - simplify_eq. simpl. split; [|by split]. f_equal. unfold node_of in *. by destruct (NodeStateForStruct c).
  - simplify_eq. simpl. split; [|by split]. f_equal. destruct (node_of c); try done. destruct Hinv as (_ & Hp0 & _). rewrite Hp0. apply (int32_small _ (is_large_ h)). lia.
  - simplify_eq. simpl. split; [|by split]. f_equal. rewrite (int32_small _ (is_large_ h)) by lia. destruct (node_of c); tauto.
Qed.
