(* ===== verification/PendingTheorems.v ===== *)
(** * Properties of the pending counts *)
From S2P Require Import Prelude PendingCounts PendingProofs.
From stdpp Require Import list relations options.
#[local] Open Scope Z_scope.
#[local] Open Scope tf_monad_scope.

(** ** All nodes of an iteration *)
Fixpoint run_ops (hs : list Handle) (ops : list (nat * op)) : M PendingCounts (list answer) :=
  match ops with
  | [] => ret []
  | (i, o) :: ops =>
      match hs !! i with
      | Some h => r <~ run_op o h;; rs <~ run_ops hs ops;; ret (r :: rs)
      | None => crash
      end
  end.

(** The abstract iteration: a node per handle, [None] before its first count. *)
Fixpoint abs_run (large : list bool) (nodes : list (option node)) (ops : list (nat * op)) : option (list answer) :=
  match ops with
  | [] => Some []
  | (i, o) :: ops =>
      l ← large !! i;
      a ← nodes !! i;
      '(a', r) ← abs_op l o a;
      rs ← abs_run large (<[i := Some a']> nodes) ops;
      Some (r :: rs)
  end.

Record pending_rel (hs : list Handle) (p : PendingCounts) (nodes : list (option node)) : Prop := {
  pr_range : Forall (fun h => in_range h p = true) hs;
  pr_disjoint : forall i j h k, hs !! i = Some h -> hs !! j = Some k -> i <> j -> disjoint_handles h k;
  pr_length : length nodes = length hs;
  pr_nodes : forall i h a, hs !! i = Some h -> nodes !! i = Some (Some a) -> stands h (counts_at h (bytes_ p)) a
}.

Lemma counts_at_padding h l : is_large_ h = true -> padding (counts_at h l) = false.
Proof. intros H. unfold counts_at. by rewrite H. Qed.

Lemma stands_fits h c a : stands h c a -> fits h c.
Proof. intros [_ Hp Hd Hx]. unfold fits, limit in *. destruct (is_large_ h); split_and!; lia || done. Qed.

Lemma run_op_rel hs p nodes i h a o a' r :
  pending_rel hs p nodes -> hs !! i = Some h -> nodes !! i = Some a -> abs_op (is_large_ h) o a = Some (a', r) ->
  exists p', run_op o h p = Done (r, p') /\ pending_rel hs p' (<[i := Some a']> nodes).
Proof.
  intros [Hr Hd Hl Hn] Hh Ha Hop. assert (Hri : in_range h p = true) by (by apply (Forall_lookup_1 _ _ _ _ Hr Hh)).
  destruct (effect_spec o h (counts_at h (bytes_ p)) a a' r) as [Hres Hst]; [|done|].
  { destruct a as [a|]; [by eapply Hn|apply counts_at_padding]. }
  rewrite run_op_effect by done. destruct (effect o h (counts_at h (bytes_ p))) as [w r'] eqn:E. simpl in Hres, Hst. subst r'.
  destruct w as [c|]; simpl in Hst.
  - destruct (store_counts h c p Hri (stands_fits _ _ _ Hst)) as (p' & -> & Hc & _ & Hrange & Hother). exists p'. split; [done|].
    split; [|done|by rewrite length_insert|].
    + eapply Forall_impl; [exact Hr|]. intros k Hk. by rewrite Hrange.
    + intros j k b Hk Hb. destruct (decide (i = j)) as [<-|Hij].
      * rewrite list_lookup_insert_eq in Hb by (by eapply lookup_lt_Some). injection Hb as <-. assert (k = h) as -> by congruence. by rewrite Hc.
      * rewrite list_lookup_insert_ne in Hb by done. rewrite Hother; [by eapply Hn|by apply (Forall_lookup_1 _ _ _ _ Hr Hk)|by eapply Hd].
  - exists p. split; [done|]. split; [done|done|by rewrite length_insert|]. intros j k b Hk Hb. destruct (decide (i = j)) as [<-|Hij].
    + rewrite list_lookup_insert_eq in Hb by (by eapply lookup_lt_Some). by simplify_eq.
    + rewrite list_lookup_insert_ne in Hb by done. by eapply Hn.
Qed.

Lemma run_ops_rel hs ops : forall p nodes rs, pending_rel hs p nodes ->
  abs_run (map is_large_ hs) nodes ops = Some rs -> exists p', run_ops hs ops p = Done (rs, p').
Proof.
  induction ops as [|[i o] ops IH]; intros p nodes rs Hrel Hrun; simpl in Hrun; [simplify_eq; by exists p|].
  destruct (map is_large_ hs !! i) as [l|] eqn:El; [|done]. simpl in Hrun. destruct (nodes !! i) as [a|] eqn:Ea; [|done]. simpl in Hrun.
  destruct (abs_op l o a) as [[a' r]|] eqn:Eo; [|done]. simpl in Hrun.
  destruct (abs_run _ _ ops) as [rs'|] eqn:Er; [|done]. simpl in Hrun. simplify_eq.
  rewrite list_lookup_fmap in El. destruct (hs !! i) as [h|] eqn:Eh; [|done]. simpl in El. simplify_eq.
  destruct (run_op_rel _ _ _ _ _ _ _ _ _ Hrel Eh Ea Eo) as (p1 & E1 & Hrel1). destruct (IH _ _ _ Hrel1 Er) as (p2 & E2).
  exists p2. simpl. rewrite Eh. rewrite (bind_Done _ _ _ _ _ E1). by rewrite (bind_Done _ _ _ _ _ E2).
Qed.

(** ** Threads *)
Definition flag (t : thread) : bool := match t with Entered b | Looping b _ | Returned b _ => b end.

(** The value after the calls of the threads in [order], one after the other. *)
Definition seq_value (h : Handle) (flags : list bool) (c : Counts) (order : list nat) : Counts :=
  fold_left (fun c i => adjust h (nth i flags false) c) order c.

Record linear (h : Handle) (c0 : Counts) (flags : list bool) (s : shared) (order : list nat) : Prop := {
  ln_flags : map flag (threads s) = flags;
  ln_nodup : NoDup order;
  ln_cell : cell s = seq_value h flags c0 order;
  ln_returned : forall k i, order !! k = Some i ->
    threads s !! i = Some (Returned (nth i flags false) (adjust_result (seq_value h flags c0 (take (S k) order))));
  ln_only : forall i b r, threads s !! i = Some (Returned b r) -> i ∈ order
}.

Lemma flag_insert (l : list thread) i t t' : l !! i = Some t -> flag t' = flag t -> map flag (<[i := t']> l) = map flag l.
Proof.
  intros Hi Hf. change (flag <$> <[i := t']> l = flag <$> l). rewrite list_fmap_insert, Hf. apply list_insert_id.
  by rewrite list_lookup_fmap, Hi.
Qed.

Lemma flag_nth flags (l : list thread) i t : map flag l = flags -> l !! i = Some t -> nth i flags false = flag t.
Proof. intros <- Hi. apply nth_lookup_Some. change ((flag <$> l) !! i = Some (flag t)). by rewrite list_lookup_fmap, Hi. Qed.

(** A thread that has not returned is not in the order, and may change. *)
Lemma linear_local h c0 flags s order i t t' : linear h c0 flags s order -> threads s !! i = Some t -> flag t' = flag t ->
  (forall b r, t <> Returned b r) -> (forall b r, t' <> Returned b r) ->
  linear h c0 flags (mkShared (cell s) (<[i := t']> (threads s))) order.
Proof.
  intros [Hf Hn Hc Hr Ho] Hi Hft Ht Ht'. assert (Hlen : (i < length (threads s))%nat) by (by eapply lookup_lt_Some).
  split; simpl; try done; [by rewrite (flag_insert _ _ _ _ Hi Hft)| |].
  - intros k j Hj. destruct (decide (i = j)) as [<-|]; [|rewrite list_lookup_insert_ne by done; by apply Hr].
    exfalso. pose proof (Hr k i Hj) as H. rewrite Hi in H. injection H as ->. by eapply Ht.
  - intros j b r Hj. destruct (decide (i = j)) as [<-|]; [|rewrite list_lookup_insert_ne in Hj by done; by eapply Ho].
    rewrite list_lookup_insert_eq in Hj by done. injection Hj as ->. exfalso. by eapply Ht'.
Qed.

Lemma linear_step h c0 flags s s' order : linear h c0 flags s order -> cas_step h s s' -> exists order', linear h c0 flags s' order'.
Proof.
  intros Hl Hs. inversion Hs as [? i b Hi|? i b old Hi|? i b old Hi Heq]; subst.
  - exists order. by eapply linear_local.
  - exists order. by eapply linear_local.
  - exists (order ++ [i]). destruct Hl as [Hf Hn Hc Hr Ho]. pose proof (flag_nth _ _ _ _ Hf Hi) as Hb. simpl in Hb.
    assert (Hnew : i ∉ order).
    { intros [k Hk]%list_elem_of_lookup. pose proof (Hr k i Hk) as H. rewrite Hi in H. by simplify_eq. }
    assert (Hlen : (i < length (threads s))%nat) by (by eapply lookup_lt_Some).
    assert (Hval : seq_value h flags c0 (order ++ [i]) = adjust h b (cell s)).
    { unfold seq_value. rewrite fold_left_app. simpl. fold (seq_value h flags c0 order). by rewrite <- Hc, Hb. }
    split; simpl; [by rewrite (flag_insert _ _ _ _ Hi)| |by rewrite Hval| |].
    + apply NoDup_app. split_and!; [done| |apply NoDup_singleton]. intros x Hx ->%list_elem_of_singleton. done.
    + intros k j Hj. destruct (decide (k = length order)) as [->|Hk].
      * rewrite lookup_app_r, Nat.sub_diag in Hj by lia. simpl in Hj. simplify_eq.
        rewrite list_lookup_insert_eq by done. rewrite take_ge by (rewrite length_app; simpl; lia). by rewrite Hval.
      * assert (k < length order)%nat as Hkl by (apply lookup_lt_Some in Hj; rewrite length_app in Hj; simpl in Hj; lia).
        rewrite lookup_app_l in Hj by done. rewrite take_app_le by lia.
        rewrite list_lookup_insert_ne by (intros ->; apply Hnew, list_elem_of_lookup; eauto). by apply Hr.
    + intros j b' r Hj. apply elem_of_app. destruct (decide (i = j)) as [<-|]; [right; left|left].
      rewrite list_lookup_insert_ne in Hj by done. by eapply Ho.
Qed.

Lemma linear_reach h c0 flags s : rtc (cas_step h) (mkShared c0 (map Entered flags)) s -> exists order, linear h c0 flags s order.
Proof.
  assert (H0 : linear h c0 flags (mkShared c0 (map Entered flags)) []).
  { split; simpl; try done; [rewrite map_map; apply map_id|apply NoDup_nil_2|].
    intros i b r Hi. rewrite list_lookup_fmap in Hi.
    by destruct (flags !! i). }
  intros Hr. remember (mkShared c0 (map Entered flags)) as s0. assert (H : exists order, linear h c0 flags s0 order) by eauto.
  clear Heqs0 H0. induction Hr as [|s1 s2 s3 Hs _ IH]; [done|]. apply IH. destruct H as [order Ho]. by eapply linear_step.
Qed.

(** ** Sequences of calls *)
Definition dead_calls (flags : list bool) (order : list nat) : Z :=
  Z.of_nat (length (filter (fun i => nth i flags false = true) order)).

Lemma seq_value_spec h flags order : forall c, has_started c = false ->
  Z.of_nat (length order) <= pending_ c <= limit (is_large_ h) -> 0 <= dead_ c -> dead_ c + dead_calls flags order <= limit (is_large_ h) ->
  seq_value h flags c order = mkCounts (pending_ c - Z.of_nat (length order)) (dead_ c + dead_calls flags order) false (padding c).
Proof.
  induction order as [|i order IH]; intros c Hs Hp Hd0 Hd; unfold seq_value, dead_calls in *; simpl in *.
  { destruct c as [p d s x]. simpl in *. subst s. f_equal; lia. }
  rewrite filter_cons in *. set (n := length (filter _ order)) in *.
  assert (Hadj : adjust h (nth i flags false) c =
    mkCounts (pending_ c - 1) (dead_ c + if nth i flags false then 1 else 0) false (padding c)).
  { unfold adjust. rewrite trunc_pending_small, Hs by lia.
    assert (Hnr : notready c = true).
    { unfold notready, NodeStateForStruct. rewrite Hs, (proj2 (Z.eqb_neq (pending_ c) 0)) by lia. done. }
    rewrite Hnr, andb_true_r. f_equal. destruct (nth i flags false); [|lia]. rewrite decide_True in Hd by done. simpl in Hd.
    apply trunc_dead_small. fold n in Hd. lia. }
  rewrite Hadj. destruct (nth i flags false); rewrite ?decide_True, ?decide_False in * by done; simpl in *; fold n in Hd |- *;
    rewrite IH; simpl; fold n; try lia; try done; f_equal; lia.
Qed.

Lemma filter_ext_in {A} (P Q : A -> Prop) `{!forall x, Decision (P x), !forall x, Decision (Q x)} (l : list A) :
  (forall x, x ∈ l -> P x <-> Q x) -> filter P l = filter Q l.
Proof.
  induction l as [|x l IH]; intros HPQ; [done|]. rewrite !filter_cons, IH by (intros; apply HPQ; by right).
  destruct (decide (P x)) as [Hx|Hx], (decide (Q x)) as [Hy|Hy]; try done; exfalso; specialize (HPQ x ltac:(left)); tauto.
Qed.

Lemma dead_calls_all flags : dead_calls flags (seq 0 (length flags)) = Z.of_nat (length (filter (fun b => b = true) flags)).
Proof.
  unfold dead_calls. f_equal.
  induction flags as [|b flags IH] using rev_ind; [done|]. rewrite length_app, Nat.add_1_r, seq_S, !filter_app, !length_app. f_equal.
  - rewrite <- IH. f_equal. apply filter_ext_in. intros i [_ Hi]%elem_of_seq. by rewrite app_nth1.
  - simpl. rewrite !filter_cons. rewrite app_nth2, Nat.sub_diag by lia. simpl. by destruct (decide (b = true)).
Qed.

Lemma dead_calls_perm flags order order' : order ≡ₚ order' -> dead_calls flags order = dead_calls flags order'.
Proof. intros H. unfold dead_calls. by rewrite H. Qed.

(** Every thread has returned. *)
Definition all_returned (s : shared) : Prop := forall i t, threads s !! i = Some t -> exists b r, t = Returned b r.

Lemma linear_complete h c0 flags s order : linear h c0 flags s order -> all_returned s -> order ≡ₚ seq 0 (length flags).
Proof.
  intros [Hf Hn Hc Hr Ho] Hall. assert (Hlen : length (threads s) = length flags) by (by rewrite <- Hf, length_map).
  apply NoDup_Permutation; [done|apply NoDup_seq|]. intros i. rewrite elem_of_seq. split.
  - intros [k Hk]%list_elem_of_lookup. pose proof (Hr k i Hk) as Hi. apply lookup_lt_Some in Hi. lia.
  - intros [_ Hi]. destruct (lookup_lt_is_Some_2 (threads s) i) as [t Ht]; [lia|].
    destruct (Hall i t Ht) as (b & r & ->). by eapply Ho.
Qed.

(** From any state the threads can all return. *)
Definition working (t : thread) : nat := match t with Returned _ _ => 0 | _ => 1 end.

Lemma finish_threads h s : exists s', rtc (cas_step h) s s' /\ all_returned s'.
Proof.
  remember (sum_list_with working (threads s)) as n eqn:En. revert s En.
  induction n as [n IH] using lt_wf_ind. intros s ->.
  destruct (decide (Exists (fun t => working t <> 0%nat) (threads s))) as [Hex|Hno].
  - apply Exists_exists in Hex as (t & [i Hi]%list_elem_of_lookup & Ht).
    assert (Hloop : exists s1 b, rtc (cas_step h) s s1 /\ cell s1 = cell s /\ threads s1 = <[i := Looping b (cell s)]> (threads s)).
    { destruct t as [b|b old|b r]; [| |done].
      - eexists _, b. split; [by eapply rtc_once, step_load|done].
      - eexists _, b. split; [by eapply rtc_once, step_cas_fail|done]. }
    destruct Hloop as (s1 & b & Hs1 & Hc1 & Ht1).
    assert (Hlen : (i < length (threads s))%nat) by (by eapply lookup_lt_Some).
    set (s2 := mkShared (adjust h b (cell s)) (<[i := Returned b (adjust_result (adjust h b (cell s)))]> (threads s))).
    assert (Hs2 : cas_step h s1 s2).
    { replace s2 with (mkShared (adjust h b (cell s)) (<[i := Returned b (adjust_result (adjust h b (cell s)))]> (threads s1))).
      - eapply step_cas_ok; [|by symmetry]. by rewrite Ht1, list_lookup_insert_eq.
      - unfold s2. by rewrite Ht1, list_insert_insert_eq. }
    destruct (IH (sum_list_with working (threads s2))) with (s := s2) as (s3 & Hs3 & Hall); [|done|].
    + unfold s2. simpl. clear - Hi Ht. revert i Hi. induction (threads s) as [|u l IHl]; intros [|i] Hi; simplify_eq/=; [|].
      * destruct t; simpl in *; lia.
      * specialize (IHl i Hi). lia.
    + exists s3. split; [|done]. etransitivity; [exact Hs1|]. by eapply rtc_l.
  - exists s. split; [done|]. intros i t Ht. destruct t as [b|b old|b r]; [| |eauto]; exfalso; apply Hno, Exists_exists;
      (eexists; split; [eapply list_elem_of_lookup_2, Ht|]); simpl; lia.
Qed.

Lemma new_rel maxima addr raw hs next : create_handles maxima 0 = (hs, next) -> 16 * Z.of_nat (length maxima) < 2 ^ 30 ->
  Z.of_nat (length raw) = next -> addr mod 8 = 0 ->
  exists p, PendingCounts_new next addr raw = Done p /\ pending_rel hs p (replicate (length hs) None).
Proof.
  intros Hcr Hmax Hraw Haddr. destruct (create_handles_spec maxima 0 ltac:(lia) ltac:(lia)) as (hs' & next' & E & _ & _ & Hpl & Hdis & _).
  rewrite Hcr in E. simplify_eq. unfold PendingCounts_new, sizeof_LargeCounts. rewrite Haddr, andb_false_r. eexists. split; [done|].
  split; [|done|by rewrite length_replicate|].
  - eapply Forall_impl; [exact Hpl|]. intros h (? & ? & _). unfold in_range. simpl. apply andb_true_intro. split; apply Z.leb_le; lia.
  - intros i h a _ Ha. by apply lookup_replicate in Ha as [? _].
Qed.

Lemma take_drop_spans (l bs : list Z) (off w : nat) : (off + w <= length l)%nat -> length bs = w ->
  take off (take off l ++ bs ++ drop (off + w) l) = take off l /\
  drop (off + w) (take off l ++ bs ++ drop (off + w) l) = drop (off + w) l.
Proof.
  intros Hl Hb. split; [by rewrite take_app_length' by (rewrite length_take; lia)|].
  rewrite (assoc_L (++)). by rewrite drop_app_length' by (rewrite length_app, length_take; lia).
Qed.

(** A store replaces what was stored before. *)
Lemma store_store h c1 c2 p p1 : in_range h p = true -> store h c1 p = Done (tt, p1) -> store h c2 p1 = store h c2 p.
Proof.
  intros Hr H1. unfold store in *. rewrite Hr in *. injection H1 as <-. set (bs := if is_large_ h then encode_large c1 else [encode_packed c1]).
  assert (Hb : length bs = Z.to_nat (width h)).
  { unfold bs, width, sizeof_LargeCounts. destruct (is_large_ h); [apply encode_large_length|done]. }
  pose proof (width_pos h). pose proof Hr as Hr'. unfold in_range in Hr'. apply andb_prop in Hr' as [H0%Z.leb_le Hw%Z.leb_le].
  destruct (take_drop_spans (bytes_ p) bs (Z.to_nat (byte_offset_ h)) (Z.to_nat (width h)) ltac:(lia) Hb) as [Ht Hd].
  unfold in_range at 1. simpl. rewrite !length_app, length_take, length_drop, Hb.
  rewrite (proj2 (Z.leb_le 0 _)), (proj2 (Z.leb_le (_ + _) _)) by lia. simpl. by rewrite Ht, Hd.
Qed.

(** The counts of a node that waits for inputs. *)
Lemma counting_down h p n d : in_range h p = true -> stands h (counts_at h (bytes_ p)) (NotReady n d) ->
  0 < n <= limit (is_large_ h) /\ 0 <= d <= limit (is_large_ h) /\ notready (counts_at h (bytes_ p)) = true /\
  load h p = Done (counts_at h (bytes_ p), p) /\ counts_at h (bytes_ p) = mkCounts n d false (padding (counts_at h (bytes_ p))).
Proof.
  intros Hrange [Hn Hp Hd Hx]. pose proof (node_of_inv (counts_at h (bytes_ p))) as Hinv. rewrite Hn in Hinv.
  destruct Hinv as (Hs & Hpn & Hdd & Hne). rewrite notready_node, Hn. rewrite Hpn in Hp. rewrite Hdd in Hd.
  split_and!; try lia; try done; [by apply load_spec|]. destruct (counts_at h (bytes_ p)) as [? ? ? ?]. simpl in *. by subst.
Qed.

(** The first call, and a store after it. *)
Lemma increment_then h increment_dead p n d :
  in_range h p = true -> stands h (counts_at h (bytes_ p)) (NotReady n d) -> (increment_dead = true -> d < limit (is_large_ h)) ->
  forall cf pf, store h cf p = Done (tt, pf) ->
  exists pi, (if increment_dead then increment_dead_count h else ret tt) p = Done (tt, pi) /\
    load h pi = Done (mkCounts n (if increment_dead then d + 1 else d) false (padding (counts_at h (bytes_ p))), pi) /\
    store h cf pi = Done (tt, pf).
Proof.
  intros Hrange Hnode Hdead cf pf Hst. destruct (counting_down h p n d Hrange Hnode) as (Hp & Hd & Hnr & Hload & Hc).
  set (c := counts_at h (bytes_ p)) in *. destruct increment_dead; [|exists p; split_and!; [done|by rewrite Hload, Hc|done]].
  specialize (Hdead eq_refl). set (c1 := mkCounts n (d + 1) false (padding c)).
  assert (Hx : is_large_ h = true -> padding c = false) by apply counts_at_padding.
  assert (Hfit1 : fits h c1) by (apply (stands_fits h c1 (waiting n (d + 1))), stands_waiting; lia || done).
  destruct (store_counts h c1 p Hrange Hfit1) as (pi & Hsti & Hcati & _ & Hri & _). exists pi.
  split_and!; [|by rewrite load_spec, Hcati by (by rewrite Hri)|by rewrite (store_store _ _ _ _ _ Hrange Hsti)].
  unfold increment_dead_count. rewrite (bind_Done _ _ _ _ _ Hload), Hnr, Hc. simpl. rewrite trunc_dead_small by lia. exact Hsti.
Qed.

Lemma dead_calls_take flags order k : dead_calls flags (take k order) <= dead_calls flags order.
Proof.
  unfold dead_calls. apply Nat2Z.inj_le. rewrite <- (take_drop k order) at 2. rewrite filter_app, length_app. lia.
Qed.

(** ** Properties *)

(** C19. The bytes of an iteration behave as one automaton per node (waiting,
    ready, started, completed) with its counts: after the layout has been built
    and the object created over whatever bytes were there, every sequence of
    operations on any handles that respects what they require returns the
    answers of the automata. *)
Theorem pending_counts_refine (maxima : list (Z * Z)) (ops : list (nat * op)) (addr : Z) (raw : list Z)
    (hs : list Handle) (next : Z) (answers : list answer)
    (Hlayout : create_handles maxima 0 = (hs, next)) (Hsize : 16 * Z.of_nat (length maxima) < 2 ^ 30)
    (Hraw : Z.of_nat (length raw) = next) (Halign : addr mod 8 = 0)
    (Hspec : abs_run (map is_large_ hs) (replicate (length hs) None) ops = Some answers) :
  exists p p', PendingCounts_new next addr raw = Done p /\ run_ops hs ops p = Done (answers, p').
Proof.
  destruct (new_rel maxima addr raw hs next Hlayout Hsize Hraw Halign) as (p & Hp & Hrel).
  destruct (run_ops_rel hs ops p _ answers Hrel Hspec) as (p' & Hrun). by exists p, p'.
Qed.

(** A small node, then a large one: a dead input, a live merge, and both end. *)
Lemma pending_counts_refine_witness :
  exists p p', PendingCounts_new 16 64 (replicate 16 255) = Done p /\
    run_ops [mkHandle 0 false; mkHandle 8 true]
      [(0%nat, SetInitial 2); (1%nat, SetInitial 300); (0%nat, Adjust true); (1%nat, Decrement 299); (0%nat, Adjust false);
       (1%nat, MarkLive); (0%nat, MarkStarted); (0%nat, MarkCompleted); (1%nat, GetState); (0%nat, GetState)] p =
    Done ([AUnit; AUnit; AAdjust (mkAdjust true true); AInt 1; AAdjust (mkAdjust true false);
           AUnit; AUnit; AUnit; AState PENDING_READY; AState COMPLETED], p').
Proof.
  apply (pending_counts_refine [(2, 2); (300, 300)] _ 64 (replicate 16 255) [mkHandle 0 false; mkHandle 8 true] 16); reflexivity.
Defined.

(** Handles of one layout name disjoint ranges inside the bytes that the
    layout asks for, large ones at multiples of their size, as long as the
    offsets fit their bit field. *)
Theorem pending_layout_disjoint (maxima : list (Z * Z)) (Hsize : 16 * Z.of_nat (length maxima) < 2 ^ 30) :
  exists hs next, create_handles maxima 0 = (hs, next) /\ Forall (placed 0 next) hs /\
    (forall i j h k, hs !! i = Some h -> hs !! j = Some k -> i <> j -> disjoint_handles h k) /\
    Forall2 (fun m h => is_large_ h = (7 <? m.1) || (7 <? m.2)) maxima hs.
Proof.
  destruct (create_handles_spec maxima 0 ltac:(lia) ltac:(lia)) as (hs & next & ? & _ & _ & ? & ? & ?). exists hs, next. by split_and!.
Qed.

Lemma pending_layout_disjoint_witness :
  exists hs next, create_handles [(3, 3); (8, 0); (1, 1)] 0 = (hs, next) /\ Forall (placed 0 next) hs.
Proof.
  destruct (pending_layout_disjoint [(3, 3); (8, 0); (1, 1)]) as (hs & next & H1 & H2 & _); [reflexivity|]. exists hs, next. split; [exact H1|exact H2].
Defined.

(** The streamlined routine leaves the same bytes and answers the same as
    the calls its comment lists, for a node that waits for an input and whose
    dead count does not leave its field. *)
Theorem pending_adjust_equivalent (h : Handle) (increment_dead : bool) (p : PendingCounts) (n d : Z)
    (Hrange : in_range h p = true) (Hnode : stands h (counts_at h (bytes_ p)) (NotReady n d))
    (Hdead : increment_dead = true -> d < limit (is_large_ h)) :
  adjust_for_activation h increment_dead p =
  ((if increment_dead then increment_dead_count h else ret tt);;;
   decrement_pending h 1;;;
   d <~ dead_count h;;
   q <~ pending h;;
   ret (mkAdjust (0 <? d) (0 <? q))) p.
Proof.
  pose proof (limit_range (is_large_ h)) as HL.
  destruct (counting_down h p n d Hrange Hnode) as (Hp & Hd & Hnr & Hload & Hc).
  set (c := counts_at h (bytes_ p)) in *.
  set (d' := if increment_dead then d + 1 else d).
  assert (Hd' : 0 <= d' <= limit (is_large_ h)) by (unfold d'; destruct increment_dead; [specialize (Hdead eq_refl)|]; lia).
  set (cf := mkCounts (n - 1) d' false (padding c)).
  assert (Hcf : adjust h increment_dead c = cf).
  { unfold adjust, cf. rewrite Hnr, andb_true_r, Hc. simpl. rewrite trunc_pending_small by lia. f_equal.
    unfold d'. destruct increment_dead; [apply trunc_dead_small; specialize (Hdead eq_refl); lia|done]. }
  assert (Hx : is_large_ h = true -> padding c = false) by apply counts_at_padding.
  assert (Hfit : fits h cf) by (apply (stands_fits h cf (waiting (n - 1) d')), stands_waiting; lia || done).
  destruct (store_counts h cf p Hrange Hfit) as (pf & Hstf & Hcat & _ & Hrf & _).
  unfold adjust_for_activation. rewrite (bind_Done _ _ _ _ _ Hload). rewrite Hcf, (bind_Done _ _ _ _ _ Hstf).
  destruct (increment_then h increment_dead p n d Hrange Hnode Hdead cf pf Hstf) as (pi & Hinc & Hldi & Hsti).
  rewrite (bind_Done _ _ _ _ _ Hinc). fold d' c in Hldi.
  assert (Hd1 : decrement_pending h 1 pi = Done (int32 (n - 1), pf)).
  { unfold decrement_pending. rewrite (bind_Done _ _ _ _ _ Hldi). simpl. rewrite trunc_pending_small by lia. fold cf.
    by rewrite (bind_Done _ _ _ _ _ Hsti). }
  rewrite (bind_Done _ _ _ _ _ Hd1). assert (Hldf : load h pf = Done (cf, pf)) by (rewrite load_spec, Hcat by (by rewrite Hrf); done).
  unfold dead_count, pending. rewrite (bind_Done _ _ _ _ _ (bind_Done _ _ _ _ _ Hldf)). unfold bind, ret. rewrite Hldf. simpl.
  rewrite (int32_small d' (is_large_ h)) by lia. do 3 f_equal. unfold adjust_result, notready, NodeStateForStruct. simpl. f_equal.
  - destruct (Z.eqb_spec d' 0), (Z.ltb_spec 0 d'); done || lia.
  - destruct (Z.eqb_spec (n - 1) 0); [done|]. simpl. rewrite (int32_small (n - 1) (is_large_ h)) by lia. symmetry. apply Z.ltb_lt. lia.
Qed.

Lemma pending_adjust_equivalent_witness :
  adjust_for_activation (mkHandle 1 false) true (mkPending 2 [0; 2]) =
  Done (mkAdjust true true, mkPending 2 [0; 9]).
Proof.
  rewrite (pending_adjust_equivalent (mkHandle 1 false) true (mkPending 2 [0; 2]) 2 0).
  - reflexivity.
  - reflexivity.
  - split; [reflexivity|compute; split; discriminate|compute; split; discriminate|discriminate].
  - reflexivity.
Defined.

(** C23. Threads that adjust one counter with [adjust_for_activation_atomic], in
    any interleaving and with any number of failed exchanges, return what the
    calls return one after the other in some order; when as many threads call it
    as the node waits for inputs, exactly one of them sees that nothing is
    pending, and that one sees whether any input of the node was dead. *)
Theorem pending_atomic_last (h : Handle) (c : Counts) (flags : list bool) (s : shared)
    (Hreach : rtc (cas_step h) (mkShared c (map Entered flags)) s) (Hall : all_returned s)
    (Hstart : has_started c = false) (Hpending : pending_ c = Z.of_nat (length flags))
    (Hpos : flags <> []) (Hlimit : pending_ c <= limit (is_large_ h)) (Hd0 : 0 <= dead_ c)
    (Hdead : dead_ c + Z.of_nat (length (filter (fun b => b = true) flags)) <= limit (is_large_ h)) :
  let dead := dead_ c + Z.of_nat (length (filter (fun b => b = true) flags)) in
  cell s = mkCounts 0 dead false (padding c) /\
  exists last b, threads s !! last = Some (Returned b (mkAdjust (negb (dead =? 0)) false)) /\
    forall i b r, threads s !! i = Some (Returned b r) -> i <> last -> any_pending r = true.
Proof.
  destruct (linear_reach h c flags s Hreach) as [order Hlin]. pose proof (linear_complete _ _ _ _ _ Hlin Hall) as Hperm.
  assert (Hlo : length order = length flags) by (by rewrite Hperm, length_seq).
  pose proof (dead_calls_perm flags _ _ Hperm) as Hdc. rewrite dead_calls_all in Hdc. rewrite <- Hdc in *.
  destruct Hlin as [Hf Hn Hc Hr Ho].
  assert (Hval : seq_value h flags c order = mkCounts 0 (dead_ c + dead_calls flags order) false (padding c)).
  { rewrite seq_value_spec by (done || lia). f_equal. lia. }
  split; [by rewrite Hc|]. destruct flags as [|f flags']; [done|]. simpl length in Hlo, Hpending.
  destruct (lookup_lt_is_Some_2 order (length flags')) as [last Hlast]; [lia|].
  exists last, (nth last (f :: flags') false). split.
  { rewrite (Hr _ _ Hlast), take_ge by lia. rewrite Hval. done. }
  intros i b r Hi Hne. destruct (proj1 (list_elem_of_lookup _ _) (Ho i b r Hi)) as [k Hk].
  pose proof (Hr k i Hk) as Hi'. rewrite Hi in Hi'. simplify_eq.
  assert (Hkl : (k < length flags')%nat).
  { apply lookup_lt_Some in Hk as Hk'. destruct (decide (k = length flags')) as [->|]; [|lia]. by rewrite Hlast in Hk; simplify_eq. }
  rewrite seq_value_spec; [|done| | done|].
  - simpl. rewrite length_take. apply negb_true_iff, Z.eqb_neq. lia.
  - rewrite length_take. lia.
  - pose proof (dead_calls_take (f :: flags') order (S k)). lia.
Qed.

(** Two threads, the second with a dead input, which runs first. *)
Lemma pending_atomic_last_witness :
  exists s, rtc (cas_step (mkHandle 0 false)) (mkShared (mkCounts 2 0 false false) [Entered false; Entered true]) s /\
    cell s = mkCounts 0 1 false false.
Proof.
  set (h := mkHandle 0 false). set (c0 := mkCounts 2 0 false false). set (c1 := adjust h true c0). set (c2 := adjust h false c1).
  set (s := mkShared c2 [Returned false (adjust_result c2); Returned true (adjust_result c1)]). exists s.
  assert (Hr : rtc (cas_step h) (mkShared c0 (map Entered [false; true])) s).
  { eapply rtc_l; [apply (step_load h _ 1 true); reflexivity|]. eapply rtc_l; [apply (step_cas_ok h _ 1 true c0); reflexivity|].
    eapply rtc_l; [apply (step_load h _ 0 false); reflexivity|]. eapply rtc_l; [apply (step_cas_ok h _ 0 false c1); reflexivity|].
    apply rtc_refl. }
  split; [exact Hr|].
  apply (pending_atomic_last h c0 [false; true] s Hr); try reflexivity; try discriminate.
  intros [|[|i]] t Ht; [injection Ht as <-; eauto|injection Ht as <-; eauto|discriminate].
Defined.

(** Whatever the threads have done, they can all return: an exchange that is
    tried again without interference succeeds. *)
Theorem pending_atomic_returns (h : Handle) (s : shared) : exists s', rtc (cas_step h) s s' /\ all_returned s'.
Proof. apply finish_threads. Qed.
