(* ===== verification/GraphView.v ===== *)
(** * Values on edges and items of nodes (src/tensorflow/core/common_runtime/entry.h, graph_view.h,
    src/tensorflow/core/framework/types.h, allocator.h)

    A [NodeItem] is a node with its kernel and its output edges in arrays; the
    byte layout of the array of items is not modelled, an item is found by the id
    of its node. *)
From S2P Require Import Prelude.
From stdpp Require Import list gmap strings options.
#[local] Open Scope Z_scope.

(** ** Tensors and values on edges *)
Definition DataType : Type := Z.

Definition kDataTypeRefOffset : Z := 100.

Definition IsRefType (dtype : DataType) : bool := kDataTypeRefOffset <? dtype.

Definition MakeRefType (dtype : DataType) : DataType := dtype + kDataTypeRefOffset.

(** The buffer of a tensor, null when it is not initialized. *)
Record Tensor := mkTensor {
  tensor_dtype : DataType;
  tensor_buf : option (list Z)
}.

#[export] Instance Tensor_eq_dec : EqDecision Tensor.
Proof. solve_decision. Defined.

Definition IsInitialized (t : Tensor) : bool := bool_decide (is_Some (tensor_buf t)).

(** [new Tensor]: no elements of type [DT_FLOAT]. *)
Definition kEmptyTensor : Tensor := mkTensor 1 (Some []).

(** A tensor after its buffer was moved out. *)
Definition moved_tensor (t : Tensor) : Tensor := mkTensor (tensor_dtype t) None.

(** ** Attributes of allocators *)
Record AllocatorAttributes := mkAttr {
  attr_value : Z;
  scope_id : Z
}.

#[export] Instance AllocatorAttributes_eq_dec : EqDecision AllocatorAttributes.
Proof. solve_decision. Defined.

Definition no_attr : AllocatorAttributes := mkAttr 0 0.

Definition set_on_host (v : bool) (a : AllocatorAttributes) : AllocatorAttributes := mkAttr (Z.lor (attr_value a) (Z.b2z v)) (scope_id a).

Definition set_nic_compatible (v : bool) (a : AllocatorAttributes) : AllocatorAttributes :=
  mkAttr (Z.lor (attr_value a) (Z.shiftl (Z.b2z v) 1)) (scope_id a).

Definition set_gpu_compatible (v : bool) (a : AllocatorAttributes) : AllocatorAttributes :=
  mkAttr (Z.lor (attr_value a) (Z.shiftl (Z.b2z v) 2)) (scope_id a).

Definition MergeAttr (a other : AllocatorAttributes) : outcome AllocatorAttributes :=
  let v := Z.lor (attr_value a) (attr_value other) in
  if scope_id a =? scope_id other then Done (mkAttr v (scope_id a))
  else if (scope_id a =? 0) || (scope_id other =? 0) then Done (mkAttr v (if scope_id a =? 0 then scope_id other else scope_id a))
  else Crash.

(** ** Entries *)

(** A reference is the address of a tensor that others write. *)
Inductive EntryState :=
  | NO_VALUE
  | HAS_VALUE (val : Tensor)
  | HAS_CONST_TENSOR (const_tensor : Tensor)
  | HAS_REF_TENSOR (ref_tensor : nat).

#[export] Instance EntryState_eq_dec : EqDecision EntryState.
Proof. solve_decision. Defined.

Record Entry := mkEntry {
  state : EntryState;
  alloc_attr : AllocatorAttributes
}.

#[export] Instance Entry_eq_dec : EqDecision Entry.
Proof. solve_decision. Defined.

Definition Entry_new : Entry := mkEntry NO_VALUE no_attr.

Definition ClearVal (e : Entry) : Entry := mkEntry NO_VALUE (alloc_attr e).

(** What a move assignment leaves in its source. *)
Definition moved_entry (e : Entry) : Entry :=
  match state e with
  | HAS_VALUE t => mkEntry (HAS_VALUE (moved_tensor t)) (alloc_attr e)
  | _ => e
  end.

(** ** Items *)
Record EdgeInfo := mkEdgeInfo {
  dst_id : nat;
  output_slot : nat;
  is_last : bool;
  input_slot : nat
}.

(** A kernel as the executor knows it; of its memory types, which outputs are
    in host memory. *)
Record OpKernel := mkOpKernel {
  is_async : bool;
  kernel_const_tensor : option Tensor;
  type_string_view : string;
  output_on_host : list bool
}.

Record NodeItem := mkNodeItem {
  node_id : Z;
  kernel_is_async : bool;
  is_merge : bool;
  is_enter : bool;
  is_constant_enter : bool;
  is_exit : bool;
  is_control_trigger : bool;
  is_source : bool;
  is_enter_exit_or_next_iter : bool;
  is_transfer_node : bool;
  is_initialization_op : bool;
  is_recv_or_switch : bool;
  is_next_iteration : bool;
  is_noop : bool;
  is_any_consumer_merge_or_control_trigger : bool;
  is_any_input_ref_typed : bool;
  is_distributed_communication : bool;
  kernel : option OpKernel;
  const_tensor_ : option Tensor;
  item_inputs : nat;
  item_outputs : nat;
  input_start : nat;
  outputs_required : option (list bool);
  output_edges : list EdgeInfo;
  output_control_edges : list nat;
  output_attrs : list AllocatorAttributes;
  forward_from : list Z;
  item_input_types : list DataType;
  item_output_types : list DataType
}.
