(* ===== verification/Executor.v ===== *)
(** * Executing a graph without control flow (src/tensorflow/core/common_runtime/executor.cc,
    simple_propagator_state.h, simple_propagator_state.cc)

    One step of a session is a pool of threads over an [ExecutorState].  A thread
    is a closure of the runner, a [Process] loop at one of its atomic actions, an
    asynchronous kernel, or the end of the step; what a kernel returns and which
    kernels count as expensive is chosen when an action is taken.  Statistics,
    tracing and the allocation log do not change the state and are left out. *)
From S2P Require Import Prelude PendingCounts GraphView.
From stdpp Require Import list gmap options.
#[local] Open Scope Z_scope.

(** ** [TaggedNodeReadyQueue]: a vector and the index of its front *)
Notation TaggedNode := nat (only parsing).

Record ReadyQueue := mkQueue {
  ready_ : list TaggedNode;
  front_index_ : nat
}.

Definition kSpillThreshold : nat := 16384.

Definition queue_new : ReadyQueue := mkQueue [] 0.

Definition push_back (n : TaggedNode) (q : ReadyQueue) : ReadyQueue := mkQueue (ready_ q ++ [n]) (front_index_ q).

Definition front (q : ReadyQueue) : option TaggedNode := ready_ q !! front_index_ q.

Definition pop_front (q : ReadyQueue) : ReadyQueue :=
  let i := S (front_index_ q) in
  if (i =? length (ready_ q))%nat || (kSpillThreshold <? i)%nat then
    if (i =? length (ready_ q))%nat then mkQueue [] 0 else mkQueue (drop i (ready_ q)) 0
  else mkQueue (ready_ q) i.

Definition queue_empty (q : ReadyQueue) : bool := match ready_ q with [] => true | _ => false end.

(** ** The graph and the arguments of a step

    [gview] has the items with a kernel: the item of the sink has none, and
    processing it would follow a null pointer. *)
Record ImmutableExecutorState := mkImmutable {
  gview : list (option NodeItem);
  root_nodes : list TaggedNode;
  root_total_inputs : nat;
  atomic_pending_counts_ : list Z
}.

Record Args := mkArgs {
  run_all_kernels_inline_ : bool;
  sync_on_finish_ : bool;
  allows_sync_on_completion : bool;
  has_rendezvous : bool;
  has_cancellation_manager : bool;
  has_collective_executor : bool
}.

(** ** [KernelStats] *)
Definition kInitialCostEstimateCycles : Z := 100 * 1000 * 1000.

Definition kOpIsExpensiveThresholdCycles : Z := 8000.

Definition kCostDecay : Z := 10.

(** The estimate a load returns, which other threads may be updating. *)
Definition IsExpensive (marked : bool) (estimate : Z) : bool := marked && (kOpIsExpensiveThresholdCycles <? estimate).

Definition UpdateCostEstimate (prev_estimate elapsed_cycles : Z) : Z :=
  u64 (u64 ((kCostDecay - 1) * prev_estimate) + elapsed_cycles) / kCostDecay.

(** ** State *)
Record ExecutorState := mkExec {
  input_tensors_ : list Entry;
  pending_ : list Z;
  num_outstanding_ops_ : Z;
  num_deferred_ops_ : Z;
  finish_when_deferred_ops_done_ : bool;
  status_ : Status;
  done_cb_ : bool
}.

Definition with_inputs (l : list Entry) (e : ExecutorState) : ExecutorState :=
  mkExec l (pending_ e) (num_outstanding_ops_ e) (num_deferred_ops_ e) (finish_when_deferred_ops_done_ e) (status_ e) (done_cb_ e).

Definition with_pending (l : list Z) (e : ExecutorState) : ExecutorState :=
  mkExec (input_tensors_ e) l (num_outstanding_ops_ e) (num_deferred_ops_ e) (finish_when_deferred_ops_done_ e) (status_ e) (done_cb_ e).

Definition with_outstanding (n : Z) (e : ExecutorState) : ExecutorState :=
  mkExec (input_tensors_ e) (pending_ e) n (num_deferred_ops_ e) (finish_when_deferred_ops_done_ e) (status_ e) (done_cb_ e).

Definition with_deferred (n : Z) (b : bool) (e : ExecutorState) : ExecutorState :=
  mkExec (input_tensors_ e) (pending_ e) (num_outstanding_ops_ e) n b (status_ e) (done_cb_ e).

Definition with_status (s : Status) (e : ExecutorState) : ExecutorState :=
  mkExec (input_tensors_ e) (pending_ e) (num_outstanding_ops_ e) (num_deferred_ops_ e) (finish_when_deferred_ops_done_ e) s (done_cb_ e).

Definition with_done_cb (b : bool) (e : ExecutorState) : ExecutorState :=
  mkExec (input_tensors_ e) (pending_ e) (num_outstanding_ops_ e) (num_deferred_ops_ e) (finish_when_deferred_ops_done_ e) (status_ e) b.

(** An argument of a kernel: [inputs[i]]. *)
Inductive KernelInput :=
  | InNull
  | InTensor (t : Tensor)
  | InRef (r : nat).

(** An output of a kernel. *)
Inductive TensorValue :=
  | ByValue (t : Tensor)
  | ByRef (r : nat).

(** What a kernel leaves in its context, and the tensors behind references. *)
Record KernelResult := mkResult {
  ctx_status : Status;
  ctx_outputs : list (option TensorValue);
  ctx_output_attrs : list AllocatorAttributes;
  ctx_refs : nat -> Tensor
}.

(** What an observer of a step sees; [EvDevice] is the answer of the device to
    [RefreshStatus] or [Sync]. *)
Inductive event :=
  | EvStart (n : TaggedNode) (inputs : list KernelInput)
  | EvOutputs (n : TaggedNode) (outputs : list Entry)
  | EvFailed (n : TaggedNode) (s : Status)
  | EvRendezvousAbort (s : Status)
  | EvStartCancel
  | EvCollectiveAbort (s : Status)
  | EvDevice (s : Status)
  | EvDone (s : Status).

Record Locals := mkLocals {
  inline_ready : ReadyQueue;
  loop_s : Status;
  loop_outputs : list Entry;
  completed : bool
}.

(** Where a node is finished: in a [Process] loop, with the nodes its closure
    has left, or in the callback of an asynchronous kernel. *)
Inductive cont :=
  | InLoop (rest : list TaggedNode) (l : Locals)
  | InCallback.

Inductive thread :=
  | Closure (nodes : list TaggedNode)
  | Looping (rest : list TaggedNode) (l : Locals)
  | Computing (rest : list TaggedNode) (l : Locals) (n : TaggedNode)
  | AsyncComputing (n : TaggedNode)
  | Propagating (k : cont) (n : TaggedNode) (outputs : list Entry) (edges : list EdgeInfo) (written : bool)
      (controls : list nat) (ready : list TaggedNode)
  | Failing (k : cont) (n : TaggedNode) (s : Status)
  | Failed (k : cont) (n : TaggedNode) (s : Status)
  | FinishScheduled (rest : list TaggedNode)
  | Finishing (rest : list TaggedNode)
  | Syncing
  | Callback (s : Status).

(** [exec] is gone after [delete this]; [deferred] counts the calls of the
    decrement that kernels owe. *)
Record shared := mkShared {
  exec : option ExecutorState;
  refs : nat -> Tensor;
  deferred : nat;
  log : list event
}.

(** What is chosen when a thread takes an action. *)
Record Choice := mkChoice {
  ch_result : KernelResult;
  ch_expensive : TaggedNode -> bool;
  ch_track_allocations : bool;
  ch_cancelled : bool;
  ch_device : Status
}.

Definition set_exec (e : ExecutorState) (x : shared) : shared := mkShared (Some e) (refs x) (deferred x) (log x).

Definition delete_exec (x : shared) : shared := mkShared None (refs x) (deferred x) (log x).

Definition emit (l : list event) (x : shared) : shared := mkShared (exec x) (refs x) (deferred x) (log x ++ l).

Definition set_refs (r : nat -> Tensor) (x : shared) : shared := mkShared (exec x) r (deferred x) (log x).

(** ** Operations on entries *)
Definition lookup_entry (i : nat) (l : list Entry) : outcome Entry :=
  match l !! i with Some e => Done e | None => Crash end.

(** [ClearVal] of [n] entries from the [i]-th on. *)
Fixpoint clear_entries (i n : nat) (l : list Entry) : outcome (list Entry) :=
  match n with
  | O => Done l
  | S n => match l !! i with Some e => clear_entries (S i) n (<[i := ClearVal e]> l) | None => Crash end
  end.

(** [PrepareInputs], from the [i]-th input on: the entries and the inputs, up to
    the first error. *)
Record Prepared := mkPrepared {
  prep_status : Status;
  prep_entries : list Entry;
  prep_inputs : list KernelInput;
  prep_attrs : list AllocatorAttributes;
  prep_dead : bool
}.

Definition prepare_one (item : NodeItem) (refs : nat -> Tensor) (i : nat) (e : Entry) : Status * Entry * KernelInput * bool :=
  let type := default 0 (item_input_types item !! i) in
  let expect_ref := is_any_input_ref_typed item && IsRefType type in
  match state e with
  | NO_VALUE =>
      if is_merge item then (StatusOK, e, InNull, false)
      else (StatusOK, mkEntry (HAS_CONST_TENSOR kEmptyTensor) (alloc_attr e), InTensor kEmptyTensor, true)
  | HAS_VALUE t | HAS_CONST_TENSOR t =>
      if expect_ref then (StatusError INVALID_ARGUMENT, e, InNull, false) else (StatusOK, e, InTensor t, false)
  | HAS_REF_TENSOR r =>
      let t := refs r in
      if negb (IsInitialized t) && negb (is_initialization_op item) then (StatusError FAILED_PRECONDITION, e, InNull, false)
      else if expect_ref then (StatusOK, e, InRef r, false)
      else
        let e := mkEntry (HAS_VALUE t) (alloc_attr e) in
        if bool_decide (type = tensor_dtype t) then (StatusOK, e, InTensor t, false)
        else (StatusError INVALID_ARGUMENT, e, InTensor t, false)
  end.

Fixpoint PrepareInputs (item : NodeItem) (refs : nat -> Tensor) (i : nat) (l : list Entry) : Prepared :=
  match l with
  | [] => mkPrepared StatusOK [] [] [] false
  | e :: l =>
      let '(s, e', inp, dead) := prepare_one item refs i e in
      if ok s then
        let p := PrepareInputs item refs (S i) l in
        mkPrepared (prep_status p) (e' :: prep_entries p) (inp :: prep_inputs p) (alloc_attr e :: prep_attrs p)
          (dead || prep_dead p)
      else mkPrepared s (e' :: l) [] [alloc_attr e] dead
  end.

(** [ProcessOutputs] of a kernel that succeeded, from the [i]-th output on. *)
Definition Update (s new_status : Status) : Status := if ok s then new_status else s.

Definition output_dtype (refs : nat -> Tensor) (v : TensorValue) : DataType :=
  match v with ByValue t => tensor_dtype t | ByRef r => MakeRefType (tensor_dtype (refs r)) end.

Definition output_required (item : NodeItem) (i : nat) : bool :=
  negb (is_recv_or_switch item ||
    match outputs_required item with Some l => negb (default false (l !! i)) | None => false end).

Definition process_output (item : NodeItem) (r : KernelResult) (i : nat) (out : Entry) : Status * Entry :=
  match mjoin (ctx_outputs r !! i) with
  | None => (if output_required item i then StatusError INTERNAL else StatusOK, out)
  | Some v =>
      let a := default no_attr (ctx_output_attrs r !! i) in
      if bool_decide (output_dtype (ctx_refs r) v = default 0 (item_output_types item !! i)) then
        (StatusOK, mkEntry (match v with ByValue t => HAS_VALUE t | ByRef p => HAS_REF_TENSOR p end) a)
      else (StatusError INTERNAL, mkEntry (state out) a)
  end.

Fixpoint process_outputs (item : NodeItem) (r : KernelResult) (i : nat) (n : nat) (s : Status) (outputs : list Entry) :
  Status * list Entry :=
  match n, outputs with
  | S n, out :: outputs =>
      let '(s1, out) := process_output item r i out in
      let '(s2, rest) := process_outputs item r (S i) n (Update s s1) outputs in
      (s2, out :: rest)
  | _, _ => (s, outputs)
  end.

(** An error of a kernel that is not for communication does not read as one of
    the network. *)
Definition kernel_error (item : NodeItem) (s : Status) : Status :=
  match s with
  | StatusError UNAVAILABLE => if is_distributed_communication item then s else StatusError INTERNAL
  | _ => s
  end.

Definition ProcessOutputs (item : NodeItem) (r : KernelResult) (outputs : list Entry) : Status * list Entry :=
  if ok (ctx_status r) then process_outputs item r 0 (item_outputs item) StatusOK outputs
  else (kernel_error item (ctx_status r), outputs).

(** [if (outputs.size() < n) outputs.resize(n)]. *)
Definition grow_outputs (n : nat) (outputs : list Entry) : list Entry := outputs ++ replicate (n - length outputs) Entry_new.

(** ** Scheduling *)

(** The nodes that go to the queue of the loop, the one expensive node kept
    back, and the nodes of new closures. *)
Fixpoint schedule_inline (expensive : TaggedNode -> bool) (ready : list TaggedNode) (q : ReadyQueue) (curr : option TaggedNode)
  (tasks : list (list TaggedNode)) : ReadyQueue * option TaggedNode * list (list TaggedNode) :=
  match ready with
  | [] => (q, curr, tasks)
  | n :: ready =>
      if negb (expensive n) then schedule_inline expensive ready (push_back n q) curr tasks
      else schedule_inline expensive ready q (Some n) (tasks ++ match curr with Some m => [[m]] | None => [] end)
  end.

(** The queue and the closures handed to the runner. *)
Definition ScheduleReady (a : Args) (expensive : TaggedNode -> bool) (ready : list TaggedNode) (inline : option ReadyQueue) :
  option ReadyQueue * list (list TaggedNode) :=
  match inline with
  | None => (None, if run_all_kernels_inline_ a then [ready] else map (fun n => [n]) ready)
  | Some q =>
      if run_all_kernels_inline_ a then (Some (foldl (fun q n => push_back n q) q ready), [])
      else
        match schedule_inline expensive ready q None [] with
        | (q, None, tasks) => (Some q, tasks)
        | (q, Some n, tasks) => if queue_empty q then (Some (push_back n q), tasks) else (Some q, tasks ++ [[n]])
        end
  end.

Definition inline_of (k : cont) : option ReadyQueue :=
  match k with InLoop _ l => Some (inline_ready l) | InCallback => None end.

(** Back from [NodeDone] with its answer. *)
Definition resume (k : cont) (q : option ReadyQueue) (outputs : list Entry) (s : Status) (b : bool) : list thread :=
  match k with
  | InLoop rest l => [Looping rest (mkLocals (default (inline_ready l) q) s outputs b)]
  | InCallback => if b then [FinishScheduled []] else []
  end.

(** [fetch_sub(1) == 1]. *)
Definition fetch_sub_outstanding (e : ExecutorState) : bool * ExecutorState :=
  (num_outstanding_ops_ e =? 1, with_outstanding (int32 (num_outstanding_ops_ e - 1)) e).

(** [NodeDone] of a node that succeeded. *)
Definition NodeDone_ok (a : Args) (expensive : TaggedNode -> bool) (k : cont) (outputs : list Entry) (ready : list TaggedNode)
  (e : ExecutorState) : list thread * ExecutorState :=
  match ready with
  | [] => let '(b, e) := fetch_sub_outstanding e in (resume k (inline_of k) outputs StatusOK b, e)
  | _ =>
      let e := if (1 <? length ready)%nat then with_outstanding (int32 (num_outstanding_ops_ e + Z.of_nat (length ready - 1))) e else e in
      let '(q, tasks) := ScheduleReady a expensive ready (inline_of k) in
      (resume k q outputs StatusOK false ++ map Closure tasks, e)
  end.

(** The marker of a derived error is in its message. *)
Definition MakeDerived (s : Status) : Status := s.

(** The calls that abort the rest of the step. *)
Definition abort_events (a : Args) (s : Status) : list event :=
  (if has_rendezvous a then [EvRendezvousAbort s] else []) ++
  (if has_cancellation_manager a then [EvStartCancel] else if has_collective_executor a then [EvCollectiveAbort s] else []).

(** The section of [NodeDone] that records an error, and the abort by the first. *)
Definition NodeDone_error (a : Args) (cancelled : bool) (s : Status) (e : ExecutorState) : list event * ExecutorState :=
  if ok (status_ e) then
    (abort_events a s,
     with_status (if has_cancellation_manager a && cancelled &&
                     (bool_decide (s = StatusError CANCELLED) || bool_decide (s = StatusError ABORTED))
                  then MakeDerived s else s) e)
  else ([], e).

(** ** The actions of threads *)
Section Actions.
Context (V : ImmutableExecutorState) (a : Args).

Definition with_item {A} (n : TaggedNode) (f : NodeItem -> outcome A) : outcome A :=
  match gview V !! n with Some (Some item) => f item | _ => Crash end.

(** Every use of [this] after [delete this] is undefined. *)
Definition with_exec {A} (x : shared) (f : ExecutorState -> outcome A) : outcome A :=
  match exec x with Some e => f e | None => Crash end.

(** [outputs[i].ClearVal()] for the outputs of a node in the vector of the
    loop; the vector of a callback goes away. *)
Definition clear_outputs (k : cont) (item : NodeItem) (outputs : list Entry) : outcome (list Entry) :=
  match k with InLoop _ _ => clear_entries 0 (item_outputs item) outputs | InCallback => Done [] end.

Definition keep_outputs (k : cont) (outputs : list Entry) : cont :=
  match k with InLoop rest l => InLoop rest (mkLocals (inline_ready l) (loop_s l) outputs (completed l)) | InCallback => k end.

Definition outputs_of (k : cont) : list Entry := match k with InLoop _ l => loop_outputs l | InCallback => [] end.

(** After a node was processed: its inputs are cleared, and its outputs are
    propagated or its error is reported. *)
Definition finish_node (k : cont) (n : TaggedNode) (item : NodeItem) (s : Status) (outputs : list Entry) (x : shared) :
  outcome (list thread * shared) :=
  with_exec x (fun e =>
    match clear_entries (input_start item) (item_inputs item) (input_tensors_ e) with
    | Done inputs =>
        let x := set_exec (with_inputs inputs e) x in
        if ok s then Done ([Propagating k n outputs (output_edges item) false (output_control_edges item) []], emit [EvOutputs n outputs] x)
        else
          match clear_outputs k item outputs with
          | Done outputs => Done ([Failing (keep_outputs k outputs) n s], x)
          | _ => Crash
          end
    | _ => Crash
    end).

Definition set_loop_s (s : Status) (l : Locals) : Locals := mkLocals (inline_ready l) s (loop_outputs l) (completed l).

(** The inputs of a kernel are prepared, and it is started. *)
Definition launch_kernel (rest : list TaggedNode) (l : Locals) (n : TaggedNode) (item : NodeItem) (x : shared) :
  outcome (list thread * shared) :=
  with_exec x (fun e =>
    let start := input_start item in
    let stop := (start + item_inputs item)%nat in
    if (length (input_tensors_ e) <? stop)%nat then Crash
    else
      let p := PrepareInputs item (refs x) 0 (take (item_inputs item) (drop start (input_tensors_ e))) in
      let inputs := take start (input_tensors_ e) ++ prep_entries p ++ drop stop (input_tensors_ e) in
      if ok (prep_status p) then
        let l := set_loop_s StatusOK l in
        let x := emit [EvStart n (prep_inputs p)] (set_exec (with_inputs inputs e) x) in
        if kernel_is_async item then Done ([Looping rest l; AsyncComputing n], x)
        else Done ([Computing rest l n], x)
      else
        match clear_entries start (item_inputs item) inputs with
        | Done inputs => Done ([Failing (InLoop rest (set_loop_s (prep_status p) l)) n (prep_status p)], set_exec (with_inputs inputs e) x)
        | _ => Crash
        end).

(** A node at the front of the queue. *)
Definition start_node (ch : Choice) (rest : list TaggedNode) (l : Locals) (n : TaggedNode) (item : NodeItem) (x : shared) :
  outcome (list thread * shared) :=
  if is_noop item then finish_node (InLoop rest l) n item (loop_s l) (loop_outputs l) x
  else
    match const_tensor_ item, ch_track_allocations ch with
    | Some t, false =>
        match loop_outputs l with
        | [] => Crash
        | _ :: outputs =>
            let out := mkEntry (HAS_CONST_TENSOR t) (default no_attr (output_attrs item !! 0%nat)) in
            finish_node (InLoop rest l) n item (loop_s l) (out :: outputs) x
        end
    | _, _ => launch_kernel rest l n item x
    end.

(** [fetch_sub] of the count of a node, which is ready when it was 1. *)
Definition decrement (d : nat) (ready : list TaggedNode) (e : ExecutorState) : outcome (list TaggedNode * ExecutorState) :=
  match pending_ e !! d with
  | Some c => Done (if c =? 1 then ready ++ [d] else ready, with_pending (<[d := int32 (c - 1)]> (pending_ e)) e)
  | None => Crash
  end.

(** The actions of [PropagateOutputs]: an entry is written, then the count of
    its node goes down. *)
Definition write_edge (ed : EdgeInfo) (outputs : list Entry) (e : ExecutorState) : outcome (list Entry * ExecutorState) :=
  match outputs !! output_slot ed, input_tensors_ e !! input_slot ed with
  | Some v, Some _ =>
      Done (if is_last ed then <[output_slot ed := moved_entry v]> outputs else outputs,
            with_inputs (<[input_slot ed := v]> (input_tensors_ e)) e)
  | _, _ => Crash
  end.

Definition propagate (ch : Choice) (k : cont) (n : TaggedNode) (outputs : list Entry) (edges : list EdgeInfo) (written : bool)
  (controls : list nat) (ready : list TaggedNode) (x : shared) : outcome (list thread * shared) :=
  with_exec x (fun e =>
    match edges, controls with
    | ed :: edges', _ =>
        if written then
          match decrement (dst_id ed) ready e with
          | Done (ready, e) => Done ([Propagating k n outputs edges' false controls ready], set_exec e x)
          | _ => Crash
          end
        else
          match write_edge ed outputs e with
          | Done (outputs, e) => Done ([Propagating k n outputs edges true controls ready], set_exec e x)
          | _ => Crash
          end
    | [], d :: controls =>
        match decrement d ready e with
        | Done (ready, e) => Done ([Propagating k n outputs [] false controls ready], set_exec e x)
        | _ => Crash
        end
    | [], [] =>
        with_item n (fun item =>
          match clear_outputs k item outputs with
          | Done outputs => let '(ts, e) := NodeDone_ok a (ch_expensive ch) k outputs ready e in Done (ts, set_exec e x)
          | _ => Crash
          end)
    end).

(** A kernel returns. *)
Definition kernel_done (ch : Choice) (k : cont) (n : TaggedNode) (outputs : list Entry) (x : shared) : outcome (list thread * shared) :=
  with_item n (fun item =>
    let r := ch_result ch in
    let '(s, outputs) := ProcessOutputs item r (grow_outputs (item_outputs item) outputs) in
    finish_node k n item s outputs (set_refs (ctx_refs r) x)).

(** [ScheduleFinish], up to the call of [Finish]. *)
Definition ScheduleFinish (rest : list TaggedNode) (x : shared) : outcome (list thread * shared) :=
  with_exec x (fun e =>
    if 0 <? num_deferred_ops_ e then Done ([Closure rest], set_exec (with_deferred (num_deferred_ops_ e) true e) x)
    else Done ([Finishing rest], x)).

Definition Finish (ch : Choice) (rest : list TaggedNode) (x : shared) : outcome (list thread * shared) :=
  with_exec x (fun e =>
    if negb (done_cb_ e) then Crash
    else
      let status := status_ e in
      if negb (allows_sync_on_completion a) then
        let status := Update status (ch_device ch) in
        Done ([Closure rest; Callback status], delete_exec (emit (EvDevice (ch_device ch) :: (if ok status then [] else abort_events a status)) x))
      else if sync_on_finish_ a && ok status then Done ([Closure rest; Syncing], set_exec (with_done_cb false e) x)
      else Done ([Closure rest; Callback status], delete_exec x)).

Definition thread_step (ch : Choice) (t : thread) (x : shared) : outcome (list thread * shared) :=
  match t with
  | Closure [] => Done ([], x)
  | Closure (n :: rest) => Done ([Looping rest (mkLocals (push_back n queue_new) StatusOK [Entry_new] false)], x)
  | Looping rest l =>
      if queue_empty (inline_ready l) then Done ([if completed l then FinishScheduled rest else Closure rest], x)
      else
        match front (inline_ready l) with
        | Some n =>
            let l := mkLocals (pop_front (inline_ready l)) (loop_s l) (loop_outputs l) (completed l) in
            with_item n (fun item => start_node ch rest l n item x)
        | None => Crash
        end
  | Computing rest l n => kernel_done ch (InLoop rest l) n (loop_outputs l) x
  | AsyncComputing n => kernel_done ch InCallback n [] x
  | Propagating k n outputs edges written controls ready => propagate ch k n outputs edges written controls ready x
  | Failing k n s =>
      with_exec x (fun e =>
        let '(l, e) := NodeDone_error a (ch_cancelled ch) s e in
        Done ([Failed k n s], emit (EvFailed n s :: l) (set_exec e x)))
  | Failed k n s =>
      with_exec x (fun e =>
        let '(b, e) := fetch_sub_outstanding e in
        Done (resume k (inline_of k) (outputs_of k) s b, set_exec e x))
  | FinishScheduled rest => ScheduleFinish rest x
  | Finishing rest => Finish ch rest x
  | Syncing => with_exec x (fun _ => Done ([Callback (ch_device ch)], delete_exec (emit [EvDevice (ch_device ch)] x)))
  | Callback s => Done ([], emit [EvDone s] x)
  end.

(** ** Pools of threads *)
Definition world : Type := list thread * shared.

Inductive action :=
  | Run (i : nat) (ch : Choice)
  | Defer (i : nat)
  | Undefer.

Definition running (t : thread) : bool := match t with Computing _ _ _ | AsyncComputing _ => true | _ => false end.

(** Only a running kernel defers, and a deferral is undone once. *)
Definition enabled (act : action) (w : world) : bool :=
  match act with
  | Run i _ => (i <? length w.1)%nat
  | Defer i => match w.1 !! i with Some t => running t | None => false end
  | Undefer => (0 <? deferred w.2)%nat
  end.

Definition inc_num_deferred_ops (x : shared) : outcome shared :=
  with_exec x (fun e =>
    Done (mkShared (Some (with_deferred (num_deferred_ops_ e + 1) (finish_when_deferred_ops_done_ e) e)) (refs x) (S (deferred x)) (log x))).

Definition dec_num_deferred_ops (x : shared) : outcome (list thread * shared) :=
  with_exec x (fun e =>
    let n := num_deferred_ops_ e - 1 in
    Done (if (n =? 0) && finish_when_deferred_ops_done_ e then [Finishing []] else [],
          mkShared (Some (with_deferred n (finish_when_deferred_ops_done_ e) e)) (refs x) (pred (deferred x)) (log x))).

Definition perform (act : action) (w : world) : outcome world :=
  match act with
  | Run i ch =>
      match w.1 !! i with
      | Some t =>
          match thread_step ch t w.2 with
          | Done (ts, x) => Done (take i w.1 ++ ts ++ drop (S i) w.1, x)
          | _ => Crash
          end
      | None => Crash
      end
  | Defer i => match inc_num_deferred_ops w.2 with Done x => Done (w.1, x) | _ => Crash end
  | Undefer => match dec_num_deferred_ops w.2 with Done (ts, x) => Done (w.1 ++ ts, x) | _ => Crash end
  end.

(** ** [RunAsync] *)
Definition ActivateRoots (roots ready : list TaggedNode) : list TaggedNode := ready ++ roots.

Definition ExecutorState_new : ExecutorState :=
  mkExec (replicate (root_total_inputs V) Entry_new) (atomic_pending_counts_ V) 0 0 false StatusOK false.

Definition RunAsync (context_status : Status) (refs : nat -> Tensor) : world :=
  if ok context_status then
    match ActivateRoots (root_nodes V) [] with
    | [] => ([], mkShared None refs 0 [EvDone StatusOK])
    | ready =>
        let e := with_done_cb true (with_outstanding (int32 (Z.of_nat (length ready))) ExecutorState_new) in
        (map Closure (ScheduleReady a (fun _ => false) ready None).2, mkShared (Some e) refs 0 [])
    end
  else ([], mkShared None refs 0 [EvDone context_status]).

Inductive reachable (context_status : Status) (r0 : nat -> Tensor) : world -> Prop :=
  | reach_start : reachable context_status r0 (RunAsync context_status r0)
  | reach_step w act w' : reachable context_status r0 w -> enabled act w = true -> perform act w = Done w' -> reachable context_status r0 w'.
End Actions.
