(* ===== verification/ExecutorInv.v ===== *)
(** * The invariant of a step of an executor

    Nodes are conserved: a node whose count has reached zero is with exactly one
    thread or has ended, the count of a node is the number of edges into it that
    have not been delivered, [num_outstanding_ops_] is the number of nodes that
    threads still have to report, and there is one right to finish, which
    appears when that number is zero. *)
From S2P Require Import Prelude PendingCounts Counting GraphView Executor.
From stdpp Require Import list gmap options.
#[local] Open Scope Z_scope.

(** ** Queues as lists *)
Definition queue_list (q : ReadyQueue) : list TaggedNode := drop (front_index_ q) (ready_ q).

Definition queue_ok (q : ReadyQueue) : Prop := (front_index_ q < length (ready_ q))%nat \/ (ready_ q = [] /\ front_index_ q = 0%nat).

Lemma queue_new_ok : queue_ok queue_new.
Proof. by right. Qed.

Lemma push_back_ok n q : queue_ok q -> queue_ok (push_back n q) /\ queue_list (push_back n q) = queue_list q ++ [n].
Proof.
  intros Hq. unfold push_back, queue_list, queue_ok in *. cbn. rewrite length_app. simpl. split; [left; destruct Hq as [?|[-> ->]]; simpl; lia|].
  apply drop_app_le. destruct Hq as [?|[-> ->]]; simpl; lia.
Qed.

Lemma queue_empty_list q : queue_ok q -> queue_empty q = bool_decide (queue_list q = []).
Proof.
  intros Hq. unfold queue_empty, queue_list. destruct (ready_ q) as [|x l] eqn:E; [by rewrite drop_nil, bool_decide_eq_true_2|].
  rewrite bool_decide_eq_false_2; [done|]. destruct Hq as [Hq|[? _]]; [|congruence]. rewrite E in Hq. intros Hd%(f_equal length). rewrite length_drop in Hd. simpl in *. lia.
Qed.

Lemma pop_front_ok n l q : queue_ok q -> queue_list q = n :: l -> front q = Some n /\ queue_ok (pop_front q) /\ queue_list (pop_front q) = l.
Proof.
  intros Hq Hl. unfold queue_list in Hl. assert (Hf : front q = Some n).
  { unfold front. rewrite <- (Nat.add_0_r (front_index_ q)), <- lookup_drop, Hl. done. }
  pose proof Hf as Hlt%lookup_lt_Some. assert (Hd : drop (S (front_index_ q)) (ready_ q) = l).
  { replace (S (front_index_ q)) with (front_index_ q + 1)%nat by lia. by rewrite <- drop_drop, Hl. }
  split; [done|]. unfold pop_front. destruct (Nat.eqb_spec (S (front_index_ q)) (length (ready_ q))) as [He|Hne]; cbn [orb].
  - split; [by right|]. unfold queue_list. cbn. rewrite He, drop_all in Hd. done.
  - destruct (kSpillThreshold <? S (front_index_ q))%nat; unfold queue_ok, queue_list; cbn [front_index_ ready_].
    + rewrite Hd. split; [|by rewrite drop_0]. left. rewrite <- Hd, length_drop. lia.
    + split; [left; lia|done].
Qed.

(** ** Graphs *)
Section View.
Context (V : ImmutableExecutorState).

Definition item_at (n : nat) (item : NodeItem) : Prop := gview V !! n = Some (Some item).

Definition is_item (n : nat) : bool := match gview V !! n with Some (Some _) => true | _ => false end.

Definition dests (item : NodeItem) : list nat := map dst_id (output_edges item) ++ output_control_edges item.

Definition dests_of (n : nat) : list nat := match gview V !! n with Some (Some item) => dests item | _ => [] end.

Definition edges_of (n : nat) : list EdgeInfo := match gview V !! n with Some (Some item) => output_edges item | _ => [] end.

Definition all_nodes : list nat := seq 0 (length (gview V)).

(** The number of edges into a node. *)
Definition indegree (d : nat) : Z := zsum (fun n => zsum (occ d) (dests_of n)) all_nodes.

(** What [Initialize] promises of the graph it builds, with counts that fit. *)
Record view_ok : Prop := {
  vo_edge n item ed : item_at n item -> ed ∈ output_edges item ->
    (output_slot ed < item_outputs item)%nat /\
    exists d, item_at (dst_id ed) d /\ (input_start d <= input_slot ed < input_start d + item_inputs d)%nat;
  vo_control n item d : item_at n item -> d ∈ output_control_edges item -> is_item d = true;
  vo_last n item l1 ed l2 : item_at n item -> output_edges item = l1 ++ ed :: l2 ->
    is_last ed = true -> Forall (fun e => output_slot e <> output_slot ed) l2;
  vo_slots : NoDup (concat (map (fun n => map input_slot (edges_of n)) all_nodes));
  vo_range n item : item_at n item -> (input_start item + item_inputs item <= root_total_inputs V)%nat;
  vo_disjoint n m item item' i : item_at n item -> item_at m item' -> n <> m ->
    (input_start item <= i < input_start item + item_inputs item)%nat ->
    ~ (input_start item' <= i < input_start item' + item_inputs item')%nat;
  vo_pending n : is_item n = true -> atomic_pending_counts_ V !! n = Some (indegree n);
  vo_roots : NoDup (root_nodes V);
  vo_root n : n ∈ root_nodes V <-> is_item n = true /\ indegree n = 0;
  vo_noop n item : item_at n item -> is_noop item = true -> (item_outputs item <= 1)%nat;
  vo_const n item : item_at n item -> is_Some (const_tensor_ item) -> item_outputs item = 1%nat;
  vo_size : Z.of_nat (length (gview V)) < 2 ^ 31;
  vo_degree n : indegree n < 2 ^ 31
}.

Lemma is_item_true n : is_item n = true <-> exists item, item_at n item.
Proof using. unfold is_item, item_at. destruct (gview V !! n) as [[i|]|]; naive_solver. Qed.

Lemma is_item_lt n : is_item n = true -> (n < length (gview V))%nat.
Proof using. rewrite is_item_true. intros [item Hi]. by eapply lookup_lt_Some. Qed.

Lemma dests_of_item n item : item_at n item -> dests_of n = dests item.
Proof using. unfold item_at, dests_of. by intros ->. Qed.

Lemma edges_of_item n item : item_at n item -> edges_of n = output_edges item.
Proof using. unfold item_at, edges_of. by intros ->. Qed.

Lemma dests_items (Hv : view_ok) n item d : item_at n item -> d ∈ dests item -> is_item d = true.
Proof using.
  intros Hn. unfold dests. rewrite elem_of_app, list_elem_of_fmap. intros [(ed & -> & He)|Hd]; [|by eapply vo_control].
  destruct (vo_edge Hv _ _ _ Hn He) as (_ & di & Hd & _). apply is_item_true. eauto.
Qed.

Lemma indegree_nonneg d : 0 <= indegree d.
Proof using. apply zsum_nonneg. intros n. apply zsum_nonneg, occ_nonneg. Qed.
End View.

Lemma zsum_le {A} (f g : A -> Z) l : (forall x, x ∈ l -> f x <= g x) -> zsum f l <= zsum g l.
Proof.
  induction l as [|x l IH]; intros Hfg; [done|]. rewrite !zsum_cons. pose proof (Hfg x ltac:(left)). pose proof (IH ltac:(intros; apply Hfg; by right)). lia.
Qed.

(** A sum over distinct nodes is at most the sum over all. *)
Lemma zsum_sublist {A} `{EqDecision A} (f : A -> Z) (l k : list A) : (forall x, 0 <= f x) -> NoDup l -> (forall x, x ∈ l -> x ∈ k) ->
  zsum f l <= zsum f k.
Proof.
  intros Hf Hl Hk. destruct (submseteq_Permutation l k (NoDup_submseteq l k Hl Hk)) as [r ->]. rewrite zsum_app. pose proof (zsum_nonneg f r Hf). lia.
Qed.

(** ** What threads hold *)
Definition held_cont (k : cont) : list TaggedNode := match k with InLoop rest l => rest ++ queue_list (inline_ready l) | InCallback => [] end.

(** Nodes that are not known to have ended. *)
Definition tokens (t : thread) : list TaggedNode :=
  match t with
  | Closure ns => ns
  | Looping rest l => held_cont (InLoop rest l)
  | Computing rest l n => n :: held_cont (InLoop rest l)
  | AsyncComputing n => [n]
  | Propagating k n _ _ _ _ ready => ready ++ held_cont k
  | Failing k n _ => n :: held_cont k
  | Failed k n _ => held_cont k
  | FinishScheduled rest | Finishing rest => rest
  | Syncing | Callback _ => []
  end.

Definition tok (d : nat) (t : thread) : Z := zsum (occ d) (tokens t).

(** Nodes that have ended, with threads that will report them. *)
Definition busy_nodes (t : thread) : list TaggedNode :=
  match t with Propagating _ n _ _ _ _ _ | Failed _ n _ => [n] | _ => [] end.

Definition busy (d : nat) (t : thread) : Z := zsum (occ d) (busy_nodes t).

(** Edges that are still to be delivered. *)
Definition undelivered (d : nat) (t : thread) : Z :=
  match t with Propagating _ _ _ edges _ controls _ => zsum (occ d) (map dst_id edges ++ controls) | _ => 0 end.

(** Nodes that a thread will report. *)
Definition weight (t : thread) : Z :=
  match t with
  | Propagating k _ _ _ _ _ _ | Failed k _ _ => 1 + Z.of_nat (length (held_cont k))
  | _ => Z.of_nat (length (tokens t))
  end.

Definition cont_completed (k : cont) : bool := match k with InLoop _ l => completed l | InCallback => false end.

(** The right to finish. *)
Definition finisher (t : thread) : Z :=
  match t with
  | Looping _ l | Computing _ l _ => Z.b2z (completed l)
  | Propagating k _ _ _ _ _ _ | Failing k _ _ | Failed k _ _ => Z.b2z (cont_completed k)
  | FinishScheduled _ | Finishing _ | Syncing => 1
  | _ => 0
  end.

Definition finishing (t : thread) : Z := match t with Finishing _ | Syncing => 1 | _ => 0 end.

Definition syncing (t : thread) : Z := match t with Syncing => 1 | _ => 0 end.

Definition calling (t : thread) : Z := match t with Callback _ => 1 | _ => 0 end.

(** ** What the log says *)
Definition ended (d : nat) (ev : event) : Z := match ev with EvOutputs n _ | EvFailed n _ => occ d n | _ => 0 end.

Definition sent (V : ImmutableExecutorState) (d : nat) (ev : event) : Z :=
  match ev with EvOutputs n _ => zsum (occ d) (dests_of V n) | _ => 0 end.

(** The nodes whose outputs were sent. *)
Definition sent_nodes (l : list event) : list nat := omap (fun ev => match ev with EvOutputs n _ => Some n | _ => None end) l.

Definition done_event (ev : event) : Z := match ev with EvDone _ => 1 | _ => 0 end.

(** ** Threads in order *)
Definition locals_ok (l : Locals) : Prop := queue_ok (inline_ready l) /\ (1 <= length (loop_outputs l))%nat.

Definition cont_ok (k : cont) : Prop := match k with InLoop _ l => locals_ok l | InCallback => True end.

Definition thread_ok (V : ImmutableExecutorState) (t : thread) : Prop :=
  match t with
  | Looping _ l | Computing _ l _ => locals_ok l
  | Propagating k n outputs edges written controls _ =>
      cont_ok k /\ ((1 <= length outputs)%nat \/ k = InCallback) /\ exists item pre cpre, item_at V n item /\ (item_outputs item <= length outputs)%nat /\
        output_edges item = pre ++ edges /\ output_control_edges item = cpre ++ controls /\
        (written = true -> edges <> [])
  | Failing k _ _ | Failed k _ _ => cont_ok k
  | _ => True
  end.

(** ** The invariant *)
Section Inv.
Context (V : ImmutableExecutorState).

(** [p] are the counts, also after the state is gone. *)
Record counts_ok (p : list Z) (w : world) : Prop := {
  co_length : length p = length (atomic_pending_counts_ V);
  co_bound d c : is_item V d = true -> p !! d = Some c -> c <= indegree V d;
  co_threads : Forall (thread_ok V) w.1;
  co_count d c : is_item V d = true -> p !! d = Some c -> c = indegree V d - zsum (sent V d) (log w.2) + zsum (undelivered d) w.1;
  co_node d c : is_item V d = true -> p !! d = Some c -> zsum (tok d) w.1 + zsum (ended d) (log w.2) = Z.b2z (c =? 0);
  co_none d : is_item V d = false -> zsum (tok d) w.1 + zsum (ended d) (log w.2) = 0;
  co_busy d : zsum (busy d) w.1 <= zsum (ended d) (log w.2)
}.

Record exec_ok (p : list Z) (e : ExecutorState) (w : world) : Prop := {
  eo_pending : pending_ e = p;
  eo_inputs : length (input_tensors_ e) = root_total_inputs V;
  eo_outstanding : num_outstanding_ops_ e = zsum weight w.1;
  eo_finish : zsum finisher w.1 + Z.b2z (finish_when_deferred_ops_done_ e && (0 <? num_deferred_ops_ e)) = Z.b2z (zsum weight w.1 =? 0);
  eo_flag : finish_when_deferred_ops_done_ e = true -> zsum weight w.1 = 0;
  eo_deferred : num_deferred_ops_ e = Z.of_nat (deferred w.2);
  eo_finishing : 0 < zsum finishing w.1 -> num_deferred_ops_ e = 0;
  eo_done : zsum syncing w.1 = Z.b2z (negb (done_cb_ e));
  eo_calling : zsum calling w.1 + zsum done_event (log w.2) = 0
}.

Record over_ok (w : world) : Prop := {
  oo_weight : zsum weight w.1 = 0;
  oo_finish : zsum finisher w.1 = 0;
  oo_deferred : deferred w.2 = 0%nat;
  oo_calling : zsum calling w.1 + zsum done_event (log w.2) = 1
}.

Record inv (p : list Z) (w : world) : Prop := {
  inv_counts : counts_ok p w;
  inv_exec : match exec w.2 with Some e => exec_ok p e w | None => over_ok w end
}.
End Inv.

(** ** Signs *)
Lemma tok_nonneg d t : 0 <= tok d t.
Proof. apply zsum_nonneg, occ_nonneg. Qed.

Lemma busy_nonneg d t : 0 <= busy d t.
Proof. apply zsum_nonneg, occ_nonneg. Qed.

Lemma undelivered_nonneg d t : 0 <= undelivered d t.
Proof. destruct t; try done. apply zsum_nonneg, occ_nonneg. Qed.

Lemma thread_weight_nonneg t : 0 <= weight t.
Proof. destruct t; cbn [weight]; lia. Qed.

Lemma b2z_nonneg b : 0 <= Z.b2z b.
Proof. destruct b; simpl; lia. Qed.

Lemma finisher_nonneg t : 0 <= finisher t.
Proof. destruct t; cbn [finisher]; auto using b2z_nonneg; lia. Qed.

Lemma finishing_nonneg t : 0 <= finishing t.
Proof. destruct t; cbn [finishing]; lia. Qed.

Lemma finishing_finisher t : finishing t <= finisher t.
Proof. destruct t; cbn [finishing finisher]; auto using b2z_nonneg; lia. Qed.

Lemma syncing_nonneg t : 0 <= syncing t.
Proof. destruct t; cbn [syncing]; lia. Qed.

Lemma calling_nonneg t : 0 <= calling t.
Proof. destruct t; cbn [calling]; lia. Qed.

Lemma ended_nonneg d ev : 0 <= ended d ev.
Proof. destruct ev; cbn [ended]; auto using occ_nonneg; lia. Qed.

Lemma sent_nonneg V d ev : 0 <= sent V d ev.
Proof. destruct ev; cbn [sent]; try lia. apply zsum_nonneg, occ_nonneg. Qed.

Lemma done_nonneg ev : 0 <= done_event ev.
Proof. destruct ev; cbn [done_event]; lia. Qed.

Create HintDb exec_pos.
#[export] Hint Resolve tok_nonneg busy_nonneg undelivered_nonneg thread_weight_nonneg finisher_nonneg finishing_nonneg finishing_finisher
  syncing_nonneg calling_nonneg ended_nonneg sent_nonneg done_nonneg b2z_nonneg occ_nonneg zsum_nonneg : exec_pos.

(** A sum over a pool, split at a thread. *)
Lemma zsum_mid {A} (f : A -> Z) L t R : zsum f (L ++ t :: R) = f t + (zsum f L + zsum f R).
Proof. rewrite !zsum_app, zsum_cons. lia. Qed.

Lemma zsum_swap {A} (f : A -> Z) L ts R : zsum f (L ++ ts ++ R) = zsum f ts + (zsum f L + zsum f R).
Proof. rewrite !zsum_app. lia. Qed.

Section Facts.
Context (V : ImmutableExecutorState) (Hv : view_ok V).

Lemma item_pending p w d : counts_ok V p w -> is_item V d = true -> exists c, p !! d = Some c.
Proof using Hv.
  intros Hc Hd. apply lookup_lt_is_Some_2. rewrite (co_length _ _ _ Hc). apply lookup_lt_is_Some_1. rewrite (vo_pending _ Hv d Hd). eauto.
Qed.

(** No node is in two places. *)
Lemma node_once p w d : counts_ok V p w -> zsum (tok d) w.1 + zsum (ended d) (log w.2) <= Z.b2z (is_item V d).
Proof using Hv.
  intros Hc. destruct (is_item V d) eqn:Hd; [|by rewrite (co_none _ _ _ Hc) by done]. destruct (item_pending _ _ _ Hc Hd) as [c Ec].
  rewrite (co_node _ _ _ Hc d c Hd Ec). destruct (c =? 0); simpl; lia.
Qed.

Lemma token_item p w d t : counts_ok V p w -> t ∈ w.1 -> d ∈ tokens t -> is_item V d = true.
Proof using Hv.
  intros Hc Ht Hd. pose proof (node_once p w d Hc) as Ho. destruct (is_item V d); [done|]. simpl in Ho.
  pose proof (zsum_elem (tok d) w.1 t (tok_nonneg d) Ht). apply occ_elem in Hd. unfold tok in *. pose proof (zsum_nonneg (ended d) (log w.2) (ended_nonneg d)). lia.
Qed.

Lemma pool_occ (f : thread -> list nat) (d : nat) ts : zsum (fun t => zsum (occ d) (f t)) ts = zsum (occ d) (concat (map f ts)).
Proof using. by rewrite zsum_concat, zsum_map. Qed.

Lemma zsum_length {A} (f : A -> list nat) l : zsum (fun x => Z.of_nat (length (f x))) l = Z.of_nat (length (concat (map f l))).
Proof using. induction l as [|x l IH]; [done|]. rewrite zsum_cons. cbn [map concat]. rewrite length_app. lia. Qed.

(** Threads have at most all nodes between them. *)
Lemma held_bound p w : counts_ok V p w -> zsum (fun t => Z.of_nat (length (tokens t))) w.1 + zsum (fun t => Z.of_nat (length (busy_nodes t))) w.1 <= Z.of_nat (length (gview V)).
Proof using Hv.
  intros Hc. rewrite !zsum_length, <- Nat2Z.inj_add, <- length_app. apply inj_le. rewrite <- (length_seq (length (gview V)) 0). apply submseteq_length, NoDup_submseteq.
  - apply occ_NoDup. intros d. rewrite zsum_app, <- !pool_occ. pose proof (node_once p w d Hc). pose proof (co_busy _ _ _ Hc d). unfold tok, busy in *.
    destruct (is_item V d); simpl in *; lia.
  - intros d Hd. apply elem_of_seq. split; [lia|]. simpl. apply is_item_lt. pose proof (node_once p w d Hc) as Ho. pose proof (co_busy _ _ _ Hc d) as Hb.
    apply occ_elem in Hd. rewrite zsum_app, <- !pool_occ in Hd. unfold tok, busy in *. destruct (is_item V d); simpl in *; [done|lia].
Qed.

Lemma weight_held t : weight t <= Z.of_nat (length (tokens t)) + Z.of_nat (length (busy_nodes t)).
Proof using. destruct t; cbn [weight tokens busy_nodes]; rewrite ?length_app; simpl; lia. Qed.

Lemma weight_held_sum ts : zsum weight ts <= zsum (fun t => Z.of_nat (length (tokens t))) ts + zsum (fun t => Z.of_nat (length (busy_nodes t))) ts.
Proof using. induction ts as [|t ts IH]; [done|]. rewrite !zsum_cons. pose proof (weight_held t). lia. Qed.

(** The counter has room for all that threads have to report. *)
Lemma weight_bound p w : counts_ok V p w -> 0 <= zsum weight w.1 <= Z.of_nat (length (gview V)).
Proof using Hv. intros Hc. pose proof (held_bound p w Hc). pose proof (weight_held_sum w.1). split; [auto with exec_pos|lia]. Qed.

Lemma ready_bound p L R x k n o es wr cs ready : counts_ok V p (L ++ Propagating k n o es wr cs ready :: R, x) ->
  zsum weight (L ++ Propagating k n o es wr cs ready :: R) + Z.of_nat (length ready) <= Z.of_nat (length (gview V)).
Proof using Hv.
  intros Hc. pose proof (held_bound p _ Hc) as Hb. cbn [fst] in Hb. rewrite !zsum_mid in *. pose proof (weight_held_sum L). pose proof (weight_held_sum R).
  cbn [weight tokens busy_nodes] in *. rewrite length_app in Hb. simpl length in Hb. lia.
Qed.

(** The nodes that have sent their outputs are distinct. *)
Lemma sent_nodes_sum d l : zsum (sent V d) l = zsum (fun n => zsum (occ d) (dests_of V n)) (sent_nodes l).
Proof using. induction l as [|ev l IH]; [done|]. rewrite zsum_cons. destruct ev; simpl; rewrite ?zsum_cons; lia. Qed.

Lemma sent_nodes_ended m l : zsum (occ m) (sent_nodes l) <= zsum (ended m) l.
Proof using. induction l as [|ev l IH]; [done|]. rewrite zsum_cons. destruct ev as [n ?|n ?|n ?| | | | |]; simpl; rewrite ?zsum_cons; try pose proof (occ_nonneg m n); lia. Qed.

Lemma sent_nodes_once p w : counts_ok V p w -> NoDup (sent_nodes (log w.2)) /\ forall m, m ∈ sent_nodes (log w.2) -> is_item V m = true.
Proof using Hv.
  intros Hc. assert (Ho : forall m, zsum (occ m) (sent_nodes (log w.2)) <= Z.b2z (is_item V m)).
  { intros m. pose proof (node_once p w m Hc). pose proof (sent_nodes_ended m (log w.2)). pose proof (zsum_nonneg _ w.1 (tok_nonneg m)). lia. }
  split; [apply occ_NoDup|]; intros m; specialize (Ho m); destruct (is_item V m); simpl in *; try done; try lia. intros Hm%occ_elem. lia.
Qed.

Lemma sent_bound p w d : counts_ok V p w -> zsum (sent V d) (log w.2) <= indegree V d.
Proof using Hv.
  intros Hc. destruct (sent_nodes_once p w Hc) as [Hn Hi]. rewrite sent_nodes_sum. apply zsum_sublist; [intros; auto with exec_pos|done|].
  intros m Hm. apply elem_of_seq. split; [lia|]. by apply is_item_lt, Hi.
Qed.

Lemma int32_in_range z : - 2 ^ 31 <= z < 2 ^ 31 -> int32 z = z.
Proof using. intros. unfold int32. rewrite Z.mod_small by lia. lia. Qed.

(** Counts are positive while an edge is on its way. *)
Lemma count_lower p w d c : counts_ok V p w -> is_item V d = true -> p !! d = Some c -> zsum (undelivered d) w.1 <= c.
Proof using Hv. intros Hc Hd Ec. rewrite (co_count _ _ _ Hc d c Hd Ec). pose proof (sent_bound p w d Hc). lia. Qed.
End Facts.
