(* ===== verification/ExecutorSteps.v ===== *)
(** * Every action keeps the invariant and is defined *)
From S2P Require Import Prelude PendingCounts Counting GraphView Executor ExecutorInv.
From stdpp Require Import list gmap options.
#[local] Open Scope Z_scope.

Lemma zsum_nil {A} (f : A -> Z) : zsum f [] = 0.
Proof. done. Qed.

Lemma zsum_one {A} (f : A -> Z) t : zsum f [t] = f t.
Proof. rewrite zsum_cons, zsum_nil. lia. Qed.

(** Fields of the state. *)
Ltac exec_simpl := cbn [fst snd exec refs deferred log set_exec with_deferred with_done_cb with_outstanding ExecutorState_new pending_ input_tensors_
  num_outstanding_ops_ num_deferred_ops_ finish_when_deferred_ops_done_ status_ done_cb_].

Section Frames.
Context (V : ImmutableExecutorState) (Hv : view_ok V) (a : Args).

(** One thread is replaced by others, with events added to the log. *)
Lemma counts_frame p L t ts R x x' l : counts_ok V p (L ++ t :: R, x) -> log x' = log x ++ l -> Forall (thread_ok V) ts ->
  (forall d, zsum (tok d) ts + zsum (ended d) l = tok d t) ->
  (forall d, zsum (undelivered d) ts = undelivered d t + zsum (sent V d) l) ->
  (forall d, zsum (busy d) ts <= busy d t + zsum (ended d) l) ->
  counts_ok V p (L ++ ts ++ R, x').
Proof using.
  intros [Hlen Hbound Hth Hcount Hnode Hnone Hbusy] Hl Hts Htok Hund Hb. cbn [fst snd] in *. split; cbn [fst snd]; [done|done| | | | |].
  - rewrite Forall_app, Forall_cons in Hth. rewrite !Forall_app. tauto.
  - intros d c Hd Ec. specialize (Hcount d c Hd Ec). specialize (Hund d). rewrite zsum_swap, Hl, zsum_app. rewrite zsum_mid in Hcount. lia.
  - intros d c Hd Ec. specialize (Hnode d c Hd Ec). specialize (Htok d). rewrite zsum_swap, Hl, zsum_app. rewrite zsum_mid in Hnode. lia.
  - intros d Hd. specialize (Hnone d Hd). specialize (Htok d). rewrite zsum_swap, Hl, zsum_app. rewrite zsum_mid in Hnone. lia.
  - intros d. specialize (Hbusy d). specialize (Hb d). rewrite zsum_swap, Hl, zsum_app. rewrite zsum_mid in Hbusy. lia.
Qed.

(** What an action may not change, and how it changes the counter. *)
Record same_exec (e e' : ExecutorState) : Prop := {
  se_inputs : length (input_tensors_ e') = length (input_tensors_ e);
  se_deferred : num_deferred_ops_ e' = num_deferred_ops_ e;
  se_flag : finish_when_deferred_ops_done_ e' = finish_when_deferred_ops_done_ e;
  se_done : done_cb_ e' = done_cb_ e
}.

Lemma exec_frame p p' e e' L t ts R x x' l : exec_ok V p e (L ++ t :: R, x) -> log x' = log x ++ l -> deferred x' = deferred x ->
  same_exec e e' -> pending_ e' = p' -> zsum done_event l = 0 ->
  num_outstanding_ops_ e' = num_outstanding_ops_ e + zsum weight ts - weight t ->
  zsum finisher ts - finisher t = Z.b2z (num_outstanding_ops_ e' =? 0) - Z.b2z (num_outstanding_ops_ e =? 0) ->
  (weight t = 0 -> zsum weight ts = 0) -> zsum finishing ts = finishing t -> zsum syncing ts = syncing t -> zsum calling ts = calling t ->
  exec_ok V p' e' (L ++ ts ++ R, x').
Proof using.
  intros [Hp Hin Hout Hfin Hflag Hdef Hfing Hdone Hcall] Hl Hd [Si Sd Sf Sdone] Hp' Hdl Hw Hf Hw0 Hfg Hsy Hca. pose proof (zsum_nonneg weight L thread_weight_nonneg). pose proof (zsum_nonneg weight R thread_weight_nonneg). pose proof (thread_weight_nonneg t). cbn [fst snd] in *.
  rewrite Hout in Hf, Hw. rewrite !zsum_mid in *. split; cbn [fst snd]; rewrite ?zsum_swap, ?Hl, ?zsum_app, ?Sd, ?Sf, ?Sdone, ?Hd; try done; try lia.
  - rewrite Hw in Hf. replace (weight t + (zsum weight L + zsum weight R) + zsum weight ts - weight t) with (zsum weight ts + (zsum weight L + zsum weight R)) in Hf by lia. lia.
  - intros E. specialize (Hflag E). rewrite Hw0; lia.
Qed.

(** A thread that has a node to report has no right to finish. *)
Lemma no_finisher p e L t R x : exec_ok V p e (L ++ t :: R, x) -> 0 < weight t -> finisher t = 0.
Proof using.
  intros He Hw. pose proof (eo_finish _ _ _ _ He) as Hf. cbn [fst snd] in Hf. rewrite zsum_mid in Hf.
  pose proof (zsum_nonneg weight L thread_weight_nonneg); pose proof (zsum_nonneg weight R thread_weight_nonneg). pose proof (zsum_nonneg finisher L finisher_nonneg); pose proof (zsum_nonneg finisher R finisher_nonneg). pose proof (finisher_nonneg t).
  rewrite (proj2 (Z.eqb_neq (zsum weight (L ++ t :: R)) 0)) in Hf by (rewrite zsum_mid; lia). simpl in Hf.
  pose proof (b2z_nonneg (finish_when_deferred_ops_done_ e && (0 <? num_deferred_ops_ e))). lia.
Qed.

(** A thread with something to report or to finish finds the state. *)
Lemma exec_present p L t R x : inv V p (L ++ t :: R, x) -> 0 < weight t + finisher t ->
  exists e, exec x = Some e /\ exec_ok V p e (L ++ t :: R, x).
Proof using.
  intros [_ He] Hw. cbn [snd] in He. destruct (exec x) as [e|]; [eauto|]. destruct He as [Hwt Hf _ _]. cbn [fst] in *. rewrite !zsum_mid in *.
  pose proof (zsum_nonneg weight L thread_weight_nonneg); pose proof (zsum_nonneg weight R thread_weight_nonneg). pose proof (zsum_nonneg finisher L finisher_nonneg); pose proof (zsum_nonneg finisher R finisher_nonneg). pose proof (finisher_nonneg t). pose proof (thread_weight_nonneg t). lia.
Qed.

(** Actions that leave the counter and the rights alone. *)
Lemma exec_same p p' e e' L t ts R x x' l : exec_ok V p e (L ++ t :: R, x) -> log x' = log x ++ l -> deferred x' = deferred x ->
  same_exec e e' -> pending_ e' = p' -> zsum done_event l = 0 ->
  num_outstanding_ops_ e' = num_outstanding_ops_ e -> zsum weight ts = weight t -> zsum finisher ts = finisher t ->
  zsum finishing ts = finishing t -> zsum syncing ts = syncing t -> zsum calling ts = calling t ->
  exec_ok V p' e' (L ++ ts ++ R, x').
Proof using.
  intros He Hl Hd Hs Hp Hdl Ho Hw Hf. apply (exec_frame p p' e e' L t ts R x x' l); try done; lia || (rewrite ?Ho; lia).
Qed.

(** Actions that touch nothing shared. *)
Lemma inv_local p L t ts R x : inv V p (L ++ t :: R, x) -> Forall (thread_ok V) ts ->
  (forall d, zsum (tok d) ts = tok d t) -> (forall d, zsum (undelivered d) ts = undelivered d t) -> (forall d, zsum (busy d) ts = busy d t) ->
  zsum weight ts = weight t -> zsum finisher ts = finisher t -> zsum finishing ts = finishing t -> zsum syncing ts = syncing t -> zsum calling ts = calling t ->
  inv V p (L ++ ts ++ R, x).
Proof using.
  intros [Hc He] Hts Htok Hund Hb Hw Hf Hfg Hsy Hca. split.
  - eapply (counts_frame p L t ts R x x []); [done|by rewrite app_nil_r|done| | |]; intros d; cbn; rewrite ?Htok, ?Hund, ?Hb; lia.
  - cbn [snd] in *. destruct (exec x) as [e|].
    + eapply (exec_same p p e e L t ts R x x []); try done; [by rewrite app_nil_r|by apply (eo_pending _ _ _ _ He)].
    + destruct He as [Ow Of Od Oc]. cbn [fst snd] in *. rewrite !zsum_mid in *. split; cbn [fst snd]; rewrite ?zsum_swap; lia || done.
Qed.
(** A thread at node [n], to be continued as [k]. *)
Record at_node (t : thread) (k : cont) (n : nat) : Prop := {
  an_tok d : tok d t = occ d n + zsum (occ d) (held_cont k);
  an_busy d : busy d t = 0;
  an_undelivered d : undelivered d t = 0;
  an_weight : weight t = 1 + Z.of_nat (length (held_cont k));
  an_finisher : finisher t = Z.b2z (cont_completed k);
  an_finishing : finishing t = 0;
  an_syncing : syncing t = 0;
  an_calling : calling t = 0
}.

Lemma at_node_computing rest l n : at_node (Computing rest l n) (InLoop rest l) n.
Proof using. split; try done. cbn [weight tokens]. simpl length. lia. Qed.

Lemma at_node_async n : at_node (AsyncComputing n) InCallback n.
Proof using. by split. Qed.

Lemma at_node_pop rest l n q : queue_ok (inline_ready l) -> queue_list (inline_ready l) = n :: q ->
  at_node (Looping rest l) (InLoop rest (mkLocals (pop_front (inline_ready l)) (loop_s l) (loop_outputs l) (completed l))) n.
Proof using.
  intros Hq Hl. destruct (pop_front_ok n q _ Hq Hl) as (_ & _ & Hp). split; try done.
  - intros d. unfold tok. cbn [tokens held_cont inline_ready]. rewrite Hl, Hp, !zsum_app, zsum_cons. lia.
  - cbn [weight tokens held_cont inline_ready]. rewrite Hl, Hp, !length_app. simpl. lia.
Qed.

Lemma at_node_item p L t R x k n : at_node t k n -> counts_ok V p (L ++ t :: R, x) -> exists item, item_at V n item.
Proof using Hv.
  intros Ht Hc. apply is_item_true, (token_item V Hv p _ n t Hc); [apply elem_of_app; right; left|]. apply occ_elem. pose proof (an_tok _ _ _ Ht n) as Hn. unfold tok in Hn.
  rewrite Hn, occ_self. pose proof (zsum_nonneg (occ n) (held_cont k) (occ_nonneg n)). lia.
Qed.

(** ** Entries *)
Lemma clear_entries_spec i n l : (i + n <= length l)%nat -> exists l', clear_entries i n l = Done l' /\ length l' = length l /\
  (forall j, ~ (i <= j < i + n)%nat -> l' !! j = l !! j) /\ (forall j e, (i <= j < i + n)%nat -> l' !! j = Some e -> state e = NO_VALUE).
Proof using.
  revert i l. induction n as [|n IH]; intros i l Hl; cbn [clear_entries].
  { exists l. split_and!; try done. intros; lia. }
  destruct (l !! i) as [e|] eqn:Ei; [|apply lookup_ge_None in Ei; lia].
  destruct (IH (S i) (<[i := ClearVal e]> l)) as (l' & E & Hlen & Hout & Hin); [rewrite length_insert; lia|]. exists l'. split; [done|]. rewrite length_insert in Hlen.
  split; [done|]. split.
  - intros j Hj. rewrite Hout by lia. by rewrite list_lookup_insert_ne by lia.
  - intros j e' Hj Hj'. destruct (decide (j = i)) as [->|]; [|apply (Hin j); [lia|done]]. rewrite Hout, list_lookup_insert_eq in Hj' by lia. by simplify_eq.
Qed.

Lemma finish_node_step p L t R x k n item s outputs : inv V p (L ++ t :: R, x) -> at_node t k n -> cont_ok k -> item_at V n item ->
  (item_outputs item <= length outputs)%nat -> (1 <= length outputs)%nat \/ k = InCallback ->
  exists ts x', finish_node k n item s outputs x = Done (ts, x') /\ inv V p (L ++ ts ++ R, x').
Proof using Hv.
  intros Hinv Ht Hk Hitem Hlen Hlen1. destruct (exec_present p L t R x Hinv) as (e & Ee & He); [rewrite (an_weight _ _ _ Ht); pose proof (finisher_nonneg t); lia|].
  unfold finish_node, with_exec. rewrite Ee. destruct (clear_entries_spec (input_start item) (item_inputs item) (input_tensors_ e)) as (l' & -> & Hl' & _).
  { rewrite (eo_inputs _ _ _ _ He). by apply (vo_range _ Hv n). }
  assert (Hs : same_exec e (with_inputs l' e)) by by split.
  pose proof Ht as [Atok Abusy Aund Aw Af Afg Asy Aca]. destruct (ok s).
  - eexists _, _. split; [done|]. split.
    + eapply (counts_frame p L t _ R x _ [EvOutputs n outputs]); [apply Hinv|done| | | |].
      * apply Forall_singleton. split; [done|]. split; [done|]. exists item, [], []. split_and!; done.
      * intros d. rewrite Atok, !zsum_one. unfold tok. cbn [tokens app ended]. lia.
      * intros d. rewrite Aund, !zsum_one. cbn [undelivered sent]. by rewrite (dests_of_item V n item Hitem).
      * intros d. rewrite Abusy, !zsum_one. unfold busy. cbn [busy_nodes ended]. rewrite zsum_one. lia.
    + cbn [snd emit exec set_exec]. eapply (exec_same p p e _ L t _ R x _ [EvOutputs n outputs]); try done; [apply He|rewrite ?Aw, ?Af, ?Afg, ?Asy, ?Aca; rewrite zsum_one; cbn [weight finisher]; lia..].
  - destruct (clear_outputs k item outputs) as [o| |] eqn:Eo.
    + eexists _, _. split; [done|]. assert (Hh : held_cont (keep_outputs k o) = held_cont k) by by destruct k.
      assert (Hc : cont_completed (keep_outputs k o) = cont_completed k) by by destruct k. split.
      * eapply (counts_frame p L t _ R x _ []); [apply Hinv|by rewrite app_nil_r| | | |].
        -- apply Forall_singleton. cbn [thread_ok]. destruct k as [rest l|]; [|done]. cbn [keep_outputs cont_ok] in *. destruct Hk as [Hq _]. split; [done|].
           cbn [clear_outputs] in Eo. destruct (clear_entries_spec 0 (item_outputs item) outputs) as (o' & E' & Ho' & _); [lia|]. cbn [loop_outputs]. destruct Hlen1; [|done]. assert (o' = o) by congruence. subst. lia.
        -- intros d. rewrite Atok, zsum_one, zsum_nil. unfold tok. cbn [tokens]. rewrite zsum_cons, Hh. lia.
        -- intros d. by rewrite Aund.
        -- intros d. by rewrite Abusy.
      * cbn [snd exec set_exec]. eapply (exec_same p p e _ L t _ R x _ []); try done; [by rewrite app_nil_r|apply He|rewrite ?Aw, ?Af, ?Afg, ?Asy, ?Aca; rewrite zsum_one; cbn [weight finisher tokens]; rewrite ?Hc; simpl length; rewrite ?Hh; lia..].
    + exfalso. destruct k; [|done]. cbn [clear_outputs] in Eo. destruct (clear_entries_spec 0 (item_outputs item) outputs) as (o' & E' & _); [lia|congruence].
    + exfalso. destruct k; [|done]. cbn [clear_outputs] in Eo. destruct (clear_entries_spec 0 (item_outputs item) outputs) as (o' & E' & _); [lia|congruence].
Qed.

(** Actions that leave the counts and the counter alone. *)
Lemma inv_same p e e' L t ts R x x' l : inv V p (L ++ t :: R, x) -> exec x = Some e -> exec x' = Some e' -> log x' = log x ++ l ->
  deferred x' = deferred x -> same_exec e e' -> pending_ e' = pending_ e -> num_outstanding_ops_ e' = num_outstanding_ops_ e ->
  zsum done_event l = 0 -> Forall (thread_ok V) ts ->
  (forall d, zsum (tok d) ts + zsum (ended d) l = tok d t) ->
  (forall d, zsum (undelivered d) ts = undelivered d t + zsum (sent V d) l) ->
  (forall d, zsum (busy d) ts <= busy d t + zsum (ended d) l) ->
  zsum weight ts = weight t -> zsum finisher ts = finisher t -> zsum finishing ts = finishing t -> zsum syncing ts = syncing t -> zsum calling ts = calling t ->
  inv V p (L ++ ts ++ R, x').
Proof using.
  intros [Hc He] E E' Hl Hd Hs Hp Ho Hdl Hts Htok Hund Hb Hw Hf Hfg Hsy Hca. cbn [snd] in He. rewrite E in He. split; [by eapply counts_frame|].
  cbn [snd]. rewrite E'. eapply exec_same; try done. rewrite Hp. apply He.
Qed.

Lemma prepare_length item r i l : length (prep_entries (PrepareInputs item r i l)) = length l.
Proof using.
  revert i. induction l as [|en l IH]; intros i; [done|]. cbn [PrepareInputs]. destruct (prepare_one item r i en) as [[[s e'] inp] dead]. destruct (ok s); cbn [prep_entries]; simpl; [by rewrite IH|done].
Qed.

(** The sums over new threads, once those of the old one are known. *)
Ltac pool_sums := intros; repeat match goal with H : at_node _ _ _ |- _ => destruct H end;
  repeat match goal with H : forall d, tok d ?t = _ |- context [tok ?d ?t] => rewrite (H d) | H : forall d, busy d ?t = _ |- context [busy ?d ?t] => rewrite (H d)
    | H : forall d, undelivered d ?t = _ |- context [undelivered ?d ?t] => rewrite (H d) | H : weight ?t = _ |- context [weight ?t] => rewrite H
    | H : finisher ?t = _ |- context [finisher ?t] => rewrite H | H : finishing ?t = _ |- context [finishing ?t] => rewrite H
    | H : syncing ?t = _ |- context [syncing ?t] => rewrite H | H : calling ?t = _ |- context [calling ?t] => rewrite H end;
  rewrite ?zsum_cons, ?zsum_nil; unfold tok, busy; cbn; rewrite ?zsum_cons, ?zsum_nil; try lia.

Ltac threads_ok := repeat first [apply Forall_nil_2 | apply Forall_cons_2]; cbn [thread_ok cont_ok]; try done; try assumption.

Lemma launch_kernel_step p L t R x rest l n item : inv V p (L ++ t :: R, x) -> at_node t (InLoop rest l) n -> locals_ok l -> item_at V n item ->
  exists ts x', launch_kernel rest l n item x = Done (ts, x') /\ inv V p (L ++ ts ++ R, x').
Proof using Hv.
  intros Hinv Ht Hl Hitem. destruct (exec_present p L t R x Hinv) as (e & Ee & He); [rewrite (an_weight _ _ _ Ht); pose proof (finisher_nonneg t); lia|].
  pose proof (vo_range _ Hv n item Hitem) as Hr. rewrite <- (eo_inputs _ _ _ _ He) in Hr. unfold launch_kernel, with_exec. rewrite Ee. cbv zeta.
  rewrite (proj2 (Nat.ltb_ge (length (input_tensors_ e)) (input_start item + item_inputs item)) Hr).
  set (pr := PrepareInputs _ _ _ _). set (ins := _ ++ _ ++ _). assert (Hins : length ins = length (input_tensors_ e)).
  { unfold ins, pr. rewrite !length_app, prepare_length, !length_take, !length_drop. lia. }
  destruct (ok (prep_status pr)).
  - destruct (kernel_is_async item); eexists _, _; (split; [done|]); eapply (inv_same p e _ L t _ R x _ [EvStart n (prep_inputs pr)]);
      try done; try (by split); try (by threads_ok); pool_sums.
  - destruct (clear_entries_spec (input_start item) (item_inputs item) ins) as (l' & -> & Hl' & _); [lia|]. eexists _, _. split; [done|].
    eapply (inv_same p e _ L t _ R x _ []); try done; try (by rewrite app_nil_r); try (by threads_ok); try (by split; try done; cbn; lia); pool_sums.
Qed.

Lemma start_node_step p L t R x ch rest l n item : inv V p (L ++ t :: R, x) -> at_node t (InLoop rest l) n -> locals_ok l -> item_at V n item ->
  exists ts x', start_node ch rest l n item x = Done (ts, x') /\ inv V p (L ++ ts ++ R, x').
Proof using Hv.
  intros Hinv Ht Hl Hitem. pose proof Hl as [Hq Hlen]. unfold start_node. destruct (is_noop item) eqn:Enoop.
  { apply (finish_node_step p L t R x (InLoop rest l) n item); try done; [pose proof (vo_noop _ Hv n item Hitem Enoop); lia|by left]. }
  pose proof (launch_kernel_step p L t R x rest l n item Hinv Ht Hl Hitem) as Hk.
  destruct (const_tensor_ item) as [ct|] eqn:Ect; [|exact Hk]. destruct (ch_track_allocations ch); [exact Hk|].
  destruct (loop_outputs l) as [|o os] eqn:Eo; [simpl in Hlen; lia|].
  apply (finish_node_step p L t R x (InLoop rest l) n item); try done; [|left; simpl; lia].
  pose proof (vo_const _ Hv n item Hitem ltac:(rewrite Ect; eauto)). simpl in *. lia.
Qed.

(** ** Kernels that return *)
Lemma inv_refs p ts x r : inv V p (ts, x) -> inv V p (ts, set_refs r x).
Proof using.
  intros [[C1 C2 C3 C4 C5 C6 C7] He]. split; [by split|]. cbn [snd exec set_refs] in *. destruct (exec x) as [e|]; [destruct He; by split|destruct He; by split].
Qed.

Lemma process_outputs_length item r i n s o : length (process_outputs item r i n s o).2 = length o.
Proof using.
  revert i s o. induction n as [|n IH]; intros i s o; [by destruct o|]. destruct o as [|out o]; [done|]. cbn [process_outputs].
  destruct (process_output item r i out) as [s1 out']. specialize (IH (S i) (Update s s1) o). destruct (process_outputs item r (S i) n (Update s s1) o). simpl in *. lia.
Qed.

Lemma ProcessOutputs_length item r o : length (ProcessOutputs item r o).2 = length o.
Proof using. unfold ProcessOutputs. destruct (ok (ctx_status r)); [apply process_outputs_length|done]. Qed.

Lemma kernel_done_step p L t R x ch k n outputs : inv V p (L ++ t :: R, x) -> at_node t k n -> cont_ok k -> (1 <= length outputs)%nat \/ k = InCallback ->
  exists ts x', kernel_done V ch k n outputs x = Done (ts, x') /\ inv V p (L ++ ts ++ R, x').
Proof using Hv.
  intros Hinv Ht Hk Hlen. destruct (at_node_item p L t R x k n Ht (inv_counts _ _ _ Hinv)) as [item Hitem]. unfold kernel_done, with_item. rewrite Hitem.
  pose proof (ProcessOutputs_length item (ch_result ch) (grow_outputs (item_outputs item) outputs)) as Ho.
  destruct (ProcessOutputs item (ch_result ch) _) as [s o]. cbn [snd] in Ho. unfold grow_outputs in Ho. rewrite length_app, length_replicate in Ho.
  apply (finish_node_step p L t R); [by apply inv_refs|done|done|done|lia|]. destruct Hlen; [left; lia|by right].
Qed.

(** ** Delivery *)
Lemma write_step p L R x k n outputs ed edges controls ready :
  inv V p (L ++ Propagating k n outputs (ed :: edges) false controls ready :: R, x) ->
  exists e outputs' e', exec x = Some e /\ write_edge ed outputs e = Done (outputs', e') /\
    inv V p (L ++ [Propagating k n outputs' (ed :: edges) true controls ready] ++ R, set_exec e' x).
Proof using Hv.
  intros Hinv. set (t := Propagating _ _ _ _ _ _ _) in *. destruct (exec_present p L t R x Hinv) as (e & Ee & He); [unfold t; cbn [weight finisher]; pose proof (b2z_nonneg (cont_completed k)); lia|].
  pose proof (co_threads _ _ _ (inv_counts _ _ _ Hinv)) as Hts. cbn [fst] in Hts. rewrite Forall_app, Forall_cons in Hts. destruct Hts as (_ & Ht & _).
  destruct Ht as (Hk & Hlen1 & item & pre & cpre & Hitem & Hlen & Hed & Hco & _). destruct (vo_edge _ Hv n item ed Hitem) as (Hslot & d & Hd & Hin); [rewrite Hed; apply elem_of_app; right; left|].
  exists e. unfold write_edge. destruct (outputs !! output_slot ed) as [v|] eqn:Ev; [|apply lookup_ge_None in Ev; lia].
  destruct (input_tensors_ e !! input_slot ed) as [old|] eqn:Eold.
  2:{ apply lookup_ge_None in Eold. rewrite (eo_inputs _ _ _ _ He) in Eold. pose proof (vo_range _ Hv _ _ Hd). lia. }
  eexists _, _. split; [done|]. split; [done|]. eapply (inv_same p e _ L t _ R x _ []); try done; try (by rewrite app_nil_r); try (by unfold t; pool_sums).
  - split; try done. cbn. by rewrite length_insert.
  - apply Forall_singleton. split; [done|]. assert (Hl : length (if is_last ed then <[output_slot ed := moved_entry v]> outputs else outputs) = length outputs) by (destruct (is_last ed); [by rewrite length_insert|done]).
    rewrite Hl. split; [done|]. exists item, pre, cpre. by split_and!.
Qed.

Lemma decrement_step p L R x k n outputs edges controls ready d edges' controls' b :
  inv V p (L ++ Propagating k n outputs edges b controls ready :: R, x) ->
  map dst_id edges ++ controls = d :: map dst_id edges' ++ controls' ->
  thread_ok V (Propagating k n outputs edges' false controls' []) ->
  exists e ready' e' p', exec x = Some e /\ decrement d ready e = Done (ready', e') /\
    inv V p' (L ++ [Propagating k n outputs edges' false controls' ready'] ++ R, set_exec e' x).
Proof using Hv.
  intros Hinv Hd Hok. set (t := Propagating _ _ _ _ _ _ _) in *. destruct (exec_present p L t R x Hinv) as (e & Ee & He); [unfold t; cbn [weight finisher]; pose proof (b2z_nonneg (cont_completed k)); lia|].
  pose proof (inv_counts _ _ _ Hinv) as Hc. pose proof (co_threads _ _ _ Hc) as Hts. cbn [fst] in Hts. rewrite Forall_app, Forall_cons in Hts. destruct Hts as (Hth1 & Ht & Hth2).
  assert (Hdi : is_item V d = true).
  { destruct Ht as (_ & _ & item & pre & cpre & Hitem & _ & Hed & Hco & _). apply (dests_items V Hv n item); [done|]. unfold dests. rewrite Hed, Hco, map_app.
    assert (Hin : d ∈ map dst_id edges ++ controls) by (rewrite Hd; left). rewrite !elem_of_app in *. tauto. }
  destruct (item_pending V Hv p _ d Hc Hdi) as [c Ec]. pose proof (count_lower V Hv p _ d c Hc Hdi Ec) as Hlow.
  assert (Hund : forall d', undelivered d' t = occ d' d + zsum (occ d') (map dst_id edges' ++ controls')).
  { intros d'. unfold t. cbn [undelivered]. by rewrite Hd, zsum_cons. }
  assert (Hpos : 1 <= c < 2 ^ 31).
  { pose proof (co_bound _ _ _ Hc d c Hdi Ec). pose proof (vo_degree _ Hv d). cbn [fst] in Hlow. rewrite zsum_mid, Hund, occ_self in Hlow.
    pose proof (zsum_nonneg _ L (undelivered_nonneg d)). pose proof (zsum_nonneg _ R (undelivered_nonneg d)).
    pose proof (zsum_nonneg _ (map dst_id edges' ++ controls') (occ_nonneg d)). lia. }
  exists e. unfold decrement. rewrite (eo_pending _ _ _ _ He), Ec, int32_in_range by lia. eexists _, _, (<[d := c - 1]> p). split; [done|]. split; [done|].
  set (t' := Propagating _ _ _ _ _ _ _). assert (Hp : forall d' c', <[d := c - 1]> p !! d' = Some c' -> d' = d /\ c' = c - 1 \/ d' <> d /\ p !! d' = Some c').
  { intros d' c' E. destruct (decide (d' = d)) as [->|Hne]; [left|right; by rewrite list_lookup_insert_ne in E]. rewrite list_lookup_insert_eq in E by (by eapply lookup_lt_Some). by simplify_eq. }
  assert (Htok : forall d', tok d' t' = tok d' t + (if c =? 1 then occ d' d else 0)).
  { intros d'. unfold tok, t, t'. cbn [tokens]. destruct (c =? 1); rewrite !zsum_app, ?zsum_one; lia. }
  split; [|cbn [snd set_exec exec]].
  - destruct Hc as [Hlen Hbound Hth Hcount Hnode Hnone Hbusy]. cbn [fst snd] in *. split; cbn [fst snd log set_exec].
    + by rewrite length_insert.
    + intros d' c' Hd' [[-> ->]|[_ E]]%Hp; [specialize (Hbound d c Hdi Ec); lia|by apply Hbound].
    + rewrite !Forall_app, Forall_singleton. split_and!; done.
    + intros d' c' Hd' Hc'. rewrite zsum_swap, zsum_one. change (undelivered d' t') with (zsum (occ d') (map dst_id edges' ++ controls')). apply Hp in Hc' as [[-> ->]|[Hne E]].
      * specialize (Hcount d c Hdi Ec). rewrite zsum_mid, Hund, occ_self in Hcount. lia.
      * specialize (Hcount d' c' Hd' E). rewrite zsum_mid, Hund, occ_other in Hcount by done. lia.
    + intros d' c' Hd' Hc'. rewrite zsum_swap, zsum_one, Htok. apply Hp in Hc' as [[-> ->]|[Hne E]].
      * specialize (Hnode d c Hdi Ec). rewrite zsum_mid in Hnode. rewrite occ_self. destruct (Z.eqb_spec c 0); [lia|]. destruct (Z.eqb_spec c 1), (Z.eqb_spec (c - 1) 0); simpl in *; lia.
      * specialize (Hnode d' c' Hd' E). rewrite zsum_mid in Hnode. rewrite occ_other by done. destruct (c =? 1); lia.
    + intros d' Hd'. rewrite zsum_swap, zsum_one, Htok. specialize (Hnone d' Hd'). rewrite zsum_mid in Hnone. rewrite occ_other by congruence. destruct (c =? 1); lia.
    + intros d'. specialize (Hbusy d'). rewrite zsum_mid in Hbusy. by rewrite zsum_swap, zsum_one.
  - eapply (exec_same p _ e _ L t [t'] R x _ []); try done; try (by rewrite app_nil_r); by rewrite zsum_one.
Qed.

(** ** Scheduling moves nodes *)
Lemma push_all_ok l q : queue_ok q -> queue_ok (foldl (fun q n => push_back n q) q l) /\ queue_list (foldl (fun q n => push_back n q) q l) = queue_list q ++ l.
Proof using.
  revert q. induction l as [|n l IH]; intros q Hq; [by rewrite app_nil_r|]. cbn [foldl]. destruct (push_back_ok n q Hq) as [Hq' El]. destruct (IH _ Hq') as [? ->].
  split; [done|]. by rewrite El, <- app_assoc.
Qed.

Lemma schedule_inline_ok ex ready q curr tasks q' curr' tasks' : queue_ok q -> schedule_inline ex ready q curr tasks = (q', curr', tasks') ->
  queue_ok q' /\ queue_list q' ++ option_list curr' ++ concat tasks' ≡ₚ queue_list q ++ option_list curr ++ concat tasks ++ ready.
Proof using.
  revert q curr tasks. induction ready as [|n ready IH]; intros q curr tasks Hq E; cbn [schedule_inline] in E.
  { simplify_eq. by rewrite app_nil_r. }
  destruct (ex n); cbn [negb] in E.
  - destruct (IH _ _ _ Hq E) as [? Hp]. split; [done|]. rewrite Hp, concat_app. destruct curr as [m|]; cbn [option_list concat]; rewrite ?app_nil_r; cbn [app]; solve_Permutation.
  - destruct (push_back_ok n q Hq) as [Hq' El]. destruct (IH _ _ _ Hq' E) as [? Hp]. split; [done|]. rewrite Hp, El. solve_Permutation.
Qed.

Lemma concat_singletons (l : list nat) : concat (map (fun n => [n]) l) = l.
Proof using. induction l as [|n l IH]; [done|]. cbn. by rewrite IH. Qed.

Definition opt_queue_ok (q : option ReadyQueue) : Prop := match q with Some q => queue_ok q | None => True end.

Definition opt_queue_list (q : option ReadyQueue) : list TaggedNode := match q with Some q => queue_list q | None => [] end.

Lemma ScheduleReady_ok ex ready q q' tasks : opt_queue_ok q -> ScheduleReady a ex ready q = (q', tasks) ->
  opt_queue_ok q' /\ (is_Some q' <-> is_Some q) /\ opt_queue_list q' ++ concat tasks ≡ₚ opt_queue_list q ++ ready.
Proof using.
  intros Hq E. unfold ScheduleReady in E. destruct q as [q|]; cbn [opt_queue_ok opt_queue_list] in *.
  - destruct (run_all_kernels_inline_ a).
    + simplify_eq. destruct (push_all_ok ready q Hq) as [? El]. cbn. rewrite El, app_nil_r. split_and!; eauto. done.
    + destruct (schedule_inline ex ready q None []) as [[q1 curr] ts] eqn:Es. destruct (schedule_inline_ok _ _ _ _ _ _ _ _ Hq Es) as [Hq1 Hp]. cbn [option_list concat app] in Hp.
      destruct curr as [n|]; cbn [option_list app] in Hp; [|simplify_eq; split_and!; eauto; done]. destruct (queue_empty q1); simplify_eq; cbn [opt_queue_ok opt_queue_list].
      * destruct (push_back_ok n q1 Hq1) as [? El]. rewrite El, <- app_assoc. split_and!; eauto; done.
      * split_and!; eauto; [done|]. rewrite concat_app. cbn [concat]. rewrite <- Hp. solve_Permutation.
  - simplify_eq. destruct (run_all_kernels_inline_ a); cbn; rewrite ?app_nil_r, ?concat_singletons; split_and!; done || naive_solver.
Qed.

(** ** Reports *)

(** A thread that has only to report node [n]. *)
Record at_report (t : thread) (k : cont) (ready : list TaggedNode) : Prop := {
  ar_tok d : tok d t = zsum (occ d) ready + zsum (occ d) (held_cont k);
  ar_undelivered d : undelivered d t = 0;
  ar_weight : weight t = 1 + Z.of_nat (length (held_cont k));
  ar_finisher : finisher t = Z.b2z (cont_completed k);
  ar_finishing : finishing t = 0;
  ar_syncing : syncing t = 0;
  ar_calling : calling t = 0
}.

(** What the threads after a report hold. *)
Lemma resume_tokens (f : nat -> Z) k q outputs s b tasks ready : (is_Some q <-> is_Some (inline_of k)) ->
  opt_queue_list q ++ concat tasks ≡ₚ opt_queue_list (inline_of k) ++ ready ->
  zsum (fun t => zsum f (tokens t)) (resume k q outputs s b ++ map Closure tasks) = zsum f ready + zsum f (held_cont k).
Proof using.
  intros Hqs Hqp. rewrite zsum_app, zsum_map. cbn [tokens]. change (zsum (fun x => zsum f x) tasks) with (zsum (zsum f) tasks). apply (zsum_perm f) in Hqp. rewrite !zsum_app, zsum_concat in Hqp.
  destruct k as [rest l|]; cbn [resume inline_of opt_queue_list held_cont] in *.
  - destruct q as [q|]; [|by destruct (proj2 Hqs ltac:(eauto))]. rewrite zsum_one. cbn [tokens held_cont inline_ready default from_option opt_queue_list] in *. unfold id. rewrite !zsum_app. lia.
  - destruct q as [q|]; [by destruct (proj1 Hqs ltac:(eauto))|]. cbn [opt_queue_list] in *. destruct b; rewrite ?zsum_one, ?zsum_nil in *; cbn [tokens]; rewrite ?zsum_nil in *; lia.
Qed.

(** A sum over these threads is that of the first. *)
Lemma resume_sum (f : thread -> Z) k q outputs s b tasks c : (forall ns, f (Closure ns) = 0) ->
  (forall rest l, f (Looping rest (mkLocals (default (inline_ready l) q) s outputs b)) = c) -> (if b then f (FinishScheduled []) = c else c = 0) ->
  zsum f (resume k q outputs s b ++ map Closure tasks) = c.
Proof using.
  intros Hc Hl Hf. rewrite zsum_app, zsum_map, (zsum_0 _ tasks) by (intros; apply Hc). destruct k as [rest l|]; cbn [resume]; [rewrite zsum_one, Hl; lia|].
  destruct b; rewrite ?zsum_one, ?zsum_nil; lia.
Qed.

Lemma zsum_const (l : list nat) : zsum (fun _ => 1) l = Z.of_nat (length l).
Proof using. induction l as [|n l IH]; [done|]. rewrite zsum_cons, IH. simpl length. lia. Qed.

Lemma resume_weight k q outputs s b tasks : zsum weight (resume k q outputs s b ++ map Closure tasks) =
  zsum (fun t => zsum (fun _ => 1) (tokens t)) (resume k q outputs s b ++ map Closure tasks).
Proof using.
  apply zsum_ext. intros t. rewrite zsum_const, elem_of_app, list_elem_of_fmap. intros [Ht|(ns & -> & _)]; [|done].
  destruct k as [rest l|]; cbn [resume] in Ht; [apply list_elem_of_singleton in Ht as ->; done|]. destruct b; [apply list_elem_of_singleton in Ht as ->; done|by apply not_elem_of_nil in Ht].
Qed.

Lemma resume_ok k q outputs s b tasks : cont_ok k -> (1 <= length outputs)%nat \/ k = InCallback -> opt_queue_ok q -> (is_Some q <-> is_Some (inline_of k)) ->
  Forall (thread_ok V) (resume k q outputs s b ++ map Closure tasks).
Proof using.
  intros Hk Hlen Hq Hqs. rewrite Forall_app. split; [|apply Forall_fmap, Forall_true; done]. destruct k as [rest l|]; cbn [resume]; [|destruct b; by threads_ok].
  apply Forall_singleton. destruct q as [q|]; [|by destruct (proj2 Hqs ltac:(eauto))]. split; [done|]. cbn. by destruct Hlen.
Qed.

(** The node is replaced by the nodes it made ready. *)
Lemma report_step p e L t R x k ready q tasks outputs s b n' : inv V p (L ++ t :: R, x) -> exec x = Some e -> at_report t k ready -> cont_ok k ->
  (1 <= length outputs)%nat \/ k = InCallback ->
  opt_queue_ok q -> (is_Some q <-> is_Some (inline_of k)) -> opt_queue_list q ++ concat tasks ≡ₚ opt_queue_list (inline_of k) ++ ready ->
  b = (num_outstanding_ops_ e + Z.of_nat (length ready) - 1 =? 0) ->
  n' = int32 (num_outstanding_ops_ e + Z.of_nat (length ready) - 1) ->
  inv V p (L ++ (resume k q outputs s b ++ map Closure tasks) ++ R, set_exec (with_outstanding n' e) x).
Proof using Hv.
  intros Hinv Ee Ht Hk Hlen Hq Hqs Hqp Hb Hn'. destruct (exec_present p L t R x Hinv) as (e0 & Ee0 & He); [rewrite (ar_weight _ _ _ Ht); pose proof (finisher_nonneg t); lia|].
  assert (e0 = e) as -> by congruence. pose proof (eo_outstanding _ _ _ _ He) as Ho. cbn [fst] in Ho. rewrite zsum_mid in Ho.
  pose proof (no_finisher p e L t R x He) as Hnf. rewrite (ar_weight _ _ _ Ht) in Hnf, Ho. specialize (Hnf ltac:(lia)).
  pose proof (zsum_nonneg weight L thread_weight_nonneg) as HL. pose proof (zsum_nonneg weight R thread_weight_nonneg) as HR.
  set (ts := resume k q outputs s b ++ map Closure tasks).
  assert (Hw : zsum weight ts = Z.of_nat (length ready) + Z.of_nat (length (held_cont k))).
  { unfold ts. rewrite resume_weight, (resume_tokens _ _ _ _ _ _ _ ready) by done. by rewrite !zsum_const. }
  assert (Hc : counts_ok V p (L ++ ts ++ R, set_exec (with_outstanding n' e) x)).
  { eapply (counts_frame p L t ts R x _ []); [apply Hinv|by rewrite app_nil_r|by apply resume_ok| | |]; intros d; rewrite zsum_nil.
    - rewrite (ar_tok _ _ _ Ht). unfold tok, ts. rewrite (resume_tokens _ _ _ _ _ _ _ ready) by done. lia.
    - rewrite (ar_undelivered _ _ _ Ht). apply resume_sum; try done. by destruct b.
    - pose proof (busy_nonneg d t). unfold ts. rewrite (resume_sum _ _ _ _ _ _ _ 0); try done; [lia|by destruct b]. }
  pose proof (weight_bound V Hv p _ Hc) as Hwb. cbn [fst] in Hwb. rewrite zsum_swap, Hw in Hwb. pose proof (vo_size _ Hv).
  split; [done|]. cbn [snd set_exec exec]. rewrite int32_in_range in Hn' by lia.
  eapply (exec_frame p p e _ L t ts R x _ []); try done; try (by rewrite app_nil_r); cbn [num_outstanding_ops_ with_outstanding].
  - apply He.
  - rewrite Hw, (ar_weight _ _ _ Ht). lia.
  - unfold ts. rewrite (resume_sum _ _ _ _ _ _ _ (Z.b2z b)); [|done|done|by destruct b]. rewrite Hnf, Hb, Hn'. destruct (Z.eqb_spec (num_outstanding_ops_ e) 0); [lia|]. simpl. lia.
  - rewrite (ar_weight _ _ _ Ht). lia.
  - rewrite (ar_finishing _ _ _ Ht). apply resume_sum; try done. by destruct b.
  - rewrite (ar_syncing _ _ _ Ht). apply resume_sum; try done. by destruct b.
  - rewrite (ar_calling _ _ _ Ht). apply resume_sum; try done. by destruct b.
Qed.

Lemma with_outstanding_id e : with_outstanding (num_outstanding_ops_ e) e = e.
Proof using. by destruct e. Qed.

Lemma opt_queue_inline k : cont_ok k -> opt_queue_ok (inline_of k).
Proof using. destruct k as [rest l|]; [|done]. by intros [? _]. Qed.

Lemma report_none p e L t R x k outputs s : inv V p (L ++ t :: R, x) -> exec x = Some e -> at_report t k [] -> cont_ok k -> (1 <= length outputs)%nat \/ k = InCallback ->
  inv V p (L ++ resume k (inline_of k) outputs s (num_outstanding_ops_ e =? 1) ++ R, set_exec (with_outstanding (int32 (num_outstanding_ops_ e - 1)) e) x).
Proof using Hv.
  intros. rewrite <- (app_nil_r (resume _ _ _ _ _)). apply (report_step p e L t R x k [] (inline_of k) []); try done; [by apply opt_queue_inline|simpl length|simpl length; f_equal; lia].
  destruct (Z.eqb_spec (num_outstanding_ops_ e) 1), (Z.eqb_spec (num_outstanding_ops_ e + Z.of_nat 0 - 1) 0); lia || done.
Qed.

Lemma clear_outputs_ok k item outputs : (item_outputs item <= length outputs)%nat -> (1 <= length outputs)%nat \/ k = InCallback ->
  exists o, clear_outputs k item outputs = Done o /\ ((1 <= length o)%nat \/ k = InCallback).
Proof using.
  intros Hi Hl. destruct k; [|exists []; split; [done|by right]]. destruct (clear_entries_spec 0 (item_outputs item) outputs) as (o & E & Ho & _); [lia|].
  exists o. split; [done|]. left. destruct Hl; [lia|done].
Qed.

Lemma propagated_step p L R x ch k n outputs ready : inv V p (L ++ Propagating k n outputs [] false [] ready :: R, x) ->
  exists ts x', propagate V a ch k n outputs [] false [] ready x = Done (ts, x') /\ inv V p (L ++ ts ++ R, x').
Proof using Hv.
  intros Hinv. set (t := Propagating _ _ _ _ _ _ _) in *. destruct (exec_present p L t R x Hinv) as (e & Ee & He); [unfold t; cbn [weight finisher]; pose proof (b2z_nonneg (cont_completed k)); lia|].
  pose proof (co_threads _ _ _ (inv_counts _ _ _ Hinv)) as Hts. cbn [fst] in Hts. rewrite Forall_app, Forall_cons in Hts. destruct Hts as (_ & Ht & _).
  destruct Ht as (Hk & Hlen1 & item & pre & cpre & Hitem & Hlen & _). unfold propagate, with_exec. rewrite Ee. unfold with_item. rewrite Hitem.
  destruct (clear_outputs_ok k item outputs Hlen Hlen1) as (o & -> & Ho). assert (Hr : at_report t k ready).
  { split; try done. intros d. unfold tok, t. cbn [tokens]. by rewrite zsum_app. }
  assert (HW : 1 <= num_outstanding_ops_ e < 2 ^ 31).
  { pose proof (weight_bound V Hv p _ (inv_counts _ _ _ Hinv)) as Hb. pose proof (vo_size _ Hv). rewrite (eo_outstanding _ _ _ _ He). cbn [fst] in *. rewrite zsum_mid in *.
    rewrite (ar_weight _ _ _ Hr) in *. pose proof (zsum_nonneg weight L thread_weight_nonneg). pose proof (zsum_nonneg weight R thread_weight_nonneg). lia. }
  unfold NodeDone_ok. destruct ready as [|r ready]; cbn [fetch_sub_outstanding].
  - eexists _, _. split; [done|]. by apply (report_none p e L t R).
  - set (e' := if (1 <? length (r :: ready))%nat then _ else e). assert (He' : e' = with_outstanding (int32 (num_outstanding_ops_ e + Z.of_nat (length (r :: ready)) - 1)) e).
    { unfold e'. destruct (Nat.ltb_spec 1 (length (r :: ready))); [do 2 f_equal; lia|]. rewrite int32_in_range by (simpl length in *; lia).
      replace (num_outstanding_ops_ e + _ - 1) with (num_outstanding_ops_ e) by (simpl length in *; lia). by rewrite with_outstanding_id. }
    rewrite He'. destruct (ScheduleReady a (ch_expensive ch) (r :: ready) (inline_of k)) as [q tasks] eqn:Es.
    destruct (ScheduleReady_ok _ _ _ _ _ (opt_queue_inline k Hk) Es) as (Hq & Hqs & Hqp). eexists _, _. split; [done|]. eapply report_step; try done.
    symmetry. apply Z.eqb_neq. simpl length. lia.
Qed.

(** ** Errors *)
Lemma abort_events_sum (f : event -> Z) s : (forall s, f (EvRendezvousAbort s) = 0) -> f EvStartCancel = 0 -> (forall s, f (EvCollectiveAbort s) = 0) ->
  zsum f (abort_events a s) = 0.
Proof using.
  intros H1 H2 H3. unfold abort_events. destruct (has_rendezvous a), (has_cancellation_manager a), (has_collective_executor a); cbn [app]; rewrite ?zsum_cons, ?zsum_nil, ?H1, ?H2, ?H3; lia.
Qed.

Lemma NodeDone_error_spec c s e l e' : NodeDone_error a c s e = (l, e') -> same_exec e e' /\ pending_ e' = pending_ e /\ num_outstanding_ops_ e' = num_outstanding_ops_ e /\
  forall f : event -> Z, (forall s, f (EvRendezvousAbort s) = 0) -> f EvStartCancel = 0 -> (forall s, f (EvCollectiveAbort s) = 0) -> zsum f l = 0.
Proof using.
  unfold NodeDone_error. destruct (ok (status_ e)); intros E; simplify_eq; (split; [by split|]); (split; [done|]); (split; [done|]); intros; [by apply abort_events_sum|done].
Qed.

Lemma failing_step p L R x ch k n s : inv V p (L ++ Failing k n s :: R, x) ->
  exists ts x', thread_step V a ch (Failing k n s) x = Done (ts, x') /\ inv V p (L ++ ts ++ R, x').
Proof using.
  intros Hinv. destruct (exec_present p L _ R x Hinv) as (e & Ee & He); [cbn [weight finisher tokens]; simpl length; pose proof (b2z_nonneg (cont_completed k)); lia|].
  pose proof (co_threads _ _ _ (inv_counts _ _ _ Hinv)) as Hts. cbn [fst] in Hts. rewrite Forall_app, Forall_cons in Hts. destruct Hts as (_ & Ht & _).
  cbn [thread_step]. unfold with_exec. rewrite Ee. destruct (NodeDone_error a (ch_cancelled ch) s e) as [l e'] eqn:En.
  destruct (NodeDone_error_spec _ _ _ _ _ En) as (Hs & Hp & Ho & Hl). eexists _, _. split; [done|].
  eapply (inv_same p e e' L _ _ R x _ (EvFailed n s :: l)); try done; try (by threads_ok);
    try intros d; rewrite ?zsum_one, ?(zsum_cons _ (EvFailed n s)), ?Hl by done; unfold tok, busy; cbn [tokens busy_nodes ended sent done_event undelivered weight finisher]; rewrite ?zsum_cons, ?zsum_nil; simpl length; lia.
Qed.

Lemma failed_step p L R x ch k n s : inv V p (L ++ Failed k n s :: R, x) ->
  exists ts x', thread_step V a ch (Failed k n s) x = Done (ts, x') /\ inv V p (L ++ ts ++ R, x').
Proof using Hv.
  intros Hinv. destruct (exec_present p L _ R x Hinv) as (e & Ee & He); [cbn [weight finisher]; pose proof (b2z_nonneg (cont_completed k)); lia|].
  pose proof (co_threads _ _ _ (inv_counts _ _ _ Hinv)) as Hts. cbn [fst] in Hts. rewrite Forall_app, Forall_cons in Hts. destruct Hts as (_ & Ht & _).
  cbn [thread_step]. unfold with_exec. rewrite Ee. cbn [fetch_sub_outstanding]. eexists _, _. split; [done|].
  apply (report_none p e L (Failed k n s) R); try done. destruct k as [rest l|]; [left|by right]. by destruct Ht.
Qed.

(** ** The end of the step *)
Lemma finisher_alone p e L t R x : exec_ok V p e (L ++ t :: R, x) -> finisher t = 1 ->
  zsum weight (L ++ t :: R) = 0 /\ zsum finisher L + zsum finisher R = 0 /\ (finish_when_deferred_ops_done_ e && (0 <? num_deferred_ops_ e)) = false.
Proof using.
  intros He Hf. pose proof (eo_finish _ _ _ _ He) as Hfin. cbn [fst] in Hfin. rewrite (zsum_mid finisher), Hf in Hfin.
  pose proof (zsum_nonneg finisher L finisher_nonneg). pose proof (zsum_nonneg finisher R finisher_nonneg).
  destruct (Z.eqb_spec (zsum weight (L ++ t :: R)) 0), (finish_when_deferred_ops_done_ e && (0 <? num_deferred_ops_ e)); simpl in Hfin; split_and!; try done; lia.
Qed.

Lemma schedule_finish_step p L R x rest : inv V p (L ++ FinishScheduled rest :: R, x) ->
  exists ts x', ScheduleFinish rest x = Done (ts, x') /\ inv V p (L ++ ts ++ R, x').
Proof using.
  intros Hinv. destruct (exec_present p L _ R x Hinv) as (e & Ee & He); [cbn [weight finisher tokens]; lia|].
  destruct (finisher_alone p e L _ R x He eq_refl) as (Hw & Hf & Hflag). unfold ScheduleFinish, with_exec. rewrite Ee. destruct (0 <? num_deferred_ops_ e) eqn:Ed.
  - eexists _, _. split; [done|]. split.
    + eapply (counts_frame p L _ [Closure rest] R x _ []); [apply Hinv|by rewrite app_nil_r|by threads_ok| | |]; intros d; rewrite zsum_one, zsum_nil; unfold tok, busy; cbn; lia.
    + cbn [snd set_exec exec]. destruct He as [Hp Hin Hout Hfin Hflg Hdef Hfing Hdone Hcall]. cbn [fst snd] in *. rewrite !zsum_mid in *.
      split; exec_simpl; rewrite ?zsum_swap, ?zsum_one; cbn [weight finisher finishing syncing calling tokens] in *; try done; try lia.
      rewrite Ed, Hw. simpl. lia.
  - eexists _, _. split; [done|]. split.
    + eapply (counts_frame p L _ [Finishing rest] R x _ []); [apply Hinv|by rewrite app_nil_r|by threads_ok| | |]; intros d; rewrite zsum_one, zsum_nil; unfold tok, busy; cbn; lia.
    + cbn [snd]. rewrite Ee. destruct He as [Hp Hin Hout Hfin Hflg Hdef Hfing Hdone Hcall]. cbn [fst snd] in *. rewrite !zsum_mid in *.
      split; cbn [fst snd]; rewrite ?zsum_swap, ?zsum_one; cbn [weight finisher finishing syncing calling tokens] in *; try done; try lia.
Qed.

(** Nothing is left to do once the state is deleted. *)
Lemma exec_gone_step p e L t R x x' ts l : inv V p (L ++ t :: R, x) -> exec x = Some e -> finishing t = 1 -> exec x' = None -> log x' = log x ++ l -> deferred x' = deferred x ->
  Forall (thread_ok V) ts -> (forall d, zsum (tok d) ts = 0) -> (forall d, zsum (undelivered d) ts = 0) -> (forall d, zsum (busy d) ts = 0) ->
  zsum weight ts = 0 -> zsum finisher ts = 0 -> zsum calling ts = 1 -> calling t = 0 ->
  (forall d, undelivered d t = 0) ->
  (forall f : event -> Z, (forall s, f (EvRendezvousAbort s) = 0) -> f EvStartCancel = 0 -> (forall s, f (EvCollectiveAbort s) = 0) -> (forall s, f (EvDevice s) = 0) -> zsum f l = 0) ->
  inv V p (L ++ ts ++ R, x').
Proof using.
  intros Hinv Ee Hft Ex' Hl Hd Hts Htok Hund Hbusy Hw Hf Hc Hct Hut Hz. destruct Hinv as [Hcounts He]. cbn [snd] in He. rewrite Ee in He.
  assert (Hf1 : finisher t = 1) by (by destruct t; try discriminate Hft). destruct (finisher_alone p e L t R x He Hf1) as (HW & HF & _). rewrite zsum_mid in HW.
  pose proof (zsum_nonneg weight L thread_weight_nonneg). pose proof (zsum_nonneg weight R thread_weight_nonneg). pose proof (thread_weight_nonneg t). assert (Hw0 : weight t = 0) by lia.
  assert (Htt : tokens t = []) by (destruct t; try discriminate Hft; try done; cbn [weight tokens] in *; apply nil_length_inv; lia). split.
  - eapply (counts_frame p L t ts R x x' l); try done; intros d; rewrite ?Htok, ?Hund, ?Hbusy, Hz by done; unfold tok; rewrite ?Htt, ?Hut; try done. pose proof (busy_nonneg d t). lia.
  - cbn [snd]. rewrite Ex'. destruct He as [Hp Hin Hout Hfin Hflg Hdef Hfing Hdone Hcall]. cbn [fst snd] in *. rewrite !zsum_mid in *.
    pose proof (zsum_nonneg finishing L finishing_nonneg). pose proof (zsum_nonneg finishing R finishing_nonneg). specialize (Hfing ltac:(lia)).
    split; cbn [fst snd]; rewrite ?zsum_swap, ?Hl, ?zsum_app, ?Hd, ?(Hz done_event) by done; lia.
Qed.

Lemma finish_step p L R x ch rest : inv V p (L ++ Finishing rest :: R, x) ->
  exists ts x', Finish a ch rest x = Done (ts, x') /\ inv V p (L ++ ts ++ R, x').
Proof using.
  intros Hinv. destruct (exec_present p L _ R x Hinv) as (e & Ee & He); [cbn [weight finisher tokens]; lia|].
  destruct (finisher_alone p e L _ R x He eq_refl) as (Hw & Hf & Hflag). rewrite zsum_mid in Hw. cbn [weight tokens] in Hw.
  pose proof (zsum_nonneg weight L thread_weight_nonneg). pose proof (zsum_nonneg weight R thread_weight_nonneg). assert (rest = []) as -> by (apply nil_length_inv; lia).
  assert (Hcb : done_cb_ e = true).
  { pose proof (eo_done _ _ _ _ He) as Hd. cbn [fst] in Hd. rewrite zsum_mid in Hd. assert (zsum syncing L <= zsum finisher L /\ zsum syncing R <= zsum finisher R) as [? ?].
    { split; apply zsum_le; intros t _; destruct t; cbn [syncing finisher]; auto using b2z_nonneg; lia. }
    pose proof (zsum_nonneg syncing L syncing_nonneg). pose proof (zsum_nonneg syncing R syncing_nonneg). cbn [syncing] in Hd. destruct (done_cb_ e); [done|]. simpl in Hd. lia. }
  unfold Finish, with_exec. rewrite Ee, Hcb. cbn [negb]. destruct (allows_sync_on_completion a) eqn:Ea; cbn [negb].
  - destruct (sync_on_finish_ a && ok (status_ e)) eqn:Es.
    + eexists _, _. split; [done|]. split.
      * eapply (counts_frame p L _ [Closure []; Syncing] R x _ []); [apply Hinv|by rewrite app_nil_r|by threads_ok| | |]; intros d; rewrite ?zsum_cons, ?zsum_nil; unfold tok, busy; cbn; lia.
      * cbn [snd set_exec exec]. destruct He as [Hp Hin Hout Hfin Hflg Hdef Hfing Hdone Hcall]. cbn [fst snd] in *. rewrite !zsum_mid in *.
        split; exec_simpl; rewrite ?zsum_swap, ?zsum_cons, ?zsum_nil; cbn [weight finisher finishing syncing calling tokens] in *; try done; try lia.
        rewrite Hcb in Hdone. simpl in *. lia.
    + eexists _, _. split; [done|]. eapply (exec_gone_step p e L _ R x _ _ []); try done; [by rewrite app_nil_r|by threads_ok].
  - eexists _, _. split; [done|]. eapply (exec_gone_step p e L _ R x); try done; [by threads_ok|]. intros f H1 H2 H3 H4. rewrite zsum_cons, H4. destruct (ok _); [done|by rewrite abort_events_sum].
Qed.

Lemma callback_step p L R x s : inv V p (L ++ Callback s :: R, x) -> inv V p (L ++ [] ++ R, emit [EvDone s] x).
Proof using.
  intros [Hc He]. split.
  - eapply (counts_frame p L _ [] R x _ [EvDone s]); [apply Hc|done|by threads_ok| | |]; intros d; rewrite ?zsum_one, ?zsum_nil; unfold tok, busy; cbn; lia.
  - cbn [snd emit exec] in *. destruct (exec x) as [e|].
    + exfalso. pose proof (eo_calling _ _ _ _ He) as Hca. cbn [fst snd] in Hca. rewrite zsum_mid in Hca. cbn [calling] in Hca.
      pose proof (zsum_nonneg calling L calling_nonneg). pose proof (zsum_nonneg calling R calling_nonneg). pose proof (zsum_nonneg done_event (log x) done_nonneg). lia.
    + destruct He as [Ow Of Od Oc]. cbn [fst snd emit log deferred] in *. rewrite !zsum_mid in *. split; cbn [fst snd emit log deferred]; rewrite ?zsum_swap, ?(zsum_app done_event), ?zsum_one, ?zsum_nil; cbn in *; try done; lia.
Qed.

(** ** Every action of a thread *)
Lemma propagate_step p L R x ch k n outputs edges written controls ready : inv V p (L ++ Propagating k n outputs edges written controls ready :: R, x) ->
  exists ts x', propagate V a ch k n outputs edges written controls ready x = Done (ts, x') /\ exists p', inv V p' (L ++ ts ++ R, x').
Proof using Hv.
  intros Hinv. pose proof (co_threads _ _ _ (inv_counts _ _ _ Hinv)) as Hts. cbn [fst] in Hts. rewrite Forall_app, Forall_cons in Hts. destruct Hts as (_ & Ht & _).
  destruct Ht as (Hk & Hlen1 & item & pre & cpre & Hitem & Hlen & Hed & Hco & Hwr). destruct edges as [|ed edges].
  - assert (written = false) as -> by (destruct written; [by destruct (Hwr eq_refl)|done]). destruct controls as [|d controls].
    + destruct (propagated_step p L R x ch k n outputs ready Hinv) as (ts & x' & ? & ?). exists ts, x'. eauto.
    + edestruct (decrement_step p L R x k n outputs [] (d :: controls) ready d [] controls) as (e & r' & e' & p' & Ee & E & Hinv'); [done|done| |].
      { split; [done|]. split; [done|]. exists item, pre, (cpre ++ [d]). rewrite <- app_assoc. by split_and!. }
      unfold propagate, with_exec. rewrite Ee, E. eauto.
  - unfold propagate, with_exec. destruct written.
    + edestruct (decrement_step p L R x k n outputs (ed :: edges) controls ready (dst_id ed) edges controls) as (e & r' & e' & p' & Ee & E & Hinv'); [done|done| |].
      { split; [done|]. split; [done|]. exists item, (pre ++ [ed]), cpre. rewrite <- app_assoc. by split_and!. }
      rewrite Ee, E. eauto.
    + destruct (write_step p L R x k n outputs ed edges controls ready Hinv) as (e & o' & e' & Ee & E & Hinv'). rewrite Ee, E. eauto.
Qed.

Lemma thread_step_ok p L t R x ch : inv V p (L ++ t :: R, x) ->
  exists ts x', thread_step V a ch t x = Done (ts, x') /\ exists p', inv V p' (L ++ ts ++ R, x').
Proof using Hv.
  intros Hinv. pose proof (co_threads _ _ _ (inv_counts _ _ _ Hinv)) as Hts. cbn [fst] in Hts. rewrite Forall_app, Forall_cons in Hts. destruct Hts as (_ & Ht & _).
  assert (Hsame : forall o, (exists ts x', o = Done (ts, x') /\ inv V p (L ++ ts ++ R, x')) -> exists ts x', o = Done (ts, x') /\ exists p', inv V p' (L ++ ts ++ R, x')) by naive_solver.
  destruct t as [ns|rest l|rest l n|n|k n o es wr cs r|k n s|k n s|rest|rest| |s]; cbn [thread_ok] in Ht.
  - apply Hsame. cbn [thread_step]. destruct ns as [|n ns]; eexists _, _; (split; [done|]).
    + eapply inv_local; try done; by threads_ok.
    + destruct (push_back_ok n queue_new queue_new_ok) as [Hq El]. eapply inv_local; try done; try (apply Forall_singleton; by split); try intros d; rewrite zsum_one; unfold tok; cbn [tokens held_cont inline_ready weight]; rewrite ?El; rewrite ?length_app, ?zsum_app, ?zsum_cons, ?zsum_nil; simpl length; cbn; lia.
  - apply Hsame. cbn [thread_step]. destruct Ht as [Hq Hlen]. rewrite queue_empty_list by done. destruct (queue_list (inline_ready l)) as [|n q] eqn:El.
    + rewrite bool_decide_eq_true_2 by done. eexists _, _. split; [done|]. eapply inv_local; try done; try (by apply Forall_singleton; destruct (completed l)); try intros d; rewrite zsum_one; unfold tok, busy; cbn [tokens held_cont weight finisher finishing syncing calling]; rewrite ?El, ?app_nil_r; by destruct (completed l).
    + rewrite bool_decide_eq_false_2 by done. destruct (pop_front_ok n q _ Hq El) as (-> & Hq' & El'). pose proof (at_node_pop rest l n q Hq El) as Ha.
      destruct (at_node_item p L _ R x _ n Ha (inv_counts _ _ _ Hinv)) as [item Hitem]. unfold with_item. rewrite Hitem.
      apply (start_node_step p L (Looping rest l) R); try done.
  - apply Hsame. apply (kernel_done_step p L (Computing rest l n) R); [done|apply at_node_computing|done|left; apply Ht].
  - apply Hsame. apply (kernel_done_step p L (AsyncComputing n) R); [done|apply at_node_async|done|by right].
  - by apply (propagate_step p L R).
  - apply Hsame. by apply failing_step.
  - apply Hsame. by apply failed_step.
  - apply Hsame. by apply schedule_finish_step.
  - apply Hsame. by apply finish_step.
  - apply Hsame. destruct (exec_present p L _ R x Hinv) as (e & Ee & He); [cbn; lia|]. cbn [thread_step]. unfold with_exec. rewrite Ee. eexists _, _. split; [done|].
    eapply (exec_gone_step p e L _ R x); try done; [by threads_ok|]. intros f H1 H2 H3 H4. by rewrite zsum_one.
  - apply Hsame. eexists _, _. split; [done|]. by apply callback_step.
Qed.

(** ** Deferred operations *)
Lemma defer_step p w i t : inv V p w -> w.1 !! i = Some t -> running t = true ->
  exists x', inc_num_deferred_ops w.2 = Done x' /\ inv V p (w.1, x').
Proof using.
  destruct w as [ts x]. intros Hinv Hi Hr. cbn [fst snd] in *. pose proof (take_drop_middle ts i t Hi) as Hts. rewrite <- Hts in Hinv. assert (Hw : 0 < weight t) by (destruct t; try discriminate Hr; cbn; lia).
  destruct (exec_present p _ t _ x Hinv) as (e & Ee & He); [pose proof (finisher_nonneg t); lia|]. rewrite Hts in Hinv, He. unfold inc_num_deferred_ops, with_exec. rewrite Ee. eexists. split; [done|].
  assert (HW : 0 < zsum weight ts) by (pose proof (zsum_elem weight ts t thread_weight_nonneg (list_elem_of_lookup_2 _ _ _ Hi)); lia).
  destruct Hinv as [[C1 C2 C3 C4 C5 C6 C7] _]. split; [by split|]. cbn [snd exec]. destruct He as [Hp Hin Hout Hfin Hflg Hdef Hfing Hdone Hcall]. cbn [fst snd] in *.
  assert (Hff : finish_when_deferred_ops_done_ e = false) by (destruct (finish_when_deferred_ops_done_ e); [lia|done]). rewrite Hff in *. rewrite (proj2 (Z.eqb_neq (zsum weight ts) 0)) in Hfin by lia.
  pose proof (zsum_le finishing finisher ts (fun t _ => finishing_finisher t)). simpl in Hfin.
  split; exec_simpl; rewrite ?Hff; try done; try lia. rewrite (proj2 (Z.eqb_neq (zsum weight ts) 0)) by lia. simpl. lia.
Qed.

Lemma undefer_step p w : inv V p w -> (0 < deferred w.2)%nat -> exists ts' x', dec_num_deferred_ops w.2 = Done (ts', x') /\ inv V p (w.1 ++ ts', x').
Proof using.
  destruct w as [ts x]. intros [Hc He] Hd. cbn [fst snd] in *. unfold dec_num_deferred_ops, with_exec. destruct (exec x) as [e|] eqn:Ee; [|destruct He as [_ _ Od _]; cbn in Od; lia].
  eexists _, _. split; [done|]. destruct He as [Hp Hin Hout Hfin Hflg Hdef Hfing Hdone Hcall]. cbn [fst snd] in *.
  pose proof (zsum_nonneg finishing ts finishing_nonneg). assert (Hf0 : zsum finishing ts = 0) by (destruct (decide (0 < zsum finishing ts)) as [Hf|]; [specialize (Hfing Hf); lia|lia]).
  rewrite (proj2 (Z.ltb_lt 0 (num_deferred_ops_ e))) in Hfin by lia. rewrite andb_true_r in Hfin.
  set (ts' := if (num_deferred_ops_ e - 1 =? 0) && finish_when_deferred_ops_done_ e then [Finishing []] else []). assert (Hts' : forall f : thread -> Z, zsum f ts' = if (num_deferred_ops_ e - 1 =? 0) && finish_when_deferred_ops_done_ e then f (Finishing []) else 0).
  { intros f. unfold ts'. destruct (_ && _); [by rewrite zsum_one|done]. }
  split.
  - destruct Hc as [C1 C2 C3 C4 C5 C6 C7]. cbn [fst snd] in *.
    assert (Hz : forall f : thread -> Z, f (Finishing []) = 0 -> zsum f (ts ++ ts') = zsum f ts) by (intros f Hf; rewrite zsum_app, Hts', Hf; destruct (_ && _); lia).
    split; exec_simpl; [done|exact C2|rewrite Forall_app; split; [done|unfold ts'; destruct (_ && _); by threads_ok]|..]; intros; rewrite Hz by done; auto.
  - cbn [snd exec]. split; exec_simpl; rewrite ?zsum_app, ?Hts'; try done;
      destruct (Z.eqb_spec (num_deferred_ops_ e - 1) 0), (finish_when_deferred_ops_done_ e); cbn [andb weight finisher finishing syncing calling tokens]; simpl length; try done; try lia.
    + rewrite (proj2 (Z.ltb_ge 0 _)) by lia. simpl in *. rewrite !Z.add_0_r. lia.
    + rewrite !Z.add_0_r. simpl in *. lia.
    + rewrite (proj2 (Z.ltb_lt 0 _)) by lia. rewrite !Z.add_0_r. simpl in *. lia.
    + rewrite !Z.add_0_r. simpl in *. lia.
Qed.

(** ** Pools *)
Lemma perform_ok p act w : inv V p w -> enabled act w = true -> exists w', perform V a act w = Done w' /\ exists p', inv V p' w'.
Proof using Hv.
  intros Hinv He. destruct act as [i ch|i|]; cbn [enabled perform] in *.
  - apply Nat.ltb_lt, lookup_lt_is_Some_2 in He as [t Ht]. rewrite Ht. destruct w as [ts x]. cbn [fst snd] in *. rewrite <- (take_drop_middle ts i t Ht) in Hinv.
    destruct (thread_step_ok p _ t _ x ch Hinv) as (ts' & x' & -> & p' & Hinv'). eauto.
  - destruct (w.1 !! i) as [t|] eqn:Ht; [|done]. destruct (defer_step p w i t Hinv Ht He) as (x' & -> & ?). eauto.
  - apply Nat.ltb_lt in He. destruct (undefer_step p w Hinv He) as (ts' & x' & -> & ?). eauto.
Qed.

(** ** The start *)
Lemma occ_count (l : list nat) d : NoDup l -> zsum (occ d) l = Z.b2z (bool_decide (d ∈ l)).
Proof using.
  induction 1 as [|n l Hn _ IH]; [done|]. rewrite zsum_cons, IH. unfold occ. destruct (decide (n = d)) as [->|Hne].
  - rewrite (bool_decide_eq_false_2 (d ∈ l)), bool_decide_eq_true_2; [done|left|done].
  - rewrite Z.add_0_l. f_equal. apply bool_decide_ext. rewrite elem_of_cons. naive_solver.
Qed.

Lemma start_counts ts x : Forall (thread_ok V) ts -> (forall d, zsum (tok d) ts = zsum (occ d) (root_nodes V)) -> (forall d, zsum (undelivered d) ts = 0) ->
  (forall d, zsum (busy d) ts = 0) -> (forall d, zsum (ended d) (log x) = 0) -> (forall d, zsum (sent V d) (log x) = 0) -> counts_ok V (atomic_pending_counts_ V) (ts, x).
Proof using Hv.
  intros Hts Htok Hund Hb Hen Hse. assert (Hroot : forall d, zsum (occ d) (root_nodes V) = Z.b2z (bool_decide (d ∈ root_nodes V))) by (intros; apply occ_count, Hv).
  split; cbn [fst snd]; try done.
  - intros d c Hd Ec. rewrite (vo_pending _ Hv d Hd) in Ec. by simplify_eq.
  - intros d c Hd Ec. rewrite (vo_pending _ Hv d Hd) in Ec. simplify_eq. rewrite Hse, Hund. lia.
  - intros d c Hd Ec. rewrite (vo_pending _ Hv d Hd) in Ec. simplify_eq. rewrite Hen, Htok, Hroot, Z.add_0_r. f_equal.
    destruct (Z.eqb_spec (indegree V d) 0); [apply bool_decide_eq_true_2|apply bool_decide_eq_false_2]; rewrite (vo_root _ Hv); tauto.
  - intros d Hd. rewrite Hen, Htok, Hroot, bool_decide_eq_false_2; [done|]. rewrite (vo_root _ Hv), Hd. naive_solver.
  - intros d. by rewrite Hb, Hen.
Qed.

Lemma step_start_inv r0 : inv V (atomic_pending_counts_ V) (RunAsync V a StatusOK r0).
Proof using Hv.
  unfold RunAsync. cbn [ok ActivateRoots app]. destruct (root_nodes V) as [|r rs] eqn:Er.
  - split; [|by split]. apply start_counts; try done; by rewrite Er.
  - rewrite <- Er. destruct (ScheduleReady a (fun _ => false) (root_nodes V) None) as [q tasks] eqn:Es. destruct (ScheduleReady_ok _ _ None _ _ I Es) as (_ & Hq & Hp).
    destruct q as [q|]; [by destruct (proj1 Hq ltac:(eauto))|]. cbn [opt_queue_list app snd] in *.
    assert (Hsum : forall f : thread -> Z, (forall ns, f (Closure ns) = 0) -> zsum f (map Closure tasks) = 0) by (intros f Hf; rewrite zsum_map; by apply zsum_0).
    assert (Hc : counts_ok V (atomic_pending_counts_ V) (map Closure tasks, mkShared (Some (with_done_cb true (with_outstanding (int32 (Z.of_nat (length (root_nodes V)))) (ExecutorState_new V)))) r0 0 [])).
    { apply start_counts; try done; [apply Forall_fmap, Forall_true; done|..]; intros d; try (by apply Hsum). unfold tok. rewrite pool_occ, map_map. cbn [tokens]. rewrite map_id. by apply zsum_perm. }
    assert (Hw : zsum weight (map Closure tasks) = Z.of_nat (length (root_nodes V))).
    { rewrite zsum_map. cbn [weight tokens]. rewrite (zsum_length (fun l => l)), map_id. f_equal. by apply Permutation_length. }
    split; [done|]. cbn [snd exec]. pose proof (weight_bound V Hv _ _ Hc) as Hb. cbn [fst] in Hb. pose proof (vo_size _ Hv). rewrite Hw in Hb.
    split; exec_simpl;
      rewrite ?Hw, ?(Hsum finisher), ?(Hsum syncing), ?(Hsum calling), ?zsum_nil by done; try done; [by rewrite length_replicate|by rewrite int32_in_range by lia|].
    rewrite Er. simpl length. by rewrite (proj2 (Z.eqb_neq _ 0)) by lia.
Qed.

Lemma reachable_inv r0 w : reachable V a StatusOK r0 w -> exists p, inv V p w.
Proof using Hv.
  induction 1 as [|w act w' _ [p Hinv] He Hp]; [eexists; apply step_start_inv|]. destruct (perform_ok p act w Hinv He) as (w1 & E & p' & ?). assert (w1 = w') as <- by congruence. eauto.
Qed.
End Frames.
