(* ===== verification/ExecutorData.v ===== *)
(** * What travels along the edges

    The outputs of a node reach the inputs of its destinations unchanged,
    although the last reader of an output gets it by a move, and are there when
    the destination starts. *)
From S2P Require Import Prelude PendingCounts Counting GraphView Executor ExecutorInv ExecutorSteps.
From stdpp Require Import list gmap options.
#[local] Open Scope Z_scope.

(** ** Nodes that have started *)
Definition started (d : nat) (t : thread) : Z :=
  match t with Computing _ _ n | AsyncComputing n | Failing _ n _ => occ d n | _ => 0 end.

Definition start_event (d : nat) (ev : event) : Z := match ev with EvStart n _ => occ d n | _ => 0 end.

Lemma started_nonneg d t : 0 <= started d t.
Proof. destruct t; cbn [started]; auto using occ_nonneg; lia. Qed.

Lemma start_event_nonneg d ev : 0 <= start_event d ev.
Proof. destruct ev; cbn [start_event]; auto using occ_nonneg; lia. Qed.

Lemma started_tok d t : started d t <= tok d t.
Proof.
  destruct t; cbn [started]; auto using tok_nonneg; unfold tok; cbn [tokens]; rewrite zsum_cons; [| |];
    match goal with |- context [zsum (occ d) ?l] => pose proof (zsum_nonneg (occ d) l (occ_nonneg d)) end; lia.
Qed.

(** A node whose inputs are still to be read. *)
Definition fresh (d : nat) (w : world) : Prop := zsum (started d) w.1 + zsum (ended d) (log w.2) = 0.

(** The edges of [n] that a thread has yet to write. *)
Definition todo (n : nat) (t : thread) : list EdgeInfo :=
  match t with
  | Propagating _ m _ edges written _ _ => if decide (m = n) then if written then tail edges else edges else []
  | _ => []
  end.

Section Data.
Context (V : ImmutableExecutorState) (Hv : view_ok V) (a : Args).

(** The outputs a thread holds for edges to be written are those of its node. *)
Definition held_ok (log : list event) (t : thread) : Prop :=
  match t with
  | Propagating _ n outputs _ _ _ _ =>
      exists outs, EvOutputs n outs ∈ log /\ forall ed, ed ∈ todo n t -> outputs !! output_slot ed = outs !! output_slot ed
  | _ => True
  end.

Record data_ok (e : ExecutorState) (w : world) : Prop := {
  do_delivered n item ed outs : item_at V n item -> ed ∈ output_edges item -> EvOutputs n outs ∈ log w.2 -> fresh (dst_id ed) w ->
    (exists t, t ∈ w.1 /\ ed ∈ todo n t) \/ input_tensors_ e !! input_slot ed = outs !! output_slot ed;
  do_held : Forall (held_ok (log w.2)) w.1
}.

(** Nodes start once, after the nodes before them and on their outputs. *)
Definition preds_sent (log : list event) (d : nat) : Prop := forall n, d ∈ dests_of V n -> n ∈ sent_nodes log.

Definition start_ok (log : list event) (d : nat) (ins : list KernelInput) : Prop :=
  exists item refs entries, item_at V d item /\ length entries = item_inputs item /\ ok (prep_status (PrepareInputs item refs 0 entries)) = true /\
    ins = prep_inputs (PrepareInputs item refs 0 entries) /\
    forall n ed, ed ∈ edges_of V n -> dst_id ed = d ->
      exists outs, EvOutputs n outs ∈ log /\ entries !! (input_slot ed - input_start item)%nat = outs !! output_slot ed.

Record log_ok (w : world) : Prop := {
  lo_start l1 d ins l2 : log w.2 = l1 ++ EvStart d ins :: l2 -> preds_sent l1 d /\ start_ok l1 d ins;
  lo_outputs l1 d outs l2 : log w.2 = l1 ++ EvOutputs d outs :: l2 -> preds_sent l1 d;
  lo_once d : zsum (start_event d) (log w.2) <= zsum (started d) w.1 + zsum (ended d) (log w.2)
}.

(** ** A node with a thread has all its inputs *)
Lemma sublist_full (f : nat -> Z) l k n : (forall x, 0 <= f x) -> NoDup l -> (forall x, x ∈ l -> x ∈ k) -> zsum f k <= zsum f l -> n ∈ k -> 0 < f n -> n ∈ l.
Proof using.
  intros Hf Hl Hk Hle Hn Hpos. destruct (decide (n ∈ l)) as [|Hnl]; [done|]. exfalso.
  pose proof (zsum_sublist f (n :: l) k Hf ltac:(by constructor) ltac:(intros x [->|Hx]%elem_of_cons; auto)) as H. rewrite zsum_cons in H. lia.
Qed.

Lemma ready_preds p w d : counts_ok V p w -> 0 < zsum (tok d) w.1 -> preds_sent (log w.2) d /\ zsum (undelivered d) w.1 = 0.
Proof using Hv.
  intros Hc Ht. pose proof (node_once V Hv p w d Hc) as Ho. pose proof (zsum_nonneg _ (log w.2) (ended_nonneg d)).
  assert (Hd : is_item V d = true) by (destruct (is_item V d); [done|simpl in Ho; lia]). destruct (item_pending V Hv p w d Hc Hd) as [c Ec].
  pose proof (co_node _ _ _ Hc d c Hd Ec) as Hnode. destruct (Z.eqb_spec c 0) as [->|]; [|simpl in Hnode; lia].
  pose proof (co_count _ _ _ Hc d 0 Hd Ec) as Hcount. pose proof (sent_bound V Hv p w d Hc). pose proof (zsum_nonneg _ w.1 (undelivered_nonneg d)). split; [|lia].
  intros n Hn. destruct (sent_nodes_once V Hv p w Hc) as [Hnd Hi]. apply (sublist_full (fun n => zsum (occ d) (dests_of V n)) _ (all_nodes V)); try done.
  - intros; auto with exec_pos.
  - intros m Hm. apply elem_of_seq. split; [lia|]. by apply is_item_lt, Hi.
  - rewrite <- sent_nodes_sum. fold (indegree V d). lia.
  - apply elem_of_seq. split; [lia|]. unfold dests_of in Hn. destruct (gview V !! n) eqn:E; [by eapply lookup_lt_Some|by apply not_elem_of_nil in Hn].
  - by apply occ_elem.
Qed.

Lemma sent_nodes_elem n l : n ∈ sent_nodes l <-> exists outs, EvOutputs n outs ∈ l.
Proof using.
  unfold sent_nodes. rewrite list_elem_of_omap. split.
  - intros (ev & Hev & E). destruct ev; simplify_eq. eauto.
  - intros [outs H]. by exists (EvOutputs n outs).
Qed.

(** ** Frames *)
Lemma fresh_mono L t ts R x x' l d : log x' = log x ++ l -> started d t <= zsum (started d) ts + zsum (ended d) l ->
  fresh d (L ++ ts ++ R, x') -> fresh d (L ++ t :: R, x).
Proof using.
  intros Hl Hs. unfold fresh. cbn [fst snd]. rewrite Hl, zsum_swap, zsum_mid, zsum_app. pose proof (zsum_nonneg _ ts (started_nonneg d)). pose proof (zsum_nonneg _ l (ended_nonneg d)).
  pose proof (zsum_nonneg _ L (started_nonneg d)). pose proof (zsum_nonneg _ R (started_nonneg d)). pose proof (zsum_nonneg _ (log x) (ended_nonneg d)). pose proof (started_nonneg d t). lia.
Qed.

Lemma held_ok_app l k t : held_ok l t -> held_ok (l ++ k) t.
Proof using. destruct t; cbn [held_ok]; try done. intros (outs & Ho & ?). exists outs. split; [apply elem_of_app; by left|done]. Qed.

Lemma data_frame e e' L t ts R x x' l : data_ok e (L ++ t :: R, x) -> log x' = log x ++ l ->
  (forall d, started d t <= zsum (started d) ts + zsum (ended d) l) ->
  (forall d item i, item_at V d item -> fresh d (L ++ ts ++ R, x') -> (input_start item <= i < input_start item + item_inputs item)%nat ->
    input_tensors_ e' !! i = input_tensors_ e !! i) ->
  (forall n ed, ed ∈ todo n t -> exists t', t' ∈ ts /\ ed ∈ todo n t') ->
  (forall n outs, EvOutputs n outs ∈ l -> exists t', t' ∈ ts /\ todo n t' = edges_of V n) ->
  Forall (held_ok (log x')) ts ->
  data_ok e' (L ++ ts ++ R, x').
Proof using Hv.
  intros [Hd Hh] Hl Hs Hin Htodo Hout Hts. cbn [fst snd] in *. split; cbn [fst snd].
  - intros n item ed outs Hn Hed Ho Hf. rewrite Hl, elem_of_app in Ho. destruct Ho as [Ho|Ho].
    + pose proof (fresh_mono L t ts R x x' l (dst_id ed) Hl (Hs _) Hf) as Hf0. destruct (Hd n item ed outs Hn Hed Ho Hf0) as [(t' & Ht' & Hed')|He].
      * left. rewrite elem_of_app, elem_of_cons in Ht'. destruct Ht' as [Ht'|[->|Ht']]; [exists t'; set_solver| |exists t'; set_solver].
        destruct (Htodo n ed Hed') as (t1 & ? & ?). exists t1. set_solver.
      * right. destruct (vo_edge _ Hv n item ed Hn Hed) as (_ & d & Hdi & Hr). by rewrite (Hin _ _ _ Hdi Hf Hr).
    + left. destruct (Hout n outs Ho) as (t' & ? & Ht'). exists t'. rewrite Ht', (edges_of_item V n item Hn). set_solver.
  - rewrite Forall_app, Forall_cons in Hh. rewrite !Forall_app. rewrite Hl in *. split_and!; [|done|]; (eapply Forall_impl; [apply Hh|]; intros; by apply held_ok_app).
Qed.

Lemma log_frame L t ts R x x' l : log_ok (L ++ t :: R, x) -> log x' = log x ++ l ->
  (forall d, zsum (start_event d) l + started d t <= zsum (started d) ts + zsum (ended d) l) ->
  (forall d outs, EvOutputs d outs ∈ l -> l = [EvOutputs d outs] /\ preds_sent (log x) d) ->
  (forall d ins, EvStart d ins ∈ l -> l = [EvStart d ins] /\ preds_sent (log x) d /\ start_ok (log x) d ins) ->
  log_ok (L ++ ts ++ R, x').
Proof using.
  intros [Hs Ho Hone] Hl Hc Hout Hstart. cbn [fst snd] in *.
  assert (Hsplit : forall l1 ev l2, log x ++ l = l1 ++ ev :: l2 -> (exists l2', log x = l1 ++ ev :: l2') \/ ev ∈ l /\ (l = [ev] -> log x = l1)).
  { intros l1 ev l2 E. apply app_eq_app in E as [k [[E1 E2]|[E1 E2]]].
    - destruct k as [|u k]; cbn in E2; [right; rewrite <- E2; split; [left|]; intros _; by rewrite E1, app_nil_r|]. simplify_eq. left. eauto.
    - right. rewrite E2. split; [apply elem_of_app; right; left|]. intros E. destruct k as [|u k]; [by rewrite E1, app_nil_r|]. apply (f_equal length) in E. simpl in E. rewrite length_app in E. simpl in E. lia. }
  split; cbn [fst snd]; rewrite Hl.
  - intros l1 d ins l2 E. destruct (Hsplit _ _ _ E) as [[l2' E']|[Hin E']]; [by eapply Hs|]. destruct (Hstart d ins Hin) as (El & ?). by rewrite <- (E' El).
  - intros l1 d outs l2 E. destruct (Hsplit _ _ _ E) as [[l2' E']|[Hin E']]; [by eapply Ho|]. destruct (Hout d outs Hin) as (El & ?). by rewrite <- (E' El).
  - intros d. specialize (Hone d). specialize (Hc d). rewrite zsum_swap, !zsum_app. rewrite zsum_mid in Hone. lia.
Qed.

Definition data_inv (w : world) : Prop := (forall e, exec w.2 = Some e -> data_ok e w) /\ log_ok w.

Definition quiet (ev : event) : bool := match ev with EvStart _ _ | EvOutputs _ _ => false | _ => true end.

(** Actions that touch no entry. *)
Lemma quiet_step L t ts R x x' l : data_inv (L ++ t :: R, x) -> log x' = log x ++ l -> forallb quiet l = true ->
  (forall e', exec x' = Some e' -> exists e, exec x = Some e /\ input_tensors_ e' = input_tensors_ e) ->
  (forall d, started d t <= zsum (started d) ts + zsum (ended d) l) ->
  (forall n ed, ed ∈ todo n t -> exists t', t' ∈ ts /\ ed ∈ todo n t') -> Forall (held_ok (log x')) ts ->
  data_inv (L ++ ts ++ R, x').
Proof using Hv.
  intros [Hd Hlo] Hl Hq He Hs Htodo Hts. rewrite forallb_forall in Hq.
  assert (Hno : forall ev, ev ∈ l -> quiet ev = true) by (intros ev Hev; apply Hq, list_elem_of_In, Hev). split; cbn [snd].
  - intros e' Ee'. destruct (He e' Ee') as (e & Ee & Ein). apply (data_frame e e' L t ts R x x' l); try done; [by apply Hd|by rewrite Ein|]. intros n outs Hin. by specialize (Hno _ Hin).
  - apply (log_frame L t ts R x x' l); try done.
    + intros d. rewrite (zsum_0 (start_event d) l); [by apply Hs|]. intros ev Hev. specialize (Hno ev Hev). by destruct ev.
    + intros d outs Hin. by specialize (Hno _ Hin).
    + intros d outs Hin. by specialize (Hno _ Hin).
Qed.

Lemma at_node_token t k n L R : at_node t k n -> 0 < zsum (tok n) (L ++ t :: R).
Proof using.
  intros Ht. rewrite zsum_mid, (an_tok _ _ _ Ht), occ_self. pose proof (zsum_nonneg _ L (tok_nonneg n)). pose proof (zsum_nonneg _ R (tok_nonneg n)).
  pose proof (zsum_nonneg (occ n) (held_cont k) (occ_nonneg n)). lia.
Qed.

(** A node that just started or ended is not fresh. *)
Lemma not_fresh L ts R x d : 0 < zsum (started d) ts + zsum (ended d) (log x) -> ~ fresh d (L ++ ts ++ R, x).
Proof using.
  intros Hp Hf. unfold fresh in Hf. cbn [fst snd] in Hf. rewrite zsum_swap in Hf. pose proof (zsum_nonneg _ L (started_nonneg d)). pose proof (zsum_nonneg _ R (started_nonneg d)). lia.
Qed.

Lemma finish_node_data p L t R x k n item s outputs ts x' : inv V p (L ++ t :: R, x) -> data_inv (L ++ t :: R, x) -> at_node t k n ->
  (forall d, started d t <= occ d n) -> (forall m, todo m t = []) -> item_at V n item -> finish_node k n item s outputs x = Done (ts, x') -> data_inv (L ++ ts ++ R, x').
Proof using Hv.
  intros Hinv [Hd Hlo] Ht Hst Htd Hitem E. destruct (exec_present V p L t R x Hinv) as (e & Ee & He); [rewrite (an_weight _ _ _ Ht); pose proof (finisher_nonneg t); lia|].
  unfold finish_node, with_exec in E. rewrite Ee in E. destruct (clear_entries_spec (input_start item) (item_inputs item) (input_tensors_ e)) as (l' & El' & _ & Hout & _).
  { rewrite (eo_inputs _ _ _ _ He). by apply (vo_range _ Hv n). }
  rewrite El' in E. destruct (ready_preds p _ n (inv_counts _ _ _ Hinv) (at_node_token t k n L R Ht)) as [Hpreds _].
  assert (Hrange : forall d di i, item_at V d di -> d <> n -> (input_start di <= i < input_start di + item_inputs di)%nat -> l' !! i = input_tensors_ e !! i).
  { intros d di i Hdi Hne Hi. apply Hout. intros Hin. by apply (vo_disjoint _ Hv n d item di i). }
  assert (Hin : forall x1 d di i, 0 < zsum (started n) ts + zsum (ended n) (log x1) -> item_at V d di -> fresh d (L ++ ts ++ R, x1) ->
    (input_start di <= i < input_start di + item_inputs di)%nat -> l' !! i = input_tensors_ e !! i).
  { intros x1 d di i Hp Hdi Hf Hi. eapply Hrange; try done. intros ->. by apply (not_fresh L ts R x1 n). }
  destruct (ok s).
  - simplify_eq. split; cbn [snd emit set_exec exec].
    + intros e' [= <-]. eapply (data_frame e _ L t _ R x _ [EvOutputs n outputs]); [by apply Hd|done| | | | |].
      * intros d. rewrite !zsum_one. cbn [started ended]. apply Hst.
      * intros d di i. apply Hin. cbn [log emit set_exec]. rewrite zsum_app, !zsum_one. cbn [started ended]. rewrite occ_self. pose proof (zsum_nonneg _ (log x) (ended_nonneg n)). lia.
      * intros m ed. rewrite Htd. by intros ?%not_elem_of_nil.
      * intros m outs Hm%list_elem_of_singleton. simplify_eq. eexists. split; [by apply list_elem_of_singleton|]. cbn [todo]. rewrite decide_True by done. by rewrite (edges_of_item V n item).
      * apply Forall_singleton. exists outputs. split; [apply elem_of_app; right; by left|done].
    + eapply (log_frame L t _ R x _ [EvOutputs n outputs]); try done.
      * intros d. rewrite !zsum_one. cbn [start_event started ended]. specialize (Hst d). lia.
      * intros d outs Hm%list_elem_of_singleton. by simplify_eq.
      * intros d ins H%list_elem_of_singleton. done.
  - destruct (clear_outputs k item outputs) as [o| |]; [|done..]. simplify_eq. split; cbn [snd set_exec exec].
    + intros e' [= <-]. eapply (data_frame e _ L t _ R x _ []); [by apply Hd|by rewrite app_nil_r| | | | |].
      * intros d. rewrite zsum_one, zsum_nil. cbn [started]. specialize (Hst d). lia.
      * intros d di i. apply Hin. cbn [log set_exec]. rewrite zsum_one. cbn [started]. rewrite occ_self. pose proof (zsum_nonneg _ (log x) (ended_nonneg n)). lia.
      * intros m ed. rewrite Htd. by intros ?%not_elem_of_nil.
      * by intros m outs ?%not_elem_of_nil.
      * by apply Forall_singleton.
    + eapply (log_frame L t _ R x _ []); try done; [by rewrite app_nil_r| | |]; try (by intros d ? ?%not_elem_of_nil). intros d. rewrite zsum_one, !zsum_nil. cbn [started]. specialize (Hst d). lia.
Qed.

(** An edge to be written is not delivered. *)
Lemma todo_undelivered n ed t : ed ∈ todo n t -> 0 < undelivered (dst_id ed) t.
Proof using.
  destruct t as [| | | |k m o es wr cs r| | | | | |]; cbn [todo]; try (by intros ?%not_elem_of_nil). destruct (decide (m = n)); [|by intros ?%not_elem_of_nil]. intros Hed.
  cbn [undelivered]. apply occ_elem. rewrite elem_of_app. left. apply list_elem_of_fmap. exists ed. split; [done|]. destruct wr; [|done]. destruct es; [done|]. by right.
Qed.

(** The inputs of a node that is about to start are the outputs of the nodes before it. *)
Lemma inputs_ready p e L t R x n item : inv V p (L ++ t :: R, x) -> data_ok e (L ++ t :: R, x) -> 0 < tok n t -> started n t = 0 -> item_at V n item ->
  forall m ed, ed ∈ edges_of V m -> dst_id ed = n -> exists outs, EvOutputs m outs ∈ log x /\ input_tensors_ e !! input_slot ed = outs !! output_slot ed.
Proof using Hv.
  intros Hinv Hd Ht Hst Hitem m ed Hed Hdst. pose proof (inv_counts _ _ _ Hinv) as Hc.
  assert (Htok : 0 < zsum (tok n) (L ++ t :: R)) by (rewrite zsum_mid; pose proof (zsum_nonneg _ L (tok_nonneg n)); pose proof (zsum_nonneg _ R (tok_nonneg n)); lia).
  destruct (ready_preds p _ n Hc Htok) as [Hpreds Hund]. cbn [fst snd] in *. unfold edges_of in Hed. destruct (gview V !! m) as [[mi|]|] eqn:Em; try (by apply not_elem_of_nil in Hed).
  assert (Hm : m ∈ sent_nodes (log x)).
  { apply Hpreds. rewrite (dests_of_item V m mi Em). unfold dests. apply elem_of_app. left. apply list_elem_of_fmap. eauto. }
  apply sent_nodes_elem in Hm as [outs Ho]. exists outs. split; [done|]. destruct (do_delivered _ _ Hd m mi ed outs Em Hed Ho) as [(t' & Ht' & Hin)|]; [| |done].
  - unfold fresh. cbn [fst snd]. pose proof (node_once V Hv p _ n Hc) as Hone. cbn [fst snd] in Hone. rewrite Hdst, !zsum_mid, Hst in *.
    pose proof (zsum_le (started n) (tok n) L (fun t _ => started_tok n t)). pose proof (zsum_le (started n) (tok n) R (fun t _ => started_tok n t)).
    pose proof (zsum_nonneg _ L (started_nonneg n)). pose proof (zsum_nonneg _ R (started_nonneg n)). pose proof (zsum_nonneg _ (log x) (ended_nonneg n)). destruct (is_item V n); simpl in Hone; lia.
  - exfalso. apply todo_undelivered in Hin. rewrite Hdst in Hin. pose proof (zsum_elem (undelivered n) _ t' (undelivered_nonneg n) Ht') as Hle. cbn [fst] in Hle. lia.
Qed.

Lemma splice_lookup {A} (l m : list A) i n j : (i + n <= length l)%nat -> length m = n -> ~ (i <= j < i + n)%nat -> (take i l ++ m ++ drop (i + n) l) !! j = l !! j.
Proof using.
  intros Hl Hm Hj. destruct (decide (j < i)%nat) as [Hlt|Hge].
  - rewrite lookup_app_l by (rewrite length_take; lia). by rewrite lookup_take_lt by lia.
  - rewrite lookup_app_r, lookup_app_r, lookup_drop by (rewrite ?length_take; lia). f_equal. rewrite length_take. lia.
Qed.

Lemma launch_kernel_data p L t R x rest l n item ts x' : inv V p (L ++ t :: R, x) -> data_inv (L ++ t :: R, x) -> at_node t (InLoop rest l) n ->
  (forall d, started d t = 0) -> (forall m, todo m t = []) -> item_at V n item -> launch_kernel rest l n item x = Done (ts, x') -> data_inv (L ++ ts ++ R, x').
Proof using Hv.
  intros Hinv [Hd Hlo] Ht Hst Htd Hitem E. destruct (exec_present V p L t R x Hinv) as (e & Ee & He); [rewrite (an_weight _ _ _ Ht); pose proof (finisher_nonneg t); lia|].
  unfold launch_kernel, with_exec in E. rewrite Ee in E. cbv zeta in E. pose proof (vo_range _ Hv n item Hitem) as Hr. rewrite <- (eo_inputs _ _ _ _ He) in Hr.
  rewrite (proj2 (Nat.ltb_ge (length (input_tensors_ e)) (input_start item + item_inputs item)) Hr) in E. cbn [snd] in Hd. specialize (Hd e Ee).
  set (entries := take (item_inputs item) (drop (input_start item) (input_tensors_ e))) in *. set (pr := PrepareInputs item (refs x) 0 entries) in *.
  assert (Hlen : length entries = item_inputs item) by (unfold entries; rewrite length_take, length_drop; lia).
  set (ins := take (input_start item) (input_tensors_ e) ++ prep_entries pr ++ drop (input_start item + item_inputs item) (input_tensors_ e)) in *.
  assert (Hins : forall d di i, item_at V d di -> d <> n -> (input_start di <= i < input_start di + item_inputs di)%nat -> ins !! i = input_tensors_ e !! i).
  { intros d di i Hdi Hne Hi. apply splice_lookup; [done|unfold pr; by rewrite prepare_length|]. intros Hin. by apply (vo_disjoint _ Hv n d item di i). }
  assert (Htok : 0 < tok n t) by (rewrite (an_tok _ _ _ Ht), occ_self; pose proof (zsum_nonneg (occ n) (held_cont (InLoop rest l)) (occ_nonneg n)); lia).
  pose proof (inputs_ready p e L t R x n item Hinv Hd Htok (Hst n) Hitem) as Hready.
  destruct (ready_preds p _ n (inv_counts _ _ _ Hinv) (at_node_token t _ n L R Ht)) as [Hpreds _]. cbn [snd] in Hpreds.
  assert (Hnf : forall x1 d, 0 < zsum (started n) ts -> fresh d (L ++ ts ++ R, x1) -> d <> n).
  { intros x1 d Hp Hf ->. apply (not_fresh L ts R x1 n); [|done]. pose proof (zsum_nonneg _ (log x1) (ended_nonneg n)). lia. }
  destruct (ok (prep_status pr)) eqn:Eok.
  - assert (Hts : (forall d, zsum (started d) ts = occ d n) /\ Forall (held_ok (log x')) ts /\ x' = emit [EvStart n (prep_inputs pr)] (set_exec (with_inputs ins e) x)).
    { destruct (kernel_is_async item); simplify_eq; (split; [intros d; rewrite ?zsum_cons, ?zsum_nil; cbn [started]; lia|split; [by repeat constructor|done]]). }
    destruct Hts as (Hs & Hh & ->). split; cbn [snd emit set_exec exec].
    + intros e' [= <-]. eapply (data_frame e _ L t _ R x _ [EvStart n (prep_inputs pr)]); try done.
      * intros d. rewrite Hs, Hst, zsum_one. cbn [ended]. pose proof (occ_nonneg d n). lia.
      * intros d di i Hdi Hf Hi. eapply Hins; try done. eapply Hnf; [|done]. rewrite Hs, occ_self. lia.
      * intros m ed. rewrite Htd. by intros ?%not_elem_of_nil.
      * intros m outs H%list_elem_of_singleton. done.
    + eapply (log_frame L t _ R x _ [EvStart n (prep_inputs pr)]); try done.
      * intros d. rewrite Hs, Hst, !zsum_one. cbn [start_event ended]. lia.
      * intros d outs H%list_elem_of_singleton. done.
      * intros d ins' H%list_elem_of_singleton. simplify_eq. split; [done|]. split; [done|]. exists item, (refs x), entries. split_and!; try done.
        intros m ed Hed Hdst. destruct (Hready m ed Hed Hdst) as (outs & Ho & Hval). exists outs. split; [done|]. rewrite <- Hval.
        unfold edges_of in Hed. destruct (gview V !! m) as [[mi|]|] eqn:Em; try (by apply not_elem_of_nil in Hed). destruct (vo_edge _ Hv m mi ed Em Hed) as (_ & di & Hdi & Hi).
        rewrite Hdst in Hdi. unfold item_at in Hdi, Hitem. rewrite Hitem in Hdi. simplify_eq. unfold entries. rewrite lookup_take_lt, lookup_drop by lia. f_equal. lia.
  - destruct (clear_entries_spec (input_start item) (item_inputs item) ins) as (l' & El' & _ & Hout & _).
    { unfold ins, pr. rewrite !length_app, prepare_length, Hlen, length_take, length_drop. lia. }
    rewrite El' in E. simplify_eq. split; cbn [snd set_exec exec].
    + intros e' [= <-]. eapply (data_frame e _ L t _ R x _ []); [done|by rewrite app_nil_r| | | | |].
      * intros d. rewrite Hst, zsum_one, zsum_nil. cbn [started]. pose proof (occ_nonneg d n). lia.
      * intros d di i Hdi Hf Hi. assert (Hne : d <> n) by (eapply Hnf; [|done]; rewrite zsum_one; cbn [started]; rewrite occ_self; lia). cbn [input_tensors_ with_inputs]. rewrite Hout; [by eapply Hins|].
        intros Hin. by apply (vo_disjoint _ Hv n d item di i).
      * intros m ed. rewrite Htd. by intros ?%not_elem_of_nil.
      * by intros m outs ?%not_elem_of_nil.
      * by apply Forall_singleton.
    + eapply (log_frame L t _ R x _ []); try done; [by rewrite app_nil_r| | |]; try (by intros d ? ?%not_elem_of_nil). intros d. rewrite Hst, zsum_one, !zsum_nil. cbn [started]. pose proof (occ_nonneg d n). lia.
Qed.

(** An input slot has one edge. *)
Lemma concat_inj {A B C} (f : A -> list B) (g : B -> C) l a1 a2 b1 b2 : NoDup (concat (map (fun x => map g (f x)) l)) ->
  a1 ∈ l -> a2 ∈ l -> b1 ∈ f a1 -> b2 ∈ f a2 -> g b1 = g b2 -> a1 = a2 /\ b1 = b2.
Proof using.
  induction l as [|x l IH]; intros Hnd H1 H2 Hb1 Hb2 Hg; [by apply not_elem_of_nil in H1|]. cbn [map concat] in Hnd. apply NoDup_app in Hnd as (Hx & Hdisj & Hl).
  assert (Hin : forall a b, a ∈ l -> b ∈ f a -> g b ∈ concat (map (fun x => map g (f x)) l)).
  { intros a0 b Ha Hb. apply list_elem_of_In, in_concat. exists (map g (f a0)). split; apply list_elem_of_In, list_elem_of_fmap; eauto. }
  rewrite elem_of_cons in H1, H2. destruct H1 as [->|H1], H2 as [->|H2].
  - split; [done|]. apply list_elem_of_lookup in Hb1 as [i1 E1], Hb2 as [i2 E2]. assert (i1 = i2) as ->; [|congruence]. eapply (NoDup_lookup (map g (f x))); [done| |]; rewrite list_lookup_fmap; [by rewrite E1|rewrite E2; simpl; by rewrite Hg].
  - exfalso. apply (Hdisj (g b1)); [apply list_elem_of_fmap; eauto|]. rewrite Hg. by apply (Hin a2).
  - exfalso. apply (Hdisj (g b2)); [apply list_elem_of_fmap; eauto|]. rewrite <- Hg. by apply (Hin a1).
  - by apply IH.
Qed.

Lemma slot_inj n m item item' ed ed' : item_at V n item -> item_at V m item' -> ed ∈ output_edges item -> ed' ∈ output_edges item' -> input_slot ed = input_slot ed' -> n = m /\ ed = ed'.
Proof using Hv.
  intros Hn Hm He He' Hs. apply (concat_inj (edges_of V) input_slot (all_nodes V)); [apply Hv| | |by rewrite (edges_of_item V n item)|by rewrite (edges_of_item V m item')|done];
    apply elem_of_seq; (split; [lia|]); by eapply lookup_lt_Some.
Qed.

(** The outputs of a node are recorded once. *)
Lemma outputs_unique p w n o1 o2 : counts_ok V p w -> EvOutputs n o1 ∈ log w.2 -> EvOutputs n o2 ∈ log w.2 -> o1 = o2.
Proof using Hv.
  intros Hc H1 H2. destruct (sent_nodes_once V Hv p w Hc) as [Hnd _]. revert Hnd H1 H2. generalize (log w.2). intros l. induction l as [|ev l IH]; intros Hnd H1 H2; [by apply not_elem_of_nil in H1|].
  assert (Hin : forall o, EvOutputs n o ∈ l -> n ∈ sent_nodes l) by (intros o Ho; apply sent_nodes_elem; eauto). rewrite elem_of_cons in H1, H2.
  destruct H1 as [<-|H1], H2 as [E|H2]; [by simplify_eq| | |].
  - exfalso. simpl in Hnd. apply NoDup_cons in Hnd as [Hn _]. by apply Hn, (Hin o2).
  - subst ev. exfalso. simpl in Hnd. apply NoDup_cons in Hnd as [Hn _]. by apply Hn, (Hin o1).
  - apply IH; try done. destruct ev; simpl in Hnd; try done. by apply NoDup_cons in Hnd as [_ ?].
Qed.

Lemma write_data p L R x k n outputs ed edges controls ready e outputs' e' :
  inv V p (L ++ Propagating k n outputs (ed :: edges) false controls ready :: R, x) -> data_inv (L ++ Propagating k n outputs (ed :: edges) false controls ready :: R, x) ->
  exec x = Some e -> write_edge ed outputs e = Done (outputs', e') ->
  data_inv (L ++ [Propagating k n outputs' (ed :: edges) true controls ready] ++ R, set_exec e' x).
Proof using Hv.
  intros Hinv [Hd Hlo] Ee E. set (t := Propagating _ _ _ _ _ _ _) in *. cbn [snd] in Hd. specialize (Hd e Ee). pose proof (inv_counts _ _ _ Hinv) as Hc.
  pose proof (co_threads _ _ _ Hc) as Hts. cbn [fst] in Hts. rewrite Forall_app, Forall_cons in Hts. destruct Hts as (_ & (_ & _ & item & pre & cpre & Hitem & _ & Hed & _) & _).
  assert (Hin : ed ∈ output_edges item) by (rewrite Hed; apply elem_of_app; right; left).
  pose proof (do_held _ _ Hd) as Hh. cbn [fst snd] in Hh. rewrite Forall_app, Forall_cons in Hh. destruct Hh as (HhL & (outs & Ho & Hval) & HhR).
  assert (Htodo : forall m, todo m t = if decide (n = m) then ed :: edges else []) by done.
  rewrite Htodo, decide_True in Hval by done. unfold write_edge in E. destruct (outputs !! output_slot ed) as [v|] eqn:Ev; [|done]. destruct (input_tensors_ e !! input_slot ed) as [old|] eqn:Eold; [|done].
  simplify_eq. set (t' := Propagating _ _ _ _ true _ _). split; cbn [snd set_exec exec].
  - intros e' [= <-]. split; cbn [fst snd set_exec log input_tensors_ with_inputs].
    + intros m mi ed' outs' Hm Hed' Ho' Hf. assert (Hf0 : fresh (dst_id ed') (L ++ t :: R, x)).
      { eapply (fresh_mono L t [t'] R x); [by rewrite app_nil_r| |exact Hf]. by rewrite zsum_one, zsum_nil. }
      destruct (decide (input_slot ed' = input_slot ed)) as [Hslot|Hslot].
      * destruct (slot_inj m n mi item ed' ed Hm Hitem Hed' Hin Hslot) as [-> ->]. right. rewrite list_lookup_insert_eq by (by eapply lookup_lt_Some).
        rewrite <- Ev, (outputs_unique p _ n outs' outs Hc Ho' Ho). apply Hval. left.
      * rewrite list_lookup_insert_ne by done. destruct (do_delivered _ _ Hd m mi ed' outs' Hm Hed' Ho' Hf0) as [(t0 & Ht0 & Hin0)|]; [left|by right].
        cbn [fst] in Ht0. rewrite elem_of_app, elem_of_cons in Ht0. destruct Ht0 as [?|[->|?]]; [exists t0; set_solver| |exists t0; set_solver].
        exists t'. split; [set_solver|]. rewrite Htodo in Hin0. cbn [todo t']. destruct (decide (n = m)); [|done]. apply elem_of_cons in Hin0 as [->|?]; done.
    + rewrite !Forall_app, Forall_singleton. split_and!; try done. exists outs. split; [done|]. intros ed' Hed'. cbn [todo t'] in Hed'. rewrite decide_True in Hed' by done. cbn [tail] in Hed'.
      rewrite <- Hval by (by right). destruct (is_last ed) eqn:El; [|done]. rewrite list_lookup_insert_ne; [done|].
      pose proof (vo_last _ Hv n item pre ed edges Hitem Hed El) as Hl. rewrite Forall_forall in Hl. intros Heq. by apply (Hl ed' Hed').
  - eapply (log_frame L t [t'] R x _ []); try done; try (by rewrite app_nil_r); by intros d ? ?%not_elem_of_nil.
Qed.

(** ** Every action *)
Lemma resume_held lg k q outputs s b tasks : Forall (held_ok lg) (resume k q outputs s b ++ map Closure tasks).
Proof using. rewrite Forall_app. split; [destruct k; cbn [resume]; [by constructor|destruct b; by constructor]|]. apply Forall_fmap, Forall_true. done. Qed.

Lemma resume_started d k q outputs s b tasks : 0 <= zsum (started d) (resume k q outputs s b ++ map Closure tasks).
Proof using. apply zsum_nonneg, started_nonneg. Qed.

Lemma propagate_data p L R x ch k n outputs edges written controls ready ts x' : let t := Propagating k n outputs edges written controls ready in
  inv V p (L ++ t :: R, x) -> data_inv (L ++ t :: R, x) -> propagate V a ch k n outputs edges written controls ready x = Done (ts, x') -> data_inv (L ++ ts ++ R, x').
Proof using Hv.
  intros t Hinv Hd E. pose proof (co_threads _ _ _ (inv_counts _ _ _ Hinv)) as Hts. cbn [fst] in Hts. rewrite Forall_app, Forall_cons in Hts. destruct Hts as (_ & (_ & _ & item & pre & cpre & _ & _ & _ & _ & Hwr) & _).
  unfold propagate, with_exec in E. destruct (exec x) as [e|] eqn:Ee; [|done].
  assert (Hheld : forall es' wr' cs' r', (if wr' : bool then tail es' else es') = (if written then tail edges else edges) -> held_ok (log x) (Propagating k n outputs es' wr' cs' r')).
  { intros es' wr' cs' r' Heq. destruct Hd as [Hd _]. pose proof (do_held _ _ (Hd e Ee)) as Hh. cbn [fst snd] in Hh. rewrite Forall_app, Forall_cons in Hh.
    destruct Hh as (_ & (outs & Ho & Hval) & _). exists outs. split; [done|]. unfold t in Hval. cbn [todo] in Hval |- *. rewrite decide_True in Hval |- * by done. by rewrite Heq. }
  assert (Hdec : forall d es' cs' r' e', decrement d ready e = Done (r', e') -> es' = (if written then tail edges else edges) -> data_inv (L ++ [Propagating k n outputs es' false cs' r'] ++ R, set_exec e' x)).
  { intros d es' cs' r' e' Edec Hes. unfold decrement in Edec. destruct (pending_ e !! d) as [c|]; [|done]. simplify_eq. eapply (quiet_step L t _ R x _ []); try done; try (by rewrite app_nil_r).
    - intros e1 [= <-]. eauto.
    - intros m ed Hed. eexists. split; [by apply list_elem_of_singleton|]. cbn [todo t] in *. by destruct (decide (n = m)).
    - apply Forall_singleton. by apply Hheld. }
  destruct edges as [|ed edges].
  - assert (written = false) as -> by (destruct written; [by destruct (Hwr eq_refl)|done]). destruct controls as [|d controls].
    + unfold with_item in E. destruct (gview V !! n) as [[it|]|]; [|done..]. destruct (clear_outputs k it outputs) as [o| |]; [|done..].
      assert (Htd : forall (m : nat) (ed : EdgeInfo) (ts' : list thread), ed ∈ todo m t -> exists t', t' ∈ ts' /\ ed ∈ todo m t') by (intros m ed ts'; cbn [todo t]; destruct (decide (n = m)); by intros ?%not_elem_of_nil).
      unfold NodeDone_ok in E. destruct ready as [|r ready]; cbn [fetch_sub_outstanding] in E.
      * simplify_eq. rewrite <- (app_nil_r (resume _ _ _ _ _)). eapply (quiet_step L t (_ ++ map Closure []) R x _ []); [exact Hd|by rewrite app_nil_r|done|by intros e1 [= <-]; eauto| |intros m ed; apply Htd|apply resume_held].
        intros d. rewrite zsum_nil, Z.add_0_r. apply (resume_started d).
      * destruct (ScheduleReady a (ch_expensive ch) (r :: ready) (inline_of k)) as [q tasks]. simplify_eq. eapply (quiet_step L t _ R x _ []); [exact Hd|by rewrite app_nil_r|done| | |intros m ed; apply Htd|apply resume_held].
        -- intros e1 [= <-]. exists e. split; [done|]. by destruct (1 <? _)%nat.
        -- intros d. rewrite zsum_nil, Z.add_0_r. apply (resume_started d).
    + destruct (decrement d ready e) as [[r' e']| |] eqn:Edec; [|done..]. simplify_eq. by eapply Hdec.
  - destruct written.
    + destruct (decrement (dst_id ed) ready e) as [[r' e']| |] eqn:Edec; [|done..]. simplify_eq. by eapply Hdec.
    + destruct (write_edge ed outputs e) as [[o' e']| |] eqn:Ew; [|done..]. simplify_eq. by eapply write_data.
Qed.

Lemma data_refs ts x r : data_inv (ts, x) -> data_inv (ts, set_refs r x).
Proof using. intros [Hd [L1 L2 L3]]. split; [|by split]. intros e Ee. destruct (Hd e Ee). by split. Qed.

Lemma NodeDone_error_quiet c s e l e' : NodeDone_error a c s e = (l, e') -> forallb quiet l = true /\ input_tensors_ e' = input_tensors_ e.
Proof using.
  unfold NodeDone_error. destruct (ok (status_ e)); intros E; simplify_eq; [|done]. split; [|done]. unfold abort_events. by destruct (has_rendezvous a), (has_cancellation_manager a), (has_collective_executor a).
Qed.

Lemma thread_step_data p L t R x ch ts x' : inv V p (L ++ t :: R, x) -> data_inv (L ++ t :: R, x) -> thread_step V a ch t x = Done (ts, x') -> data_inv (L ++ ts ++ R, x').
Proof using Hv.
  intros Hinv Hd E. pose proof (co_threads _ _ _ (inv_counts _ _ _ Hinv)) as Hts. cbn [fst] in Hts. rewrite Forall_app, Forall_cons in Hts. destruct Hts as (_ & Ht & _).
  assert (Hq : forall l, (forall m, todo m t = []) -> log x' = log x ++ l -> forallb quiet l = true -> (forall e', exec x' = Some e' -> exists e, exec x = Some e /\ input_tensors_ e' = input_tensors_ e) ->
    (forall d, started d t <= zsum (started d) ts + zsum (ended d) l) -> Forall (held_ok (log x')) ts -> data_inv (L ++ ts ++ R, x')).
  { intros l Htd Hl Hql He Hs Hh. eapply (quiet_step L t ts R x x' l); try done. intros m ed. rewrite Htd. by intros ?%not_elem_of_nil. }
  destruct t as [ns|rest l|rest l n|n|k n o es wr cs r|k n s|k n s|rest|rest| |s]; cbn [thread_ok thread_step] in *.
  - destruct ns; simplify_eq; apply (Hq []); try done; try (by rewrite app_nil_r); eauto; by repeat constructor.
  - destruct Ht as [Hqk Hlen]. rewrite queue_empty_list in E by done. destruct (queue_list (inline_ready l)) as [|n q] eqn:El.
    + rewrite bool_decide_eq_true_2 in E by done. simplify_eq. apply (Hq []); try done; try (by rewrite app_nil_r); eauto; [intros d; rewrite zsum_one, zsum_nil|apply Forall_singleton]; by destruct (completed l).
    + rewrite bool_decide_eq_false_2 in E by done. destruct (pop_front_ok n q _ Hqk El) as (Hfr & Hq' & El'). rewrite Hfr in E. pose proof (at_node_pop rest l n q Hqk El) as Ha.
      unfold with_item in E. destruct (gview V !! n) as [[item|]|] eqn:Hitem; [|done..]. unfold start_node in E. destruct (is_noop item); [eapply finish_node_data; try done; intros d; apply occ_nonneg|].
      destruct (const_tensor_ item) as [ct|]; [|by eapply launch_kernel_data]. destruct (ch_track_allocations ch); [by eapply launch_kernel_data|].
      cbn [loop_outputs] in E. destruct (loop_outputs l) as [|u us]; [done|]. eapply finish_node_data; try done. intros d; apply occ_nonneg.
  - unfold kernel_done, with_item in E. destruct (gview V !! n) as [[item|]|] eqn:Hitem; [|done..]. destruct (ProcessOutputs _ _ _) as [s o]. eapply finish_node_data; [by apply inv_refs|by apply data_refs|apply at_node_computing|done..|exact E].
  - unfold kernel_done, with_item in E. destruct (gview V !! n) as [[item|]|] eqn:Hitem; [|done..]. destruct (ProcessOutputs _ _ _) as [s o]. eapply finish_node_data; [by apply inv_refs|by apply data_refs|apply at_node_async|done..|exact E].
  - by eapply propagate_data.
  - unfold with_exec in E. destruct (exec x) as [e|] eqn:Ee; [|done]. destruct (NodeDone_error a (ch_cancelled ch) s e) as [l e'] eqn:En. destruct (NodeDone_error_quiet _ _ _ _ _ En) as [Hql Hin]. simplify_eq.
    apply (Hq (EvFailed n s :: l)); try done; [by intros e1 [= <-]; eauto|intros d; rewrite zsum_one, zsum_cons; cbn [started ended]; pose proof (zsum_nonneg _ l (ended_nonneg d)); lia|by repeat constructor].
  - unfold with_exec in E. destruct (exec x) as [e|] eqn:Ee; [|done]. cbn [fetch_sub_outstanding] in E. simplify_eq.
    apply (Hq []); try done; [by rewrite app_nil_r|by intros e1 [= <-]; eauto|intros d; pose proof (resume_started d k (inline_of k) (outputs_of k) s (num_outstanding_ops_ e =? 1) []) as Hr; cbn [map] in Hr; rewrite app_nil_r in Hr; cbn; lia|].
    pose proof (resume_held (log x) k (inline_of k) (outputs_of k) s (num_outstanding_ops_ e =? 1) []) as Hr. cbn [map] in Hr. by rewrite app_nil_r in Hr.
  - unfold ScheduleFinish, with_exec in E. destruct (exec x) as [e|] eqn:Ee; [|done]. destruct (0 <? num_deferred_ops_ e); simplify_eq; apply (Hq []); try done; try (by rewrite app_nil_r); try (by repeat constructor); [by intros e1 [= <-]; eauto|rewrite Ee; by eauto].
  - unfold Finish, with_exec in E. destruct (exec x) as [e|] eqn:Ee; [|done]. destruct (negb (done_cb_ e)); [done|]. destruct (negb (allows_sync_on_completion a)).
    + simplify_eq. eapply Hq; [done|reflexivity| |done| |by repeat constructor].
      * unfold abort_events. destruct (ok _); [done|]. by destruct (has_rendezvous a), (has_cancellation_manager a), (has_collective_executor a).
      * intros d. rewrite !zsum_cons, zsum_nil. cbn [started ended]. pose proof (zsum_nonneg (ended d)) as Hz. match goal with |- context [zsum (ended d) ?l] => specialize (Hz l (ended_nonneg d)) end. lia.
    + destruct (sync_on_finish_ a && ok (status_ e)); simplify_eq; apply (Hq []); try done; try (by rewrite app_nil_r); try (by repeat constructor). by intros e1 [= <-]; eauto.
  - unfold with_exec in E. destruct (exec x) as [e|] eqn:Ee; [|done]. simplify_eq. apply (Hq [EvDevice (ch_device ch)]); try done; by repeat constructor.
  - simplify_eq. apply (Hq [EvDone s]); try done. eauto.
Qed.

Lemma defer_data w x' : data_inv w -> inc_num_deferred_ops w.2 = Done x' -> data_inv (w.1, x').
Proof using Hv.
  intros [Hd [L1 L2 L3]] E. unfold inc_num_deferred_ops, with_exec in E. destruct (exec w.2) as [e|] eqn:Ee; [|done]. simplify_eq. split; [|by split].
  intros e' [= <-]. destruct (Hd e eq_refl). by split.
Qed.

Lemma undefer_data w ts x' : data_inv w -> dec_num_deferred_ops w.2 = Done (ts, x') -> data_inv (w.1 ++ ts, x').
Proof using Hv.
  intros [Hd [L1 L2 L3]] E. unfold dec_num_deferred_ops, with_exec in E. destruct (exec w.2) as [e|] eqn:Ee; [|done]. simplify_eq.
  set (ts := if (_ && _) then [Finishing []] else []). assert (Hz : forall f : thread -> Z, f (Finishing []) = 0 -> zsum f (w.1 ++ ts) = zsum f w.1).
  { intros f Hf. rewrite zsum_app. unfold ts. destruct (_ && _); rewrite ?zsum_one, ?zsum_nil; lia. }
  split; [|split; [done|done|intros d; cbn [fst snd log]; by rewrite Hz]]. intros e' [= <-]. destruct (Hd e eq_refl) as [D1 D2]. split; cbn [fst snd log].
  - intros n item ed outs Hn Hed Ho Hf. unfold fresh in Hf. cbn [fst snd log] in Hf. rewrite Hz in Hf by done. destruct (D1 n item ed outs Hn Hed Ho Hf) as [(t & ? & ?)|?]; [left; exists t; set_solver|by right].
  - rewrite Forall_app. split; [done|]. unfold ts. destruct (_ && _); by repeat constructor.
Qed.

Lemma perform_data p act w w' : inv V p w -> data_inv w -> perform V a act w = Done w' -> data_inv w'.
Proof using Hv.
  intros Hinv Hd E. destruct act as [i ch|i|]; cbn [perform] in E.
  - destruct (w.1 !! i) as [t|] eqn:Ht; [|done]. destruct (thread_step V a ch t w.2) as [[ts x']| |] eqn:Es; [|done..]. simplify_eq. destruct w as [ts0 x]. cbn [fst snd] in *.
    rewrite <- (take_drop_middle ts0 i t Ht) in Hinv, Hd. by eapply thread_step_data.
  - destruct (inc_num_deferred_ops w.2) as [x'| |] eqn:Ei; [|done..]. simplify_eq. by apply defer_data.
  - destruct (dec_num_deferred_ops w.2) as [[ts x']| |] eqn:Ei; [|done..]. simplify_eq. by apply undefer_data.
Qed.

Lemma start_data r0 : data_inv (RunAsync V a StatusOK r0).
Proof using Hv.
  unfold RunAsync. cbn [ok ActivateRoots app]. destruct (root_nodes V) as [|r rs].
  - split; [done|]. split; cbn [fst snd log].
    + intros l1 d ins l2 E. destruct l1 as [|? [|]]; simplify_eq.
    + intros l1 d ins l2 E. destruct l1 as [|? [|]]; simplify_eq.
    + intros d. by rewrite !zsum_one, zsum_nil.
  - split; [|split; cbn [fst snd log]].
    + intros e _. split; cbn [fst snd log]; [by intros ? ? ? ? _ _ ?%not_elem_of_nil|apply Forall_fmap, Forall_true; done].
    + intros l1 d ins l2 E. by destruct l1.
    + intros l1 d ins l2 E. by destruct l1.
    + intros d. rewrite !zsum_nil, Z.add_0_r. apply zsum_nonneg, started_nonneg.
Qed.

Lemma reachable_data r0 w : reachable V a StatusOK r0 w -> data_inv w.
Proof using Hv.
  induction 1 as [|w act w' Hr IH He Hp]; [apply start_data|]. destruct (reachable_inv V Hv a r0 w Hr) as [p Hinv]. by eapply perform_data.
Qed.
End Data.
