(* ===== verification/ExecutorEnd.v ===== *)
(** * How a step of an executor ends

    The status that is reported is that of the first failure; every action but a
    deferral spends a bounded budget; and when nothing is left to do the step has
    been reported once. *)
From S2P Require Import Prelude PendingCounts Counting GraphView Executor ExecutorInv ExecutorSteps.
From stdpp Require Import list gmap options.
#[local] Open Scope Z_scope.

(** ** Failures *)
Definition failure (ev : event) : option Status := match ev with EvFailed _ s => Some s | _ => None end.

Definition first_error (l : list event) : option Status := head (omap failure l).

Definition reported (ev : event) : option Status := match ev with EvDone s => Some s | _ => None end.

(** What the device answered when it was asked. *)
Definition answer (ev : event) : option Status := match ev with EvDevice s => Some s | _ => None end.

Definition device_status (l : list event) : option Status := head (omap answer l).

Section Errors.
Context (V : ImmutableExecutorState) (Hv : view_ok V) (a : Args).

(** What may be reported when the log is [l]. *)
Definition report_ok (l : list event) (s : Status) : Prop :=
  match first_error l with
  | Some s' => s = s'
  | None => device_status l = Some s \/
      (device_status l = None /\ s = StatusOK /\ ((allows_sync_on_completion a = true /\ sync_on_finish_ a = false) \/ root_nodes V = []))
  end.

Definition thread_err (l : list event) (t : thread) : Prop :=
  match t with
  | Failing _ _ s | Failed _ _ s => ok s = false
  | Syncing => first_error l = None /\ allows_sync_on_completion a = true /\ sync_on_finish_ a = true
  | Callback s => report_ok l s
  | _ => True
  end.

Record err_inv (w : world) : Prop := {
  ei_status e : exec w.2 = Some e -> status_ e = default StatusOK (first_error (log w.2));
  ei_threads : Forall (thread_err (log w.2)) w.1;
  ei_failed : Forall (fun ev => match failure ev with Some s => ok s = false | None => True end) (log w.2);
  ei_done : Forall (fun ev => match reported ev with Some s => report_ok (log w.2) s | None => True end) (log w.2);
  ei_abort s ev : first_error (log w.2) = Some s -> ev ∈ abort_events a s -> ev ∈ log w.2;
  ei_unasked : exec w.2 <> None -> device_status (log w.2) = None;
  ei_device s ev : first_error (log w.2) = None -> device_status (log w.2) = Some s -> allows_sync_on_completion a = false -> ok s = false ->
    ev ∈ abort_events a s -> ev ∈ log w.2
}.

Lemma first_error_app l k : first_error (l ++ k) = match first_error l with Some s => Some s | None => first_error k end.
Proof using. unfold first_error. rewrite omap_app. by destruct (omap failure l). Qed.

Lemma device_status_app l k : device_status (l ++ k) = match device_status l with Some s => Some s | None => device_status k end.
Proof using. unfold device_status. rewrite omap_app. by destruct (omap answer l). Qed.

Definition silent (ev : event) : bool := match ev with EvFailed _ _ | EvDone _ | EvDevice _ => false | _ => true end.

Lemma silent_error l k : forallb silent k = true -> first_error (l ++ k) = first_error l.
Proof using.
  intros Hk. rewrite first_error_app. destruct (first_error l); [done|]. induction k as [|ev k IH]; [done|]. cbn [forallb] in Hk. apply andb_true_iff in Hk as [Hev Hk]. destruct ev; try discriminate Hev; by apply IH.
Qed.

Lemma silent_device l k : forallb silent k = true -> device_status (l ++ k) = device_status l.
Proof using.
  intros Hk. rewrite device_status_app. destruct (device_status l); [done|]. induction k as [|ev k IH]; [done|]. cbn [forallb] in Hk. apply andb_true_iff in Hk as [Hev Hk]. destruct ev; try discriminate Hev; by apply IH.
Qed.

Lemma err_frame L t ts R x x' l : err_inv (L ++ t :: R, x) -> log x' = log x ++ l -> forallb silent l = true ->
  (forall e', exec x' = Some e' -> exists e, exec x = Some e /\ status_ e' = status_ e) -> Forall (thread_err (log x)) ts ->
  err_inv (L ++ ts ++ R, x').
Proof using.
  intros [E1 E2 E3 E4 E5 E6 E7] Hl Hs He Hts. cbn [fst snd] in *. pose proof (silent_error (log x) l Hs) as Hf. pose proof (silent_device (log x) l Hs) as Hd.
  assert (Hq : forall ev, ev ∈ l -> failure ev = None /\ reported ev = None) by (intros ev Hev; rewrite forallb_forall in Hs; apply list_elem_of_In, Hs in Hev; by destruct ev).
  assert (Ht : forall u, thread_err (log x) u -> thread_err (log x ++ l) u) by (intros u; destruct u; cbn [thread_err]; unfold report_ok; by rewrite ?Hf, ?Hd).
  split; cbn [fst snd]; rewrite Hl, ?Hf, ?Hd.
  - intros e' Ee'. destruct (He e' Ee') as (e & Ee & ->). by apply E1.
  - rewrite Forall_app, Forall_cons in E2. rewrite !Forall_app. split_and!; (eapply Forall_impl; [|by apply Ht]); tauto.
  - rewrite Forall_app. split; [done|]. apply Forall_forall. intros ev Hev. by destruct (Hq ev Hev) as [-> _].
  - rewrite Forall_app. split; [|apply Forall_forall; intros ev Hev; by destruct (Hq ev Hev) as [_ ->]]. eapply Forall_impl; [exact E4|]. intros ev. cbn. unfold report_ok. by rewrite Hf, Hd.
  - intros s ev H1 H2. apply elem_of_app. left. by eapply E5.
  - intros Hx. apply E6. destruct (exec x') as [e'|]; [|done]. destruct (He e' eq_refl) as (e & -> & _). done.
  - intros s ev H1 H2 H3 H4 H5. apply elem_of_app. left. by eapply E7.
Qed.

Lemma no_reports p e w : exec_ok V p e w -> Forall (fun ev => reported ev = None) (log w.2) /\ Forall (fun t => match t with Callback _ => False | _ => True end) w.1.
Proof using.
  intros He. pose proof (eo_calling _ _ _ _ He) as Hc. pose proof (zsum_nonneg _ w.1 calling_nonneg). pose proof (zsum_nonneg _ (log w.2) done_nonneg). split; apply Forall_forall.
  - intros ev Hev. pose proof (zsum_elem done_event _ ev done_nonneg Hev). destruct ev; try done. simpl in *. lia.
  - intros t Ht. pose proof (zsum_elem calling _ t calling_nonneg Ht). destruct t; try done. simpl in *. lia.
Qed.

(** A failure is recorded, and the first aborts the rest. *)
Lemma failing_err p L R x ch k n s ts x' : inv V p (L ++ Failing k n s :: R, x) -> err_inv (L ++ Failing k n s :: R, x) ->
  thread_step V a ch (Failing k n s) x = Done (ts, x') -> err_inv (L ++ ts ++ R, x').
Proof using.
  intros Hinv [E1 E2 E3 E4 E5 E6 E7] E. destruct (exec_present V p L _ R x Hinv) as (e & Ee & He); [cbn [weight finisher tokens]; simpl length; pose proof (b2z_nonneg (cont_completed k)); lia|].
  destruct (no_reports p e _ He) as [Hnr Hnc]. cbn [thread_step] in E. unfold with_exec in E. rewrite Ee in E. cbn [fst snd] in *. specialize (E1 e Ee).
  rewrite Forall_app, Forall_cons in E2, Hnc. destruct E2 as (EL & Es & ER), Hnc as (NL & _ & NR). cbn [thread_err] in Es. unfold NodeDone_error in E.
  assert (Hsync : Forall (fun t => t <> Syncing) (L ++ R)).
  { apply Forall_forall. intros u Hu ->. pose proof (no_finisher V p e L _ R x He) as Hnf. pose proof (eo_finish _ _ _ _ He) as Hf. cbn [fst] in Hf. rewrite !zsum_mid in Hf. cbn [weight tokens] in *. simpl length in *.
    pose proof (zsum_nonneg weight L thread_weight_nonneg). pose proof (zsum_nonneg weight R thread_weight_nonneg). pose proof (zsum_elem finisher (L ++ R) Syncing finisher_nonneg Hu) as Hx. rewrite zsum_app in Hx. cbn [finisher] in *.
    rewrite (proj2 (Z.eqb_neq _ 0)) in Hf by lia. pose proof (b2z_nonneg (cont_completed k)). pose proof (b2z_nonneg (finish_when_deferred_ops_done_ e && (0 <? num_deferred_ops_ e))). simpl in Hf. lia. }
  rewrite Forall_app in Hsync. destruct Hsync as [SL SR]. assert (Hun : device_status (log x) = None) by (apply E6; by rewrite Ee).
  assert (Hother : forall l u, thread_err (log x) u -> match u with Callback _ => False | _ => True end -> u <> Syncing -> thread_err l u) by (intros l u; destruct u; cbn [thread_err]; try done; tauto).
  assert (Hothers : forall l U, Forall (thread_err (log x)) U -> Forall (fun t => match t with Callback _ => False | _ => True end) U -> Forall (fun t => t <> Syncing) U -> Forall (thread_err l) U).
  { intros l U H1 H2 H3. rewrite Forall_forall in H1, H2, H3 |- *. intros u Hu. apply Hother; [by apply H1|by apply H2|by apply H3]. }
  destruct (ok (status_ e)) eqn:Eok; simplify_eq; cbn [exec set_exec emit log].
  - assert (Hnone : first_error (log x) = None).
    { destruct (first_error (log x)) as [s0|] eqn:Ef; [|done]. rewrite E1 in Eok. simpl in Eok. exfalso. unfold first_error in Ef. clear -Ef E3 Eok. induction (log x) as [|ev l IH]; [done|].
      apply Forall_cons in E3 as [Hev E3]. simpl in Ef. destruct (failure ev); [simpl in Ef; simplify_eq; unfold id in *; congruence|by apply IH]. }
    assert (Hfe : first_error (log x ++ EvFailed n s :: abort_events a s) = Some s) by (by rewrite first_error_app, Hnone).
    assert (Hq : Forall (fun ev => failure ev = None /\ reported ev = None) (abort_events a s)) by (unfold abort_events; destruct (has_rendezvous a), (has_cancellation_manager a), (has_collective_executor a); by repeat constructor).
    split; cbn [fst snd log emit set_exec]; rewrite ?Hfe.
    + intros e' [= <-]. cbn [status_ with_status default]. unfold MakeDerived. by destruct (_ && _).
    + rewrite !Forall_app. split_and!; [by apply Hothers|by apply Forall_singleton|by apply Hothers].
    + rewrite Forall_app, Forall_cons. split_and!; try done. eapply Forall_impl; [exact Hq|]. intros ev [-> _]. done.
    + rewrite Forall_app, Forall_cons. split_and!; try done; [eapply Forall_impl; [exact Hnr|]; by intros ev ->|eapply Forall_impl; [exact Hq|]; by intros ev [_ ->]].
    + intros s' ev [= <-] Hev. apply elem_of_app. right. by right.
    + intros _. rewrite device_status_app, Hun. unfold abort_events. by destruct (has_rendezvous a), (has_cancellation_manager a), (has_collective_executor a).
    + done.
  - assert (Hsome : exists s0, first_error (log x) = Some s0) by (rewrite E1 in Eok; destruct (first_error (log x)); [eauto|done]). destruct Hsome as [s0 Hs0].
    assert (Hfe : first_error (log x ++ [EvFailed n s]) = Some s0) by (by rewrite first_error_app, Hs0).
    split; cbn [fst snd log emit set_exec]; rewrite ?Hfe.
    + intros e' [= <-]. by rewrite E1, Hs0.
    + rewrite !Forall_app. split_and!; [by apply Hothers|by apply Forall_singleton|by apply Hothers].
    + rewrite Forall_app, Forall_singleton. done.
    + rewrite Forall_app, Forall_singleton. split; [|done]. eapply Forall_impl; [exact Hnr|]. by intros ev ->.
    + intros s' ev [= <-] Hev. apply elem_of_app. left. by eapply E5.
    + intros _. by rewrite device_status_app, Hun.
    + done.
Qed.

Lemma first_error_bad w s : err_inv w -> first_error (log w.2) = Some s -> ok s = false.
Proof using.
  intros [_ _ E3 _ _ _ _]. unfold first_error. induction (log w.2) as [|ev l IH]; [done|]. apply Forall_cons in E3 as [Hev E3]. simpl. destruct (failure ev); [simpl; unfold id; intros; by simplify_eq|by apply IH].
Qed.

Lemma abort_silent s : forallb silent (abort_events a s) = true.
Proof using. unfold abort_events. by destruct (has_rendezvous a), (has_cancellation_manager a), (has_collective_executor a). Qed.

(** The device is asked when the state goes. *)
Lemma err_asked p L t R x e d l ts : inv V p (L ++ t :: R, x) -> err_inv (L ++ t :: R, x) -> exec x = Some e -> forallb silent l = true ->
  Forall (thread_err (log x ++ EvDevice d :: l)) ts ->
  (first_error (log x) = None -> allows_sync_on_completion a = false -> ok d = false -> forall ev, ev ∈ abort_events a d -> ev ∈ l) ->
  err_inv (L ++ ts ++ R, delete_exec (emit (EvDevice d :: l) x)).
Proof using.
  intros Hinv [E1 E2 E3 E4 E5 E6 E7] Ee Hs Hts Hab. cbn [fst snd] in *. assert (He : exec_ok V p e (L ++ t :: R, x)) by (pose proof (inv_exec _ _ _ Hinv) as Hi; cbn [snd] in Hi; by rewrite Ee in Hi).
  destruct (no_reports p e _ He) as [Hnr Hnc]. cbn [fst snd] in *. assert (Hf : first_error (log x ++ EvDevice d :: l) = first_error (log x)) by (change (EvDevice d :: l) with ([EvDevice d] ++ l); rewrite app_assoc, silent_error by done; rewrite first_error_app; by destruct (first_error (log x))).
  assert (Hd : device_status (log x ++ EvDevice d :: l) = Some d) by (rewrite device_status_app, E6; [done|by rewrite Ee]).
  assert (Ht : forall U, Forall (thread_err (log x)) U -> Forall (fun t => match t with Callback _ => False | _ => True end) U -> Forall (thread_err (log x ++ EvDevice d :: l)) U).
  { intros U H1 H2. rewrite Forall_forall in H1, H2 |- *. intros u Hu. specialize (H1 u Hu). specialize (H2 u Hu). destruct u; cbn [thread_err] in *; rewrite ?Hf; done. }
  assert (Hq : forall ev, ev ∈ EvDevice d :: l -> failure ev = None /\ reported ev = None) by (intros ev [->|Hev]%elem_of_cons; [done|]; rewrite forallb_forall in Hs; apply list_elem_of_In, Hs in Hev; by destruct ev).
  rewrite Forall_app, Forall_cons in E2, Hnc. destruct E2 as (EL & _ & ER), Hnc as (NL & _ & NR). split; cbn [fst snd delete_exec emit log exec]; rewrite ?Hf, ?Hd.
  - done.
  - rewrite !Forall_app. split_and!; [by apply Ht|done|by apply Ht].
  - rewrite Forall_app. split; [done|]. apply Forall_forall. intros ev Hev. by destruct (Hq ev Hev) as [-> _].
  - rewrite Forall_app. split; [eapply Forall_impl; [exact Hnr|]; by intros ev ->|]. apply Forall_forall. intros ev Hev. by destruct (Hq ev Hev) as [_ ->].
  - intros s ev H1 H2. apply elem_of_app. left. by eapply E5.
  - done.
  - intros s ev H1 [= <-] H3 H4 H5. apply elem_of_app. right. right. by apply Hab.
Qed.

Lemma finish_err p L R x ch rest ts x' : inv V p (L ++ Finishing rest :: R, x) -> err_inv (L ++ Finishing rest :: R, x) -> Finish a ch rest x = Done (ts, x') -> err_inv (L ++ ts ++ R, x').
Proof using.
  intros Hinv Hw E. pose proof (ei_status _ Hw) as E1. pose proof (ei_unasked _ Hw) as E6. cbn [fst snd] in E1, E6. unfold Finish, with_exec in E. destruct (exec x) as [e|] eqn:Ee; [|done]. specialize (E1 e eq_refl). specialize (E6 ltac:(done)). destruct (negb (done_cb_ e)); [done|].
  assert (Hbad : forall s0, first_error (log x) = Some s0 -> ok s0 = false) by (intros s0; exact (first_error_bad _ s0 Hw)).
  destruct (allows_sync_on_completion a) eqn:Ea; cbn [negb] in E; [destruct (sync_on_finish_ a && ok (status_ e)) eqn:Es|]; simplify_eq.
  - apply andb_true_iff in Es as [Es1 Es2]. eapply (err_frame L _ _ R x _ []); [done|by rewrite app_nil_r|done|intros e' [= <-]; eauto|]. apply Forall_cons. split; [done|]. apply Forall_singleton. split; [|done].
    destruct (first_error (log x)) as [s0|] eqn:Ef; [|done]. rewrite E1 in Es2. simpl in Es2. rewrite (Hbad s0 eq_refl) in Es2. done.
  - eapply (err_frame L _ _ R x _ []); [done|by rewrite app_nil_r|done|done|]. repeat constructor. cbn [thread_err]. unfold report_ok. rewrite E1.
    destruct (first_error (log x)) as [s0|] eqn:Ef; [done|]. right. split_and!; [done|done|]. left. split; [done|]. rewrite E1 in Es. cbn [default ok] in Es. by rewrite andb_true_r in Es.
  - eapply (err_asked p); [done|done|done|destruct (ok _); [done|apply abort_silent]| |].
    + repeat constructor. cbn [thread_err]. unfold report_ok. change (EvDevice (ch_device ch) :: ?l) with ([EvDevice (ch_device ch)] ++ l). rewrite app_assoc, silent_error, silent_device, first_error_app, device_status_app, E6, E1 by (destruct (ok _); [done|apply abort_silent]).
      destruct (first_error (log x)) as [s0|] eqn:Ef; [|by left]. cbn. unfold Update. by rewrite (Hbad s0 eq_refl).
    + intros Hn _ Hok ev Hev. rewrite E1, Hn. cbn [default Update ok]. by rewrite Hok.
Qed.

Lemma callback_err L R x s : err_inv (L ++ Callback s :: R, x) -> err_inv (L ++ [] ++ R, emit [EvDone s] x).
Proof using.
  intros [E1 E2 E3 E4 E5 E6 E7]. cbn [fst snd] in *. assert (Hf : first_error (log x ++ [EvDone s]) = first_error (log x)) by (rewrite first_error_app; by destruct (first_error (log x))).
  assert (Hd : device_status (log x ++ [EvDone s]) = device_status (log x)) by (rewrite device_status_app; by destruct (device_status (log x))).
  rewrite Forall_app, Forall_cons in E2. destruct E2 as (EL & Es & ER). assert (Ht : forall u, thread_err (log x) u -> thread_err (log x ++ [EvDone s]) u) by (intros u; destruct u; cbn [thread_err]; unfold report_ok; by rewrite ?Hf, ?Hd).
  split; cbn [fst snd emit log exec]; rewrite ?Hf, ?Hd.
  - done.
  - rewrite !Forall_app. split_and!; [|done|]; (eapply Forall_impl; [|by apply Ht]); done.
  - rewrite Forall_app. split; [done|by repeat constructor].
  - rewrite Forall_app, Forall_singleton. unfold report_ok in *. by rewrite Hf, Hd.
  - intros s' ev H1 H2. apply elem_of_app. left. by eapply E5.
  - done.
  - intros s' ev H1 H2 H3 H4 H5. apply elem_of_app. left. by eapply E7.
Qed.

Lemma resume_err l k q outputs s b tasks : Forall (thread_err l) (resume k q outputs s b ++ map Closure tasks).
Proof using. rewrite Forall_app. split; [destruct k; cbn [resume]; [by constructor|destruct b; by constructor]|]. apply Forall_fmap, Forall_true. done. Qed.

Lemma finish_node_err L t R x k n item s outputs ts x' : err_inv (L ++ t :: R, x) -> finish_node k n item s outputs x = Done (ts, x') -> err_inv (L ++ ts ++ R, x').
Proof using.
  intros Hw E. unfold finish_node, with_exec in E. destruct (exec x) as [e|] eqn:Ee; [|done]. destruct (clear_entries _ _ _) as [l'| |]; [|done..]. destruct (ok s) eqn:Es.
  - simplify_eq. eapply (err_frame L t _ R x _ [EvOutputs n outputs]); [done|done|done|intros e' [= <-]; eauto|by repeat constructor].
  - destruct (clear_outputs k item outputs) as [o| |]; [|done..]. simplify_eq. eapply (err_frame L t _ R x _ []); [done|by rewrite app_nil_r|done|intros e' [= <-]; eauto|by repeat constructor].
Qed.

Lemma launch_kernel_err L t R x rest l n item ts x' : err_inv (L ++ t :: R, x) -> launch_kernel rest l n item x = Done (ts, x') -> err_inv (L ++ ts ++ R, x').
Proof using.
  intros Hw E. unfold launch_kernel, with_exec in E. destruct (exec x) as [e|] eqn:Ee; [|done]. cbv zeta in E. destruct (_ <? _)%nat; [done|]. destruct (ok (prep_status _)) eqn:Eok.
  - destruct (kernel_is_async item); simplify_eq; (eapply (err_frame L t _ R x); [done|done|done|intros e' [= <-]; eauto|by repeat constructor]).
  - destruct (clear_entries _ _ _) as [l'| |]; [|done..]. simplify_eq. eapply (err_frame L t _ R x _ []); [done|by rewrite app_nil_r|done|intros e' [= <-]; eauto|by repeat constructor].
Qed.

Lemma propagate_err L t R x ch k n outputs edges written controls ready ts x' : err_inv (L ++ t :: R, x) ->
  propagate V a ch k n outputs edges written controls ready x = Done (ts, x') -> err_inv (L ++ ts ++ R, x').
Proof using.
  intros Hw E. unfold propagate, with_exec in E. destruct (exec x) as [e|] eqn:Ee; [|done].
  assert (Hq : forall e', status_ e' = status_ e -> x' = set_exec e' x -> Forall (thread_err (log x)) ts -> err_inv (L ++ ts ++ R, x')).
  { intros e' Hs -> Hts. eapply (err_frame L t _ R x _ []); [done|by rewrite app_nil_r|done|intros e1 [= <-]; eauto|done]. }
  assert (Hdec : forall d r' e', decrement d ready e = Done (r', e') -> status_ e' = status_ e) by (intros d r' e'; unfold decrement; destruct (pending_ e !! d); intros; by simplify_eq).
  destruct edges as [|ed edges]; [destruct controls as [|d controls]|destruct written].
  - unfold with_item in E. destruct (gview V !! n) as [[it|]|]; [|done..]. destruct (clear_outputs k it outputs) as [o| |]; [|done..]. unfold NodeDone_ok in E. destruct ready as [|r ready]; cbn [fetch_sub_outstanding] in E.
    + simplify_eq. eapply Hq; [|done|]; [done|]. rewrite <- (app_nil_r (resume _ _ _ _ _)). apply (resume_err _ _ _ _ _ _ []).
    + destruct (ScheduleReady _ _ _ _) as [q tasks]. simplify_eq. eapply Hq; [|done|apply resume_err]. by destruct (1 <? _)%nat.
  - destruct (decrement d ready e) as [[r' e']| |] eqn:Ed; [|done..]. simplify_eq. eapply Hq; [by eapply Hdec|done|by repeat constructor].
  - destruct (decrement (dst_id ed) ready e) as [[r' e']| |] eqn:Ed; [|done..]. simplify_eq. eapply Hq; [by eapply Hdec|done|by repeat constructor].
  - unfold write_edge in E. destruct (outputs !! output_slot ed), (input_tensors_ e !! input_slot ed); try done. simplify_eq. eapply Hq; [|done|by repeat constructor]. done.
Qed.

Lemma err_refs ts x r : err_inv (ts, x) -> err_inv (ts, set_refs r x).
Proof using. intros [E1 E2 E3 E4 E5 E6 E7]. by split. Qed.

Lemma thread_step_err p L t R x ch ts x' : inv V p (L ++ t :: R, x) -> err_inv (L ++ t :: R, x) -> thread_step V a ch t x = Done (ts, x') -> err_inv (L ++ ts ++ R, x').
Proof using.
  intros Hinv Hw E.
  assert (Hq : log x' = log x -> (forall e', exec x' = Some e' -> exists e, exec x = Some e /\ status_ e' = status_ e) -> Forall (thread_err (log x)) ts -> err_inv (L ++ ts ++ R, x')).
  { intros Hl He Hts. eapply (err_frame L t ts R x x' []); try done. by rewrite app_nil_r. }
  destruct t as [ns|rest l|rest l n|n|k n o es wr cs r|k n s|k n s|rest|rest| |s]; cbn [thread_step] in E.
  - destruct ns; simplify_eq; apply Hq; eauto; by repeat constructor.
  - destruct (queue_empty (inline_ready l)); [simplify_eq; apply Hq; eauto; apply Forall_singleton; by destruct (completed l)|]. destruct (front (inline_ready l)) as [n|]; [|done].
    unfold with_item in E. destruct (gview V !! n) as [[item|]|]; [|done..]. unfold start_node in E. destruct (is_noop item); [by eapply finish_node_err|].
    destruct (const_tensor_ item) as [ct|]; [|by eapply launch_kernel_err]. destruct (ch_track_allocations ch); [by eapply launch_kernel_err|]. cbn [loop_outputs] in E. destruct (loop_outputs l); [done|]. by eapply finish_node_err.
  - unfold kernel_done, with_item in E. destruct (gview V !! n) as [[item|]|]; [|done..]. destruct (ProcessOutputs _ _ _) as [s o]. eapply finish_node_err; [by apply (err_refs _ x)|exact E].
  - unfold kernel_done, with_item in E. destruct (gview V !! n) as [[item|]|]; [|done..]. destruct (ProcessOutputs _ _ _) as [s o]. eapply finish_node_err; [by apply (err_refs _ x)|exact E].
  - by eapply propagate_err.
  - by eapply failing_err.
  - unfold with_exec in E. destruct (exec x) as [e|] eqn:Ee; [|done]. cbn [fetch_sub_outstanding] in E. simplify_eq. apply Hq; [done|intros e1 [= <-]; eauto|]. rewrite <- (app_nil_r (resume _ _ _ _ _)). apply (resume_err _ _ _ _ _ _ []).
  - unfold ScheduleFinish, with_exec in E. destruct (exec x) as [e|] eqn:Ee; [|done]. destruct (0 <? num_deferred_ops_ e); simplify_eq; apply Hq; try done; try (by repeat constructor); [intros e1 [= <-]; eauto|rewrite Ee; eauto].
  - by eapply finish_err.
  - unfold with_exec in E. destruct (exec x) as [e|] eqn:Ee; [|done]. simplify_eq. pose proof (ei_threads _ Hw) as Ht. pose proof (ei_unasked _ Hw) as E6. cbn [fst snd] in Ht, E6. rewrite Ee in E6. specialize (E6 ltac:(done)). rewrite Forall_app, Forall_cons in Ht.
    destruct Ht as (_ & (Hf & Ha & Hs) & _). eapply (err_asked p); [done|done|done|done| |congruence]. apply Forall_singleton. cbn [thread_err]. unfold report_ok. rewrite first_error_app, device_status_app, Hf, E6. by left.
  - simplify_eq. by apply callback_err.
Qed.

Lemma perform_err p act w w' : inv V p w -> err_inv w -> perform V a act w = Done w' -> err_inv w'.
Proof using.
  intros Hinv Hd E. destruct act as [i ch|i|]; cbn [perform] in E.
  - destruct (w.1 !! i) as [t|] eqn:Ht; [|done]. destruct (thread_step V a ch t w.2) as [[ts x']| |] eqn:Es; [|done..]. simplify_eq. destruct w as [ts0 x]. cbn [fst snd] in *.
    rewrite <- (take_drop_middle ts0 i t Ht) in Hinv, Hd. by eapply thread_step_err.
  - unfold inc_num_deferred_ops, with_exec in E. destruct (exec w.2) as [e|] eqn:Ee; [|done]. simplify_eq. destruct Hd as [E1 E2 E3 E4 E5 E6 E7]. split; try done; [intros e' [= <-]; exact (E1 e Ee)|]. intros _. apply E6. by rewrite Ee.
  - unfold dec_num_deferred_ops, with_exec in E. destruct (exec w.2) as [e|] eqn:Ee; [|done]. simplify_eq. destruct Hd as [E1 E2 E3 E4 E5 E6 E7]. split; try done; [intros e' [= <-]; exact (E1 e Ee)| |intros _; apply E6; by rewrite Ee].
    cbn [fst snd]. rewrite Forall_app. split; [done|]. destruct (_ && _); by repeat constructor.
Qed.

Lemma start_err r0 : err_inv (RunAsync V a StatusOK r0).
Proof using.
  unfold RunAsync. cbn [ok ActivateRoots app]. destruct (root_nodes V) as [|r rs] eqn:Er; split; cbn [fst snd log exec]; try done.
  - by repeat constructor.
  - apply Forall_singleton. cbn. right. split_and!; [done|done|]. by right.
  - intros e [= <-]. done.
  - apply Forall_fmap, Forall_true. done.
Qed.
End Errors.

(** ** A budget for actions *)
Section Budget.
Context (V : ImmutableExecutorState) (Hv : view_ok V) (a : Args).

(** What the end of node [n] sets free: two actions for an edge, one for a
    control edge, each with the scheduling of the node it makes ready. *)
Definition node_cost (n : nat) : Z :=
  match gview V !! n with
  | Some (Some item) => 3 + 9 * (2 * Z.of_nat (length (output_edges item)) + Z.of_nat (length (output_control_edges item)))
  | _ => 0
  end.

Definition ended_cost (ev : event) : Z := match ev with EvOutputs n _ | EvFailed n _ => node_cost n | _ => 0 end.

Definition cont_cost (k : cont) : Z :=
  match k with
  | InLoop rest l => 2 + 7 * Z.of_nat (length rest) + 4 * Z.of_nat (length (queue_list (inline_ready l))) + 5 * Z.b2z (completed l)
  | InCallback => 0
  end.

Definition thread_cost (t : thread) : Z :=
  match t with
  | Closure ns => 1 + 7 * Z.of_nat (length ns)
  | Looping rest l => cont_cost (InLoop rest l)
  | Computing rest l _ => cont_cost (InLoop rest l) + 2
  | AsyncComputing _ => 2
  | Propagating k _ _ edges written controls ready =>
      cont_cost k + 1 + 9 * (2 * Z.of_nat (length edges) - Z.b2z written + Z.of_nat (length controls)) + 8 * Z.of_nat (length ready)
  | Failing k _ _ | Failed k _ _ => cont_cost k + 1
  | FinishScheduled rest => 6 + 7 * Z.of_nat (length rest)
  | Finishing rest => 5 + 7 * Z.of_nat (length rest)
  | Syncing => 2
  | Callback _ => 1
  end.

Definition exec_cost (x : shared) : Z :=
  match exec x with
  | Some e => (if num_outstanding_ops_ e =? 0 then 0 else 6) + (if finish_when_deferred_ops_done_ e && (0 <? num_deferred_ops_ e) then 4 else 0)
  | None => 0
  end.

Definition budget (w : world) : Z :=
  zsum node_cost (all_nodes V) - zsum ended_cost (log w.2) + zsum thread_cost w.1 + exec_cost w.2 + 2 * Z.of_nat (deferred w.2).

Definition spent (act : action) : Z := match act with Defer _ => -2 | _ => 1 end.

Lemma node_cost_nonneg n : 0 <= node_cost n.
Proof using. unfold node_cost. destruct (gview V !! n) as [[item|]|]; lia. Qed.

Lemma cont_cost_nonneg k : 0 <= cont_cost k.
Proof using. destruct k; cbn [cont_cost]; [|lia]. pose proof (b2z_nonneg (completed l)). lia. Qed.

Lemma thread_cost_nonneg t : thread_ok V t -> 0 <= thread_cost t.
Proof using.
  intros Ht. destruct t as [ns|rest l|rest l n|n|k n o es wr cs r|k n s|k n s|rest|rest| |s]; cbn [thread_cost]; try lia; try (pose proof (cont_cost_nonneg (InLoop rest l)); lia); try (pose proof (cont_cost_nonneg k); lia).
  pose proof (cont_cost_nonneg k). destruct Ht as (_ & _ & item & pre & cpre & _ & _ & _ & _ & Hw). destruct wr; [|simpl; lia]. destruct es; [by destruct (Hw eq_refl)|]. simpl length. simpl Z.b2z. lia.
Qed.

Definition ended_nodes (l : list event) : list nat := omap (fun ev => match ev with EvOutputs n _ | EvFailed n _ => Some n | _ => None end) l.

Lemma ended_cost_sum l : zsum ended_cost l = zsum node_cost (ended_nodes l).
Proof using. induction l as [|ev l IH]; [done|]. rewrite zsum_cons, IH. destruct ev; try done. Qed.

Lemma ended_nodes_occ m l : zsum (occ m) (ended_nodes l) = zsum (ended m) l.
Proof using. induction l as [|ev l IH]; [done|]. rewrite zsum_cons, <- IH. destruct ev; try done. Qed.

Lemma budget_nonneg p w : inv V p w -> 0 <= budget w.
Proof using Hv.
  intros Hinv. pose proof (inv_counts _ _ _ Hinv) as Hc. assert (He : zsum ended_cost (log w.2) <= zsum node_cost (all_nodes V)).
  { rewrite ended_cost_sum. assert (Hone : forall m, zsum (occ m) (ended_nodes (log w.2)) <= Z.b2z (is_item V m)).
    { intros m. rewrite ended_nodes_occ. pose proof (node_once V Hv p w m Hc). pose proof (zsum_nonneg _ w.1 (tok_nonneg m)). lia. }
    apply zsum_sublist; [apply node_cost_nonneg| |].
    - apply occ_NoDup. intros m. specialize (Hone m). destruct (is_item V m); simpl in Hone; lia.
    - intros m Hm%occ_elem. specialize (Hone m). apply elem_of_seq. split; [lia|]. apply is_item_lt. destruct (is_item V m); simpl in Hone; [done|lia]. }
  assert (Ht : 0 <= zsum thread_cost w.1).
  { pose proof (co_threads _ _ _ Hc) as Hts. induction Hts as [|t ts Ht _ IH]; [done|]. rewrite zsum_cons. pose proof (thread_cost_nonneg t Ht). lia. }
  assert (Hx : 0 <= exec_cost w.2) by (unfold exec_cost; destruct (exec w.2) as [e|]; [|lia]; destruct (num_outstanding_ops_ e =? 0), (finish_when_deferred_ops_done_ e && _); lia).
  unfold budget. lia.
Qed.

Lemma budget_frame L t ts R x x' l : log x' = log x ++ l -> deferred x' = deferred x ->
  zsum thread_cost ts - zsum ended_cost l + exec_cost x' < thread_cost t + exec_cost x -> budget (L ++ ts ++ R, x') < budget (L ++ t :: R, x).
Proof using. intros Hl Hd Hlt. unfold budget. cbn [fst snd]. rewrite Hl, Hd, zsum_swap, zsum_mid, zsum_app. lia. Qed.

(** The threads after a report, with the nodes it made ready. *)
Lemma ScheduleReady_cost ex ready q q' tasks : opt_queue_ok q -> ready <> [] -> ScheduleReady a ex ready q = (q', tasks) ->
  4 * Z.of_nat (length (opt_queue_list q')) + zsum (fun ns => 1 + 7 * Z.of_nat (length ns)) tasks <= 4 * Z.of_nat (length (opt_queue_list q)) + 8 * Z.of_nat (length ready).
Proof using.
  intros Hq Hne E. destruct (ScheduleReady_ok a _ _ _ _ _ Hq E) as (_ & _ & Hp). apply Permutation_length in Hp. rewrite !length_app in Hp.
  assert (Hshape : Forall (fun ns => ns <> []) tasks /\ (length (opt_queue_list q) <= length (opt_queue_list q'))%nat).
  { unfold ScheduleReady in E. destruct q as [q|]; cbn [opt_queue_list opt_queue_ok] in *.
    - destruct (run_all_kernels_inline_ a).
      + simplify_eq. cbn [opt_queue_list]. destruct (push_all_ok ready q Hq) as [_ ->]. rewrite length_app. split; [done|lia].
      + assert (Hs : forall r q0 curr ts q1 c1 ts1, queue_ok q0 -> Forall (fun ns : list nat => ns <> []) ts -> schedule_inline ex r q0 curr ts = (q1, c1, ts1) ->
          queue_ok q1 /\ Forall (fun ns => ns <> []) ts1 /\ (length (queue_list q0) <= length (queue_list q1))%nat).
        { clear. induction r as [|n r IH]; intros q0 curr ts q1 c1 ts1 Hq Hts E; cbn [schedule_inline] in E; [by simplify_eq|]. destruct (ex n); cbn [negb] in E.
          - eapply IH; [done| |exact E]. rewrite Forall_app. split; [done|]. destruct curr; by repeat constructor.
          - destruct (push_back_ok n q0 Hq) as [Hq' El]. destruct (IH _ _ _ _ _ _ Hq' Hts E) as (? & ? & Hl). rewrite El, length_app in Hl. split_and!; try done. lia. }
        destruct (schedule_inline ex ready q None []) as [[q1 curr] ts] eqn:Es. destruct (Hs _ _ _ _ _ _ _ Hq ltac:(done) Es) as (Hq1 & Hts & Hl).
        destruct curr as [n|]; [|by simplify_eq]. destruct (queue_empty q1); simplify_eq; cbn [opt_queue_list].
        * destruct (push_back_ok n q1 Hq1) as [_ ->]. rewrite length_app. split; [done|lia].
        * split; [|done]. rewrite Forall_app. split; [done|by repeat constructor].
    - simplify_eq. cbn [opt_queue_list]. split; [|done]. destruct (run_all_kernels_inline_ a); [by repeat constructor|]. apply Forall_fmap, Forall_true. done. }
  destruct Hshape as [Hts Hl]. assert (Hc : zsum (fun ns => 1 + 7 * Z.of_nat (length ns)) tasks <= 8 * Z.of_nat (length (concat tasks))).
  { clear -Hts. induction Hts as [|ns tasks Hns _ IH]; [done|]. rewrite zsum_cons. cbn [concat]. rewrite length_app. destruct ns; [done|]. simpl length. lia. }
  lia.
Qed.

Lemma resume_cost k q outputs s b tasks : (is_Some q <-> is_Some (inline_of k)) ->
  zsum thread_cost (resume k q outputs s b ++ map Closure tasks) =
    (match k with InLoop rest _ => 2 + 7 * Z.of_nat (length rest) + 4 * Z.of_nat (length (opt_queue_list q)) + 5 * Z.b2z b | InCallback => 6 * Z.b2z b end)
    + zsum (fun ns => 1 + 7 * Z.of_nat (length ns)) tasks.
Proof using.
  intros Hq. rewrite zsum_app, zsum_map. cbn [thread_cost]. f_equal. destruct k as [rest l|]; cbn [resume].
  - destruct q as [q|]; [|by destruct (proj2 Hq ltac:(eauto))]. rewrite zsum_one. done.
  - destruct b; [by rewrite zsum_one|done].
Qed.

(** A report pays for the nodes it makes ready and for the right to finish. *)
Lemma report_cost p e L t R x k ready q tasks outputs s b n' : inv V p (L ++ t :: R, x) -> exec x = Some e -> at_report t k ready -> cont_ok k ->
  (is_Some q <-> is_Some (inline_of k)) ->
  4 * Z.of_nat (length (opt_queue_list q)) + zsum (fun ns => 1 + 7 * Z.of_nat (length ns)) tasks <= 4 * Z.of_nat (length (opt_queue_list (inline_of k))) + 8 * Z.of_nat (length ready) ->
  thread_cost t = cont_cost k + 1 + 8 * Z.of_nat (length ready) -> b = (n' =? 0) ->
  budget (L ++ (resume k q outputs s b ++ map Closure tasks) ++ R, set_exec (with_outstanding n' e) x) < budget (L ++ t :: R, x).
Proof using.
  intros Hinv Ee Ht Hk Hq Hc Hcost Hb. destruct (exec_present V p L t R x Hinv) as (e0 & Ee0 & He); [rewrite (ar_weight _ _ _ Ht); pose proof (finisher_nonneg t); lia|].
  assert (e0 = e) as -> by congruence. pose proof (no_finisher V p e L t R x He) as Hnf. rewrite (ar_weight _ _ _ Ht), (ar_finisher _ _ _ Ht) in Hnf. specialize (Hnf ltac:(lia)).
  assert (HW : num_outstanding_ops_ e <> 0).
  { rewrite (eo_outstanding _ _ _ _ He). cbn [fst]. rewrite zsum_mid, (ar_weight _ _ _ Ht). pose proof (zsum_nonneg weight L thread_weight_nonneg). pose proof (zsum_nonneg weight R thread_weight_nonneg). lia. }
  apply (budget_frame L t _ R x _ []); [by rewrite app_nil_r|done|]. rewrite resume_cost, zsum_nil, Hcost by done. unfold exec_cost. rewrite Ee. cbn [set_exec exec with_outstanding num_outstanding_ops_ finish_when_deferred_ops_done_ num_deferred_ops_].
  rewrite (proj2 (Z.eqb_neq (num_outstanding_ops_ e) 0) HW), Hb. destruct k as [rest l|]; cbn [cont_cost cont_completed inline_of opt_queue_list] in *; [rewrite Hnf|rewrite (length_nil (A := nat)) in Hc]; destruct (n' =? 0); simpl Z.b2z; lia.
Qed.

Lemma at_node_budget L t R x x' k ts l : log x' = log x ++ l -> deferred x' = deferred x -> exec_cost x' = exec_cost x ->
  cont_cost k + 2 <= thread_cost t -> zsum thread_cost ts - zsum ended_cost l < cont_cost k + 2 -> budget (L ++ ts ++ R, x') < budget (L ++ t :: R, x).
Proof using. intros Hl Hd Hx Ht Hts. apply (budget_frame L t ts R x x' l); try done. lia. Qed.

Lemma finish_node_budget L t R x k n item s outputs ts x' : cont_cost k + 2 <= thread_cost t -> item_at V n item ->
  finish_node k n item s outputs x = Done (ts, x') -> budget (L ++ ts ++ R, x') < budget (L ++ t :: R, x).
Proof using.
  intros Ht Hitem E. unfold finish_node, with_exec in E. destruct (exec x) as [e|] eqn:Ee; [|done]. destruct (clear_entries _ _ _) as [l'| |]; [|done..]. destruct (ok s).
  - simplify_eq. eapply (at_node_budget L t R x _ k _ [EvOutputs n outputs]); [done|done|unfold exec_cost; by rewrite Ee|done|]. rewrite !zsum_one. cbn [thread_cost ended_cost]. unfold node_cost. rewrite Hitem. simpl. lia.
  - destruct (clear_outputs k item outputs) as [o| |]; [|done..]. simplify_eq. eapply (at_node_budget L t R x _ k _ []); [by rewrite app_nil_r|done|unfold exec_cost; by rewrite Ee|done|].
    rewrite zsum_one, zsum_nil. cbn [thread_cost]. assert (cont_cost (keep_outputs k o) = cont_cost k) as -> by by destruct k. lia.
Qed.

Lemma launch_kernel_budget L t R x rest l n item ts x' : cont_cost (InLoop rest l) + 4 <= thread_cost t ->
  launch_kernel rest l n item x = Done (ts, x') -> budget (L ++ ts ++ R, x') < budget (L ++ t :: R, x).
Proof using.
  intros Ht E. unfold launch_kernel, with_exec in E. destruct (exec x) as [e|] eqn:Ee; [|done]. cbv zeta in E. destruct (_ <? _)%nat; [done|]. destruct (ok (prep_status _)).
  - destruct (kernel_is_async item); simplify_eq; (eapply budget_frame; [done|done|]); rewrite ?zsum_cons, ?zsum_nil; cbn [thread_cost ended_cost emit set_exec]; unfold exec_cost; rewrite Ee; cbn [cont_cost set_loop_s inline_ready completed exec] in *; cbn; lia.
  - destruct (clear_entries _ _ _) as [l'| |]; [|done..]. simplify_eq. eapply (budget_frame L t _ R x _ []); [by rewrite app_nil_r|done|]. rewrite zsum_one, zsum_nil. unfold exec_cost. rewrite Ee. cbn [thread_cost cont_cost set_loop_s inline_ready completed exec set_exec] in *. cbn. lia.
Qed.

Lemma propagate_budget p L R x ch k n outputs edges written controls ready ts x' : let t := Propagating k n outputs edges written controls ready in
  inv V p (L ++ t :: R, x) -> propagate V a ch k n outputs edges written controls ready x = Done (ts, x') -> budget (L ++ ts ++ R, x') < budget (L ++ t :: R, x).
Proof using Hv.
  intros t Hinv E. pose proof (co_threads _ _ _ (inv_counts _ _ _ Hinv)) as Hts. cbn [fst] in Hts. rewrite Forall_app, Forall_cons in Hts. destruct Hts as (_ & (Hk & Hlen1 & item & pre & cpre & Hitem & Hlen & _ & _ & Hwr) & _).
  unfold propagate, with_exec in E. destruct (exec x) as [e|] eqn:Ee; [|done].
  assert (Hdec : forall d es' cs' r' e', decrement d ready e = Done (r', e') -> 2 * Z.of_nat (length es') + Z.of_nat (length cs') < 2 * Z.of_nat (length edges) - Z.b2z written + Z.of_nat (length controls) ->
    budget (L ++ [Propagating k n outputs es' false cs' r'] ++ R, set_exec e' x) < budget (L ++ t :: R, x)).
  { intros d es' cs' r' e' Edec Hlt. unfold decrement in Edec. destruct (pending_ e !! d) as [c|]; [|done]. simplify_eq. eapply (budget_frame L t _ R x _ []); [by rewrite app_nil_r|done|].
    rewrite zsum_one, zsum_nil. unfold exec_cost. rewrite Ee. cbn [thread_cost t exec set_exec num_outstanding_ops_ with_pending finish_when_deferred_ops_done_ num_deferred_ops_]. simpl Z.b2z at 1.
    destruct (c =? 1); rewrite ?length_app; simpl length; lia. }
  destruct edges as [|ed edges].
  - assert (written = false) as -> by (destruct written; [by destruct (Hwr eq_refl)|done]). destruct controls as [|d controls].
    + unfold with_item in E. rewrite Hitem in E. destruct (clear_outputs_ok k item outputs Hlen Hlen1) as (o & Eo & Ho). rewrite Eo in E.
      assert (Hr : at_report t k ready) by (split; try done; intros d; unfold tok, t; cbn [tokens]; by rewrite zsum_app).
      assert (Hcost : thread_cost t = cont_cost k + 1 + 8 * Z.of_nat (length ready)) by (unfold t; cbn [thread_cost]; simpl; lia).
      assert (HW : 1 <= num_outstanding_ops_ e /\ num_outstanding_ops_ e + Z.of_nat (length ready) < 2 ^ 31).
      { destruct (exec_present V p L t R x Hinv) as (e0 & Ee0 & He); [rewrite (ar_weight _ _ _ Hr); pose proof (finisher_nonneg t); lia|]. assert (e0 = e) as -> by congruence.
        pose proof (ready_bound V Hv p _ _ _ _ _ _ _ _ _ _ (inv_counts _ _ _ Hinv)) as Hb. pose proof (vo_size _ Hv). fold t in Hb. rewrite (eo_outstanding _ _ _ _ He). cbn [fst] in *. rewrite zsum_mid in *.
        rewrite (ar_weight _ _ _ Hr) in *. pose proof (zsum_nonneg weight L thread_weight_nonneg). pose proof (zsum_nonneg weight R thread_weight_nonneg). lia. }
      unfold NodeDone_ok in E. destruct ready as [|r ready]; cbn [fetch_sub_outstanding] in E.
      * simplify_eq. rewrite <- (app_nil_r (resume _ _ _ _ _)). apply (report_cost p e L t R x k [] (inline_of k) []); [done|done|done|done|done|rewrite zsum_nil; simpl length; lia|done|]. rewrite int32_in_range by (simpl length in HW; lia).
        destruct (Z.eqb_spec (num_outstanding_ops_ e) 1), (Z.eqb_spec (num_outstanding_ops_ e - 1) 0); done || lia.
      * destruct (ScheduleReady a (ch_expensive ch) (r :: ready) (inline_of k)) as [q tasks] eqn:Es. simplify_eq.
        destruct (ScheduleReady_ok a _ _ _ _ _ (opt_queue_inline k Hk) Es) as (_ & Hqs & _). pose proof (ScheduleReady_cost (ch_expensive ch) (r :: ready) (inline_of k) q tasks (opt_queue_inline k Hk) ltac:(done) Es) as Hc.
        match goal with |- context [set_exec ?u x] => set (e' := u) end. assert (He' : e' = with_outstanding (num_outstanding_ops_ e') e) by (unfold e'; destruct (1 <? _)%nat; by destruct e).
        rewrite He'. apply (report_cost p e L t R x k (r :: ready)); try done. symmetry. apply Z.eqb_neq. unfold e'. destruct (1 <? _)%nat; [|lia].
        cbn [num_outstanding_ops_ with_outstanding]. simpl length in *. rewrite int32_in_range by lia. lia.
    + destruct (decrement d ready e) as [[r' e']| |] eqn:Edec; [|done..]. simplify_eq. eapply Hdec; [done|]. simpl. lia.
  - destruct written.
    + destruct (decrement (dst_id ed) ready e) as [[r' e']| |] eqn:Edec; [|done..]. simplify_eq. eapply Hdec; [done|]. simpl length. simpl Z.b2z. lia.
    + unfold write_edge in E. destruct (outputs !! output_slot ed), (input_tensors_ e !! input_slot ed); try done. simplify_eq. eapply (budget_frame L t _ R x _ []); [by rewrite app_nil_r|done|].
      rewrite zsum_one, zsum_nil. unfold exec_cost. rewrite Ee. cbn [thread_cost t exec set_exec num_outstanding_ops_ with_inputs finish_when_deferred_ops_done_ num_deferred_ops_]. simpl Z.b2z. lia.
Qed.

Lemma failed_budget p L R x ch k n s ts x' : inv V p (L ++ Failed k n s :: R, x) -> thread_step V a ch (Failed k n s) x = Done (ts, x') ->
  budget (L ++ ts ++ R, x') < budget (L ++ Failed k n s :: R, x).
Proof using Hv.
  intros Hinv E. destruct (exec_present V p L _ R x Hinv) as (e & Ee & He); [cbn [weight finisher]; pose proof (b2z_nonneg (cont_completed k)); lia|].
  pose proof (co_threads _ _ _ (inv_counts _ _ _ Hinv)) as Hts. cbn [fst] in Hts. rewrite Forall_app, Forall_cons in Hts. destruct Hts as (_ & Ht & _).
  cbn [thread_step] in E. unfold with_exec in E. rewrite Ee in E. cbn [fetch_sub_outstanding] in E. simplify_eq. rewrite <- (app_nil_r (resume _ _ _ _ _)).
  apply (report_cost p e L (Failed k n s) R x k [] (inline_of k) []); [done|done|by split|done|done|rewrite zsum_nil; simpl length; lia|cbn [thread_cost]; simpl length; lia|].
  pose proof (weight_bound V Hv p _ (inv_counts _ _ _ Hinv)) as Hb. pose proof (vo_size _ Hv). rewrite (eo_outstanding _ _ _ _ He). cbn [fst] in *. rewrite zsum_mid in *. cbn [weight] in *.
  pose proof (zsum_nonneg weight L thread_weight_nonneg). pose proof (zsum_nonneg weight R thread_weight_nonneg). rewrite int32_in_range by lia.
  match goal with |- (?u =? 1) = _ => destruct (Z.eqb_spec u 1), (Z.eqb_spec (u - 1) 0); done || lia end.
Qed.

Lemma ending_budget p L t R x ch ts x' : inv V p (L ++ t :: R, x) -> finisher t = 1 -> match t with FinishScheduled _ | Finishing _ | Syncing => True | _ => False end ->
  thread_step V a ch t x = Done (ts, x') -> budget (L ++ ts ++ R, x') < budget (L ++ t :: R, x).
Proof using.
  intros Hinv Hf Ht E. destruct (exec_present V p L t R x Hinv) as (e & Ee & He); [pose proof (thread_weight_nonneg t); lia|].
  destruct (finisher_alone V p e L t R x He Hf) as (HW & _ & Hflag). pose proof (eo_outstanding _ _ _ _ He) as Ho. cbn [fst] in Ho. rewrite HW in Ho.
  assert (Hx : exec_cost x = 0) by (unfold exec_cost; by rewrite Ee, Hflag, Ho).
  destruct t as [ns|rest l|rest l n|n|k n o es wr cs r|k n s|k n s|rest|rest| |s]; try done; cbn [thread_step] in E.
  - unfold ScheduleFinish, with_exec in E. rewrite Ee in E. destruct (0 <? num_deferred_ops_ e) eqn:Ed; injection E as <- <-; (eapply (budget_frame L _ _ R x _ []); [by rewrite app_nil_r|done|]); rewrite zsum_one, zsum_nil, !Hx; cbn [thread_cost]; [|lia].
    unfold exec_cost. cbn [set_exec exec with_deferred num_outstanding_ops_ finish_when_deferred_ops_done_ num_deferred_ops_]. rewrite Ho, Ed. simpl. lia.
  - unfold Finish, with_exec in E. rewrite Ee in E. destruct (negb (done_cb_ e)); [done|]. destruct (negb (allows_sync_on_completion a)); [|destruct (sync_on_finish_ a && ok (status_ e))]; injection E as <- <-.
    + eapply budget_frame; [done|done|]. rewrite !zsum_cons, zsum_nil, Hx. match goal with |- context [zsum ended_cost ?l] => assert (zsum ended_cost l = 0) as -> by (destruct (ok _); [done|]; unfold abort_events; by destruct (has_rendezvous a), (has_cancellation_manager a), (has_collective_executor a)) end.
      cbn [thread_cost exec_cost delete_exec emit exec]. simpl length. unfold exec_cost. cbn. lia.
    + eapply (budget_frame L _ _ R x _ []); [by rewrite app_nil_r|done|]. rewrite !zsum_cons, !zsum_nil, Hx. unfold exec_cost. cbn [thread_cost set_exec exec with_done_cb num_outstanding_ops_ finish_when_deferred_ops_done_ num_deferred_ops_]. rewrite Ho, Hflag. simpl length. simpl. lia.
    + eapply (budget_frame L _ _ R x _ []); [by rewrite app_nil_r|done|]. rewrite !zsum_cons, !zsum_nil, Hx. unfold exec_cost. cbn [thread_cost delete_exec exec]. lia.
  - unfold with_exec in E. rewrite Ee in E. injection E as <- <-. eapply (budget_frame L _ _ R x _ [EvDevice (ch_device ch)]); [done|done|]. rewrite !zsum_cons, !zsum_nil, Hx. unfold exec_cost. cbn [thread_cost ended_cost delete_exec emit exec]. lia.
Qed.

Lemma thread_step_budget p L t R x ch ts x' : inv V p (L ++ t :: R, x) -> thread_step V a ch t x = Done (ts, x') -> budget (L ++ ts ++ R, x') < budget (L ++ t :: R, x).
Proof using Hv.
  intros Hinv E. pose proof (co_threads _ _ _ (inv_counts _ _ _ Hinv)) as Hts. cbn [fst] in Hts. rewrite Forall_app, Forall_cons in Hts. destruct Hts as (_ & Ht & _).
  destruct t as [ns|rest l|rest l n|n|k n o es wr cs r|k n s|k n s|rest|rest| |s]; try (by eapply ending_budget); cbn [thread_step thread_ok] in *.
  - destruct ns as [|n ns]; injection E as <- <-; (eapply (budget_frame L _ _ R x _ []); [by rewrite app_nil_r|done|]); rewrite ?zsum_one, ?zsum_nil; cbn [thread_cost cont_cost inline_ready completed]; [simpl length; lia|].
    destruct (push_back_ok n queue_new queue_new_ok) as [_ ->]. simpl length. simpl Z.b2z. lia.
  - destruct Ht as [Hq Hlen]. rewrite queue_empty_list in E by done. destruct (queue_list (inline_ready l)) as [|n q] eqn:El.
    + rewrite bool_decide_eq_true_2 in E by done. injection E as <- <-. eapply (budget_frame L _ _ R x _ []); [by rewrite app_nil_r|done|]. rewrite zsum_one, zsum_nil. destruct (completed l) eqn:Ec; cbn [thread_cost cont_cost]; rewrite El, Ec; simpl length; simpl Z.b2z; lia.
    + rewrite bool_decide_eq_false_2 in E by done. destruct (pop_front_ok n q _ Hq El) as (Hfr & _ & El'). rewrite Hfr in E. unfold with_item in E. destruct (gview V !! n) as [[item|]|] eqn:Hitem; [|done..].
      set (l' := mkLocals _ _ _ _) in E. assert (Hc : thread_cost (Looping rest l) = cont_cost (InLoop rest l') + 4) by (cbn [thread_cost cont_cost l' inline_ready completed]; rewrite El, El'; simpl length; lia).
      unfold start_node in E. destruct (is_noop item); [eapply finish_node_budget; [|done|exact E]; lia|].
      destruct (const_tensor_ item) as [ct|]; [|eapply launch_kernel_budget; [|exact E]; lia]. destruct (ch_track_allocations ch); [eapply launch_kernel_budget; [|exact E]; lia|].
      destruct (loop_outputs l'); [done|]. eapply finish_node_budget; [|done|exact E]. lia.
  - unfold kernel_done, with_item in E. destruct (gview V !! n) as [[item|]|] eqn:Hitem; [|done..]. destruct (ProcessOutputs _ _ _) as [s o]. eapply (finish_node_budget L (Computing rest l n) R (set_refs (ctx_refs (ch_result ch)) x)) in E; [exact E|cbn [thread_cost]; lia|done].
  - unfold kernel_done, with_item in E. destruct (gview V !! n) as [[item|]|] eqn:Hitem; [|done..]. destruct (ProcessOutputs _ _ _) as [s o]. eapply (finish_node_budget L (AsyncComputing n) R (set_refs (ctx_refs (ch_result ch)) x)) in E; [exact E|cbn [thread_cost cont_cost]; lia|done].
  - by eapply propagate_budget.
  - unfold with_exec in E. destruct (exec x) as [e|] eqn:Ee; [|done]. destruct (NodeDone_error a (ch_cancelled ch) s e) as [l e'] eqn:En. destruct (NodeDone_error_spec a _ _ _ _ _ En) as ([_ Sd Sf _] & _ & Ho & Hl). injection E as <- <-.
    eapply (budget_frame L _ _ R x _ (EvFailed n s :: l)); [done|done|]. rewrite zsum_one, zsum_cons, Hl by done. cbn [thread_cost ended_cost]. unfold exec_cost. rewrite Ee. cbn [emit set_exec exec]. rewrite Ho, Sd, Sf.
    assert (0 < node_cost n); [|lia]. unfold node_cost. assert (is_item V n = true) as Hi.
    { eapply (token_item V Hv p); [apply Hinv|cbn [fst]; apply elem_of_app; right; left|]. cbn [tokens]. left. }
    apply is_item_true in Hi as [item ->]. lia.
  - by apply (failed_budget p L R x ch k n s).
  - injection E as <- <-. eapply (budget_frame L _ _ R x _ [EvDone s]); [done|done|]. rewrite zsum_nil, zsum_one. cbn [ended_cost thread_cost]. unfold exec_cost. cbn [emit exec]. lia.
Qed.

Lemma perform_budget p act w w' : inv V p w -> enabled act w = true -> perform V a act w = Done w' -> budget w' + spent act <= budget w.
Proof using Hv.
  intros Hinv En E. destruct act as [i ch|i|]; cbn [perform spent enabled] in *.
  - destruct (w.1 !! i) as [t|] eqn:Ht; [|done]. destruct (thread_step V a ch t w.2) as [[ts x']| |] eqn:Es; [|done..]. simplify_eq. destruct w as [ts0 x]. cbn [fst snd] in *.
    rewrite <- (take_drop_middle ts0 i t Ht) in Hinv. pose proof (thread_step_budget p _ _ _ _ _ _ _ Hinv Es) as Hb. rewrite (take_drop_middle ts0 i t Ht) in Hb. lia.
  - destruct (w.1 !! i) as [t|] eqn:Ht; [|done]. destruct w as [ts x]. cbn [fst snd] in *. pose proof (take_drop_middle ts i t Ht) as Hts. rewrite <- Hts in Hinv. assert (Hw : 0 < weight t) by (destruct t; try discriminate En; cbn; lia).
    destruct (exec_present V p _ t _ x Hinv) as (e & Ee & He); [pose proof (finisher_nonneg t); lia|]. rewrite Hts in He. pose proof (zsum_elem weight ts t thread_weight_nonneg (list_elem_of_lookup_2 _ _ _ Ht)).
    assert (Hff : finish_when_deferred_ops_done_ e = false) by (pose proof (eo_flag _ _ _ _ He) as Hf; cbn [fst] in Hf; destruct (finish_when_deferred_ops_done_ e); [lia|done]).
    unfold inc_num_deferred_ops, with_exec in E. rewrite Ee in E. simplify_eq. unfold budget, exec_cost. cbn [fst snd log deferred exec with_deferred num_outstanding_ops_ finish_when_deferred_ops_done_ num_deferred_ops_]. rewrite Ee, Hff. cbn [andb]. lia.
  - apply Nat.ltb_lt in En. unfold dec_num_deferred_ops, with_exec in E. destruct Hinv as [_ He]. destruct (exec w.2) as [e|] eqn:Ee; [|done]. pose proof (eo_deferred _ _ _ _ He) as Hd. simplify_eq.
    unfold budget, exec_cost. cbn [fst snd log deferred exec with_deferred num_outstanding_ops_ finish_when_deferred_ops_done_ num_deferred_ops_]. rewrite Ee, zsum_app. rewrite (proj2 (Z.ltb_lt 0 (num_deferred_ops_ e))) by lia.
    destruct (finish_when_deferred_ops_done_ e), (Z.eqb_spec (num_deferred_ops_ e - 1) 0), (Z.ltb_spec 0 (num_deferred_ops_ e - 1)); cbn [andb]; rewrite ?zsum_one, ?zsum_nil; cbn [thread_cost]; simpl length; lia.
Qed.
End Budget.
