(* ===== verification/ExecutorResults.v ===== *)
(** * Results do not depend on the schedule

    When every kernel is a function of its inputs and returns its outputs by
    value, two runs of a graph that start a node start it on the same inputs, and
    what the node produces is the same. *)
From S2P Require Import Prelude PendingCounts Counting GraphView Executor ExecutorInv ExecutorSteps ExecutorData.
From stdpp Require Import list gmap options.
#[local] Open Scope Z_scope.

Section Results.
Context (V : ImmutableExecutorState) (Hv : view_ok V) (a : Args) (K : nat -> list KernelInput -> KernelResult) (track : bool).

(** The kernel a thread is in. *)
Definition computing (t : thread) : option nat := match t with Computing _ _ n | AsyncComputing n => Some n | _ => None end.

(** Kernels return what [K] says of the inputs they were started on. *)
Definition obeys (w : world) (act : action) : Prop :=
  match act with
  | Run i ch => ch_track_allocations ch = track /\
      forall t n ins, w.1 !! i = Some t -> computing t = Some n -> EvStart n ins ∈ log w.2 -> ch_result ch = K n ins
  | _ => True
  end.

Inductive runs_with (r0 : nat -> Tensor) : world -> Prop :=
  | runs_start : runs_with r0 (RunAsync V a StatusOK r0)
  | runs_step w act w' : runs_with r0 w -> enabled act w = true -> obeys w act -> perform V a act w = Done w' -> runs_with r0 w'.

Lemma runs_reachable r0 w : runs_with r0 w -> reachable V a StatusOK r0 w.
Proof using. induction 1; [apply reach_start|by eapply reach_step]. Qed.

(** A node whose kernel runs. *)
Definition kernel_node (item : NodeItem) : bool :=
  negb (is_noop item) && match const_tensor_ item with Some _ => track | None => true end.

(** What a node leaves at output [i], given the inputs of its kernel. *)
Definition produced (item : NodeItem) (n : nat) (ins : list KernelInput) (i : nat) : EntryState :=
  if kernel_node item then
    if (i <? item_outputs item)%nat then state (process_output item (K n ins) i Entry_new).2 else NO_VALUE
  else
    match i, const_tensor_ item with
    | O, Some t => if is_noop item then NO_VALUE else HAS_CONST_TENSOR t
    | _, _ => NO_VALUE
    end.

Definition clean (l : list Entry) : Prop := Forall (fun e => state e = NO_VALUE) l.

Definition cont_clean (k : cont) : Prop := match k with InLoop _ l => clean (loop_outputs l) | InCallback => True end.

Definition thread_clean (lg : list event) (t : thread) : Prop :=
  match t with
  | Looping _ l => clean (loop_outputs l)
  | Computing _ l n => clean (loop_outputs l) /\ exists ins, EvStart n ins ∈ lg
  | AsyncComputing n => exists ins, EvStart n ins ∈ lg
  | Propagating k n outputs _ _ _ _ => cont_clean k /\ forall item, item_at V n item -> clean (drop (item_outputs item) outputs)
  | Failing k _ _ | Failed k _ _ => cont_clean k
  | _ => True
  end.

Definition output_ok (lg : list event) (n : nat) (outs : list Entry) : Prop :=
  exists item ins, item_at V n item /\ (kernel_node item = true -> EvStart n ins ∈ lg) /\
    forall i e, outs !! i = Some e -> state e = produced item n ins i.

Record results_ok (w : world) : Prop := {
  ro_threads : Forall (thread_clean (log w.2)) w.1;
  ro_outputs n outs : EvOutputs n outs ∈ log w.2 -> output_ok (log w.2) n outs
}.

(** ** Frames *)
Lemma clean_app l t k : thread_clean l t -> thread_clean (l ++ k) t.
Proof using. destruct t; cbn [thread_clean]; try done; [intros [? [ins ?]]; split; [done|]|intros [ins ?]]; exists ins; apply elem_of_app; by left. Qed.

Lemma results_frame L t ts R x x' l : results_ok (L ++ t :: R, x) -> log x' = log x ++ l -> Forall (thread_clean (log x')) ts ->
  (forall n outs, EvOutputs n outs ∈ l -> output_ok (log x') n outs) -> results_ok (L ++ ts ++ R, x').
Proof using.
  intros [R1 R2] Hl Hts Ho. cbn [fst snd] in *. split; cbn [fst snd].
  - rewrite Forall_app, Forall_cons in R1. rewrite !Forall_app. rewrite Hl in *. split_and!; [|done|]; (eapply Forall_impl; [apply R1|]; intros; by apply clean_app).
  - intros n outs Hin. pose proof Hin as Hin'. rewrite Hl, elem_of_app in Hin'. destruct Hin' as [Hin'|Hin']; [|by apply Ho]. destruct (R2 n outs Hin') as (item & ins & Hi & Hk & Hv').
    exists item, ins. split_and!; try done. intros Hkn. rewrite Hl. apply elem_of_app. left. by apply Hk.
Qed.

Lemma clean_clear k item o o' : (forall item', item' = item -> clean (drop (item_outputs item') o)) -> clear_outputs k item o = Done o' -> k <> InCallback -> (item_outputs item <= length o)%nat -> clean o'.
Proof using.
  intros Hc E Hk Hlen. destruct k; [|done]. cbn [clear_outputs] in E. destruct (clear_entries_spec 0 (item_outputs item) o) as (l' & E' & Hl' & Hout & Hin); [lia|]. rewrite E' in E. simplify_eq.
  apply Forall_lookup. intros i e Hi. destruct (decide (i < item_outputs item)%nat) as [Hlt|Hge]; [eapply Hin; [|exact Hi]; lia|].
  rewrite Hout in Hi by lia. specialize (Hc item eq_refl). unfold clean in Hc. rewrite Forall_lookup in Hc. apply (Hc (i - item_outputs item)%nat). rewrite lookup_drop. rewrite <- Hi. f_equal. lia.
Qed.

Lemma finish_node_results L t R x k n item s outputs ts x' : results_ok (L ++ t :: R, x) -> cont_clean k -> item_at V n item ->
  (item_outputs item <= length outputs)%nat -> clean (drop (item_outputs item) outputs) ->
  (ok s = true -> output_ok (log x) n outputs) -> finish_node k n item s outputs x = Done (ts, x') -> results_ok (L ++ ts ++ R, x').
Proof using.
  intros Hr Hk Hitem Hlen Hc Ho E. unfold finish_node, with_exec in E. destruct (exec x) as [e|]; [|done]. destruct (clear_entries _ _ _) as [l'| |]; [|done..]. destruct (ok s).
  - simplify_eq. eapply (results_frame L t _ R x _ [EvOutputs n outputs]); [done|done| |].
    + apply Forall_singleton. split; [done|]. intros item' Hi. unfold item_at in *. by simplify_eq.
    + intros m outs Hm%list_elem_of_singleton. simplify_eq. destruct (Ho eq_refl) as (it & ins & Hi & Hkn & Hval). exists it, ins. split_and!; try done. intros H. apply elem_of_app. left. by apply Hkn.
  - destruct (clear_outputs k item outputs) as [o| |] eqn:Eo; [|done..]. simplify_eq. eapply (results_frame L t _ R x _ []); [done|by rewrite app_nil_r| |by intros m outs ?%not_elem_of_nil].
    apply Forall_singleton. cbn [thread_clean]. destruct k as [rest l|]; [|done]. cbn [keep_outputs cont_clean loop_outputs]. eapply clean_clear; try done. by intros item' ->.
Qed.

(** ** What kernels leave *)
Lemma process_output_state item r i out : state out = NO_VALUE -> state (process_output item r i out).2 = state (process_output item r i Entry_new).2.
Proof using. intros Ho. unfold process_output. destruct (mjoin _); [|done]. by destruct (bool_decide _). Qed.

Lemma process_outputs_state item r i n st o j e : clean o -> (process_outputs item r i n st o).2 !! j = Some e ->
  state e = if (j <? n)%nat then state (process_output item r (i + j) Entry_new).2 else NO_VALUE.
Proof using.
  revert i n st j. induction o as [|out o IH]; intros i n st j Hc Hj; [destruct n; simpl in Hj; done|]. apply Forall_cons in Hc as [Hout Hc]. destruct n as [|n]; cbn [process_outputs] in Hj.
  - cbn [snd] in Hj. destruct j; [simpl in Hj; by simplify_eq|]. unfold clean in Hc. rewrite Forall_lookup in Hc. exact (Hc _ _ Hj).
  - pose proof (process_output_state item r i out Hout) as Hs. destruct (process_output item r i out) as [s1 out'] eqn:E1. cbn [snd] in Hs. specialize (IH (S i) n (Update st s1)). destruct (process_outputs item r (S i) n (Update st s1) o) as [s2 rest]. cbn [snd] in *.
    destruct j as [|j]; [simpl in Hj; simplify_eq; by rewrite Nat.add_0_r|]. specialize (IH j Hc Hj). rewrite IH. replace (S i + j)%nat with (i + S j)%nat by lia. done.
Qed.

Lemma grow_clean n o : clean o -> clean (grow_outputs n o).
Proof using. intros Hc. apply Forall_app. split; [done|]. by apply Forall_replicate. Qed.

Lemma clean_drop n o : clean o -> clean (drop n o).
Proof using. apply Forall_drop. Qed.

Lemma kernel_done_results L t R x ch k n outputs ts x' ins : results_ok (L ++ t :: R, x) -> cont_clean k -> clean outputs -> EvStart n ins ∈ log x -> ch_result ch = K n ins ->
  (forall item, item_at V n item -> kernel_node item = true) -> kernel_done V ch k n outputs x = Done (ts, x') -> results_ok (L ++ ts ++ R, x').
Proof using.
  intros Hr Hk Hc Hst Hch Hkn E. unfold kernel_done, with_item in E. destruct (gview V !! n) as [[item|]|] eqn:Hitem; [|done..]. rewrite Hch in E. specialize (Hkn item Hitem).
  pose proof (grow_clean (item_outputs item) outputs Hc) as Hg. assert (Hlg : (item_outputs item <= length (grow_outputs (item_outputs item) outputs))%nat) by (unfold grow_outputs; rewrite length_app, length_replicate; lia).
  pose proof (ProcessOutputs_length item (K n ins) (grow_outputs (item_outputs item) outputs)) as Hlen.
  assert (Hstate : forall j e, (ProcessOutputs item (K n ins) (grow_outputs (item_outputs item) outputs)).2 !! j = Some e -> ok (ctx_status (K n ins)) = true -> state e = produced item n ins j).
  { intros j e Hj Hok. unfold ProcessOutputs in Hj. rewrite Hok in Hj. apply process_outputs_state in Hj; [|done]. rewrite Hj. unfold produced. by rewrite Hkn. }
  assert (Hdrop : clean (drop (item_outputs item) (ProcessOutputs item (K n ins) (grow_outputs (item_outputs item) outputs)).2)).
  { unfold ProcessOutputs. destruct (ok (ctx_status (K n ins))); [|by apply clean_drop]. apply Forall_lookup. intros j e Hj. rewrite lookup_drop in Hj. apply process_outputs_state in Hj; [|done]. rewrite Hj.
    destruct (Nat.ltb_spec (item_outputs item + j) (item_outputs item)); [lia|done]. }
  destruct (ProcessOutputs item (K n ins) (grow_outputs (item_outputs item) outputs)) as [s o] eqn:Epo. cbn [snd] in *.
  eapply (finish_node_results L t R (set_refs (ctx_refs (K n ins)) x)); [|done|done| |done| |exact E]; [destruct Hr; by split|lia|]. intros Hok. exists item, ins. split_and!; try done.
  intros i e He. apply Hstate; [done|]. unfold ProcessOutputs in Epo. destruct (ok (ctx_status (K n ins))) eqn:Ec; [done|]. simplify_eq. exfalso. clear -Hok Ec. unfold kernel_error in Hok. destruct (ctx_status (K n ins)) as [|[]]; simplify_eq; by destruct (is_distributed_communication item).
Qed.

Lemma resume_clean lg k q outputs s b tasks : (k <> InCallback -> clean outputs) -> Forall (thread_clean lg) (resume k q outputs s b ++ map Closure tasks).
Proof using.
  intros Hc. rewrite Forall_app. split; [|apply Forall_fmap, Forall_true; done]. destruct k; cbn [resume]; [|destruct b; by constructor]. apply Forall_singleton. by apply Hc.
Qed.

(** Starts are those of nodes with kernels. *)
Definition starts_ok (w : world) : Prop := forall n ins item, EvStart n ins ∈ log w.2 -> item_at V n item -> kernel_node item = true.

Definition quiet_start (ev : event) : bool := match ev with EvStart _ _ => false | _ => true end.

Lemma starts_frame ts ts' x x' l : starts_ok (ts, x) -> log x' = log x ++ l -> forallb quiet_start l = true -> starts_ok (ts', x').
Proof using.
  intros Hs Hl Hq n ins item Hin Hi. cbn [snd] in Hin. rewrite Hl, elem_of_app in Hin. destruct Hin as [Hin|Hin]; [by eapply Hs|]. rewrite forallb_forall in Hq. apply list_elem_of_In, Hq in Hin. done.
Qed.

Lemma launch_kernel_results L t R x rest l n item ts x' : results_ok (L ++ t :: R, x) -> starts_ok (L ++ t :: R, x) -> clean (loop_outputs l) -> item_at V n item -> kernel_node item = true ->
  launch_kernel rest l n item x = Done (ts, x') -> results_ok (L ++ ts ++ R, x') /\ starts_ok (L ++ ts ++ R, x').
Proof using.
  intros Hr Hs Hc Hitem Hkn E. unfold launch_kernel, with_exec in E. destruct (exec x) as [e|]; [|done]. cbv zeta in E. destruct (_ <? _)%nat; [done|]. set (pr := PrepareInputs _ _ _ _) in E. destruct (ok (prep_status pr)).
  - assert (Hx : x' = emit [EvStart n (prep_inputs pr)] (set_exec (with_inputs (take (input_start item) (input_tensors_ e) ++ prep_entries pr ++ drop (input_start item + item_inputs item) (input_tensors_ e)) e) x)) by (destruct (kernel_is_async item); by simplify_eq).
    assert (Hin : EvStart n (prep_inputs pr) ∈ log x') by (rewrite Hx; apply elem_of_app; right; left). split.
    + eapply (results_frame L t _ R x _ [EvStart n (prep_inputs pr)]); [done|by rewrite Hx| |by intros m outs H%list_elem_of_singleton]. destruct (kernel_is_async item); simplify_eq; repeat constructor; cbn [thread_clean]; eauto.
    + intros m ins it Hm Hi. rewrite Hx in Hm. cbn [snd emit set_exec log] in Hm. rewrite elem_of_app, list_elem_of_singleton in Hm. destruct Hm as [Hm|Hm]; [by eapply Hs|]. simplify_eq. unfold item_at in *. by simplify_eq.
  - destruct (clear_entries _ _ _) as [l'| |]; [|done..]. simplify_eq. split; [|eapply starts_frame; [exact Hs|by rewrite app_nil_r|done]].
    eapply (results_frame L t _ R x _ []); [done|by rewrite app_nil_r|by repeat constructor|by intros m outs ?%not_elem_of_nil].
Qed.

Lemma finish_node_starts ts0 ts1 x k n item s outputs ts x' : starts_ok (ts0, x) -> finish_node k n item s outputs x = Done (ts, x') -> starts_ok (ts1, x').
Proof using.
  intros Hs E. unfold finish_node, with_exec in E. destruct (exec x) as [e|]; [|done]. destruct (clear_entries _ _ _) as [l'| |]; [|done..]. destruct (ok s).
  - simplify_eq. by eapply (starts_frame ts0 _ x _ [EvOutputs n outputs]).
  - destruct (clear_outputs k item outputs) as [o| |]; [|done..]. simplify_eq. eapply (starts_frame ts0 _ x _ []); [done|by rewrite app_nil_r|done].
Qed.

Lemma start_node_results L t R x ch rest l n item ts x' : results_ok (L ++ t :: R, x) -> starts_ok (L ++ t :: R, x) -> clean (loop_outputs l) -> (1 <= length (loop_outputs l))%nat -> item_at V n item ->
  ch_track_allocations ch = track -> start_node ch rest l n item x = Done (ts, x') -> results_ok (L ++ ts ++ R, x') /\ starts_ok (L ++ ts ++ R, x').
Proof using Hv.
  intros Hr Hs Hc Hlen Hitem Htr E. unfold start_node in E. destruct (is_noop item) eqn:En.
  - split; [|by eapply finish_node_starts]. pose proof (vo_noop _ Hv n item Hitem En). eapply (finish_node_results L t R x (InLoop rest l) n item (loop_s l) (loop_outputs l)); [done|done|done|lia|by apply clean_drop| |exact E]. intros _. exists item, []. split_and!; [done|by unfold kernel_node; rewrite En|].
    intros i e He. unfold clean in Hc. rewrite Forall_lookup in Hc. rewrite (Hc i e He). unfold produced, kernel_node. rewrite En. cbn [negb andb]. destruct i, (const_tensor_ item); done.
  - assert (Hk : (const_tensor_ item = None \/ track = true) -> kernel_node item = true) by (unfold kernel_node; rewrite En; intros [->| ->]; [done|by destruct (const_tensor_ item)]).
    destruct (const_tensor_ item) as [ct|] eqn:Ect; [|apply (launch_kernel_results L t R x rest l n item); auto]. rewrite Htr in E. destruct track eqn:Et; [apply (launch_kernel_results L t R x rest l n item); auto|].
    destruct (loop_outputs l) as [|o os] eqn:Eo; [done|]. apply Forall_cons in Hc as [Ho Hos]. split; [|by eapply finish_node_starts]. pose proof (vo_const _ Hv n item Hitem ltac:(rewrite Ect; eauto)) as Hone.
    eapply (finish_node_results L t R x (InLoop rest l) n item (loop_s l) (_ :: os)); [done|by cbn [cont_clean]; rewrite Eo; constructor|done|rewrite Hone; simpl; lia|by rewrite Hone| |exact E].
    + intros _. exists item, []. split_and!; [done|by unfold kernel_node; rewrite En, Ect, Et|]. intros i e He. unfold produced, kernel_node. rewrite En, Ect, Et. cbn [negb andb].
      destruct i as [|i]; [simpl in He; by simplify_eq|]. unfold clean in Hos. rewrite Forall_lookup in Hos. exact (Hos i e He).
Qed.

Lemma propagate_results p L R x ch k n outputs edges written controls ready ts x' : let t := Propagating k n outputs edges written controls ready in
  inv V p (L ++ t :: R, x) -> results_ok (L ++ t :: R, x) -> propagate V a ch k n outputs edges written controls ready x = Done (ts, x') -> results_ok (L ++ ts ++ R, x') /\ log x' = log x.
Proof using Hv.
  intros t Hinv Hr E. pose proof (co_threads _ _ _ (inv_counts _ _ _ Hinv)) as Hts. cbn [fst] in Hts. rewrite Forall_app, Forall_cons in Hts. destruct Hts as (_ & (Hk & Hlen1 & item & pre & cpre & Hitem & Hlen & Hed & _ & Hwr) & _).
  pose proof (ro_threads _ Hr) as Hcl. cbn [fst snd] in Hcl. rewrite Forall_app, Forall_cons in Hcl. destruct Hcl as (_ & [Hck Hdrop] & _). specialize (Hdrop item Hitem).
  unfold propagate, with_exec in E. destruct (exec x) as [e|] eqn:Ee; [|done].
  assert (Hq : forall e', x' = set_exec e' x -> Forall (thread_clean (log x)) ts -> results_ok (L ++ ts ++ R, x') /\ log x' = log x).
  { intros e' -> Hc. split; [|done]. eapply (results_frame L t _ R x _ []); [done|by rewrite app_nil_r|done|by intros m outs ?%not_elem_of_nil]. }
  assert (Hsame : forall es' wr' cs' r', thread_clean (log x) (Propagating k n outputs es' wr' cs' r')) by (intros; split; [done|]; intros it Hi; unfold item_at in *; by simplify_eq).
  destruct edges as [|ed edges]; [destruct controls as [|d controls]|destruct written].
  - unfold with_item in E. rewrite Hitem in E. destruct (clear_outputs k item outputs) as [o| |] eqn:Eo; [|done..]. assert (Hco : k <> InCallback -> clean o) by (intros Hne; eapply clean_clear; try done; by intros ? ->).
    unfold NodeDone_ok in E. destruct ready as [|r ready]; cbn [fetch_sub_outstanding] in E.
    + simplify_eq. eapply Hq; [done|]. rewrite <- (app_nil_r (resume _ _ _ _ _)). by apply (resume_clean _ _ _ _ _ _ []).
    + destruct (ScheduleReady _ _ _ _) as [q tasks]. simplify_eq. eapply Hq; [done|by apply resume_clean].
  - destruct (decrement d ready e) as [[r' e']| |]; [|done..]. simplify_eq. eapply Hq; [done|]. apply Forall_singleton, Hsame.
  - destruct (decrement (dst_id ed) ready e) as [[r' e']| |]; [|done..]. simplify_eq. eapply Hq; [done|]. apply Forall_singleton, Hsame.
  - destruct (vo_edge _ Hv n item ed Hitem) as (Hslot & _); [rewrite Hed; apply elem_of_app; right; left|]. unfold write_edge in E. destruct (outputs !! output_slot ed), (input_tensors_ e !! input_slot ed); try done. simplify_eq. eapply Hq; [done|].
    apply Forall_singleton. split; [done|]. intros it Hi. unfold item_at in *. simplify_eq. destruct (is_last ed); [|done]. by rewrite drop_insert_lt by lia.
Qed.

Definition results_inv (w : world) : Prop := results_ok w /\ starts_ok w.

Lemma results_refs ts x r : results_inv (ts, x) -> results_inv (ts, set_refs r x).
Proof using. intros [[R1 R2] Hs]. by split. Qed.

Lemma thread_step_results p L t R x ch ts x' : inv V p (L ++ t :: R, x) -> results_inv (L ++ t :: R, x) -> ch_track_allocations ch = track ->
  (forall n ins, computing t = Some n -> EvStart n ins ∈ log x -> ch_result ch = K n ins) -> thread_step V a ch t x = Done (ts, x') -> results_inv (L ++ ts ++ R, x').
Proof using Hv.
  intros Hinv [Hr Hs] Htr Hob E. pose proof (co_threads _ _ _ (inv_counts _ _ _ Hinv)) as Hts. cbn [fst] in Hts. rewrite Forall_app, Forall_cons in Hts. destruct Hts as (_ & Ht & _).
  pose proof (ro_threads _ Hr) as Hcl. cbn [fst snd] in Hcl. rewrite Forall_app, Forall_cons in Hcl. destruct Hcl as (_ & Hc & _).
  assert (Hq : forall l, log x' = log x ++ l -> forallb quiet_start l = true -> (forall n outs, EvOutputs n outs ∉ l) -> Forall (thread_clean (log x')) ts -> results_inv (L ++ ts ++ R, x')).
  { intros l Hl Hql Hno Hth. split; [|by eapply starts_frame]. eapply (results_frame L t ts R x x' l); try done. intros n outs Hin. by destruct (Hno n outs). }
  assert (Hq0 : log x' = log x -> Forall (thread_clean (log x')) ts -> results_inv (L ++ ts ++ R, x')) by (intros Hl; apply (Hq []); [by rewrite app_nil_r|done|intros; apply not_elem_of_nil]).
  assert (Hab : forall s, forallb quiet_start (abort_events a s) = true /\ forall n outs, EvOutputs n outs ∉ abort_events a s).
  { intros s. unfold abort_events. destruct (has_rendezvous a), (has_cancellation_manager a), (has_collective_executor a); (split; [done|set_solver]). }
  destruct t as [ns|rest l|rest l n|n|k n o es wr cs r|k n s|k n s|rest|rest| |s]; cbn [thread_step thread_ok thread_clean] in *.
  - destruct ns; injection E as <- <-; apply Hq0; try done; by repeat constructor.
  - destruct (queue_empty (inline_ready l)); [injection E as <- <-; apply Hq0; [done|]; apply Forall_singleton; by destruct (completed l)|]. destruct (front (inline_ready l)) as [n|]; [|done].
    unfold with_item in E. destruct (gview V !! n) as [[item|]|] eqn:Hitem; [|done..]. eapply start_node_results; [exact Hr|exact Hs| | |exact Hitem|exact Htr|exact E]; [exact Hc|exact (proj2 Ht)].
  - destruct Hc as [Hc [ins Hin]]. split; [eapply kernel_done_results; [exact Hr| | |exact Hin|by apply Hob|intros item Hi; by eapply Hs|exact E]; done|].
    unfold kernel_done, with_item in E. destruct (gview V !! n) as [[item|]|]; [|done..]. destruct (ProcessOutputs _ _ _). by eapply (finish_node_starts (L ++ Computing rest l n :: R) _ (set_refs _ x)).
  - destruct Hc as [ins Hin]. split; [eapply kernel_done_results; [exact Hr| | |exact Hin|by apply Hob|intros item Hi; by eapply Hs|exact E]; by try constructor|].
    unfold kernel_done, with_item in E. destruct (gview V !! n) as [[item|]|]; [|done..]. destruct (ProcessOutputs _ _ _). by eapply (finish_node_starts (L ++ AsyncComputing n :: R) _ (set_refs _ x)).
  - destruct (propagate_results p L R x ch k n o es wr cs r ts x' Hinv Hr E) as [? Hl]. split; [done|]. eapply (starts_frame _ _ x x' []); [done|by rewrite app_nil_r|done].
  - unfold with_exec in E. destruct (exec x) as [e|] eqn:Ee; [|done]. unfold NodeDone_error in E. destruct (ok (status_ e)); injection E as <- <-.
    + destruct (Hab s) as [H1 H2]. apply (Hq (EvFailed n s :: abort_events a s)); [done|done| |by repeat constructor]. intros m outs [?|?]%elem_of_cons; [done|by destruct (H2 m outs)].
    + apply (Hq [EvFailed n s]); [done|done| |by repeat constructor]. by intros m outs ?%list_elem_of_singleton.
  - unfold with_exec in E. destruct (exec x) as [e|]; [|done]. cbn [fetch_sub_outstanding] in E. injection E as <- <-. apply Hq0; [done|]. rewrite <- (app_nil_r (resume _ _ _ _ _)). apply (resume_clean _ _ _ _ _ _ []). by destruct k.
  - unfold ScheduleFinish, with_exec in E. destruct (exec x) as [e|]; [|done]. destruct (0 <? num_deferred_ops_ e); injection E as <- <-; apply Hq0; try done; by repeat constructor.
  - unfold Finish, with_exec in E. destruct (exec x) as [e|]; [|done]. destruct (negb (done_cb_ e)); [done|]. destruct (negb (allows_sync_on_completion a)); [|destruct (sync_on_finish_ a && ok (status_ e))]; injection E as <- <-.
    + eapply (Hq (EvDevice (ch_device ch) :: _)); [done| | |by repeat constructor].
      * cbn. destruct (ok _); [done|apply Hab].
      * intros m outs [?|Hin]%elem_of_cons; [done|]. destruct (ok _); [by apply not_elem_of_nil in Hin|by apply Hab in Hin].
    + apply Hq0; [done|by repeat constructor].
    + apply Hq0; [done|by repeat constructor].
  - unfold with_exec in E. destruct (exec x) as [e|]; [|done]. injection E as <- <-. apply (Hq [EvDevice (ch_device ch)]); [done|done| |by repeat constructor]. by intros m outs ?%list_elem_of_singleton.
  - injection E as <- <-. apply (Hq [EvDone s]); [done|done| |done]. by intros m outs ?%list_elem_of_singleton.
Qed.
Lemma perform_results p act w w' : inv V p w -> results_inv w -> obeys w act -> perform V a act w = Done w' -> results_inv w'.
Proof using Hv.
  intros Hinv Hr Hob E. destruct act as [i ch|i|]; cbn [perform obeys] in *.
  - destruct (w.1 !! i) as [t|] eqn:Ht; [|done]. destruct (thread_step V a ch t w.2) as [[ts x']| |] eqn:Es; [|done..]. simplify_eq. destruct w as [ts0 x]. cbn [fst snd] in *. destruct Hob as [Htr Hob].
    rewrite <- (take_drop_middle ts0 i t Ht) in Hinv, Hr. eapply thread_step_results; try done. intros n ins. by apply Hob.
  - unfold inc_num_deferred_ops, with_exec in E. destruct (exec w.2) as [e|]; [|done]. simplify_eq. destruct Hr as [[R1 R2] Hs]. by split.
  - unfold dec_num_deferred_ops, with_exec in E. destruct (exec w.2) as [e|]; [|done]. simplify_eq. destruct Hr as [[R1 R2] Hs]. split; [|done]. split; [|done].
    cbn [fst snd log]. rewrite Forall_app. split; [done|]. destruct (_ && _); by repeat constructor.
Qed.

Lemma start_results r0 : results_inv (RunAsync V a StatusOK r0).
Proof using.
  unfold RunAsync. cbn [ok ActivateRoots app]. destruct (root_nodes V) as [|r rs].
  - split; [split; [by constructor|by intros n outs ?%list_elem_of_singleton]|by intros n ins item ?%list_elem_of_singleton].
  - split; [split; [apply Forall_fmap, Forall_true; done|by intros n outs ?%not_elem_of_nil]|by intros n ins item ?%not_elem_of_nil].
Qed.

Lemma runs_results r0 w : runs_with r0 w -> results_inv w.
Proof using Hv.
  induction 1 as [|w act w' Hr IH He Hob Hp]; [apply start_results|]. destruct (reachable_inv V Hv a r0 w (runs_reachable _ _ Hr)) as [p Hinv]. by eapply perform_results.
Qed.
End Results.

(** ** Two runs *)

(** Kernels return no reference. *)
Definition by_value (K : nat -> list KernelInput -> KernelResult) : Prop := forall n ins i r, ctx_outputs (K n ins) !! i <> Some (Some (ByRef r)).

(** Every input of a node has an edge. *)
Definition complete_inputs (V : ImmutableExecutorState) : Prop :=
  forall d item i, item_at V d item -> (i < item_inputs item)%nat -> exists n ed, ed ∈ edges_of V n /\ dst_id ed = d /\ input_slot ed = (input_start item + i)%nat.

(** Nodes can be ranked along edges. *)
Definition acyclic (V : ImmutableExecutorState) : Prop := exists rank : nat -> nat, forall n d, d ∈ dests_of V n -> (rank n < rank d)%nat.

Definition is_ref (s : EntryState) : bool := match s with HAS_REF_TENSOR _ => true | _ => false end.

Definition same_value (e1 e2 : Entry) : Prop := state e1 = state e2 /\ is_ref (state e1) = false.

Lemma PrepareInputs_values item refs1 refs2 i l1 l2 : Forall2 same_value l1 l2 -> prep_inputs (PrepareInputs item refs1 i l1) = prep_inputs (PrepareInputs item refs2 i l2).
Proof.
  intros H. revert i. induction H as [|e1 e2 l1 l2 [Hs Hr] _ IH]; intros i; [done|]. cbn [PrepareInputs]. unfold prepare_one. rewrite <- Hs. specialize (IH (S i)).
  destruct (state e1); [destruct (is_merge item)|destruct (_ && _)|destruct (_ && _)|done]; cbn; congruence.
Qed.

Lemma produced_value K track item n ins i : by_value K -> is_ref (produced K track item n ins i) = false.
Proof.
  intros Hb. unfold produced. destruct (kernel_node _ _); [|by destruct i, (const_tensor_ item), (is_noop item)]. destruct (_ <? _)%nat; [|done].
  unfold process_output. destruct (ctx_outputs (K n ins) !! i) as [[[t|r]|]|] eqn:E; cbn [mjoin option_join]; try done; [by destruct (bool_decide _)|by destruct (Hb n ins i r)].
Qed.

Section Confluence.
Context (V : ImmutableExecutorState) (Hv : view_ok V) (K : nat -> list KernelInput -> KernelResult) (Hb : by_value K) (track : bool).

(** What of a run the comparison uses. *)
Record run_facts (lg : list event) : Prop := {
  rf_start d ins : EvStart d ins ∈ lg -> start_ok V lg d ins;
  rf_outputs n outs : EvOutputs n outs ∈ lg -> output_ok V K track lg n outs
}.

Lemma start_ok_app l1 l2 d ins : start_ok V l1 d ins -> start_ok V (l1 ++ l2) d ins.
Proof using.
  intros (item & refs & entries & H1 & H2 & H3 & H4 & Hed). exists item, refs, entries. split_and!; try done. intros n ed Hn Hd. destruct (Hed n ed Hn Hd) as (outs & Ho & ?).
  exists outs. split; [apply elem_of_app; by left|done].
Qed.

Lemma runs_facts a r0 w : runs_with V a K track r0 w -> run_facts (log w.2).
Proof using Hv.
  intros Hr. destruct (reachable_data V Hv a r0 w (runs_reachable _ _ _ _ _ _ Hr)) as [_ Hlo]. destruct (runs_results V Hv a K track r0 w Hr) as [Hro _]. split; [|apply Hro].
  intros d ins Hin. apply list_elem_of_split in Hin as (l1 & l2 & E). rewrite E. apply start_ok_app. by eapply lo_start.
Qed.

Lemma edge_dest n ed : ed ∈ edges_of V n -> dst_id ed ∈ dests_of V n.
Proof using.
  unfold edges_of, dests_of. destruct (gview V !! n) as [[it|]|]; [|by intros ?%not_elem_of_nil..]. intros H. apply elem_of_app. left. apply list_elem_of_fmap. eauto.
Qed.

Context (Hac : acyclic V) (Hin : complete_inputs V) (lg1 lg2 : list event) (F1 : run_facts lg1) (F2 : run_facts lg2).

(** Outputs agree where inputs do. *)
Lemma outputs_agree n o1 o2 i e1 e2 : (forall ins1 ins2, EvStart n ins1 ∈ lg1 -> EvStart n ins2 ∈ lg2 -> ins1 = ins2) ->
  EvOutputs n o1 ∈ lg1 -> EvOutputs n o2 ∈ lg2 -> o1 !! i = Some e1 -> o2 !! i = Some e2 -> same_value e1 e2.
Proof using Hb F1 F2.
  intros Heq H1 H2 E1 E2. destruct (rf_outputs _ F1 n o1 H1) as (it1 & ins1 & Hi1 & Hk1 & Hs1), (rf_outputs _ F2 n o2 H2) as (it2 & ins2 & Hi2 & Hk2 & Hs2).
  unfold item_at in *. simplify_eq. split; [|rewrite (Hs1 i e1 E1); by apply produced_value]. rewrite (Hs1 i e1 E1), (Hs2 i e2 E2). unfold produced.
  destruct (kernel_node track it1) eqn:Ek; [|done]. by rewrite (Heq ins1 ins2) by auto.
Qed.

Lemma starts_agree d ins1 ins2 : EvStart d ins1 ∈ lg1 -> EvStart d ins2 ∈ lg2 -> ins1 = ins2.
Proof using Hb Hac Hin F1 F2.
  destruct Hac as [rank Hrank]. enough (H : forall k d ins1 ins2, (rank d < k)%nat -> EvStart d ins1 ∈ lg1 -> EvStart d ins2 ∈ lg2 -> ins1 = ins2) by (apply (H (S (rank d))); lia).
  clear d ins1 ins2. induction k as [|k IH]; intros d ins1 ins2 Hk S1 S2; [lia|].
  destruct (rf_start _ F1 d ins1 S1) as (it & refs1 & en1 & Hit & Hl1 & _ & -> & Hed1), (rf_start _ F2 d ins2 S2) as (it2 & refs2 & en2 & Hit2 & Hl2 & _ & -> & Hed2).
  unfold item_at in Hit2. rewrite Hit in Hit2. simplify_eq. apply PrepareInputs_values, Forall2_same_length_lookup_2; [congruence|]. intros i e1 e2 E1 E2.
  destruct (Hin d it2 i Hit) as (n & ed & Hed & Hd & Hslot); [apply lookup_lt_Some in E1; lia|]. destruct (Hed1 n ed Hed Hd) as (o1 & Ho1 & Ev1), (Hed2 n ed Hed Hd) as (o2 & Ho2 & Ev2).
  replace (input_slot ed - input_start it2)%nat with i in * by lia. rewrite E1 in Ev1. rewrite E2 in Ev2. apply edge_dest, Hrank in Hed. rewrite Hd in Hed.
  eapply (outputs_agree n o1 o2 (output_slot ed)); eauto. intros; eapply IH; eauto. lia.
Qed.
End Confluence.
