(* ===== verification/ExecutorTheorems.v ===== *)
(** * What is shown of executors *)
From S2P Require Import Prelude PendingCounts Counting GraphView Executor ExecutorInv ExecutorSteps ExecutorData ExecutorEnd ExecutorResults.
From stdpp Require Import list gmap strings options.
#[local] Open Scope Z_scope.

(** Actions in order; none when one is not enabled or undefined. *)
Fixpoint run_actions (V : ImmutableExecutorState) (a : Args) (acts : list action) (w : world) : option world :=
  match acts with
  | [] => Some w
  | act :: acts => if enabled act w then match perform V a act w with Done w => run_actions V a acts w | _ => None end else None
  end.

Definition deferrals (acts : list action) : Z := zsum (fun act => match act with Defer _ => 1 | _ => 0 end) acts.

(** The actions of a step of which no kernel defers anything. *)
Definition step_bound (V : ImmutableExecutorState) : Z := zsum (node_cost V) (all_nodes V) + 8 * Z.of_nat (length (root_nodes V)) + 6.

Definition start_nodes (l : list event) : list nat := omap (fun ev => match ev with EvStart n _ => Some n | _ => None end) l.

Lemma zsum_filter {A} (P : A -> Prop) `{!forall x, Decision (P x)} (f : A -> Z) l : (forall x, ~ P x -> f x = 0) -> zsum f (filter P l) = zsum f l.
Proof.
  intros Hf. induction l as [|x l IH]; [done|]. rewrite filter_cons. destruct (decide (P x)) as [|Hn]; rewrite !zsum_cons, IH; [done|]. rewrite (Hf x Hn). lia.
Qed.

Section Theorems.
Context (V : ImmutableExecutorState) (Hv : view_ok V) (a : Args).

Lemma run_reachable r0 acts w w' : reachable V a StatusOK r0 w -> run_actions V a acts w = Some w' -> reachable V a StatusOK r0 w'.
Proof using.
  revert w. induction acts as [|act acts IH]; intros w Hr E; cbn [run_actions] in E; [by simplify_eq|]. destruct (enabled act w) eqn:He; [|done].
  destruct (perform V a act w) as [w1| |] eqn:Ep; [|done..]. eapply IH; [|exact E]. by eapply reach_step.
Qed.

Lemma run_budget r0 acts w w' : reachable V a StatusOK r0 w -> run_actions V a acts w = Some w' -> budget V w' + Z.of_nat (length acts) <= budget V w + 3 * deferrals acts.
Proof using Hv.
  revert w. induction acts as [|act acts IH]; intros w Hr E; cbn [run_actions] in E; [simplify_eq; unfold deferrals; rewrite zsum_nil; simpl; lia|]. destruct (enabled act w) eqn:He; [|done].
  destruct (perform V a act w) as [w1| |] eqn:Ep; [|done..]. destruct (reachable_inv V Hv a r0 w Hr) as [p Hinv]. pose proof (perform_budget V Hv a p act w w1 Hinv He Ep) as Hb.
  specialize (IH w1 ltac:(by eapply reach_step) E). unfold deferrals in *. rewrite zsum_cons. simpl length. destruct act; cbn [spent] in Hb; lia.
Qed.

Lemma start_budget r0 : budget V (RunAsync V a StatusOK r0) <= step_bound V.
Proof using Hv.
  unfold RunAsync, step_bound. cbn [ok ActivateRoots app]. destruct (root_nodes V) as [|r rs] eqn:Er.
  - unfold budget. cbn. lia.
  - destruct (ScheduleReady a (fun _ => false) (r :: rs) None) as [q tasks] eqn:Es. pose proof (ScheduleReady_cost a (fun _ => false) (r :: rs) None q tasks I ltac:(done) Es) as Hc.
    unfold budget, exec_cost. cbn [fst snd log exec deferred with_done_cb with_outstanding num_outstanding_ops_ finish_when_deferred_ops_done_ ExecutorState_new andb]. rewrite zsum_map. cbn [thread_cost]. rewrite zsum_nil. cbn [opt_queue_list] in Hc.
    rewrite (length_nil (A := nat)) in Hc. destruct (_ =? 0); lia.
Qed.

Lemma starts_once p w : inv V p w -> log_ok V w -> NoDup (start_nodes (log w.2)) /\ NoDup (ended_nodes (log w.2)).
Proof using Hv.
  intros Hinv Hlo. pose proof (inv_counts _ _ _ Hinv) as Hc. assert (Hs : forall d l, zsum (occ d) (start_nodes l) = zsum (start_event d) l).
  { intros d l. induction l as [|ev l IH]; [done|]. rewrite zsum_cons, <- IH. by destruct ev. }
  split; apply occ_NoDup; intros d; pose proof (node_once V Hv p w d Hc) as Ho; pose proof (zsum_nonneg _ w.1 (tok_nonneg d)).
  - rewrite Hs. pose proof (lo_once _ _ Hlo d). pose proof (zsum_le (started d) (tok d) w.1 (fun t _ => started_tok d t)). destruct (is_item V d); simpl in Ho; lia.
  - rewrite ended_nodes_occ. destruct (is_item V d); simpl in Ho; lia.
Qed.

(** Once nothing is held, a node that has not run waits for one that has not. *)
Lemma all_ran p w : counts_ok V p w -> acyclic V -> zsum weight w.1 = 0 -> first_error (log w.2) = None -> forall d, is_item V d = true -> d ∈ sent_nodes (log w.2).
Proof using Hv.
  intros Hc [rank Hrank] Hw Hf. assert (Hnf : forall d, zsum (occ d) (sent_nodes (log w.2)) = zsum (ended d) (log w.2)).
  { intros d. clear -Hf. unfold first_error in Hf. induction (log w.2) as [|ev l IH]; [done|]. rewrite zsum_cons. destruct ev; try (apply IH, Hf); [|done]. cbn [ended]. rewrite <- IH by done. done. }
  assert (Ht : forall t, t ∈ w.1 -> weight t = 0).
  { intros t Ht. pose proof (zsum_elem weight w.1 t thread_weight_nonneg Ht). pose proof (thread_weight_nonneg t). lia. }
  assert (Htok : forall d, zsum (tok d) w.1 = 0).
  { intros d. apply zsum_0. intros t Hin. specialize (Ht t Hin). unfold tok. assert (tokens t = []) as ->; [|done].
    destruct t; cbn [weight tokens] in *; try (apply nil_length_inv; lia); try done; lia. }
  assert (Hund : forall d, zsum (undelivered d) w.1 = 0).
  { intros d. apply zsum_0. intros t Hin. specialize (Ht t Hin). destruct t; try done. cbn [weight] in Ht. lia. }
  enough (Hall : forall k d, (rank d < k)%nat -> is_item V d = true -> d ∈ sent_nodes (log w.2)) by (intros d; apply (Hall (S (rank d))); lia).
  induction k as [|k IH]; intros d Hk Hd; [lia|]. apply occ_elem. rewrite Hnf. destruct (item_pending V Hv p w d Hc Hd) as [c Ec].
  pose proof (co_node _ _ _ Hc d c Hd Ec) as Hn. rewrite Htok in Hn. destruct (Z.eqb_spec c 0) as [->|Hne]; [simpl in Hn; lia|]. exfalso. apply Hne.
  rewrite (co_count _ _ _ Hc d c Hd Ec), Hund, sent_nodes_sum. assert (Hin : indegree V d <= zsum (fun n => zsum (occ d) (dests_of V n)) (sent_nodes (log w.2))).
  { unfold indegree. rewrite <- (zsum_filter (fun n => d ∈ dests_of V n) _ (all_nodes V)); [|intros n Hn'; by apply occ_not_elem].
    apply zsum_sublist; [intros; auto with exec_pos|apply NoDup_filter, NoDup_seq|]. intros n [Hdn Hna]%list_elem_of_filter. apply IH; [pose proof (Hrank n d Hdn); lia|].
    unfold dests_of in Hdn. unfold is_item. destruct (gview V !! n) as [[it|]|]; [done|by apply not_elem_of_nil in Hdn..]. }
  pose proof (sent_bound V Hv p w d Hc) as Hb. rewrite sent_nodes_sum in Hb. lia.
Qed.
End Theorems.

(** ** A step on concrete data

    A node without a kernel starts a constant, which two kernels read, one of
    them asynchronous; a last kernel reads both. *)
Definition demo_item (n ins outs start : nat) (async noop : bool) (c : option Tensor) (edges : list EdgeInfo) (controls : list nat) : NodeItem :=
  mkNodeItem (Z.of_nat n) async false false false false false false false false false false false noop false false false
    (Some (mkOpKernel async c (if noop then "NoOp" else "Op") (replicate outs false))) c ins outs start None edges controls
    (replicate outs no_attr) (replicate outs (-1)) (replicate ins 1) (replicate outs 1).

Definition demo_tensor (z : Z) : Tensor := mkTensor 1 (Some [z]).

Definition demo_view : ImmutableExecutorState :=
  mkImmutable
    [Some (demo_item 0 0 0 0 false true None [] [2]%nat); None;
     Some (demo_item 2 0 1 0 false false (Some (demo_tensor 7)) [mkEdgeInfo 3 0 false 0; mkEdgeInfo 4 0 true 1] []);
     Some (demo_item 3 1 1 0 false false None [mkEdgeInfo 5 0 true 2] []);
     Some (demo_item 4 1 1 1 true false None [mkEdgeInfo 5 0 true 3] []);
     Some (demo_item 5 2 0 2 false false None [] [])]
    [0%nat] 4 [0; 0; 1; 1; 1; 2].

Ltac demo_node n := destruct n as [|[|[|[|[|[|?]]]]]]; try done.

Lemma demo_view_ok : view_ok demo_view.
Proof.
  split.
  - intros n item ed Hn Hed. demo_node n; unfold item_at in Hn; cbn in Hn; simplify_eq; cbn in Hed; repeat (apply elem_of_cons in Hed as [->|Hed]); try (by apply not_elem_of_nil in Hed); (split; [cbn; lia|eexists; split; [reflexivity|cbn; lia]]).
  - intros n item d Hn Hd. demo_node n; unfold item_at in Hn; cbn in Hn; simplify_eq; cbn in Hd; repeat (apply elem_of_cons in Hd as [->|Hd]); try (by apply not_elem_of_nil in Hd); done.
  - intros n item l1 ed l2 Hn E Hl. demo_node n; unfold item_at in Hn; cbn in Hn; simplify_eq; cbn in E; destruct l1 as [|? [|? [|]]]; cbn in E; simplify_eq; done || by constructor.
  - by apply (bool_decide_eq_true_1 _).
  - intros n item Hn. demo_node n; unfold item_at in Hn; cbn in Hn; simplify_eq; cbn; lia.
  - intros n m item item' i Hn Hm Hne Hi. demo_node n; unfold item_at in Hn; cbn in Hn; simplify_eq; demo_node m; unfold item_at in Hm; cbn in Hm; simplify_eq; cbn in *; lia.
  - intros n Hn. demo_node n; done.
  - by apply (bool_decide_eq_true_1 _).
  - intros n. cbn [demo_view root_nodes]. rewrite list_elem_of_singleton. split; [by intros ->|]. intros [Hn H0]. demo_node n.
  - intros n item Hn H. demo_node n; unfold item_at in Hn; cbn in Hn; simplify_eq; cbn in *; try done; lia.
  - intros n item Hn [t Ht]. demo_node n; unfold item_at in Hn; cbn in Hn; simplify_eq; cbn in *; done.
  - done.
  - intros n. demo_node n.
Qed.

Definition demo_args : Args := mkArgs false true true true true false.

Definition demo_refs (_ : nat) : Tensor := kEmptyTensor.

(** Every kernel returns the same tensor, or the status given. *)
Definition demo_choice (s : Status) : Choice := mkChoice (mkResult s [Some (ByValue (demo_tensor 8))] [no_attr] demo_refs) (fun _ => true) false false StatusOK.

Definition demo_start : world := RunAsync demo_view demo_args StatusOK demo_refs.

(** The asynchronous kernel defers an operation, which ends last of all. *)
Definition demo_runs (n : nat) (s : Status) : list action := replicate n (Run 0 (demo_choice s)).

Definition demo_actions : list action := demo_runs 13 StatusOK ++ [Defer 0] ++ demo_runs 16 StatusOK ++ [Undefer] ++ demo_runs 4 StatusOK.

Definition demo_end : world := default demo_start (run_actions demo_view demo_args demo_actions demo_start).

(** The two kernels fail. *)
Definition demo_failing : list action := demo_runs 13 StatusOK ++ demo_runs 13 (StatusError UNAVAILABLE).

Definition demo_failed : world := default demo_start (run_actions demo_view demo_args demo_failing demo_start).

Lemma demo_run acts : is_Some (run_actions demo_view demo_args acts demo_start) ->
  reachable demo_view demo_args StatusOK demo_refs (default demo_start (run_actions demo_view demo_args acts demo_start)).
Proof. intros [w E]. rewrite E. eapply run_reachable; [apply reach_start|exact E]. Qed.

Lemma demo_end_reachable : reachable demo_view demo_args StatusOK demo_refs demo_end.
Proof. apply demo_run. vm_compute. eauto. Qed.

Lemma demo_failed_reachable : reachable demo_view demo_args StatusOK demo_refs demo_failed.
Proof. apply demo_run. vm_compute. eauto. Qed.

Lemma demo_acyclic : acyclic demo_view.
Proof.
  exists (fun n => n). intros n d Hd. demo_node n; cbn in Hd; repeat (apply elem_of_cons in Hd as [->|Hd]); try (by apply not_elem_of_nil in Hd); lia.
Qed.

(** ** Reports *)
Definition reports (l : list event) : list Status := omap reported l.

Lemma done_reports l : zsum done_event l = Z.of_nat (length (reports l)).
Proof.
  induction l as [|ev l IH]; [done|]. rewrite zsum_cons, IH. destruct ev as [| | | | | | |s]; try done. change (reports (EvDone s :: l)) with (s :: reports l). cbn [done_event length]. lia.
Qed.

(** When the end was reported nothing is held, and all nodes have run unless one failed. *)
Lemma reported_end V a r0 w : view_ok V -> reachable V a StatusOK r0 w -> reports (log w.2) <> [] ->
  exec w.2 = None /\ (forall t, t ∈ w.1 -> tokens t = []) /\ (acyclic V -> first_error (log w.2) = None -> forall d, is_item V d = true -> d ∈ sent_nodes (log w.2)).
Proof.
  intros Hv Hr Hne. destruct (reachable_inv V Hv a r0 w Hr) as [p [Hc He]]. pose proof (done_reports (log w.2)) as Hd. pose proof (zsum_nonneg _ w.1 calling_nonneg) as Hca. destruct (exec w.2) as [e|].
  - destruct He as [_ _ _ _ _ _ _ _ Hcall]. destruct (reports (log w.2)); [done|]. simpl in Hd. lia.
  - destruct He as [Hw _ _ _]. split_and!; [done| |intros Hac Hfe; by apply (all_ran V Hv p)]. intros t Ht. pose proof (zsum_elem weight w.1 t thread_weight_nonneg Ht). pose proof (thread_weight_nonneg t).
    destruct t; cbn [weight tokens] in *; try (apply nil_length_inv; lia); try done; lia.
Qed.

Lemma run_length V a r0 acts w : view_ok V -> run_actions V a acts (RunAsync V a StatusOK r0) = Some w ->
  Z.of_nat (length acts) <= step_bound V + 3 * deferrals acts.
Proof.
  intros Hv E. assert (Hr : reachable V a StatusOK r0 w) by (eapply run_reachable; [apply reach_start|exact E]).
  destruct (reachable_inv V Hv a r0 w Hr) as [p Hinv]. pose proof (run_budget V Hv a r0 acts _ w (reach_start V a StatusOK r0) E). pose proof (start_budget V Hv a r0). pose proof (budget_nonneg V Hv p w Hinv). lia.
Qed.

(** When nothing is left to run, the end was reported. *)
Lemma reports_count V a r0 w : view_ok V -> reachable V a StatusOK r0 w ->
  (length (reports (log w.2)) <= 1)%nat /\ (w.1 = [] -> deferred w.2 = 0%nat -> length (reports (log w.2)) = 1%nat).
Proof.
  intros Hv Hr. destruct (reachable_inv V Hv a r0 w Hr) as [p [Hc He]]. pose proof (done_reports (log w.2)) as Hd. pose proof (zsum_nonneg _ w.1 calling_nonneg) as Hca. destruct (exec w.2) as [e|].
  - destruct He as [_ _ _ Hfin _ Hdef _ _ Hcall]. split; [lia|]. intros Hw H0. rewrite Hw, !zsum_nil in Hfin. rewrite Hdef, H0, andb_false_r in Hfin. done.
  - destruct He as [Hw Hf _ Hcall]. split; [lia|]. intros Hn _. rewrite Hn, zsum_nil in Hcall. lia.
Qed.

(** * Properties *)

(** C5. Whatever the runner, the kernels and the callbacks do, every action of a step of an executor is
    defined: no thread uses the executor's state after it was deleted, indexes a vector out of range, pops an
    empty queue, or fails the check of [Finish] that the callback is still there. *)
Theorem executor_safe V a r0 w act : view_ok V -> reachable V a StatusOK r0 w -> enabled act w = true -> exists w', perform V a act w = Done w'.
Proof.
  intros Hv Hr He. destruct (reachable_inv V Hv a r0 w Hr) as [p Hinv]. destruct (perform_ok V Hv a p act w Hinv He) as (w' & ? & _). eauto.
Qed.

Lemma executor_safe_witness : enabled (Run 0 (demo_choice StatusOK)) demo_start = true /\ exists w', perform demo_view demo_args (Run 0 (demo_choice StatusOK)) demo_start = Done w'.
Proof. split; [reflexivity|]. apply (executor_safe demo_view demo_args demo_refs demo_start); [apply demo_view_ok|apply reach_start|reflexivity]. Defined.

(** C4. In every interleaving a node starts at most once and ends at most once, and only after every node with
    an edge into it has sent its outputs; a kernel that starts gets, at each of its inputs, the very entry the
    node before it produced at that output, although the last reader of an output gets it by a move. *)
Theorem executor_dataflow V a r0 w : view_ok V -> reachable V a StatusOK r0 w ->
  NoDup (start_nodes (log w.2)) /\ NoDup (ended_nodes (log w.2)) /\
  (forall l1 d ins l2, log w.2 = l1 ++ EvStart d ins :: l2 -> preds_sent V l1 d /\ start_ok V l1 d ins) /\
  (forall l1 d outs l2, log w.2 = l1 ++ EvOutputs d outs :: l2 -> preds_sent V l1 d).
Proof.
  intros Hv Hr. destruct (reachable_inv V Hv a r0 w Hr) as [p Hinv]. destruct (reachable_data V Hv a r0 w Hr) as [_ Hlo].
  destruct (starts_once V Hv p w Hinv Hlo) as [H1 H2]. split_and!; [done|done|apply Hlo|apply Hlo].
Qed.

Lemma executor_dataflow_witness : start_nodes (log demo_end.2) = [4; 3; 5]%nat /\ NoDup (start_nodes (log demo_end.2)).
Proof. split; [vm_compute; reflexivity|]. apply (executor_dataflow demo_view demo_args demo_refs demo_end); [apply demo_view_ok|apply demo_end_reachable]. Defined.

(** C8. A step ends: the number of actions of all threads together is bounded by a constant of the graph, two
    for an edge and one for a control edge with their scheduling, and three for each operation kernels defer. *)
Theorem executor_terminates V a r0 acts w : view_ok V -> run_actions V a acts (RunAsync V a StatusOK r0) = Some w ->
  Z.of_nat (length acts) <= step_bound V + 3 * deferrals acts.
Proof. apply run_length. Qed.

Lemma executor_terminates_witness : length demo_actions = 35%nat /\ Z.of_nat (length demo_actions) <= step_bound demo_view + 3 * deferrals demo_actions.
Proof.
  split; [reflexivity|]. apply (executor_terminates demo_view demo_args demo_refs demo_actions demo_end); [apply demo_view_ok|]. vm_compute. reflexivity.
Defined.

(** C7. The end of a step is reported at most once, and exactly once when no thread is left and no deferred
    operation is outstanding; when it is reported the state is gone, no thread has a node, and if the graph has no
    cycle and no node failed, every node has run. *)
Theorem executor_reports V a r0 w : view_ok V -> reachable V a StatusOK r0 w ->
  (length (reports (log w.2)) <= 1)%nat /\
  (w.1 = [] -> deferred w.2 = 0%nat -> length (reports (log w.2)) = 1%nat) /\
  (reports (log w.2) <> [] -> exec w.2 = None /\ (forall t, t ∈ w.1 -> tokens t = []) /\
    (acyclic V -> first_error (log w.2) = None -> forall d, is_item V d = true -> d ∈ sent_nodes (log w.2))).
Proof. intros Hv Hr. destruct (reports_count V a r0 w Hv Hr) as [H1 H2]. split_and!; [exact H1|exact H2|]. by apply (reported_end V a r0). Qed.

Lemma executor_reports_witness : demo_end.1 = [] /\ length (reports (log demo_end.2)) = 1%nat /\ acyclic demo_view.
Proof.
  split; [vm_compute; reflexivity|]. split; [|apply demo_acyclic].
  apply (executor_reports demo_view demo_args demo_refs demo_end); [apply demo_view_ok|apply demo_end_reachable|vm_compute; reflexivity|vm_compute; reflexivity].
Defined.

(** C9. What is reported is the status of the first node that failed, whatever fails after it, and its failure
    has aborted the rendezvous and cancelled the rest of the step.  Without a failure it is what the device answered,
    and when that is an error of a device that does not sync on completion, it has aborted and cancelled the same
    way; the device is asked unless it allows to sync on completion and the step does not sync at its end, or there was
    nothing to run, and then OK is reported. *)
Theorem executor_status V a r0 w s : view_ok V -> reachable V a StatusOK r0 w -> s ∈ reports (log w.2) ->
  match first_error (log w.2) with
  | Some s' => s = s' /\ ok s = false /\ forall ev, ev ∈ abort_events a s' -> ev ∈ log w.2
  | None =>
      (device_status (log w.2) = Some s /\ (allows_sync_on_completion a = false -> ok s = false -> forall ev, ev ∈ abort_events a s -> ev ∈ log w.2)) \/
      (device_status (log w.2) = None /\ s = StatusOK /\ ((allows_sync_on_completion a = true /\ sync_on_finish_ a = false) \/ root_nodes V = []))
  end.
Proof.
  intros Hv Hr Hs. assert (Hei : err_inv V a w).
  { clear Hs. induction Hr as [|w act w' Hr IH He Hp]; [apply start_err|]. destruct (reachable_inv V Hv a r0 w Hr) as [p Hinv]. by eapply perform_err. }
  unfold reports in Hs. apply list_elem_of_omap in Hs as (ev & Hev & Er). pose proof (ei_done _ _ _ Hei) as Hd. rewrite Forall_forall in Hd. specialize (Hd ev Hev). rewrite Er in Hd. unfold report_ok in Hd.
  destruct (first_error (log w.2)) as [s'|] eqn:Ef.
  - subst s'. split_and!; [done|by eapply first_error_bad|]. intros ev' Hev'. by eapply (ei_abort _ _ _ Hei).
  - destruct Hd as [Hd|Hd]; [left|by right]. split; [done|]. intros Ha Hok ev' Hev'. by eapply (ei_device _ _ _ Hei).
Qed.

Lemma executor_status_witness : reports (log demo_failed.2) = [StatusError INTERNAL] /\ EvRendezvousAbort (StatusError INTERNAL) ∈ log demo_failed.2.
Proof.
  split; [vm_compute; reflexivity|]. pose proof (executor_status demo_view demo_args demo_refs demo_failed (StatusError INTERNAL) demo_view_ok demo_failed_reachable) as Hs.
  assert (Hf : first_error (log demo_failed.2) = Some (StatusError INTERNAL)) by (vm_compute; reflexivity). rewrite Hf in Hs. apply Hs; [|left].
  assert (Hr : reports (log demo_failed.2) = [StatusError INTERNAL]) by (vm_compute; reflexivity). rewrite Hr. left.
Defined.

(** Every kernel of the demonstration returns the same. *)
Definition demo_kernel (_ : nat) (_ : list KernelInput) : KernelResult := ch_result (demo_choice StatusOK).

Lemma demo_runs_with a0 acts w w' : runs_with demo_view a0 demo_kernel false demo_refs w ->
  forallb (fun act => match act with Run _ ch => negb (ch_track_allocations ch) | _ => true end) acts = true -> (forall i ch, Run i ch ∈ acts -> ch_result ch = ch_result (demo_choice StatusOK)) ->
  run_actions demo_view a0 acts w = Some w' -> runs_with demo_view a0 demo_kernel false demo_refs w'.
Proof.
  revert w. induction acts as [|act acts IH]; intros w Hr Ht Hk E; cbn [run_actions forallb] in *; [by simplify_eq|]. apply andb_prop in Ht as [Ht Hts]. destruct (enabled act w) eqn:He; [|done].
  destruct (perform demo_view a0 act w) as [w1| |] eqn:Ep; [|done..]. eapply IH; [|exact Hts|intros i ch H; apply (Hk i ch); by right|exact E]. eapply runs_step; [exact Hr|exact He| |exact Ep].
  destruct act as [i ch|i|]; [|exact I..]. split; [by destruct (ch_track_allocations ch)|]. intros t n ins _ _ _. apply (Hk i ch). left.
Qed.

(** All kernels in one loop, except the asynchronous one. *)
Definition demo_inline : Args := mkArgs true true true true true false.

Definition demo_inline_end : world := default demo_start (run_actions demo_view demo_inline (demo_runs 32 StatusOK) (RunAsync demo_view demo_inline StatusOK demo_refs)).

Lemma demo_complete : complete_inputs demo_view.
Proof.
  intros d item i Hd Hi. demo_node d; unfold item_at in Hd; cbn in Hd; simplify_eq; cbn in Hi; try lia.
  - exists 2%nat, (mkEdgeInfo 3 0 false 0). assert (i = 0%nat) as -> by lia. split_and!; [left|done|done].
  - exists 2%nat, (mkEdgeInfo 4 0 true 1). assert (i = 0%nat) as -> by lia. split_and!; [right; left|done|done].
  - destruct i as [|[|i]]; [exists 3%nat, (mkEdgeInfo 5 0 true 2)|exists 4%nat, (mkEdgeInfo 5 0 true 3)|lia]; (split_and!; [left|done|done]).
Qed.

Lemma demo_by_value : by_value demo_kernel.
Proof. intros n ins i r. destruct i as [|i]; [done|]. cbn. by destruct i. Qed.

Lemma demo_actions_choice i ch acts : Forall (fun act => match act with Run _ ch => ch = demo_choice StatusOK | _ => True end) acts -> Run i ch ∈ acts -> ch_result ch = ch_result (demo_choice StatusOK).
Proof. intros Ha Hin. rewrite Forall_forall in Ha. by rewrite (Ha _ Hin). Qed.

Lemma demo_runs_choice n : Forall (fun act => match act with Run _ ch => ch = demo_choice StatusOK | _ => True end) (demo_runs n StatusOK).
Proof. by apply Forall_replicate. Qed.

Lemma demo_end_runs : runs_with demo_view demo_args demo_kernel false demo_refs demo_end.
Proof.
  eapply (demo_runs_with demo_args demo_actions demo_start); [apply runs_start|vm_compute; reflexivity| |vm_compute; reflexivity]. intros i ch. apply demo_actions_choice. unfold demo_actions.
  repeat (apply Forall_app; split); try apply demo_runs_choice; by repeat constructor.
Qed.

Lemma demo_inline_runs : runs_with demo_view demo_inline demo_kernel false demo_refs demo_inline_end.
Proof.
  eapply (demo_runs_with demo_inline (demo_runs 32 StatusOK)); [apply runs_start|vm_compute; reflexivity| |vm_compute; reflexivity]. intros i ch. apply demo_actions_choice, demo_runs_choice.
Qed.

(** C6. The results of a step do not depend on the schedule: when the kernels are functions of their inputs that
    return no references and the graph has no cycle, a node that starts in two runs, by whatever runner and with
    kernels inline or not, starts on the same inputs, and the outputs both runs send have the same values. *)
Theorem executor_confluent V K track a1 a2 r1 r2 w1 w2 : view_ok V -> acyclic V -> complete_inputs V -> by_value K ->
  runs_with V a1 K track r1 w1 -> runs_with V a2 K track r2 w2 ->
  (forall n ins1 ins2, EvStart n ins1 ∈ log w1.2 -> EvStart n ins2 ∈ log w2.2 -> ins1 = ins2) /\
  (forall n o1 o2 i e1 e2, EvOutputs n o1 ∈ log w1.2 -> EvOutputs n o2 ∈ log w2.2 -> o1 !! i = Some e1 -> o2 !! i = Some e2 -> state e1 = state e2).
Proof.
  intros Hv Hac Hin Hb H1 H2. pose proof (runs_facts V Hv K track a1 r1 w1 H1) as F1. pose proof (runs_facts V Hv K track a2 r2 w2 H2) as F2.
  assert (Hs : forall n ins1 ins2, EvStart n ins1 ∈ log w1.2 -> EvStart n ins2 ∈ log w2.2 -> ins1 = ins2) by (intros n ins1 ins2; by apply (starts_agree V K Hb track Hac Hin _ _ F1 F2)).
  split; [exact Hs|]. intros n o1 o2 i e1 e2 O1 O2 E1 E2. eapply (outputs_agree V K Hb track _ _ F1 F2 n o1 o2 i); eauto.
Qed.

Lemma executor_confluent_witness : start_nodes (log demo_end.2) = [4; 3; 5]%nat /\ start_nodes (log demo_inline_end.2) = [3; 4; 5]%nat /\
  forall n ins1 ins2, EvStart n ins1 ∈ log demo_end.2 -> EvStart n ins2 ∈ log demo_inline_end.2 -> ins1 = ins2.
Proof.
  split; [vm_compute; reflexivity|split; [vm_compute; reflexivity|]].
  apply (executor_confluent demo_view demo_kernel false demo_args demo_inline demo_refs demo_refs); [apply demo_view_ok|apply demo_acyclic|apply demo_complete|apply demo_by_value|apply demo_end_runs|apply demo_inline_runs].
Defined.

(** ** A status that is kept too long

    [Process] declares its status outside the loop, and nodes without a kernel do
    not assign it: such a node after one that failed fails with the same error,
    and its outputs are not propagated. *)
Lemma noop_after_failure ch rest l n item x e inputs outputs : is_noop item = true -> ok (loop_s l) = false -> exec x = Some e ->
  clear_entries (input_start item) (item_inputs item) (input_tensors_ e) = Done inputs -> clear_entries 0 (item_outputs item) (loop_outputs l) = Done outputs ->
  exists k x', start_node ch rest l n item x = Done ([Failing k n (loop_s l)], x') /\ log x' = log x.
Proof. intros Hn Hs He Hi Ho. unfold start_node, finish_node, with_exec. rewrite Hn, He, Hi, Hs. cbn [clear_outputs]. rewrite Ho. by eexists _, _. Qed.
