(* ===== verification/FlatRep.v ===== *)
(** * Open-addressed hash sets (src/tensorflow/core/lib/gtl/flatrep.h, flatset.h)

    Entry [i] of bucket [b] is slot [8 * b + i] of one array: a marker and a key.
    The hash function is an argument; keys are compared by equality.  The doubles
    0.8 and 0.4 are the fractions they stand for in binary; products with powers
    of two are exact, and the product with [grow_] rounds to a number with the
    same integral part.  Products of [1 << lg] are exact for tables of fewer than
    2^29 buckets. *)
From S2P Require Import Prelude.
From stdpp Require Import list options.
#[local] Open Scope Z_scope.
#[local] Open Scope tf_monad_scope.

Definition kBase : Z := 3.

Definition kWidth : Z := 8.

Definition kEmpty : Z := 0.

Definition kDeleted : Z := 1.

(** [static_cast<size_t>(n * 0.8)] and [static_cast<size_t>(n * 0.4)]. *)
Definition kEightTenths : Z := 3602879701896397.

Definition times_08 (n : Z) : Z := n * kEightTenths / 2 ^ 52.

Definition times_04 (n : Z) : Z := n * kEightTenths / 2 ^ 53.

(** [N >= 0.8 * n]. *)
Definition at_least_08 (N n : Z) : bool := n * kEightTenths <=? N * 2 ^ 52.

(** The most elements the theorems ask for. *)
Definition max_elements : Z := 2 ^ 30.

Section FlatRep.
Context {Key : Type} `{EqDecision Key} (hash_ : Key -> Z).

Record Slot := mkSlot {
  marker : Z;
  slot_key : option Key
}.

Record FlatRep := mkRep {
  array_ : list Slot;
  lglen_ : Z;
  mask_ : Z;
  not_empty_ : Z;
  deleted_ : Z;
  grow_ : Z;
  shrink_ : Z
}.

Definition rep_size (r : FlatRep) : Z := u64 (not_empty_ r - deleted_ r).

Definition bucket_count (r : FlatRep) : Z := u64 (mask_ r + 1).

Definition Marker (hb : Z) : Z := hb + (if hb <? 2 then 2 else 0).

Definition key_marker (k : Key) : Z := Marker (Z.land (hash_ k) 255).

Definition first_index (r : FlatRep) (k : Key) : Z := Z.land (Z.shiftr (hash_ k) 8) (mask_ r).

Definition NextIndex (r : FlatRep) (i num_probes : Z) : Z := Z.land (u64 (i + num_probes)) (mask_ r).

Definition with_array (a : list Slot) (not_empty deleted : Z) (r : FlatRep) : FlatRep :=
  mkRep a (lglen_ r) (mask_ r) not_empty deleted (grow_ r) (shrink_ r).

Definition set_grow (g : Z) (r : FlatRep) : FlatRep :=
  mkRep (array_ r) (lglen_ r) (mask_ r) (not_empty_ r) (deleted_ r) g (shrink_ r).

(** ** Searches *)

(** An index outside the array is undefined. *)
Fixpoint find_loop (fuel : nat) (r : FlatRep) (k : Key) (index num_probes : Z) : outcome (option Z) :=
  match fuel with
  | O => OutOfFuel
  | S fuel =>
      match array_ r !! Z.to_nat index with
      | None => Crash
      | Some s =>
          if (marker s =? key_marker k) && bool_decide (slot_key s = Some k) then Done (Some index)
          else if marker s =? kEmpty then Done None
          else find_loop fuel r k (NextIndex r index num_probes) (u32 (num_probes + 1))
      end
  end.

Definition Find (r : FlatRep) (k : Key) : outcome (option Z) := find_loop (length (array_ r)) r k (first_index r k) 1.

(** [del] is the first deleted slot met.  The answer is whether the key was
    there, the index and the table. *)
Fixpoint insert_loop (fuel : nat) (r : FlatRep) (k : Key) (index num_probes : Z) (del : option Z) : outcome (bool * Z * FlatRep) :=
  match fuel with
  | O => OutOfFuel
  | S fuel =>
      match array_ r !! Z.to_nat index with
      | None => Crash
      | Some s =>
          let next := insert_loop fuel r k (NextIndex r index num_probes) (u32 (num_probes + 1)) in
          if (marker s =? key_marker k) && bool_decide (slot_key s = Some k) then Done (true, index, r)
          else if bool_decide (del = None) && (marker s =? kDeleted) then next (Some index)
          else if marker s =? kEmpty then
            let entry := mkSlot (key_marker k) (Some k) in
            match del with
            | Some i => Done (false, i, with_array (<[Z.to_nat i := entry]> (array_ r)) (not_empty_ r) (u64 (deleted_ r - 1)) r)
            | None => Done (false, index, with_array (<[Z.to_nat index := entry]> (array_ r)) (u64 (not_empty_ r + 1)) (deleted_ r) r)
            end
          else next del
      end
  end.

Definition FindOrInsert (r : FlatRep) (k : Key) : outcome (bool * Z * FlatRep) :=
  insert_loop (length (array_ r)) r k (first_index r k) 1 None.

Definition Erase (i : Z) (r : FlatRep) : FlatRep :=
  set_grow 0 (with_array (<[Z.to_nat i := mkSlot kDeleted None]> (array_ r)) (not_empty_ r) (u64 (deleted_ r + 1)) r).

(** ** Sizes *)
Fixpoint init_loop (fuel : nat) (N lg : Z) : outcome Z :=
  if at_least_08 N (2 ^ lg * kWidth) then
    match fuel with
    | O => OutOfFuel
    | S fuel => init_loop fuel N (lg + 1)
    end
  else Done lg.

(** [Init]; 64 doublings exceed every [size_t]. *)
Definition Init (N : Z) : outcome FlatRep :=
  match init_loop 64 N 0 with
  | Done lg =>
      let capacity := 2 ^ lg * kWidth in
      let grow := times_08 capacity in
      Done (mkRep (replicate (Z.to_nat capacity) (mkSlot kEmpty None)) lg (capacity - 1) 0 0 grow (if lg =? 0 then 0 else times_04 grow))
  | Crash => Crash
  | OutOfFuel => OutOfFuel
  end.

Fixpoint fresh_loop (fuel : nat) (r : FlatRep) (k : Key) (index num_probes : Z) : outcome FlatRep :=
  match fuel with
  | O => OutOfFuel
  | S fuel =>
      match array_ r !! Z.to_nat index with
      | None => Crash
      | Some s =>
          if marker s =? 0 then
            Done (with_array (<[Z.to_nat index := mkSlot (key_marker k) (Some k)]> (array_ r)) (u64 (not_empty_ r + 1)) (deleted_ r) r)
          else fresh_loop fuel r k (NextIndex r index num_probes) (u32 (num_probes + 1))
      end
  end.

Definition FreshInsert (k : Key) (r : FlatRep) : outcome FlatRep := fresh_loop (length (array_ r)) r k (first_index r k) 1.

(** The slots of another array in turn; the key of an occupied slot is there. *)
Fixpoint CopyEntries (slots : list Slot) (r : FlatRep) : outcome FlatRep :=
  match slots with
  | [] => Done r
  | s :: slots =>
      if 2 <=? marker s then
        match slot_key s with
        | Some k => match FreshInsert k r with Done r => CopyEntries slots r | o => o end
        | None => Crash
        end
      else CopyEntries slots r
  end.

Definition Resize (N : Z) (r : FlatRep) : outcome FlatRep :=
  match Init N with Done fresh => CopyEntries (array_ r) fresh | o => o end.

Definition MaybeResize (r : FlatRep) : outcome FlatRep :=
  if not_empty_ r <? grow_ r then Done r
  else if (grow_ r =? 0) && (shrink_ r <=? rep_size r) then
    let r := set_grow (times_08 (bucket_count r)) r in
    if not_empty_ r <? grow_ r then Done r else Resize (u64 (rep_size r + 1)) r
  else Resize (u64 (rep_size r + 1)) r.

(** ** Removal of everything *)
Definition clear_no_resize (r : FlatRep) : FlatRep :=
  with_array (map (fun s => if 2 <=? marker s then mkSlot kEmpty None else s) (array_ r)) 0 0 r.

Definition clear (r : FlatRep) : outcome FlatRep := MaybeResize (set_grow 0 (clear_no_resize r)).

(** [CopyFrom] and the copy constructor. *)
Definition copy_rep (src : FlatRep) : outcome FlatRep :=
  match Init (rep_size src) with Done fresh => CopyEntries (array_ src) fresh | o => o end.

(** ** The set *)
Definition FlatSet_new (N : Z) : outcome FlatRep := Init N.

(** The elements in the order of the iterator. *)
Definition set_elements (r : FlatRep) : list Key := omap (fun s => if marker s <? 2 then None else slot_key s) (array_ r).

Definition set_count (r : FlatRep) (k : Key) : outcome Z :=
  match Find r k with
  | Done o => Done (match o with Some _ => 1 | None => 0 end)
  | Crash => Crash
  | OutOfFuel => OutOfFuel
  end.

Definition set_insert (k : Key) (r : FlatRep) : outcome (FlatRep * bool) :=
  match MaybeResize r with
  | Done r =>
      match FindOrInsert r k with
      | Done (found, _, r) => Done (r, negb found)
      | Crash => Crash
      | OutOfFuel => OutOfFuel
      end
  | Crash => Crash
  | OutOfFuel => OutOfFuel
  end.

Definition set_erase (k : Key) (r : FlatRep) : outcome (FlatRep * Z) :=
  match Find r k with
  | Done None => Done (r, 0)
  | Done (Some i) => Done (Erase i r, 1)
  | Crash => Crash
  | OutOfFuel => OutOfFuel
  end.

Definition set_reserve (N : Z) (r : FlatRep) : outcome FlatRep := Resize (Z.max N (rep_size r)) r.

(** Insertion of a range. *)
Fixpoint set_insert_range (l : list Key) (r : FlatRep) : outcome FlatRep :=
  match l with
  | [] => Done r
  | k :: l =>
      match set_insert k r with
      | Done (r, _) => set_insert_range l r
      | Crash => Crash
      | OutOfFuel => OutOfFuel
      end
  end.

(** ** Iteration

    An iterator is a bucket and an index in it; the end is the bucket past the
    last. *)
Definition num_buckets (r : FlatRep) : Z := 2 ^ lglen_ r.

Fixpoint skip_loop (fuel : nat) (r : FlatRep) (b i : Z) : outcome (Z * Z) :=
  if b <? num_buckets r then
    match fuel with
    | O => OutOfFuel
    | S fuel =>
        if kWidth <=? i then skip_loop fuel r (b + 1) 0
        else match array_ r !! Z.to_nat (kWidth * b + i) with
             | None => Crash
             | Some s => if marker s <? 2 then skip_loop fuel r b (i + 1) else Done (b, i)
             end
    end
  else Done (b, i).

(** A bucket takes nine steps. *)
Definition SkipUnused (r : FlatRep) (b i : Z) : outcome (Z * Z) := skip_loop (Z.to_nat (9 * num_buckets r)) r b i.

Definition begin_ (r : FlatRep) : outcome (Z * Z) := SkipUnused r 0 0.

(** [for (const auto& elem : set)], the elements met; [end()] is the pair of the
    number of buckets and 0. *)
Fixpoint iterate (fuel : nat) (r : FlatRep) (pos : Z * Z) : outcome (list Key) :=
  if (fst pos =? num_buckets r) && (snd pos =? 0) then Done []
  else
    match fuel with
    | O => OutOfFuel
    | S fuel =>
        match array_ r !! Z.to_nat (kWidth * fst pos + snd pos) with
        | Some (mkSlot _ (Some k)) =>
            match SkipUnused r (fst pos) (snd pos + 1) with
            | Done pos => match iterate fuel r pos with Done l => Done (k :: l) | o => o end
            | Crash => Crash
            | OutOfFuel => OutOfFuel
            end
        | _ => Crash
        end
    end.

Definition walk (r : FlatRep) : outcome (list Key) :=
  match begin_ r with Done pos => iterate (length (array_ r)) r pos | Crash => Crash | OutOfFuel => OutOfFuel end.

(** The search of each element in turn. *)
Fixpoint find_all (r : FlatRep) (l : list Key) : outcome bool :=
  match l with
  | [] => Done true
  | k :: l =>
      match Find r k with
      | Done None => Done false
      | Done (Some _) => find_all r l
      | Crash => Crash
      | OutOfFuel => OutOfFuel
      end
  end.

(** [operator==]. *)
Definition set_equal (r x : FlatRep) : outcome bool :=
  if negb (rep_size r =? rep_size x) then Done false
  else match walk x with Done l => find_all r l | Crash => Crash | OutOfFuel => OutOfFuel end.
End FlatRep.
Arguments Slot Key : clear implicits.
Arguments FlatRep Key : clear implicits.
