(* ===== verification/FlatProofs.v ===== *)
(** * Quadratic probing and the invariant of a table

    The slots a search visits are at triangular distances from the first.  Over a
    number of slots that is a power of two they are all different, so that a
    search visits every slot. *)
From S2P Require Import Prelude FlatRep.
From stdpp Require Import list options.
#[local] Open Scope Z_scope.

(** ** Triangular numbers *)
Fixpoint triangle (t : nat) : Z :=
  match t with O => 0 | S t => triangle t + Z.of_nat (S t) end.

Lemma triangle_double t : 2 * triangle t = Z.of_nat t * (Z.of_nat t + 1).
Proof. induction t as [|t IH]; [done|]. cbn [triangle]. lia. Qed.

Definition probe (m : nat) (start : Z) (t : nat) : Z := (start + triangle t) mod 2 ^ Z.of_nat m.

Lemma odd_divides_pow2 n x y : Z.odd x = true -> (2 ^ Z.of_nat n | x * y) -> (2 ^ Z.of_nat n | y).
Proof.
  intros Hx. revert y. induction n as [|n IH]; intros y Hd; [apply Z.divide_1_l|]. rewrite Nat2Z.inj_succ, Z.pow_succ_r in * by lia.
  assert (Z.even y = true) as Hy.
  { destruct Hd as [q Hq]. assert (Z.even (x * y) = true) as He by (rewrite Hq, !Z.even_mul; cbn; by rewrite orb_true_r).
    rewrite Z.even_mul, <- Z.negb_odd, Hx in He. done. }
  apply Z.even_spec in Hy as [z ->]. apply Z.mul_divide_mono_l. apply IH. destruct Hd as [q Hq]. exists q. lia.
Qed.

Lemma triangle_inj m a b : (a < b)%nat -> Z.of_nat b < 2 ^ Z.of_nat m -> ~ (2 ^ Z.of_nat m | triangle b - triangle a).
Proof.
  intros Hab Hb [q Hq]. set (x := Z.of_nat a) in *. set (y := Z.of_nat b) in *.
  assert ((y - x) * (x + y + 1) = q * 2 ^ (Z.of_nat m + 1)) as E.
  { pose proof (triangle_double a). pose proof (triangle_double b). rewrite Z.pow_add_r, Z.pow_1_r by lia. unfold x, y in *. nia. }
  assert (2 ^ (Z.of_nat m + 1) = 2 * 2 ^ Z.of_nat m) as Ep by (rewrite Z.pow_add_r by lia; lia).
  destruct (Z.odd (y - x)) eqn:Eo.
  - assert (2 ^ Z.of_nat (S m) | x + y + 1) as Hz by (apply (odd_divides_pow2 (S m) (y - x) (x + y + 1)); [done|exists q; rewrite Nat2Z.inj_succ; unfold Z.succ; lia]).
    apply Z.divide_pos_le in Hz; [|lia]. rewrite Nat2Z.inj_succ, Z.pow_succ_r in Hz by lia. lia.
  - assert (Z.odd (x + y + 1) = true) as Eo'.
    { replace (x + y + 1) with ((y - x) + (2 * x + 1)) by lia. rewrite Z.odd_add, Eo, Z.odd_add, Z.odd_mul. done. }
    assert (2 ^ Z.of_nat (S m) | y - x) as Hz by (apply (odd_divides_pow2 (S m) (x + y + 1) (y - x)); [done|exists q; rewrite Nat2Z.inj_succ; unfold Z.succ; lia]).
    apply Z.divide_pos_le in Hz; [|lia]. rewrite Nat2Z.inj_succ, Z.pow_succ_r in Hz by lia. lia.
Qed.

Lemma probe_inj m s a b : Z.of_nat a < 2 ^ Z.of_nat m -> Z.of_nat b < 2 ^ Z.of_nat m -> probe m s a = probe m s b -> a = b.
Proof.
  intros Ha Hb E. assert (forall u v, (u < v)%nat -> Z.of_nat v < 2 ^ Z.of_nat m -> probe m s u <> probe m s v) as Hne.
  { intros u v Huv Hv Huv'. apply (triangle_inj m u v Huv Hv). unfold probe in Huv'. apply Z.mod_divide; [lia|].
    replace (triangle v - triangle u) with ((s + triangle v) - (s + triangle u)) by lia. rewrite Zminus_mod, Huv', Z.sub_diag. done. }
  destruct (lt_eq_lt_dec a b) as [[?|?]|?]; [|done|]; exfalso; [by eapply Hne|by eapply Hne].
Qed.

(** Every slot is visited. *)
Lemma probe_visits m s p : 0 <= p < 2 ^ Z.of_nat m -> exists t, Z.of_nat t < 2 ^ Z.of_nat m /\ probe m s t = p.
Proof.
  intros Hp. set (n := Z.to_nat (2 ^ Z.of_nat m)). assert (Z.of_nat n = 2 ^ Z.of_nat m) as Hn by (unfold n; lia).
  set (l := map (fun t => Z.to_nat (probe m s t)) (seq 0 n)).
  assert (forall t, 0 <= probe m s t < 2 ^ Z.of_nat m) as Hr by (intros t; apply Z.mod_pos_bound; lia).
  assert (NoDup l) as Hl.
  { apply NoDup_fmap_2_strong; [|apply NoDup_seq]. intros a b Ha%elem_of_seq Hb%elem_of_seq E. apply (probe_inj m s); [lia|lia|].
    pose proof (Hr a). pose proof (Hr b). lia. }
  assert (incl (seq 0 n) l) as Hincl.
  { apply NoDup_length_incl; [by apply NoDup_ListNoDup|unfold l; rewrite length_map; lia|]. intros x Hx. unfold l in Hx. apply in_map_iff in Hx as (t & <- & _).
    apply in_seq. pose proof (Hr t). lia. }
  assert (In (Z.to_nat p) l) as Hin by (apply Hincl, in_seq; lia). unfold l in Hin. apply in_map_iff in Hin as (t & Et & Ht%in_seq).
  exists t. pose proof (Hr t). lia.
Qed.

(** One step of the loop. *)
Lemma probe_next m s t : Z.of_nat m <= 32 -> Z.of_nat t < 2 ^ 32 - 1 ->
  Z.land (u64 (probe m s t + Z.of_nat (S t))) (2 ^ Z.of_nat m - 1) = probe m s (S t).
Proof.
  intros Hm Ht. assert (2 ^ Z.of_nat m <= 2 ^ 32) as Hle by (apply Z.pow_le_mono_r; lia).
  assert (0 <= probe m s t < 2 ^ Z.of_nat m) as Hp by (apply Z.mod_pos_bound; lia). unfold u64, uwrap. rewrite Z.mod_small by lia.
  replace (2 ^ Z.of_nat m - 1) with (Z.ones (Z.of_nat m)) by (rewrite Z.ones_equiv; lia). rewrite Z.land_ones by lia. unfold probe.
  rewrite Z.add_mod_idemp_l by lia. f_equal. cbn [triangle]. lia.
Qed.

(** * The invariant of an open-addressed table *)

(** ** Counting slots *)
Section Count.
Context {A : Type}.

Definition cnt (p : A -> bool) (l : list A) : Z := Z.of_nat (length (filter (fun x => p x = true) l)).

Lemma cnt_cons p x l : cnt p (x :: l) = (if p x then 1 else 0) + cnt p l.
Proof. unfold cnt. rewrite filter_cons. destruct (p x); simpl; lia. Qed.

Lemma cnt_app p l1 l2 : cnt p (l1 ++ l2) = cnt p l1 + cnt p l2.
Proof. unfold cnt. rewrite filter_app, length_app. lia. Qed.

Lemma cnt_insert p l i x y : l !! i = Some x -> cnt p (<[i := y]> l) = cnt p l - (if p x then 1 else 0) + (if p y then 1 else 0).
Proof.
  intros Hi. rewrite insert_take_drop by (by eapply lookup_lt_Some). rewrite <- (take_drop_middle l i x Hi) at 3. rewrite !cnt_app, !cnt_cons. lia.
Qed.

Lemma cnt_le p l : 0 <= cnt p l <= Z.of_nat (length l).
Proof. unfold cnt. pose proof (length_filter (fun x => p x = true) l). lia. Qed.

(** Fewer than all: one is left. *)
Lemma cnt_lt p l : cnt p l < Z.of_nat (length l) -> exists i x, l !! i = Some x /\ p x = false.
Proof.
  induction l as [|x l IH]; [unfold cnt; simpl; lia|]. rewrite cnt_cons. simpl. intros Hl. destruct (p x) eqn:E; [|exists O, x; done].
  destruct IH as (i & y & Hi & Hy); [lia|]. by exists (S i), y.
Qed.
End Count.

Section FlatProofs.
Context {Key : Type} `{EqDecision Key} (hash_ : Key -> Z).
#[local] Notation FlatRep := (FlatRep Key).
#[local] Notation Slot := (Slot Key).

(** ** The invariant *)
Definition base (k : Key) : Z := Z.shiftr (hash_ k) 8.

(** The slot at probe [t] of key [k]. *)
Definition spot (m : nat) (k : Key) (t : nat) : nat := Z.to_nat (probe m (base k) t).

Definition full (s : Slot) : bool := negb (marker s =? kEmpty).

Definition gone (s : Slot) : bool := marker s =? kDeleted.

Definition slot_ok (s : Slot) : Prop :=
  match slot_key s with
  | Some k => marker s = key_marker hash_ k
  | None => marker s = kEmpty \/ marker s = kDeleted
  end.

Definition is_full (a : list Slot) (p : nat) : Prop := exists s, a !! p = Some s /\ full s = true.

Record tab_ok (m : nat) (r : FlatRep) : Prop := {
  t_bits : (3 <= m <= 31)%nat;
  t_len : Z.of_nat (length (array_ r)) = 2 ^ Z.of_nat m;
  t_mask : mask_ r = 2 ^ Z.of_nat m - 1;
  t_lglen : lglen_ r = Z.of_nat m - 3;
  t_shrink : shrink_ r = if lglen_ r =? 0 then 0 else times_04 (times_08 (2 ^ Z.of_nat m));
  t_slots p s : array_ r !! p = Some s -> slot_ok s;
  t_unique p q s s' k : array_ r !! p = Some s -> array_ r !! q = Some s' -> slot_key s = Some k -> slot_key s' = Some k -> p = q;
  t_reach p s k : array_ r !! p = Some s -> slot_key s = Some k ->
    exists t, Z.of_nat t < 2 ^ Z.of_nat m /\ spot m k t = p /\ forall u, (u < t)%nat -> is_full (array_ r) (spot m k u);
  t_not_empty : not_empty_ r = cnt full (array_ r);
  t_deleted : deleted_ r = cnt gone (array_ r);
  t_room : not_empty_ r < 2 ^ Z.of_nat m
}.

Definition has (r : FlatRep) (k : Key) : Prop := exists p s, array_ r !! p = Some s /\ slot_key s = Some k.

(** ** Markers and indices *)
Lemma key_marker_ge k : 2 <= key_marker hash_ k.
Proof using Type.
  unfold key_marker, Marker. assert (0 <= Z.land (hash_ k) 255) as Hp by (apply Z.land_nonneg; lia). destruct (Z.ltb_spec (Z.land (hash_ k) 255) 2); lia.
Qed.

Lemma pow_bits m (r : FlatRep) : tab_ok m r -> 2 ^ Z.of_nat m <= 2 ^ 31.
Proof using Type. intros Hr. apply Z.pow_le_mono_r; [lia|]. pose proof (t_bits _ _ Hr). lia. Qed.

Lemma first_probe m r k : tab_ok m r -> first_index hash_ r k = probe m (base k) 0.
Proof using Type.
  intros Hr. unfold first_index, probe, base. rewrite (t_mask _ _ Hr). replace (2 ^ Z.of_nat m - 1) with (Z.ones (Z.of_nat m)) by (rewrite Z.ones_equiv; lia).
  rewrite Z.land_ones by lia. by rewrite Z.add_0_r.
Qed.

Lemma next_probe m r k t : tab_ok m r -> Z.of_nat t < 2 ^ Z.of_nat m -> NextIndex r (probe m (base k) t) (Z.of_nat t + 1) = probe m (base k) (S t).
Proof using Type.
  intros Hr Ht. pose proof (pow_bits m r Hr). pose proof (t_bits _ _ Hr). unfold NextIndex. rewrite (t_mask _ _ Hr), <- probe_next by lia.
  repeat f_equal. lia.
Qed.

Lemma next_count m r t : tab_ok m r -> Z.of_nat t < 2 ^ Z.of_nat m -> u32 (Z.of_nat t + 1 + 1) = Z.of_nat (S t) + 1.
Proof using Type. intros Hr Ht. pose proof (pow_bits m r Hr). unfold u32, uwrap. rewrite Z.mod_small; lia. Qed.

Lemma spot_lookup m r k t : tab_ok m r -> exists s, array_ r !! spot m k t = Some s /\ slot_ok s.
Proof using Type.
  intros Hr. destruct (lookup_lt_is_Some_2 (array_ r) (spot m k t)) as [s Hs].
  { pose proof (Z.mod_pos_bound (base k + triangle t) (2 ^ Z.of_nat m)). unfold spot, probe. pose proof (t_len _ _ Hr). lia. }
  exists s. split; [done|]. by eapply (t_slots _ _ Hr).
Qed.

(** A search that met no empty slot has not been everywhere. *)
Lemma some_empty m r k t : tab_ok m r -> (forall u, (u < t)%nat -> is_full (array_ r) (spot m k u)) -> Z.of_nat t < 2 ^ Z.of_nat m.
Proof using Type.
  intros Hr Hall. destruct (Z.lt_ge_cases (Z.of_nat t) (2 ^ Z.of_nat m)) as [?|Hge]; [done|]. exfalso. pose proof (t_room _ _ Hr) as Hroom.
  rewrite (t_not_empty _ _ Hr), <- (t_len _ _ Hr) in Hroom. apply cnt_lt in Hroom as (p & s & Hp & Hs). pose proof (lookup_lt_Some _ _ _ Hp).
  destruct (probe_visits m (base k) (Z.of_nat p)) as (u & Hu & Eu); [rewrite <- (t_len _ _ Hr); lia|]. destruct (Hall u) as (s' & Hs' & Hf); [lia|].
  unfold spot in Hs'. rewrite Eu, Nat2Z.id in Hs'. congruence.
Qed.

Lemma match_slot s k : slot_ok s -> (marker s =? key_marker hash_ k) && bool_decide (slot_key s = Some k) = bool_decide (slot_key s = Some k).
Proof using Type.
  intros Hs. unfold slot_ok in Hs. case_bool_decide as E; [|apply andb_false_r]. rewrite E in Hs. rewrite Hs, Z.eqb_refl. done.
Qed.

(** ** [Find] *)
Lemma find_loop_run m r k : tab_ok m r -> forall fuel t, 2 ^ Z.of_nat m <= Z.of_nat (t + fuel) ->
  (forall u, (u < t)%nat -> is_full (array_ r) (spot m k u)) -> (forall u s, (u < t)%nat -> array_ r !! spot m k u = Some s -> slot_key s <> Some k) ->
  exists o, find_loop hash_ fuel r k (probe m (base k) t) (Z.of_nat t + 1) = Done o /\
    match o with
    | Some p => exists s, array_ r !! Z.to_nat p = Some s /\ slot_key s = Some k
    | None => ~ has r k
    end.
Proof using Type.
  intros Hr fuel. induction fuel as [|fuel IH]; intros t Hfuel Hall Hno; pose proof (some_empty m r k t Hr Hall) as Ht; [lia|].
  destruct (spot_lookup m r k t Hr) as (s & Hs & Hok). cbn [find_loop]. unfold spot in Hs. rewrite Hs, (match_slot s k Hok).
  case_bool_decide as Ek; [exists (Some (probe m (base k) t)); eauto|]. destruct (Z.eqb_spec (marker s) kEmpty) as [Ee|Ee].
  - exists None. split; [done|]. intros (p & s' & Hp & Hk). destruct (t_reach _ _ Hr p s' k Hp Hk) as (t' & Ht' & Ep & Hall').
    destruct (lt_eq_lt_dec t' t) as [[Hlt|Heq]|Hgt].
    + apply (Hno t' s' Hlt); [|done]. by rewrite Ep.
    + subst t' p. unfold spot in Hp. congruence.
    + destruct (Hall' t Hgt) as (s2 & Hs2 & Hf). unfold spot in Hs2. assert (s2 = s) as -> by congruence. unfold full in Hf. rewrite Ee in Hf. done.
  - rewrite (next_probe m r k t Hr Ht), (next_count m r t Hr Ht). apply IH; [lia| |].
    + intros u Hu. destruct (decide (u = t)) as [->|]; [|apply Hall; lia]. exists s. split; [done|]. unfold full. by apply negb_true_iff, Z.eqb_neq.
    + intros u s2 Hu Hs2. destruct (decide (u = t)) as [->|]; [|apply (Hno u); [lia|done]]. unfold spot in Hs2. congruence.
Qed.

Lemma Find_run m r k : tab_ok m r -> exists o, Find hash_ r k = Done o /\
  match o with
  | Some p => exists s, array_ r !! Z.to_nat p = Some s /\ slot_key s = Some k
  | None => ~ has r k
  end.
Proof using Type.
  intros Hr. unfold Find. rewrite (first_probe m r k Hr). apply (find_loop_run m r k Hr (length (array_ r)) 0); [rewrite <- (t_len _ _ Hr); lia|lia|lia].
Qed.

(** ** A new entry *)
Definition entry (k : Key) : Slot := mkSlot (key_marker hash_ k) (Some k).

(** A slot the probes of [k] reach, without an entry. *)
Definition free_spot (m : nat) (r : FlatRep) (k : Key) (p : nat) (s : Slot) : Prop :=
  array_ r !! p = Some s /\ slot_key s = None /\
  exists t, Z.of_nat t < 2 ^ Z.of_nat m /\ spot m k t = p /\ forall u, (u < t)%nat -> is_full (array_ r) (spot m k u).

Lemma is_full_insert a p q s : is_full a p -> full s = true -> is_full (<[q := s]> a) p.
Proof using Type.
  intros (s' & Hs' & Hf) Hs. destruct (decide (p = q)) as [->|]; [|exists s'; by rewrite list_lookup_insert_ne].
  exists s. split; [|done]. apply list_lookup_insert_eq. by eapply lookup_lt_Some.
Qed.

Lemma full_entry k : full (entry k) = true.
Proof using Type. unfold full, entry. cbn. pose proof (key_marker_ge k). apply negb_true_iff, Z.eqb_neq. unfold kEmpty. lia. Qed.

Lemma gone_entry k : gone (entry k) = false.
Proof using Type. unfold gone, entry. cbn. pose proof (key_marker_ge k). apply Z.eqb_neq. unfold kDeleted. lia. Qed.

Lemma put_entry m r k p s ne de : tab_ok m r -> free_spot m r k p s -> ~ has r k ->
  ne = not_empty_ r + (if full s then 0 else 1) -> de = deleted_ r - (if gone s then 1 else 0) -> ne < 2 ^ Z.of_nat m ->
  tab_ok m (with_array (<[p := entry k]> (array_ r)) ne de r) /\
  forall x, has (with_array (<[p := entry k]> (array_ r)) ne de r) x <-> x = k \/ has r x.
Proof using Type.
  intros Hr (Hp & Hnone & t & Ht & Et & Hall) Hno Hne Hde Hroom. pose proof (lookup_lt_Some _ _ _ Hp) as Hlt.
  assert (forall q s' x, <[p := entry k]> (array_ r) !! q = Some s' -> slot_key s' = Some x -> (q = p /\ x = k) \/ (q <> p /\ array_ r !! q = Some s')) as Hcase.
  { intros q s' x Hq Hx. destruct (decide (q = p)) as [->|]; [left|right; by rewrite list_lookup_insert_ne in Hq].
    rewrite list_lookup_insert_eq in Hq by done. simplify_eq. cbn in Hx. by simplify_eq. }
  split.
  - split; cbn.
    + apply (t_bits _ _ Hr).
    + rewrite length_insert. apply (t_len _ _ Hr).
    + apply (t_mask _ _ Hr).
    + apply (t_lglen _ _ Hr).
    + apply (t_shrink _ _ Hr).
    + intros q s' Hq. destruct (decide (q = p)) as [->|]; [rewrite list_lookup_insert_eq in Hq by done; by simplify_eq|].
      rewrite list_lookup_insert_ne in Hq by done. by eapply (t_slots _ _ Hr).
    + intros q q' s1 s2 x Hq Hq' Hx Hx'. destruct (Hcase q s1 x Hq Hx) as [[-> ->]|[Hqp Hq1]]; destruct (Hcase q' s2 _ Hq' Hx') as [[-> E]|[Hqp' Hq2]].
      * done.
      * exfalso. apply Hno. by exists q', s2.
      * subst x. exfalso. apply Hno. by exists q, s1.
      * by eapply (t_unique _ _ Hr).
    + intros q s' x Hq Hx. destruct (Hcase q s' x Hq Hx) as [[-> ->]|[Hqp Hq1]].
      * exists t. split_and!; [done|done|]. intros u Hu. apply is_full_insert; [by apply Hall|apply full_entry].
      * destruct (t_reach _ _ Hr q s' x Hq1 Hx) as (t' & Ht' & Et' & Hall'). exists t'. split_and!; [done|done|].
        intros u Hu. apply is_full_insert; [by apply Hall'|apply full_entry].
    + rewrite (cnt_insert _ _ _ s) by done. rewrite full_entry, Hne, (t_not_empty _ _ Hr). destruct (full s); lia.
    + rewrite (cnt_insert _ _ _ s) by done. rewrite gone_entry, Hde, (t_deleted _ _ Hr). destruct (gone s); lia.
    + done.
  - intros x. unfold has. cbn. split.
    + intros (q & s' & Hq & Hx). destruct (Hcase q s' x Hq Hx) as [[_ ->]|[_ Hq1]]; [by left|right; by exists q, s'].
    + intros [->|(q & s' & Hq & Hx)]; [exists p, (entry k); by rewrite list_lookup_insert_eq|]. exists q, s'. rewrite list_lookup_insert_ne; [done|].
      intros ->. congruence.
Qed.

(** ** [FindOrInsert] *)
Lemma insert_loop_run m r k : tab_ok m r -> forall fuel t del, 2 ^ Z.of_nat m <= Z.of_nat (t + fuel) ->
  (forall u, (u < t)%nat -> is_full (array_ r) (spot m k u)) -> (forall u s, (u < t)%nat -> array_ r !! spot m k u = Some s -> slot_key s <> Some k) ->
  match del with
  | Some d => exists s, gone s = true /\ free_spot m r k (Z.to_nat d) s
  | None => True
  end ->
  exists found i r', insert_loop hash_ fuel r k (probe m (base k) t) (Z.of_nat t + 1) del = Done (found, i, r') /\
    if found : bool then has r k /\ r' = r
    else ~ has r k /\ exists s, free_spot m r k (Z.to_nat i) s /\
      r' = with_array (<[Z.to_nat i := entry k]> (array_ r))
             (if full s then not_empty_ r else u64 (not_empty_ r + 1)) (if gone s then u64 (deleted_ r - 1) else deleted_ r) r.
Proof using Type.
  intros Hr fuel. induction fuel as [|fuel IH]; intros t del Hfuel Hall Hno Hdel; pose proof (some_empty m r k t Hr Hall) as Ht; [lia|].
  destruct (spot_lookup m r k t Hr) as (s & Hs & Hok). cbn [insert_loop]. pose proof Hs as Hs'. unfold spot in Hs. rewrite Hs, (match_slot s k Hok).
  case_bool_decide as Ek. { exists true, (probe m (base k) t), r. split; [done|]. split; [by exists (spot m k t), s|done]. }
  rewrite (next_probe m r k t Hr Ht), (next_count m r t Hr Ht).
  assert (full s = true -> forall u, (u < S t)%nat -> is_full (array_ r) (spot m k u)) as Hall1.
  { intros Hf u Hu. destruct (decide (u = t)) as [->|]; [by exists s|apply Hall; lia]. }
  assert (forall u s2, (u < S t)%nat -> array_ r !! spot m k u = Some s2 -> slot_key s2 <> Some k) as Hno1.
  { intros u s2 Hu Hs2. destruct (decide (u = t)) as [->|]; [congruence|apply (Hno u); [lia|done]]. }
  assert (marker s <> kEmpty -> full s = true) as Hfull by (intros Hm; unfold full; by apply negb_true_iff, Z.eqb_neq).
  destruct (bool_decide (del = None) && (marker s =? kDeleted)) eqn:Ed.
  - apply andb_true_iff in Ed as [_ Em]. assert (marker s = kDeleted) as Em' by (by apply Z.eqb_eq). apply IH; [lia|apply Hall1, Hfull; rewrite Em'; done|done|].
    exists s. split; [done|]. split; [done|]. split; [|exists t; done].
    unfold slot_ok in Hok. destruct (slot_key s) as [x|] eqn:Ex; [|done]. pose proof (key_marker_ge x). unfold kDeleted in Em'. lia.
  - destruct (Z.eqb_spec (marker s) kEmpty) as [Ee|Ee]; [|apply IH; [lia|by apply Hall1, Hfull|done|done]].
    assert (~ has r k) as Hnohas.
    { intros (p & s2 & Hp & Hk). destruct (t_reach _ _ Hr p s2 k Hp Hk) as (t' & Ht' & Ep & Hall'). destruct (lt_eq_lt_dec t' t) as [[Hlt|Heq]|Hgt].
      - apply (Hno t' s2 Hlt); [|done]. by rewrite Ep.
      - subst t' p. congruence.
      - destruct (Hall' t Hgt) as (s3 & Hs3 & Hf). assert (s3 = s) as -> by congruence. unfold full in Hf. rewrite Ee in Hf. done. }
    destruct del as [d|].
    + destruct Hdel as (sd & Hg & Hfree). exists false, d. eexists. split; [reflexivity|]. split; [done|]. exists sd. split; [done|]. rewrite Hg.
      assert (full sd = true) as -> by (unfold full, gone in *; apply Z.eqb_eq in Hg; rewrite Hg; done). done.
    + exists false, (probe m (base k) t). eexists. split; [reflexivity|]. split; [done|]. exists s. split.
      * split; [done|]. split; [|exists t; done]. unfold slot_ok in Hok. destruct (slot_key s) as [x|] eqn:Ex; [|done]. pose proof (key_marker_ge x). unfold kEmpty in Ee. lia.
      * assert (full s = false) as -> by (unfold full; rewrite Ee; done). assert (gone s = false) as -> by (unfold gone; rewrite Ee; done). done.
Qed.

Lemma FindOrInsert_run m r k : tab_ok m r -> not_empty_ r + 1 < 2 ^ Z.of_nat m ->
  exists found i r', FindOrInsert hash_ r k = Done (found, i, r') /\ tab_ok m r' /\ (found = true <-> has r k) /\ (forall x, has r' x <-> x = k \/ has r x) /\
    grow_ r' = grow_ r /\ not_empty_ r <= not_empty_ r' <= not_empty_ r + 1.
Proof using Type.
  intros Hr Hroom. unfold FindOrInsert. rewrite (first_probe m r k Hr). pose proof (pow_bits m r Hr) as Hpow.
  destruct (insert_loop_run m r k Hr (length (array_ r)) 0 None) as (found & i & r' & E & Hres); [rewrite <- (t_len _ _ Hr); lia|lia|lia|done|].
  exists found, i, r'. split; [exact E|]. destruct found.
  - destruct Hres as [Hhas ->]. split_and!; try done; try lia. intros x. split; [by right|]. by intros [->|?].
  - destruct Hres as (Hno & s & Hfree & ->). pose proof (cnt_le full (array_ r)) as Hc1. pose proof (cnt_le gone (array_ r)) as Hc2.
    rewrite <- (t_not_empty _ _ Hr) in Hc1. rewrite <- (t_deleted _ _ Hr), (t_len _ _ Hr) in Hc2.
    assert (gone s = true -> 0 < deleted_ r) as Hg.
    { intros Hg. rewrite (t_deleted _ _ Hr). destruct Hfree as (Hp & _). pose proof (cnt_insert gone _ _ s (mkSlot kEmpty None) Hp) as Hci. rewrite Hg in Hci.
      cbn in Hci. pose proof (cnt_le gone (<[Z.to_nat i := mkSlot kEmpty None]> (array_ r))). lia. }
    destruct (put_entry m r k (Z.to_nat i) s (if full s then not_empty_ r else u64 (not_empty_ r + 1)) (if gone s then u64 (deleted_ r - 1) else deleted_ r) Hr Hfree Hno)
      as [Hok Hhas].
    + unfold u64, uwrap. destruct (full s); [lia|]. rewrite Z.mod_small; lia.
    + unfold u64, uwrap. destruct (gone s); [|lia]. rewrite Z.mod_small; [lia|]. specialize (Hg eq_refl). lia.
    + unfold u64, uwrap. destruct (full s); [lia|]. rewrite Z.mod_small; lia.
    + assert (u64 (not_empty_ r + 1) = not_empty_ r + 1) as Hu by (unfold u64, uwrap; rewrite Z.mod_small; lia).
      split_and!; try done; [cbn; destruct (full s); lia|cbn; destruct (full s); lia].
Qed.

(** ** [Erase] *)
Lemma Erase_run m r k i s : tab_ok m r -> array_ r !! Z.to_nat i = Some s -> slot_key s = Some k ->
  tab_ok m (Erase i r) /\ (forall x, has (Erase i r) x <-> x <> k /\ has r x).
Proof using Type.
  intros Hr Hi Hk. pose proof (lookup_lt_Some _ _ _ Hi) as Hlt. pose proof (t_slots _ _ Hr _ _ Hi) as Hok. unfold slot_ok in Hok. rewrite Hk in Hok.
  pose proof (key_marker_ge k) as Hge. assert (full s = true) as Hf by (unfold full; rewrite Hok; apply negb_true_iff, Z.eqb_neq; unfold kEmpty; lia).
  assert (gone s = false) as Hg by (unfold gone; rewrite Hok; apply Z.eqb_neq; unfold kDeleted; lia).
  assert (forall q s' x, <[Z.to_nat i := mkSlot kDeleted None]> (array_ r) !! q = Some s' -> slot_key s' = Some x -> q <> Z.to_nat i /\ array_ r !! q = Some s') as Hcase.
  { intros q s' x Hq Hx. destruct (decide (q = Z.to_nat i)) as [->|]; [|by rewrite list_lookup_insert_ne in Hq].
    rewrite list_lookup_insert_eq in Hq by done. by simplify_eq. }
  split.
  - split; cbn.
    + apply (t_bits _ _ Hr).
    + rewrite length_insert. apply (t_len _ _ Hr).
    + apply (t_mask _ _ Hr).
    + apply (t_lglen _ _ Hr).
    + apply (t_shrink _ _ Hr).
    + intros q s' Hq. destruct (decide (q = Z.to_nat i)) as [->|]; [rewrite list_lookup_insert_eq in Hq by done; simplify_eq; by right|].
      rewrite list_lookup_insert_ne in Hq by done. by eapply (t_slots _ _ Hr).
    + intros q q' s1 s2 x Hq Hq' Hx Hx'. destruct (Hcase q s1 x Hq Hx) as [_ Hq1]. destruct (Hcase q' s2 x Hq' Hx') as [_ Hq2]. by eapply (t_unique _ _ Hr).
    + intros q s' x Hq Hx. destruct (Hcase q s' x Hq Hx) as [_ Hq1]. destruct (t_reach _ _ Hr q s' x Hq1 Hx) as (t & Ht & Et & Hall). exists t.
      split_and!; [done|done|]. intros u Hu. apply is_full_insert; [by apply Hall|done].
    + rewrite (cnt_insert _ _ _ s) by done. rewrite Hf, (t_not_empty _ _ Hr). cbn. lia.
    + rewrite (cnt_insert _ _ _ s) by done. rewrite Hg, (t_deleted _ _ Hr). cbn. unfold u64, uwrap. pose proof (cnt_le gone (array_ r)) as Hc.
      rewrite (t_len _ _ Hr) in Hc. pose proof (pow_bits m r Hr). rewrite Z.mod_small; lia.
    + apply (t_room _ _ Hr).
  - intros x. unfold has. cbn. split.
    + intros (q & s' & Hq & Hx). destruct (Hcase q s' x Hq Hx) as [Hne Hq1]. split; [|by exists q, s']. intros ->. apply Hne. by eapply (t_unique _ _ Hr).
    + intros [Hne (q & s' & Hq & Hx)]. exists q, s'. rewrite list_lookup_insert_ne; [done|]. intros <-. congruence.
Qed.
End FlatProofs.

(** * Growth of a table, and the set it holds *)

(** ** Fractions *)
Lemma at_least_bound N n : 0 <= n -> at_least_08 N n = false -> N <= times_08 n.
Proof. unfold at_least_08, times_08. intros Hn Hf%Z.leb_gt. apply Z.div_le_lower_bound; lia. Qed.

Lemma times_08_lt n : 0 < n -> times_08 n < n.
Proof. intros Hn. unfold times_08. apply Z.div_lt_upper_bound; [lia|]. unfold kEightTenths. lia. Qed.

Lemma times_08_six n : 8 <= n -> 6 <= times_08 n.
Proof. intros Hn. unfold times_08. apply Z.div_le_lower_bound; [lia|]. unfold kEightTenths. lia. Qed.

Lemma times_04_pos n : 6 <= n -> 0 < times_04 n.
Proof. intros Hn. unfold times_04. assert (2 <= n * kEightTenths / 2 ^ 53); [|lia]. apply Z.div_le_lower_bound; [lia|]. unfold kEightTenths. lia. Qed.

Section FlatResize.
Context {Key : Type} `{EqDecision Key} (hash_ : Key -> Z).
#[local] Notation FlatRep := (FlatRep Key).
#[local] Notation Slot := (Slot Key).

(** ** Elements *)
Lemma elem_of_set m (r : FlatRep) k : tab_ok hash_ m r -> k ∈ set_elements r <-> has r k.
Proof using Type.
  intros Hr. unfold set_elements, has. rewrite list_elem_of_omap. split.
  - intros (s & Hs & Hk). apply list_elem_of_lookup in Hs as [p Hp]. exists p, s. split; [done|]. by destruct (marker s <? 2).
  - intros (p & s & Hp & Hk). exists s. split; [by eapply list_elem_of_lookup_2|]. pose proof (t_slots _ _ _ Hr _ _ Hp) as Hok. unfold slot_ok in Hok.
    rewrite Hk in Hok. pose proof (key_marker_ge hash_ k). rewrite (proj2 (Z.ltb_ge _ _)) by lia. done.
Qed.

Lemma flat_slots_nodup (l : list Slot) : (forall p q s s' k, l !! p = Some s -> l !! q = Some s' -> slot_key s = Some k -> slot_key s' = Some k -> p = q) ->
  NoDup (omap (fun s => if marker s <? 2 then None else slot_key s) l).
Proof using Type.
  induction l as [|s l IH]; intros Hu; [apply NoDup_nil_2|]. assert (NoDup (omap (fun s => if marker s <? 2 then None else slot_key s) l)) as Hl.
  { apply IH. intros p q s1 s2 k Hp Hq H1 H2. by injection (Hu (S p) (S q) s1 s2 k Hp Hq H1 H2). }
  simpl. destruct (marker s <? 2); [done|]. destruct (slot_key s) as [k|] eqn:Ek; [|done]. apply NoDup_cons. split; [|done].
  intros (s' & Hs' & Hk)%list_elem_of_omap. apply list_elem_of_lookup in Hs' as [q Hq]. destruct (marker s' <? 2); [done|]. discriminate (Hu O (S q) s s' k eq_refl Hq Ek Hk).
Qed.

Lemma set_nodup m (r : FlatRep) : tab_ok hash_ m r -> NoDup (set_elements r).
Proof using Type. intros Hr. apply flat_slots_nodup. apply (t_unique _ _ _ Hr). Qed.

Lemma slots_count (l : list Slot) : Forall (slot_ok hash_) l ->
  Z.of_nat (length (omap (fun s => if marker s <? 2 then None else slot_key s) l)) = cnt full l - cnt gone l.
Proof using Type.
  set (f := fun s : Slot => if marker s <? 2 then None else slot_key s). induction 1 as [|s l Hs _ IH]; [done|]. rewrite !cnt_cons.
  change (omap f (s :: l)) with (match f s with Some y => y :: omap f l | None => omap f l end). unfold slot_ok in Hs. unfold f at 1. destruct (slot_key s) as [k|] eqn:Ek.
  - pose proof (key_marker_ge hash_ k). rewrite (proj2 (Z.ltb_ge _ _)) by lia.
    assert (full s = true) as -> by (unfold full, kEmpty; apply negb_true_iff, Z.eqb_neq; lia).
    assert (gone s = false) as -> by (unfold gone, kDeleted; apply Z.eqb_neq; lia). rewrite length_cons. lia.
  - replace (if marker s <? 2 then None else None) with (@None Key) by (by destruct (marker s <? 2)). rewrite IH.
    assert ((if full s then 1 else 0) = (if gone s then 1 else 0)) as -> by (destruct Hs as [E|E]; unfold full, gone; by rewrite E). lia.
Qed.

Lemma rep_size_run m (r : FlatRep) : tab_ok hash_ m r -> rep_size r = Z.of_nat (length (set_elements r)).
Proof using Type.
  intros Hr. assert (Forall (slot_ok hash_) (array_ r)) as Hf by (apply Forall_lookup; apply (t_slots _ _ _ Hr)).
  pose proof (slots_count _ Hf) as Hc. unfold rep_size, set_elements. rewrite (t_not_empty _ _ _ Hr), (t_deleted _ _ _ Hr), <- Hc.
  unfold u64, uwrap. apply Z.mod_small. pose proof (cnt_le full (array_ r)) as H1. pose proof (cnt_le gone (array_ r)). rewrite (t_len _ _ _ Hr) in H1.
  pose proof (pow_bits hash_ m r Hr). lia.
Qed.

(** ** [Init] *)
Lemma init_loop_run N : N < max_elements -> forall fuel lg, 0 <= lg <= 28 -> 28 <= lg + Z.of_nat fuel ->
  exists lg', init_loop fuel N lg = Done lg' /\ 0 <= lg' <= 28 /\ at_least_08 N (2 ^ lg' * kWidth) = false.
Proof using Type.
  intros HN fuel. induction fuel as [|fuel IH]; intros lg Hlg Hfuel; simpl; destruct (at_least_08 N (2 ^ lg * kWidth)) eqn:E; eauto.
  - assert (lg = 28) as -> by lia. unfold at_least_08, kWidth, kEightTenths, max_elements in *. apply Z.leb_le in E. lia.
  - destruct (decide (lg = 28)) as [->|]; [unfold at_least_08, kWidth, kEightTenths, max_elements in *; apply Z.leb_le in E; lia|]. apply IH; lia.
Qed.

Definition rep_ok (r : FlatRep) : Prop :=
  exists m, tab_ok hash_ m r /\ (grow_ r = 0 \/ grow_ r = times_08 (2 ^ Z.of_nat m)) /\ not_empty_ r <= times_08 (2 ^ Z.of_nat m).

Lemma Init_run N : N < max_elements -> exists (r : FlatRep) m, Init N = Done r /\ tab_ok hash_ m r /\ grow_ r = times_08 (2 ^ Z.of_nat m) /\
  N <= grow_ r /\ not_empty_ r = 0 /\ forall k, ~ has r k.
Proof using Type.
  intros HN. destruct (init_loop_run N HN 64 0) as (lg & E & Hlg & Hn); [lia|lia|]. unfold Init. rewrite E. eexists _, (Z.to_nat lg + 3)%nat. split; [reflexivity|].
  assert (2 ^ lg * kWidth = 2 ^ Z.of_nat (Z.to_nat lg + 3)) as Ec by (rewrite Nat2Z.inj_add, Z.pow_add_r, Z2Nat.id by lia; done). rewrite Ec in *.
  set (n := 2 ^ Z.of_nat (Z.to_nat lg + 3)) in *. assert (0 < n) as Hn0 by (unfold n; lia).
  assert (forall p s, replicate (Z.to_nat n) (mkSlot (Key := Key) kEmpty None) !! p = Some s -> s = mkSlot kEmpty None) as Hrep by (intros p s Hs; by apply lookup_replicate in Hs as [-> _]).
  assert (forall q, q (mkSlot (Key := Key) kEmpty None) = false -> forall k, cnt q (replicate k (mkSlot kEmpty None)) = 0) as Hcnt.
  { intros q Hq k. induction k as [|k IH]; [done|]. cbn [replicate]. rewrite cnt_cons, Hq. lia. }
  split_and!; cbn; try done.
  - split; cbn.
    + lia.
    + rewrite length_replicate. lia.
    + done.
    + lia.
    + done.
    + intros p s Hs. rewrite (Hrep p s Hs). by left.
    + intros p q s s' k Hp _ Hk. rewrite (Hrep p s Hp) in Hk. done.
    + intros p s k Hp Hk. rewrite (Hrep p s Hp) in Hk. done.
    + symmetry. by apply Hcnt.
    + symmetry. by apply Hcnt.
    + fold n. lia.
  - apply at_least_bound; [lia|done].
  - intros k (p & s & Hp & Hk). rewrite (Hrep p s Hp) in Hk. done.
Qed.

(** ** [FreshInsert] and [CopyEntries] *)
Lemma fresh_loop_run m r k : tab_ok hash_ m r -> forall fuel t, 2 ^ Z.of_nat m <= Z.of_nat (t + fuel) ->
  (forall u, (u < t)%nat -> is_full (array_ r) (spot hash_ m k u)) ->
  exists p s, fresh_loop hash_ fuel r k (probe m (base hash_ k) t) (Z.of_nat t + 1) =
      Done (with_array (<[p := entry hash_ k]> (array_ r)) (u64 (not_empty_ r + 1)) (deleted_ r) r) /\ free_spot hash_ m r k p s /\ full s = false.
Proof using Type.
  intros Hr fuel. induction fuel as [|fuel IH]; intros t Hfuel Hall; pose proof (some_empty hash_ m r k t Hr Hall) as Ht; [lia|].
  destruct (spot_lookup hash_ m r k t Hr) as (s & Hs & Hok). cbn [fresh_loop]. pose proof Hs as Hs'. unfold spot in Hs. rewrite Hs.
  destruct (Z.eqb_spec (marker s) 0) as [Ee|Ee].
  - exists (spot hash_ m k t), s. split; [done|]. split; [|unfold full; by rewrite Ee]. split; [done|]. split; [|exists t; done].
    unfold slot_ok in Hok. destruct (slot_key s) as [x|] eqn:Ex; [|done]. pose proof (key_marker_ge hash_ x). lia.
  - rewrite (next_probe hash_ m r k t Hr Ht), (next_count hash_ m r t Hr Ht). apply IH; [lia|].
    intros u Hu. destruct (decide (u = t)) as [->|]; [|apply Hall; lia]. exists s. split; [done|]. unfold full. by apply negb_true_iff, Z.eqb_neq.
Qed.

Lemma FreshInsert_run m r k : tab_ok hash_ m r -> ~ has r k -> not_empty_ r + 1 < 2 ^ Z.of_nat m ->
  exists r', FreshInsert hash_ k r = Done r' /\ tab_ok hash_ m r' /\ (forall x, has r' x <-> x = k \/ has r x) /\
    grow_ r' = grow_ r /\ not_empty_ r' = not_empty_ r + 1.
Proof using Type.
  intros Hr Hno Hroom. unfold FreshInsert. rewrite (first_probe hash_ m r k Hr).
  destruct (fresh_loop_run m r k Hr (length (array_ r)) 0) as (p & s & E & Hfree & Hf); [rewrite <- (t_len _ _ _ Hr); lia|lia|].
  eexists. split; [exact E|]. pose proof (cnt_le full (array_ r)) as Hc. rewrite <- (t_not_empty _ _ _ Hr) in Hc. pose proof (pow_bits hash_ m r Hr).
  assert (u64 (not_empty_ r + 1) = not_empty_ r + 1) as Hu by (unfold u64, uwrap; rewrite Z.mod_small; lia). rewrite Hu.
  assert (gone s = false) as Hg by (unfold full, gone in *; apply negb_false_iff, Z.eqb_eq in Hf; by rewrite Hf).
  destruct (put_entry hash_ m r k p s (not_empty_ r + 1) (deleted_ r) Hr Hfree Hno) as [Hok Hhas]; [rewrite Hf; lia|rewrite Hg; lia|lia|]. done.
Qed.

Lemma CopyEntries_run m slots : Forall (slot_ok hash_) slots -> NoDup (omap (fun s => if marker s <? 2 then None else slot_key s) slots) ->
  forall r, tab_ok hash_ m r -> (forall k, k ∈ omap (fun s => if marker s <? 2 then None else slot_key s) slots -> ~ has r k) ->
  not_empty_ r + Z.of_nat (length (omap (fun s => if marker s <? 2 then None else slot_key s) slots)) < 2 ^ Z.of_nat m ->
  exists r', CopyEntries hash_ slots r = Done r' /\ tab_ok hash_ m r' /\
    (forall x, has r' x <-> x ∈ omap (fun s => if marker s <? 2 then None else slot_key s) slots \/ has r x) /\ grow_ r' = grow_ r /\
    not_empty_ r' = not_empty_ r + Z.of_nat (length (omap (fun s => if marker s <? 2 then None else slot_key s) slots)).
Proof using Type.
  set (f := fun s : Slot => if marker s <? 2 then None else slot_key s).
  induction 1 as [|s slots Hs _ IH]; intros Hnd r Hr Hno Hroom.
  - exists r. split_and!; try done; [|simpl; lia]. intros x. split; [by right|]. by intros [?%not_elem_of_nil|?].
  - cbn [CopyEntries]. change (omap f (s :: slots)) with (match f s with Some y => y :: omap f slots | None => omap f slots end) in *. unfold slot_ok in Hs.
    destruct (slot_key s) as [k|] eqn:Ek.
    + pose proof (key_marker_ge hash_ k). assert (f s = Some k) as Ef by (unfold f; rewrite (proj2 (Z.ltb_ge _ _)) by lia; done). rewrite Ef in *.
      rewrite (proj2 (Z.leb_le _ _)) by lia. apply NoDup_cons in Hnd as [Hk Hnd]. simpl in Hroom.
      destruct (FreshInsert_run m r k Hr) as (r1 & E1 & Hr1 & Hhas1 & Hg1 & Hn1); [apply Hno; left|lia|]. rewrite E1.
      destruct (IH Hnd r1 Hr1) as (r' & E & Hr' & Hhas & Hg & Hn); [|lia|].
      { intros x Hx [->|Hh]%Hhas1; [done|]. apply (Hno x); [by right|done]. }
      exists r'. split_and!; try done; [|congruence|simpl; lia]. intros x. rewrite Hhas, Hhas1, elem_of_cons. tauto.
    + assert (f s = None) as Ef by (unfold f; rewrite Ek; by destruct (marker s <? 2)). rewrite Ef in *.
      rewrite (proj2 (Z.leb_gt _ _)) by (unfold kEmpty, kDeleted in Hs; lia). by apply IH.
Qed.

(** ** [Resize] and [MaybeResize] *)
Lemma Resize_run m N r : tab_ok hash_ m r -> Z.of_nat (length (set_elements r)) <= N < max_elements ->
  exists r' m', Resize hash_ N r = Done r' /\ tab_ok hash_ m' r' /\ (forall x, has r' x <-> has r x) /\ grow_ r' = times_08 (2 ^ Z.of_nat m') /\
    N <= grow_ r' /\ not_empty_ r' = Z.of_nat (length (set_elements r)).
Proof using Type.
  intros Hr HN. destruct (Init_run N) as (r0 & m' & E0 & Hr0 & Hg0 & HN0 & Hn0 & Hno0); [lia|]. unfold Resize. rewrite E0.
  pose proof (times_08_lt (2 ^ Z.of_nat m')) as Hlt. destruct (CopyEntries_run m' (array_ r)) with (r := r0) as (r' & E & Hr' & Hhas & Hg & Hn).
  - apply Forall_lookup. apply (t_slots _ _ _ Hr).
  - apply (set_nodup m r Hr).
  - done.
  - intros k _. apply Hno0.
  - unfold set_elements in HN. lia.
  - exists r', m'. split_and!; try done; [|congruence|congruence|unfold set_elements; lia]. intros x. rewrite Hhas.
    change (omap _ (array_ r)) with (set_elements r). rewrite (elem_of_set m r x Hr). pose proof (Hno0 x). tauto.
Qed.

Lemma MaybeResize_run r : rep_ok r -> Z.of_nat (length (set_elements r)) + 1 < max_elements ->
  exists r' m', MaybeResize hash_ r = Done r' /\ tab_ok hash_ m' r' /\ (forall x, has r' x <-> has r x) /\ grow_ r' = times_08 (2 ^ Z.of_nat m') /\
    not_empty_ r' < grow_ r'.
Proof using Type.
  intros (m & Hr & Hg & Hle) Hsize. pose proof (pow_bits hash_ m r Hr) as Hpow. pose proof (t_bits _ _ _ Hr) as Hm.
  assert (8 <= 2 ^ Z.of_nat m) as H8 by (change 8 with (2 ^ 3); apply Z.pow_le_mono_r; lia).
  assert (exists r' m', Resize hash_ (u64 (rep_size r + 1)) r = Done r' /\ tab_ok hash_ m' r' /\ (forall x, has r' x <-> has r x) /\
    grow_ r' = times_08 (2 ^ Z.of_nat m') /\ not_empty_ r' < grow_ r') as Hresize.
  { rewrite (rep_size_run m r Hr). unfold u64, uwrap. rewrite Z.mod_small by (unfold max_elements in Hsize; lia).
    destruct (Resize_run m (Z.of_nat (length (set_elements r)) + 1) r Hr) as (r' & m' & E & Hr' & Hhas & Hg' & HN & Hn); [lia|].
    exists r', m'. split_and!; try done. lia. }
  unfold MaybeResize. destruct (Z.ltb_spec (not_empty_ r) (grow_ r)) as [Hlt|Hge].
  - exists r, m. destruct Hg as [Hg|Hg]; [|done]. rewrite Hg in Hlt. pose proof (cnt_le full (array_ r)). rewrite <- (t_not_empty _ _ _ Hr) in *. lia.
  - destruct ((grow_ r =? 0) && (shrink_ r <=? rep_size r)); [|done]. assert (bucket_count r = 2 ^ Z.of_nat m) as ->.
    { unfold bucket_count. rewrite (t_mask _ _ _ Hr). unfold u64, uwrap. rewrite Z.mod_small; lia. }
    cbv zeta. change (not_empty_ (set_grow (times_08 (2 ^ Z.of_nat m)) r)) with (not_empty_ r).
    change (grow_ (set_grow (times_08 (2 ^ Z.of_nat m)) r)) with (times_08 (2 ^ Z.of_nat m)).
    destruct (Z.ltb_spec (not_empty_ r) (times_08 (2 ^ Z.of_nat m))) as [Hlt|_]; [|exact Hresize].
    exists (set_grow (times_08 (2 ^ Z.of_nat m)) r), m. split_and!; try done. destruct Hr. by split.
Qed.

End FlatResize.

(** ** The operations *)
Section FlatSetOps.
Context {Key : Type} `{EqDecision Key} (hash_ : Key -> Z).
#[local] Notation FlatRep := (FlatRep Key).

Lemma set_insert_run k r : rep_ok hash_ r -> Z.of_nat (length (set_elements r)) + 1 < max_elements ->
  exists r' b, set_insert hash_ k r = Done (r', b) /\ rep_ok hash_ r' /\ b = bool_decide (k ∉ set_elements r) /\
    forall x, x ∈ set_elements r' <-> x = k \/ x ∈ set_elements r.
Proof using Type.
  intros Hr Hsize. destruct (MaybeResize_run hash_ r Hr Hsize) as (r1 & m & E1 & Hr1 & Hhas1 & Hg1 & Hlt1).
  pose proof (times_08_lt (2 ^ Z.of_nat m)) as Hlt. destruct (FindOrInsert_run hash_ m r1 k Hr1) as (found & i & r' & E & Hr' & Hf & Hhas & Hg & Hn); [lia|].
  destruct Hr as (m0 & Hr & _). exists r', (negb found). unfold set_insert. rewrite E1, E. split_and!; try done.
  - exists m. split; [done|]. split; [right; congruence|lia].
  - rewrite Hhas1, <- (elem_of_set hash_ m0 r k Hr) in Hf. destruct found; simpl; symmetry; [apply bool_decide_eq_false_2|apply bool_decide_eq_true_2]; naive_solver.
  - intros x. by rewrite (elem_of_set hash_ m r' x Hr'), Hhas, Hhas1, (elem_of_set hash_ m0 r x Hr).
Qed.

Lemma set_erase_run k r : rep_ok hash_ r ->
  exists r', set_erase hash_ k r = Done (r', Z.b2z (bool_decide (k ∈ set_elements r))) /\ rep_ok hash_ r' /\
    forall x, x ∈ set_elements r' <-> x <> k /\ x ∈ set_elements r.
Proof using Type.
  intros (m & Hr & Hg & Hle). destruct (Find_run hash_ m r k Hr) as (o & E & Ho). unfold set_erase. rewrite E. destruct o as [i|].
  - destruct Ho as (s & Hs & Hk). destruct (Erase_run hash_ m r k i s Hr Hs Hk) as [Hr' Hhas]. exists (Erase i r). rewrite bool_decide_eq_true_2.
    + split_and!; try done; [exists m; split_and!; [done|by left|done]|]. intros x. by rewrite (elem_of_set hash_ m _ x Hr'), Hhas, (elem_of_set hash_ m r x Hr).
    + apply (elem_of_set hash_ m r k Hr). by exists (Z.to_nat i), s.
  - exists r. rewrite bool_decide_eq_false_2 by (by rewrite (elem_of_set hash_ m r k Hr)). split_and!; try done; [exists m; done|].
    intros x. rewrite (elem_of_set hash_ m r x Hr). naive_solver.
Qed.

Lemma set_count_run k r : rep_ok hash_ r -> set_count hash_ r k = Done (Z.b2z (bool_decide (k ∈ set_elements r))).
Proof using Type.
  intros (m & Hr & _). destruct (Find_run hash_ m r k Hr) as (o & E & Ho). unfold set_count. rewrite E. destruct o as [i|].
  - destruct Ho as (s & Hs & Hk). rewrite bool_decide_eq_true_2; [done|]. apply (elem_of_set hash_ m r k Hr). by exists (Z.to_nat i), s.
  - by rewrite bool_decide_eq_false_2 by (by rewrite (elem_of_set hash_ m r k Hr)).
Qed.

Lemma set_resize_run N r m : tab_ok hash_ m r -> Z.of_nat (length (set_elements r)) <= N < max_elements ->
  exists r', Resize hash_ N r = Done r' /\ rep_ok hash_ r' /\ forall x, x ∈ set_elements r' <-> x ∈ set_elements r.
Proof using Type.
  intros Hr HN. destruct (Resize_run hash_ m N r Hr HN) as (r' & m' & E & Hr' & Hhas & Hg & HNg & Hn). exists r'. split; [done|]. split.
  - exists m'. split; [done|]. split; [by right|lia].
  - intros x. by rewrite (elem_of_set hash_ m' r' x Hr'), Hhas, (elem_of_set hash_ m r x Hr).
Qed.

Lemma FlatSet_new_run N : N < max_elements -> exists r, FlatSet_new (Key := Key) N = Done r /\ rep_ok hash_ r /\ set_elements r = [].
Proof using Type.
  intros HN. destruct (Init_run hash_ N HN) as (r & m & E & Hr & Hg & HNg & Hn & Hno). exists r. split; [done|]. split.
  - exists m. split; [done|]. split; [by right|]. rewrite Hn, <- Hg. unfold times_08 in Hg. rewrite Hg. apply Z.div_pos; [|lia]. unfold kEightTenths. lia.
  - apply elem_of_nil_inv. intros x. rewrite (elem_of_set hash_ m r x Hr). apply Hno.
Qed.

(** ** [clear] *)
Lemma copy_nothing l (r : FlatRep) : Forall (fun s => marker s < 2) l -> CopyEntries hash_ l r = Done r.
Proof using Type. induction 1 as [|s l Hs _ IH]; [done|]. simpl. by rewrite (proj2 (Z.leb_gt _ _)). Qed.

Lemma cleared_markers (l : list (Slot Key)) : Forall (fun s => marker s < 2) (map (fun s => if 2 <=? marker s then mkSlot kEmpty None else s) l).
Proof using Type.
  apply Forall_map, Forall_forall. intros s _. destruct (Z.leb_spec 2 (marker s)); [done|]. lia.
Qed.

(** Without deleted entries a table is as new. *)
Lemma clear_no_resize_run m r : tab_ok hash_ m r -> deleted_ r = 0 -> tab_ok hash_ m (clear_no_resize r) /\ forall k, ~ has (clear_no_resize r) k.
Proof using Type.
  intros Hr Hd. assert (forall p s, array_ (clear_no_resize r) !! p = Some s -> s = mkSlot kEmpty None) as Hall.
  { intros p s. cbn. rewrite list_lookup_fmap. destruct (array_ r !! p) as [s'|] eqn:Ep; [|done]. intros [= <-]. pose proof (t_slots _ _ _ Hr p s' Ep) as Hok.
    destruct (Z.leb_spec 2 (marker s')) as [|Hlt]; [done|]. unfold slot_ok in Hok. destruct s' as [mk [k|]]; cbn in *.
    - pose proof (key_marker_ge hash_ k). lia.
    - destruct Hok as [-> | ->]; [done|]. exfalso. rewrite (t_deleted _ _ _ Hr) in Hd. pose proof (cnt_insert gone _ p _ (mkSlot kEmpty None) Ep) as Hc. cbn in Hc.
      pose proof (cnt_le gone (<[p := mkSlot kEmpty None]> (array_ r))). lia. }
  assert (forall q, q (mkSlot kEmpty None) = false -> cnt q (array_ (clear_no_resize r)) = 0) as Hcnt.
  { intros q Hq. destruct (Z.lt_ge_cases 0 (cnt q (array_ (clear_no_resize r)))) as [Hpos|?]; [|pose proof (cnt_le q (array_ (clear_no_resize r))); lia].
    exfalso. unfold cnt in Hpos. destruct (filter _ _) as [|s l] eqn:Ef; [simpl in Hpos; lia|]. assert (s ∈ s :: l) as Hs by left. rewrite <- Ef in Hs.
    apply list_elem_of_filter in Hs as [Hq' [p Hp]%list_elem_of_lookup]. rewrite (Hall p s Hp) in Hq'. congruence. }
  split.
  - split.
    + apply (t_bits _ _ _ Hr).
    + cbn. rewrite length_map. apply (t_len _ _ _ Hr).
    + apply (t_mask _ _ _ Hr).
    + apply (t_lglen _ _ _ Hr).
    + apply (t_shrink _ _ _ Hr).
    + intros p s Hp. rewrite (Hall p s Hp). by left.
    + intros p q s s' k Hp _ Hk. by rewrite (Hall p s Hp) in Hk.
    + intros p s k Hp Hk. by rewrite (Hall p s Hp) in Hk.
    + symmetry. by apply Hcnt.
    + symmetry. by apply Hcnt.
    + cbn. lia.
  - intros k (p & s & Hp & Hk). by rewrite (Hall p s Hp) in Hk.
Qed.

Lemma clear_run r : rep_ok hash_ r -> deleted_ r = 0 \/ 0 < lglen_ r -> exists r', clear hash_ r = Done r' /\ rep_ok hash_ r' /\ set_elements r' = [].
Proof using Type.
  intros (m & Hr & _ & _) [Hd|Hlg].
  - destruct (clear_no_resize_run m r Hr Hd) as [Hc Hno]. assert (tab_ok hash_ m (set_grow 0 (clear_no_resize r))) as Hg by (destruct Hc; by split).
    assert (set_elements (set_grow 0 (clear_no_resize r)) = []) as He by (apply elem_of_nil_inv; intros x; rewrite (elem_of_set hash_ m _ x Hg); apply Hno).
    destruct (MaybeResize_run hash_ (set_grow 0 (clear_no_resize r))) as (r' & m' & E & Hr' & Hhas & Hg' & Hlt).
    + exists m. split_and!; [done|by left|]. cbn. unfold times_08. apply Z.div_pos; [unfold kEightTenths; lia|lia].
    + rewrite He. done.
    + exists r'. split; [done|]. split; [exists m'; split_and!; [done|by right|lia]|]. apply elem_of_nil_inv. intros x. rewrite (elem_of_set hash_ m' r' x Hr'), Hhas. apply Hno.
  - assert (0 < shrink_ r) as Hs.
    { rewrite (t_shrink _ _ _ Hr), (proj2 (Z.eqb_neq _ _)) by lia. apply times_04_pos, times_08_six. change 8 with (2 ^ 3). apply Z.pow_le_mono_r; [lia|].
      pose proof (t_bits _ _ _ Hr). lia. }
    assert (clear hash_ r = Resize hash_ 1 (set_grow 0 (clear_no_resize r))) as ->.
    { unfold clear, MaybeResize. change (not_empty_ (set_grow 0 (clear_no_resize r))) with 0. change (grow_ (set_grow 0 (clear_no_resize r))) with 0.
      change (rep_size (set_grow 0 (clear_no_resize r))) with 0. change (shrink_ (set_grow 0 (clear_no_resize r))) with (shrink_ r).
      rewrite (proj2 (Z.leb_gt _ _)) by done. done. }
    destruct (FlatSet_new_run 1) as (r0 & E0 & Hr0 & He); [done|]. unfold FlatSet_new in E0. unfold Resize. rewrite E0.
    change (array_ (set_grow 0 (clear_no_resize r))) with (map (fun s => if 2 <=? marker s then mkSlot kEmpty None else s) (array_ r)).
    rewrite copy_nothing by apply cleared_markers. by exists r0.
Qed.

Lemma cleared_elements (r : FlatRep) g : set_elements (set_grow g (clear_no_resize r)) = [].
Proof using Type.
  unfold set_elements. cbn. induction (array_ r) as [|s l IH]; [done|]. cbn.
  destruct (Z.leb_spec 2 (marker s)); [done|]. by rewrite (proj2 (Z.ltb_lt _ _)).
Qed.

(** [clear] itself empties every set, also one whose counts it gets wrong. *)
Lemma clear_empties r : rep_ok hash_ r -> exists r', clear hash_ r = Done r' /\ set_elements r' = [].
Proof using Type.
  intros Hok. pose proof Hok as (m & Hr & _ & _). pose proof (t_bits _ _ _ Hr). pose proof (t_lglen _ _ _ Hr) as Hlg.
  destruct (decide (0 < lglen_ r)) as [Hlt|Hz].
  - destruct (clear_run r Hok (or_intror Hlt)) as (r' & E & _ & He). by exists r'.
  - assert (lglen_ r = 0) as H0 by lia. pose proof (t_shrink _ _ _ Hr) as Hs. rewrite H0 in Hs. cbn in Hs.
    exists (set_grow (times_08 (bucket_count r)) (clear_no_resize r)). split; [|apply cleared_elements].
    assert (0 < times_08 (bucket_count r)) as Hpos.
    { unfold bucket_count. rewrite (t_mask _ _ _ Hr). replace m with 3%nat by lia. reflexivity. }
    unfold clear, MaybeResize. cbn. rewrite Hs. cbn. by rewrite (proj2 (Z.ltb_lt _ _)).
Qed.

End FlatSetOps.

(** ** Iteration *)
Section FlatIteration.
Context {Key : Type} `{EqDecision Key} (hash_ : Key -> Z).
#[local] Notation FlatRep := (FlatRep Key).

(** The elements at and after slot [p]. *)
Definition elements_from (r : FlatRep) (p : Z) : list Key := omap (fun s => if marker s <? 2 then None else slot_key s) (drop (Z.to_nat p) (array_ r)).

Lemma elements_step (r : FlatRep) p s : 0 <= p -> array_ r !! Z.to_nat p = Some s ->
  elements_from r p = match (if marker s <? 2 then None else slot_key s) with Some k => k :: elements_from r (p + 1) | None => elements_from r (p + 1) end.
Proof using Type. intros Hp Hs. unfold elements_from. rewrite (drop_S _ _ _ Hs). replace (Z.to_nat (p + 1)) with (S (Z.to_nat p)) by lia. done. Qed.

Lemma elements_end (r : FlatRep) p : Z.of_nat (length (array_ r)) <= p -> elements_from r p = [].
Proof using Type. intros Hp. unfold elements_from. rewrite drop_ge by lia. done. Qed.

Lemma skip_loop_run (r : FlatRep) fuel b i : Z.of_nat (length (array_ r)) = 8 * num_buckets r -> 0 <= b <= num_buckets r -> 0 <= i <= 8 -> (b = num_buckets r -> i = 0) ->
  9 * (num_buckets r - b) - i <= Z.of_nat fuel ->
  exists b' i', skip_loop fuel r b i = Done (b', i') /\ 0 <= b' <= num_buckets r /\ elements_from r (8 * b + i) = elements_from r (8 * b' + i') /\ 8 * b + i <= 8 * b' + i' /\
    (b' = num_buckets r /\ i' = 0 \/ b' < num_buckets r /\ 0 <= i' < 8 /\ exists s, array_ r !! Z.to_nat (8 * b' + i') = Some s /\ 2 <= marker s).
Proof using Type.
  intros Hlen. revert b i. induction fuel as [|fuel IH]; intros b i Hb Hi Hend Hfuel; cbn [skip_loop]; destruct (Z.ltb_spec b (num_buckets r)) as [Hlt|Hge].
  - lia.
  - exists b, i. split_and!; try done; lia.
  - unfold kWidth. destruct (Z.leb_spec 8 i) as [H8|Hi8].
    + destruct (IH (b + 1) 0) as (b' & i' & E & Hb' & He & Hle & Hres); [lia..|]. exists b', i'. split_and!; try done; [lia|lia| |lia]. rewrite <- He. f_equal. lia.
    + destruct (lookup_lt_is_Some_2 (array_ r) (Z.to_nat (8 * b + i))) as [s Hs]; [lia|]. rewrite Hs. destruct (Z.ltb_spec (marker s) 2) as [Hm|Hm].
      * destruct (IH b (i + 1)) as (b' & i' & E & Hb' & He & Hle & Hres); [lia..|]. exists b', i'. split_and!; try done; [lia|lia| |lia].
        rewrite (elements_step r _ s) by (done || lia). rewrite (proj2 (Z.ltb_lt _ _)) by done. rewrite <- He. f_equal. lia.
      * exists b, i. split_and!; try done; try lia. right. split_and!; try lia. by exists s.
  - exists b, i. split_and!; try done; lia.
Qed.

Lemma iterate_run m (r : FlatRep) fuel b i : tab_ok hash_ m r -> Z.of_nat (length (array_ r)) = 8 * num_buckets r -> 0 <= b <= num_buckets r ->
  (b = num_buckets r /\ i = 0 \/ b < num_buckets r /\ 0 <= i < 8 /\ exists s, array_ r !! Z.to_nat (8 * b + i) = Some s /\ 2 <= marker s) ->
  8 * num_buckets r <= 8 * b + i + Z.of_nat fuel -> iterate fuel r (b, i) = Done (elements_from r (8 * b + i)).
Proof using Type.
  intros Hr Hlen. revert b i. induction fuel as [|fuel IH]; intros b i Hb Hpos Hfuel; cbn [iterate fst snd].
  - destruct Hpos as [[-> ->]|Hpos]; [|lia]. rewrite Z.eqb_refl. cbn. rewrite elements_end by lia. done.
  - destruct Hpos as [[-> ->]|(Hlt & Hi & s & Hs & Hm)].
    { rewrite Z.eqb_refl. cbn. rewrite elements_end by lia. done. }
    rewrite (proj2 (Z.eqb_neq b _)) by lia. cbn [andb]. change kWidth with 8. rewrite Hs. pose proof (t_slots _ _ _ Hr _ s Hs) as Hok. unfold slot_ok in Hok.
    rewrite (elements_step r _ s) by (done || lia). rewrite (proj2 (Z.ltb_ge _ _)) by done. destruct s as [mk [k|]]; cbn in *; [|unfold kEmpty, kDeleted in Hok; lia].
    destruct (skip_loop_run r (Z.to_nat (9 * num_buckets r)) b (i + 1)) as (b' & i' & E & Hb' & He & Hle & Hres); [done|lia..|].
    unfold SkipUnused. rewrite E, (IH b' i' Hb' Hres) by lia. rewrite <- He. do 3 f_equal. lia.
Qed.

Lemma walk_run m (r : FlatRep) : tab_ok hash_ m r -> walk r = Done (set_elements r).
Proof using Type.
  intros Hr. pose proof (t_bits _ _ _ Hr) as Hm. assert (Z.of_nat (length (array_ r)) = 8 * num_buckets r) as Hlen.
  { unfold num_buckets. rewrite (t_len _ _ _ Hr), (t_lglen _ _ _ Hr). change 8 with (2 ^ 3). rewrite <- Z.pow_add_r by lia. f_equal. lia. }
  unfold walk, begin_, SkipUnused. destruct (skip_loop_run r (Z.to_nat (9 * num_buckets r)) 0 0) as (b & i & E & Hb & He & Hle & Hres); [done|lia..|].
  rewrite E, (iterate_run m) by (done || lia). rewrite <- He. unfold elements_from, set_elements. by rewrite drop_0.
Qed.

(** ** Equality *)
Lemma find_all_run m r l : tab_ok hash_ m r -> find_all hash_ r l = Done (bool_decide (Forall (fun k => k ∈ set_elements r) l)).
Proof using Type.
  intros Hr. induction l as [|k l IH]; [done|]. cbn [find_all]. destruct (Find_run hash_ m r k Hr) as (o & E & Ho). rewrite E. destruct o as [p|].
  - destruct Ho as (s & Hs & Hk). rewrite IH. f_equal. apply bool_decide_ext. rewrite Forall_cons, (elem_of_set hash_ m r k Hr). unfold has. naive_solver.
  - rewrite bool_decide_eq_false_2; [done|]. rewrite Forall_cons, (elem_of_set hash_ m r k Hr). tauto.
Qed.

Lemma set_equal_run r x : rep_ok hash_ r -> rep_ok hash_ x -> set_equal hash_ r x = Done (bool_decide (set_elements r ≡ₚ set_elements x)).
Proof using Type.
  intros (m & Hr & _) (m' & Hx & _). unfold set_equal. rewrite (rep_size_run hash_ m r Hr), (rep_size_run hash_ m' x Hx).
  destruct (Z.eqb_spec (Z.of_nat (length (set_elements r))) (Z.of_nat (length (set_elements x)))) as [Hl|Hl]; cbn.
  - rewrite (walk_run m' x Hx), (find_all_run m r _ Hr). f_equal. apply bool_decide_ext. pose proof (set_nodup hash_ m r Hr) as Hnr. pose proof (set_nodup hash_ m' x Hx) as Hnx.
    rewrite Forall_forall. split; [|by intros Hp y; rewrite Hp]. intros Hin. symmetry. apply submseteq_length_Permutation; [|lia]. by apply NoDup_submseteq.
  - rewrite bool_decide_eq_false_2; [done|]. intros Hp%Permutation_length. lia.
Qed.
End FlatIteration.
