(* ===== verification/FlatTheorems.v ===== *)
(** * What is shown of open-addressed sets *)
From S2P Require Import Prelude FlatRep FlatProofs.
From stdpp Require Import list options.
#[local] Open Scope Z_scope.
#[local] Open Scope tf_monad_scope.

(** ** The operations of a set as requests *)
Inductive SetOp (Key : Type) :=
  | SInsert (k : Key)
  | SErase (k : Key)
  | SCount (k : Key)
  | SReserve (N : Z)
  | SClear
  | SCopy.
Arguments SInsert {Key} k.
Arguments SErase {Key} k.
Arguments SCount {Key} k.
Arguments SReserve {Key} N.
Arguments SClear {Key}.
Arguments SCopy {Key}.

Section FlatTheorems.
Context {Key : Type} `{EqDecision Key} (hash_ : Key -> Z).
#[local] Notation FlatRep := (FlatRep Key).
#[local] Notation SetOp := (SetOp Key).

Definition unit_answer (o : outcome FlatRep) : outcome (Z * FlatRep) :=
  match o with Done r => Done (0, r) | Crash => Crash | OutOfFuel => OutOfFuel end.

Definition run_set (op : SetOp) (r : FlatRep) : outcome (Z * FlatRep) :=
  match op with
  | SInsert k => match set_insert hash_ k r with Done (r, b) => Done (Z.b2z b, r) | Crash => Crash | OutOfFuel => OutOfFuel end
  | SErase k => match set_erase hash_ k r with Done (r, n) => Done (n, r) | Crash => Crash | OutOfFuel => OutOfFuel end
  | SCount k => match set_count hash_ r k with Done n => Done (n, r) | Crash => Crash | OutOfFuel => OutOfFuel end
  | SReserve N => unit_answer (set_reserve hash_ N r)
  | SClear => unit_answer (clear hash_ r)
  | SCopy => unit_answer (copy_rep hash_ r)
  end.

(** Room for one more. *)
Definition set_fits (r : FlatRep) (op : SetOp) : Prop :=
  Z.of_nat (length (set_elements r)) + 1 < max_elements /\
  match op with SReserve N => N < max_elements | _ => True end.

(** All requests keep the counts of entries right but one: a [clear] of a single
    bucket that has entries marked as deleted. *)
Definition keeps_counts (r : FlatRep) (op : SetOp) : Prop :=
  match op with SClear => deleted_ r = 0 \/ 0 < lglen_ r | _ => True end.

(** The answer and the elements, from those before. *)
Definition set_spec (X : list Key) (op : SetOp) (answer : Z) (X' : list Key) : Prop :=
  match op with
  | SInsert k => answer = Z.b2z (bool_decide (k ∉ X)) /\ forall x, x ∈ X' <-> x = k \/ x ∈ X
  | SErase k => answer = Z.b2z (bool_decide (k ∈ X)) /\ forall x, x ∈ X' <-> x <> k /\ x ∈ X
  | SCount k => answer = Z.b2z (bool_decide (k ∈ X)) /\ X' = X
  | SReserve _ | SCopy => forall x, x ∈ X' <-> x ∈ X
  | SClear => X' = []
  end.

Inductive flat_reachable : FlatRep -> Prop :=
  | flat_new N r : N < max_elements -> FlatSet_new N = Done r -> flat_reachable r
  | flat_op op r a r' : flat_reachable r -> set_fits r op -> keeps_counts r op -> run_set op r = Done (a, r') -> flat_reachable r'.

Lemma good_set op r : rep_ok hash_ r -> set_fits r op -> exists a r', run_set op r = Done (a, r') /\ (keeps_counts r op -> rep_ok hash_ r') /\ set_spec (set_elements r) op a (set_elements r').
Proof using Type.
  intros Hr [Hsize Hfit]. destruct op as [k|k|k|N| |]; unfold run_set, set_spec.
  - destruct (set_insert_run hash_ k r Hr Hsize) as (r' & b & -> & Hr' & -> & Hx). eexists _, r'. done.
  - destruct (set_erase_run hash_ k r Hr) as (r' & -> & Hr' & Hx). eexists _, r'. done.
  - rewrite (set_count_run hash_ k r Hr). eexists _, r. done.
  - pose proof Hr as (m & Ht & _). unfold set_reserve. rewrite (rep_size_run hash_ m r Ht).
    destruct (set_resize_run hash_ (Z.max N (Z.of_nat (length (set_elements r)))) r m Ht) as (r' & -> & Hr' & Hx); [lia|]. eexists _, r'. done.
  - destruct (clear_empties hash_ r Hr) as (r' & E & Hx). exists 0, r'. rewrite E. split_and!; [done| |done].
    intros Hc. destruct (clear_run hash_ r Hr Hc) as (r2 & E2 & Hr2 & _). congruence.
  - pose proof Hr as (m & Ht & _). unfold copy_rep. rewrite (rep_size_run hash_ m r Ht).
    destruct (set_resize_run hash_ (Z.of_nat (length (set_elements r))) r m Ht) as (r' & E & Hr' & Hx); [lia|]. unfold Resize in E. rewrite E. eexists _, r'. done.
Qed.

Lemma flat_reachable_ok r : flat_reachable r -> rep_ok hash_ r.
Proof using Type.
  induction 1 as [N r HN E|op r a r' _ IH Hfit Hc E].
  - destruct (FlatSet_new_run hash_ N HN) as (r' & E' & Hr & _). congruence.
  - destruct (good_set op r IH Hfit) as (a' & r2 & E2 & Hr & _). specialize (Hr Hc). congruence.
Qed.

(** ** A table without empty slots *)
Lemma next_in_range m (r : FlatRep) i n : mask_ r = 2 ^ Z.of_nat m - 1 -> Z.of_nat (length (array_ r)) = 2 ^ Z.of_nat m -> is_Some (array_ r !! Z.to_nat (NextIndex r i n)).
Proof using Type.
  intros Hm Hlen. apply lookup_lt_is_Some_2. unfold NextIndex. rewrite Hm. replace (2 ^ Z.of_nat m - 1) with (Z.ones (Z.of_nat m)) by (rewrite Z.ones_equiv; lia).
  rewrite Z.land_ones by lia. pose proof (Z.mod_pos_bound (u64 (i + n)) (2 ^ Z.of_nat m)). lia.
Qed.

Lemma find_never_ends m (r : FlatRep) k : mask_ r = 2 ^ Z.of_nat m - 1 -> Z.of_nat (length (array_ r)) = 2 ^ Z.of_nat m ->
  (forall p s, array_ r !! p = Some s -> marker s <> kEmpty /\ slot_key s <> Some k) ->
  forall fuel i n, is_Some (array_ r !! Z.to_nat i) -> find_loop hash_ fuel r k i n = OutOfFuel /\ forall del, insert_loop hash_ fuel r k i n del = OutOfFuel.
Proof using Type.
  intros Hm Hlen Hall fuel. induction fuel as [|fuel IH]; intros i n [s Hs]; [done|]. destruct (Hall _ s Hs) as [He Hk]. cbn [find_loop insert_loop]. rewrite Hs.
  rewrite (bool_decide_eq_false_2 (slot_key s = Some k)), andb_false_r by done. rewrite (proj2 (Z.eqb_neq _ _) He).
  destruct (IH _ (u32 (n + 1)) (next_in_range m r i n Hm Hlen)) as [Hf Hi]. split; [done|]. intros del. by destruct (bool_decide (del = None) && (marker s =? kDeleted)).
Qed.

(** With a power of two of slots the probes visit every slot. *)
Lemma searches_end m (r : FlatRep) k : (m <= 31)%nat -> Z.of_nat (length (array_ r)) = 2 ^ Z.of_nat m -> mask_ r = 2 ^ Z.of_nat m - 1 ->
  forall te, array_ r !! spot hash_ m k te = Some (mkSlot kEmpty None) -> forall fuel t, (t <= te < t + fuel)%nat -> Z.of_nat te < 2 ^ Z.of_nat m ->
  let i := probe m (base hash_ k) t in let n := Z.of_nat t + 1 in
  (exists o, find_loop hash_ fuel r k i n = Done o) /\ (forall del, exists x, insert_loop hash_ fuel r k i n del = Done x) /\
  exists r', fresh_loop hash_ fuel r k i n = Done r'.
Proof using Type.
  intros Hm Hlen Hmask te Hte. induction fuel as [|fuel IH]; intros t Ht Hlt; [lia|]. assert (2 ^ Z.of_nat m <= 2 ^ 31) as Hpow by (apply Z.pow_le_mono_r; lia).
  cbv zeta. cbn [find_loop insert_loop fresh_loop]. destruct (lookup_lt_is_Some_2 (array_ r) (spot hash_ m k t)) as [s Hs].
  { pose proof (Z.mod_pos_bound (base hash_ k + triangle t) (2 ^ Z.of_nat m)). unfold spot, probe. lia. }
  unfold spot in Hs. rewrite Hs. destruct (Z.eqb_spec (marker s) kEmpty) as [He|Hne].
  - split_and!; [destruct (_ && _); eauto| |rewrite He; eauto]. intros del. destruct (_ && _); [eauto|]. rewrite He, andb_false_r. destruct del; eauto.
  - assert (t <> te) as Hnt by (intros ->; unfold spot in Hte; rewrite Hte in Hs; injection Hs as <-; done).
    destruct (IH (S t)) as (Hf & Hi & Hr); [lia|lia|]. replace (NextIndex r (probe m (base hash_ k) t) (Z.of_nat t + 1)) with (probe m (base hash_ k) (S t)).
    2:{ unfold NextIndex. rewrite Hmask, <- probe_next by lia. repeat f_equal. lia. }
    replace (u32 (Z.of_nat t + 1 + 1)) with (Z.of_nat (S t) + 1) by (unfold u32, uwrap; rewrite Z.mod_small; lia).
    rewrite (proj2 (Z.eqb_neq (marker s) 0)) by done. split_and!; [destruct (_ && _); eauto| |done]. intros del. destruct (_ && _); [eauto|]. destruct (_ && _); eauto.
Qed.

(** ** Theorems *)

(** C17. A flat set, from its constructor and through any requests that leave room
    for another element, behaves as a set: every request returns, insertions,
    removals and counts answer as for the elements before it and change them
    accordingly, copies and changes of size keep them, [clear] leaves none,
    iteration meets each element once, and two sets are equal when they have the
    same elements.  The next request may be any, and so on, unless it was a
    [clear] of a set of one bucket with entries marked as deleted: that [clear]
    returns and leaves no element, but nothing is claimed of the requests that
    follow it, as a search may then never end. *)
Theorem flat_set_refines (r : FlatRep) (op : SetOp) : flat_reachable r -> set_fits r op ->
  (NoDup (set_elements r) /\ walk r = Done (set_elements r) /\ rep_size r = Z.of_nat (length (set_elements r))) /\
  (exists a r', run_set op r = Done (a, r') /\ (keeps_counts r op -> flat_reachable r') /\ set_spec (set_elements r) op a (set_elements r')) /\
  forall x, flat_reachable x -> set_equal hash_ r x = Done (bool_decide (set_elements r ≡ₚ set_elements x)).
Proof using Type.
  intros Hr Hfit. pose proof (flat_reachable_ok r Hr) as Hok. split; [|split].
  - destruct Hok as (m & Ht & _). split_and!; [by eapply set_nodup|by eapply walk_run|by eapply rep_size_run].
  - destruct (good_set op r Hok Hfit) as (a & r' & E & _ & Hs). exists a, r'. split; [done|]. split; [intros Hc; by eapply flat_op|done].
  - intros x Hx. apply set_equal_run; [done|]. by apply flat_reachable_ok.
Qed.

(** C18. As the slots are a power of two and the probes are at triangular distances,
    a search for a key visits every slot: in a table with an empty slot anywhere
    the three searches end within as many probes as there are slots, and in a
    table with neither an empty slot nor the key, no number of probes ends them. *)
Theorem flat_search_terminates (m : nat) (r : FlatRep) (k : Key) : (m <= 31)%nat -> Z.of_nat (length (array_ r)) = 2 ^ Z.of_nat m -> mask_ r = 2 ^ Z.of_nat m - 1 ->
  ((exists p, array_ r !! p = Some (mkSlot kEmpty None)) ->
    (exists o, Find hash_ r k = Done o) /\ (exists x, FindOrInsert hash_ r k = Done x) /\ exists r', FreshInsert hash_ k r = Done r') /\
  ((forall p s, array_ r !! p = Some s -> marker s <> kEmpty /\ slot_key s <> Some k) ->
    forall fuel, find_loop hash_ fuel r k (first_index hash_ r k) 1 = OutOfFuel /\ insert_loop hash_ fuel r k (first_index hash_ r k) 1 None = OutOfFuel).
Proof using Type.
  intros Hm Hlen Hmask. assert (first_index hash_ r k = probe m (base hash_ k) 0) as Hfirst.
  { unfold first_index, probe, base. rewrite Hmask. replace (2 ^ Z.of_nat m - 1) with (Z.ones (Z.of_nat m)) by (rewrite Z.ones_equiv; lia).
    rewrite Z.land_ones by lia. by rewrite Z.add_0_r. }
  split.
  - intros (p & Hp). destruct (probe_visits m (base hash_ k) (Z.of_nat p)) as (te & Hte & Ee); [apply lookup_lt_Some in Hp; lia|].
    destruct (searches_end m r k Hm Hlen Hmask te) with (fuel := length (array_ r)) (t := O) as (Hf & Hi & Hr); [unfold spot; by rewrite Ee, Nat2Z.id|lia|done|].
    unfold Find, FindOrInsert, FreshInsert. rewrite Hfirst. split_and!; [exact Hf|apply Hi|exact Hr].
  - intros Hall fuel. destruct (find_never_ends m r k Hmask Hlen Hall fuel (first_index hash_ r k) 1) as [Hf Hi]; [|split; [exact Hf|apply Hi]].
    apply lookup_lt_is_Some_2. rewrite Hfirst. unfold probe. pose proof (Z.mod_pos_bound (base hash_ k + triangle 0) (2 ^ Z.of_nat m)). lia.
Qed.
End FlatTheorems.

(** ** A concrete set *)
Definition spread (k : nat) : Z := 256 * Z.of_nat k.

Fixpoint run_sets (ops : list (SetOp nat)) (r : FlatRep nat) : outcome (FlatRep nat) :=
  match ops with
  | [] => Done r
  | op :: ops => match run_set spread op r with Done (_, r) => run_sets ops r | Crash => Crash | OutOfFuel => OutOfFuel end
  end.

Definition flat_demo (ops : list (SetOp nat)) : outcome (FlatRep nat) :=
  match FlatSet_new 1 with Done r => run_sets ops r | o => o end.

(** Six keys come and go, the set is cleared, and two more come. *)
Definition hang_ops : list (SetOp nat) :=
  map SInsert [0; 1; 2; 3; 4; 5]%nat ++ map SErase [0; 1; 2; 3; 4; 5]%nat ++ [SClear; SInsert 6%nat; SInsert 7%nat].

(** C40. [clear] of a set with one bucket keeps the marks of deleted entries but
    forgets that they are there: after six keys were inserted and erased and the
    set was cleared, two insertions fill the last empty slots without the table
    growing, and the search for any other key, and its insertion, never end. *)
Theorem flat_clear_hangs : exists r, flat_demo hang_ops = Done r /\ set_elements r = [6; 7]%nat /\ not_empty_ r = 2 /\
  forall fuel, find_loop spread fuel r 8%nat (first_index spread r 8%nat) 1 = OutOfFuel /\
    MaybeResize spread r = Done r /\ insert_loop spread fuel r 8%nat (first_index spread r 8%nat) 1 None = OutOfFuel.
Proof.
  destruct (flat_demo hang_ops) as [r| |] eqn:E; [|vm_compute in E; discriminate|vm_compute in E; discriminate]. exists r. vm_compute in E. injection E as <-.
  split; [done|]. split; [done|]. split; [done|]. intros fuel. match goal with |- context [find_loop spread fuel ?r' _ _ _] => set (r := r') end.
  assert (forall p s, array_ r !! p = Some s -> marker s <> kEmpty /\ slot_key s <> Some 8%nat) as Hall.
  { intros p s Hp. do 8 (destruct p as [|p]; [injection Hp as <-; split; vm_compute; discriminate|]). discriminate Hp. }
  assert (is_Some (array_ r !! Z.to_nat (first_index spread r 8%nat))) as Hi by (eexists; reflexivity).
  destruct (find_never_ends spread 3 r 8%nat eq_refl eq_refl Hall fuel _ 1 Hi) as [Hf Hins]. split; [exact Hf|]. split; [reflexivity|]. apply Hins.
Qed.

(** ** Witnesses *)
Fixpoint fit_along (ops : list (SetOp nat)) (r : FlatRep nat) : Prop :=
  match ops with
  | [] => True
  | op :: ops => (set_fits r op /\ keeps_counts r op) /\ match run_set spread op r with Done (_, r) => fit_along ops r | _ => True end
  end.

Lemma run_sets_reachable ops r r' : flat_reachable spread r -> fit_along ops r -> run_sets ops r = Done r' -> flat_reachable spread r'.
Proof.
  revert r. induction ops as [|op ops IH]; intros r Hr Hfit E; [by injection E as <-|]. destruct Hfit as [[Hop Hc] Hfit]. cbn [run_sets] in E.
  destruct (run_set spread op r) as [[a r1]| |] eqn:E1; [|done|done]. apply (IH r1); [by eapply flat_op|done|done].
Qed.

(** Eight insertions, past the size of one bucket, and two removals. *)
Definition demo_ops : list (SetOp nat) := map SInsert [0; 1; 2; 3; 8; 16; 5; 3; 64]%nat ++ [SErase 1%nat; SErase 8%nat; SCount 16%nat].

Definition demo_start : FlatRep nat := match FlatSet_new 1 with Done r => r | _ => mkRep [] 0 0 0 0 0 0 end.

Definition demo_set : FlatRep nat := match run_sets demo_ops demo_start with Done r => r | _ => demo_start end.

Lemma demo_set_reachable : flat_reachable spread demo_set.
Proof.
  apply (run_sets_reachable demo_ops demo_start); [|vm_compute; repeat split|vm_compute; reflexivity].
  apply (flat_new spread 1); [done|vm_compute; reflexivity].
Qed.

Lemma flat_set_refines_witness : set_elements demo_set = [0; 2; 3; 5; 16; 64]%nat /\
  exists a r', run_set spread (SInsert 8%nat) demo_set = Done (a, r') /\ (keeps_counts demo_set (SInsert 8%nat) -> flat_reachable spread r') /\ set_spec (set_elements demo_set) (SInsert 8%nat) a (set_elements r').
Proof.
  split; [vm_compute; reflexivity|].
  apply (flat_set_refines spread demo_set (SInsert 8%nat)); [apply demo_set_reachable|split; [vm_compute; reflexivity|exact I]].
Defined.

Lemma flat_search_terminates_witness : (exists o, Find spread demo_set 8%nat = Done o) /\ exists r, FreshInsert spread 8%nat demo_set = Done r.
Proof.
  destruct (flat_search_terminates spread 4 demo_set 8%nat) as [Hends _]; [lia|vm_compute; reflexivity|vm_compute; reflexivity|].
  destruct Hends as (Hf & _ & Hr); [|split; [exact Hf|exact Hr]]. exists 15%nat. vm_compute. reflexivity.
Defined.
