(* ===== verification/EdgeSet.v ===== *)
(** * Sets of edges (src/tensorflow/core/graph/edgeset.h, edgeset.cc)

    A node keeps up to [kInline] pointers to edges in an array and more in a
    [gtl::FlatSet].  What is used of that is the class [FlatSet], whose elements
    come in an order of its own; the instance is the table of [FlatRep].  A
    pointer is the number of an edge object. *)
From S2P Require Import Prelude FlatRep FlatProofs.
From stdpp Require Import list options.
#[local] Open Scope Z_scope.

(** ** What is used of [gtl::FlatSet] *)
Class FlatSet (F : Type) := {
  flat_elements : F -> list nat;
  flat_new : Z -> outcome F;
  flat_insert : nat -> F -> outcome (F * bool);
  flat_insert_range : list nat -> F -> outcome F;
  flat_erase : nat -> F -> outcome (F * Z);
  flat_ok : F -> Prop
}.

(** The promises hold of sets that have been well built and have room. *)
Class FlatSetLaws (F : Type) `{FlatSet F} : Prop := {
  flat_nodup s : flat_ok s -> NoDup (flat_elements s);
  flat_new_spec N : N < max_elements -> exists s, flat_new N = Done s /\ flat_ok s /\ flat_elements s = [];
  flat_insert_spec x s : flat_ok s -> Z.of_nat (length (flat_elements s)) + 1 < max_elements ->
    exists s', flat_insert x s = Done (s', bool_decide (x ∉ flat_elements s)) /\ flat_ok s' /\
      forall y, y ∈ flat_elements s' <-> y = x \/ y ∈ flat_elements s;
  flat_range_spec l s : flat_ok s -> Z.of_nat (length (flat_elements s)) + Z.of_nat (length l) < max_elements ->
    exists s', flat_insert_range l s = Done s' /\ flat_ok s' /\ forall y, y ∈ flat_elements s' <-> y ∈ l \/ y ∈ flat_elements s;
  flat_erase_spec x s : flat_ok s ->
    exists s', flat_erase x s = Done (s', Z.b2z (bool_decide (x ∈ flat_elements s))) /\ flat_ok s' /\
      forall y, y ∈ flat_elements s' <-> y <> x /\ y ∈ flat_elements s
}.

(** ** [EdgeSet] *)
Section EdgeSet.
Context {F : Type} `{FlatSet F}.

Definition kInline : nat := 8.

(** The pointers of [ptrs_] before the first null one, or the set. *)
Inductive EdgeSet :=
  | Inline (ptrs : list nat)
  | Big (s : F).

Definition empty_set : EdgeSet := Inline [].

Definition elements_of (s : EdgeSet) : list nat :=
  match s with Inline l => l | Big f => flat_elements f end.

Definition size_of (s : EdgeSet) : nat := length (elements_of s).

Definition insert_big (e : nat) (f : F) : outcome (EdgeSet * bool) :=
  match flat_insert e f with Done (f, b) => Done (Big f, b) | Crash => Crash | OutOfFuel => OutOfFuel end.

(** A new set of the capacity given, with the pointers of the array. *)
Definition to_set (capacity : Z) (l : list nat) : outcome F :=
  match flat_new capacity with Done f => flat_insert_range l f | o => o end.

Definition insert_edge (e : nat) (s : EdgeSet) : outcome (EdgeSet * bool) :=
  match s with
  | Inline l =>
      if bool_decide (e ∈ l) then Done (s, false)
      else if (length l <? kInline)%nat then Done (Inline (l ++ [e]), true)
      else match to_set 1 l with Done f => insert_big e f | Crash => Crash | OutOfFuel => OutOfFuel end
  | Big f => insert_big e f
  end.

(** The last pointer takes the place of the one erased. *)
Fixpoint find_ptr (e : nat) (l : list nat) : option nat :=
  match l with
  | [] => None
  | x :: l => if (x =? e)%nat then Some O else option_map S (find_ptr e l)
  end.

(** The number of edges erased. *)
Definition erase_edge (e : nat) (s : EdgeSet) : outcome (EdgeSet * Z) :=
  match s with
  | Inline l =>
      match find_ptr e l with
      | Some i => Done (Inline (take (length l - 1) (<[i := nth (length l - 1) l O]> l)), 1)
      | None => Done (s, 0)
      end
  | Big f => match flat_erase e f with Done (f, n) => Done (Big f, n) | Crash => Crash | OutOfFuel => OutOfFuel end
  end.

(** [reserve] of a set that is still inline. *)
Definition reserve (new_size : nat) (s : EdgeSet) : outcome EdgeSet :=
  if (kInline <? new_size)%nat then
    match s with
    | Inline l => match to_set (Z.of_nat new_size) l with Done f => Done (Big f) | Crash => Crash | OutOfFuel => OutOfFuel end
    | Big _ => Crash
    end
  else Done s.

(** ** Lemmas *)
Context `{!FlatSetLaws F}.

Definition set_ok (s : EdgeSet) : Prop := match s with Inline l => NoDup l /\ (length l <= kInline)%nat | Big f => flat_ok f end.

Lemma set_ok_nodup s : set_ok s -> NoDup (elements_of s).
Proof using Type*. destruct s; simpl; [tauto|]. apply flat_nodup. Qed.

Lemma to_set_spec N l : N < max_elements -> (length l <= kInline)%nat -> exists f, to_set N l = Done f /\ flat_ok f /\ forall x, x ∈ flat_elements f <-> x ∈ l.
Proof using Type*.
  intros HN Hl. destruct (flat_new_spec N HN) as (f0 & E0 & Hf0 & He0). destruct (flat_range_spec l f0 Hf0) as (f & E & Hf & Hx).
  { rewrite He0. unfold kInline in Hl. unfold max_elements. simpl length. lia. }
  exists f. unfold to_set. rewrite E0. split; [done|]. split; [done|]. intros x. rewrite Hx, He0, elem_of_nil. tauto.
Qed.

Lemma insert_big_spec e f : flat_ok f -> Z.of_nat (length (flat_elements f)) + 1 < max_elements ->
  exists s', insert_big e f = Done (s', bool_decide (e ∉ flat_elements f)) /\ set_ok s' /\ forall x, x ∈ elements_of s' <-> x = e \/ x ∈ flat_elements f.
Proof using Type*. intros Hf Hl. destruct (flat_insert_spec e f Hf Hl) as (f' & E & Hf' & Hx). exists (Big f'). unfold insert_big. by rewrite E. Qed.

Lemma insert_edge_spec e s : set_ok s -> Z.of_nat (length (elements_of s)) + 1 < max_elements ->
  exists s', insert_edge e s = Done (s', bool_decide (e ∉ elements_of s)) /\ set_ok s' /\
  forall x, x ∈ elements_of s' <-> x = e \/ x ∈ elements_of s.
Proof using Type*.
  intros Hs Hsize. destruct s as [l|f]; cbn [elements_of insert_edge set_ok] in *; [|by apply insert_big_spec].
  destruct Hs as [Hn Hl]. destruct (decide (e ∈ l)) as [He|He].
  - rewrite (bool_decide_eq_true_2 (e ∈ l)), (bool_decide_eq_false_2 (e ∉ l)) by tauto. exists (Inline l). split; [done|]. split; [done|].
    intros x. split; [by right|]. by intros [->|?].
  - rewrite (bool_decide_eq_false_2 (e ∈ l)), (bool_decide_eq_true_2 (e ∉ l)) by done. destruct (Nat.ltb_spec (length l) kInline) as [Hlt|Hge].
    + exists (Inline (l ++ [e])). split; [done|]. split; [split|].
      * apply NoDup_app. split_and!; [done| |apply NoDup_singleton]. intros x Hx ->%list_elem_of_singleton. done.
      * rewrite length_app. simpl. lia.
      * intros x. cbn [elements_of]. rewrite elem_of_app, list_elem_of_singleton. tauto.
    + destruct (to_set_spec 1 l) as (f & E & Hf & Hx); [done|done|]. rewrite E. destruct (insert_big_spec e f Hf) as (s' & E' & Hs' & Hx').
      { rewrite (Permutation_length (NoDup_Permutation _ _ (flat_nodup f Hf) Hn Hx)). done. }
      rewrite E', (bool_decide_eq_true_2 (e ∉ _)) by (by rewrite Hx). exists s'. split_and!; [done|done|]. intros x. by rewrite Hx', Hx.
Qed.

Lemma find_ptr_Some e l i : find_ptr e l = Some i -> l !! i = Some e.
Proof using.
  revert i. induction l as [|x l IH]; intros i Hi; simpl in Hi; [done|]. destruct (Nat.eqb_spec x e) as [->|]; [by simplify_eq|].
  destruct (find_ptr e l) as [j|]; simpl in Hi; [|done]. simplify_eq. simpl. by apply IH.
Qed.

Lemma find_ptr_None e l : find_ptr e l = None -> e ∉ l.
Proof using.
  induction l as [|x l IH]; simpl; [intros _; apply not_elem_of_nil|]. destruct (Nat.eqb_spec x e) as [->|]; [done|].
  destruct (find_ptr e l); [done|]. intros _. apply not_elem_of_cons. auto.
Qed.

(** Erasing by moving the last element is a permutation of the others. *)
Lemma swap_erase (l : list nat) i e : l !! i = Some e ->
  e :: take (length l - 1) (<[i := nth (length l - 1) l O]> l) ≡ₚ l.
Proof using.
  intros Hi. pose proof (lookup_lt_Some _ _ _ Hi) as Hlt. destruct l as [|y l _] using rev_ind; [done|].
  rewrite length_app in *. simpl in *. replace (length l + 1 - 1)%nat with (length l) by lia.
  rewrite app_nth2, Nat.sub_diag by lia. simpl. destruct (decide (i = length l)) as [->|Hne].
  - rewrite lookup_app_r, Nat.sub_diag in Hi by lia. simpl in Hi. simplify_eq.
    rewrite list_insert_id by (by rewrite lookup_app_r, Nat.sub_diag by lia). rewrite take_app_length. by rewrite Permutation_app_comm.
  - rewrite lookup_app_l in Hi by lia. rewrite insert_app_l, take_app_length' by (rewrite ?length_insert; lia).
    rewrite (Permutation_app_comm l [y]). simpl.
    rewrite insert_take_drop by lia. rewrite <- (take_drop_middle l i e Hi) at 3. rewrite <- !Permutation_middle. apply perm_swap.
Qed.

Lemma erase_edge_spec e s : set_ok s ->
  exists s', erase_edge e s = Done (s', Z.b2z (bool_decide (e ∈ elements_of s))) /\ set_ok s' /\
  forall x, x ∈ elements_of s' <-> x <> e /\ x ∈ elements_of s.
Proof using Type*.
  intros Hs. destruct s as [l|f]; cbn [elements_of erase_edge set_ok] in *.
  - destruct Hs as [Hn Hl]. destruct (find_ptr e l) as [i|] eqn:Ef.
    + apply find_ptr_Some in Ef. pose proof (swap_erase l i e Ef) as Hp. set (l' := take _ _) in *.
      rewrite <- Hp in Hn. apply NoDup_cons in Hn as [He Hn]. exists (Inline l'). split; [|split; [split; [done|]|]].
      * rewrite bool_decide_eq_true_2; [done|]. rewrite <- Hp. left.
      * unfold l'. rewrite length_take, length_insert. lia.
      * intros x. rewrite <- Hp, elem_of_cons. split; [|tauto]. intros Hx. split; [by intros ->|by right].
    + apply find_ptr_None in Ef. exists (Inline l). rewrite bool_decide_eq_false_2 by done. split; [done|]. split; [done|]. intros x. split; [|tauto].
      intros Hx. split; [by intros ->|done].
  - destruct (flat_erase_spec e f Hs) as (f' & E & Hf' & Hx). exists (Big f'). by rewrite E.
Qed.

(** [reserve] of a set without elements. *)
Lemma reserve_empty n : Z.of_nat n < max_elements -> exists s, reserve n empty_set = Done s /\ set_ok s /\ elements_of s = [].
Proof using Type*.
  intros Hn. unfold reserve, empty_set. destruct (kInline <? n)%nat; [|exists (Inline []); split_and!; [done|split; [apply NoDup_nil_2|simpl; lia]|done]].
  destruct (to_set_spec (Z.of_nat n) [] Hn) as (f & E & Hf & Hx); [simpl; lia|]. rewrite E. exists (Big f). split_and!; [done|done|].
  apply elem_of_nil_inv. intros x. cbn [elements_of]. rewrite Hx. apply not_elem_of_nil.
Qed.
End EdgeSet.
Arguments EdgeSet F : clear implicits.

(** ** The table of [FlatRep] keeps the promises *)
Section PointerSet.
Context (address : nat -> Z).

(** [hash<T*>]. *)
Definition pointer_hash (e : nat) : Z := let k := address e in u64 (k + Z.shiftr k 6).

Definition pointer_set : FlatSet (FlatRep nat) := {|
  flat_elements := set_elements;
  flat_new := FlatSet_new;
  flat_insert := set_insert pointer_hash;
  flat_insert_range := set_insert_range pointer_hash;
  flat_erase := set_erase pointer_hash;
  flat_ok := rep_ok pointer_hash
|}.

Lemma pointer_set_range l s : rep_ok pointer_hash s -> Z.of_nat (length (set_elements s)) + Z.of_nat (length l) < max_elements ->
  exists s', set_insert_range pointer_hash l s = Done s' /\ rep_ok pointer_hash s' /\ forall y, y ∈ set_elements s' <-> y ∈ l \/ y ∈ set_elements s.
Proof.
  revert s. induction l as [|x l IH]; intros s Hs Hl; cbn [set_insert_range].
  - exists s. split_and!; [done|done|]. intros y. rewrite elem_of_nil. tauto.
  - simpl length in Hl. destruct (set_insert_run pointer_hash x s Hs) as (s1 & b & -> & Hs1 & _ & Hx); [lia|].
    destruct (IH s1 Hs1) as (s' & -> & Hs' & Hx').
    + pose proof (NoDup_submseteq (set_elements s1) (x :: set_elements s)) as Hsub. destruct Hs1 as (m & Ht & _).
      apply submseteq_length in Hsub; [simpl in Hsub; lia|by eapply set_nodup|]. intros y. rewrite Hx, elem_of_cons. tauto.
    + exists s'. split_and!; [done|done|]. intros y. rewrite Hx', Hx, elem_of_cons. tauto.
Qed.

Lemma pointer_set_laws : @FlatSetLaws (FlatRep nat) pointer_set.
Proof.
  split; cbn.
  - intros s (m & Ht & _). by eapply set_nodup.
  - apply FlatSet_new_run.
  - intros x s Hs Hl. destruct (set_insert_run pointer_hash x s Hs Hl) as (s' & b & E & Hs' & -> & Hx). by exists s'.
  - apply pointer_set_range.
  - intros x s Hs. by apply set_erase_run.
Qed.
End PointerSet.
