(* ===== verification/Graph.v ===== *)
(** * Graphs (src/tensorflow/core/graph/graph.h, graph.cc)

    Nodes and edges are objects in the arena of the graph, named by numbers in
    the order of their allocation; [nodes_] and [edges_] map ids to them, and
    objects that are not in use are in [free_nodes_] and [free_edges_], whose
    back is the head of a list.  Properties of nodes are shared and copied before
    they are written, so a node holds them as a value.  The registry of ops and
    the inference of types from a [NodeDef], which rest on protocol buffers, are
    the class [OpRegistry].  [DCHECK]s are compiled out. *)
From S2P Require Import Prelude EdgeSet.
From stdpp Require Import list gmap strings pretty options.
From stdpp Require Import list gmap strings pretty sorting options.
#[local] Open Scope Z_scope.
#[local] Open Scope tf_monad_scope.

(** ** Classes of nodes *)
Inductive NodeClass :=
  | NC_UNINITIALIZED | NC_SWITCH | NC_MERGE | NC_ENTER | NC_EXIT | NC_NEXT_ITERATION | NC_LOOP_COND
  | NC_CONTROL_TRIGGER | NC_SEND | NC_HOST_SEND | NC_RECV | NC_HOST_RECV | NC_CONSTANT | NC_VARIABLE | NC_IDENTITY
  | NC_GET_SESSION_HANDLE | NC_GET_SESSION_TENSOR | NC_DELETE_SESSION_TENSOR | NC_METADATA | NC_SCOPED_ALLOCATOR
  | NC_COLLECTIVE | NC_FAKE_PARAM | NC_PARTITIONED_CALL | NC_FUNCTION_OP | NC_SYMBOLIC_GRADIENT | NC_IF | NC_WHILE
  | NC_CASE | NC_ARG | NC_RETVAL | NC_OTHER.

#[export] Instance NodeClass_eq_dec : EqDecision NodeClass.
Proof. solve_decision. Defined.

Definition REF_CLASS (key : string) (value : NodeClass) : list (string * NodeClass) :=
  [(key, value); ("Ref" +:+ key, value)]%string.

Definition kNodeClassTable : list (string * NodeClass) :=
  REF_CLASS "Switch" NC_SWITCH ++ REF_CLASS "_SwitchN" NC_SWITCH ++ REF_CLASS "Merge" NC_MERGE ++
  REF_CLASS "Enter" NC_ENTER ++ REF_CLASS "Exit" NC_EXIT ++ REF_CLASS "NextIteration" NC_NEXT_ITERATION ++
  [("LoopCond", NC_LOOP_COND); ("ControlTrigger", NC_CONTROL_TRIGGER); ("_Send", NC_SEND); ("_HostSend", NC_HOST_SEND);
   ("_Recv", NC_RECV); ("_HostRecv", NC_HOST_RECV); ("Const", NC_CONSTANT); ("HostConst", NC_CONSTANT);
   ("Variable", NC_VARIABLE); ("VariableV2", NC_VARIABLE)] ++
  REF_CLASS "Identity" NC_IDENTITY ++
  [("GetSessionHandle", NC_GET_SESSION_HANDLE); ("GetSessionHandleV2", NC_GET_SESSION_HANDLE);
   ("GetSessionTensor", NC_GET_SESSION_TENSOR); ("DeleteSessionTensor", NC_DELETE_SESSION_TENSOR);
   ("Size", NC_METADATA); ("Shape", NC_METADATA); ("Rank", NC_METADATA); ("_ScopedAllocator", NC_SCOPED_ALLOCATOR);
   ("CollectiveReduce", NC_COLLECTIVE); ("CollectiveBcastSend", NC_COLLECTIVE); ("CollectiveBcastRecv", NC_COLLECTIVE);
   ("CollectiveGather", NC_COLLECTIVE); ("FakeParam", NC_FAKE_PARAM); ("PartitionedCall", NC_PARTITIONED_CALL);
   ("StatefulPartitionedCall", NC_PARTITIONED_CALL); ("SymbolicGradient", NC_SYMBOLIC_GRADIENT);
   ("If", NC_IF); ("StatelessIf", NC_IF); ("While", NC_WHILE); ("StatelessWhile", NC_WHILE); ("Case", NC_CASE);
   ("StatelessCase", NC_CASE); ("_Arg", NC_ARG); ("_DeviceArg", NC_ARG); ("_Retval", NC_RETVAL);
   ("_DeviceRetval", NC_RETVAL); ("_XlaMerge", NC_MERGE)].

Fixpoint assoc_find {A} (key : string) (l : list (string * A)) : option A :=
  match l with
  | [] => None
  | (k, v) :: l => if bool_decide (k = key) then Some v else assoc_find key l
  end.

Definition GetNodeClassForOp (ts : string) : NodeClass := default NC_OTHER (assoc_find ts kNodeClassTable).

(** ** Definitions and properties of nodes *)
Record NodeDef := mkNodeDef {
  def_name : string;
  def_op : string;
  def_input : list string;
  def_device : string
}.

Class OpRegistry := {
  OpData : Type;
  LookUp : string -> Status + OpData;
  is_function_op : OpData -> bool;
  (** The types of the inputs and outputs. *)
  InOutTypesForNode : NodeDef -> OpData -> Status + (list Z * list Z)
}.

Record NodeProperties := mkProps {
  node_def : NodeDef;
  input_types : list Z;
  output_types : list Z
}.

Definition no_props : NodeProperties := mkProps (mkNodeDef "" "" [] "") [] [].

Section Graph.
Context {F : Type} `{FlatSet F}.

Record Node := mkNode {
  id_ : Z;
  cost_id_ : Z;
  class_ : NodeClass;
  in_edges_ : EdgeSet F;
  out_edges_ : EdgeSet F;
  props_ : NodeProperties;
  assigned_device_name_index_ : Z;
  while_ctx_ : option string;
  stack_trace_ : option nat
}.

Record Edge := mkEdge {
  src_ : nat;
  dst_ : nat;
  edge_id_ : Z;
  src_output_ : Z;
  dst_input_ : Z
}.

Record Graph := mkGraph {
  node_heap : gmap nat Node;
  edge_heap : gmap nat Edge;
  arena_nodes : nat;
  arena_edges : nat;
  nodes_ : list (option nat);
  num_nodes_ : Z;
  edges_ : list (option nat);
  num_edges_ : Z;
  free_nodes_ : list nat;
  free_edges_ : list nat;
  name_counter_ : Z;
  device_names_ : list string;
  device_names_map_ : gmap string Z;
  while_ctxs_ : gset string
}.

Definition kControlSlot : Z := -1.

Definition kSourceId : Z := 0.

Definition kSinkId : Z := 1.

(** ** Access to objects *)
Definition get_node (n : nat) : M Graph Node := fun g =>
  match node_heap g !! n with Some x => Done (x, g) | None => Crash end.

Definition get_edge (e : nat) : M Graph Edge := fun g =>
  match edge_heap g !! e with Some x => Done (x, g) | None => Crash end.

Definition set_node_heap (h : gmap nat Node) (g : Graph) : Graph :=
  mkGraph h (edge_heap g) (arena_nodes g) (arena_edges g) (nodes_ g) (num_nodes_ g) (edges_ g) (num_edges_ g)
    (free_nodes_ g) (free_edges_ g) (name_counter_ g) (device_names_ g) (device_names_map_ g) (while_ctxs_ g).

Definition put_node (n : nat) (x : Node) : M Graph unit := modify (fun g => set_node_heap (<[n := x]> (node_heap g)) g).

Definition set_edges (h : gmap nat Edge) (arena : nat) (l : list (option nat)) (num : Z) (free : list nat) (g : Graph) : Graph :=
  mkGraph (node_heap g) h (arena_nodes g) arena (nodes_ g) (num_nodes_ g) l num
    (free_nodes_ g) free (name_counter_ g) (device_names_ g) (device_names_map_ g) (while_ctxs_ g).

Definition set_nodes (h : gmap nat Node) (arena : nat) (l : list (option nat)) (num : Z) (free : list nat) (g : Graph) : Graph :=
  mkGraph h (edge_heap g) arena (arena_edges g) l num (edges_ g) (num_edges_ g)
    free (free_edges_ g) (name_counter_ g) (device_names_ g) (device_names_map_ g) (while_ctxs_ g).

Definition with_in (s : EdgeSet F) (x : Node) : Node :=
  mkNode (id_ x) (cost_id_ x) (class_ x) s (out_edges_ x) (props_ x) (assigned_device_name_index_ x) (while_ctx_ x) (stack_trace_ x).

Definition with_out (s : EdgeSet F) (x : Node) : Node :=
  mkNode (id_ x) (cost_id_ x) (class_ x) (in_edges_ x) s (props_ x) (assigned_device_name_index_ x) (while_ctx_ x) (stack_trace_ x).

Definition with_input (l : list string) (x : Node) : Node :=
  let d := node_def (props_ x) in
  mkNode (id_ x) (cost_id_ x) (class_ x) (in_edges_ x) (out_edges_ x)
    (mkProps (mkNodeDef (def_name d) (def_op d) l (def_device d)) (input_types (props_ x)) (output_types (props_ x)))
    (assigned_device_name_index_ x) (while_ctx_ x) (stack_trace_ x).

(** [n->out_edges_.insert(e).second] and its siblings. *)
Definition insert_out (n e : nat) : M Graph bool :=
  x <~ get_node n;;
  p <~ lift (insert_edge e (out_edges_ x));;
  put_node n (with_out p.1 x);;; ret p.2.

Definition insert_in (n e : nat) : M Graph bool :=
  x <~ get_node n;;
  p <~ lift (insert_edge e (in_edges_ x));;
  put_node n (with_in p.1 x);;; ret p.2.

Definition erase_out (n e : nat) : M Graph bool :=
  x <~ get_node n;;
  p <~ lift (erase_edge e (out_edges_ x));;
  put_node n (with_out p.1 x);;; ret (p.2 =? 1).

Definition erase_in (n e : nat) : M Graph bool :=
  x <~ get_node n;;
  p <~ lift (erase_edge e (in_edges_ x));;
  put_node n (with_in p.1 x);;; ret (p.2 =? 1).

(** ** Nodes *)

(** A node as its constructor leaves it. *)
Definition Node_new : Node := mkNode (-1) (-1) NC_UNINITIALIZED empty_set empty_set no_props 0 None None.

Definition Initialize (id cost_id : Z) (props : NodeProperties) (node_class : NodeClass) (x : Node) : Node :=
  mkNode id cost_id node_class (in_edges_ x) (out_edges_ x) props (assigned_device_name_index_ x) (while_ctx_ x) (stack_trace_ x).

Definition Clear (x : Node) : Node :=
  mkNode (-1) (-1) NC_UNINITIALIZED empty_set empty_set no_props 0 (while_ctx_ x) (stack_trace_ x).

Definition AllocateNode (props : NodeProperties) (cost_node : option Node) (node_class : NodeClass) : M Graph nat := fun g =>
  let '(n, x, arena, free) :=
    match free_nodes_ g with
    | [] => (arena_nodes g, Some Node_new, S (arena_nodes g), [])
    | n :: free => (n, node_heap g !! n, arena_nodes g, free)
    end in
  match x with
  | None => Crash
  | Some x =>
      let id := Z.of_nat (length (nodes_ g)) in
      let cost_id := match cost_node with Some c => cost_id_ c | None => id end in
      Done (n, set_nodes (<[n := Initialize id cost_id props node_class x]> (node_heap g)) arena
                 (nodes_ g ++ [Some n]) (num_nodes_ g + 1) free g)
  end.

(** [nodes_[id] = nullptr]; an id outside is undefined. *)
Definition ReleaseNode (n : nat) : M Graph unit :=
  x <~ get_node n;;
  g <~ get;;
  CHECK ((0 <=? id_ x) && (id_ x <? Z.of_nat (length (nodes_ g))));;;
  modify (fun g => set_nodes (<[n := Clear x]> (node_heap g)) (arena_nodes g)
                     (<[Z.to_nat (id_ x) := None]> (nodes_ g)) (num_nodes_ g - 1) (n :: free_nodes_ g) g).

Definition AddNode `{OpRegistry} (def : NodeDef) : M Graph (Status * option nat) :=
  match LookUp (def_op def) with
  | inl s => ret (s, None)
  | inr data =>
      match InOutTypesForNode def data with
      | inl s => ret (s, None)
      | inr (inputs, outputs) =>
          let node_class := if is_function_op data then NC_FUNCTION_OP else GetNodeClassForOp (def_op def) in
          n <~ AllocateNode (mkProps def inputs outputs) None node_class;;
          ret (StatusOK, Some n)
      end
  end.

Definition IsSource (x : Node) : bool := id_ x =? 0.

Definition IsSink (x : Node) : bool := id_ x =? 1.

Definition IsOp (x : Node) : bool := 1 <? id_ x.

Definition node_name (x : Node) : string := def_name (node_def (props_ x)).

Definition num_inputs (x : Node) : Z := Z.of_nat (length (input_types (props_ x))).

Definition num_outputs (x : Node) : Z := Z.of_nat (length (output_types (props_ x))).

Definition IsControlEdge (e : Edge) : bool := src_output_ e =? kControlSlot.

(** ** Validity *)
Definition FindNodeId (g : Graph) (id : Z) : option nat := mjoin (nodes_ g !! Z.to_nat id).

Definition IsValidNode (g : Graph) (n : option nat) : outcome Status :=
  match n with
  | None => Done (StatusError INVALID_ARGUMENT)
  | Some n =>
      match node_heap g !! n with
      | None => Crash
      | Some x =>
          if id_ x <? 0 then Done (StatusError INVALID_ARGUMENT)
          else if Z.of_nat (length (nodes_ g)) <=? id_ x then Done (StatusError INVALID_ARGUMENT)
          else if bool_decide (nodes_ g !! Z.to_nat (id_ x) = Some (Some n)) then Done StatusOK
          else Done (StatusError INVALID_ARGUMENT)
      end
  end.

Definition IsValidOutputTensor (n : nat) (idx : Z) : M Graph Status :=
  g <~ get;;
  s <~ lift (IsValidNode g (Some n));;
  if ok s then
    x <~ get_node n;;
    ret (if (num_outputs x <=? idx) || (idx <? 0) then StatusError OUT_OF_RANGE else StatusOK)
  else ret s.

Definition IsValidInputTensor (n : nat) (idx : Z) : M Graph Status :=
  g <~ get;;
  s <~ lift (IsValidNode g (Some n));;
  if ok s then
    x <~ get_node n;;
    ret (if (num_inputs x <=? idx) || (idx <? 0) then StatusError OUT_OF_RANGE else StatusOK)
  else ret s.

(** ** Edges *)
Definition RecycleEdge (e : nat) : M Graph unit :=
  modify (fun g => set_edges (edge_heap g) (arena_edges g) (edges_ g) (num_edges_ g) (e :: free_edges_ g) g).

Definition AddEdge (source : nat) (x : Z) (dest : nat) (y : Z) : M Graph nat :=
  g <~ get;;
  let '(e, arena, free) :=
    match free_edges_ g with
    | [] => (arena_edges g, S (arena_edges g), [])
    | e :: free => (e, arena_edges g, free)
    end in
  let id := Z.of_nat (length (edges_ g)) in
  modify (fun g => set_edges (<[e := mkEdge source dest id x y]> (edge_heap g)) arena (edges_ g) (num_edges_ g) free g);;;
  b <~ insert_out source e;; CHECK b;;;
  b <~ insert_in dest e;; CHECK b;;;
  modify (fun g => set_edges (edge_heap g) (arena_edges g) (edges_ g ++ [Some e]) (num_edges_ g + 1) (free_edges_ g) g);;;
  ret e.

(** [edges_[id] = nullptr]; an id outside is undefined. *)
Definition drop_edge_id (id : Z) : M Graph unit :=
  g <~ get;;
  CHECK ((0 <=? id) && (id <? Z.of_nat (length (edges_ g))));;;
  modify (fun g => set_edges (edge_heap g) (arena_edges g) (<[Z.to_nat id := None]> (edges_ g)) (num_edges_ g) (free_edges_ g) g).

Definition count_edge_down : M Graph unit :=
  modify (fun g => set_edges (edge_heap g) (arena_edges g) (edges_ g) (num_edges_ g - 1) (free_edges_ g) g).

Definition RemoveEdge (e : nat) : M Graph unit :=
  x <~ get_edge e;;
  b <~ erase_out (src_ x) e;; CHECK b;;;
  b <~ erase_in (dst_ x) e;; CHECK b;;;
  g <~ get;;
  CHECK (bool_decide (edges_ g !! Z.to_nat (edge_id_ x) = Some (Some e)));;;
  CHECK (0 <? num_edges_ g);;;
  drop_edge_id (edge_id_ x);;;
  RecycleEdge e;;;
  count_edge_down.

(** The two loops of [RemoveNode], over the edges in and the edges out. *)
Definition remove_in_edge (e : nat) : M Graph unit :=
  x <~ get_edge e;;
  b <~ erase_out (src_ x) e;; CHECK b;;;
  drop_edge_id (edge_id_ x);;;
  RecycleEdge e;;;
  count_edge_down.

Definition remove_out_edge (e : nat) : M Graph unit :=
  x <~ get_edge e;;
  b <~ erase_in (dst_ x) e;; CHECK b;;;
  drop_edge_id (edge_id_ x);;;
  RecycleEdge e;;;
  count_edge_down.

Definition RemoveNode (n : nat) : M Graph unit :=
  x <~ get_node n;;
  for_each remove_in_edge (elements_of (in_edges_ x));;;
  x <~ get_node n;;
  put_node n (with_in empty_set x);;;
  x <~ get_node n;;
  for_each remove_out_edge (elements_of (out_edges_ x));;;
  x <~ get_node n;;
  put_node n (with_out empty_set x);;;
  ReleaseNode n.

(** A control edge from [source] among [edges]. *)
Fixpoint control_edge_from (g : Graph) (source : nat) (edges : list nat) : outcome bool :=
  match edges with
  | [] => Done false
  | e :: edges =>
      match edge_heap g !! e with
      | Some x => if IsControlEdge x && (src_ x =? source)%nat then Done true else control_edge_from g source edges
      | None => Crash
      end
  end.

Definition control_name (s : string) : string := ("^" +:+ s)%string.

(** The control input from [s] in the [NodeDef] of [d], the node [dest]. *)
Definition add_control_input (s d : Node) (dest : nat) : M Graph unit :=
  if negb (IsSource s) && negb (IsSink d) then
    let new_input := control_name (node_name s) in
    let inputs := def_input (node_def (props_ d)) in
    if bool_decide (new_input ∈ inputs) then ret tt else put_node dest (with_input (inputs ++ [new_input]) d)
  else ret tt.

Definition AddControlEdge (source dest : nat) (allow_duplicates : bool) : M Graph (option nat) :=
  g <~ get;;
  d <~ get_node dest;;
  exists_ <~ (if allow_duplicates then ret false else lift (control_edge_from g source (elements_of (in_edges_ d))));;
  if exists_ : bool then ret None
  else
    s <~ get_node source;;
    (if negb allow_duplicates then add_control_input s d dest else ret tt);;;
    e <~ AddEdge source kControlSlot dest kControlSlot;;
    ret (Some e).

(** Without the first occurrence of [s]. *)
Fixpoint erase_first (s : string) (l : list string) : list string :=
  match l with
  | [] => []
  | x :: l => if bool_decide (x = s) then l else x :: erase_first s l
  end.

Definition remove_control_input (s d : Node) (dest : nat) : M Graph unit :=
  if negb (IsSource s) && negb (IsSink d) then
    put_node dest (with_input (erase_first (control_name (node_name s)) (def_input (node_def (props_ d)))) d)
  else ret tt.

Definition RemoveControlEdge (e : nat) : M Graph unit :=
  x <~ get_edge e;;
  s <~ get_node (src_ x);;
  d <~ get_node (dst_ x);;
  remove_control_input s d (dst_ x);;;
  RemoveEdge e.

(** The first edge in [edges] to input [index]. *)
Fixpoint FindEdge (g : Graph) (index : Z) (edges : list nat) : outcome (option nat) :=
  match edges with
  | [] => Done None
  | e :: edges =>
      match edge_heap g !! e with
      | Some x => if dst_input_ x =? index then Done (Some e) else FindEdge g index edges
      | None => Crash
      end
  end.

Definition tensor_name (name : string) (slot : Z) : string := (name +:+ ":" +:+ pretty slot)%string.

Definition UpdateEdge (new_src : nat) (new_src_index : Z) (dst : nat) (dst_index : Z) : M Graph Status :=
  s <~ IsValidOutputTensor new_src new_src_index;;
  if negb (ok s) then ret s else
  s <~ IsValidInputTensor dst dst_index;;
  if negb (ok s) then ret s else
  g <~ get;;
  d <~ get_node dst;;
  e <~ lift (FindEdge g dst_index (elements_of (in_edges_ d)));;
  match e with
  | None => ret (StatusError INVALID_ARGUMENT)
  | Some e =>
      RemoveEdge e;;;
      AddEdge new_src new_src_index dst dst_index;;;
      src <~ get_node new_src;;
      d <~ get_node dst;;
      let inputs := def_input (node_def (props_ d)) in
      CHECK (dst_index <? Z.of_nat (length inputs));;;
      put_node dst (with_input (<[Z.to_nat dst_index := tensor_name (node_name src) new_src_index]> inputs) d);;;
      ret StatusOK
  end.

(** The number of data edges among [edges]. *)
Fixpoint count_data (g : Graph) (edges : list nat) : outcome Z :=
  match edges with
  | [] => Done 0
  | e :: edges =>
      match edge_heap g !! e with
      | Some x =>
          match count_data g edges with
          | Done n => Done (if IsControlEdge x then n else n + 1)
          | o => o
          end
      | None => Crash
      end
  end.

Definition AddWhileInputHack (new_src : nat) (new_src_index : Z) (dst : nat) : M Graph Status :=
  d <~ get_node dst;;
  if negb (bool_decide (class_ d = NC_WHILE)) then ret (StatusError INTERNAL) else
  s <~ IsValidOutputTensor new_src new_src_index;;
  if negb (ok s) then ret s else
  g <~ get;;
  dst_index <~ lift (count_data g (elements_of (in_edges_ d)));;
  s <~ IsValidInputTensor dst dst_index;;
  if negb (ok s) then ret s else
  AddEdge new_src new_src_index dst dst_index;;;
  src <~ get_node new_src;;
  d <~ get_node dst;;
  put_node dst (with_input (def_input (node_def (props_ d)) ++ [tensor_name (node_name src) new_src_index]) d);;;
  ret StatusOK.
End Graph.
Arguments Node F : clear implicits.
Arguments Graph F : clear implicits.

(** * More of a graph (src/tensorflow/core/graph/graph.h, graph.cc)

    The constructor, iteration, inputs of a node, names of devices, while
    contexts, copies and serialization.  Versions, the function library and full
    types are protocol buffers that these operations hand over unread. *)

(** Byte order of strings, as [std::string]'s [operator<]. *)
Definition string_le (a b : string) : Prop := String.leb a b = true.

#[export] Instance string_le_dec : RelDecision string_le.
Proof. intros a b. unfold string_le. apply _. Defined.

Section GraphOps.
Context {F : Type} `{FlatSet F}.
#[local] Notation Graph := (Graph F).
#[local] Notation Node := (Node F).

(** ** The constructor *)
Definition empty_graph : Graph := mkGraph ∅ ∅ 0 0 [] 0 [] 0 [] [] 0 [] ∅ ∅.

Definition set_device_names (l : list string) (m : gmap string Z) (g : Graph) : Graph :=
  mkGraph (node_heap g) (edge_heap g) (arena_nodes g) (arena_edges g) (nodes_ g) (num_nodes_ g) (edges_ g) (num_edges_ g)
    (free_nodes_ g) (free_edges_ g) (name_counter_ g) l m (while_ctxs_ g).

(** [AddNode] of one of the two nodes, with [TF_CHECK_OK] and [CHECK_EQ] of its id. *)
Definition add_end `{OpRegistry} (name : string) (id : Z) : M Graph nat :=
  r <~ AddNode (mkNodeDef name "NoOp" [] "");;
  CHECK (ok r.1);;;
  match r.2 with
  | Some n => x <~ get_node n;; CHECK (id_ x =? id);;; ret n
  | None => crash
  end.

Definition Graph_ctor `{OpRegistry} : M Graph unit :=
  modify (set_device_names [""%string] ∅);;;
  source <~ add_end "_SOURCE" kSourceId;;
  sink <~ add_end "_SINK" kSinkId;;
  AddControlEdge source sink false;;;
  ret tt.

(** ** Iteration *)

(** [nodes()]: the first node is not tested, the others are those not null. *)
Definition nodes (g : Graph) : list (option nat) :=
  match nodes_ g with
  | [] => []
  | o :: l => o :: filter is_Some l
  end.

Definition op_nodes (g : Graph) : list (option nat) := drop 2 (nodes g).

Definition edges (g : Graph) : list nat := omap id (edges_ g).

Definition FindEdgeId (g : Graph) (id : Z) : option nat := mjoin (edges_ g !! Z.to_nat id).

(** [in_nodes()] and [out_nodes()]. *)
Definition in_nodes (g : Graph) (x : Node) : list (option nat) :=
  map (fun e => src_ <$> edge_heap g !! e) (elements_of (in_edges_ x)).

Definition out_nodes (g : Graph) (x : Node) : list (option nat) :=
  map (fun e => dst_ <$> edge_heap g !! e) (elements_of (out_edges_ x)).

(** ** Inputs of a node *)
Definition input_edge (idx : Z) (x : Node) (g : Graph) : outcome (Status * option nat) :=
  if (idx <? 0) || (num_inputs x <=? idx) then Done (StatusError INVALID_ARGUMENT, None)
  else
    match FindEdge g idx (elements_of (in_edges_ x)) with
    | Done (Some e) => Done (StatusOK, Some e)
    | Done None => Done (StatusError NOT_FOUND, None)
    | Crash => Crash
    | OutOfFuel => OutOfFuel
    end.

(** The loop of [input_edges] over the edges in. *)
Fixpoint fill_inputs (g : Graph) (n : Z) (edges : list nat) (input_edges : list (option nat)) : outcome (Status * list (option nat)) :=
  match edges with
  | [] => Done (StatusOK, input_edges)
  | e :: edges =>
      match edge_heap g !! e with
      | None => Crash
      | Some x =>
          if IsControlEdge x then fill_inputs g n edges input_edges
          else if (dst_input_ x <? 0) || (n <=? dst_input_ x) then Done (StatusError INTERNAL, input_edges)
          else
            match input_edges !! Z.to_nat (dst_input_ x) with
            | Some None => fill_inputs g n edges (<[Z.to_nat (dst_input_ x) := Some e]> input_edges)
            | Some (Some _) => Done (StatusError INTERNAL, input_edges)
            | None => Crash
            end
      end
  end.

Definition input_edges (x : Node) (g : Graph) : outcome (Status * list (option nat)) :=
  match fill_inputs g (num_inputs x) (elements_of (in_edges_ x)) (replicate (Z.to_nat (num_inputs x)) None) with
  | Done (s, l) =>
      if ok s then
        if forallb (fun o => bool_decide (is_Some o)) l then Done (StatusOK, l) else Done (StatusError INVALID_ARGUMENT, l)
      else Done (s, l)
  | o => o
  end.

Definition input_node (idx : Z) (x : Node) (g : Graph) : outcome (Status * option nat) :=
  match input_edge idx x g with
  | Done (s, e) =>
      if ok s then
        match e with
        | None => Done (StatusOK, None)
        | Some e => match edge_heap g !! e with Some ex => Done (StatusOK, Some (src_ ex)) | None => Crash end
        end
      else Done (s, None)
  | Crash => Crash
  | OutOfFuel => OutOfFuel
  end.

Definition input_tensor (idx : Z) (x : Node) (g : Graph) : outcome (Status * option (nat * Z)) :=
  match input_edge idx x g with
  | Done (s, e) =>
      if ok s then
        match e with
        | None => Crash
        | Some e => match edge_heap g !! e with Some ex => Done (StatusOK, Some (src_ ex, src_output_ ex)) | None => Crash end
        end
      else Done (s, None)
  | Crash => Crash
  | OutOfFuel => OutOfFuel
  end.

(** ** Names *)
Definition set_name_counter (c : Z) (g : Graph) : Graph :=
  mkGraph (node_heap g) (edge_heap g) (arena_nodes g) (arena_edges g) (nodes_ g) (num_nodes_ g) (edges_ g) (num_edges_ g)
    (free_nodes_ g) (free_edges_ g) c (device_names_ g) (device_names_map_ g) (while_ctxs_ g).

Definition NewName (prefix : string) : M Graph string :=
  g <~ get;;
  modify (set_name_counter (name_counter_ g + 1));;;
  ret (prefix +:+ "/_" +:+ pretty (name_counter_ g))%string.

(** [device_names_map_[device_name]] makes an entry that holds 0. *)
Definition InternDeviceName (device_name : string) : M Graph Z :=
  if bool_decide (device_name = ""%string) then ret 0
  else
    g <~ get;;
    let index_cell := default 0 (device_names_map_ g !! device_name) in
    let cells := <[device_name := index_cell]> (device_names_map_ g) in
    if 0 <? index_cell then modify (set_device_names (device_names_ g) cells);;; ret index_cell
    else
      let index := Z.of_nat (size cells) in
      modify (set_device_names (device_names_ g ++ [device_name]) (<[device_name := index]> cells));;;
      ret index.

(** [device_names_[i]]; an index outside is undefined. *)
Definition get_assigned_device_name (g : Graph) (x : Node) : outcome string :=
  if assigned_device_name_index_ x <? 0 then Crash
  else match device_names_ g !! Z.to_nat (assigned_device_name_index_ x) with Some s => Done s | None => Crash end.

Definition with_device (i : Z) (x : Node) : Node :=
  mkNode (id_ x) (cost_id_ x) (class_ x) (in_edges_ x) (out_edges_ x) (props_ x) i (while_ctx_ x) (stack_trace_ x).

Definition set_assigned_device_name (n : nat) (device_name : string) : M Graph unit :=
  i <~ InternDeviceName device_name;;
  x <~ get_node n;;
  put_node n (with_device i x).

Definition set_while_ctxs (s : gset string) (g : Graph) : Graph :=
  mkGraph (node_heap g) (edge_heap g) (arena_nodes g) (arena_edges g) (nodes_ g) (num_nodes_ g) (edges_ g) (num_edges_ g)
    (free_nodes_ g) (free_edges_ g) (name_counter_ g) (device_names_ g) (device_names_map_ g) s.

(** A while context is named by its frame. *)
Definition AddWhileContext (frame_name : string) : M Graph (Status * option string) :=
  g <~ get;;
  if bool_decide (frame_name ∈ while_ctxs_ g) then ret (StatusError INVALID_ARGUMENT, None)
  else modify (set_while_ctxs ({[frame_name]} ∪ while_ctxs_ g));;; ret (StatusOK, Some frame_name).

Definition set_while_ctx (n : nat) (while_ctx : option string) : M Graph unit :=
  x <~ get_node n;;
  put_node n (mkNode (id_ x) (cost_id_ x) (class_ x) (in_edges_ x) (out_edges_ x) (props_ x)
                (assigned_device_name_index_ x) while_ctx (stack_trace_ x)).

Definition SetStackTrace (n : nat) (stack_trace : option nat) : M Graph unit :=
  x <~ get_node n;;
  put_node n (mkNode (id_ x) (cost_id_ x) (class_ x) (in_edges_ x) (out_edges_ x) (props_ x)
                (assigned_device_name_index_ x) (while_ctx_ x) stack_trace).

Fixpoint name_index (g : Graph) (l : list (option nat)) (result : gmap string nat) : outcome (gmap string nat) :=
  match l with
  | [] => Done result
  | Some n :: l =>
      match node_heap g !! n with
      | Some x => name_index g l (<[node_name x := n]> result)
      | None => Crash
      end
  | None :: _ => Crash
  end.

Definition BuildNodeNameIndex (g : Graph) : outcome (gmap string nat) := name_index g (nodes g) ∅.

(** ** Copies *)

(** A node of the graph [src]. *)
Definition CopyNode `{OpRegistry} (src : Graph) (n : nat) : M Graph nat :=
  match node_heap src !! n with
  | None => crash
  | Some node =>
      copy <~ AllocateNode (props_ node) (Some node) (class_ node);;
      device <~ lift (get_assigned_device_name src node);;
      set_assigned_device_name copy device;;;
      CHECK (match LookUp (def_op (node_def (props_ node))) with inr _ => true | inl _ => false end);;;
      SetStackTrace copy (stack_trace_ node);;;
      ret copy
  end.

(** The two [reserve]s. *)
Definition reserve_edges (copy : nat) (in_size out_size : nat) : M Graph unit :=
  x <~ get_node copy;;
  s <~ lift (reserve in_size (in_edges_ x));;
  put_node copy (with_in s x);;;
  x <~ get_node copy;;
  s <~ lift (reserve out_size (out_edges_ x));;
  put_node copy (with_out s x).

(** [Copy]'s loop over the nodes, which fills [node_map]. *)
Fixpoint copy_nodes `{OpRegistry} (src : Graph) (l : list (option nat)) (node_map : gmap nat nat) : M Graph (gmap nat nat) :=
  match l with
  | [] => ret node_map
  | None :: _ => crash
  | Some n :: l =>
      copy <~ CopyNode src n;;
      match node_heap src !! n with
      | None => crash
      | Some x =>
          reserve_edges copy (size_of (in_edges_ x)) (size_of (out_edges_ x));;;
          copy_nodes src l (<[n := copy]> node_map)
      end
  end.

(** A node that is not in [node_map] is a null pointer. *)
Fixpoint copy_edges (src : Graph) (node_map : gmap nat nat) (l : list nat) : M Graph unit :=
  match l with
  | [] => ret tt
  | e :: l =>
      match edge_heap src !! e with
      | None => crash
      | Some x =>
          match node_map !! src_ x, node_map !! dst_ x with
          | Some s, Some d => AddEdge s (src_output_ x) d (dst_input_ x);;; copy_edges src node_map l
          | _, _ => crash
          end
      end
  end.

Definition ends_only (g : Graph) : bool :=
  forallb (fun o => match o with
                    | Some n => match node_heap g !! n with Some x => IsSource x || IsSink x | None => false end
                    | None => false
                    end) (nodes g).

Definition Copy `{OpRegistry} (src : Graph) : M Graph unit :=
  g <~ get;;
  CHECK (ends_only g);;;
  match FindNodeId src kSourceId, FindNodeId src kSinkId, FindNodeId g kSourceId, FindNodeId g kSinkId with
  | Some so, Some si, Some so', Some si' =>
      node_map <~ copy_nodes src (op_nodes src) (<[si := si']> (<[so := so']> ∅));;
      copy_edges src node_map (edges src)
  | _, _, _, _ => crash
  end.

Definition Clone `{OpRegistry} (src : Graph) : outcome Graph :=
  match (Graph_ctor;;; Copy src) empty_graph with
  | Done (_, g) => Done g
  | Crash => Crash
  | OutOfFuel => OutOfFuel
  end.

(** ** Serialization *)
Definition AddInput (src_name : string) (src_slot : Z) : string :=
  if src_slot =? kControlSlot then control_name src_name
  else if src_slot =? 0 then src_name
  else tensor_name src_name src_slot.

(** The edges by input, then the control edges in the order of the set. *)
Fixpoint gather_inputs (g : Graph) (edges : list nat) (inputs : list (option nat)) : outcome (list (option nat)) :=
  match edges with
  | [] => Done inputs
  | e :: edges =>
      match edge_heap g !! e with
      | None => Crash
      | Some x =>
          if IsControlEdge x then gather_inputs g edges (inputs ++ [Some e])
          else if dst_input_ x <? 0 then Crash
          else
            match inputs !! Z.to_nat (dst_input_ x) with
            | Some None => gather_inputs g edges (<[Z.to_nat (dst_input_ x) := Some e]> inputs)
            | _ => Crash
            end
      end
  end.

(** The node an edge comes from. *)
Definition edge_src (g : Graph) (e : nat) : option Node := x ← edge_heap g !! e; node_heap g !! src_ x.

Definition src_name (g : Graph) (o : option nat) : string :=
  match o ≫= edge_src g with Some x => node_name x | None => "" end.

(** The comparison of [std::sort]. *)
Definition by_src_name (g : Graph) (a b : option nat) : Prop := string_le (src_name g a) (src_name g b).

#[export] Instance by_src_name_dec g : RelDecision (by_src_name g).
Proof. intros a b. unfold by_src_name. apply _. Defined.

Definition all_edges (l : list (option nat)) : bool := forallb (fun o => bool_decide (is_Some o)) l.

(** The inputs of the [NodeDef], from the [i]-th on. *)
Fixpoint input_names (g : Graph) (requested : list string) (i : nat) (inputs : list (option nat)) : outcome (list string) :=
  match inputs with
  | [] => Done []
  | o :: inputs =>
      match input_names g requested (S i) inputs with
      | Done rest =>
          match o with
          | None => Done (default ""%string (requested !! i) :: rest)
          | Some e =>
              match edge_heap g !! e with
              | None => Crash
              | Some ex =>
                  match node_heap g !! src_ ex with
                  | None => Crash
                  | Some src => Done (if IsOp src then AddInput (node_name src) (src_output_ ex) :: rest else rest)
                  end
              end
          end
      | o => o
      end
  end.

Definition node_to_def (g : Graph) (x : Node) : outcome NodeDef :=
  match get_assigned_device_name g x, gather_inputs g (elements_of (in_edges_ x)) (replicate (Z.to_nat (num_inputs x)) None) with
  | Done device, Done inputs =>
      let d := node_def (props_ x) in
      let n := Z.to_nat (num_inputs x) in
      if all_edges (drop n inputs) then
        match input_names g (def_input d) 0 (take n inputs ++ merge_sort (by_src_name g) (drop n inputs)) with
        | Done l => Done (mkNodeDef (def_name d) (def_op d) l (if bool_decide (device = ""%string) then def_device d else device))
        | Crash => Crash
        | OutOfFuel => OutOfFuel
        end
      else Crash
  | _, _ => Crash
  end.

(** The nodes from [from_node_id] on. *)
Fixpoint defs_of (g : Graph) (l : list (option nat)) : outcome (list NodeDef) :=
  match l with
  | [] => Done []
  | None :: l => defs_of g l
  | Some n :: l =>
      match node_heap g !! n with
      | None => Crash
      | Some x =>
          if IsOp x then
            match node_to_def g x, defs_of g l with
            | Done d, Done ds => Done (d :: ds)
            | _, _ => Crash
            end
          else defs_of g l
      end
  end.

Definition ToGraphDefSubRange (from_node_id : nat) (g : Graph) : outcome (list NodeDef) := defs_of g (drop from_node_id (nodes_ g)).

Definition ToGraphDef (g : Graph) : outcome (list NodeDef) := ToGraphDefSubRange 0 g.
End GraphOps.
