(* ===== verification/GraphInv.v ===== *)
(** * Graphs as multigraphs: the invariant and the abstraction

    The abstract graph of a [Graph] is two lists, of what nodes hold and of
    edges between ids, with a hole for each id that was removed.  [wf] says that
    the sets of edges of the nodes, the vectors, the counts and the lists of free
    objects agree; [wf_at] allows one node to hold edges that are gone, as it
    does while [RemoveNode] runs. *)
From S2P Require Import Prelude FlatRep EdgeSet Graph.
From stdpp Require Import list gmap strings options.
#[local] Open Scope Z_scope.
#[local] Open Scope tf_monad_scope.

(** ** Abstract graphs *)
Record NodeInfo := mkInfo {
  info_cost : Z;
  info_class : NodeClass;
  info_props : NodeProperties;
  info_device : Z;
  info_while : option string;
  info_trace : option nat
}.

Record AEdge := mkAEdge {
  a_src : nat;
  a_out : Z;
  a_dst : nat;
  a_in : Z
}.

Record AGraph := mkAGraph {
  a_nodes : list (option NodeInfo);
  a_edges : list (option AEdge)
}.

Definition a_add_node (i : NodeInfo) (a : AGraph) : AGraph := mkAGraph (a_nodes a ++ [Some i]) (a_edges a).

Definition touches (n : nat) (e : AEdge) : bool := (a_src e =? n)%nat || (a_dst e =? n)%nat.

Definition keep_edge (p : AEdge -> bool) (o : option AEdge) : option AEdge :=
  match o with Some e => if p e then Some e else None | None => None end.

Definition a_remove_node (n : nat) (a : AGraph) : AGraph :=
  mkAGraph (<[n := None]> (a_nodes a)) (map (keep_edge (fun e => negb (touches n e))) (a_edges a)).

Definition a_add_edge (e : AEdge) (a : AGraph) : AGraph := mkAGraph (a_nodes a) (a_edges a ++ [Some e]).

Definition a_remove_edge (i : nat) (a : AGraph) : AGraph := mkAGraph (a_nodes a) (<[i := None]> (a_edges a)).

Definition a_set_node (n : nat) (i : NodeInfo) (a : AGraph) : AGraph := mkAGraph (<[n := Some i]> (a_nodes a)) (a_edges a).

Section GraphInv.
Context {F : Type} `{FlatSet F}.
#[local] Notation Graph := (Graph F).
#[local] Notation Node := (Node F).

(** ** The abstraction *)
Definition info (x : Node) : NodeInfo :=
  mkInfo (cost_id_ x) (class_ x) (props_ x) (assigned_device_name_index_ x) (while_ctx_ x) (stack_trace_ x).

(** A node without its sets of edges. *)
Definition static (x : Node) : Z * NodeInfo := (id_ x, info x).

Definition stat (g : Graph) : gmap nat (Z * NodeInfo) := static <$> node_heap g.

Definition id_of (g : Graph) (n : nat) : option nat := (fun p => Z.to_nat p.1) <$> stat g !! n.

Definition abs_edge (g : Graph) (e : nat) : option AEdge :=
  x ← edge_heap g !! e; s ← id_of g (src_ x); d ← id_of g (dst_ x); Some (mkAEdge s (src_output_ x) d (dst_input_ x)).

Definition abs_node (g : Graph) (n : nat) : option NodeInfo := snd <$> stat g !! n.

Definition abs (g : Graph) : AGraph :=
  mkAGraph (map (fun o => o ≫= abs_node g) (nodes_ g)) (map (fun o => o ≫= abs_edge g) (edges_ g)).

(** ** The invariant *)
Definition ins (h : gmap nat Node) (n e : nat) : Prop := exists x, h !! n = Some x /\ e ∈ elements_of (in_edges_ x).

Definition outs (h : gmap nat Node) (n e : nat) : Prop := exists x, h !! n = Some x /\ e ∈ elements_of (out_edges_ x).

Definition node_ok (x : Node) : Prop := set_ok (in_edges_ x) /\ set_ok (out_edges_ x).

Definition live (l : list (option nat)) (n : nat) : Prop := exists i, l !! i = Some (Some n).

Definition live_edge (g : Graph) (e : nat) (x : Edge) : Prop := live (edges_ g) e /\ edge_heap g !! e = Some x.

Definition count (l : list (option nat)) : Z := Z.of_nat (length (omap id l)).

Record wf_at (n : nat) (si so : list nat) (g : Graph) : Prop := {
  wf_ok : map_Forall (fun _ x => node_ok x) (node_heap g);
  wf_nodes i m : nodes_ g !! i = Some (Some m) -> exists s, stat g !! m = Some (Z.of_nat i, s);
  wf_edges i e : edges_ g !! i = Some (Some e) ->
    exists x, edge_heap g !! e = Some x /\ edge_id_ x = Z.of_nat i /\ live (nodes_ g) (src_ x) /\ live (nodes_ g) (dst_ x);
  wf_ins m e : ins (node_heap g) m e <-> (exists x, live_edge g e x /\ dst_ x = m) \/ (m = n /\ e ∈ si);
  wf_outs m e : outs (node_heap g) m e <-> (exists x, live_edge g e x /\ src_ x = m) \/ (m = n /\ e ∈ so);
  wf_free_nodes : NoDup (free_nodes_ g) /\ forall m, m ∈ free_nodes_ g -> exists s, stat g !! m = Some (-1, s) /\ info_device s = 0;
  wf_free_edges : NoDup (free_edges_ g) /\ forall e, e ∈ free_edges_ g -> (e < arena_edges g)%nat /\ ~ live (edges_ g) e;
  wf_arena_nodes m : is_Some (node_heap g !! m) -> (m < arena_nodes g)%nat;
  wf_arena_edges e : live (edges_ g) e -> (e < arena_edges g)%nat;
  wf_num_nodes : num_nodes_ g = count (nodes_ g);
  wf_num_edges : num_edges_ g = count (edges_ g)
}.

Definition wf (g : Graph) : Prop := wf_at 0 [] [] g.

(** ** Vectors of pointers *)
Lemma count_app l n : count (l ++ [Some n]) = count l + 1.
Proof using. unfold count. rewrite omap_app, length_app. simpl. lia. Qed.

Lemma count_drop l i n : l !! i = Some (Some n) -> count (<[i := None]> l) = count l - 1.
Proof using.
  intros Hi. unfold count. rewrite insert_take_drop by (by eapply lookup_lt_Some). rewrite <- (take_drop_middle l i _ Hi) at 3.
  rewrite !omap_app. simpl. rewrite !length_app. simpl. lia.
Qed.

Lemma count_pos l i n : l !! i = Some (Some n) -> 0 < count l.
Proof using. intros Hi. pose proof (count_drop l i n Hi). unfold count in *. lia. Qed.

Lemma live_app l n m : live (l ++ [Some n]) m <-> live l m \/ m = n.
Proof using.
  unfold live. split.
  - intros [i Hi]. apply lookup_app_Some in Hi as [Hi|[_ Hi]]; [left; eauto|]. right.
    destruct (i - length l)%nat; simpl in Hi; [by simplify_eq|done].
  - intros [[i Hi]| ->]; [exists i; by apply lookup_app_l_Some|]. exists (length l). by rewrite lookup_app_r, Nat.sub_diag by lia.
Qed.

Lemma lookup_drop_id (l : list (option nat)) i j n :
  <[i := None]> l !! j = Some (Some n) <-> j <> i /\ l !! j = Some (Some n).
Proof using.
  destruct (decide (j = i)) as [->|Hne]; [|rewrite list_lookup_insert_ne by done; tauto]. split; [|tauto].
  destruct (decide (i < length l)%nat); [rewrite list_lookup_insert_eq by done; done|].
  rewrite list_insert_ge by lia. intros Hl%lookup_lt_Some. lia.
Qed.

(** ** Heaps of nodes *)
Lemma stat_insert (h : gmap nat Node) n x x' : h !! n = Some x -> static x' = static x -> static <$> <[n := x']> h = static <$> h.
Proof using.
  intros Hn Hs. rewrite fmap_insert, Hs. apply insert_id. by rewrite lookup_fmap, Hn.
Qed.

Lemma ins_insert h n x m e : ins (<[n := x]> h) m e <-> if decide (m = n) then e ∈ elements_of (in_edges_ x) else ins h m e.
Proof using.
  unfold ins. case_decide as Hd; [subst|by rewrite lookup_insert_ne by done]. rewrite lookup_insert_eq. split; [|eauto].
  intros (y & [= <-] & Hy). done.
Qed.

Lemma outs_insert h n x m e : outs (<[n := x]> h) m e <-> if decide (m = n) then e ∈ elements_of (out_edges_ x) else outs h m e.
Proof using.
  unfold outs. case_decide as Hd; [subst|by rewrite lookup_insert_ne by done]. rewrite lookup_insert_eq. split; [|eauto].
  intros (y & [= <-] & Hy). done.
Qed.

Lemma ins_at h n x e : h !! n = Some x -> ins h n e <-> e ∈ elements_of (in_edges_ x).
Proof using. intros Hx. unfold ins. split; [intros (y & Hy & ?); by simplify_eq|eauto]. Qed.

Lemma outs_at h n x e : h !! n = Some x -> outs h n e <-> e ∈ elements_of (out_edges_ x).
Proof using. intros Hx. unfold outs. split; [intros (y & Hy & ?); by simplify_eq|eauto]. Qed.

Lemma stat_lookup (g : Graph) n s : stat g !! n = Some s <-> exists x, node_heap g !! n = Some x /\ static x = s.
Proof using. unfold stat. rewrite lookup_fmap, fmap_Some. split; intros (x & ? & ?); eauto. Qed.

(** What one of the four updates of a set leaves: the heap [h'], in which the
    edges in and out are as given. *)
Definition sets_to (h h' : gmap nat Node) (inP outP : nat -> nat -> Prop) : Prop :=
  static <$> h' = static <$> h /\ map_Forall (fun _ x => node_ok x) h' /\
  (forall m a, ins h' m a <-> inP m a) /\ (forall m a, outs h' m a <-> outP m a).

Context `{!FlatSetLaws F}.

(** One node changed, but not what is [static]. *)
Lemma put_sets h n x x' (inP outP : nat -> nat -> Prop) :
  map_Forall (fun _ x => node_ok x) h -> h !! n = Some x -> static x' = static x -> node_ok x' ->
  (forall m a, (if decide (m = n) then a ∈ elements_of (in_edges_ x') else ins h m a) <-> inP m a) ->
  (forall m a, (if decide (m = n) then a ∈ elements_of (out_edges_ x') else outs h m a) <-> outP m a) ->
  sets_to h (<[n := x']> h) inP outP.
Proof using Type.
  intros Hok Hx Hs Hx' Hi Ho. split_and!.
  - by apply (stat_insert _ _ x).
  - by apply map_Forall_insert_2.
  - intros m a. by rewrite ins_insert.
  - intros m a. by rewrite outs_insert.
Qed.

(** The part of a node that does not change is as in the heap. *)
Lemma same_ins h n x m (a : nat) : h !! n = Some x -> (if decide (m = n) then a ∈ elements_of (in_edges_ x) else ins h m a) <-> ins h m a.
Proof using Type. intros Hx. case_decide; [subst|done]. by rewrite (ins_at _ _ _ _ Hx). Qed.

Lemma same_outs h n x m (a : nat) : h !! n = Some x -> (if decide (m = n) then a ∈ elements_of (out_edges_ x) else outs h m a) <-> outs h m a.
Proof using Type. intros Hx. case_decide; [subst|done]. by rewrite (outs_at _ _ _ _ Hx). Qed.

(** The run of an update of a set of node [n], from the specification of the update. *)
Ltac run_update Hx spec :=
  let E := fresh in let Hs := fresh in let Hm := fresh in
  destruct spec as (s' & E & Hs & Hm); unfold insert_out, insert_in, erase_out, erase_in, bind, get_node, lift; rewrite Hx, E;
  eexists _, _; split; [reflexivity|];
  split; [cbn [snd]; rewrite ?(ins_at _ _ _ _ Hx), ?(outs_at _ _ _ _ Hx); case_bool_decide; cbn; naive_solver|];
  eapply put_sets; [done|exact Hx|done|by split| |]; intros m a;
  first [exact (same_ins _ _ _ _ _ Hx)|exact (same_outs _ _ _ _ _ Hx)|
         match goal with |- context [decide (?p = ?q)] => destruct (decide (p = q)) end; [subst; cbn [in_edges_ out_edges_ with_in with_out fst]; rewrite Hm, ?(ins_at _ _ _ _ Hx), ?(outs_at _ _ _ _ Hx)|];
         naive_solver].

Lemma insert_out_run g n x e : map_Forall (fun _ x => node_ok x) (node_heap g) -> node_heap g !! n = Some x -> Z.of_nat (size_of (out_edges_ x)) + 1 < max_elements ->
  exists h b, insert_out n e g = Done (b, set_node_heap h g) /\ (b = true <-> ~ outs (node_heap g) n e) /\
    sets_to (node_heap g) h (ins (node_heap g)) (fun m a => outs (node_heap g) m a \/ (m = n /\ a = e)).
Proof using Type*. intros Hok Hx Hsize. pose proof (map_Forall_lookup_1 _ _ _ _ Hok Hx) as [Hi Ho]. run_update Hx (insert_edge_spec e _ Ho Hsize). Qed.

Lemma insert_in_run g n x e : map_Forall (fun _ x => node_ok x) (node_heap g) -> node_heap g !! n = Some x -> Z.of_nat (size_of (in_edges_ x)) + 1 < max_elements ->
  exists h b, insert_in n e g = Done (b, set_node_heap h g) /\ (b = true <-> ~ ins (node_heap g) n e) /\
    sets_to (node_heap g) h (fun m a => ins (node_heap g) m a \/ (m = n /\ a = e)) (outs (node_heap g)).
Proof using Type*. intros Hok Hx Hsize. pose proof (map_Forall_lookup_1 _ _ _ _ Hok Hx) as [Hi Ho]. run_update Hx (insert_edge_spec e _ Hi Hsize). Qed.

Lemma erase_out_run g n x e : map_Forall (fun _ x => node_ok x) (node_heap g) -> node_heap g !! n = Some x ->
  exists h b, erase_out n e g = Done (b, set_node_heap h g) /\ (b = true <-> outs (node_heap g) n e) /\
    sets_to (node_heap g) h (ins (node_heap g)) (fun m a => outs (node_heap g) m a /\ ~ (m = n /\ a = e)).
Proof using Type*. intros Hok Hx. pose proof (map_Forall_lookup_1 _ _ _ _ Hok Hx) as [Hi Ho]. run_update Hx (erase_edge_spec e _ Ho). Qed.

Lemma erase_in_run g n x e : map_Forall (fun _ x => node_ok x) (node_heap g) -> node_heap g !! n = Some x ->
  exists h b, erase_in n e g = Done (b, set_node_heap h g) /\ (b = true <-> ins (node_heap g) n e) /\
    sets_to (node_heap g) h (fun m a => ins (node_heap g) m a /\ ~ (m = n /\ a = e)) (outs (node_heap g)).
Proof using Type*. intros Hok Hx. pose proof (map_Forall_lookup_1 _ _ _ _ Hok Hx) as [Hi Ho]. run_update Hx (erase_edge_spec e _ Hi). Qed.
End GraphInv.

(** * Adding and removing edges *)

Section GraphEdges.
Context {F : Type} `{FlatSetLaws F}.
#[local] Notation Graph := (Graph F).
#[local] Notation Node := (Node F).

Lemma no_edges_ok : set_ok (F := F) empty_set.
Proof using Type*. split; [apply NoDup_nil_2|simpl; lia]. Qed.

(** ** Consequences of the invariant *)
Lemma live_stat n si so (g : Graph) m : wf_at n si so g -> live (nodes_ g) m ->
  exists i s, nodes_ g !! i = Some (Some m) /\ stat g !! m = Some (Z.of_nat i, s).
Proof using Type. intros Hwf [i Hi]. destruct (wf_nodes _ _ _ _ Hwf i m Hi) as [s Hs]. eauto. Qed.

Lemma live_node n si so (g : Graph) m : wf_at n si so g -> live (nodes_ g) m -> exists x, node_heap g !! m = Some x.
Proof using Type. intros Hwf Hm. destruct (live_stat _ _ _ _ _ Hwf Hm) as (i & s & _ & Hs). apply stat_lookup in Hs as (x & Hx & _). eauto. Qed.

(** An id names one object. *)
Lemma edge_at n si so (g : Graph) i e x : wf_at n si so g -> edges_ g !! i = Some (Some e) -> edge_heap g !! e = Some x -> edge_id_ x = Z.of_nat i.
Proof using Type. intros Hwf Hi Hx. destruct (wf_edges _ _ _ _ Hwf i e Hi) as (y & Hy & Hid & _). by simplify_eq. Qed.

Lemma edge_id_inj n si so (g : Graph) i j e : wf_at n si so g -> edges_ g !! i = Some (Some e) -> edges_ g !! j = Some (Some e) -> i = j.
Proof using Type.
  intros Hwf Hi Hj. destruct (wf_edges _ _ _ _ Hwf i e Hi) as (y & Hy & Hid & _).
  pose proof (edge_at _ _ _ _ _ _ _ Hwf Hj Hy). lia.
Qed.

Lemma live_edge_ends n si so (g : Graph) e x : wf_at n si so g -> live_edge g e x -> live (nodes_ g) (src_ x) /\ live (nodes_ g) (dst_ x).
Proof using Type. intros Hwf [[i Hi] Hx]. destruct (wf_edges _ _ _ _ Hwf i e Hi) as (y & Hy & _ & ?). by simplify_eq. Qed.

Lemma id_of_live n si so (g : Graph) m i : wf_at n si so g -> live (nodes_ g) m -> id_of g m = Some i <-> nodes_ g !! i = Some (Some m).
Proof using Type.
  intros Hwf Hm. destruct (live_stat _ _ _ _ _ Hwf Hm) as (j & s & Hj & Hs). unfold id_of. rewrite Hs. simpl. rewrite Nat2Z.id. split.
  - by intros [= ->].
  - intros Hi. destruct (wf_nodes _ _ _ _ Hwf i m Hi) as [s' Hs']. rewrite Hs in Hs'. by simplify_eq.
Qed.

(** ** The abstraction of states that differ in little *)
Lemma id_of_stat (g g' : Graph) n : stat g' = stat g -> id_of g' n = id_of g n.
Proof using Type. intros E. unfold id_of. by rewrite E. Qed.

Lemma abs_edge_eq (g g' : Graph) e : stat g' = stat g -> edge_heap g' !! e = edge_heap g !! e -> abs_edge g' e = abs_edge g e.
Proof using Type.
  intros E Ee. unfold abs_edge. rewrite Ee. destruct (edge_heap g !! e); [|done]. simpl. by rewrite !(id_of_stat g g') by done.
Qed.

Lemma a_nodes_eq (g g' : Graph) : stat g' = stat g -> nodes_ g' = nodes_ g -> a_nodes (abs g') = a_nodes (abs g).
Proof using Type.
  intros E En. unfold abs. simpl. rewrite En. apply map_ext. intros [m|]; [|done]. simpl. unfold abs_node. by rewrite E.
Qed.

(** The names and contexts, that edges have no part in. *)
Definition rest (g : Graph) : Z * list string * gmap string Z * gset string :=
  (name_counter_ g, device_names_ g, device_names_map_ g, while_ctxs_ g).

(** ** A place for a new edge *)
Lemma new_edge_slot (g : Graph) : wf g ->
  let '(e, arena, free) :=
    match free_edges_ g with
    | [] => (arena_edges g, S (arena_edges g), [])
    | e :: free => (e, arena_edges g, free)
    end in
  ~ live (edges_ g) e /\ (e < arena)%nat /\ (arena_edges g <= arena)%nat /\ NoDup free /\
  forall f, f ∈ free -> (f < arena)%nat /\ ~ live (edges_ g) f /\ f <> e.
Proof using Type.
  intros Hwf. destruct (wf_free_edges _ _ _ _ Hwf) as [Hnd Hf]. destruct (free_edges_ g) as [|e free].
  - split_and!; [|lia|lia|constructor|by intros f Hf'%not_elem_of_nil]. intros Hl%(wf_arena_edges _ _ _ _ Hwf). lia.
  - apply NoDup_cons in Hnd as [He Hnd]. destruct (Hf e) as [Ha Hl]; [left|]. split_and!; [done|done|lia|done|].
    intros f Hf'. destruct (Hf f) as [? ?]; [by right|]. split_and!; [done|done|by intros ->].
Qed.

(** ** Room for another edge

    The sets of edges are tables of fewer than [max_elements]. *)
Definition room (g : Graph) : Prop := Z.of_nat (length (edges_ g)) + 1 < max_elements.

Lemma live_edges_bound (g : Graph) (l : list nat) : NoDup l -> (forall e, e ∈ l -> live (edges_ g) e) -> (length l <= length (edges_ g))%nat.
Proof using Type.
  intros Hnd Hl. transitivity (length (omap id (edges_ g))); [|clear; induction (edges_ g) as [|[a|] l IH]; cbn; [lia|fold (omap (M := list) id l); lia|etransitivity; [apply IH|lia]]]. apply submseteq_length, NoDup_submseteq; [done|].
  intros e He. apply list_elem_of_omap. destruct (Hl e He) as [i Hi]. exists (Some e). split; [by eapply list_elem_of_lookup_2|done].
Qed.

(** A set of edges that the invariant knows fits. *)
Lemma outs_fit (g : Graph) h n x : wf g -> room g -> h !! n = Some x -> set_ok (out_edges_ x) -> (forall e, outs h n e -> outs (node_heap g) n e) ->
  Z.of_nat (size_of (out_edges_ x)) + 1 < max_elements.
Proof using Type*.
  intros Hwf Hroom Hx Hok Hsub. pose proof (live_edges_bound g (elements_of (out_edges_ x)) (set_ok_nodup _ Hok)) as Hle. unfold room in Hroom. unfold size_of.
  enough (length (elements_of (out_edges_ x)) <= length (edges_ g))%nat by lia. apply Hle. intros e He. apply (outs_at h n x e Hx), Hsub in He.
  apply (wf_outs _ _ _ _ Hwf) in He as [(y & [Hl _] & _)|[_ []%not_elem_of_nil]]. done.
Qed.

Lemma ins_fit (g : Graph) h n x : wf g -> room g -> h !! n = Some x -> set_ok (in_edges_ x) -> (forall e, ins h n e -> ins (node_heap g) n e) ->
  Z.of_nat (size_of (in_edges_ x)) + 1 < max_elements.
Proof using Type*.
  intros Hwf Hroom Hx Hok Hsub. pose proof (live_edges_bound g (elements_of (in_edges_ x)) (set_ok_nodup _ Hok)) as Hle. unfold room in Hroom. unfold size_of.
  enough (length (elements_of (in_edges_ x)) <= length (edges_ g))%nat by lia. apply Hle. intros e He. apply (ins_at h n x e Hx), Hsub in He.
  apply (wf_ins _ _ _ _ Hwf) in He as [(y & [Hl _] & _)|[_ []%not_elem_of_nil]]. done.
Qed.

(** ** Adding an edge *)
Definition edge_added (g : Graph) (e : nat) (x : Edge) (g' : Graph) : Prop :=
  wf g' /\ stat g' = stat g /\ nodes_ g' = nodes_ g /\ rest g' = rest g /\ ~ live (edges_ g) e /\
  edges_ g' = edges_ g ++ [Some e] /\ edge_heap g' = <[e := x]> (edge_heap g) /\ free_nodes_ g' = free_nodes_ g.

Lemma wf_add_edge (g : Graph) h e arena free x : wf g ->
  ~ live (edges_ g) e -> (e < arena)%nat -> (arena_edges g <= arena)%nat -> NoDup free ->
  (forall f, f ∈ free -> (f < arena)%nat /\ ~ live (edges_ g) f /\ f <> e) ->
  edge_id_ x = Z.of_nat (length (edges_ g)) -> live (nodes_ g) (src_ x) -> live (nodes_ g) (dst_ x) ->
  sets_to (node_heap g) h (fun m a => ins (node_heap g) m a \/ (m = dst_ x /\ a = e))
    (fun m a => outs (node_heap g) m a \/ (m = src_ x /\ a = e)) ->
  wf (set_edges (<[e := x]> (edge_heap g)) arena (edges_ g ++ [Some e]) (num_edges_ g + 1) free (set_node_heap h g)).
Proof using Type*.
  intros Hwf He Hea Har Hnd Hfree Hid Hs Hd (Hst & Hok & Hin & Hout).
  assert (forall a y, live_edge (set_edges (<[e := x]> (edge_heap g)) arena (edges_ g ++ [Some e]) (num_edges_ g + 1) free (set_node_heap h g)) a y
    <-> live_edge g a y \/ (a = e /\ y = x)) as Hlive.
  { intros a y. unfold live_edge. cbn. rewrite live_app. split.
    - intros [[Hl| ->] Ha]; [|rewrite lookup_insert_eq in Ha; simplify_eq; by right]. left. rewrite lookup_insert_ne in Ha by (by intros ->). done.
    - intros [[Hl Ha]|[-> ->]]; [|rewrite lookup_insert_eq; auto]. rewrite lookup_insert_ne by (by intros ->). auto. }
  split; cbn.
  - done.
  - intros i m Hi. destruct (wf_nodes _ _ _ _ Hwf i m Hi) as [s Hm]. exists s. unfold stat. cbn. by rewrite Hst.
  - intros i a Hi. apply lookup_app_Some in Hi as [Hi|[Hge Hi]].
    + destruct (wf_edges _ _ _ _ Hwf i a Hi) as (y & Hy & ?). exists y. rewrite lookup_insert_ne; [done|]. intros ->. apply He. by exists i.
    + destruct (i - length (edges_ g))%nat eqn:Ei; [|done]. simpl in Hi. simplify_eq. exists x. rewrite lookup_insert_eq.
      split_and!; [done|rewrite Hid; lia|done|done].
  - intros m a. setoid_rewrite Hlive. rewrite Hin, (wf_ins _ _ _ _ Hwf). set_solver.
  - intros m a. setoid_rewrite Hlive. rewrite Hout, (wf_outs _ _ _ _ Hwf). set_solver.
  - destruct (wf_free_nodes _ _ _ _ Hwf) as [Hn Hf]. split; [done|]. unfold stat. cbn. rewrite Hst. exact Hf.
  - split; [done|]. intros f Hf. destruct (Hfree f Hf) as (? & ? & ?). split; [done|]. rewrite live_app. tauto.
  - intros m Hm. apply (wf_arena_nodes _ _ _ _ Hwf). rewrite <- (fmap_is_Some static), <- lookup_fmap, <- Hst, lookup_fmap. by apply fmap_is_Some.
  - intros a. rewrite live_app. intros [Hl%(wf_arena_edges _ _ _ _ Hwf)| ->]; lia.
  - apply (wf_num_nodes _ _ _ _ Hwf).
  - rewrite count_app, <- (wf_num_edges _ _ _ _ Hwf). done.
Qed.

Lemma AddEdge_run (g : Graph) source x dest y : wf g -> room g -> live (nodes_ g) source -> live (nodes_ g) dest ->
  exists e g', AddEdge source x dest y g = Done (e, g') /\
    edge_added g e (mkEdge source dest (Z.of_nat (length (edges_ g))) x y) g'.
Proof using Type*.
  intros Hwf Hroom Hs Hd. pose proof (new_edge_slot g Hwf) as Hslot. unfold AddEdge, get, bind at 1.
  destruct (match free_edges_ g with [] => _ | _ => _ end) as [[e arena] free]. destruct Hslot as (He & Hea & Har & Hnd & Hfree).
  set (new := mkEdge source dest (Z.of_nat (length (edges_ g))) x y). unfold modify, bind at 1.
  set (g1 := set_edges _ _ _ _ _ g). destruct (live_node _ _ _ _ _ Hwf Hs) as [xs Hxs].
  assert (Z.of_nat (size_of (out_edges_ xs)) + 1 < max_elements) as Hfs by (apply (outs_fit g (node_heap g) source xs Hwf Hroom Hxs); [apply (map_Forall_lookup_1 _ _ _ _ (wf_ok _ _ _ _ Hwf) Hxs)|done]).
  destruct (insert_out_run g1 source xs e (wf_ok _ _ _ _ Hwf) Hxs Hfs) as (h1 & b1 & E1 & Hb1 & (Hst1 & Hok1 & Hi1 & Ho1)).
  unfold bind at 1. rewrite E1. destruct b1; [|exfalso; assert (false = true) as [=]; apply Hb1; intros Ho;
    apply (wf_outs _ _ _ _ Hwf) in Ho as [(? & [? _] & _)|[_ ?%not_elem_of_nil]]; done].
  unfold CHECK, bind at 1. destruct (live_node _ _ _ _ _ Hwf Hd) as [xd Hxd].
  assert (exists xd', h1 !! dest = Some xd') as [xd' Hxd'].
  { apply (f_equal (.!! dest)) in Hst1. rewrite !lookup_fmap in Hst1. cbn in Hst1. rewrite Hxd in Hst1. destruct (h1 !! dest); [eauto|done]. }
  assert (Z.of_nat (size_of (in_edges_ xd')) + 1 < max_elements) as Hfd by (apply (ins_fit g h1 dest xd' Hwf Hroom Hxd'); [apply (map_Forall_lookup_1 _ _ _ _ Hok1 Hxd')|by intros a ?%Hi1]).
  destruct (insert_in_run (set_node_heap h1 g1) dest xd' e Hok1 Hxd' Hfd) as (h2 & b2 & E2 & Hb2 & (Hst2 & Hok2 & Hi2 & Ho2)).
  unfold bind at 1. rewrite E2. destruct b2; [|exfalso; assert (false = true) as [=]; apply Hb2; intros Ho; cbn in Ho; apply Hi1 in Ho;
    apply (wf_ins _ _ _ _ Hwf) in Ho as [(? & [? _] & _)|[_ ?%not_elem_of_nil]]; done].
  unfold bind, ret. eexists e, _. split; [reflexivity|]. cbn in Hst1, Hst2, Hi2, Ho2, Hi1, Ho1. split_and!; try done.
  - apply (wf_add_edge g h2 e arena free new); try done. split_and!; [by rewrite Hst2|done| |].
    + intros m a. by rewrite Hi2, Hi1.
    + intros m a. by rewrite Ho2, Ho1.
  - unfold stat. cbn. by rewrite Hst2.
Qed.

Lemma abs_edge_added (g g' : Graph) e x s d : edge_added g e x g' -> id_of g (src_ x) = Some s -> id_of g (dst_ x) = Some d ->
  abs g' = a_add_edge (mkAEdge s (src_output_ x) d (dst_input_ x)) (abs g).
Proof using Type*.
  intros (_ & Hst & Hn & _ & He & Hes & Heh & _) Hs Hd. unfold a_add_edge. rewrite <- (a_nodes_eq g g') by done.
  unfold abs at 1 2. simpl. f_equal. rewrite Hes, map_app. f_equal.
  - apply list_eq. intros i. rewrite !list_lookup_fmap. destruct (edges_ g !! i) as [[a|]|] eqn:Ei; [|done|done]. simpl. f_equal.
    apply abs_edge_eq; [done|]. rewrite Heh. apply lookup_insert_ne. intros ->. apply He. by exists i.
  - simpl. f_equal. unfold abs_edge. rewrite Heh, lookup_insert_eq. simpl. by rewrite !(id_of_stat g g'), Hs, Hd.
Qed.
End GraphEdges.

(** * Removing edges and nodes *)

(** The pointers of [l] cleared. *)
Definition hide (l : list nat) (o : option nat) : option nat :=
  match o with Some e => if decide (e ∈ l) then None else Some e | None => None end.

Lemma hide_hide l1 l2 (l : list (option nat)) : map (hide l1) (map (hide l2) l) = map (hide (l1 ++ l2)) l.
Proof.
  rewrite map_map. apply map_ext. intros [e|]; [|done]. unfold hide. destruct (decide (e ∈ l2)) as [H2|H2].
  - by rewrite decide_True by set_solver.
  - destruct (decide (e ∈ l1)); [rewrite decide_True by set_solver|rewrite decide_False by set_solver]; done.
Qed.

Section GraphRemove.
Context {F : Type} `{FlatSetLaws F}.
#[local] Notation Graph := (Graph F).
#[local] Notation Node := (Node F).

(** ** One edge dropped *)
Definition dropped (h : gmap nat Node) (i e : nat) (g : Graph) : Graph :=
  set_edges (edge_heap g) (arena_edges g) (<[i := None]> (edges_ g)) (num_edges_ g - 1) (e :: free_edges_ g) (set_node_heap h g).

Lemma live_dropped n si so (g : Graph) i e a : wf_at n si so g -> edges_ g !! i = Some (Some e) ->
  live (<[i := None]> (edges_ g)) a <-> live (edges_ g) a /\ a <> e.
Proof using Type*.
  intros Hwf Hi. unfold live. setoid_rewrite lookup_drop_id. split.
  - intros (j & Hne & Hj). split; [eauto|]. intros ->. by rewrite (edge_id_inj _ _ _ _ _ _ _ Hwf Hi Hj) in Hne.
  - intros [[j Hj] Hne]. exists j. split; [|done]. intros ->. simplify_eq.
Qed.

Lemma hide_one n si so (g : Graph) i e : wf_at n si so g -> edges_ g !! i = Some (Some e) ->
  <[i := None]> (edges_ g) = map (hide [e]) (edges_ g).
Proof using Type*.
  intros Hwf Hi. apply list_eq. intros j. rewrite list_lookup_fmap. destruct (decide (j = i)) as [->|Hne].
  - rewrite list_lookup_insert_eq by (by eapply lookup_lt_Some). rewrite Hi. simpl. rewrite decide_True by set_solver. done.
  - rewrite list_lookup_insert_ne by done. destruct (edges_ g !! j) as [[a|]|] eqn:Ej; simpl; try done. rewrite decide_False; [done|].
    intros ->%list_elem_of_singleton. by rewrite (edge_id_inj _ _ _ _ _ _ _ Hwf Hi Ej) in Hne.
Qed.

Lemma wf_dropped n si so si' so' (g : Graph) h i e inP outP : wf_at n si so g -> edges_ g !! i = Some (Some e) ->
  sets_to (node_heap g) h inP outP ->
  (forall m a, inP m a <-> (exists x, live_edge g a x /\ a <> e /\ dst_ x = m) \/ (m = n /\ a ∈ si')) ->
  (forall m a, outP m a <-> (exists x, live_edge g a x /\ a <> e /\ src_ x = m) \/ (m = n /\ a ∈ so')) ->
  wf_at n si' so' (dropped h i e g).
Proof using Type*.
  intros Hwf Hi (Hst & Hok & Hin & Hout) HinP HoutP. pose proof (fun a => live_dropped _ _ _ _ _ _ a Hwf Hi) as Hlive.
  assert (forall a x, live_edge (dropped h i e g) a x <-> live_edge g a x /\ a <> e) as Hl.
  { intros a x. unfold live_edge. cbn. rewrite Hlive. tauto. }
  split; cbn.
  - done.
  - intros j m Hj. destruct (wf_nodes _ _ _ _ Hwf j m Hj) as [s Hm]. exists s. unfold stat. cbn. by rewrite Hst.
  - intros j a Hj. apply lookup_drop_id in Hj as [_ Hj]. apply (wf_edges _ _ _ _ Hwf j a Hj).
  - intros m a. rewrite Hin, HinP. setoid_rewrite Hl. set_solver.
  - intros m a. rewrite Hout, HoutP. setoid_rewrite Hl. set_solver.
  - unfold stat. cbn. rewrite Hst. apply (wf_free_nodes _ _ _ _ Hwf).
  - destruct (wf_free_edges _ _ _ _ Hwf) as [Hnd Hf]. assert (live (edges_ g) e) as He by (by exists i). split.
    + apply NoDup_cons. split; [|done]. intros [_ Hin']%Hf. done.
    + intros a [->|Ha]%elem_of_cons; rewrite Hlive; [split; [|tauto]; by apply (wf_arena_edges _ _ _ _ Hwf)|].
      apply Hf in Ha as [? ?]. tauto.
  - intros m Hm. apply (wf_arena_nodes _ _ _ _ Hwf). rewrite <- (fmap_is_Some static), <- lookup_fmap, <- Hst, lookup_fmap. by apply fmap_is_Some.
  - intros a [Ha _]%Hlive. by apply (wf_arena_edges _ _ _ _ Hwf).
  - apply (wf_num_nodes _ _ _ _ Hwf).
  - rewrite (count_drop _ _ _ Hi), <- (wf_num_edges _ _ _ _ Hwf). done.
Qed.

(** The tail that all removals of an edge share. *)
Lemma drop_tail (g : Graph) i e : edges_ g !! i = Some (Some e) ->
  (drop_edge_id (Z.of_nat i);;; RecycleEdge e;;; count_edge_down) g = Done (tt, dropped (node_heap g) i e g).
Proof using Type*.
  intros Hi. pose proof (lookup_lt_Some _ _ _ Hi). unfold drop_edge_id, RecycleEdge, count_edge_down, get, modify, CHECK, bind.
  replace (_ && _) with true by (symmetry; apply andb_true_iff; rewrite Z.leb_le, Z.ltb_lt; lia). rewrite Nat2Z.id. done.
Qed.

(** What stays when edges are removed. *)
Definition edges_hidden (l : list nat) (g g' : Graph) : Prop :=
  stat g' = stat g /\ nodes_ g' = nodes_ g /\ rest g' = rest g /\ edge_heap g' = edge_heap g /\
  edges_ g' = map (hide l) (edges_ g) /\ arena_nodes g' = arena_nodes g /\ free_nodes_ g' = free_nodes_ g.

Lemma edges_hidden_dropped n si so (g : Graph) h i e : wf_at n si so g -> edges_ g !! i = Some (Some e) -> static <$> h = stat g ->
  edges_hidden [e] g (dropped h i e g).
Proof using Type*. intros Hwf Hi Hh. split_and!; try done. cbn. by apply (hide_one n si so). Qed.

Lemma stat_keeps (g : Graph) (h : gmap nat Node) m x : static <$> h = stat g -> node_heap g !! m = Some x -> exists x', h !! m = Some x' /\ static x' = static x.
Proof using Type*.
  intros Hh Hx. apply (f_equal (.!! m)) in Hh. unfold stat in Hh. rewrite !lookup_fmap, Hx in Hh. destruct (h !! m) as [x'|]; [|done].
  exists x'. split; [done|]. exact (inj Some _ _ Hh).
Qed.

Lemma RemoveEdge_run (g : Graph) e x : wf g -> live_edge g e x ->
  exists g', RemoveEdge e g = Done (tt, g') /\ wf g' /\ edges_hidden [e] g g'.
Proof using Type*.
  intros Hwf He. destruct (live_edge_ends _ _ _ _ _ _ Hwf He) as [Hs Hd]. destruct He as [[i Hi] Hx].
  assert (live_edge g e x) as He by (split; [by exists i|done]). pose proof (edge_at _ _ _ _ _ _ _ Hwf Hi Hx) as Hid.
  unfold RemoveEdge, get_edge, bind at 1. rewrite Hx. destruct (live_node _ _ _ _ _ Hwf Hs) as [xs Hxs].
  destruct (erase_out_run g (src_ x) xs e (wf_ok _ _ _ _ Hwf) Hxs) as (h1 & b1 & E1 & Hb1 & (Hst1 & Hok1 & Hi1 & Ho1)).
  unfold bind at 1. rewrite E1. rewrite (proj2 Hb1); [|apply (wf_outs _ _ _ _ Hwf); left; eauto]. unfold CHECK, bind at 1.
  destruct (live_node _ _ _ _ _ Hwf Hd) as [xd0 Hxd0]. destruct (stat_keeps g h1 _ _ Hst1 Hxd0) as (xd & Hxd & _).
  destruct (erase_in_run (set_node_heap h1 g) (dst_ x) xd e Hok1 Hxd) as (h2 & b2 & E2 & Hb2 & (Hst2 & Hok2 & Hi2 & Ho2)).
  unfold bind at 1. rewrite E2. rewrite (proj2 Hb2); [|cbn; apply Hi1, (wf_ins _ _ _ _ Hwf); left; eauto].
  unfold bind at 1, get, bind at 1. cbn [edges_ num_edges_ set_node_heap]. rewrite Hid, Nat2Z.id. unfold bind at 1.
  rewrite bool_decide_eq_true_2 by done. rewrite (wf_num_edges _ _ _ _ Hwf). pose proof (count_pos _ _ _ Hi).
  unfold bind at 1. replace (0 <? count (edges_ g)) with true by (symmetry; by apply Z.ltb_lt).
  exists (dropped h2 i e g). cbn in Hst1, Hst2, Hi1, Hi2, Ho1, Ho2. split; [exact (drop_tail (set_node_heap h2 g) i e Hi)|].
  assert (static <$> h2 = stat g) as Hst by (unfold stat; by rewrite Hst2). split; [|by apply (edges_hidden_dropped 0 [] [])].
  eapply (wf_dropped 0 [] []); [done|done|split_and!; [done|done|exact Hi2|exact Ho2]| |].
  - intros m a. cbv beta. rewrite Hi1, (wf_ins _ _ _ _ Hwf). unfold live_edge. set_solver.
  - intros m a. cbv beta. rewrite Ho1, (wf_outs _ _ _ _ Hwf). unfold live_edge. set_solver.
Qed.
End GraphRemove.

(** * Removing a node with its edges *)

Lemma no_stale (P R : Prop) (e : nat) : P \/ (R /\ e ∈ []) <-> P.
Proof. split; [intros [?|[_ ?%not_elem_of_nil]]; done|by left]. Qed.

Section GraphRemoveNode.
Context {F : Type} `{FlatSetLaws F}.
#[local] Notation Graph := (Graph F).
#[local] Notation Node := (Node F).

Lemma edges_hidden_trans l1 l2 (g1 g2 g3 : Graph) : edges_hidden l1 g1 g2 -> edges_hidden l2 g2 g3 -> edges_hidden (l2 ++ l1) g1 g3.
Proof using Type*.
  intros (H1 & H2 & H3 & H4 & H5 & H6 & H7) (G1 & G2 & G3 & G4 & G5 & G6 & G7). split_and!; try congruence.
  rewrite G5, H5. apply hide_hide.
Qed.

Lemma live_hidden l (g g' : Graph) e x : edges_hidden l g g' -> live_edge g' e x <-> live_edge g e x /\ e ∉ l.
Proof using Type*.
  intros (_ & _ & _ & Hh & He & _). unfold live_edge, live. rewrite Hh, He. setoid_rewrite list_lookup_fmap. split.
  - intros [[i Hi] Hx]. destruct (edges_ g !! i) as [[a|]|] eqn:Ei; simpl in Hi; try done.
    destruct (decide (a ∈ l)); [done|]. simplify_eq. eauto.
  - intros [[[i Hi] Hx] Hl]. split; [|done]. exists i. rewrite Hi. simpl. by rewrite decide_False.
Qed.

(** ** The two loops *)
Lemma remove_in_run n si (g : Graph) e x : wf_at n si [] g -> live_edge g e x -> dst_ x = n ->
  exists g', remove_in_edge e g = Done (tt, g') /\ wf_at n (e :: si) [] g' /\ edges_hidden [e] g g'.
Proof using Type*.
  intros Hwf He Hn. destruct (live_edge_ends _ _ _ _ _ _ Hwf He) as [Hs _]. pose proof He as [[i Hi] Hx].
  unfold remove_in_edge, get_edge, bind at 1. rewrite Hx. destruct (live_node _ _ _ _ _ Hwf Hs) as [xs Hxs].
  destruct (erase_out_run g (src_ x) xs e (wf_ok _ _ _ _ Hwf) Hxs) as (h1 & b1 & E1 & Hb1 & (Hst1 & Hok1 & Hi1 & Ho1)).
  unfold bind at 1. rewrite E1, (proj2 Hb1) by (apply (wf_outs _ _ _ _ Hwf); left; eauto). unfold CHECK, bind at 1.
  rewrite (edge_at _ _ _ _ _ _ _ Hwf Hi Hx). exists (dropped h1 i e g). split; [exact (drop_tail (set_node_heap h1 g) i e Hi)|].
  split; [|by apply (edges_hidden_dropped n si [])].
  eapply (wf_dropped n si []); [done|done|split_and!; [done|done|exact Hi1|exact Ho1]| |]; intros m a; cbv beta.
  - rewrite (wf_ins _ _ _ _ Hwf). unfold live_edge in *. destruct (decide (a = e)) as [->|]; set_solver.
  - rewrite (wf_outs _ _ _ _ Hwf). unfold live_edge in *. set_solver.
Qed.

Lemma remove_out_run n so (g : Graph) e x : wf_at n [] so g -> live_edge g e x -> src_ x = n ->
  exists g', remove_out_edge e g = Done (tt, g') /\ wf_at n [] (e :: so) g' /\ edges_hidden [e] g g'.
Proof using Type*.
  intros Hwf He Hn. destruct (live_edge_ends _ _ _ _ _ _ Hwf He) as [_ Hd]. pose proof He as [[i Hi] Hx].
  unfold remove_out_edge, get_edge, bind at 1. rewrite Hx. destruct (live_node _ _ _ _ _ Hwf Hd) as [xd Hxd].
  destruct (erase_in_run g (dst_ x) xd e (wf_ok _ _ _ _ Hwf) Hxd) as (h1 & b1 & E1 & Hb1 & (Hst1 & Hok1 & Hi1 & Ho1)).
  unfold bind at 1. rewrite E1, (proj2 Hb1) by (apply (wf_ins _ _ _ _ Hwf); left; eauto). unfold CHECK, bind at 1.
  rewrite (edge_at _ _ _ _ _ _ _ Hwf Hi Hx). exists (dropped h1 i e g). split; [exact (drop_tail (set_node_heap h1 g) i e Hi)|].
  split; [|by apply (edges_hidden_dropped n [] so)].
  eapply (wf_dropped n [] so); [done|done|split_and!; [done|done|exact Hi1|exact Ho1]| |]; intros m a; cbv beta.
  - rewrite (wf_ins _ _ _ _ Hwf). unfold live_edge in *. set_solver.
  - rewrite (wf_outs _ _ _ _ Hwf). unfold live_edge in *. destruct (decide (a = e)) as [->|]; set_solver.
Qed.

(** A loop whose body removes one edge, for an invariant of what was removed. *)
Lemma remove_loop (I : list nat -> Graph -> Prop) (P : Edge -> Prop) (body : nat -> M Graph unit) :
  (forall s g e x, I s g -> live_edge g e x -> P x -> exists g', body e g = Done (tt, g') /\ I (e :: s) g' /\ edges_hidden [e] g g') ->
  forall l s g, I s g -> NoDup l -> (forall e, e ∈ l -> exists x, live_edge g e x /\ P x) ->
  exists g', for_each body l g = Done (tt, g') /\ I (reverse l ++ s) g' /\ edges_hidden l g g'.
Proof using Type*.
  intros Hbody l. induction l as [|e l IH]; intros s g Hs Hnd Hl.
  - exists g. split; [done|]. split; [done|]. split_and!; try done. rewrite <- (map_id (edges_ g)) at 1. apply map_ext.
    intros [e|]; [|done]. unfold hide. by rewrite decide_False by apply not_elem_of_nil.
  - apply NoDup_cons in Hnd as [He Hnd]. destruct (Hl e) as (x & Hx & Px); [left|].
    destruct (Hbody s g e x Hs Hx Px) as (g1 & E1 & Hs1 & Hh1). destruct (IH (e :: s) g1 Hs1 Hnd) as (g2 & E2 & Hs2 & Hh2).
    { intros a Ha. destruct (Hl a) as (y & Hy & Py); [by right|]. exists y. split; [|done]. apply (live_hidden _ _ _ _ _ Hh1). set_solver. }
    exists g2. split; [simpl; unfold bind; by rewrite E1|]. split; [by rewrite reverse_cons, <- app_assoc|].
    pose proof (edges_hidden_trans _ _ _ _ _ Hh1 Hh2) as (? & ? & ? & ? & Hm & ? & ?). split_and!; try done. rewrite Hm. apply map_ext.
    intros [a|]; [|done]. unfold hide. apply (decide_ext); set_solver.
Qed.

(** ** Clearing a set of a node *)
Lemma wf_clear n si so (g : Graph) x x' : wf_at n si so g -> node_heap g !! n = Some x -> static x' = static x -> node_ok x' ->
  (forall e, e ∈ elements_of (in_edges_ x') <-> exists y, live_edge g e y /\ dst_ y = n) ->
  (forall e, e ∈ elements_of (out_edges_ x') <-> exists y, live_edge g e y /\ src_ y = n) ->
  wf (set_node_heap (<[n := x']> (node_heap g)) g).
Proof using Type*.
  intros Hwf Hx Hs Hok Hi Ho. pose proof (stat_insert _ _ _ _ Hx Hs) as Hst. split; cbn.
  - apply map_Forall_insert_2; [done|]. apply (wf_ok _ _ _ _ Hwf).
  - intros i m Hm. unfold stat. cbn. rewrite Hst. by apply (wf_nodes _ _ _ _ Hwf).
  - apply (wf_edges _ _ _ _ Hwf).
  - intros m e. rewrite ins_insert. unfold live_edge. cbn. rewrite no_stale. case_decide; [subst; apply Hi|].
    rewrite (wf_ins _ _ _ _ Hwf). unfold live_edge. tauto.
  - intros m e. rewrite outs_insert. unfold live_edge. cbn. rewrite no_stale. case_decide; [subst; apply Ho|].
    rewrite (wf_outs _ _ _ _ Hwf). unfold live_edge. tauto.
  - unfold stat. cbn. rewrite Hst. apply (wf_free_nodes _ _ _ _ Hwf).
  - apply (wf_free_edges _ _ _ _ Hwf).
  - intros m Hm. apply (wf_arena_nodes _ _ _ _ Hwf). destruct (decide (m = n)) as [->|]; [by rewrite Hx|by rewrite lookup_insert_ne in Hm].
  - apply (wf_arena_edges _ _ _ _ Hwf).
  - apply (wf_num_nodes _ _ _ _ Hwf).
  - apply (wf_num_edges _ _ _ _ Hwf).
Qed.

(** ** Releasing a node that has no edges *)
Lemma ReleaseNode_run (g : Graph) n i x : wf g -> nodes_ g !! i = Some (Some n) -> node_heap g !! n = Some x ->
  (forall e y, live_edge g e y -> src_ y <> n /\ dst_ y <> n) ->
  exists g', ReleaseNode n g = Done (tt, g') /\ wf g' /\ nodes_ g' = <[i := None]> (nodes_ g) /\ rest g' = rest g /\
    edge_heap g' = edge_heap g /\ edges_ g' = edges_ g /\ stat g' = <[n := static (Clear x)]> (stat g).
Proof using Type*.
  intros Hwf Hi Hx Hno. destruct (wf_nodes _ _ _ _ Hwf i n Hi) as [s Hs]. pose proof (lookup_lt_Some _ _ _ Hi) as Hlt.
  assert (id_ x = Z.of_nat i) as Hid. { apply stat_lookup in Hs as (y & Hy & Hs). simplify_eq. by injection Hs. }
  unfold ReleaseNode, get_node, get, CHECK, modify, bind. rewrite Hx, Hid.
  replace (_ && _) with true by (symmetry; apply andb_true_iff; rewrite Z.leb_le, Z.ltb_lt; lia). rewrite Nat2Z.id.
  eexists. split; [reflexivity|]. split_and!; try done; [|cbn; unfold stat; cbn; by rewrite fmap_insert].
  assert (forall m j, <[i := None]> (nodes_ g) !! j = Some (Some m) -> m <> n /\ nodes_ g !! j = Some (Some m)) as Hlv.
  { intros m j [Hne Hj]%lookup_drop_id. split; [|done]. intros ->. destruct (wf_nodes _ _ _ _ Hwf j n Hj) as [s' Hs']. rewrite Hs in Hs'. by simplify_eq. }
  assert (forall m, live (nodes_ g) m -> m <> n -> live (<[i := None]> (nodes_ g)) m) as Hlv'.
  { intros m [j Hj] Hne. exists j. apply lookup_drop_id. split; [|done]. intros ->. by simplify_eq. }
  split; cbn.
  - apply map_Forall_insert_2; [|apply (wf_ok _ _ _ _ Hwf)]. split; (split; [apply NoDup_nil_2|simpl; lia]).
  - intros j m [Hne Hj]%Hlv. unfold stat. cbn. rewrite fmap_insert, lookup_insert_ne by done. by apply (wf_nodes _ _ _ _ Hwf).
  - intros j e Hj. destruct (wf_edges _ _ _ _ Hwf j e Hj) as (y & Hy & ? & ? & ?). destruct (Hno e y) as [? ?]; [by split; [exists j|]|].
    exists y. split_and!; auto.
  - intros m e. rewrite ins_insert. unfold live_edge. cbn. case_decide; [subst|by rewrite (wf_ins _ _ _ _ Hwf)].
    split; [by intros ?%not_elem_of_nil|]. intros [(y & Hy & Hd)|[_ ?%not_elem_of_nil]]; [|done]. by destruct (Hno e y Hy).
  - intros m e. rewrite outs_insert. unfold live_edge. cbn. case_decide; [subst|by rewrite (wf_outs _ _ _ _ Hwf)].
    split; [by intros ?%not_elem_of_nil|]. intros [(y & Hy & Hd)|[_ ?%not_elem_of_nil]]; [|done]. by destruct (Hno e y Hy).
  - destruct (wf_free_nodes _ _ _ _ Hwf) as [Hnd Hf]. split.
    + apply NoDup_cons. split; [|done]. intros (s' & Hs' & _)%Hf. rewrite Hs in Hs'. simplify_eq. lia.
    + intros m Hm. unfold stat. cbn. rewrite fmap_insert. destruct (decide (m = n)) as [->|Hne]; [rewrite lookup_insert_eq; eauto|].
      rewrite lookup_insert_ne by done. apply Hf. set_solver.
  - apply (wf_free_edges _ _ _ _ Hwf).
  - intros m Hm. apply (wf_arena_nodes _ _ _ _ Hwf). destruct (decide (m = n)) as [->|]; [by rewrite Hx|by rewrite lookup_insert_ne in Hm].
  - apply (wf_arena_edges _ _ _ _ Hwf).
  - rewrite (count_drop _ _ _ Hi), <- (wf_num_nodes _ _ _ _ Hwf). done.
  - apply (wf_num_edges _ _ _ _ Hwf).
Qed.

(** ** The two phases of [RemoveNode], before a rest [k] *)
Lemma wf_at_nil a b (g : Graph) : wf_at a [] [] g -> wf_at b [] [] g.
Proof using Type*.
  intros [H1 H2 H3 H4 H5 H6 H7 H8 H9 H10 H11]. split; try done.
  - intros m e. by rewrite H4, !no_stale.
  - intros m e. by rewrite H5, !no_stale.
Qed.

Lemma edges_hidden_heap l (g g' : Graph) h : edges_hidden l g g' -> static <$> h = stat g' -> edges_hidden l g (set_node_heap h g').
Proof using Type*. intros (? & ? & ? & ? & ? & ? & ?) Hh. split_and!; try done. unfold stat in *. cbn. congruence. Qed.

Lemma keeps_node l (g g' : Graph) n x : edges_hidden l g g' -> node_heap g !! n = Some x -> exists x', node_heap g' !! n = Some x' /\ static x' = static x.
Proof using Type*. intros (Hs & _) Hx. by apply (stat_keeps g). Qed.

Lemma remove_ins_run (g : Graph) n x : wf g -> node_heap g !! n = Some x ->
  exists l x' g', wf g' /\ edges_hidden l g g' /\ (forall e y, live_edge g e y -> e ∈ l <-> dst_ y = n) /\
    node_heap g' !! n = Some x' /\ static x' = static x /\
    forall k : M Graph unit,
      (x <~ get_node n;; for_each remove_in_edge (elements_of (in_edges_ x));;;
       x <~ get_node n;; put_node n (with_in empty_set x);;; k) g = k g'.
Proof using Type*.
  intros Hwf Hx. pose proof (wf_at_nil 0 n _ Hwf) as Hn. set (l := elements_of (in_edges_ x)).
  assert (forall e, e ∈ l <-> exists y, live_edge g e y /\ dst_ y = n) as Hl.
  { intros e. unfold l. rewrite <- (ins_at _ _ _ _ Hx), (wf_ins _ _ _ _ Hn). apply no_stale. }
  destruct (remove_loop (fun s g => wf_at n s [] g) (fun y => dst_ y = n) remove_in_edge) with (l := l) (s := @nil nat) (g := g)
    as (g1 & E1 & Hwf1 & Hh1); [intros; by eapply remove_in_run|done|by apply set_ok_nodup, (wf_ok _ _ _ _ Hwf n x Hx)|apply Hl|].
  destruct (keeps_node _ _ _ _ _ Hh1 Hx) as (x1 & Hx1 & Hs1). exists l, (with_in empty_set x1). eexists. split_and!.
  - apply (wf_clear n (reverse l ++ []) [] g1 x1 (with_in empty_set x1) Hwf1 Hx1); [done| | |].
    + split; [apply no_edges_ok|apply (wf_ok _ _ _ _ Hwf1 n x1 Hx1)].
    + intros e. split; [by intros ?%not_elem_of_nil|]. intros (y & [Hy He]%(live_hidden _ _ _ _ _ Hh1) & Hd). destruct He. apply Hl. eauto.
    + intros e. cbn. rewrite <- (outs_at _ _ _ _ Hx1), (wf_outs _ _ _ _ Hwf1). apply no_stale.
  - apply edges_hidden_heap; [done|]. by apply (stat_insert _ _ x1).
  - intros e y Hy. rewrite Hl. split; [|eauto]. intros (z & [_ Hz] & Hd). destruct Hy as [_ Hy]. by simplify_eq.
  - apply lookup_insert_eq.
  - done.
  - intros k. unfold get_node, put_node, modify, bind. rewrite Hx. fold l. rewrite E1, Hx1. done.
Qed.

Lemma remove_outs_run (g : Graph) n x : wf g -> node_heap g !! n = Some x ->
  exists l x' g', wf g' /\ edges_hidden l g g' /\ (forall e y, live_edge g e y -> e ∈ l <-> src_ y = n) /\
    node_heap g' !! n = Some x' /\ static x' = static x /\
    forall k : M Graph unit,
      (x <~ get_node n;; for_each remove_out_edge (elements_of (out_edges_ x));;;
       x <~ get_node n;; put_node n (with_out empty_set x);;; k) g = k g'.
Proof using Type*.
  intros Hwf Hx. pose proof (wf_at_nil 0 n _ Hwf) as Hn. set (l := elements_of (out_edges_ x)).
  assert (forall e, e ∈ l <-> exists y, live_edge g e y /\ src_ y = n) as Hl.
  { intros e. unfold l. rewrite <- (outs_at _ _ _ _ Hx), (wf_outs _ _ _ _ Hn). apply no_stale. }
  destruct (remove_loop (fun s g => wf_at n [] s g) (fun y => src_ y = n) remove_out_edge) with (l := l) (s := @nil nat) (g := g)
    as (g1 & E1 & Hwf1 & Hh1); [intros; by eapply remove_out_run|done|by apply set_ok_nodup, (wf_ok _ _ _ _ Hwf n x Hx)|apply Hl|].
  destruct (keeps_node _ _ _ _ _ Hh1 Hx) as (x1 & Hx1 & Hs1). exists l, (with_out empty_set x1). eexists. split_and!.
  - apply (wf_clear n [] (reverse l ++ []) g1 x1 (with_out empty_set x1) Hwf1 Hx1); [done| | |].
    + split; [apply (wf_ok _ _ _ _ Hwf1 n x1 Hx1)|apply no_edges_ok].
    + intros e. cbn. rewrite <- (ins_at _ _ _ _ Hx1), (wf_ins _ _ _ _ Hwf1). apply no_stale.
    + intros e. split; [by intros ?%not_elem_of_nil|]. intros (y & [Hy He]%(live_hidden _ _ _ _ _ Hh1) & Hd). destruct He. apply Hl. eauto.
  - apply edges_hidden_heap; [done|]. by apply (stat_insert _ _ x1).
  - intros e y Hy. rewrite Hl. split; [|eauto]. intros (z & [_ Hz] & Hd). destruct Hy as [_ Hy]. by simplify_eq.
  - apply lookup_insert_eq.
  - done.
  - intros k. unfold get_node, put_node, modify, bind. rewrite Hx. fold l. rewrite E1, Hx1. done.
Qed.

(** ** [RemoveNode] *)
Definition node_removed (i n : nat) (g g' : Graph) : Prop :=
  wf g' /\ nodes_ g' = <[i := None]> (nodes_ g) /\ rest g' = rest g /\ edge_heap g' = edge_heap g /\
  (forall m, m <> n -> stat g' !! m = stat g !! m) /\
  exists l, edges_ g' = map (hide l) (edges_ g) /\ forall e y, live_edge g e y -> e ∈ l <-> src_ y = n \/ dst_ y = n.

Lemma RemoveNode_run (g : Graph) i n x : wf g -> nodes_ g !! i = Some (Some n) -> node_heap g !! n = Some x ->
  exists g', RemoveNode n g = Done (tt, g') /\ node_removed i n g g' /\ free_nodes_ g' = n :: free_nodes_ g /\
    exists x', node_heap g' !! n = Some (Clear x') /\ static x' = static x.
Proof using Type*.
  intros Hwf Hi Hx. destruct (remove_ins_run g n x Hwf Hx) as (l1 & x1 & g1 & Hwf1 & Hh1 & Hl1 & Hx1 & Hs1 & E1).
  destruct (remove_outs_run g1 n x1 Hwf1 Hx1) as (l2 & x2 & g2 & Hwf2 & Hh2 & Hl2 & Hx2 & Hs2 & E2).
  pose proof (edges_hidden_trans _ _ _ _ _ Hh1 Hh2) as Hh. pose proof Hh as (Hst & Hns & Hr & Heh & Hes & Har & Hfree).
  assert (forall e y, live_edge g e y -> e ∈ l2 ++ l1 <-> src_ y = n \/ dst_ y = n) as Hl.
  { intros e y Hy. rewrite elem_of_app, (Hl1 e y Hy). destruct (decide (dst_ y = n)) as [|Hd]; [tauto|].
    rewrite (Hl2 e y); [tauto|]. apply (live_hidden _ _ _ _ _ Hh1). split; [done|]. by rewrite (Hl1 e y Hy). }
  destruct (ReleaseNode_run g2 n i x2 Hwf2) as (g3 & E3 & Hwf3 & Hn3 & Hr3 & Heh3 & Hes3 & Hst3); [by rewrite Hns|done| |].
  { intros e y Hy. apply (live_hidden _ _ _ _ _ Hh) in Hy as [Hy He]. rewrite (Hl e y Hy) in He. tauto. }
  exists g3. unfold RemoveNode. rewrite E1, E2, E3. split; [done|]. split.
  - split_and!; try congruence.
    + intros m Hm. by rewrite Hst3, lookup_insert_ne, Hst by done.
    + exists (l2 ++ l1). split; [congruence|done].
  - revert E3. unfold ReleaseNode, get_node, get, modify, bind. rewrite Hx2. destruct (CHECK _ _) as [[? ?]| |] eqn:Ec; try done. intros [= <-].
    unfold CHECK in Ec. case_match; [|done]. injection Ec as <- <-. cbn. split; [by rewrite Hfree|]. exists x2. rewrite lookup_insert_eq. split; [done|by rewrite Hs2].
Qed.

Lemma abs_node_removed (g g' : Graph) i n : wf g -> nodes_ g !! i = Some (Some n) -> node_removed i n g g' -> abs g' = a_remove_node i (abs g).
Proof using Type*.
  intros Hwf Hi (Hwf' & Hn & _ & Heh & Hst & l & Hes & Hl). unfold abs, a_remove_node. simpl. f_equal.
  - rewrite Hn. apply list_eq. intros j. rewrite !list_lookup_fmap. destruct (decide (j = i)) as [->|Hne].
    + pose proof (lookup_lt_Some _ _ _ Hi). rewrite !list_lookup_insert_eq by (rewrite ?length_map; done). done.
    + rewrite !list_lookup_insert_ne, list_lookup_fmap by done. destruct (nodes_ g !! j) as [[m|]|] eqn:Ej; [|done|done]. simpl.
      unfold abs_node. rewrite Hst; [done|]. intros ->. apply Hne. assert (live (nodes_ g) n) as Hlv by (by exists i).
      apply (id_of_live _ _ _ _ _ _ Hwf Hlv) in Hi, Ej. congruence.
  - rewrite Hes, !map_map. apply list_eq. intros j. rewrite !list_lookup_fmap. destruct (edges_ g !! j) as [[e|]|] eqn:Ej; [|done|done].
    simpl. f_equal. destruct (wf_edges _ _ _ _ Hwf j e Ej) as (y & Hy & _ & Hs & Hd).
    assert (live_edge g e y) as He by (split; [by exists j|done]). destruct (live_stat _ _ _ _ _ Hwf Hs) as (ks & ss & His & _).
    destruct (live_stat _ _ _ _ _ Hwf Hd) as (kd & sd & Hid & _).
    pose proof (proj2 (id_of_live _ _ _ _ _ _ Hwf Hs) His) as Is. pose proof (proj2 (id_of_live _ _ _ _ _ _ Hwf Hd) Hid) as Id.
    assert (touches i (mkAEdge ks (src_output_ y) kd (dst_input_ y)) = true <-> src_ y = n \/ dst_ y = n) as Ht.
    { unfold touches. cbn. rewrite orb_true_iff, !Nat.eqb_eq. split; (intros [E|E]; [left|right]); subst; try congruence.
      - pose proof (proj2 (id_of_live _ _ _ _ _ _ Hwf Hs) Hi). congruence.
      - pose proof (proj2 (id_of_live _ _ _ _ _ _ Hwf Hd) Hi). congruence. }
    unfold abs_edge at 2. rewrite Hy. simpl. rewrite Is, Id. simpl. case_decide as Hd'.
    + rewrite (Hl e y He) in Hd'. by rewrite (proj2 Ht Hd').
    + rewrite (Hl e y He) in Hd'. destruct (touches _ _); [tauto|]. simpl. unfold abs_edge, id_of. rewrite Heh, Hy. simpl.
      rewrite !Hst by tauto. unfold id_of in Is, Id. by rewrite Is, Id.
Qed.
End GraphRemoveNode.
