(* ===== verification/GraphUpdate.v ===== *)
(** * Allocating nodes and changing what they hold *)
From S2P Require Import Prelude FlatRep EdgeSet Graph GraphInv.
From stdpp Require Import list gmap strings options.
#[local] Open Scope Z_scope.
#[local] Open Scope tf_monad_scope.

Section GraphNodes.
Context {F : Type} `{FlatSetLaws F}.
#[local] Notation Graph := (Graph F).
#[local] Notation Node := (Node F).

(** ** A place for a new node *)

(** The object [AllocateNode] takes: its number, its contents, the arena and
    the free list after it. *)
Definition node_slot (g : Graph) : nat * option Node * nat * list nat :=
  match free_nodes_ g with
  | [] => (arena_nodes g, Some Node_new, S (arena_nodes g), [])
  | n :: free => (n, node_heap g !! n, arena_nodes g, free)
  end.

Lemma new_node_slot (g : Graph) : wf g -> exists n x arena free, node_slot g = (n, Some x, arena, free) /\
  ~ live (nodes_ g) n /\ (forall e, ~ ins (node_heap g) n e /\ ~ outs (node_heap g) n e) /\ node_ok x /\
  elements_of (in_edges_ x) = [] /\ elements_of (out_edges_ x) = [] /\ assigned_device_name_index_ x = 0 /\
  (n < arena)%nat /\ (arena_nodes g <= arena)%nat /\ NoDup free /\ ~ (n ∈ free) /\ (forall m, m ∈ free -> m ∈ free_nodes_ g) /\
  (free_nodes_ g = [] -> x = Node_new /\ free = []).
Proof using Type*.
  intros Hwf. assert (forall m, ~ live (nodes_ g) m -> forall e, ~ ins (node_heap g) m e /\ ~ outs (node_heap g) m e) as Hno.
  { intros m Hm e. rewrite (wf_ins _ _ _ _ Hwf), (wf_outs _ _ _ _ Hwf).
    split; (intros [(y & He & <-)|[_ ?%not_elem_of_nil]]; [|done]); by destruct (live_edge_ends _ _ _ _ _ _ Hwf He). }
  destruct (wf_free_nodes _ _ _ _ Hwf) as [Hnd Hf]. unfold node_slot. destruct (free_nodes_ g) as [|n free].
  - assert (~ live (nodes_ g) (arena_nodes g)) as Hlv.
    { intros [x Hx]%(live_node _ _ _ _ _ Hwf). assert (is_Some (node_heap g !! arena_nodes g)) as Hs by eauto.
      apply (wf_arena_nodes _ _ _ _ Hwf) in Hs. lia. }
    eexists _, Node_new, _, _. split; [reflexivity|]. assert (node_ok (F := F) Node_new) by (split; apply no_edges_ok).
    split_and!; try done; [by apply Hno|lia|lia|apply not_elem_of_nil].
  - apply NoDup_cons in Hnd as [Hn Hnd]. destruct (Hf n) as (s & Hs & Hdev); [left|]. apply stat_lookup in Hs as (x & Hx & Hs).
    assert (~ live (nodes_ g) n) as Hlv.
    { intros (i & s' & _ & Hs')%(live_stat _ _ _ _ _ Hwf). unfold stat in Hs'. rewrite lookup_fmap, Hx in Hs'. simpl in Hs'.
      apply (inj Some) in Hs'. rewrite Hs in Hs'. simplify_eq. lia. }
    pose proof (Hno n Hlv) as Hnone. eexists n, x, _, _. rewrite Hx. split; [reflexivity|]. split_and!; try done.
    + by apply (wf_ok _ _ _ _ Hwf n x).
    + apply elem_of_nil_inv. intros e He. destruct (Hnone e) as [Hi _]. apply Hi. by apply (ins_at _ _ _ _ Hx).
    + apply elem_of_nil_inv. intros e He. destruct (Hnone e) as [_ Ho]. apply Ho. by apply (outs_at _ _ _ _ Hx).
    + unfold static in Hs. by simplify_eq/=.
    + apply (wf_arena_nodes _ _ _ _ Hwf). eauto.
    + by right.
Qed.

(** ** [AllocateNode] *)
Definition node_added (n : nat) (i : NodeInfo) (g g' : Graph) : Prop :=
  wf g' /\ nodes_ g' = nodes_ g ++ [Some n] /\ rest g' = rest g /\ edge_heap g' = edge_heap g /\ edges_ g' = edges_ g /\
  ~ live (nodes_ g) n /\ stat g' = <[n := (Z.of_nat (length (nodes_ g)), i)]> (stat g).

Lemma wf_add_node (g : Graph) n x arena free : wf g -> ~ live (nodes_ g) n ->
  (forall e, ~ ins (node_heap g) n e /\ ~ outs (node_heap g) n e) -> node_ok x ->
  elements_of (in_edges_ x) = [] -> elements_of (out_edges_ x) = [] -> id_ x = Z.of_nat (length (nodes_ g)) ->
  (n < arena)%nat -> (arena_nodes g <= arena)%nat -> NoDup free -> n ∉ free -> (forall m, m ∈ free -> m ∈ free_nodes_ g) ->
  wf (set_nodes (<[n := x]> (node_heap g)) arena (nodes_ g ++ [Some n]) (num_nodes_ g + 1) free g).
Proof using Type*.
  intros Hwf Hlv Hnone Hok Hin Hout Hid Hna Har Hnd Hnf Hfree. split; cbn.
  - apply map_Forall_insert_2; [done|apply (wf_ok _ _ _ _ Hwf)].
  - intros i m Hi. unfold stat. cbn. rewrite fmap_insert. apply lookup_app_Some in Hi as [Hi|[Hge Hi]].
    + rewrite lookup_insert_ne; [by apply (wf_nodes _ _ _ _ Hwf)|]. intros ->. apply Hlv. by exists i.
    + destruct (i - length (nodes_ g))%nat eqn:Ei; [|done]. simpl in Hi. simplify_eq. rewrite lookup_insert_eq. unfold static. rewrite Hid.
      replace i with (length (nodes_ g)) by lia. eauto.
  - intros i e Hi. destruct (wf_edges _ _ _ _ Hwf i e Hi) as (y & Hy & ? & ? & ?). exists y. rewrite !live_app. auto.
  - intros m e. rewrite ins_insert. case_decide; [subst; rewrite Hin|apply (wf_ins _ _ _ _ Hwf)].
    pose proof (wf_ins _ _ _ _ Hwf n e) as Hi. destruct (Hnone e). unfold live_edge in *. cbn. split; [by intros ?%not_elem_of_nil|tauto].
  - intros m e. rewrite outs_insert. case_decide; [subst; rewrite Hout|apply (wf_outs _ _ _ _ Hwf)].
    pose proof (wf_outs _ _ _ _ Hwf n e) as Hi. destruct (Hnone e). unfold live_edge in *. cbn. split; [by intros ?%not_elem_of_nil|tauto].
  - split; [done|]. intros m Hm. unfold stat. cbn. rewrite fmap_insert, lookup_insert_ne by (by intros ->).
    by apply (wf_free_nodes _ _ _ _ Hwf), Hfree.
  - apply (wf_free_edges _ _ _ _ Hwf).
  - intros m Hm. destruct (decide (m = n)) as [->|]; [done|]. rewrite lookup_insert_ne in Hm by done. apply (wf_arena_nodes _ _ _ _ Hwf) in Hm. lia.
  - apply (wf_arena_edges _ _ _ _ Hwf).
  - rewrite count_app, <- (wf_num_nodes _ _ _ _ Hwf). done.
  - apply (wf_num_edges _ _ _ _ Hwf).
Qed.

Lemma AllocateNode_run (g : Graph) props cost cls : wf g ->
  exists n w t g', AllocateNode props cost cls g = Done (n, g') /\
    node_added n (mkInfo (match cost with Some c => cost_id_ c | None => Z.of_nat (length (nodes_ g)) end) cls props 0 w t) g g' /\
    (free_nodes_ g = [] -> w = None /\ t = None /\ free_nodes_ g' = [] /\
       exists x', node_heap g' !! n = Some x' /\ in_edges_ x' = empty_set /\ out_edges_ x' = empty_set) /\
    (forall m free x, free_nodes_ g = m :: free -> node_heap g !! m = Some x -> n = m /\ w = while_ctx_ x /\ t = stack_trace_ x).
Proof using Type*.
  intros Hwf. destruct (new_node_slot g Hwf) as (n & x & arena & free & Es & Hlv & Hnone & Hok & Hin & Hout & Hdev & Hna & Har & Hnd & Hnf & Hfree & Hnew).
  unfold AllocateNode. unfold node_slot in Es. destruct (match free_nodes_ g with [] => _ | _ => _ end) as [[[n' x'] a'] f'] eqn:E in Es |- *.
  simplify_eq. eexists n, (while_ctx_ x), (stack_trace_ x), _. split; [reflexivity|]. split; [split_and!; try done|split].
  - by apply wf_add_node.
  - unfold stat. cbn. rewrite fmap_insert. f_equal. unfold static, Initialize, info. cbn. by rewrite Hdev.
  - intros Hf. destruct (Hnew Hf) as [-> ->]. split_and!; try done. eexists. cbn. rewrite lookup_insert_eq. done.
  - intros m fr y Hf Hy. rewrite Hf in E. simplify_eq. done.
Qed.

Lemma abs_node_added (g g' : Graph) n i : wf g -> node_added n i g g' -> abs g' = a_add_node i (abs g).
Proof using Type*.
  intros Hwf (_ & Hn & _ & Heh & Hes & Hlv & Hst). unfold abs, a_add_node. simpl. f_equal.
  - rewrite Hn, map_app. simpl. f_equal; [|unfold abs_node; by rewrite Hst, lookup_insert_eq].
    apply list_eq. intros j. rewrite !list_lookup_fmap. destruct (nodes_ g !! j) as [[m|]|] eqn:Ej; [|done|done]. simpl.
    unfold abs_node. rewrite Hst, lookup_insert_ne; [done|]. intros ->. apply Hlv. by exists j.
  - rewrite Hes. apply list_eq. intros j. rewrite !list_lookup_fmap. destruct (edges_ g !! j) as [[e|]|] eqn:Ej; [|done|done]. simpl. f_equal.
    destruct (wf_edges _ _ _ _ Hwf j e Ej) as (y & Hy & _ & Hs & Hd). unfold abs_edge, id_of. rewrite Heh, Hy. simpl.
    rewrite !Hst, !lookup_insert_ne by (intros E; apply Hlv; by rewrite E). done.
Qed.

(** ** A node that holds something else *)
Definition node_set (i n : nat) (v : NodeInfo) (g g' : Graph) : Prop :=
  wf g' /\ nodes_ g' = nodes_ g /\ rest g' = rest g /\ edge_heap g' = edge_heap g /\ edges_ g' = edges_ g /\
  free_nodes_ g' = free_nodes_ g /\ stat g' = <[n := (Z.of_nat i, v)]> (stat g).

Lemma put_info_run (g : Graph) i n x x' : wf g -> nodes_ g !! i = Some (Some n) -> node_heap g !! n = Some x ->
  id_ x' = id_ x -> in_edges_ x' = in_edges_ x -> out_edges_ x' = out_edges_ x ->
  exists g', put_node n x' g = Done (tt, g') /\ node_set i n (info x') g g' /\ node_heap g' = <[n := x']> (node_heap g).
Proof using Type*.
  intros Hwf Hi Hx Hid Hin Hout. destruct (wf_nodes _ _ _ _ Hwf i n Hi) as [s Hs]. apply stat_lookup in Hs as (y & Hy & Hs). rewrite Hx in Hy. injection Hy as <-.
  assert (id_ x = Z.of_nat i) as Hidy by (by injection Hs). unfold put_node, modify. eexists. split; [reflexivity|]. split; [|done].
  assert (static <$> <[n := x']> (node_heap g) = <[n := (Z.of_nat i, info x')]> (stat g)) as Hst.
  { rewrite fmap_insert. f_equal. unfold static. by rewrite Hid, Hidy. }
  split_and!; try done. pose proof (wf_ok _ _ _ _ Hwf n x Hx) as Hok. split; cbn.
  - apply map_Forall_insert_2; [|apply (wf_ok _ _ _ _ Hwf)]. unfold node_ok. by rewrite Hin, Hout.
  - intros j m Hj. unfold stat. cbn. rewrite Hst. destruct (decide (m = n)) as [->|]; [rewrite lookup_insert_eq|].
    + assert (live (nodes_ g) n) as Hlv by (by exists i). apply (id_of_live _ _ _ _ _ _ Hwf Hlv) in Hi, Hj. simplify_eq. eauto.
    + rewrite lookup_insert_ne by done. by apply (wf_nodes _ _ _ _ Hwf).
  - apply (wf_edges _ _ _ _ Hwf).
  - intros m e. rewrite ins_insert, Hin, same_ins by done. apply (wf_ins _ _ _ _ Hwf).
  - intros m e. rewrite outs_insert, Hout, same_outs by done. apply (wf_outs _ _ _ _ Hwf).
  - destruct (wf_free_nodes _ _ _ _ Hwf) as [Hnd Hf]. split; [done|]. intros m Hm. unfold stat. cbn. rewrite Hst.
    destruct (Hf m Hm) as (s' & Hs' & ?). rewrite lookup_insert_ne; [eauto|]. intros ->.
    unfold stat in Hs'. rewrite lookup_fmap, Hx in Hs'. apply (inj Some) in Hs'. rewrite Hs in Hs'. simplify_eq. lia.
  - apply (wf_free_edges _ _ _ _ Hwf).
  - intros m Hm. apply (wf_arena_nodes _ _ _ _ Hwf). destruct (decide (m = n)) as [->|]; [by rewrite Hx|by rewrite lookup_insert_ne in Hm].
  - apply (wf_arena_edges _ _ _ _ Hwf).
  - apply (wf_num_nodes _ _ _ _ Hwf).
  - apply (wf_num_edges _ _ _ _ Hwf).
Qed.

Lemma id_of_node_set (g g' : Graph) i n v m : wf g -> nodes_ g !! i = Some (Some n) -> node_set i n v g g' -> id_of g' m = id_of g m.
Proof using Type*.
  intros Hwf Hi (_ & _ & _ & _ & _ & _ & Hst). unfold id_of. rewrite Hst. destruct (decide (m = n)) as [->|]; [|by rewrite lookup_insert_ne].
  rewrite lookup_insert_eq. destruct (wf_nodes _ _ _ _ Hwf i n Hi) as [s Hs]. by rewrite Hs.
Qed.

Lemma abs_node_set (g g' : Graph) i n v : wf g -> nodes_ g !! i = Some (Some n) -> node_set i n v g g' -> abs g' = a_set_node i v (abs g).
Proof using Type*.
  intros Hwf Hi Hset. pose proof Hset as (_ & Hn & _ & Heh & Hes & _ & Hst). unfold abs, a_set_node. simpl. f_equal.
  - rewrite Hn. apply list_eq. intros j. rewrite list_lookup_fmap. destruct (decide (j = i)) as [->|Hne].
    + pose proof (lookup_lt_Some _ _ _ Hi). rewrite list_lookup_insert_eq by (by rewrite length_map). rewrite Hi. simpl.
      unfold abs_node. by rewrite Hst, lookup_insert_eq.
    + rewrite list_lookup_insert_ne, list_lookup_fmap by done. destruct (nodes_ g !! j) as [[m|]|] eqn:Ej; [|done|done]. simpl.
      unfold abs_node. rewrite Hst, lookup_insert_ne; [done|]. intros ->. apply Hne. assert (live (nodes_ g) m) as Hlv by (by exists i).
      apply (id_of_live _ _ _ _ _ _ Hwf Hlv) in Hi, Ej. congruence.
  - rewrite Hes. apply map_ext. intros [e|]; [|done]. simpl. unfold abs_edge. rewrite Heh. destruct (edge_heap g !! e); [|done]. simpl.
    by rewrite !(id_of_node_set g g' i n v) by done.
Qed.
End GraphNodes.

(** * Control edges, updates of inputs and validity *)

(** ** The abstract operations *)
Definition is_control (e : AEdge) : bool := a_out e =? kControlSlot.

Definition has_edge (p : AEdge -> bool) (a : AGraph) : bool :=
  existsb (fun o => match o with Some e => p e | None => false end) (a_edges a).

Definition set_inputs (l : list string) (i : NodeInfo) : NodeInfo :=
  let d := node_def (info_props i) in
  mkInfo (info_cost i) (info_class i)
    (mkProps (mkNodeDef (def_name d) (def_op d) l (def_device d)) (input_types (info_props i)) (output_types (info_props i)))
    (info_device i) (info_while i) (info_trace i).

Definition info_inputs (i : NodeInfo) : list string := def_input (node_def (info_props i)).

Definition info_name (i : NodeInfo) : string := def_name (node_def (info_props i)).

(** The [NodeDef] of [d] with the control input from [s], unless it has it. *)
Definition a_add_control_input (s d : nat) (a : AGraph) : AGraph :=
  match a_nodes a !! s, a_nodes a !! d with
  | Some (Some si), Some (Some di) =>
      let name := control_name (info_name si) in
      if (s =? 0)%nat || (d =? 1)%nat || bool_decide (name ∈ info_inputs di) then a
      else a_set_node d (set_inputs (info_inputs di ++ [name]) di) a
  | _, _ => a
  end.

Definition a_remove_control_input (s d : nat) (a : AGraph) : AGraph :=
  match a_nodes a !! s, a_nodes a !! d with
  | Some (Some si), Some (Some di) =>
      if (s =? 0)%nat || (d =? 1)%nat then a
      else a_set_node d (set_inputs (erase_first (control_name (info_name si)) (info_inputs di)) di) a
  | _, _ => a
  end.

Definition a_control_edge (s d : nat) : AEdge := mkAEdge s kControlSlot d kControlSlot.

(** The new graph, and whether an edge was added. *)
Definition a_add_control (s d : nat) (allow_duplicates : bool) (a : AGraph) : AGraph * bool :=
  if negb allow_duplicates && has_edge (fun e => is_control e && (a_src e =? s)%nat && (a_dst e =? d)%nat) a then (a, false)
  else (a_add_edge (a_control_edge s d) (if allow_duplicates then a else a_add_control_input s d a), true).

Section GraphControl.
Context {F : Type} `{FlatSetLaws F}.
#[local] Notation Graph := (Graph F).
#[local] Notation Node := (Node F).

(** ** Objects and ids *)
Lemma abs_node_at (g : Graph) i n x : nodes_ g !! i = Some (Some n) -> node_heap g !! n = Some x -> a_nodes (abs g) !! i = Some (Some (info x)).
Proof using Type*.
  intros Hi Hx. unfold abs. cbn. rewrite list_lookup_fmap, Hi. simpl. unfold abs_node, stat. by rewrite lookup_fmap, Hx.
Qed.

Lemma node_id (g : Graph) i n x : wf g -> nodes_ g !! i = Some (Some n) -> node_heap g !! n = Some x -> id_ x = Z.of_nat i.
Proof using Type*.
  intros Hwf Hi Hx. destruct (wf_nodes _ _ _ _ Hwf i n Hi) as [s Hs]. unfold stat in Hs. rewrite lookup_fmap, Hx in Hs.
  apply (inj Some) in Hs. by injection Hs.
Qed.

Lemma IsSource_id (x : Node) i : id_ x = Z.of_nat i -> IsSource x = (i =? 0)%nat.
Proof using Type*. intros Hi. unfold IsSource. rewrite Hi. destruct (Nat.eqb_spec i 0); [apply Z.eqb_eq|apply Z.eqb_neq]; lia. Qed.

Lemma IsSink_id (x : Node) i : id_ x = Z.of_nat i -> IsSink x = (i =? 1)%nat.
Proof using Type*. intros Hi. unfold IsSink. rewrite Hi. destruct (Nat.eqb_spec i 1); [apply Z.eqb_eq|apply Z.eqb_neq]; lia. Qed.

Lemma same_node (g : Graph) i n m : wf g -> nodes_ g !! i = Some (Some n) -> live (nodes_ g) m -> id_of g m = Some i <-> m = n.
Proof using Type*. intros Hwf Hi Hm. rewrite (id_of_live _ _ _ _ _ _ Hwf Hm). split; [congruence|by intros ->]. Qed.

Lemma id_of_at (g : Graph) i n : wf g -> nodes_ g !! i = Some (Some n) -> id_of g n = Some i.
Proof using Type*. intros Hwf Hi. apply (id_of_live _ _ _ _ _ _ Hwf); [by exists i|done]. Qed.

Lemma abs_edge_removed (g g' : Graph) i e : wf g -> edges_ g !! i = Some (Some e) -> edges_hidden [e] g g' -> abs g' = a_remove_edge i (abs g).
Proof using Type*.
  intros Hwf Hi (Hst & Hn & _ & Heh & Hes & _). unfold a_remove_edge. rewrite <- (a_nodes_eq g g') by done. unfold abs at 1 2. simpl. f_equal.
  rewrite Hes, <- (hide_one 0 [] [] g i e) by done. rewrite list_fmap_insert. f_equal. apply map_ext. intros [a|]; [|done]. simpl.
  apply abs_edge_eq; [done|by rewrite Heh].
Qed.

(** The edges into a node, seen from the abstract graph. *)
Lemma abs_edge_live (g : Graph) j e x : wf g -> edges_ g !! j = Some (Some e) -> edge_heap g !! e = Some x ->
  exists s d, nodes_ g !! s = Some (Some (src_ x)) /\ nodes_ g !! d = Some (Some (dst_ x)) /\
    a_edges (abs g) !! j = Some (Some (mkAEdge s (src_output_ x) d (dst_input_ x))).
Proof using Type*.
  intros Hwf Hj Hx. destruct (live_edge_ends _ _ _ _ e x Hwf) as [[s Hs] [d Hd]]; [by split; [exists j|]|]. exists s, d. split_and!; [done|done|].
  unfold abs. cbn. rewrite list_lookup_fmap, Hj. simpl. f_equal. unfold abs_edge. rewrite Hx. simpl. by rewrite (id_of_at g s _ Hwf Hs), (id_of_at g d _ Hwf Hd).
Qed.

Lemma has_in_edge (g : Graph) d n x (p : Edge -> bool) (q : AEdge -> bool) : wf g -> nodes_ g !! d = Some (Some n) -> node_heap g !! n = Some x ->
  (forall j e y s, edges_ g !! j = Some (Some e) -> edge_heap g !! e = Some y -> nodes_ g !! s = Some (Some (src_ y)) ->
     dst_ y = n -> p y = q (mkAEdge s (src_output_ y) d (dst_input_ y))) ->
  (forall e, q e = true -> a_dst e = d) ->
  (exists e y, e ∈ elements_of (in_edges_ x) /\ edge_heap g !! e = Some y /\ p y = true) <-> has_edge q (abs g) = true.
Proof using Type*.
  intros Hwf Hd Hx Hpq Hq. unfold has_edge. rewrite existsb_exists. split.
  - intros (e & y & He & Hy & Hp). rewrite <- (ins_at _ _ _ _ Hx), (wf_ins _ _ _ _ Hwf) in He.
    destruct He as [(y' & [[j Hj] Hy'] & Hn)|[_ ?%not_elem_of_nil]]; [|done]. assert (y' = y) as -> by congruence. subst n.
    destruct (abs_edge_live g j e y Hwf Hj Hy) as (s & d' & Hs & Hd' & Ha). assert (d' = d) as ->.
    { pose proof (id_of_at g d' _ Hwf Hd'). pose proof (id_of_at g d _ Hwf Hd). congruence. }
    eexists. split; [apply list_elem_of_In, list_elem_of_lookup; exists j; exact Ha|]. simpl. rewrite <- (Hpq j e y s); done.
  - intros ([ae|] & Hin & Hae); [|done]. apply list_elem_of_In, list_elem_of_lookup in Hin as [j Hj]. pose proof Hj as Hj'.
    unfold abs in Hj'. cbn in Hj'. rewrite list_lookup_fmap in Hj'. destruct (edges_ g !! j) as [[e|]|] eqn:Ej; simpl in Hj'; try done.
    destruct (wf_edges _ _ _ _ Hwf j e Ej) as (y & Hy & _). destruct (abs_edge_live g j e y Hwf Ej Hy) as (s & d' & Hs & Hd' & Ha).
    assert (ae = mkAEdge s (src_output_ y) d' (dst_input_ y)) as -> by congruence. pose proof (Hq _ Hae) as Hdd. cbn in Hdd. subst d'.
    assert (dst_ y = n) as Hn by congruence. exists e, y. split_and!; [|done|].
    + rewrite <- (ins_at _ _ _ _ Hx), (wf_ins _ _ _ _ Hwf). left. exists y. split; [|done]. split; [by exists j|done].
    + by rewrite (Hpq j e y s).
Qed.

(** Every edge in the set of a node is an object. *)
Lemma in_edge_object (g : Graph) n x e : wf g -> node_heap g !! n = Some x -> e ∈ elements_of (in_edges_ x) ->
  exists y, live_edge g e y /\ dst_ y = n.
Proof using Type*.
  intros Hwf Hx He. rewrite <- (ins_at _ _ _ _ Hx), (wf_ins _ _ _ _ Hwf) in He. by destruct He as [?|[_ ?%not_elem_of_nil]].
Qed.

Lemma control_edge_from_spec (g : Graph) s l : (forall e, e ∈ l -> is_Some (edge_heap g !! e)) ->
  exists b, control_edge_from g s l = Done b /\
    (b = true <-> exists e y, e ∈ l /\ edge_heap g !! e = Some y /\ IsControlEdge y && (src_ y =? s)%nat = true).
Proof using Type*.
  induction l as [|e l IH]; intros Hl; simpl.
  - exists false. split; [done|]. split; [done|]. by intros (? & ? & ?%not_elem_of_nil & _).
  - destruct (Hl e) as [y Hy]; [left|]. rewrite Hy. destruct (IsControlEdge y && (src_ y =? s)%nat) eqn:Ec.
    + exists true. split; [done|]. split; [|done]. intros _. exists e, y. split_and!; [left|done|done].
    + destruct IH as (b & -> & Hb); [intros a Ha; apply Hl; by right|]. exists b. split; [done|]. rewrite Hb. split.
      * intros (a & z & Ha & ?). exists a, z. split; [by right|done].
      * intros (a & z & [->|Ha]%elem_of_cons & Hz & Hp); [congruence|]. eauto.
Qed.

(** ** [AddControlEdge] *)
Lemma add_control_input_run (g : Graph) s d n m xs xd : wf g -> nodes_ g !! s = Some (Some n) -> nodes_ g !! d = Some (Some m) ->
  node_heap g !! n = Some xs -> node_heap g !! m = Some xd ->
  exists g', add_control_input xs xd m g = Done (tt, g') /\ wf g' /\ abs g' = a_add_control_input s d (abs g) /\
    nodes_ g' = nodes_ g /\ edges_ g' = edges_ g /\ rest g' = rest g /\ free_nodes_ g' = free_nodes_ g.
Proof using Type*.
  intros Hwf Hs Hd Hxs Hxd. pose proof (node_id _ _ _ _ Hwf Hs Hxs) as Is. pose proof (node_id _ _ _ _ Hwf Hd Hxd) as Id.
  unfold add_control_input, a_add_control_input. rewrite (abs_node_at g s n xs Hs Hxs), (abs_node_at g d m xd Hd Hxd).
  replace (IsSource xs) with (s =? 0)%nat by (by rewrite (IsSource_id _ _ Is)).
  replace (IsSink xd) with (d =? 1)%nat by (by rewrite (IsSink_id _ _ Id)).
  destruct (s =? 0)%nat; [exists g; done|]. destruct (d =? 1)%nat; [exists g; done|].
  change (info_name (info xs)) with (node_name xs). change (info_inputs (info xd)) with (def_input (node_def (props_ xd))). simpl.
  case_bool_decide; [exists g; done|].
  destruct (put_info_run g d m xd (with_input (def_input (node_def (props_ xd)) ++ [control_name (node_name xs)]) xd) Hwf Hd Hxd)
    as (g' & E & Hset & _); try done. exists g'. split; [done|]. pose proof Hset as (? & ? & ? & ? & ? & ? & ?).
  split_and!; try done. by rewrite (abs_node_set g g' d m _ Hwf Hd Hset).
Qed.

Lemma AddControlEdge_run (g : Graph) s d n m allow : wf g -> room g -> nodes_ g !! s = Some (Some n) -> nodes_ g !! d = Some (Some m) ->
  exists r g', AddControlEdge n m allow g = Done (r, g') /\ wf g' /\ abs g' = (a_add_control s d allow (abs g)).1 /\
    nodes_ g' = nodes_ g /\ rest g' = rest g /\ free_nodes_ g' = free_nodes_ g /\
    match r with
    | None => (a_add_control s d allow (abs g)).2 = false /\ g' = g
    | Some e => (a_add_control s d allow (abs g)).2 = true /\ edges_ g' = edges_ g ++ [Some e]
    end.
Proof using Type*.
  intros Hwf Hroom Hs Hd. destruct (live_node _ _ _ _ n Hwf) as [xs Hxs]; [by exists s|]. destruct (live_node _ _ _ _ m Hwf) as [xd Hxd]; [by exists d|].
  destruct (control_edge_from_spec g n (elements_of (in_edges_ xd))) as (b & Eb & Hb).
  { intros e (y & [_ Hy] & _)%(in_edge_object g m xd e Hwf Hxd). eauto. }
  set (q := fun e => is_control e && (a_src e =? s)%nat && (a_dst e =? d)%nat).
  assert (b = has_edge q (abs g)) as Hbq.
  { apply eq_bool_prop_intro. rewrite !Is_true_true, Hb. apply (has_in_edge g d m xd (fun y => IsControlEdge y && (src_ y =? n)%nat)); try done.
    - intros j e y s' Hj Hy Hs' Hn. unfold q, is_control, IsControlEdge. cbn. rewrite Nat.eqb_refl, andb_true_r. f_equal.
      apply eq_bool_prop_intro. rewrite !Is_true_true, !Nat.eqb_eq. pose proof (id_of_at g s' _ Hwf Hs'). pose proof (id_of_at g s _ Hwf Hs).
      split; intros; subst; congruence.
    - intros e. unfold q. rewrite !andb_true_iff, !Nat.eqb_eq. tauto. }
  unfold AddControlEdge, a_add_control, get, get_node, lift, bind at 1. fold q. rewrite <- Hbq. unfold bind at 1. rewrite Hxd.
  destruct (negb allow && b) eqn:Eab.
  - apply andb_true_iff in Eab as [->%negb_true_iff ->]. unfold bind at 1. rewrite Eb. exists None, g. done.
  - assert ((if allow then ret false else fun s0 : Graph => match control_edge_from g n (elements_of (in_edges_ xd)) with
      Done a => Done (a, s0) | Crash => Crash | OutOfFuel => OutOfFuel end) g = Done (false, g)) as E0.
    { destruct allow; [done|]. rewrite Eb. simpl in Eab. by rewrite Eab. }
    unfold bind at 1. rewrite E0. unfold bind at 1. rewrite Hxs.
    assert (exists g1, (if negb allow then add_control_input xs xd m else ret tt) g = Done (tt, g1) /\ wf g1 /\ abs g1 = (if allow then abs g else a_add_control_input s d (abs g)) /\
      nodes_ g1 = nodes_ g /\ edges_ g1 = edges_ g /\ rest g1 = rest g /\ free_nodes_ g1 = free_nodes_ g) as (g1 & E1 & Hwf1 & Ha1 & Hn1 & He1 & Hr1 & Hf1).
    { destruct allow; [by exists g|]. by apply (add_control_input_run g s d n m). }
    unfold bind at 1. rewrite E1. destruct (AddEdge_run g1 n kControlSlot m kControlSlot Hwf1) as (e & g2 & E2 & Hadd); [unfold room; by rewrite He1|rewrite Hn1; by exists s|rewrite Hn1; by exists d|].
    unfold bind. rewrite E2. exists (Some e), g2. split; [done|]. pose proof Hadd as (? & ? & Hn2 & Hr2 & _ & He2 & _ & Hf2).
    split_and!; try (done || congruence). rewrite (abs_edge_added g1 g2 e _ s d Hadd), Ha1; [by destruct allow| |];
      apply id_of_at; cbn; rewrite ?Hn1; done.
Qed.

(** ** [RemoveControlEdge] *)
Lemma RemoveControlEdge_run (g : Graph) i e x s d : wf g -> edges_ g !! i = Some (Some e) -> edge_heap g !! e = Some x ->
  nodes_ g !! s = Some (Some (src_ x)) -> nodes_ g !! d = Some (Some (dst_ x)) ->
  exists g', RemoveControlEdge e g = Done (tt, g') /\ wf g' /\ abs g' = a_remove_edge i (a_remove_control_input s d (abs g)) /\
    nodes_ g' = nodes_ g /\ rest g' = rest g.
Proof using Type*.
  intros Hwf Hi Hx Hs Hd. destruct (live_node _ _ _ _ (src_ x) Hwf) as [xs Hxs]; [by exists s|].
  destruct (live_node _ _ _ _ (dst_ x) Hwf) as [xd Hxd]; [by exists d|].
  pose proof (node_id _ _ _ _ Hwf Hs Hxs) as Is. pose proof (node_id _ _ _ _ Hwf Hd Hxd) as Id.
  unfold RemoveControlEdge, get_edge, get_node, bind at 1. rewrite Hx. unfold bind at 1. rewrite Hxs. unfold bind at 1. rewrite Hxd.
  assert (exists g1, remove_control_input xs xd (dst_ x) g = Done (tt, g1) /\ wf g1 /\ abs g1 = a_remove_control_input s d (abs g) /\ nodes_ g1 = nodes_ g /\ rest g1 = rest g /\
     edges_ g1 = edges_ g /\ edge_heap g1 = edge_heap g) as (g1 & E1 & Hwf1 & Ha1 & Hn1 & Hr1 & He1 & Hh1).
  { unfold remove_control_input, a_remove_control_input. rewrite (abs_node_at g s _ xs Hs Hxs), (abs_node_at g d _ xd Hd Hxd).
    replace (IsSource xs) with (s =? 0)%nat by (by rewrite (IsSource_id _ _ Is)).
    replace (IsSink xd) with (d =? 1)%nat by (by rewrite (IsSink_id _ _ Id)).
    destruct (s =? 0)%nat; [exists g; done|]. destruct (d =? 1)%nat; [exists g; done|]. simpl.
    destruct (put_info_run g d (dst_ x) xd (with_input (erase_first (control_name (node_name xs)) (def_input (node_def (props_ xd)))) xd) Hwf Hd Hxd)
      as (g' & E & Hset & _); try done. exists g'. split; [done|]. pose proof Hset as (? & ? & ? & ? & ? & ? & ?).
    split_and!; try done. by rewrite (abs_node_set g g' d _ _ Hwf Hd Hset). }
  unfold bind. rewrite E1. destruct (RemoveEdge_run g1 e x Hwf1) as (g2 & E2 & Hwf2 & Hh2).
  { split; [exists i; congruence|congruence]. }
  exists g2. split; [done|]. split; [done|]. rewrite (abs_edge_removed g1 g2 i e), Ha1; [|done|congruence|done].
  destruct Hh2 as (? & ? & ? & ?). split_and!; congruence.
Qed.
End GraphControl.

(** * Updates of inputs *)

(** ** The abstract operations *)
Definition info_num_inputs (i : NodeInfo) : Z := Z.of_nat (length (input_types (info_props i))).

Definition info_num_outputs (i : NodeInfo) : Z := Z.of_nat (length (output_types (info_props i))).

(** An edge to input [y] of node [d]. *)
Definition edge_to (d : nat) (y : Z) (e : AEdge) : bool := (a_dst e =? d)%nat && (a_in e =? y).

Inductive a_update (s : nat) (x : Z) (d : nat) (y : Z) (a : AGraph) : Status -> AGraph -> Prop :=
  | update_output i : a_nodes a !! s = Some (Some i) -> ~ (0 <= x < info_num_outputs i) -> a_update s x d y a (StatusError OUT_OF_RANGE) a
  | update_input i j : a_nodes a !! s = Some (Some i) -> 0 <= x < info_num_outputs i -> a_nodes a !! d = Some (Some j) ->
      ~ (0 <= y < info_num_inputs j) -> a_update s x d y a (StatusError OUT_OF_RANGE) a
  | update_missing i j : a_nodes a !! s = Some (Some i) -> 0 <= x < info_num_outputs i -> a_nodes a !! d = Some (Some j) ->
      0 <= y < info_num_inputs j -> has_edge (edge_to d y) a = false -> a_update s x d y a (StatusError INVALID_ARGUMENT) a
  | update_done i j k e : a_nodes a !! s = Some (Some i) -> 0 <= x < info_num_outputs i -> a_nodes a !! d = Some (Some j) ->
      0 <= y < info_num_inputs j -> a_edges a !! k = Some (Some e) -> edge_to d y e = true ->
      a_update s x d y a StatusOK
        (a_set_node d (set_inputs (<[Z.to_nat y := tensor_name (info_name i) x]> (info_inputs j)) j)
           (a_add_edge (mkAEdge s x d y) (a_remove_edge k a))).

(** The number of data edges into node [d]. *)
Definition a_data_inputs (d : nat) (a : AGraph) : Z :=
  Z.of_nat (length (filter (fun e => negb (is_control e) && (a_dst e =? d)%nat = true) (omap id (a_edges a)))).

Inductive a_while_input (s : nat) (x : Z) (d : nat) (a : AGraph) : Status -> AGraph -> Prop :=
  | while_class j : a_nodes a !! d = Some (Some j) -> info_class j <> NC_WHILE -> a_while_input s x d a (StatusError INTERNAL) a
  | while_output i j : a_nodes a !! d = Some (Some j) -> info_class j = NC_WHILE -> a_nodes a !! s = Some (Some i) ->
      ~ (0 <= x < info_num_outputs i) -> a_while_input s x d a (StatusError OUT_OF_RANGE) a
  | while_full i j : a_nodes a !! d = Some (Some j) -> info_class j = NC_WHILE -> a_nodes a !! s = Some (Some i) ->
      0 <= x < info_num_outputs i -> info_num_inputs j <= a_data_inputs d a -> a_while_input s x d a (StatusError OUT_OF_RANGE) a
  | while_done i j : a_nodes a !! d = Some (Some j) -> info_class j = NC_WHILE -> a_nodes a !! s = Some (Some i) ->
      0 <= x < info_num_outputs i -> a_data_inputs d a < info_num_inputs j ->
      a_while_input s x d a StatusOK
        (a_set_node d (set_inputs (info_inputs j ++ [tensor_name (info_name i) x]) j) (a_add_edge (mkAEdge s x d (a_data_inputs d a)) a)).

Section GraphUpdate.
Context {F : Type} `{FlatSetLaws F}.
#[local] Notation Graph := (Graph F).
#[local] Notation Node := (Node F).

Lemma elem_of_present {A} (l : list (option A)) x : x ∈ omap id l <-> Some x ∈ l.
Proof using. rewrite list_elem_of_omap. split; [intros (o & Ho & E); unfold id in E; by subst|eauto]. Qed.

Lemma length_omap_Some {A B} (f : A -> option B) l : (forall x, x ∈ l -> is_Some (f x)) -> length (omap f l) = length l.
Proof using.
  induction l as [|x l IH]; intros Hl; [done|]. destruct (Hl x) as [y Hy]; [left|]. simpl. rewrite Hy. simpl. f_equal. apply IH. intros z Hz. apply Hl. by right.
Qed.

Lemma present_map {A B} (f : A -> option B) (l : list (option A)) : (forall x, Some x ∈ l -> is_Some (f x)) ->
  length (omap id l) = length (omap id (map (fun o => o ≫= f) l)).
Proof using.
  induction l as [|[x|] l IH]; intros Hl; [done| |apply IH; intros y Hy; apply Hl; by right].
  destruct (Hl x) as [y Hy]; [left|]. simpl. rewrite Hy. simpl. f_equal. apply IH. intros z Hz. apply Hl. by right.
Qed.

Lemma present_all {A} (l : list A) : omap id (map Some l) = l.
Proof using. induction l as [|x l IH]; [done|]. simpl. f_equal. exact IH. Qed.

Lemma present_nodup {A} (l : list (option A)) : (forall i j x, l !! i = Some (Some x) -> l !! j = Some (Some x) -> i = j) -> NoDup (omap id l).
Proof using.
  induction l as [|o l IH]; intros Hinj; [apply NoDup_nil_2|].
  assert (NoDup (omap id l)) as Hl. { apply IH. intros i j e Hi Hj. by injection (Hinj (S i) (S j) e Hi Hj). }
  destruct o as [e|]; [|done]. simpl. apply NoDup_cons. split; [|done]. intros Ho%elem_of_present.
  apply list_elem_of_lookup in Ho as [j Hj]. discriminate (Hinj O (S j) e eq_refl Hj).
Qed.

(** ** Validity *)
Lemma IsValidNode_live (g : Graph) i n x : wf g -> nodes_ g !! i = Some (Some n) -> node_heap g !! n = Some x -> IsValidNode g (Some n) = Done StatusOK.
Proof using Type*.
  intros Hwf Hi Hx. pose proof (node_id _ _ _ _ Hwf Hi Hx) as Hid. pose proof (lookup_lt_Some _ _ _ Hi). unfold IsValidNode.
  rewrite Hx, Hid, Nat2Z.id. rewrite (proj2 (Z.ltb_ge _ _)), (proj2 (Z.leb_gt _ _)) by lia. by rewrite bool_decide_eq_true_2.
Qed.

Lemma IsValidNode_gone (g : Graph) n x : node_heap g !! n = Some x -> ~ live (nodes_ g) n -> IsValidNode g (Some n) = Done (StatusError INVALID_ARGUMENT).
Proof using Type*.
  intros Hx Hn. unfold IsValidNode. rewrite Hx. destruct (id_ x <? 0); [done|]. destruct (_ <=? id_ x); [done|].
  rewrite bool_decide_eq_false_2; [done|]. intros Hi. apply Hn. by eexists.
Qed.

Definition in_range (k n : Z) : Status := if (n <=? k) || (k <? 0) then StatusError OUT_OF_RANGE else StatusOK.

Lemma in_range_spec k n : (0 <= k < n /\ in_range k n = StatusOK) \/ (~ (0 <= k < n) /\ in_range k n = StatusError OUT_OF_RANGE).
Proof using. unfold in_range. destruct (Z.leb_spec n k), (Z.ltb_spec k 0); simpl; auto with lia. Qed.

Lemma IsValidOutputTensor_run (g : Graph) i n x k : wf g -> nodes_ g !! i = Some (Some n) -> node_heap g !! n = Some x ->
  IsValidOutputTensor n k g = Done (in_range k (num_outputs x), g).
Proof using Type*.
  intros Hwf Hi Hx. unfold IsValidOutputTensor, get, lift, get_node, bind, ret. rewrite (IsValidNode_live g i n x Hwf Hi Hx). cbn. by rewrite Hx.
Qed.

Lemma IsValidInputTensor_run (g : Graph) i n x k : wf g -> nodes_ g !! i = Some (Some n) -> node_heap g !! n = Some x ->
  IsValidInputTensor n k g = Done (in_range k (num_inputs x), g).
Proof using Type*.
  intros Hwf Hi Hx. unfold IsValidInputTensor, get, lift, get_node, bind, ret. rewrite (IsValidNode_live g i n x Hwf Hi Hx). cbn. by rewrite Hx.
Qed.

(** ** Searches of the edges into a node *)
Lemma FindEdge_spec (g : Graph) k l : (forall e, e ∈ l -> is_Some (edge_heap g !! e)) ->
  exists r, FindEdge g k l = Done r /\
    match r with
    | Some e => e ∈ l /\ exists y, edge_heap g !! e = Some y /\ dst_input_ y = k
    | None => forall e y, e ∈ l -> edge_heap g !! e = Some y -> dst_input_ y <> k
    end.
Proof using Type*.
  induction l as [|e l IH]; intros Hl; simpl; [exists None; split; [done|]; by intros e y ?%not_elem_of_nil|].
  destruct (Hl e) as [y Hy]; [left|]. rewrite Hy. destruct (Z.eqb_spec (dst_input_ y) k) as [Ek|Ek].
  - exists (Some e). split; [done|]. split; [left|eauto].
  - destruct IH as (r & -> & Hr); [intros a Ha; apply Hl; by right|]. exists r. split; [done|]. destruct r as [a|].
    + destruct Hr as [Ha Hr]. split; [by right|done].
    + intros a z [->|Ha]%elem_of_cons Hz; [congruence|eauto].
Qed.

Lemma live_edges_nodup (g : Graph) : wf g -> NoDup (omap id (edges_ g)).
Proof using Type*. intros Hwf. apply present_nodup. intros i j e. apply (edge_id_inj 0 [] [] g i j e Hwf). Qed.

(** The set of edges into a node, as the edges of the graph that go there. *)
Definition to_node (g : Graph) (n e : nat) : bool := match edge_heap g !! e with Some y => (dst_ y =? n)%nat | None => false end.

Definition from_node (g : Graph) (n e : nat) : bool := match edge_heap g !! e with Some y => (src_ y =? n)%nat | None => false end.

Lemma in_edges_perm (g : Graph) n x : wf g -> node_heap g !! n = Some x ->
  elements_of (in_edges_ x) ≡ₚ filter (fun e => to_node g n e = true) (omap id (edges_ g)).
Proof using Type*.
  intros Hwf Hx. apply NoDup_Permutation; [by apply set_ok_nodup, (wf_ok _ _ _ _ Hwf n x Hx)|by apply NoDup_filter, live_edges_nodup|].
  intros e. rewrite <- (ins_at _ _ _ _ Hx), (wf_ins _ _ _ _ Hwf), list_elem_of_filter, elem_of_present. unfold to_node. split.
  - intros [(y & [[j Hj] Hy] & Hd)|[_ ?%not_elem_of_nil]]; [|done]. rewrite Hy, Nat.eqb_eq. split; [done|]. apply list_elem_of_lookup. eauto.
  - intros [Hd Ho]. apply list_elem_of_lookup in Ho as [j Hj]. destruct (edge_heap g !! e) as [y|] eqn:Hy; [|done].
    apply Nat.eqb_eq in Hd. left. exists y. split; [|done]. split; [by exists j|done].
Qed.

Lemma out_edges_perm (g : Graph) n x : wf g -> node_heap g !! n = Some x ->
  elements_of (out_edges_ x) ≡ₚ filter (fun e => from_node g n e = true) (omap id (edges_ g)).
Proof using Type*.
  intros Hwf Hx. apply NoDup_Permutation; [by apply set_ok_nodup, (wf_ok _ _ _ _ Hwf n x Hx)|by apply NoDup_filter, live_edges_nodup|].
  intros e. rewrite <- (outs_at _ _ _ _ Hx), (wf_outs _ _ _ _ Hwf), list_elem_of_filter, elem_of_present. unfold from_node. split.
  - intros [(y & [[j Hj] Hy] & Hd)|[_ ?%not_elem_of_nil]]; [|done]. rewrite Hy, Nat.eqb_eq. split; [done|]. apply list_elem_of_lookup. eauto.
  - intros [Hd Ho]. apply list_elem_of_lookup in Ho as [j Hj]. destruct (edge_heap g !! e) as [y|] eqn:Hy; [|done].
    apply Nat.eqb_eq in Hd. left. exists y. split; [|done]. split; [by exists j|done].
Qed.

(** The counts, from the abstract graph. *)
Lemma nodes_present (g : Graph) : wf g -> forall n, Some n ∈ nodes_ g -> is_Some (abs_node g n).
Proof using Type*.
  intros Hwf n [i Hi]%list_elem_of_lookup. destruct (wf_nodes _ _ _ _ Hwf i n Hi) as [s Hs]. unfold abs_node. rewrite Hs. by eexists.
Qed.

Lemma num_nodes_abs (g : Graph) : wf g -> num_nodes_ g = Z.of_nat (length (omap id (a_nodes (abs g)))).
Proof using Type*.
  intros Hwf. rewrite (wf_num_nodes _ _ _ _ Hwf). unfold count, abs. cbn [a_nodes]. f_equal. by apply present_map, nodes_present.
Qed.

Lemma num_edges_abs (g : Graph) : wf g -> num_edges_ g = Z.of_nat (length (omap id (a_edges (abs g)))).
Proof using Type*.
  intros Hwf. rewrite (wf_num_edges _ _ _ _ Hwf). unfold count, abs. cbn [a_edges]. f_equal. apply present_map. intros e [j Hj]%list_elem_of_lookup.
  destruct (wf_edges _ _ _ _ Hwf j e Hj) as (y & Hy & _). destruct (abs_edge_live g j e y Hwf Hj Hy) as (s & d & _ & _ & Ha).
  unfold abs in Ha. cbn in Ha. rewrite list_lookup_fmap, Hj in Ha. simpl in Ha. apply (inj Some) in Ha. rewrite Ha. by eexists.
Qed.

(** Edges of the graph and edges of the abstract graph, in the same order. *)
Lemma filter_abs (g : Graph) (p : nat -> bool) (q : AEdge -> bool) (l : list (option nat)) :
  (forall e, Some e ∈ l -> exists a, abs_edge g e = Some a /\ q a = p e) ->
  filter (fun a => q a = true) (omap id (map (fun o => o ≫= abs_edge g) l)) = omap (abs_edge g) (filter (fun e => p e = true) (omap id l)).
Proof using Type*.
  induction l as [|[e|] l IH]; intros Hl; [done| |apply IH; intros e He; apply Hl; by right].
  destruct (Hl e) as (a & Ha & Hq); [left|]. simpl. rewrite Ha. simpl. rewrite !filter_cons, Hq. destruct (p e); simpl.
  - rewrite Ha. f_equal. apply IH. intros b Hb. apply Hl. by right.
  - apply IH. intros b Hb. apply Hl. by right.
Qed.

Lemma count_data_spec (g : Graph) l : (forall e, e ∈ l -> is_Some (edge_heap g !! e)) ->
  count_data g l = Done (Z.of_nat (length (filter (fun e => match edge_heap g !! e with Some y => negb (IsControlEdge y) | None => false end = true) l))).
Proof using Type*.
  induction l as [|e l IH]; intros Hl; [done|]. destruct (Hl e) as [y Hy]; [left|]. simpl. rewrite Hy, IH by (intros a Ha; apply Hl; by right).
  rewrite filter_cons, Hy. destruct (IsControlEdge y); simpl; [done|]. f_equal. lia.
Qed.

Lemma count_data_abs (g : Graph) d m xd : wf g -> nodes_ g !! d = Some (Some m) -> node_heap g !! m = Some xd ->
  count_data g (elements_of (in_edges_ xd)) = Done (a_data_inputs d (abs g)).
Proof using Type*.
  intros Hwf Hd Hxd. rewrite count_data_spec.
  2:{ intros e (y & [_ Hy] & _)%(in_edge_object g m xd e Hwf Hxd). eauto. }
  f_equal. unfold a_data_inputs. f_equal. rewrite (in_edges_perm g m xd Hwf Hxd), list_filter_filter. unfold abs. cbn.
  set (data := fun e => match edge_heap g !! e with Some y => negb (IsControlEdge y) | None => false end).
  assert (forall e, Some e ∈ edges_ g -> exists a, abs_edge g e = Some a /\ negb (is_control a) && (a_dst a =? d)%nat = data e && to_node g m e) as Hab.
  { intros e He. apply list_elem_of_lookup in He as [j Hj]. destruct (wf_edges _ _ _ _ Hwf j e Hj) as (y & Hy & _).
    destruct (abs_edge_live g j e y Hwf Hj Hy) as (s & d' & Hs & Hd' & Ha). unfold abs in Ha. cbn in Ha. rewrite list_lookup_fmap, Hj in Ha. simpl in Ha.
    simplify_eq. eexists. split; [done|]. unfold data, to_node, is_control, IsControlEdge. rewrite Hy. cbn. f_equal.
    apply eq_bool_prop_intro. rewrite !Is_true_true, !Nat.eqb_eq. pose proof (id_of_at g d' _ Hwf Hd'). pose proof (id_of_at g d _ Hwf Hd).
    split; intros; subst; congruence. }
  rewrite (filter_abs g (fun e => data e && to_node g m e)) by done. rewrite length_omap_Some.
  - f_equal. apply list_filter_iff. intros e. by rewrite andb_true_iff.
  - intros e [_ He%elem_of_present]%list_elem_of_filter. destruct (Hab e He) as (a & -> & _). eauto.
Qed.

(** ** [UpdateEdge] and [AddWhileInputHack] *)

(** The end of both: an edge, and the inputs of the [NodeDef]. *)
Lemma add_edge_inputs (g : Graph) s n x d m y xs xd (f : list string -> list string) : wf g -> room g ->
  nodes_ g !! s = Some (Some n) -> nodes_ g !! d = Some (Some m) -> node_heap g !! n = Some xs -> node_heap g !! m = Some xd ->
  exists e g1 xs' xd' g2, AddEdge n x m y g = Done (e, g1) /\ get_node n g1 = Done (xs', g1) /\ get_node m g1 = Done (xd', g1) /\
    static xs' = static xs /\ static xd' = static xd /\
    put_node m (with_input (f (def_input (node_def (props_ xd')))) xd') g1 = Done (tt, g2) /\ wf g2 /\ nodes_ g2 = nodes_ g /\ rest g2 = rest g /\
    abs g2 = a_set_node d (set_inputs (f (info_inputs (info xd))) (info xd)) (a_add_edge (mkAEdge s x d y) (abs g)).
Proof using Type*.
  intros Hwf Hroom Hs Hd Hxs Hxd. destruct (AddEdge_run g n x m y Hwf Hroom) as (e & g1 & E1 & Hadd); [by exists s|by exists d|].
  pose proof Hadd as (Hwf1 & Hst1 & Hn1 & Hr1 & _). destruct (stat_keeps g (node_heap g1) n xs Hst1 Hxs) as (xs' & Hxs' & Hss).
  destruct (stat_keeps g (node_heap g1) m xd Hst1 Hxd) as (xd' & Hxd' & Hsd). assert (nodes_ g1 !! d = Some (Some m)) as Hd1 by congruence.
  destruct (put_info_run g1 d m xd' (with_input (f (def_input (node_def (props_ xd')))) xd') Hwf1 Hd1 Hxd') as (g2 & E2 & Hset & _); try done.
  pose proof Hset as (? & ? & ? & _). exists e, g1, xs', xd', g2. unfold get_node. rewrite Hxs', Hxd'. split_and!; try congruence.
  rewrite (abs_node_set g1 g2 d m _ Hwf1 Hd1 Hset), (abs_edge_added g g1 e _ s d Hadd); [|by apply id_of_at|by apply id_of_at]. cbn. f_equal.
  assert (info xd' = info xd) as Hi by exact (f_equal snd Hsd). unfold set_inputs. rewrite <- Hi. done.
Qed.

Lemma UpdateEdge_run (g : Graph) s n x d m y xd : wf g -> room g -> nodes_ g !! s = Some (Some n) -> nodes_ g !! d = Some (Some m) ->
  node_heap g !! m = Some xd -> (0 <= y < num_inputs xd -> y < Z.of_nat (length (def_input (node_def (props_ xd))))) ->
  exists r g', UpdateEdge n x m y g = Done (r, g') /\ wf g' /\ nodes_ g' = nodes_ g /\ rest g' = rest g /\
    (r <> StatusOK -> g' = g) /\ a_update s x d y (abs g) r (abs g').
Proof using Type*.
  intros Hwf Hroom Hs Hd Hxd Hlen. destruct (live_node _ _ _ _ n Hwf) as [xs Hxs]; [by exists s|].
  pose proof (abs_node_at g s n xs Hs Hxs) as As. pose proof (abs_node_at g d m xd Hd Hxd) as Ad.
  unfold UpdateEdge, bind at 1. rewrite (IsValidOutputTensor_run g s n xs x Hwf Hs Hxs).
  destruct (in_range_spec x (num_outputs xs)) as [[Hx ->]|[Hx ->]]; [|eexists _, g; split_and!; try done; by eapply update_output].
  cbn [ok negb]. unfold bind at 1. rewrite (IsValidInputTensor_run g d m xd y Hwf Hd Hxd).
  destruct (in_range_spec y (num_inputs xd)) as [[Hy ->]|[Hy ->]]; [|eexists _, g; split_and!; try done; by eapply update_input].
  cbn [ok negb]. unfold get, bind at 1. unfold get_node at 1, bind at 1. rewrite Hxd.
  destruct (FindEdge_spec g y (elements_of (in_edges_ xd))) as (r & Er & Hr).
  { intros e (z & [_ Hz] & _)%(in_edge_object g m xd e Hwf Hxd). eauto. }
  unfold lift, bind at 1. rewrite Er.
  assert ((exists e z, e ∈ elements_of (in_edges_ xd) /\ edge_heap g !! e = Some z /\ (dst_input_ z =? y) = true) <->
    has_edge (edge_to d y) (abs g) = true) as Hhas.
  { apply (has_in_edge g d m xd (fun z => dst_input_ z =? y)); try done.
    - intros. unfold edge_to. cbn. by rewrite Nat.eqb_refl.
    - intros e. unfold edge_to. rewrite andb_true_iff, Nat.eqb_eq. tauto. }
  destruct r as [e|].
  2:{ eexists _, g. split_and!; try done. eapply update_missing; try done. apply not_true_is_false. rewrite <- Hhas.
      intros (e & z & He & Hz & Hk%Z.eqb_eq). by apply (Hr e z). }
  destruct Hr as (He & z & Hz & Hk). destruct (in_edge_object g m xd e Hwf Hxd He) as (z' & [[j Hj] Hz'] & Hdst). simplify_eq.
  destruct (RemoveEdge_run g e z Hwf) as (g1 & E1 & Hwf1 & Hh1); [split; [by exists j|done]|].
  pose proof Hh1 as (Hst1 & Hn1 & Hr1 & _). destruct (stat_keeps g (node_heap g1) n xs Hst1 Hxs) as (xs1 & Hxs1 & Hss).
  destruct (stat_keeps g (node_heap g1) _ xd Hst1 Hxd) as (xd1 & Hxd1 & Hsd). unfold bind at 1. rewrite E1.
  assert (room g1) as Hroom1 by (destruct Hh1 as (_ & _ & _ & _ & He1 & _); unfold room; rewrite He1, length_map; exact Hroom).
  destruct (add_edge_inputs g1 s n x d (dst_ z) (dst_input_ z) xs1 xd1
    (fun l => <[Z.to_nat (dst_input_ z) := tensor_name (node_name xs) x]> l) Hwf1 Hroom1) as (e2 & g2 & xs2 & xd2 & g3 & E2 & Gs & Gd & Ss & Sd & E3 & Hwf3 & Hn3 & Hr3 & Ha3); try congruence.
  assert (info xs2 = info xs) as Is by exact (eq_trans (f_equal snd Ss) (f_equal snd Hss)).
  assert (info xd2 = info xd) as Id by exact (eq_trans (f_equal snd Sd) (f_equal snd Hsd)).
  unfold bind at 1. rewrite E2. unfold bind at 1. rewrite Gs. unfold bind at 1. rewrite Gd.
  change (node_name xs2) with (info_name (info xs2)). rewrite Is. change (props_ xd2) with (info_props (info xd2)) at 1. rewrite Id.
  unfold bind at 1, CHECK. cbn [info info_props]. rewrite (proj2 (Z.ltb_lt _ _)) by lia. unfold bind. change (info_name (info xs)) with (node_name xs). rewrite E3.
  eexists _, g3. split; [reflexivity|]. split_and!; try congruence.
  rewrite Ha3, (abs_edge_removed g g1 j e Hwf Hj Hh1). assert (info xd1 = info xd) as -> by exact (f_equal snd Hsd).
  destruct (abs_edge_live g j e z Hwf Hj Hz) as (s' & d' & Hs' & Hd' & Ha). eapply (update_done _ _ _ _ _ (info xs) (info xd)); try done. unfold edge_to. cbn.
  pose proof (id_of_at g d' _ Hwf Hd'). pose proof (id_of_at g d _ Hwf Hd). assert (d' = d) as -> by congruence. by rewrite Nat.eqb_refl, Z.eqb_refl.
Qed.

Lemma AddWhileInputHack_run (g : Graph) s n x d m : wf g -> room g -> nodes_ g !! s = Some (Some n) -> nodes_ g !! d = Some (Some m) ->
  exists r g', AddWhileInputHack n x m g = Done (r, g') /\ wf g' /\ nodes_ g' = nodes_ g /\ rest g' = rest g /\
    (r <> StatusOK -> g' = g) /\ a_while_input s x d (abs g) r (abs g').
Proof using Type*.
  intros Hwf Hroom Hs Hd. destruct (live_node _ _ _ _ n Hwf) as [xs Hxs]; [by exists s|]. destruct (live_node _ _ _ _ m Hwf) as [xd Hxd]; [by exists d|].
  pose proof (abs_node_at g s n xs Hs Hxs) as As. pose proof (abs_node_at g d m xd Hd Hxd) as Ad.
  unfold AddWhileInputHack, get_node at 1, bind at 1. rewrite Hxd.
  case_bool_decide as Hc; cbn [negb]; [|eexists _, g; split_and!; try done; by eapply while_class].
  unfold bind at 1. rewrite (IsValidOutputTensor_run g s n xs x Hwf Hs Hxs).
  destruct (in_range_spec x (num_outputs xs)) as [[Hx ->]|[Hx ->]]; [|eexists _, g; split_and!; try done; by eapply while_output].
  cbn [ok negb]. unfold get, bind at 1. unfold lift, bind at 1. rewrite (count_data_abs g d m xd Hwf Hd Hxd).
  unfold bind at 1. rewrite (IsValidInputTensor_run g d m xd _ Hwf Hd Hxd).
  destruct (in_range_spec (a_data_inputs d (abs g)) (num_inputs xd)) as [[Hy ->]|[Hy ->]].
  2:{ eexists _, g. split_and!; try done. eapply (while_full _ _ _ _ (info xs) (info xd)); try done. change (info_num_inputs (info xd)) with (num_inputs xd).
      assert (0 <= a_data_inputs d (abs g)) by (unfold a_data_inputs; lia). lia. }
  cbn [ok negb]. destruct (add_edge_inputs g s n x d m (a_data_inputs d (abs g)) xs xd (fun l => l ++ [tensor_name (node_name xs) x]) Hwf Hroom Hs Hd Hxs Hxd)
    as (e2 & g2 & xs2 & xd2 & g3 & E2 & Gs & Gd & Ss & Sd & E3 & Hwf3 & Hn3 & Hr3 & Ha3).
  unfold bind at 1. rewrite E2. unfold bind at 1. rewrite Gs. unfold bind at 1. rewrite Gd.
  change (node_name xs2) with (info_name (info xs2)). assert (info xs2 = info xs) as -> by exact (f_equal snd Ss).
  unfold bind. change (info_name (info xs)) with (node_name xs). rewrite E3. eexists _, g3. split; [reflexivity|].
  split_and!; try congruence. rewrite Ha3. eapply (while_done _ _ _ _ (info xs) (info xd)); try done. change (info_num_inputs (info xd)) with (num_inputs xd). lia.
Qed.
End GraphUpdate.

(** * Names of devices and other tables of a graph *)

(** The vector and the map name the same devices; nodes hold indices of it. *)
Definition table_ok (l : list string) (m : gmap string Z) : Prop :=
  l !! 0%nat = Some ""%string /\ length l = S (size m) /\
  forall s i, m !! s = Some i <-> s <> ""%string /\ 0 < i /\ l !! Z.to_nat i = Some s.

Definition devices_ok (l : list string) (a : AGraph) : Prop :=
  Forall (fun o => match o with Some i => 0 <= info_device i < Z.of_nat (length l) | None => True end) (a_nodes a).

Definition set_device (k : Z) (i : NodeInfo) : NodeInfo :=
  mkInfo (info_cost i) (info_class i) (info_props i) k (info_while i) (info_trace i).

Definition set_while (w : option string) (i : NodeInfo) : NodeInfo :=
  mkInfo (info_cost i) (info_class i) (info_props i) (info_device i) w (info_trace i).

Definition set_trace (t : option nat) (i : NodeInfo) : NodeInfo :=
  mkInfo (info_cost i) (info_class i) (info_props i) (info_device i) (info_while i) t.

(** A new name at the end of the vector. *)
Lemma table_ok_add l m s : table_ok l m -> s <> ""%string -> m !! s = None -> table_ok (l ++ [s]) (<[s := Z.of_nat (length l)]> m).
Proof.
  intros (H0 & Hlen & Hm) Hs Hn. split_and!.
  - by apply lookup_app_l_Some.
  - rewrite length_app, map_size_insert_None by done. simpl. lia.
  - intros t i. destruct (decide (t = s)) as [->|Hne].
    + rewrite lookup_insert_eq. split.
      * intros [= <-]. rewrite Nat2Z.id, lookup_app_r, Nat.sub_diag by lia. split_and!; [done|lia|done].
      * intros (_ & Hi & Hl). f_equal. apply lookup_app_Some in Hl as [Hl|[Hge Hl]].
        -- assert (m !! s = Some i) by (by apply Hm). congruence.
        -- destruct (Z.to_nat i - length l)%nat eqn:E; [lia|done].
    + rewrite lookup_insert_ne, Hm by done. split; intros (? & ? & Hl); split_and!; try done; [by apply lookup_app_l_Some|].
      apply lookup_app_Some in Hl as [?|[_ Hl]]; [done|]. destruct (Z.to_nat i - length l)%nat; simpl in Hl; [by simplify_eq|done].
Qed.

Section GraphNames.
Context {F : Type} `{FlatSetLaws F}.
#[local] Notation Graph := (Graph F).
#[local] Notation Node := (Node F).

(** Tables do not enter the invariant or the abstraction. *)
Lemma wf_tables (g g' : Graph) : wf g -> node_heap g' = node_heap g -> edge_heap g' = edge_heap g -> arena_nodes g' = arena_nodes g ->
  arena_edges g' = arena_edges g -> nodes_ g' = nodes_ g -> num_nodes_ g' = num_nodes_ g -> edges_ g' = edges_ g ->
  num_edges_ g' = num_edges_ g -> free_nodes_ g' = free_nodes_ g -> free_edges_ g' = free_edges_ g -> wf g' /\ abs g' = abs g.
Proof using Type*.
  destruct g, g'. simpl. intros Hwf -> -> -> -> -> -> -> -> -> ->. split; [|done]. destruct Hwf. by split.
Qed.

Lemma InternDeviceName_run (g : Graph) s : wf g -> table_ok (device_names_ g) (device_names_map_ g) ->
  exists k g', InternDeviceName s g = Done (k, g') /\ wf g' /\ abs g' = abs g /\ node_heap g' = node_heap g /\ nodes_ g' = nodes_ g /\ edges_ g' = edges_ g /\
    name_counter_ g' = name_counter_ g /\ while_ctxs_ g' = while_ctxs_ g /\ free_nodes_ g' = free_nodes_ g /\
    table_ok (device_names_ g') (device_names_map_ g') /\ 0 <= k /\ device_names_ g' !! Z.to_nat k = Some s /\
    exists l, device_names_ g' = device_names_ g ++ l.
Proof using Type*.
  intros Hwf Ht. pose proof Ht as (He & Hlen & Hm). unfold InternDeviceName. case_bool_decide as Hs.
  - subst s. exists 0, g. split_and!; try done. exists []. by rewrite app_nil_r.
  - unfold get, bind at 1. destruct (device_names_map_ g !! s) as [i|] eqn:Ei; simpl.
    + pose proof (proj1 (Hm s i) Ei) as (_ & Hi & Hl). rewrite (proj2 (Z.ltb_lt _ _)) by lia. unfold modify, bind, ret. rewrite insert_id by done.
      eexists i, _. split; [reflexivity|]. destruct (wf_tables g (set_device_names (device_names_ g) (device_names_map_ g) g) Hwf) as [? ?]; try done.
      split_and!; try done; [lia|]. exists []. by rewrite app_nil_r.
    + unfold modify, bind, ret. rewrite insert_insert_eq, map_size_insert_None by done. rewrite <- Hlen. eexists _, _. split; [reflexivity|].
      destruct (wf_tables g (set_device_names (device_names_ g ++ [s]) (<[s := Z.of_nat (length (device_names_ g))]> (device_names_map_ g)) g) Hwf) as [? ?]; try done.
      split_and!; try done; [by apply table_ok_add|lia| |eauto]. cbn. by rewrite Nat2Z.id, lookup_app_r, Nat.sub_diag by lia.
Qed.

Lemma set_assigned_device_name_run (g : Graph) i n x s : wf g -> table_ok (device_names_ g) (device_names_map_ g) ->
  nodes_ g !! i = Some (Some n) -> node_heap g !! n = Some x ->
  exists k g', set_assigned_device_name n s g = Done (tt, g') /\ wf g' /\ abs g' = a_set_node i (set_device k (info x)) (abs g) /\
    nodes_ g' = nodes_ g /\ edges_ g' = edges_ g /\ name_counter_ g' = name_counter_ g /\ while_ctxs_ g' = while_ctxs_ g /\
    free_nodes_ g' = free_nodes_ g /\ node_heap g' = <[n := with_device k x]> (node_heap g) /\
    table_ok (device_names_ g') (device_names_map_ g') /\ 0 <= k /\ device_names_ g' !! Z.to_nat k = Some s /\
    exists l, device_names_ g' = device_names_ g ++ l.
Proof using Type*.
  intros Hwf Ht Hi Hx. destruct (InternDeviceName_run g s Hwf Ht) as (k & g1 & E1 & Hwf1 & Ha1 & Hh1 & Hn1 & He1 & Hc1 & Hw1 & Hf1 & Ht1 & Hk & Hl & Hp).
  assert (nodes_ g1 !! i = Some (Some n)) as Hi1 by congruence. assert (node_heap g1 !! n = Some x) as Hx1 by congruence.
  destruct (put_info_run g1 i n x (with_device k x) Hwf1 Hi1 Hx1) as (g2 & E2 & Hset & Hh2); try done.
  pose proof Hset as (? & ? & Hr & ? & ? & ? & _). injection Hr as ? Hd ? ?. exists k, g2. unfold set_assigned_device_name, get_node, bind. rewrite E1, Hx1.
  split; [done|]. rewrite (abs_node_set g1 g2 i n _ Hwf1 Hi1 Hset), Ha1. rewrite Hd. split_and!; try congruence. done.
Qed.

(** The contexts of a node. *)
Lemma set_while_ctx_run (g : Graph) i n x w : wf g -> nodes_ g !! i = Some (Some n) -> node_heap g !! n = Some x ->
  exists g', set_while_ctx n w g = Done (tt, g') /\ node_set i n (set_while w (info x)) g g'.
Proof using Type*.
  intros Hwf Hi Hx. unfold set_while_ctx, get_node, bind. rewrite Hx. match goal with |- context [put_node n ?x'] =>
    destruct (put_info_run g i n x x' Hwf Hi Hx) as (g' & E & Hset & _); try done end. eauto.
Qed.

Lemma SetStackTrace_run (g : Graph) i n x t : wf g -> nodes_ g !! i = Some (Some n) -> node_heap g !! n = Some x ->
  exists g', SetStackTrace n t g = Done (tt, g') /\ node_set i n (set_trace t (info x)) g g'.
Proof using Type*.
  intros Hwf Hi Hx. unfold SetStackTrace, get_node, bind. rewrite Hx. match goal with |- context [put_node n ?x'] =>
    destruct (put_info_run g i n x x' Hwf Hi Hx) as (g' & E & Hset & _); try done end. eauto.
Qed.
End GraphNames.
