(* ===== verification/GraphSpec.v ===== *)
(** * What the operations of a graph promise

    The operations as requests, the conditions graph.h puts on their arguments,
    and their effect on the abstract graph. *)
From S2P Require Import Prelude FlatRep EdgeSet Graph GraphInv GraphUpdate.
From stdpp Require Import list gmap strings pretty options.
From stdpp Require Import list gmap strings options.
#[local] Open Scope Z_scope.
#[local] Open Scope tf_monad_scope.

Inductive Op :=
  | DoAddNode (def : NodeDef)
  | DoRemoveNode (n : nat)
  | DoAddEdge (source : nat) (x : Z) (dest : nat) (y : Z)
  | DoRemoveEdge (e : nat)
  | DoAddControlEdge (source dest : nat) (allow_duplicates : bool)
  | DoRemoveControlEdge (e : nat)
  | DoUpdateEdge (new_src : nat) (new_src_index : Z) (dst : nat) (dst_index : Z)
  | DoAddWhileInput (new_src : nat) (new_src_index : Z) (dst : nat)
  | DoSetDevice (n : nat) (device_name : string)
  | DoSetWhile (n : nat) (while_ctx : option string)
  | DoSetStackTrace (n : nat) (stack_trace : option nat)
  | DoNewName (prefix : string)
  | DoAddWhileContext (frame_name : string).

Inductive Result :=
  | ResNode (s : Status) (n : option nat)
  | ResEdge (e : option nat)
  | ResStatus (s : Status)
  | ResName (s : string)
  | ResVoid.

Section GraphSpec.
Context {F : Type} `{FlatSetLaws F} `{OpRegistry}.
#[local] Notation Graph := (Graph F).
#[local] Notation Node := (Node F).

Definition run_op (op : Op) : M Graph Result :=
  match op with
  | DoAddNode def => r <~ AddNode def;; ret (ResNode r.1 r.2)
  | DoRemoveNode n => RemoveNode n;;; ret ResVoid
  | DoAddEdge s x d y => e <~ AddEdge s x d y;; ret (ResEdge (Some e))
  | DoRemoveEdge e => RemoveEdge e;;; ret ResVoid
  | DoAddControlEdge s d b => e <~ AddControlEdge s d b;; ret (ResEdge e)
  | DoRemoveControlEdge e => RemoveControlEdge e;;; ret ResVoid
  | DoUpdateEdge s x d y => r <~ UpdateEdge s x d y;; ret (ResStatus r)
  | DoAddWhileInput s x d => r <~ AddWhileInputHack s x d;; ret (ResStatus r)
  | DoSetDevice n s => set_assigned_device_name n s;;; ret ResVoid
  | DoSetWhile n w => set_while_ctx n w;;; ret ResVoid
  | DoSetStackTrace n t => SetStackTrace n t;;; ret ResVoid
  | DoNewName s => r <~ NewName s;; ret (ResName r)
  | DoAddWhileContext s => r <~ AddWhileContext s;; ret (ResStatus r.1)
  end.

(** Nodes and edges belong to the graph; the source and the sink stay; there is
    room for an edge that is added; and the input an update redirects, when the
    node has it, is one its [NodeDef] lists, as [UpdateEdge] overwrites the name
    at that index without a test. *)
Definition op_ok (g : Graph) (op : Op) : Prop :=
  match op with
  | DoAddNode _ | DoNewName _ | DoAddWhileContext _ => True
  | DoSetDevice n _ | DoSetWhile n _ | DoSetStackTrace n _ => live (nodes_ g) n
  | DoRemoveNode n => exists i, (2 <= i)%nat /\ nodes_ g !! i = Some (Some n)
  | DoAddEdge s _ d _ | DoAddControlEdge s d _ | DoAddWhileInput s _ d => room g /\ live (nodes_ g) s /\ live (nodes_ g) d
  | DoRemoveEdge e | DoRemoveControlEdge e => live (edges_ g) e
  | DoUpdateEdge s _ d y => room g /\ live (nodes_ g) s /\ live (nodes_ g) d /\
      forall x, node_heap g !! d = Some x -> 0 <= y < num_inputs x -> y < Z.of_nat (length (def_input (node_def (props_ x))))
  end.

(** The properties and the class [AddNode] gives a node. *)
Definition node_props (def : NodeDef) : Status + (NodeProperties * NodeClass) :=
  match LookUp (def_op def) with
  | inl s => inl s
  | inr data =>
      match InOutTypesForNode def data with
      | inl s => inl s
      | inr (inputs, outputs) => inr (mkProps def inputs outputs, if is_function_op data then NC_FUNCTION_OP else GetNodeClassForOp (def_op def))
      end
  end.

(** The tables after an operation. *)
Definition tables_spec (g : Graph) (op : Op) (r : Result) (g' : Graph) : Prop :=
  match op with
  | DoSetDevice _ _ => name_counter_ g' = name_counter_ g /\ while_ctxs_ g' = while_ctxs_ g /\
      table_ok (device_names_ g') (device_names_map_ g') /\ exists l, device_names_ g' = device_names_ g ++ l
  | DoNewName s => r = ResName (s +:+ "/_" +:+ pretty (name_counter_ g))%string /\
      rest g' = (name_counter_ g + 1, device_names_ g, device_names_map_ g, while_ctxs_ g)
  | DoAddWhileContext s => r = ResStatus (if bool_decide (s ∈ while_ctxs_ g) then StatusError INVALID_ARGUMENT else StatusOK) /\
      rest g' = (name_counter_ g, device_names_ g, device_names_map_ g, {[s]} ∪ while_ctxs_ g)
  | _ => rest g' = rest g
  end.

(** The nodes and edges after it.  The contexts of a node made from a new object
    are empty. *)
Definition op_spec (g : Graph) (op : Op) (r : Result) (g' : Graph) : Prop :=
  match op with
  | DoAddNode def =>
      match node_props def with
      | inl s => r = ResNode s None /\ g' = g
      | inr (props, cls) => exists n w t, r = ResNode StatusOK (Some n) /\ nodes_ g' = nodes_ g ++ [Some n] /\
          (free_nodes_ g = [] -> w = None /\ t = None) /\
          abs g' = a_add_node (mkInfo (Z.of_nat (length (nodes_ g))) cls props 0 w t) (abs g)
      end
  | DoRemoveNode n => exists i, (2 <= i)%nat /\ nodes_ g !! i = Some (Some n) /\ r = ResVoid /\
      nodes_ g' = <[i := None]> (nodes_ g) /\ abs g' = a_remove_node i (abs g)
  | DoAddEdge s x d y => exists i j e, nodes_ g !! i = Some (Some s) /\ nodes_ g !! j = Some (Some d) /\
      r = ResEdge (Some e) /\ nodes_ g' = nodes_ g /\ edges_ g' = edges_ g ++ [Some e] /\ abs g' = a_add_edge (mkAEdge i x j y) (abs g)
  | DoRemoveEdge e => exists k, edges_ g !! k = Some (Some e) /\ r = ResVoid /\ nodes_ g' = nodes_ g /\ abs g' = a_remove_edge k (abs g)
  | DoAddControlEdge s d b => exists i j e, nodes_ g !! i = Some (Some s) /\ nodes_ g !! j = Some (Some d) /\
      r = ResEdge e /\ nodes_ g' = nodes_ g /\ abs g' = (a_add_control i j b (abs g)).1 /\
      match e with
      | Some e => (a_add_control i j b (abs g)).2 = true /\ edges_ g' = edges_ g ++ [Some e]
      | None => (a_add_control i j b (abs g)).2 = false /\ g' = g
      end
  | DoRemoveControlEdge e => exists k ae, edges_ g !! k = Some (Some e) /\ a_edges (abs g) !! k = Some (Some ae) /\ r = ResVoid /\
      nodes_ g' = nodes_ g /\ abs g' = a_remove_edge k (a_remove_control_input (a_src ae) (a_dst ae) (abs g))
  | DoUpdateEdge s x d y => exists i j t, nodes_ g !! i = Some (Some s) /\ nodes_ g !! j = Some (Some d) /\
      r = ResStatus t /\ nodes_ g' = nodes_ g /\ (t <> StatusOK -> g' = g) /\ a_update i x j y (abs g) t (abs g')
  | DoAddWhileInput s x d => exists i j t, nodes_ g !! i = Some (Some s) /\ nodes_ g !! j = Some (Some d) /\
      r = ResStatus t /\ nodes_ g' = nodes_ g /\ (t <> StatusOK -> g' = g) /\ a_while_input i x j (abs g) t (abs g')
  | DoSetDevice n s => exists i v k, nodes_ g !! i = Some (Some n) /\ a_nodes (abs g) !! i = Some (Some v) /\
      nodes_ g' = nodes_ g /\ 0 <= k /\ device_names_ g' !! Z.to_nat k = Some s /\ abs g' = a_set_node i (set_device k v) (abs g)
  | DoSetWhile n w => exists i v, nodes_ g !! i = Some (Some n) /\ a_nodes (abs g) !! i = Some (Some v) /\
      nodes_ g' = nodes_ g /\ abs g' = a_set_node i (set_while w v) (abs g)
  | DoSetStackTrace n t => exists i v, nodes_ g !! i = Some (Some n) /\ a_nodes (abs g) !! i = Some (Some v) /\
      nodes_ g' = nodes_ g /\ abs g' = a_set_node i (set_trace t v) (abs g)
  | DoNewName _ | DoAddWhileContext _ => nodes_ g' = nodes_ g /\ abs g' = abs g
  end.

Lemma AddNode_run (g : Graph) def : wf g ->
  match node_props def with
  | inl s => AddNode def g = Done ((s, None), g)
  | inr (props, cls) => exists n w t g', AddNode def g = Done ((StatusOK, Some n), g') /\
      node_added n (mkInfo (Z.of_nat (length (nodes_ g))) cls props 0 w t) g g' /\
      (free_nodes_ g = [] -> w = None /\ t = None /\ free_nodes_ g' = []) /\
      (forall m free x, free_nodes_ g = m :: free -> node_heap g !! m = Some x -> n = m /\ w = while_ctx_ x /\ t = stack_trace_ x)
  end.
Proof using Type*.
  intros Hwf. unfold node_props, AddNode. destruct (LookUp (def_op def)) as [s|data]; [done|].
  destruct (InOutTypesForNode def data) as [s|[ins outs]]; [done|].
  destruct (AllocateNode_run g (mkProps def ins outs) None (if is_function_op data then NC_FUNCTION_OP else GetNodeClassForOp (def_op def)) Hwf)
    as (n & w & t & g' & E & Hadd & Hfree & Hrec). exists n, w, t, g'. unfold bind. rewrite E. split_and!; try done.
  intros Hf. by destruct (Hfree Hf) as (? & ? & ? & _).
Qed.

Lemma run_op_spec (g : Graph) op : wf g -> table_ok (device_names_ g) (device_names_map_ g) -> op_ok g op ->
  exists r g', run_op op g = Done (r, g') /\ wf g' /\ op_spec g op r g' /\ tables_spec g op r g'.
Proof using Type*.
  intros Hwf Ht Hok. destruct op as [def|n|s x d y|e|s d b|e|s x d y|s x d|n s|n w|n t|s|s]; simpl in *.
  - pose proof (AddNode_run g def Hwf) as Hrun. unfold op_spec. destruct (node_props def) as [st|[props cls]].
    + eexists _, g. unfold bind. rewrite Hrun. done.
    + destruct Hrun as (n & w & t & g' & E & Hadd & Hfree & _). eexists _, g'. unfold bind. rewrite E. split_and!; [done|apply Hadd| |apply Hadd].
      exists n, w, t. split_and!; [done|apply Hadd| |by apply (abs_node_added g g' n)]. intros Hf. by destruct (Hfree Hf) as (? & ? & _).
  - destruct Hok as (i & Hge & Hi). destruct (live_node _ _ _ _ n Hwf) as [x Hx]; [by exists i|].
    destruct (RemoveNode_run g i n x Hwf Hi Hx) as (g' & E & Hrem & _). eexists _, g'. unfold bind. rewrite E. split_and!; [done|apply Hrem| |apply Hrem].
    exists i. split_and!; [done|done|done|apply Hrem|by apply (abs_node_removed g g' i n)].
  - destruct Hok as (Hroom & [i Hi] & [j Hj]). destruct (AddEdge_run g s x d y Hwf Hroom) as (e & g' & E & Hadd); [by exists i|by exists j|].
    eexists _, g'. unfold bind. rewrite E. pose proof Hadd as (_ & _ & ? & ? & _ & ? & _). split_and!; [done|apply Hadd| |done]. exists i, j, e.
    split_and!; try done. rewrite (abs_edge_added g g' e _ i j Hadd); [done| |]; by apply id_of_at.
  - destruct Hok as [k Hk]. destruct (wf_edges _ _ _ _ Hwf k e Hk) as (x & Hx & _).
    destruct (RemoveEdge_run g e x Hwf) as (g' & E & Hwf' & Hh); [split; [by exists k|done]|]. eexists _, g'. unfold bind. rewrite E.
    split_and!; [done|done| |apply Hh]. exists k. split_and!; [done|done|apply Hh|by apply (abs_edge_removed g g' k e)].
  - destruct Hok as (Hroom & [i Hi] & [j Hj]). destruct (AddControlEdge_run g i j s d b Hwf Hroom Hi Hj) as (r & g' & E & Hwf' & Ha & Hn & Hrest & _ & Hr).
    eexists _, g'. unfold bind. rewrite E. split_and!; [done|done| |done]. exists i, j, r. done.
  - destruct Hok as [k Hk]. destruct (wf_edges _ _ _ _ Hwf k e Hk) as (x & Hx & _).
    destruct (abs_edge_live g k e x Hwf Hk Hx) as (i & j & Hi & Hj & Hae).
    destruct (RemoveControlEdge_run g k e x i j Hwf Hk Hx Hi Hj) as (g' & E & Hwf' & Ha & Hn & Hr). eexists _, g'. unfold bind. rewrite E.
    split_and!; [done|done| |done]. eexists k, _. split_and!; try done.
  - destruct Hok as (Hroom & [i Hi] & [j Hj] & Hlen). destruct (live_node _ _ _ _ d Hwf) as [xd Hxd]; [by exists j|].
    destruct (UpdateEdge_run g i s x j d y xd Hwf Hroom Hi Hj Hxd (Hlen xd Hxd)) as (r & g' & E & Hwf' & Hn & Hr & Hu & Ha).
    eexists _, g'. unfold bind. rewrite E. split_and!; [done|done| |done]. exists i, j, r. done.
  - destruct Hok as (Hroom & [i Hi] & [j Hj]). destruct (AddWhileInputHack_run g i s x j d Hwf Hroom Hi Hj) as (r & g' & E & Hwf' & Hn & Hr & Hu & Ha).
    eexists _, g'. unfold bind. rewrite E. split_and!; [done|done| |done]. exists i, j, r. done.
  - destruct Hok as [i Hi]. destruct (live_node _ _ _ _ n Hwf) as [x Hx]; [by exists i|].
    destruct (set_assigned_device_name_run g i n x s Hwf Ht Hi Hx) as (k & g' & E & Hwf' & Ha & Hn & He & Hc & Hw & _ & _ & Ht' & Hk & Hl & Hp).
    eexists _, g'. unfold bind. rewrite E. split_and!; try done. exists i, (info x), k. split_and!; try done. by apply (abs_node_at g i n).
  - destruct Hok as [i Hi]. destruct (live_node _ _ _ _ n Hwf) as [x Hx]; [by exists i|].
    destruct (set_while_ctx_run g i n x w Hwf Hi Hx) as (g' & E & Hset). eexists _, g'. unfold bind. rewrite E. split_and!; [done|apply Hset| |apply Hset].
    exists i, (info x). split_and!; [done|by apply (abs_node_at g i n)|apply Hset|by apply (abs_node_set g g' i n)].
  - destruct Hok as [i Hi]. destruct (live_node _ _ _ _ n Hwf) as [x Hx]; [by exists i|].
    destruct (SetStackTrace_run g i n x t Hwf Hi Hx) as (g' & E & Hset). eexists _, g'. unfold bind. rewrite E. split_and!; [done|apply Hset| |apply Hset].
    exists i, (info x). split_and!; [done|by apply (abs_node_at g i n)|apply Hset|by apply (abs_node_set g g' i n)].
  - eexists _, (set_name_counter (name_counter_ g + 1) g). split; [done|].
    destruct (wf_tables g (set_name_counter (name_counter_ g + 1) g) Hwf) as [? ?]; try done.
  - unfold AddWhileContext, get, bind. case_bool_decide as Hs.
    + eexists _, g. split_and!; try done. simpl. unfold rest. repeat f_equal. set_solver.
    + eexists _, _. split; [reflexivity|]. destruct (wf_tables g (set_while_ctxs ({[s]} ∪ while_ctxs_ g) g) Hwf) as [? ?]; try done.
Qed.
End GraphSpec.

(** * The graphs a program can build *)

(** ** Devices of abstract graphs *)
Lemma devices_ok_at l a n i : devices_ok l a -> a_nodes a !! n = Some (Some i) -> 0 <= info_device i < Z.of_nat (length l).
Proof. intros Hd Hi. exact (proj1 (Forall_lookup _ _) Hd n _ Hi). Qed.

Lemma devices_ok_set l a n i : devices_ok l a -> 0 <= info_device i < Z.of_nat (length l) -> devices_ok l (a_set_node n i a).
Proof. intros Hd Hi. unfold devices_ok. cbn. by apply Forall_insert. Qed.

Lemma devices_ok_more l l' a : devices_ok l a -> devices_ok (l ++ l') a.
Proof. intros Hd. eapply Forall_impl; [exact Hd|]. intros [i|]; [|done]. rewrite length_app. lia. Qed.

(** Operations that keep the devices of the nodes. *)
Lemma devices_ok_control l s d b a : devices_ok l a -> devices_ok l (a_add_control s d b a).1.
Proof.
  intros Hd. unfold a_add_control. case_match; [done|]. cbn. unfold devices_ok. cbn. destruct b; [done|]. unfold a_add_control_input.
  destruct (a_nodes a !! s) as [[si|]|]; try done. destruct (a_nodes a !! d) as [[di|]|] eqn:E; try done. case_match; [done|].
  apply devices_ok_set; [done|]. exact (devices_ok_at _ _ _ _ Hd E).
Qed.

Lemma devices_ok_remove_control l s d a : devices_ok l a -> devices_ok l (a_remove_control_input s d a).
Proof.
  intros Hd. unfold a_remove_control_input. destruct (a_nodes a !! s) as [[si|]|]; try done. destruct (a_nodes a !! d) as [[di|]|] eqn:E; try done.
  case_match; [done|]. apply devices_ok_set; [done|]. exact (devices_ok_at _ _ _ _ Hd E).
Qed.

Section GraphReach.
Context {F : Type} `{FlatSetLaws F} `{OpRegistry}.
#[local] Notation Graph := (Graph F).

(** ** What holds of every graph *)
Record good (g : Graph) : Prop := {
  good_wf : wf g;
  good_table : table_ok (device_names_ g) (device_names_map_ g);
  good_devices : devices_ok (device_names_ g) (abs g);
  good_source : exists n, nodes_ g !! 0%nat = Some (Some n);
  good_sink : exists n, nodes_ g !! 1%nat = Some (Some n)
}.

Inductive reachable : Graph -> Prop :=
  | reach_new g : Graph_ctor empty_graph = Done (tt, g) -> reachable g
  | reach_op g op r g' : reachable g -> op_ok g op -> run_op op g = Done (r, g') -> reachable g'.

(** ** Steps *)
Lemma tables_spec_table (g : Graph) op r g' : table_ok (device_names_ g) (device_names_map_ g) -> tables_spec g op r g' ->
  table_ok (device_names_ g') (device_names_map_ g') /\ exists l, device_names_ g' = device_names_ g ++ l.
Proof using Type*.
  intros Ht Hs. assert (rest g' = rest g -> table_ok (device_names_ g') (device_names_map_ g') /\ exists l, device_names_ g' = device_names_ g ++ l) as Hsame.
  { intros [= _ -> -> _]. split; [done|]. exists []. by rewrite app_nil_r. }
  destruct op; simpl in Hs; try (by apply Hsame); try tauto; destruct Hs as [_ [= _ -> -> _]]; (split; [done|]); exists []; by rewrite app_nil_r.
Qed.

Lemma op_spec_devices (g : Graph) op r g' l : op_spec g op r g' -> device_names_ g' = device_names_ g ++ l -> device_names_ g <> [] ->
  devices_ok (device_names_ g) (abs g) -> devices_ok (device_names_ g') (abs g').
Proof using Type*.
  intros Hs El Hne Hd0. rewrite El. pose proof (devices_ok_more _ l _ Hd0) as Hd. clear Hd0. revert Hd. rewrite <- El. intros Hd.
  assert (0 < Z.of_nat (length (device_names_ g'))) as Hpos by (rewrite El, length_app; destruct (device_names_ g); [done|simpl; lia]).
  destruct op; simpl in Hs.
  - destruct (node_props def) as [st|[props cls]]; [by destruct Hs as [_ ->]|]. destruct Hs as (n & w & t & _ & _ & _ & ->).
    unfold devices_ok. cbn. apply Forall_app. split; [done|]. apply Forall_singleton. cbn. lia.
  - destruct Hs as (i & _ & _ & _ & _ & ->). by apply Forall_insert.
  - by destruct Hs as (i & j & e & _ & _ & _ & _ & _ & ->).
  - by destruct Hs as (k & _ & _ & _ & ->).
  - destruct Hs as (i & j & e & _ & _ & _ & _ & -> & _). by apply devices_ok_control.
  - destruct Hs as (k & ae & _ & _ & _ & _ & ->). by apply devices_ok_remove_control.
  - destruct Hs as (i & j & t & _ & _ & _ & _ & _ & Hu). revert Hu. generalize (abs g'). intros a' Hu. destruct Hu; try done.
    apply devices_ok_set; [done|]. cbn [info_device set_inputs]. by eapply (devices_ok_at _ (abs g)).
  - destruct Hs as (i & j & t & _ & _ & _ & _ & _ & Hu). revert Hu. generalize (abs g'). intros a' Hu. destruct Hu; try done.
    apply devices_ok_set; [done|]. cbn [info_device set_inputs]. by eapply (devices_ok_at _ (abs g)).
  - destruct Hs as (i & v & k & _ & Hv & _ & Hk & Hl & ->). apply devices_ok_set; [done|]. cbn. apply lookup_lt_Some in Hl. lia.
  - destruct Hs as (i & v & _ & Hv & _ & ->). apply devices_ok_set; [done|]. exact (devices_ok_at _ (abs g) i v Hd Hv).
  - destruct Hs as (i & v & _ & Hv & _ & ->). apply devices_ok_set; [done|]. exact (devices_ok_at _ (abs g) i v Hd Hv).
  - by destruct Hs as [_ ->].
  - by destruct Hs as [_ ->].
Qed.

(** The nodes that stay: all but the one that is removed. *)
Lemma op_spec_nodes (g : Graph) op r g' i n : op_spec g op r g' -> nodes_ g !! i = Some (Some n) -> (i < 2)%nat -> nodes_ g' !! i = Some (Some n).
Proof using Type*.
  intros Hs Hi Hlt. assert (nodes_ g' = nodes_ g -> nodes_ g' !! i = Some (Some n)) as Hsame by congruence. destruct op; simpl in Hs; try (apply Hsame; naive_solver).
  - destruct (node_props def) as [st|[props cls]]; [by destruct Hs as [_ ->]|]. destruct Hs as (m & w & t & _ & -> & _). by apply lookup_app_l_Some.
  - destruct Hs as (j & Hj & _ & _ & -> & _). rewrite list_lookup_insert_ne by lia. done.
Qed.

Lemma good_op (g : Graph) op : good g -> op_ok g op -> exists r g', run_op op g = Done (r, g') /\ good g' /\ op_spec g op r g' /\ tables_spec g op r g'.
Proof using Type*.
  intros [Hwf Ht Hd [so Hso] [si Hsi]] Hok. destruct (run_op_spec g op Hwf Ht Hok) as (r & g' & E & Hwf' & Hs & Hts).
  destruct (tables_spec_table g op r g' Ht Hts) as [Ht' [l El]]. exists r, g'. split_and!; try done. split; try done.
  - eapply op_spec_devices; try done. intros E0. destruct Ht as [Ht _]. by rewrite E0 in Ht.
  - exists so. eapply op_spec_nodes; try done. lia.
  - exists si. eapply op_spec_nodes; try done. lia.
Qed.

(** ** The constructor *)
Definition end_props (name : string) : Status + (NodeProperties * NodeClass) := node_props (mkNodeDef name "NoOp" [] "").

Lemma add_end_run (g : Graph) name k : wf g -> free_nodes_ g = [] -> k = Z.of_nat (length (nodes_ g)) ->
  match end_props name with
  | inl _ => add_end name k g = Crash
  | inr (p, cls) => exists n g', add_end name k g = Done (n, g') /\ node_added n (mkInfo k cls p 0 None None) g g' /\ free_nodes_ g' = []
  end.
Proof using Type*.
  intros Hwf Hf ->. pose proof (AddNode_run g (mkNodeDef name "NoOp" [] "") Hwf) as Hrun. unfold end_props.
  destruct (node_props _) as [s|[p cls]].
  - unfold add_end, bind at 1. rewrite Hrun. unfold CHECK, bind. cbn. by destruct (ok s).
  - destruct Hrun as (n & w & t & g' & E & Hadd & Hfree & _). destruct (Hfree Hf) as (-> & -> & Hf'). unfold add_end, bind at 1. rewrite E. unfold CHECK, bind at 1. cbn [fst snd ok].
    pose proof Hadd as (Hwf' & Hn & _). assert (nodes_ g' !! length (nodes_ g) = Some (Some n)) as Hi by (by rewrite Hn, lookup_app_r, Nat.sub_diag by lia).
    destruct (live_node _ _ _ _ n Hwf') as [x Hx]; [by eexists|]. unfold get_node, bind, ret. rewrite Hx, (node_id g' _ _ _ Hwf' Hi Hx), Z.eqb_refl.
    exists n, g'. done.
Qed.

Lemma wf_empty : wf (set_device_names [""%string] ∅ (empty_graph (F := F))).
Proof using Type*.
  split; cbn.
  - apply map_Forall_empty.
  - done.
  - done.
  - intros m e. rewrite no_stale. split; [by intros (x & Hx%lookup_empty_Some & _)|by intros (x & [[i Hi] _] & _)].
  - intros m e. rewrite no_stale. split; [by intros (x & Hx%lookup_empty_Some & _)|by intros (x & [[i Hi] _] & _)].
  - split; [constructor|by intros m ?%not_elem_of_nil].
  - split; [constructor|by intros m ?%not_elem_of_nil].
  - by intros m [x Hx%lookup_empty_Some].
  - by intros e [i Hi].
  - done.
  - done.
Qed.

Lemma Graph_ctor_run :
  match end_props "_SOURCE", end_props "_SINK" with
  | inr (p, c), inr (p', c') => exists g : Graph, Graph_ctor empty_graph = Done (tt, g) /\ good g /\ free_nodes_ g = [] /\
      abs g = mkAGraph [Some (mkInfo 0 c p 0 None None); Some (mkInfo 1 c' p' 0 None None)] [Some (a_control_edge 0 1)]
  | _, _ => Graph_ctor (F := F) empty_graph = Crash
  end.
Proof using Type*.
  pose proof wf_empty as Hwf0. set (g0 := set_device_names [""%string] ∅ empty_graph) in *.
  pose proof (add_end_run g0 "_SOURCE" kSourceId Hwf0 eq_refl eq_refl) as Hr0.
  destruct (end_props "_SOURCE") as [s|[p c]]; [unfold Graph_ctor, bind; cbn -[add_end]; fold g0; by rewrite Hr0|]. destruct Hr0 as (so & g1 & E1 & Hadd1 & Hf1).
  pose proof Hadd1 as (Hwf1 & Hn1 & Hr1 & _). cbn in Hn1.
  pose proof (add_end_run g1 "_SINK" kSinkId Hwf1 Hf1) as Hsi. rewrite Hn1 in Hsi. specialize (Hsi eq_refl).
  destruct (end_props "_SINK") as [s|[p' c']]; [unfold Graph_ctor, bind; cbn -[add_end]; fold g0; rewrite E1; by rewrite Hsi|]. destruct Hsi as (si & g2 & E2 & Hadd2 & Hf2).
  unfold Graph_ctor, bind. cbn -[add_end AddControlEdge]. fold g0. rewrite E1, E2. pose proof Hadd2 as (Hwf2 & Hn2 & Hr2 & _). rewrite Hn1 in Hn2. cbn in Hn2.
  assert (nodes_ g2 !! 0%nat = Some (Some so)) as Hs0 by (by rewrite Hn2). assert (nodes_ g2 !! 1%nat = Some (Some si)) as Hs1 by (by rewrite Hn2).
  assert (room g2) as Hroom2 by (destruct Hadd1 as (_ & _ & _ & _ & He1 & _), Hadd2 as (_ & _ & _ & _ & He2 & _); unfold room; by rewrite He2, He1).
  destruct (AddControlEdge_run g2 0 1 so si false Hwf2 Hroom2 Hs0 Hs1) as (r & g3 & E3 & Hwf3 & Ha3 & Hn3 & Hr3 & Hf3 & _).
  rewrite E3. exists g3. split; [done|].
  rewrite (abs_node_added g1 g2 si _ Hwf1 Hadd2), (abs_node_added g0 g1 so _ Hwf0 Hadd1) in Ha3. cbn in Ha3.
  assert (rest g3 = rest g0) as Hr by congruence. injection Hr as _ Hd Hm _. split; [|split; [congruence|done]]. split.
  - done.
  - rewrite Hd, Hm. split_and!; [done|done|]. intros s i. rewrite lookup_empty. split; [done|]. intros (Hs & Hi & Hl).
    destruct (Z.to_nat i) eqn:Ei; [lia|done].
  - rewrite Hd, Ha3. unfold devices_ok. cbn. by repeat constructor.
  - exists so. by rewrite Hn3.
  - exists si. by rewrite Hn3.
Qed.

(** Where there is a graph, the constructor returns. *)
Lemma reachable_built (g : Graph) : reachable g -> exists (g0 : Graph) p c p' c', Graph_ctor empty_graph = Done (tt, g0) /\ good g0 /\ free_nodes_ g0 = [] /\
  abs g0 = mkAGraph [Some (mkInfo 0 c p 0 None None); Some (mkInfo 1 c' p' 0 None None)] [Some (a_control_edge 0 1)].
Proof using Type*.
  induction 1 as [g Hg|]; [|done]. pose proof Graph_ctor_run as Hc. destruct (end_props "_SOURCE") as [?|[p c]]; [congruence|].
  destruct (end_props "_SINK") as [?|[p' c']]; [congruence|]. destruct Hc as (g' & Hc). eauto 10.
Qed.

Lemma reachable_graph (g : Graph) : reachable g -> good g.
Proof using Type*.
  induction 1 as [g Hg|g op r g' _ IH Hok Hrun].
  - destruct (reachable_built g (reach_new g Hg)) as (g' & p & c & p' & c' & E & Hgood & _). congruence.
  - destruct (good_op g op IH Hok) as (r2 & g2 & E & Hg & _). congruence.
Qed.
End GraphReach.

(** * Copies of graphs *)

(** ** Abstract copies *)

(** The number of nodes that are there before id [i]. *)
Definition rank {A} (l : list (option A)) (i : nat) : nat := length (omap id (take i l)).

Definition renumber (f : nat -> nat) (e : AEdge) : AEdge := mkAEdge (f (a_src e)) (a_out e) (f (a_dst e)) (a_in e).

(** A node and its copy, with the tables of names of their graphs. *)
Definition copy_of (names names' : list string) (i i' : NodeInfo) : Prop :=
  info_cost i' = info_cost i /\ info_class i' = info_class i /\ info_props i' = info_props i /\ info_trace i' = info_trace i /\ info_while i' = None /\
  0 <= info_device i' /\ names' !! Z.to_nat (info_device i') = names !! Z.to_nat (info_device i).

Lemma copy_of_more names names' l i i' : 0 <= info_device i < Z.of_nat (length names) -> copy_of names names' i i' -> copy_of names (names' ++ l) i i'.
Proof.
  intros Hr (? & ? & ? & ? & ? & ? & Hn). split_and!; try done. rewrite <- Hn. apply lookup_app_l.
  destruct (lookup_lt_is_Some_2 names (Z.to_nat (info_device i))) as [s Hs]; [lia|]. rewrite Hs in Hn. by eapply lookup_lt_Some.
Qed.

Lemma a_set_last i i' a : a_set_node (length (a_nodes a)) i' (a_add_node i a) = a_add_node i' a.
Proof. unfold a_set_node, a_add_node. cbn. f_equal. by rewrite insert_app_r_alt, Nat.sub_diag by lia. Qed.

Lemma present_rank {A} (l : list (option A)) i n : l !! i = Some (Some n) -> omap id l !! rank l i = Some n.
Proof.
  intros Hi. assert (omap id l = omap id (take i l) ++ omap id (Some n :: drop (S i) l)) as -> by (by rewrite <- omap_app, (take_drop_middle l i _ Hi)).
  unfold rank. by rewrite lookup_app_r, Nat.sub_diag by lia.
Qed.

Section GraphCopy.
Context {F : Type} `{FlatSetLaws F} `{OpRegistry}.
#[local] Notation Graph := (Graph F).
#[local] Notation Node := (Node F).

(** ** One node *)

(** What a copy in progress keeps. *)
Record copying (g : Graph) : Prop := {
  copying_wf : wf g;
  copying_table : table_ok (device_names_ g) (device_names_map_ g);
  copying_new : free_nodes_ g = []
}.

Lemma device_name_at (src : Graph) x dev : get_assigned_device_name src x = Done dev -> device_names_ src !! Z.to_nat (assigned_device_name_index_ x) = Some dev.
Proof using Type*. unfold get_assigned_device_name. case_match; [done|]. case_match; [|done]. by intros [= ->]. Qed.

Lemma CopyNode_run (src g : Graph) n x dev data : copying g -> node_heap src !! n = Some x -> get_assigned_device_name src x = Done dev ->
  LookUp (def_op (node_def (props_ x))) = inr data ->
  exists c i x' l g', CopyNode src n g = Done (c, g') /\ copying g' /\ copy_of (device_names_ src) (device_names_ g') (info x) i /\
    nodes_ g' = nodes_ g ++ [Some c] /\ edges_ g' = edges_ g /\ abs g' = a_add_node i (abs g) /\ device_names_ g' = device_names_ g ++ l /\
    node_heap g' !! c = Some x' /\ in_edges_ x' = empty_set /\ out_edges_ x' = empty_set.
Proof using Type*.
  intros [Hwf Ht Hf] Hx Hdev Hlook. destruct (AllocateNode_run g (props_ x) (Some x) (class_ x) Hwf) as (c & w & t & g1 & E1 & Hadd & Hnew & _).
  destruct (Hnew Hf) as (-> & -> & Hf1 & x1 & Hx1 & Hi1 & Ho1). pose proof Hadd as (Hwf1 & Hn1 & Hr1 & _ & He1 & _ & Hst1).
  injection Hr1 as _ Hd1 Hm1 _. assert (nodes_ g1 !! length (nodes_ g) = Some (Some c)) as Hc by (by rewrite Hn1, lookup_app_r, Nat.sub_diag by lia).
  rewrite <- Hd1, <- Hm1 in Ht. destruct (set_assigned_device_name_run g1 _ c x1 dev Hwf1 Ht Hc Hx1)
    as (k & g2 & E2 & Hwf2 & Ha2 & Hn2 & He2 & _ & _ & Hf2 & Hh2 & Ht2 & Hk & Hl2 & l & Hp2).
  assert (node_heap g2 !! c = Some (with_device k x1)) as Hx2 by (by rewrite Hh2, lookup_insert_eq).
  assert (nodes_ g2 !! length (nodes_ g) = Some (Some c)) as Hc2 by congruence.
  set (x3 := mkNode (id_ x1) (cost_id_ x1) (class_ x1) (in_edges_ x1) (out_edges_ x1) (props_ x1) k (while_ctx_ x1) (stack_trace_ x)).
  destruct (put_info_run g2 _ c (with_device k x1) x3 Hwf2 Hc2 Hx2) as (g3 & E3 & Hset & Hh3); try done.
  pose proof Hset as (Hwf3 & Hn3 & Hr3 & _ & He3 & Hf3 & _). injection Hr3 as _ Hd3 Hm3 _.
  assert (info x1 = mkInfo (cost_id_ x) (class_ x) (props_ x) 0 None None) as Hi.
  { assert (stat g1 !! c = Some (static x1)) as Hs by (unfold stat; by rewrite lookup_fmap, Hx1). rewrite Hst1, lookup_insert_eq in Hs.
    apply (inj Some) in Hs. exact (eq_sym (f_equal snd Hs)). }
  exists c, (info x3), x3, l, g3. split.
  { unfold CopyNode. rewrite Hx. unfold bind at 1. rewrite E1. unfold bind at 1, lift. rewrite Hdev. unfold bind at 1. rewrite E2. unfold bind at 1, CHECK.
    rewrite Hlook. unfold bind, SetStackTrace, bind, get_node. rewrite Hx2. change (put_node c _ g2) with (put_node c x3 g2). by rewrite E3. }
  split; [split; congruence|]. split.
  { unfold info in Hi. injection Hi as ? ? ? ? ? ?. rewrite Hd3. split_and!; try done. cbn. rewrite Hl2. symmetry. by apply device_name_at. }
  split_and!; try congruence; [|by rewrite Hh3, lookup_insert_eq|exact Hi1|exact Ho1].
  assert (length (nodes_ g) = length (a_nodes (abs g))) as Elen by (unfold abs; cbn; by rewrite length_map).
  rewrite (abs_node_set g2 g3 _ c _ Hwf2 Hc2 Hset), Ha2, (abs_node_added g g1 c _ Hwf Hadd), Elen. rewrite a_set_last. by rewrite a_set_last.
Qed.

Lemma put_empty_run (g : Graph) i c x x' : wf g -> nodes_ g !! i = Some (Some c) -> node_heap g !! c = Some x -> static x' = static x -> node_ok x' ->
  elements_of (in_edges_ x) = [] -> elements_of (out_edges_ x) = [] -> elements_of (in_edges_ x') = [] -> elements_of (out_edges_ x') = [] ->
  wf (set_node_heap (<[c := x']> (node_heap g)) g) /\ abs (set_node_heap (<[c := x']> (node_heap g)) g) = abs g.
Proof using Type*.
  intros Hwf Hi Hx Hs Hok Hin Hout Hin' Hout'. split.
  - eapply (wf_clear c [] []); [by apply (wf_at_nil 0)|done|done|done| |]; intros e.
    + rewrite Hin', <- Hin, <- (ins_at _ _ _ _ Hx), (wf_ins _ _ _ _ Hwf). apply no_stale.
    + rewrite Hout', <- Hout, <- (outs_at _ _ _ _ Hx), (wf_outs _ _ _ _ Hwf). apply no_stale.
  - unfold abs, abs_node, abs_edge, id_of, stat. cbn. by rewrite (stat_insert _ _ x).
Qed.

Lemma reserve_edges_run (g : Graph) i c x a b : copying g -> nodes_ g !! i = Some (Some c) -> node_heap g !! c = Some x ->
  in_edges_ x = empty_set -> out_edges_ x = empty_set -> Z.of_nat a < max_elements -> Z.of_nat b < max_elements ->
  exists g', reserve_edges c a b g = Done (tt, g') /\ copying g' /\ abs g' = abs g /\ nodes_ g' = nodes_ g /\ edges_ g' = edges_ g /\ rest g' = rest g.
Proof using Type*.
  intros [Hwf Ht Hf] Hi Hx Hin Hout Ha Hb. destruct (reserve_empty (F := F) a Ha) as (s1 & R1 & Ok1 & El1). destruct (reserve_empty (F := F) b Hb) as (s2 & R2 & Ok2 & El2).
  destruct (put_empty_run g i c x (with_in s1 x) Hwf Hi Hx) as [Hwf1 Ha1]; try done; try (by rewrite Hin); try (cbn; by rewrite Hout).
  { split; [done|]. cbn. rewrite Hout. apply no_edges_ok. }
  set (g1 := set_node_heap _ g) in *. assert (node_heap g1 !! c = Some (with_in s1 x)) as Hx1 by apply lookup_insert_eq.
  destruct (put_empty_run g1 i c (with_in s1 x) (with_out s2 (with_in s1 x)) Hwf1 Hi Hx1) as [Hwf2 Ha2]; try done; try (cbn; by rewrite Hout).
  eexists. split; [|split; [split; [exact Hwf2|exact Ht|exact Hf]|split_and!; [congruence|done..]]].
  unfold reserve_edges, get_node, put_node, modify, lift, bind. rewrite Hx, Hin, R1. fold g1. rewrite Hx1. cbn [out_edges_ with_in]. by rewrite Hout, R2.
Qed.

(** ** The two loops *)

(** A node whose device has a name, whose op is registered and whose sets fit. *)
Definition copyable (src : Graph) (n : nat) : Prop :=
  exists x dev data, Z.of_nat (size_of (in_edges_ x)) < max_elements /\ Z.of_nat (size_of (out_edges_ x)) < max_elements /\ node_heap src !! n = Some x /\ get_assigned_device_name src x = Done dev /\ LookUp (def_op (node_def (props_ x))) = inr data.

Lemma device_in_range (src : Graph) x dev : get_assigned_device_name src x = Done dev -> 0 <= info_device (info x) < Z.of_nat (length (device_names_ src)).
Proof using Type*.
  intros Hdev. pose proof (lookup_lt_Some _ _ _ (device_name_at src x dev Hdev)). revert Hdev. unfold get_assigned_device_name.
  destruct (Z.ltb_spec (assigned_device_name_index_ x) 0); [done|]. intros _. cbn. lia.
Qed.

Definition node_copied (src : Graph) (names' : list string) (n : nat) (i : NodeInfo) : Prop :=
  exists x, node_heap src !! n = Some x /\ copy_of (device_names_ src) names' (info x) i.

Lemma copy_nodes_run (src : Graph) ns : forall (g : Graph) nm, copying g -> NoDup ns -> Forall (copyable src) ns ->
  exists nm' cs infos l g', copy_nodes src (map Some ns) nm g = Done (nm', g') /\ copying g' /\ nodes_ g' = nodes_ g ++ map Some cs /\
    edges_ g' = edges_ g /\ abs g' = mkAGraph (a_nodes (abs g) ++ map Some infos) (a_edges (abs g)) /\ device_names_ g' = device_names_ g ++ l /\
    Forall2 (node_copied src (device_names_ g')) ns infos /\ length cs = length ns /\
    (forall k n c, ns !! k = Some n -> cs !! k = Some c -> nm' !! n = Some c) /\ (forall n, n ∉ ns -> nm' !! n = nm !! n).
Proof using Type*.
  induction ns as [|n ns IH]; intros g nm Hg Hnd Hall.
  - exists nm, [], [], [], g. cbn. rewrite !app_nil_r. split_and!; done.
  - apply NoDup_cons in Hnd as [Hn Hnd]. apply Forall_cons in Hall as [(x & dev & data & Hsin & Hsout & Hx & Hdev & Hlook) Hall].
    destruct (CopyNode_run src g n x dev data Hg Hx Hdev Hlook) as (c & i & x1 & l1 & g1 & E1 & Hg1 & Hci & Hn1 & He1 & Ha1 & Hd1 & Hx1 & Hi1 & Ho1).
    assert (nodes_ g1 !! length (nodes_ g) = Some (Some c)) as Hc by (by rewrite Hn1, lookup_app_r, Nat.sub_diag by lia).
    destruct (reserve_edges_run g1 _ c x1 (size_of (in_edges_ x)) (size_of (out_edges_ x)) Hg1 Hc Hx1 Hi1 Ho1 Hsin Hsout) as (g2 & E2 & Hg2 & Ha2 & Hn2 & He2 & Hr2).
    injection Hr2 as _ Hd2 _ _. destruct (IH g2 (<[n := c]> nm) Hg2 Hnd Hall) as (nm' & cs & infos & l & g' & E & Hg' & Hns & Hes & Ha & Hd & Hc2 & Hlen & Hin & Hout).
    exists nm', (c :: cs), (i :: infos), (l1 ++ l), g'. split.
    { cbn [map copy_nodes]. unfold bind at 1. rewrite E1, Hx. unfold bind. by rewrite E2. }
    split_and!; try congruence.
    + rewrite Hns, Hn2, Hn1, <- app_assoc. done.
    + rewrite Ha, Ha2, Ha1. cbn. by rewrite <- app_assoc.
    + rewrite Hd, Hd2, Hd1. by rewrite app_assoc.
    + constructor; [|done]. exists x. split; [done|]. rewrite Hd, Hd2. apply copy_of_more; [by eapply device_in_range|done].
    + simpl. congruence.
    + intros [|k] m b Hm Hb; simpl in Hm, Hb; [|by eapply Hin]. simplify_eq. rewrite Hout by done. apply lookup_insert_eq.
    + intros m [Hmn Hm]%not_elem_of_cons. rewrite Hout by done. by apply lookup_insert_ne.
Qed.

Lemma copy_edges_run (src : Graph) nm (r : nat -> nat) es : wf src -> forall g : Graph, wf g ->
  Z.of_nat (length (edges_ g) + length es) < max_elements -> (forall e, e ∈ es -> live (edges_ src) e) ->
  (forall i n, nodes_ src !! i = Some (Some n) -> exists c, nm !! n = Some c /\ nodes_ g !! r i = Some (Some c)) ->
  exists g', copy_edges src nm es g = Done (tt, g') /\ wf g' /\ nodes_ g' = nodes_ g /\ rest g' = rest g /\
    abs g' = mkAGraph (a_nodes (abs g)) (a_edges (abs g) ++ map (fun e => Some (renumber r e)) (omap (abs_edge src) es)).
Proof using Type*.
  intros Hsrc. induction es as [|e es IH]; intros g Hwf Hfit Hes Hnm.
  - exists g. split_and!; try done. destruct (abs g). cbn. by rewrite app_nil_r.
  - destruct (Hes e) as [k Hk]; [left|]. destruct (wf_edges _ _ _ _ Hsrc k e Hk) as (x & Hx & _).
    destruct (abs_edge_live src k e x Hsrc Hk Hx) as (i & j & Hi & Hj & Ha). unfold abs in Ha. cbn in Ha. rewrite list_lookup_fmap, Hk in Ha. simpl in Ha.
    apply (inj Some) in Ha. destruct (Hnm i _ Hi) as (s & Hs & Hns). destruct (Hnm j _ Hj) as (d & Hd & Hnd).
    simpl length in Hfit. assert (room g) as Hroom by (unfold room; lia).
    destruct (AddEdge_run g s (src_output_ x) d (dst_input_ x) Hwf Hroom) as (e' & g1 & E1 & Hadd); [by eexists|by eexists|].
    pose proof Hadd as (Hwf1 & _ & Hn1 & Hr1 & _ & He1 & _).
    destruct (IH g1 Hwf1) as (g' & E & Hwf' & Hn' & Hr' & Ha'); [rewrite He1, length_app; simpl; lia|intros a He; apply Hes; by right|by rewrite Hn1|].
    exists g'. split. { cbn [copy_edges]. rewrite Hx, Hs, Hd. unfold bind. by rewrite E1. }
    split_and!; try congruence. rewrite Ha', (abs_edge_added g g1 e' _ (r i) (r j) Hadd); [|by apply id_of_at|by apply id_of_at]. cbn. rewrite Ha. cbn.
    by rewrite <- app_assoc.
Qed.

(** ** The whole *)
Lemma omap_present {A B} (f : A -> option B) (l : list (option A)) : omap f (omap id l) = omap id (map (fun o => o ≫= f) l).
Proof using. induction l as [|[x|] l IH]; [done| |done]. simpl. destruct (f x); simpl; [f_equal; exact IH|exact IH]. Qed.

Lemma filter_present {A} (l : list (option A)) : filter is_Some l = map Some (omap id l).
Proof using. 
  induction l as [|[x|] l IH]; [done|rewrite filter_cons_True by eauto; simpl; f_equal; exact IH|].
  rewrite filter_cons_False by (by intros [? ?]). exact IH.
Qed.

(** The nodes of a graph with its two ends. *)
Lemma nodes_ends (g : Graph) so si : nodes_ g !! 0%nat = Some (Some so) -> nodes_ g !! 1%nat = Some (Some si) ->
  exists ns, omap id (nodes_ g) = so :: si :: ns /\ op_nodes g = map Some ns.
Proof using Type*.
  intros H0' H1'. unfold op_nodes, nodes. destruct (nodes_ g) as [|o [|o' l]]; simplify_eq/=. exists (omap id l). split; [done|]. apply filter_present.
Qed.

Lemma live_nodes_nodup (g : Graph) : wf g -> NoDup (omap id (nodes_ g)).
Proof using Type*.
  intros Hwf. apply present_nodup. intros i j n Hi Hj. pose proof (id_of_at g i n Hwf Hi). pose proof (id_of_at g j n Hwf Hj). congruence.
Qed.

Lemma rank_abs (g : Graph) i : wf g -> rank (a_nodes (abs g)) i = rank (nodes_ g) i.
Proof using Type*.
  intros Hwf. unfold rank, abs. cbn [a_nodes]. rewrite firstn_map. symmetry. apply present_map. intros n Hn. apply nodes_present; [done|].
  by apply elem_of_take in Hn as (j & Hj & _); eapply list_elem_of_lookup_2.
Qed.

(** Every op of a node is registered. *)
Definition registered (a : AGraph) : Prop :=
  forall i v, a_nodes a !! i = Some (Some v) -> exists data, LookUp (def_op (node_def (info_props v))) = inr data.

Lemma all_copyable (g : Graph) ns : good g -> room g -> registered (abs g) -> (forall n, n ∈ ns -> live (nodes_ g) n) -> Forall (copyable g) ns.
Proof using Type*.
  intros [Hwf _ Hdev _ _] Hroom Hreg Hns. apply Forall_forall. intros n Hn. destruct (Hns n Hn) as [i Hi]. destruct (live_node _ _ _ _ n Hwf) as [x Hx]; [by exists i|].
  pose proof (abs_node_at g i n x Hi Hx) as Ha. pose proof (devices_ok_at _ _ _ _ Hdev Ha) as Hr. cbn in Hr.
  destruct (lookup_lt_is_Some_2 (device_names_ g) (Z.to_nat (assigned_device_name_index_ x))) as [dev Hd]; [lia|]. destruct (Hreg i _ Ha) as [data Hdata].
  pose proof (map_Forall_lookup_1 _ _ _ _ (wf_ok _ _ _ _ Hwf) Hx) as [Hoki Hoko]. pose proof (ins_fit g _ n x Hwf Hroom Hx Hoki (fun _ Hp => Hp)) as Hfi.
  pose proof (outs_fit g _ n x Hwf Hroom Hx Hoko (fun _ Hp => Hp)) as Hfo. exists x, dev, data. split_and!; [lia|lia|done| |done]. unfold get_assigned_device_name. rewrite (proj2 (Z.ltb_ge _ _)) by lia. by rewrite Hd.
Qed.

Lemma copied_infos (g : Graph) names' ns infos : Forall2 (node_copied g names') ns infos ->
  Forall2 (copy_of (device_names_ g) names') (omap (abs_node g) ns) infos.
Proof using Type*.
  induction 1 as [|n i ns infos (x & Hx & Hc) _ IH]; [constructor|]. simpl. unfold abs_node at 1, stat. rewrite lookup_fmap, Hx. simpl. by constructor.
Qed.

Lemma ends_only_new (g : Graph) so si : wf g -> nodes_ g = [Some so; Some si] -> ends_only g = true.
Proof using Type*.
  intros Hwf Hn. assert (nodes_ g !! 0%nat = Some (Some so)) as E0 by (by rewrite Hn). assert (nodes_ g !! 1%nat = Some (Some si)) as E1 by (by rewrite Hn).
  destruct (live_node _ _ _ _ so Hwf) as [xo Hxo]; [by eexists|]. destruct (live_node _ _ _ _ si Hwf) as [xi Hxi]; [by eexists|].
  unfold ends_only, nodes. rewrite Hn. simpl. rewrite Hxo, Hxi. unfold IsSource, IsSink. by rewrite (node_id g _ _ _ Hwf E0 Hxo), (node_id g _ _ _ Hwf E1 Hxi).
Qed.

Lemma Copy_run (src g : Graph) so si : good src -> room src -> registered (abs src) -> copying g -> nodes_ g = [Some so; Some si] -> (length (edges_ g) <= 1)%nat ->
  exists infos g', Copy src g = Done (tt, g') /\ wf g' /\
    abs g' = mkAGraph (a_nodes (abs g) ++ map Some infos)
               (a_edges (abs g) ++ map (fun e => Some (renumber (rank (a_nodes (abs src))) e)) (omap id (a_edges (abs src)))) /\
    Forall2 (copy_of (device_names_ src) (device_names_ g')) (drop 2 (omap id (a_nodes (abs src)))) infos.
Proof using Type*.
  intros Hsrc Hroom Hreg Hg Hn He. pose proof Hsrc as [Hwf Ht Hdev [o Ho] [i Hi]]. destruct (nodes_ends src o i Ho Hi) as (ns & Hns & Hops).
  pose proof (live_nodes_nodup src Hwf) as Hnd. rewrite Hns in Hnd. apply NoDup_cons in Hnd as [Hoi [Hins Hnd]%NoDup_cons].
  destruct (copy_nodes_run src ns g (<[i := si]> (<[o := so]> ∅)) Hg Hnd) as (nm & cs & infos & l & g1 & E1 & Hg1 & Hn1 & He1 & Ha1 & Hd1 & Hc & Hlen & Hin & Hout).
  { apply all_copyable; [done|done|done|]. intros n Hn'. assert (n ∈ omap id (nodes_ src)) as Hl%elem_of_present by (rewrite Hns; by do 2 right).
    apply list_elem_of_lookup in Hl as [k Hk]. by exists k. }
  destruct (copy_edges_run src nm (rank (nodes_ src)) (edges src) Hwf g1 (copying_wf _ Hg1)) as (g2 & E2 & Hwf2 & Hn2 & Hr2 & Ha2).
  { rewrite He1. unfold room in Hroom. enough (length (edges src) <= length (edges_ src))%nat by lia. apply live_edges_bound; [by apply live_edges_nodup|].
    intros e [j Hj]%elem_of_present%list_elem_of_lookup. by exists j. }
  { intros e [j Hj]%elem_of_present%list_elem_of_lookup. by exists j. }
  { intros k n Hk. pose proof (present_rank _ _ _ Hk) as Hrk. rewrite Hns in Hrk. rewrite Hn1, Hn. destruct (rank (nodes_ src) k) as [|[|m]]; simpl in Hrk |- *.
    - simplify_eq. exists so. split; [|done]. rewrite Hout by set_solver. rewrite lookup_insert_ne by set_solver. apply lookup_insert_eq.
    - simplify_eq. exists si. split; [|done]. rewrite Hout by done. apply lookup_insert_eq.
    - destruct (lookup_lt_is_Some_2 cs m) as [c Hcm]; [rewrite Hlen; by eapply lookup_lt_Some|]. exists c. split; [by eapply Hin|]. by rewrite list_lookup_fmap, Hcm. }
  exists infos, g2. injection Hr2 as _ Hd2 _ _. split.
  { assert (FindNodeId g kSourceId = Some so) as F1 by (unfold FindNodeId; by rewrite Hn).
    assert (FindNodeId g kSinkId = Some si) as F2 by (unfold FindNodeId; by rewrite Hn).
    assert (FindNodeId src kSourceId = Some o) as F3 by exact (f_equal mjoin Ho). assert (FindNodeId src kSinkId = Some i) as F4 by exact (f_equal mjoin Hi).
    unfold Copy, get, CHECK, bind. by rewrite (ends_only_new g so si (copying_wf _ Hg) Hn), F1, F2, F3, F4, Hops, E1. }
  split; [done|]. split.
  - rewrite Ha2, Ha1. cbn [a_nodes a_edges]. f_equal. f_equal. unfold edges. rewrite omap_present. apply map_ext. intros e. unfold renumber.
    by rewrite !rank_abs.
  - rewrite Hd2. unfold abs. cbn [a_nodes]. rewrite <- omap_present, Hns. apply copied_infos in Hc. simpl.
    destruct (live_node _ _ _ _ o Hwf) as [xo Hxo]; [by eexists|]. destruct (live_node _ _ _ _ i Hwf) as [xi Hxi]; [by eexists|].
    unfold abs_node at 1 2, stat. rewrite !lookup_fmap, Hxo, Hxi. simpl. done.
Qed.

Lemma Clone_run (src : Graph) : reachable src -> room src -> registered (abs src) ->
  exists so si infos g', Clone src = Done g' /\ wf g' /\
    abs g' = mkAGraph (Some so :: Some si :: map Some infos)
               (Some (a_control_edge 0 1) :: map (fun e => Some (renumber (rank (a_nodes (abs src))) e)) (omap id (a_edges (abs src)))) /\
    Forall2 (copy_of (device_names_ src) (device_names_ g')) (drop 2 (omap id (a_nodes (abs src)))) infos.
Proof using Type*.
  intros Hsrc Hroom Hreg. destruct (reachable_built src Hsrc) as (g0 & p & c & p' & c' & E0 & Hg0 & Hf & Ha). pose proof Hg0 as [Hwf0 Ht0 _ [so Hso] [si Hsi]].
  assert (nodes_ g0 = [Some so; Some si]) as Hn0.
  { apply (f_equal (fun a => length (a_nodes a))) in Ha. unfold abs in Ha. cbn in Ha. rewrite length_map in Ha.
    destruct (nodes_ g0) as [|? [|? [|? ?]]]; simplify_eq/=; done. }
  assert (length (edges_ g0) <= 1)%nat as He0.
  { apply (f_equal (fun a => length (a_edges a))) in Ha. unfold abs in Ha. cbn in Ha. rewrite length_map in Ha. lia. }
  destruct (Copy_run src g0 so si (reachable_graph src Hsrc) Hroom Hreg) as (infos & g' & E & Hwf & Ha' & Hinfos); [by split|done|done|].
  eexists _, _, infos, g'. unfold Clone, bind. rewrite E0, E. split; [done|]. split; [done|]. rewrite Ha', Ha. done.
Qed.
End GraphCopy.
