(* ===== verification/GraphTheorems.v ===== *)
(** * A graph on concrete data *)
From S2P Require Import Prelude FlatRep EdgeSet Graph GraphInv GraphUpdate GraphSpec.
From stdpp Require Import list gmap strings options.
#[local] Open Scope Z_scope.
#[local] Open Scope tf_monad_scope.

(** Edges at addresses of 64 bytes, and sets of them in the table of [FlatRep]. *)
Definition demo_address (e : nat) : Z := 4096 + 64 * Z.of_nat e.

#[local] Instance demo_sets : FlatSet (FlatRep nat) := pointer_set demo_address.

#[local] Instance demo_sets_laws : FlatSetLaws (FlatRep nat) := pointer_set_laws demo_address.

(** The conditions of requests, decided. *)
Definition liveb (l : list (option nat)) (n : nat) : bool := bool_decide (Some n ∈ l).

Definition roomb (g : Graph (FlatRep nat)) : bool := Z.of_nat (length (edges_ g)) + 1 <? max_elements.

Definition op_okb (g : Graph (FlatRep nat)) (op : Op) : bool :=
  match op with
  | DoAddNode _ | DoNewName _ | DoAddWhileContext _ => true
  | DoSetDevice n _ | DoSetWhile n _ | DoSetStackTrace n _ => liveb (nodes_ g) n
  | DoRemoveNode n => liveb (drop 2 (nodes_ g)) n
  | DoAddEdge s _ d _ | DoAddControlEdge s d _ | DoAddWhileInput s _ d => roomb g && (liveb (nodes_ g) s && liveb (nodes_ g) d)
  | DoRemoveEdge e | DoRemoveControlEdge e => liveb (edges_ g) e
  | DoUpdateEdge s _ d y => roomb g && (liveb (nodes_ g) s && (liveb (nodes_ g) d &&
      match node_heap g !! d with Some x => (num_inputs x <=? y) || (y <? Z.of_nat (length (def_input (node_def (props_ x))))) | None => true end))
  end.

Lemma liveb_live l n : liveb l n = true -> live l n.
Proof. unfold liveb. rewrite bool_decide_eq_true. intros [i Hi]%list_elem_of_lookup. by exists i. Qed.

Lemma roomb_room g : roomb g = true -> room g.
Proof. apply Z.ltb_lt. Qed.

Lemma op_okb_ok g op : op_okb g op = true -> op_ok g op.
Proof.
  destruct op; simpl; rewrite ?andb_true_iff; intros Hok; try done; try (by apply liveb_live);
    try (by destruct Hok as (? & ? & ?); split_and!; [apply roomb_room|apply liveb_live|apply liveb_live]).
  - apply liveb_live in Hok as [i Hi]. rewrite lookup_drop in Hi. exists (2 + i)%nat. split; [lia|done].
  - destruct Hok as (Hr & Hs & Hd & Hx). split_and!; [by apply roomb_room|by apply liveb_live|by apply liveb_live|]. intros x E Hy. rewrite E in Hx.
    apply orb_true_iff in Hx as [Hx%Z.leb_le|Hx%Z.ltb_lt]; lia.
Qed.

(** Requests that meet their conditions build a reachable graph. *)
Section Build.
Context `{OpRegistry}.

Fixpoint run_checked (ops : list Op) (g : Graph (FlatRep nat)) : option (Graph (FlatRep nat)) :=
  match ops with
  | [] => Some g
  | op :: ops => if op_okb g op then match run_op op g with Done (_, g) => run_checked ops g | _ => None end else None
  end.

Definition build (ops : list Op) : option (Graph (FlatRep nat)) :=
  match Graph_ctor empty_graph with Done (_, g) => run_checked ops g | _ => None end.

Lemma run_checked_reachable ops g g' : reachable g -> run_checked ops g = Some g' -> reachable g'.
Proof.
  revert g. induction ops as [|op ops IH]; intros g Hg Hr; simpl in Hr; [by simplify_eq|]. destruct (op_okb g op) eqn:Hok; [|done].
  destruct (run_op op g) as [[r g1]| |] eqn:E; try done. eapply IH; [|exact Hr]. eapply reach_op; [done|by apply op_okb_ok|done].
Qed.

Lemma build_reachable ops g : build ops = Some g -> reachable g.
Proof.
  unfold build. destruct (Graph_ctor empty_graph) as [[[] g0]| |] eqn:E; try done. intros Hr. by apply (run_checked_reachable ops g0 g); [apply reach_new|].
Qed.

Lemma build_default ops : is_Some (build ops) -> reachable (default empty_graph (build ops)).
Proof using. intros [g E]. rewrite E. by apply (build_reachable ops). Qed.
End Build.

(** A registry of two ops. *)
#[export] Instance demo_registry : OpRegistry := {
  OpData := list Z;
  LookUp op := if bool_decide (op = "NoOp"%string) then inr [] else if bool_decide (op = "Exit"%string) then inr [1] else inl (StatusError NOT_FOUND);
  is_function_op _ := false;
  InOutTypesForNode _ types := inr (types, types)
}.

Definition exit_def (name : string) (inputs : list string) : NodeDef := mkNodeDef name "Exit" inputs "".

(** Two nodes with ten edges between them, more than an array holds, and a while
    context at the second. *)
Definition demo_ops : list Op :=
  [DoAddNode (exit_def "a" []); DoAddNode (exit_def "b" ["a"%string]); DoAddEdge 2 0 3 0; DoSetWhile 3 (Some "loop"%string)] ++
  replicate 9 (DoAddControlEdge 2 3 true).

Definition demo_graph : Graph (FlatRep nat) := default empty_graph (build demo_ops).

Lemma demo_reachable : reachable demo_graph.
Proof. apply build_default. vm_compute. eauto. Qed.

(** * What is shown of graphs *)

(** ** Ids of abstract graphs *)

(** An id that was removed stays unused. *)
Definition holes_stay (a a' : AGraph) : Prop :=
  (forall i, a_nodes a !! i = Some None -> a_nodes a' !! i = Some None) /\ (forall i, a_edges a !! i = Some None -> a_edges a' !! i = Some None).

Lemma holes_stay_refl a : holes_stay a a.
Proof. done. Qed.

Lemma holes_stay_trans a b c : holes_stay a b -> holes_stay b c -> holes_stay a c.
Proof. intros [H1 H2] [H3 H4]. split; auto. Qed.

Lemma holes_add_node i a : holes_stay a (a_add_node i a).
Proof. split; [|done]. intros k Hk. by apply lookup_app_l_Some. Qed.

Lemma holes_add_edge e a : holes_stay a (a_add_edge e a).
Proof. split; [done|]. intros k Hk. by apply lookup_app_l_Some. Qed.

Lemma hole_insert {A} (l : list (option A)) i k : l !! k = Some None -> <[i := None]> l !! k = Some None.
Proof.
  intros Hk. destruct (decide (k = i)) as [->|]; [|by rewrite list_lookup_insert_ne]. rewrite list_lookup_insert_eq; [done|]. by eapply lookup_lt_Some.
Qed.

Lemma holes_remove_edge k a : holes_stay a (a_remove_edge k a).
Proof. split; [done|]. intros i. apply hole_insert. Qed.

Lemma holes_remove_node n a : holes_stay a (a_remove_node n a).
Proof. split; [intros i; apply hole_insert|]. intros i Hi. cbn. by rewrite list_lookup_fmap, Hi. Qed.

Lemma holes_set_node n i j a : a_nodes a !! n = Some (Some j) -> holes_stay a (a_set_node n i a).
Proof. intros Hn. split; [|done]. intros k Hk. cbn. rewrite list_lookup_insert_ne; [done|]. intros ->. congruence. Qed.

Create HintDb graph_holes.
#[local] Hint Resolve holes_stay_refl holes_add_node holes_add_edge holes_remove_edge holes_remove_node : graph_holes.

Lemma holes_add_control_input s d a : holes_stay a (a_add_control_input s d a).
Proof.
  unfold a_add_control_input. destruct (a_nodes a !! s) as [[si|]|]; auto with graph_holes. destruct (a_nodes a !! d) as [[di|]|] eqn:Ed; auto with graph_holes.
  case_match; [done|]. by eapply holes_set_node.
Qed.

Lemma holes_remove_control_input s d a : holes_stay a (a_remove_control_input s d a).
Proof.
  unfold a_remove_control_input. destruct (a_nodes a !! s) as [[si|]|]; auto with graph_holes. destruct (a_nodes a !! d) as [[di|]|] eqn:Ed; auto with graph_holes.
  case_match; [done|]. by eapply holes_set_node.
Qed.

Lemma holes_add_control s d b a : holes_stay a (a_add_control s d b a).1.
Proof.
  unfold a_add_control. case_match; [done|]. cbn [fst]. eapply holes_stay_trans; [|apply holes_add_edge]. destruct b; [done|apply holes_add_control_input].
Qed.

Section GraphTheorems.
Context {F : Type} `{FlatSetLaws F} `{OpRegistry}.
#[local] Notation Graph := (Graph F).

Lemma op_spec_holes (g : Graph) op r g' : op_spec g op r g' -> holes_stay (abs g) (abs g').
Proof using Type*.
  intros Hs. destruct op; simpl in Hs.
  - destruct (node_props def) as [st|[props cls]]; [by destruct Hs as [_ ->]|]. destruct Hs as (n & w & t & _ & _ & _ & ->). apply holes_add_node.
  - destruct Hs as (i & _ & _ & _ & _ & ->). apply holes_remove_node.
  - destruct Hs as (i & j & e & _ & _ & _ & _ & _ & ->). apply holes_add_edge.
  - destruct Hs as (k & _ & _ & _ & ->). apply holes_remove_edge.
  - destruct Hs as (i & j & e & _ & _ & _ & _ & -> & _). apply holes_add_control.
  - destruct Hs as (k & ae & _ & _ & _ & _ & ->). eapply holes_stay_trans; [apply holes_remove_control_input|apply holes_remove_edge].
  - destruct Hs as (i & j & t & _ & _ & _ & _ & _ & Hu). revert Hu. generalize (abs g'). intros a' Hu. destruct Hu; auto with graph_holes.
    eapply holes_stay_trans; [apply holes_remove_edge|]. eapply holes_stay_trans; [apply holes_add_edge|]. by eapply holes_set_node.
  - destruct Hs as (i & j & t & _ & _ & _ & _ & _ & Hu). revert Hu. generalize (abs g'). intros a' Hu. destruct Hu; auto with graph_holes.
    eapply holes_stay_trans; [apply holes_add_edge|]. by eapply holes_set_node.
  - destruct Hs as (i & v & k & _ & Hv & _ & _ & _ & ->). by eapply holes_set_node.
  - destruct Hs as (i & v & _ & Hv & _ & ->). by eapply holes_set_node.
  - destruct Hs as (i & v & _ & Hv & _ & ->). by eapply holes_set_node.
  - by destruct Hs as [_ ->].
  - by destruct Hs as [_ ->].
Qed.

(** The edges of a node, as edges of the abstract graph. *)
Lemma adjacent_edges (g : Graph) i n x (set : EdgeSet F) (at_node : Graph -> nat -> nat -> bool) (q : AEdge -> bool) : wf g ->
  elements_of set ≡ₚ filter (fun e => at_node g n e = true) (omap id (edges_ g)) ->
  (forall j e y s d, edges_ g !! j = Some (Some e) -> edge_heap g !! e = Some y -> nodes_ g !! s = Some (Some (src_ y)) ->
     nodes_ g !! d = Some (Some (dst_ y)) -> q (mkAEdge s (src_output_ y) d (dst_input_ y)) = at_node g n e) ->
  nodes_ g !! i = Some (Some n) -> node_heap g !! n = Some x ->
  omap (abs_edge g) (elements_of set) ≡ₚ filter (fun e => q e = true) (omap id (a_edges (abs g))).
Proof using Type*.
  intros Hwf Hset Hq Hi Hx. unfold abs. cbn [a_edges]. rewrite (filter_abs g (at_node g n) q).
  - by rewrite Hset.
  - intros e He. apply list_elem_of_lookup in He as [j Hj]. destruct (wf_edges _ _ _ _ Hwf j e Hj) as (y & Hy & _).
    destruct (abs_edge_live g j e y Hwf Hj Hy) as (s & d & Hs & Hd & Ha). unfold abs in Ha. cbn in Ha. rewrite list_lookup_fmap, Hj in Ha. simpl in Ha.
    apply (inj Some) in Ha. eexists. split; [exact Ha|]. by apply (Hq j e y s d).
Qed.

(** ** Theorems *)

(** C15. Every operation of a graph that was built by the constructor and such
    operations returns, with no [CHECK] failing and no pointer that dangles, when
    its arguments are nodes and edges of the graph, there is room for an edge that
    it adds, it removes neither the source nor the sink, and the input an update
    redirects is listed in the [NodeDef] of its node ([UpdateEdge] overwrites that
    entry without testing that it is there); and it has the effect on the
    multigraph of ids that [op_spec] states: removing a node removes it and just
    the edges that touch it, adding an edge adds one with the next id, an update
    that fails changes nothing. *)
Theorem graph_refines (g : Graph) (op : Op) : reachable g -> op_ok g op ->
  exists r g', run_op op g = Done (r, g') /\ reachable g' /\ op_spec g op r g' /\ tables_spec g op r g'.
Proof using Type*.
  intros Hg Hok. destruct (good_op g op (reachable_graph g Hg) Hok) as (r & g' & E & _ & Hs & Ht). exists r, g'. split_and!; try done.
  by eapply reach_op.
Qed.

(** C16. In every graph that can be built, the source and the sink have ids 0 and
    1, the counts of nodes and edges are right, a node is found under its id, and
    the edges a node holds are the edges of the graph that enter and leave it,
    each once. *)
Theorem graph_invariant (g : Graph) : reachable g ->
  (exists so si, FindNodeId g kSourceId = Some so /\ FindNodeId g kSinkId = Some si) /\
  num_nodes_ g = Z.of_nat (length (omap id (a_nodes (abs g)))) /\ num_edges_ g = Z.of_nat (length (omap id (a_edges (abs g)))) /\
  forall i n, FindNodeId g (Z.of_nat i) = Some n -> exists x, node_heap g !! n = Some x /\ id_ x = Z.of_nat i /\ IsValidNode g (Some n) = Done StatusOK /\
    NoDup (elements_of (in_edges_ x)) /\ NoDup (elements_of (out_edges_ x)) /\
    omap (abs_edge g) (elements_of (in_edges_ x)) ≡ₚ filter (fun e => (a_dst e =? i)%nat = true) (omap id (a_edges (abs g))) /\
    omap (abs_edge g) (elements_of (out_edges_ x)) ≡ₚ filter (fun e => (a_src e =? i)%nat = true) (omap id (a_edges (abs g))).
Proof using Type*.
  intros [Hwf _ _ [so Hso] [si Hsi]]%reachable_graph. split_and!.
  - exists so, si. split; [exact (f_equal mjoin Hso)|exact (f_equal mjoin Hsi)].
  - by apply num_nodes_abs.
  - by apply num_edges_abs.
  - intros i n Hf. unfold FindNodeId in Hf. rewrite Nat2Z.id in Hf. destruct (nodes_ g !! i) as [[m|]|] eqn:Hi; simpl in Hf; simplify_eq.
    destruct (live_node _ _ _ _ n Hwf) as [x Hx]; [by exists i|]. exists x. pose proof (wf_ok _ _ _ _ Hwf n x Hx) as [Hoi Hoo].
    assert (forall k m, nodes_ g !! k = Some (Some m) -> (k =? i)%nat = (m =? n)%nat) as Hid.
    { intros k m Hk. apply eq_bool_prop_intro. rewrite !Is_true_true, !Nat.eqb_eq. split; [congruence|]. intros ->.
      pose proof (id_of_at g k _ Hwf Hk). pose proof (id_of_at g i _ Hwf Hi). congruence. }
    split_and!; [done|by eapply node_id|by eapply IsValidNode_live|by apply set_ok_nodup|by apply set_ok_nodup| |].
    + eapply (adjacent_edges g i n x (in_edges_ x) to_node); try done; [by apply in_edges_perm|].
      intros j e y s d Hj Hy Hs Hd. unfold to_node. rewrite Hy. cbn. by apply Hid.
    + eapply (adjacent_edges g i n x (out_edges_ x) from_node); try done; [by apply out_edges_perm|].
      intros j e y s d Hj Hy Hs Hd. unfold from_node. rewrite Hy. cbn. by apply Hid.
Qed.

(** An id is never given out again: the entry of a node or an edge that was
    removed stays empty, whatever is done to the graph later. *)
Theorem graph_ids_not_reused (g : Graph) (op : Op) r g' : reachable g -> op_ok g op -> run_op op g = Done (r, g') -> holes_stay (abs g) (abs g').
Proof using Type*.
  intros Hg Hok E. destruct (good_op g op (reachable_graph g Hg) Hok) as (r2 & g2 & E2 & _ & Hs & _). assert (g2 = g') as <- by congruence.
  by eapply op_spec_holes.
Qed.

(** A node that is added after the removal of another is made of the same
    object and keeps the while context and the stack trace of the node that was
    removed: [Clear] does not reset them. *)
Theorem graph_recycled_context (g : Graph) i n x def p : reachable g -> (2 <= i)%nat -> nodes_ g !! i = Some (Some n) -> node_heap g !! n = Some x ->
  node_props def = inr p ->
  exists g' x', (RemoveNode n;;; AddNode def) g = Done ((StatusOK, Some n), g') /\ node_heap g' !! n = Some x' /\
    props_ x' = p.1 /\ while_ctx_ x' = while_ctx_ x /\ stack_trace_ x' = stack_trace_ x.
Proof using Type*.
  intros [Hwf _ _ _ _]%reachable_graph _ Hi Hx Hp. destruct (RemoveNode_run g i n x Hwf Hi Hx) as (g1 & E1 & Hrem & Hfree & x1 & Hx1 & Hs1).
  destruct Hrem as (Hwf1 & _). pose proof (AddNode_run g1 def Hwf1) as Hadd. rewrite Hp in Hadd. destruct p as [props cls].
  destruct Hadd as (m & w & t & g2 & E2 & Hadd & _ & Hrec). destruct (Hrec n _ _ Hfree Hx1) as (-> & -> & ->).
  destruct Hadd as (_ & _ & _ & _ & _ & _ & Hst). assert (stat g2 !! n = Some (Z.of_nat (length (nodes_ g1)),
    mkInfo (Z.of_nat (length (nodes_ g1))) cls props 0 (while_ctx_ x1) (stack_trace_ x1))) as Hn by (by rewrite Hst, lookup_insert_eq).
  apply stat_lookup in Hn as (x2 & Hx2 & Hs2). exists g2, x2. unfold bind. rewrite E1, E2. split; [done|]. split; [done|].
  pose proof (f_equal snd Hs1) as Hi1. pose proof (f_equal snd Hs2) as Hi2. unfold info in Hi1, Hi2. cbn in Hi1, Hi2.
  injection Hi1 as _ _ _ _ Hw Ht. injection Hi2 as _ _ Hp2 _ Hw2 Ht2. cbn. split_and!; congruence.
Qed.

(** C30. The clone of a graph whose ops are registered, with room for its edges, has a copy of every node
    but the source and the sink, in the order of the ids and with its properties
    and the name of its device, and a copy of every edge between the copies of
    its ends; but it has one edge more, as the edge from source to sink that the
    constructor made stays beside the copy of the original's. *)
Theorem graph_clone (src : Graph) : reachable src -> room src -> registered (abs src) ->
  exists so si infos g', Clone src = Done g' /\
    abs g' = mkAGraph (Some so :: Some si :: map Some infos)
               (Some (a_control_edge 0 1) :: map (fun e => Some (renumber (rank (a_nodes (abs src))) e)) (omap id (a_edges (abs src)))) /\
    Forall2 (copy_of (device_names_ src) (device_names_ g')) (drop 2 (omap id (a_nodes (abs src)))) infos /\
    num_nodes_ g' = num_nodes_ src /\ num_edges_ g' = num_edges_ src + 1.
Proof using Type*.
  intros Hsrc Hroom Hreg. destruct (Clone_run src Hsrc Hroom Hreg) as (so & si & infos & g' & E & Hwf & Ha & Hinfos). exists so, si, infos, g'. split_and!; try done.
  - pose proof (reachable_graph src Hsrc) as [Hwfs _ _ [o Ho] [i Hi]]. rewrite (num_nodes_abs g' Hwf), (num_nodes_abs src Hwfs), Ha. cbn [a_nodes].
    apply Forall2_length in Hinfos. rewrite length_drop in Hinfos. simpl. rewrite present_all, <- Hinfos.
    destruct (nodes_ends src o i Ho Hi) as (ns & Hns & _). unfold abs in *. cbn [a_nodes] in *.
    rewrite <- present_map in *; [rewrite Hns; simpl; lia|apply (nodes_present src Hwfs)..].
  - pose proof (reachable_graph src Hsrc) as [Hwfs _ _ _ _]. rewrite (num_edges_abs g' Hwf), (num_edges_abs src Hwfs), Ha. cbn [a_edges].
    rewrite <- (map_map (renumber _) Some). simpl. rewrite present_all, length_map. lia.
Qed.
End GraphTheorems.

(** ** On concrete graphs *)
Lemma demo_remove_ok : op_ok demo_graph (DoRemoveNode 3).
Proof. apply op_okb_ok. vm_compute. reflexivity. Qed.

Lemma graph_refines_witness : exists r g', run_op (DoRemoveNode 3) demo_graph = Done (r, g') /\ reachable g' /\
  op_spec demo_graph (DoRemoveNode 3) r g' /\ tables_spec demo_graph (DoRemoveNode 3) r g'.
Proof. exact (graph_refines demo_graph (DoRemoveNode 3) demo_reachable demo_remove_ok). Defined.

Lemma graph_invariant_witness : num_nodes_ demo_graph = Z.of_nat (length (omap id (a_nodes (abs demo_graph)))).
Proof. exact (proj1 (proj2 (graph_invariant demo_graph demo_reachable))). Defined.

Lemma graph_ids_not_reused_witness : exists r g', run_op (DoRemoveNode 3) demo_graph = Done (r, g') /\ holes_stay (abs demo_graph) (abs g').
Proof.
  destruct (run_op (DoRemoveNode 3) demo_graph) as [[r g']| |] eqn:E; [|vm_compute in E; discriminate|vm_compute in E; discriminate].
  exists r, g'. split; [reflexivity|]. exact (graph_ids_not_reused demo_graph (DoRemoveNode 3) r g' demo_reachable demo_remove_ok E).
Defined.

(** The new node has the while context of the one removed. *)
Lemma graph_recycled_context_witness : exists g' x', (RemoveNode 3;;; AddNode (exit_def "c" [])) demo_graph = Done ((StatusOK, Some 3%nat), g') /\
  node_heap g' !! 3%nat = Some x' /\ def_name (node_def (props_ x')) = "c"%string /\ while_ctx_ x' = Some "loop"%string.
Proof.
  destruct (node_heap demo_graph !! 3%nat) as [x|] eqn:Ex; [|vm_compute in Ex; discriminate].
  assert (while_ctx_ x = Some "loop"%string) as Hw by (revert Ex; vm_compute; by intros [= <-]).
  destruct (graph_recycled_context demo_graph 3 3 x (exit_def "c" []) (mkProps (exit_def "c" []) [1] [1], NC_EXIT) demo_reachable)
    as (g' & x' & E & Hx & Hp & Hw' & _); [lia|vm_compute; reflexivity|exact Ex|vm_compute; reflexivity|].
  exists g', x'. rewrite Hp, Hw', Hw. split; [exact E|]. split; [exact Hx|]. split; reflexivity.
Defined.

Lemma demo_registered : registered (abs demo_graph).
Proof.
  intros i v. vm_compute. do 4 (destruct i as [|i]; [intros [= <-]; eauto|]). done.
Qed.

Lemma demo_room : room demo_graph.
Proof. apply roomb_room. vm_compute. reflexivity. Qed.

Lemma graph_clone_witness : exists g', Clone demo_graph = Done g' /\ num_edges_ g' = 12.
Proof.
  destruct (graph_clone demo_graph demo_reachable demo_room demo_registered) as (so & si & infos & g' & E & _ & _ & _ & Hn). exists g'. split; [exact E|].
  rewrite Hn. vm_compute. reflexivity.
Defined.
