(* ===== verification/Numbers.v ===== *)
(** * Text, numbers and prefixes (src/tensorflow/core/platform/numbers.cc, str_util.cc)

    A text is a list of characters, each a byte.  Decimal and hexadecimal
    printing, the strict parsers of integers and the reader of leading digits are
    translated loop by loop; they are compared with the value of a list of
    digits.  What is used of the Abseil library, which is not part of the
    sources, is the class [Absl]. *)
From S2P Require Import Prelude.
From stdpp Require Import list strings options.
#[local] Open Scope Z_scope.

Definition text : Type := list Z.

Definition chars (s : string) : text := map (fun a => Z.of_N (Ascii.N_of_ascii a)) (String.list_ascii_of_string s).

Definition isdigit (c : Z) : bool := (48 <=? c) && (c <=? 57).

Definition isspace (c : Z) : bool := (c =? 32) || ((9 <=? c) && (c <=? 13)).

(** [absl::ConsumePrefix] returns the rest when the prefix is there;
    [absl::AsciiStrToLower] changes the letters from A to Z. *)
Class Absl := {
  ConsumePrefix : text -> text -> option text;
  AsciiStrToLower : text -> text
}.

Class AbslLaws `{Absl} : Prop := {
  ConsumePrefix_found s p : ConsumePrefix (p ++ s) p = Some s;
  ConsumePrefix_only s p r : ConsumePrefix s p = Some r -> s = p ++ r;
  AsciiStrToLower_spec s : AsciiStrToLower s = map (fun c => if (65 <=? c) && (c <=? 90) then c + 32 else c) s
}.

(** ** Printing *)

(** The digits of a number, the last first; 20 are enough for 64 bits. *)
Fixpoint digits_loop (fuel : nat) (i : Z) : text :=
  match fuel with
  | O => []
  | S fuel => (i mod 10 + 48) :: (if 0 <? i / 10 then digits_loop fuel (i / 10) else [])
  end.

Definition FastUInt32ToBufferLeft (i : Z) : text := rev (digits_loop 20 i).

Definition FastInt32ToBufferLeft (i : Z) : text :=
  if i <? 0 then 45 :: FastUInt32ToBufferLeft (u32 (0 - u32 i)) else FastUInt32ToBufferLeft (u32 i).

Definition FastUInt64ToBufferLeft (i : Z) : text := rev (digits_loop 20 i).

Definition FastInt64ToBufferLeft (i : Z) : text :=
  if i <? 0 then 45 :: FastUInt64ToBufferLeft (u64 (0 - u64 i)) else FastUInt64ToBufferLeft (u64 i).

(** The characters from the last to the first. *)
Fixpoint hex_loop (n : nat) (v : Z) (buf : text) : text :=
  match n with
  | O => buf
  | S n => hex_loop n (Z.shiftr v 4) (nth (Z.to_nat (Z.land v 15)) (chars "0123456789abcdef") 0 :: buf)
  end.

Definition Uint64ToHexString (v : Z) : text := hex_loop 16 v [].

(** ** Parsing *)
Definition SafeFirstChar (s : text) : Z := match s with [] => 0 | c :: _ => c end.

Fixpoint SkipSpaces (s : text) : text :=
  match s with
  | c :: s' => if isspace c then SkipSpaces s' else s
  | [] => []
  end.

(** The loop over digits that the parsers share: [step] is the body. *)
Fixpoint digit_loop (step : Z -> Z -> option Z) (s : text) (result : Z) : option (Z * text) :=
  match s with
  | c :: s' =>
      if isdigit c then
        match step result (c - 48) with
        | Some result => digit_loop step s' result
        | None => None
        end
      else Some (result, s)
  | [] => Some (result, [])
  end.

(** What follows the number: spaces only. *)
Definition finish (o : option (Z * text)) : option Z :=
  match o with
  | Some (result, s) => if bool_decide (SkipSpaces s = []) then Some result else None
  | None => None
  end.

Definition step_u64 (result digit : Z) : option Z :=
  if (2 ^ 64 - 1 - digit) / 10 <? result then None else Some (u64 (result * 10 + digit)).

Definition safe_strtou64 (s : text) : option Z :=
  let s := SkipSpaces s in
  if negb (isdigit (SafeFirstChar s)) then None else finish (digit_loop step_u64 s 0).

(** Division of the source rounds toward zero. *)
Definition step_i64 (result digit : Z) : option Z :=
  if Z.quot (2 ^ 63 - 1 - digit) 10 <? result then None else Some (result * 10 + digit).

Definition step_neg_i64 (result digit : Z) : option Z :=
  if result <? Z.quot (- 2 ^ 63 + digit) 10 then None else Some (result * 10 - digit).

Definition step_max (vmax result digit : Z) : option Z :=
  let result := result * 10 + digit in if vmax <? result then None else Some result.

Definition safe_strtou32 (s : text) : option Z :=
  let s := SkipSpaces s in
  if negb (isdigit (SafeFirstChar s)) then None
  else option_map u32 (finish (digit_loop (step_max (2 ^ 32 - 1)) s 0)).

Section Signed.
Context `{Absl}.

Definition safe_strto64 (s : text) : option Z :=
  let s := SkipSpaces s in
  let '(s, negative) := match ConsumePrefix s (chars "-") with Some s => (s, true) | None => (s, false) end in
  if negb (isdigit (SafeFirstChar s)) then None
  else if negative then finish (digit_loop step_neg_i64 s 0)
  else finish (digit_loop step_i64 s 0).

Definition safe_strto32 (s : text) : option Z :=
  let s := SkipSpaces s in
  let '(s, sign, vmax) := match ConsumePrefix s (chars "-") with Some s => (s, -1, 2 ^ 31) | None => (s, 1, 2 ^ 31 - 1) end in
  if negb (isdigit (SafeFirstChar s)) then None
  else option_map (fun result => i32 (result * sign)) (finish (digit_loop (step_max vmax) s 0)).
End Signed.

Definition hex_value (c : Z) : option Z :=
  if (48 <=? c) && (c <=? 57) then Some (c - 48)
  else if (97 <=? c) && (c <=? 102) then Some (10 + (c - 97))
  else if (65 <=? c) && (c <=? 70) then Some (10 + (c - 65))
  else None.

Fixpoint hex_parse (s : text) (v : Z) : option Z :=
  match s with
  | [] => Some v
  | c :: s => match hex_value c with Some d => hex_parse s (u64 (u64 (Z.shiftl v 4) + d)) | None => None end
  end.

Definition HexStringToUint64 (s : text) : option Z := match s with [] => None | _ => hex_parse s 0 end.

(** [v * 10 + (c - '0')], or the overflow. *)
Definition step_leading (v digit : Z) : option Z :=
  let new_v := u64 (v * 10 + digit) in if new_v / 8 <? v then None else Some new_v.

Definition ConsumeLeadingDigits (s : text) : option (Z * text) :=
  match digit_loop step_leading s 0 with
  | Some (v, rest) => if (length rest <? length s)%nat then Some (v, rest) else None
  | None => None
  end.

(** * The value of digits *)
Definition is_number (ds : text) : Prop := ds <> [] /\ Forall (fun c => isdigit c = true) ds.

Definition decimal_from (v : Z) (ds : text) : Z := fold_left (fun v c => v * 10 + (c - 48)) ds v.

Definition decimal (ds : text) : Z := decimal_from 0 ds.

Lemma isdigit_spec c : isdigit c = true <-> 48 <= c <= 57.
Proof. unfold isdigit. rewrite andb_true_iff, !Z.leb_le. done. Qed.

Lemma decimal_app v a b : decimal_from v (a ++ b) = decimal_from (decimal_from v a) b.
Proof. apply fold_left_app. Qed.

Lemma decimal_from_ge v ds : 0 <= v -> Forall (fun c => isdigit c = true) ds -> v <= decimal_from v ds.
Proof.
  intros Hv Hds. revert v Hv. induction Hds as [|c ds Hc _ IH]; intros v Hv; [done|]. apply isdigit_spec in Hc.
  change (decimal_from v (c :: ds)) with (decimal_from (v * 10 + (c - 48)) ds). specialize (IH (v * 10 + (c - 48))). lia.
Qed.

(** ** The digits printed *)
Lemma digits_loop_spec fuel i : 0 <= i < 10 ^ Z.of_nat fuel -> (0 < fuel)%nat ->
  is_number (rev (digits_loop fuel i)) /\ decimal (rev (digits_loop fuel i)) = i /\ (length (digits_loop fuel i) <= fuel)%nat.
Proof.
  revert i. induction fuel as [|fuel IH]; intros i Hi Hf; [lia|]. cbn [digits_loop]. pose proof (Z.mod_pos_bound i 10) as Hm.
  assert (isdigit (i mod 10 + 48) = true) as Hd by (apply isdigit_spec; lia). rewrite Nat2Z.inj_succ, Z.pow_succ_r in Hi by lia.
  destruct (Z.ltb_spec 0 (i / 10)) as [Hpos|Hzero].
  - assert (0 <= i / 10 < 10 ^ Z.of_nat fuel) as Hi' by (split; [lia|apply Z.div_lt_upper_bound; lia]).
    destruct (IH (i / 10)) as ([_ Hall] & Hv & Hlen); [done|destruct fuel; [simpl in Hi'; lia|lia]|]. cbn [rev]. split_and!.
    + split; [by intros []%app_eq_nil|]. apply Forall_app. split; [done|by apply Forall_singleton].
    + unfold decimal in *. rewrite decimal_app, Hv. cbn. pose proof (Z.div_mod i 10). lia.
    + simpl. lia.
  - split_and!; [split; [done|by apply Forall_singleton]| |simpl; lia]. cbn. pose proof (Z.div_mod i 10). pose proof (Z.div_pos i 10). lia.
Qed.

Lemma FastUInt64_spec i : 0 <= i < 2 ^ 64 -> is_number (FastUInt64ToBufferLeft i) /\ decimal (FastUInt64ToBufferLeft i) = i /\ (length (FastUInt64ToBufferLeft i) <= 20)%nat.
Proof. intros Hi. unfold FastUInt64ToBufferLeft. rewrite length_rev. apply digits_loop_spec; lia. Qed.

(** ** The parsers against the value *)
Fixpoint take_digits (s : text) : text * text :=
  match s with
  | c :: s' => if isdigit c then let '(ds, rest) := take_digits s' in (c :: ds, rest) else ([], s)
  | [] => ([], [])
  end.

Lemma take_digits_spec s : s = (take_digits s).1 ++ (take_digits s).2 /\ Forall (fun c => isdigit c = true) (take_digits s).1 /\
  isdigit (SafeFirstChar (take_digits s).2) = false.
Proof.
  induction s as [|c s IH]; [done|]. cbn [take_digits]. destruct (isdigit c) eqn:Ec; [|cbn; split_and!; [done|constructor|done]].
  destruct (take_digits s) as [ds rest]. cbn in *. destruct IH as (E & Hds & Hr). split_and!; [congruence|by constructor|done].
Qed.

Lemma take_digits_app ds rest : Forall (fun c => isdigit c = true) ds -> isdigit (SafeFirstChar rest) = false -> take_digits (ds ++ rest) = (ds, rest).
Proof.
  intros Hds Hr. induction Hds as [|c ds Hc _ IH]; cbn [take_digits app].
  - destruct rest as [|c rest]; [done|]. cbn in *. by rewrite Hr.
  - by rewrite Hc, IH.
Qed.

(** A body that keeps [sgn * r] exact up to a limit. *)
Definition exact_step (step : Z -> Z -> option Z) (sgn limit : Z) : Prop :=
  forall r d, 0 <= r <= limit -> 0 <= d <= 9 -> step (sgn * r) d = if r * 10 + d <=? limit then Some (sgn * (r * 10 + d)) else None.

Lemma digit_loop_exact step sgn limit ds rest r : exact_step step sgn limit -> Forall (fun c => isdigit c = true) ds -> isdigit (SafeFirstChar rest) = false ->
  0 <= r <= limit -> digit_loop step (ds ++ rest) (sgn * r) = if decimal_from r ds <=? limit then Some (sgn * decimal_from r ds, rest) else None.
Proof.
  intros Hstep Hds Hrest. revert r. induction Hds as [|c ds Hc Hds IH]; intros r Hr.
  - cbn [app decimal_from fold_left]. rewrite (proj2 (Z.leb_le r limit)) by lia. destruct rest as [|c rest]; [done|]. cbn in Hrest |- *. by rewrite Hrest.
  - pose proof (proj1 (isdigit_spec c) Hc) as Hb. cbn [app digit_loop]. rewrite Hc, Hstep by lia.
    change (decimal_from r (c :: ds)) with (decimal_from (r * 10 + (c - 48)) ds). destruct (Z.leb_spec (r * 10 + (c - 48)) limit) as [Hle|Hgt].
    + apply IH. lia.
    + pose proof (decimal_from_ge (r * 10 + (c - 48)) ds). rewrite (proj2 (Z.leb_gt _ _)); [done|]. specialize (H ltac:(lia) Hds). lia.
Qed.

Lemma step_u64_exact : exact_step step_u64 1 (2 ^ 64 - 1).
Proof.
  intros r d Hr Hd. rewrite !Z.mul_1_l. unfold step_u64. pose proof (Z.div_mod (2 ^ 64 - 1 - d) 10) as Hdm. pose proof (Z.mod_pos_bound (2 ^ 64 - 1 - d) 10) as Hm.
  destruct (Z.ltb_spec ((2 ^ 64 - 1 - d) / 10) r) as [Hlt|Hge]; destruct (Z.leb_spec (r * 10 + d) (2 ^ 64 - 1)); try lia; [done|].
  f_equal. apply Z.mod_small. lia.
Qed.

Lemma step_i64_exact : exact_step step_i64 1 (2 ^ 63 - 1).
Proof.
  intros r d Hr Hd. rewrite !Z.mul_1_l. unfold step_i64. rewrite Z.quot_div_nonneg by lia.
  pose proof (Z.div_mod (2 ^ 63 - 1 - d) 10) as Hdm. pose proof (Z.mod_pos_bound (2 ^ 63 - 1 - d) 10) as Hm.
  destruct (Z.ltb_spec ((2 ^ 63 - 1 - d) / 10) r) as [Hlt|Hge]; destruct (Z.leb_spec (r * 10 + d) (2 ^ 63 - 1)); try lia; done.
Qed.

Lemma step_neg_i64_exact : exact_step step_neg_i64 (-1) (2 ^ 63).
Proof.
  intros r d Hr Hd. unfold step_neg_i64. replace (- 2 ^ 63 + d) with (- (2 ^ 63 - d)) by lia. rewrite Z.quot_opp_l, Z.quot_div_nonneg by lia.
  pose proof (Z.div_mod (2 ^ 63 - d) 10) as Hdm. pose proof (Z.mod_pos_bound (2 ^ 63 - d) 10) as Hm.
  destruct (Z.ltb_spec (-1 * r) (- ((2 ^ 63 - d) / 10))) as [Hlt|Hge]; destruct (Z.leb_spec (r * 10 + d) (2 ^ 63)); try lia; [done|]. f_equal. lia.
Qed.

Lemma step_max_exact vmax : exact_step (step_max vmax) 1 vmax.
Proof.
  intros r d Hr Hd. rewrite !Z.mul_1_l. unfold step_max. destruct (Z.ltb_spec vmax (r * 10 + d)); destruct (Z.leb_spec (r * 10 + d) vmax); try lia; done.
Qed.

(** The test [new_v / 8 < v] finds every overflow and no other case. *)
Lemma step_leading_exact : exact_step step_leading 1 (2 ^ 64 - 1).
Proof.
  intros r d Hr Hd. rewrite !Z.mul_1_l. unfold step_leading. cbv zeta. unfold u64, uwrap. destruct (Z.leb_spec (r * 10 + d) (2 ^ 64 - 1)) as [Hle|Hgt].
  - rewrite Z.mod_small by lia. rewrite (proj2 (Z.ltb_ge _ _)); [done|]. apply Z.div_le_lower_bound; lia.
  - rewrite (proj2 (Z.ltb_lt _ _)); [done|]. apply Z.div_lt_upper_bound; [lia|]. pose proof (Z.div_mod (r * 10 + d) (2 ^ 64)) as Hdm.
    pose proof (Z.mod_pos_bound (r * 10 + d) (2 ^ 64)) as Hm. assert (1 <= (r * 10 + d) / 2 ^ 64) by (apply Z.div_le_lower_bound; lia).
    lia.
Qed.

(** What a parser should answer: spaces, a sign where it is allowed, digits,
    spaces, and a value within the limits. *)
Definition parse_number (signed : bool) (min max : Z) (s : text) : option Z :=
  let s := SkipSpaces s in
  let '(sgn, s) := match s with c :: s' => if signed && (c =? 45) then (-1, s') else (1, s) | [] => (1, s) end in
  let '(ds, rest) := take_digits s in
  let v := sgn * decimal ds in
  if bool_decide (ds <> [] /\ SkipSpaces rest = [] /\ min <= v <= max) then Some v else None.

Lemma first_digit s : isdigit (SafeFirstChar s) = bool_decide ((take_digits s).1 <> []).
Proof.
  destruct s as [|c s]; [done|]. cbn. destruct (isdigit c); [|done]. by destruct (take_digits s).
Qed.

(** One parser after its sign: [out] times the value of the digits. *)
Definition after_sign (out min max : Z) (s : text) : option Z :=
  let '(ds, rest) := take_digits s in
  let v := out * decimal ds in
  if bool_decide (ds <> [] /\ SkipSpaces rest = [] /\ min <= v <= max) then Some v else None.

Lemma parse_digits step sgn limit out min max (g : Z -> Z) s : exact_step step sgn limit -> 0 <= limit ->
  (forall r, 0 <= r -> (min <= out * r <= max <-> r <= limit)) -> (forall r, 0 <= r <= limit -> g (sgn * r) = out * r) ->
  (if negb (isdigit (SafeFirstChar s)) then None else option_map g (finish (digit_loop step s 0))) = after_sign out min max s.
Proof.
  intros Hstep Hlim Hrange Hg. rewrite first_digit. unfold after_sign. pose proof (take_digits_spec s) as (E & Hds & Hrest). destruct (take_digits s) as [ds rest].
  cbn [fst snd] in *. destruct (decide (ds = [])) as [->|Hne]; [rewrite !bool_decide_eq_false_2 by tauto; done|]. rewrite (bool_decide_eq_true_2 (ds <> [])) by done. cbn [negb].
  subst s. replace 0 with (sgn * 0) at 1 by lia. rewrite (digit_loop_exact step sgn limit ds rest 0) by (done || lia). fold (decimal ds).
  assert (0 <= decimal ds) as Hpos by (by apply (decimal_from_ge 0 ds)). destruct (Z.leb_spec (decimal ds) limit) as [Hle|Hgt]; cbn [finish option_map].
  - rewrite (bool_decide_ext (ds <> [] /\ SkipSpaces rest = [] /\ min <= out * decimal ds <= max) (SkipSpaces rest = [])) by (rewrite Hrange; tauto).
    case_bool_decide; [|done]. cbn. by rewrite Hg by lia.
  - rewrite bool_decide_eq_false_2; [done|]. rewrite Hrange by done. lia.
Qed.

Lemma parse_digits_plain step sgn limit min max s : exact_step step sgn limit -> 0 <= limit -> (forall r, 0 <= r -> (min <= sgn * r <= max <-> r <= limit)) ->
  (if negb (isdigit (SafeFirstChar s)) then None else finish (digit_loop step s 0)) = after_sign sgn min max s.
Proof.
  intros Hstep Hlim Hrange. rewrite <- (parse_digits step sgn limit sgn min max (fun r => r) s Hstep Hlim Hrange) by done. destruct (negb _); [done|]. by destruct (finish _).
Qed.

(** ** Prefixes *)
Fixpoint strip (p s : text) : option text :=
  match p, s with
  | [], _ => Some s
  | x :: p, y :: s => if x =? y then strip p s else None
  | _ :: _, [] => None
  end.

Lemma strip_app p s : strip p (p ++ s) = Some s.
Proof. induction p as [|x p IH]; [done|]. cbn. by rewrite Z.eqb_refl. Qed.

Lemma strip_Some p s r : strip p s = Some r -> s = p ++ r.
Proof.
  revert s. induction p as [|x p IH]; intros s E; cbn in E; [by injection E as ->|]. destruct s as [|y s]; [done|]. destruct (Z.eqb_spec x y) as [->|]; [|done].
  cbn. f_equal. by apply IH.
Qed.

(** The library functions as definitions. *)
#[export] Instance strip_absl : Absl := {
  ConsumePrefix s p := strip p s;
  AsciiStrToLower := map (fun c => if (65 <=? c) && (c <=? 90) then c + 32 else c)
}.

#[export] Instance strip_absl_laws : AbslLaws.
Proof. split; [intros; apply strip_app|intros s p r; apply strip_Some|done]. Qed.

Section Parsers.
Context `{AbslLaws}.

Lemma ConsumePrefix_strip s p : ConsumePrefix s p = strip p s.
Proof using Type*.
  destruct (strip p s) as [r|] eqn:E.
  - apply strip_Some in E as ->. apply ConsumePrefix_found.
  - destruct (ConsumePrefix s p) as [r|] eqn:E'; [|done]. apply ConsumePrefix_only in E' as ->. by rewrite strip_app in E.
Qed.

Lemma ConsumePrefix_char c s : ConsumePrefix s [c] = match s with d :: s' => if d =? c then Some s' else None | [] => None end.
Proof using Type*.
  rewrite ConsumePrefix_strip. destruct s as [|d s]; [done|]. cbn [strip]. by rewrite Z.eqb_sym.
Qed.

(** The four parsers answer as [parse_number] with the limits of their type. *)
Lemma parsers_exact s :
  safe_strtou64 s = parse_number false 0 (2 ^ 64 - 1) s /\ safe_strtou32 s = parse_number false 0 (2 ^ 32 - 1) s /\
  safe_strto64 s = parse_number true (- 2 ^ 63) (2 ^ 63 - 1) s /\ safe_strto32 s = parse_number true (- 2 ^ 31) (2 ^ 31 - 1) s.
Proof using Type*.
  unfold safe_strtou64, safe_strtou32, safe_strto64, safe_strto32, parse_number. generalize (SkipSpaces s). clear s. intros s.
  change (chars "-") with [45]. rewrite !ConsumePrefix_char. split_and!.
  - transitivity (after_sign 1 0 (2 ^ 64 - 1) s); [|by destruct s]. apply (parse_digits_plain _ _ _ _ _ s step_u64_exact); lia.
  - transitivity (after_sign 1 0 (2 ^ 32 - 1) s); [|by destruct s].
    apply (parse_digits (step_max (2 ^ 32 - 1)) 1 (2 ^ 32 - 1) 1 0 (2 ^ 32 - 1) u32 s (step_max_exact _)); [lia|lia|]. intros r Hr. unfold u32, uwrap. rewrite Z.mod_small; lia.
  - destruct s as [|c s']; [|cbn [andb]; destruct (c =? 45)].
    + apply (parse_digits_plain _ _ _ (- 2 ^ 63) (2 ^ 63 - 1) [] step_i64_exact); lia.
    + apply (parse_digits_plain _ _ _ (- 2 ^ 63) (2 ^ 63 - 1) s' step_neg_i64_exact); lia.
    + apply (parse_digits_plain _ _ _ (- 2 ^ 63) (2 ^ 63 - 1) (c :: s') step_i64_exact); lia.
  - destruct s as [|c s']; [|cbn [andb]; destruct (c =? 45)].
    + apply (parse_digits (step_max (2 ^ 31 - 1)) 1 (2 ^ 31 - 1) 1 (- 2 ^ 31) (2 ^ 31 - 1) (fun r => i32 (r * 1)) [] (step_max_exact _)); [lia|lia|]. intros r Hr. unfold i32. rewrite Z.mod_small; lia.
    + apply (parse_digits (step_max (2 ^ 31)) 1 (2 ^ 31) (-1) (- 2 ^ 31) (2 ^ 31 - 1) (fun r => i32 (r * -1)) s' (step_max_exact _)); [lia|lia|]. intros r Hr. unfold i32. rewrite Z.mod_small; lia.
    + apply (parse_digits (step_max (2 ^ 31 - 1)) 1 (2 ^ 31 - 1) 1 (- 2 ^ 31) (2 ^ 31 - 1) (fun r => i32 (r * 1)) (c :: s') (step_max_exact _)); [lia|lia|]. intros r Hr. unfold i32. rewrite Z.mod_small; lia.
Qed.
End Parsers.

Lemma leading_digits ds rest : is_number ds -> isdigit (SafeFirstChar rest) = false ->
  ConsumeLeadingDigits (ds ++ rest) = if decimal ds <? 2 ^ 64 then Some (decimal ds, rest) else None.
Proof.
  intros [Hne Hds] Hrest. unfold ConsumeLeadingDigits. change 0 with (1 * 0) at 1. rewrite (digit_loop_exact step_leading 1 (2 ^ 64 - 1)) by (done || lia || apply step_leading_exact).
  fold (decimal ds). rewrite Z.mul_1_l. destruct (Z.leb_spec (decimal ds) (2 ^ 64 - 1)), (Z.ltb_spec (decimal ds) (2 ^ 64)); try lia; [|done].
  rewrite (proj2 (Nat.ltb_lt _ _)); [done|]. rewrite length_app. destruct ds; [done|simpl; lia].
Qed.

Lemma no_leading_digits s : isdigit (SafeFirstChar s) = false -> ConsumeLeadingDigits s = None.
Proof.
  intros Hs. unfold ConsumeLeadingDigits. destruct s as [|c s]; [done|]. cbn [digit_loop SafeFirstChar] in *. rewrite Hs. by rewrite Nat.ltb_irrefl.
Qed.

(** ** Hexadecimal *)
Lemma hex_digit_value d : 0 <= d < 16 -> hex_value (nth (Z.to_nat d) (chars "0123456789abcdef") 0) = Some d.
Proof.
  intros Hd. assert (exists n, (n < 16)%nat /\ d = Z.of_nat n) as (n & Hn & ->) by (exists (Z.to_nat d); lia). rewrite Nat2Z.id.
  do 16 (destruct n as [|n]; [reflexivity|]). lia.
Qed.

Lemma hex_loop_app n v buf : hex_loop n v buf = hex_loop n v [] ++ buf.
Proof.
  revert v buf. induction n as [|n IH]; intros v buf; cbn [hex_loop]; [done|]. rewrite IH, (IH _ [_]), <- app_assoc. done.
Qed.

Lemma hex_loop_length n v buf : length (hex_loop n v buf) = (n + length buf)%nat.
Proof. revert v buf. induction n as [|n IH]; intros v buf; cbn [hex_loop]; [done|]. rewrite IH. simpl. lia. Qed.

Lemma hex_parse_app a b v : hex_parse (a ++ b) v = match hex_parse a v with Some v => hex_parse b v | None => None end.
Proof. revert v. induction a as [|c a IH]; intros v; [done|]. cbn. destruct (hex_value c); [apply IH|done]. Qed.

Lemma hex_parse_loop n v : (n <= 16)%nat -> hex_parse (hex_loop n v []) 0 = Some (v mod 2 ^ (4 * Z.of_nat n)).
Proof.
  intros Hn. revert v. induction n as [|n IH]; intros v; [by rewrite Z.mod_1_r|]. cbn [hex_loop]. rewrite hex_loop_app, hex_parse_app, IH by lia. cbn [hex_parse].
  change 15 with (Z.ones 4). rewrite Z.land_ones, Z.shiftr_div_pow2 by lia. pose proof (Z.mod_pos_bound v (2 ^ 4)) as Hm. rewrite hex_digit_value by lia.
  set (w := 2 ^ (4 * Z.of_nat n)). assert (0 < w <= 2 ^ 60) as Hw by (unfold w; split; [lia|apply Z.pow_le_mono_r; lia]).
  pose proof (Z.mod_pos_bound (v / 2 ^ 4) w) as Hq. rewrite Z.shiftl_mul_pow2 by lia. unfold u64, uwrap.
  rewrite (Z.mod_small ((v / 2 ^ 4) mod w * 2 ^ 4) (2 ^ 64)) by lia. rewrite (Z.mod_small (_ + v mod 2 ^ 4) (2 ^ 64)) by lia.
  f_equal. replace (2 ^ (4 * Z.of_nat (S n))) with (2 ^ 4 * w) by (unfold w; rewrite <- Z.pow_add_r by lia; f_equal; lia).
  rewrite Z.rem_mul_r by lia. lia.
Qed.

Lemma hex_roundtrip v : 0 <= v < 2 ^ 64 -> HexStringToUint64 (Uint64ToHexString v) = Some v.
Proof.
  intros Hv. unfold Uint64ToHexString, HexStringToUint64. pose proof (hex_parse_loop 16 v ltac:(lia)) as Hp. pose proof (hex_loop_length 16 v []) as Hl.
  destruct (hex_loop 16 v []) as [|c s] eqn:E; [done|]. rewrite Hp. f_equal. apply Z.mod_small. lia.
Qed.

(** ** Round trips *)
Lemma skip_nothing s : isspace (SafeFirstChar s) = false -> SkipSpaces s = s.
Proof. destruct s as [|c s]; [done|]. cbn. by intros ->. Qed.

Lemma digit_no_space c : isdigit c = true -> isspace c = false.
Proof.
  intros Hc%isdigit_spec. unfold isspace. rewrite (proj2 (Z.eqb_neq _ _)) by lia. destruct (Z.leb_spec 9 c), (Z.leb_spec c 13); try lia; done.
Qed.

Lemma parse_unsigned signed min max ds : is_number ds -> min <= decimal ds <= max -> parse_number signed min max ds = Some (decimal ds).
Proof.
  intros [Hne Hds] Hr. destruct ds as [|c ds]; [done|]. pose proof Hds as [Hc _]%Forall_cons. unfold parse_number. rewrite skip_nothing by (by apply digit_no_space).
  pose proof (proj1 (isdigit_spec c) Hc). rewrite (proj2 (Z.eqb_neq c 45)), andb_false_r by lia.
  pose proof (take_digits_app (c :: ds) [] Hds eq_refl) as E. rewrite app_nil_r in E. rewrite E, Z.mul_1_l. by rewrite bool_decide_eq_true_2.
Qed.

Lemma parse_negative min max ds : is_number ds -> min <= - decimal ds <= max -> parse_number true min max (45 :: ds) = Some (- decimal ds).
Proof.
  intros [Hne Hds] Hr. unfold parse_number. cbn [SkipSpaces]. change (isspace 45) with false. cbn [andb Z.eqb Pos.eqb].
  pose proof (take_digits_app ds [] Hds eq_refl) as E. rewrite app_nil_r in E. rewrite E. replace (-1 * decimal ds) with (- decimal ds) by lia. by rewrite bool_decide_eq_true_2.
Qed.

Lemma FastInt64_spec i : in_i64 i -> parse_number true (- 2 ^ 63) (2 ^ 63 - 1) (FastInt64ToBufferLeft i) = Some i.
Proof.
  unfold in_i64. intros Hi. unfold FastInt64ToBufferLeft, u64, uwrap. destruct (Z.ltb_spec i 0) as [Hneg|Hpos].
  - assert ((0 - i mod 2 ^ 64) mod 2 ^ 64 = - i) as -> by (rewrite Zminus_mod_idemp_r, Z.mod_small; lia).
    destruct (FastUInt64_spec (- i)) as (Hn & Hv & _); [lia|]. rewrite parse_negative; [f_equal; lia|done|lia].
  - rewrite Z.mod_small by lia. destruct (FastUInt64_spec i) as (Hn & Hv & _); [lia|]. rewrite parse_unsigned; [by rewrite Hv|done|lia].
Qed.

Lemma FastInt32_spec i : in_i32 i -> parse_number true (- 2 ^ 31) (2 ^ 31 - 1) (FastInt32ToBufferLeft i) = Some i.
Proof.
  unfold in_i32. intros Hi. unfold FastInt32ToBufferLeft, u32, uwrap. change FastUInt32ToBufferLeft with FastUInt64ToBufferLeft. destruct (Z.ltb_spec i 0) as [Hneg|Hpos].
  - assert ((0 - i mod 2 ^ 32) mod 2 ^ 32 = - i) as -> by (rewrite Zminus_mod_idemp_r, Z.mod_small; lia).
    destruct (FastUInt64_spec (- i)) as (Hn & Hv & _); [lia|]. rewrite parse_negative; [f_equal; lia|done|lia].
  - rewrite Z.mod_small by lia. destruct (FastUInt64_spec i) as (Hn & Hv & _); [lia|]. rewrite parse_unsigned; [by rewrite Hv|done|lia].
Qed.

(** An [int] that is not negative is printed as its digits. *)
Lemma FastInt32_nonneg i : 0 <= i < 2 ^ 31 -> is_number (FastInt32ToBufferLeft i) /\ decimal (FastInt32ToBufferLeft i) = i.
Proof.
  intros Hi. unfold FastInt32ToBufferLeft. rewrite (proj2 (Z.ltb_ge i 0)) by lia. unfold u32, uwrap. rewrite Z.mod_small by lia.
  destruct (FastUInt64_spec i) as (Hn & Hv & _); [lia|]. done.
Qed.

Lemma leading_digits_exact s : ConsumeLeadingDigits s =
  let '(ds, rest) := take_digits s in if bool_decide (ds <> [] /\ decimal ds < 2 ^ 64) then Some (decimal ds, rest) else None.
Proof.
  pose proof (take_digits_spec s) as (E & Hds & Hrest). pose proof (first_digit s) as Hf. destruct (take_digits s) as [ds rest]. cbn [fst snd] in *.
  destruct (decide (ds = [])) as [->|Hne].
  - rewrite bool_decide_eq_false_2 by tauto. apply no_leading_digits. by rewrite Hf.
  - rewrite E, leading_digits by done. destruct (Z.ltb_spec (decimal ds) (2 ^ 64)); [by rewrite bool_decide_eq_true_2|]. rewrite bool_decide_eq_false_2; [done|]. lia.
Qed.

(** C22. The parsers of integers accept a text exactly when it is a decimal number
    of their type between spaces, and give its value; leading digits are read
    exactly when their value fits 64 bits; and what the printers of 32 and 64 bit
    integers and of hexadecimal fingerprints write is read back. *)
Theorem numbers_exact `{AbslLaws} (s : text) :
  (safe_strtou64 s = parse_number false 0 (2 ^ 64 - 1) s /\ safe_strtou32 s = parse_number false 0 (2 ^ 32 - 1) s /\
   safe_strto64 s = parse_number true (- 2 ^ 63) (2 ^ 63 - 1) s /\ safe_strto32 s = parse_number true (- 2 ^ 31) (2 ^ 31 - 1) s) /\
  (ConsumeLeadingDigits s = let '(ds, rest) := take_digits s in if bool_decide (ds <> [] /\ decimal ds < 2 ^ 64) then Some (decimal ds, rest) else None) /\
  (forall v, 0 <= v < 2 ^ 64 -> safe_strtou64 (FastUInt64ToBufferLeft v) = Some v /\ HexStringToUint64 (Uint64ToHexString v) = Some v) /\
  (forall v, 0 <= v < 2 ^ 32 -> safe_strtou32 (FastUInt32ToBufferLeft v) = Some v) /\
  (forall v, in_i64 v -> safe_strto64 (FastInt64ToBufferLeft v) = Some v) /\ (forall v, in_i32 v -> safe_strto32 (FastInt32ToBufferLeft v) = Some v).
Proof using Type*.
  split; [apply parsers_exact|]. split; [apply leading_digits_exact|]. split_and!.
  - intros v Hv. destruct (parsers_exact (FastUInt64ToBufferLeft v)) as (-> & _). destruct (FastUInt64_spec v Hv) as (Hn & Hd & _).
    rewrite parse_unsigned, Hd by (done || lia). split; [done|by apply hex_roundtrip].
  - intros v Hv. destruct (parsers_exact (FastUInt32ToBufferLeft v)) as (_ & -> & _). destruct (FastUInt64_spec v) as (Hn & Hd & _); [lia|].
    change (FastUInt32ToBufferLeft v) with (FastUInt64ToBufferLeft v). rewrite parse_unsigned, Hd by (done || lia). done.
  - intros v Hv. destruct (parsers_exact (FastInt64ToBufferLeft v)) as (_ & _ & -> & _). by apply FastInt64_spec.
  - intros v Hv. destruct (parsers_exact (FastInt32ToBufferLeft v)) as (_ & _ & _ & ->). by apply FastInt32_spec.
Qed.

Lemma numbers_exact_witness : safe_strto64 (chars " -9223372036854775808 ") = Some (- 2 ^ 63) /\ safe_strto32 (chars "2147483648") = None.
Proof.
  destruct (numbers_exact (chars " -9223372036854775808 ")) as ((_ & _ & E & _) & _). destruct (numbers_exact (chars "2147483648")) as ((_ & _ & _ & E') & _).
  rewrite E, E'. vm_compute. split; reflexivity.
Defined.
