(* ===== verification/DeviceName.v ===== *)
(** * Device names and rendezvous keys (src/tensorflow/core/util/device_name_utils.h
    and .cc, src/tensorflow/core/framework/rendezvous.cc)

    Texts are those of [Numbers].  A loop over a name is cut off after as many
    rounds as it has characters. *)
From S2P Require Import Prelude Numbers.
From stdpp Require Import list strings options.
#[local] Open Scope Z_scope.

(** ** Parsed names *)
Record ParsedName := mkName {
  has_job : bool;
  job : text;
  has_replica : bool;
  replica : Z;
  has_task : bool;
  task : Z;
  has_type : bool;
  type : text;
  has_id : bool;
  id : Z
}.

Definition cleared : ParsedName := mkName false [] false 0 false 0 false [] false 0.

Definition set_job (h : bool) (j : text) (p : ParsedName) : ParsedName :=
  mkName h j (has_replica p) (replica p) (has_task p) (task p) (has_type p) (type p) (has_id p) (id p).

Definition set_replica (h : bool) (r : Z) (p : ParsedName) : ParsedName :=
  mkName (has_job p) (job p) h r (has_task p) (task p) (has_type p) (type p) (has_id p) (id p).

Definition set_task (h : bool) (t : Z) (p : ParsedName) : ParsedName :=
  mkName (has_job p) (job p) (has_replica p) (replica p) h t (has_type p) (type p) (has_id p) (id p).

Definition set_type (h : bool) (t : text) (p : ParsedName) : ParsedName :=
  mkName (has_job p) (job p) (has_replica p) (replica p) (has_task p) (task p) h t (has_id p) (id p).

Definition set_id (h : bool) (i : Z) (p : ParsedName) : ParsedName :=
  mkName (has_job p) (job p) (has_replica p) (replica p) (has_task p) (task p) (has_type p) (type p) h i.

(** [operator==] of one field and of names. *)
Definition eq_field {A} `{EqDecision A} (h : bool) (x : A) (h' : bool) (x' : A) : bool :=
  if h then h' && bool_decide (x = x') else negb h'.

Definition name_eq (a b : ParsedName) : bool :=
  eq_field (has_job a) (job a) (has_job b) (job b) && eq_field (has_replica a) (replica a) (has_replica b) (replica b) &&
  eq_field (has_task a) (task a) (has_task b) (task b) && eq_field (has_type a) (type a) (has_type b) (type b) &&
  eq_field (has_id a) (id a) (has_id b) (id b).

Definition HasSomeDetails (p : ParsedName) : bool := has_job p || has_replica p || has_task p || has_type p || has_id p.

(** ** Characters *)
Definition IsAlpha (c : Z) : bool := ((97 <=? c) && (c <=? 122)) || ((65 <=? c) && (c <=? 90)).

Definition IsAlphaNumOrUnderscore (c : Z) : bool := IsAlpha c || ((48 <=? c) && (c <=? 57)) || (c =? 95).

Definition IsJobName (s : text) : bool := match s with c :: _ => IsAlpha c && forallb IsAlphaNumOrUnderscore s | [] => false end.

(** The characters before the first terminator, and the rest. *)
Fixpoint find_first_of (terminators : text) (s : text) : text * text :=
  match s with
  | c :: s' => if bool_decide (c ∈ terminators) then ([], s) else let '(a, b) := find_first_of terminators s' in (c :: a, b)
  | [] => ([], [])
  end.

Definition ConsumeName (terminators : text) (s : text) : option (text * text) :=
  match s with
  | c :: _ =>
      if IsAlpha c then
        let '(out, rest) := find_first_of terminators s in
        if forallb IsAlphaNumOrUnderscore out then Some (out, rest) else None
      else None
  | [] => None
  end.

Definition ConsumeJobName (s : text) : option (text * text) := ConsumeName (chars "/") s.

Definition ConsumeDeviceType (s : text) : option (text * text) := ConsumeName (chars "/:") s.

(** [*val = tmp], from [uint64] to [int]. *)
Definition ConsumeNumber (s : text) : option (Z * text) :=
  match ConsumeLeadingDigits s with Some (v, rest) => Some (i32 v, rest) | None => None end.

(** ** Printing *)
Definition ParsedNameToString (pn : ParsedName) : text :=
  (if has_job pn then chars "/job:" ++ job pn else []) ++
  (if has_replica pn then chars "/replica:" ++ FastInt32ToBufferLeft (replica pn) else []) ++
  (if has_task pn then chars "/task:" ++ FastInt32ToBufferLeft (task pn) else []) ++
  (if has_type pn then chars "/device:" ++ type pn ++ chars ":" ++ (if has_id pn then FastInt32ToBufferLeft (id pn) else chars "*") else []).

(** [DeviceName], whose arguments are CHECKed. *)
Definition DeviceName (job : text) (replica task : Z) (device_prefix device_type : text) (id : Z) : outcome text :=
  if IsJobName job && (0 <=? replica) && (0 <=? task) && negb (bool_decide (device_type = [])) && (0 <=? id) then
    Done (chars "/job:" ++ job ++ chars "/replica:" ++ FastInt32ToBufferLeft replica ++ chars "/task:" ++ FastInt32ToBufferLeft task ++
          device_prefix ++ device_type ++ chars ":" ++ FastInt32ToBufferLeft id)
  else Crash.

Definition FullName (job : text) (replica task : Z) (type : text) (id : Z) : outcome text :=
  DeviceName job replica task (chars "/device:") type id.

Definition LocalName (type : text) (id : Z) : text := chars "/device:" ++ type ++ chars ":" ++ FastInt32ToBufferLeft id.

Definition LegacyLocalName (type : text) (id : Z) : text := type ++ chars ":" ++ FastInt32ToBufferLeft id.

Definition GetTaskName (pn : ParsedName) : option text :=
  if has_job pn && has_replica pn && has_task pn then
    Some (chars "/job:" ++ job pn ++ chars "/replica:" ++ FastInt32ToBufferLeft (replica pn) ++ chars "/task:" ++ FastInt32ToBufferLeft (task pn))
  else None.

Definition GetLocalNamesForDeviceMappings (pn : ParsedName) : list text :=
  if has_type pn && has_id pn then [LocalName (type pn) (id pn); LegacyLocalName (type pn) (id pn)] else [].

(** ** Parsing *)
Section Parsing.
Context `{Absl}.

Definition LegacyName (job : text) (replica task : Z) (type : text) (id : Z) : outcome text :=
  DeviceName job replica task (chars "/") (AsciiStrToLower type) id.

(** A block of the loop takes the text, the name and whether there was
    progress; [inl] is [return false], with the name as it is then. *)
Definition parse_step : Type := text -> ParsedName -> bool -> ParsedName + text * ParsedName * bool.

(** [has = !ConsumePrefix("*")], and the value when there is one. *)
Definition value_or_any {A} (consume : text -> option (A * text)) (old : A) (set : bool -> A -> ParsedName -> ParsedName) (s : text) (p : ParsedName) :
    ParsedName + text * ParsedName :=
  match ConsumePrefix s (chars "*") with
  | Some s => inr (s, set false old p)
  | None => match consume s with Some (v, s) => inr (s, set true v p) | None => inl (set true old p) end
  end.

Definition progress_of (o : ParsedName + text * ParsedName) : ParsedName + text * ParsedName * bool :=
  match o with inl p => inl p | inr (s, p) => inr (s, p, true) end.

Definition parse_job : parse_step := fun s p progress =>
  match ConsumePrefix s (chars "/job:") with
  | Some s => progress_of (value_or_any ConsumeJobName (job p) set_job s p)
  | None => inr (s, p, progress)
  end.

Definition parse_replica : parse_step := fun s p progress =>
  match ConsumePrefix s (chars "/replica:") with
  | Some s => progress_of (value_or_any ConsumeNumber (replica p) set_replica s p)
  | None => inr (s, p, progress)
  end.

Definition parse_task : parse_step := fun s p progress =>
  match ConsumePrefix s (chars "/task:") with
  | Some s => progress_of (value_or_any ConsumeNumber (task p) set_task s p)
  | None => inr (s, p, progress)
  end.

Definition parse_device : parse_step := fun s p progress =>
  match ConsumePrefix s (chars "/device:") with
  | Some s =>
      match value_or_any ConsumeDeviceType (type p) set_type s p with
      | inl p => inl p
      | inr (s, p) =>
          match ConsumePrefix s (chars ":") with
          | None => inr (s, set_id false (id p) p, true)
          | Some s => progress_of (value_or_any ConsumeNumber (id p) set_id s p)
          end
      end
  | None => inr (s, p, progress)
  end.

(** The legacy names of one type, in lower and in upper case. *)
Definition parse_legacy (lower upper canonical : text) : parse_step := fun s p progress =>
  match match ConsumePrefix s lower with Some s => Some s | None => ConsumePrefix s upper end with
  | Some s => let p := set_type true canonical p in progress_of (value_or_any ConsumeNumber (id p) set_id s p)
  | None => inr (s, p, progress)
  end.

Definition then_block (a b : parse_step) : parse_step := fun s p progress =>
  match a s p progress with inl p => inl p | inr (s, p, progress) => b s p progress end.

Definition parse_round : parse_step :=
  then_block parse_job (then_block parse_replica (then_block parse_task (then_block parse_device
    (then_block (parse_legacy (chars "/cpu:") (chars "/CPU:") (chars "CPU")) (parse_legacy (chars "/gpu:") (chars "/GPU:") (chars "GPU")))))).

(** The result and [*p]. *)
Fixpoint parse_loop (fuel : nat) (s : text) (p : ParsedName) : outcome (bool * ParsedName) :=
  match s with
  | [] => Done (true, p)
  | _ =>
      match fuel with
      | O => OutOfFuel
      | S fuel =>
          match parse_round s p false with
          | inl p => Done (false, p)
          | inr (s, p, progress) => if progress then parse_loop fuel s p else Done (false, p)
          end
      end
  end.

Definition ParseFullName (fullname : text) : outcome (bool * ParsedName) :=
  if bool_decide (fullname = chars "/") then Done (true, cleared) else parse_loop (length fullname) fullname cleared.

(** The name is not cleared. *)
Definition ParseLocalName (s : text) (p : ParsedName) : bool * ParsedName :=
  match ConsumeDeviceType s with
  | None => (false, p)
  | Some (t, s) =>
      let p := set_type true t p in
      match ConsumePrefix s (chars ":") with
      | None => (false, p)
      | Some s =>
          match ConsumeNumber s with
          | None => (false, p)
          | Some (v, s) => (bool_decide (s = []), set_id true v p)
          end
      end
  end.

Definition ParseFullOrLocalName (fullname : text) : outcome (bool * ParsedName) :=
  match ParseFullName fullname with
  | Done (true, p) => Done (true, p)
  | Done (false, p) => Done (ParseLocalName fullname p)
  | Crash => Crash
  | OutOfFuel => OutOfFuel
  end.
End Parsing.

(** ** Specifications: names as patterns *)

(** A field of the pattern constrains the field of the name. *)
Definition field_in {A} `{EqDecision A} (h : bool) (x : A) (h' : bool) (x' : A) : bool := negb (h && (negb h' || bool_decide (x <> x'))).

Definition IsSpecification (less more : ParsedName) : bool :=
  field_in (has_job less) (job less) (has_job more) (job more) && field_in (has_replica less) (replica less) (has_replica more) (replica more) &&
  field_in (has_task less) (task less) (has_task more) (task more) && field_in (has_type less) (type less) (has_type more) (type more) &&
  field_in (has_id less) (id less) (has_id more) (id more).

Definition field_meets {A} `{EqDecision A} (h : bool) (x : A) (h' : bool) (x' : A) : bool := negb (h && h' && bool_decide (x <> x')).

Definition AreCompatibleDevNames (a b : ParsedName) : bool :=
  field_meets (has_job a) (job a) (has_job b) (job b) && field_meets (has_replica a) (replica a) (has_replica b) (replica b) &&
  field_meets (has_task a) (task a) (has_task b) (task b) && field_meets (has_type a) (type a) (has_type b) (type b) &&
  field_meets (has_id a) (id a) (has_id b) (id b).

Definition EnsureSpecification (more less : ParsedName) : ParsedName :=
  let more := if has_job less then set_job true (job less) more else more in
  let more := if has_replica less then set_replica true (replica less) more else more in
  let more := if has_task less then set_task true (task less) more else more in
  let more := if has_type less then set_type true (type less) more else more in
  if has_id less then set_id true (id less) more else more.

Definition fully_specified (p : ParsedName) : bool := has_job p && has_replica p && has_task p && has_type p && has_id p.

Definition IsCompleteSpecification (pattern name : ParsedName) : outcome bool :=
  if fully_specified name then
    Done (if has_job pattern && bool_decide (job pattern <> job name) then false
          else if has_replica pattern && bool_decide (replica pattern <> replica name) then false
          else if has_task pattern && bool_decide (task pattern <> task name) then false
          else if has_type pattern && bool_decide (type pattern <> type name) then false
          else if has_id pattern && bool_decide (id pattern <> id name) then false
          else true)
  else Crash.

(** The status and [*target], which an error leaves as far as it was changed. *)
Definition MergeDevNamesImpl (target other : ParsedName) (allow_soft_placement override_conflicts : bool) : Status * ParsedName :=
  let error target := (StatusError INVALID_ARGUMENT, target) in
  let merge_id target :=
    if has_id other then
      if has_id target && bool_decide (id target <> id other) then
        if negb allow_soft_placement then error target
        else if override_conflicts then (StatusOK, set_id (has_id target) (id other) target)
        else (StatusOK, set_id false (id target) target)
      else (StatusOK, set_id true (id other) target)
    else (StatusOK, target) in
  let merge_type target :=
    if has_type other then
      if has_type target && bool_decide (type target <> type other) then
        if negb allow_soft_placement then error target
        else if override_conflicts then merge_id (set_type (has_type target) (type other) target)
        else (StatusOK, set_type false (type target) (set_id false (id target) target))
      else merge_id (set_type true (type other) target)
    else merge_id target in
  let merge_task target :=
    if has_task other then
      if has_task target && bool_decide (task target <> task other) then error target else merge_type (set_task true (task other) target)
    else merge_type target in
  let merge_replica target :=
    if has_replica other then
      if has_replica target && bool_decide (replica target <> replica other) then error target else merge_task (set_replica true (replica other) target)
    else merge_task target in
  if has_job other then
    if has_job target && bool_decide (job target <> job other) then error target else merge_replica (set_job true (job other) target)
  else merge_replica target.

Definition MergeDevNames (target other : ParsedName) (allow_soft_placement : bool) : Status * ParsedName :=
  MergeDevNamesImpl target other allow_soft_placement false.

Definition MergeOverrideDevNames (target other : ParsedName) : Status * ParsedName := MergeDevNamesImpl target other true true.

Definition MergeUnsetDevNames (target other : ParsedName) : ParsedName :=
  let target := if has_job other && negb (has_job target) then set_job true (job other) target else target in
  let target := if has_replica other && negb (has_replica target) then set_replica true (replica other) target else target in
  let target := if has_task other && negb (has_task target) then set_task true (task other) target else target in
  let target := if has_type other && negb (has_type target) then set_type true (type other) target else target in
  if has_id other && negb (has_id target) then set_id true (id other) target else target.

Definition CompleteName (parsed_basename parsed_name : ParsedName) : ParsedName :=
  let p := if has_job parsed_name then parsed_name else set_job true (job parsed_basename) parsed_name in
  let p := if has_replica p then p else set_replica true (replica parsed_basename) p in
  let p := if has_task p then p else set_task true (task parsed_basename) p in
  let p := if has_type p then p else set_type true (type parsed_basename) p in
  if has_id p then p else set_id true (id parsed_basename) p.

(** ** Address spaces *)
Definition IsSameAddressSpace (a b : ParsedName) : bool :=
  (has_job a && has_job b && bool_decide (job a = job b)) && (has_replica a && has_replica b && (replica a =? replica b)) &&
  (has_task a && has_task b && (task a =? task b)).

Definition IsDifferentAddressSpace (a b : ParsedName) : bool :=
  (has_job a && has_job b && bool_decide (job a <> job b)) || (has_replica a && has_replica b && negb (replica a =? replica b)) ||
  (has_task a && has_task b && negb (task a =? task b)).

Definition AddressSpace (name : ParsedName) : ParsedName :=
  mkName (has_job name) (job name) (has_replica name) (replica name) (has_task name) (task name) false [] false 0.

(** ** What parses its arguments *)
Section Names.
Context `{Absl}.

(** The status and [*canonical_name]. *)
Definition CanonicalizeDeviceName (fullname basename : text) : outcome (Status * text) :=
  match ParseFullName basename with
  | Done (false, _) => Done (StatusError INVALID_ARGUMENT, [])
  | Done (true, parsed_basename) =>
      if negb (fully_specified parsed_basename) then Done (StatusError INVALID_ARGUMENT, [])
      else
        match ParseLocalName fullname cleared with
        | (true, p) => Done (StatusOK, ParsedNameToString (CompleteName parsed_basename p))
        | (false, _) =>
            match ParseFullName fullname with
            | Done (true, p) => Done (StatusOK, ParsedNameToString (CompleteName parsed_basename p))
            | Done (false, _) => Done (StatusError INVALID_ARGUMENT, [])
            | Crash => Crash
            | OutOfFuel => OutOfFuel
            end
        end
  | Crash => Crash
  | OutOfFuel => OutOfFuel
  end.

Definition IsSameAddressSpaceNames (src dst : text) : outcome bool :=
  match ParseFullName src with
  | Done (true, x) => match ParseFullName dst with Done (true, y) => Done (IsSameAddressSpace x y) | Done _ => Done false | Crash => Crash | OutOfFuel => OutOfFuel end
  | Done (false, _) => Done false
  | Crash => Crash
  | OutOfFuel => OutOfFuel
  end.

Definition LocalNameOf (fullname : text) : outcome text :=
  match ParseFullName fullname with
  | Done (true, x) => Done (LocalName (type x) (id x))
  | Done (false, _) | Crash => Crash
  | OutOfFuel => OutOfFuel
  end.

(** The task and the device. *)
Definition SplitDeviceName (name : text) : outcome (option (text * text)) :=
  match ParseFullName name with
  | Done (b, pn) =>
      Done (if b && has_type pn && has_id pn then
              Some ((if has_job pn then chars "/job:" ++ job pn else []) ++
                    (if has_replica pn then chars "/replica:" ++ FastInt32ToBufferLeft (replica pn) else []) ++
                    (if has_task pn then chars "/task:" ++ FastInt32ToBufferLeft (task pn) else []),
                    type pn ++ chars ":" ++ FastInt32ToBufferLeft (id pn))
            else None)
  | Crash => Crash
  | OutOfFuel => OutOfFuel
  end.

Definition GetNamesForDeviceMappings (pn : ParsedName) : outcome (list text) :=
  if fully_specified pn then
    match FullName (job pn) (replica pn) (task pn) (type pn) (id pn), LegacyName (job pn) (replica pn) (task pn) (type pn) (id pn) with
    | Done a, Done b => Done [a; b]
    | _, _ => Crash
    end
  else Done [].

Definition DeviceNameToCpuDeviceName (device_name : text) : outcome (Status * option text) :=
  match ParseFullName device_name with
  | Done (false, _) => Done (StatusError INTERNAL, None)
  | Done (true, device) => Done (StatusOK, Some (ParsedNameToString (set_id true 0 (set_type true (chars "CPU") device))))
  | Crash => Crash
  | OutOfFuel => OutOfFuel
  end.

(** ** Rendezvous keys *)
Definition CreateKey (src_device : text) (src_incarnation : Z) (dst_device name : text) (frame_id iter_id : Z) : text :=
  src_device ++ chars ";" ++ Uint64ToHexString src_incarnation ++ chars ";" ++ dst_device ++ chars ";" ++ name ++ chars ";" ++
  FastUInt64ToBufferLeft frame_id ++ chars ":" ++ FastInt64ToBufferLeft iter_id.

(** The part before the delimiter, and what follows it. *)
Fixpoint ConsumeNextPart (s : text) (delim : Z) : text * text :=
  match s with
  | c :: s' => if c =? delim then ([], s') else let '(part, rest) := ConsumeNextPart s' delim in (c :: part, rest)
  | [] => ([], [])
  end.

Record ParsedKey := mkKey {
  src_device : text;
  src : ParsedName;
  src_incarnation : Z;
  dst_device : text;
  dst : ParsedName;
  edge_name : text;
  buf_ : text
}.

Definition ParseKey (key : text) : outcome (Status + ParsedKey) :=
  let '(p0, s) := ConsumeNextPart key 59 in
  let '(p1, s) := ConsumeNextPart s 59 in
  let '(p2, s) := ConsumeNextPart s 59 in
  let '(p3, s) := ConsumeNextPart s 59 in
  let '(p4, s) := ConsumeNextPart s 59 in
  let invalid := Done (inl (StatusError INVALID_ARGUMENT)) in
  if bool_decide (s = []) && negb (bool_decide (p4 = [])) then
    match ParseFullName p0 with
    | Done (true, src) =>
        match HexStringToUint64 p1 with
        | Some incarnation =>
            match ParseFullName p2 with
            | Done (true, dst) => if bool_decide (p3 = []) then invalid else Done (inr (mkKey p0 src incarnation p2 dst p3 key))
            | Done (false, _) => invalid
            | Crash => Crash
            | OutOfFuel => OutOfFuel
            end
        | None => invalid
        end
    | Done (false, _) => invalid
    | Crash => Crash
    | OutOfFuel => OutOfFuel
    end
  else invalid.
End Names.
