(* ===== verification/DeviceNameTheorems.v ===== *)
(** * Device names as sets of devices, their parsing, and what is shown of them

    A name is a pattern of devices; printed names are followed through the blocks
    of the parser; every block reads the text from its start and shortens it. *)
From S2P Require Import Prelude Numbers DeviceName.
From stdpp Require Import list strings options.
#[local] Open Scope Z_scope.

(** * Names as sets of devices *)
Record Device := mkDevice {
  d_job : text;
  d_replica : Z;
  d_task : Z;
  d_type : text;
  d_id : Z
}.

(** A field of a pattern admits a value. *)
Definition admits {A} (h : bool) (x y : A) : Prop := h = true -> x = y.

Definition matches (p : ParsedName) (d : Device) : Prop :=
  admits (has_job p) (job p) (d_job d) /\ admits (has_replica p) (replica p) (d_replica d) /\ admits (has_task p) (task p) (d_task d) /\
  admits (has_type p) (type p) (d_type d) /\ admits (has_id p) (id p) (d_id d).

Definition same_task (d d' : Device) : Prop := d_job d = d_job d' /\ d_replica d = d_replica d' /\ d_task d = d_task d'.

(** ** One field *)
Section Field.
Context {A : Type} `{EqDecision A}.

Lemma field_in_admits (h h' : bool) (x x' y : A) : field_in h x h' x' = true -> admits h' x' y -> admits h x y.
Proof. unfold field_in, admits. destruct h, h'; cbn; try done. case_bool_decide; naive_solver. Qed.

Lemma admits_field_in (h h' : bool) (x x' z : A) : z <> x -> admits h x (if h' then x' else z) -> field_in h x h' x' = true.
Proof. unfold field_in, admits. intros Hz Ha. destruct h, h'; cbn; try done; [rewrite bool_decide_eq_false_2; naive_solver|]. by rewrite Ha in Hz. Qed.

Lemma field_meets_left (h h' : bool) (x x' : A) : admits h x (if h then x else x').
Proof. by destruct h. Qed.

Lemma field_meets_right (h h' : bool) (x x' : A) : field_meets h x h' x' = true -> admits h' x' (if h then x else x').
Proof. unfold field_meets, admits. destruct h, h'; cbn; try done. case_bool_decide; naive_solver. Qed.

Lemma admits_meet (h h' : bool) (x x' y : A) : admits h x y -> admits h' x' y -> field_meets h x h' x' = true.
Proof. unfold field_meets, admits. intros Hx Hx'. destruct h, h'; cbn; try done. rewrite bool_decide_eq_false_2; [done|]. rewrite Hx, Hx'; naive_solver. Qed.
End Field.

(** ** Relations between patterns *)
Definition some_device (p : ParsedName) (z : Device) : Device :=
  mkDevice (if has_job p then job p else d_job z) (if has_replica p then replica p else d_replica z) (if has_task p then task p else d_task z)
    (if has_type p then type p else d_type z) (if has_id p then id p else d_id z).

Lemma matches_some p z : matches p (some_device p z).
Proof. unfold matches, some_device. cbn. split_and!; by intros ->. Qed.

(** A device that differs from a pattern in every field. *)
Definition other_device (p : ParsedName) : Device := mkDevice (0 :: job p) (replica p + 1) (task p + 1) (0 :: type p) (id p + 1).

Definition device_of (p : ParsedName) : Device := mkDevice (job p) (replica p) (task p) (type p) (id p).

Lemma cons_neq {A} (x : A) l : x :: l <> l.
Proof. intros E. apply (f_equal length) in E. simpl in E. lia. Qed.

Lemma IsSpecification_iff a b : IsSpecification a b = true <-> forall d, matches b d -> matches a d.
Proof.
  unfold IsSpecification. rewrite !andb_true_iff. split.
  - intros ((((H1 & H2) & H3) & H4) & H5) d (M1 & M2 & M3 & M4 & M5). split_and!; by eapply field_in_admits.
  - intros Hall. destruct (Hall _ (matches_some b (other_device a))) as (M1 & M2 & M3 & M4 & M5). cbn in *.
    split_and!; (eapply admits_field_in; [|eassumption]); first [apply cons_neq|lia].
Qed.

Lemma AreCompatible_iff a b : AreCompatibleDevNames a b = true <-> exists d, matches a d /\ matches b d.
Proof.
  unfold AreCompatibleDevNames. rewrite !andb_true_iff. split.
  - intros ((((H1 & H2) & H3) & H4) & H5). exists (some_device a (device_of b)). split; [apply matches_some|]. unfold matches. cbn. split_and!; by apply field_meets_right.
  - intros (d & (M1 & M2 & M3 & M4 & M5) & (N1 & N2 & N3 & N4 & N5)). split_and!; by eapply admits_meet.
Qed.

(** ** Merging *)

(** The fields of the second name where it has them. *)
Definition merged (t o : ParsedName) : ParsedName :=
  mkName (has_job t || has_job o) (if has_job o then job o else job t) (has_replica t || has_replica o) (if has_replica o then replica o else replica t)
    (has_task t || has_task o) (if has_task o then task o else task t) (has_type t || has_type o) (if has_type o then type o else type t)
    (has_id t || has_id o) (if has_id o then id o else id t).

Section MergedField.
Context {A : Type} `{EqDecision A}.

Lemma merged_admits (h h' : bool) (x x' y : A) : field_meets h x h' x' = true -> admits (h || h') (if h' then x' else x) y <-> admits h x y /\ admits h' x' y.
Proof. unfold field_meets, admits. destruct h, h'; cbn; try case_bool_decide; naive_solver. Qed.

Lemma meet_same (h h' : bool) (x x' : A) : field_meets h x h' x' = true -> (if h then x else x') = (if h' then x' else if h then x else x').
Proof. unfold field_meets. destruct h, h'; cbn; try done. destruct (decide (x = x')) as [->|Hne]; [done|]. by rewrite bool_decide_eq_true_2. Qed.

Lemma no_conflict (h h' : bool) (x x' : A) : field_meets h x h' x' = true <-> (h' = true -> h && bool_decide (x <> x') = false).
Proof. unfold field_meets. destruct h, h'; cbn; try case_bool_decide; naive_solver. Qed.
End MergedField.

Lemma merged_matches t o d : AreCompatibleDevNames t o = true -> matches (merged t o) d <-> matches t d /\ matches o d.
Proof.
  unfold AreCompatibleDevNames. rewrite !andb_true_iff. intros ((((H1 & H2) & H3) & H4) & H5). unfold matches, merged. cbn. rewrite !merged_admits by done. tauto.
Qed.

(** Without a conflict the flags play no part. *)
Lemma merge_compatible t o soft override : AreCompatibleDevNames t o = true -> MergeDevNamesImpl t o soft override = (StatusOK, merged t o).
Proof.
  unfold AreCompatibleDevNames. rewrite !andb_true_iff, !no_conflict. intros ((((H1 & H2) & H3) & H4) & H5). unfold MergeDevNamesImpl, merged.
  destruct (has_job o), (has_replica o), (has_task o), (has_type o), (has_id o); cbn;
    rewrite ?(H1 eq_refl), ?(H2 eq_refl), ?(H3 eq_refl), ?(H4 eq_refl), ?(H5 eq_refl); destruct t; cbn; by rewrite ?orb_true_r, ?orb_false_r.
Qed.

(** Only names without a conflict merge strictly. *)
Lemma merge_strict_ok t o : (MergeDevNamesImpl t o false false).1 = StatusOK -> AreCompatibleDevNames t o = true.
Proof.
  unfold AreCompatibleDevNames, MergeDevNamesImpl. rewrite !andb_true_iff, !no_conflict. intros E.
  repeat match goal with
  | E : (if ?b then _ else _).1 = _ |- _ => let Eb := fresh "Eb" in destruct b eqn:Eb; cbn in E; try discriminate E
  end; cbn in *; split_and!; congruence.
Qed.

(** ** Address spaces *)
Lemma different_meets a b : IsDifferentAddressSpace a b = negb (field_meets (has_job a) (job a) (has_job b) (job b) &&
  field_meets (has_replica a) (replica a) (has_replica b) (replica b) && field_meets (has_task a) (task a) (has_task b) (task b)).
Proof.
  unfold IsDifferentAddressSpace, field_meets. assert (forall x y z, negb (negb x && negb y && negb z) = x || y || z) as -> by (by intros [] [] []).
  assert (forall x y : Z, negb (x =? y) = bool_decide (x <> y)) as Hz by (intros x y; destruct (Z.eqb_spec x y); case_bool_decide; done). by rewrite !Hz.
Qed.

Lemma IsDifferent_iff a b : IsDifferentAddressSpace a b = true <-> ~ exists d d', matches a d /\ matches b d' /\ same_task d d'.
Proof.
  rewrite different_meets. rewrite negb_true_iff, <- not_true_iff_false, !andb_true_iff. split.
  - intros Hn (d & d' & (M1 & M2 & M3 & _) & (N1 & N2 & N3 & _) & E1 & E2 & E3). apply Hn. rewrite <- E1, <- E2, <- E3 in *. split_and!; by eapply admits_meet.
  - intros Hn ((H1 & H2) & H3). apply Hn. exists (some_device a (device_of b)), (some_device b (some_device a (device_of b))). split_and!; [apply matches_some..|]. unfold same_task. cbn.
    split_and!; by apply meet_same.
Qed.

Lemma IsSame_iff a b : IsSameAddressSpace a b = true <-> forall d d', matches a d -> matches b d' -> same_task d d'.
Proof.
  unfold IsSameAddressSpace. rewrite !andb_true_iff, !bool_decide_eq_true, !Z.eqb_eq. split.
  - intros ((((H1 & H2) & H3) & ((H4 & H5) & H6)) & ((H7 & H8) & H9)) d d' (M1 & M2 & M3 & _) (N1 & N2 & N3 & _). unfold same_task, admits in *. naive_solver congruence.
  - intros Hall. pose proof (Hall _ _ (matches_some a (device_of b)) (matches_some b (device_of a))) as (E1 & E2 & E3).
    pose proof (Hall _ _ (matches_some a (other_device b)) (matches_some b (device_of a))) as (F1 & F2 & F3).
    pose proof (Hall _ _ (matches_some a (device_of b)) (matches_some b (other_device a))) as (G1 & G2 & G3). cbn in *.
    pose proof (cons_neq 0 (job a)). pose proof (cons_neq 0 (job b)).
    destruct (has_job a), (has_job b), (has_replica a), (has_replica b), (has_task a), (has_task b); try (split_and!; done); exfalso; first [lia|congruence].
Qed.

Lemma IsComplete_spec p n : fully_specified n = true -> IsCompleteSpecification p n = Done (IsSpecification p n).
Proof.
  unfold fully_specified, IsCompleteSpecification. rewrite !andb_true_iff. intros ((((H1 & H2) & H3) & H4) & H5). unfold fully_specified, IsSpecification, field_in.
  rewrite H1, H2, H3, H4, H5. cbn. f_equal. destruct (has_job p), (has_replica p), (has_task p), (has_type p), (has_id p); cbn; repeat case_bool_decide; done.
Qed.

(** With soft placement only the address spaces must agree. *)
Lemma merge_soft_ok t o override : (MergeDevNamesImpl t o true override).1 = StatusOK <-> IsDifferentAddressSpace t o = false.
Proof.
  rewrite different_meets, negb_false_iff, !andb_true_iff, !no_conflict. unfold MergeDevNamesImpl. split.
  - intros E. repeat match goal with
    | E : (if ?b then _ else _).1 = _ |- _ => let Eb := fresh "Eb" in destruct b eqn:Eb; cbn in E; try discriminate E
    end; cbn in *; split_and!; congruence.
  - intros ((H1 & H2) & H3). destruct (has_job o), (has_replica o), (has_task o); cbn; rewrite ?(H1 eq_refl), ?(H2 eq_refl), ?(H3 eq_refl); cbn;
      repeat match goal with |- context [if ?b then _ else _] => destruct b end; done.
Qed.

(** Overriding leaves a specification of the second name. *)
Lemma merge_override t o : (MergeOverrideDevNames t o).1 = StatusOK -> IsSpecification o (MergeOverrideDevNames t o).2 = true.
Proof.
  unfold MergeOverrideDevNames. rewrite merge_soft_ok, different_meets, negb_false_iff, !andb_true_iff, !no_conflict. intros ((H1 & H2) & H3).
  unfold MergeDevNamesImpl, IsSpecification, field_in.
  destruct (has_job o), (has_replica o), (has_task o), (has_type o) eqn:Et, (has_id o) eqn:Ei; cbn; rewrite ?(H1 eq_refl), ?(H2 eq_refl), ?(H3 eq_refl); cbn;
    repeat (match goal with |- context [if ?h && ?b then _ else _] => let E := fresh "E" in destruct (h && b) eqn:E; [apply andb_true_iff in E as [E _]|] end; cbn); rewrite ?E, ?E0; cbn;
    by repeat (rewrite bool_decide_eq_false_2 by naive_solver; cbn).
Qed.

Lemma EnsureSpecification_merged more less : EnsureSpecification more less = merged more less.
Proof.
  unfold EnsureSpecification, merged. destruct (has_job less), (has_replica less), (has_task less), (has_type less), (has_id less), more; cbn; by rewrite ?orb_true_r, ?orb_false_r.
Qed.

Lemma merged_specification t o : IsSpecification o (merged t o) = true.
Proof.
  apply IsSpecification_iff. intros d (M1 & M2 & M3 & M4 & M5). unfold matches, merged, admits in *. cbn in *.
  split_and!; intros E; rewrite E, orb_true_r in *; auto.
Qed.

(** A field that is kept where it is set. *)
Lemma unset_admits {A} (h h' : bool) (x x' y : A) :
  admits (if h' && negb h then true else h) (if h' && negb h then x' else x) y <-> admits (h' || h) (if h then x else x') y.
Proof. unfold admits. by destruct h, h'. Qed.

Lemma MergeUnset_fields t o : MergeUnsetDevNames t o =
  let c1 := has_job o && negb (has_job t) in let c2 := has_replica o && negb (has_replica t) in let c3 := has_task o && negb (has_task t) in
  let c4 := has_type o && negb (has_type t) in let c5 := has_id o && negb (has_id t) in
  mkName (if c1 then true else has_job t) (if c1 then job o else job t) (if c2 then true else has_replica t) (if c2 then replica o else replica t)
    (if c3 then true else has_task t) (if c3 then task o else task t) (if c4 then true else has_type t) (if c4 then type o else type t)
    (if c5 then true else has_id t) (if c5 then id o else id t).
Proof.
  cbv zeta. unfold MergeUnsetDevNames.
  assert (forall (b : bool) p q (f : ParsedName -> bool), f p = f q -> f (if b then p else q) = f q) as Hsame by (by intros []).
  destruct (has_job o && negb (has_job t)); rewrite ?Hsame by done; cbn;
  destruct (has_replica o && negb (has_replica t)); rewrite ?Hsame by done; cbn;
  destruct (has_task o && negb (has_task t)); rewrite ?Hsame by done; cbn;
  destruct (has_type o && negb (has_type t)); rewrite ?Hsame by done; cbn;
  destruct (has_id o && negb (has_id t)); cbn; by destruct t.
Qed.

(** The unset fields of the first name are those of the second. *)
Lemma MergeUnset_matches t o d : matches (MergeUnsetDevNames t o) d <-> matches (merged o t) d.
Proof. rewrite MergeUnset_fields. unfold matches, merged. cbn. by rewrite !unset_admits. Qed.

(** * Parsing what is printed *)

(** A name whose printed form says all of it. *)
Definition name_ok (p : ParsedName) : Prop :=
  (has_job p = true -> IsJobName (job p) = true) /\ (has_replica p = true -> 0 <= replica p < 2 ^ 31) /\ (has_task p = true -> 0 <= task p < 2 ^ 31) /\
  (has_type p = true -> IsJobName (type p) = true) /\ (has_id p = true -> has_type p = true /\ 0 <= id p < 2 ^ 31).

(** The fields that are set, on a cleared name. *)
Definition normal (p : ParsedName) : ParsedName :=
  mkName (has_job p) (if has_job p then job p else []) (has_replica p) (if has_replica p then replica p else 0) (has_task p) (if has_task p then task p else 0)
    (has_type p) (if has_type p then type p else []) (has_id p) (if has_id p then id p else 0).

Lemma normal_eq p : name_eq p (normal p) = true.
Proof.
  unfold name_eq, normal, eq_field. cbn. rewrite !andb_true_iff.
  split_and!; match goal with |- (if ?h then _ else _) = true => destruct h end; try done; by apply bool_decide_eq_true_2.
Qed.

(** The parts of a printed name. *)
Definition device_part (p : ParsedName) : text :=
  if has_type p then chars "/device:" ++ type p ++ chars ":" ++ (if has_id p then FastInt32ToBufferLeft (id p) else chars "*") else [].

Definition task_part (p : ParsedName) : text := if has_task p then chars "/task:" ++ FastInt32ToBufferLeft (task p) else [].

Definition replica_part (p : ParsedName) : text := if has_replica p then chars "/replica:" ++ FastInt32ToBufferLeft (replica p) else [].

Definition job_part (p : ParsedName) : text := if has_job p then chars "/job:" ++ job p else [].

(** The text that follows begins with one of the characters, if there is any. *)
Definition begins (l : text) (s : text) : Prop := match s with [] => True | c :: _ => c ∈ l end.

(** The text is empty or begins with a slash and one of the letters. *)
Definition opens (l : text) (s : text) : Prop := s = [] \/ exists c r, s = 47 :: c :: r /\ c ∈ l.

Lemma opens_app l l' (b : bool) c r s : opens l s -> l ⊆ l' -> c ∈ l' -> opens l' ((if b then 47 :: c :: r else []) ++ s).
Proof. intros Hs Hl Hc. destruct b; [right; by exists c, (r ++ s)|]. destruct Hs as [->|(x & t & -> & Hx)]; [by left|right; exists x, t; auto]. Qed.

Lemma opens_device p : opens [100] (device_part p).
Proof. unfold device_part. destruct (has_type p); [right|by left]. eexists 100, _. split; [reflexivity|left]. Qed.

Lemma opens_task p : opens [100; 116] (task_part p ++ device_part p).
Proof. unfold task_part. apply (opens_app [100] [100; 116]); [apply opens_device|set_solver|set_solver]. Qed.

Lemma opens_replica p : opens [100; 116; 114] (replica_part p ++ task_part p ++ device_part p).
Proof. unfold replica_part. apply (opens_app [100; 116] [100; 116; 114]); [apply opens_task|set_solver|set_solver]. Qed.

Lemma opens_begins l s t : opens l s -> 47 ∈ t -> begins t s.
Proof. intros [->|(c & r & -> & _)] Ht; done. Qed.

Lemma opens_no_digit l s : opens l s -> isdigit (SafeFirstChar s) = false.
Proof. by intros [->|(c & r & -> & _)]. Qed.
Lemma alnum_spec c : IsAlphaNumOrUnderscore c = true -> c <> 47 /\ c <> 58 /\ c <> 59.
Proof.
  unfold IsAlphaNumOrUnderscore, IsAlpha. intros E. split_and!; intros ->; cbn in E; discriminate.
Qed.

Lemma alpha_spec c : IsAlpha c = true -> c <> 42.
Proof. unfold IsAlpha. intros E ->. discriminate. Qed.

Lemma find_first_run terminators j rest : (forall c, c ∈ j -> c ∉ terminators) -> begins terminators rest -> find_first_of terminators (j ++ rest) = (j, rest).
Proof.
  intros Hj Hrest. induction j as [|c j IH].
  - destruct rest as [|c rest]; [done|]. cbn in *. by rewrite bool_decide_eq_true_2.
  - cbn. rewrite bool_decide_eq_false_2 by (apply Hj; left). rewrite IH; [done|]. intros x Hx. apply Hj. by right.
Qed.

Lemma ConsumeName_run terminators j rest : (forall c, c ∈ terminators -> c = 47 \/ c = 58) -> IsJobName j = true -> begins terminators rest ->
  ConsumeName terminators (j ++ rest) = Some (j, rest).
Proof.
  intros Ht Hj Hrest. destruct j as [|c j]; [done|]. unfold IsJobName in Hj. apply andb_true_iff in Hj as [Ha Hall]. unfold ConsumeName. cbn [app]. rewrite Ha.
  change (c :: j ++ rest) with ((c :: j) ++ rest). rewrite find_first_run, Hall; [done| |done].
  intros x Hx Hin. rewrite forallb_forall in Hall. apply list_elem_of_In in Hx. pose proof (alnum_spec x (Hall x Hx)). apply Ht in Hin. naive_solver.
Qed.

Lemma ConsumeNumber_run n rest : 0 <= n < 2 ^ 31 -> isdigit (SafeFirstChar rest) = false -> ConsumeNumber (FastInt32ToBufferLeft n ++ rest) = Some (n, rest).
Proof.
  intros Hn Hrest. destruct (FastInt32_nonneg n Hn) as [Hnum Hv]. unfold ConsumeNumber. rewrite leading_digits by done. rewrite Hv, (proj2 (Z.ltb_lt _ _)) by lia.
  unfold i32. rewrite Z.mod_small by lia. do 2 f_equal. lia.
Qed.

Section Parse.
Context `{AbslLaws}.

Lemma value_run {A} consume (old v : A) set w rest p : SafeFirstChar w <> 42 -> w <> [] -> consume (w ++ rest) = Some (v, rest) ->
  value_or_any consume old set (w ++ rest) p = inr (rest, set true v p).
Proof using Type*.
  intros Hw Hne Hc. unfold value_or_any. rewrite ConsumePrefix_strip. destruct w as [|c w]; [done|]. cbn [app SafeFirstChar] in *. cbn [strip chars].
  change (strip (chars "*") (c :: w ++ rest)) with (if 42 =? c then Some (w ++ rest) else None). rewrite (proj2 (Z.eqb_neq 42 c)) by done. by rewrite Hc.
Qed.

Lemma job_value terminators (old : text) set j rest (p : ParsedName) (consume := ConsumeName terminators) : (forall c, c ∈ terminators -> c = 47 \/ c = 58) ->
  IsJobName j = true -> begins terminators rest -> value_or_any consume old set (j ++ rest) p = inr (rest, set true j p).
Proof using Type*.
  intros Ht Hj Hrest. apply value_run; [|by destruct j|by apply ConsumeName_run]. destruct j as [|c j]; [done|]. apply andb_true_iff in Hj as [Ha _]. by apply alpha_spec.
Qed.

Lemma number_value old set n rest p : 0 <= n < 2 ^ 31 -> isdigit (SafeFirstChar rest) = false ->
  value_or_any ConsumeNumber old set (FastInt32ToBufferLeft n ++ rest) p = inr (rest, set true n p).
Proof using Type*.
  intros Hn Hrest. destruct (FastInt32_nonneg n Hn) as [[Hne Hds] _]. apply value_run; [|done|by apply ConsumeNumber_run].
  destruct (FastInt32ToBufferLeft n) as [|c w]; [done|]. apply Forall_cons in Hds as [Hc%isdigit_spec _]. cbn. lia.
Qed.

Lemma strip_other l s c p : opens l s -> c ∉ l -> strip (47 :: c :: p) s = None.
Proof using Type. intros [->|(x & r & -> & Hx)] Hc; [done|]. cbn. rewrite (proj2 (Z.eqb_neq c x)); [done|]. by intros ->. Qed.

(** ** The blocks on their parts *)
Lemma parse_job_run p q b : (has_job p = true -> IsJobName (job p) = true) -> forall l s, opens l s -> 106 ∉ l ->
  parse_job (job_part p ++ s) q b = inr (s, if has_job p then set_job true (job p) q else q, has_job p || b).
Proof using Type*.
  intros Hok l s Hs Hl. unfold parse_job, job_part. rewrite ConsumePrefix_strip. destruct (has_job p).
  - rewrite <- app_assoc, strip_app. unfold ConsumeJobName. rewrite job_value; [done| |by apply Hok|by apply (opens_begins _ _ _ Hs); left].
    intros c Hc. change (chars "/") with [47] in Hc. set_solver.
  - cbn [app]. change (chars "/job:") with (47 :: 106 :: chars "ob:"). by rewrite (strip_other l s 106 _ Hs).
Qed.

Lemma parse_replica_run p q b : (has_replica p = true -> 0 <= replica p < 2 ^ 31) -> forall l s, opens l s -> 114 ∉ l ->
  parse_replica (replica_part p ++ s) q b = inr (s, if has_replica p then set_replica true (replica p) q else q, has_replica p || b).
Proof using Type*.
  intros Hok l s Hs Hl. unfold parse_replica, replica_part. rewrite ConsumePrefix_strip. destruct (has_replica p).
  - rewrite <- app_assoc, strip_app, number_value; [done|by apply Hok|by eapply opens_no_digit].
  - cbn [app]. change (chars "/replica:") with (47 :: 114 :: chars "eplica:"). by rewrite (strip_other l s 114 _ Hs).
Qed.

Lemma parse_task_run p q b : (has_task p = true -> 0 <= task p < 2 ^ 31) -> forall l s, opens l s -> 116 ∉ l ->
  parse_task (task_part p ++ s) q b = inr (s, if has_task p then set_task true (task p) q else q, has_task p || b).
Proof using Type*.
  intros Hok l s Hs Hl. unfold parse_task, task_part. rewrite ConsumePrefix_strip. destruct (has_task p).
  - rewrite <- app_assoc, strip_app, number_value; [done|by apply Hok|by eapply opens_no_digit].
  - cbn [app]. change (chars "/task:") with (47 :: 116 :: chars "ask:"). by rewrite (strip_other l s 116 _ Hs).
Qed.

Lemma parse_device_run p q b : (has_type p = true -> IsJobName (type p) = true) -> (has_id p = true -> 0 <= id p < 2 ^ 31) ->
  parse_device (device_part p) q b =
  inr ([], if has_type p then (if has_id p then set_id true (id p) else fun q => set_id false (id q) q) (set_type true (type p) q) else q, has_type p || b).
Proof using Type*.
  intros Ht Hi. unfold parse_device, device_part. rewrite ConsumePrefix_strip. destruct (has_type p); [|done]. rewrite strip_app. unfold ConsumeDeviceType.
  rewrite job_value; [|intros c Hc; change (chars "/:") with [47; 58] in Hc; set_solver|by apply Ht|cbn; set_solver]. rewrite ConsumePrefix_strip, strip_app.
  destruct (has_id p); [|unfold value_or_any; by rewrite ConsumePrefix_strip].
  pose proof (number_value (id (set_type true (type p) q)) set_id (id p) [] (set_type true (type p) q) (Hi eq_refl) eq_refl) as E. rewrite app_nil_r in E. by rewrite E.
Qed.

Lemma parse_legacy_nil lower upper canonical q b : lower <> [] -> upper <> [] -> parse_legacy lower upper canonical [] q b = inr ([], q, b).
Proof using Type*. intros Hl Hu. unfold parse_legacy. rewrite !ConsumePrefix_strip. by destruct lower, upper. Qed.

Lemma parse_slash q : parse_round (chars "/") q false = inr (chars "/", q, false).
Proof using Type*.
  unfold parse_round, then_block, parse_job, parse_replica, parse_task, parse_device, parse_legacy.
  repeat (rewrite ConsumePrefix_strip; match goal with |- context [strip ?p ?s] => change (strip p s) with (@None text) end; cbv iota beta). done.
Qed.

Lemma parse_printed p : name_ok p -> ParseFullName (ParsedNameToString p) = Done (true, normal p).
Proof using Type*.
  intros (Hj & Hr & Ht & Hd & Hi). assert (ParsedNameToString p = job_part p ++ replica_part p ++ task_part p ++ device_part p) as -> by done.
  set (s := job_part p ++ _). assert (parse_round s cleared false = inr ([], normal p, HasSomeDetails p)) as Hround.
  { unfold parse_round, then_block, s. rewrite (parse_job_run p _ _ Hj _ _ (opens_replica p)) by set_solver. rewrite (parse_replica_run p _ _ Hr _ _ (opens_task p)) by set_solver.
    rewrite (parse_task_run p _ _ Ht _ _ (opens_device p)) by set_solver. rewrite (parse_device_run p _ _ Hd) by (intros E; by apply Hi). rewrite !parse_legacy_nil by done.
    unfold normal, HasSomeDetails. destruct (has_job p), (has_replica p), (has_task p), (has_type p), (has_id p); try done; by destruct (Hi eq_refl). }
  unfold ParseFullName. rewrite bool_decide_eq_false_2.
  2:{ intros E. rewrite E, parse_slash in Hround. by apply (f_equal (fun o => match o with inr (t, _, _) => t | inl _ => [] end)) in Hround. }
  destruct s as [|c s'] eqn:Es.
  - cbn. subst s. revert Es. unfold job_part, replica_part, task_part, device_part, normal. cbn.
    destruct (has_job p), (has_replica p), (has_task p), (has_type p), (has_id p); try done; by destruct (Hi eq_refl).
  - cbn [length parse_loop]. rewrite Hround. assert (HasSomeDetails p = true) as ->; [|by destruct (length s')].
    subst s. revert Es. unfold HasSomeDetails, job_part, replica_part, task_part, device_part. destruct (has_job p), (has_replica p), (has_task p), (has_type p), (has_id p); done.
Qed.
End Parse.

(** * Every text is parsed or refused *)
Definition parsed_ok (p : ParsedName) : Prop :=
  (has_job p = true -> IsJobName (job p) = true) /\ (has_type p = true -> IsJobName (type p) = true) /\ in_i32 (replica p) /\ in_i32 (task p) /\ in_i32 (id p).

(** What was read of a text, without a semicolon, and what follows. *)
Definition reads (s rest : text) : Prop := exists w, s = w ++ rest /\ 59 ∉ w.

Lemma reads_refl s : reads s s.
Proof. exists []. split; [done|apply not_elem_of_nil]. Qed.

Lemma reads_app w s : 59 ∉ w -> reads (w ++ s) s.
Proof. intros Hw. by exists w. Qed.

Lemma reads_trans s1 s2 s3 : reads s1 s2 -> reads s2 s3 -> reads s1 s3.
Proof. intros (w & -> & Hw) (v & -> & Hv). exists (w ++ v). rewrite <- app_assoc. split; [done|]. rewrite elem_of_app. tauto. Qed.

Lemma reads_length s rest : reads s rest -> (length rest <= length s)%nat.
Proof. intros (w & -> & _). rewrite length_app. lia. Qed.

Lemma reads_prefix p s rest : 59 ∉ p -> p <> [] -> reads s rest -> reads (p ++ s) rest /\ (length rest < length (p ++ s))%nat.
Proof.
  intros Hp Hne Hr. pose proof (reads_length _ _ Hr). split; [by apply (reads_trans _ s); [apply reads_app|]|]. rewrite length_app. destruct p; [done|]. simpl. lia.
Qed.

Lemma job_no_semicolon j : IsJobName j = true -> 59 ∉ j.
Proof.
  destruct j as [|c j]; [done|]. unfold IsJobName. intros [_ Hall]%andb_true_iff Hin%list_elem_of_In. rewrite forallb_forall in Hall.
  destruct (alnum_spec 59 (Hall _ Hin)) as (_ & _ & ?). done.
Qed.

Lemma find_first_split terminators s : s = (find_first_of terminators s).1 ++ (find_first_of terminators s).2.
Proof. induction s as [|c s IH]; [done|]. cbn. case_bool_decide; [done|]. destruct (find_first_of terminators s). cbn in *. congruence. Qed.

Lemma ConsumeName_ok terminators s j rest : (forall c, c ∈ terminators -> c = 47 \/ c = 58) -> ConsumeName terminators s = Some (j, rest) ->
  IsJobName j = true /\ reads s rest.
Proof.
  intros Ht E. unfold ConsumeName in E. destruct s as [|c s]; [done|]. destruct (IsAlpha c) eqn:Ha; [|done]. pose proof (find_first_split terminators (c :: s)) as Es.
  destruct (find_first_of terminators (c :: s)) as [out r] eqn:Ef. destruct (forallb IsAlphaNumOrUnderscore out) eqn:Hall; [|done]. injection E as -> ->. cbn [fst snd] in Es.
  assert (IsJobName j = true) as Hj; [|split; [done|rewrite Es; by apply reads_app, job_no_semicolon]].
  assert (c ∉ terminators) as Hc by (intros [-> | ->]%Ht; discriminate).
  cbn in Ef. rewrite bool_decide_eq_false_2 in Ef by done. destruct (find_first_of terminators s). injection Ef as <- _. cbn [IsJobName]. by rewrite Ha.
Qed.

Lemma digit_loop_rest step s v w rest : digit_loop step s v = Some (w, rest) -> reads s rest.
Proof.
  revert v. induction s as [|c s IH]; intros v E; cbn in E; [injection E as _ <-; apply reads_refl|]. destruct (isdigit c) eqn:Ec; [|injection E as _ <-; apply reads_refl].
  destruct (step v (c - 48)) as [u|]; [|done]. apply IH in E. apply (reads_trans _ s); [|done]. apply (reads_app [c]). apply isdigit_spec in Ec. rewrite list_elem_of_singleton. lia.
Qed.

Lemma ConsumeNumber_ok s v rest : ConsumeNumber s = Some (v, rest) -> in_i32 v /\ reads s rest.
Proof.
  unfold ConsumeNumber, ConsumeLeadingDigits. destruct (digit_loop _ _ _) as [[w r]|] eqn:E; [|done]. destruct (_ <? _)%nat; [|done]. intros [= <- <-].
  split; [apply i32_range|]. by eapply digit_loop_rest.
Qed.

(** A block keeps what was parsed valid and does not lengthen the text; it
    reports progress only when it has shortened it. *)
Definition block_ok (B : parse_step) : Prop := forall s p b, parsed_ok p ->
  match B s p b with
  | inl _ => True
  | inr (s', p', b') => parsed_ok p' /\ reads s s' /\ (b' = true -> b = true \/ (length s' < length s)%nat)
  end.

Lemma then_block_ok a b : block_ok a -> block_ok b -> block_ok (then_block a b).
Proof.
  intros Ha Hb s p pr Hp. unfold then_block. specialize (Ha s p pr Hp). destruct (a s p pr) as [|[[s1 p1] b1]]; [done|]. destruct Ha as (Hp1 & Hl1 & Hb1).
  specialize (Hb s1 p1 b1 Hp1). destruct (b s1 p1 b1) as [|[[s2 p2] b2]]; [done|]. destruct Hb as (Hp2 & Hl2 & Hb2). split_and!; [done|by apply (reads_trans _ s1)|].
  apply reads_length in Hl1, Hl2.
  intros E. destruct (Hb2 E) as [E'|]; [|right; lia]. destruct (Hb1 E'); [by left|right; lia].
Qed.

Section ParseOk.
Context `{AbslLaws}.

Lemma value_ok {A} (consume : text -> option (A * text)) old set s p : (forall p, parsed_ok p -> parsed_ok (set false old p)) ->
  (forall v rest p, consume s = Some (v, rest) -> parsed_ok p -> parsed_ok (set true v p) /\ reads s rest) -> parsed_ok p ->
  match value_or_any consume old set s p with inl _ => True | inr (s', p') => parsed_ok p' /\ reads s s' end.
Proof using Type*.
  intros Hf Ht Hp. unfold value_or_any. rewrite ConsumePrefix_strip. destruct (strip (chars "*") s) as [r|] eqn:E.
  - apply strip_Some in E as ->. split; [auto|]. apply reads_app. change (chars "*") with [42]. set_solver.
  - destruct (consume s) as [[v rest]|] eqn:Ec; [|done]. by eapply Ht.
Qed.

(** A prefix, then a value. *)
Lemma prefix_ok {A} (prefix : text) (consume : text -> option (A * text)) (get : ParsedName -> A) set : 59 ∉ prefix -> prefix <> [] ->
  (forall p q, parsed_ok p -> parsed_ok q -> parsed_ok (set false (get q) p)) ->
  (forall s v rest p, consume s = Some (v, rest) -> parsed_ok p -> parsed_ok (set true v p) /\ reads s rest) ->
  block_ok (fun s p b => match ConsumePrefix s prefix with Some s => progress_of (value_or_any consume (get p) set s p) | None => inr (s, p, b) end).
Proof using Type*.
  intros Hsemi Hne Hf Ht s p b Hp. rewrite ConsumePrefix_strip. destruct (strip prefix s) as [r|] eqn:E; [|split_and!; [done|apply reads_refl|by left]].
  apply strip_Some in E as ->. pose proof (value_ok consume (get p) set r p ltac:(auto) ltac:(eauto) Hp) as Hv. unfold progress_of.
  destruct (value_or_any _ _ _ _ _) as [|[s' p']]; [done|]. destruct Hv as [Hp' Hl].
  destruct (reads_prefix prefix r s' Hsemi Hne Hl) as [Hreads Hlen]. split_and!; [done|done|by right].
Qed.

Lemma set_id_ok h v p : in_i32 v -> parsed_ok p -> parsed_ok (set_id h v p).
Proof using Type. intros Hv (? & ? & ? & ? & ?). done. Qed.

Lemma number_sets_ok set s v rest p : (forall v p, in_i32 v -> parsed_ok p -> parsed_ok (set true v p)) -> ConsumeNumber s = Some (v, rest) -> parsed_ok p ->
  parsed_ok (set true v p) /\ reads s rest.
Proof using Type. intros Hset [Hv Hl]%ConsumeNumber_ok Hp. auto. Qed.

Lemma parse_job_ok : block_ok parse_job.
Proof using Type*.
  apply (prefix_ok (chars "/job:") ConsumeJobName job set_job); [cbn; set_solver|done| |].
  - intros p q (? & ? & ? & ? & ?) _. by split_and!.
  - intros s v rest p E (? & ? & ? & ? & ?). apply ConsumeName_ok in E as [Hv Hl]; [by split_and!|]. intros c Hc. change (chars "/") with [47] in Hc. set_solver.
Qed.

Lemma parse_replica_ok : block_ok parse_replica.
Proof using Type*.
  apply (prefix_ok (chars "/replica:") ConsumeNumber replica set_replica); [cbn; set_solver|done| |].
  - intros p q (? & ? & ? & ? & ?) (? & ? & ? & ? & ?). by split_and!.
  - intros s v rest p. apply number_sets_ok. intros w q Hw (? & ? & ? & ? & ?). by split_and!.
Qed.

Lemma parse_task_ok : block_ok parse_task.
Proof using Type*.
  apply (prefix_ok (chars "/task:") ConsumeNumber task set_task); [cbn; set_solver|done| |].
  - intros p q (? & ? & ? & ? & ?) (? & ? & ? & ? & ?). by split_and!.
  - intros s v rest p. apply number_sets_ok. intros w q Hw (? & ? & ? & ? & ?). by split_and!.
Qed.

Lemma id_value_ok s p : parsed_ok p ->
  match value_or_any ConsumeNumber (id p) set_id s p with inl _ => True | inr (s', p') => parsed_ok p' /\ reads s s' end.
Proof using Type*.
  intros Hp. apply value_ok; [| |done].
  - intros q Hq. apply set_id_ok; [by destruct Hp as (_ & _ & _ & _ & ?)|done].
  - intros v rest q. apply number_sets_ok. intros. by apply set_id_ok.
Qed.

Lemma set_type_ok h t p : (h = true -> IsJobName t = true) -> parsed_ok p -> parsed_ok (set_type h t p).
Proof using Type. intros Ht (? & ? & ? & ? & ?). by split_and!. Qed.

Lemma parse_device_ok : block_ok parse_device.
Proof using Type*.
  intros s p b Hp. unfold parse_device. rewrite ConsumePrefix_strip. destruct (strip (chars "/device:") s) as [r|] eqn:E; [|split_and!; [done|apply reads_refl|by left]].
  apply strip_Some in E as ->.
  assert (match value_or_any ConsumeDeviceType (type p) set_type r p with inl _ => True | inr (s', p') => parsed_ok p' /\ reads r s' end) as Hv.
  { apply value_ok; [intros q; by apply set_type_ok| |done]. intros v rest q E Hq. apply ConsumeName_ok in E as [Hv Hl]; [split; [by apply set_type_ok|done]|].
    intros c Hc. change (chars "/:") with [47; 58] in Hc. set_solver. }
  assert (forall s', reads r s' -> reads (chars "/device:" ++ r) s' /\ (length s' < length (chars "/device:" ++ r))%nat) as Hdev by (intros; apply reads_prefix; [cbn; set_solver|done|done]).
  destruct (value_or_any _ _ _ r p) as [|[s1 p1]]; [done|]. destruct Hv as [Hp1 Hl1]. rewrite ConsumePrefix_strip. destruct (strip (chars ":") s1) as [s2|] eqn:E.
  - apply strip_Some in E as ->. pose proof (id_value_ok s2 p1 Hp1) as Hi. unfold progress_of. destruct (value_or_any _ _ _ s2 p1) as [|[s3 p3]]; [done|].
    destruct Hi as [Hp3 Hl3]. destruct (Hdev s3) as [Hr Hlen]; [|split_and!; [done|done|by right]].
    apply (reads_trans _ _ _ Hl1), (reads_trans _ s2); [apply reads_app; cbn; set_solver|done].
  - destruct (Hdev s1 Hl1) as [Hr Hlen]. split_and!; [|done|by right]. apply set_id_ok; [by destruct Hp1 as (_ & _ & _ & _ & ?)|done].
Qed.

Lemma parse_legacy_ok lower upper canonical : 59 ∉ lower -> 59 ∉ upper -> lower <> [] -> upper <> [] -> IsJobName canonical = true -> block_ok (parse_legacy lower upper canonical).
Proof using Type*.
  intros Hls Hus Hlow Hup Hc s p b Hp. unfold parse_legacy.
  assert (match (match ConsumePrefix s lower with Some s => Some s | None => ConsumePrefix s upper end) with
    | Some r => forall s', reads r s' -> reads s s' /\ (length s' < length s)%nat | None => True end) as Hr.
  { rewrite !ConsumePrefix_strip. destruct (strip lower s) as [r|] eqn:E; [|destruct (strip upper s) as [r|] eqn:E'; [|done]].
    - apply strip_Some in E as ->. intros s' Hs'. by apply reads_prefix.
    - apply strip_Some in E' as ->. intros s' Hs'. by apply reads_prefix. }
  destruct (match ConsumePrefix s lower with Some s => Some s | None => ConsumePrefix s upper end) as [r|]; [|split_and!; [done|apply reads_refl|by left]].
  pose proof (id_value_ok r (set_type true canonical p) (set_type_ok true canonical p (fun _ => Hc) Hp)) as Hi. cbv zeta. unfold progress_of.
  destruct (value_or_any _ _ _ r _) as [|[s3 p3]]; [done|]. destruct Hi as [Hp3 Hl3]. destruct (Hr s3 Hl3). split_and!; [done|done|by right].
Qed.

Lemma parse_round_ok : block_ok parse_round.
Proof using Type*.
  unfold parse_round. repeat apply then_block_ok; [apply parse_job_ok|apply parse_replica_ok|apply parse_task_ok|apply parse_device_ok| |]; (apply parse_legacy_ok; [cbn; set_solver|cbn; set_solver|done..]).
Qed.

Lemma parse_loop_ok fuel s p : (length s <= fuel)%nat -> parsed_ok p -> exists b p', parse_loop fuel s p = Done (b, p') /\ (b = true -> parsed_ok p' /\ 59 ∉ s).
Proof using Type*.
  revert s p. induction fuel as [|fuel IH]; intros s p Hs Hp; destruct s as [|c s]; cbn [parse_loop];
    try (exists true, p; split_and!; [done|]; intros _; split; [done|apply not_elem_of_nil]); [simpl in Hs; lia|].
  pose proof (parse_round_ok (c :: s) p false Hp) as Hround. destruct (parse_round (c :: s) p false) as [p'|[[s' p'] b]]; [by exists false, p'|].
  destruct Hround as (Hp' & Hreads & Hb). destruct b; [|by exists false, p']. destruct Hb as [|Hl]; [done|done|].
  destruct (IH s' p') as (b & p2 & E & Hok); [simpl in *; lia|done|]. exists b, p2. split; [done|]. intros Hb'. destruct (Hok Hb') as [Hp2 Hs2]. split; [done|].
  destruct Hreads as (w & -> & Hw). rewrite elem_of_app. tauto.
Qed.

Lemma cleared_ok : parsed_ok cleared.
Proof using Type. by split_and!. Qed.

Lemma ParseFullName_ok s : exists b p, ParseFullName s = Done (b, p) /\ (b = true -> parsed_ok p /\ 59 ∉ s).
Proof using Type*.
  unfold ParseFullName. case_bool_decide as E; [exists true, cleared; split; [done|]; intros _; split; [apply cleared_ok|rewrite E; cbn; set_solver]|]. apply parse_loop_ok; [done|apply cleared_ok].
Qed.
End ParseOk.

(** * Canonical names *)
Section Canonical.
Context `{AbslLaws}.

(** A text without a leading slash is no full name. *)
Lemma not_full c s : c <> 47 -> ParseFullName (c :: s) = Done (false, cleared).
Proof using Type*.
  intros Hc. unfold ParseFullName. rewrite bool_decide_eq_false_2 by (intros [= ->]; done). cbn [length parse_loop].
  assert (forall p q, parse_round (c :: s) p q = inr (c :: s, p, q)) as ->; [|done]. intros p q.
  unfold parse_round, then_block, parse_job, parse_replica, parse_task, parse_device, parse_legacy. rewrite !ConsumePrefix_strip.
  assert (forall w, strip (47 :: w) (c :: s) = None) as Hs by (intros w; change (strip (47 :: w) (c :: s)) with (if 47 =? c then strip w s else None); by rewrite (proj2 (Z.eqb_neq 47 c)) by done).
  repeat (match goal with |- context [strip ?w (c :: s)] => change (strip w (c :: s)) with (strip (47 :: tail w) (c :: s)); rewrite Hs end; cbv iota beta; rewrite ?ConsumePrefix_strip).
  done.
Qed.

Lemma local_start s p q : ParseLocalName s p = (true, q) -> exists c r, s = c :: r /\ c <> 47.
Proof using Type*.
  unfold ParseLocalName, ConsumeDeviceType, ConsumeName. destruct s as [|c r]; [done|]. destruct (IsAlpha c) eqn:Ha; [|done]. intros _. exists c, r. split; [done|].
  intros ->. discriminate.
Qed.

Lemma local_ok s p q : parsed_ok p -> ParseLocalName s p = (true, q) -> parsed_ok q.
Proof using Type*.
  intros Hp. unfold ParseLocalName. destruct (ConsumeDeviceType s) as [[t r]|] eqn:Et; [|done]. rewrite ConsumePrefix_strip. destruct (strip (chars ":") r) as [r'|]; [|done].
  destruct (ConsumeNumber r') as [[v r'']|] eqn:Ev; [|done]. intros [= _ <-]. apply ConsumeNumber_ok in Ev as [Hv _].
  apply ConsumeName_ok in Et as [Ht _]; [by apply set_id_ok; [|apply set_type_ok]|]. intros c Hc. change (chars "/:") with [47; 58] in Hc. set_solver.
Qed.

Lemma local_same s p q : (ParseLocalName s p).1 = (ParseLocalName s q).1.
Proof using Type*.
  unfold ParseLocalName. destruct (ConsumeDeviceType s) as [[t r]|]; [|done]. destruct (ConsumePrefix _ _); [|done]. by destruct (ConsumeNumber _) as [[v r']|].
Qed.

(** Whether the local or the full form is tried first makes no difference. *)
Lemma full_or_local s : ParseFullOrLocalName s =
  match ParseLocalName s cleared with
  | (true, p) => Done (true, p)
  | (false, _) => match ParseFullName s with Done (true, p) => Done (true, p) | Done (false, p) => Done (ParseLocalName s p) | o => o end
  end.
Proof using Type*.
  unfold ParseFullOrLocalName. destruct (ParseLocalName s cleared) as [[|] p] eqn:E; [|by destruct (ParseFullName s) as [[[|] q]| |]].
  destruct (local_start s _ _ E) as (c & r & -> & Hc). by rewrite not_full, E.
Qed.

Lemma full_or_local_ok s p : ParseFullOrLocalName s = Done (true, p) -> parsed_ok p.
Proof using Type*.
  rewrite full_or_local. destruct (ParseLocalName s cleared) as [[|] q] eqn:E; [intros [= <-]; by eapply local_ok, E; apply cleared_ok|].
  destruct (ParseFullName_ok s) as (b & r & Er & Hok). rewrite Er. destruct b; [intros [= <-]; by apply Hok|]. intros E'.
  pose proof (local_same s r cleared) as Hs. rewrite E in Hs. injection E' as E'. by rewrite E' in Hs.
Qed.
End Canonical.

Lemma CompleteName_unset b n : fully_specified b = true -> CompleteName b n = MergeUnsetDevNames n b.
Proof.
  unfold fully_specified. rewrite !andb_true_iff. intros ((((E1 & E2) & E3) & E4) & E5). unfold CompleteName, MergeUnsetDevNames. rewrite E1, E2, E3, E4, E5.
  by destruct n as [[] ? [] ? [] ? [] ? [] ?].
Qed.

Lemma CompleteName_full b n : fully_specified b = true -> fully_specified (CompleteName b n) = true.
Proof.
  intros Hb. rewrite (CompleteName_unset b n Hb), MergeUnset_fields. unfold fully_specified in *. rewrite !andb_true_iff in *. cbn.
  destruct Hb as ((((-> & ->) & ->) & ->) & ->). cbn. split_and!; match goal with |- (if negb ?h then _ else _) = true => by destruct h end.
Qed.

Lemma CompleteName_spec b n : fully_specified b = true -> IsSpecification n (CompleteName b n) = true.
Proof.
  intros Hb. rewrite (CompleteName_unset b n Hb). apply IsSpecification_iff. intros d Hd%MergeUnset_matches.
  exact (proj1 (IsSpecification_iff _ _) (merged_specification b n) d Hd).
Qed.

(** The numbers are not negative. *)
Definition nonneg (p : ParsedName) : Prop := 0 <= replica p /\ 0 <= task p /\ 0 <= id p.

Lemma CompleteName_ok b n : fully_specified b = true -> parsed_ok b -> parsed_ok n -> nonneg (CompleteName b n) -> name_ok (CompleteName b n).
Proof.
  intros Hb (B1 & B2 & B3 & B4 & B5) (N1 & N2 & N3 & N4 & N5). pose proof (CompleteName_full b n Hb) as Hf. revert Hf. rewrite (CompleteName_unset b n Hb), MergeUnset_fields.
  unfold fully_specified in *. rewrite !andb_true_iff in *. destruct Hb as ((((E1 & E2) & E3) & E4) & E5). rewrite E1, E2, E3, E4, E5 in *. cbn.
  intros ((((F1 & F2) & F3) & F4) & F5) (P1 & P2 & P3). cbn in *. unfold in_i32 in *.
  split_and!; cbn; intros _; [destruct (has_job n) eqn:?|destruct (has_replica n)|destruct (has_task n)|destruct (has_type n) eqn:?|split; [done|destruct (has_id n)]]; cbn in *; auto with lia.
Qed.

(** * Names of fully specified devices *)
Section Mappings.
Context `{AbslLaws}.

Lemma specified_ok p : fully_specified p = true -> name_ok p -> IsJobName (job p) = true /\ IsJobName (type p) = true /\
  0 <= replica p < 2 ^ 31 /\ 0 <= task p < 2 ^ 31 /\ 0 <= id p < 2 ^ 31.
Proof using Type.
  unfold fully_specified. rewrite !andb_true_iff. intros ((((E1 & E2) & E3) & E4) & E5) (Hj & Hr & Ht & Hd & Hi). destruct (Hi E5). split_and!; naive_solver.
Qed.

Lemma specified_normal p : fully_specified p = true -> normal p = p.
Proof using Type.
  unfold fully_specified. rewrite !andb_true_iff. intros ((((E1 & E2) & E3) & E4) & E5). unfold normal. rewrite E1, E2, E3, E4, E5. destruct p; cbn in *. congruence.
Qed.

Lemma DeviceName_run p prefix t : fully_specified p = true -> name_ok p -> t <> [] ->
  DeviceName (job p) (replica p) (task p) prefix t (id p) =
  Done (job_part p ++ replica_part p ++ task_part p ++ prefix ++ t ++ chars ":" ++ FastInt32ToBufferLeft (id p)).
Proof using Type.
  intros Hf Hok Ht. destruct (specified_ok p Hf Hok) as (Hj & _ & Hr & Hta & Hi). unfold DeviceName. rewrite Hj, !(proj2 (Z.leb_le _ _)), bool_decide_eq_false_2 by (done || lia).
  unfold fully_specified in Hf. rewrite !andb_true_iff in Hf. destruct Hf as ((((E1 & E2) & E3) & E4) & E5). unfold job_part, replica_part, task_part. rewrite E1, E2, E3.
  cbn [andb negb]. by rewrite <- !app_assoc.
Qed.

Lemma FullName_run p : fully_specified p = true -> name_ok p -> FullName (job p) (replica p) (task p) (type p) (id p) = Done (ParsedNameToString p).
Proof using Type.
  intros Hf Hok. unfold FullName. rewrite DeviceName_run by (done || (destruct (specified_ok p Hf Hok) as (_ & Ht & _); by destruct (type p))).
  assert (device_part p = chars "/device:" ++ type p ++ chars ":" ++ FastInt32ToBufferLeft (id p)) as <-; [|done].
  unfold fully_specified in Hf. rewrite !andb_true_iff in Hf. destruct Hf as ((((E1 & E2) & E3) & E4) & E5). unfold device_part. by rewrite E4, E5.
Qed.

(** The legacy part of a name of type CPU or GPU, after the task. *)
Lemma parse_legacy_part p q b (c : Z) lower upper canonical : 0 <= id p < 2 ^ 31 -> lower = 47 :: c :: chars "pu:" ->
  parse_legacy lower upper canonical (lower ++ FastInt32ToBufferLeft (id p)) q b = inr ([], set_id true (id p) (set_type true canonical q), true).
Proof using Type*.
  intros Hi ->. unfold parse_legacy. rewrite !ConsumePrefix_strip, strip_app. cbv zeta.
  pose proof (number_value (id (set_type true canonical q)) set_id (id p) [] (set_type true canonical q) Hi eq_refl) as E. rewrite app_nil_r in E. by rewrite E.
Qed.

Lemma legacy_parsed p : fully_specified p = true -> name_ok p -> type p = chars "CPU" \/ type p = chars "GPU" ->
  exists s, LegacyName (job p) (replica p) (task p) (type p) (id p) = Done s /\ ParseFullName s = Done (true, p).
Proof using Type*.
  intros Hf Hok Htype. destruct (specified_ok p Hf Hok) as (_ & _ & _ & _ & Hi). pose proof Hok as (Hj & Hr & Ht & _).
  set (c := if bool_decide (type p = chars "CPU") then 99 else 103). set (tail := (47 :: c :: chars "pu:") ++ FastInt32ToBufferLeft (id p)).
  assert (opens [c] tail) as Ho by (right; eexists c, _; split; [reflexivity|left]).
  assert (c <> 106 /\ c <> 114 /\ c <> 116 /\ c <> 100) as Hc by (unfold c; by case_bool_decide).
  assert (forall l, opens [c] tail -> opens (c :: l) tail) as Hmore by (intros l [->|(x & r & E & Hx)]; [by left|right; exists x, r; split; [done|set_solver]]).
  assert (opens [c; 116] (task_part p ++ tail)) as Ho2 by (unfold task_part; apply (opens_app [c]); [done|set_solver|set_solver]).
  assert (opens [c; 116; 114] (replica_part p ++ task_part p ++ tail)) as Ho3 by (unfold replica_part; apply (opens_app [c; 116]); [done|set_solver|set_solver]).
  exists (job_part p ++ replica_part p ++ task_part p ++ tail). split.
  { unfold LegacyName. rewrite AsciiStrToLower_spec, DeviceName_run by (done || (destruct Htype as [-> | ->]; done)). unfold tail, c. do 4 f_equal.
    destruct Htype as [E|E]; rewrite E; [by rewrite bool_decide_eq_true_2|by rewrite bool_decide_eq_false_2]. }
  assert (parse_round (job_part p ++ replica_part p ++ task_part p ++ tail) cleared false = inr ([], p, true)) as Hround.
  { unfold parse_round, then_block. rewrite (parse_job_run p _ _ Hj _ _ Ho3) by set_solver. rewrite (parse_replica_run p _ _ Hr _ _ Ho2) by set_solver.
    rewrite (parse_task_run p _ _ Ht _ _ Ho) by set_solver. unfold parse_device. rewrite ConsumePrefix_strip. change (chars "/device:") with (47 :: 100 :: chars "evice:").
    rewrite (strip_other [c] tail) by (done || set_solver). assert (fully_specified p = true) as Hf' by done. unfold fully_specified in Hf'. rewrite !andb_true_iff in Hf'.
    destruct Hf' as ((((E1 & E2) & E3) & E4) & E5). rewrite E1, E2, E3. unfold tail, c. destruct Htype as [E|E].
    - rewrite bool_decide_eq_true_2 by done. rewrite (parse_legacy_part p _ _ 99) by done. rewrite parse_legacy_nil by done. destruct p; cbn in *. by subst.
    - rewrite bool_decide_eq_false_2 by (by rewrite E). unfold parse_legacy at 1. rewrite !ConsumePrefix_strip.
      change (strip (chars "/cpu:") ((47 :: 103 :: chars "pu:") ++ FastInt32ToBufferLeft (id p))) with (@None text).
      change (strip (chars "/CPU:") ((47 :: 103 :: chars "pu:") ++ FastInt32ToBufferLeft (id p))) with (@None text). cbv iota beta.
      rewrite (parse_legacy_part p _ _ 103) by done. destruct p; cbn in *. by subst. }
  unfold ParseFullName. rewrite bool_decide_eq_false_2.
  2:{ intros E. rewrite E, parse_slash in Hround. by apply (f_equal (fun o => match o with inr (t, _, _) => t | inl _ => [] end)) in Hround. }
  destruct (job_part p ++ replica_part p ++ task_part p ++ tail) as [|x s] eqn:Es.
  - apply (f_equal length) in Es. rewrite !length_app in Es. unfold tail in Es. simpl in Es. lia.
  - cbn [length parse_loop]. rewrite Hround. by destruct (length s).
Qed.
End Mappings.

(** * Rendezvous keys *)
Record KeyParts := mkParts {
  k_src : text;
  k_incarnation : Z;
  k_dst : text;
  k_name : text;
  k_frame : Z;
  k_iter : Z
}.

Definition create (k : KeyParts) : text := CreateKey (k_src k) (k_incarnation k) (k_dst k) (k_name k) (k_frame k) (k_iter k).

Lemma next_part a r : 59 ∉ a -> ConsumeNextPart (a ++ 59 :: r) 59 = (a, r).
Proof.
  induction a as [|c a IH]; intros Ha; [done|]. cbn [app ConsumeNextPart]. rewrite (proj2 (Z.eqb_neq c 59)) by set_solver. rewrite IH by set_solver. done.
Qed.

Lemma last_part a : 59 ∉ a -> ConsumeNextPart a 59 = (a, []).
Proof.
  induction a as [|c a IH]; intros Ha; [done|]. cbn [ConsumeNextPart]. rewrite (proj2 (Z.eqb_neq c 59)) by set_solver. rewrite IH by set_solver. done.
Qed.

Lemma hex_no_semicolon s v w : hex_parse s v = Some w -> 59 ∉ s.
Proof.
  revert v. induction s as [|c s IH]; intros v E; [apply not_elem_of_nil|]. cbn in E. destruct (hex_value c) eqn:Ec; [|done]. apply not_elem_of_cons. split; [by intros <-|by eapply IH].
Qed.

Lemma digits_no_semicolon fuel i : 59 ∉ digits_loop fuel i.
Proof.
  revert i. induction fuel as [|fuel IH]; intros i; cbn [digits_loop]; [apply not_elem_of_nil|]. apply not_elem_of_cons. pose proof (Z.mod_pos_bound i 10). split; [lia|].
  destruct (0 <? i / 10); [apply IH|apply not_elem_of_nil].
Qed.

(** The frame and the iteration at the end of a key. *)
Definition frame_part (k : KeyParts) : text := FastUInt64ToBufferLeft (k_frame k) ++ chars ":" ++ FastInt64ToBufferLeft (k_iter k).

Lemma frame_no_semicolon k : 59 ∉ frame_part k.
Proof.
  assert (forall i, 59 ∉ FastUInt64ToBufferLeft i) as Hd by (intros i; unfold FastUInt64ToBufferLeft; rewrite list_elem_of_In, <- in_rev, <- list_elem_of_In; apply digits_no_semicolon).
  unfold frame_part, FastInt64ToBufferLeft. rewrite !elem_of_app. intros [Hin|[Hin|Hin]]; [by apply Hd in Hin|cbn in Hin; set_solver|].
  destruct (k_iter k <? 0); [apply elem_of_cons in Hin as [|Hin]; [done|]|]; by apply Hd in Hin.
Qed.

Lemma create_parts k : create k = k_src k ++ 59 :: Uint64ToHexString (k_incarnation k) ++ 59 :: k_dst k ++ 59 :: k_name k ++ 59 :: frame_part k.
Proof. done. Qed.

Lemma key_split k : 59 ∉ k_src k -> 59 ∉ k_dst k -> 59 ∉ k_name k -> 0 <= k_incarnation k < 2 ^ 64 ->
  let '(p0, s) := ConsumeNextPart (create k) 59 in let '(p1, s) := ConsumeNextPart s 59 in let '(p2, s) := ConsumeNextPart s 59 in
  let '(p3, s) := ConsumeNextPart s 59 in let '(p4, s) := ConsumeNextPart s 59 in
  (p0, p1, p2, p3, p4, s) = (k_src k, Uint64ToHexString (k_incarnation k), k_dst k, k_name k, frame_part k, []).
Proof.
  intros Hs Hd Hn Hi. pose proof (hex_roundtrip _ Hi) as Hh. assert (59 ∉ Uint64ToHexString (k_incarnation k)) as Hhex.
  { unfold HexStringToUint64 in Hh. destruct (Uint64ToHexString (k_incarnation k)) eqn:E; [apply not_elem_of_nil|]. by eapply hex_no_semicolon. }
  rewrite create_parts, next_part, next_part, next_part, next_part by done. by rewrite last_part by apply frame_no_semicolon.
Qed.

Lemma frame_inj k k' : 0 <= k_frame k < 2 ^ 64 -> 0 <= k_frame k' < 2 ^ 64 -> in_i64 (k_iter k) -> in_i64 (k_iter k') -> frame_part k = frame_part k' ->
  k_frame k = k_frame k' /\ k_iter k = k_iter k'.
Proof.
  intros Hf Hf' Hi Hi' E. unfold frame_part in E. destruct (FastUInt64_spec _ Hf) as ([_ Hds] & Hv & _). destruct (FastUInt64_spec _ Hf') as ([_ Hds'] & Hv' & _).
  pose proof (take_digits_app _ (chars ":" ++ FastInt64ToBufferLeft (k_iter k)) Hds eq_refl) as T.
  pose proof (take_digits_app _ (chars ":" ++ FastInt64ToBufferLeft (k_iter k')) Hds' eq_refl) as T'. rewrite E, T' in T. injection T as Ed Ei.
  split; [congruence|]. pose proof (FastInt64_spec _ Hi) as P. pose proof (FastInt64_spec _ Hi') as P'. congruence.
Qed.

Section Keys.
Context `{AbslLaws}.

Definition key_ok (k : KeyParts) : Prop :=
  (exists p, ParseFullName (k_src k) = Done (true, p)) /\ (exists p, ParseFullName (k_dst k) = Done (true, p)) /\ 0 <= k_incarnation k < 2 ^ 64 /\
  59 ∉ k_name k /\ k_name k <> [] /\ 0 <= k_frame k < 2 ^ 64 /\ in_i64 (k_iter k).

Lemma parsed_no_semicolon s p : ParseFullName s = Done (true, p) -> 59 ∉ s.
Proof using Type*. intros E. destruct (ParseFullName_ok s) as (b & q & E' & Hok). rewrite E in E'. injection E' as <- <-. by apply Hok. Qed.

Lemma ParseKey_create k p q : key_ok k -> ParseFullName (k_src k) = Done (true, p) -> ParseFullName (k_dst k) = Done (true, q) ->
  ParseKey (create k) = Done (inr (mkKey (k_src k) p (k_incarnation k) (k_dst k) q (k_name k) (create k))).
Proof using Type*.
  intros (_ & _ & Hi & Hn & Hne & _) Hp Hq. pose proof (key_split k (parsed_no_semicolon _ _ Hp) (parsed_no_semicolon _ _ Hq) Hn Hi) as Hs. unfold ParseKey.
  destruct (ConsumeNextPart (create k) 59) as [p0 s0]. destruct (ConsumeNextPart s0 59) as [p1 s1]. destruct (ConsumeNextPart s1 59) as [p2 s2].
  destruct (ConsumeNextPart s2 59) as [p3 s3]. destruct (ConsumeNextPart s3 59) as [p4 s4]. injection Hs as -> -> -> -> -> ->.
  rewrite bool_decide_eq_true_2, bool_decide_eq_false_2 by (done || (unfold frame_part; by intros [_ [=]]%app_eq_nil)). cbn [andb negb].
  rewrite Hp, (hex_roundtrip _ Hi), Hq. by rewrite bool_decide_eq_false_2.
Qed.

Lemma create_inj k k' : key_ok k -> key_ok k' -> create k = create k' -> k = k'.
Proof using Type*.
  intros ([p Hp] & [q Hq] & Hi & Hn & _ & Hf & Hit) ([p' Hp'] & [q' Hq'] & Hi' & Hn' & _ & Hf' & Hit') E.
  pose proof (key_split k (parsed_no_semicolon _ _ Hp) (parsed_no_semicolon _ _ Hq) Hn Hi) as S.
  pose proof (key_split k' (parsed_no_semicolon _ _ Hp') (parsed_no_semicolon _ _ Hq') Hn' Hi') as S'. rewrite E in S.
  destruct (ConsumeNextPart (create k') 59) as [p0 s0]. destruct (ConsumeNextPart s0 59) as [p1 s1]. destruct (ConsumeNextPart s1 59) as [p2 s2].
  destruct (ConsumeNextPart s2 59) as [p3 s3]. destruct (ConsumeNextPart s3 59) as [p4 s4]. 
  pose proof (eq_trans (eq_sym S) S') as T.
  apply pair_equal_spec in T as [[[[[E1 E2]%pair_equal_spec E3]%pair_equal_spec E4]%pair_equal_spec E5]%pair_equal_spec _].
  destruct (frame_inj k k' Hf Hf' Hit Hit' E5) as [Ef Eit]. assert (k_incarnation k = k_incarnation k') as Einc.
  { pose proof (hex_roundtrip _ Hi). pose proof (hex_roundtrip _ Hi'). congruence. }
  destruct k, k'. cbn in *. congruence.
Qed.

Lemma ParseKey_total key : exists r, ParseKey key = Done r.
Proof using Type*.
  unfold ParseKey. destruct (ConsumeNextPart key 59) as [p0 s0]. destruct (ConsumeNextPart s0 59) as [p1 s1]. destruct (ConsumeNextPart s1 59) as [p2 s2].
  destruct (ConsumeNextPart s2 59) as [p3 s3]. destruct (ConsumeNextPart s3 59) as [p4 s4]. destruct (_ && _); [|eauto].
  destruct (ParseFullName_ok p0) as (b & p & -> & _). destruct b; [|eauto]. destruct (HexStringToUint64 p1); [|eauto].
  destruct (ParseFullName_ok p2) as (b' & p' & -> & _). destruct b'; [|eauto]. case_bool_decide; eauto.
Qed.
End Keys.

(** Whatever keeps the laws parses as [strip] does. *)
Section Concrete.
Context `{AbslLaws}.

Ltac same_prefix := rewrite ?ConsumePrefix_strip; cbn [ConsumePrefix strip_absl].

Lemma value_concrete {A} (consume : text -> option (A * text)) old set s p : value_or_any consume old set s p = value_or_any (H := strip_absl) consume old set s p.
Proof using Type*. unfold value_or_any. by same_prefix. Qed.

Lemma round_concrete s p b : parse_round s p b = parse_round (H := strip_absl) s p b.
Proof using Type*.
  assert (forall (a a' c c' : parse_step), (forall s p b, a s p b = a' s p b) -> (forall s p b, c s p b = c' s p b) -> forall s p b, then_block a c s p b = then_block a' c' s p b) as Hthen.
  { intros a a' c c' Ha Hc s' p' b'. unfold then_block. rewrite Ha. destruct (a' s' p' b') as [|[[s2 p2] b2]]; [done|apply Hc]. }
  revert s p b. unfold parse_round. repeat apply Hthen; intros s p b;
    unfold parse_job, parse_replica, parse_task, parse_device, parse_legacy; same_prefix.
  - destruct (strip _ s); [|done]. by rewrite value_concrete.
  - destruct (strip _ s); [|done]. by rewrite value_concrete.
  - destruct (strip _ s); [|done]. by rewrite value_concrete.
  - destruct (strip (chars "/device:") s) as [r|]; [|done]. rewrite value_concrete. destruct (value_or_any _ _ _ r p) as [|[s1 p1]]; [done|]. same_prefix.
    destruct (strip (chars ":") s1); [|done]. by rewrite value_concrete.
  - destruct (match strip _ s with Some _ => _ | None => _ end); [|done]. cbv zeta. by rewrite value_concrete.
  - destruct (match strip _ s with Some _ => _ | None => _ end); [|done]. cbv zeta. by rewrite value_concrete.
Qed.

Lemma ParseFullName_concrete s : ParseFullName s = ParseFullName (H := strip_absl) s.
Proof using Type*.
  unfold ParseFullName. case_bool_decide as E; [done|]. clear E. generalize (length s), cleared. intros fuel. revert s. induction fuel as [|fuel IH]; intros s p; [done|].
  destruct s as [|c s]; [done|]. cbn [parse_loop]. rewrite round_concrete. destruct (parse_round _ _ _) as [|[[s' p'] []]]; [done| |done]. apply IH.
Qed.
End Concrete.

(** * Theorems *)

(** C20. Names are patterns that stand for sets of devices, and the operations on
    them are the operations on these sets: [IsSpecification] is inclusion,
    [AreCompatibleDevNames] tells whether a device matches both, a strict merge
    succeeds exactly for compatible names and leaves the devices that match both,
    and the soft merges succeed exactly when the tasks can be the same;
    [EnsureSpecification] leaves a specification of its second argument, and
    filling unset fields one of its first; the tests on address spaces compare the
    tasks of all devices. *)
Theorem device_patterns_refine (a b : ParsedName) :
  (IsSpecification a b = true <-> forall d, matches b d -> matches a d) /\
  (AreCompatibleDevNames a b = true <-> exists d, matches a d /\ matches b d) /\
  ((MergeDevNames a b false).1 = StatusOK <-> AreCompatibleDevNames a b = true) /\
  ((MergeDevNames a b true).1 = StatusOK <-> IsDifferentAddressSpace a b = false) /\
  (AreCompatibleDevNames a b = true -> forall soft d, matches (MergeDevNames a b soft).2 d <-> matches a d /\ matches b d) /\
  ((MergeOverrideDevNames a b).1 = StatusOK -> IsSpecification b (MergeOverrideDevNames a b).2 = true) /\
  IsSpecification b (EnsureSpecification a b) = true /\ IsSpecification a (MergeUnsetDevNames a b) = true /\
  (AreCompatibleDevNames a b = true -> forall d, matches (MergeUnsetDevNames a b) d <-> matches a d /\ matches b d) /\
  (fully_specified b = true -> IsCompleteSpecification a b = Done (IsSpecification a b)) /\
  (IsSameAddressSpace a b = true <-> forall d d', matches a d -> matches b d' -> same_task d d') /\
  (IsDifferentAddressSpace a b = true <-> ~ exists d d', matches a d /\ matches b d' /\ same_task d d').
Proof.
  split_and!; [apply IsSpecification_iff|apply AreCompatible_iff| |apply merge_soft_ok| |apply merge_override| | | |apply IsComplete_spec|apply IsSame_iff|apply IsDifferent_iff].
  - split; [apply merge_strict_ok|]. intros Hc. unfold MergeDevNames. by rewrite merge_compatible.
  - intros Hc soft d. unfold MergeDevNames. rewrite merge_compatible by done. by apply merged_matches.
  - rewrite EnsureSpecification_merged. apply merged_specification.
  - apply IsSpecification_iff. intros d Hd%MergeUnset_matches. exact (proj1 (IsSpecification_iff _ _) (merged_specification b a) d Hd).
  - intros Hc d. assert (AreCompatibleDevNames b a = true) as Hc'.
    { apply AreCompatible_iff in Hc as (x & Ha & Hb). apply AreCompatible_iff. by exists x. }
    rewrite MergeUnset_matches, merged_matches by done. tauto.
Qed.

Section DeviceTheorems.
Context `{AbslLaws}.

(** C21. A name with valid parts is printed so that it is parsed back: the same
    fields are set, to the same values.  The names that map to a fully specified
    device are its printed form, which parses to it, and a legacy form, which
    parses to it too when the type is CPU or GPU. *)
Theorem device_name_roundtrip (p : ParsedName) : name_ok p ->
  (exists q, ParseFullName (ParsedNameToString p) = Done (true, q) /\ name_eq p q = true) /\
  (fully_specified p = true -> type p = chars "CPU" \/ type p = chars "GPU" ->
    exists legacy, GetNamesForDeviceMappings p = Done [ParsedNameToString p; legacy] /\ ParseFullName (ParsedNameToString p) = Done (true, p) /\ ParseFullName legacy = Done (true, p)).
Proof using Type*.
  intros Hok. split; [exists (normal p); split; [by apply parse_printed|apply normal_eq]|]. intros Hf Ht. destruct (legacy_parsed p Hf Hok Ht) as (s & E & Hs). exists s.
  unfold GetNamesForDeviceMappings. rewrite Hf, FullName_run, E by done. split_and!; [done| |done]. by rewrite parse_printed, specified_normal.
Qed.

(** Parsing ends on every text, within as many rounds as it has characters,
    and accepts only names of jobs and types that begin with a letter and go on
    with letters, digits and underscores, and no text with a semicolon; a key is
    parsed or refused as well. *)
Theorem device_parse_total (s : text) :
  (exists b p, ParseFullName s = Done (b, p) /\ (b = true -> parsed_ok p /\ 59 ∉ s)) /\
  (exists b p, ParseFullOrLocalName s = Done (b, p) /\ (b = true -> parsed_ok p)) /\ (exists r, ParseKey s = Done r).
Proof using Type*.
  split_and!; [apply ParseFullName_ok| |apply ParseKey_total]. destruct (ParseFullOrLocalName s) as [[b p]| |] eqn:E.
  - exists b, p. split; [done|]. intros ->. by apply (full_or_local_ok s).
  - unfold ParseFullOrLocalName in E. destruct (ParseFullName_ok s) as (b & p & E' & _). rewrite E' in E. by destruct b.
  - unfold ParseFullOrLocalName in E. destruct (ParseFullName_ok s) as (b & p & E' & _). rewrite E' in E. by destruct b.
Qed.

(** [CanonicalizeDeviceName] succeeds exactly when the base name parses to a
    fully specified name and the name parses as a local or a full name; an error
    leaves the empty text, and success the name completed from the base: a fully
    specified specification of the name, whose text parses back to it unless a
    number is negative. *)
Theorem device_canonical (fullname basename : text) : exists st out, CanonicalizeDeviceName fullname basename = Done (st, out) /\
  (st <> StatusOK -> out = []) /\
  (st = StatusOK <-> exists b n, ParseFullName basename = Done (true, b) /\ fully_specified b = true /\ ParseFullOrLocalName fullname = Done (true, n)) /\
  forall b n, ParseFullName basename = Done (true, b) -> fully_specified b = true -> ParseFullOrLocalName fullname = Done (true, n) ->
    out = ParsedNameToString (CompleteName b n) /\ IsSpecification n (CompleteName b n) = true /\ fully_specified (CompleteName b n) = true /\
    (nonneg (CompleteName b n) -> ParseFullName out = Done (true, CompleteName b n)).
Proof using Type*.
  assert (forall b n, ParseFullName basename = Done (true, b) -> fully_specified b = true -> ParseFullOrLocalName fullname = Done (true, n) ->
    IsSpecification n (CompleteName b n) = true /\ fully_specified (CompleteName b n) = true /\
    (nonneg (CompleteName b n) -> ParseFullName (ParsedNameToString (CompleteName b n)) = Done (true, CompleteName b n))) as Hgood.
  { intros b n Eb Hf En. pose proof (CompleteName_full b n Hf) as Hc. split_and!; [by apply CompleteName_spec|done|]. intros Hn.
    rewrite parse_printed, specified_normal; [done|done|]. apply CompleteName_ok; [done| |by eapply full_or_local_ok|done].
    destruct (ParseFullName_ok basename) as (b' & p' & E' & Hok). rewrite Eb in E'. injection E' as <- <-. by apply Hok. }
  unfold CanonicalizeDeviceName. destruct (ParseFullName_ok basename) as (bb & b & Eb & _). rewrite Eb.
  destruct bb; [|eexists _, _; split; [reflexivity|]; split_and!; [done|split; [done|by intros (? & ? & ? & _)]|by intros ? ? [=]]].
  destruct (fully_specified b) eqn:Hf; cbn [negb]; [|eexists _, _; split; [reflexivity|]; split_and!; [done|split; [done|intros (? & ? & [= <-] & ? & _); congruence]|intros ? ? [= <-]; congruence]].
  assert (forall n, ParseFullOrLocalName fullname = Done (true, n) -> exists st out, Done (StatusOK, ParsedNameToString (CompleteName b n)) = Done (st, out) /\
    (st <> StatusOK -> out = []) /\ (st = StatusOK <-> exists b' n', ParseFullName basename = Done (true, b') /\ fully_specified b' = true /\ ParseFullOrLocalName fullname = Done (true, n')) /\
    forall b' n', ParseFullName basename = Done (true, b') -> fully_specified b' = true -> ParseFullOrLocalName fullname = Done (true, n') ->
    out = ParsedNameToString (CompleteName b' n') /\ IsSpecification n' (CompleteName b' n') = true /\ fully_specified (CompleteName b' n') = true /\
    (nonneg (CompleteName b' n') -> ParseFullName out = Done (true, CompleteName b' n'))) as Hdone.
  { intros n En. eexists _, _. split; [reflexivity|]. split_and!; [done|split; [by exists b, n|done]|]. intros b' n' E' Hf' En'.
    assert (b' = b) as -> by congruence. assert (n' = n) as -> by congruence. split; [done|]. by apply Hgood. }
  rewrite <- Eb. pose proof (full_or_local fullname) as Hfl. destruct (ParseLocalName fullname cleared) as [[|] p] eqn:El; [by apply Hdone|].
  destruct (ParseFullName_ok fullname) as (bf & q & Ef & _). rewrite Ef in *. destruct bf; [by apply Hdone|].
  assert (forall n, ParseFullOrLocalName fullname <> Done (true, n)) as Hno.
  { intros n En. rewrite En in Hfl. injection Hfl as E. pose proof (local_same fullname q cleared) as Hs. by rewrite <- E, El in Hs. }
  eexists _, _. split; [reflexivity|]. split_and!; [done|split; [done|by intros (? & n & _ & _ & []%Hno)]|by intros ? n _ _ []%Hno].
Qed.

(** C32. The key made from two device names that parse, an incarnation, the name
    of an edge without semicolons, a frame and an iteration is parsed back to
    these parts, and two different channels never have the same key. *)
Theorem rendezvous_key_roundtrip (k : KeyParts) : key_ok k ->
  (exists p q, ParseFullName (k_src k) = Done (true, p) /\ ParseFullName (k_dst k) = Done (true, q) /\
    ParseKey (create k) = Done (inr (mkKey (k_src k) p (k_incarnation k) (k_dst k) q (k_name k) (create k)))) /\
  forall k', key_ok k' -> create k' = create k -> k' = k.
Proof using Type*.
  intros Hk. split; [|intros k' Hk' E; by apply create_inj]. pose proof Hk as ([p Hp] & [q Hq] & _). exists p, q. split_and!; [done|done|]. by apply ParseKey_create.
Qed.

(** A number in a device name is read as 64 bits and kept as an [int]: task
    2^32 is task 0, and task 2^31 is negative and is printed as a text that does
    not parse.  A name with an id but no type, which parses, is printed as the
    empty text, the name of every device. *)
Theorem device_name_wraps :
  (exists p, ParseFullName (chars "/task:4294967296") = Done (true, p) /\ has_task p = true /\ task p = 0) /\
  (exists p q, ParseFullName (chars "/task:2147483648") = Done (true, p) /\ ParsedNameToString p = chars "/task:-2147483648" /\ ParseFullName (ParsedNameToString p) = Done (false, q)) /\
  (exists p, ParseFullName (chars "/device:*:1") = Done (true, p) /\ has_id p = true /\ id p = 1 /\ ParsedNameToString p = []).
Proof using Type*.
  split_and!.
  - exists (mkName false [] false 0 true 0 false [] false 0). rewrite ParseFullName_concrete. split_and!; [vm_compute|..]; reflexivity.
  - exists (mkName false [] false 0 true (- 2 ^ 31) false [] false 0), (mkName false [] false 0 true 0 false [] false 0). rewrite (ParseFullName_concrete (chars _)).
    assert (ParsedNameToString (mkName false [] false 0 true (- 2 ^ 31) false [] false 0) = chars "/task:-2147483648") as -> by (vm_compute; reflexivity).
    rewrite (ParseFullName_concrete (chars "/task:-2147483648")). split; [|split]; vm_compute; reflexivity.
  - exists (mkName false [] false 0 false 0 false [] true 1). rewrite ParseFullName_concrete. split_and!; [vm_compute|..]; reflexivity.
Qed.
End DeviceTheorems.

(** * Witnesses *)
Definition demo_name : ParsedName := mkName true (chars "worker") true 0 true 3 true (chars "GPU") true 1.

Lemma demo_name_ok : name_ok demo_name.
Proof. split_and!; intros _; vm_compute; repeat split; (reflexivity || discriminate). Qed.

Lemma device_name_roundtrip_witness : ParsedNameToString demo_name = chars "/job:worker/replica:0/task:3/device:GPU:1" /\
  exists legacy, GetNamesForDeviceMappings demo_name = Done [ParsedNameToString demo_name; legacy] /\ ParseFullName legacy = Done (true, demo_name).
Proof.
  split; [vm_compute; reflexivity|]. destruct (device_name_roundtrip demo_name demo_name_ok) as [_ Hmap].
  destruct Hmap as (legacy & E & _ & Hl); [reflexivity|right; reflexivity|]. exists legacy. split; [exact E|exact Hl].
Defined.

Definition demo_key : KeyParts :=
  mkParts (chars "/job:worker/replica:0/task:3/device:GPU:1") 7 (chars "/job:worker/replica:0/task:0/device:CPU:0") (chars "edge_12_a") 0 (-1).

Lemma rendezvous_key_roundtrip_witness :
  create demo_key = chars "/job:worker/replica:0/task:3/device:GPU:1;0000000000000007;/job:worker/replica:0/task:0/device:CPU:0;edge_12_a;0:-1" /\
  exists p q, ParseKey (create demo_key) = Done (inr (mkKey (k_src demo_key) p 7 (k_dst demo_key) q (chars "edge_12_a") (create demo_key))).
Proof.
  split; [vm_compute; reflexivity|]. destruct (rendezvous_key_roundtrip demo_key) as [(p & q & _ & _ & E) _].
  - split_and!; try (vm_compute; repeat split; (reflexivity || discriminate)); [eexists; vm_compute; reflexivity|eexists; vm_compute; reflexivity|cbn; set_solver].
  - exists p, q. exact E.
Defined.

Lemma device_parse_total_witness : exists p, ParseFullName (chars "/job:a/cpu:*") = Done (true, p) /\ parsed_ok p.
Proof.
  destruct (device_parse_total (chars "/job:a/cpu:*")) as [(b & p & E & Hok) _]. destruct b; [|vm_compute in E; discriminate E].
  exists p. split; [exact E|]. exact (proj1 (Hok eq_refl)).
Defined.

Lemma device_canonical_witness : exists out, CanonicalizeDeviceName (chars "CPU:2") (chars "/job:worker/replica:0/task:3/device:GPU:1") = Done (StatusOK, out) /\
  out = chars "/job:worker/replica:0/task:3/device:CPU:2".
Proof.
  destruct (device_canonical (chars "CPU:2") (chars "/job:worker/replica:0/task:3/device:GPU:1")) as (st & out & E & _ & Hst & Hout).
  assert (st = StatusOK) as Hok by (apply Hst; eexists _, _; split; [vm_compute; reflexivity|split; vm_compute; reflexivity]). subst st. exists out. split; [exact E|].
  destruct (Hout demo_name (set_id true 2 (set_type true (chars "CPU") cleared))) as [Eo _]; [vm_compute; reflexivity|reflexivity|vm_compute; reflexivity|].
  rewrite Eo. vm_compute. reflexivity.
Defined.

Lemma device_name_wraps_witness : exists p, ParseFullName (chars "/device:*:1") = Done (true, p) /\ ParsedNameToString p = [].
Proof. destruct device_name_wraps as (_ & _ & p & E & _ & _ & Ep). exists p. split; [exact E|exact Ep]. Defined.
