(* ===== verification/GraphViewInit.v ===== *)
(** * Building the view of a graph (src/tensorflow/core/common_runtime/graph_view.cc)

    The items of nodes are made from the graph, one after the other in an array
    of bytes, and the attributes of the allocators of their outputs are
    inferred.  An item is found by the id of its node, as by its offset in
    [node_offsets_]; its contents are a record and not bytes.  Kernels,
    attributes of nodes and flags of ops come from protocol buffers and
    registries and are the class [ExecutorParams]. *)
From S2P Require Import Prelude Numbers DeviceName EdgeSet Graph GraphView.
From stdpp Require Import list gmap strings options.
#[local] Open Scope Z_scope.
#[local] Open Scope tf_monad_scope.

Class ExecutorParams := {
  create_kernel : NodeProperties -> Status + OpKernel;
  (** [GetNodeAttr] *)
  string_attr : NodeProperties -> string -> Status + string;
  int_attr : NodeProperties -> string -> Status + Z;
  bool_attr : NodeProperties -> string -> Status + bool;
  ints_attr : NodeProperties -> string -> Status + list Z;
  (** [op_def()] *)
  allows_uninitialized_input : NodeProperties -> bool;
  op_is_distributed_communication : NodeProperties -> bool;
  (** [params_.device->parsed_name()] *)
  device_parsed_name : ParsedName;
  (** [new char[n]]: an address and the bytes there. *)
  new_char : Z -> Z * list Z
}.

Definition kint32max : Z := 2 ^ 31 - 1.

Definition kuint32max : Z := 2 ^ 32 - 1.

Definition kNeverForward : Z := -2.

Definition kNoReservation : Z := -1.

Notation Items := (list (option NodeItem)).

Section GraphView.
Context {F : Type} `{FlatSet F} `{ExecutorParams} `{Absl}.
#[local] Notation Graph := (Graph F).
#[local] Notation Node := (Node F).

(** ** Classes of nodes *)
Definition has_class (c : NodeClass) (x : Node) : bool := bool_decide (class_ x = c).

Definition IsSwitch : Node -> bool := has_class NC_SWITCH.

Definition IsMerge : Node -> bool := has_class NC_MERGE.

Definition IsEnter : Node -> bool := has_class NC_ENTER.

Definition IsExit : Node -> bool := has_class NC_EXIT.

Definition IsNextIteration : Node -> bool := has_class NC_NEXT_ITERATION.

Definition IsControlTrigger : Node -> bool := has_class NC_CONTROL_TRIGGER.

Definition IsHostSend : Node -> bool := has_class NC_HOST_SEND.

Definition IsHostRecv : Node -> bool := has_class NC_HOST_RECV.

Definition IsSend (x : Node) : bool := has_class NC_SEND x || IsHostSend x.

Definition IsRecv (x : Node) : bool := has_class NC_RECV x || IsHostRecv x.

Definition IsTransferNode (x : Node) : bool := IsSend x || IsRecv x.

Definition IsScopedAllocator : Node -> bool := has_class NC_SCOPED_ALLOCATOR.

Definition IsCollective : Node -> bool := has_class NC_COLLECTIVE.

(** ** Walking a graph *)
Definition node_at (g : Graph) (o : option nat) : outcome Node :=
  match o ≫= fun n => node_heap g !! n with Some x => Done x | None => Crash end.

(** Edges with their destinations. *)
Fixpoint edges_at (g : Graph) (l : list nat) : outcome (list (Edge * Node)) :=
  match l with
  | [] => Done []
  | e :: l =>
      match edge_heap g !! e with
      | Some y =>
          match node_heap g !! dst_ y, edges_at g l with
          | Some d, Done r => Done ((y, d) :: r)
          | _, _ => Crash
          end
      | None => Crash
      end
  end.

Definition out_edges (g : Graph) (x : Node) : outcome (list (Edge * Node)) := edges_at g (elements_of (out_edges_ x)).

Definition num_node_ids (g : Graph) : nat := length (nodes_ g).

(** ** [InitializeNode] *)
Definition CountOutputEdges (es : list (Edge * Node)) : nat * nat :=
  let es := filter (fun p => IsSink p.2 = false) es in
  (length (filter (fun p => IsControlEdge p.1 = false) es), length (filter (fun p => IsControlEdge p.1 = true) es)).

(** The sizes of the structures on a 64-bit platform. *)
Definition sizeof_NodeItem : Z := 56.

Definition sizeof_EdgeInfo : Z := 12.

Definition sizeof_ControlEdgeInfo : Z := 4.

Definition sizeof_AllocatorAttributes : Z := 8.

Definition kItemAlignment : Z := 8.

(** The bytes of an item with its arrays, rounded up. *)
Definition item_bytes (num_output_edges num_output_control_edges num_inputs num_outputs : nat) : Z :=
  let raw_bytes := u64 (sizeof_NodeItem + Z.of_nat num_output_edges * sizeof_EdgeInfo + Z.of_nat num_output_control_edges * sizeof_ControlEdgeInfo +
    Z.of_nat num_outputs * sizeof_AllocatorAttributes + Z.of_nat num_outputs * 4 + Z.of_nat num_inputs * 1 + Z.of_nat num_outputs * 1) in
  u64 (raw_bytes + kItemAlignment - 1) / kItemAlignment * kItemAlignment.

Definition node_bytes (x : Node) (es : list (Edge * Node)) : Z :=
  let '(num_output_edges, num_output_control_edges) := CountOutputEdges es in
  item_bytes num_output_edges num_output_control_edges (length (input_types (props_ x))) (length (output_types (props_ x))).

Definition NodeItemBytes (g : Graph) (x : Node) : outcome Z :=
  match out_edges g x with Done es => Done (node_bytes x es) | _ => Crash end.

(** The data edges, and for each output the index of the last edge that reads
    it.  A write past the array of [num_output_edges] elements or past
    [last_indices] is undefined, and a negative slot other than that of control
    edges has no index. *)
Fixpoint fill_edges (num_output_edges num_outputs : nat) (es : list (Edge * Node)) (edges : list EdgeInfo) (last_indices : list (option nat)) :
  outcome (list EdgeInfo * list (option nat)) :=
  match es with
  | [] => Done (edges, last_indices)
  | (e, d) :: es =>
      if IsControlEdge e then fill_edges num_output_edges num_outputs es edges last_indices
      else if (num_output_edges <=? length edges)%nat then Crash
      else if 0x3FFFFFFF <? src_output_ e then Crash
      else if (src_output_ e <? 0) || (Z.of_nat num_outputs <=? src_output_ e) || (dst_input_ e <? 0) then Crash
      else
        let slot := Z.to_nat (src_output_ e) in
        fill_edges num_output_edges num_outputs es (edges ++ [mkEdgeInfo (Z.to_nat (id_ d)) slot false (Z.to_nat (dst_input_ e))])
          (<[slot := Some (length edges)]> last_indices)
  end.

Definition set_is_last (e : EdgeInfo) : EdgeInfo := mkEdgeInfo (dst_id e) (output_slot e) true (input_slot e).

Definition mark_last (last_indices : list (option nat)) (edges : list EdgeInfo) : list EdgeInfo :=
  foldl (fun l o => match o with Some i => alter set_is_last i l | None => l end) edges last_indices.

Definition control_dests (es : list (Edge * Node)) : list nat :=
  map (fun p => Z.to_nat (id_ p.2)) (filter (fun p => IsControlEdge p.1 = true /\ IsSink p.2 = false) es).

(** What the pairs of [_scoped_allocator] say of output [i]. *)
Fixpoint scoped_output (l : list Z) (i : Z) (forward scope : Z) : outcome (Z * Z) :=
  match l with
  | [] => Done (forward, scope)
  | [j] => if j =? i then Crash else Done (forward, scope)
  | j :: k :: l => if j =? i then scoped_output l i kNeverForward k else scoped_output l i forward scope
  end.

(** What the pairs of [_forward_input] say of output [i]. *)
Fixpoint forward_input (l : list Z) (i : Z) : outcome Z :=
  match l with
  | [] => Done kNoReservation
  | [_] => Crash
  | j :: k :: l => if k =? i then Done j else forward_input l i
  end.

Definition or_nil (s : Status + list Z) : list Z := match s with inl _ => [] | inr l => l end.

(** The reservation and the scope of output [i]. *)
Definition output_reservation (props : NodeProperties) (i : Z) : outcome (Z * Z) :=
  match scoped_output (or_nil (ints_attr props "_scoped_allocator")) i kNoReservation 0 with
  | Done (forward, scope) =>
      if forward =? kNoReservation then
        match forward_input (or_nil (ints_attr props "_forward_input")) i with
        | Done forward => Done (forward, scope)
        | _ => Crash
        end
      else Done (forward, scope)
  | _ => Crash
  end.

Fixpoint output_reservations (props : NodeProperties) (i : Z) (n : nat) : outcome (list (Z * Z)) :=
  match n with
  | O => Done []
  | S n =>
      match output_reservation props i, output_reservations props (i + 1) n with
      | Done r, Done l => Done (r :: l)
      | _, _ => Crash
      end
  end.

(** The item of a node and its place: [ptr] is where it starts, [space_] where
    the first starts; the result has the place of the next. *)
Definition InitializeNode (g : Graph) (space_ ptr : Z) (x : Node) : outcome (Z * NodeItem) :=
  match out_edges g x with
  | Done es =>
      let props := props_ x in
      let num_outputs := length (output_types props) in
      if negb (ptr mod kItemAlignment =? 0) then Crash
      else if kuint32max <? ptr - space_ then Crash
      else
        let '(num_output_edges, num_output_control_edges) := CountOutputEdges es in
        match fill_edges num_output_edges num_outputs es [] (replicate num_outputs None), output_reservations props 0 num_outputs with
        | Done (edges, last_indices), Done reservations =>
            Done (ptr + node_bytes x es,
              mkNodeItem (-1) false false false false false false false false false false false false false false
              (existsb IsRefType (input_types props)) false None None (length (input_types props)) num_outputs 0 None
              (mark_last last_indices edges) (control_dests es)
              (map (fun p => mkAttr 0 p.2) reservations) (map fst reservations) (map u8 (input_types props)) (map u8 (output_types props)))
        | _, _ => Crash
        end
  | _ => Crash
  end.

(** ** [GraphView::Initialize] *)

(** The first loop: the bytes of all items. *)
Fixpoint total_bytes (g : Graph) (l : list (option nat)) (total : Z) : outcome (Status + Z) :=
  match l with
  | [] => Done (inr total)
  | n :: l =>
      match node_at g n with
      | Done x =>
          if kint32max <? Z.of_nat (size_of (out_edges_ x)) then Done (inl (StatusError INVALID_ARGUMENT))
          else match NodeItemBytes g x with Done b => total_bytes g l (u64 (total + b)) | _ => Crash end
      | _ => Crash
      end
  end.

(** The second loop, over [ptr] and the items made. *)
Definition initialize_node (g : Graph) (space_ : Z) (n : option nat) : M (Z * Items) unit := fun '(ptr, items) =>
  match node_at g n with
  | Done x =>
      match items !! Z.to_nat (id_ x), InitializeNode g space_ ptr x with
      | Some None, Done (ptr, item) => Done (tt, (ptr, <[Z.to_nat (id_ x) := Some item]> items))
      | _, _ => Crash
      end
  | _ => Crash
  end.

Definition GraphView_Initialize (g : Graph) : outcome (Status * Items) :=
  match total_bytes g (nodes g) 0 with
  | Done (inl s) => Done (s, [])
  | Done (inr total) =>
      let space_ := (new_char total).1 in
      match for_each (initialize_node g space_) (nodes g) (space_, replicate (num_node_ids g) None) with
      | Done (_, (ptr, items)) => if ptr =? space_ + total then Done (StatusOK, items) else Crash
      | _ => Crash
      end
  | _ => Crash
  end.

(** ** Attributes of allocators *)

(** [GetNodeAttr] of the name of a device that must parse. *)
Definition device_attr (props : NodeProperties) (name : string) : outcome (Status + ParsedName) :=
  match string_attr props name with
  | inl s => Done (inl s)
  | inr d =>
      match ParseFullName (chars d) with
      | Done (true, p) => Done (inr p)
      | Done (false, _) => Done (inl (StatusError INTERNAL))
      | Crash => Crash
      | OutOfFuel => OutOfFuel
      end
  end.

(** The part of [InferAllocAttr] for one end of a transfer; [host] is true for
    a host transfer. *)
Definition infer_end (props : NodeProperties) (name : string) (host : bool) (attr : AllocatorAttributes) : outcome (Status * AllocatorAttributes) :=
  match device_attr props name with
  | Done (inl s) => Done (s, attr)
  | Done (inr p) =>
      Done (StatusOK,
        if negb (IsSameAddressSpace p device_parsed_name) then set_nic_compatible true attr
        else if (bool_decide (type device_parsed_name = chars "CPU") || host) && negb (bool_decide (type p = chars "CPU")) then set_gpu_compatible true attr
        else attr)
  | Crash => Crash
  | OutOfFuel => OutOfFuel
  end.

Definition InferAllocAttr (n dst : Node) (attr : AllocatorAttributes) : outcome (Status * AllocatorAttributes) :=
  match (if IsRecv n then infer_end (props_ n) "send_device" (IsHostRecv n) attr else Done (StatusOK, attr)) with
  | Done (StatusOK, attr) =>
      match (if IsSend dst then infer_end (props_ dst) "recv_device" (IsHostSend dst) attr else Done (StatusOK, attr)) with
      | Done (StatusOK, attr) => Done (StatusOK, if IsCollective n then set_nic_compatible true attr else attr)
      | o => o
      end
  | o => o
  end.

Definition with_attrs (l : list AllocatorAttributes) (item : NodeItem) : NodeItem :=
  mkNodeItem (node_id item) (kernel_is_async item) (is_merge item) (is_enter item) (is_constant_enter item) (is_exit item) (is_control_trigger item)
    (is_source item) (is_enter_exit_or_next_iter item) (is_transfer_node item) (is_initialization_op item) (is_recv_or_switch item)
    (is_next_iteration item) (is_noop item) (is_any_consumer_merge_or_control_trigger item) (is_any_input_ref_typed item)
    (is_distributed_communication item) (kernel item) (const_tensor_ item) (item_inputs item) (item_outputs item) (input_start item)
    (outputs_required item) (output_edges item) (output_control_edges item) l (forward_from item) (item_input_types item) (item_output_types item).

(** [attrs[i].Merge(attr)]. *)
Definition merge_attr (id : nat) (i : Z) (attr : AllocatorAttributes) : M Items unit := fun items =>
  match items !! id with
  | Some (Some item) =>
      if i <? 0 then Crash
      else
        match output_attrs item !! Z.to_nat i with
        | Some a =>
            match MergeAttr a attr with
            | Done a => Done (tt, <[id := Some (with_attrs (<[Z.to_nat i := a]> (output_attrs item)) item)]> items)
            | _ => Crash
            end
        | None => Crash
        end
  | _ => Crash
  end.

Definition infer_edge (x : Node) (p : Edge * Node) : M Items Status :=
  if IsControlEdge p.1 then ret StatusOK
  else
    r <~ lift (InferAllocAttr x p.2 no_attr);;
    if ok r.1 then
      (if bool_decide (r.2 = no_attr) then ret tt else merge_attr (Z.to_nat (id_ x)) (src_output_ p.1) r.2);;;
      ret StatusOK
    else ret r.1.

Definition host_output (id : nat) (out : nat) : M Items unit := fun items =>
  match items !! id with
  | Some (Some item) =>
      match kernel item with
      | Some k =>
          match output_on_host k !! out with
          | Some true => merge_attr id (Z.of_nat out) (set_on_host true no_attr) items
          | Some false => Done (tt, items)
          | None => Crash
          end
      | None => Crash
      end
  | _ => Crash
  end.

Definition infer_node (g : Graph) (n : option nat) : M Items Status :=
  x <~ lift (node_at g n);;
  es <~ lift (out_edges g x);;
  s <~ for_each_status (infer_edge x) es;;
  if ok s then
    for_each (host_output (Z.to_nat (id_ x))) (seq 0 (length (output_types (props_ x))));;;
    ret StatusOK
  else ret s.

(** ** [SetScopedAllocatorAttrs] *)
Fixpoint ExtractScopedAllocatorAttr (sc_attr : list Z) (output_index : Z) : outcome (option Z) :=
  match sc_attr with
  | [] => Done None
  | [j] => if j =? output_index then Crash else Done None
  | j :: k :: l => if j =? output_index then Done (Some k) else ExtractScopedAllocatorAttr l output_index
  end.

(** One edge of a node that uses a scoped allocator. *)
Definition scoped_use_edge (sa_id use_id : nat) (sc_attr : list Z) (p : Edge * Node) : M Items unit :=
  if IsSink p.2 || negb (IsControlEdge p.1) then
    r <~ lift (ExtractScopedAllocatorAttr sc_attr (src_output_ p.1));;
    match r with
    | Some scope =>
        merge_attr use_id (src_output_ p.1) (mkAttr 0 scope);;;
        items <~ get;;
        match items !! use_id with
        | Some (Some item) =>
            match output_attrs item !! Z.to_nat (src_output_ p.1) with
            | Some a => merge_attr sa_id 0 (mkAttr (attr_value a) 0)
            | None => crash
            end
        | _ => crash
        end
    | None => ret tt
    end
  else ret tt.

Definition scoped_use (g : Graph) (sa_id : nat) (p : Edge * Node) : M Items unit :=
  if IsSink p.2 || negb (IsControlEdge p.1) then ret tt
  else
    match ints_attr (props_ p.2) "_scoped_allocator" with
    | inl _ => ret tt
    | inr sc_attr => es <~ lift (out_edges g p.2);; for_each (scoped_use_edge sa_id (Z.to_nat (id_ p.2)) sc_attr) es
    end.

Definition SetScopedAllocatorAttrs (g : Graph) (sa_nodes : list Node) : M Items unit :=
  for_each (fun sa => es <~ lift (out_edges g sa);; for_each (scoped_use g (Z.to_nat (id_ sa))) es) sa_nodes.

Fixpoint scoped_allocators (g : Graph) (l : list (option nat)) : outcome (list Node) :=
  match l with
  | [] => Done []
  | n :: l =>
      match node_at g n, scoped_allocators g l with
      | Done x, Done r => Done (if IsScopedAllocator x then x :: r else r)
      | _, _ => Crash
      end
  end.

Definition SetAllocAttrs (g : Graph) : M Items Status :=
  s <~ for_each_status (infer_node g) (nodes g);;
  if ok s then
    sa_nodes <~ lift (scoped_allocators g (nodes g));;
    SetScopedAllocatorAttrs g sa_nodes;;;
    ret StatusOK
  else ret s.
End GraphView.
