(* ===== verification/ExecutorInit.v ===== *)
(** * Preparing a graph for execution (src/tensorflow/core/common_runtime/immutable_executor_state.h
    and .cc)

    [Initialize] makes the items of a graph, assigns the frames of nodes, creates
    kernels, lays out the inputs of every frame and the counts of pending inputs,
    and finds the roots.  Frames are found by name; the order in which the set of
    names is visited does not matter and is that of insertion.  The members of an
    item are written together, once its kernel is made: after an error only the
    destructor looks at the state.  [const_tensors_], which keeps the buffers of
    constants alive, and metrics are left out. *)
From S2P Require Import Prelude Numbers DeviceName EdgeSet Graph PendingCounts GraphView GraphViewInit Executor.
From stdpp Require Import list gmap strings options.
#[local] Open Scope Z_scope.
#[local] Open Scope tf_monad_scope.

Record FrameInfo := mkFrame {
  input_count : Z;
  total_inputs : Z;
  pending_counts_layout : Z;
  pending_counts : option PendingCounts;
  frame_nodes : option (list nat);
  parallel_iterations : Z
}.

Definition FrameInfo_new : FrameInfo := mkFrame 0 0 0 None None (-1).

(** The members that [Initialize] fills. *)
Record InitState := mkInit {
  items : Items;
  frame_info_ : gmap string FrameInfo;
  requires_control_flow_ : bool;
  pending_ids_ : list Handle;
  init_roots : list nat;
  enter_frame_info_ : list (option string);
  init_counts : option (list Z)
}.

Definition set_items (l : Items) (s : InitState) : InitState :=
  mkInit l (frame_info_ s) (requires_control_flow_ s) (pending_ids_ s) (init_roots s) (enter_frame_info_ s) (init_counts s).

Definition set_frames (m : gmap string FrameInfo) (s : InitState) : InitState :=
  mkInit (items s) m (requires_control_flow_ s) (pending_ids_ s) (init_roots s) (enter_frame_info_ s) (init_counts s).

Definition set_control_flow (b : bool) (s : InitState) : InitState :=
  mkInit (items s) (frame_info_ s) b (pending_ids_ s) (init_roots s) (enter_frame_info_ s) (init_counts s).

Definition set_ids (l : list Handle) (s : InitState) : InitState :=
  mkInit (items s) (frame_info_ s) (requires_control_flow_ s) l (init_roots s) (enter_frame_info_ s) (init_counts s).

Definition set_roots (l : list nat) (s : InitState) : InitState :=
  mkInit (items s) (frame_info_ s) (requires_control_flow_ s) (pending_ids_ s) l (enter_frame_info_ s) (init_counts s).

Definition set_enters (l : list (option string)) (s : InitState) : InitState :=
  mkInit (items s) (frame_info_ s) (requires_control_flow_ s) (pending_ids_ s) (init_roots s) l (init_counts s).

Definition set_counts (l : option (list Z)) (s : InitState) : InitState :=
  mkInit (items s) (frame_info_ s) (requires_control_flow_ s) (pending_ids_ s) (init_roots s) (enter_frame_info_ s) l.

(** [EnsureFrameInfo]. *)
Definition EnsureFrameInfo (fname : string) : M InitState FrameInfo := fun s =>
  match frame_info_ s !! fname with
  | Some f => Done (f, s)
  | None => Done (FrameInfo_new, set_frames (<[fname := FrameInfo_new]> (frame_info_ s)) s)
  end.

Definition put_frame (fname : string) (f : FrameInfo) : M InitState unit := modify (fun s => set_frames (<[fname := f]> (frame_info_ s)) s).

Section Init.
Context {F : Type} `{FlatSet F} `{ExecutorParams} `{Absl}.
#[local] Notation Graph := (Graph F).
#[local] Notation Node := (Node F).

Definition node_index (x : Node) : nat := Z.to_nat (id_ x).

(** ** [GetMaxPendingCounts] *)
Fixpoint count_control (g : Graph) (l : list nat) : outcome Z :=
  match l with
  | [] => Done 0
  | e :: l =>
      match edge_heap g !! e, count_control g l with
      | Some y, Done n => Done (if IsControlEdge y then n + 1 else n)
      | _, _ => Crash
      end
  end.

Definition GetMaxPendingCounts (g : Graph) (x : Node) : outcome (Z * Z) :=
  let num_in_edges := Z.of_nat (size_of (in_edges_ x)) in
  if IsMerge x then
    match count_control g (elements_of (in_edges_ x)) with
    | Done num_control_edges => Done (1 + Z.shiftl num_control_edges 1, num_in_edges)
    | _ => Crash
    end
  else Done (num_in_edges, num_in_edges).

(** ** [BuildControlFlowInfo]: a breadth-first walk from the roots *)
Record ControlFlowInfo := mkFlow {
  unique_frame_names : list string;
  frame_names : list string;
  parent_nodes : list (option Node);
  visited : list bool;
  ready : list Node;
  frame_name : string
}.

Definition add_name (n : string) (l : list string) : list string := if bool_decide (n ∈ l) then l else l ++ [n].

Definition at_index {S A} (i : nat) (l : list A) : M S A := lift (match l !! i with Some a => Done a | None => Crash end).

Definition visit_root (g : Graph) (n : option nat) : M ControlFlowInfo unit :=
  x <~ lift (node_at g n);;
  match elements_of (in_edges_ x) with
  | [] =>
      c <~ get;;
      at_index (node_index x) (visited c);;;
      modify (fun c => mkFlow (add_name (frame_name c) (unique_frame_names c)) (frame_names c) (parent_nodes c)
        (<[node_index x := true]> (visited c)) (ready c ++ [x]) (frame_name c))
  | _ => ret tt
  end.

Definition set_frame_name (s : string) (c : ControlFlowInfo) : ControlFlowInfo :=
  mkFlow (unique_frame_names c) (frame_names c) (parent_nodes c) (visited c) (ready c) s.

(** The parent of the successors of a node, and the frame they are in. *)
Definition enter_frame (x : Node) : M ControlFlowInfo (Status * option Node) :=
  c <~ get;;
  if IsEnter x then
    match string_attr (props_ x) "frame_name" with
    | inl s => ret (s, None)
    | inr f => modify (set_frame_name f);;; ret (StatusOK, Some x)
    end
  else
    parent <~ at_index (node_index x) (parent_nodes c);;
    if IsExit x then
      match parent with
      | None => ret (StatusError INVALID_ARGUMENT, None)
      | Some p =>
          f <~ at_index (node_index p) (frame_names c);;
          parent <~ at_index (node_index p) (parent_nodes c);;
          modify (set_frame_name f);;;
          ret (StatusOK, parent)
      end
    else
      f <~ at_index (node_index x) (frame_names c);;
      modify (set_frame_name f);;;
      ret (StatusOK, parent).

Definition visit_edge (parent : option Node) (p : Edge * Node) : M ControlFlowInfo unit :=
  let out := p.2 in
  if IsSink out then ret tt
  else
    c <~ get;;
    is_visited <~ at_index (node_index out) (visited c);;
    if is_visited : bool then ret tt
    else
      modify (fun c => mkFlow (add_name (frame_name c) (unique_frame_names c)) (<[node_index out := frame_name c]> (frame_names c))
        (<[node_index out := parent]> (parent_nodes c)) (<[node_index out := true]> (visited c)) (ready c ++ [out]) (frame_name c)).

Fixpoint walk (fuel : nat) (g : Graph) : M ControlFlowInfo Status :=
  c <~ get;;
  match ready c with
  | [] => ret StatusOK
  | x :: rest =>
      match fuel with
      | O => out_of_fuel
      | S fuel =>
          modify (fun c => mkFlow (unique_frame_names c) (frame_names c) (parent_nodes c) (visited c) rest (frame_name c));;;
          r <~ enter_frame x;;
          if ok r.1 then
            es <~ lift (out_edges g x);;
            for_each (visit_edge r.2) es;;;
            walk fuel g
          else ret r.1
      end
  end.

(** A node is in the queue at most once. *)
Definition BuildControlFlowInfo (g : Graph) : outcome (Status * ControlFlowInfo) :=
  let n := num_node_ids g in
  (for_each (visit_root g) (nodes g);;; walk (S n) g) (mkFlow [] (replicate n ""%string) (replicate n None) (replicate n false) [] "").

(** ** One node *)
Definition with_kernel (x : Node) (start : Z) (k : OpKernel) (consumer constant_enter : bool) (required : option (list bool)) (item : NodeItem) : NodeItem :=
  mkNodeItem (id_ x) (is_async k) (IsMerge x) (IsEnter x) constant_enter (IsExit x) (IsControlTrigger x) (IsSource x)
    (IsEnter x || IsExit x || IsNextIteration x) (IsTransferNode x) (allows_uninitialized_input (props_ x)) (IsRecv x || IsSwitch x)
    (IsNextIteration x) (bool_decide (type_string_view k = "NoOp"%string)) consumer (is_any_input_ref_typed item)
    (op_is_distributed_communication (props_ x)) (Some k) (kernel_const_tensor k) (item_inputs item) (item_outputs item) (Z.to_nat start)
    required (output_edges item) (output_control_edges item) (output_attrs item) (forward_from item) (item_input_types item) (item_output_types item).

(** Whether the node needs frames or dead tensors. *)
Definition control_flow_of (x : Node) : Status * bool :=
  if IsSwitch x || IsMerge x || IsEnter x || IsExit x then (StatusOK, true)
  else if IsRecv x then
    match string_attr (props_ x) "send_device", string_attr (props_ x) "recv_device" with
    | inl s, _ => (s, false)
    | inr _, inl s => (s, false)
    | inr send_device, inr recv_device => (StatusOK, bool_decide (send_device <> recv_device))
    end
  else (StatusOK, false).

(** The frame that an Enter node names. *)
Definition init_enter (x : Node) : M InitState (Status * bool) :=
  if IsEnter x then
    match bool_attr (props_ x) "is_constant", string_attr (props_ x) "frame_name" with
    | inl s, _ => ret (s, false)
    | inr _, inl s => ret (s, false)
    | inr is_constant_enter, inr fname =>
        match int_attr (props_ x) "parallel_iterations" with
        | inl s => ret (s, false)
        | inr n =>
            s <~ get;;
            match frame_info_ s !! fname with
            | None => crash
            | Some f =>
                (if parallel_iterations f =? -1 then
                   put_frame fname (mkFrame (input_count f) (total_inputs f) (pending_counts_layout f) (pending_counts f) (frame_nodes f) n)
                 else ret tt);;;
                modify (fun s =>
                  let l := enter_frame_info_ s ++ replicate (S (node_index x) - length (enter_frame_info_ s)) None in
                  set_enters (<[node_index x := Some fname]> l) s);;;
                ret (StatusOK, is_constant_enter)
            end
        end
    end
  else ret (StatusOK, false).

(** Which outputs are read by a node other than the sink. *)
Fixpoint required_outputs (es : list (Edge * Node)) (required : list bool) : outcome (list bool) :=
  match es with
  | [] => Done required
  | (e, d) :: es =>
      if IsSink d || (src_output_ e <? 0) then required_outputs es required
      else if (Z.to_nat (src_output_ e) <? length required)%nat then required_outputs es (<[Z.to_nat (src_output_ e) := true]> required)
      else Crash
  end.

(** The part of a node that follows the creation of its kernel. *)
Definition init_kernel (g : Graph) (x : Node) (fname : string) (start : Z) (k : OpKernel) : M InitState Status :=
  es <~ lift (out_edges g x);;
  required <~ lift (required_outputs es (replicate (length (output_types (props_ x))) false));;
  s <~ get;;
  item <~ at_index (node_index x) (items s);;
  match item with
  | None => crash
  | Some item =>
      r <~ init_enter x;;
      if ok r.1 then
        modify (fun s => set_items (<[node_index x := Some (with_kernel x start k (existsb (fun p => IsMerge p.2 || IsControlTrigger p.2) es) r.2
          (if forallb Datatypes.id required then None else Some required) item)]> (items s)) s);;;
        m <~ lift (GetMaxPendingCounts g x);;
        f <~ EnsureFrameInfo fname;;
        let '(h, layout) := CreateHandle m.1 m.2 (pending_counts_layout f) in
        match frame_nodes f with
        | None => crash
        | Some l => put_frame fname (mkFrame (input_count f) (total_inputs f) layout (pending_counts f) (Some (l ++ [node_index x])) (parallel_iterations f))
        end;;;
        s <~ get;;
        at_index (node_index x) (pending_ids_ s);;;
        modify (fun s => set_ids (<[node_index x := h]> (pending_ids_ s)) s);;;
        modify (fun s => set_roots (match elements_of (in_edges_ x) with [] => init_roots s ++ [node_index x] | _ => init_roots s end) s);;;
        if IsEnter x then
          match string_attr (props_ x) "frame_name" with
          | inl e => ret e
          | inr enter_name =>
              f <~ EnsureFrameInfo enter_name;;
              put_frame enter_name (mkFrame (input_count f + 1) (total_inputs f) (pending_counts_layout f) (pending_counts f) (frame_nodes f) (parallel_iterations f));;;
              ret StatusOK
          end
        else ret StatusOK
      else ret r.1
  end.

Definition init_node (g : Graph) (names : list string) (n : option nat) : M InitState Status :=
  x <~ lift (node_at g n);;
  if IsSink x then ret StatusOK
  else
    let '(st, flow) := control_flow_of x in
    if ok st then
      modify (fun s => set_control_flow (requires_control_flow_ s || flow) s);;;
      fname <~ at_index (node_index x) names;;
      f <~ EnsureFrameInfo fname;;
      let total := total_inputs f + num_inputs x in
      (if kint32max <? total then crash
       else put_frame fname (mkFrame (input_count f) total (pending_counts_layout f) (pending_counts f) (frame_nodes f) (parallel_iterations f)));;;
      match create_kernel (props_ x) with
      | inl e => ret e
      | inr k => init_kernel g x fname (total_inputs f) k
      end
    else ret st.

(** [e.input_slot += dst_item->input_start]. *)
Definition move_slot (l : Items) (e : EdgeInfo) : outcome EdgeInfo :=
  match l !! dst_id e with
  | Some (Some d) => Done (mkEdgeInfo (dst_id e) (output_slot e) (is_last e) (input_slot e + input_start d))
  | _ => Crash
  end.

Fixpoint move_slots (l : Items) (es : list EdgeInfo) : outcome (list EdgeInfo) :=
  match es with
  | [] => Done []
  | e :: es => match move_slot l e, move_slots l es with Done e, Done es => Done (e :: es) | _, _ => Crash end
  end.

Definition with_edges (es : list EdgeInfo) (item : NodeItem) : NodeItem :=
  mkNodeItem (node_id item) (kernel_is_async item) (is_merge item) (is_enter item) (is_constant_enter item) (is_exit item) (is_control_trigger item)
    (is_source item) (is_enter_exit_or_next_iter item) (is_transfer_node item) (is_initialization_op item) (is_recv_or_switch item)
    (is_next_iteration item) (is_noop item) (is_any_consumer_merge_or_control_trigger item) (is_any_input_ref_typed item)
    (is_distributed_communication item) (kernel item) (const_tensor_ item) (item_inputs item) (item_outputs item) (input_start item)
    (outputs_required item) es (output_control_edges item) (output_attrs item) (forward_from item) (item_input_types item) (item_output_types item).

Definition move_edges (g : Graph) (n : option nat) : M Items unit := fun l =>
  match node_at g n with
  | Done x =>
      if IsSink x then Done (tt, l)
      else
        match l !! node_index x with
        | Some (Some item) =>
            match move_slots l (output_edges item) with
            | Done es => Done (tt, <[node_index x := Some (with_edges es item)]> l)
            | _ => Crash
            end
        | _ => Crash
        end
  | _ => Crash
  end.

(** ** [InitializePending] *)
Definition make_counts (fname : string) : M InitState unit :=
  f <~ EnsureFrameInfo fname;;
  let '(addr, raw) := new_char (pending_counts_layout f) in
  p <~ lift (PendingCounts_new (pending_counts_layout f) addr raw);;
  put_frame fname (mkFrame (input_count f) (total_inputs f) (pending_counts_layout f) (Some p) (frame_nodes f) (parallel_iterations f)).

Definition init_pending (g : Graph) (names : list string) (n : option nat) : M InitState unit :=
  x <~ lift (node_at g n);;
  if IsSink x then ret tt
  else
    fname <~ at_index (node_index x) names;;
    m <~ lift (GetMaxPendingCounts g x);;
    f <~ EnsureFrameInfo fname;;
    s <~ get;;
    h <~ at_index (node_index x) (pending_ids_ s);;
    match pending_counts f with
    | None => crash
    | Some p =>
        r <~ lift (set_initial_count h m.1 p);;
        put_frame fname (mkFrame (input_count f) (total_inputs f) (pending_counts_layout f) (Some r.2) (frame_nodes f) (parallel_iterations f));;;
        match init_counts s with
        | Some c =>
            at_index (node_index x) c;;;
            modify (set_counts (Some (<[node_index x := int32 m.1]> c)))
        | None => ret tt
        end
    end.

Definition InitializePending (g : Graph) (c : ControlFlowInfo) : M InitState unit :=
  for_each make_counts (unique_frame_names c);;;
  modify (fun s => set_counts (if requires_control_flow_ s then None else Some (replicate (length (items s)) 0)) s);;;
  for_each (init_pending g (frame_names c)) (nodes g).

(** ** [Initialize] *)
Definition on_items {A} (m : M Items A) : M InitState A := fun s =>
  match m (items s) with Done (a, l) => Done (a, set_items l s) | Crash => Crash | OutOfFuel => OutOfFuel end.

Definition ensure_nodes (fname : string) : M InitState unit :=
  f <~ EnsureFrameInfo fname;;
  put_frame fname (mkFrame (input_count f) (total_inputs f) (pending_counts_layout f) (pending_counts f) (Some []) (parallel_iterations f)).

(** [root_frame_info_]: a frame that is not there is made null, and used by the first node. *)
Definition root_frame : M InitState unit := fun s =>
  match frame_info_ s !! ""%string with Some _ => Done (tt, s) | None => Crash end.

Definition Initialize (g : Graph) : outcome (Status * InitState) :=
  let init l := mkInit l ∅ false [] [] [] None in
  match GraphView_Initialize g with
  | Done (StatusOK, l) =>
      match BuildControlFlowInfo g with
      | Done (StatusOK, c) =>
          (for_each ensure_nodes (unique_frame_names c);;;
           root_frame;;;
           modify (fun s => set_ids (replicate (num_node_ids g) (mkHandle 0 false)) s);;;
           s <~ for_each_status (init_node g (frame_names c)) (nodes g);;
           if ok s then
             on_items (for_each (move_edges g) (nodes g));;;
             InitializePending g c;;;
             on_items (SetAllocAttrs g)
           else ret s) (init l)
      | Done (s, _) => Done (s, init l)
      | Crash => Crash
      | OutOfFuel => OutOfFuel
      end
  | Done (s, l) => Done (s, init l)
  | Crash => Crash
  | OutOfFuel => OutOfFuel
  end.

(** ** What a step is given, when no frames are needed *)
Definition view_of (s : InitState) : option ImmutableExecutorState :=
  match init_counts s, frame_info_ s !! ""%string with
  | Some c, Some f =>
      Some (mkImmutable (map (fun o => item ← o; _ ← kernel item; Some item) (items s)) (init_roots s) (Z.to_nat (total_inputs f)) c)
  | _, _ => None
  end.
End Init.
