(* ===== verification/GraphViewProofs.v ===== *)
(** * What the view of a graph is made of

    The nodes of a graph in the order of their ids, the edges that leave them,
    and the items [InitializeNode] makes. *)
From S2P Require Import Prelude Counting Numbers DeviceName FlatRep EdgeSet Graph GraphInv PendingCounts PendingProofs GraphView GraphViewInit Executor ExecutorInit ExecutorInv.
From stdpp Require Import list gmap strings options.
#[local] Open Scope Z_scope.
#[local] Open Scope tf_monad_scope.

Section Nodes.
Context {F : Type} `{FlatSetLaws F} (g : Graph F).
#[local] Notation Node := (Node F).

Definition node_list : list Node := omap (fun o => o ≫= fun n => node_heap g !! n) (nodes_ g).

(** A node that is at its id. *)
Definition node_here (n : nat) (x : Node) : Prop := nodes_ g !! node_index x = Some (Some n) /\ node_heap g !! n = Some x.

Context (Hwf : wf g).

Lemma node_here_id n x : node_here n x -> id_ x = Z.of_nat (node_index x).
Proof using Hwf.
  intros [Hn Hx]. destruct (wf_nodes _ _ _ _ Hwf _ _ Hn) as [s Hs]. apply stat_lookup in Hs as (y & Hy & Es). simplify_eq. unfold static in Es. by simplify_eq.
Qed.

Lemma node_here_at i n : nodes_ g !! i = Some (Some n) -> exists x, node_here n x /\ node_index x = i.
Proof using Hwf.
  intros Hn. destruct (wf_nodes _ _ _ _ Hwf _ _ Hn) as [s Hs]. apply stat_lookup in Hs as (x & Hx & Es). unfold static in Es. simplify_eq.
  assert (Hi : node_index x = i) by (unfold node_index; lia). exists x. unfold node_here. by rewrite Hi.
Qed.

Lemma node_list_elem x : x ∈ node_list <-> exists n, node_here n x.
Proof using Hwf.
  unfold node_list. rewrite list_elem_of_omap. split.
  - intros (o & Ho & Hx). destruct o as [n|]; [|done]. cbn in Hx. apply list_elem_of_lookup in Ho as [i Hi]. destruct (node_here_at i n Hi) as (y & Hy & <-). exists n. destruct Hy as [? Hy]. by simplify_eq.
  - intros (n & Hn & Hx). exists (Some n). split; [by eapply list_elem_of_lookup_2|done].
Qed.

Lemma node_list_index (l : list (option nat)) k : (forall i n, l !! i = Some (Some n) -> exists x, node_heap g !! n = Some x /\ node_index x = (k + i)%nat) ->
  let r := omap (fun o => o ≫= fun n => node_heap g !! n) l in NoDup (map node_index r) /\ forall j, j ∈ map node_index r -> (k <= j)%nat.
Proof using.
  revert k. induction l as [|o l IH]; intros k Hl; cbn; [split; [apply NoDup_nil_2|by intros j ?%not_elem_of_nil]|]. destruct (IH (S k)) as [IH1 IH2].
  { intros i n Hi. destruct (Hl (S i) n Hi) as (x & Hx & E). exists x. split; [done|lia]. }
  destruct o as [n|]; cbn; [|split; [done|intros j Hj; specialize (IH2 j Hj); lia]]. destruct (Hl 0%nat n eq_refl) as (x & Hx & E). rewrite Hx. cbn. split.
  - constructor; [|done]. intros Hin. specialize (IH2 _ Hin). lia.
  - intros j [->|Hj]%elem_of_cons; [lia|]. specialize (IH2 j Hj). lia.
Qed.

Lemma node_list_NoDup : NoDup (map node_index node_list).
Proof using Hwf. apply (node_list_index (nodes_ g) 0). intros i n Hi. destruct (node_here_at i n Hi) as (x & [_ Hx] & E). exists x. split; [done|lia]. Qed.

Lemma node_index_inj x y : x ∈ node_list -> y ∈ node_list -> node_index x = node_index y -> x = y.
Proof using Hwf. rewrite !node_list_elem. intros (n & Hn & Hx) (m & Hm & Hy) E. rewrite E in Hn. by simplify_eq. Qed.

(** ** Loops over the nodes *)
Context (Hsource : exists n, nodes_ g !! 0%nat = Some (Some n)).

Lemma nodes_some : nodes g = filter is_Some (nodes_ g).
Proof using Hsource. destruct Hsource as [n Hn]. unfold nodes. destruct (nodes_ g) as [|o l]; [done|]. cbn in Hn. simplify_eq. by rewrite filter_cons_True. Qed.

Lemma loop_aux {S} (f : option nat -> M S unit) (P : list Node -> S -> Prop) all l pre s0 :
  all = pre ++ omap (fun o => o ≫= fun n => node_heap g !! n) l ->
  (forall o, o ∈ l -> forall n, o = Some n -> exists x, node_here n x) -> P pre s0 ->
  (forall pre x post n s, all = pre ++ x :: post -> node_here n x -> P pre s -> exists s', f (Some n) s = Done (tt, s') /\ P (pre ++ [x]) s') ->
  exists s', for_each f (filter is_Some l) s0 = Done (tt, s') /\ P all s'.
Proof using.
  intros Hall Hl HP Hstep. revert pre s0 Hall HP. induction l as [|o l IH]; intros pre s0 Hall HP; cbn in Hall; [rewrite app_nil_r in Hall; subst all; by exists s0|]. rewrite filter_cons.
  assert (Hl' : forall o, o ∈ l -> forall n, o = Some n -> exists x, node_here n x) by (intros o' Ho'; apply Hl; by right). destruct o as [n|]; [|rewrite decide_False by (by intros [? ?]); by eapply IH]. rewrite decide_True by done.
  destruct (Hl (Some n) ltac:(left) n eq_refl) as (x & Hx). cbn in Hall. rewrite (proj2 Hx) in Hall. cbn in Hall. destruct (Hstep pre x _ n s0 Hall Hx HP) as (s1 & E & HP1). cbn [for_each]. unfold bind. rewrite E. apply (IH Hl' (pre ++ [x])); [by rewrite <- app_assoc|done].
Qed.

Lemma nodes_loop {S} (f : option nat -> M S unit) (P : list Node -> S -> Prop) s0 : P [] s0 ->
  (forall pre x post n s, node_list = pre ++ x :: post -> node_here n x -> P pre s -> exists s', f (Some n) s = Done (tt, s') /\ P (pre ++ [x]) s') ->
  exists s', for_each f (nodes g) s0 = Done (tt, s') /\ P node_list s'.
Proof using Hwf Hsource.
  intros HP Hstep. rewrite nodes_some. apply (loop_aux f P node_list (nodes_ g) [] s0); try done. intros o Ho n ->. apply list_elem_of_lookup in Ho as [i Hi]. destruct (node_here_at i n Hi) as (x & Hx & _). eauto.
Qed.

(** The same for loops that stop at an error. *)
Lemma for_each_ok {S A} (f : A -> M S Status) l s s' : for_each (fun a => bind (f a) (fun st => if ok st then ret tt else crash)) l s = Done (tt, s') -> for_each_status f l s = Done (StatusOK, s').
Proof using.
  revert s. induction l as [|a l IH]; intros s E; cbn [for_each for_each_status] in *; [unfold ret in *; by simplify_eq|]. unfold bind in *. destruct (f a s) as [[st s1]| |]; [|done..]. destruct st; cbn [ok ret] in *; [|done]. unfold ret in E. by apply IH.
Qed.

Lemma nodes_loop_status {S} (f : option nat -> M S Status) (P : list Node -> S -> Prop) s0 : P [] s0 ->
  (forall pre x post n s, node_list = pre ++ x :: post -> node_here n x -> P pre s -> exists s', f (Some n) s = Done (StatusOK, s') /\ P (pre ++ [x]) s') ->
  exists s', for_each_status f (nodes g) s0 = Done (StatusOK, s') /\ P node_list s'.
Proof using Hwf Hsource.
  intros HP Hstep. destruct (nodes_loop (fun a => bind (f a) (fun st => if ok st then ret tt else crash)) P s0 HP) as (s' & E & HP').
  - intros pre x post n s Hl Hx HPs. destruct (Hstep pre x post n s Hl Hx HPs) as (s' & E & ?). exists s'. split; [|done]. unfold bind. by rewrite E.
  - exists s'. split; [by apply for_each_ok|done].
Qed.

(** ** Edges *)
Definition edge_pair (e : nat) : option (Edge * Node) := y ← edge_heap g !! e; d ← node_heap g !! dst_ y; Some (y, d).

Definition outs_of (x : Node) : list (Edge * Node) := omap edge_pair (elements_of (out_edges_ x)).

Lemma node_ends n x e : node_here n x -> e ∈ elements_of (out_edges_ x) <-> exists y, live_edge g e y /\ src_ y = n.
Proof using Hwf. intros [_ Hx]. rewrite <- (outs_at _ _ _ e Hx), (wf_outs _ _ _ _ Hwf). split; [intros [?|[_ ?%not_elem_of_nil]]; done|by left]. Qed.

Lemma node_starts n x e : node_here n x -> e ∈ elements_of (in_edges_ x) <-> exists y, live_edge g e y /\ dst_ y = n.
Proof using Hwf. intros [_ Hx]. rewrite <- (ins_at _ _ _ e Hx), (wf_ins _ _ _ _ Hwf). split; [intros [?|[_ ?%not_elem_of_nil]]; done|by left]. Qed.

Lemma live_here m : live (nodes_ g) m -> exists x, node_here m x.
Proof using Hwf. intros [i Hi]. destruct (node_here_at i m Hi) as (x & Hx & _). eauto. Qed.

Lemma live_edge_pair e y : live_edge g e y -> exists s d, node_here (src_ y) s /\ node_here (dst_ y) d /\ edge_pair e = Some (y, d).
Proof using Hwf.
  intros Hy. destruct (live_edge_ends _ _ _ _ _ _ Hwf Hy) as [Hs Hd]. apply live_here in Hs as [s Hs]. apply live_here in Hd as [d Hd]. exists s, d. split_and!; try done. unfold edge_pair. rewrite (proj2 Hy). cbn. by rewrite (proj2 Hd).
Qed.

Lemma edges_at_pairs l : (forall e, e ∈ l -> exists p, edge_pair e = Some p) -> edges_at g l = Done (omap edge_pair l).
Proof using.
  induction l as [|e l IH]; intros Hl; [done|]. cbn [edges_at]. destruct (Hl e ltac:(left)) as [p Hp]. cbn. rewrite Hp. unfold edge_pair in Hp. destruct (edge_heap g !! e) as [y|]; [|done]. cbn in Hp. destruct (node_heap g !! dst_ y) as [d|]; [|done]. cbn in Hp. simplify_eq.
  rewrite IH; [done|]. intros e' He'. apply Hl. by right.
Qed.

Lemma out_edges_ok x : x ∈ node_list -> out_edges g x = Done (outs_of x).
Proof using Hwf.
  intros [n Hx]%node_list_elem. apply edges_at_pairs. intros e He. apply (node_ends n x e Hx) in He as (y & Hy & _). destruct (live_edge_pair e y Hy) as (s & d & _ & _ & E). eauto.
Qed.

Lemma outs_of_elem n x p : node_here n x -> p ∈ outs_of x <-> exists e, live_edge g e p.1 /\ src_ p.1 = n /\ node_here (dst_ p.1) p.2.
Proof using Hwf.
  intros Hx. unfold outs_of. rewrite list_elem_of_omap. split.
  - intros (e & He & Ep). apply (node_ends n x e Hx) in He as (y & Hy & Hs). destruct (live_edge_pair e y Hy) as (s & d & _ & Hd & E). rewrite Ep in E. simplify_eq. by exists e.
  - intros (e & Hy & Hs & Hd). destruct (live_edge_pair e _ Hy) as (s & d & _ & Hd' & E). destruct p as [y d']. cbn [fst snd] in *. exists e. split; [apply (node_ends n x e Hx); eauto|]. rewrite E. do 2 f_equal. destruct Hd as [_ Hd], Hd' as [_ Hd']. by simplify_eq.
Qed.
End Nodes.

(** ** The edges of an item *)
Definition same_edge (e e0 : EdgeInfo) : Prop := dst_id e = dst_id e0 /\ output_slot e = output_slot e0 /\ input_slot e = input_slot e0.

(** An edge that is the last to read its output. *)
Definition last_marks (edges : list EdgeInfo) : Prop :=
  forall i e, edges !! i = Some e -> is_last e = true -> forall j e', (i < j)%nat -> edges !! j = Some e' -> output_slot e' <> output_slot e.

Definition last_ok (edges : list EdgeInfo) (last : list (option nat)) : Prop :=
  forall s i, last !! s = Some (Some i) -> exists e, edges !! i = Some e /\ output_slot e = s /\ forall j e', (i < j)%nat -> edges !! j = Some e' -> output_slot e' <> s.

Lemma mark_last_lookup last edges i e : mark_last last edges !! i = Some e ->
  exists e0, edges !! i = Some e0 /\ same_edge e e0 /\ (is_last e = true -> is_last e0 = true \/ Some i ∈ last).
Proof.
  unfold mark_last. revert edges. induction last as [|o last IH]; intros edges E; cbn [foldl] in E; [exists e; split_and!; try done; by left|]. destruct (IH _ E) as (e1 & E1 & (S1 & S2 & S3) & Hl). destruct o as [k|]; [|exists e1; split_and!; try done; intros H; destruct (Hl H); [by left|right; by right]].
  destruct (decide (k = i)) as [->|Hne].
  - rewrite list_lookup_alter_eq, fmap_Some in E1. destruct E1 as (e0 & E0 & ->). exists e0. split_and!; try done. intros _. right. left.
  - rewrite list_lookup_alter_ne in E1 by done. exists e1. split_and!; try done. intros H. destruct (Hl H); [by left|right; by right].
Qed.

Lemma mark_last_length last edges : length (mark_last last edges) = length edges.
Proof. unfold mark_last. revert edges. induction last as [|o last IH]; intros edges; [done|]. cbn. rewrite IH. destruct o; [|done]. apply length_alter. Qed.

Lemma mark_last_ok last edges : last_ok edges last -> Forall (fun e => is_last e = false) edges -> last_marks (mark_last last edges) /\ Forall2 same_edge (mark_last last edges) edges.
Proof.
  intros Hl Hf. rewrite Forall_lookup in Hf. split.
  - intros i e He Hlast j e' Hj He'. destruct (mark_last_lookup _ _ _ _ He) as (e0 & E0 & (_ & S2 & _) & Hm), (mark_last_lookup _ _ _ _ He') as (e0' & E0' & (_ & S2' & _) & _). destruct (Hm Hlast) as [Hm'|Hm']; [rewrite (Hf _ _ E0) in Hm'; done|].
    apply list_elem_of_lookup in Hm' as [s Hs]. destruct (Hl s i Hs) as (e1 & E1 & Es & Hafter). rewrite E0 in E1. injection E1 as <-. rewrite S2, Es, S2'. by eapply Hafter.
  - apply Forall2_same_length_lookup_2; [apply mark_last_length|]. intros i e e0 He E0. destruct (mark_last_lookup _ _ _ _ He) as (e1 & E1 & Hs & _). by simplify_eq.
Qed.

Section Fill.
Context {F : Type} `{FlatSet F}.
#[local] Notation Node := (Node F).
Implicit Types (es : list (Edge * Node)).

Definition data_of (es : list (Edge * Node)) : list (Edge * Node) := filter (fun p => IsControlEdge p.1 = false) es.

Definition to_edge (p : Edge * Node) : EdgeInfo := mkEdgeInfo (node_index p.2) (Z.to_nat (src_output_ p.1)) false (Z.to_nat (dst_input_ p.1)).

(** Data edges are between an output and an input, and none enters the sink. *)
Definition edge_fits (num_outputs : nat) (p : Edge * Node) : Prop :=
  IsControlEdge p.1 = false -> 0 <= src_output_ p.1 < Z.of_nat num_outputs /\ src_output_ p.1 <= 0x3FFFFFFF /\ 0 <= dst_input_ p.1 /\ IsSink p.2 = false.

Lemma last_ok_app edges last e : last_ok edges last -> (output_slot e < length last)%nat -> last_ok (edges ++ [e]) (<[output_slot e := Some (length edges)]> last).
Proof using.
  intros Hl Hlt s i Hs. destruct (decide (s = output_slot e)) as [->|Hne].
  - rewrite list_lookup_insert_eq in Hs by done. simplify_eq. exists e. rewrite lookup_app_r, Nat.sub_diag by lia. split_and!; try done. intros j e' Hj He'. apply lookup_lt_Some in He'. rewrite length_app in He'. simpl in He'. lia.
  - rewrite list_lookup_insert_ne in Hs by done. destruct (Hl s i Hs) as (e0 & E0 & Es & Hafter). exists e0. split_and!; [by apply lookup_app_l_Some|done|]. intros j e' Hj He'. apply lookup_app_Some in He' as [He'|[Hlen He']]; [by eapply Hafter|].
    destruct (j - length edges)%nat; simpl in He'; simplify_eq. congruence.
Qed.

Lemma fill_edges_ok cap n es edges last : Forall (edge_fits n) es -> length last = n -> (length edges + length (data_of es) <= cap)%nat -> last_ok edges last ->
  exists last', fill_edges cap n es edges last = Done (edges ++ map to_edge (data_of es), last') /\ last_ok (edges ++ map to_edge (data_of es)) last'.
Proof using.
  revert edges last. induction es as [|[y d] es IH]; intros edges last Hfit Hlen Hcap Hl; cbn [fill_edges]; [exists last; by rewrite app_nil_r|]. apply Forall_cons in Hfit as [Hy Hfit]. unfold data_of in *. rewrite filter_cons in *. cbn [fst] in *.
  destruct (IsControlEdge y) eqn:Ec; [rewrite decide_False in * by done; by apply IH|]. rewrite decide_True in * by done. cbn [map length] in *. destruct (Hy Ec) as (Hs & Hm & Hi & _). cbn [fst] in *.
  destruct (Nat.leb_spec cap (length edges)); [lia|]. rewrite (proj2 (Z.ltb_ge _ _)) by lia. rewrite (proj2 (Z.ltb_ge (src_output_ y) 0)) by lia. rewrite (proj2 (Z.leb_gt _ _)) by lia. rewrite (proj2 (Z.ltb_ge (dst_input_ y) 0)) by lia. cbn [orb].
  destruct (IH (edges ++ [to_edge (y, d)]) (<[Z.to_nat (src_output_ y) := Some (length edges)]> last)) as (last' & E & Hl'); try done.
  - by rewrite length_insert.
  - rewrite length_app. simpl. lia.
  - apply (last_ok_app edges last (to_edge (y, d)) Hl). cbn. lia.
  - exists last'. rewrite <- app_assoc in E, Hl'. done.
Qed.

Lemma count_data_edges n es : Forall (edge_fits n) es -> (CountOutputEdges es).1 = length (data_of es).
Proof using.
  intros Hfit. unfold CountOutputEdges, data_of. cbn [fst]. f_equal. induction Hfit as [|[y d] es Hy _ IH]; [done|]. cbn in Hy. rewrite (filter_cons _ (y, d) es). cbn [snd]. destruct (IsSink d) eqn:Es.
  - rewrite decide_False by done. rewrite IH, filter_cons. cbn [fst]. destruct (IsControlEdge y) eqn:Ec; [by rewrite decide_False|]. destruct (Hy Ec) as (_ & _ & _ & ?). cbn in *. congruence.
  - rewrite decide_True by done. rewrite !filter_cons. cbn [fst]. destruct (decide (IsControlEdge y = false)); by rewrite IH.
Qed.
End Fill.

(** ** Graphs that can run without frames *)
Section Executable.
Context {F : Type} `{FlatSetLaws F} `{ExecutorParams} `{Absl} (g : Graph F).
#[local] Notation Node := (Node F).

Definition node_inputs (x : Node) : nat := if IsSink x then 0%nat else length (input_types (props_ x)).

Definition offset (l : list Node) : nat := sum_list (map node_inputs l).

(** The bytes of the items of nodes. *)
Definition bytes_of (g : Graph F) (l : list Node) : Z := foldr (fun x z => node_bytes x (outs_of g x) + z) 0 l.

Lemma bytes_of_app g' l l' : bytes_of g' (l ++ l') = bytes_of g' l + bytes_of g' l'.
Proof using. unfold bytes_of. induction l as [|x l IH]; [done|]. cbn [foldr app]. rewrite IH. lia. Qed.

Lemma node_bytes_ok (x : Node) es : 0 <= node_bytes x es /\ node_bytes x es mod kItemAlignment = 0.
Proof using.
  unfold node_bytes, item_bytes. destruct (CountOutputEdges es) as [a b]. match goal with |- context [u64 (?r + kItemAlignment - 1)] => pose proof (u64_range (r + kItemAlignment - 1)) as Hu; generalize dependent (u64 (r + kItemAlignment - 1)) end.
  intros z Hz. unfold in_u64 in Hz. split; [|apply Z.mod_mul; done]. pose proof (Z.div_pos z kItemAlignment ltac:(lia) ltac:(unfold kItemAlignment; lia)). unfold kItemAlignment in *. lia.
Qed.

Lemma bytes_of_ok g' l : 0 <= bytes_of g' l /\ bytes_of g' l mod kItemAlignment = 0.
Proof using.
  unfold bytes_of. induction l as [|x l [Hl Hm]]; [done|]. cbn [foldr]. destruct (node_bytes_ok x (outs_of g' x)) as [Hb Hd]. split; [lia|]. rewrite Z.add_mod, Hm, Hd by done. done.
Qed.

(** What the functions that build graphs and the registries promise: edges are
    between slots that exist, no two enter the same input, none leaves the sink
    and only control edges enter it; kernels are created; nothing needs frames or
    scoped allocators; sizes fit. *)
Record executable : Prop := {
  ex_wf : wf g;
  ex_source : exists n, nodes_ g !! 0%nat = Some (Some n);
  ex_root : exists x, x ∈ node_list g /\ elements_of (in_edges_ x) = [];
  ex_edge e y s d : live_edge g e y -> node_here g (src_ y) s -> node_here g (dst_ y) d -> IsSink s = false /\
    (IsControlEdge y = false -> 0 <= src_output_ y < num_outputs s /\ src_output_ y <= 0x3FFFFFFF /\ 0 <= dst_input_ y < num_inputs d /\ IsSink d = false);
  ex_input e1 e2 y1 y2 : live_edge g e1 y1 -> live_edge g e2 y2 -> IsControlEdge y1 = false -> IsControlEdge y2 = false ->
    dst_ y1 = dst_ y2 -> dst_input_ y1 = dst_input_ y2 -> e1 = e2;
  ex_nodes : 16 * (Z.of_nat (length (nodes_ g)) + 1) < 2 ^ 30;
  ex_edges : Z.of_nat (length (edges_ g)) <= kint32max;
  ex_total : Z.of_nat (offset (node_list g)) <= kint32max;
  ex_bytes : bytes_of g (node_list g) <= kuint32max;
  ex_sink x : x ∈ node_list g -> IsSink x = true -> output_types (props_ x) = [];
  ex_kernel x : x ∈ node_list g -> IsSink x = false -> exists k, create_kernel (props_ x) = inr k /\
    (length (output_types (props_ x)) <= length (output_on_host k))%nat /\
    (type_string_view k = "NoOp"%string -> (length (output_types (props_ x)) <= 1)%nat) /\
    (is_Some (kernel_const_tensor k) -> length (output_types (props_ x)) = 1%nat);
  ex_flow x : x ∈ node_list g -> control_flow_of x = (StatusOK, false);
  ex_attrs x : x ∈ node_list g -> or_nil (ints_attr (props_ x) "_scoped_allocator") = [] /\
    Nat.even (length (or_nil (ints_attr (props_ x) "_forward_input"))) = true /\ IsScopedAllocator x = false;
  ex_devices x : x ∈ node_list g -> (IsRecv x = true -> exists p, device_attr (props_ x) "send_device" = Done (inr p)) /\
    (IsSend x = true -> exists p, device_attr (props_ x) "recv_device" = Done (inr p));
  ex_memory n : 0 <= n -> (new_char n).1 mod 8 = 0 /\ Z.of_nat (length (new_char n).2) = n
}.

Context (Hex : executable).
#[local] Notation Hwf := (ex_wf Hex).

Lemma here_list n x : node_here g n x -> x ∈ node_list g.
Proof using Type*. intros Hx. apply (node_list_elem g Hwf). eauto. Qed.

Lemma outs_fits x : x ∈ node_list g -> Forall (edge_fits (length (output_types (props_ x)))) (outs_of g x).
Proof using Type*.
  intros [n Hx]%(node_list_elem g Hwf). apply Forall_forall. intros [y d] Hp. apply (outs_of_elem g Hwf n x _ Hx) in Hp as (e & Hy & Hs & Hd). cbn [fst snd] in *. intros Hc. cbn [fst snd] in *. subst n. destruct (ex_edge Hex e y x d Hy Hx Hd) as [_ Hdata].
  destruct (Hdata Hc) as (? & ? & ? & ?). unfold num_outputs in *. split_and!; try done; lia.
Qed.

(** What [InitializeNode] puts in an item, and the rest of [Initialize] keeps. *)
Record plain_item (x : Node) (item : NodeItem) : Prop := {
  pi_inputs : item_inputs item = length (input_types (props_ x));
  pi_outputs : item_outputs item = length (output_types (props_ x));
  pi_controls : output_control_edges item = control_dests (outs_of g x);
  pi_attrs : length (output_attrs item) = length (output_types (props_ x)) /\ Forall (fun a => scope_id a = 0) (output_attrs item)
}.

Definition first_edges (x : Node) (es : list EdgeInfo) : Prop := Forall2 same_edge es (map to_edge (data_of (outs_of g x))) /\ last_marks es.

Lemma forward_input_even l i : Nat.even (length l) = true -> exists k, forward_input l i = Done k.
Proof using.
  revert l. fix IH 1. intros [|j [|k l]] Hl; [by eexists|done|]. cbn [forward_input]. destruct (k =? i); [by eexists|]. by apply IH.
Qed.

Lemma output_reservations_ok x i n : x ∈ node_list g -> exists l, output_reservations (props_ x) i n = Done l /\ length l = n /\ Forall (fun p => p.2 = 0) l.
Proof using Type*.
  intros Hx. destruct (ex_attrs Hex x Hx) as (Hs & Hf & _). revert i. induction n as [|n IH]; intros i; [by exists []|]. cbn [output_reservations]. unfold output_reservation. rewrite Hs. cbn [scoped_output]. rewrite Z.eqb_refl.
  destruct (forward_input_even _ i Hf) as [k ->]. destruct (IH (i + 1)) as (l & -> & Hl & Hzero). exists ((k, 0) :: l). split_and!; [done|by cbn; rewrite Hl|by constructor].
Qed.

Lemma InitializeNode_ok x space ptr : x ∈ node_list g -> ptr mod kItemAlignment = 0 -> ptr - space <= kuint32max ->
  exists item, InitializeNode g space ptr x = Done (ptr + node_bytes x (outs_of g x), item) /\ plain_item x item /\ first_edges x (output_edges item) /\ kernel item = None.
Proof using Type*.
  intros Hx Hal Hoff. unfold InitializeNode. rewrite (out_edges_ok g Hwf x Hx), Hal, (proj2 (Z.ltb_ge _ _)) by lia. cbn [negb Z.eqb]. pose proof (outs_fits x Hx) as Hfit. pose proof (count_data_edges _ _ Hfit) as Hc. destruct (CountOutputEdges (outs_of g x)) as [c c']. cbn [fst] in Hc. subst c.
  destruct (fill_edges_ok (length (data_of (outs_of g x))) (length (output_types (props_ x))) (outs_of g x) [] (replicate (length (output_types (props_ x))) None) Hfit) as (last & E & Hl).
  - apply length_replicate.
  - simpl. lia.
  - intros s i Hs. apply lookup_replicate in Hs as [Hs _]. done.
  - cbn [app] in E, Hl. rewrite E. destruct (output_reservations_ok x 0 (length (output_types (props_ x))) Hx) as (r & -> & Hr & Hzero).
    destruct (mark_last_ok _ _ Hl) as [Hm Hs]; [apply Forall_fmap, Forall_forall; by intros|]. eexists. split; [reflexivity|]. split_and!; [|done|done]. split; cbn; try done. split; [by rewrite length_map|]. apply Forall_fmap. eapply Forall_impl; [exact Hzero|]. done.
Qed.

(** ** Items of all nodes *)
Record items_ok (P : Node -> NodeItem -> Prop) (l : Items) : Prop := {
  io_length : length l = num_node_ids g;
  io_node x : x ∈ node_list g -> exists item, l !! node_index x = Some (Some item) /\ P x item;
  io_only i item : l !! i = Some (Some item) -> exists x, x ∈ node_list g /\ node_index x = i
}.

Lemma index_lt x : x ∈ node_list g -> (node_index x < num_node_ids g)%nat.
Proof using Type*. intros (n & Hn & _)%(node_list_elem g Hwf). by eapply lookup_lt_Some. Qed.

Lemma prefix_index pre x post y : node_list g = pre ++ x :: post -> y ∈ pre -> node_index y <> node_index x.
Proof using Type*.
  intros Hl Hy E. pose proof (node_list_NoDup g Hwf) as Hnd. rewrite Hl, map_app, map_cons in Hnd. apply NoDup_app in Hnd as (_ & Hd & _). apply (Hd (node_index y)); [apply list_elem_of_fmap; eauto|]. rewrite E. left.
Qed.

Lemma mid_list pre x post : node_list g = pre ++ x :: post -> x ∈ node_list g.
Proof using. intros ->. apply elem_of_app. right. left. Qed.

Lemma out_degree x : x ∈ node_list g -> Z.of_nat (size_of (out_edges_ x)) <= kint32max.
Proof using Type*.
  intros [n Hx]%(node_list_elem g Hwf). pose proof (ex_edges Hex). pose proof (map_Forall_lookup_1 _ _ _ _ (wf_ok _ _ _ _ Hwf) (proj2 Hx)) as [_ Ho].
  pose proof (live_edges_bound g (elements_of (out_edges_ x)) (set_ok_nodup _ Ho)) as Hle. unfold size_of. enough (length (elements_of (out_edges_ x)) <= length (edges_ g))%nat by lia. apply Hle. intros e He. apply (node_ends g Hwf n x e Hx) in He as (y & [? _] & _). done.
Qed.

Lemma in_degree x : x ∈ node_list g -> Z.of_nat (size_of (in_edges_ x)) <= kint32max.
Proof using Type*.
  intros [n Hx]%(node_list_elem g Hwf). pose proof (ex_edges Hex). pose proof (map_Forall_lookup_1 _ _ _ _ (wf_ok _ _ _ _ Hwf) (proj2 Hx)) as [Hi _].
  pose proof (live_edges_bound g (elements_of (in_edges_ x)) (set_ok_nodup _ Hi)) as Hle. unfold size_of. enough (length (elements_of (in_edges_ x)) <= length (edges_ g))%nat by lia. apply Hle. intros e He. apply (node_starts g Hwf n x e Hx) in He as (y & [? _] & _). done.
Qed.

Lemma node_at_here n x : node_here g n x -> node_at g (Some n) = Done x.
Proof using. intros [_ Hx]. unfold node_at. cbn. by rewrite Hx. Qed.

Lemma total_bytes_ok l total : (forall o, o ∈ l -> forall n, o = Some n -> exists x, node_here g n x) -> 0 <= total ->
  total + bytes_of g (omap (fun o => o ≫= fun n => node_heap g !! n) l) <= kuint32max ->
  total_bytes g (filter is_Some l) total = Done (inr (total + bytes_of g (omap (fun o => o ≫= fun n => node_heap g !! n) l))).
Proof using Type*.
  revert total. induction l as [|o l IH]; intros total Hl Ht0 Hb; [cbn; do 2 f_equal; lia|]. rewrite filter_cons.
  assert (Hl' : forall o, o ∈ l -> forall n, o = Some n -> exists x, node_here g n x) by (intros o' Ho'; apply Hl; by right).
  destruct o as [n|]; [|rewrite decide_False by (by intros [? ?]); by apply IH]. rewrite decide_True by done. destruct (Hl (Some n) ltac:(left) n eq_refl) as (x & Hx).
  cbn [omap list_omap mbind option_bind] in Hb |- *. rewrite (proj2 Hx) in Hb |- *. cbn [bytes_of foldr] in Hb |- *. fold (bytes_of g (omap (fun o => o ≫= fun n => node_heap g !! n) l)) in Hb |- *.
  cbn [total_bytes]. rewrite (node_at_here n x Hx). pose proof (out_degree x (here_list n x Hx)). rewrite (proj2 (Z.ltb_ge _ _)) by lia. unfold NodeItemBytes. rewrite (out_edges_ok g Hwf x (here_list n x Hx)).
  destruct (node_bytes_ok x (outs_of g x)) as [Hn _]. pose proof (proj1 (bytes_of_ok g (omap (fun o => o ≫= fun n => node_heap g !! n) l))). unfold kuint32max in Hb.
  rewrite u64_small by (unfold in_u64; lia). rewrite IH; [do 2 f_equal; lia|done|lia|unfold kuint32max; lia].
Qed.

Lemma nodes_here o : o ∈ nodes g -> exists n x, o = Some n /\ node_here g n x.
Proof using Type*.
  rewrite (nodes_some g (ex_source Hex)), list_elem_of_filter. intros [[n ->] Ho]. apply list_elem_of_lookup in Ho as [i Hi]. destruct (node_here_at g Hwf i n Hi) as (x & ? & _). eauto.
Qed.

Lemma GraphView_Initialize_ok : exists l, GraphView_Initialize g = Done (StatusOK, l) /\ items_ok (fun x item => plain_item x item /\ first_edges x (output_edges item) /\ kernel item = None) l.
Proof using Type*.
  unfold GraphView_Initialize. rewrite (nodes_some g (ex_source Hex)), total_bytes_ok; [|intros o Ho n ->; apply list_elem_of_lookup in Ho as [i Hi]; destruct (node_here_at g Hwf i n Hi) as (x & Hx & _); eauto|lia|apply (ex_bytes Hex)].
  rewrite <- (nodes_some g (ex_source Hex)). fold (node_list g). rewrite Z.add_0_l. pose proof (bytes_of_ok g (node_list g)) as [Hb0 _]. pose proof (ex_bytes Hex) as Hb. destruct (ex_memory Hex (bytes_of g (node_list g)) Hb0) as [Hal _]. set (space := (new_char (bytes_of g (node_list g))).1) in *.
  destruct (nodes_loop g Hwf (ex_source Hex) (initialize_node g space) (fun (pre : list Node) (st : Z * Items) => st.1 = space + bytes_of g pre /\ length st.2 = num_node_ids g /\ (forall x, x ∈ pre -> exists item, st.2 !! node_index x = Some (Some item) /\ plain_item x item /\ first_edges x (output_edges item) /\ kernel item = None) /\ (forall i item, st.2 !! i = Some (Some item) -> exists x, x ∈ pre /\ node_index x = i)) (space, replicate (num_node_ids g) None)) as ([ptr l] & E & Hptr & Hlen & Hin & Honly).
  - cbn [fst snd]. split_and!; [cbn; lia|apply length_replicate|by intros x ?%not_elem_of_nil|]. intros i item Hi. apply lookup_replicate in Hi as [? _]. done.
  - intros pre x post n [ptr l] Hl Hx (Hptr & Hlen & Hin & Honly). cbn [fst snd] in *. pose proof (mid_list _ _ _ Hl) as Hxl. destruct (bytes_of_ok g pre) as [Hp0 Hpm].
    destruct (InitializeNode_ok x space ptr Hxl) as (item & Ei & Hp & Hf & Hk).
    { rewrite Hptr, Z.add_mod, Hpm by done. change kItemAlignment with 8. by rewrite Hal. }
    { rewrite Hptr. rewrite Hl, bytes_of_app in Hb. pose proof (proj1 (bytes_of_ok g (x :: post))). lia. }
    unfold initialize_node. rewrite (node_at_here n x Hx). fold (node_index x).
    assert (Hnone : l !! node_index x = Some None).
    { destruct (l !! node_index x) as [[it|]|] eqn:El; [|done|]. - destruct (Honly _ _ El) as (y & Hy & Ey). by destruct (prefix_index _ _ _ _ Hl Hy). - apply lookup_ge_None in El. pose proof (index_lt x Hxl). lia. }
    rewrite Hnone, Ei. eexists. split; [reflexivity|]. cbn [fst snd]. split_and!.
    + rewrite bytes_of_app, Hptr. cbn [bytes_of foldr]. lia.
    + by rewrite length_insert.
    + intros y [Hy|Hy%list_elem_of_singleton]%elem_of_app; [|subst y; exists item; split_and!; try done; by rewrite list_lookup_insert_eq by (by eapply lookup_lt_Some)]. destruct (Hin y Hy) as (it & El & ?). exists it. split; [|done]. rewrite list_lookup_insert_ne; [done|]. intros E. by apply (prefix_index _ _ _ _ Hl Hy).
    + intros i it Hi. destruct (decide (i = node_index x)) as [->|Hne]; [exists x; split; [apply elem_of_app; right; by left|done]|]. rewrite list_lookup_insert_ne in Hi by done. destruct (Honly i it Hi) as (y & Hy & ?). exists y. split; [apply elem_of_app; by left|done].
  - cbn [fst snd] in *. rewrite E, Hptr, Z.eqb_refl. exists l. split; [done|]. by split.
Qed.

(** ** Without Enter and Exit there is one frame *)
Definition unvisited (c : ControlFlowInfo (F := F)) : Z := zsum (fun b : bool => if b then 0 else 1) (visited c).

Record flow_ok (c : ControlFlowInfo (F := F)) : Prop := {
  fo_names : frame_names c = replicate (num_node_ids g) ""%string;
  fo_parents : parent_nodes c = replicate (num_node_ids g) None;
  fo_visited : length (visited c) = num_node_ids g;
  fo_name : frame_name c = ""%string;
  fo_unique : unique_frame_names c = [] \/ unique_frame_names c = [""%string];
  fo_ready x : x ∈ ready c -> x ∈ node_list g
}.

Lemma unvisited_nonneg c : 0 <= unvisited c.
Proof using. apply zsum_nonneg. by intros []. Qed.

Lemma replicate_insert {A} n (i : nat) (v : A) : <[i := v]> (replicate n v) = replicate n v.
Proof using.
  destruct (decide (i < n)%nat); [by apply list_insert_id, lookup_replicate_2|]. apply list_insert_ge. rewrite length_replicate. lia.
Qed.

Lemma add_empty_name (l : list string) : l = [] \/ l = [""%string] -> add_name "" l = [""%string].
Proof using. intros [->| ->]; unfold add_name; by case_bool_decide as Hd; [try (by apply not_elem_of_nil in Hd)|try (destruct Hd; left)]. Qed.

(** A node that was not visited is marked and put in the queue. *)
Lemma mark_visited c x : flow_ok c -> x ∈ node_list g -> visited c !! node_index x = Some false ->
  let c' := mkFlow (add_name (frame_name c) (unique_frame_names c)) (frame_names c) (parent_nodes c) (<[node_index x := true]> (visited c)) (ready c ++ [x]) (frame_name c) in
  flow_ok c' /\ Z.of_nat (length (ready c')) + unvisited c' = Z.of_nat (length (ready c)) + unvisited c /\ unique_frame_names c' = [""%string].
Proof using Type*.
  intros [F1 F2 F3 F4 F5 F6] Hx Hv c'. assert (Hu : add_name (frame_name c) (unique_frame_names c) = [""%string]) by (rewrite F4; by apply add_empty_name). split_and!; [split; cbn; try done| |done].
  - by rewrite length_insert.
  - by right.
  - intros y [Hy|Hy%list_elem_of_singleton]%elem_of_app; [by apply F6|by subst y].
  - unfold c', unvisited. cbn [ready visited]. rewrite length_app, (zsum_insert _ _ _ _ _ Hv). simpl. lia.
Qed.

Lemma visit_edge_ok c p : flow_ok c -> p.2 ∈ node_list g -> exists c', visit_edge None p c = Done (tt, c') /\ flow_ok c' /\
  Z.of_nat (length (ready c')) + unvisited c' = Z.of_nat (length (ready c)) + unvisited c /\ (unique_frame_names c = [""%string] -> unique_frame_names c' = [""%string]).
Proof using Type*.
  intros Hc Hp. unfold visit_edge. destruct (IsSink p.2); [by exists c|]. unfold bind, get, at_index, lift. pose proof (index_lt p.2 Hp) as Hlt. rewrite <- (fo_visited c Hc) in Hlt. apply lookup_lt_is_Some_2 in Hlt as [b Hb]. rewrite Hb. destruct b; [by exists c|].
  destruct (mark_visited c p.2 Hc Hp Hb) as (H1' & H2' & H3'). unfold modify. pose proof (fo_name c Hc) as En. pose proof (fo_names c Hc) as Ens. pose proof (fo_parents c Hc) as Eps. rewrite En, Ens, Eps in *. rewrite !replicate_insert. eexists. split; [reflexivity|]. by split_and!.
Qed.

Lemma visit_edges_ok c es : flow_ok c -> Forall (fun p => p.2 ∈ node_list g) es -> exists c', for_each (visit_edge None) es c = Done (tt, c') /\ flow_ok c' /\
  Z.of_nat (length (ready c')) + unvisited c' = Z.of_nat (length (ready c)) + unvisited c /\ (unique_frame_names c = [""%string] -> unique_frame_names c' = [""%string]).
Proof using Type*.
  intros Hc Hes. revert c Hc. induction Hes as [|p es Hp _ IH]; intros c Hc; [by exists c|]. cbn [for_each]. destruct (visit_edge_ok c p Hc Hp) as (c1 & E1 & Hc1 & Hn1 & Hu1). unfold bind. rewrite E1. destruct (IH c1 Hc1) as (c2 & E2 & Hc2 & Hn2 & Hu2). exists c2. split_and!; try done; [lia|auto].
Qed.

Lemma outs_nodes x : x ∈ node_list g -> Forall (fun p => p.2 ∈ node_list g) (outs_of g x).
Proof using Type*.
  intros [n Hx]%(node_list_elem g Hwf). apply Forall_forall. intros p Hp. apply (outs_of_elem g Hwf n x _ Hx) in Hp as (e & _ & _ & Hd). by eapply here_list.
Qed.

Lemma plain_class x : x ∈ node_list g -> IsSwitch x = false /\ IsMerge x = false /\ IsEnter x = false /\ IsExit x = false.
Proof using Type*.
  intros Hx. pose proof (ex_flow Hex x Hx) as Hf. unfold control_flow_of in Hf. destruct (IsSwitch x), (IsMerge x), (IsEnter x), (IsExit x); by cbn in Hf.
Qed.

Lemma walk_ok fuel c : flow_ok c -> unique_frame_names c = [""%string] -> Z.of_nat (length (ready c)) + unvisited c <= Z.of_nat fuel ->
  exists c', walk fuel g c = Done (StatusOK, c') /\ flow_ok c' /\ unique_frame_names c' = [""%string].
Proof using Type*.
  revert c. induction fuel as [|fuel IH]; intros c Hc Hu Hn; pose proof (unvisited_nonneg c).
  - cbn [walk]. unfold bind, get. destruct (ready c) eqn:Er; [by exists c|]. simpl in Hn. lia.
  - cbn [walk]. unfold bind at 1, get at 1. destruct (ready c) as [|x rest] eqn:Er; [by exists c|].
    assert (Hx : x ∈ node_list g) by (apply (fo_ready c Hc); rewrite Er; left). destruct (plain_class x Hx) as (_ & _ & Hen & Hexi). unfold bind at 1, modify at 1.
    set (c1 := mkFlow (unique_frame_names c) (frame_names c) (parent_nodes c) (visited c) rest (frame_name c)). assert (Hc1 : flow_ok c1).
    { destruct Hc as [F1 F2 F3 F4 F5 F6]. split; try done. intros y Hy. apply F6. rewrite Er. by right. }
    assert (Ee : enter_frame x c1 = Done ((StatusOK, None), c1)).
    { unfold enter_frame, bind, get, at_index, lift. rewrite Hen, Hexi. pose proof (index_lt x Hx) as Hlt. rewrite (fo_parents c1 Hc1), (fo_names c1 Hc1), !lookup_replicate_2 by done. cbn. do 2 f_equal. unfold set_frame_name, c1. pose proof (fo_name c Hc) as En. cbn. by rewrite En. }
    unfold bind at 1. rewrite Ee. cbn [fst snd ok]. unfold bind at 1, lift. rewrite (out_edges_ok g Hwf x Hx). destruct (visit_edges_ok c1 (outs_of g x) Hc1 (outs_nodes x Hx)) as (c2 & E2 & Hc2 & Hn2 & Hu2).
    unfold bind. rewrite E2. apply IH; [done|by apply Hu2|]. simpl length in Hn. change (unvisited c1) with (unvisited c) in Hn2. cbn [ready c1] in Hn2. lia.
Qed.

Lemma visit_roots_ok : exists c, for_each (visit_root g) (nodes g) (mkFlow [] (replicate (num_node_ids g) ""%string) (replicate (num_node_ids g) None) (replicate (num_node_ids g) false) [] "") = Done (tt, c) /\
  flow_ok c /\ Z.of_nat (length (ready c)) + unvisited c = Z.of_nat (num_node_ids g) /\ ((exists x, x ∈ node_list g /\ elements_of (in_edges_ x) = []) -> unique_frame_names c = [""%string]).
Proof using Type*.
  destruct (nodes_loop g Hwf (ex_source Hex) (visit_root g) (fun pre c => flow_ok c /\ Z.of_nat (length (ready c)) + unvisited c = Z.of_nat (num_node_ids g) /\
    (forall i, visited c !! i = Some true -> exists x, x ∈ pre /\ node_index x = i) /\ ((exists x, x ∈ pre /\ elements_of (in_edges_ x) = []) -> unique_frame_names c = [""%string]))
    (mkFlow [] (replicate (num_node_ids g) ""%string) (replicate (num_node_ids g) None) (replicate (num_node_ids g) false) [] ""%string)) as (c & E & Hc & Hn & _ & Hu).
  - split_and!.
    + split; cbn; try done; [apply length_replicate|by left|by intros x ?%not_elem_of_nil].
    + unfold unvisited. cbn [ready visited length]. clear. induction (num_node_ids g) as [|n IH]; [done|]. cbn [replicate]. rewrite zsum_cons. lia.
    + cbn. intros i Hi. apply lookup_replicate in Hi as [? _]. done.
    + by intros (x & ?%not_elem_of_nil & _).
  - intros pre x post n c Hl Hx (Hc & Hn & Hv & Hu). pose proof (mid_list _ _ _ Hl) as Hxl. unfold visit_root. unfold bind at 1, lift. rewrite (node_at_here n x Hx). destruct (elements_of (in_edges_ x)) as [|e es] eqn:Ee.
    + pose proof (index_lt x Hxl) as Hlt. rewrite <- (fo_visited c Hc) in Hlt. apply lookup_lt_is_Some_2 in Hlt as [b Hb]. unfold bind, get, at_index, lift. rewrite Hb. assert (b = false) as -> by (destruct b; [|done]; destruct (Hv _ Hb) as (y & Hy & Ey); by destruct (prefix_index _ _ _ _ Hl Hy)).
      destruct (mark_visited c x Hc Hxl Hb) as (H1' & H2' & H3'). eexists. split; [reflexivity|]. split_and!; [done|lia| |done]. cbn. intros i Hi. destruct (decide (i = node_index x)) as [->|Hne]; [exists x; split; [apply elem_of_app; right; by left|done]|].
      rewrite list_lookup_insert_ne in Hi by done. destruct (Hv i Hi) as (y & Hy & ?). exists y. split; [apply elem_of_app; by left|done].
    + exists c. split; [done|]. split_and!; try done; [intros i Hi; destruct (Hv i Hi) as (y & Hy & ?); exists y; split; [apply elem_of_app; by left|done]|].
      intros (y & [Hy|Hy%list_elem_of_singleton]%elem_of_app & Ey); [apply Hu; eauto|]. subst y. congruence.
  - exists c. by split_and!.
Qed.

Lemma BuildControlFlowInfo_ok : exists c, BuildControlFlowInfo g = Done (StatusOK, c) /\ unique_frame_names c = [""%string] /\ frame_names c = replicate (num_node_ids g) ""%string.
Proof using Type*.
  destruct visit_roots_ok as (c & E & Hc & Hn & Hu). unfold BuildControlFlowInfo, bind at 1. rewrite E. destruct (walk_ok (S (num_node_ids g)) c Hc (Hu (ex_root Hex))) as (c' & E' & Hc' & Hu'); [lia|]. exists c'. split_and!; try done. apply Hc'.
Qed.

(** ** Kernels, inputs and roots *)
Lemma required_outputs_ok n (es : list (Edge * Node)) r : Forall (edge_fits n) es -> length r = n -> exists r', required_outputs es r = Done r'.
Proof using.
  intros Hes. revert r. induction Hes as [|[y d] es Hy _ IH]; intros r Hr; [by eexists|]. cbn [required_outputs]. destruct (IsSink d || (src_output_ y <? 0)) eqn:E; [by apply IH|]. apply orb_false_iff in E as [_ E%Z.ltb_ge]. cbn in Hy.
  assert (Hc : IsControlEdge y = false) by (unfold IsControlEdge, kControlSlot; apply Z.eqb_neq; lia). destruct (Hy Hc) as (Hs & _). cbn in Hs. rewrite (proj2 (Nat.ltb_lt _ _)) by lia. apply IH. by rewrite length_insert.
Qed.

Record kernel_item (x : Node) (start : nat) (item : NodeItem) : Prop := {
  ki_plain : plain_item x item;
  ki_start : input_start item = start;
  ki_kernel : exists k, create_kernel (props_ x) = inr k /\ kernel item = Some k /\ is_noop item = bool_decide (type_string_view k = "NoOp"%string) /\
    const_tensor_ item = kernel_const_tensor k
}.

Definition raw_item (x : Node) (item : NodeItem) : Prop := plain_item x item /\ first_edges x (output_edges item) /\ kernel item = None.

Definition is_root (x : Node) : Prop := IsSink x = false /\ elements_of (in_edges_ x) = [].

#[local] Instance is_root_dec x : Decision (is_root x) := and_dec _ _.

Definition root_list (l : list Node) : list nat := map node_index (filter is_root l).

Record init_inv (pre : list Node) (s : InitState) (f : FrameInfo) : Prop := {
  ii_length : length (items s) = num_node_ids g;
  ii_only i item : items s !! i = Some (Some item) -> exists x, x ∈ node_list g /\ node_index x = i;
  ii_raw x : x ∈ node_list g -> x ∉ pre \/ IsSink x = true -> exists item, items s !! node_index x = Some (Some item) /\ raw_item x item;
  ii_done pre1 x pre2 : pre = pre1 ++ x :: pre2 -> IsSink x = false ->
    exists item, items s !! node_index x = Some (Some item) /\ kernel_item x (offset pre1) item /\ first_edges x (output_edges item);
  ii_frame : frame_info_ s = {[ ""%string := f ]};
  ii_total : total_inputs f = Z.of_nat (offset pre);
  ii_layout : 0 <= pending_counts_layout f <= 16 * Z.of_nat (length pre);
  ii_nodes : is_Some (frame_nodes f);
  ii_handles x : x ∈ pre -> IsSink x = false -> exists h, pending_ids_ s !! node_index x = Some h /\ placed 0 (pending_counts_layout f) h;
  ii_ids : length (pending_ids_ s) = num_node_ids g;
  ii_flow : requires_control_flow_ s = false;
  ii_roots : init_roots s = root_list pre
}.

Lemma snoc_split {A} (pre pre1 pre2 : list A) x y : pre ++ [x] = pre1 ++ y :: pre2 -> (exists pre3, pre = pre1 ++ y :: pre3) \/ (y = x /\ pre1 = pre).
Proof using.
  intros E. destruct pre2 as [|z pre2 _] using rev_ind; [apply app_inj_tail in E as [-> ->]; by right|]. left. exists pre2. rewrite app_comm_cons, app_assoc in E. by apply app_inj_tail in E as [-> _].
Qed.

Lemma ensure_root s f : frame_info_ s = {[ ""%string := f ]} -> EnsureFrameInfo "" s = Done (f, s).
Proof using. intros E. unfold EnsureFrameInfo. rewrite E. by simplify_map_eq. Qed.

Lemma set_frames_root s f f' : frame_info_ s = {[ ""%string := f ]} -> set_frames (<[""%string := f']> (frame_info_ s)) s = set_frames {[ ""%string := f' ]} s.
Proof using. intros ->. by rewrite insert_singleton. Qed.

(** The whole run for one node. *)
Lemma init_node_run n x s f l item k : node_here g n x -> IsSink x = false -> frame_info_ s = {[ ""%string := f ]} -> frame_nodes f = Some l ->
  items s !! node_index x = Some (Some item) -> total_inputs f + num_inputs x <= kint32max -> create_kernel (props_ x) = inr k -> length (pending_ids_ s) = num_node_ids g -> requires_control_flow_ s = false ->
  let d := Z.of_nat (size_of (in_edges_ x)) in let '(h, layout) := CreateHandle d d (pending_counts_layout f) in
  exists consumer required, init_node g (replicate (num_node_ids g) ""%string) (Some n) s = Done (StatusOK,
    mkInit (<[node_index x := Some (with_kernel x (total_inputs f) k consumer false required item)]> (items s))
      {[ ""%string := mkFrame (input_count f) (total_inputs f + num_inputs x) layout (pending_counts f) (Some (l ++ [node_index x])) (parallel_iterations f) ]}
      false (<[node_index x := h]> (pending_ids_ s)) (if decide (is_root x) then init_roots s ++ [node_index x] else init_roots s) (enter_frame_info_ s) (init_counts s)).
Proof using Type*.
  intros Hx Hsink Hf Hl Hi Ht Hk Hids Hflow. cbv zeta. destruct (CreateHandle _ _ _) as [h layout] eqn:Eh. pose proof (here_list n x Hx) as Hxl. pose proof (index_lt x Hxl) as Hlt. destruct (plain_class x Hxl) as (_ & Hm & Hen & _).
  destruct (required_outputs_ok (length (output_types (props_ x))) (outs_of g x) (replicate (length (output_types (props_ x))) false) (outs_fits x Hxl)) as [req Hreq]; [apply length_replicate|].
  exists (existsb (fun p => IsMerge p.2 || IsControlTrigger p.2) (outs_of g x)), (if forallb Datatypes.id req then None else Some req).
  unfold init_node, bind at 1, lift at 1. rewrite (node_at_here n x Hx), Hsink, (ex_flow Hex x Hxl). cbn [ok]. unfold bind at 1, modify at 1. unfold bind at 1, at_index at 1, lift at 1. rewrite lookup_replicate_2 by done.
  unfold bind at 1. rewrite (ensure_root _ f) by done. cbv zeta. rewrite (proj2 (Z.ltb_ge _ _)) by lia. unfold bind at 1, put_frame at 1, modify at 1. rewrite (set_frames_root _ f) by done. rewrite Hk.
  unfold init_kernel, bind at 1, lift at 1. rewrite (out_edges_ok g Hwf x Hxl). unfold bind at 1, lift at 1. rewrite Hreq. unfold bind at 1, get at 1. unfold bind at 1, at_index at 1, lift at 1. cbn [items set_frames set_control_flow]. rewrite Hi.
  unfold bind at 1, init_enter at 1. rewrite Hen. cbn [ret fst snd ok]. unfold bind at 1, modify at 1. unfold bind at 1, lift at 1. unfold GetMaxPendingCounts at 1. rewrite Hm. unfold bind at 1. rewrite (ensure_root _ (mkFrame (input_count f) (total_inputs f + num_inputs x) (pending_counts_layout f) (pending_counts f) (frame_nodes f) (parallel_iterations f))) by done.
  cbn [fst snd pending_counts_layout]. rewrite Eh. cbn [frame_nodes]. rewrite Hl. unfold bind at 1, put_frame at 1, modify at 1. rewrite (set_frames_root _ (mkFrame (input_count f) (total_inputs f + num_inputs x) (pending_counts_layout f) (pending_counts f) (Some l) (parallel_iterations f))) by (by rewrite <- Hl).
  unfold bind at 1, get at 1. unfold bind at 1, at_index at 1, lift at 1. cbn [pending_ids_ set_frames set_items set_control_flow]. destruct (lookup_lt_is_Some_2 (pending_ids_ s) (node_index x)) as [h0 Hh0]; [lia|]. rewrite Hh0. unfold bind at 1, modify at 1. unfold bind at 1, modify at 1. unfold ret.
  assert (Hr : forall (a b : list nat), match elements_of (in_edges_ x) with [] => a | _ :: _ => b end = if decide (is_root x) then a else b).
  { intros a b. destruct (decide (is_root x)) as [[_ ->]|Hn]; [done|]. destruct (elements_of (in_edges_ x)) eqn:E; [by destruct Hn|done]. }
  unfold set_roots, set_ids, set_frames, set_items, set_control_flow. cbn [items frame_info_ requires_control_flow_ pending_ids_ init_roots enter_frame_info_ init_counts]. by rewrite Hr, Hflow.
Qed.

Lemma offset_app l k : offset (l ++ k) = (offset l + offset k)%nat.
Proof using. unfold offset. rewrite map_app. apply sum_list_with_app || induction (map node_inputs l); cbn; lia. Qed.

Lemma offset_snoc l x : offset (l ++ [x]) = (offset l + node_inputs x)%nat.
Proof using. rewrite offset_app. unfold offset. cbn. lia. Qed.

Lemma offset_prefix pre x post : node_list g = pre ++ x :: post -> Z.of_nat (offset (pre ++ [x])) <= kint32max.
Proof using Type*. intros Hl. pose proof (ex_total Hex) as Ht. rewrite Hl in Ht. rewrite (offset_app pre (x :: post)) in Ht. rewrite offset_app. change (x :: post) with ([x] ++ post) in Ht. rewrite offset_app in Ht. lia. Qed.

Lemma prefix_length pre x post : node_list g = pre ++ x :: post -> 16 * (Z.of_nat (length pre) + 1) < 2 ^ 30.
Proof using Type*.
  intros Hl. pose proof (ex_nodes Hex) as Hn. assert (length (node_list g) <= length (nodes_ g))%nat; [unfold node_list; generalize (nodes_ g) as k; clear; intros k; induction k as [|o k IH]; [done|]; cbn; destruct (o ≫= _); cbn; fold (omap (M := list) (fun o => o ≫= fun n => node_heap g !! n) k); lia|].
  rewrite Hl, length_app in H3. simpl in H3. lia.
Qed.

Lemma not_in_prefix pre x post : node_list g = pre ++ x :: post -> x ∉ pre.
Proof using Type*. intros Hl Hin. by apply (prefix_index _ _ _ _ Hl Hin). Qed.

Lemma placed_wider lo hi hi' h : placed lo hi h -> hi <= hi' -> placed lo hi' h.
Proof using. unfold placed. intros (? & ? & ?) ?. split_and!; [done|lia|done]. Qed.

Lemma init_step_sink pre x post s f : node_list g = pre ++ x :: post -> IsSink x = true -> init_inv pre s f -> init_inv (pre ++ [x]) s f.
Proof using Type*.
  intros Hl Hs [I1 I2 I3 I4 I5 I6 I7 I8 I9 I10 I11 I12]. split; try done.
  - intros y Hy [Hn|Hn]; apply I3; auto. left. intros Hin. apply Hn, elem_of_app. by left.
  - intros pre1 y pre2 E Hy. apply snoc_split in E as [[pre3 ->]|[-> ->]]; [by eapply I4|congruence].
  - rewrite offset_snoc, I6. unfold node_inputs. rewrite Hs. lia.
  - rewrite length_app. simpl. lia.
  - intros y [Hy|Hy%list_elem_of_singleton]%elem_of_app Hys; [by apply I9|congruence].
  - unfold root_list in *. rewrite filter_app, map_app, filter_cons, decide_False by (intros [? _]; congruence). cbn. by rewrite app_nil_r.
Qed.

Lemma init_step pre x post n s f : node_list g = pre ++ x :: post -> node_here g n x -> init_inv pre s f ->
  exists s', init_node g (replicate (num_node_ids g) ""%string) (Some n) s = Done (StatusOK, s') /\ exists f', init_inv (pre ++ [x]) s' f'.
Proof using Type*.
  intros Hl Hx Hi. destruct (IsSink x) eqn:Hs.
  { exists s. split; [unfold init_node, bind, lift; by rewrite (node_at_here n x Hx), Hs|]. exists f. by eapply init_step_sink. }
  pose proof Hi as [I1 I2 I3 I4 I5 I6 I7 I8 I9 I10 I11 I12]. pose proof (mid_list _ _ _ Hl) as Hxl. pose proof (not_in_prefix _ _ _ Hl) as Hnx. destruct I8 as [ns Hns]. destruct (I3 x Hxl ltac:(by left)) as (item & Hitem & Hplain & Hfirst & Hk).
  destruct (ex_kernel Hex x Hxl Hs) as (k & Ek & _). pose proof (offset_prefix _ _ _ Hl) as Hoff. rewrite offset_snoc in Hoff. unfold node_inputs in Hoff. rewrite Hs in Hoff.
  pose proof (init_node_run n x s f ns item k Hx Hs I5 Hns Hitem ltac:(unfold num_inputs; lia) Ek I10 I11) as Hrun. cbv zeta in Hrun. pose proof (prefix_length _ _ _ Hl) as Hlen.
  destruct (CreateHandle_spec (Z.of_nat (size_of (in_edges_ x))) (Z.of_nat (size_of (in_edges_ x))) (pending_counts_layout f)) as (h & layout & Eh & Hh & Hle & _); [lia|]. rewrite Eh in Hrun. destruct Hrun as (consumer & required & Hrun).
  eexists. split; [exact Hrun|]. eexists. pose proof (index_lt x Hxl) as Hlt. assert (Hlay : pending_counts_layout f <= layout) by (destruct Hh as (? & ? & _); pose proof (width_pos h); lia).
  split; cbn [items frame_info_ requires_control_flow_ pending_ids_ init_roots total_inputs pending_counts_layout frame_nodes]; try done.
  - by rewrite length_insert.
  - intros i it Hit. destruct (decide (i = node_index x)) as [->|Hne]; [eauto|]. rewrite list_lookup_insert_ne in Hit by done. by eapply I2.
  - intros y Hy Hor. assert (Hne : node_index y <> node_index x).
    { intros E. apply (node_index_inj g Hwf) in E; [|done|done]. subst y. destruct Hor as [Hor|Hor]; [apply Hor, elem_of_app; right; by left|congruence]. }
    rewrite list_lookup_insert_ne by done. apply I3; [done|]. destruct Hor as [Hor|Hor]; [left; intros Hin; apply Hor, elem_of_app; by left|by right].
  - intros pre1 y pre2 E Hy. apply snoc_split in E as [[pre3 E]|[-> ->]].
    + destruct (I4 pre1 y pre3 E Hy) as (it & Hit & Hkit). exists it. split; [|done]. rewrite list_lookup_insert_ne; [done|]. intros Eq. apply (prefix_index _ _ _ y Hl); [rewrite E; apply elem_of_app; right; left|done].
    + exists (with_kernel x (total_inputs f) k consumer false required item). rewrite list_lookup_insert_eq by lia. split; [done|]. split; [|done]. destruct Hplain as [P1 P2 P3 P4]. split; [by split|cbn; rewrite I6; lia|by exists k].
  - cbn [total_inputs]. rewrite offset_snoc, I6. unfold node_inputs, num_inputs. rewrite Hs. lia.
  - cbn [pending_counts_layout]. rewrite length_app. simpl. lia.
  - intros y [Hy|Hy%list_elem_of_singleton]%elem_of_app Hys.
    + destruct (I9 y Hy Hys) as (h' & Eh' & Hp). exists h'. split; [|by eapply placed_wider]. rewrite list_lookup_insert_ne; [done|]. intros Eq. by apply (prefix_index _ _ _ y Hl).
    + subst y. exists h. split; [by rewrite list_lookup_insert_eq by lia|]. destruct Hh as (? & ? & ?). split_and!; [lia|done|done].
  - by rewrite length_insert.
  - unfold root_list in *. rewrite filter_app, map_app, filter_cons, I12. destruct (decide (is_root x)); cbn; [done|by rewrite app_nil_r].
Qed.

Lemma init_nodes_ok s f : init_inv [] s f -> exists s' f', for_each_status (init_node g (replicate (num_node_ids g) ""%string)) (nodes g) s = Done (StatusOK, s') /\ init_inv (node_list g) s' f'.
Proof using Type*.
  intros Hi. destruct (nodes_loop_status g Hwf (ex_source Hex) (init_node g (replicate (num_node_ids g) ""%string)) (fun pre s => exists f, init_inv pre s f) s) as (s' & E & f' & Hi'); [eauto| |eauto].
  intros pre x post n s1 Hl Hx [f1 Hi1]. by eapply init_step.
Qed.

(** ** Slots of inputs *)
Definition start_at (l : Items) (i : nat) : nat := match l !! i with Some (Some item) => input_start item | _ => 0%nat end.

Definition final_edge (st : nat -> nat) (e : EdgeInfo) (p : Edge * Node) : Prop :=
  dst_id e = node_index p.2 /\ output_slot e = Z.to_nat (src_output_ p.1) /\ input_slot e = (Z.to_nat (dst_input_ p.1) + st (node_index p.2))%nat.

Definition final_edges (st : nat -> nat) (x : Node) (es : list EdgeInfo) : Prop := Forall2 (final_edge st) es (data_of (outs_of g x)) /\ last_marks es.

Lemma move_slots_ok (l : Items) es : Forall (fun e => exists d, l !! dst_id e = Some (Some d)) es ->
  exists es', move_slots l es = Done es' /\ Forall2 (fun e e' => dst_id e' = dst_id e /\ output_slot e' = output_slot e /\ is_last e' = is_last e /\ input_slot e' = (input_slot e + start_at l (dst_id e))%nat) es es'.
Proof using.
  induction 1 as [|e es [d Hd] _ (es' & E & Hes)]; [by exists []|]. cbn [move_slots]. unfold move_slot. rewrite Hd, E. eexists. split; [reflexivity|]. constructor; [|done]. cbn. unfold start_at. by rewrite Hd.
Qed.

Lemma last_marks_same es es' : Forall2 (fun e e' : EdgeInfo => output_slot e' = output_slot e /\ is_last e' = is_last e) es es' -> last_marks es -> last_marks es'.
Proof using.
  intros Hs Hm i e' He' Hl j f' Hj Hf'. destruct (Forall2_lookup_r _ _ _ _ _ Hs He') as (e & He & Es & El), (Forall2_lookup_r _ _ _ _ _ Hs Hf') as (f & Hf & Fs & _). rewrite Es, Fs. eapply Hm; try done. congruence.
Qed.

Lemma first_edges_moved (l : Items) x es : x ∈ node_list g -> first_edges x es -> (forall y, y ∈ node_list g -> exists d, l !! node_index y = Some (Some d)) ->
  exists es', move_slots l es = Done es' /\ final_edges (start_at l) x es'.
Proof using Type*.
  intros Hx [Hf Hm] Hl. pose proof (outs_nodes x Hx) as Ho. assert (Hd : Forall (fun p => p.2 ∈ node_list g) (data_of (outs_of g x))) by (rewrite Forall_forall in Ho |- *; unfold data_of; intros p [_ Hp]%list_elem_of_filter; by apply Ho).
  destruct (move_slots_ok l es) as (es' & E & Hs).
  { apply Forall_lookup. intros i e He. destruct (Forall2_lookup_l _ _ _ _ _ Hf He) as (e0 & He0 & Ed & _). rewrite list_lookup_fmap, fmap_Some in He0. destruct He0 as (p & Hp & ->). rewrite Forall_lookup in Hd. rewrite Ed. cbn. apply Hl. by eapply Hd. }
  exists es'. split; [done|]. split.
  - apply Forall2_same_length_lookup_2; [pose proof (Forall2_length _ _ _ Hs); pose proof (Forall2_length _ _ _ Hf) as Hlen; rewrite length_map in Hlen; lia|]. intros i e' p He' Hp. destruct (Forall2_lookup_r _ _ _ _ _ Hs He') as (e & He & S1 & S2 & _ & S4).
    destruct (Forall2_lookup_l _ _ _ _ _ Hf He) as (e0 & He0 & F1 & F2 & F3). rewrite list_lookup_fmap, Hp in He0. cbn in He0. simplify_eq. unfold final_edge. rewrite S1, S2, S4, F1, F2, F3. by cbn.
  - eapply last_marks_same; [|exact Hm]. eapply Forall2_impl; [exact Hs|]. naive_solver.
Qed.

Lemma with_edges_id item : with_edges (output_edges item) item = item.
Proof using. by destruct item. Qed.

(** Items [l] with other output edges. *)
Definition edges_only (l l' : Items) : Prop :=
  length l' = length l /\ forall i, match l !! i, l' !! i with Some (Some it), Some (Some it') => it' = with_edges (output_edges it') it | Some None, Some None => True | None, None => True | _, _ => False end.

Lemma edges_only_start l l' i : edges_only l l' -> start_at l' i = start_at l i.
Proof using.
  intros [_ He]. specialize (He i). unfold start_at. destruct (l !! i) as [[it|]|], (l' !! i) as [[it'|]|]; try done. rewrite He. by destruct it.
Qed.

Lemma final_edges_ext st st' x es : (forall i, st i = st' i) -> final_edges st x es -> final_edges st' x es.
Proof using. intros Hst [Hf Hm]. split; [|done]. eapply Forall2_impl; [exact Hf|]. intros e p (? & ? & Hi). unfold final_edge. by rewrite <- Hst. Qed.

Lemma move_edges_ok (l : Items) : items_ok (fun x item => if IsSink x then True else first_edges x (output_edges item)) l ->
  exists l', for_each (move_edges g) (nodes g) l = Done (tt, l') /\ edges_only l l' /\
    forall x, x ∈ node_list g -> IsSink x = false -> exists item, l' !! node_index x = Some (Some item) /\ final_edges (start_at l) x (output_edges item).
Proof using Type*.
  intros [L1 L2 L3]. destruct (nodes_loop g Hwf (ex_source Hex) (move_edges g) (fun pre l' => edges_only l l' /\
    (forall x, x ∈ node_list g -> x ∉ pre -> l' !! node_index x = l !! node_index x) /\
    (forall x, x ∈ pre -> IsSink x = false -> exists item, l' !! node_index x = Some (Some item) /\ final_edges (start_at l) x (output_edges item))) l) as (l' & E & He & _ & Hd).
  - split_and!; [|done|by intros x ?%not_elem_of_nil]. split; [done|]. intros i. destruct (l !! i) as [[it|]|]; try done. by rewrite with_edges_id.
  - intros pre x post n l' Hl Hx (He & Hrest & Hdone). pose proof (mid_list _ _ _ Hl) as Hxl. pose proof (not_in_prefix _ _ _ Hl) as Hnx. unfold move_edges. rewrite (node_at_here n x Hx). destruct (IsSink x) eqn:Es.
    { exists l'. split_and!; try done; [intros y Hy Hn; apply Hrest; [done|]; intros Hin; apply Hn, elem_of_app; by left|]. intros y [Hy|Hy%list_elem_of_singleton]%elem_of_app Hys; [by apply Hdone|congruence]. }
    destruct (L2 x Hxl) as (item & Hitem & Hfirst). rewrite Es in Hfirst. rewrite (Hrest x Hxl Hnx), Hitem. assert (Hall : forall y, y ∈ node_list g -> exists d, l' !! node_index y = Some (Some d)).
    { intros y Hy. destruct (L2 y Hy) as (it & Hit & _). destruct He as [_ He]. specialize (He (node_index y)). rewrite Hit in He. destruct (l' !! node_index y) as [[it'|]|]; [eauto|done..]. }
    destruct (first_edges_moved l' x (output_edges item) Hxl Hfirst Hall) as (es & -> & Hes). eexists. split; [reflexivity|]. pose proof (index_lt x Hxl) as Hlt. assert (Hlt' : (node_index x < length l')%nat) by (rewrite (proj1 He), L1; lia). split_and!.
    + split; [rewrite length_insert; apply He|]. intros i. destruct (decide (i = node_index x)) as [->|Hne]; [|rewrite list_lookup_insert_ne by done; apply He]. rewrite Hitem, list_lookup_insert_eq by done. by destruct item.
    + intros y Hy Hn. rewrite list_lookup_insert_ne; [apply Hrest; [done|]; intros Hin; apply Hn, elem_of_app; by left|]. intros Eq. apply Hn, elem_of_app. right. apply list_elem_of_singleton. by apply (node_index_inj g Hwf).
    + intros y [Hy|Hy%list_elem_of_singleton]%elem_of_app Hys.
      * destruct (Hdone y Hy Hys) as (it & Hit & ?). exists it. split; [|done]. rewrite list_lookup_insert_ne; [done|]. intros Eq. by apply (prefix_index _ _ _ y Hl).
      * subst y. eexists. rewrite list_lookup_insert_eq by done. split; [done|]. destruct item; cbn. eapply final_edges_ext; [|exact Hes]. intros i. by apply edges_only_start.
  - exists l'. by split_and!.
Qed.

(** ** Counts *)
Lemma set_initial_ok h v p : in_range h p = true -> exists p', set_initial_count h v p = Done (tt, p') /\ length (bytes_ p') = length (bytes_ p).
Proof using.
  intros Hr. unfold set_initial_count, bind. rewrite (load_spec h p Hr). destruct (store_spec h (mkCounts (trunc_pending h v) 0 false (padding (counts_at h (bytes_ p)))) p Hr) as (p' & E & _ & Hl & _). eauto.
Qed.

Lemma placed_in_range hi h p : placed 0 hi h -> Z.of_nat (length (bytes_ p)) = hi -> in_range h p = true.
Proof using. intros (H1' & H2' & _) Hl. unfold in_range. apply andb_true_intro. split; apply Z.leb_le; lia. Qed.

(** What the counts leave unchanged. *)
Definition same_graph (s s' : InitState) : Prop :=
  items s' = items s /\ init_roots s' = init_roots s /\ requires_control_flow_ s' = requires_control_flow_ s /\ pending_ids_ s' = pending_ids_ s.

Lemma init_pending_run n x s f p cnt h : node_here g n x -> IsSink x = false -> frame_info_ s = {[ ""%string := f ]} -> pending_counts f = Some p -> pending_ids_ s !! node_index x = Some h ->
  in_range h p = true -> init_counts s = Some cnt -> length cnt = num_node_ids g ->
  exists s' p', init_pending g (replicate (num_node_ids g) ""%string) (Some n) s = Done (tt, s') /\ length (bytes_ p') = length (bytes_ p) /\ same_graph s s' /\
    frame_info_ s' = {[ ""%string := mkFrame (input_count f) (total_inputs f) (pending_counts_layout f) (Some p') (frame_nodes f) (parallel_iterations f) ]} /\
    init_counts s' = Some (<[node_index x := Z.of_nat (size_of (in_edges_ x))]> cnt).
Proof using Type*.
  intros Hx Hsink Hf Hp Hh Hr Hc Hlen. pose proof (here_list n x Hx) as Hxl. pose proof (index_lt x Hxl) as Hlt. destruct (plain_class x Hxl) as (_ & Hm & _ & _). destruct (set_initial_ok h (Z.of_nat (size_of (in_edges_ x))) p Hr) as (p' & Ep & Hl').
  unfold init_pending, bind at 1, lift at 1. rewrite (node_at_here n x Hx), Hsink. unfold bind at 1, at_index at 1, lift at 1. rewrite lookup_replicate_2 by done. unfold bind at 1, lift at 1. unfold GetMaxPendingCounts at 1. rewrite Hm. unfold bind at 1. rewrite (ensure_root _ f) by done.
  unfold bind at 1, get at 1. unfold bind at 1, at_index at 1, lift at 1. rewrite Hh, Hp. unfold bind at 1, lift at 1. cbn [fst snd]. rewrite Ep. unfold bind at 1, put_frame at 1, modify at 1. rewrite (set_frames_root _ f) by done. rewrite Hc. cbn [fst snd].
  destruct (lookup_lt_is_Some_2 cnt (node_index x)) as [c0 Hc0]; [lia|]. unfold bind, at_index, lift. rewrite Hc0. unfold modify. eexists _, p'. split; [reflexivity|]. split_and!; try done. cbn. do 2 f_equal. pose proof (in_degree x Hxl) as Hd. unfold kint32max in Hd. unfold int32. rewrite Z.mod_small; lia.
Qed.

Lemma InitializePending_ok s f c : frame_info_ s = {[ ""%string := f ]} -> unique_frame_names c = [""%string] -> frame_names c = replicate (num_node_ids g) ""%string ->
  requires_control_flow_ s = false -> length (items s) = num_node_ids g -> 0 <= pending_counts_layout f ->
  (forall x, x ∈ node_list g -> IsSink x = false -> exists h, pending_ids_ s !! node_index x = Some h /\ placed 0 (pending_counts_layout f) h) ->
  exists s' f' cnt, InitializePending g c s = Done (tt, s') /\ same_graph s s' /\ frame_info_ s' = {[ ""%string := f' ]} /\ total_inputs f' = total_inputs f /\ init_counts s' = Some cnt /\
    length cnt = num_node_ids g /\ forall x, x ∈ node_list g -> IsSink x = false -> cnt !! node_index x = Some (Z.of_nat (size_of (in_edges_ x))).
Proof using Type*.
  intros Hf Hu Hns Hflow Hlen Hlay Hh. unfold InitializePending, bind at 1. rewrite Hu. cbn [for_each]. unfold bind at 1, make_counts, bind at 1. rewrite (ensure_root _ f) by done. destruct (new_char (pending_counts_layout f)) as [addr raw] eqn:En.
  pose proof (ex_memory Hex (pending_counts_layout f) Hlay) as [Ha Hraw]. rewrite En in Ha, Hraw. cbn [fst snd] in Ha, Hraw. unfold bind at 1, lift at 1, PendingCounts_new. change sizeof_LargeCounts with 8. rewrite Ha. cbn [Z.eqb negb]. rewrite andb_false_r. unfold put_frame, modify at 1. rewrite (set_frames_root _ f) by done. cbn [ret].
  unfold bind at 1, modify at 1. cbn [requires_control_flow_ set_frames items]. rewrite Hflow, Hlen, Hns.
  set (f0 := mkFrame (input_count f) (total_inputs f) (pending_counts_layout f) (Some (mkPending (pending_counts_layout f) raw)) (frame_nodes f) (parallel_iterations f)).
  set (s0 := set_counts (Some (replicate (num_node_ids g) 0)) (set_frames {[ ""%string := f0 ]} s)).
  destruct (nodes_loop g Hwf (ex_source Hex) (init_pending g (replicate (num_node_ids g) ""%string)) (fun pre s' => same_graph s s' /\
    exists f' p' cnt, frame_info_ s' = {[ ""%string := f' ]} /\ total_inputs f' = total_inputs f /\ pending_counts f' = Some p' /\ Z.of_nat (length (bytes_ p')) = pending_counts_layout f /\
      init_counts s' = Some cnt /\ length cnt = num_node_ids g /\ forall x, x ∈ pre -> IsSink x = false -> cnt !! node_index x = Some (Z.of_nat (size_of (in_edges_ x)))) s0) as (s' & E & Hs & f' & p' & cnt & Hf' & Ht & _ & _ & Hc & Hcl & Hcnt).
  - split; [done|]. exists f0, (mkPending (pending_counts_layout f) raw), (replicate (num_node_ids g) 0). split_and!; try done; [apply length_replicate|by intros x ?%not_elem_of_nil].
  - intros pre x post n s1 Hl Hx (Hs & f1 & p1 & cnt1 & F1 & F2 & F3 & F4 & F5 & F6 & F7). pose proof (mid_list _ _ _ Hl) as Hxl. destruct (IsSink x) eqn:Es.
    + exists s1. split; [unfold init_pending, bind, lift; by rewrite (node_at_here n x Hx), Es|]. split; [done|]. exists f1, p1, cnt1. split_and!; try done. intros y [Hy|Hy%list_elem_of_singleton]%elem_of_app Hys; [by apply F7|congruence].
    + destruct (Hh x Hxl Es) as (h & Hid & Hpl). pose proof Hs as (S1 & S2 & S3 & S4). destruct (init_pending_run n x s1 f1 p1 cnt1 h Hx Es F1 F3) as (s2 & p2 & E2 & Hp2 & Hs2 & Hf2 & Hc2); [by rewrite S4|by eapply placed_in_range|done|done|].
      exists s2. split; [done|]. split; [destruct Hs2 as (? & ? & ? & ?); unfold same_graph; split_and!; congruence|]. eexists _, p2, _. split; [exact Hf2|]. split_and!; [done|done|lia|exact Hc2|by rewrite length_insert|]. pose proof (index_lt x Hxl) as Hlt.
      intros y [Hy|Hy%list_elem_of_singleton]%elem_of_app Hys; [|subst y; by rewrite list_lookup_insert_eq by lia]. rewrite list_lookup_insert_ne; [by apply F7|]. intros Eq. by apply (prefix_index _ _ _ y Hl).
  - exists s', f', cnt. by split_and!.
Qed.

(** ** Attributes of allocators *)
Definition attrs_only (l l' : Items) : Prop :=
  length l' = length l /\ forall i, match l !! i, l' !! i with Some (Some it), Some (Some it') => it' = with_attrs (output_attrs it') it | Some None, Some None => True | None, None => True | _, _ => False end.

Definition attrs_ok (l : Items) : Prop := forall x, x ∈ node_list g -> exists item, l !! node_index x = Some (Some item) /\
  length (output_attrs item) = length (output_types (props_ x)) /\ Forall (fun a => scope_id a = 0) (output_attrs item) /\
  (IsSink x = false -> exists k, kernel item = Some k /\ (length (output_types (props_ x)) <= length (output_on_host k))%nat).

Lemma attrs_only_refl l : attrs_only l l.
Proof using. split; [done|]. intros i. destruct (l !! i) as [[it|]|]; try done. by destruct it. Qed.

Lemma attrs_only_trans l1 l2 l3 : attrs_only l1 l2 -> attrs_only l2 l3 -> attrs_only l1 l3.
Proof using.
  intros [H1' H2'] [H3' H4']. split; [congruence|]. intros i. specialize (H2' i). specialize (H4' i). destruct (l1 !! i) as [[it1|]|], (l2 !! i) as [[it2|]|], (l3 !! i) as [[it3|]|]; try done. rewrite H4', H2'. by destruct it1.
Qed.

Lemma merge_ok x i a l : attrs_ok l -> x ∈ node_list g -> 0 <= i < num_outputs x -> scope_id a = 0 ->
  exists l', merge_attr (node_index x) i a l = Done (tt, l') /\ attrs_ok l' /\ attrs_only l l'.
Proof using Type*.
  intros Hl Hx Hi Ha. destruct (Hl x Hx) as (item & Hitem & Hlen & Hz & Hk). unfold merge_attr. rewrite Hitem, (proj2 (Z.ltb_ge i 0)) by lia. destruct (lookup_lt_is_Some_2 (output_attrs item) (Z.to_nat i)) as [b Hb]; [unfold num_outputs in Hi; lia|]. rewrite Hb.
  pose proof (proj1 (Forall_lookup _ _) Hz _ _ Hb) as Hzb. cbn in Hzb. unfold MergeAttr. rewrite Hzb, Ha, Z.eqb_refl. eexists. split; [reflexivity|]. assert (Hlt : (node_index x < length l)%nat) by (by eapply lookup_lt_Some). split.
  - intros y Hy. destruct (decide (node_index y = node_index x)) as [E|Hne].
    + apply (node_index_inj g Hwf) in E; [|done|done]. subst y. eexists. rewrite list_lookup_insert_eq by done. split; [done|]. cbn. split_and!; [by rewrite length_insert|by apply Forall_insert|done].
    + rewrite list_lookup_insert_ne by done. by apply Hl.
  - split; [by rewrite length_insert|]. intros j. destruct (decide (j = node_index x)) as [->|Hne]; [rewrite Hitem, list_lookup_insert_eq by done; by destruct item|]. rewrite list_lookup_insert_ne by done. by apply attrs_only_refl.
Qed.

Lemma infer_end_ok props name host a p : device_attr props name = Done (inr p) -> exists a', infer_end props name host a = Done (StatusOK, a') /\ scope_id a' = scope_id a.
Proof using. intros E. unfold infer_end. rewrite E. eexists. split; [reflexivity|]. destruct (negb _); [done|]. by destruct (_ && _). Qed.

Lemma InferAllocAttr_ok x d : x ∈ node_list g -> d ∈ node_list g -> exists a, InferAllocAttr x d no_attr = Done (StatusOK, a) /\ scope_id a = 0.
Proof using Type*.
  intros Hx Hd. destruct (ex_devices Hex x Hx) as [Hr _], (ex_devices Hex d Hd) as [_ Hs]. unfold InferAllocAttr.
  assert (exists a1, (if IsRecv x then infer_end (props_ x) "send_device" (IsHostRecv x) no_attr else Done (StatusOK, no_attr)) = Done (StatusOK, a1) /\ scope_id a1 = 0) as (a1 & -> & H1').
  { destruct (IsRecv x); [|by eexists]. destruct (Hr eq_refl) as [p Hp]. by eapply infer_end_ok. }
  assert (exists a2, (if IsSend d then infer_end (props_ d) "recv_device" (IsHostSend d) a1 else Done (StatusOK, a1)) = Done (StatusOK, a2) /\ scope_id a2 = 0) as (a2 & -> & H2').
  { destruct (IsSend d); [|by eexists]. destruct (Hs eq_refl) as [p Hp]. destruct (infer_end_ok _ _ (IsHostSend d) a1 p Hp) as (a2 & ? & ?). exists a2. split; [done|congruence]. }
  eexists. split; [reflexivity|]. by destruct (IsCollective x).
Qed.

(** Loops whose steps change attributes only. *)
Lemma attrs_loop {A} (f : A -> M Items unit) (k : list A) l : (forall a l, a ∈ k -> attrs_ok l -> exists l', f a l = Done (tt, l') /\ attrs_ok l' /\ attrs_only l l') -> attrs_ok l ->
  exists l', for_each f k l = Done (tt, l') /\ attrs_ok l' /\ attrs_only l l'.
Proof using.
  revert l. induction k as [|a k IH]; intros l Hf Hl; [exists l; split_and!; [done|done|apply attrs_only_refl]|]. cbn [for_each]. destruct (Hf a l ltac:(left) Hl) as (l1 & E1 & Hl1 & Ho1). unfold bind. rewrite E1.
  destruct (IH l1) as (l2 & E2 & Hl2 & Ho2); [intros b l0 Hb; apply Hf; by right|done|]. exists l2. split_and!; [done|done|by eapply attrs_only_trans].
Qed.

Lemma attrs_loop_status {A} (f : A -> M Items Status) (k : list A) l : (forall a l, a ∈ k -> attrs_ok l -> exists l', f a l = Done (StatusOK, l') /\ attrs_ok l' /\ attrs_only l l') -> attrs_ok l ->
  exists l', for_each_status f k l = Done (StatusOK, l') /\ attrs_ok l' /\ attrs_only l l'.
Proof using.
  intros Hf Hl. destruct (attrs_loop (fun a => bind (f a) (fun st => if ok st then ret tt else crash)) k l) as (l' & E & ?); [|done|exists l'; split; [by apply for_each_ok|done]].
  intros a l0 Ha Hl0. destruct (Hf a l0 Ha Hl0) as (l' & E & ?). exists l'. split; [|done]. unfold bind. by rewrite E.
Qed.

Lemma infer_edge_ok x p l : x ∈ node_list g -> p ∈ outs_of g x -> attrs_ok l -> exists l', infer_edge x p l = Done (StatusOK, l') /\ attrs_ok l' /\ attrs_only l l'.
Proof using Type*.
  intros Hx Hp Hl. pose proof (proj1 (Forall_forall _ _) (outs_fits x Hx) p Hp) as Hfit. pose proof (proj1 (Forall_forall _ _) (outs_nodes x Hx) p Hp) as Hd. unfold infer_edge. destruct (IsControlEdge p.1) eqn:Ec; [exists l; split_and!; [done|done|apply attrs_only_refl]|].
  destruct (Hfit Ec) as (Hs & _). destruct (InferAllocAttr_ok x p.2 Hx Hd) as (a & Ea & Hz). unfold bind at 1, lift. rewrite Ea. cbn [fst snd ok]. case_bool_decide as Hn; [exists l; split_and!; [done|done|apply attrs_only_refl]|].
  destruct (merge_ok x (src_output_ p.1) a l Hl Hx) as (l' & El & ?); [unfold num_outputs; lia|done|]. exists l'. split; [|done]. unfold bind. fold (node_index x). by rewrite El.
Qed.

Lemma host_output_ok x out l : x ∈ node_list g -> (out < length (output_types (props_ x)))%nat -> attrs_ok l -> exists l', host_output (node_index x) out l = Done (tt, l') /\ attrs_ok l' /\ attrs_only l l'.
Proof using Type*.
  intros Hx Ho Hl. destruct (Hl x Hx) as (item & Hitem & Hlen & _ & Hk). assert (Hs : IsSink x = false) by (destruct (IsSink x) eqn:E; [|done]; rewrite (ex_sink Hex x Hx E) in Ho; simpl in Ho; lia).
  destruct (Hk Hs) as (k & Ek & Hle). unfold host_output. rewrite Hitem, Ek. destruct (lookup_lt_is_Some_2 (output_on_host k) out) as [b ->]; [lia|]. destruct b; [|exists l; split_and!; [done|done|apply attrs_only_refl]]. apply (merge_ok x (Z.of_nat out)); [done|done|unfold num_outputs; lia|done].
Qed.

Lemma infer_node_ok n x l : node_here g n x -> attrs_ok l -> exists l', infer_node g (Some n) l = Done (StatusOK, l') /\ attrs_ok l' /\ attrs_only l l'.
Proof using Type*.
  intros Hx Hl. pose proof (here_list n x Hx) as Hxl. unfold infer_node, bind at 1, lift at 1. rewrite (node_at_here n x Hx). unfold bind at 1, lift at 1. rewrite (out_edges_ok g Hwf x Hxl).
  destruct (attrs_loop_status (infer_edge x) (outs_of g x) l) as (l1 & E1 & Hl1 & Ho1); [intros p l0 Hp; by apply infer_edge_ok|done|]. unfold bind at 1. rewrite E1. cbn [ok].
  destruct (attrs_loop (host_output (node_index x)) (seq 0 (length (output_types (props_ x)))) l1) as (l2 & E2 & Hl2 & Ho2); [intros o l0 Hin; apply host_output_ok; [done|]; apply elem_of_seq in Hin; lia|done|].
  exists l2. unfold bind. fold (node_index x). rewrite E2. split_and!; [done|done|by eapply attrs_only_trans].
Qed.

Lemma scoped_allocators_none l : (forall o, o ∈ l -> exists n x, o = Some n /\ node_here g n x) -> scoped_allocators g l = Done [].
Proof using Type*.
  induction l as [|o l IH]; intros Hl; [done|]. destruct (Hl o ltac:(left)) as (n & x & -> & Hx). cbn [scoped_allocators]. rewrite (node_at_here n x Hx), IH; [|intros o Ho; apply Hl; by right]. destruct (ex_attrs Hex x (here_list n x Hx)) as (_ & _ & ->). done.
Qed.

Lemma SetAllocAttrs_ok l : attrs_ok l -> exists l', SetAllocAttrs g l = Done (StatusOK, l') /\ attrs_ok l' /\ attrs_only l l'.
Proof using Type*.
  intros Hl. destruct (attrs_loop_status (infer_node g) (nodes g) l) as (l' & E & Hl' & Ho); [|done|].
  - intros o l0 Hin Hl0. destruct (nodes_here o Hin) as (n & x & -> & Hx). by eapply infer_node_ok.
  - exists l'. split; [|by split]. unfold SetAllocAttrs, bind at 1. rewrite E. cbn [ok]. unfold bind, lift. by rewrite (scoped_allocators_none (nodes g) nodes_here).
Qed.

(** ** The whole of [Initialize] *)

(** What the executor is given. *)
Record built (V : ImmutableExecutorState) (st : nat -> nat) : Prop := {
  bu_length : length (gview V) = num_node_ids g;
  bu_node x : x ∈ node_list g -> IsSink x = false ->
    exists item, gview V !! node_index x = Some (Some item) /\ kernel_item x (st (node_index x)) item /\ final_edges st x (output_edges item);
  bu_only i item : gview V !! i = Some (Some item) -> exists x, x ∈ node_list g /\ node_index x = i /\ IsSink x = false;
  bu_start pre x post : node_list g = pre ++ x :: post -> IsSink x = false -> st (node_index x) = offset pre;
  bu_total : root_total_inputs V = offset (node_list g);
  bu_roots : root_nodes V = root_list (node_list g);
  bu_counts x : x ∈ node_list g -> IsSink x = false -> atomic_pending_counts_ V !! node_index x = Some (Z.of_nat (size_of (in_edges_ x)))
}.

Lemma elem_split x : x ∈ node_list g -> exists pre post, node_list g = pre ++ x :: post.
Proof using. apply list_elem_of_split. Qed.

Lemma kernel_item_edges x start item es : kernel_item x start item -> kernel_item x start (with_edges es item).
Proof using. by intros [[P1 P2 P3 P4] K2 K3]. Qed.

Lemma kernel_item_attrs x start item l : kernel_item x start item -> length l = length (output_types (props_ x)) /\ Forall (fun a => scope_id a = 0) l -> kernel_item x start (with_attrs l item).
Proof using. intros [[P1 P2 P3 P4] K2 K3] Hl. by split; [split|..]. Qed.

(** The items before the edges are moved. *)
Lemma init_items s f : init_inv (node_list g) s f -> items_ok (fun x item => if IsSink x then True else first_edges x (output_edges item)) (items s).
Proof using Type*.
  intros [I1 I2 I3 I4 _ _ _ _ _ _ _ _]. split; [done| |done]. intros x Hx. destruct (IsSink x) eqn:Es; [destruct (I3 x Hx ltac:(by right)) as (it & ? & _); by exists it|]. destruct (elem_split x Hx) as (pre & post & E). destruct (I4 pre x post E Es) as (it & ? & _ & ?). by exists it.
Qed.

Lemma attrs_ok_moved s f l : init_inv (node_list g) s f -> edges_only (items s) l -> attrs_ok l.
Proof using Type*.
  intros Hi [_ He] x Hx. specialize (He (node_index x)). destruct (IsSink x) eqn:Es.
  - destruct (ii_raw _ _ _ Hi x Hx ltac:(by right)) as (it & Hit & [P1 P2 P3 [P4 P5]] & _). rewrite Hit in He. destruct (l !! node_index x) as [[it'|]|]; [|done..]. exists it'. rewrite He. by split_and!.
  - destruct (elem_split x Hx) as (pre & post & E). destruct (ii_done _ _ _ Hi pre x post E Es) as (it & Hit & [[P1 P2 P3 [P4 P5]] _ (k & Ek & Hk & _)] & _). rewrite Hit in He. destruct (l !! node_index x) as [[it'|]|]; [|done..]. exists it'. rewrite He. split_and!; try done.
    intros _. exists k. split; [done|]. destruct (ex_kernel Hex x Hx Es) as (k' & Ek' & Hle & _). rewrite Ek in Ek'. injection Ek' as <-. exact Hle.
Qed.

(** The item of a node in the end. *)
Lemma final_item s f l l' x : init_inv (node_list g) s f -> edges_only (items s) l -> attrs_ok l' -> attrs_only l l' -> x ∈ node_list g -> IsSink x = false ->
  (exists item, l !! node_index x = Some (Some item) /\ final_edges (start_at (items s)) x (output_edges item)) ->
  exists item, l' !! node_index x = Some (Some item) /\ kernel_item x (start_at (items s) (node_index x)) item /\ final_edges (start_at (items s)) x (output_edges item).
Proof using Type*.
  intros Hi [_ He] Hal [_ Ha] Hx Es (item & Hitem & Hed). destruct (elem_split x Hx) as (pre & post & E). destruct (ii_done _ _ _ Hi pre x post E Es) as (it & Hit & Hk & _). specialize (He (node_index x)). rewrite Hit, Hitem in He.
  specialize (Ha (node_index x)). rewrite Hitem in Ha. destruct (l' !! node_index x) as [[it'|]|] eqn:Eit'; [|done..]. exists it'. split; [done|]. destruct (Hal x Hx) as (it2 & E2 & A1 & A2 & _). rewrite Eit' in E2. injection E2 as <-.
  assert (Hst : start_at (items s) (node_index x) = input_start it) by (unfold start_at; by rewrite Hit). rewrite Hst, (ki_start _ _ _ Hk). split.
  - rewrite Ha. apply kernel_item_attrs; [|done]. rewrite He. by apply kernel_item_edges.
  - rewrite Ha. by destruct item.
Qed.

Lemma Initialize_ok : exists s V st, Initialize g = Done (StatusOK, s) /\ view_of s = Some V /\ built V st.
Proof using Type*.
  destruct GraphView_Initialize_ok as (l0 & E0 & [G1 G2 G3]), BuildControlFlowInfo_ok as (c & Ec & Hu & Hns). unfold Initialize. rewrite E0, Ec, Hu, Hns. cbn [for_each].
  set (f0 := mkFrame 0 0 0 None (Some []) (-1)). set (s0 := mkInit l0 {[ ""%string := f0 ]} false (replicate (num_node_ids g) (mkHandle 0 false)) [] [] None). assert (Hi0 : init_inv [] s0 f0).
  { split; cbn; try done; [|by destruct pre1|by intros x ?%not_elem_of_nil|apply length_replicate]. intros x Hx _. destruct (G2 x Hx) as (it & ? & ? & ? & ?). exists it. by split_and!. }
  destruct (init_nodes_ok s0 f0 Hi0) as (s1 & f1 & E1 & Hi1). pose proof (init_items s1 f1 Hi1) as Hit. destruct (move_edges_ok (items s1) Hit) as (l2 & E2 & He2 & Hd2).
  destruct (InitializePending_ok (set_items l2 s1) f1 c) as (s3 & f3 & cnt & E3 & (S1 & S2 & S3 & S4) & F3 & T3 & C3 & L3 & N3); [apply Hi1|done|done|apply Hi1|cbn; rewrite (proj1 He2); apply Hi1|apply Hi1|apply Hi1|].
  destruct (SetAllocAttrs_ok l2 (attrs_ok_moved s1 f1 l2 Hi1 He2)) as (l4 & E4 & Hok4 & Ha4).
  exists (set_items l4 s3), (mkImmutable (map (fun o => item ← o; _ ← kernel item; Some item) l4) (init_roots s3) (Z.to_nat (total_inputs f3)) cnt), (start_at (items s1)). split_and!.
  - unfold bind at 1, ensure_nodes, bind at 1, bind at 1, EnsureFrameInfo. cbn [frame_info_]. rewrite lookup_empty. cbn [ret]. unfold put_frame, modify at 1. cbn [frame_info_ set_frames]. rewrite insert_insert_eq. unfold ret at 1. unfold bind at 1, root_frame at 1. cbn [frame_info_ set_frames]. rewrite lookup_insert_eq. unfold bind at 1, modify at 1. unfold set_ids, set_frames. cbn [items frame_info_ requires_control_flow_ pending_ids_ init_roots enter_frame_info_ init_counts input_count total_inputs pending_counts_layout pending_counts parallel_iterations FrameInfo_new].
    rewrite insert_empty. fold f0 s0. unfold bind at 1. rewrite E1. cbn [ok]. unfold bind at 1, on_items at 1. rewrite E2. unfold bind at 1. rewrite E3. unfold on_items. rewrite S1. cbn [items set_items]. by rewrite E4.
  - unfold view_of. cbn [init_counts set_items frame_info_ items init_roots]. rewrite C3, F3. by simplify_map_eq.
  - assert (Hlook : forall i, map (fun o : option NodeItem => item ← o; _ ← kernel item; Some item) l4 !! i = (fun o : option NodeItem => item ← o; _ ← kernel item; Some item) <$> l4 !! i) by (intros; apply list_lookup_fmap).
    split; cbn [gview root_nodes root_total_inputs atomic_pending_counts_].
    + rewrite length_map, (proj1 Ha4), (proj1 He2). apply Hi1.
    + intros x Hx Es. destruct (final_item s1 f1 l2 l4 x Hi1 He2 Hok4 Ha4 Hx Es (Hd2 x Hx Es)) as (it & Eit & Hk & Hfe). exists it. rewrite Hlook, Eit. cbn. destruct (ki_kernel _ _ _ Hk) as (k & _ & -> & _). by split_and!.
    + intros i it Hi. rewrite Hlook, fmap_Some in Hi. destruct Hi as (o & Ho & Eo). destruct o as [it4|]; [|done]. cbn in Eo. destruct (kernel it4) as [k|] eqn:Ek; [|done]. cbn in Eo. simplify_eq.
      destruct Ha4 as [_ Ha4]. specialize (Ha4 i). rewrite Ho in Ha4. destruct (l2 !! i) as [[it2|]|] eqn:El2; [|done..]. destruct He2 as [_ He2]. specialize (He2 i). rewrite El2 in He2. destruct (items s1 !! i) as [[it1|]|] eqn:El1; [|done..].
      destruct (ii_only _ _ _ Hi1 i it1 El1) as (x & Hx & <-). exists x. split_and!; try done. destruct (IsSink x) eqn:Es; [|done]. destruct (ii_raw _ _ _ Hi1 x Hx ltac:(by right)) as (it & Eit & _ & _ & Hkn). rewrite Eit in El1. simplify_eq. rewrite Ha4, He2 in Ek. by destruct it1; cbn in *; simplify_eq.
    + intros pre x post E Es. destruct (ii_done _ _ _ Hi1 pre x post E Es) as (it & Eit & Hk & _). unfold start_at. rewrite Eit. apply Hk.
    + rewrite T3, (ii_total _ _ _ Hi1). lia.
    + rewrite S2. apply Hi1.
    + apply N3.
Qed.

(** ** Counting edges *)
Lemma concat_bind {A B} (f : A -> list B) l : concat (map f l) = l ≫= f.
Proof using. induction l as [|x l IH]; [done|]. cbn. by rewrite IH. Qed.

Definition outs_at_id (i : nat) : list nat :=
  match nodes_ g !! i with Some (Some m) => match node_heap g !! m with Some y => elements_of (out_edges_ y) | None => [] end | _ => [] end.

Definition edge_to (n e : nat) : bool := match edge_heap g !! e with Some y => (dst_ y =? n)%nat | None => false end.

Lemma outs_at_id_node n x : node_here g n x -> outs_at_id (node_index x) = elements_of (out_edges_ x).
Proof using. intros [Hn Hx]. unfold outs_at_id. by rewrite Hn, Hx. Qed.

Lemma outs_at_id_elem i e : e ∈ outs_at_id i -> exists y, live_edge g e y /\ nodes_ g !! i = Some (Some (src_ y)).
Proof using Type*.
  unfold outs_at_id. destruct (nodes_ g !! i) as [[m|]|] eqn:Ei; [|by intros ?%not_elem_of_nil..]. destruct (node_here_at g Hwf i m Ei) as (x & Hx & <-). rewrite (proj2 Hx). intros He. apply (node_ends g Hwf m x e Hx) in He as (y & Hy & <-). eauto.
Qed.

Lemma in_edges_count n x : node_here g n x -> concat (map (fun i => filter (fun e => edge_to n e = true) (outs_at_id i)) (seq 0 (num_node_ids g))) ≡ₚ elements_of (in_edges_ x).
Proof using Type*.
  intros Hx. rewrite concat_bind. pose proof (map_Forall_lookup_1 _ _ _ _ (wf_ok _ _ _ _ Hwf) (proj2 Hx)) as [Hi _]. apply NoDup_Permutation.
  - apply NoDup_bind; [| |apply NoDup_seq].
    + intros i j e _ _ He He'. apply list_elem_of_filter in He as [_ He], He' as [_ He']. apply outs_at_id_elem in He as (y & Hy & Ei), He' as (y' & Hy' & Ej). assert (y' = y) as -> by (destruct Hy as [_ E1], Hy' as [_ E2]; congruence).
      destruct (node_here_at g Hwf _ _ Ei) as (z & Hz & <-), (node_here_at g Hwf _ _ Ej) as (z' & Hz' & <-). destruct Hz as [_ Hz], Hz' as [_ Hz']. by simplify_eq.
    + intros i _. apply NoDup_filter. unfold outs_at_id. destruct (nodes_ g !! i) as [[m|]|]; [|apply NoDup_nil_2..]. destruct (node_heap g !! m) as [z|] eqn:Ez; [|apply NoDup_nil_2]. pose proof (map_Forall_lookup_1 _ _ _ _ (wf_ok _ _ _ _ Hwf) Ez) as [_ Ho]. by apply set_ok_nodup.
  - by apply set_ok_nodup.
  - intros e. rewrite (node_starts g Hwf n x e Hx), list_elem_of_bind. split.
    + intros (i & He & _). apply list_elem_of_filter in He as [Hto He]. apply outs_at_id_elem in He as (y & Hy & _). exists y. split; [done|]. unfold edge_to in Hto. rewrite (proj2 Hy) in Hto. by apply Nat.eqb_eq.
    + intros (y & Hy & Hd). destruct (live_edge_pair g Hwf e y Hy) as (sn & dn & Hs & _ & _). exists (node_index sn). split.
      * apply list_elem_of_filter. split; [unfold edge_to; rewrite (proj2 Hy); by apply Nat.eqb_eq|]. rewrite (outs_at_id_node _ _ Hs). apply (node_ends g Hwf _ _ e Hs). eauto.
      * apply elem_of_seq. split; [lia|]. simpl. by apply index_lt, (here_list (src_ y)).
Qed.

(** The edges of one node that enter another. *)
Lemma dests_count n x l : node_here g n x -> IsSink x = false -> (forall e, e ∈ l -> exists y, live_edge g e y) ->
  let ps := omap (edge_pair g) l in
  zsum (occ (node_index x)) (map (fun p => node_index p.2) (data_of ps)) + zsum (occ (node_index x)) (control_dests ps) = Z.of_nat (length (filter (fun e => edge_to n e = true) l)).
Proof using Type*.
  intros Hx Hs. induction l as [|e l IH]; intros Hl; [done|]. cbv zeta in IH |- *. destruct (Hl e ltac:(left)) as [y Hy]. destruct (live_edge_pair g Hwf e y Hy) as (sn & dn & Hsn & Hdn & Ep). cbn [omap list_omap]. rewrite Ep. specialize (IH ltac:(intros e' He'; apply Hl; by right)).
  unfold data_of, control_dests in *. rewrite !filter_cons. cbn [fst snd]. assert (Hto : edge_to n e = true <-> node_index dn = node_index x).
  { unfold edge_to. rewrite (proj2 Hy). rewrite Nat.eqb_eq. split.
    - intros Ed. rewrite Ed in Hdn. destruct Hdn as [_ Hdn], Hx as [_ Hx]. by simplify_eq.
    - intros Ei. destruct Hdn as [Hdn _], Hx as [Hx _]. rewrite Ei in Hdn. by simplify_eq. }
  assert (Hocc : Z.of_nat (length (if decide (edge_to n e = true) then e :: filter (fun e => edge_to n e = true) l else filter (fun e => edge_to n e = true) l)) =
    occ (node_index x) (node_index dn) + Z.of_nat (length (filter (fun e => edge_to n e = true) l))).
  { unfold occ. destruct (decide (edge_to n e = true)) as [He|He], (decide (node_index dn = node_index x)) as [Ei|Ei]; [simpl length; lia| | |lia]; [by apply Hto in He|by apply Hto in Ei]. }
  rewrite Hocc. clear Hocc. destruct (IsControlEdge y) eqn:Ec.
  - case_decide as Hc1; [cbn in Hc1; congruence|]. case_decide as Hc2.
    + cbn [map]. rewrite zsum_cons. cbn [snd]. fold (node_index dn). lia.
    + unfold occ at 3. destruct (decide (node_index dn = node_index x)) as [Ei|Ei]; [|lia]. apply (node_index_inj g Hwf) in Ei; [|by eapply here_list|by eapply here_list]. subst dn. destruct Hc2. by split.
  - case_decide as Hc1; [|cbn in Hc1; congruence]. case_decide as Hc2; [destruct Hc2 as [Hc2 _]; cbn in Hc2; congruence|]. cbn [map]. rewrite zsum_cons. cbn [snd]. lia.
Qed.

(** ** What is built is fit for a step *)
Section Built.
Context (V : ImmutableExecutorState) (st : nat -> nat) (Hb : built V st).

Lemma item_node i item : item_at V i item -> exists n x, node_here g n x /\ node_index x = i /\ IsSink x = false /\ kernel_item x (st i) item /\ final_edges st x (output_edges item).
Proof using Type*.
  intros Hi. destruct (bu_only _ _ Hb i item Hi) as (x & Hx & <- & Hs). destruct (bu_node _ _ Hb x Hx Hs) as (it & Eit & Hk & Hf). unfold item_at in Hi. rewrite Eit in Hi. simplify_eq. apply (node_list_elem g Hwf) in Hx as [n Hx]. by exists n, x.
Qed.

Lemma node_item n x : node_here g n x -> IsSink x = false -> exists item, item_at V (node_index x) item /\ kernel_item x (st (node_index x)) item /\ final_edges st x (output_edges item).
Proof using Type*. intros Hx Hs. apply (bu_node _ _ Hb x); [by eapply here_list|done]. Qed.

(** An edge of an item and the edge of the graph it stands for. *)
Lemma edge_node n x item ed : node_here g n x -> final_edges st x (output_edges item) -> ed ∈ output_edges item ->
  exists e p, live_edge g e p.1 /\ src_ p.1 = n /\ node_here g (dst_ p.1) p.2 /\ IsControlEdge p.1 = false /\ IsSink p.2 = false /\ final_edge st ed p /\
    0 <= src_output_ p.1 < num_outputs x /\ 0 <= dst_input_ p.1 < num_inputs p.2.
Proof using Type*.
  intros Hx [Hf _] Hed. apply list_elem_of_lookup in Hed as [i Hi]. destruct (Forall2_lookup_l _ _ _ _ _ Hf Hi) as (p & Hp & Hfe). apply list_elem_of_lookup_2, list_elem_of_filter in Hp as [Hc Hp].
  apply (outs_of_elem g Hwf n x p Hx) in Hp as (e & Hy & Hs & Hd). subst n. destruct (ex_edge Hex e p.1 x p.2 Hy Hx Hd) as [_ Hdata]. destruct (Hdata Hc) as (? & _ & ? & ?). by exists e, p.
Qed.

Lemma ordered_starts pre x mid y post : node_list g = pre ++ x :: mid ++ y :: post -> IsSink x = false -> IsSink y = false ->
  (st (node_index x) + length (input_types (props_ x)) <= st (node_index y))%nat.
Proof using Type*.
  intros E Hx Hy. rewrite (bu_start _ _ Hb pre x _ E Hx). rewrite (bu_start _ _ Hb (pre ++ x :: mid) y post) by (try done; by rewrite E, <- app_assoc).
  change (x :: mid) with ([x] ++ mid). rewrite (app_assoc pre [x] mid), offset_app, offset_snoc. unfold node_inputs. rewrite Hx. lia.
Qed.

(** The inputs of different nodes do not overlap. *)
Lemma starts_disjoint x y : x ∈ node_list g -> y ∈ node_list g -> IsSink x = false -> IsSink y = false -> x <> y ->
  (st (node_index x) + length (input_types (props_ x)) <= st (node_index y))%nat \/ (st (node_index y) + length (input_types (props_ y)) <= st (node_index x))%nat.
Proof using Type*.
  intros Hx Hy Hsx Hsy Hne. destruct (elem_split x Hx) as (pre & post & E). rewrite E in Hy. apply elem_of_app in Hy as [Hy|Hy].
  - right. apply list_elem_of_split in Hy as (l1 & l2 & ->). eapply (ordered_starts l1 y l2 x post); try done. by rewrite E, <- app_assoc.
  - left. apply elem_of_cons in Hy as [->|Hy]; [done|]. apply list_elem_of_split in Hy as (l1 & l2 & ->). by eapply (ordered_starts pre x l1 y l2).
Qed.

Lemma starts_fit x : x ∈ node_list g -> IsSink x = false -> (st (node_index x) + length (input_types (props_ x)) <= offset (node_list g))%nat.
Proof using Type*.
  intros Hx Hs. destruct (elem_split x Hx) as (pre & post & E). rewrite (bu_start _ _ Hb pre x post E Hs), E. change (x :: post) with ([x] ++ post). rewrite app_assoc, offset_app, offset_snoc. unfold node_inputs. rewrite Hs. lia.
Qed.

(** An input slot belongs to one edge of the graph. *)
Lemma slot_edge e1 e2 p1 p2 ed1 ed2 : live_edge g e1 p1.1 -> live_edge g e2 p2.1 -> node_here g (dst_ p1.1) p1.2 -> node_here g (dst_ p2.1) p2.2 ->
  IsControlEdge p1.1 = false -> IsControlEdge p2.1 = false -> IsSink p1.2 = false -> IsSink p2.2 = false -> final_edge st ed1 p1 -> final_edge st ed2 p2 ->
  0 <= dst_input_ p1.1 < num_inputs p1.2 -> 0 <= dst_input_ p2.1 < num_inputs p2.2 -> input_slot ed1 = input_slot ed2 -> e1 = e2.
Proof using Type*.
  intros Hy1 Hy2 Hd1 Hd2 Hc1 Hc2 Hs1 Hs2 (_ & _ & F1) (_ & _ & F2) B1 B2 Hslot. unfold num_inputs in *. assert (Ei : node_index p1.2 = node_index p2.2).
  { destruct (decide (node_index p1.2 = node_index p2.2)) as [|Hne]; [done|]. destruct (starts_disjoint p1.2 p2.2) as [Hd|Hd]; try done; try (by eapply here_list); [congruence|lia|lia]. }
  assert (Ed : dst_ p1.1 = dst_ p2.1) by (destruct Hd1 as [Hd1 _], Hd2 as [Hd2 _]; rewrite Ei in Hd1; by simplify_eq). apply (ex_input Hex e1 e2 p1.1 p2.1); try done. rewrite Ei in F1. lia.
Qed.

Lemma edge_pair_inj e1 e2 p : edge_pair g e1 = Some p -> edge_pair g e2 = Some p -> live (edges_ g) e1 -> live (edges_ g) e2 -> e1 = e2.
Proof using Type*.
  intros E1 E2 [i Hi] [j Hj]. destruct (wf_edges _ _ _ _ Hwf i e1 Hi) as (y1 & Hy1 & Hid1 & _), (wf_edges _ _ _ _ Hwf j e2 Hj) as (y2 & Hy2 & Hid2 & _). unfold edge_pair in *. rewrite Hy1 in E1. rewrite Hy2 in E2. cbn in *.
  destruct (node_heap g !! dst_ y1); [|done]. destruct (node_heap g !! dst_ y2); [|done]. cbn in *. simplify_eq. assert (i = j) as -> by lia. by simplify_eq.
Qed.

Lemma omap_NoDup {A B} (f : A -> option B) l : NoDup l -> (forall x y z, x ∈ l -> y ∈ l -> f x = Some z -> f y = Some z -> x = y) -> NoDup (omap f l).
Proof using.
  induction 1 as [|x l Hx _ IH]; intros Hf; [apply NoDup_nil_2|]. cbn. assert (IH' : NoDup (omap f l)) by (apply IH; intros a b z Ha Hb0; apply Hf; by right). destruct (f x) as [z|] eqn:E; [|done]. constructor; [|done].
  rewrite list_elem_of_omap. intros (y & Hy & Ey). apply Hx. by rewrite (Hf x y z ltac:(left) ltac:(by right) E Ey).
Qed.

Lemma outs_of_NoDup n x : node_here g n x -> NoDup (outs_of g x).
Proof using Type*.
  intros Hx. pose proof (map_Forall_lookup_1 _ _ _ _ (wf_ok _ _ _ _ Hwf) (proj2 Hx)) as [_ Ho]. apply omap_NoDup; [by apply set_ok_nodup|]. intros e1 e2 p H1' H2' E1 E2. apply (node_ends g Hwf n x _ Hx) in H1' as (? & [? _] & _), H2' as (? & [? _] & _). by eapply edge_pair_inj.
Qed.

Lemma item_slots_NoDup n x item : node_here g n x -> final_edges st x (output_edges item) -> NoDup (map input_slot (output_edges item)).
Proof using Type*.
  intros Hx Hf. apply NoDup_alt. intros i j slot Hi Hj. rewrite list_lookup_fmap, fmap_Some in Hi, Hj. destruct Hi as (ed1 & Hi & ->), Hj as (ed2 & Hj & Hslot). pose proof (outs_of_NoDup n x Hx) as Hnd. apply (NoDup_filter (fun p => IsControlEdge p.1 = false)) in Hnd.
  destruct Hf as [Hf Hm]. destruct (Forall2_lookup_l _ _ _ _ _ Hf Hi) as (p1 & Hp1 & F1), (Forall2_lookup_l _ _ _ _ _ Hf Hj) as (p2 & Hp2 & F2). rewrite NoDup_alt in Hnd. apply (Hnd i j p1 Hp1). fold (data_of (outs_of g x)). rewrite Hp2. f_equal.
  apply list_elem_of_lookup_2, list_elem_of_filter in Hp1 as [C1 Hp1], Hp2 as [C2 Hp2]. apply (outs_of_elem g Hwf n x _ Hx) in Hp1 as (e1 & Y1 & S1 & D1), Hp2 as (e2 & Y2 & S2 & D2). subst n. pose proof S2 as S2'.
  destruct (ex_edge Hex e1 p1.1 x p1.2 Y1 Hx D1) as [_ X1], (ex_edge Hex e2 p2.1 x p2.2 Y2 ltac:(by rewrite S2) D2) as [_ X2]. destruct (X1 C1) as (_ & _ & B1 & K1), (X2 C2) as (_ & _ & B2 & K2).
  assert (e1 = e2) as <- by (by eapply (slot_edge e1 e2 p1 p2 ed1 ed2)). destruct p1 as [y1 d1], p2 as [y2 d2]. cbn in *. destruct Y1 as [_ Y1], Y2 as [_ Y2]. simplify_eq. f_equal. destruct D1 as [_ D1], D2 as [_ D2]. by simplify_eq.
Qed.

Lemma all_slots_NoDup : NoDup (concat (map (fun n => map input_slot (edges_of V n)) (all_nodes V))).
Proof using Type*.
  rewrite concat_bind. apply NoDup_bind; [| |apply NoDup_seq].
  - intros i j slot _ _ Hi Hj. apply list_elem_of_fmap in Hi as (ed1 & -> & Hi), Hj as (ed2 & Hslot & Hj). unfold edges_of in *. destruct (gview V !! i) as [[it1|]|] eqn:E1; [|by apply not_elem_of_nil in Hi..]. destruct (gview V !! j) as [[it2|]|] eqn:E2; [|by apply not_elem_of_nil in Hj..].
    destruct (item_node i it1 E1) as (n1 & x1 & X1 & <- & _ & _ & F1), (item_node j it2 E2) as (n2 & x2 & X2 & <- & _ & _ & F2). destruct (edge_node n1 x1 it1 ed1 X1 F1 Hi) as (e1 & p1 & Y1 & S1 & D1 & C1 & K1 & G1 & _ & B1), (edge_node n2 x2 it2 ed2 X2 F2 Hj) as (e2 & p2 & Y2 & S2 & D2 & C2 & K2 & G2 & _ & B2).
    assert (e1 = e2) as <- by (by eapply (slot_edge e1 e2 p1 p2 ed1 ed2)). destruct Y1 as [_ Y1], Y2 as [_ Y2]. assert (p1.1 = p2.1) as Ep by congruence. rewrite Ep in S1. assert (n1 = n2) as <- by congruence. destruct X1 as [_ X1], X2 as [_ X2]. by simplify_eq.
  - intros i _. unfold edges_of. destruct (gview V !! i) as [[it|]|] eqn:E; [|apply NoDup_nil_2..]. destruct (item_node i it E) as (n & x & X & <- & _ & _ & F'). by eapply item_slots_NoDup.
Qed.

Lemma item_dests n x item : node_here g n x -> kernel_item x (st (node_index x)) item -> final_edges st x (output_edges item) ->
  dests item = map (fun p => node_index p.2) (data_of (outs_of g x)) ++ control_dests (outs_of g x).
Proof using Type*.
  intros Hx Hk [Hf _]. unfold dests. rewrite (pi_controls _ _ (ki_plain _ _ _ Hk)). f_equal. clear -Hf. induction Hf as [|ed p es ps (E & _) _ IH]; [done|]. cbn. by rewrite E, IH.
Qed.

(** The edges into a node, counted in the view and in the graph. *)
Lemma indegree_size n x : node_here g n x -> IsSink x = false -> indegree V (node_index x) = Z.of_nat (size_of (in_edges_ x)).
Proof using Type*.
  intros Hx Hs. unfold size_of. rewrite <- (in_edges_count n x Hx). unfold indegree, all_nodes. rewrite (bu_length _ _ Hb).
  assert (Hlen : forall ls : list (list nat), Z.of_nat (length (concat ls)) = zsum (fun l => Z.of_nat (length l)) ls) by (clear; intros ls; induction ls as [|l ls IH]; [done|]; cbn [concat]; rewrite length_app, zsum_cons; lia).
  rewrite Hlen, zsum_map. apply zsum_ext. intros i _. unfold dests_of. destruct (gview V !! i) as [[it|]|] eqn:E.
  - destruct (item_node i it E) as (m & y & Y & <- & _ & Hk & Hf). rewrite (item_dests m y it Y Hk Hf), zsum_app, (outs_at_id_node m y Y). apply (dests_count n x); [done|done|]. intros e He. apply (node_ends g Hwf m y e Y) in He as (z & ? & _). eauto.
  - assert (Hnil : outs_at_id i = []); [|by rewrite Hnil]. apply elem_of_nil_inv. intros e He. apply outs_at_id_elem in He as (y & Hy & Hi). destruct (live_edge_pair g Hwf e y Hy) as (sn & dn & Hsn & Hdn & _). destruct (ex_edge Hex e y sn dn Hy Hsn Hdn) as [Hss _].
    destruct (node_item _ sn Hsn Hss) as (it & Eit & _). destruct (node_here_at g Hwf i _ Hi) as (z & Hz & <-). assert (z = sn) as -> by (destruct Hz as [_ Hz], Hsn as [_ Hsn]; by simplify_eq). unfold item_at in Eit. congruence.
  - assert (Hnil : outs_at_id i = []); [|by rewrite Hnil]. apply elem_of_nil_inv. intros e He. apply outs_at_id_elem in He as (y & Hy & Hi). apply lookup_lt_Some in Hi. apply lookup_ge_None in E. rewrite (bu_length _ _ Hb) in E. unfold num_node_ids in E. lia.
Qed.

Lemma is_item_node i : is_item V i = true <-> exists n x, node_here g n x /\ node_index x = i /\ IsSink x = false.
Proof using Type*.
  rewrite is_item_true. split.
  - intros [item Hi]. destruct (item_node i item Hi) as (n & x & ? & ? & ? & _). eauto.
  - intros (n & x & Hx & <- & Hs). destruct (node_item n x Hx Hs) as (item & ? & _). eauto.
Qed.

Lemma last_edge es l1 ed l2 : last_marks es -> es = l1 ++ ed :: l2 -> is_last ed = true -> Forall (fun e => output_slot e <> output_slot ed) l2.
Proof using.
  intros Hm -> Hl. apply Forall_lookup. intros j e He. eapply (Hm (length l1) ed); [by rewrite lookup_app_r, Nat.sub_diag by lia|done|..|].
  - instantiate (1 := (length l1 + S j)%nat). lia.
  - rewrite lookup_app_r by lia. replace (length l1 + S j - length l1)%nat with (S j) by lia. done.
Qed.

Lemma control_dest n x d : node_here g n x -> d ∈ control_dests (outs_of g x) -> is_item V d = true.
Proof using Type*.
  intros Hx Hd. unfold control_dests in Hd. apply list_elem_of_fmap in Hd as (p & -> & Hp). apply list_elem_of_filter in Hp as [[_ Hs] Hp]. apply (outs_of_elem g Hwf n x p Hx) in Hp as (e & _ & _ & Hd). apply is_item_node. by exists (dst_ p.1), p.2.
Qed.

Lemma dest_item i d : d ∈ dests_of V i -> is_item V d = true.
Proof using Type*.
  unfold dests_of. destruct (gview V !! i) as [[it|]|] eqn:E; [|by intros ?%not_elem_of_nil..]. destruct (item_node i it E) as (n & x & Hx & <- & _ & Hk & Hf). intros [Hd|Hd]%elem_of_app.
  - apply list_elem_of_fmap in Hd as (ed & -> & Hed). destruct (edge_node n x it ed Hx Hf Hed) as (e & p & _ & _ & Hd & _ & Hs & (-> & _) & _). apply is_item_node. by exists (dst_ p.1), p.2.
  - rewrite (pi_controls _ _ (ki_plain _ _ _ Hk)) in Hd. by eapply control_dest.
Qed.

Lemma indegree_bound i : indegree V i < 2 ^ 31.
Proof using Type*.
  destruct (is_item V i) eqn:E.
  - apply is_item_node in E as (n & x & Hx & <- & Hs). rewrite (indegree_size n x Hx Hs). pose proof (in_degree x (here_list n x Hx)). unfold kint32max in *. lia.
  - unfold indegree. rewrite zsum_0; [lia|]. intros m _. apply zsum_0. intros d Hd. unfold occ. destruct (decide (d = i)) as [->|]; [|done]. apply dest_item in Hd. congruence.
Qed.

Lemma kernel_const n x item : node_here g n x -> IsSink x = false -> kernel_item x (st (node_index x)) item ->
  (is_noop item = true -> (item_outputs item <= 1)%nat) /\ (is_Some (const_tensor_ item) -> item_outputs item = 1%nat).
Proof using Type*.
  intros Hx Hs [[_ Ho _ _] _ (k & Ek & _ & Hn & Hc)]. destruct (ex_kernel Hex x (here_list n x Hx) Hs) as (k' & Ek' & _ & K1 & K2). rewrite Ek in Ek'. injection Ek' as <-. rewrite Ho, Hn, Hc. split; [|done]. intros Hb1%bool_decide_eq_true. by apply K1.
Qed.

Lemma built_view_ok : view_ok V.
Proof using Type*.
  assert (Hroot : forall i, i ∈ root_nodes V <-> is_item V i = true /\ indegree V i = 0).
  { intros i. rewrite (bu_roots _ _ Hb), is_item_node. unfold root_list. rewrite list_elem_of_fmap. split.
    - intros (x & -> & [[Hs Hin] Hx]%list_elem_of_filter). apply (node_list_elem g Hwf) in Hx as [n Hx]. split; [by exists n, x|]. rewrite (indegree_size n x Hx Hs). unfold size_of. by rewrite Hin.
    - intros [(n & x & Hx & <- & Hs) Hd]. exists x. split; [done|]. apply list_elem_of_filter. split; [|by eapply here_list]. split; [done|]. rewrite (indegree_size n x Hx Hs) in Hd. unfold size_of in Hd. apply nil_length_inv. lia. }
  split; try done.
  - intros i item ed Hi Hed. destruct (item_node i item Hi) as (n & x & Hx & <- & Hs & Hk & Hf). destruct (edge_node n x item ed Hx Hf Hed) as (e & p & _ & _ & Hd & _ & Hsd & (E1 & E2 & E3) & B1 & B2). unfold num_outputs, num_inputs in *. rewrite (pi_outputs _ _ (ki_plain _ _ _ Hk)). split; [lia|].
    destruct (node_item _ p.2 Hd Hsd) as (dit & Edit & Hkd & _). exists dit. rewrite E1. split; [done|]. rewrite (ki_start _ _ _ Hkd), (pi_inputs _ _ (ki_plain _ _ _ Hkd)). lia.
  - intros i item d Hi Hd. destruct (item_node i item Hi) as (n & x & Hx & <- & _ & Hk & _). rewrite (pi_controls _ _ (ki_plain _ _ _ Hk)) in Hd. by eapply control_dest.
  - intros i item l1 ed l2 Hi E Hl. destruct (item_node i item Hi) as (n & x & _ & _ & _ & _ & [_ Hm]). by eapply last_edge.
  - apply all_slots_NoDup.
  - intros i item Hi. destruct (item_node i item Hi) as (n & x & Hx & <- & Hs & Hk & _). rewrite (ki_start _ _ _ Hk), (pi_inputs _ _ (ki_plain _ _ _ Hk)), (bu_total _ _ Hb). apply starts_fit; [by eapply here_list|done].
  - intros i j it1 it2 k Hi Hj Hne Hk1 Hk2. destruct (item_node i it1 Hi) as (n1 & x1 & X1 & <- & S1 & K1 & _), (item_node j it2 Hj) as (n2 & x2 & X2 & <- & S2 & K2 & _). rewrite (ki_start _ _ _ K1), (pi_inputs _ _ (ki_plain _ _ _ K1)) in Hk1. rewrite (ki_start _ _ _ K2), (pi_inputs _ _ (ki_plain _ _ _ K2)) in Hk2.
    destruct (starts_disjoint x1 x2) as [Hd|Hd]; try done; try (by eapply here_list); [congruence|lia|lia].
  - intros i (n & x & Hx & <- & Hs)%is_item_node. rewrite (bu_counts _ _ Hb x (here_list n x Hx) Hs). f_equal. symmetry. by eapply indegree_size.
  - rewrite (bu_roots _ _ Hb). unfold root_list. pose proof (node_list_NoDup g Hwf) as Hnd. eapply sublist_NoDup; [exact Hnd|]. apply fmap_sublist, sublist_filter.
  - intros i item Hi. destruct (item_node i item Hi) as (n & x & Hx & <- & Hs & Hk & _). by apply (kernel_const n x).
  - intros i item Hi. destruct (item_node i item Hi) as (n & x & Hx & <- & Hs & Hk & _). by apply (kernel_const n x).
  - rewrite (bu_length _ _ Hb). pose proof (ex_nodes Hex). unfold num_node_ids. lia.
  - apply indegree_bound.
Qed.
End Built.
End Executable.
