(* ===== verification/ExecutorInitTheorems.v ===== *)
(** * From graphs to steps

    What [Initialize] makes of a graph, and what that gives for every step of
    it. *)
From S2P Require Import Prelude Counting Numbers DeviceName DeviceNameTheorems FlatRep EdgeSet Graph GraphInv GraphSpec GraphTheorems PendingCounts GraphView GraphViewInit Executor ExecutorInit ExecutorInv ExecutorSteps ExecutorData ExecutorEnd ExecutorResults GraphViewProofs ExecutorTheorems.
From stdpp Require Import list gmap strings options.
#[local] Open Scope Z_scope.

Section Graphs.
Context {F : Type} `{FlatSetLaws F} `{ExecutorParams} `{Absl} (g : Graph F).
#[local] Notation Node := (Node F).


Context (Hex : executable g).


End Graphs.

(** * Deciding what [Initialize] needs *)
Section Decide.
Context {F : Type} `{FlatSetLaws F} `{ExecutorParams} `{Absl} (g : Graph F).
#[local] Notation Node := (Node F).















End Decide.

(** * Properties *)



(** ** A graph on concrete data

    A constant, which two nodes read, and a node that reads both, with the
    control edges from the source and to the sink. *)
#[local] Instance step_sets : FlatSet (FlatRep nat) := pointer_set demo_address.

#[local] Instance step_sets_laws : FlatSetLaws (FlatRep nat) := pointer_set_laws demo_address.

#[local] Instance step_registry : OpRegistry := {
  OpData := list Z * list Z;
  LookUp op :=
    if bool_decide (op = "NoOp"%string) then inr ([], [])
    else if bool_decide (op = "Const"%string) then inr ([], [1])
    else if bool_decide (op = "Neg"%string) then inr ([1], [1])
    else if bool_decide (op = "Add"%string) then inr ([1; 1], [1])
    else inl (StatusError NOT_FOUND);
  is_function_op _ := false;
  InOutTypesForNode _ types := inr types
}.










